(* ===== verification/_CoqProject ===== *)
-Q . S2P
Prelude.v
Endian.v
Buffer.v
BufferTheory.v
Channel.v
EPollPoller.v
PollPoller.v
StdSet.v
Timestamp.v
TimerQueue.v
EventLoop.v
TcpConnection.v
TcpConnectionTheory.v
CrossThread.v
Decimal.v
Http.v
HttpTheory.v
Connector.v
ConnectorTheory.v
TcpClient.v
Memcached.v
MemcachedTheory.v
MemcachedProtocol.v
TcpServer.v
Date.v
LogStream.v
TimeZone.v
TimeFormat.v
LogFile.v
Monitor.v
Mutex.v
BlockingQueue.v
ThreadPool.v
Latch.v
AsyncLogging.v
Codec.v
ProtobufCodec.v
Rpc.v
EndToEnd.v
Acceptor.v
Logging.v
DancingLinks.v
ExactCover.v
Sudoku.v
SudokuMatrix.v
SudokuTheory.v
SudokuServer.v
SudokuStat.v
Multiplexer.v
MultiplexerTheory.v
MultiplexerSystem.v
MultiplexerCorrect.v
FastCgi.v
FastCgiTheory.v
Hub.v
HubTheory.v
Idle.v
IdleTheory.v
Balancer.v
BalancerTheory.v
BalancerCorrect.v
ConnectionSteps.v
Tunnel.v
TunnelCorrect.v
TunnelRuns.v
WordCount.v
WordCountTheory.v
WordCountReceive.v
WordCountFlow.v
WordCountCorrect.v
FileTransfer.v
FileTransferTheory.v
Chat.v
ChatTheory.v
Socks4a.v
Socks4aTheory.v
Inspector.v
InspectorTheory.v
SudokuProd.v
SudokuProdTheory.v
