(* ===== verification/Prelude.v ===== *)
(** * Verification of the muduo network library and the servers built on it

    ** The program

    muduo (src/muduo) is a reactor-style TCP library.  An [EventLoop] owns a [Poller]
    (epoll or poll), a [TimerQueue] and a queue of functors that other threads add to; it
    dispatches ready [Channel]s, each of which calls back into its owner: a
    [TcpConnection], a [Connector], the timer queue or the loop's own wakeup descriptor.
    A [TcpConnection] has an input and an output [Buffer] and the state machine
    kConnecting - kConnected - kDisconnecting - kDisconnected.  A [TcpServer] spreads
    connections over an [EventLoopThreadPool]; a [TcpClient] drives a [Connector] and
    keeps one connection.  On top of the library the repository has an HTTP server
    (src/http), a memcached server (src/memcached/server), codecs that cut the byte stream
    into messages (src/asio/chat, src/protobuf/codec, src/protorpc), remote procedure
    calls over them (src/protorpc), a sudoku server with a dancing-links solver (src/sudoku),
    a FastCGI responder (src/fastcgi), a publish and subscribe hub (src/examples/hub), servers
    that drop idle connections (src/examples/idleconnection), a load balancer for remote
    procedure calls (src/protobuf/rpcbalancer), a relay that joins two connections
    (src/socks4a), a distributed word count (src/wordcount), file servers
    (src/examples/filetransfer) and a pair of servers that carry many connections over one
    (src/examples/multiplexer).  src/muduo/base holds timestamps,
    dates, time zones, logging (streams, lines, files, the asynchronous back end), queues,
    latches and a thread pool.

    ** Files

    - Prelude.v (this file): results of code that can stop, machine integers, raw storage,
      tactics and hints.
    - Endian.v: src/muduo/net/Endian.h.
    - Buffer.v, BufferTheory.v: src/muduo/net/Buffer.h and Buffer.cc, with [size_t]
      indices that wrap and storage accesses that fault.
    - Channel.v: src/muduo/net/Channel.h, Channel.cc and the class [Poller] (Poller.h) as
      a type class; EPollPoller.v and PollPoller.v (src/muduo/net/poller) are its
      instances, and theorems about channels are proved against the class.
    - StdSet.v: std::set and std::map as sorted lists.  Timestamp.v, TimerQueue.v:
      src/muduo/base/Timestamp.h, src/muduo/net/Timer.h, TimerQueue.h, TimerQueue.cc.
    - EventLoop.v: src/muduo/net/EventLoop.h, EventLoop.cc, as a step relation between the
      loop thread and any number of other threads.
    - TcpConnection.v, TcpConnectionTheory.v: src/muduo/net/TcpConnection.h,
      TcpConnection.cc, where a call from another thread is one step; CrossThread.v takes those
      calls apart into test, store and hand-over.
    - Connector.v, ConnectorTheory.v, TcpClient.v, TcpServer.v: the sources of the same
      names in src/muduo/net, and EventLoopThreadPool.
    - Decimal.v: printing and reading decimal numbers.  Http.v, HttpTheory.v: src/http.
    - Inspector.v, InspectorTheory.v: src/inspect, the table of commands and the handler of requests
      over Http.v.
    - Memcached.v, MemcachedTheory.v, MemcachedProtocol.v: src/memcached/server.
    - Date.v, TimeZone.v, LogStream.v, Logging.v, LogFile.v, AsyncLogging.v: the sources of
      the same names in src/muduo/base (LogFile.v with AppendFile of FileUtil.h);
      TimeFormat.v: dates and times as text.  [LogSink] in LogFile.v is the interface
      between the asynchronous back end and the file it writes.
    - Mutex.v: src/muduo/base/Mutex.h and Condition.h one statement at a time, with the holder of the
      mutex.  Monitor.v: mutexes and condition variables as atomic segments with waiting threads;
      BlockingQueue.v, ThreadPool.v, Latch.v (CountDownLatch, EventLoopThread) and
      AsyncLogging.v are built on it.
    - Acceptor.v: src/muduo/net/Acceptor.h, Acceptor.cc and sockets::accept.
    - Codec.v: what the three length-prefixed codecs have in common, as the class
      [FrameCodec], and LengthHeaderCodec (src/asio/chat/codec.h); ProtobufCodec.v:
      src/protobuf/codec/codec.cc and src/protorpc/muduo_protobuf_codec; Rpc.v:
      src/protorpc/RpcChannel.cc.
    - EndToEnd.v: a codec on top of TcpConnection, from one end to the other.
    - DancingLinks.v: the nodes of src/sudoku/sudoku.cc and the operations cover, uncover and
      solve over them; ExactCover.v: the search finds an exact cover or shows there is none;
      Sudoku.v: the solver's constructor and solveSudoku; SudokuMatrix.v: the constructor
      builds the matrix of the board; SudokuTheory.v: solveSudoku.  SudokuServer.v:
      src/sudoku/server_basic.cc; SudokuStat.v: src/sudoku/stat.h.  SudokuProd.v,
      SudokuProdTheory.v: src/sudoku/server_prod.cc, over both.
    - Multiplexer.v: src/examples/multiplexer/multiplexer_simple.cc (Module [Mux]) and
      demux.cc (Module [Demux]); MultiplexerTheory.v: packets and commands;
      MultiplexerSystem.v: the two servers joined by their connection;
      MultiplexerCorrect.v: what the system keeps, and where it fails.
    - FastCgi.v, FastCgiTheory.v: src/fastcgi/fastcgi.h, fastcgi.cc and the request handler
      of fastcgi_test.cc.
    - Hub.v, HubTheory.v: src/examples/hub (codec.cc, hub.cc, pubsub.cc).
    - Idle.v: src/examples/idleconnection, the timing wheel of echo.cc (Module [Wheel], over
      the interface [BucketRing] of boost::circular_buffer) and the list of sortedlist.cc
      (Module [SortedList]); IdleTheory.v: their theorems.
    - Balancer.v: src/protobuf/rpcbalancer/balancer_raw.cc, one I/O thread of the balancer,
      over the interface [Message] of its templates; BalancerTheory.v: the classes of messages
      and the abstract balancer; BalancerCorrect.v: the thread with its connections.
    - ConnectionSteps.v: what a connection's step means to an owner whose callbacks run after it,
      shared by the relay, the word count and the file servers.
    - Tunnel.v: src/socks4a/tunnel.h and tcprelay.cc over two connections of TcpConnection.v;
      TunnelCorrect.v: the relay through its phases; TunnelRuns.v: runs, orderly and not.
    - Socks4a.v, Socks4aTheory.v: src/socks4a/socks4a.cc, the requests of one connection and the
      bytes it passes to its tunnel.
    - WordCount.v: src/wordcount (hash.h, hasher.cc, receiver.cc); WordCountTheory.v: files,
      records and lines; WordCountReceive.v: the receiver and its connections; WordCountFlow.v:
      the hasher's two threads over a connection of TcpConnection.v; WordCountCorrect.v: hashers
      and receiver together, and runs.
    - FileTransfer.v: src/examples/filetransfer/download2.cc and download3.cc, over a connection of
      TcpConnection.v; FileTransferTheory.v: their theorem and runs.
    - Chat.v, ChatTheory.v: src/asio/chat/server_threaded_efficient.cc (Module [Efficient]) and
      server_threaded_highperformance.cc (Module [HighPerformance]).

    ** How the code is modelled

    Definitions keep the names of the sources.  A method is a function from the object's
    record to [res] of the new record; [assert], dangling pointers, accesses outside
    storage, exceptions and LOG_FATAL are the faults of [res].  What the sources call and
    do not define (system calls, operator new, user callbacks, boost::hash) is a
    parameter with its documented behaviour as hypotheses.  Components whose difficulty
    is the order of events ([EventLoop], [TcpConnection], [Connector], [TcpClient],
    [TcpServer], [Acceptor], the threads of Monitor.v) have a type of actions, an [enabled] predicate saying what their
    environment may do, and [reachable] states; invariants are proved by induction over
    reachability.  Fields called ghost in the file headers record history for the
    statements and are never read by the code modelled.

    ** What is proved

    - Buffer: any sequence of operations allowed on an abstract byte queue runs without a
      fault and agrees with it ([buffer_refines_queue]); scatter reads deliver exactly the
      bytes read; integers and prepended headers round trip on hosts of either byte order.
    - Channel and pollers: both pollers report exactly the watched descriptors that are
      ready, and a channel's life cycle is the same over either.
    - Timers: [handleRead] runs every due timer once and in order whatever the callbacks
      do; [timers_] and [activeTimers_] stay equal as sets.
    - EventLoop: no wakeup is lost, functors run once and in the order queued, a pass over
      the functors ends although they may queue more.
    - TcpConnection: bytes on the wire and in the output buffer are the messages accepted,
      in order ([stream_integrity]); no allowed run fails an assertion
      ([connection_never_asserts]; [urgent_hangup_closes_twice],
      [destroy_while_disconnecting_fails] and [startRead_after_down_fails] are what is not
      allowed); callbacks come in the documented order, other threads' calls interleaving step by
      step, as long as the connection does not go down inside one of them
      ([connection_lifecycle]; [close_twice], [destroyed_while_disconnecting],
      [send_after_destroyed] and [late_startRead] are runs in which it does).
    - Connector, TcpClient, TcpServer: sockets are closed or handed over exactly once,
      back-off doubles up to its maximum, [connections_] is exact, each connection is
      established and destroyed once and in its own loop.  Destructors leave nothing that
      uses the object ([destructor_correct], [client_destructor_correct]) but for the
      functor in [closing_outlives_server].
    - HTTP: parsing inverts printing, does not depend on how the request line and the headers
      are cut (a body must arrive whole), and ends; the server's handler answers and resets.
    - Inspector: requests reach the commands that are registered and the index lists them
      ([inspector_correct]).
    - Memcached: sessions answer any conversation as an abstract key-value store does.
    - Mutexes: sections exclude each other and holder_ says exactly who is in one, so that
      critical sections are the atomic segments of Monitor.v ([mutex_correct]).
    - Threads: queues, the pool and the latch lose no wakeup and keep their order in every
      interleaving ([bounded_queue_correct], [pool_correct], [latch_correct]); a stopped
      pool ends ([pool_stops]).
    - Logging: lines come out whole ([log_lines_correct]), reach the back end's buffers and
      the file in order ([async_logging_correct], [log_file_correct]) and within the fixed
      buffers ([stream_correct]), but for lines longer than a buffer, piles of buffers announced
      as dropped, and what is pending at the end ([stop_loses_lines]).
    - Time: UTC and local conversions are inverses and agree with the calendar counted day
      by day ([utc_correct], [local_time_correct]); zone files are read back as written.
    - Codecs and RPC: messages survive any cutting of the stream, between hosts of any byte
      order, and from one end of a connection to the other ([protobuf_stream],
      [chat_end_to_end]); every remote call is answered once, by its own answer
      ([rpc_correct]).
    - Sudoku: the solver returns a solution that extends the board, or says there is none
      when there is none ([solveSudoku_correct]); the server answers every request once and in
      order however the bytes are cut ([sudoku_server_correct]); the statistics count what
      happened in the last minute ([stat_correct]) and their report is never truncated
      ([report_not_truncated]); with a thread pool and throttling every request is accounted for
      ([every_request_accounted]), and [bad_line_loses_answer] is an answer that is never sent.
    - Multiplexer: each client's bytes reach the connection opened for it, and back, in order
      and to no one else ([multiplexer_correct]); [eleven_visits], [early_leaver],
      [backend_down_third_message] and [late_close] are runs in which the servers fail.
    - FastCGI: the codec never reads outside its buffer and hands over requests assembled
      from their records however the bytes of one request are cut ([fastcgi_correct]; two requests
      in one read are merged, [pipelined_requests_merge]); a response is a
      well-formed stream record followed by the end of the request ([respond_correct]).
    - Hub: every subscriber receives the publications of its topics, in order, and the
      commands are cut the same way however the bytes arrive ([hub_correct],
      [client_messages]).
    - Idle connections: the wheel shuts a connection down when it has been silent for the given
      number of ticks and never before ([wheel_correct]); so does the list while its times are
      ordered ([sorted_list_correct], [missed_when_unordered]).
    - RPC balancer: calls go in turn to the backends that are up and every answer goes back to
      its client once, whether messages are rewritten in place or parsed ([balancer_correct]);
      [truncated_id_forwarded] is a malformed message that is passed on.
    - TCP relay: bytes are passed on in both directions without loss and neither direction
      stalls, as long as connections close when nothing waits to be drained
      ([relay_correct]); [reset_client_crashes], [reset_server_revives], [aborted_leaks] and
      [same_poll_crashes] are closes at other times.
    - SOCKS server: a request is granted and its data passed on when the read that completes it
      leaves at most 128 bytes ([request_granted]) and nothing else opens a tunnel ([only_requests_open]);
      [eager_client_refused] and [refused_then_opened] are requests it treats otherwise.
    - Word count: after calm runs of the hashers the shards have the number of occurrences of every
      word in all files ([wordcount_correct]), and a hasher's file thread is woken from throttle() and has everything
      on the wire when disconnect() returns ([hasher_correct]).  [shutdown_overtakes_send] is the
      order of steps the theorems exclude and in which a queued send is lost;
      [dead_receiver_hangs] and [dead_receiver_crashes] are a receiver that dies.
    - File transfer: a client that sees the end of the stream has the file, and the server never
      holds more than a block of it ([download_correct]); [download2_reads_closed_file] is the use
      of a closed file in the other server.
    - Chat servers: a broadcast reaches each connection that was up when it took the set once, although
      connections come and go meanwhile ([copy_on_write]); all connections see the messages in one
      order ([one_order_for_all]).
    - Theorems ending in [_fails], [_aborts], [_differs], [_leaks], [_twice] describe
      inputs on which the code does not do what it means to; they delimit the hypotheses
      of the theorems above.

    ** Fuel

    Loops that are not structural take fuel: [HttpContext::parseRequest] (number of header
    lines plus three is enough, [parseRequest_terminates] for any input),
    [Session::onMessage] ([session_terminates]), decimal and hexadecimal conversion (20
    digits hold every 64-bit value, [stream_correct]), the codecs' loops (one more than the
    bytes buffered, [frames_total]), AppendFile::append (one more than the bytes to
    write, [append_loop_ok]), the sudoku search (one more than the most nodes it can cover,
    [solver_fuel]), the sudoku server (more than the requests buffered) and the packet, record
    and line loops of the multiplexer, the FastCGI codec, the hub, the balancer and the word count (one more than the bytes
    buffered).  Running out of fuel is [None] or [Fault OutOfFuel], and the theorems show it
    does not happen.

    ** Not modelled

    Socket, SocketsOps (but for accept) and InetAddress, which wrap single system and
    library calls whose answers are parameters here; thread creation, thread-local
    storage, stack traces and process information; floating point output; ReadSmallFile and
    GzipFile; the message dispatchers and RpcServer, which look up a callback by a protobuf
    descriptor; the load generators, what the inspector's
    commands read of /proc, the adapters to c-ares, libcurl, hiredis
    and Thrift, and the other example programs. *)

From stdpp Require Export base list numbers strings gmap.
From Stdlib Require Export Ascii ZArith Lia.

#[global] Set Default Goal Selector "!".
#[global] Open Scope Z_scope.

(** ** Results of code that can stop

    The sources are compiled with [assert] enabled, raise [std::logic_error] /
    [std::length_error], and index raw storage.  A definition that models such
    code returns [res A]: [Fault AssertFailure] for a failed [assert],
    [Fault OutOfBounds] for an access outside the storage (undefined behaviour in
    C++), [Fault LengthError] for [std::length_error] of a vector, and
    [Fault (Thrown msg)] for an exception and [Fault Fatal] for [LOG_FATAL] /
    [LOG_SYSFATAL], which abort the process.  [Fault Undefined] is a signed addition that
    overflows, and [Fault OutOfFuel] marks a loop that was given too few rounds. *)

Inductive fault : Type :=
| AssertFailure
| OutOfBounds
| LengthError
| Fatal
| OutOfFuel
| Undefined
| Thrown (msg : string).

Inductive res (A : Type) : Type :=
| Ok (a : A)
| Fault (f : fault).
Arguments Ok {A} a.
Arguments Fault {A} f.

#[global] Instance fault_eq_dec : EqDecision fault.
Proof. solve_decision. Defined.

#[global] Instance res_ret : MRet res := fun A a => Ok a.
#[global] Instance res_bind : MBind res := fun A B k m =>
  match m with Ok a => k a | Fault f => Fault f end.

(** [assert(b)] *)
Definition check (b : bool) : res unit := if b then Ok tt else Fault AssertFailure.

(** Dereferencing: a missing entry is a dangling pointer or a bad iterator. *)
Definition get {A} (o : option A) : res A :=
  match o with Some a => Ok a | None => Fault OutOfBounds end.

Definition is_ok {A} (m : res A) : Prop := exists a, m = Ok a.

Lemma bind_Ok {A B} (m : res A) (k : A -> res B) (b : B) :
  (m ≫= k) = Ok b <-> exists a, m = Ok a /\ k a = Ok b.
Proof.
  destruct m; cbn; split; [by eauto|by intros (? & [= ->] & ?)|done|by intros (? & ? & ?)].
Qed.

Lemma check_true b : b = true -> check b = Ok tt.
Proof. by intros ->. Qed.

Lemma check_Ok b u : check b = Ok u <-> b = true.
Proof. destruct b, u; cbn; split; congruence. Qed.

Lemma get_Ok {A} (o : option A) a : get o = Ok a <-> o = Some a.
Proof. destruct o; cbn; split; congruence. Qed.

(** The result is good, or the program stopped with the resource fault [f] (memory
    exhausted, vector too long). *)
Definition outcome (f : fault) {A} (m : res A) (P : A -> Prop) : Prop :=
  (exists a, m = Ok a /\ P a) \/ m = Fault f.

Lemma outcome_bind f {A B} (m : res A) (k : A -> res B) (P : A -> Prop) (Q : B -> Prop) :
  outcome f m P -> (forall a, P a -> outcome f (k a) Q) -> outcome f (m ≫= k) Q.
Proof. intros [(a & -> & Ha)| ->] Hk; [by apply Hk|by right]. Qed.

Lemma outcome_Ok f {A} (a : A) (P : A -> Prop) : P a -> outcome f (Ok a) P.
Proof. left. eauto. Qed.

Lemma outcome_impl f {A} (m : res A) (P Q : A -> Prop) :
  outcome f m P -> (forall a, P a -> Q a) -> outcome f m Q.
Proof. intros [(a & ? & ?)|?] HPQ; [left; eauto|by right]. Qed.

(** ** Machine integers

    [uint w z] is the value an unsigned [w]-bit variable holds after [z] is
    assigned to it, [sint w z] the one a signed [w]-bit variable holds. *)

Definition uint (w z : Z) : Z := z mod 2 ^ w.
Definition sint (w z : Z) : Z := (z + 2 ^ (w - 1)) mod 2 ^ w - 2 ^ (w - 1).

Abbreviation size_t := (uint 64) (only parsing).
Abbreviation int32 := (sint 32) (only parsing).

Definition in_uint (w z : Z) : Prop := 0 <= z < 2 ^ w.
Definition in_sint (w z : Z) : Prop := - 2 ^ (w - 1) <= z < 2 ^ (w - 1).

Lemma uint_small w z : 0 <= z < 2 ^ w -> uint w z = z.
Proof. intros. unfold uint. by apply Z.mod_small. Qed.

Lemma uint_range w z : 0 <= w -> 0 <= uint w z < 2 ^ w.
Proof. intros. unfold uint. apply Z.mod_pos_bound. lia. Qed.

Lemma pow2_half w : 0 < w -> 2 ^ w = 2 * 2 ^ (w - 1).
Proof. intros. rewrite <- Z.pow_succ_r by lia. f_equal. lia. Qed.

Lemma sint_small w z : 0 < w -> in_sint w z -> sint w z = z.
Proof.
  unfold in_sint, sint. intros Hw Hz.
  pose proof (pow2_half w Hw). rewrite Z.mod_small by lia. lia.
Qed.

Lemma sint_range w z : 0 < w -> in_sint w (sint w z).
Proof.
  unfold in_sint, sint. intros Hw. pose proof (pow2_half w Hw).
  pose proof (Z.mod_pos_bound (z + 2 ^ (w - 1)) (2 ^ w)). lia.
Qed.

(** Converting a signed value to unsigned of the same width and back. *)
Lemma sint_uint w z : 0 < w -> sint w (uint w z) = sint w z.
Proof.
  intros Hw. unfold sint, uint. f_equal.
  rewrite Zplus_mod_idemp_l. done.
Qed.

Lemma uint_sint w z : 0 < w -> uint w (sint w z) = uint w z.
Proof.
  intros Hw. unfold sint, uint.
  rewrite Zminus_mod_idemp_l. f_equal. lia.
Qed.

(** ** Characters and raw storage *)

Abbreviation char := ascii (only parsing).

(** The bytes of a C string literal. *)
Definition lit (s : string) : list char := String.list_ascii_of_string s.

Definition chr (z : Z) : char := ascii_of_N (Z.to_N z).
Definition ord (c : char) : Z := Z.of_N (N_of_ascii c).

Lemma ord_range c : 0 <= ord c < 256.
Proof. unfold ord. pose proof (N_ascii_bounded c). lia. Qed.

Lemma ord_chr z : 0 <= z < 256 -> ord (chr z) = z.
Proof. intros. unfold ord, chr. rewrite N_ascii_embedding by lia. lia. Qed.

Lemma chr_ord c : chr (ord c) = c.
Proof. unfold ord, chr. rewrite N2Z.id. apply ascii_N_embedding. Qed.

Lemma ord_inj c d : ord c = ord d -> c = d.
Proof. intros H. rewrite <- (chr_ord c), <- (chr_ord d). by rewrite H. Qed.

Definition zlen {A} (l : list A) : Z := Z.of_nat (length l).

(** [slice i j l] is the part of [l] between the indices [i] and [j]. *)
Definition slice {A} (i j : Z) (l : list A) : list A :=
  take (Z.to_nat (j - i)) (drop (Z.to_nat i) l).

(** Reading [[i, j)] of a vector's storage; outside it the C++ is undefined. *)
Definition read_range {A} (l : list A) (i j : Z) : res (list A) :=
  if (0 <=? i) && (i <=? j) && (j <=? zlen l) then Ok (slice i j l)
  else Fault OutOfBounds.

(** [std::copy(d, d+len, begin()+pos)] / [memcpy] from a separate object. *)
Definition write_at {A} (l : list A) (pos : Z) (d : list A) : res (list A) :=
  if (0 <=? pos) && (pos + zlen d <=? zlen l)
  then Ok (take (Z.to_nat pos) l ++ d ++ drop (Z.to_nat (pos + zlen d)) l)
  else Fault OutOfBounds.

Section Storage.
Context {A : Type}.
Implicit Types l d : list A.

Lemma zlen_nonneg l : 0 <= zlen l.
Proof. unfold zlen. lia. Qed.

Lemma zlen_app l1 l2 : zlen (l1 ++ l2) = zlen l1 + zlen l2.
Proof. unfold zlen. rewrite length_app. lia. Qed.

Lemma zlen_nil : zlen (@nil A) = 0.
Proof. done. Qed.

Lemma zlen_cons x l : zlen (x :: l) = 1 + zlen l.
Proof. unfold zlen. cbn [length]. lia. Qed.

Lemma zlen_zero_inv l : zlen l = 0 -> l = [].
Proof. destruct l; [done|]. rewrite zlen_cons. pose proof (zlen_nonneg l). lia. Qed.

Lemma zlen_take n l : 0 <= n <= zlen l -> zlen (take (Z.to_nat n) l) = n.
Proof. unfold zlen. rewrite length_take. lia. Qed.

Lemma zlen_drop n l : 0 <= n <= zlen l -> zlen (drop (Z.to_nat n) l) = zlen l - n.
Proof. unfold zlen. rewrite length_drop. lia. Qed.

Lemma zlen_slice i j l : 0 <= i -> i <= j -> j <= zlen l -> zlen (slice i j l) = j - i.
Proof. unfold slice, zlen. rewrite length_take, length_drop. lia. Qed.

Lemma slice_mid (l1 l2 l3 : list A) : slice (zlen l1) (zlen l1 + zlen l2) (l1 ++ l2 ++ l3) = l2.
Proof.
  unfold slice, zlen. rewrite Nat2Z.id, drop_app_length.
  replace (Z.to_nat _) with (length l2) by lia. apply take_app_length.
Qed.

Lemma slice_mid_at (l1 l2 l3 : list A) i j : i = zlen l1 -> j = zlen l1 + zlen l2 -> slice i j (l1 ++ l2 ++ l3) = l2.
Proof. intros -> ->. apply slice_mid. Qed.

Lemma read_range_ok l i j :
  0 <= i -> i <= j -> j <= zlen l -> read_range l i j = Ok (slice i j l).
Proof.
  intros. unfold read_range.
  by replace ((0 <=? i) && (i <=? j) && (j <=? zlen l)) with true by lia.
Qed.

Lemma write_at_ok l pos d :
  0 <= pos -> pos + zlen d <= zlen l ->
  write_at l pos d = Ok (take (Z.to_nat pos) l ++ d ++ drop (Z.to_nat (pos + zlen d)) l).
Proof.
  intros. unfold write_at.
  by replace ((0 <=? pos) && (pos + zlen d <=? zlen l)) with true by lia.
Qed.

Lemma zlen_write_at l pos d l' : write_at l pos d = Ok l' -> zlen l' = zlen l.
Proof.
  unfold write_at. case_match eqn:E; [|done]. intros [= <-].
  rewrite !zlen_app. pose proof (zlen_nonneg d).
  rewrite zlen_take, zlen_drop; lia.
Qed.

Lemma slice_empty i l : slice i i l = [].
Proof. unfold slice. by rewrite Z.sub_diag. Qed.

Lemma slice_full l : slice 0 (zlen l) l = l.
Proof.
  unfold slice, zlen. rewrite Z.sub_0_r, Nat2Z.id. cbn [Z.to_nat]. rewrite drop_0.
  apply take_ge. lia.
Qed.

Lemma slice_app i j k l :
  0 <= i -> i <= j -> j <= k -> slice i j l ++ slice j k l = slice i k l.
Proof.
  intros. unfold slice.
  replace (Z.to_nat j) with (Z.to_nat i + Z.to_nat (j - i))%nat by lia.
  rewrite <- drop_drop.
  replace (Z.to_nat (k - i)) with (Z.to_nat (j - i) + Z.to_nat (k - j))%nat by lia.
  by rewrite take_take_drop.
Qed.

(** Slicing a prefix that lies wholly in the left part. *)
Lemma slice_app_l i j l1 l2 :
  0 <= i -> i <= j -> j <= zlen l1 -> slice i j (l1 ++ l2) = slice i j l1.
Proof.
  unfold zlen. intros. unfold slice.
  rewrite drop_app_le by lia. rewrite take_app_le; [done|].
  rewrite length_drop. lia.
Qed.

Lemma slice_app_r i j l1 l2 :
  zlen l1 <= i -> i <= j -> slice i j (l1 ++ l2) = slice (i - zlen l1) (j - zlen l1) l2.
Proof.
  unfold zlen. intros. unfold slice. rewrite drop_app_ge by lia.
  f_equal; [lia|]. f_equal. lia.
Qed.

(** What a write leaves behind, before, inside and after its target. *)
Lemma write_at_slices l pos d l' :
  write_at l pos d = Ok l' ->
  slice 0 pos l' = slice 0 pos l /\
  slice pos (pos + zlen d) l' = d /\
  slice (pos + zlen d) (zlen l') l' = slice (pos + zlen d) (zlen l) l.
Proof.
  intros Hw. pose proof (zlen_write_at _ _ _ _ Hw) as Hlen.
  unfold write_at in Hw. case_match eqn:E; [|done]. injection Hw as <-.
  pose proof (zlen_nonneg d).
  assert (Ht : zlen (take (Z.to_nat pos) l) = pos) by (apply zlen_take; lia).
  split; [|split].
  - rewrite slice_app_l by lia. unfold slice.
    rewrite Z.sub_0_r. cbn [Z.to_nat]. rewrite !drop_0.
    by rewrite take_take, Nat.min_id.
  - rewrite slice_app_r by lia. rewrite Ht.
    replace (pos - pos) with 0 by lia. replace (pos + zlen d - pos) with (zlen d) by lia.
    rewrite slice_app_l by lia. apply slice_full.
  - rewrite Hlen. rewrite app_assoc, slice_app_r; rewrite ?zlen_app, ?Ht; [|lia..].
    rewrite Z.sub_diag. unfold slice. rewrite Z.sub_0_r. cbn [Z.to_nat]. rewrite drop_0. done.
Qed.

Lemma slice_sub i j i' j' l :
  0 <= i -> i <= i' -> i' <= j' -> j' <= j ->
  slice i' j' l = slice (i' - i) (j' - i) (slice i j l).
Proof.
  intros. unfold slice.
  rewrite skipn_firstn_comm, drop_drop, take_take.
  f_equal; [lia|]. f_equal. lia.
Qed.

(** A write extends every range that ends where it starts. *)
Lemma write_at_extends l pos d l' i :
  write_at l pos d = Ok l' -> 0 <= i <= pos ->
  slice i (pos + zlen d) l' = slice i pos l ++ d.
Proof.
  intros Hw Hi. destruct (write_at_slices _ _ _ _ Hw) as (Hpre & Hmid & _).
  pose proof (zlen_nonneg d). rewrite <- (slice_app _ pos) by lia. rewrite Hmid. f_equal.
  rewrite (slice_sub 0 pos) by lia. rewrite Hpre. by rewrite <- slice_sub by lia.
Qed.

Lemma take_slice n i j l :
  0 <= i -> 0 <= n <= j - i -> take (Z.to_nat n) (slice i j l) = slice i (i + n) l.
Proof. intros. unfold slice. rewrite take_take. f_equal. lia. Qed.

Lemma drop_slice n i j l :
  0 <= i -> 0 <= n <= j - i -> drop (Z.to_nat n) (slice i j l) = slice (i + n) j l.
Proof.
  intros. unfold slice. rewrite skipn_firstn_comm, drop_drop.
  f_equal; [lia|]. f_equal. lia.
Qed.
End Storage.

(** ** Filters and lists of lists *)

Lemma elem_of_concat {A} (x : A) (ls : list (list A)) :
  x ∈ concat ls <-> exists l, x ∈ l /\ l ∈ ls.
Proof.
  rewrite list_elem_of_In, in_concat. setoid_rewrite list_elem_of_In. naive_solver.
Qed.

Lemma filter_id {A} (P : A -> Prop) `{!forall x, Decision (P x)} (l : list A) :
  Forall P l -> filter P l = l.
Proof. induction 1; [done|]. rewrite filter_cons_True by done. by f_equal. Qed.

Lemma filter_in_iff {A} (P Q : A -> Prop) `{!forall x, Decision (P x), !forall x, Decision (Q x)}
    (l : list A) :
  (forall x, x ∈ l -> P x <-> Q x) -> filter P l = filter Q l.
Proof.
  induction l as [|x l IH]; intros E; [done|].
  rewrite !filter_cons, IH by set_solver. specialize (E x).
  repeat case_decide; set_solver.
Qed.

Lemma filter_none {A} (P : A -> Prop) `{!forall x, Decision (P x)} (l : list A) :
  (forall x, x ∈ l -> ~ P x) -> filter P l = [].
Proof.
  intros E. induction l as [|x l IH]; [done|].
  rewrite filter_cons_False by set_solver. apply IH. set_solver.
Qed.

Lemma filter_ne_split {A} `{!EqDecision A} (l1 l2 : list A) j :
  NoDup (l1 ++ j :: l2) -> filter (fun n => n <> j) (l1 ++ j :: l2) = l1 ++ l2.
Proof.
  intros Hnd. rewrite filter_app, filter_cons_False by tauto.
  apply NoDup_app in Hnd as (? & ? & [? ?]%NoDup_cons).
  f_equal; apply filter_id, Forall_forall; set_solver.
Qed.

Lemma concat_same {A} (ls : list (list A)) l1 l2 x :
  NoDup (concat ls) -> l1 ∈ ls -> l2 ∈ ls -> x ∈ l1 -> x ∈ l2 -> l1 = l2.
Proof.
  induction ls as [|l ls IH]; cbn; [by intros _ ?%not_elem_of_nil|].
  intros (_ & Hd & Hnd)%NoDup_app H1 H2 Hx1 Hx2.
  assert (Hno : forall l', l' ∈ ls -> x ∈ l -> x ∈ l' -> False).
  { intros l' ???. apply (Hd x); [done|]. apply elem_of_concat. eauto. }
  apply elem_of_cons in H1 as [->|], H2 as [->|]; [done|exfalso; eauto..|by apply IH].
Qed.

Lemma NoDup_fmap_inj {A B} (k : A -> B) (l : list A) x y :
  NoDup (k <$> l) -> x ∈ l -> y ∈ l -> k x = k y -> x = y.
Proof.
  induction l as [|z l IH]; cbn; [by intros _ ?%not_elem_of_nil|].
  intros [Hz Hnd]%NoDup_cons Hx Hy E.
  apply elem_of_cons in Hx as [->|], Hy as [->|]; [done| | |by apply IH];
    exfalso; apply Hz; apply list_elem_of_fmap; eauto.
Qed.

(** ** Streams of frames

    [wire a] is the frame of [a] and [partial t] says that [t] has no whole frame.  Any cut
    of a stream of frames is after some frames and inside the next. *)
Section Frames.
Context {A B : Type} (wire : A -> list B) (ok : A -> Prop) (partial : list B -> Prop).
Hypothesis (partial_prefix : forall x y, partial (x ++ y) -> partial x).
Hypothesis (partial_frame : forall a x y, ok a -> x ++ y = wire a -> y <> [] -> partial x).

Lemma cut_stream l tail x y :
  Forall ok l -> partial tail -> x ++ y = concat (wire <$> l) ++ tail ->
  exists l1 l2 t, l = l1 ++ l2 /\ x = concat (wire <$> l1) ++ t /\
    t ++ y = concat (wire <$> l2) ++ tail /\ partial t.
Proof.
  revert x. induction l as [|r l IH]; intros x Hw Ht E.
  - exists [], [], x. cbn in *. split_and!; [done..|]. apply (partial_prefix x y). by rewrite E.
  - apply Forall_cons in Hw as [Hr Hw].
    destruct (decide (length (wire r) <= length x)%nat) as [Hle|Hgt].
    + assert (Hx : x = wire r ++ drop (length (wire r)) x).
      { rewrite <- (take_drop (length (wire r)) x) at 1. f_equal.
        apply (f_equal (take (length (wire r)))) in E. cbn in E.
        rewrite take_app_le in E by done. by rewrite <- app_assoc, take_app_length in E. }
      rewrite Hx in E. cbn in E. rewrite <- !app_assoc in E. apply app_inv_head in E.
      destruct (IH _ Hw Ht E) as (rs1 & rs2 & t & -> & Hx' & Ht' & Hp).
      exists (r :: rs1), rs2, t. split_and!; [done| |done|done].
      cbn. rewrite <- app_assoc, <- Hx'. done.
    + exists [], (r :: l), x. split_and!; [done..|].
      apply (partial_frame r x (drop (length x) (wire r)) Hr).
      * rewrite <- (take_drop (length x) (wire r)) at 2. f_equal.
        apply (f_equal (take (length x))) in E. cbn in E.
        rewrite take_app_length, <- app_assoc, take_app_le in E by lia. done.
      * intros Hd%(f_equal length). rewrite length_drop in Hd. cbn in Hd. lia.
Qed.
End Frames.

Create HintDb muduo.
Create Rewrite HintDb muduo.
#[export] Hint Resolve zlen_nonneg ord_range : muduo.
#[export] Hint Rewrite @zlen_app @zlen_nil @zlen_cons : muduo.

(** ** Tactics *)

(** [a + b] in int: overflow is undefined behaviour. *)
Definition add_int (a b : Z) : res Z := if bool_decide (in_sint 32 (a + b)) then Ok (a + b) else Fault Undefined.

Lemma add_int_ok a b : in_sint 32 (a + b) -> add_int a b = Ok (a + b).
Proof. intros. unfold add_int. by rewrite bool_decide_true. Qed.

Lemma add_int_Ok a b c : add_int a b = Ok c -> c = a + b /\ in_sint 32 (a + b).
Proof. unfold add_int. case_bool_decide; [intros [= <-]; done|done]. Qed.

(** Remove machine-integer wrapping whose argument [lia] can bound. *)
Ltac unwrap :=
  repeat match goal with
    | |- context [uint ?w ?z] => rewrite (uint_small w z) by lia
    | |- context [sint ?w ?z] => rewrite (sint_small w z) by (unfold in_sint; lia)
    end.

(** Step over asserts and range checks that hold. *)
Ltac run_checks :=
  repeat match goal with
    | |- context [check ?b] => rewrite (check_true b) by lia; cbn [mbind res_bind]
    end.

(** Take apart a hypothesis [c1 ≫= ... = Ok _] . *)
Ltac inv_res H :=
  repeat match type of H with
    | mbind _ _ = Ok _ =>
        apply bind_Ok in H; let a := fresh "a" in let Ha := fresh "Ha" in
        destruct H as (a & Ha & H)
    | Ok _ = Ok _ => injection H as H
    end.
