(* ===== verification/Endian.v ===== *)
(** * Byte order (src/muduo/net/Endian.h)

    The conversions [hostToNetwork16/32/64] and [networkToHost16/32/64] for a host
    of either byte order, the memory image of an integer on that host, and the
    fact that the composition writes big-endian bytes on every host. *)

From S2P Require Import Prelude.

(** The byte order of the machine the library runs on ([__BYTE_ORDER] of
    <endian.h>). *)
Inductive byte_order := LittleEndian | BigEndian.
Class Host := host_order : byte_order.

(** ** Memory images *)

(** The [n] bytes of [z], least significant first. *)
Fixpoint le_bytes (n : nat) (z : Z) : list char :=
  match n with
  | O => []
  | S n => chr (z mod 256) :: le_bytes n (z / 256)
  end.

Fixpoint of_le_bytes (l : list char) : Z :=
  match l with
  | [] => 0
  | c :: l => ord c + 256 * of_le_bytes l
  end.

Definition be_bytes (n : nat) (z : Z) : list char := rev (le_bytes n z).
Definition of_be_bytes (l : list char) : Z := of_le_bytes (rev l).

(** Exchanging the [n] bytes of an integer, which is what <endian.h> expands the
    conversions to when host and target order differ. *)
Definition bswap (n : nat) (z : Z) : Z := of_be_bytes (le_bytes n z).

Section WithHost.
Context `{Host}.

(** The object representation of an unsigned integer of [n] bytes, and the
    integer an object representation stands for ([memcpy] in and out of one). *)
Definition to_memory (n : nat) (z : Z) : list char :=
  match host_order with LittleEndian => le_bytes n z | BigEndian => be_bytes n z end.
Definition from_memory (l : list char) : Z :=
  match host_order with LittleEndian => of_le_bytes l | BigEndian => of_be_bytes l end.

(** [htobe16/32/64] and [be16/32/64toh] of <endian.h>. *)
Definition htobe (n : nat) (z : Z) : Z :=
  match host_order with LittleEndian => bswap n z | BigEndian => z end.
Definition betoh (n : nat) (z : Z) : Z :=
  match host_order with LittleEndian => bswap n z | BigEndian => z end.

Definition hostToNetwork64 (host64 : Z) : Z := htobe 8 (uint 64 host64).
Definition hostToNetwork32 (host32 : Z) : Z := htobe 4 (uint 32 host32).
Definition hostToNetwork16 (host16 : Z) : Z := htobe 2 (uint 16 host16).
Definition networkToHost64 (net64 : Z) : Z := betoh 8 (uint 64 net64).
Definition networkToHost32 (net32 : Z) : Z := betoh 4 (uint 32 net32).
Definition networkToHost16 (net16 : Z) : Z := betoh 2 (uint 16 net16).
End WithHost.

(** ** Lemmas *)

Lemma length_le_bytes n z : length (le_bytes n z) = n.
Proof. revert z. induction n; intros; cbn; auto. Qed.

Lemma length_be_bytes n z : length (be_bytes n z) = n.
Proof. unfold be_bytes. rewrite length_rev. apply length_le_bytes. Qed.

Lemma pow256_succ n : 2 ^ (8 * Z.of_nat (S n)) = 256 * 2 ^ (8 * Z.of_nat n).
Proof. rewrite Nat2Z.inj_succ, Z.mul_succ_r, Z.pow_add_r by lia. lia. Qed.

Lemma of_le_le_bytes n z : of_le_bytes (le_bytes n z) = uint (8 * Z.of_nat n) z.
Proof.
  unfold uint. revert z. induction n as [|n IH]; intros z; [by rewrite Z.mod_1_r|].
  cbn [le_bytes of_le_bytes]. rewrite IH, pow256_succ.
  rewrite ord_chr by (apply Z.mod_pos_bound; lia).
  rewrite Z.rem_mul_r by lia. lia.
Qed.

Lemma le_bytes_of_le l : le_bytes (length l) (of_le_bytes l) = l.
Proof.
  induction l as [|c l IH]; [done|]. cbn [length of_le_bytes le_bytes].
  pose proof (ord_range c).
  rewrite Z.mul_comm, Z.mod_add, Z.div_add, Z.mod_small, Z.div_small, chr_ord by lia.
  by rewrite Z.add_0_l, IH.
Qed.

Lemma of_le_bytes_range l : 0 <= of_le_bytes l < 2 ^ (8 * zlen l).
Proof.
  induction l as [|c l IH]; [done|]. cbn [of_le_bytes]. pose proof (ord_range c).
  unfold zlen in *. cbn [length]. rewrite pow256_succ. lia.
Qed.

Lemma of_be_be_bytes n z : of_be_bytes (be_bytes n z) = uint (8 * Z.of_nat n) z.
Proof. unfold of_be_bytes, be_bytes. rewrite rev_involutive. apply of_le_le_bytes. Qed.

Lemma be_bytes_of_be l : be_bytes (length l) (of_be_bytes l) = l.
Proof.
  unfold of_be_bytes, be_bytes. rewrite <- (length_rev l), le_bytes_of_le.
  apply rev_involutive.
Qed.

Lemma of_be_bytes_range l : 0 <= of_be_bytes l < 2 ^ (8 * zlen l).
Proof.
  unfold of_be_bytes. pose proof (of_le_bytes_range (rev l)) as Hr.
  unfold zlen in *. by rewrite length_rev in Hr.
Qed.

Lemma le_bytes_bswap n z : le_bytes n (bswap n z) = be_bytes n z.
Proof.
  unfold bswap, of_be_bytes, be_bytes.
  rewrite <- (length_le_bytes n z) at 1. rewrite <- length_rev. apply le_bytes_of_le.
Qed.

Lemma le_bytes_uint n z : le_bytes n (uint (8 * Z.of_nat n) z) = le_bytes n z.
Proof. rewrite <- of_le_le_bytes. rewrite <- (length_le_bytes n z) at 1. apply le_bytes_of_le. Qed.

Lemma be_bytes_uint n z : be_bytes n (uint (8 * Z.of_nat n) z) = be_bytes n z.
Proof. unfold be_bytes. by rewrite le_bytes_uint. Qed.

Section HostLemmas.
Context `{Host}.

Lemma length_to_memory n z : length (to_memory n z) = n.
Proof. unfold to_memory. case_match; [apply length_le_bytes|apply length_be_bytes]. Qed.

Lemma to_memory_uint n z : to_memory n (uint (8 * Z.of_nat n) z) = to_memory n z.
Proof. unfold to_memory. case_match; [apply le_bytes_uint|apply be_bytes_uint]. Qed.

(** Storing [htobe n z] puts the big-endian bytes of [z] in memory. *)
Lemma to_memory_htobe n z : to_memory n (htobe n z) = be_bytes n z.
Proof. unfold to_memory, htobe. case_match; [apply le_bytes_bswap|done]. Qed.

(** Loading [n] bytes and converting gives the integer they spell big-endian. *)
Lemma betoh_from_memory l : betoh (length l) (from_memory l) = of_be_bytes l.
Proof.
  unfold betoh, from_memory. case_match; [|done].
  unfold bswap. by rewrite le_bytes_of_le.
Qed.

Lemma from_memory_range l : 0 <= from_memory l < 2 ^ (8 * zlen l).
Proof.
  unfold from_memory. case_match; [apply of_le_bytes_range|apply of_be_bytes_range].
Qed.
End HostLemmas.
