(* ===== verification/Buffer.v ===== *)
(** * The application buffer (src/muduo/net/Buffer.h, Buffer.cc)

    [Buffer] is a [std::vector<char>] with a reader and a writer index.  Pointers
    into the buffer ([peek()], [beginWrite()], results of [findCRLF]) are offsets
    from [begin()].  Index arithmetic is done in [size_t], so each operation wraps
    modulo 2^64; reads and writes outside the vector are faults. *)

From S2P Require Import Prelude Endian.

Definition kCheapPrepend : Z := 8.
Definition kInitialSize : Z := 1024.

(** [std::vector<char>::max_size()] of a 64-bit platform. *)
Definition max_size : Z := 2 ^ 63 - 1.

Record Buffer := mkBuffer {
  buffer_ : list char;
  readerIndex_ : Z;
  writerIndex_ : Z
}.

(** ** Standard library pieces *)

(** [vector::resize]: new elements are value-initialised. *)
Definition resize (l : list char) (n : Z) : res (list char) :=
  if n <=? max_size
  then Ok (take (Z.to_nat n) l ++ replicate (Z.to_nat (n - zlen l)) "000"%char)
  else Fault LengthError.

(** [std::copy] inside one vector: elements are moved first to last, so a range is
    read after earlier elements have been written. *)
Fixpoint copy_loop (n src dst : nat) (l : list char) : list char :=
  match n with
  | O => l
  | S n =>
      match l !! src with
      | Some c => copy_loop n (S src) (S dst) (<[dst := c]> l)
      | None => l
      end
  end.

Definition std_copy (l : list char) (first last d_first : Z) : res (list char) :=
  if (0 <=? first) && (first <=? last) && (last <=? zlen l)
     && (0 <=? d_first) && (d_first + (last - first) <=? zlen l)
  then Ok (copy_loop (Z.to_nat (last - first)) (Z.to_nat first) (Z.to_nat d_first) l)
  else Fault OutOfBounds.

(** [std::search]: the position of the first occurrence of [pat], if any. *)
Fixpoint is_prefix (pat l : list char) : bool :=
  match pat, l with
  | [], _ => true
  | p :: pat, c :: l => bool_decide (p = c) && is_prefix pat l
  | _ :: _, [] => false
  end.

Fixpoint std_search (pat l : list char) : option Z :=
  if is_prefix pat l then Some 0
  else match l with [] => None | _ :: l => Z.succ <$> std_search pat l end.

(** [memchr] / [std::find] for one character. *)
Fixpoint find_char (c : char) (l : list char) : option Z :=
  match l with
  | [] => None
  | d :: l => if bool_decide (d = c) then Some 0 else Z.succ <$> find_char c l
  end.

(** ** Index queries *)

Definition vsize (b : Buffer) : Z := zlen (buffer_ b).
Definition readableBytes (b : Buffer) : Z := size_t (writerIndex_ b - readerIndex_ b).
Definition writableBytes (b : Buffer) : Z := size_t (vsize b - writerIndex_ b).
Definition prependableBytes (b : Buffer) : Z := readerIndex_ b.
Definition peek (b : Buffer) : Z := readerIndex_ b.
Definition beginWrite (b : Buffer) : Z := writerIndex_ b.

(** ** Construction *)

Definition newBuffer (initialSize : Z) : res Buffer :=
  storage ← resize [] (size_t (kCheapPrepend + initialSize));
  let b := mkBuffer storage kCheapPrepend kCheapPrepend in
  _ ← check (readableBytes b =? 0);
  _ ← check (writableBytes b =? initialSize);
  _ ← check (prependableBytes b =? kCheapPrepend);
  Ok b.

(** [swap]: the two buffers exchange storage and indices. *)
Definition swap (b rhs : Buffer) : Buffer * Buffer :=
  (mkBuffer (buffer_ rhs) (readerIndex_ rhs) (writerIndex_ rhs),
   mkBuffer (buffer_ b) (readerIndex_ b) (writerIndex_ b)).

(** ** Searching *)

Definition kCRLF : list char := [chr 13; chr 10].

Definition findCRLF (b : Buffer) : res (option Z) :=
  s ← read_range (buffer_ b) (peek b) (beginWrite b);
  let crlf := match std_search kCRLF s with
              | Some i => peek b + i | None => beginWrite b end in
  Ok (if crlf =? beginWrite b then None else Some crlf).

Definition findCRLF_from (start : Z) (b : Buffer) : res (option Z) :=
  _ ← check (peek b <=? start);
  _ ← check (start <=? beginWrite b);
  s ← read_range (buffer_ b) start (beginWrite b);
  let crlf := match std_search kCRLF s with
              | Some i => start + i | None => beginWrite b end in
  Ok (if crlf =? beginWrite b then None else Some crlf).

Definition findEOL (b : Buffer) : res (option Z) :=
  s ← read_range (buffer_ b) (peek b) (peek b + readableBytes b);
  Ok ((fun i => peek b + i) <$> find_char (chr 10) s).

Definition findEOL_from (start : Z) (b : Buffer) : res (option Z) :=
  _ ← check (peek b <=? start);
  _ ← check (start <=? beginWrite b);
  s ← read_range (buffer_ b) start (beginWrite b);
  Ok ((fun i => start + i) <$> find_char (chr 10) s).

(** ** Consuming *)

Definition retrieveAll (b : Buffer) : Buffer :=
  mkBuffer (buffer_ b) kCheapPrepend kCheapPrepend.

Definition retrieve (len : Z) (b : Buffer) : res Buffer :=
  _ ← check (len <=? readableBytes b);
  if len <? readableBytes b
  then Ok (mkBuffer (buffer_ b) (size_t (readerIndex_ b + len)) (writerIndex_ b))
  else Ok (retrieveAll b).

Definition retrieveUntil (end_ : Z) (b : Buffer) : res Buffer :=
  _ ← check (peek b <=? end_);
  _ ← check (end_ <=? beginWrite b);
  retrieve (size_t (end_ - peek b)) b.

Definition retrieveInt64 : Buffer -> res Buffer := retrieve 8.
Definition retrieveInt32 : Buffer -> res Buffer := retrieve 4.
Definition retrieveInt16 : Buffer -> res Buffer := retrieve 2.
Definition retrieveInt8 : Buffer -> res Buffer := retrieve 1.

Definition retrieveAsString (len : Z) (b : Buffer) : res (list char * Buffer) :=
  _ ← check (len <=? readableBytes b);
  result ← read_range (buffer_ b) (peek b) (peek b + len);
  b' ← retrieve len b;
  Ok (result, b').

Definition retrieveAllAsString (b : Buffer) : res (list char * Buffer) :=
  retrieveAsString (readableBytes b) b.

(** [toStringPiece]: the offset and the [int] length of the readable part. *)
Definition toStringPiece (b : Buffer) : Z * Z := (peek b, int32 (readableBytes b)).

(** ** Making space and appending *)

Definition makeSpace (len : Z) (b : Buffer) : res Buffer :=
  if size_t (writableBytes b + prependableBytes b) <? size_t (len + kCheapPrepend)
  then
    l ← resize (buffer_ b) (size_t (writerIndex_ b + len));
    Ok (mkBuffer l (readerIndex_ b) (writerIndex_ b))
  else
    _ ← check (kCheapPrepend <? readerIndex_ b);
    let readable := readableBytes b in
    l ← std_copy (buffer_ b) (readerIndex_ b) (writerIndex_ b) kCheapPrepend;
    let b' := mkBuffer l kCheapPrepend (size_t (kCheapPrepend + readable)) in
    _ ← check (readable =? readableBytes b');
    Ok b'.

Definition ensureWritableBytes (len : Z) (b : Buffer) : res Buffer :=
  b' ← (if writableBytes b <? len then makeSpace len b else Ok b);
  _ ← check (len <=? writableBytes b');
  Ok b'.

Definition hasWritten (len : Z) (b : Buffer) : res Buffer :=
  _ ← check (len <=? writableBytes b);
  Ok (mkBuffer (buffer_ b) (readerIndex_ b) (size_t (writerIndex_ b + len))).

Definition unwrite (len : Z) (b : Buffer) : res Buffer :=
  _ ← check (len <=? readableBytes b);
  Ok (mkBuffer (buffer_ b) (readerIndex_ b) (size_t (writerIndex_ b - len))).

(** [append(const char* data, size_t len)], [data] being the [len] bytes. *)
Definition append (data : list char) (b : Buffer) : res Buffer :=
  b1 ← ensureWritableBytes (zlen data) b;
  l ← write_at (buffer_ b1) (beginWrite b1) data;
  hasWritten (zlen data) (mkBuffer l (readerIndex_ b1) (writerIndex_ b1)).

(** [prepend] *)
Definition prepend (data : list char) (b : Buffer) : res Buffer :=
  _ ← check (zlen data <=? prependableBytes b);
  let r := size_t (readerIndex_ b - zlen data) in
  l ← write_at (buffer_ b) r data;
  Ok (mkBuffer l r (writerIndex_ b)).

(** [shrink]: move the readable bytes to a fresh buffer with [reserve] bytes of
    room, and take over its storage.  [append(StringPiece)] reads [size()] bytes,
    the [int] converted back to [size_t]. *)
Definition shrink (reserve : Z) (b : Buffer) : res Buffer :=
  other0 ← newBuffer kInitialSize;
  other1 ← ensureWritableBytes (size_t (readableBytes b + reserve)) other0;
  let '(p, n) := toStringPiece b in
  data ← read_range (buffer_ b) p (p + size_t n);
  other2 ← append data other1;
  Ok (fst (swap b other2)).

(** ** Integers in network order *)

Section Integers.
Context `{Host}.

Definition appendInt64 (x : Z) (b : Buffer) : res Buffer :=
  let be64 := sint 64 (hostToNetwork64 x) in append (to_memory 8 be64) b.
Definition appendInt32 (x : Z) (b : Buffer) : res Buffer :=
  let be32 := sint 32 (hostToNetwork32 x) in append (to_memory 4 be32) b.
Definition appendInt16 (x : Z) (b : Buffer) : res Buffer :=
  let be16 := sint 16 (hostToNetwork16 x) in append (to_memory 2 be16) b.
Definition appendInt8 (x : Z) (b : Buffer) : res Buffer := append (to_memory 1 x) b.

Definition peekInt64 (b : Buffer) : res Z :=
  _ ← check (8 <=? readableBytes b);
  m ← read_range (buffer_ b) (peek b) (peek b + 8);
  let be64 := sint 64 (from_memory m) in Ok (sint 64 (networkToHost64 be64)).
Definition peekInt32 (b : Buffer) : res Z :=
  _ ← check (4 <=? readableBytes b);
  m ← read_range (buffer_ b) (peek b) (peek b + 4);
  let be32 := sint 32 (from_memory m) in Ok (sint 32 (networkToHost32 be32)).
Definition peekInt16 (b : Buffer) : res Z :=
  _ ← check (2 <=? readableBytes b);
  m ← read_range (buffer_ b) (peek b) (peek b + 2);
  let be16 := sint 16 (from_memory m) in Ok (sint 16 (networkToHost16 be16)).
Definition peekInt8 (b : Buffer) : res Z :=
  _ ← check (1 <=? readableBytes b);
  m ← read_range (buffer_ b) (peek b) (peek b + 1);
  Ok (sint 8 (from_memory m)).

Definition readInt64 (b : Buffer) : res (Z * Buffer) :=
  result ← peekInt64 b; b' ← retrieveInt64 b; Ok (result, b').
Definition readInt32 (b : Buffer) : res (Z * Buffer) :=
  result ← peekInt32 b; b' ← retrieveInt32 b; Ok (result, b').
Definition readInt16 (b : Buffer) : res (Z * Buffer) :=
  result ← peekInt16 b; b' ← retrieveInt16 b; Ok (result, b').
Definition readInt8 (b : Buffer) : res (Z * Buffer) :=
  result ← peekInt8 b; b' ← retrieveInt8 b; Ok (result, b').

Definition prependInt64 (x : Z) (b : Buffer) : res Buffer :=
  let be64 := sint 64 (hostToNetwork64 x) in prepend (to_memory 8 be64) b.
Definition prependInt32 (x : Z) (b : Buffer) : res Buffer :=
  let be32 := sint 32 (hostToNetwork32 x) in prepend (to_memory 4 be32) b.
Definition prependInt16 (x : Z) (b : Buffer) : res Buffer :=
  let be16 := sint 16 (hostToNetwork16 x) in prepend (to_memory 2 be16) b.
Definition prependInt8 (x : Z) (b : Buffer) : res Buffer := prepend (to_memory 1 x) b.
End Integers.

(** ** Reading from a descriptor *)

Definition sizeof_extrabuf : Z := 65536.

(** [readv(2)] as the kernel answers it: an errno, or the bytes it scattered over
    the segments whose lengths it was given. *)
Definition kernel_readv := list Z -> Z + list char.

(** The result of [readFd]: the return value, the saved errno when it was set, and
    the buffer. *)
Definition readFd (readv : kernel_readv) (b : Buffer) : res (Z * option Z * Buffer) :=
  let writable := writableBytes b in
  let iov := if writable <? sizeof_extrabuf then [writable; sizeof_extrabuf] else [writable] in
  match readv iov with
  | inl errno => Ok (-1, Some errno, b)
  | inr bytes =>
      let n := zlen bytes in
      (* the kernel fills vec[0], then extrabuf *)
      l ← write_at (buffer_ b) (writerIndex_ b) (take (Z.to_nat writable) bytes);
      let extrabuf := drop (Z.to_nat writable) bytes in
      if size_t n <=? writable
      then Ok (n, None, mkBuffer l (readerIndex_ b) (size_t (writerIndex_ b + n)))
      else
        b' ← append (take (Z.to_nat (size_t (n - writable))) extrabuf)
                    (mkBuffer l (readerIndex_ b) (zlen l));
        Ok (n, None, b')
  end.

(** ** The invariant and the abstract content *)

(** [0 <= readerIndex <= writerIndex <= size], and the storage never shrinks below
    the cheap-prepend area. *)
Definition inv (b : Buffer) : Prop :=
  0 <= readerIndex_ b /\ readerIndex_ b <= writerIndex_ b /\
  writerIndex_ b <= vsize b /\ kCheapPrepend <= vsize b /\ vsize b <= max_size.

(** The readable bytes. *)
Definition content (b : Buffer) : list char :=
  slice (readerIndex_ b) (writerIndex_ b) (buffer_ b).

Ltac buffer_unfold :=
  unfold inv, content, readableBytes, writableBytes, prependableBytes, peek, beginWrite,
    vsize, kCheapPrepend, max_size in *; cbn [buffer_ readerIndex_ writerIndex_] in *.

Section Facts.
Implicit Types b : Buffer.

Lemma readableBytes_content b : inv b -> readableBytes b = zlen (content b).
Proof.
  intros Hi. buffer_unfold. unwrap. rewrite zlen_slice; lia.
Qed.

Lemma zlen_content b : inv b -> zlen (content b) = writerIndex_ b - readerIndex_ b.
Proof. intros Hi. buffer_unfold. rewrite zlen_slice; lia. Qed.

Lemma readableBytes_eq b : inv b -> readableBytes b = writerIndex_ b - readerIndex_ b.
Proof. intros Hi. buffer_unfold. unwrap. lia. Qed.

Lemma read_content_range b i j :
  inv b -> 0 <= i -> i <= j -> j <= zlen (content b) ->
  read_range (buffer_ b) (peek b + i) (peek b + j) = Ok (slice i j (content b)).
Proof.
  intros Hi H0 Hij Hj. pose proof (zlen_content b Hi) as Hz. rewrite read_range_ok by (buffer_unfold; lia). f_equal.
  unfold content, peek. rewrite (slice_sub (readerIndex_ b) (writerIndex_ b)) by (buffer_unfold; lia). f_equal; lia.
Qed.

Lemma writableBytes_eq b : inv b -> writableBytes b = vsize b - writerIndex_ b.
Proof. intros Hi. buffer_unfold. unwrap. lia. Qed.

Lemma zlen_resize l n l' : resize l n = Ok l' -> zlen l <= n -> zlen l' = n.
Proof.
  unfold resize. case_match; [|done]. intros [= <-] ?. pose proof (zlen_nonneg l).
  rewrite zlen_app. unfold zlen in *. rewrite length_take, length_replicate. lia.
Qed.

Lemma resize_slice l n l' i j :
  resize l n = Ok l' -> zlen l <= n -> 0 <= i -> i <= j -> j <= zlen l ->
  slice i j l' = slice i j l.
Proof.
  unfold resize. case_match; [|done]. intros [= <-] ? ? ? ?.
  rewrite take_ge by (unfold zlen in *; lia). apply slice_app_l; lia.
Qed.

Lemma resize_ok l n : n <= max_size -> is_ok (resize l n).
Proof. intros. unfold resize, is_ok. replace (n <=? max_size) with true by lia. eauto. Qed.

(** The element-wise [std::copy] towards lower addresses moves the whole range. *)
Lemma copy_loop_lookup n src dst l i :
  (dst <= src)%nat -> (src + n <= length l)%nat ->
  copy_loop n src dst l !! i =
    if decide (dst <= i < dst + n)%nat then l !! (src + (i - dst))%nat else l !! i.
Proof.
  revert src dst l. induction n as [|n IH]; intros src dst l Hle Hlen; cbn [copy_loop].
  { case_decide; [lia|done]. }
  destruct (lookup_lt_is_Some_2 l src) as [c Hc]; [lia|]. rewrite Hc.
  rewrite IH; [|lia|rewrite length_insert; lia].
  destruct (decide (i = dst)) as [->|Hne].
  - rewrite decide_False by lia. rewrite list_lookup_insert_eq by lia.
    rewrite decide_True by lia. by rewrite Nat.sub_diag, Nat.add_0_r.
  - case_decide.
    + rewrite list_lookup_insert_ne by lia. rewrite decide_True by lia.
      f_equal. lia.
    + rewrite list_lookup_insert_ne by lia. rewrite decide_False; [done|lia].
Qed.

Lemma length_copy_loop n src dst l : length (copy_loop n src dst l) = length l.
Proof.
  revert src dst l. induction n; intros; cbn [copy_loop]; [done|].
  case_match; [|done]. rewrite IHn. by rewrite length_insert.
Qed.

Lemma lookup_slice {A} (i j : Z) (l : list A) (k : nat) :
  0 <= i -> i <= j -> j <= zlen l ->
  slice i j l !! k = if decide (Z.of_nat k < j - i) then l !! (Z.to_nat i + k)%nat else None.
Proof.
  intros. unfold slice. case_decide.
  - rewrite lookup_take_lt by lia. apply lookup_drop.
  - apply lookup_take_ge. lia.
Qed.

Lemma std_copy_slice l first last d l' :
  d <= first -> std_copy l first last d = Ok l' ->
  zlen l' = zlen l /\ slice d (d + (last - first)) l' = slice first last l.
Proof.
  unfold std_copy. intros Hd. case_match eqn:E; [|done]. intros [= <-].
  assert (Hlen : zlen (copy_loop (Z.to_nat (last - first)) (Z.to_nat first) (Z.to_nat d) l)
                 = zlen l) by (unfold zlen; by rewrite length_copy_loop).
  split; [done|]. apply list_eq. intros k.
  rewrite !lookup_slice by lia. repeat case_decide; try lia; [|done].
  unfold zlen in *. rewrite copy_loop_lookup by lia. rewrite decide_True by lia.
  f_equal. lia.
Qed.

Lemma std_copy_ok l first last d :
  0 <= d -> d <= first -> first <= last -> last <= zlen l -> is_ok (std_copy l first last d).
Proof.
  intros. unfold std_copy, is_ok.
  match goal with |- context [if ?c then _ else _] => replace c with true by lia end. eauto.
Qed.
End Facts.

(** ** Specifications of the operations *)

(** Where the reader index may go when room is made: it stays, or it falls back to
    [kCheapPrepend] from beyond it. *)
Definition reader_moved (b b' : Buffer) : Prop :=
  readerIndex_ b' = readerIndex_ b \/
  (readerIndex_ b' = kCheapPrepend /\ kCheapPrepend < readerIndex_ b).

(** Room for [len] more bytes: the vector can grow to hold them, or moving the
    readable bytes to the front frees enough. *)
Definition room (len : Z) (b : Buffer) : Prop :=
  writerIndex_ b + len <= max_size \/
  len + kCheapPrepend <= vsize b - writerIndex_ b + readerIndex_ b.

Section Specs.
Implicit Types b : Buffer.

Lemma makeSpace_spec len b :
  inv b -> writableBytes b < len -> room len b ->
  exists b', makeSpace len b = Ok b' /\ inv b' /\ content b' = content b /\
    len <= writableBytes b' /\ reader_moved b b' /\ writerIndex_ b' <= writerIndex_ b.
Proof.
  intros Hi Hw Hm. pose proof Hi as Hi'.
  rewrite writableBytes_eq in Hw by done. unfold makeSpace, reader_moved, room in *.
  rewrite writableBytes_eq by done. buffer_unfold. unwrap. case_match eqn:E.
  - destruct (resize_ok (buffer_ b) (writerIndex_ b + len)) as [l Hl]; [unfold max_size; lia|].
    rewrite Hl. cbn [mbind res_bind]. eexists; split; [done|]. cbn.
    pose proof (zlen_resize _ _ _ Hl ltac:(lia)).
    pose proof (resize_slice _ _ _ (readerIndex_ b) (writerIndex_ b) Hl). unwrap.
    repeat split; try lia; auto with lia.
  - run_checks.
    destruct (std_copy_ok (buffer_ b) (readerIndex_ b) (writerIndex_ b) 8) as [l Hl]; try lia.
    rewrite Hl. cbn [mbind res_bind].
    destruct (std_copy_slice (buffer_ b) (readerIndex_ b) (writerIndex_ b) 8 l) as [Hlen Hs]; [lia|done|]. unwrap. run_checks.
    eexists; split; [done|]. cbn. rewrite Hs. unwrap. repeat split; try lia.
Qed.

Lemma ensureWritableBytes_spec len b :
  inv b -> 0 <= len -> room len b ->
  exists b', ensureWritableBytes len b = Ok b' /\ inv b' /\ content b' = content b /\
    len <= writableBytes b' /\ reader_moved b b' /\ writerIndex_ b' <= writerIndex_ b.
Proof.
  intros Hi H0 Hm. unfold ensureWritableBytes. case_match eqn:E.
  - destruct (makeSpace_spec len b) as (b' & -> & Hi' & Hc' & Hw' & Hr'); [done|lia|done|].
    cbn [mbind res_bind]. run_checks. by exists b'.
  - cbn [mbind res_bind]. run_checks. exists b. unfold reader_moved.
    split_and!; auto with lia.
Qed.

Lemma append_spec d b :
  inv b -> room (zlen d) b ->
  exists b', append d b = Ok b' /\ inv b' /\ content b' = content b ++ d /\
    reader_moved b b' /\ writerIndex_ b' <= writerIndex_ b + zlen d.
Proof.
  intros Hi Hm. pose proof (zlen_nonneg d).
  destruct (ensureWritableBytes_spec (zlen d) b) as (b1 & E1 & Hi1 & Hc1 & Hw1 & Hr1 & Hwr1);
    [done..|].
  unfold append. rewrite E1. cbn [mbind res_bind].
  rewrite writableBytes_eq in Hw1 by done. unfold vsize in Hw1.
  assert (write_at (buffer_ b1) (beginWrite b1) d = Ok _) as E2
    by (apply write_at_ok; unfold inv, beginWrite, vsize in *; lia).
  revert E2. generalize (take (Z.to_nat (beginWrite b1)) (buffer_ b1) ++ d ++
    drop (Z.to_nat (beginWrite b1 + zlen d)) (buffer_ b1)). intros l E2.
  rewrite E2. cbn [mbind res_bind].
  pose proof (zlen_write_at _ _ _ _ E2) as Hlen.
  rewrite <- Hc1. unfold hasWritten. buffer_unfold. unwrap. run_checks.
  eexists; split; [done|]. unwrap. cbn. repeat split; [lia..| |done|lia].
  apply (write_at_extends _ _ _ _ _ E2). lia.
Qed.

(** [append] can only fail by exhausting the address space. *)
Lemma append_no_room d b :
  inv b -> zlen d <= max_size -> ~ room (zlen d) b -> append d b = Fault LengthError.
Proof.
  intros Hi Hd Hr. pose proof (zlen_nonneg d). unfold room in Hr.
  unfold append, ensureWritableBytes, makeSpace. rewrite writableBytes_eq by done. buffer_unfold.
  replace (zlen (buffer_ b) - writerIndex_ b <? zlen d) with true by lia.
  rewrite !(uint_small 64) by lia.
  replace (_ <? zlen d + 8) with true by lia.
  unfold resize, max_size. by replace (writerIndex_ b + zlen d <=? 2 ^ 63 - 1) with false by lia.
Qed.

(** Appending succeeds, or the vector cannot grow. *)
Lemma append_outcome d b :
  inv b -> zlen d <= max_size ->
  (exists b', append d b = Ok b' /\ inv b' /\ content b' = content b ++ d) \/
  append d b = Fault LengthError /\ ~ room (zlen d) b.
Proof.
  intros Hi Hd. assert (Hdec : Decision (room (zlen d) b)) by (unfold room; apply _).
  destruct Hdec as [Hr|Hr]; [left|right].
  - destruct (append_spec d b Hi Hr) as (b' & ? & ? & ? & _). by exists b'.
  - split; [by apply append_no_room|done].
Qed.
End Specs.

(** ** More specifications *)

Section MoreSpecs.
Implicit Types b : Buffer.

Lemma newBuffer_spec n :
  0 <= n -> kCheapPrepend + n <= max_size ->
  exists b, newBuffer n = Ok b /\ inv b /\ content b = [] /\
    readerIndex_ b = kCheapPrepend /\ writerIndex_ b = kCheapPrepend /\
    vsize b = kCheapPrepend + n.
Proof.
  intros H0 Hn. unfold newBuffer.
  rewrite (uint_small 64) by (unfold kCheapPrepend, max_size in *; lia).
  destruct (resize_ok [] (kCheapPrepend + n)) as [l Hl]; [done|].
  rewrite Hl. cbn [mbind res_bind].
  assert (Hlen : zlen l = kCheapPrepend + n)
    by (eapply zlen_resize; [done|]; rewrite zlen_nil; unfold kCheapPrepend; lia).
  buffer_unfold. rewrite Hlen. unwrap. run_checks.
  eexists; split; [done|]. cbn. rewrite slice_empty. split_and!; lia || done.
Qed.

Lemma retrieveAll_spec b : inv b -> inv (retrieveAll b) /\ content (retrieveAll b) = [].
Proof. intros Hi. unfold retrieveAll. buffer_unfold. rewrite slice_empty. split_and!; lia || done. Qed.

Lemma retrieve_spec n b :
  inv b -> 0 <= n <= zlen (content b) ->
  exists b', retrieve n b = Ok b' /\ inv b' /\
    content b' = drop (Z.to_nat n) (content b) /\
    (n = zlen (content b) /\ b' = retrieveAll b \/
     n < zlen (content b) /\ readerIndex_ b' = readerIndex_ b + n /\
     writerIndex_ b' = writerIndex_ b /\ buffer_ b' = buffer_ b).
Proof.
  intros Hi Hn. unfold retrieve. rewrite readableBytes_content by done. run_checks.
  case_match eqn:E.
  - pose proof (zlen_content b Hi) as Hz.
    eexists; split; [done|]. buffer_unfold. unwrap.
    rewrite drop_slice by lia. split_and!; try lia || done. right. split_and!; lia || done.
  - destruct (retrieveAll_spec b Hi) as [Hi' Hc'].
    eexists; split; [done|]. rewrite Hc'. split_and!; [done| |left; split; [lia|done]].
    rewrite drop_ge; [done|]. unfold zlen in *. lia.
Qed.

Lemma retrieve_too_much n b :
  inv b -> zlen (content b) < n -> retrieve n b = Fault AssertFailure.
Proof.
  intros Hi Hn. unfold retrieve, check. rewrite readableBytes_content by done.
  by replace (n <=? zlen (content b)) with false by lia.
Qed.

Lemma retrieveUntil_spec p b :
  inv b -> peek b <= p <= beginWrite b ->
  exists b', retrieveUntil p b = Ok b' /\ inv b' /\
    content b' = drop (Z.to_nat (p - peek b)) (content b).
Proof.
  intros Hi Hp. unfold retrieveUntil. run_checks.
  pose proof (zlen_content b Hi). buffer_unfold. unwrap.
  destruct (retrieve_spec (p - readerIndex_ b) b) as (b' & -> & Hi' & Hc' & _); eauto;
    buffer_unfold; lia || done.
Qed.

Lemma retrieveAsString_spec n b :
  inv b -> 0 <= n <= zlen (content b) ->
  exists b', retrieveAsString n b = Ok (take (Z.to_nat n) (content b), b') /\ inv b' /\
    content b' = drop (Z.to_nat n) (content b).
Proof.
  intros Hi Hn. unfold retrieveAsString. pose proof (zlen_content b Hi).
  rewrite readableBytes_content by done. run_checks.
  rewrite read_range_ok by (buffer_unfold; lia). cbn [mbind res_bind].
  destruct (retrieve_spec n b) as (b' & -> & Hi' & Hc' & _); [done..|].
  cbn [mbind res_bind]. exists b'. split; [|done]. repeat f_equal.
  unfold content. rewrite take_slice; [done|buffer_unfold; lia..].
Qed.

Lemma unwrite_spec n b :
  inv b -> 0 <= n <= zlen (content b) ->
  exists b', unwrite n b = Ok b' /\ inv b' /\ readerIndex_ b' = readerIndex_ b /\
    writerIndex_ b' = writerIndex_ b - n /\
    content b' = take (Z.to_nat (zlen (content b) - n)) (content b).
Proof.
  intros Hi Hn. unfold unwrite. rewrite readableBytes_content by done. run_checks.
  pose proof (zlen_content b Hi). eexists; split; [done|].
  buffer_unfold. unwrap. rewrite take_slice by lia. split_and!; try lia || done.
  f_equal. lia.
Qed.

Lemma prepend_spec d b :
  inv b -> zlen d <= readerIndex_ b ->
  exists b', prepend d b = Ok b' /\ inv b' /\ content b' = d ++ content b /\
    readerIndex_ b' = readerIndex_ b - zlen d /\ writerIndex_ b' = writerIndex_ b.
Proof.
  intros Hi Hd. pose proof (zlen_nonneg d). unfold prepend. buffer_unfold. run_checks. unwrap.
  assert (exists l, write_at (buffer_ b) (readerIndex_ b - zlen d) d = Ok l) as [l Hl]
    by (eexists; apply write_at_ok; lia).
  rewrite Hl. cbn [mbind res_bind].
  pose proof (zlen_write_at _ _ _ _ Hl) as Hlen.
  destruct (write_at_slices _ _ _ _ Hl) as (_ & Hmid & Hpost).
  replace (readerIndex_ b - zlen d + zlen d) with (readerIndex_ b) in Hmid, Hpost by lia.
  eexists; split; [done|]. cbn. split_and!; try lia.
  rewrite <- (slice_app _ (readerIndex_ b)) by lia. rewrite Hmid. f_equal.
  rewrite (slice_sub (readerIndex_ b) (zlen l) _ _ l) by lia. rewrite Hpost.
  by rewrite <- slice_sub by lia.
Qed.

Lemma shrink_spec reserve b :
  inv b -> 0 <= reserve -> zlen (content b) < 2 ^ 31 ->
  zlen (content b) + reserve + kCheapPrepend <= max_size ->
  exists b', shrink reserve b = Ok b' /\ inv b' /\ content b' = content b /\
    readerIndex_ b' = kCheapPrepend /\ writerIndex_ b' = kCheapPrepend + zlen (content b).
Proof.
  intros Hi Hr Hc Hm. pose proof (zlen_nonneg (content b)) as H0. unfold shrink.
  destruct (newBuffer_spec kInitialSize) as (b0 & -> & Hi0 & Hc0 & Hr0 & Hw0 & _);
    [unfold kInitialSize, kCheapPrepend, max_size in *; lia..|].
  cbn [mbind res_bind]. rewrite readableBytes_content by done.
  rewrite (uint_small 64) by (unfold kCheapPrepend, max_size in Hm; lia).
  destruct (ensureWritableBytes_spec (zlen (content b) + reserve) b0)
    as (b1 & -> & Hi1 & Hc1 & Hw1 & Hr1 & Hwr1); [done|lia|left; lia|].
  cbn [mbind res_bind]. unfold toStringPiece. rewrite readableBytes_content by done.
  unwrap. rewrite read_range_ok by (pose proof (zlen_content b Hi); buffer_unfold; lia).
  replace (slice (peek b) (peek b + zlen (content b)) (buffer_ b)) with (content b).
  2: { unfold content at 1. rewrite zlen_content by done. unfold peek. f_equal. lia. }
  cbn [mbind res_bind].
  destruct (append_spec (content b) b1) as (b2 & -> & Hi2 & Hc2 & Hr2 & Hwr2); [done|left; lia|].
  cbn [mbind res_bind fst swap]. exists b2. rewrite Hc1, Hc0 in Hc2. cbn [app] in Hc2.
  pose proof (zlen_content b2 Hi2) as Hz. rewrite Hc2 in Hz.
  unfold reader_moved in *. split_and!; [by destruct b2|done|done|lia|lia].
Qed.
End MoreSpecs.
