(* ===== verification/BufferTheory.v ===== *)
(** * Theorems about the application buffer (src/muduo/net/Buffer.h)

    Searching, integers on the wire, scatter reads, and the refinement of a byte
    queue with prepend room by the two-index vector. *)

From S2P Require Import Prelude Endian Buffer.

(** ** Searching *)

Section Search.
Implicit Types pat l : list char.

Lemma is_prefix_spec pat l : is_prefix pat l = true <-> exists l2, l = pat ++ l2.
Proof.
  revert l. induction pat as [|p pat IH]; intros l; cbn; [by split; eauto|].
  destruct l as [|c l]; cbn.
  - split; [done|]. by intros [? ?].
  - rewrite andb_true_iff, bool_decide_eq_true, IH. split.
    + intros [-> [l2 ->]]. by exists l2.
    + intros [l2 [= -> ->]]. eauto.
Qed.

(** [std::search] finds the first occurrence. *)
Lemma std_search_Some pat l i :
  std_search pat l = Some i ->
  0 <= i /\ (exists l2, drop (Z.to_nat i) l = pat ++ l2) /\
  forall j, (j < Z.to_nat i)%nat -> is_prefix pat (drop j l) = false.
Proof.
  revert i. induction l as [|c l IH]; intros i; cbn.
  - destruct (is_prefix pat []) eqn:E; [|done]. intros [= <-].
    apply is_prefix_spec in E. split_and!; [lia|done|lia].
  - destruct (is_prefix pat (c :: l)) eqn:E.
    + intros [= <-]. apply is_prefix_spec in E. split_and!; [lia|done|lia].
    + destruct (std_search pat l) as [k|] eqn:Ek; [|done]. intros [= <-].
      destruct (IH k eq_refl) as (Hk & Hp & Hf).
      rewrite Z2Nat.inj_succ by lia. split_and!; [lia|done|].
      intros [|j] Hj; [done|]. cbn. apply Hf. lia.
Qed.

Lemma std_search_None pat l j :
  std_search pat l = None -> is_prefix pat (drop j l) = false.
Proof.
  revert j. induction l as [|c l IH]; intros j; cbn.
  - destruct (is_prefix pat []) eqn:E; [done|]. by rewrite drop_nil.
  - destruct (is_prefix pat (c :: l)) eqn:E; [done|].
    destruct (std_search pat l) eqn:Es; [done|]. intros _.
    destruct j as [|j]; [done|]. by apply IH.
Qed.

(** A line without carriage return ends at its own CRLF. *)
Lemma std_search_CRLF_line line rest :
  chr 13 ∉ line -> std_search kCRLF (line ++ kCRLF ++ rest) = Some (zlen line).
Proof.
  induction line as [|c line IH]; intros Hn; [done|].
  apply not_elem_of_cons in Hn as [Hc Hl]. cbn [app std_search].
  destruct (is_prefix kCRLF (c :: line ++ kCRLF ++ rest)) eqn:E.
  { apply is_prefix_spec in E as [l2 [= Hcc _]]. congruence. }
  rewrite IH by done. cbn [fmap option_fmap option_map]. f_equal. rewrite zlen_cons. lia.
Qed.

Lemma find_char_Some c l i :
  find_char c l = Some i <->
  exists l1 l2, l = l1 ++ c :: l2 /\ c ∉ l1 /\ i = zlen l1.
Proof.
  revert i. induction l as [|d l IH]; intros i; cbn.
  - split; [done|]. intros (l1 & l2 & E & _). by destruct l1.
  - case_bool_decide as E.
    + subst d. split.
      * intros [= <-]. exists [], l. split_and!; [done|set_solver|done].
      * intros (l1 & l2 & Hl & Hn & ->). destruct l1 as [|e l1]; [done|].
        cbn in Hl. injection Hl as <- _. set_solver.
    + destruct (find_char c l) as [k|] eqn:Ek; cbn; split.
      * intros [= <-]. destruct (proj1 (IH k) eq_refl) as (l1 & l2 & -> & Hn & ->).
        exists (d :: l1), l2. rewrite zlen_cons. split_and!; [done|set_solver|lia].
      * intros (l1 & l2 & Hl & Hn & ->). destruct l1 as [|e l1]; cbn in Hl; [congruence|].
        injection Hl as <- Hl. assert (Hk : Some k = Some (zlen l1)).
        { apply IH. exists l1, l2. split_and!; [done|set_solver|done]. }
        injection Hk as ->. rewrite zlen_cons. f_equal. lia.
      * done.
      * intros (l1 & l2 & Hl & Hn & ->). destruct l1 as [|e l1]; cbn in Hl; [congruence|].
        injection Hl as <- Hl. enough (None = Some (zlen l1)) by done.
        apply IH. exists l1, l2. split_and!; [done|set_solver|done].
Qed.

Lemma find_char_None c l : find_char c l = None <-> c ∉ l.
Proof.
  induction l as [|d l IH]; cbn; [split; [intros _; apply not_elem_of_nil|done]|].
  case_bool_decide as E.
  - subst. split; [done|set_solver].
  - destruct (find_char c l); cbn; split; try done.
    + intros Hn. assert (c ∉ l) as Hl by set_solver. apply IH in Hl. done.
    + intros _. destruct IH as [IH _]. specialize (IH eq_refl). set_solver.
Qed.
End Search.

(** What [findCRLF] answers in terms of the readable bytes. *)
Lemma findCRLF_eq b :
  inv b ->
  findCRLF b = Ok ((fun i => peek b + i) <$> std_search kCRLF (content b)).
Proof.
  intros Hi. unfold findCRLF. rewrite read_range_ok by (buffer_unfold; lia).
  cbn [mbind res_bind]. fold (content b).
  change (slice (peek b) (beginWrite b) (buffer_ b)) with (content b).
  destruct (std_search kCRLF (content b)) as [i|] eqn:E; cbn.
  - apply std_search_Some in E as (H0 & [l2 Hl2] & _).
    assert (zlen (drop (Z.to_nat i) (content b)) = 2 + zlen l2) as Hz
      by (rewrite Hl2, zlen_app; done).
    pose proof (zlen_content b Hi) as Hc. pose proof (zlen_nonneg l2).
    unfold zlen in Hz, Hc. rewrite length_drop in Hz. unfold zlen in *.
    replace (peek b + i =? beginWrite b) with false; [done|].
    unfold peek, beginWrite. lia.
  - by rewrite Z.eqb_refl.
Qed.

(** ** Lines *)

(** The first line and what follows its CRLF. *)
Definition split_line (s : list char) : option (list char * list char) :=
  match std_search kCRLF s with
  | Some i => Some (take (Z.to_nat i) s, drop (Z.to_nat (i + 2)) s)
  | None => None
  end.

Lemma split_line_Some s line rest : split_line s = Some (line, rest) -> s = line ++ kCRLF ++ rest.
Proof.
  unfold split_line. destruct (std_search kCRLF s) as [i|] eqn:E; [|done]. intros [= <- <-].
  apply std_search_Some in E as (H0 & [l2 Hl2] & _).
  replace (Z.to_nat (i + 2)) with (Z.to_nat i + 2)%nat by lia.
  rewrite <- drop_drop, Hl2. change (drop 2 (kCRLF ++ l2)) with l2. by rewrite <- Hl2, take_drop.
Qed.

(** Reading the line the search found, and skipping it. *)
Lemma line_of_buffer b :
  inv b ->
  match split_line (content b) with
  | Some (line, rest) => exists p b', findCRLF b = Ok (Some p) /\
      read_range (buffer_ b) (peek b) p = Ok line /\
      retrieveUntil (p + 2) b = Ok b' /\ inv b' /\ content b' = rest
  | None => findCRLF b = Ok None
  end.
Proof.
  intros Hi. rewrite findCRLF_eq by done. unfold split_line.
  destruct (std_search kCRLF (content b)) as [i|] eqn:E; cbn [fmap option_fmap option_map]; [|done].
  apply std_search_Some in E as (H0 & [l2 Hl2] & _).
  assert (Hlen : i + 2 <= zlen (content b)).
  { apply (f_equal zlen) in Hl2. rewrite zlen_app in Hl2. pose proof (zlen_nonneg l2).
    change (zlen kCRLF) with 2 in Hl2. unfold zlen in *. rewrite length_drop in Hl2. lia. }
  pose proof (zlen_content b Hi) as Hc.
  destruct (retrieveUntil_spec (peek b + i + 2) b) as (b' & Hr & Hi' & Hc');
    [done|unfold peek, beginWrite; lia|].
  exists (peek b + i), b'. split_and!; [done| |done|done|].
  - unfold peek. rewrite read_range_ok by (buffer_unfold; lia). f_equal.
    unfold content. symmetry. apply take_slice; buffer_unfold; lia.
  - rewrite Hc'. f_equal. lia.
Qed.

Lemma find_char_app c (l1 l2 : list char) : c ∉ l1 -> find_char c (l1 ++ c :: l2) = Some (zlen l1).
Proof. intros. apply find_char_Some. by exists l1, l2. Qed.

Lemma take_zlen {A} (l1 l2 : list A) : take (Z.to_nat (zlen l1)) (l1 ++ l2) = l1.
Proof. unfold zlen. rewrite Nat2Z.id. apply take_app_length. Qed.

Lemma drop_zlen {A} (l1 : list A) x l2 : drop (Z.to_nat (zlen l1 + 1)) (l1 ++ x :: l2) = l2.
Proof.
  unfold zlen. replace (Z.to_nat (Z.of_nat (length l1) + 1)) with (length l1 + 1)%nat by lia.
  rewrite <- drop_drop, drop_app_length. done.
Qed.

Lemma split_line_text line rest : chr 13 ∉ line -> split_line (line ++ kCRLF ++ rest) = Some (line, rest).
Proof.
  intros Hn. unfold split_line. rewrite std_search_CRLF_line by done. f_equal. f_equal.
  - apply take_zlen.
  - unfold zlen. replace (Z.to_nat (Z.of_nat (length line) + 2)) with (length line + 2)%nat by lia.
    by rewrite <- drop_drop, drop_app_length.
Qed.

(** Bytes that arrive later do not change a line that is complete. *)
Lemma is_prefix_app pat l y : (length pat <= length l)%nat -> is_prefix pat (l ++ y) = is_prefix pat l.
Proof.
  revert l. induction pat as [|p pat IH]; intros [|x l] Hl; cbn in *; try done; [lia|].
  rewrite IH by lia. done.
Qed.

Lemma std_search_app pat s y i : std_search pat s = Some i -> std_search pat (s ++ y) = Some i.
Proof.
  revert i. induction s as [|x s IH]; intros i.
  - cbn. destruct (is_prefix pat []) eqn:E; [|done]. intros [= <-].
    assert (Hp : is_prefix pat y = true).
    { apply is_prefix_spec in E as [l2 E]. apply eq_sym, app_eq_nil in E as [-> ->]. by destruct y. }
    destruct y; cbn [app std_search] in *; by rewrite Hp.
  - intros Hs. assert (Hlen : (length pat <= length (x :: s))%nat).
    { apply std_search_Some in Hs as (? & [l2 Hl2] & _). apply (f_equal length) in Hl2.
      rewrite length_drop, length_app in Hl2. lia. }
    cbn [app std_search] in *. change (x :: s ++ y) with ((x :: s) ++ y).
    rewrite is_prefix_app by done. destruct (is_prefix pat (x :: s)); [done|].
    destruct (std_search pat s) as [k|] eqn:Ek; [|done]. by rewrite (IH k).
Qed.

Lemma split_line_app s y line rest :
  split_line s = Some (line, rest) -> split_line (s ++ y) = Some (line, rest ++ y).
Proof.
  intros Hs. pose proof (split_line_Some _ _ _ Hs) as Happ. unfold split_line in *.
  destruct (std_search kCRLF s) as [i|] eqn:E; [|done]. injection Hs as <- <-.
  rewrite (std_search_app _ _ y _ E). apply std_search_Some in E as (H0 & [l2 Hl2] & _).
  assert ((Z.to_nat (i + 2) <= length s)%nat).
  { apply (f_equal length) in Hl2. rewrite length_drop, length_app in Hl2. cbn in Hl2. lia. }
  by rewrite take_app_le, drop_app_le by lia.
Qed.

(** [findCRLF] returns the first CRLF of the readable bytes, as a pointer
    into them at which [retrieveUntil (crlf + 2)] is legal, and NULL exactly when
    the readable bytes contain no CRLF. *)
Theorem findCRLF_correct b :
  inv b ->
  match findCRLF b with
  | Ok (Some p) =>
      exists line rest, content b = line ++ kCRLF ++ rest /\ p = peek b + zlen line /\
        (forall j, (j < length line)%nat -> is_prefix kCRLF (drop j (content b)) = false) /\
        exists b', retrieveUntil (p + 2) b = Ok b' /\ inv b' /\ content b' = rest
  | Ok None => forall line rest, content b <> line ++ kCRLF ++ rest
  | Fault _ => False
  end.
Proof.
  intros Hi. rewrite findCRLF_eq by done.
  destruct (std_search kCRLF (content b)) as [i|] eqn:E; cbn [fmap option_fmap option_map].
  - apply std_search_Some in E as (H0 & [rest Hrest] & Hfirst).
    assert (Hsplit : content b = take (Z.to_nat i) (content b) ++ kCRLF ++ rest)
      by (rewrite <- Hrest; symmetry; apply take_drop).
    assert (Hlen : zlen (content b) = zlen (take (Z.to_nat i) (content b)) + 2 + zlen rest)
      by (rewrite Hsplit at 1; rewrite !zlen_app; change (zlen kCRLF) with 2; lia).
    assert (Hi' : zlen (take (Z.to_nat i) (content b)) = i).
    { pose proof (zlen_nonneg rest). unfold zlen in *. rewrite length_take in *. lia. }
    exists (take (Z.to_nat i) (content b)), rest. rewrite Hi'. split_and!; [done|done| |].
    + intros j Hj. apply Hfirst. unfold zlen in Hi'. lia.
    + pose proof (zlen_content b Hi). pose proof (zlen_nonneg rest).
      destruct (retrieveUntil_spec (peek b + i + 2) b) as (b' & -> & Hib & Hcb);
        [done|unfold peek, beginWrite; lia|].
      exists b'. split_and!; [done|done|]. rewrite Hcb, Hsplit, app_assoc.
      apply drop_app_length'. rewrite length_app. unfold zlen in Hi'. cbn. lia.
  - intros line rest Hc. pose proof (std_search_None _ _ (length line) E) as Hp.
    rewrite Hc, drop_app_length in Hp.
    assert (is_prefix kCRLF (kCRLF ++ rest) = true) by (apply is_prefix_spec; eauto).
    congruence.
Qed.

(** ** Integers on the wire *)

Section Wire.
Context `{Host}.

Lemma to_memory_sint n z :
  (0 < n)%nat -> to_memory n (sint (8 * Z.of_nat n) z) = to_memory n z.
Proof. intros. rewrite <- to_memory_uint, uint_sint by lia. apply to_memory_uint. Qed.

(** What an [appendInt]/[prependInt] stores. *)
Lemma stored_be n x :
  (0 < n)%nat ->
  to_memory n (sint (8 * Z.of_nat n) (htobe n (uint (8 * Z.of_nat n) x))) = be_bytes n x.
Proof. intros. rewrite to_memory_sint by done. rewrite to_memory_htobe. apply be_bytes_uint. Qed.

(** What a [peekInt] computes from the bytes at the read position. *)
Lemma loaded_be m :
  (0 < length m)%nat ->
  sint (8 * zlen m) (betoh (length m) (uint (8 * zlen m) (sint (8 * zlen m) (from_memory m))))
  = sint (8 * zlen m) (of_be_bytes m).
Proof.
  intros. assert (0 < 8 * zlen m) by (unfold zlen; lia).
  rewrite uint_sint by done. pose proof (from_memory_range m).
  rewrite uint_small by done. by rewrite betoh_from_memory.
Qed.
End Wire.

(** The four integer widths of the interface. *)
Inductive width := W8 | W16 | W32 | W64.
Definition bytes_of (w : width) : nat :=
  match w with W8 => 1 | W16 => 2 | W32 => 4 | W64 => 8 end.

Section IntOps.
Context `{Host}.

Definition append_int (w : width) : Z -> Buffer -> res Buffer :=
  match w with W8 => appendInt8 | W16 => appendInt16 | W32 => appendInt32 | W64 => appendInt64 end.
Definition prepend_int (w : width) : Z -> Buffer -> res Buffer :=
  match w with
  | W8 => prependInt8 | W16 => prependInt16 | W32 => prependInt32 | W64 => prependInt64 end.
Definition peek_int (w : width) : Buffer -> res Z :=
  match w with W8 => peekInt8 | W16 => peekInt16 | W32 => peekInt32 | W64 => peekInt64 end.
Definition read_int (w : width) : Buffer -> res (Z * Buffer) :=
  match w with W8 => readInt8 | W16 => readInt16 | W32 => readInt32 | W64 => readInt64 end.

Lemma to_memory_1 x : to_memory 1 x = be_bytes 1 x.
Proof. unfold to_memory. by case_match. Qed.

Lemma append_int_eq w x b : append_int w x b = append (be_bytes (bytes_of w) x) b.
Proof.
  destruct w; cbn [append_int bytes_of].
  - unfold appendInt8. by rewrite to_memory_1.
  - unfold appendInt16. by rewrite <- (stored_be 2) by lia.
  - unfold appendInt32. by rewrite <- (stored_be 4) by lia.
  - unfold appendInt64. by rewrite <- (stored_be 8) by lia.
Qed.

Lemma prepend_int_eq w x b : prepend_int w x b = prepend (be_bytes (bytes_of w) x) b.
Proof.
  destruct w; cbn [prepend_int bytes_of].
  - unfold prependInt8. by rewrite to_memory_1.
  - unfold prependInt16. by rewrite <- (stored_be 2) by lia.
  - unfold prependInt32. by rewrite <- (stored_be 4) by lia.
  - unfold prependInt64. by rewrite <- (stored_be 8) by lia.
Qed.

Definition bits_of (w : width) : Z := 8 * Z.of_nat (bytes_of w).

Lemma peek_int_eq w m rest b :
  inv b -> content b = m ++ rest -> length m = bytes_of w ->
  peek_int w b = Ok (sint (bits_of w) (of_be_bytes m)).
Proof.
  intros Hi Hc Hm.
  assert (Hr : read_range (buffer_ b) (peek b) (peek b + zlen m) = Ok m).
  { pose proof (zlen_content b Hi) as Hz. rewrite Hc, zlen_app in Hz.
    pose proof (zlen_nonneg rest). pose proof (zlen_nonneg m).
    rewrite read_range_ok by (buffer_unfold; lia). f_equal. unfold peek.
    rewrite <- (take_slice (zlen m) _ (writerIndex_ b)) by (buffer_unfold; lia).
    fold (content b). rewrite Hc. unfold zlen. rewrite Nat2Z.id. apply take_app_length. }
  assert (Hn : readableBytes b = zlen m + zlen rest)
    by (rewrite readableBytes_content, Hc, zlen_app by done; done).
  pose proof (zlen_nonneg rest).
  assert (Hz : zlen m = Z.of_nat (bytes_of w)) by (unfold zlen; by rewrite Hm).
  pose proof (loaded_be m) as Hl. rewrite Hz, Hm in Hl. rewrite Hz in Hr, Hn.
  destruct w; cbn [peek_int bytes_of] in *; unfold bits_of; cbn [bytes_of];
    (match type of Hr with context [Z.of_nat ?k] =>
       let v := eval cbv in (Z.of_nat k) in change (Z.of_nat k) with v in Hr, Hn end);
    unfold peekInt8, peekInt16, peekInt32, peekInt64;
    run_checks; rewrite Hr; cbn [mbind res_bind]; [|rewrite <- Hl by lia; done..].
  f_equal. destruct m as [|c [|]]; try done. unfold from_memory. by case_match.
Qed.

Lemma read_int_spec w m rest b :
  inv b -> content b = m ++ rest -> length m = bytes_of w ->
  exists b', read_int w b = Ok (sint (bits_of w) (of_be_bytes m), b') /\
    inv b' /\ content b' = rest.
Proof.
  intros Hi Hc Hm. pose proof (peek_int_eq w m rest b Hi Hc Hm) as Hp.
  destruct (retrieve_spec (Z.of_nat (bytes_of w)) b) as (b' & Hr & Hi' & Hc' & _); [done| |].
  { rewrite Hc, zlen_app. pose proof (zlen_nonneg rest). unfold zlen in *. lia. }
  exists b'. rewrite Hc' , Hc, Nat2Z.id. split_and!; [|done|by apply drop_app_length'].
  destruct w; cbn [read_int peek_int bytes_of] in *;
    unfold readInt8, readInt16, readInt32, readInt64,
      retrieveInt8, retrieveInt16, retrieveInt32, retrieveInt64;
    rewrite Hp; cbn [mbind res_bind];
    match type of Hr with ?l = _ => match goal with |- context [retrieve ?n b] =>
      change (retrieve n b) with l end end; by rewrite Hr.
Qed.
End IntOps.

Lemma length_be_width w x : length (be_bytes (bytes_of w) x) = bytes_of w.
Proof. apply length_be_bytes. Qed.

Lemma sint_of_be w x :
  in_sint (bits_of w) x -> sint (bits_of w) (of_be_bytes (be_bytes (bytes_of w) x)) = x.
Proof.
  intros Hx. rewrite of_be_be_bytes. fold (bits_of w).
  rewrite sint_uint by (destruct w; unfold bits_of; cbn; lia).
  apply sint_small; [destruct w; unfold bits_of; cbn; lia|done].
Qed.

(** A sequence of integers appended by a sender and read back by a receiver. *)
Fixpoint append_ints (h : Host) (msgs : list (width * Z)) (b : Buffer) : res Buffer :=
  match msgs with
  | [] => Ok b
  | (w, x) :: msgs => b' ← append_int (H:=h) w x b; append_ints h msgs b'
  end.

Fixpoint read_ints (h : Host) (ws : list width) (b : Buffer) : res (list Z * Buffer) :=
  match ws with
  | [] => Ok ([], b)
  | w :: ws => '(x, b1) ← read_int (H:=h) w b; '(xs, b2) ← read_ints h ws b1; Ok (x :: xs, b2)
  end.

Definition wire_of (msgs : list (width * Z)) : list char :=
  msgs ≫= (fun '(w, x) => be_bytes (bytes_of w) x).

Lemma append_ints_spec h msgs b :
  inv b -> writerIndex_ b + zlen (wire_of msgs) <= max_size ->
  exists b', append_ints h msgs b = Ok b' /\ inv b' /\ content b' = content b ++ wire_of msgs.
Proof.
  revert b. induction msgs as [|[w x] msgs IH]; intros b Hi Hm.
  { exists b. by rewrite app_nil_r. }
  change (wire_of ((w, x) :: msgs)) with (be_bytes (bytes_of w) x ++ wire_of msgs) in *.
  rewrite zlen_app in Hm. pose proof (zlen_nonneg (wire_of msgs)).
  cbn [append_ints]. rewrite append_int_eq.
  destruct (append_spec (be_bytes (bytes_of w) x) b) as (b1 & -> & Hi1 & Hc1 & _ & Hw1);
    [done|left; lia|].
  cbn [mbind res_bind]. destruct (IH b1) as (b2 & -> & Hi2 & Hc2); [done|lia|].
  exists b2. split_and!; [done..|]. by rewrite Hc2, Hc1, app_assoc.
Qed.

Lemma read_ints_spec h msgs rest b :
  Forall (fun '(w, x) => in_sint (bits_of w) x) msgs ->
  inv b -> content b = wire_of msgs ++ rest ->
  exists b', read_ints h (fst <$> msgs) b = Ok (snd <$> msgs, b') /\ inv b' /\ content b' = rest.
Proof.
  intros Hr. revert b. induction Hr as [|[w x] msgs Hx Hr IH]; intros b Hi Hc; [by exists b|].
  change (wire_of ((w, x) :: msgs)) with (be_bytes (bytes_of w) x ++ wire_of msgs) in Hc.
  rewrite <- app_assoc in Hc. cbn [fmap list_fmap fst snd read_ints].
  destruct (read_int_spec w _ _ b Hi Hc (length_be_width w x)) as (b1 & -> & Hi1 & Hc1).
  cbn [mbind res_bind]. destruct (IH b1 Hi1 Hc1) as (b2 & -> & Hi2 & Hc2).
  cbn [mbind res_bind]. rewrite sint_of_be by done. by exists b2.
Qed.

(** Integers survive the wire between machines of any byte orders: whatever
    mix of [appendInt8/16/32/64] a host [h1] performs on an empty buffer succeeds,
    the bytes produced are the big-endian encodings, and a host [h2] whose buffer
    starts with those bytes reads the same values back in order with
    [readInt8/16/32/64], leaving exactly the bytes that followed. *)
Theorem ints_roundtrip (h1 h2 : Host) msgs b1 :
  Forall (fun '(w, x) => in_sint (bits_of w) x) msgs ->
  inv b1 -> content b1 = [] -> writerIndex_ b1 + zlen (wire_of msgs) <= max_size ->
  exists b1', append_ints h1 msgs b1 = Ok b1' /\ content b1' = wire_of msgs /\
    forall b2 rest, inv b2 -> content b2 = content b1' ++ rest ->
      exists b2', read_ints h2 (fst <$> msgs) b2 = Ok (snd <$> msgs, b2') /\
        inv b2' /\ content b2' = rest.
Proof.
  intros Hr Hi Hc Hm. destruct (append_ints_spec h1 msgs b1 Hi Hm) as (b1' & E & Hi' & Hc').
  rewrite Hc in Hc'. exists b1'. split_and!; [done..|].
  intros b2 rest Hi2 Hc2. rewrite Hc' in Hc2. by apply read_ints_spec.
Qed.

(** A length header put in the cheap-prepend area is what [peekInt] sees, and
    the payload behind it is untouched: after [prependInt] of [x] the buffer holds
    the big-endian [x] followed by the old content, reading it gives [x] back and
    the old content again. *)
Theorem prepend_header_roundtrip (h1 h2 : Host) w x b :
  inv b -> in_sint (bits_of w) x -> Z.of_nat (bytes_of w) <= prependableBytes b ->
  exists b1, prepend_int (H:=h1) w x b = Ok b1 /\ inv b1 /\
    content b1 = be_bytes (bytes_of w) x ++ content b /\
    peek_int (H:=h2) w b1 = Ok x /\
    exists b2, read_int (H:=h2) w b1 = Ok (x, b2) /\ inv b2 /\ content b2 = content b.
Proof.
  intros Hi Hx Hp. rewrite prepend_int_eq.
  destruct (prepend_spec (be_bytes (bytes_of w) x) b) as (b1 & -> & Hi1 & Hc1 & _);
    [done|unfold zlen; by rewrite length_be_bytes|].
  exists b1. split_and!; [done..| |].
  - erewrite peek_int_eq by (done || apply length_be_width). by rewrite sint_of_be.
  - destruct (read_int_spec (H:=h2) w _ _ b1 Hi1 Hc1 (length_be_width w x)) as (b2 & -> & Hi2 & Hc2).
    rewrite sint_of_be by done. by exists b2.
Qed.

(** ** Scatter reads *)

(** What [readv(2)] documents: it never returns more bytes than the segments hold. *)
Definition readv_contract (readv : kernel_readv) : Prop :=
  forall iov bytes, Forall (Z.le 0) iov -> readv iov = inr bytes ->
    zlen bytes <= foldr Z.add 0 iov.

(** The bytes the kernel stores in the writable part, as far as they fit. *)
Lemma scatter_first b now :
  inv b -> zlen now <= vsize b - writerIndex_ b ->
  exists l, write_at (buffer_ b) (writerIndex_ b) now = Ok l /\ zlen l = vsize b /\
    inv (mkBuffer l (readerIndex_ b) (writerIndex_ b + zlen now)) /\
    content (mkBuffer l (readerIndex_ b) (writerIndex_ b + zlen now)) = content b ++ now.
Proof.
  intros Hi Hn. pose proof (zlen_nonneg now).
  assert (exists l, write_at (buffer_ b) (writerIndex_ b) now = Ok l) as [l Hl]
    by (eexists; apply write_at_ok; buffer_unfold; lia).
  pose proof (zlen_write_at _ _ _ _ Hl) as Hlen. exists l.
  split_and!; [done|done|buffer_unfold; lia|].
  unfold content. cbn. apply (write_at_extends _ _ _ _ _ Hl). buffer_unfold. lia.
Qed.

(** How many bytes [readFd] can be given. *)
Lemma iov_bound readv wr bytes :
  readv_contract readv -> 0 <= wr ->
  readv (if wr <? sizeof_extrabuf then [wr; sizeof_extrabuf] else [wr]) = inr bytes ->
  zlen bytes <= wr \/ zlen bytes <= wr + sizeof_extrabuf.
Proof.
  intros Hk Hwr E%Hk; destruct (wr <? sizeof_extrabuf); cbn in *; try lia;
    repeat constructor; unfold sizeof_extrabuf in *; lia.
Qed.

(** [readFd] appends what the kernel delivers, or fails because the vector cannot
    grow. *)
Lemma readFd_outcome readv b :
  readv_contract readv -> inv b ->
  (exists errno, readFd readv b = Ok (-1, Some errno, b)) \/
  (exists bytes b', readFd readv b = Ok (zlen bytes, None, b') /\ inv b' /\
     content b' = content b ++ bytes) \/
  readFd readv b = Fault LengthError /\ max_size < vsize b + sizeof_extrabuf.
Proof.
  intros Hk Hi. unfold readFd. rewrite writableBytes_eq by done.
  set (wr := vsize b - writerIndex_ b).
  assert (Hwr : 0 <= wr <= vsize b) by (subst wr; buffer_unfold; lia).
  assert (Hv : vsize b <= max_size) by (buffer_unfold; lia).
  destruct (readv _) as [errno|bytes] eqn:E; [by left; exists errno|right].
  apply iov_bound in E; [|done|lia]. pose proof (zlen_nonneg bytes).
  unfold sizeof_extrabuf, max_size in *.
  destruct (scatter_first b (take (Z.to_nat wr) bytes)) as (l & -> & Hlen & Hi1 & Hc1); [done| |].
  { unfold zlen. rewrite length_take. lia. }
  cbn [mbind res_bind]. unwrap. case_match eqn:Efit.
  - rewrite take_ge in Hi1, Hc1 by (unfold zlen in *; lia).
    left. eauto.
  - rewrite zlen_take in Hi1, Hc1 by lia.
    replace (writerIndex_ b + wr) with (zlen l) in Hi1, Hc1 by (unfold wr; lia).
    unwrap. rewrite take_ge by (rewrite length_drop; unfold zlen in *; lia).
    assert (Hz : zlen (drop (Z.to_nat wr) bytes) = zlen bytes - wr) by (apply zlen_drop; lia).
    destruct (append_outcome (drop (Z.to_nat wr) bytes) _ Hi1) as [(b2 & -> & Hi2 & Hc2)|[-> Hno]];
      [unfold max_size; lia| |].
    + left. cbn [mbind res_bind]. exists bytes, b2. split_and!; [done..|].
      by rewrite Hc2, Hc1, <- app_assoc, take_drop.
    + right. split; [done|]. unfold room in Hno. cbn [writerIndex_] in Hno. unfold max_size in Hno. lia.
Qed.

(** [readFd] receives every byte the kernel delivers, in order, whether they
    fit the writable space or spill into the 64 KiB stack buffer, keeps the indices
    valid, and returns the byte count; on an error the buffer is unchanged and the
    errno is saved. *)
Theorem readFd_correct readv b :
  readv_contract readv -> inv b -> vsize b + sizeof_extrabuf <= max_size ->
  (exists errno, readFd readv b = Ok (-1, Some errno, b)) \/
  (exists bytes b', readFd readv b = Ok (zlen bytes, None, b') /\ inv b' /\
     content b' = content b ++ bytes).
Proof.
  intros Hk Hi Hv. destruct (readFd_outcome readv b Hk Hi) as [?|[?|[_ ?]]]; [by left|by right|lia].
Qed.

(** ** Refinement: a byte queue with prepend room *)

(** The abstract state: the readable bytes, how many bytes may still be prepended
    for certain, and a bound on how far the vector has been written. *)
Record queue := mkQueue { q_bytes : list char; q_credit : Z; q_high : Z }.

Inductive buffer_op :=
| OpAppend (d : list char)
| OpPrepend (d : list char)
| OpRetrieve (n : Z)
| OpRetrieveAll
| OpUnwrite (n : Z)
| OpEnsureWritable (n : Z)
| OpShrink (reserve : Z).

Definition queue_step (o : buffer_op) (q : queue) : option queue :=
  let '(mkQueue s c h) := q in
  match o with
  | OpAppend d =>
      if h + zlen d <=? max_size then Some (mkQueue (s ++ d) c (h + zlen d)) else None
  | OpPrepend d =>
      if zlen d <=? c then Some (mkQueue (d ++ s) (c - zlen d) h) else None
  | OpRetrieve n =>
      if (0 <=? n) && (n <=? zlen s)
      then Some (mkQueue (drop (Z.to_nat n) s)
                   (if n =? zlen s then kCheapPrepend else Z.min kCheapPrepend (c + n)) h)
      else None
  | OpRetrieveAll => Some (mkQueue [] kCheapPrepend h)
  | OpUnwrite n =>
      if (0 <=? n) && (n <=? zlen s)
      then Some (mkQueue (take (Z.to_nat (zlen s - n)) s) c h) else None
  | OpEnsureWritable n =>
      if (0 <=? n) && (h + n <=? max_size) then Some q else None
  | OpShrink r =>
      if (0 <=? r) && (zlen s <? 2 ^ 31) && (zlen s + r + kCheapPrepend <=? max_size)
      then Some (mkQueue s kCheapPrepend (kCheapPrepend + zlen s)) else None
  end.

Definition buffer_step (o : buffer_op) (b : Buffer) : res Buffer :=
  match o with
  | OpAppend d => append d b
  | OpPrepend d => prepend d b
  | OpRetrieve n => retrieve n b
  | OpRetrieveAll => Ok (retrieveAll b)
  | OpUnwrite n => unwrite n b
  | OpEnsureWritable n => ensureWritableBytes n b
  | OpShrink r => shrink r b
  end.

(** The simulation relation. *)
Definition represents (q : queue) (b : Buffer) : Prop :=
  inv b /\ content b = q_bytes q /\ 0 <= q_credit q <= kCheapPrepend /\
  q_credit q <= readerIndex_ b /\ writerIndex_ b <= q_high q /\ kCheapPrepend <= q_high q.

Lemma buffer_step_refines o q q' b :
  represents q b -> queue_step o q = Some q' ->
  exists b', buffer_step o b = Ok b' /\ represents q' b'.
Proof.
  intros (Hi & Hc & Hcr & Hrd & Hw & Hh) Hs. destruct q as [s c h]. cbn in Hc, Hcr, Hrd, Hw, Hh.
  subst s. pose proof (zlen_content b Hi) as Hz.
  destruct o; cbn [queue_step buffer_step] in *; try (case_match eqn:E; [|done]);
    injection Hs as <-; unfold represents; cbn [q_bytes q_credit q_high].
  - destruct (append_spec d b Hi) as (b' & -> & Hi' & Hc' & Hr' & Hw'); [left; lia|].
    exists b'. pose proof (zlen_nonneg d). unfold reader_moved, kCheapPrepend in *.
    split_and!; lia || done.
  - destruct (prepend_spec d b Hi) as (b' & -> & Hi' & Hc' & Hr' & Hw'); [lia|].
    exists b'. pose proof (zlen_nonneg d). split_and!; lia || done.
  - destruct (retrieve_spec n b Hi) as (b' & -> & Hi' & Hc' & Hcase); [lia|].
    exists b'. destruct Hcase as [[Hn ->]|(Hn & Hr' & Hw' & _)].
    + replace (n =? zlen (content b)) with true by lia. rewrite Hc'.
      unfold kCheapPrepend in *. cbn [retrieveAll readerIndex_ writerIndex_].
      unfold kCheapPrepend. split_and!; lia || done.
    + replace (n =? zlen (content b)) with false by lia.
      unfold kCheapPrepend in *. split_and!; lia || done.
  - destruct (retrieveAll_spec b Hi). eexists; split; [done|]. unfold kCheapPrepend in *.
    cbn [retrieveAll readerIndex_ writerIndex_]. unfold kCheapPrepend. split_and!; lia || done.
  - destruct (unwrite_spec n b Hi) as (b' & -> & Hi' & Hr' & Hw' & Hc'); [lia|].
    exists b'. split_and!; lia || done.
  - destruct (ensureWritableBytes_spec n b Hi) as (b' & -> & Hi' & Hc' & _ & Hr' & Hw');
      [lia|left; lia|].
    exists b'. unfold reader_moved, kCheapPrepend in *. cbn. split_and!; lia || done.
  - destruct (shrink_spec reserve b Hi) as (b' & -> & Hi' & Hc' & Hr' & Hw'); [lia..|].
    exists b'. pose proof (zlen_nonneg (content b)). unfold kCheapPrepend in *. split_and!; lia || done.
Qed.

Fixpoint queue_run (os : list buffer_op) (q : queue) : option queue :=
  match os with [] => Some q | o :: os => q' ← queue_step o q; queue_run os q' end.
Fixpoint buffer_run (os : list buffer_op) (b : Buffer) : res Buffer :=
  match os with [] => Ok b | o :: os => b' ← buffer_step o b; buffer_run os b' end.

Lemma buffer_run_refines os q q' b :
  represents q b -> queue_run os q = Some q' ->
  exists b', buffer_run os b = Ok b' /\ represents q' b'.
Proof.
  revert q b. induction os as [|o os IH]; intros q b Hr Hs; cbn in *.
  { injection Hs as <-. eauto. }
  destruct (queue_step o q) as [q1|] eqn:E; [|done].
  destruct (buffer_step_refines o q q1 b Hr E) as (b1 & -> & Hr1). cbn. by eapply IH.
Qed.

(** [C3] The buffer implements a byte queue: starting from a new buffer, every
    sequence of append, prepend, retrieve, retrieveAll, unwrite,
    ensureWritableBytes and shrink that the abstract queue allows runs without a
    failed assertion or an out-of-range access, and the readable bytes are the
    abstract queue's bytes; prepending is allowed for as long as the total stays
    within the eight cheap-prepend bytes not yet given back. *)
Theorem buffer_refines_queue initialSize os q' :
  0 <= initialSize -> kCheapPrepend + initialSize <= max_size ->
  queue_run os (mkQueue [] kCheapPrepend kCheapPrepend) = Some q' ->
  exists b0 b', newBuffer initialSize = Ok b0 /\ buffer_run os b0 = Ok b' /\
    inv b' /\ content b' = q_bytes q'.
Proof.
  intros H0 Hn Hrun.
  destruct (newBuffer_spec initialSize H0 Hn) as (b0 & E0 & Hi & Hc & Hr & Hw & _).
  destruct (buffer_run_refines os (mkQueue [] kCheapPrepend kCheapPrepend) q' b0)
    as (b' & E & Hi' & Hc' & _); [|done|].
  { unfold represents, kCheapPrepend in *. cbn. split_and!; lia || done. }
  by exists b0, b'.
Qed.

(** ** Concrete instances *)

(** A buffer holding ["GET /" CRLF "rest"], with 16 writable bytes. *)
Definition sample_buffer : Buffer :=
  mkBuffer (replicate 8 (chr 0) ++ lit "GET /" ++ kCRLF ++ lit "rest" ++ replicate 16 (chr 0)) 8 19.

Lemma sample_buffer_inv : inv sample_buffer.
Proof. unfold inv. repeat split; vm_compute; congruence. Qed.

Lemma buffer_refines_queue_witness :
  exists b0 b', newBuffer 16 = Ok b0 /\
    buffer_run [OpAppend (lit "hello"); OpPrepend (lit "ab"); OpShrink 4; OpRetrieve 3] b0 = Ok b' /\
    inv b' /\ content b' = lit "ello".
Proof.
  apply (buffer_refines_queue 16 _ (mkQueue (lit "ello") 8 15));
    [lia|vm_compute; congruence|vm_compute; reflexivity].
Defined.

(** A kernel with 10 pending bytes that honours the contract. *)
Definition sample_readv : kernel_readv := fun iov =>
  inr (take (Z.to_nat (foldr Z.add 0 iov)) (lit "0123456789")).

Lemma sample_readv_ok iov bytes :
  Forall (Z.le 0) iov -> sample_readv iov = inr bytes -> zlen bytes <= foldr Z.add 0 iov.
Proof.
  intros Hf [= <-]. assert (0 <= foldr Z.add 0 iov) by (induction Hf; cbn; lia).
  unfold zlen. rewrite length_take. lia.
Qed.

Lemma readFd_correct_witness :
  (exists errno, readFd sample_readv sample_buffer = Ok (-1, Some errno, sample_buffer)) \/
  (exists bytes b', readFd sample_readv sample_buffer = Ok (zlen bytes, None, b') /\ inv b' /\
     content b' = content sample_buffer ++ bytes).
Proof.
  apply (readFd_correct sample_readv sample_buffer).
  - exact sample_readv_ok.
  - exact sample_buffer_inv.
  - vm_compute. congruence.
Defined.

Lemma ints_roundtrip_witness :
  exists b1', append_ints LittleEndian [(W32, -2); (W16, 513)]
                (mkBuffer (replicate 40 (chr 0)) 8 8) = Ok b1' /\
    content b1' = wire_of [(W32, -2); (W16, 513)] /\
    forall b2 rest, inv b2 -> content b2 = content b1' ++ rest ->
      exists b2', read_ints BigEndian [W32; W16] b2 = Ok ([-2; 513], b2') /\
        inv b2' /\ content b2' = rest.
Proof.
  apply (ints_roundtrip LittleEndian BigEndian [(W32, -2); (W16, 513)]).
  - repeat constructor; vm_compute; congruence.
  - unfold inv. repeat split; vm_compute; congruence.
  - vm_compute. reflexivity.
  - vm_compute. congruence.
Defined.

Lemma prepend_header_roundtrip_witness :
  exists b1, prepend_int (H:=LittleEndian) W32 11 sample_buffer = Ok b1 /\ inv b1 /\
    content b1 = be_bytes 4 11 ++ content sample_buffer /\
    peek_int (H:=BigEndian) W32 b1 = Ok 11 /\
    exists b2, read_int (H:=BigEndian) W32 b1 = Ok (11, b2) /\ inv b2 /\
      content b2 = content sample_buffer.
Proof.
  apply (prepend_header_roundtrip LittleEndian BigEndian W32 11 sample_buffer).
  - exact sample_buffer_inv.
  - vm_compute. split; congruence.
  - vm_compute. congruence.
Defined.

Lemma findCRLF_correct_witness :
  exists line rest, content sample_buffer = line ++ kCRLF ++ rest /\
    findCRLF sample_buffer = Ok (Some (peek sample_buffer + zlen line)).
Proof.
  pose proof (findCRLF_correct sample_buffer sample_buffer_inv) as H.
  destruct (findCRLF sample_buffer) as [[p|]|f] eqn:E.
  - destruct H as (line & rest & Hc & -> & _). by exists line, rest.
  - exfalso. exact (H (lit "GET /") (lit "rest") eq_refl).
  - destruct H.
Defined.
