(* ===== verification/Channel.v ===== *)
(** * Channels and the poller interface
      (src/muduo/net/Channel.h, Channel.cc, Poller.h, Poller.cc)

    A [Channel] is shared by its owner, the event loop and the poller, which keep
    raw pointers to it; the model keeps all channels in a heap indexed by pointers.
    [Poller] is the interface class that the epoll and the poll implementations
    discharge (files EPollPoller.v and PollPoller.v). *)

From S2P Require Import Prelude.

Abbreviation ptr := positive (only parsing).

(** ** Event masks of <poll.h> *)
Definition POLLIN : Z := 1.
Definition POLLPRI : Z := 2.
Definition POLLOUT : Z := 4.
Definition POLLERR : Z := 8.
Definition POLLHUP : Z := 16.
Definition POLLNVAL : Z := 32.
Definition POLLRDHUP : Z := 8192.

Definition kNoneEvent : Z := 0.
Definition kReadEvent : Z := Z.lor POLLIN POLLPRI.
Definition kWriteEvent : Z := POLLOUT.

(** A C test [x & m]. *)
Definition has_bits (x m : Z) : bool := negb (Z.land x m =? 0).

(** ** The channel object *)

Record Channel := mkChannel {
  loop_ : ptr;
  fd_ : Z;
  events_ : Z;
  revents_ : Z;
  index_ : Z;
  logHup_ : bool;
  tied_ : bool;
  eventHandling_ : bool;
  addedToLoop_ : bool;
  hasReadCallback : bool;
  hasWriteCallback : bool;
  hasCloseCallback : bool;
  hasErrorCallback : bool
}.

Abbreviation Heap := (gmap ptr Channel).

Definition newChannel (loop : ptr) (fd : Z) : Channel :=
  mkChannel loop fd 0 0 (-1) true false false false false false false false.

Definition with_events (ev : Z) (c : Channel) : Channel :=
  mkChannel (loop_ c) (fd_ c) ev (revents_ c) (index_ c) (logHup_ c) (tied_ c)
    (eventHandling_ c) (addedToLoop_ c) (hasReadCallback c) (hasWriteCallback c)
    (hasCloseCallback c) (hasErrorCallback c).

Definition set_revents (rev : Z) (c : Channel) : Channel :=
  mkChannel (loop_ c) (fd_ c) (events_ c) rev (index_ c) (logHup_ c) (tied_ c)
    (eventHandling_ c) (addedToLoop_ c) (hasReadCallback c) (hasWriteCallback c)
    (hasCloseCallback c) (hasErrorCallback c).

Definition set_index (idx : Z) (c : Channel) : Channel :=
  mkChannel (loop_ c) (fd_ c) (events_ c) (revents_ c) idx (logHup_ c) (tied_ c)
    (eventHandling_ c) (addedToLoop_ c) (hasReadCallback c) (hasWriteCallback c)
    (hasCloseCallback c) (hasErrorCallback c).

Definition with_added (on : bool) (c : Channel) : Channel :=
  mkChannel (loop_ c) (fd_ c) (events_ c) (revents_ c) (index_ c) (logHup_ c) (tied_ c)
    (eventHandling_ c) on (hasReadCallback c) (hasWriteCallback c)
    (hasCloseCallback c) (hasErrorCallback c).

Definition tie (c : Channel) : Channel :=
  mkChannel (loop_ c) (fd_ c) (events_ c) (revents_ c) (index_ c) (logHup_ c) true
    (eventHandling_ c) (addedToLoop_ c) (hasReadCallback c) (hasWriteCallback c)
    (hasCloseCallback c) (hasErrorCallback c).

Definition isNoneEvent (c : Channel) : bool := events_ c =? kNoneEvent.
Definition isWriting (c : Channel) : bool := has_bits (events_ c) kWriteEvent.
Definition isReading (c : Channel) : bool := has_bits (events_ c) kReadEvent.

(** ** Dispatching the events a poll returned *)

Inductive callback := ReadCb | WriteCb | CloseCb | ErrorCb.

#[global] Instance callback_eq_dec : EqDecision callback.
Proof. solve_decision. Defined.

(** The callbacks [handleEventWithGuard] runs, in order. *)
Definition handleEventWithGuard (c : Channel) : list callback :=
  (if has_bits (revents_ c) POLLHUP && negb (has_bits (revents_ c) POLLIN)
   then (if hasCloseCallback c then [CloseCb] else []) else [])
  ++ (if has_bits (revents_ c) (Z.lor POLLERR POLLNVAL)
      then (if hasErrorCallback c then [ErrorCb] else []) else [])
  ++ (if has_bits (revents_ c) (Z.lor (Z.lor POLLIN POLLPRI) POLLRDHUP)
      then (if hasReadCallback c then [ReadCb] else []) else [])
  ++ (if has_bits (revents_ c) POLLOUT
      then (if hasWriteCallback c then [WriteCb] else []) else []).

(** [tied_object_alive]: whether [tie_.lock()] yields a live object. *)
Definition handleEvent (tied_object_alive : bool) (c : Channel) : list callback :=
  if tied_ c
  then (if tied_object_alive then handleEventWithGuard c else [])
  else handleEventWithGuard c.

(** [eventsToString(fd, ev)], the decimal [fd] already printed by the stream. *)
Definition eventsToString (fd : string) (ev : Z) : string :=
  fd +:+ ": "
  +:+ (if has_bits ev POLLIN then "IN " else "")
  +:+ (if has_bits ev POLLPRI then "PRI " else "")
  +:+ (if has_bits ev POLLOUT then "OUT " else "")
  +:+ (if has_bits ev POLLHUP then "HUP " else "")
  +:+ (if has_bits ev POLLRDHUP then "RDHUP " else "")
  +:+ (if has_bits ev POLLERR then "ERR " else "")
  +:+ (if has_bits ev POLLNVAL then "NVAL " else "").

(** ** The poller interface *)

(** The methods of class [Poller], on a heap of channels and the poller's own
    state [S], and what it promises to the event loop.  [interest s fd] is the
    event mask the kernel is asked to watch for [fd]. *)
Class Poller (S : Type) := {
  updateChannel : ptr -> Heap * S -> res (Heap * S);
  removeChannel : ptr -> Heap * S -> res (Heap * S);
  channels_ : S -> gmap Z ptr;
  interest : S -> Z -> option Z
}.

(** [Poller::hasChannel] *)
Definition hasChannel {S} `{Poller S} (p : ptr) (w : Heap * S) : res bool :=
  c ← get (w.1 !! p);
  Ok (bool_decide (channels_ w.2 !! fd_ c = Some p)).

(** ** The part of the event loop channels talk to *)

Record LoopView := mkLoopView {
  lv_this : ptr;
  lv_inLoopThread : bool;
  lv_eventHandling : bool;
  lv_currentActive : option ptr;
  lv_activeChannels : list ptr
}.

Section Operations.
Context {S : Type} `{Poller S}.

(** [EventLoop::updateChannel] *)
Definition loop_updateChannel (lv : LoopView) (p : ptr) (w : Heap * S) : res (Heap * S) :=
  c ← get (w.1 !! p);
  _ ← check (bool_decide (loop_ c = lv_this lv));
  _ ← (if lv_inLoopThread lv then Ok tt else Fault Fatal);
  updateChannel p w.

(** [EventLoop::removeChannel] *)
Definition loop_removeChannel (lv : LoopView) (p : ptr) (w : Heap * S) : res (Heap * S) :=
  c ← get (w.1 !! p);
  _ ← check (bool_decide (loop_ c = lv_this lv));
  _ ← (if lv_inLoopThread lv then Ok tt else Fault Fatal);
  _ ← (if lv_eventHandling lv
       then check (bool_decide (lv_currentActive lv = Some p)
                   || bool_decide (p ∉ lv_activeChannels lv))
       else Ok tt);
  removeChannel p w.

(** [Channel::update] *)
Definition update (lv : LoopView) (p : ptr) (w : Heap * S) : res (Heap * S) :=
  c ← get (w.1 !! p);
  loop_updateChannel lv p (<[p := with_added true c]> w.1, w.2).

(** [Channel::remove] *)
Definition remove (lv : LoopView) (p : ptr) (w : Heap * S) : res (Heap * S) :=
  c ← get (w.1 !! p);
  _ ← check (isNoneEvent c);
  loop_removeChannel lv p (<[p := with_added false c]> w.1, w.2).

(** Set the event mask, then [update()]. *)
Definition set_events (f : Z -> Z) (lv : LoopView) (p : ptr) (w : Heap * S) : res (Heap * S) :=
  c ← get (w.1 !! p);
  update lv p (<[p := with_events (f (events_ c)) c]> w.1, w.2).

Definition enableReading := set_events (fun ev => Z.lor ev kReadEvent).
Definition disableReading := set_events (fun ev => Z.land ev (Z.lnot kReadEvent)).
Definition enableWriting := set_events (fun ev => Z.lor ev kWriteEvent).
Definition disableWriting := set_events (fun ev => Z.land ev (Z.lnot kWriteEvent)).
Definition disableAll := set_events (fun _ => kNoneEvent).

(** [channel.disableAll(); channel.remove();], how every owner retires a channel. *)
Definition disable_and_remove (lv : LoopView) (p : ptr) (w : Heap * S) : res (Heap * S) :=
  w1 ← disableAll lv p w;
  remove lv p w1.
End Operations.

(** ** What a poller promises *)

(** The events effectively watched for a descriptor. *)
Definition watched {S} `{Poller S} (s : S) (fd : Z) : Z := default 0 (interest s fd).

(** The channel is registered under its descriptor, or it was never registered and
    the descriptor is free; descriptor and mask are ones the kernel interface can
    carry (descriptors are below the system limit fs.nr_open). *)
Definition nr_open : Z := 2 ^ 20.

Definition admissible {S} `{Poller S} (p : ptr) (c : Channel) (s : S) : Prop :=
  0 <= fd_ c < nr_open /\ 0 <= events_ c < 2 ^ 15 /\
  (channels_ s !! fd_ c = None /\ index_ c = -1 \/ channels_ s !! fd_ c = Some p).

(** What [updateChannel] of [p], holding [c], must achieve: it registers the
    channel, asks the kernel for exactly its mask, and touches nothing else but the
    channel's index. *)
Definition update_promise {S} `{Poller S} (wf : Heap * S -> Prop)
    (h : Heap) (s : S) (p : ptr) (c : Channel) (r : res (Heap * S)) : Prop :=
  exists i s', r = Ok (<[p := set_index i c]> h, s') /\
    wf (<[p := set_index i c]> h, s') /\
    channels_ s' = <[fd_ c := p]> (channels_ s) /\
    watched s' (fd_ c) = events_ c /\
    (events_ c <> 0 -> interest s' (fd_ c) = Some (events_ c)) /\
    (events_ c = 0 -> is_Some (interest s (fd_ c)) -> interest s' (fd_ c) = None) /\
    (forall fd, fd <> fd_ c -> interest s' fd = interest s fd).

(** What [removeChannel] of a registered, unwatched channel must achieve: it is
    forgotten, and only indices of other channels may change. *)
Definition remove_promise {S} `{Poller S} (wf : Heap * S -> Prop)
    (h : Heap) (s : S) (p : ptr) (c : Channel) (r : res (Heap * S)) : Prop :=
  exists h' s', r = Ok (h', s') /\ wf (h', s') /\
    channels_ s' = delete (fd_ c) (channels_ s) /\
    interest s' (fd_ c) = None /\
    (forall fd, fd <> fd_ c -> interest s' fd = interest s fd) /\
    (forall q d, h !! q = Some d -> exists j, h' !! q = Some (set_index j d)).

Class PollerLaws (S : Type) `{Poller S} := {
  (** the poller's representation invariant *)
  wf : Heap * S -> Prop;
  (** it does not depend on what only the channel's owner changes *)
  wf_owner : forall h s p c c',
    wf (h, s) -> h !! p = Some c -> fd_ c' = fd_ c -> index_ c' = index_ c ->
    wf (<[p := c']> h, s);
  update_law : forall h s p c,
    wf (h, s) -> h !! p = Some c -> admissible p c s ->
    update_promise wf h s p c (updateChannel p (h, s));
  remove_law : forall h s p c,
    wf (h, s) -> h !! p = Some c -> 0 <= fd_ c -> channels_ s !! fd_ c = Some p ->
    events_ c = 0 -> interest s (fd_ c) = None ->
    remove_promise wf h s p c (removeChannel p (h, s))
}.

(** ** What a call of poll reports *)

(** The heap after poll stored the returned mask of every ready channel. *)
Definition reported (ready : list (ptr * Z)) (h : Heap) : Heap :=
  map_imap (fun p c => Some (match (list_to_map ready : gmap ptr Z) !! p with
                             | Some ev => set_revents ev c
                             | None => c
                             end)) h.

Lemma lookup_reported ready h p :
  reported ready h !! p =
  (fun c => match (list_to_map ready : gmap ptr Z) !! p with
            | Some ev => set_revents ev c
            | None => c
            end) <$> h !! p.
Proof. unfold reported. rewrite map_lookup_imap. by destruct (h !! p). Qed.

Lemma reported_nil h : reported [] h = h.
Proof. apply map_eq. intros p. rewrite lookup_reported. cbn. rewrite lookup_empty. by destruct (h !! p). Qed.

Lemma reported_cons p ev ready h c :
  h !! p = Some c -> p ∉ ready.*1 ->
  reported ((p, ev) :: ready) h = reported ready (<[p := set_revents ev c]> h).
Proof.
  intros Hp Hn. apply map_eq. intros q. rewrite !lookup_reported. cbn.
  destruct (decide (p = q)) as [->|Hne].
  - rewrite !lookup_insert_eq, Hp. cbn. by rewrite (not_elem_of_list_to_map_1 _ _ Hn).
  - by rewrite !lookup_insert_ne by done.
Qed.

(** The poller's invariant does not depend on the masks poll stores. *)
Lemma wf_reported {S} `{PollerLaws S} ready h s : wf (h, s) -> wf (reported ready h, s).
Proof.
  revert h. induction ready as [|[p ev] ready IH]; intros h Hwf; [by rewrite reported_nil|].
  destruct (h !! p) as [c|] eqn:Hp.
  - destruct (decide (p ∈ ready.*1)) as [Hin|Hn].
    + assert (reported ((p, ev) :: ready) h = <[p := set_revents ev c]> (reported ready h)) as ->.
      { apply map_eq. intros q. rewrite lookup_reported. cbn.
        destruct (decide (p = q)) as [->|]; [by rewrite !lookup_insert_eq, Hp|].
        by rewrite !lookup_insert_ne, lookup_reported by done. }
      eapply wf_owner; [by apply IH|rewrite lookup_reported, Hp; done|by case_match..].
    + rewrite (reported_cons _ _ _ _ c) by done. apply IH. by eapply wf_owner.
  - assert (reported ((p, ev) :: ready) h = reported ready h) as ->; [|by apply IH].
    apply map_eq. intros q. rewrite !lookup_reported. cbn.
    destruct (decide (p = q)) as [->|]; [by rewrite Hp|]. by rewrite lookup_insert_ne by done.
Qed.

(** A loop view in which channel operations of [c] are legal. *)
Definition in_loop (lv : LoopView) (c : Channel) : Prop :=
  lv_this lv = loop_ c /\ lv_inLoopThread lv = true.

Lemma set_events_run {S} `{Poller S} f lv h s p c :
  h !! p = Some c -> in_loop lv c ->
  set_events f lv p (h, s) =
    updateChannel p (<[p := with_added true (with_events (f (events_ c)) c)]> h, s).
Proof.
  intros Hp [Hl Ht].
  unfold set_events, update, loop_updateChannel. cbn [fst snd]. rewrite Hp. cbn [get mbind res_bind].
  rewrite !lookup_insert_eq. cbn [get mbind res_bind fst snd]. rewrite lookup_insert_eq.
  cbn [get mbind res_bind loop_ with_added with_events]. rewrite Hl, bool_decide_true by done.
  cbn [check mbind res_bind]. rewrite Ht. cbn [mbind res_bind]. by rewrite insert_insert_eq.
Qed.

Lemma remove_run {S} `{Poller S} lv h s p c :
  h !! p = Some c -> in_loop lv c -> lv_eventHandling lv = false -> events_ c = 0 ->
  remove lv p (h, s) = removeChannel p (<[p := with_added false c]> h, s).
Proof.
  intros Hp [Hl Ht] He Hev. unfold remove, loop_removeChannel. cbn [fst snd]. rewrite Hp.
  cbn [get mbind res_bind]. unfold isNoneEvent. rewrite Hev. cbn [Z.eqb kNoneEvent check mbind res_bind].
  rewrite lookup_insert_eq. cbn [get mbind res_bind loop_ with_added].
  rewrite (bool_decide_true (loop_ c = lv_this lv)) by congruence.
  cbn [check mbind res_bind]. by rewrite Ht, He.
Qed.

Section ClientTheorems.
Context {S : Type} `{PollerLaws S}.

Lemma set_events_law f lv h s p c :
  wf (h, s) -> h !! p = Some c -> in_loop lv c ->
  admissible p (with_events (f (events_ c)) c) s ->
  exists i s', set_events f lv p (h, s) =
      Ok (<[p := set_index i (with_added true (with_events (f (events_ c)) c))]> h, s') /\
    wf (<[p := set_index i (with_added true (with_events (f (events_ c)) c))]> h, s') /\
    channels_ s' = <[fd_ c := p]> (channels_ s) /\
    watched s' (fd_ c) = f (events_ c) /\
    (f (events_ c) <> 0 -> interest s' (fd_ c) = Some (f (events_ c))) /\
    (f (events_ c) = 0 -> is_Some (interest s (fd_ c)) -> interest s' (fd_ c) = None) /\
    (forall fd, fd <> fd_ c -> interest s' fd = interest s fd).
Proof.
  intros Hwf Hp [Hl Ht] Ha. pose (c1 := with_added true (with_events (f (events_ c)) c)).
  assert (Hwf1 : wf (<[p := c1]> h, s)) by (by apply (wf_owner h s p c)).
  destruct (update_law (<[p := c1]> h) s p c1) as (i & s' & E & Hlaw);
    [done|by simplify_map_eq|done|].
  exists i, s'. rewrite insert_insert_eq in E, Hlaw. split; [|done].
  by rewrite (set_events_run _ _ _ _ _ c).
Qed.

Lemma remove_channel_law lv h s p c :
  wf (h, s) -> h !! p = Some c -> in_loop lv c -> lv_eventHandling lv = false ->
  0 <= fd_ c -> channels_ s !! fd_ c = Some p -> events_ c = 0 -> interest s (fd_ c) = None ->
  exists h' s', remove lv p (h, s) = Ok (h', s') /\ wf (h', s') /\
    channels_ s' = delete (fd_ c) (channels_ s) /\ interest s' (fd_ c) = None /\
    (forall fd, fd <> fd_ c -> interest s' fd = interest s fd).
Proof.
  intros Hwf Hp [Hl Ht] He Hfd Hch Hev Hin. pose (c1 := with_added false c).
  assert (Hwf1 : wf (<[p := c1]> h, s)) by (by apply (wf_owner h s p c)).
  destruct (remove_law (<[p := c1]> h) s p c1) as (h' & s' & E & Hw & Hc & Hn & Ho & _);
    [done|by simplify_map_eq|done..|].
  exists h', s'. split; [|done]. by rewrite (remove_run _ _ _ _ c).
Qed.

(** The life cycle every owner of a channel relies on works with any poller:
    a newly constructed channel whose descriptor is free can be enabled for reading and writing, the
    kernel then watches exactly the read and write masks, disableAll stops the
    watching, remove unregisters it, and the interest in every other descriptor is
    what it was before. *)
Theorem channel_lifecycle lv h s p c :
  wf (h, s) -> h !! p = Some c -> in_loop lv c -> lv_eventHandling lv = false ->
  events_ c = 0 -> index_ c = -1 -> 0 <= fd_ c < nr_open ->
  channels_ s !! fd_ c = None ->
  exists w1 w2 w3 w4,
    enableReading lv p (h, s) = Ok w1 /\ interest w1.2 (fd_ c) = Some kReadEvent /\
    enableWriting lv p w1 = Ok w2 /\
      interest w2.2 (fd_ c) = Some (Z.lor kReadEvent kWriteEvent) /\
      hasChannel p w2 = Ok true /\
    disableAll lv p w2 = Ok w3 /\ interest w3.2 (fd_ c) = None /\
    remove lv p w3 = Ok w4 /\ channels_ w4.2 !! fd_ c = None /\ wf w4 /\
    forall fd, fd <> fd_ c -> interest w4.2 fd = interest s fd.
Proof.
  intros Hwf Hp Hl He Hev Hix Hfd Hch.
  destruct (set_events_law (fun ev => Z.lor ev kReadEvent) lv h s p c)
    as (i1 & s1 & E1 & W1 & C1 & _ & I1 & _ & O1); [done..| |].
  { unfold admissible. cbn. rewrite Hev.
    split_and!; first [lia | solve [auto] | by vm_compute]. }
  rewrite Hev in *. cbn in E1, W1, I1. set (c1 := set_index _ _) in *.
  destruct (set_events_law (fun ev => Z.lor ev kWriteEvent) lv _ s1 p c1 W1)
    as (i2 & s2 & E2 & W2 & C2 & _ & I2 & _ & O2); [by simplify_map_eq|done| |].
  { unfold admissible. cbn. rewrite C1, lookup_insert_eq.
    split_and!; first [lia | solve [auto] | by vm_compute]. }
  rewrite insert_insert_eq in E2, W2. cbn in E2, W2, I2. set (c2 := set_index i2 _) in *.
  destruct (set_events_law (fun _ => kNoneEvent) lv _ s2 p c2 W2)
    as (i3 & s3 & E3 & W3 & C3 & _ & _ & I3 & O3); [by simplify_map_eq|done| |].
  { unfold admissible. cbn. rewrite C2, lookup_insert_eq.
    split_and!; first [lia | solve [auto] | by vm_compute]. }
  rewrite insert_insert_eq in E3, W3. cbn in E3, W3, I3. set (c3 := set_index i3 _) in *.
  destruct (remove_channel_law lv _ s3 p c3 W3) as (h4 & s4 & E4 & W4 & C4 & I4 & O4);
    [by simplify_map_eq|done|done|by apply Hfd| |done| |].
  { change (fd_ c3) with (fd_ c). rewrite C3. by simplify_map_eq. }
  { apply I3; [done|]. change (fd_ c2) with (fd_ c). rewrite I2; [done|by vm_compute]. }
  exists (<[p:=c1]> h, s1), (<[p:=c2]> h, s2), (<[p:=c3]> h, s3), (h4, s4).
  cbn [fst snd]. change (fd_ c1) with (fd_ c) in *. change (fd_ c2) with (fd_ c) in *.
  change (fd_ c3) with (fd_ c) in *. split_and!; try done.
  - apply I1. by vm_compute.
  - apply I2. by vm_compute.
  - unfold hasChannel. cbn. rewrite lookup_insert_eq. cbn. rewrite C2, lookup_insert_eq.
    by rewrite bool_decide_true.
  - apply I3; [done|]. rewrite I2; [done|by vm_compute].
  - rewrite C4. by simplify_map_eq.
  - intros fd Hne. rewrite O4, O3, O2, O1; done.
Qed.
End ClientTheorems.
