(* ===== verification/EPollPoller.v ===== *)
(** * The epoll(4) poller (src/muduo/net/poller/EPollPoller.cc)

    The kernel's interest list is part of the state: descriptor to event mask and
    user pointer.  [epoll_ctl] fails with EEXIST / ENOENT as epoll_ctl(2)
    documents; the code aborts on a failed ADD or MOD and logs a failed DEL. *)

From S2P Require Import Prelude Channel.

Definition kNew : Z := -1.
Definition kAdded : Z := 1.
Definition kDeleted : Z := 2.
Definition kInitEventListSize : Z := 16.

Record EPollPoller := mkEPoll {
  ep_channels : gmap Z ptr;
  ep_kernel : gmap Z (Z * ptr);
  ep_events_size : Z
}.

Definition newEPollPoller : EPollPoller := mkEPoll ∅ ∅ kInitEventListSize.

Inductive epoll_op := EPOLL_CTL_ADD | EPOLL_CTL_DEL | EPOLL_CTL_MOD.

(** epoll_ctl(2): the new interest list, or failure. *)
Definition epoll_ctl (op : epoll_op) (fd : Z) (ev : Z * ptr) (k : gmap Z (Z * ptr))
  : option (gmap Z (Z * ptr)) :=
  match op, k !! fd with
  | EPOLL_CTL_ADD, None => Some (<[fd := ev]> k)
  | EPOLL_CTL_MOD, Some _ => Some (<[fd := ev]> k)
  | EPOLL_CTL_DEL, Some _ => Some (delete fd k)
  | _, _ => None
  end.

Definition operationToString (op : epoll_op) : string :=
  match op with EPOLL_CTL_ADD => "ADD" | EPOLL_CTL_DEL => "DEL" | EPOLL_CTL_MOD => "MOD" end.

(** [EPollPoller::update] *)
Definition epoll_update (op : epoll_op) (p : ptr) (c : Channel) (s : EPollPoller)
  : res EPollPoller :=
  match epoll_ctl op (fd_ c) (events_ c, p) (ep_kernel s) with
  | Some k => Ok (mkEPoll (ep_channels s) k (ep_events_size s))
  | None => match op with EPOLL_CTL_DEL => Ok s | _ => Fault Fatal end
  end.

Definition with_channels (m : gmap Z ptr) (s : EPollPoller) : EPollPoller :=
  mkEPoll m (ep_kernel s) (ep_events_size s).

(** [EPollPoller::updateChannel] *)
Definition epoll_updateChannel (p : ptr) (w : Heap * EPollPoller) : res (Heap * EPollPoller) :=
  let '(h, s) := w in
  c ← get (h !! p);
  let index := index_ c in
  let fd := fd_ c in
  if (index =? kNew) || (index =? kDeleted)
  then
    s1 ← (if index =? kNew
          then _ ← check (bool_decide (ep_channels s !! fd = None));
               Ok (with_channels (<[fd := p]> (ep_channels s)) s)
          else _ ← check (bool_decide (is_Some (ep_channels s !! fd)));
               _ ← check (bool_decide (ep_channels s !! fd = Some p));
               Ok s);
    let c' := set_index kAdded c in
    s2 ← epoll_update EPOLL_CTL_ADD p c' s1;
    Ok (<[p := c']> h, s2)
  else
    _ ← check (bool_decide (is_Some (ep_channels s !! fd)));
    _ ← check (bool_decide (ep_channels s !! fd = Some p));
    _ ← check (index =? kAdded);
    if isNoneEvent c
    then s1 ← epoll_update EPOLL_CTL_DEL p c s; Ok (<[p := set_index kDeleted c]> h, s1)
    else s1 ← epoll_update EPOLL_CTL_MOD p c s; Ok (h, s1).

(** [EPollPoller::removeChannel] *)
Definition epoll_removeChannel (p : ptr) (w : Heap * EPollPoller) : res (Heap * EPollPoller) :=
  let '(h, s) := w in
  c ← get (h !! p);
  let fd := fd_ c in
  _ ← check (bool_decide (is_Some (ep_channels s !! fd)));
  _ ← check (bool_decide (ep_channels s !! fd = Some p));
  _ ← check (isNoneEvent c);
  let index := index_ c in
  _ ← check ((index =? kAdded) || (index =? kDeleted));
  let s1 := with_channels (delete fd (ep_channels s)) s in
  s2 ← (if index =? kAdded then epoll_update EPOLL_CTL_DEL p c s1 else Ok s1);
  Ok (<[p := set_index kNew c]> h, s2).

(** [EPollPoller::fillActiveChannels]: [ready] are the entries of [events_] that
    epoll_wait filled, each with the user pointer and the returned mask. *)
Fixpoint epoll_fillActiveChannels (ready : list (ptr * Z)) (s : EPollPoller)
    (h : Heap) (active : list ptr) : res (Heap * list ptr) :=
  match ready with
  | [] => Ok (h, active)
  | (p, ev) :: ready =>
      c ← get (h !! p);
      _ ← check (bool_decide (is_Some (ep_channels s !! fd_ c)));
      _ ← check (bool_decide (ep_channels s !! fd_ c = Some p));
      epoll_fillActiveChannels ready s (<[p := set_revents ev c]> h) (active ++ [p])
  end.

(** [EPollPoller::poll]: epoll_wait answered an errno or the ready entries. *)
Definition epoll_poll (answer : Z + list (ptr * Z)) (w : Heap * EPollPoller)
    (active : list ptr) : res (Heap * EPollPoller * list ptr) :=
  let '(h, s) := w in
  match answer with
  | inr ((_ :: _) as ready) =>
      _ ← check (zlen ready <=? ep_events_size s);
      '(h', active') ← epoll_fillActiveChannels ready s h active;
      let sz := if zlen ready =? ep_events_size s
                then ep_events_size s * 2 else ep_events_size s in
      Ok (h', mkEPoll (ep_channels s) (ep_kernel s) sz, active')
  | _ => Ok (h, s, active)
  end.

#[global] Instance epoll_poller : Poller EPollPoller := {|
  updateChannel := epoll_updateChannel;
  removeChannel := epoll_removeChannel;
  channels_ := ep_channels;
  interest := fun s fd => fst <$> ep_kernel s !! fd
|}.

(** ** The representation invariant *)

Record epoll_wf (w : Heap * EPollPoller) : Prop := mkEPollWf {
  (** a registered channel exists, carries its descriptor, and is added or deleted *)
  epwf_registered : forall fd p, ep_channels w.2 !! fd = Some p ->
    exists c, w.1 !! p = Some c /\ fd_ c = fd /\ (index_ c = kAdded \/ index_ c = kDeleted);
  (** every channel is new or registered under its descriptor *)
  epwf_index : forall p c, w.1 !! p = Some c ->
    index_ c = kNew \/ ep_channels w.2 !! fd_ c = Some p;
  (** the kernel knows exactly the added channels, by their own pointers *)
  epwf_kernel : forall fd ev p, ep_kernel w.2 !! fd = Some (ev, p) ->
    ep_channels w.2 !! fd = Some p;
  epwf_added : forall p c, w.1 !! p = Some c -> ep_channels w.2 !! fd_ c = Some p ->
    (index_ c = kAdded <-> is_Some (ep_kernel w.2 !! fd_ c))
}.

Lemma epoll_wf_owner h s p c c' :
  epoll_wf (h, s) -> h !! p = Some c -> fd_ c' = fd_ c -> index_ c' = index_ c ->
  epoll_wf (<[p := c']> h, s).
Proof.
  intros [H1 H2 H3 H4] Hp Hf Hi. cbn in *. split; cbn.
  - intros fd q Hq. destruct (H1 fd q Hq) as (d & Hd & ? & ?).
    destruct (decide (p = q)) as [->|]; simplify_map_eq; eexists; split_and!; eauto; congruence.
  - intros q d Hq. destruct (decide (p = q)) as [->|]; simplify_map_eq; [|eauto].
    rewrite Hi, Hf. eauto.
  - done.
  - intros q d Hq. destruct (decide (p = q)) as [->|]; simplify_map_eq; [|eauto].
    rewrite Hi, Hf. eauto.
Qed.

(** Replacing the record of one channel, its registration and the kernel entry of
    its descriptor keeps the invariant when the three agree. *)
Lemma epoll_wf_set h s p c i sz (ch : gmap Z ptr) (k : gmap Z (Z * ptr)) :
  epoll_wf (h, s) -> h !! p = Some c ->
  (ep_channels s !! fd_ c = None \/ ep_channels s !! fd_ c = Some p) ->
  (i = kAdded \/ i = kDeleted) ->
  ch = <[fd_ c := p]> (ep_channels s) ->
  (forall fd, fd <> fd_ c -> k !! fd = ep_kernel s !! fd) ->
  (forall ev q, k !! fd_ c = Some (ev, q) -> q = p) ->
  (i = kAdded <-> is_Some (k !! fd_ c)) ->
  epoll_wf (<[p := set_index i c]> h, mkEPoll ch k sz).
Proof.
  intros [H1 H2 H3 H4] Hp Hfree Hi -> Hk Hq Hadd. cbn in *. split; cbn.
  - intros fd q Hq'. destruct (decide (fd = fd_ c)) as [->|Hne]; simplify_map_eq.
    { eexists; split_and!; [done|done|done]. }
    destruct (H1 fd q) as (d & Hd & Hfd & Hidx); [done|].
    destruct (decide (p = q)) as [->|]; simplify_map_eq; eauto.
  - intros q d Hd. destruct (decide (p = q)) as [->|]; simplify_map_eq; [by right|].
    destruct (H2 q d Hd) as [?|Hreg]; [by left|right].
    destruct (decide (fd_ d = fd_ c)) as [E|]; [|by simplify_map_eq].
    rewrite E in Hreg. destruct Hfree; congruence.
  - intros fd ev q Hkq. destruct (decide (fd = fd_ c)) as [->|Hne].
    + rewrite (Hq ev q Hkq). by simplify_map_eq.
    + rewrite Hk in Hkq by done. rewrite lookup_insert_ne by done. eauto.
  - intros q d Hd Hreg. destruct (decide (p = q)) as [->|Hpq]; simplify_map_eq; [done|].
    destruct (decide (fd_ d = fd_ c)) as [E|Hne].
    + rewrite E in Hreg. simplify_map_eq.
    + rewrite Hk by done. simplify_map_eq. eauto.
Qed.

(** What the invariant says about a channel that may be updated. *)
Lemma epoll_wf_cases h s p c :
  epoll_wf (h, s) -> h !! p = Some c ->
  (ep_channels s !! fd_ c = None \/ ep_channels s !! fd_ c = Some p) ->
  (index_ c = kNew /\ ep_channels s !! fd_ c = None /\ ep_kernel s !! fd_ c = None) \/
  (index_ c = kAdded /\ ep_channels s !! fd_ c = Some p /\
     exists ev, ep_kernel s !! fd_ c = Some (ev, p)) \/
  (index_ c = kDeleted /\ ep_channels s !! fd_ c = Some p /\ ep_kernel s !! fd_ c = None).
Proof.
  intros [H1 H2 H3 H4] Hp Hfree. cbn in *.
  destruct (ep_kernel s !! fd_ c) as [[ev q]|] eqn:E.
  - pose proof (H3 _ _ _ E) as Hq. assert (q = p) as -> by (destruct Hfree; congruence).
    right. left. split_and!; [|done|by eauto]. apply (H4 p c Hp Hq). by rewrite E.
  - assert (index_ c <> kAdded \/ ep_channels s !! fd_ c = None) as Hna.
    { destruct Hfree as [?|Hr]; [by right|left]. intros Hi.
      apply (H4 p c Hp Hr) in Hi. rewrite E in Hi. by destruct Hi. }
    destruct Hfree as [Hn|Hr].
    + left. destruct (H2 p c Hp); [done|congruence].
    + destruct (H1 _ _ Hr) as (d & Hd & _ & Hidx). simplify_map_eq.
      destruct Hidx as [Hi|Hi]; [|by right; right]. destruct Hna; [done|congruence].
Qed.

(** The ADD branch of [updateChannel], for a new or a deleted channel. *)
Lemma epoll_add_promise h s p c :
  epoll_wf (h, s) -> h !! p = Some c ->
  (ep_channels s !! fd_ c = None \/ ep_channels s !! fd_ c = Some p) ->
  ep_kernel s !! fd_ c = None ->
  update_promise epoll_wf h s p c
    (s2 ← epoll_update EPOLL_CTL_ADD p (set_index kAdded c)
            (with_channels (<[fd_ c := p]> (ep_channels s)) s);
     Ok (<[p := set_index kAdded c]> h, s2)).
Proof.
  intros Hwf Hp Hfree Hk. unfold epoll_update, epoll_ctl, with_channels.
  cbn [ep_kernel ep_channels ep_events_size fd_ set_index events_]. rewrite Hk.
  cbn [mbind res_bind]. exists kAdded. eexists. split; [done|]. unfold watched.
  split_and!; cbn; try (by simplify_map_eq).
  - eapply epoll_wf_set; eauto; intros; simplify_map_eq; eauto. by split.
  - intros fd Hne. by rewrite lookup_insert_ne by done.
Qed.

(** The MOD / DEL branch, for an added channel. *)
Lemma epoll_mod_promise h s p c ev :
  epoll_wf (h, s) -> h !! p = Some c -> index_ c = kAdded ->
  ep_channels s !! fd_ c = Some p -> ep_kernel s !! fd_ c = Some (ev, p) ->
  update_promise epoll_wf h s p c
    (if isNoneEvent c
     then s1 ← epoll_update EPOLL_CTL_DEL p c s; Ok (<[p := set_index kDeleted c]> h, s1)
     else s1 ← epoll_update EPOLL_CTL_MOD p c s; Ok (h, s1)).
Proof.
  intros Hwf Hp Hi Hr Hk. unfold isNoneEvent, epoll_update, epoll_ctl, kNoneEvent.
  rewrite Hk. unfold watched.
  assert (Hid : <[fd_ c := p]> (ep_channels s) = ep_channels s) by (by apply insert_id).
  destruct (events_ c =? 0) eqn:E; cbn [mbind res_bind].
  - exists kDeleted. eexists. split; [done|].
    assert (events_ c = 0) as E0 by lia. rewrite E0. split_and!; cbn; try (by simplify_map_eq).
    + eapply epoll_wf_set; eauto; intros; simplify_map_eq; eauto.
      split; [done|by intros [? ?]].
    + intros fd Hne. by rewrite lookup_delete_ne by done.
  - exists kAdded. eexists.
    assert (Hh : <[p := set_index kAdded c]> h = h).
    { rewrite <- Hi. apply insert_id. rewrite Hp. by destruct c. }
    rewrite Hh. split; [done|]. split_and!; cbn; try (by simplify_map_eq); try lia.
    + rewrite <- Hh. eapply epoll_wf_set; eauto; intros; simplify_map_eq; eauto. by split.
    + intros fd Hne. by rewrite lookup_insert_ne by done.
Qed.

Lemma epoll_update_law h s p c :
  epoll_wf (h, s) -> h !! p = Some c -> admissible p c s ->
  update_promise epoll_wf h s p c (updateChannel p (h, s)).
Proof.
  intros Hwf Hp (_ & _ & Hadm). cbn [channels_ epoll_poller] in Hadm.
  assert (Hfree : ep_channels s !! fd_ c = None \/ ep_channels s !! fd_ c = Some p) by tauto.
  cbn [updateChannel epoll_poller]. unfold epoll_updateChannel. rewrite Hp. cbn [get mbind res_bind].
  destruct (epoll_wf_cases h s p c Hwf Hp Hfree) as
    [(Hi & Hn & Hk)|[(Hi & Hr & ev & Hk)|(Hi & Hr & Hk)]]; rewrite Hi.
  - cbn -[epoll_update set_index]. rewrite bool_decide_true by done. cbn -[epoll_update set_index].
    by apply epoll_add_promise.
  - cbn -[epoll_update set_index isNoneEvent]. rewrite !bool_decide_true by eauto.
    cbn -[epoll_update set_index isNoneEvent]. by eapply epoll_mod_promise.
  - cbn -[epoll_update set_index]. rewrite !bool_decide_true by eauto. cbn -[epoll_update set_index].
    pose proof (epoll_add_promise h s p c Hwf Hp Hfree Hk) as Ha.
    unfold with_channels in Ha. rewrite (insert_id (ep_channels s)) in Ha by exact Hr. destruct s. exact Ha.
Qed.

Lemma epoll_remove_law h s p c :
  epoll_wf (h, s) -> h !! p = Some c -> 0 <= fd_ c -> channels_ s !! fd_ c = Some p ->
  events_ c = 0 -> interest s (fd_ c) = None ->
  remove_promise epoll_wf h s p c (removeChannel p (h, s)).
Proof.
  cbn [channels_ interest removeChannel epoll_poller].
  intros Hwf Hp _ Hr Hev Hin. apply fmap_None in Hin.
  unfold epoll_removeChannel. rewrite Hp. cbn [get mbind res_bind].
  rewrite !bool_decide_true by eauto. unfold isNoneEvent. rewrite Hev.
  destruct (epoll_wf_cases h s p c Hwf Hp) as
    [(Hi & Hn & Hk)|[(Hi & _ & ev & Hk)|(Hi & _ & Hk)]]; [by right|congruence|congruence|].
  rewrite Hi. cbn -[set_index]. exists (<[p := set_index kNew c]> h). eexists.
  split; [done|]. cbn. rewrite Hk.
  split_and!; try done.
  - destruct Hwf as [H1 H2 H3 H4]. cbn in *. split; cbn.
    + intros fd q [Hne Hq]%lookup_delete_Some. destruct (H1 fd q Hq) as (d & Hd & ? & ?).
      destruct (decide (p = q)) as [->|]; simplify_map_eq. eauto.
    + intros q d Hd. destruct (decide (p = q)) as [->|Hpq]; simplify_map_eq; [by left|].
      destruct (H2 q d Hd) as [?|Hrq]; [by left|right].
      destruct (decide (fd_ d = fd_ c)) as [E|]; [|by simplify_map_eq]. rewrite E in Hrq. congruence.
    + intros fd ev q Hq. destruct (decide (fd = fd_ c)) as [->|]; [congruence|].
      simplify_map_eq. eauto.
    + intros q d Hd [Hne Hq]%lookup_delete_Some.
      destruct (decide (p = q)) as [->|Hpq]; simplify_map_eq. eauto.
  - intros q d Hd. destruct (decide (p = q)) as [->|Hne]; simplify_map_eq; [by eexists|].
    exists (index_ d). by destruct d.
Qed.

#[global] Instance epoll_laws : PollerLaws EPollPoller := {|
  wf := epoll_wf;
  wf_owner := epoll_wf_owner;
  update_law := epoll_update_law;
  remove_law := epoll_remove_law
|}.

(** ** Polling *)

(** What epoll_wait(2) may answer: at most [events_size] entries, each the user
    pointer of a distinct descriptor of the interest list. *)
Definition epoll_answer_ok (s : EPollPoller) (ready : list (ptr * Z)) : Prop :=
  zlen ready <= ep_events_size s /\ NoDup ready.*1 /\
  forall p ev, (p, ev) ∈ ready -> exists fd mask, ep_kernel s !! fd = Some (mask, p).

Lemma epoll_fill_ok ready s h active :
  epoll_wf (h, s) -> NoDup ready.*1 ->
  (forall p ev, (p, ev) ∈ ready -> exists fd mask, ep_kernel s !! fd = Some (mask, p)) ->
  epoll_fillActiveChannels ready s h active = Ok (reported ready h, active ++ ready.*1).
Proof.
  revert h active. induction ready as [|[p ev] ready IH]; intros h active Hwf Hnd Hk; cbn.
  { by rewrite app_nil_r, reported_nil. }
  apply NoDup_cons in Hnd as [Hn Hnd].
  destruct (Hk p ev ltac:(left)) as (fd & mask & Hfd).
  pose proof (epwf_kernel _ Hwf _ _ _ Hfd) as Hch. cbn in Hch.
  destruct (epwf_registered _ Hwf _ _ Hch) as (c & Hp & Hf & _). cbn in Hp. subst fd.
  rewrite Hp. cbn [get mbind res_bind]. rewrite !bool_decide_true by eauto. cbn [check mbind res_bind].
  rewrite (reported_cons _ _ _ _ c), IH; [by rewrite <- (assoc_L app)| |done| |done|done].
  - by eapply epoll_wf_owner.
  - intros q e Hq. apply (Hk q e). by right.
Qed.

(** [C27] With the epoll poller, poll reports exactly what epoll_wait returned: the
    ready channels are appended to the active list in order, each of them carries the
    returned mask, no other channel changes, and the poller's invariant and the
    kernel's interest list are kept; a full result array is doubled for the next
    round.  On an error nothing changes. *)
Theorem epoll_poll_correct h s active :
  epoll_wf (h, s) ->
  (forall ready, epoll_answer_ok s ready ->
    exists s', epoll_poll (inr ready) (h, s) active
                 = Ok (reported ready h, s', active ++ ready.*1) /\
      epoll_wf (reported ready h, s') /\ ep_kernel s' = ep_kernel s /\
      (0 < ep_events_size s -> zlen ready < ep_events_size s')) /\
  (forall err, epoll_poll (inl err) (h, s) active = Ok (h, s, active)).
Proof.
  intros Hwf. split; [|done]. intros ready (Hsz & Hnd & Hk).
  destruct ready as [|x ready].
  { exists s. cbn. rewrite reported_nil, app_nil_r. split_and!; done. }
  cbn [epoll_poll]. rewrite check_true by lia. cbn [mbind res_bind].
  rewrite epoll_fill_ok by done. cbn [mbind res_bind].
  eexists. split; [done|]. cbn [ep_kernel ep_events_size]. split_and!; [|done|].
  - assert (epoll_wf (reported (x :: ready) h, s)) as [H1 H2 H3 H4] by (by apply (@wf_reported _ _ epoll_laws)).
    by split; cbn in *.
  - intros Hpos. destruct (zlen (x :: ready) =? ep_events_size s) eqn:E; lia.
Qed.

(** Two registered channels, one of them ready. *)
Definition sample_heap : Heap :=
  {[ 1%positive := with_events kReadEvent (set_index kAdded (newChannel 9 5));
     2%positive := set_index kDeleted (newChannel 9 7) ]}.

Definition sample_epoll : EPollPoller :=
  mkEPoll {[ 5 := 1%positive; 7 := 2%positive ]} {[ 5 := (kReadEvent, 1%positive) ]} 16.

Lemma sample_epoll_wf : epoll_wf (sample_heap, sample_epoll).
Proof.
  unfold sample_heap, sample_epoll. split; cbn [fst snd ep_channels ep_kernel]; intros.
  - repeat match goal with H : <[?k := _]> _ !! _ = Some _ |- _ =>
      apply lookup_insert_Some in H as [[<- <-]|[? H]] end.
    + eexists. split; [reflexivity|]. split; [done|by left].
    + apply lookup_singleton_Some in H as [<- <-].
      eexists. split; [reflexivity|]. split; [done|by right].
  - apply lookup_insert_Some in H as [[<- <-]|[? H]]; [by right|].
    apply lookup_singleton_Some in H as [<- <-]. by right.
  - apply lookup_singleton_Some in H as [<- [= <- <-]]. done.
  - apply lookup_insert_Some in H as [[<- <-]|[? H]]; [by split; eauto|].
    apply lookup_singleton_Some in H as [<- <-]. split; [done|]. by intros [? ?].
Qed.

Lemma epoll_poll_correct_witness :
  exists s', epoll_poll (inr [(1%positive, POLLIN)]) (sample_heap, sample_epoll) []
    = Ok (reported [(1%positive, POLLIN)] sample_heap, s', [1%positive]).
Proof.
  destruct (epoll_poll_correct sample_heap sample_epoll [] sample_epoll_wf) as [H _].
  destruct (H [(1%positive, POLLIN)]) as (s' & E & _); [|by exists s'].
  split_and!; [done|apply NoDup_singleton|].
  intros p ev Hin. apply list_elem_of_singleton in Hin as [= -> ->].
  exists 5, kReadEvent. done.
Defined.
