(* ===== verification/PollPoller.v ===== *)
(** * The poll(2) poller (src/muduo/net/poller/PollPoller.cc)

    The poller keeps the vector of [pollfd] it hands to poll(2); a channel's index
    is its position there, and a channel without interest keeps its slot with the
    descriptor replaced by [-fd-1]. *)

From S2P Require Import Prelude Channel EPollPoller.

Record pollfd := mkPollfd { pfd_fd : Z; pfd_events : Z; pfd_revents : Z }.

Record PollPoller := mkPoll {
  pp_channels : gmap Z ptr;
  pollfds_ : list pollfd
}.

Definition newPollPoller : PollPoller := mkPoll ∅ [].

(** [PollPoller::updateChannel] *)
Definition poll_updateChannel (p : ptr) (w : Heap * PollPoller) : res (Heap * PollPoller) :=
  let '(h, s) := w in
  c ← get (h !! p);
  if index_ c <? 0
  then
    _ ← check (bool_decide (pp_channels s !! fd_ c = None));
    let pfd := mkPollfd (fd_ c) (sint 16 (events_ c)) 0 in
    let pollfds := pollfds_ s ++ [pfd] in
    let idx := sint 32 (zlen pollfds) - 1 in
    Ok (<[p := set_index idx c]> h, mkPoll (<[pfd_fd pfd := p]> (pp_channels s)) pollfds)
  else
    _ ← check (bool_decide (is_Some (pp_channels s !! fd_ c)));
    _ ← check (bool_decide (pp_channels s !! fd_ c = Some p));
    let idx := index_ c in
    _ ← check ((0 <=? idx) && (idx <? sint 32 (zlen (pollfds_ s))));
    pfd ← get (pollfds_ s !! Z.to_nat idx);
    _ ← check ((pfd_fd pfd =? fd_ c) || (pfd_fd pfd =? - fd_ c - 1));
    let fd' := if isNoneEvent c then - fd_ c - 1 else fd_ c in
    let pfd' := mkPollfd fd' (sint 16 (events_ c)) 0 in
    Ok (h, mkPoll (pp_channels s) (<[Z.to_nat idx := pfd']> (pollfds_ s))).

(** [vector::pop_back] *)
Definition pop_back {A} (l : list A) : list A := take (length l - 1) l.

(** [PollPoller::removeChannel] *)
Definition poll_removeChannel (p : ptr) (w : Heap * PollPoller) : res (Heap * PollPoller) :=
  let '(h, s) := w in
  c ← get (h !! p);
  _ ← check (bool_decide (is_Some (pp_channels s !! fd_ c)));
  _ ← check (bool_decide (pp_channels s !! fd_ c = Some p));
  _ ← check (isNoneEvent c);
  let idx := index_ c in
  _ ← check ((0 <=? idx) && (idx <? sint 32 (zlen (pollfds_ s))));
  pfd ← get (pollfds_ s !! Z.to_nat idx);
  _ ← check ((pfd_fd pfd =? - fd_ c - 1) && (pfd_events pfd =? events_ c));
  let channels := delete (fd_ c) (pp_channels s) in
  if idx =? zlen (pollfds_ s) - 1
  then Ok (h, mkPoll channels (pop_back (pollfds_ s)))
  else
    back ← get (last (pollfds_ s));
    let channelAtEnd := if pfd_fd back <? 0 then - pfd_fd back - 1 else pfd_fd back in
    (* iter_swap(begin()+idx, end()-1) *)
    let swapped := <[(length (pollfds_ s) - 1)%nat := pfd]> (<[Z.to_nat idx := back]> (pollfds_ s)) in
    q ← get (channels !! channelAtEnd);
    d ← get (h !! q);
    Ok (<[q := set_index idx d]> h, mkPoll channels (pop_back swapped)).

(** [PollPoller::fillActiveChannels]: scan the vector, stopping once [numEvents]
    entries with a positive [revents] were found. *)
Fixpoint poll_fillActiveChannels (numEvents : Z) (pfds : list pollfd) (s : PollPoller)
    (h : Heap) (active : list ptr) : res (Heap * list ptr) :=
  match pfds with
  | [] => Ok (h, active)
  | pfd :: pfds =>
      if 0 <? numEvents then
        if 0 <? pfd_revents pfd
        then
          _ ← check (bool_decide (is_Some (pp_channels s !! pfd_fd pfd)));
          p ← get (pp_channels s !! pfd_fd pfd);
          c ← get (h !! p);
          _ ← check (fd_ c =? pfd_fd pfd);
          poll_fillActiveChannels (numEvents - 1) pfds s
            (<[p := set_revents (pfd_revents pfd) c]> h) (active ++ [p])
        else poll_fillActiveChannels numEvents pfds s h active
      else Ok (h, active)
  end.

(** [PollPoller::poll]: poll(2) answered an errno, or filled in [revents]. *)
Definition poll_poll (answer : Z + list Z) (w : Heap * PollPoller) (active : list ptr)
  : res (Heap * PollPoller * list ptr) :=
  let '(h, s) := w in
  match answer with
  | inl _ => Ok (h, s, active)
  | inr revents =>
      let pfds := zip_with (fun pfd r => mkPollfd (pfd_fd pfd) (pfd_events pfd) r)
                    (pollfds_ s) revents in
      let numEvents := zlen (filter (fun pfd => pfd_revents pfd <> 0) pfds) in
      let s' := mkPoll (pp_channels s) pfds in
      if 0 <? numEvents
      then '(h', active') ← poll_fillActiveChannels numEvents pfds s' h active;
           Ok (h', s', active')
      else Ok (h, s', active)
  end.

(** The mask handed to the kernel for a descriptor; poll(2) ignores negative ones. *)
Definition poll_interest (s : PollPoller) (fd : Z) : option Z :=
  if fd <? 0 then None else
  (fun x => pfd_events x.2) <$> list_find (fun pfd => pfd_fd pfd = fd) (pollfds_ s).

#[global] Instance poll_poller : Poller PollPoller := {|
  updateChannel := poll_updateChannel;
  removeChannel := poll_removeChannel;
  channels_ := pp_channels;
  interest := poll_interest
|}.

(** ** The representation invariant *)

(** The descriptor a slot belongs to. *)
Definition slot_fd (pfd : pollfd) : Z :=
  if pfd_fd pfd <? 0 then - pfd_fd pfd - 1 else pfd_fd pfd.

Record poll_wf (w : Heap * PollPoller) : Prop := mkPollWf {
  (** a registered channel knows its slot *)
  ppwf_registered : forall fd p, pp_channels w.2 !! fd = Some p ->
    0 <= fd < nr_open /\ exists c pfd, w.1 !! p = Some c /\ fd_ c = fd /\ 0 <= index_ c /\
      pollfds_ w.2 !! Z.to_nat (index_ c) = Some pfd /\ slot_fd pfd = fd;
  (** every slot belongs to a registered channel that points back to it *)
  ppwf_slot : forall i pfd, pollfds_ w.2 !! i = Some pfd ->
    exists p c, pp_channels w.2 !! slot_fd pfd = Some p /\ w.1 !! p = Some c /\
      index_ c = Z.of_nat i;
  (** an ignored slot has an empty mask *)
  ppwf_ignored : forall i pfd, pollfds_ w.2 !! i = Some pfd -> pfd_fd pfd < 0 -> pfd_events pfd = 0
}.

Lemma poll_wf_owner h s p c c' :
  poll_wf (h, s) -> h !! p = Some c -> fd_ c' = fd_ c -> index_ c' = index_ c ->
  poll_wf (<[p := c']> h, s).
Proof.
  intros [H1 H2 H3] Hp Hf Hi. cbn in *. split; cbn; [| |done].
  - intros fd q Hq. destruct (H1 fd q Hq) as (Hfd & d & pfd & Hd & ? & ? & ? & ?).
    split; [done|]. destruct (decide (p = q)) as [->|]; simplify_map_eq.
    + exists c', pfd. rewrite Hi, Hf. by simplify_map_eq.
    + exists d, pfd. by simplify_map_eq.
  - intros i pfd Hpfd. destruct (H2 i pfd Hpfd) as (q & d & Hq & Hd & ?). exists q.
    destruct (decide (p = q)) as [->|]; simplify_map_eq; eexists; split_and!; eauto; congruence.
Qed.

(** Slots are found by descriptor, at most one each. *)
Lemma poll_wf_slot_inj h s i j x y :
  poll_wf (h, s) -> pollfds_ s !! i = Some x -> pollfds_ s !! j = Some y ->
  slot_fd x = slot_fd y -> i = j.
Proof.
  intros [_ H2 _] Hi Hj E. cbn in *.
  destruct (H2 i x Hi) as (p & c & Hp & Hc & Ei). destruct (H2 j y Hj) as (q & d & Hq & Hd & Ej).
  rewrite E in Hp. simplify_map_eq. lia.
Qed.

Definition slots_distinct (l : list pollfd) : Prop :=
  forall i j x y, l !! i = Some x -> l !! j = Some y -> slot_fd x = slot_fd y -> i = j.

Lemma poll_interest_Some s fd ev :
  slots_distinct (pollfds_ s) -> 0 <= fd ->
  poll_interest s fd = Some ev <->
  exists i x, pollfds_ s !! i = Some x /\ pfd_fd x = fd /\ pfd_events x = ev.
Proof.
  intros Hinj Hfd. unfold poll_interest. replace (fd <? 0) with false by lia.
  rewrite fmap_Some. split.
  - intros ([i x] & Hf & ->). apply list_find_Some in Hf as (Hx & ? & _). eauto.
  - intros (i & x & Hx & Hfx & Hev). exists (i, x). split; [|done].
    apply list_find_Some. split_and!; [done..|].
    intros j y Hy Hlt Hfy. assert (j = i); [|lia]. eapply Hinj; eauto.
    unfold slot_fd. by rewrite Hfx, Hfy.
Qed.

(** Two slot vectors with the same live entries for [fd] show the same interest. *)
Lemma poll_interest_ext s s' fd :
  slots_distinct (pollfds_ s) -> slots_distinct (pollfds_ s') ->
  (0 <= fd -> forall x, pfd_fd x = fd -> x ∈ pollfds_ s <-> x ∈ pollfds_ s') ->
  poll_interest s' fd = poll_interest s fd.
Proof.
  intros Hs Hs' Hx. destruct (Z.ltb_spec fd 0).
  { unfold poll_interest. by replace (fd <? 0) with true by lia. }
  specialize (Hx ltac:(lia)).
  apply option_eq. intros ev. rewrite !poll_interest_Some by done.
  setoid_rewrite list_elem_of_lookup in Hx.
  split; intros (i & x & Hi & Hf & He).
  - destruct (proj2 (Hx x Hf)) as [j Hj]; eauto.
  - destruct (proj1 (Hx x Hf)) as [j Hj]; eauto.
Qed.

Lemma poll_wf_distinct h s : poll_wf (h, s) -> slots_distinct (pollfds_ s).
Proof. intros Hwf i j x y. by eapply poll_wf_slot_inj. Qed.

(** Distinct descriptors below the limit bound the vector. *)
Lemma poll_wf_size h s : poll_wf (h, s) -> 0 <= zlen (pollfds_ s) <= nr_open.
Proof.
  intros Hwf. split; [apply zlen_nonneg|].
  assert (Hnd : NoDup (slot_fd <$> pollfds_ s)).
  { apply NoDup_alt. intros i j x Hi Hj.
    apply list_lookup_fmap_Some in Hi as (a & -> & Ha), Hj as (b & Hab & Hb).
    by eapply poll_wf_distinct. }
  assert (Hsub : slot_fd <$> pollfds_ s ⊆+ seqZ 0 nr_open).
  { apply NoDup_submseteq; [done|]. intros x (a & -> & Ha)%list_elem_of_fmap.
    apply list_elem_of_lookup in Ha as [i Hi].
    destruct (ppwf_slot _ Hwf i a Hi) as (p & c & Hp & _).
    destruct (ppwf_registered _ Hwf _ _ Hp) as [? _]. apply elem_of_seqZ. lia. }
  apply submseteq_length in Hsub. rewrite length_fmap, length_seqZ in Hsub.
  unfold zlen, nr_open in *. lia.
Qed.

(** ** Registering a new channel *)

Lemma poll_wf_add h s p c pfd :
  poll_wf (h, s) -> h !! p = Some c -> 0 <= fd_ c < nr_open ->
  pp_channels s !! fd_ c = None -> slot_fd pfd = fd_ c -> (pfd_fd pfd < 0 -> pfd_events pfd = 0) ->
  poll_wf (<[p := set_index (zlen (pollfds_ s)) c]> h,
           mkPoll (<[fd_ c := p]> (pp_channels s)) (pollfds_ s ++ [pfd])).
Proof.
  intros [H1 H2 H3] Hp Hfd Hn Hslot Hign. cbn in *. split; cbn.
  - intros fd q Hq. apply lookup_insert_Some in Hq as [[<- <-]|[Hne Hq]].
    + split; [done|]. eexists _, pfd. rewrite lookup_insert_eq. unfold zlen.
      split_and!; [done|done|cbn; lia| |done]. cbn. rewrite Nat2Z.id. by rewrite list_lookup_middle.
    + destruct (H1 fd q Hq) as (? & d & x & Hd & ? & ? & Hx & ?). split; [done|].
      exists d, x. destruct (decide (p = q)) as [->|]; simplify_map_eq.
      split_and!; [done..| |done]. by apply lookup_app_l_Some.
  - intros i x Hx. apply lookup_app_Some in Hx as [Hx|[Hge Hx]].
    + destruct (H2 i x Hx) as (q & d & Hq & Hd & Hi). exists q, d.
      assert (slot_fd x <> fd_ c) by congruence.
      assert (p <> q).
      { intros ->. destruct (H1 _ _ Hq) as (_ & d' & ? & ? & ? & _). simplify_map_eq. }
      by simplify_map_eq.
    + apply list_lookup_singleton_Some in Hx as [Hz <-]. exists p. eexists.
      rewrite Hslot, !lookup_insert_eq. split_and!; [done|done|]. cbn. unfold zlen. lia.
  - intros i x Hx. apply lookup_app_Some in Hx as [Hx|[_ Hx]]; [by eauto|].
    by apply list_lookup_singleton_Some in Hx as [_ <-].
Qed.

(** A live slot shows up as interest. *)
Lemma poll_interest_live h s i x :
  poll_wf (h, s) -> pollfds_ s !! i = Some x -> 0 <= pfd_fd x ->
  poll_interest s (pfd_fd x) = Some (pfd_events x).
Proof. intros Hwf Hx Hfd. apply poll_interest_Some; [by eapply poll_wf_distinct|done|eauto]. Qed.

(** No interest without registration. *)
Lemma poll_interest_registered h s fd ev :
  poll_wf (h, s) -> poll_interest s fd = Some ev -> is_Some (pp_channels s !! fd).
Proof.
  intros Hwf Hs. destruct (Z.ltb_spec fd 0) as [Hlt|Hge].
  { unfold poll_interest in Hs. by replace (fd <? 0) with true in Hs by lia. }
  apply poll_interest_Some in Hs as (i & x & Hx & Hfx & _); [|by eapply poll_wf_distinct|done].
  destruct (ppwf_slot _ Hwf i x Hx) as (q & d & Hq & _). cbn in Hq.
  unfold slot_fd in Hq. rewrite Hfx in Hq. replace (fd <? 0) with false in Hq by lia. eauto.
Qed.

Lemma poll_add_promise h s p c :
  poll_wf (h, s) -> h !! p = Some c -> 0 <= fd_ c < nr_open -> 0 <= events_ c < 2 ^ 15 ->
  pp_channels s !! fd_ c = None -> index_ c = -1 ->
  update_promise poll_wf h s p c (poll_updateChannel p (h, s)).
Proof.
  intros Hwf Hp Hfd Hev Hn Hix. unfold poll_updateChannel. rewrite Hp. cbn [get mbind res_bind].
  rewrite Hix. cbn [Z.ltb Z.compare]. rewrite bool_decide_true by done. cbn [check mbind res_bind].
  pose proof (poll_wf_size h s Hwf) as Hsz. unfold nr_open in Hsz.
  rewrite (sint_small 16) by (unfold in_sint; lia).
  set (pfd := mkPollfd (fd_ c) (events_ c) 0).
  assert (Hz : zlen (pollfds_ s ++ [pfd]) = zlen (pollfds_ s) + 1)
    by (rewrite zlen_app, zlen_cons, zlen_nil; lia).
  rewrite (sint_small 32) by (unfold in_sint; lia).
  replace (zlen (pollfds_ s ++ [pfd]) - 1) with (zlen (pollfds_ s)) by lia.
  assert (Hwf' : poll_wf (<[p := set_index (zlen (pollfds_ s)) c]> h,
            mkPoll (<[fd_ c := p]> (pp_channels s)) (pollfds_ s ++ [pfd]))).
  { apply poll_wf_add; try done; unfold slot_fd, pfd; cbn; [|lia].
    by replace (fd_ c <? 0) with false by lia. }
  assert (Hin : poll_interest (mkPoll (<[fd_ c := p]> (pp_channels s)) (pollfds_ s ++ [pfd]))
                  (fd_ c) = Some (events_ c)).
  { apply (poll_interest_live _ _ (length (pollfds_ s)) pfd Hwf');
      [cbn; by rewrite list_lookup_middle|cbn; lia]. }
  eexists _, _. split; [done|]. unfold watched. cbn. rewrite Hin.
  split_and!; [done|done|done|done| |].
  - intros _ [ev Hs]. apply (poll_interest_registered _ _ _ _ Hwf) in Hs as [? ?]. congruence.
  - intros fd Hne. apply poll_interest_ext; [by eapply poll_wf_distinct|by eapply poll_wf_distinct|].
    intros _ x Hx. cbn. rewrite elem_of_app, list_elem_of_singleton. split; [by left|].
    intros [?| ->]; [done|]. cbn in Hx. congruence.
Qed.

(** ** Updating a registered channel *)

Lemma poll_wf_set h s p c x y :
  poll_wf (h, s) -> h !! p = Some c -> pp_channels s !! fd_ c = Some p ->
  pollfds_ s !! Z.to_nat (index_ c) = Some x ->
  slot_fd y = fd_ c -> (pfd_fd y < 0 -> pfd_events y = 0) ->
  poll_wf (h, mkPoll (pp_channels s) (<[Z.to_nat (index_ c) := y]> (pollfds_ s))).
Proof.
  intros Hwf Hp Hr Hx Hslot Hign. pose proof Hwf as [H1 H2 H3]. cbn in *.
  destruct (H1 _ _ Hr) as (Hfd & c' & x' & ? & _ & Hi & ? & Hxs). simplify_map_eq.
  assert (Hlt : (Z.to_nat (index_ c) < length (pollfds_ s))%nat) by (by eapply lookup_lt_Some).
  split; cbn.
  - intros fd q Hq. destruct (H1 fd q Hq) as (? & d & z & Hd & Hfd' & Hid & Hz & Hsz).
    split; [done|]. destruct (decide (Z.to_nat (index_ d) = Z.to_nat (index_ c))) as [E|E].
    + exists d, y. rewrite E in Hz |- *. simplify_map_eq. rewrite list_lookup_insert_eq by done.
      split_and!; done || congruence.
    + exists d, z. rewrite list_lookup_insert_ne by done. done.
  - intros i z Hz. apply list_lookup_insert_Some in Hz as [(<- & <- & _)|[Hne Hz]]; [|by eauto].
    exists p, c. rewrite Hslot. split_and!; [done|done|lia].
  - intros i z Hz. apply list_lookup_insert_Some in Hz as [(<- & <- & _)|[Hne Hz]]; [done|by eauto].
Qed.

Lemma poll_set_promise h s p c :
  poll_wf (h, s) -> h !! p = Some c -> 0 <= fd_ c < nr_open -> 0 <= events_ c < 2 ^ 15 ->
  pp_channels s !! fd_ c = Some p ->
  update_promise poll_wf h s p c (poll_updateChannel p (h, s)).
Proof.
  intros Hwf Hp Hfd Hev Hr. unfold poll_updateChannel. rewrite Hp. cbn [get mbind res_bind].
  pose proof (ppwf_registered _ Hwf _ _ Hr) as (_ & c' & x & ? & _ & Hi & Hx & Hsx). cbn in *.
  simplify_map_eq. replace (index_ c <? 0) with false by lia.
  rewrite !bool_decide_true, !(check_true true) by eauto. cbn [mbind res_bind].
  pose proof (poll_wf_size h s Hwf) as Hsz. unfold nr_open in Hsz.
  assert (Hlt : (Z.to_nat (index_ c) < length (pollfds_ s))%nat) by (by eapply lookup_lt_Some).
  rewrite (sint_small 32) by (unfold in_sint; lia).
  rewrite (check_true (_ && _)) by (unfold zlen; lia). cbn [mbind res_bind].
  rewrite (check_true (_ || _)) by (unfold slot_fd in Hsx; destruct (pfd_fd x <? 0) eqn:?; lia).
  cbn [mbind res_bind]. rewrite (sint_small 16) by (unfold in_sint; lia).
  unfold isNoneEvent, kNoneEvent.
  set (y := mkPollfd _ (events_ c) 0). set (s' := mkPoll _ _).
  assert (Hsy : slot_fd y = fd_ c /\ (pfd_fd y < 0 -> pfd_events y = 0) /\
                (pfd_fd y = fd_ c /\ events_ c <> 0 \/ pfd_fd y < 0 /\ events_ c = 0)).
  { unfold slot_fd, y. cbn. destruct (events_ c =? 0) eqn:E;
      match goal with |- context [?a <? 0] => destruct (a <? 0) eqn:? end; lia. }
  destruct Hsy as (Hsy & Hign & Hcase).
  assert (Hwf' : poll_wf (h, s')) by (by eapply poll_wf_set).
  assert (Hy : pollfds_ s' !! Z.to_nat (index_ c) = Some y) by (by apply list_lookup_insert_eq).
  assert (Hin : events_ c <> 0 -> poll_interest s' (fd_ c) = Some (events_ c)).
  { intros. destruct Hcase as [[Hf _]|]; [|lia]. rewrite <- Hf.
    apply (poll_interest_live _ _ _ _ Hwf' Hy). lia. }
  assert (Hout : events_ c = 0 -> poll_interest s' (fd_ c) = None).
  { intros. destruct Hcase as [|[Hf _]]; [lia|]. apply eq_None_not_Some. intros [ev Hs].
    apply poll_interest_Some in Hs as (j & z & Hz & Hfz & _); [|by eapply poll_wf_distinct|lia].
    assert (j = Z.to_nat (index_ c)) as ->; [|congruence || simplify_map_eq; lia].
    eapply (poll_wf_distinct _ _ Hwf'); eauto. rewrite Hsy. unfold slot_fd. rewrite Hfz.
    by replace (fd_ c <? 0) with false by lia. }
  exists (index_ c), s'. replace (set_index (index_ c) c) with c by (by destruct c).
  rewrite insert_id by done. unfold watched. cbn [channels_ interest poll_poller].
  split_and!; try done; [by rewrite insert_id| |by intros; apply Hout|].
  - destruct (Z.eq_dec (events_ c) 0) as [E|E]; [by rewrite Hout, E|by rewrite Hin].
  - intros fd Hne. apply poll_interest_ext; [by eapply poll_wf_distinct|by eapply poll_wf_distinct|].
    intros Hfd0 z Hz. cbn. rewrite !list_elem_of_lookup. split.
    + intros [j Hj]. exists j. rewrite list_lookup_insert_ne; [done|]. intros <-. simplify_map_eq.
      apply Hne. unfold slot_fd in *. destruct (pfd_fd x <? 0) eqn:?; [lia|done].
    + intros [j Hj]. apply list_lookup_insert_Some in Hj as [(<- & <- & _)|[_ Hj]]; [|eauto].
      exfalso. lia.
Qed.

(** ** Removing a channel *)

(** [pfds'] is [l] without slot [i], the last slot moved into its place. *)
Definition slot_removed (l : list pollfd) (i : nat) (pfds' : list pollfd) : Prop :=
  forall j x, pfds' !! j = Some x <->
    (j < length l - 1)%nat /\
    (j <> i /\ l !! j = Some x \/ j = i /\ l !! (length l - 1)%nat = Some x).

Lemma pop_back_removed l : slot_removed l (length l - 1) (pop_back l).
Proof.
  intros j x. unfold pop_back. rewrite lookup_take_Some. split; [intros [??]|].
  - split; [done|]. left. split; [lia|done].
  - intros [? [[??]|[??]]]; [done|lia].
Qed.

Lemma swap_pop_removed l i pfd back :
  (i < length l - 1)%nat -> l !! (length l - 1)%nat = Some back ->
  slot_removed l i (pop_back (<[(length l - 1)%nat := pfd]> (<[i := back]> l))).
Proof.
  intros Hi Hb j x. unfold pop_back. rewrite !length_insert, lookup_take_Some.
  split.
  - intros [Hx Hj]. split; [done|]. rewrite list_lookup_insert_ne in Hx by lia.
    destruct (decide (j = i)) as [->|Hne].
    + right. rewrite list_lookup_insert_eq in Hx by lia. split; [done|congruence].
    + left. rewrite list_lookup_insert_ne in Hx by done. done.
  - intros [Hj Hx]. split; [|done]. rewrite list_lookup_insert_ne by lia.
    destruct Hx as [[Hne Hx]|[-> Hx]].
    + by rewrite list_lookup_insert_ne by done.
    + rewrite list_lookup_insert_eq by lia. congruence.
Qed.

(** Removing the slot of [p] and telling the owner [q] of the last slot about its
    new position keeps the invariant ([q] is [p] itself when its slot was last). *)
Lemma poll_wf_remove h s p c back q d pfds' :
  poll_wf (h, s) -> h !! p = Some c -> pp_channels s !! fd_ c = Some p ->
  last (pollfds_ s) = Some back -> pp_channels s !! slot_fd back = Some q -> h !! q = Some d ->
  slot_removed (pollfds_ s) (Z.to_nat (index_ c)) pfds' ->
  poll_wf (<[q := set_index (index_ c) d]> h, mkPoll (delete (fd_ c) (pp_channels s)) pfds').
Proof.
  intros Hwf Hp Hr Hb Hq Hd Hrem. rewrite last_lookup in Hb.
  replace (Init.Nat.pred (length (pollfds_ s))) with (length (pollfds_ s) - 1)%nat in Hb by lia.
  pose proof (poll_wf_distinct _ _ Hwf) as Hdist. pose proof Hwf as [H1 H2 H3]. cbn in *.
  destruct (H1 _ _ Hr) as (Hfd & c' & x & ? & _ & Hi & Hx & Hsx). simplify_map_eq.
  destruct (H2 _ _ Hb) as (q' & d' & ? & ? & Hid). simplify_map_eq.
  assert (Hslot : forall j y, pollfds_ s !! j = Some y -> slot_fd y = fd_ c -> j = Z.to_nat (index_ c))
    by (intros; eapply Hdist; eauto; congruence).
  split; cbn.
  - intros fd r [Hne Hr']%lookup_delete_Some.
    destruct (H1 fd r Hr') as (? & e & y & He & Hfe & Hie & Hy & Hsy). split; [done|].
    assert (Z.to_nat (index_ e) <> Z.to_nat (index_ c)) by (intros E; rewrite E in Hy; congruence).
    assert (Hlt : (Z.to_nat (index_ e) < length (pollfds_ s))%nat) by (by eapply lookup_lt_Some).
    destruct (decide (q = r)) as [->|Hqr]; simplify_map_eq.
    + eexists _, y. split_and!; [done..| |done]. apply Hrem. cbn [index_ set_index].
      assert (Z.to_nat (index_ c) < length (pollfds_ s))%nat by (by eapply lookup_lt_Some).
      split; [lia|]. right. split; [done|]. rewrite <- Hy. f_equal. lia.
    + exists e, y. split_and!; [done..| |done]. apply Hrem.
      assert (Z.to_nat (index_ e) <> length (pollfds_ s) - 1)%nat.
      { intros E. rewrite E in Hy. congruence. }
      split; [lia|]. by left.
  - intros j y Hy. apply Hrem in Hy as [Hj Hy].
    assert (slot_fd y <> fd_ c).
    { intros E. destruct Hy as [[Hne Hy]|[-> Hy]]; apply Hslot in Hy; [lia|done|lia|done]. }
    destruct Hy as [[Hne Hy]|[-> Hy]].
    + destruct (H2 j y Hy) as (r & e & ? & ? & ?). exists r, e.
      assert (q <> r) by (intros ->; simplify_map_eq; lia). by simplify_map_eq.
    + simplify_map_eq. exists q. eexists. rewrite lookup_insert_eq.
      split_and!; [by simplify_map_eq|done|cbn; lia].
  - intros j y Hy. apply Hrem in Hy as [_ [[_ ?]|[_ ?]]]; eauto.
Qed.

Lemma poll_interest_remove h s h' s' c i x :
  poll_wf (h, s) -> poll_wf (h', s') -> pollfds_ s !! i = Some x -> slot_fd x = fd_ c ->
  slot_removed (pollfds_ s) i (pollfds_ s') ->
  forall fd, fd <> fd_ c -> poll_interest s' fd = poll_interest s fd.
Proof.
  intros Hwf Hwf' Hx Hsx Hrem fd Hne.
  apply poll_interest_ext; [by eapply poll_wf_distinct|by eapply poll_wf_distinct|].
  intros Hfd y Hy. rewrite !list_elem_of_lookup. split.
  - intros [j Hj]. assert (j <> i).
    { intros ->. simplify_map_eq. apply Hne. unfold slot_fd in Hsx.
      by replace (pfd_fd x <? 0) with false in Hsx by lia. }
    assert (j < length (pollfds_ s))%nat by (by eapply lookup_lt_Some).
    assert (i < length (pollfds_ s))%nat by (by eapply lookup_lt_Some).
    destruct (decide (j = length (pollfds_ s) - 1)%nat) as [->|].
    + exists i. apply Hrem. split; [lia|by right].
    + exists j. apply Hrem. split; [lia|by left].
  - intros [j Hj]. apply Hrem in Hj as [_ [[_ ?]|[_ ?]]]; eauto.
Qed.

Lemma poll_remove_law h s p c :
  poll_wf (h, s) -> h !! p = Some c -> 0 <= fd_ c -> channels_ s !! fd_ c = Some p ->
  events_ c = 0 -> interest s (fd_ c) = None ->
  remove_promise poll_wf h s p c (removeChannel p (h, s)).
Proof.
  cbn [channels_ interest removeChannel poll_poller]. intros Hwf Hp Hfd Hr Hev Hin.
  pose proof (ppwf_registered _ Hwf _ _ Hr) as (_ & c' & x & ? & _ & Hi & Hx & Hsx).
  cbn [fst snd] in *. simplify_map_eq. pose proof (poll_wf_size h s Hwf) as Hsz. unfold nr_open in Hsz.
  assert (Hlt : (Z.to_nat (index_ c) < length (pollfds_ s))%nat) by (by eapply lookup_lt_Some).
  assert (Hneg : pfd_fd x < 0).
  { destruct (Z.ltb_spec (pfd_fd x) 0) as [|Hge]; [done|].
    pose proof (poll_interest_live _ _ _ _ Hwf Hx Hge) as E. unfold slot_fd in Hsx.
    replace (pfd_fd x <? 0) with false in Hsx by lia. congruence. }
  pose proof (ppwf_ignored _ Hwf _ _ Hx Hneg) as Hev0.
  assert (Hfx : pfd_fd x = - fd_ c - 1)
    by (unfold slot_fd in Hsx; replace (pfd_fd x <? 0) with true in Hsx by lia; lia).
  destruct (last (pollfds_ s)) as [back|] eqn:Hb; [|apply last_None in Hb; rewrite Hb in Hlt; cbn in Hlt; lia].
  pose proof Hb as Hb'. rewrite last_lookup in Hb'.
  destruct (ppwf_slot _ Hwf _ _ Hb') as (q & d & Hq & Hd & Hid). cbn in Hq, Hd.
  assert (Hdone : forall pfds', slot_removed (pollfds_ s) (Z.to_nat (index_ c)) pfds' ->
    remove_promise poll_wf h s p c (Ok (<[q := set_index (index_ c) d]> h,
      mkPoll (delete (fd_ c) (pp_channels s)) pfds'))).
  { intros pfds' Hrem. eexists _, _. split; [done|].
    assert (Hwf' := poll_wf_remove _ _ _ _ _ _ _ _ Hwf Hp Hr Hb Hq Hd Hrem).
    split_and!; [done|done| | |].
    - apply eq_None_not_Some. intros [ev Hs].
      apply (poll_interest_registered _ _ _ _ Hwf') in Hs as [? Hs]. cbn in Hs.
      by rewrite lookup_delete_eq in Hs.
    - by eapply (poll_interest_remove _ _ _ _ c _ x Hwf Hwf').
    - intros r e Hre. destruct (decide (q = r)) as [->|]; simplify_map_eq; [by eexists|].
      exists (index_ e). by destruct e. }
  cbn [get mbind res_bind].
  rewrite !bool_decide_true, !(check_true true) by eauto. cbn [mbind res_bind].
  unfold isNoneEvent, kNoneEvent. rewrite Hev. rewrite (check_true (0 =? 0)) by done. cbn [mbind res_bind].
  rewrite (sint_small 32) by (unfold in_sint; lia).
  rewrite (check_true (_ && _)) by (unfold zlen in *; lia). cbn [mbind res_bind].
  rewrite (check_true (_ && _)) by (unfold zlen in *; lia). cbn [mbind res_bind].
  destruct (index_ c =? zlen (pollfds_ s) - 1) eqn:E; unfold zlen in E.
  - assert (x = back) as ->.
    { replace (Z.to_nat (index_ c)) with (Init.Nat.pred (length (pollfds_ s))) in Hx by lia. congruence. }
    rewrite Hsx in Hq. simplify_map_eq.
    assert (Hh : <[p := set_index (index_ c) c]> h = h)
      by (apply insert_id; rewrite Hp; by destruct c).
    rewrite Hh in Hdone. apply Hdone. replace (Z.to_nat (index_ c)) with (length (pollfds_ s) - 1)%nat by lia.
    apply pop_back_removed.
  - cbn [get mbind res_bind]. unfold slot_fd in Hq. rewrite lookup_delete_ne.
    2: { intros E'. unfold slot_fd in *. rewrite <- E' in Hq. simplify_map_eq. lia. }
    rewrite Hq. cbn [get mbind res_bind]. rewrite Hd. cbn [get mbind res_bind].
    apply Hdone. apply swap_pop_removed; [lia|]. rewrite <- Hb'. f_equal. lia.
Qed.

Lemma poll_update_law h s p c :
  poll_wf (h, s) -> h !! p = Some c -> admissible p c s ->
  update_promise poll_wf h s p c (updateChannel p (h, s)).
Proof.
  intros Hwf Hp (Hfd & Hev & [[Hn Hi]|Hr]); [by apply poll_add_promise|by apply poll_set_promise].
Qed.

#[global] Instance poll_laws : PollerLaws PollPoller := {|
  wf := poll_wf;
  wf_owner := poll_wf_owner;
  update_law := poll_update_law;
  remove_law := poll_remove_law
|}.

(** ** Polling *)

(** poll(2) stores a mask per slot and never reports an ignored slot. *)
Definition poll_answer_ok (s : PollPoller) (revents : list Z) : Prop :=
  length revents = length (pollfds_ s) /\
  forall i pfd r, pollfds_ s !! i = Some pfd -> revents !! i = Some r ->
    0 <= r < 2 ^ 15 /\ (pfd_fd pfd < 0 -> r = 0).

(** The channels of the slots reported ready, in slot order. *)
Definition ready_slots (ch : gmap Z ptr) (pfds : list pollfd) : list (ptr * Z) :=
  omap (fun pfd => if 0 <? pfd_revents pfd
                   then (fun p => (p, pfd_revents pfd)) <$> ch !! pfd_fd pfd else None) pfds.

Lemma ready_slots_elem ch pfds p r :
  (p, r) ∈ ready_slots ch pfds <->
  exists pfd, pfd ∈ pfds /\ 0 < pfd_revents pfd /\ ch !! pfd_fd pfd = Some p /\ r = pfd_revents pfd.
Proof.
  unfold ready_slots. rewrite list_elem_of_omap. split.
  - intros (pfd & Hin & H). destruct (0 <? pfd_revents pfd) eqn:E; [|done].
    apply fmap_Some in H as (q & Hq & [= -> ->]). exists pfd. split_and!; [done|lia|done|done].
  - intros (pfd & Hin & Hpos & Hch & ->). exists pfd. split; [done|].
    replace (0 <? pfd_revents pfd) with true by lia. by rewrite Hch.
Qed.

Definition n_ready (pfds : list pollfd) : Z :=
  zlen (filter (fun pfd => pfd_revents pfd <> 0) pfds).

Lemma poll_fill_ok pfds s h active :
  NoDup (slot_fd <$> pfds) ->
  (forall pfd, pfd ∈ pfds -> 0 <= pfd_revents pfd) ->
  (forall pfd, pfd ∈ pfds -> 0 < pfd_revents pfd -> exists p c,
     pp_channels s !! pfd_fd pfd = Some p /\ h !! p = Some c /\ fd_ c = pfd_fd pfd) ->
  poll_fillActiveChannels (n_ready pfds) pfds s h active =
    Ok (reported (ready_slots (pp_channels s) pfds) h,
        active ++ (ready_slots (pp_channels s) pfds).*1).
Proof.
  revert h active. induction pfds as [|pfd pfds IH]; intros h active Hnd Hge Hreg.
  { cbn. by rewrite reported_nil, app_nil_r. }
  cbn [fmap list_fmap] in Hnd. apply NoDup_cons in Hnd as [Hn Hnd].
  assert (Hge' : forall x, x ∈ pfds -> 0 <= pfd_revents x) by (intros; apply Hge; by right).
  unfold n_ready. cbn [ready_slots omap list_omap]. fold (ready_slots (pp_channels s) pfds).
  cbn [filter list_filter]. destruct (decide (pfd_revents pfd <> 0)) as [Hr|Hr].
  - assert (0 < pfd_revents pfd) by (pose proof (Hge pfd ltac:(left)); lia).
    destruct (Hreg pfd ltac:(left) ltac:(done)) as (p & c & Hch & Hp & Hf).
    cbn [poll_fillActiveChannels]. rewrite zlen_cons.
    match goal with |- context [0 <? 1 + zlen ?l] =>
      pose proof (zlen_nonneg l); replace (0 <? 1 + zlen l) with true by lia end.
    replace (0 <? pfd_revents pfd) with true by lia.
    rewrite Hch. rewrite bool_decide_true by eauto. cbn [check get mbind res_bind]. rewrite Hp.
    cbn [get mbind res_bind]. rewrite check_true by lia. cbn [mbind res_bind fmap option_fmap option_map].
    rewrite Z.add_simpl_l. fold (n_ready pfds). rewrite IH; [|done|done|].
    + cbn [fmap list_fmap fst]. rewrite <- (assoc_L app). cbn [app].
      rewrite (reported_cons _ _ _ _ c); [done|done|].
      intros ([q r] & Hq & Hin)%list_elem_of_fmap. cbn in Hq. subst q.
      apply ready_slots_elem in Hin as (x & Hx & Hxp & Hxc & ->).
      destruct (Hreg x ltac:(by right) Hxp) as (q & d & ? & Hd & Hfd). simplify_map_eq.
      apply Hn. apply list_elem_of_fmap. exists x. split; [|done]. unfold slot_fd.
      by replace (pfd_fd x) with (pfd_fd pfd) by congruence.
    + intros x Hx Hxp. destruct (Hreg x ltac:(by right) Hxp) as (q & d & ? & Hd & Hfd).
      exists q. destruct (decide (p = q)) as [->|]; simplify_map_eq; eauto.
  - replace (0 <? pfd_revents pfd) with false by lia. cbn [poll_fillActiveChannels].
    fold (n_ready pfds). replace (0 <? pfd_revents pfd) with false by lia.
    rewrite IH; [|done|done|intros x Hx; apply Hreg; by right].
    match goal with |- context [0 <? zlen ?l] => change (zlen l) with (n_ready pfds) end.
    destruct (0 <? n_ready pfds) eqn:E; [done|]. unfold n_ready in E.
    assert (Hnil : ready_slots (pp_channels s) pfds = []).
    { apply elem_of_nil_inv. intros [q r] (x & Hx & Hxp & _)%ready_slots_elem.
      assert (Hf : x ∈ filter (fun x => pfd_revents x <> 0) pfds)
        by (apply list_elem_of_filter; split; [lia|done]).
      destruct (filter (fun x => pfd_revents x <> 0) pfds) as [|a l]; [set_solver|].
      rewrite zlen_cons in E. pose proof (zlen_nonneg l). lia. }
    by rewrite Hnil, reported_nil, app_nil_r.
Qed.

Lemma poll_fill_zero n pfds s h active :
  (0 <? n) = false -> poll_fillActiveChannels n pfds s h active = Ok (h, active).
Proof. intros Hn. destruct pfds; cbn; [done|]. by rewrite Hn. Qed.

(** The slots after poll(2) stored its answer. *)
Definition stored (l : list pollfd) (revents : list Z) : list pollfd :=
  zip_with (fun pfd r => mkPollfd (pfd_fd pfd) (pfd_events pfd) r) l revents.

Lemma stored_lookup l revents i x :
  length revents = length l -> stored l revents !! i = Some x ->
  exists pfd, l !! i = Some pfd /\ revents !! i = Some (pfd_revents x) /\
    pfd_fd x = pfd_fd pfd /\ pfd_events x = pfd_events pfd.
Proof.
  intros _ Hx. apply lookup_zip_with_Some in Hx as (pfd & r & -> & ? & ?). eauto.
Qed.

Lemma lookup_stored l revents i pfd :
  length revents = length l -> l !! i = Some pfd ->
  exists r, revents !! i = Some r /\
    stored l revents !! i = Some (mkPollfd (pfd_fd pfd) (pfd_events pfd) r).
Proof.
  intros Hlen Hi. destruct (lookup_lt_is_Some_2 revents i) as [r Hr].
  { rewrite Hlen. by eapply lookup_lt_Some. }
  exists r. split; [done|]. apply lookup_zip_with_Some. eauto.
Qed.

Lemma poll_wf_stored h s revents :
  poll_wf (h, s) -> length revents = length (pollfds_ s) ->
  poll_wf (h, mkPoll (pp_channels s) (stored (pollfds_ s) revents)).
Proof.
  intros [H1 H2 H3] Hlen. cbn in *. split; cbn.
  - intros fd p Hp. destruct (H1 fd p Hp) as (? & c & pfd & ? & ? & ? & Hi & Hs). split; [done|].
    destruct (lookup_stored _ revents _ _ Hlen Hi) as (r & _ & Hr). exists c. eexists.
    split_and!; [done..|exact Hr|]. by unfold slot_fd in *.
  - intros i x Hx. destruct (stored_lookup _ _ _ _ Hlen Hx) as (pfd & Hi & _ & Hf & _).
    destruct (H2 i pfd Hi) as (p & c & Hp & ?). exists p, c.
    replace (slot_fd x) with (slot_fd pfd) by (unfold slot_fd; by rewrite Hf). done.
  - intros i x Hx Hneg. destruct (stored_lookup _ _ _ _ Hlen Hx) as (pfd & Hi & _ & Hf & ->).
    eapply H3; [done|lia].
Qed.

Lemma poll_interest_stored s revents fd :
  length revents = length (pollfds_ s) ->
  poll_interest (mkPoll (pp_channels s) (stored (pollfds_ s) revents)) fd = poll_interest s fd.
Proof.
  intros Hlen. unfold poll_interest. destruct (fd <? 0); [done|]. cbn [pollfds_].
  revert revents Hlen. induction (pollfds_ s) as [|a l IH]; intros [|r revents] Hlen; try done.
  cbn [stored zip_with list_find pfd_fd]. destruct (decide (pfd_fd a = fd)); [done|].
  specialize (IH revents ltac:(by injection Hlen)). fold (stored l revents).
  rewrite <- !option_fmap_compose in *.
  destruct (list_find _ (stored l revents)) as [[??]|], (list_find _ l) as [[??]|]; done.
Qed.

(** With the poll poller, poll reports exactly the slots whose returned mask is
    not zero: their channels are appended to the active list in slot order, each of
    them carries its mask, no other channel changes, and neither the invariant nor
    the interest in any descriptor is affected.  On an error nothing changes. *)
Theorem poll_poll_correct h s active :
  poll_wf (h, s) ->
  (forall revents, poll_answer_ok s revents ->
    exists ready s', poll_poll (inr revents) (h, s) active
                 = Ok (reported ready h, s', active ++ ready.*1) /\
      (forall p r, (p, r) ∈ ready <-> exists i pfd, pollfds_ s !! i = Some pfd /\
         revents !! i = Some r /\ r <> 0 /\ pp_channels s !! pfd_fd pfd = Some p) /\
      poll_wf (reported ready h, s') /\
      (forall fd, poll_interest s' fd = poll_interest s fd)) /\
  (forall err, poll_poll (inl err) (h, s) active = Ok (h, s, active)).
Proof.
  intros Hwf. split; [|done]. intros revents [Hlen Hans].
  pose proof (poll_wf_stored _ _ _ Hwf Hlen) as Hwf'.
  assert (Hrange : forall x, x ∈ stored (pollfds_ s) revents ->
            0 <= pfd_revents x /\ (pfd_fd x < 0 -> pfd_revents x = 0)).
  { intros x [i Hx]%list_elem_of_lookup.
    destruct (stored_lookup _ _ _ _ Hlen Hx) as (pfd & Hi & Hr & Hf & _).
    destruct (Hans i pfd _ Hi Hr). rewrite Hf. split; [lia|done]. }
  assert (Hfill : forall active, poll_fillActiveChannels (n_ready (stored (pollfds_ s) revents))
            (stored (pollfds_ s) revents) (mkPoll (pp_channels s) (stored (pollfds_ s) revents)) h active
          = Ok (reported (ready_slots (pp_channels s) (stored (pollfds_ s) revents)) h,
                active ++ (ready_slots (pp_channels s) (stored (pollfds_ s) revents)).*1)).
  { intros act. apply (poll_fill_ok (stored (pollfds_ s) revents)
      (mkPoll (pp_channels s) (stored (pollfds_ s) revents))).
    - apply NoDup_alt. intros i j x Hi Hj.
      apply list_lookup_fmap_Some in Hi as (a & -> & Ha), Hj as (b & Hab & Hb).
      by eapply (poll_wf_distinct _ _ Hwf').
    - intros x Hx. by apply Hrange.
    - intros x Hx Hpos. pose proof (Hrange x Hx). apply list_elem_of_lookup in Hx as [i Hx].
      destruct (ppwf_slot _ Hwf' _ _ Hx) as (p & c & Hp & Hc & _). cbn in Hp, Hc.
      destruct (ppwf_registered _ Hwf' _ _ Hp) as (_ & c' & _ & Hc' & Hfc & _). cbn in Hc'.
      simplify_map_eq. exists p, c. unfold slot_fd in *.
      replace (pfd_fd x <? 0) with false in * by lia. done. }
  exists (ready_slots (pp_channels s) (stored (pollfds_ s) revents)),
    (mkPoll (pp_channels s) (stored (pollfds_ s) revents)).
  split_and!.
  - cbn [poll_poll]. fold (stored (pollfds_ s) revents). fold (n_ready (stored (pollfds_ s) revents)).
    specialize (Hfill active). destruct (0 <? n_ready (stored (pollfds_ s) revents)) eqn:E.
    + by rewrite Hfill.
    + rewrite poll_fill_zero in Hfill by done. injection Hfill as E1 E2. by rewrite <- E1, <- E2.
  - intros p r. rewrite ready_slots_elem. split.
    + intros (x & Hx & Hpos & Hch & ->). apply list_elem_of_lookup in Hx as [i Hx].
      destruct (stored_lookup _ _ _ _ Hlen Hx) as (pfd & Hi & Hr & Hf & _).
      exists i, pfd. rewrite <- Hf. split_and!; [done..|lia|done].
    + intros (i & pfd & Hi & Hr & Hr0 & Hch).
      destruct (lookup_stored _ revents _ _ Hlen Hi) as (r' & ? & Hx). simplify_map_eq.
      eexists. split; [by eapply list_elem_of_lookup_2|]. cbn.
      destruct (Hans i pfd _ Hi Hr). split_and!; [lia|done|done].
  - apply (@wf_reported _ _ poll_laws). done.
  - intros fd. by apply poll_interest_stored.
Qed.

(** ** The channel life cycle on concrete pollers *)

Definition sample_view : LoopView := mkLoopView 9 true false None [].

Lemma poll_wf_init h : poll_wf (h, newPollPoller).
Proof.
  split; cbn; intros *; rewrite ?lookup_empty, ?lookup_nil; done.
Qed.

(** One channel registered and watched for reading, a second one new. *)
Definition sample_poll_heap : Heap :=
  {[ 1%positive := newChannel 9 5; 2%positive := newChannel 9 7 ]}.

Lemma channel_lifecycle_witness :
  exists (w1 w4 : Heap * PollPoller), enableReading sample_view 1 (sample_poll_heap, newPollPoller) = Ok w1 /\
    interest w1.2 5 = Some kReadEvent /\ channels_ w4.2 !! 5 = None.
Proof.
  destruct (channel_lifecycle (S := PollPoller) sample_view sample_poll_heap newPollPoller 1
              (newChannel 9 5)) as (w1 & w2 & w3 & w4 & E1 & I1 & _ & _ & _ & _ & _ & _ & C4 & _);
    [apply poll_wf_init|reflexivity|by split|reflexivity|reflexivity|reflexivity|by vm_compute|reflexivity|].
  exists w1, w4. by split_and!.
Defined.

(** The second channel registered for reading. *)
Definition sample_ready_heap : Heap :=
  {[ 1%positive := newChannel 9 5;
     2%positive := with_events kReadEvent (set_index 0 (newChannel 9 7)) ]}.
Definition sample_poll : PollPoller := mkPoll {[7 := 2%positive]} [mkPollfd 7 kReadEvent 0].

Lemma sample_poll_wf : poll_wf (sample_ready_heap, sample_poll).
Proof.
  split; cbn.
  - intros fd p [<- <-]%lookup_singleton_Some. split; [by vm_compute|].
    eexists _, _. by split_and!; [reflexivity|..|reflexivity|].
  - intros i pfd [-> <-]%list_lookup_singleton_Some. exists 2%positive. eexists.
    by split_and!; [reflexivity|reflexivity|].
  - intros i pfd [-> <-]%list_lookup_singleton_Some. cbn. lia.
Qed.

Lemma poll_poll_correct_witness :
  exists ready s', poll_poll (inr [POLLIN]) (sample_ready_heap, sample_poll) []
    = Ok (reported ready sample_ready_heap, s', ready.*1) /\ (2%positive, POLLIN) ∈ ready.
Proof.
  destruct (poll_poll_correct sample_ready_heap sample_poll [] sample_poll_wf) as [H _].
  destruct (H [POLLIN]) as (ready & s' & E & Hin & _).
  - split; [done|]. intros i pfd r [-> <-]%list_lookup_singleton_Some [_ <-]%list_lookup_singleton_Some.
    split; [by vm_compute|done].
  - exists ready, s'. split; [exact E|]. apply Hin. exists 0%nat. eexists.
    by split_and!; [reflexivity|reflexivity|done|reflexivity].
Defined.

(** ** Where the two pollers differ *)

Section Unwatched.
Context (lv : LoopView) (h : Heap) (p : ptr) (c : Channel).
Context (Hp : h !! p = Some c) (Hl : in_loop lv c) (He : lv_eventHandling lv = false).
Context (Hi : index_ c = -1) (Hfd : 0 <= fd_ c < nr_open).

Lemma poll_unwatched_remove s :
  poll_wf (h, s) -> pp_channels s !! fd_ c = None ->
  disable_and_remove lv p (h, s) = Fault AssertFailure.
Proof using All.
  intros Hwf Hn. unfold disable_and_remove, disableAll. rewrite (set_events_run _ _ _ _ _ c) by done.
  cbn [updateChannel poll_poller]. unfold poll_updateChannel.
  rewrite !lookup_insert_eq. cbn [get mbind res_bind index_ with_added with_events fd_ events_].
  rewrite Hi. cbn [Z.ltb Z.compare]. rewrite bool_decide_true by done. cbn [check mbind res_bind].
  pose proof (poll_wf_size _ _ Hwf) as Hsz. unfold nr_open in Hsz.
  rewrite zlen_app, zlen_cons, zlen_nil, (sint_small 32) by (unfold in_sint; lia).
  replace (zlen (pollfds_ s) + (1 + 0) - 1) with (zlen (pollfds_ s)) by lia.
  set (c2 := set_index _ _). rewrite insert_insert_eq.
  rewrite (remove_run _ _ _ _ c2) by (done || by rewrite lookup_insert_eq).
  cbn [removeChannel poll_poller]. unfold poll_removeChannel. rewrite lookup_insert_eq.
  cbn [get mbind res_bind fd_ with_added c2 set_index with_events pp_channels pollfds_ pfd_fd index_ events_].
  rewrite lookup_insert_eq, !bool_decide_true by eauto. cbn [check mbind res_bind isNoneEvent].
  rewrite zlen_app, zlen_cons, zlen_nil, (sint_small 32) by (unfold in_sint; lia).
  rewrite (check_true (_ && _)) by lia. cbn [mbind res_bind]. unfold zlen.
  rewrite Nat2Z.id, list_lookup_middle by done. cbn [get mbind res_bind pfd_fd].
  by replace (fd_ c =? - fd_ c - 1) with false by lia.
Qed.

Lemma epoll_unwatched_remove s :
  epoll_wf (h, s) -> ep_channels s !! fd_ c = None ->
  exists w', disable_and_remove lv p (h, s) = Ok w'.
Proof using Hp Hl He.
  intros Hwf Hn. unfold disable_and_remove, disableAll. rewrite (set_events_run _ _ _ _ _ c) by done.
  destruct (epoll_wf_cases h s p c Hwf Hp) as [(Hk & _ & Hkk)|[(_ & ? & _)|(_ & ? & _)]];
    [by left| |congruence|congruence].
  cbn [updateChannel epoll_poller]. unfold epoll_updateChannel.
  rewrite !lookup_insert_eq. cbn [get mbind res_bind index_ with_added with_events fd_ events_].
  rewrite Hk, Hn. cbn -[insert set_index epoll_update]. unfold epoll_update, epoll_ctl.
  cbn [fd_ set_index with_added with_events with_channels ep_kernel ep_channels]. rewrite Hkk.
  cbn [mbind res_bind].
  rewrite insert_insert_eq, (remove_run _ _ _ _ (set_index kAdded (with_added true (with_events kNoneEvent c))))
    by (done || by rewrite lookup_insert_eq).
  cbn [removeChannel epoll_poller]. unfold epoll_removeChannel. rewrite lookup_insert_eq.
  cbn [get mbind res_bind fd_ with_added set_index with_events ep_channels].
  rewrite lookup_insert_eq, !bool_decide_true by eauto.
  cbn -[insert epoll_update]. unfold epoll_update. by case_match; cbn; eexists.
Qed.
End Unwatched.

(** Where the two pollers differ: in every state, a channel that was never
    enabled can be disabled and removed under epoll, but under poll its slot keeps
    the positive descriptor, so the assertion in PollPoller::removeChannel fails.  An
    Acceptor destroyed before listen() does exactly this. *)
Theorem unwatched_remove_differs lv h p c (sp : PollPoller) (se : EPollPoller) :
  h !! p = Some c -> in_loop lv c -> lv_eventHandling lv = false ->
  index_ c = -1 -> 0 <= fd_ c < nr_open ->
  poll_wf (h, sp) -> pp_channels sp !! fd_ c = None ->
  epoll_wf (h, se) -> ep_channels se !! fd_ c = None ->
  disable_and_remove lv p (h, sp) = Fault AssertFailure /\
  exists w', disable_and_remove lv p (h, se) = Ok w'.
Proof.
  intros. split; [by eapply poll_unwatched_remove|by eapply epoll_unwatched_remove].
Qed.

Lemma epoll_wf_init h : (forall p c, h !! p = Some c -> index_ c = kNew) -> epoll_wf (h, newEPollPoller).
Proof. intros Hnew. split; cbn; intros *; rewrite ?lookup_empty; try done. intros ?%Hnew. by left. Qed.

Lemma unwatched_remove_differs_witness :
  disable_and_remove sample_view 1 (sample_poll_heap, newPollPoller) = Fault AssertFailure.
Proof.
  apply (unwatched_remove_differs sample_view sample_poll_heap 1 (newChannel 9 5)
           newPollPoller newEPollPoller);
    [reflexivity|by split|reflexivity|reflexivity|by vm_compute|apply poll_wf_init|reflexivity| |reflexivity].
  apply epoll_wf_init. unfold sample_poll_heap. intros p c.
  intros [[<- <-]|[_ [<- <-]%lookup_singleton_Some]]%lookup_insert_Some; done.
Defined.
