(* ===== verification/StdSet.v ===== *)
(** * std::set, as the sources use it

    A [std::set<T>] is a strictly increasing list; the operations compare with [<]
    only, as the C++ container does: two elements neither of which is smaller are the
    same key. *)

From Stdlib Require Import Sorted.
From S2P Require Import Prelude.

Section Set_.
Context {A : Type} (lt : A -> A -> bool).

(** [insert]: the new set and whether the insertion took place. *)
Fixpoint set_insert (x : A) (s : list A) : list A * bool :=
  match s with
  | [] => ([x], true)
  | y :: s' =>
      if lt x y then (x :: s, true)
      else if lt y x then let '(r, b) := set_insert x s' in (y :: r, b)
      else (s, false)
  end.

(** [erase(key)]: the new set and the number of elements removed. *)
Fixpoint set_erase (x : A) (s : list A) : list A * Z :=
  match s with
  | [] => ([], 0)
  | y :: s' =>
      if lt x y then (s, 0)
      else if lt y x then let '(r, n) := set_erase x s' in (y :: r, n)
      else (s', 1)
  end.

(** [find(key) != end()] *)
Fixpoint set_find (x : A) (s : list A) : bool :=
  match s with
  | [] => false
  | y :: s' => if lt x y then false else if lt y x then set_find x s' else true
  end.

(** [lower_bound(key)]: the elements before it, and the rest. *)
Fixpoint set_lower_bound (x : A) (s : list A) : list A * list A :=
  match s with
  | [] => ([], [])
  | y :: s' => if lt y x then let '(l, r) := set_lower_bound x s' in (y :: l, r) else ([], s)
  end.

(** ** Laws, for a strict total order *)

Class StrictTotal : Prop := {
  lt_irrefl : forall x, lt x x = false;
  lt_trans : forall x y z, lt x y = true -> lt y z = true -> lt x z = true;
  lt_total : forall x y, lt x y = false -> lt y x = false -> x = y
}.

Context `{StrictTotal}.

(** Strictly increasing. *)
Abbreviation increasing := (StronglySorted (fun x y => lt x y = true)).

Lemma lt_asym x y : lt x y = true -> lt y x = false.
Proof.
  intros Hxy. destruct (lt y x) eqn:E; [|done].
  pose proof (lt_trans x y x Hxy E). by rewrite lt_irrefl in *.
Qed.

Lemma lt_neq x y : lt x y = true -> x <> y.
Proof. intros Hxy ->. by rewrite lt_irrefl in Hxy. Qed.

Lemma increasing_NoDup s : increasing s -> NoDup s.
Proof.
  induction 1 as [|x s Hs IH Hx]; constructor; [|done].
  intros Hin. rewrite Forall_forall in Hx. by apply Hx, lt_neq in Hin.
Qed.

(** An element smaller than the head is not in the list. *)
Lemma increasing_not_elem x y s : increasing (y :: s) -> lt x y = true -> x ∉ y :: s.
Proof.
  intros Hs Hxy Hin. apply elem_of_cons in Hin as [->|Hin]; [by rewrite lt_irrefl in Hxy|].
  apply StronglySorted_inv in Hs as [_ Hy]. rewrite Forall_forall in Hy.
  apply Hy, lt_asym in Hin. congruence.
Qed.

Lemma set_find_spec x s : increasing s -> set_find x s = true <-> x ∈ s.
Proof.
  induction s as [|y s IH]; intros Hs; cbn; [by rewrite elem_of_nil|].
  destruct (lt x y) eqn:E1.
  { split; [done|]. by intros ?%(increasing_not_elem x y s). }
  apply StronglySorted_inv in Hs as [Hs Hy]. rewrite elem_of_cons.
  destruct (lt y x) eqn:E2.
  - rewrite IH by done. split; [by right|]. intros [->|?]; [by rewrite lt_irrefl in E2|done].
  - split; [|done]. intros _. left. by apply lt_total.
Qed.

Lemma set_find_false x s : increasing s -> set_find x s = false <-> x ∉ s.
Proof. intros Hs. rewrite <- not_true_iff_false. by rewrite set_find_spec. Qed.

Lemma set_insert_new x s :
  increasing s -> x ∉ s ->
  exists s', set_insert x s = (s', true) /\ s' ≡ₚ x :: s /\ increasing s'.
Proof.
  induction s as [|y s IH]; intros Hs Hn; cbn.
  { eexists. split; [done|]. split; [done|]. constructor; [constructor|constructor]. }
  apply not_elem_of_cons in Hn as [Hne Hn]. pose proof Hs as Hs0.
  apply StronglySorted_inv in Hs as [Hs Hy].
  destruct (lt x y) eqn:E1.
  { eexists. split; [done|]. split; [done|]. constructor; [done|]. constructor; [done|].
    eapply Forall_impl; [exact Hy|]. intros z Hz. by eapply lt_trans. }
  destruct (lt y x) eqn:E2; [|by destruct Hne; apply lt_total].
  destruct (IH Hs Hn) as (s' & -> & Hp & Hs'). exists (y :: s'). split; [done|]. split.
  - rewrite Hp. apply perm_swap.
  - constructor; [done|]. rewrite Hp. by constructor.
Qed.

Lemma set_erase_elem x s :
  increasing s -> x ∈ s ->
  exists s', set_erase x s = (s', 1) /\ s ≡ₚ x :: s' /\ increasing s'.
Proof.
  induction s as [|y s IH]; intros Hs Hin; cbn; [by apply elem_of_nil in Hin|].
  destruct (lt x y) eqn:E1; [by apply (increasing_not_elem x y s) in Hin|].
  apply StronglySorted_inv in Hs as [Hs Hy]. destruct (lt y x) eqn:E2.
  - apply elem_of_cons in Hin as [->|Hin]; [by rewrite lt_irrefl in E2|].
    destruct (IH Hs Hin) as (s' & -> & Hp & Hs'). exists (y :: s'). split; [done|]. split.
    + rewrite Hp. apply perm_swap.
    + constructor; [done|]. rewrite Hp in Hy. by apply Forall_cons in Hy as [_ ?].
  - rewrite (lt_total x y) by done. eauto.
Qed.

Lemma set_insert_elem x y s :
  increasing s -> y ∈ (set_insert x s).1 <-> y = x \/ y ∈ s.
Proof.
  intros Hs. destruct (set_find x s) eqn:E.
  - apply set_find_spec in E; [|done].
    assert (Hsame : (set_insert x s).1 = s).
    { clear y. induction s as [|z s IH]; [by apply elem_of_nil in E|]. cbn.
      destruct (lt x z) eqn:E1; [by apply (increasing_not_elem x z s) in E|].
      destruct (lt z x) eqn:E2; [|done]. apply elem_of_cons in E as [->|E]; [by rewrite lt_irrefl in E2|].
      apply StronglySorted_inv in Hs as [Hs _]. specialize (IH Hs E).
      destruct (set_insert x s); cbn in *. by rewrite IH. }
    rewrite Hsame. split; [by right|]. by intros [->|?].
  - apply set_find_false in E; [|done]. destruct (set_insert_new x s Hs E) as (s' & -> & Hp & _).
    cbn. by rewrite Hp, elem_of_cons.
Qed.

Lemma set_insert_increasing x s : increasing s -> increasing (set_insert x s).1.
Proof.
  intros Hs. destruct (set_find x s) eqn:E.
  - apply set_find_spec in E; [|done]. clear -Hs E H.
    induction s as [|z s IH]; [by apply elem_of_nil in E|]. cbn.
    destruct (lt x z) eqn:E1; [by apply (increasing_not_elem x z s) in E|].
    destruct (lt z x) eqn:E2; [|done]. apply elem_of_cons in E as [->|E]; [by rewrite lt_irrefl in E2|].
    apply StronglySorted_inv in Hs as [Hs Hz]. specialize (IH Hs E).
    pose proof (fun y => proj1 (set_insert_elem x y s Hs)) as Hel.
    destruct (set_insert x s); cbn in *. constructor; [done|]. apply Forall_forall.
    intros y Hy. rewrite Forall_forall in Hz. destruct (Hel y Hy) as [->|?]; [done|by apply Hz].
  - apply set_find_false in E; [|done]. by destruct (set_insert_new x s Hs E) as (s' & -> & _ & ?).
Qed.

Lemma set_lower_bound_spec x s l r :
  increasing s -> set_lower_bound x s = (l, r) ->
  s = l ++ r /\ Forall (fun y => lt y x = true) l /\ Forall (fun y => lt y x = false) r.
Proof.
  revert l r. induction s as [|y s IH]; intros l r Hs; cbn; [by intros [= <- <-]|].
  destruct (lt y x) eqn:E.
  - destruct (set_lower_bound x s) as [l' r'] eqn:Elb. intros [= <- <-].
    apply StronglySorted_inv in Hs as [Hs _].
    destruct (IH l' r' Hs eq_refl) as (-> & ? & ?). split_and!; [done|by constructor|done].
  - intros [= <- <-]. split_and!; [done|constructor|]. constructor; [done|].
    apply StronglySorted_inv in Hs as [_ Hy]. eapply Forall_impl; [exact Hy|].
    intros z Hz. destruct (lt z x) eqn:Ez; [|done].
    pose proof (lt_trans y z x Hz Ez). congruence.
Qed.

Lemma increasing_app_r l r : increasing (l ++ r) -> increasing r.
Proof. induction l; [done|]. intros [Hs _]%StronglySorted_inv. auto. Qed.

Lemma increasing_app_l l r : increasing (l ++ r) -> increasing l.
Proof.
  induction l as [|x l IH]; intros Hs; [constructor|].
  apply StronglySorted_inv in Hs as [Hs Hx]. apply Forall_app in Hx as [Hx _].
  constructor; auto.
Qed.
End Set_.

Abbreviation increasing lt := (StronglySorted (fun x y => lt x y = true)).

(** * std::map with string keys

    Strings compare as unsigned characters, lexicographically; a map is a list of
    pairs in increasing order of keys. *)

Fixpoint str_lt (a b : list char) : bool :=
  match a, b with
  | _, [] => false
  | [], _ :: _ => true
  | x :: a, y :: b => (ord x <? ord y) || ((ord x =? ord y) && str_lt a b)
  end.

Lemma str_lt_cons x a y b :
  str_lt (x :: a) (y :: b) = true <-> ord x < ord y \/ ord x = ord y /\ str_lt a b = true.
Proof. cbn. destruct (str_lt a b); lia. Qed.

#[global] Instance str_lt_strict : StrictTotal str_lt.
Proof.
  split.
  - induction x as [|c x IH]; cbn; [done|]. rewrite IH. lia.
  - induction x as [|c x IH]; intros [|d y] [|e z]; try done.
    rewrite !str_lt_cons. intros [?|[? Hxy]] [?|[? Hyz]]; [lia..|].
    right. split; [lia|by eapply IH].
  - induction x as [|c x IH]; intros [|d y]; try done.
    rewrite <- !not_true_iff_false, !str_lt_cons. intros H1 H2.
    assert (ord c = ord d) as E by lia. rewrite (ord_inj c d) by done. f_equal.
    apply IH; rewrite <- not_true_iff_false; intros H3; [apply H1|apply H2]; right; by split.
Qed.

Section Map.
Context {V : Type}.

(** [m[k] = v] *)
Fixpoint map_set (k : list char) (v : V) (m : list (list char * V)) : list (list char * V) :=
  match m with
  | [] => [(k, v)]
  | (k', v') :: m' =>
      if str_lt k k' then (k, v) :: m
      else if str_lt k' k then (k', v') :: map_set k v m'
      else (k, v) :: m'
  end.

(** [m.find(k)] *)
Fixpoint map_find (k : list char) (m : list (list char * V)) : option V :=
  match m with
  | [] => None
  | (k', v') :: m' =>
      if str_lt k k' then None else if str_lt k' k then map_find k m' else Some v'
  end.

(** [m.erase(k)] *)
Fixpoint map_erase (k : list char) (m : list (list char * V)) : list (list char * V) :=
  match m with
  | [] => []
  | (k', v') :: m' =>
      if str_lt k k' then m else if str_lt k' k then (k', v') :: map_erase k m' else m'
  end.

Lemma map_find_below k k' (m : list (list char * V)) :
  increasing str_lt (k' :: m.*1) -> str_lt k k' = true -> map_find k m = None.
Proof.
  intros [_ Hm]%StronglySorted_inv Hk. destruct m as [|[k2 v2] m]; [done|]. cbn.
  apply Forall_cons in Hm as [Hm _]. cbn in Hm. by rewrite (lt_trans str_lt k k' k2 Hk Hm).
Qed.

Lemma map_set_keys k v m x : x ∈ (map_set k v m).*1 -> x = k \/ x ∈ m.*1.
Proof.
  induction m as [|[k' v'] m IH]; cbn; [set_solver|].
  destruct (str_lt k k'); cbn; [set_solver|]. destruct (str_lt k' k); cbn; set_solver.
Qed.

Lemma map_set_increasing k v m :
  increasing str_lt m.*1 -> increasing str_lt (map_set k v m).*1.
Proof.
  induction m as [|[k' v'] m IH]; cbn; intros Hs; [repeat constructor|].
  pose proof Hs as [Hs1 Hk]%StronglySorted_inv. rewrite Forall_forall in Hk.
  destruct (str_lt k k') eqn:E1; cbn.
  { constructor; [done|]. constructor; [done|]. apply Forall_forall. intros x Hx.
    eapply (lt_trans str_lt); eauto. }
  destruct (str_lt k' k) eqn:E2; cbn.
  - constructor; [auto|]. apply Forall_forall. intros x [->|Hx]%map_set_keys; auto.
  - constructor; [done|]. apply Forall_forall. intros x Hx. rewrite (lt_total str_lt k k') by done. auto.
Qed.

Lemma map_find_set k v k2 m :
  increasing str_lt m.*1 ->
  map_find k2 (map_set k v m) = if decide (k2 = k) then Some v else map_find k2 m.
Proof.
  assert (Hirr : forall x, str_lt x x = false) by apply (lt_irrefl str_lt).
  induction m as [|[k' v'] m IH]; intros Hs; cbn.
  { case_decide as E; [subst; by rewrite Hirr|].
    destruct (str_lt k2 k) eqn:E1; [done|]. destruct (str_lt k k2) eqn:E2; [done|].
    by destruct E; apply (lt_total str_lt). }
  pose proof Hs as [Hs1 Hk]%StronglySorted_inv.
  destruct (str_lt k k') eqn:E1; cbn.
  { case_decide as E; [subst; by rewrite Hirr|].
    destruct (str_lt k2 k) eqn:E2; [by rewrite (lt_trans str_lt k2 k k')|].
    destruct (str_lt k k2) eqn:E3; [done|]. by destruct E; apply (lt_total str_lt). }
  destruct (str_lt k' k) eqn:E2; cbn.
  - rewrite IH by done. case_decide as E; [subst; by rewrite E1, E2|done].
  - assert (k = k') as <- by (by apply (lt_total str_lt)).
    case_decide as E; [subst; by rewrite Hirr|].
    destruct (str_lt k2 k) eqn:E3; [done|]. destruct (str_lt k k2) eqn:E4; [done|].
    by destruct E; apply (lt_total str_lt).
Qed.

Lemma map_erase_keys k m x : x ∈ (map_erase k m).*1 -> x ∈ m.*1.
Proof.
  induction m as [|[k' v'] m IH]; cbn; [done|].
  destruct (str_lt k k'); cbn; [done|]. destruct (str_lt k' k); cbn; set_solver.
Qed.

Lemma map_erase_increasing k m : increasing str_lt m.*1 -> increasing str_lt (map_erase k m).*1.
Proof.
  induction m as [|[k' v'] m IH]; cbn; intros Hs; [done|]. pose proof Hs as [Hs1 Hk]%StronglySorted_inv.
  destruct (str_lt k k'); [done|]. destruct (str_lt k' k); [|done]. cbn. constructor; [auto|].
  rewrite Forall_forall in Hk |- *. intros x Hx%map_erase_keys. auto.
Qed.

Lemma map_find_elem k v m : increasing str_lt m.*1 -> map_find k m = Some v <-> (k, v) ∈ m.
Proof.
  induction m as [|[k' v'] m IH]; cbn; intros Hs; [split; [done|by intros ?%elem_of_nil]|].
  pose proof Hs as [Hs1 Hk]%StronglySorted_inv. rewrite Forall_forall in Hk. rewrite elem_of_cons.
  assert (Hin : (k, v) ∈ m -> str_lt k' k = true).
  { intros Hm. apply Hk. by apply (list_elem_of_fmap_2 fst) in Hm. }
  destruct (str_lt k k') eqn:E1.
  { split; [done|]. intros [[= -> ->]|Hm]; [by rewrite (lt_irrefl str_lt) in E1|]. by rewrite (lt_asym str_lt _ _ (Hin Hm)) in E1. }
  destruct (str_lt k' k) eqn:E2.
  - rewrite IH by done. split; [by right|]. intros [[= -> ->]|?]; [by rewrite (lt_irrefl str_lt) in E2|done].
  - assert (k = k') as <- by (by apply (lt_total str_lt)). split; [intros [= ->]; by left|].
    intros [[= ->]|Hm]; [done|]. by specialize (Hin Hm).
Qed.

Lemma map_find_erase k k2 m :
  increasing str_lt m.*1 -> map_find k2 (map_erase k m) = if decide (k2 = k) then None else map_find k2 m.
Proof.
  assert (Hirr : forall x, str_lt x x = false) by apply (lt_irrefl str_lt).
  induction m as [|[k' v'] m IH]; cbn; intros Hs; [by case_decide|].
  pose proof Hs as [Hs1 Hk]%StronglySorted_inv.
  destruct (str_lt k k') eqn:E1; cbn.
  { case_decide as E; [subst; by rewrite E1|done]. }
  destruct (str_lt k' k) eqn:E2; cbn.
  - rewrite IH by done. case_decide as E; [subst; by rewrite E1, E2|done].
  - assert (k = k') as <- by (by apply (lt_total str_lt)). case_decide as E.
    + subst. destruct (map_find k m) eqn:Ef; [|done]. apply map_find_elem in Ef; [|done].
      rewrite Forall_forall in Hk. apply (list_elem_of_fmap_2 fst) in Ef. specialize (Hk _ Ef). cbn in Hk. by rewrite Hirr in Hk.
    + destruct (str_lt k2 k) eqn:E3.
      * by rewrite (map_find_below k2 k).
      * destruct (str_lt k k2) eqn:E4; [done|]. by destruct E; apply (lt_total str_lt).
Qed.
End Map.
