(* ===== verification/Timestamp.v ===== *)
(** * Timestamps (src/muduo/base/Timestamp.h, Timestamp.cc)

    A [Timestamp] is its microseconds since the Epoch, a 64-bit signed integer.  C++
    division truncates towards zero ([Z.quot], [Z.rem]). *)

From S2P Require Import Prelude.

Abbreviation Timestamp := Z (only parsing).

Definition kMicroSecondsPerSecond : Z := 1000 * 1000.

Definition invalid : Timestamp := 0.
Definition valid (t : Timestamp) : bool := 0 <? t.

Definition secondsSinceEpoch (t : Timestamp) : Z := Z.quot t kMicroSecondsPerSecond.

(** [fromUnixTime(t, microseconds)] *)
Definition fromUnixTime (t microseconds : Z) : Timestamp :=
  sint 64 (t * kMicroSecondsPerSecond + microseconds).

(** [Timestamp::now], from the [timeval] gettimeofday(2) filled in. *)
Definition now (tv_sec tv_usec : Z) : Timestamp :=
  sint 64 (tv_sec * kMicroSecondsPerSecond + tv_usec).

(** [addTime(timestamp, seconds)], the double [seconds] already converted to
    microseconds, [static_cast<int64_t>(seconds * kMicroSecondsPerSecond)]. *)
Definition addTime (timestamp delta : Z) : Timestamp := sint 64 (timestamp + delta).

(** [timeDifference(high, low)], in microseconds (the source divides the same
    difference by [kMicroSecondsPerSecond] as a double). *)
Definition timeDifference (high low : Timestamp) : Z := sint 64 (high - low).
