(* ===== verification/TimerQueue.v ===== *)
(** * Timers (src/muduo/net/Timer.h, Timer.cc, TimerQueue.h, TimerQueue.cc)

    [Timer] objects live in a heap; [timers_] orders them by expiration and address,
    [activeTimers_] by address and sequence number.  A callback is an identifier; what
    it does to the queue is given by [body], a list of calls of [addTimer] and
    [cancel], made in the loop thread.  [alloc] is operator new. *)

From Stdlib Require Import Sorted.
From S2P Require Import Prelude StdSet Timestamp.

Abbreviation ptr := positive (only parsing).

(** A double interval is represented by its truncated microseconds and the outcome
    of [interval > 0.0]. *)
Record Timer := mkTimer {
  callback_ : nat;
  expiration_ : Timestamp;
  interval_ : Z;
  repeat_ : bool;
  sequence_ : Z
}.

(** [Timer::restart] *)
Definition restart (now : Timestamp) (t : Timer) : Timer :=
  mkTimer (callback_ t) (if repeat_ t then addTime now (interval_ t) else invalid)
    (interval_ t) (repeat_ t) (sequence_ t).

Abbreviation Entry := (Timestamp * ptr)%type (only parsing).
Abbreviation ActiveTimer := (ptr * Z)%type (only parsing).

(** [std::pair]'s lexicographic [operator<]. *)
Definition entry_lt (x y : Entry) : bool :=
  (x.1 <? y.1) || ((x.1 =? y.1) && (Z.pos x.2 <? Z.pos y.2)).
Definition active_lt (x y : ActiveTimer) : bool :=
  (Z.pos x.1 <? Z.pos y.1) || ((Z.pos x.1 =? Z.pos y.1) && (x.2 <? y.2)).

#[global] Instance entry_lt_strict : StrictTotal entry_lt.
Proof.
  unfold entry_lt. split.
  - intros [a b]. cbn [fst snd]. lia.
  - intros [a b] [c d] [e f]. cbn [fst snd]. lia.
  - intros [a b] [c d]. cbn [fst snd]. intros. f_equal; lia.
Qed.

#[global] Instance active_lt_strict : StrictTotal active_lt.
Proof.
  unfold active_lt. split.
  - intros [a b]. cbn [fst snd]. lia.
  - intros [a b] [c d] [e f]. cbn [fst snd]. lia.
  - intros [a b] [c d]. cbn [fst snd]. intros. f_equal; lia.
Qed.

(** What happened, newest last: a timer was created, cancelled by its id, or run. *)
Inductive tq_event :=
| Added (id : ActiveTimer)
| Cancelled (id : ActiveTimer)
| Ran (id : ActiveTimer).

Record TimerQueue := mkTimerQueue {
  heap : gmap ptr Timer;
  s_numCreated_ : Z;
  timers_ : list Entry;
  activeTimers_ : list ActiveTimer;
  callingExpiredTimers_ : bool;
  cancelingTimers_ : list ActiveTimer;
  (** the pending timerfd_settime: expiration asked for, clock when it was set *)
  timerfd : option (Timestamp * Timestamp);
  events : list tq_event
}.

Definition newTimerQueue : TimerQueue := mkTimerQueue ∅ 0 [] [] false [] None [].

Definition with_heap (h : gmap ptr Timer) (q : TimerQueue) : TimerQueue :=
  mkTimerQueue h (s_numCreated_ q) (timers_ q) (activeTimers_ q) (callingExpiredTimers_ q)
    (cancelingTimers_ q) (timerfd q) (events q).
Definition with_sets (ts : list Entry) (acts : list ActiveTimer) (q : TimerQueue) : TimerQueue :=
  mkTimerQueue (heap q) (s_numCreated_ q) ts acts (callingExpiredTimers_ q)
    (cancelingTimers_ q) (timerfd q) (events q).
Definition with_calling (b : bool) (canceling : list ActiveTimer) (q : TimerQueue) : TimerQueue :=
  mkTimerQueue (heap q) (s_numCreated_ q) (timers_ q) (activeTimers_ q) b canceling
    (timerfd q) (events q).
Definition with_timerfd (a : option (Timestamp * Timestamp)) (q : TimerQueue) : TimerQueue :=
  mkTimerQueue (heap q) (s_numCreated_ q) (timers_ q) (activeTimers_ q) (callingExpiredTimers_ q)
    (cancelingTimers_ q) a (events q).
Definition log (e : tq_event) (q : TimerQueue) : TimerQueue :=
  mkTimerQueue (heap q) (s_numCreated_ q) (timers_ q) (activeTimers_ q) (callingExpiredTimers_ q)
    (cancelingTimers_ q) (timerfd q) (events q ++ [e]).

(** [howMuchTimeFromNow(when)] at clock [clock]: seconds and nanoseconds. *)
Definition howMuchTimeFromNow (clock when : Timestamp) : Z * Z :=
  let microseconds := sint 64 (when - clock) in
  let microseconds := if microseconds <? 100 then 100 else microseconds in
  (Z.quot microseconds kMicroSecondsPerSecond,
   Z.rem microseconds kMicroSecondsPerSecond * 1000).

Definition resetTimerfd (clock expiration : Timestamp) (q : TimerQueue) : TimerQueue :=
  with_timerfd (Some (expiration, clock)) q.

(** [assert(timers_.size() == activeTimers_.size())] *)
Definition same_size (q : TimerQueue) : res unit :=
  check (zlen (timers_ q) =? zlen (activeTimers_ q)).

(** [TimerQueue::insert] *)
Definition insert_timer (p : ptr) (q : TimerQueue) : res (bool * TimerQueue) :=
  _ ← same_size q;
  t ← get (heap q !! p);
  let when := expiration_ t in
  let earliestChanged := match timers_ q with [] => true | e :: _ => when <? e.1 end in
  let '(ts, inserted1) := set_insert entry_lt (when, p) (timers_ q) in
  _ ← check inserted1;
  let '(acts, inserted2) := set_insert active_lt (p, sequence_ t) (activeTimers_ q) in
  _ ← check inserted2;
  let q' := with_sets ts acts q in
  _ ← same_size q';
  Ok (earliestChanged, q').

(** [TimerQueue::addTimerInLoop] *)
Definition addTimerInLoop (clock : Timestamp) (p : ptr) (q : TimerQueue) : res TimerQueue :=
  r ← insert_timer p q;
  let earliestChanged : bool := r.1 in
  let q1 := r.2 in
  if earliestChanged
  then t ← get (heap q1 !! p); Ok (resetTimerfd clock (expiration_ t) q1)
  else Ok q1.

(** [TimerQueue::cancelInLoop] *)
Definition cancelInLoop (id : ActiveTimer) (q : TimerQueue) : res TimerQueue :=
  _ ← same_size q;
  q' ← (if set_find active_lt id (activeTimers_ q)
        then
          t ← get (heap q !! id.1);
          let '(ts, n) := set_erase entry_lt (expiration_ t, id.1) (timers_ q) in
          _ ← check (n =? 1);
          let acts := (set_erase active_lt id (activeTimers_ q)).1 in
          Ok (with_sets ts acts (with_heap (delete id.1 (heap q)) q))
        else if callingExpiredTimers_ q
        then Ok (with_calling true (set_insert active_lt id (cancelingTimers_ q)).1 q)
        else Ok q);
  _ ← same_size q';
  Ok (log (Cancelled id) q').

Definition bad_alloc : fault := Thrown "std::bad_alloc".

(** The calls user code makes, in the loop thread. *)
Inductive tq_call :=
| CallAdd (clock : Timestamp) (cb : nat) (when : Timestamp) (interval : Z) (repeat : bool)
| CallCancel (id : ActiveTimer).

(** The address UINTPTR_MAX of the sentry of [getExpired]. *)
Definition UINTPTR_MAX : ptr := 18446744073709551615%positive.

Section Queue.
Context (alloc : gmap ptr Timer -> option ptr).
Context (body : nat -> TimerQueue -> list tq_call).

(** [TimerQueue::addTimer] from the loop thread: runInLoop calls addTimerInLoop. *)
Definition addTimer (clock : Timestamp) (cb : nat) (when : Timestamp) (interval : Z)
    (repeat : bool) (q : TimerQueue) : res (ActiveTimer * TimerQueue) :=
  match alloc (heap q) with
  | None => Fault bad_alloc
  | Some p =>
      let seq := s_numCreated_ q + 1 in
      let t := mkTimer cb when interval repeat seq in
      let q1 := mkTimerQueue (<[p := t]> (heap q)) seq (timers_ q) (activeTimers_ q)
                  (callingExpiredTimers_ q) (cancelingTimers_ q) (timerfd q) (events q) in
      q2 ← addTimerInLoop clock p q1;
      Ok ((p, seq), log (Added (p, seq)) q2)
  end.

Definition run_call (c : tq_call) (q : TimerQueue) : res TimerQueue :=
  match c with
  | CallAdd clock cb when interval repeat =>
      r ← addTimer clock cb when interval repeat q; Ok r.2
  | CallCancel id => cancelInLoop id q
  end.

Fixpoint run_calls (cs : list tq_call) (q : TimerQueue) : res TimerQueue :=
  match cs with
  | [] => Ok q
  | c :: cs => q' ← run_call c q; run_calls cs q'
  end.

(** [for (const Entry& it : expired) activeTimers_.erase(...)] *)
Fixpoint erase_active (expired : list Entry) (h : gmap ptr Timer) (acts : list ActiveTimer)
  : res (list ActiveTimer) :=
  match expired with
  | [] => Ok acts
  | (_, p) :: expired =>
      t ← get (h !! p);
      let '(acts', n) := set_erase active_lt (p, sequence_ t) acts in
      _ ← check (n =? 1);
      erase_active expired h acts'
  end.

(** [TimerQueue::getExpired] *)
Definition getExpired (now : Timestamp) (q : TimerQueue) : res (list Entry * TimerQueue) :=
  _ ← same_size q;
  let '(expired, rest) := set_lower_bound entry_lt (now, UINTPTR_MAX) (timers_ q) in
  _ ← check (match rest with [] => true | e :: _ => now <? e.1 end);
  acts ← erase_active expired (heap q) (activeTimers_ q);
  let q' := with_sets rest acts q in
  _ ← same_size q';
  Ok (expired, q').

(** The loop of [handleRead] that runs the expired timers. *)
Fixpoint run_expired (expired : list Entry) (q : TimerQueue) : res TimerQueue :=
  match expired with
  | [] => Ok q
  | (_, p) :: expired =>
      t ← get (heap q !! p);
      let q1 := log (Ran (p, sequence_ t)) q in
      q2 ← run_calls (body (callback_ t) q1) q1;
      run_expired expired q2
  end.

(** The loop of [TimerQueue::reset]. *)
Fixpoint reset_expired (expired : list Entry) (now : Timestamp) (q : TimerQueue)
  : res TimerQueue :=
  match expired with
  | [] => Ok q
  | (_, p) :: expired =>
      t ← get (heap q !! p);
      q' ← (if repeat_ t && negb (set_find active_lt (p, sequence_ t) (cancelingTimers_ q))
            then r ← insert_timer p (with_heap (<[p := restart now t]> (heap q)) q); Ok r.2
            else Ok (with_heap (delete p (heap q)) q));
      reset_expired expired now q'
  end.

(** [TimerQueue::reset]; [clock] is the time at which it arms the timerfd. *)
Definition reset (expired : list Entry) (now clock : Timestamp) (q : TimerQueue)
  : res TimerQueue :=
  q1 ← reset_expired expired now q;
  nextExpire ← match timers_ q1 with
               | [] => Ok invalid
               | (_, p) :: _ => t ← get (heap q1 !! p); Ok (expiration_ t)
               end;
  Ok (if valid nextExpire then resetTimerfd clock nextExpire q1 else q1).

(** [TimerQueue::handleRead]; reading the timerfd consumes the expiration. *)
Definition handleRead (now clock : Timestamp) (q : TimerQueue) : res TimerQueue :=
  let q0 := with_timerfd None q in
  r ← getExpired now q0;
  let expired := r.1 in
  let q1 := r.2 in
  q2 ← run_expired expired (with_calling true [] q1);
  reset expired now clock (with_calling false (cancelingTimers_ q2) q2).
End Queue.

(** ** The representation invariant *)

(** The identity of the timer an entry points to. *)
Definition id_of (h : gmap ptr Timer) (p : ptr) : ActiveTimer :=
  (p, default 0 (sequence_ <$> h !! p)).

(** [out] are the timers that exist but are in neither set: the expired ones while
    their callbacks run, and a new one before it is inserted. *)
Record tq_inv (out : list ptr) (q : TimerQueue) : Prop := mkTqInv {
  inv_timers : increasing entry_lt (timers_ q);
  inv_active : increasing active_lt (activeTimers_ q);
  inv_canceling : increasing active_lt (cancelingTimers_ q);
  (** the two sets hold the same timers *)
  inv_perm : activeTimers_ q ≡ₚ (fun e => id_of (heap q) e.2) <$> timers_ q;
  (** an entry carries the expiration of a live timer *)
  inv_entry : forall e, e ∈ timers_ q ->
    exists t, heap q !! e.2 = Some t /\ e.1 = expiration_ t /\ e.2 ∉ out;
  (** every live timer is accounted for *)
  inv_heap : forall p t, heap q !! p = Some t ->
    Z.pos p < Z.pos UINTPTR_MAX /\ sequence_ t <= s_numCreated_ q /\
    (p ∈ out \/ (expiration_ t, p) ∈ timers_ q);
  inv_out : NoDup out /\ forall p, p ∈ out -> is_Some (heap q !! p)
}.

Lemma tq_inv_init : tq_inv [] newTimerQueue.
Proof.
  split; cbn; try (by constructor); try done.
  - intros e He. by apply elem_of_nil in He.
  - split; [constructor|]. intros p Hp. by apply elem_of_nil in Hp.
Qed.

Section Invariant.
Context (out : list ptr) (q : TimerQueue) (Hinv : tq_inv out q).

Lemma inv_same_size : same_size q = Ok tt.
Proof using Hinv.
  unfold same_size, zlen. rewrite (inv_perm _ _ Hinv), length_fmap. by rewrite Z.eqb_refl.
Qed.

Lemma inv_active_elem p s :
  (p, s) ∈ activeTimers_ q <->
  exists t, heap q !! p = Some t /\ sequence_ t = s /\ (expiration_ t, p) ∈ timers_ q.
Proof using Hinv.
  rewrite (inv_perm _ _ Hinv), list_elem_of_fmap. unfold id_of. split.
  - intros ([e p'] & E & Hin). destruct (inv_entry _ _ Hinv _ Hin) as (t & Ht & He & _). cbn in *.
    rewrite Ht in E. cbn in E. injection E as -> ->. exists t. by rewrite <- He.
  - intros (t & Ht & <- & Hin). exists (expiration_ t, p). split; [|done]. cbn. by rewrite Ht.
Qed.

Lemma inv_timers_inj e1 e2 : e1 ∈ timers_ q -> e2 ∈ timers_ q -> e1.2 = e2.2 -> e1 = e2.
Proof using Hinv.
  intros H1 H2 E. destruct (inv_entry _ _ Hinv _ H1) as (t1 & Ht1 & E1 & _).
  destruct (inv_entry _ _ Hinv _ H2) as (t2 & Ht2 & E2 & _).
  destruct e1, e2. cbn in *. subst. simplify_map_eq. done.
Qed.
End Invariant.

Lemma id_of_insert_ne h p t e : e <> p -> id_of (<[p := t]> h) e = id_of h e.
Proof. intros. unfold id_of. by rewrite lookup_insert_ne. Qed.

(** ** [insert] *)

Lemma insert_timer_ok out p q t :
  tq_inv (p :: out) q -> heap q !! p = Some t ->
  exists ts acts, insert_timer p q =
      Ok (match timers_ q with [] => true | e :: _ => expiration_ t <? e.1 end,
          with_sets ts acts q) /\
    ts ≡ₚ (expiration_ t, p) :: timers_ q /\ acts ≡ₚ (p, sequence_ t) :: activeTimers_ q /\
    tq_inv out (with_sets ts acts q).
Proof.
  intros Hinv Hp. pose proof Hinv as [Ht Ha Hc Hperm Hentry Hheap [Hnd Hout]].
  assert (Hn1 : (expiration_ t, p) ∉ timers_ q).
  { intros (? & _ & _ & Hnot)%Hentry. apply Hnot. by left. }
  assert (Hn2 : (p, sequence_ t) ∉ activeTimers_ q).
  { rewrite (inv_active_elem _ _ Hinv). intros (t' & ? & _ & ?). by simplify_map_eq. }
  destruct (set_insert_new entry_lt _ _ Ht Hn1) as (ts & Ets & Pts & Sts).
  destruct (set_insert_new active_lt _ _ Ha Hn2) as (acts & Ea & Pa & Sa).
  exists ts, acts. unfold insert_timer. rewrite (inv_same_size _ _ Hinv), Hp. cbn [get mbind res_bind].
  rewrite Ets, Ea. cbn [check mbind res_bind].
  assert (Hfin : tq_inv out (with_sets ts acts q)).
  { apply NoDup_cons in Hnd as [Hnp Hnd]. split; cbn; try done.
    - rewrite Pa, Pts, Hperm. cbn. unfold id_of at 2. by rewrite Hp.
    - intros e He. rewrite Pts in He. apply elem_of_cons in He as [->|He]; [by eauto|].
      destruct (Hentry e He) as (t' & ? & ? & Hno). exists t'. set_solver.
    - intros p' t' Hp'. destruct (Hheap p' t' Hp') as (? & ? & Hor). split_and!; [done..|].
      rewrite Pts. set_solver.
    - split; [done|]. set_solver. }
  rewrite (inv_same_size _ _ Hfin). done.
Qed.

(** ** [cancelInLoop] *)

Lemma inv_log out ev q : tq_inv out q -> tq_inv out (log ev q).
Proof. by intros []; split. Qed.

Lemma inv_with_calling out b c q :
  increasing active_lt c -> tq_inv out q -> tq_inv out (with_calling b c q).
Proof. by intros ? []; split. Qed.

Lemma cancel_active out p t q :
  tq_inv out q -> heap q !! p = Some t -> (p, sequence_ t) ∈ activeTimers_ q ->
  exists ts acts, cancelInLoop (p, sequence_ t) q =
      Ok (log (Cancelled (p, sequence_ t)) (with_sets ts acts (with_heap (delete p (heap q)) q))) /\
    timers_ q ≡ₚ (expiration_ t, p) :: ts /\ activeTimers_ q ≡ₚ (p, sequence_ t) :: acts /\
    tq_inv out (with_sets ts acts (with_heap (delete p (heap q)) q)).
Proof.
  intros Hinv Hp Hact. pose proof Hinv as [Ht Ha Hc Hperm Hentry Hheap [Hnd Hout]].
  assert (Hin : (expiration_ t, p) ∈ timers_ q).
  { apply (inv_active_elem _ _ Hinv) in Hact as (t' & ? & _ & ?). by simplify_map_eq. }
  destruct (set_erase_elem entry_lt _ _ Ht Hin) as (ts & Ets & Pts & Sts).
  destruct (set_erase_elem active_lt _ _ Ha Hact) as (acts & Ea & Pa & Sa).
  exists ts, acts. unfold cancelInLoop. rewrite (inv_same_size _ _ Hinv). cbn [mbind res_bind fst].
  rewrite (proj2 (set_find_spec active_lt _ _ Ha) Hact), Hp. cbn [get mbind res_bind].
  rewrite Ets, Ea. cbn [mbind res_bind fst check Z.eqb Pos.eqb].
  assert (Hts : forall e, e ∈ ts -> e.2 <> p).
  { intros e He Ep. pose proof (increasing_NoDup entry_lt _ Ht) as Hnod. rewrite Pts in Hnod.
    apply NoDup_cons in Hnod as [Hnot _]. apply Hnot.
    rewrite (inv_timers_inj _ _ Hinv (expiration_ t, p) e); [done|done| |done].
    rewrite Pts. by right. }
  assert (Hfin : tq_inv out (with_sets ts acts (with_heap (delete p (heap q)) q))).
  { split; cbn; try done.
    - rewrite Pa, Pts in Hperm. cbn in Hperm. unfold id_of at 1 in Hperm. rewrite Hp in Hperm.
      cbn in Hperm. apply Permutation_cons_inv in Hperm. rewrite Hperm.
      erewrite list_fmap_ext; [done|]. intros i e He.
      unfold id_of. rewrite lookup_delete_ne; [done|].
      apply list_elem_of_lookup_2, Hts in He. congruence.
    - intros e He. destruct (Hentry e) as (t' & ? & ? & ?); [rewrite Pts; by right|].
      exists t'. rewrite lookup_delete_ne; [done|]. apply Hts in He. congruence.
    - intros p' t' [Hne Hp']%lookup_delete_Some. destruct (Hheap p' t' Hp') as (? & ? & Hor).
      split_and!; [done..|]. destruct Hor as [?|Hor]; [by left|right].
      rewrite Pts in Hor. apply elem_of_cons in Hor as [[= _ ?]|?]; [congruence|done].
    - split; [done|]. intros p' Hp'. destruct (Hout p' Hp') as [t' Ht'].
      exists t'. rewrite lookup_delete_ne; [done|]. intros ->.
      destruct (Hentry _ Hin) as (_ & _ & _ & Hno). done. }
  by rewrite (inv_same_size _ _ Hfin).
Qed.

Lemma cancel_inactive out id q :
  tq_inv out q -> id ∉ activeTimers_ q ->
  exists c, cancelInLoop id q = Ok (log (Cancelled id) (with_calling (callingExpiredTimers_ q) c q)) /\
    (forall x, x ∈ c <-> x ∈ cancelingTimers_ q \/ callingExpiredTimers_ q = true /\ x = id) /\
    tq_inv out (with_calling (callingExpiredTimers_ q) c q).
Proof.
  intros Hinv Hn. unfold cancelInLoop. rewrite (inv_same_size _ _ Hinv). cbn [mbind res_bind].
  rewrite (proj2 (set_find_false active_lt _ _ (inv_active _ _ Hinv)) Hn).
  pose proof (inv_canceling _ _ Hinv) as Hc.
  destruct (callingExpiredTimers_ q) eqn:E; cbn [mbind res_bind].
  - assert (Hfin : tq_inv out (with_calling true (set_insert active_lt id (cancelingTimers_ q)).1 q))
      by (apply inv_with_calling; [by apply (set_insert_increasing active_lt)|done]).
    exists (set_insert active_lt id (cancelingTimers_ q)).1.
    rewrite (inv_same_size _ _ Hfin). split_and!; [done| |done].
    intros x. rewrite (set_insert_elem active_lt _ _ _ Hc). naive_solver.
  - exists (cancelingTimers_ q). rewrite (inv_same_size _ _ Hinv). cbn [mbind res_bind].
    replace (with_calling false (cancelingTimers_ q) q) with q by (rewrite <- E; by destruct q).
    split_and!; [done| |done]. intros x. naive_solver.
Qed.

(** ** The armed timerfd *)

(** Every entry up to [bnd] has the timerfd set for its expiration or earlier. *)
Definition covered (bnd : Timestamp) (q : TimerQueue) : Prop :=
  forall e, e ∈ timers_ q -> e.1 <= bnd -> exists a, timerfd q = Some a /\ a.1 <= e.1.

Definition armed (q : TimerQueue) : Prop := forall bnd, covered bnd q.

Lemma entries_from_head e l x : increasing entry_lt (e :: l) -> x ∈ e :: l -> e.1 <= x.1.
Proof.
  intros [_ Hl]%StronglySorted_inv Hx. apply elem_of_cons in Hx as [->|Hx]; [lia|].
  rewrite Forall_forall in Hl. specialize (Hl x Hx). unfold entry_lt in Hl. lia.
Qed.

(** ** What user code can do to the queue *)

Definition runs (evs : list tq_event) : list ActiveTimer :=
  omap (fun e => match e with Ran id => Some id | _ => None end) evs.

(** The effect of calls made while the timers [out] are held back. *)
Record effect (out : list ptr) (q : TimerQueue) (evs : list tq_event) (q' : TimerQueue)
  : Prop := mkEffect {
  eff_inv : tq_inv out q';
  eff_events : events q' = events q ++ evs;
  eff_num : s_numCreated_ q <= s_numCreated_ q';
  eff_calling : callingExpiredTimers_ q' = callingExpiredTimers_ q;
  eff_out : forall p, p ∈ out -> heap q' !! p = heap q !! p;
  eff_active : forall id, id.2 <= s_numCreated_ q ->
    (id ∈ activeTimers_ q' <-> id ∈ activeTimers_ q /\ Cancelled id ∉ evs);
  eff_new : forall id, id ∈ activeTimers_ q' -> id ∈ activeTimers_ q \/ Added id ∈ evs;
  eff_heap : forall p t, heap q !! p = Some t -> (p, sequence_ t) ∈ activeTimers_ q' ->
    heap q' !! p = Some t;
  eff_canceling : callingExpiredTimers_ q = true -> forall p, p ∈ out ->
    (id_of (heap q) p ∈ cancelingTimers_ q' <->
     id_of (heap q) p ∈ cancelingTimers_ q \/ Cancelled (id_of (heap q) p) ∈ evs);
  eff_covered : forall bnd, covered bnd q -> covered bnd q'
}.

Lemma effect_refl out q : tq_inv out q -> effect out q [] q.
Proof.
  intros. split; try done; try set_solver. by rewrite app_nil_r.
Qed.

Lemma effect_log_ran out q id : tq_inv out q -> effect out q [Ran id] (log (Ran id) q).
Proof.
  intros. split; cbn; try done; try (by apply inv_log); try set_solver.
Qed.

Lemma effect_trans out q evs1 q1 evs2 q2 :
  tq_inv out q -> effect out q evs1 q1 -> effect out q1 evs2 q2 ->
  effect out q (evs1 ++ evs2) q2.
Proof.
  intros Hinv [I1 E1 N1 K1 O1 A1 W1 H1 C1 V1] [I2 E2 N2 K2 O2 A2 W2 H2 C2 V2]. split.
  - done.
  - by rewrite E2, E1, <- (assoc_L app).
  - lia.
  - congruence.
  - intros p Hp. by rewrite O2, O1.
  - intros id Hid. rewrite A2 by lia. rewrite A1 by done. set_solver.
  - intros id Hid. apply W2 in Hid as [Hid%W1|?]; set_solver.
  - intros p t Hp Hact. apply H2; [|done]. apply H1; [done|].
    destruct (inv_heap _ _ Hinv p t Hp) as (_ & Hs & _). apply A2 in Hact as [? _]; [done|cbn; lia].
  - intros Hcall p Hp.
    assert (Hid : id_of (heap q1) p = id_of (heap q) p) by (unfold id_of; by rewrite O1).
    rewrite <- Hid at 1. rewrite C2 by (done || congruence). rewrite Hid, C1 by done. set_solver.
  - auto.
Qed.

Lemma effect_cancel out id q :
  tq_inv out q -> exists q', cancelInLoop id q = Ok q' /\ effect out q [Cancelled id] q'.
Proof.
  intros Hinv. destruct id as [p s]. destruct (decide ((p, s) ∈ activeTimers_ q)) as [Hact|Hn].
  - pose proof Hact as (t & Hp & Hs & Hin)%(inv_active_elem _ _ Hinv). subst s.
    destruct (cancel_active out p t q) as (ts & acts & -> & Pts & Pacts & Hinv'); [done..|].
    destruct (inv_entry _ _ Hinv _ Hin) as (_ & _ & _ & Hpo). cbn in Hpo.
    pose proof (increasing_NoDup active_lt _ (inv_active _ _ Hinv)) as Hnd.
    rewrite Pacts in Hnd. apply NoDup_cons in Hnd as [Hnd _].
    eexists. split; [done|]. split; cbn; try done.
    + by apply inv_log.
    + intros p' Hp'. rewrite lookup_delete_ne; [done|]. congruence.
    + intros id _. rewrite Pacts, elem_of_cons, list_elem_of_singleton. split.
      * intros Hid. split; [by right|]. intros [= ->]. done.
      * intros [[->|?] Hne]; [by destruct Hne|done].
    + intros id Hid. left. rewrite Pacts. by right.
    + intros p' t' Hp' Hact'. rewrite lookup_delete_ne; [done|]. intros <-. by simplify_map_eq.
    + intros _ p' Hp'. rewrite list_elem_of_singleton. split; [by left|].
      intros [?|[= E]]; [done|]. congruence.
    + intros bnd Hcov e He. apply Hcov. cbn in He. rewrite Pts. by right.
  - destruct (cancel_inactive out (p, s) q) as (c & -> & Hc & Hinv'); [done..|].
    eexists. split; [done|]. split; cbn; try done.
    + by apply inv_log.
    + intros id _. rewrite list_elem_of_singleton. split; [|tauto]. intros Hid. split; [done|].
      intros [= ->]. done.
    + by left.
    + intros Hcall p' Hp'. rewrite Hc, list_elem_of_singleton. split.
      * intros [?|[_ ->]]; auto.
      * intros [?|E]; [by left|right]. split; [done|congruence].
Qed.

Lemma inv_with_timerfd out a q : tq_inv out q -> tq_inv out (with_timerfd a q).
Proof. by intros []; split. Qed.

Lemma covered_insert bnd t p clock ts q q' :
  increasing entry_lt (timers_ q) -> ts ≡ₚ (expiration_ t, p) :: timers_ q ->
  timers_ q' = ts ->
  timerfd q' = (if match timers_ q with [] => true | e :: _ => expiration_ t <? e.1 end
                then Some (expiration_ t, clock) else timerfd q) ->
  covered bnd q -> covered bnd q'.
Proof.
  intros Hs Pts Ets Efd Hcov e He Hle. rewrite Ets, Pts in He.
  destruct (timers_ q) as [|hd l] eqn:El.
  - rewrite Efd. apply elem_of_cons in He as [->|He]; [|by apply elem_of_nil in He].
    eexists. split; [done|]. cbn. lia.
  - destruct (expiration_ t <? hd.1) eqn:Ec; rewrite Efd.
    + eexists. split; [done|]. cbn. apply elem_of_cons in He as [->|He]; [cbn; lia|].
      apply (entries_from_head _ _ _ Hs) in He. lia.
    + assert (Hhd : hd.1 <= e.1).
      { apply elem_of_cons in He as [->|He]; [cbn; lia|]. by apply (entries_from_head _ _ _ Hs). }
      destruct (Hcov hd) as (a & ? & ?); [rewrite El; left|lia|]. exists a. split; [done|lia].
Qed.

Section Calls.
Context (alloc : gmap ptr Timer -> option ptr).

(** operator new returns fresh memory below the top address. *)
Definition alloc_ok : Prop :=
  forall h p, alloc h = Some p -> h !! p = None /\ Z.pos p < Z.pos UINTPTR_MAX.

Context (Halloc : alloc_ok).

Lemma effect_add out clock cb when interval repeat q :
  tq_inv out q ->
  outcome bad_alloc (addTimer alloc clock cb when interval repeat q) (fun r =>
    effect out q [Added r.1] r.2 /\ r.1 ∈ activeTimers_ r.2 /\
    heap r.2 !! r.1.1 = Some (mkTimer cb when interval repeat r.1.2) /\
    r.1.2 = s_numCreated_ q + 1).
Proof using Halloc.
  intros Hinv. unfold addTimer. destruct (alloc (heap q)) as [p|] eqn:Ea; [|by right].
  destruct (Halloc _ _ Ea) as [Hfresh Hmax]. pose proof Hinv as [Ht Ha Hc Hperm Hentry Hheap [Hnd Hout]].
  set (t := mkTimer cb when interval repeat (s_numCreated_ q + 1)).
  set (q1 := mkTimerQueue _ _ _ _ _ _ _ _).
  assert (Hpt : forall e, e ∈ timers_ q -> e.2 <> p).
  { intros e (t' & He & _)%Hentry Ep. rewrite Ep in He. congruence. }
  assert (Hpo : p ∉ out) by (intros [? ?]%Hout; congruence).
  assert (Hinv1 : tq_inv (p :: out) q1).
  { split; cbn; try done.
    - rewrite Hperm. erewrite list_fmap_ext; [done|]. intros i e He. symmetry.
      apply id_of_insert_ne. by eapply Hpt, list_elem_of_lookup_2.
    - intros e He. destruct (Hentry e He) as (t' & ? & ? & ?). exists t'.
      pose proof (Hpt e He). rewrite lookup_insert_ne by done. set_solver.
    - intros p' t' Hp'. apply lookup_insert_Some in Hp' as [[<- <-]|[Hne Hp']].
      + split_and!; [done|cbn; lia|left; left].
      + destruct (Hheap p' t' Hp') as (? & ? & Hor). split_and!; [done|lia|set_solver].
    - split; [by constructor|]. intros p' [->|Hp']%elem_of_cons; [by simplify_map_eq|].
      destruct (Hout p' Hp') as [t' Ht']. exists t'. rewrite lookup_insert_ne; [done|congruence]. }
  assert (Hp1 : heap q1 !! p = Some t) by (cbn; by rewrite lookup_insert_eq).
  destruct (insert_timer_ok out p q1 t Hinv1 Hp1) as (ts & acts & Ei & Pts & Pacts & Hfin).
  apply outcome_bind with (P := fun q2 => exists a, q2 = with_timerfd a (with_sets ts acts q1) /\
     a = if match timers_ q with [] => true | e :: _ => when <? e.1 end
         then Some (when, clock) else timerfd q).
  { unfold addTimerInLoop. rewrite Ei. cbn [mbind res_bind fst snd]. cbn [expiration_ t timers_ q1].
    destruct (match timers_ q with [] => true | e :: _ => when <? e.1 end); cbn [with_sets heap].
    - rewrite Hp1. cbn [get mbind res_bind]. apply outcome_Ok. eexists. by split.
    - apply outcome_Ok. exists (timerfd q). by split. }
  intros q2 (a & -> & Eafd). apply outcome_Ok. cbn [fst snd].
  split_and!; [|cbn; rewrite Pacts; by left|cbn; by rewrite lookup_insert_eq|done].
  split; cbn; try done.
  - by apply inv_log, inv_with_timerfd.
  - lia.
  - intros p' Hp'. rewrite lookup_insert_ne; [done|]. congruence.
  - intros id Hid. rewrite Pacts, elem_of_cons, list_elem_of_singleton. cbn. split.
    + intros [->|?]; [cbn in Hid; lia|done].
    + intros [? _]. by right.
  - intros id. rewrite Pacts, elem_of_cons, list_elem_of_singleton. cbn. naive_solver.
  - intros p' t' Hp' _. rewrite lookup_insert_ne; [done|]. congruence.
  - intros _ p' Hp'. rewrite list_elem_of_singleton. naive_solver.
  - intros bnd. by apply (covered_insert _ t p clock ts q).
Qed.

Lemma run_calls_effect out cs q :
  tq_inv out q ->
  outcome bad_alloc (run_calls alloc cs q) (fun q' => exists evs, runs evs = [] /\ effect out q evs q').
Proof using Halloc.
  revert q. induction cs as [|c cs IH]; intros q Hinv; cbn [run_calls].
  { apply outcome_Ok. exists []. split; [done|]. by apply effect_refl. }
  apply outcome_bind with (P := fun q1 => exists evs, runs evs = [] /\ effect out q evs q1).
  - destruct c as [clock cb when interval repeat|id]; cbn [run_call].
    + eapply outcome_bind; [by apply (effect_add out)|]. intros [id q1] (Heff & _).
      apply outcome_Ok. exists [Added id]. by split.
    + destruct (effect_cancel out id q Hinv) as (q1 & -> & Heff).
      apply outcome_Ok. exists [Cancelled id]. by split.
  - intros q1 (evs1 & Hr1 & H1). eapply outcome_impl; [apply IH, (eff_inv _ _ _ _ H1)|].
    intros q2 (evs2 & Hr2 & H2). exists (evs1 ++ evs2). split.
    + unfold runs in *. by rewrite omap_app, Hr1, Hr2.
    + by eapply effect_trans.
Qed.

Context (body : nat -> TimerQueue -> list tq_call).

(** The expired timers run once each, in order. *)
Lemma run_expired_effect out expired q :
  tq_inv out q -> (forall e, e ∈ expired -> e.2 ∈ out) ->
  outcome bad_alloc (run_expired alloc body expired q) (fun q' => exists evs,
    runs evs = (fun e => id_of (heap q) e.2) <$> expired /\ effect out q evs q').
Proof using Halloc.
  revert q. induction expired as [|[e p] expired IH]; intros q Hinv Hin; cbn [run_expired].
  { apply outcome_Ok. exists []. split; [done|]. by apply effect_refl. }
  assert (Hp : p ∈ out) by (apply (Hin (e, p)); left).
  destruct (proj2 (inv_out _ _ Hinv) p Hp) as [t Ht]. rewrite Ht. cbn [get mbind res_bind].
  pose proof (effect_log_ran out q (p, sequence_ t) Hinv) as H0.
  eapply outcome_bind; [apply (run_calls_effect out _ _ (eff_inv _ _ _ _ H0))|].
  intros q1 (evs1 & Hr1 & H1). pose proof (effect_trans _ _ _ _ _ _ Hinv H0 H1) as H01.
  eapply outcome_impl; [apply IH; [apply (eff_inv _ _ _ _ H01)|intros; apply Hin; by right]|].
  intros q2 (evs2 & Hr2 & H2). exists (([Ran (p, sequence_ t)] ++ evs1) ++ evs2). split.
  - unfold runs in *. rewrite !omap_app, Hr1, Hr2. cbn. unfold id_of at 2. rewrite Ht. cbn. f_equal.
    apply list_fmap_ext. intros i e' He'. unfold id_of. rewrite (eff_out _ _ _ _ H01); [done|].
    apply Hin. right. by eapply list_elem_of_lookup_2.
  - by eapply effect_trans.
Qed.
End Calls.

(** ** [getExpired] *)

Lemma erase_active_ok expired h acts rest :
  increasing active_lt acts -> (forall e, e ∈ expired -> is_Some (h !! e.2)) ->
  acts ≡ₚ ((fun e => id_of h e.2) <$> expired) ++ rest ->
  exists acts', erase_active expired h acts = Ok acts' /\ acts' ≡ₚ rest /\ increasing active_lt acts'.
Proof.
  revert acts. induction expired as [|[e p] expired IH]; intros acts Hs Hh Hp; cbn [erase_active].
  { by exists acts. }
  destruct (Hh (e, p)) as [t Ht]; [left|]. cbn in Ht. rewrite Ht. cbn [get mbind res_bind].
  cbn [fmap list_fmap app snd] in Hp. unfold id_of at 1 in Hp. rewrite Ht in Hp. cbn in Hp.
  destruct (set_erase_elem active_lt (p, sequence_ t) acts Hs) as (acts1 & -> & Hp1 & Hs1).
  { rewrite Hp. left. }
  cbn [check mbind res_bind Z.eqb Pos.eqb]. apply IH; [done|intros; apply Hh; by right|].
  rewrite Hp in Hp1. by apply Permutation_cons_inv in Hp1.
Qed.

Lemma before_sentry now e : Z.pos e.2 < Z.pos UINTPTR_MAX ->
  entry_lt e (now, UINTPTR_MAX) = (e.1 <=? now).
Proof. intros. unfold entry_lt. cbn [fst snd]. lia. Qed.

Lemma getExpired_ok now q :
  tq_inv [] q ->
  exists expired rest acts, getExpired now q = Ok (expired, with_sets rest acts q) /\
    timers_ q = expired ++ rest /\
    Forall (fun e => e.1 <= now) expired /\ Forall (fun e => now < e.1) rest /\
    activeTimers_ q ≡ₚ ((fun e => id_of (heap q) e.2) <$> expired) ++ acts /\
    tq_inv expired.*2 (with_sets rest acts q).
Proof.
  intros Hinv. pose proof Hinv as [Ht Ha Hc Hperm Hentry Hheap [Hnd Hout]].
  unfold getExpired. rewrite (inv_same_size _ _ Hinv). cbn [mbind res_bind].
  destruct (set_lower_bound entry_lt (now, UINTPTR_MAX) (timers_ q)) as [expired rest] eqn:Elb.
  destruct (set_lower_bound_spec entry_lt _ _ _ _ Ht Elb) as (Happ & He & Hr).
  assert (Hlt : forall e, e ∈ timers_ q -> entry_lt e (now, UINTPTR_MAX) = (e.1 <=? now)).
  { intros e Hin. apply before_sentry. destruct (Hentry e Hin) as (t & Hp & _).
    by destruct (Hheap _ _ Hp). }
  rewrite Forall_forall in He, Hr.
  assert (Hexp : forall e, e ∈ expired -> e ∈ timers_ q) by (intros; rewrite Happ; by apply elem_of_app; left).
  assert (Hrest : forall e, e ∈ rest -> e ∈ timers_ q) by (intros; rewrite Happ; by apply elem_of_app; right).
  assert (He' : Forall (fun e => e.1 <= now) expired).
  { apply Forall_forall. intros e Hin. specialize (He e Hin). rewrite Hlt in He; [lia|auto]. }
  assert (Hr' : Forall (fun e => now < e.1) rest).
  { apply Forall_forall. intros e Hin. specialize (Hr e Hin). rewrite Hlt in Hr; [lia|auto]. }
  rewrite check_true by (destruct rest; [done|]; apply Forall_cons in Hr' as [? _]; lia).
  cbn [mbind res_bind].
  destruct (erase_active_ok expired (heap q) (activeTimers_ q)
              ((fun e => id_of (heap q) e.2) <$> rest)) as (acts & -> & Pacts & Sacts); [done| | |].
  { intros e Hin. destruct (Hentry e) as (t & ? & _); [auto|by eexists]. }
  { by rewrite Hperm, Happ, fmap_app. }
  cbn [mbind res_bind]. exists expired, rest, acts.
  assert (Hinj : forall e1 e2, e1 ∈ timers_ q -> e2 ∈ timers_ q -> e1.2 = e2.2 -> e1 = e2)
    by apply (inv_timers_inj _ _ Hinv).
  pose proof (increasing_NoDup entry_lt _ Ht) as Hnod. rewrite Happ in Hnod, Ht.
  apply NoDup_app in Hnod as (Hnde & Hdisj & _).
  assert (Hfin : tq_inv expired.*2 (with_sets rest acts q)).
  { split; cbn; try done.
    - by eapply increasing_app_r.
    - intros e Hin. destruct (Hentry e) as (t & ? & ? & _); [auto|]. exists t.
      split_and!; [done..|]. intros (e' & Ee & He'')%list_elem_of_fmap.
      rewrite (Hinj e e') in Hin; [by apply Hdisj in Hin|auto|auto|done].
    - intros p t Hp. destruct (Hheap p t Hp) as (? & ? & [Hnil|Hin]); [by apply elem_of_nil in Hnil|].
      split_and!; [done..|]. rewrite Happ in Hin. apply elem_of_app in Hin as [Hin|Hin]; [left|by right].
      apply list_elem_of_fmap. by exists (expiration_ t, p).
    - split.
      + apply NoDup_fmap_2_strong; [|done]. intros x y Hx Hy Exy. apply Hinj; [auto..|done].
      + intros p (e & -> & Hin)%list_elem_of_fmap. destruct (Hentry e) as (t & ? & _); [auto|by eexists]. }
  rewrite (inv_same_size _ _ Hfin). split_and!; try done. by rewrite Pacts, Hperm, Happ, fmap_app.
Qed.

(** ** [reset] *)

Lemma inv_delete out p q :
  tq_inv (p :: out) q -> tq_inv out (with_heap (delete p (heap q)) q).
Proof.
  intros [Ht Ha Hc Hperm Hentry Hheap [Hnd Hout]]. apply NoDup_cons in Hnd as [Hnp Hnd].
  assert (Hne : forall e, e ∈ timers_ q -> p <> e.2).
  { intros e (_ & _ & _ & Hno)%Hentry ->. apply Hno. left. }
  split; cbn; try done.
  - rewrite Hperm. erewrite list_fmap_ext; [done|]. intros i e He. unfold id_of.
    rewrite lookup_delete_ne; [done|]. by eapply Hne, list_elem_of_lookup_2.
  - intros e He. destruct (Hentry e He) as (t & ? & ? & ?). exists t.
    rewrite lookup_delete_ne by (by apply Hne). set_solver.
  - intros p' t [Hpp Hp']%lookup_delete_Some. destruct (Hheap p' t Hp') as (? & ? & Hor).
    split_and!; [done..|set_solver].
  - split; [done|]. intros p' Hp'. rewrite lookup_delete_ne by congruence. apply Hout. by right.
Qed.

Lemma inv_restart out p now t q :
  tq_inv (p :: out) q -> heap q !! p = Some t ->
  tq_inv (p :: out) (with_heap (<[p := restart now t]> (heap q)) q).
Proof.
  intros [Ht Ha Hc Hperm Hentry Hheap [Hnd Hout]] Hp.
  assert (Hne : forall e, e ∈ timers_ q -> p <> e.2).
  { intros e (_ & _ & _ & Hno)%Hentry ->. apply Hno. left. }
  split; cbn; try done.
  - rewrite Hperm. erewrite list_fmap_ext; [done|]. intros i e He. unfold id_of.
    rewrite lookup_insert_ne; [done|]. by eapply Hne, list_elem_of_lookup_2.
  - intros e He. destruct (Hentry e He) as (t' & ? & ? & ?). exists t'.
    by rewrite lookup_insert_ne by (by apply Hne).
  - intros p' t' [[<- <-]|[Hpp Hp']]%lookup_insert_Some.
    + destruct (Hheap p t Hp) as (? & ? & _). split_and!; [done..|left; left].
    + by apply Hheap.
  - split; [done|]. intros p' Hp'. destruct (decide (p = p')) as [->|]; simplify_map_eq; eauto.
Qed.

(** Whether [reset] puts an expired timer back. *)
Definition kept (q : TimerQueue) (p : ptr) (t : Timer) : Prop :=
  repeat_ t = true /\ (p, sequence_ t) ∉ cancelingTimers_ q.

Record reset_effect (expired : list Entry) (now : Timestamp) (q q' : TimerQueue) : Prop := {
  rst_inv : tq_inv [] q';
  rst_events : events q' = events q;
  rst_timerfd : timerfd q' = timerfd q;
  rst_canceling : cancelingTimers_ q' = cancelingTimers_ q;
  rst_active : forall id, id ∈ activeTimers_ q' <-> id ∈ activeTimers_ q \/
    exists e t, e ∈ expired /\ heap q !! e.2 = Some t /\ id = (e.2, sequence_ t) /\ kept q e.2 t;
  rst_timers : forall x, x ∈ timers_ q' <-> x ∈ timers_ q \/
    exists e t, e ∈ expired /\ heap q !! e.2 = Some t /\ kept q e.2 t /\
                x = (addTime now (interval_ t), e.2);
  rst_heap_out : forall p, p ∉ expired.*2 -> heap q' !! p = heap q !! p;
  rst_heap : forall e t, e ∈ expired -> heap q !! e.2 = Some t -> kept q e.2 t ->
    heap q' !! e.2 = Some (restart now t)
}.

(** One round of the loop: the timer is put back or deleted. *)
Lemma reset_step out now p t q :
  tq_inv (p :: out) q -> heap q !! p = Some t ->
  exists q1, (if repeat_ t && negb (set_find active_lt (p, sequence_ t) (cancelingTimers_ q))
        then r ← insert_timer p (with_heap (<[p := restart now t]> (heap q)) q); Ok r.2
        else Ok (with_heap (delete p (heap q)) q)) = Ok q1 /\
    tq_inv out q1 /\ events q1 = events q /\ timerfd q1 = timerfd q /\
    cancelingTimers_ q1 = cancelingTimers_ q /\
    (forall id, id ∈ activeTimers_ q1 <-> id ∈ activeTimers_ q \/ id = (p, sequence_ t) /\ kept q p t) /\
    (forall x, x ∈ timers_ q1 <->
       x ∈ timers_ q \/ x = (addTime now (interval_ t), p) /\ kept q p t) /\
    (forall p', p' <> p -> heap q1 !! p' = heap q !! p') /\
    (kept q p t -> heap q1 !! p = Some (restart now t)).
Proof.
  intros Hinv Hp. pose proof (inv_canceling _ _ Hinv) as Hc.
  destruct (repeat_ t && negb (set_find active_lt (p, sequence_ t) (cancelingTimers_ q))) eqn:Ek.
  - apply andb_true_iff in Ek as [Hr Hk].
    apply negb_true_iff, (set_find_false active_lt) in Hk; [|done].
    assert (Hkept : kept q p t) by (by split).
    pose proof (inv_restart out p now t q Hinv Hp) as Hinv1.
    destruct (insert_timer_ok out p _ (restart now t) Hinv1) as (ts & acts & -> & Pts & Pacts & Hfin).
    { cbn. by rewrite lookup_insert_eq. }
    cbn [mbind res_bind snd]. eexists. split; [done|]. split_and!; try done; cbn.
    + intros id. rewrite Pacts, elem_of_cons. cbn. naive_solver.
    + intros x. rewrite Pts, elem_of_cons. cbn. rewrite Hr. naive_solver.
    + intros p' Hp'. by rewrite lookup_insert_ne.
    + intros _. by rewrite lookup_insert_eq.
  - assert (Hkept : ~ kept q p t).
    { intros [Hr Hk]. apply (set_find_false active_lt) in Hk; [|done]. rewrite Hr, Hk in Ek. done. }
    eexists. split; [done|]. split_and!; try done; cbn.
    + by apply inv_delete.
    + naive_solver.
    + naive_solver.
    + intros p' Hp'. by rewrite lookup_delete_ne.
Qed.

Lemma reset_expired_ok expired now q :
  tq_inv expired.*2 q ->
  exists q', reset_expired expired now q = Ok q' /\ reset_effect expired now q q'.
Proof.
  revert q. induction expired as [|[e p] expired IH]; intros q Hinv; cbn [reset_expired].
  { exists q. split; [done|]. split; try done.
    - intros id. split; [by left|]. intros [?|(? & ? & Hin & _)]; [done|by apply elem_of_nil in Hin].
    - intros x. split; [by left|]. intros [?|(? & ? & Hin & _)]; [done|by apply elem_of_nil in Hin].
    - intros ? ? Hin. by apply elem_of_nil in Hin. }
  cbn [fmap list_fmap snd] in Hinv. destruct (inv_out _ _ Hinv) as [Hnd Hout].
  apply NoDup_cons in Hnd as [Hnp Hnd]. destruct (Hout p) as [t Ht]; [left|].
  rewrite Ht. cbn [get mbind res_bind].
  destruct (reset_step expired.*2 now p t q Hinv Ht)
    as (q1 & -> & Hinv1 & Hev & Hfd & Hca & Hac & Hti & Hho & Hh).
  cbn [mbind res_bind]. destruct (IH q1 Hinv1) as (q' & -> & [R1 R2 R3 R4 R5 R6 R7 R8]).
  exists q'. split; [done|].
  assert (Hother : forall x, x ∈ expired -> heap q1 !! x.2 = heap q !! x.2).
  { intros x Hx. apply Hho. intros Ex. apply Hnp. rewrite <- Ex. by apply list_elem_of_fmap_2. }
  assert (Hkept : forall p' t', kept q1 p' t' <-> kept q p' t')
    by (intros; unfold kept; by rewrite Hca).
  split; [done|congruence|congruence|congruence| | | |].
  - intros id. rewrite R5, Hac. split.
    + intros [[?|[-> ?]]|(x & t' & Hx & Ht' & -> & Hk)]; [by left|right; exists (e, p), t|right; exists x, t'].
      * split_and!; [left|done..].
      * rewrite Hother in Ht' by done. apply Hkept in Hk. split_and!; [by right|done..].
    + intros [?|(x & t' & Hx & Ht' & -> & Hk)]; [by left; left|].
      apply elem_of_cons in Hx as [->|Hx]; [left; right; cbn in *; by simplify_map_eq|].
      right. exists x, t'. rewrite Hother by done. by rewrite Hkept.
  - intros y. rewrite R6, Hti. split.
    + intros [[?|[-> ?]]|(x & t' & Hx & Ht' & Hk & ->)]; [by left|right; exists (e, p), t|right; exists x, t'].
      * split_and!; [left|done..].
      * rewrite Hother in Ht' by done. apply Hkept in Hk. split_and!; [by right|done..].
    + intros [?|(x & t' & Hx & Ht' & Hk & ->)]; [by left; left|].
      apply elem_of_cons in Hx as [->|Hx]; [left; right; cbn in *; by simplify_map_eq|].
      right. exists x, t'. rewrite Hother by done. by rewrite Hkept.
  - intros p' Hp'. apply not_elem_of_cons in Hp' as [? ?]. rewrite R7, Hho; done.
  - intros x t' Hx Ht' Hk. apply elem_of_cons in Hx as [->|Hx].
    + cbn in *. simplify_map_eq. rewrite R7; auto.
    + apply R8; [done| |by apply Hkept]. by rewrite Hother.
Qed.

(** A repeating timer has a positive interval, and its next expiration is a valid
    64-bit time stamp. *)
Definition intervals_ok (now : Timestamp) (q : TimerQueue) : Prop :=
  forall p t, heap q !! p = Some t -> repeat_ t = true ->
    0 <= interval_ t /\ now + interval_ t < 2 ^ 63.

Lemma reset_ok expired now clock q :
  tq_inv expired.*2 q -> 0 < now < 2 ^ 63 -> covered now q ->
  (forall e t, e ∈ expired -> heap q !! e.2 = Some t -> repeat_ t = true ->
     0 <= interval_ t /\ now + interval_ t < 2 ^ 63) ->
  exists q1 a, reset expired now clock q = Ok (with_timerfd a q1) /\
    reset_effect expired now q q1 /\ armed (with_timerfd a q1).
Proof.
  intros Hinv Hnow Hcov Hint. unfold reset.
  destruct (reset_expired_ok expired now q Hinv) as (q1 & -> & Hrst). cbn [mbind res_bind].
  pose proof (rst_inv _ _ _ _ Hrst) as Hinv1.
  pose proof (inv_timers _ _ Hinv1) as Hs. pose proof (inv_entry _ _ Hinv1) as Hent.
  pose proof (rst_timers _ _ _ _ Hrst) as Hti.
  destruct (timers_ q1) as [|[e p] l] eqn:El.
  { cbn [mbind res_bind]. exists q1, (timerfd q1). split_and!; [by destruct q1|done|].
    intros bnd x Hx. cbn in Hx. rewrite El in Hx. by apply elem_of_nil in Hx. }
  destruct (Hent (e, p)) as (t & Ht & He & _); [left|]. cbn in Ht, He. rewrite Ht.
  cbn [get mbind res_bind]. rewrite <- He. destruct (valid e) eqn:Ev.
  - exists q1, (Some (e, clock)). split_and!; [done|done|]. intros bnd x Hx _. cbn in Hx.
    rewrite El in Hx. apply (entries_from_head _ _ _ Hs) in Hx. by eexists.
  - exists q1, (timerfd q1). split_and!; [by destruct q1|done|]. unfold valid in Ev.
    assert (Hold : (e, p) ∈ timers_ q).
    { destruct (proj1 (Hti (e, p))) as [?|(x & t' & Hx & Ht' & [Hr _] & [= E1 E2])]; [left|done|].
      destruct (Hint x t' Hx Ht' Hr). unfold addTime in E1.
      rewrite sint_small in E1 by (unfold in_sint; lia). lia. }
    destruct (Hcov _ Hold) as (a & Ha & Hle); [cbn; lia|].
    intros bnd x Hx _. cbn in Hx. rewrite El in Hx. apply (entries_from_head _ _ _ Hs) in Hx.
    exists a. cbn in *. rewrite (rst_timerfd _ _ _ _ Hrst). split; [done|lia].
Qed.

Lemma filter_split {A} (P : A -> Prop) `{forall x, Decision (P x)} l1 l2 :
  Forall P l1 -> Forall (fun x => ~ P x) l2 -> filter P (l1 ++ l2) = l1.
Proof.
  intros H1 H2. induction H1 as [|x l1 Hx _ IH]; cbn [app].
  - induction H2 as [|y l2 Hy _ IH]; [done|]. by rewrite filter_cons_False.
  - rewrite filter_cons_True by done. by rewrite IH.
Qed.

(** What [handleRead] achieves. *)
Record handled (now : Timestamp) (q q' : TimerQueue) (expired : list Entry)
    (evs : list tq_event) : Prop := {
  hd_expired : expired = filter (fun e => e.1 <= now) (timers_ q);
  hd_events : events q' = events q ++ evs;
  (** each expired timer runs once, in order of expiration *)
  hd_runs : runs evs = (fun e => id_of (heap q) e.2) <$> expired;
  (** it stays exactly when it repeats and nobody cancelled it meanwhile *)
  hd_repeat : forall e t, e ∈ expired -> heap q !! e.2 = Some t ->
    ((e.2, sequence_ t) ∈ activeTimers_ q' <->
       repeat_ t = true /\ Cancelled (e.2, sequence_ t) ∉ evs) /\
    ((e.2, sequence_ t) ∈ activeTimers_ q' -> heap q' !! e.2 = Some (restart now t));
  (** the other timers stay unless they are cancelled *)
  hd_pending : forall e t, e ∈ timers_ q -> now < e.1 -> heap q !! e.2 = Some t ->
    ((e.2, sequence_ t) ∈ activeTimers_ q' <-> Cancelled (e.2, sequence_ t) ∉ evs)
}.

Lemma handled_intro now q expired rest acts q2 evs q3 a :
  tq_inv [] q -> timers_ q = expired ++ rest ->
  Forall (fun e => e.1 <= now) expired -> Forall (fun e => now < e.1) rest ->
  activeTimers_ q ≡ₚ ((fun e => id_of (heap q) e.2) <$> expired) ++ acts ->
  runs evs = (fun e => id_of (heap q) e.2) <$> expired ->
  effect expired.*2 (with_calling true [] (with_sets rest acts (with_timerfd None q))) evs q2 ->
  reset_effect expired now (with_calling false (cancelingTimers_ q2) q2) q3 ->
  handled now q (with_timerfd a q3) expired evs.
Proof.
  intros Hinv Happ He Hr Pact Hruns Heff Hrst.
  pose proof (increasing_NoDup active_lt _ (inv_active _ _ Hinv)) as Hnd.
  rewrite Pact in Hnd. apply NoDup_app in Hnd as (_ & Hdis & _).
  assert (Hid : forall (e : Entry) t, heap q !! e.2 = Some t -> id_of (heap q) e.2 = (e.2, sequence_ t))
    by (intros e t Ht; unfold id_of; by rewrite Ht).
  assert (Hin2 : forall e, e ∈ expired -> e.2 ∈ expired.*2) by (intros; by apply list_elem_of_fmap_2).
  split.
  - rewrite Happ. symmetry. apply filter_split; [done|]. eapply Forall_impl; [exact Hr|]. cbn. lia.
  - cbn. rewrite (rst_events _ _ _ _ Hrst). cbn. by rewrite (eff_events _ _ _ _ Heff).
  - done.
  - intros e t Hin Ht. pose proof (eff_out _ _ _ _ Heff _ (Hin2 e Hin)) as Hho. cbn in Hho.
    assert (Hk : kept (with_calling false (cancelingTimers_ q2) q2) e.2 t <->
              repeat_ t = true /\ Cancelled (e.2, sequence_ t) ∉ evs).
    { unfold kept. cbn. pose proof (eff_canceling _ _ _ _ Heff eq_refl _ (Hin2 e Hin)) as Hcc.
      cbn in Hcc. rewrite (Hid e t Ht) in Hcc. rewrite Hcc. set_solver. }
    assert (Hnot : (e.2, sequence_ t) ∉ activeTimers_ q2).
    { intros Hq2. apply (eff_active _ _ _ _ Heff) in Hq2 as [Hq2 _].
      - cbn in Hq2. apply Hdis in Hq2; [done|]. rewrite <- (Hid e t Ht). apply list_elem_of_fmap. by exists e.
      - cbn. by destruct (inv_heap _ _ Hinv _ _ Ht) as (_ & ? & _). }
    rewrite <- Hk. cbn. rewrite (rst_active _ _ _ _ Hrst). cbn. split.
    + split; [|intros Hkk; right; exists e, t; by rewrite Hho].
      intros [?|(e' & t' & _ & Ht' & [= E1 E2] & Hkk)]; [done|]. rewrite <- E1, Hho in Ht'.
      simplify_map_eq. by rewrite E1.
    + intros [?|(e' & t' & Hin' & Ht' & [= E1 E2] & Hkk)]; [done|]. rewrite E1.
      rewrite <- E1, Hho, Ht in Ht'. injection Ht' as <-.
      apply (rst_heap _ _ _ _ Hrst); [done| |done]. cbn. by rewrite <- E1, Hho.
  - intros e t Hin Hlt Ht. cbn. rewrite (rst_active _ _ _ _ Hrst). cbn.
    assert (Hact : (e.2, sequence_ t) ∈ acts).
    { assert (Ha : (e.2, sequence_ t) ∈ activeTimers_ q).
      { apply (inv_active_elem _ _ Hinv). exists t. split_and!; [done..|].
        destruct (inv_entry _ _ Hinv e Hin) as (t' & ? & E & _). simplify_map_eq.
        by rewrite <- E, <- surjective_pairing. }
      rewrite Pact in Ha. apply elem_of_app in Ha as [Ha|?]; [|done].
      apply list_elem_of_fmap in Ha as (e' & [= E1 _] & Hin').
      rewrite (inv_timers_inj _ _ Hinv e e') in Hlt; [|done|rewrite Happ; set_solver|done].
      rewrite Forall_forall in He. specialize (He e' Hin'). lia. }
    rewrite (eff_active _ _ _ _ Heff) by (cbn; by destruct (inv_heap _ _ Hinv _ _ Ht) as (_ & ? & _)).
    cbn. split; [|tauto].
    intros [[_ ?]|(e' & t' & Hin' & Ht' & [= E1 E2] & Hkk)]; [done|].
    rewrite (inv_timers_inj _ _ Hinv e e') in Hlt; [|done|rewrite Happ; set_solver|done].
    rewrite Forall_forall in He. specialize (He e' Hin'). lia.
Qed.

Section Theorems.
Context (alloc : gmap ptr Timer -> option ptr) (Halloc : alloc_ok alloc).

(** [C26] addTimer and cancel, called in the loop thread between two rounds, keep the
    queue consistent and the timerfd set early enough: a timer that addTimer returned
    is active with the time asked for, and cancel removes exactly the timer it is given
    (nothing at all when that timer is gone, even if its address is in use again). *)
Theorem timer_calls_correct clock cb when interval repeat id q :
  tq_inv [] q -> armed q ->
  outcome bad_alloc (addTimer alloc clock cb when interval repeat q) (fun r =>
    tq_inv [] r.2 /\ armed r.2 /\ r.1 ∉ activeTimers_ q /\ r.1 ∈ activeTimers_ r.2 /\
    (when, r.1.1) ∈ timers_ r.2 /\
    forall x, x ∈ activeTimers_ q -> x ∈ activeTimers_ r.2) /\
  exists q', cancelInLoop id q = Ok q' /\ tq_inv [] q' /\ armed q' /\
    (forall x, x.2 <= s_numCreated_ q -> x ∈ activeTimers_ q' <-> x ∈ activeTimers_ q /\ x <> id).
Proof using Halloc.
  intros Hinv Harm. split.
  - eapply outcome_impl; [by apply (effect_add alloc Halloc [])|]. intros r (Heff & Hact & Hh & Hnew).
    pose proof (eff_inv _ _ _ _ Heff) as Hinv'.
    assert (Hseq : forall x, x ∈ activeTimers_ q -> x.2 <= s_numCreated_ q).
    { intros [p s] (t & Ht & <- & _)%(inv_active_elem _ _ Hinv).
      by destruct (inv_heap _ _ Hinv _ _ Ht) as (_ & ? & _). }
    split_and!; [done|intros bnd; apply (eff_covered _ _ _ _ Heff), Harm| |done| |].
    + intros Hold%Hseq. lia.
    + destruct r as [[p s] q']. apply (inv_active_elem _ _ Hinv') in Hact as (t & Ht & _ & Hin).
      cbn in *. rewrite Ht in Hh. injection Hh as ->. done.
    + intros x Hx. apply (eff_active _ _ _ _ Heff); [by apply Hseq|]. split; [done|set_solver].
  - destruct (effect_cancel [] id q Hinv) as (q' & E & Heff). exists q'.
    split_and!; [done|apply (eff_inv _ _ _ _ Heff)|intros bnd; apply (eff_covered _ _ _ _ Heff), Harm|].
    intros x Hx. rewrite (eff_active _ _ _ _ Heff) by done. set_solver.
Qed.

Context (body : nat -> TimerQueue -> list tq_call).

(** [C5] When the timerfd fires, handleRead runs every timer whose time has come exactly
    once and in order of expiration, whatever the callbacks do: they may add timers and
    cancel any timer, themselves included.  No assertion fails and no deleted timer is
    touched.  An expired timer stays in the queue exactly when it repeats and no
    callback cancelled it, with the next expiration now + interval; the other timers
    stay unless cancelled; and afterwards the timerfd is set for the earliest timer. *)
Theorem handleRead_correct now clock q :
  tq_inv [] q -> 0 < now < 2 ^ 63 -> intervals_ok now q ->
  outcome bad_alloc (handleRead alloc body now clock q) (fun q' =>
    tq_inv [] q' /\ armed q' /\ exists expired evs, handled now q q' expired evs).
Proof using Halloc.
  intros Hinv Hnow Hint. unfold handleRead.
  destruct (getExpired_ok now (with_timerfd None q))
    as (expired & rest & acts & -> & Happ & He & Hr & Pact & Hinv1); [by apply inv_with_timerfd|].
  cbn [mbind res_bind fst snd].
  eapply outcome_bind; [apply (run_expired_effect alloc Halloc body expired.*2)|].
  { apply inv_with_calling; [constructor|done]. }
  { intros e. apply list_elem_of_fmap_2. }
  intros q2 (evs & Hruns & Heff). pose proof (eff_inv _ _ _ _ Heff) as Hinv2.
  destruct (reset_ok expired now clock (with_calling false (cancelingTimers_ q2) q2))
    as (q3 & a & -> & Hrst & Harm).
  - apply inv_with_calling; [apply (inv_canceling _ _ Hinv2)|done].
  - done.
  - apply (eff_covered _ _ _ _ Heff). intros e Hin Hle. cbn in Hin.
    rewrite Forall_forall in Hr. specialize (Hr e Hin). lia.
  - intros e t Hin Ht. cbn in Ht. apply (Hint e.2).
    rewrite <- Ht. symmetry. by apply (eff_out _ _ _ _ Heff), list_elem_of_fmap_2.
  - apply outcome_Ok. split_and!; [by apply inv_with_timerfd, (rst_inv _ _ _ _ Hrst)|done|].
    exists expired, evs. by eapply handled_intro.
Qed.
End Theorems.

(** The duration given to timerfd_settime is a normalized timespec, never zero
    (which would disarm the timer), at least 100 microseconds, and not shorter than the
    time left until the expiration. *)
Theorem howMuchTimeFromNow_correct clock when :
  in_sint 64 (when - clock) ->
  exists sec nsec, howMuchTimeFromNow clock when = (sec, nsec) /\
    0 <= sec /\ 0 <= nsec < 1000000000 /\
    sec * 1000000000 + nsec = 1000 * Z.max 100 (when - clock).
Proof.
  intros Hr. unfold howMuchTimeFromNow. rewrite sint_small by done.
  set (m := if when - clock <? 100 then 100 else when - clock).
  assert (Hm : m = Z.max 100 (when - clock)) by (unfold m; destruct (when - clock <? 100) eqn:?; lia).
  rewrite <- Hm. assert (0 < m) by lia. unfold kMicroSecondsPerSecond.
  rewrite Z.quot_div_nonneg, Z.rem_mod_nonneg by lia.
  eexists _, _. split; [done|].
  pose proof (Z.div_mod m (1000 * 1000)). pose proof (Z.mod_pos_bound m (1000 * 1000)).
  pose proof (Z.div_pos m (1000 * 1000)). lia.
Qed.

Lemma howMuchTimeFromNow_correct_witness :
  in_sint 64 (1500100 - 100) /\ exists sec nsec, howMuchTimeFromNow 100 1500100 = (sec, nsec) /\
    sec * 1000000000 + nsec = 1500000000.
Proof.
  split; [unfold in_sint; lia|].
  destruct (howMuchTimeFromNow_correct 100 1500100) as (s & n & E & _ & _ & H);
    [unfold in_sint; lia|]. exists s, n. split; [exact E|]. lia.
Defined.

(** ** A concrete queue *)

(** Memory is handed out from address 1 upwards. *)
Definition sample_alloc (h : gmap ptr Timer) : option ptr :=
  let p := fresh (dom h) in if Z.pos p <? Z.pos UINTPTR_MAX then Some p else None.

Lemma sample_alloc_ok : alloc_ok sample_alloc.
Proof.
  intros h p. unfold sample_alloc. case_match eqn:E; [|done]. intros [= <-].
  split; [|lia]. apply not_elem_of_dom, is_fresh.
Qed.

(** Callback 1 cancels the timer at address 2, the others do nothing. *)
Definition sample_body (cb : nat) (q : TimerQueue) : list tq_call :=
  match cb with 1%nat => [CallCancel (2%positive, 2)] | _ => [] end.

(** A one-shot timer at 10 and a repeating one at 20. *)
Definition sample_queue : TimerQueue :=
  mkTimerQueue {[ 1%positive := mkTimer 1 10 0 false 1; 2%positive := mkTimer 2 20 50 true 2 ]} 2
    [(10, 1%positive); (20, 2%positive)] [(1%positive, 1); (2%positive, 2)]
    false [] (Some (10, 0)) [].

Lemma sample_queue_inv : tq_inv [] sample_queue.
Proof.
  unfold sample_queue. split; cbn [timers_ activeTimers_ cancelingTimers_ heap s_numCreated_].
  - repeat constructor.
  - repeat constructor.
  - constructor.
  - reflexivity.
  - intros e. rewrite !elem_of_cons, elem_of_nil.
    intros [->|[->|[]]]; eexists; (split; [reflexivity|]); (split; [reflexivity|]); apply not_elem_of_nil.
  - intros p t [[<- <-]|[_ [<- <-]%lookup_singleton_Some]]%lookup_insert_Some; cbn [sequence_ expiration_];
      (split; [done|]); (split; [lia|]); right; rewrite !elem_of_cons; auto.
  - split; [constructor|]. intros p Hp. by apply elem_of_nil in Hp.
Qed.

Lemma sample_queue_intervals : intervals_ok 30 sample_queue.
Proof.
  unfold intervals_ok, sample_queue. cbn [heap]. intros p t [[<- <-]|[_ [<- <-]%lookup_singleton_Some]]%lookup_insert_Some; cbn; lia.
Qed.

Lemma handleRead_correct_witness :
  outcome bad_alloc (handleRead sample_alloc sample_body 30 31 sample_queue) (fun q' =>
    tq_inv [] q' /\ armed q' /\ exists expired evs, handled 30 sample_queue q' expired evs).
Proof.
  apply (handleRead_correct sample_alloc sample_alloc_ok sample_body 30 31 sample_queue);
    [apply sample_queue_inv|lia|apply sample_queue_intervals].
Defined.

(** The repeating timer, cancelled by the other one's callback, still runs in this
    round but does not come back. *)
Example sample_round :
  (fun q => (runs (events q), timers_ q)) <$>
    (match handleRead sample_alloc sample_body 30 31 sample_queue with Ok q => Some q | _ => None end)
  = Some ([(1%positive, 1); (2%positive, 2)], []).
Proof. vm_compute. reflexivity. Qed.

Lemma timer_calls_correct_witness :
  exists q', cancelInLoop (1%positive, 1) sample_queue = Ok q' /\ armed q'.
Proof.
  destruct (timer_calls_correct sample_alloc sample_alloc_ok 5 3 15 0 false (1%positive, 1) sample_queue)
    as [_ (q' & E & _ & Ha & _)]; [apply sample_queue_inv| |by exists q'].
  intros bnd e. cbn [timers_ sample_queue timerfd]. rewrite !elem_of_cons, elem_of_nil.
  intros [->|[->|[]]] _; eexists; (split; [reflexivity|]); cbn; lia.
Defined.
