(* ===== verification/EventLoop.v ===== *)
(** * The event loop and its task queue (src/muduo/net/EventLoop.h, EventLoop.cc)

    The loop thread runs [EventLoop::loop]; any number of other threads call
    [queueInLoop], [runInLoop] and [quit].  The model is a step relation whose atomic
    steps are the ones the code has: a critical section of [mutex_], a write or a read
    of the wakeup descriptor, an access to the atomic [quit_].  User code that runs in
    the loop thread is a list of calls; [body] gives the calls a functor makes. *)

From S2P Require Import Prelude.

Abbreviation functor := nat (only parsing).
Abbreviation tid := nat (only parsing).

(** Calls on the loop that user code makes in the loop thread. *)
Inductive call :=
| CQueue (f : functor)
| CRun (f : functor)
| CQuit.

(** Steps of the loop thread while it runs user code: a call, or the second half of
    [queueInLoop], after the critical section. *)
Inductive act := Do (c : call) | WakeIf.

(** Active channels: the wakeup channel, or one of the user's. *)
Inductive handler := HWakeup | HUser (cs : list call).

(** Where the loop thread is in [EventLoop::loop]. *)
Inductive loop_pc :=
| PTop                                             (* while (!quit_) *)
| PPoll                                            (* blocked in poller_->poll *)
| PHandle (current : list act) (rest : list handler)  (* the activeChannels_ loop *)
| PSwap                                            (* doPendingFunctors, before the lock *)
| PRun (current : list act) (rest : list functor)  (* the functors loop *)
| PStop.                                           (* loop() has returned *)

(** Another thread is outside the loop's methods, or about to call [wakeup]. *)
Inductive other := OIdle | OWake.

#[global] Instance other_eq_dec : EqDecision other.
Proof. solve_decision. Defined.

Record EventLoop := mkLoop {
  looping_ : bool;
  quit_ : bool;
  eventHandling_ : bool;
  callingPendingFunctors_ : bool;
  iteration_ : Z;
  pendingFunctors_ : list functor;
  (** counter of the eventfd behind [wakeupFd_] *)
  wakeupFd_ : Z;
  pc : loop_pc;
  others : gmap tid other;
  (** history: functors queued, and queued functors that were started *)
  queued : list functor;
  executed : list functor
}.

Definition with_pc (p : loop_pc) (s : EventLoop) : EventLoop :=
  mkLoop (looping_ s) (quit_ s) (eventHandling_ s) (callingPendingFunctors_ s) (iteration_ s)
    (pendingFunctors_ s) (wakeupFd_ s) p (others s) (queued s) (executed s).
Definition with_flags (handling calling : bool) (s : EventLoop) : EventLoop :=
  mkLoop (looping_ s) (quit_ s) handling calling (iteration_ s)
    (pendingFunctors_ s) (wakeupFd_ s) (pc s) (others s) (queued s) (executed s).
Definition with_other (t : tid) (o : other) (s : EventLoop) : EventLoop :=
  mkLoop (looping_ s) (quit_ s) (eventHandling_ s) (callingPendingFunctors_ s) (iteration_ s)
    (pendingFunctors_ s) (wakeupFd_ s) (pc s) (<[t := o]> (others s)) (queued s) (executed s).
Definition with_quit (q : bool) (s : EventLoop) : EventLoop :=
  mkLoop (looping_ s) q (eventHandling_ s) (callingPendingFunctors_ s) (iteration_ s)
    (pendingFunctors_ s) (wakeupFd_ s) (pc s) (others s) (queued s) (executed s).
Definition with_counter (n : Z) (s : EventLoop) : EventLoop :=
  mkLoop (looping_ s) (quit_ s) (eventHandling_ s) (callingPendingFunctors_ s) (iteration_ s)
    (pendingFunctors_ s) n (pc s) (others s) (queued s) (executed s).
Definition with_executed (l : list functor) (s : EventLoop) : EventLoop :=
  mkLoop (looping_ s) (quit_ s) (eventHandling_ s) (callingPendingFunctors_ s) (iteration_ s)
    (pendingFunctors_ s) (wakeupFd_ s) (pc s) (others s) (queued s) l.

(** Largest counter an eventfd holds; a write that would exceed it fails. *)
Definition eventfd_max : Z := 2 ^ 64 - 2.

(** [EventLoop::wakeup]: write(2) of 1 to the eventfd; a failure is only logged. *)
Definition wakeup (s : EventLoop) : EventLoop :=
  if wakeupFd_ s + 1 <=? eventfd_max then with_counter (wakeupFd_ s + 1) s else s.

(** [EventLoop::handleRead]: read(2) resets the counter; a failure is only logged. *)
Definition handleRead (s : EventLoop) : EventLoop := with_counter 0 s.

(** The critical section of [queueInLoop]. *)
Definition push (f : functor) (s : EventLoop) : EventLoop :=
  mkLoop (looping_ s) (quit_ s) (eventHandling_ s) (callingPendingFunctors_ s) (iteration_ s)
    (pendingFunctors_ s ++ [f]) (wakeupFd_ s) (pc s) (others s) (queued s ++ [f]) (executed s).

(** The rest of [queueInLoop]: [if (!isInLoopThread() || callingPendingFunctors_) wakeup()]. *)
Definition wake_if (inLoopThread : bool) (s : EventLoop) : EventLoop :=
  if negb inLoopThread || callingPendingFunctors_ s then wakeup s else s.

(** [EventLoop::queueInLoop] without interference. *)
Definition queueInLoop (inLoopThread : bool) (f : functor) (s : EventLoop) : EventLoop :=
  wake_if inLoopThread (push f s).

(** [EventLoop::quit] without interference. *)
Definition quit (inLoopThread : bool) (s : EventLoop) : EventLoop :=
  let s1 := with_quit true s in if inLoopThread then s1 else wakeup s1.

Definition queueSize (s : EventLoop) : Z := zlen (pendingFunctors_ s).

(** The critical section of [doPendingFunctors]: [functors.swap(pendingFunctors_)]. *)
Definition swap_pending (s : EventLoop) : list functor * EventLoop :=
  (pendingFunctors_ s,
   mkLoop (looping_ s) (quit_ s) (eventHandling_ s) (callingPendingFunctors_ s) (iteration_ s)
     [] (wakeupFd_ s) (pc s) (others s) (queued s) (executed s)).

(** The top of [EventLoop::loop]: [looping_ = true; quit_ = false;]. *)
Definition enter_loop (s : EventLoop) : res EventLoop :=
  _ ← check (negb (looping_ s));
  Ok (mkLoop true false (eventHandling_ s) (callingPendingFunctors_ s) (iteration_ s)
        (pendingFunctors_ s) (wakeupFd_ s) PTop (others s) (queued s) (executed s)).

(** A constructed loop with [n] other threads around. *)
Definition newEventLoop (n : nat) : EventLoop :=
  mkLoop false false false false 0 [] 0 PStop
    (list_to_map ((fun t => (t, OIdle)) <$> seq 0 n)) [] [].

Section Steps.
Context (body : functor -> list call).

(** One step of user code in the loop thread: the new state and what is left to do.
    [runInLoop] calls the functor at once. *)
Definition do_act (a : act) (acts : list act) (s : EventLoop) : EventLoop * list act :=
  match a with
  | Do (CQueue f) => (push f s, WakeIf :: acts)
  | Do (CRun f) => (s, (Do <$> body f) ++ acts)
  | Do CQuit => (with_quit true s, acts)
  | WakeIf => (wake_if true s, acts)
  end.

Inductive label := LLoop | LOther (t : tid) | LTimeout.

Inductive step : label -> EventLoop -> EventLoop -> Prop :=
| StepQuit s : pc s = PTop -> quit_ s = true ->
    step LLoop s (mkLoop false (quit_ s) (eventHandling_ s) (callingPendingFunctors_ s)
      (iteration_ s) (pendingFunctors_ s) (wakeupFd_ s) PStop (others s) (queued s) (executed s))
| StepPoll s : pc s = PTop -> quit_ s = false -> step LLoop s (with_pc PPoll s)
  (* poll returns with some ready channels; the wakeup channel is ready when the
     counter is positive *)
| StepReady s hs : pc s = PPoll -> hs <> [] -> (HWakeup ∈ hs -> 0 < wakeupFd_ s) ->
    step LLoop s (mkLoop (looping_ s) (quit_ s) true (callingPendingFunctors_ s)
      (iteration_ s + 1) (pendingFunctors_ s) (wakeupFd_ s) (PHandle [] hs) (others s)
      (queued s) (executed s))
| StepTimeout s : pc s = PPoll ->
    step LTimeout s (mkLoop (looping_ s) (quit_ s) true (callingPendingFunctors_ s)
      (iteration_ s + 1) (pendingFunctors_ s) (wakeupFd_ s) (PHandle [] []) (others s)
      (queued s) (executed s))
| StepWakeup s rest : pc s = PHandle [] (HWakeup :: rest) ->
    step LLoop s (with_pc (PHandle [] rest) (handleRead s))
| StepUser s cs rest : pc s = PHandle [] (HUser cs :: rest) ->
    step LLoop s (with_pc (PHandle (Do <$> cs) rest) s)
| StepHandle s a acts rest s' acts' : pc s = PHandle (a :: acts) rest ->
    do_act a acts s = (s', acts') -> step LLoop s (with_pc (PHandle acts' rest) s')
| StepHandled s : pc s = PHandle [] [] ->
    step LLoop s (with_pc PSwap (with_flags false true s))
| StepSwap s functors s' : pc s = PSwap -> swap_pending s = (functors, s') ->
    step LLoop s (with_pc (PRun [] functors) s')
| StepFunctor s f rest : pc s = PRun [] (f :: rest) ->
    step LLoop s (with_pc (PRun (Do <$> body f) rest) (with_executed (executed s ++ [f]) s))
| StepRun s a acts rest s' acts' : pc s = PRun (a :: acts) rest ->
    do_act a acts s = (s', acts') -> step LLoop s (with_pc (PRun acts' rest) s')
| StepDone s : pc s = PRun [] [] ->
    step LLoop s (with_pc PTop (with_flags (eventHandling_ s) false s))
  (* other threads: queueInLoop (or runInLoop, which forwards to it) and quit *)
| StepQueue s t f : others s !! t = Some OIdle ->
    step (LOther t) s (with_other t OWake (push f s))
| StepOtherQuit s t : others s !! t = Some OIdle ->
    step (LOther t) s (with_other t OWake (with_quit true s))
| StepWake s t : others s !! t = Some OWake ->
    step (LOther t) s (with_other t OIdle (wakeup s)).

Inductive reachable (s0 : EventLoop) : EventLoop -> Prop :=
| ReachInit : reachable s0 s0
| ReachStep l s s' : reachable s0 s -> step l s s' -> reachable s0 s'.

(** ** The invariant *)

(** The functors of the current batch that were not started. *)
Definition remaining (p : loop_pc) : list functor :=
  match p with PRun _ rest => rest | _ => [] end.

(** A wakeup is recorded in the counter, or another thread is about to write it. *)
Definition woken (s : EventLoop) : Prop :=
  0 < wakeupFd_ s \/ exists t, others s !! t = Some OWake.

Definition wake_ok (s : EventLoop) : Prop :=
  match pc s with
  | PTop => pendingFunctors_ s <> [] -> woken s
  | PPoll => pendingFunctors_ s <> [] \/ quit_ s = true -> woken s
  | PRun acts _ => pendingFunctors_ s <> [] -> woken s \/ exists acts', acts = WakeIf :: acts'
  | _ => True
  end.

Definition flags_ok (s : EventLoop) : Prop :=
  callingPendingFunctors_ s = match pc s with PSwap | PRun _ _ => true | _ => false end /\
  eventHandling_ s = match pc s with PHandle _ _ => true | _ => false end /\
  looping_ s = match pc s with PStop => false | _ => true end.

Definition loop_inv (s : EventLoop) : Prop :=
  0 <= wakeupFd_ s /\ flags_ok s /\ wake_ok s /\
  queued s = executed s ++ remaining (pc s) ++ pendingFunctors_ s.

Lemma wakeup_woken s : 0 <= wakeupFd_ s -> 0 < wakeupFd_ (wakeup s).
Proof. intros. unfold wakeup, eventfd_max. case_match eqn:E; cbn; lia. Qed.

Lemma wakeup_fields s :
  pc (wakeup s) = pc s /\ quit_ (wakeup s) = quit_ s /\ pendingFunctors_ (wakeup s) = pendingFunctors_ s /\
  others (wakeup s) = others s /\ queued (wakeup s) = queued s /\ executed (wakeup s) = executed s /\
  callingPendingFunctors_ (wakeup s) = callingPendingFunctors_ s /\
  eventHandling_ (wakeup s) = eventHandling_ s /\ looping_ (wakeup s) = looping_ s /\
  (0 <= wakeupFd_ s -> 0 <= wakeupFd_ (wakeup s)).
Proof. unfold wakeup. case_match eqn:E; cbn; split_and!; try done. lia. Qed.

Lemma handle_act_inv s a acts rest s' acts' :
  pc s = PHandle (a :: acts) rest -> loop_inv s -> do_act a acts s = (s', acts') ->
  loop_inv (with_pc (PHandle acts' rest) s').
Proof.
  unfold loop_inv, flags_ok, wake_ok. intros Hpc (Hc & (Hf1 & Hf2 & Hf3) & _ & Hq). rewrite Hpc in *.
  destruct a as [[f|f|]|]; cbn [do_act]; [..|unfold wake_if; rewrite Hf1]; intros [= <- <-];
    cbn in *; split_and!; try done.
  by rewrite Hq, <- (assoc_L app).
Qed.

Lemma run_act_inv s a acts rest s' acts' :
  pc s = PRun (a :: acts) rest -> loop_inv s -> do_act a acts s = (s', acts') ->
  loop_inv (with_pc (PRun acts' rest) s').
Proof.
  unfold loop_inv, flags_ok, wake_ok. intros Hpc (Hc & (Hf1 & Hf2 & Hf3) & Hw & Hq). rewrite Hpc in *.
  destruct a as [[f|f|]|]; cbn [do_act].
  - intros [= <- <-]. cbn in *. split_and!; try done; [eauto|].
    by rewrite Hq, <- !(assoc_L app).
  - intros [= <- <-]. cbn in *. split_and!; try done. intros Hp. left.
    by destruct (Hw Hp) as [?|[? ?]].
  - intros [= <- <-]. cbn in *. split_and!; try done. intros Hp. left.
    by destruct (Hw Hp) as [?|[? ?]].
  - unfold wake_if. rewrite Hf1. cbn [negb orb]. intros [= <- <-].
    pose proof (wakeup_woken s Hc).
    pose proof (wakeup_fields s) as (E1 & E2 & E3 & E4 & E5 & E6 & E7 & E8 & E9 & E10).
    cbn. rewrite E3, E5, E6, E7, E8, E9. split_and!; try done; [auto|]. left. by left.
Qed.

Lemma step_inv l s s' : loop_inv s -> step l s s' -> loop_inv s'.
Proof.
  intros Hinv Hstep. pose proof Hinv as (Hc & (Hf1 & Hf2 & Hf3) & Hw & Hq).
  destruct Hstep as [s Hpc Hquit|s Hpc Hquit|s hs Hpc Hne Hhs|s Hpc|s rest Hpc|s cs rest Hpc
    |s a acts rest s' acts' Hpc Hdo|s Hpc|s functors s' Hpc Hswap|s f rest Hpc
    |s a acts rest s' acts' Hpc Hdo|s Hpc|s t f Ht|s t Ht|s t Ht];
    try (by eapply handle_act_inv); try (by eapply run_act_inv);
    unfold loop_inv, flags_ok, wake_ok in *; try rewrite Hpc in *; cbn in *.
  - by split_and!.
  - split_and!; try done. intros [?|?]; [auto|congruence].
  - by split_and!.
  - by split_and!.
  - by split_and!.
  - by split_and!.
  - by split_and!.
  - injection Hswap as <- <-. cbn. split_and!; try done. by rewrite app_nil_r.
  - split_and!; try done.
    + intros Hp. left. by destruct (Hw Hp) as [?|[? ?]].
    + by rewrite Hq, <- (assoc_L app).
  - split_and!; try done. intros Hp. by destruct (Hw Hp) as [?|[? ?]].
  - split_and!; try done.
    + assert (woken (with_other t OWake (push f s))) by (right; eexists; apply lookup_insert_eq).
      destruct (pc s); auto.
    + by rewrite Hq, <- !(assoc_L app).
  - split_and!; try done.
    assert (woken (with_other t OWake (with_quit true s))) by (right; eexists; apply lookup_insert_eq).
    destruct (pc s); auto.
  - pose proof (wakeup_woken s Hc).
    pose proof (wakeup_fields s) as (E1 & E2 & E3 & E4 & E5 & E6 & E7 & E8 & E9 & E10).
    rewrite E1, E3, E5, E6, E7, E8, E9. split_and!; try done; [auto|].
    assert (woken (with_other t OIdle (wakeup s))) by (by left).
    destruct (pc s); auto.
Qed.

Lemma reachable_inv n s0 s :
  enter_loop (newEventLoop n) = Ok s0 -> reachable s0 s -> loop_inv s.
Proof.
  cbn. intros [= <-]. induction 1; [|by eapply step_inv].
  unfold loop_inv, flags_ok, wake_ok. cbn. by split_and!.
Qed.

(** [C4] No wakeup is lost: whenever the loop thread is blocked in poll while a functor
    is pending or quit() was called, the thread responsible is about to write the
    eventfd, or the eventfd is readable and poll can return at once with the wakeup
    channel.  So neither a functor nor quit() ever has to wait for the poll timeout. *)
Theorem no_lost_wakeup n s0 s :
  enter_loop (newEventLoop n) = Ok s0 -> reachable s0 s ->
  pc s = PPoll -> pendingFunctors_ s <> [] \/ quit_ s = true ->
  (exists t, others s !! t = Some OWake /\ step (LOther t) s (with_other t OIdle (wakeup s))) \/
  exists s', step LLoop s s' /\ pc s' = PHandle [] [HWakeup].
Proof.
  intros H0 Hr Hpc Hne. destruct (reachable_inv _ _ _ H0 Hr) as (_ & _ & Hw & _).
  unfold wake_ok in Hw. rewrite Hpc in Hw. destruct (Hw Hne) as [Hc|[t Ht]].
  - right. eexists. split; [by apply (StepReady s [HWakeup])|done].
  - left. exists t. split; [done|]. by apply StepWake.
Qed.

(** [C28] Functors queued from any threads run exactly once, in the order they were
    queued: at every moment the functors started so far, then the rest of the current
    batch, then the pending ones, are exactly the functors queued, in order.  Functors
    queued while a batch runs wait for the next batch. *)
Theorem functors_fifo n s0 s :
  enter_loop (newEventLoop n) = Ok s0 -> reachable s0 s ->
  queued s = executed s ++ remaining (pc s) ++ pendingFunctors_ s.
Proof. intros H0 Hr. by destruct (reachable_inv _ _ _ H0 Hr) as (_ & _ & _ & ?). Qed.

(** ** Running a batch to its end *)

(** The loop thread's own steps, without interference. *)
Inductive own_steps : EventLoop -> EventLoop -> Prop :=
| OwnDone s : own_steps s s
| OwnStep s s1 s2 : step LLoop s s1 -> own_steps s1 s2 -> own_steps s s2.

Lemma own_steps_trans s1 s2 s3 : own_steps s1 s2 -> own_steps s2 s3 -> own_steps s1 s3.
Proof. induction 1; [done|]. intros. econstructor; eauto. Qed.

(** runInLoop nests to a finite depth: every functor it calls directly has a
    smaller rank. *)
Definition ranked (rank : functor -> nat) : Prop :=
  forall f g, CRun g ∈ body f -> (rank g < rank f)%nat.

Section Batch.
Context (rank : functor -> nat) (Hrank : ranked rank).

(** The functors the calls [cs] queue, in order, nested runInLoop included. *)
Lemma calls_finish k cs acts rest s :
  (forall g, CRun g ∈ cs -> (rank g < k)%nat) ->
  pc s = PRun ((Do <$> cs) ++ acts) rest ->
  exists s', own_steps s s' /\ pc s' = PRun acts rest /\ executed s' = executed s /\
    exists new, pendingFunctors_ s' = pendingFunctors_ s ++ new /\ queued s' = queued s ++ new.
Proof using Hrank.
  revert cs acts s. induction (lt_wf k) as [k _ IHk]. intros cs.
  induction cs as [|c cs IHcs]; intros acts s Hk Hpc.
  { exists s. split; [constructor|]. split_and!; [done|done|]. exists []. by rewrite !app_nil_r. }
  assert (Hk' : forall g, CRun g ∈ cs -> (rank g < k)%nat) by (intros g Hg; apply Hk; by right).
  cbn [fmap list_fmap app] in Hpc. destruct c as [f|f|].
  - (* queueInLoop *)
    set (s1 := with_pc (PRun (WakeIf :: (Do <$> cs) ++ acts) rest) (push f s)).
    set (s2 := with_pc (PRun ((Do <$> cs) ++ acts) rest) (wake_if true s1)).
    destruct (IHcs acts s2 Hk' eq_refl) as (s' & Hs & Hp & He & new & Hn & Hq).
    assert (Ew : executed (wake_if true s1) = executed s /\
                 pendingFunctors_ (wake_if true s1) = pendingFunctors_ s ++ [f] /\
                 queued (wake_if true s1) = queued s ++ [f]).
    { unfold wake_if, wakeup. repeat case_match; done. }
    destruct Ew as (Ew1 & Ew2 & Ew3). exists s'. split_and!; [|done|by rewrite He|].
    + eapply OwnStep; [by eapply StepRun|]. eapply OwnStep; [by eapply (StepRun s1)|]. exact Hs.
    + exists (f :: new). rewrite Hn, Hq. cbn. rewrite Ew2, Ew3. by rewrite <- !(assoc_L app).
  - (* runInLoop *)
    set (s1 := with_pc (PRun ((Do <$> body f) ++ (Do <$> cs) ++ acts) rest) s).
    destruct (IHk (rank f) (Hk f ltac:(left)) (body f) ((Do <$> cs) ++ acts) s1)
      as (s2 & Hs2 & Hp2 & He2 & new2 & Hn2 & Hq2); [intros g; apply Hrank|done|].
    destruct (IHcs acts s2 Hk' Hp2) as (s' & Hs & Hp & He & new & Hn & Hq).
    exists s'. split_and!; [|done|by rewrite He, He2|].
    + eapply OwnStep; [by eapply StepRun|]. by eapply own_steps_trans.
    + exists (new2 ++ new). rewrite Hn, Hn2, Hq, Hq2. cbn. by rewrite <- !(assoc_L app).
  - (* quit *)
    set (s1 := with_pc (PRun ((Do <$> cs) ++ acts) rest) (with_quit true s)).
    destruct (IHcs acts s1 Hk' eq_refl) as (s' & Hs & Hp & He & new & Hn & Hq).
    exists s'. split_and!; [|done|done|by exists new].
    eapply OwnStep; [by eapply StepRun|done].
Qed.

Lemma batch_finishes fs s :
  pc s = PRun [] fs ->
  exists s', own_steps s s' /\ pc s' = PTop /\ executed s' = executed s ++ fs /\
    exists new, pendingFunctors_ s' = pendingFunctors_ s ++ new /\ queued s' = queued s ++ new.
Proof using Hrank.
  revert s. induction fs as [|f fs IH]; intros s Hpc.
  - eexists. split; [eapply OwnStep; [by apply StepDone|constructor]|]. cbn.
    split_and!; [done|by rewrite app_nil_r|]. exists []. by rewrite !app_nil_r.
  - set (s1 := with_pc (PRun (Do <$> body f) fs) (with_executed (executed s ++ [f]) s)).
    destruct (calls_finish (rank f) (body f) [] fs s1) as (s2 & Hs2 & Hp2 & He2 & new2 & Hn2 & Hq2);
      [intros g; apply Hrank|cbn; by rewrite app_nil_r|].
    destruct (IH s2 Hp2) as (s' & Hs & Hp & He & new & Hn & Hq).
    exists s'. split_and!; [|done| |].
    + eapply OwnStep; [by apply StepFunctor|]. by eapply own_steps_trans.
    + rewrite He, He2. cbn. by rewrite <- (assoc_L app).
    + exists (new2 ++ new). rewrite Hn, Hn2, Hq, Hq2. cbn. by rewrite <- !(assoc_L app).
Qed.

(** doPendingFunctors terminates and runs everything that was pending: when
    runInLoop nests to finite depth, the loop thread's own steps lead from the call of
    doPendingFunctors to the next test of quit_, with all functors pending at the swap
    started in order, and exactly the functors queued meanwhile left pending. *)
Theorem doPendingFunctors_terminates s :
  pc s = PSwap ->
  exists s', own_steps s s' /\ pc s' = PTop /\
    executed s' = executed s ++ pendingFunctors_ s /\ queued s' = queued s ++ pendingFunctors_ s'.
Proof using Hrank.
  intros Hpc. destruct (swap_pending s) as [fs s1] eqn:Esw.
  destruct (batch_finishes fs (with_pc (PRun [] fs) s1) eq_refl) as (s' & Hs & Hp & He & new & Hn & Hq).
  injection Esw as <- <-. exists s'. split_and!; [|done|by rewrite He|by rewrite Hq, Hn].
  eapply OwnStep; [by eapply StepSwap|done].
Qed.
End Batch.
End Steps.

(** ** A concrete run *)

(** Functor 1 runs functor 2 at once and queues functor 3. *)
Definition sample_tasks (f : functor) : list call :=
  match f with 1%nat => [CRun 2%nat; CQueue 3%nat] | _ => [] end.

Definition sample_start : EventLoop :=
  mkLoop true false false false 0 [] 0 PTop {[0%nat := OIdle]} [] [].

Lemma sample_start_eq : enter_loop (newEventLoop 1) = Ok sample_start.
Proof. reflexivity. Qed.

(** The loop blocks in poll, then another thread queues functor 1. *)
Definition sample_blocked : EventLoop :=
  with_other 0%nat OWake (push 1%nat (with_pc PPoll sample_start)).

Lemma sample_reachable : reachable sample_tasks sample_start sample_blocked.
Proof.
  eapply (ReachStep _ _ (LOther 0)); [|by apply StepQueue].
  eapply (ReachStep _ _ LLoop); [constructor|]. by apply StepPoll.
Qed.

Lemma no_lost_wakeup_witness :
  (exists t, others sample_blocked !! t = Some OWake /\
     step sample_tasks (LOther t) sample_blocked (with_other t OIdle (wakeup sample_blocked))) \/
  exists s', step sample_tasks LLoop sample_blocked s' /\ pc s' = PHandle [] [HWakeup].
Proof.
  apply (no_lost_wakeup sample_tasks 1 sample_start sample_blocked);
    [reflexivity|apply sample_reachable|reflexivity|left; discriminate].
Defined.

Lemma functors_fifo_witness : queued sample_blocked = [] ++ [] ++ [1%nat].
Proof.
  exact (functors_fifo sample_tasks 1 sample_start sample_blocked sample_start_eq sample_reachable).
Defined.

Lemma doPendingFunctors_terminates_witness :
  exists s', own_steps sample_tasks (with_pc PSwap sample_blocked) s' /\ executed s' = [1%nat].
Proof.
  destruct (doPendingFunctors_terminates sample_tasks (fun f => match f with 1%nat => 1 | _ => 0 end)%nat)
    with (s := with_pc PSwap sample_blocked) as (s' & Hs & _ & He & _); [|reflexivity|by exists s'].
  intros f g. destruct f as [|[|f]]; cbn; rewrite ?elem_of_cons, ?elem_of_nil; try tauto.
  intros [[= ->]|[?|?]]; [lia|done|done].
Defined.
