(* ===== verification/TcpConnection.v ===== *)
(** * TCP connections (src/muduo/net/TcpConnection.h, TcpConnection.cc)

    The methods run in the connection's loop thread; what other threads may call queues a
    functor for the loop.  The test of [state_] such a call makes, its store to [state_] and the
    queueing are one step here; CrossThread.v takes them apart.
    The channel's registration with a poller is the subject of Channel.v; here its
    [Channel] record changes as the channel methods change it.

    Three things come from outside and are parameters: [kernel], the answers of
    write(2); [network], the answers of readv(2); [user], the calls the user's
    callbacks make on the connection.  The record carries three ghost fields: [wire],
    the bytes write(2) accepted, [accepted], the bytes sendInLoop took over, and
    [trace], the callbacks invoked. *)

From S2P Require Import Prelude Buffer Channel.

Inductive StateE := kDisconnected | kConnecting | kConnected | kDisconnecting.

#[global] Instance StateE_eq_dec : EqDecision StateE.
Proof. solve_decision. Defined.

(** Functors queued in the loop for this connection. *)
Inductive task :=
| TSendInLoop (data : list char)
| TShutdownInLoop
| TForceCloseInLoop
| TWriteComplete
| THighWaterMark (n : Z)
| TStartReadInLoop
| TStopReadInLoop
| TConnectDestroyed.

#[global] Instance task_eq_dec : EqDecision task.
Proof. solve_decision. Defined.

(** Callbacks invoked: connectionCallback_ when up and down, messageCallback_,
    closeCallback_, writeCompleteCallback_, highWaterMarkCallback_. *)
Inductive event := EvUp | EvDown | EvMessage | EvClosed | EvWriteComplete | EvHighWaterMark (n : Z).

#[global] Instance event_eq_dec : EqDecision event.
Proof. solve_decision. Defined.

(** What write(2) answers: a count, or an errno of the classes the code tells apart. *)
Inductive written := Wrote (n : Z) | WouldBlock | PeerGone | OtherError.

Record TcpConnection := mkConn {
  state_ : StateE;
  reading_ : bool;
  channel_ : Channel;
  inputBuffer_ : Buffer;
  outputBuffer_ : Buffer;
  highWaterMark_ : Z;
  writeCompleteCallback_ : bool;
  highWaterMarkCallback_ : bool;
  (** functors in the loop's queue, and pending forceCloseWithDelay timers *)
  functors : list task;
  delayed : nat;
  (** shutdown(SHUT_WR) was called; number of write and readv calls so far *)
  fin : bool;
  nwrites : nat;
  nreads : nat;
  destroyed : bool;
  wire : list char;
  accepted : list char;
  trace : list event
}.

Definition setState (s : StateE) (c : TcpConnection) : TcpConnection :=
  mkConn s (reading_ c) (channel_ c) (inputBuffer_ c) (outputBuffer_ c) (highWaterMark_ c)
    (writeCompleteCallback_ c) (highWaterMarkCallback_ c) (functors c) (delayed c) (fin c)
    (nwrites c) (nreads c) (destroyed c) (wire c) (accepted c) (trace c).
Definition set_reading (b : bool) (c : TcpConnection) : TcpConnection :=
  mkConn (state_ c) b (channel_ c) (inputBuffer_ c) (outputBuffer_ c) (highWaterMark_ c)
    (writeCompleteCallback_ c) (highWaterMarkCallback_ c) (functors c) (delayed c) (fin c)
    (nwrites c) (nreads c) (destroyed c) (wire c) (accepted c) (trace c).
Definition set_channel (ch : Channel) (c : TcpConnection) : TcpConnection :=
  mkConn (state_ c) (reading_ c) ch (inputBuffer_ c) (outputBuffer_ c) (highWaterMark_ c)
    (writeCompleteCallback_ c) (highWaterMarkCallback_ c) (functors c) (delayed c) (fin c)
    (nwrites c) (nreads c) (destroyed c) (wire c) (accepted c) (trace c).
Definition set_input (b : Buffer) (c : TcpConnection) : TcpConnection :=
  mkConn (state_ c) (reading_ c) (channel_ c) b (outputBuffer_ c) (highWaterMark_ c)
    (writeCompleteCallback_ c) (highWaterMarkCallback_ c) (functors c) (delayed c) (fin c)
    (nwrites c) (nreads c) (destroyed c) (wire c) (accepted c) (trace c).
Definition set_output (b : Buffer) (c : TcpConnection) : TcpConnection :=
  mkConn (state_ c) (reading_ c) (channel_ c) (inputBuffer_ c) b (highWaterMark_ c)
    (writeCompleteCallback_ c) (highWaterMarkCallback_ c) (functors c) (delayed c) (fin c)
    (nwrites c) (nreads c) (destroyed c) (wire c) (accepted c) (trace c).
(** [loop_->queueInLoop] *)
Definition queueInLoop (t : task) (c : TcpConnection) : TcpConnection :=
  mkConn (state_ c) (reading_ c) (channel_ c) (inputBuffer_ c) (outputBuffer_ c) (highWaterMark_ c)
    (writeCompleteCallback_ c) (highWaterMarkCallback_ c) (functors c ++ [t]) (delayed c) (fin c)
    (nwrites c) (nreads c) (destroyed c) (wire c) (accepted c) (trace c).
Definition set_functors (l : list task) (c : TcpConnection) : TcpConnection :=
  mkConn (state_ c) (reading_ c) (channel_ c) (inputBuffer_ c) (outputBuffer_ c) (highWaterMark_ c)
    (writeCompleteCallback_ c) (highWaterMarkCallback_ c) l (delayed c) (fin c)
    (nwrites c) (nreads c) (destroyed c) (wire c) (accepted c) (trace c).
Definition set_delayed (n : nat) (c : TcpConnection) : TcpConnection :=
  mkConn (state_ c) (reading_ c) (channel_ c) (inputBuffer_ c) (outputBuffer_ c) (highWaterMark_ c)
    (writeCompleteCallback_ c) (highWaterMarkCallback_ c) (functors c) n (fin c)
    (nwrites c) (nreads c) (destroyed c) (wire c) (accepted c) (trace c).
(** [socket_->shutdownWrite()] *)
Definition shutdownWrite (c : TcpConnection) : TcpConnection :=
  mkConn (state_ c) (reading_ c) (channel_ c) (inputBuffer_ c) (outputBuffer_ c) (highWaterMark_ c)
    (writeCompleteCallback_ c) (highWaterMarkCallback_ c) (functors c) (delayed c) true
    (nwrites c) (nreads c) (destroyed c) (wire c) (accepted c) (trace c).
(** A write(2) call that put [d] on the wire. *)
Definition count_write (d : list char) (c : TcpConnection) : TcpConnection :=
  mkConn (state_ c) (reading_ c) (channel_ c) (inputBuffer_ c) (outputBuffer_ c) (highWaterMark_ c)
    (writeCompleteCallback_ c) (highWaterMarkCallback_ c) (functors c) (delayed c) (fin c)
    (S (nwrites c)) (nreads c) (destroyed c) (wire c ++ d) (accepted c) (trace c).
Definition count_read (c : TcpConnection) : TcpConnection :=
  mkConn (state_ c) (reading_ c) (channel_ c) (inputBuffer_ c) (outputBuffer_ c) (highWaterMark_ c)
    (writeCompleteCallback_ c) (highWaterMarkCallback_ c) (functors c) (delayed c) (fin c)
    (nwrites c) (S (nreads c)) (destroyed c) (wire c) (accepted c) (trace c).
Definition accept (d : list char) (c : TcpConnection) : TcpConnection :=
  mkConn (state_ c) (reading_ c) (channel_ c) (inputBuffer_ c) (outputBuffer_ c) (highWaterMark_ c)
    (writeCompleteCallback_ c) (highWaterMarkCallback_ c) (functors c) (delayed c) (fin c)
    (nwrites c) (nreads c) (destroyed c) (wire c) (accepted c ++ d) (trace c).
Definition emit (e : event) (c : TcpConnection) : TcpConnection :=
  mkConn (state_ c) (reading_ c) (channel_ c) (inputBuffer_ c) (outputBuffer_ c) (highWaterMark_ c)
    (writeCompleteCallback_ c) (highWaterMarkCallback_ c) (functors c) (delayed c) (fin c)
    (nwrites c) (nreads c) (destroyed c) (wire c) (accepted c) (trace c ++ [e]).
Definition set_destroyed (c : TcpConnection) : TcpConnection :=
  mkConn (state_ c) (reading_ c) (channel_ c) (inputBuffer_ c) (outputBuffer_ c) (highWaterMark_ c)
    (writeCompleteCallback_ c) (highWaterMarkCallback_ c) (functors c) (delayed c) (fin c)
    (nwrites c) (nreads c) true (wire c) (accepted c) (trace c).

Definition setWriteCompleteCallback (b : bool) (c : TcpConnection) : TcpConnection :=
  mkConn (state_ c) (reading_ c) (channel_ c) (inputBuffer_ c) (outputBuffer_ c) (highWaterMark_ c)
    b (highWaterMarkCallback_ c) (functors c) (delayed c) (fin c)
    (nwrites c) (nreads c) (destroyed c) (wire c) (accepted c) (trace c).
Definition setHighWaterMarkCallback (mark : Z) (c : TcpConnection) : TcpConnection :=
  mkConn (state_ c) (reading_ c) (channel_ c) (inputBuffer_ c) (outputBuffer_ c) mark
    (writeCompleteCallback_ c) true (functors c) (delayed c) (fin c)
    (nwrites c) (nreads c) (destroyed c) (wire c) (accepted c) (trace c).

(** The channel methods, on the channel record. *)
Definition chan_events (f : Z -> Z) (c : TcpConnection) : TcpConnection :=
  set_channel (with_added true (with_events (f (events_ (channel_ c))) (channel_ c))) c.
Definition chan_enableReading := chan_events (fun ev => Z.lor ev kReadEvent).
Definition chan_disableReading := chan_events (fun ev => Z.land ev (Z.lnot kReadEvent)).
Definition chan_enableWriting := chan_events (fun ev => Z.lor ev kWriteEvent).
Definition chan_disableWriting := chan_events (fun ev => Z.land ev (Z.lnot kWriteEvent)).
Definition chan_disableAll := chan_events (fun _ => kNoneEvent).
Definition chan_remove (c : TcpConnection) : res TcpConnection :=
  _ ← check (isNoneEvent (channel_ c));
  Ok (set_channel (with_added false (channel_ c)) c).

(** The constructor, with the channel callbacks it sets and the user's optional ones. *)
Definition newTcpConnection (loop : ptr) (sockfd : Z) (input output : Buffer)
    (hasWriteComplete hasHighWater : bool) : TcpConnection :=
  mkConn kConnecting true
    (mkChannel loop sockfd 0 0 (-1) true false false false true true true true)
    input output (64 * 1024 * 1024) hasWriteComplete hasHighWater [] 0 false 0 0 false [] [] [].

(** Calls the user's callbacks make; the message callback may also consume input, up
    to what is there, or send the input buffer back. *)
Inductive api :=
| ASend (data : list char)
| ASendInput
| AShutdown
| AForceClose
| AForceCloseWithDelay
| AStartRead
| AStopRead
| ARetrieve (n : Z).

(** Callbacks that make no call on their connection. *)
Definition no_calls (_ : event) (_ : TcpConnection) : list api := [].

Section Connection.
Context (kernel : nat -> bool -> list char -> written).
Context (network : nat -> kernel_readv).
Context (user : event -> TcpConnection -> list api).

(** [TcpConnection::sendInLoop] *)
Definition sendInLoop (data : list char) (c : TcpConnection) : res TcpConnection :=
  let len := zlen data in
  if bool_decide (state_ c = kDisconnected) then Ok c
  else
    let '(nwrote, remaining, faultError, c1) :=
      if negb (isWriting (channel_ c)) && (readableBytes (outputBuffer_ c) =? 0)
      then
        match kernel (nwrites c) (fin c) data with
        | Wrote n =>
            let remaining := size_t (len - n) in
            let c' := count_write (take (Z.to_nat n) data) c in
            (n, remaining, false,
             if (remaining =? 0) && writeCompleteCallback_ c
             then queueInLoop TWriteComplete c' else c')
        | PeerGone => (0, len, true, count_write [] c)
        | WouldBlock | OtherError => (0, len, false, count_write [] c)
        end
      else (0, len, false, c) in
    _ ← check (remaining <=? len);
    if negb faultError && (0 <? remaining)
    then
      let oldLen := readableBytes (outputBuffer_ c1) in
      let c2 := if (highWaterMark_ c1 <=? size_t (oldLen + remaining))
                   && (oldLen <? highWaterMark_ c1) && highWaterMarkCallback_ c1
                then queueInLoop (THighWaterMark (size_t (oldLen + remaining))) c1 else c1 in
      out ← append (take (Z.to_nat remaining) (drop (Z.to_nat nwrote) data)) (outputBuffer_ c2);
      let c3 := accept data (set_output out c2) in
      Ok (if negb (isWriting (channel_ c3)) then chan_enableWriting c3 else c3)
    else Ok (if faultError then c1 else accept data c1).

(** [TcpConnection::shutdownInLoop] *)
Definition shutdownInLoop (c : TcpConnection) : TcpConnection :=
  if negb (isWriting (channel_ c)) then shutdownWrite c else c.

(** [TcpConnection::send]; [inLoop] is isInLoopThread(). *)
Definition send (inLoop : bool) (data : list char) (c : TcpConnection) : res TcpConnection :=
  if bool_decide (state_ c = kConnected)
  then if inLoop then sendInLoop data c else Ok (queueInLoop (TSendInLoop data) c)
  else Ok c.

(** [TcpConnection::send(Buffer* buf)] in the loop thread, for the input buffer. *)
Definition send_input (c : TcpConnection) : res TcpConnection :=
  if bool_decide (state_ c = kConnected)
  then
    data ← read_range (buffer_ (inputBuffer_ c)) (peek (inputBuffer_ c))
             (peek (inputBuffer_ c) + readableBytes (inputBuffer_ c));
    c1 ← sendInLoop data c;
    Ok (set_input (retrieveAll (inputBuffer_ c1)) c1)
  else Ok c.

(** [TcpConnection::shutdown] *)
Definition shutdown (inLoop : bool) (c : TcpConnection) : TcpConnection :=
  if bool_decide (state_ c = kConnected)
  then
    let c1 := setState kDisconnecting c in
    if inLoop then shutdownInLoop c1 else queueInLoop TShutdownInLoop c1
  else c.

Definition alive (s : StateE) : bool := bool_decide (s = kConnected) || bool_decide (s = kDisconnecting).

(** [TcpConnection::forceClose] *)
Definition forceClose (c : TcpConnection) : TcpConnection :=
  if alive (state_ c)
  then queueInLoop TForceCloseInLoop (setState kDisconnecting c) else c.

(** [TcpConnection::forceCloseWithDelay]: a timer that calls forceClose. *)
Definition forceCloseWithDelay (c : TcpConnection) : TcpConnection :=
  if alive (state_ c) then set_delayed (S (delayed c)) (setState kDisconnecting c) else c.

(** [TcpConnection::startReadInLoop], [stopReadInLoop] *)
Definition startReadInLoop (c : TcpConnection) : TcpConnection :=
  if negb (reading_ c) || negb (isReading (channel_ c))
  then set_reading true (chan_enableReading c) else c.
Definition stopReadInLoop (c : TcpConnection) : TcpConnection :=
  if reading_ c || isReading (channel_ c)
  then set_reading false (chan_disableReading c) else c.

(** [TcpConnection::startRead], [stopRead]: runInLoop. *)
Definition startRead (inLoop : bool) (c : TcpConnection) : TcpConnection :=
  if inLoop then startReadInLoop c else queueInLoop TStartReadInLoop c.
Definition stopRead (inLoop : bool) (c : TcpConnection) : TcpConnection :=
  if inLoop then stopReadInLoop c else queueInLoop TStopReadInLoop c.

Definition run_api (a : api) (c : TcpConnection) : res TcpConnection :=
  match a with
  | ASend data => send true data c
  | ASendInput => send_input c
  | AShutdown => Ok (shutdown true c)
  | AForceClose => Ok (forceClose c)
  | AForceCloseWithDelay => Ok (forceCloseWithDelay c)
  | AStartRead => Ok (startRead true c)
  | AStopRead => Ok (stopRead true c)
  | ARetrieve n =>
      b ← retrieve (Z.max 0 (Z.min n (readableBytes (inputBuffer_ c)))) (inputBuffer_ c);
      Ok (set_input b c)
  end.

Fixpoint run_apis (l : list api) (c : TcpConnection) : res TcpConnection :=
  match l with
  | [] => Ok c
  | a :: l => c1 ← run_api a c; run_apis l c1
  end.

(** Invoking a callback: record it, then run the user's code. *)
Definition invoke (e : event) (c : TcpConnection) : res TcpConnection :=
  let c1 := emit e c in run_apis (user e c1) c1.

(** [TcpConnection::handleClose]; closeCallback_ is TcpServer::removeConnection, which
    queues connectDestroyed. *)
Definition handleClose (c : TcpConnection) : res TcpConnection :=
  _ ← check (alive (state_ c));
  c1 ← invoke EvDown (chan_disableAll (setState kDisconnected c));
  Ok (queueInLoop TConnectDestroyed (emit EvClosed c1)).

(** [TcpConnection::forceCloseInLoop] *)
Definition forceCloseInLoop (c : TcpConnection) : res TcpConnection :=
  if alive (state_ c) then handleClose c else Ok c.

(** [TcpConnection::connectEstablished] *)
Definition connectEstablished (c : TcpConnection) : res TcpConnection :=
  _ ← check (bool_decide (state_ c = kConnecting));
  let c1 := setState kConnected c in
  let c2 := set_channel (tie (channel_ c1)) c1 in
  invoke EvUp (chan_enableReading c2).

(** [TcpConnection::connectDestroyed] *)
Definition connectDestroyed (c : TcpConnection) : res TcpConnection :=
  c1 ← (if bool_decide (state_ c = kConnected)
        then invoke EvDown (chan_disableAll (setState kDisconnected c))
        else Ok c);
  c2 ← chan_remove c1;
  Ok (set_destroyed c2).

(** [TcpConnection::handleRead]; handleError only logs. *)
Definition handleRead (c : TcpConnection) : res TcpConnection :=
  '(n, _, b) ← readFd (network (nreads c)) (inputBuffer_ c);
  let c1 := set_input b (count_read c) in
  if 0 <? n then invoke EvMessage c1
  else if n =? 0 then handleClose c1
  else Ok c1.

(** [TcpConnection::handleWrite] *)
Definition handleWrite (c : TcpConnection) : res TcpConnection :=
  if isWriting (channel_ c)
  then
    data ← read_range (buffer_ (outputBuffer_ c)) (peek (outputBuffer_ c))
             (peek (outputBuffer_ c) + readableBytes (outputBuffer_ c));
    match kernel (nwrites c) (fin c) data with
    | Wrote n =>
        let c1 := count_write (take (Z.to_nat n) data) c in
        if 0 <? n
        then
          out ← retrieve n (outputBuffer_ c1);
          let c2 := set_output out c1 in
          if readableBytes (outputBuffer_ c2) =? 0
          then
            let c3 := chan_disableWriting c2 in
            let c4 := if writeCompleteCallback_ c3 then queueInLoop TWriteComplete c3 else c3 in
            Ok (if bool_decide (state_ c4 = kDisconnecting) then shutdownInLoop c4 else c4)
          else Ok c2
        else Ok c1
    | _ => Ok (count_write [] c)
    end
  else Ok c.

Definition run_callback (cb : callback) (c : TcpConnection) : res TcpConnection :=
  match cb with
  | ReadCb => handleRead c
  | WriteCb => handleWrite c
  | CloseCb => handleClose c
  | ErrorCb => Ok c
  end.

Fixpoint run_callbacks (l : list callback) (c : TcpConnection) : res TcpConnection :=
  match l with
  | [] => Ok c
  | cb :: l => c1 ← run_callback cb c; run_callbacks l c1
  end.

(** The poller stored [revents] and the loop dispatches the channel's event. *)
Definition dispatch (revents : Z) (c : TcpConnection) : res TcpConnection :=
  let ch := set_revents revents (channel_ c) in
  run_callbacks (handleEvent true ch) (set_channel ch c).

(** The loop takes the first queued functor and runs it. *)
Definition run_task (t : task) (c : TcpConnection) : res TcpConnection :=
  match t with
  | TSendInLoop data => sendInLoop data c
  | TShutdownInLoop => Ok (shutdownInLoop c)
  | TForceCloseInLoop => forceCloseInLoop c
  | TWriteComplete => invoke EvWriteComplete c
  | THighWaterMark n => invoke (EvHighWaterMark n) c
  | TStartReadInLoop => Ok (startReadInLoop c)
  | TStopReadInLoop => Ok (stopReadInLoop c)
  | TConnectDestroyed => connectDestroyed c
  end.

(** ** Everything that can happen to a connection *)

Inductive action :=
| Establish                       (* TcpServer::newConnection *)
| Poll (revents : Z)              (* the loop dispatches the channel *)
| RunFunctor                      (* the loop runs the next functor *)
| OtherSend (data : list char)    (* calls from other threads, each as one step *)
| OtherShutdown
| OtherForceClose
| OtherStartRead
| OtherStopRead
| TimerFires                      (* a forceCloseWithDelay timer *)
| ServerDestroy.                  (* TcpServer::~TcpServer *)

(** What the poller may report: the events asked for, errors and hang-up. *)
Definition reportable (revents : Z) (ch : Channel) : bool :=
  Z.land revents (Z.lnot (Z.lor (events_ ch) (Z.lor POLLERR POLLHUP))) =? 0.

(** Urgent data without normal data on a connection that hung up. *)
Definition bare_urgent (revents : Z) : bool :=
  has_bits revents POLLHUP && has_bits revents POLLPRI && negb (has_bits revents POLLIN).

(** Reading starts on a connection that is up, and stops on one that is there: startRead() and
    stopRead() queue their functors without a test of state_. *)
Definition in_time (t : task) (c : TcpConnection) : bool :=
  match t with
  | TStartReadInLoop => alive (state_ c)
  | TStopReadInLoop => negb (destroyed c)
  | _ => true
  end.

Definition enabled (a : action) (c : TcpConnection) : bool :=
  match a with
  | Establish => bool_decide (state_ c = kConnecting)
  | Poll revents => negb (isNoneEvent (channel_ c)) && reportable revents (channel_ c)
                    && negb (bare_urgent revents)
  | RunFunctor => match functors c with [] => false | t :: _ => in_time t c end
  | OtherSend data => zlen data <=? max_size
  | OtherShutdown | OtherForceClose => true
  | OtherStartRead | OtherStopRead => alive (state_ c)
  | TimerFires => (0 <? delayed c)%nat
  | ServerDestroy => bool_decide (state_ c = kConnected)
  end.

Definition perform (a : action) (c : TcpConnection) : res TcpConnection :=
  match a with
  | Establish => connectEstablished c
  | Poll revents => dispatch revents c
  | RunFunctor =>
      match functors c with
      | [] => Ok c
      | t :: l => run_task t (set_functors l c)
      end
  | OtherSend data => send false data c
  | OtherShutdown => Ok (shutdown false c)
  | OtherForceClose => Ok (forceClose c)
  | OtherStartRead => Ok (startRead false c)
  | OtherStopRead => Ok (stopRead false c)
  | TimerFires => Ok (forceClose (set_delayed (delayed c - 1) c))
  | ServerDestroy => connectDestroyed c
  end.

Inductive reachable (c0 : TcpConnection) : TcpConnection -> Prop :=
| ReachInit : reachable c0 c0
| ReachStep a c c' : reachable c0 c -> enabled a c = true -> perform a c = Ok c' ->
    reachable c0 c'.
End Connection.
