(* ===== verification/TcpConnectionTheory.v ===== *)
(** * Theorems about TCP connections

    The invariant of [TcpConnection] and its preservation by everything that can
    happen to a connection: stream integrity, life cycle, absence of failed
    assertions, and the situations in which the code's own assumptions fail. *)

From S2P Require Import Prelude Buffer BufferTheory Channel TcpConnection.

(** ** Event masks of a connection *)

Definition mask (r w : bool) : Z :=
  Z.lor (if r then kReadEvent else 0) (if w then kWriteEvent else 0).

Lemma mask_enableWriting r w : Z.lor (mask r w) kWriteEvent = mask r true.
Proof. by destruct r, w. Qed.
Lemma mask_disableWriting r w : Z.land (mask r w) (Z.lnot kWriteEvent) = mask r false.
Proof. by destruct r, w. Qed.
Lemma mask_enableReading r w : Z.lor (mask r w) kReadEvent = mask true w.
Proof. by destruct r, w. Qed.
Lemma mask_disableReading r w : Z.land (mask r w) (Z.lnot kReadEvent) = mask false w.
Proof. by destruct r, w. Qed.
Lemma mask_isWriting c r w : events_ c = mask r w -> isWriting c = w.
Proof. unfold isWriting. intros ->. by destruct r, w. Qed.

(** ** The invariant *)

Definition is_life (e : event) : bool :=
  match e with EvUp | EvDown | EvClosed => true | _ => false end.

(** The connection and close callbacks invoked so far. *)
Definition life (c : TcpConnection) : list event := filter (fun e => is_life e = true) (trace c).

(** Between connectEstablished and the end of the connection. *)
Record live_inv (c : TcpConnection) : Prop := mkLive {
  li_alive : alive (state_ c) = true;
  li_in : inv (inputBuffer_ c);
  li_out : inv (outputBuffer_ c);
  (** every byte taken over is on the wire or in the output buffer, in order *)
  li_stream : wire c ++ content (outputBuffer_ c) = accepted c;
  (** write events are asked for exactly when there is something to write *)
  li_mask : exists r w, events_ (channel_ c) = mask r w /\
              (w = true <-> content (outputBuffer_ c) <> []);
  (** the write side is shut down only after the output buffer was drained *)
  li_fin : fin c = true -> content (outputBuffer_ c) = [];
  li_tasks : TConnectDestroyed ∉ functors c;
  li_msgs : forall d, TSendInLoop d ∈ functors c -> zlen d <= max_size;
  li_destroyed : destroyed c = false
}.

(** What an operation in a live connection leaves alone. *)
Definition grows (c c' : TcpConnection) : Prop :=
  trace c' = trace c /\ (exists new, functors c' = functors c ++ new) /\
  (exists sent, accepted c' = accepted c ++ sent).

Lemma grows_refl c : grows c c.
Proof. split_and!; [done|exists []; by rewrite app_nil_r..]. Qed.

Lemma grows_trans c1 c2 c3 : grows c1 c2 -> grows c2 c3 -> grows c1 c3.
Proof.
  intros (T1 & [n1 F1] & [s1 A1]) (T2 & [n2 F2] & [s2 A2]). split_and!; [congruence| |].
  - exists (n1 ++ n2). by rewrite F2, F1, (assoc_L app).
  - exists (s1 ++ s2). by rewrite A2, A1, (assoc_L app).
Qed.

(** What write(2) documents: it takes at most what it is given; after shutdown(2) of
    the write side it fails with EPIPE. *)
Definition kernel_ok (kernel : nat -> bool -> list char -> written) : Prop :=
  (forall i f d n, kernel i f d = Wrote n -> 0 <= n <= zlen d) /\
  (forall i d, kernel i true d = PeerGone).

Lemma alive_not_disconnected s : alive s = true -> bool_decide (s = kDisconnected) = false.
Proof. by destruct s. Qed.

Lemma content_readable b : inv b -> (readableBytes b =? 0) = bool_decide (content b = []).
Proof.
  intros Hi. rewrite readableBytes_content by done. case_bool_decide as E.
  - by rewrite E.
  - destruct (content b); [done|]. rewrite zlen_cons. pose proof (zlen_nonneg l). lia.
Qed.

Lemma read_content b :
  inv b -> read_range (buffer_ b) (peek b) (peek b + readableBytes b) = Ok (content b).
Proof.
  intros Hi. pose proof (zlen_content b Hi). rewrite readableBytes_eq by done.
  rewrite <- (Z.add_0_r (peek b)) at 1. rewrite read_content_range by (done || buffer_unfold; lia).
  f_equal. rewrite <- (slice_full (content b)) at 2. f_equal. lia.
Qed.

Section Live.
Context (kernel : nat -> bool -> list char -> written) (Hkernel : kernel_ok kernel).

(** Queueing anything but connectDestroyed keeps the invariant. *)
Lemma live_queue t c :
  live_inv c -> t <> TConnectDestroyed -> (forall d, t = TSendInLoop d -> zlen d <= max_size) ->
  live_inv (queueInLoop t c).
Proof.
  intros [] Ht Hd. split; cbn; try done.
  - rewrite elem_of_app, list_elem_of_singleton. naive_solver.
  - intros d. rewrite elem_of_app, list_elem_of_singleton. intros [?|?]; auto.
Qed.

Lemma grows_queue t c : grows c (queueInLoop t c).
Proof. split_and!; [done|by exists [t]|exists []; by rewrite app_nil_r]. Qed.

Definition is_nil {A} (l : list A) : bool := match l with [] => true | _ => false end.

(** The tail of [sendInLoop]: keep what was not written. *)
Definition keep_rest (data rest : list char) (c : TcpConnection) : res TcpConnection :=
  let oldLen := readableBytes (outputBuffer_ c) in
  let c2 := if (highWaterMark_ c <=? size_t (oldLen + zlen rest))
               && (oldLen <? highWaterMark_ c) && highWaterMarkCallback_ c
            then queueInLoop (THighWaterMark (size_t (oldLen + zlen rest))) c else c in
  out ← append rest (outputBuffer_ c2);
  let c3 := accept data (set_output out c2) in
  Ok (if negb (isWriting (channel_ c3)) then chan_enableWriting c3 else c3).

Lemma keep_rest_ok data now rest c :
  data = now ++ rest -> rest <> [] -> zlen data <= max_size ->
  alive (state_ c) = true -> inv (inputBuffer_ c) -> inv (outputBuffer_ c) ->
  wire c ++ content (outputBuffer_ c) = accepted c ++ now ->
  (exists r w, events_ (channel_ c) = mask r w) ->
  fin c = false -> TConnectDestroyed ∉ functors c ->
  (forall d, TSendInLoop d ∈ functors c -> zlen d <= max_size) -> destroyed c = false ->
  outcome LengthError (keep_rest data rest c) (fun c' => live_inv c' /\ grows c c').
Proof.
  intros -> Hne Hlen Ha Hin Hout Hst (r & w & Hm) Hfin Htd Hmsg Hd. unfold keep_rest.
  set (c2 := if _ : bool then _ else _).
  assert (Hc2 : exists l, c2 = set_functors (functors c ++ l) c /\
            TConnectDestroyed ∉ l /\ forall d, TSendInLoop d ∉ l).
  { unfold c2. case_match.
    - eexists. split; [reflexivity|]. split; [|intros d]; rewrite list_elem_of_singleton; done.
    - exists []. rewrite app_nil_r. split_and!; [by destruct c|apply not_elem_of_nil|].
      intros d. apply not_elem_of_nil. }
  destruct Hc2 as (l & -> & Hl1 & Hl2). cbn [set_functors outputBuffer_].
  rewrite zlen_app in Hlen. pose proof (zlen_nonneg now). pose proof (zlen_nonneg rest).
  destruct (append_outcome rest (outputBuffer_ c) Hout) as [(out & -> & Hio & Hco)|[-> _]];
    [lia| |by right].
  cbn [mbind res_bind]. apply outcome_Ok.
  set (c3 := accept _ _). change (channel_ c3) with (channel_ c).
  assert (Hfin' : live_inv (set_channel (with_added (addedToLoop_ (channel_ c)) (with_events (mask r true) (channel_ c))) c3)).
  { split; cbn; try done.
    - rewrite Hco, (assoc_L app), Hst. by rewrite <- (assoc_L app).
    - exists r, true. split; [done|]. rewrite Hco. split; [|done].
      intros _ [_ ?]%app_eq_nil. done.
    - congruence.
    - set_solver.
    - set_solver. }
  assert (Hg : forall ch, grows c (set_channel ch c3)).
  { intros ch. split_and!; [done|by exists l|by exists (now ++ rest)]. }
  rewrite (mask_isWriting _ _ _ Hm). destruct w; cbn [negb].
  - assert (E : c3 = set_channel (with_added (addedToLoop_ (channel_ c)) (with_events (mask r true) (channel_ c))) c3).
    { rewrite <- Hm. unfold c3. destruct c as [? ? []]. done. }
    rewrite E at 1 2. auto.
  - unfold chan_enableWriting, chan_events. change (channel_ c3) with (channel_ c).
    rewrite Hm, mask_enableWriting. split; [|apply Hg].
    destruct Hfin'. split; try done.
Qed.

Lemma live_accept_nil c : live_inv c -> live_inv (accept [] c) /\ grows c (accept [] c).
Proof.
  intros []. split; [split; cbn; try done; by rewrite app_nil_r|].
  split_and!; [done|exists []; by rewrite app_nil_r|by exists []].
Qed.

Lemma live_count_write c : live_inv c -> live_inv (count_write [] c) /\ grows c (count_write [] c).
Proof.
  intros []. split; [split; cbn; try done; by rewrite app_nil_r|].
  split_and!; [done|exists []; by rewrite app_nil_r..].
Qed.

(** The output buffer takes all of [data]. *)
Lemma keep_all data c :
  live_inv c -> zlen data <= max_size -> fin c = false ->
  outcome LengthError
    (_ ← check (zlen data <=? zlen data);
     if 0 <? zlen data then keep_rest data data c else Ok (accept data c))
    (fun c' => live_inv c' /\ grows c c').
Proof.
  intros Hc Hlen Hfin. rewrite check_true by lia. cbn [mbind res_bind].
  destruct (0 <? zlen data) eqn:E.
  - pose proof Hc as [? ? ? Hst (r & w & Hm & _) ? ? ? ?].
    apply (keep_rest_ok data [] data); try done; [|by rewrite Hst, app_nil_r|eauto].
    intros ->. done.
  - destruct data as [|x data]; [|rewrite zlen_cons in E; pose proof (zlen_nonneg data); lia].
    apply outcome_Ok. by apply live_accept_nil.
Qed.

Lemma sendInLoop_live data c :
  live_inv c -> zlen data <= max_size ->
  outcome LengthError (sendInLoop kernel data c) (fun c' => live_inv c' /\ grows c c').
Proof using Hkernel.
  intros Hc Hlen. pose proof Hc as [Ha Hin Hout Hst (r & w & Hm & Hw) Hfin Htd Hmsg Hd].
  unfold sendInLoop. rewrite (alive_not_disconnected _ Ha).
  rewrite (mask_isWriting _ _ _ Hm), content_readable by done. pose proof (zlen_nonneg data).
  assert (Hall : take (Z.to_nat (zlen data)) (drop (Z.to_nat 0) data) = data).
  { cbn [Z.to_nat]. rewrite drop_0. apply take_ge. unfold zlen. lia. }
  destruct w; cbn [negb andb].
  { rewrite Hall. apply keep_all; [done|done|]. destruct (fin c); [|done].
    by destruct (proj1 Hw eq_refl); apply Hfin. }
  assert (Hnil : content (outputBuffer_ c) = []).
  { destruct (content (outputBuffer_ c)); [done|]. by discriminate (proj2 Hw ltac:(done)). }
  rewrite bool_decide_true by done.
  destruct (live_count_write c Hc) as [Hcw Hgw].
  destruct (kernel (nwrites c) (fin c) data) as [n| | |] eqn:Ek.
  - destruct (proj1 Hkernel _ _ _ _ Ek) as [Hn0 Hn].
    assert (Hf : fin c = false).
    { destruct (fin c); [|done]. by rewrite (proj2 Hkernel) in Ek. }
    rewrite uint_small by (unfold max_size in Hlen; lia).
    rewrite check_true by lia. cbn [mbind res_bind negb andb].
    destruct (0 <? zlen data - n) eqn:E.
    + replace (zlen data - n =? 0) with false by lia. cbn [andb].
      assert (Hz : zlen (drop (Z.to_nat n) data) = zlen data - n) by (apply zlen_drop; lia).
      rewrite (take_ge (drop _ _)) by (unfold zlen in *; lia). rewrite <- Hz.
      eapply outcome_impl; [apply (keep_rest_ok data (take (Z.to_nat n) data)
        (drop (Z.to_nat n) data) (count_write (take (Z.to_nat n) data) c))|]; try done.
      * by rewrite take_drop.
      * intros E'. rewrite E', zlen_nil in Hz. lia.
      * cbn. rewrite <- Hst, Hnil, !app_nil_r. done.
      * eauto.
    + replace (zlen data - n =? 0) with true by lia. cbn [andb].
      rewrite (take_ge data) by (unfold zlen in *; lia). apply outcome_Ok.
      assert (Hl : live_inv (accept data (count_write data c))).
      { destruct Hc. split; cbn; try done. rewrite <- li_stream0, Hnil, !app_nil_r. done. }
      destruct (writeCompleteCallback_ c).
      * split; [by apply (live_queue TWriteComplete) in Hl|].
        split_and!; [done|by exists [TWriteComplete]|by exists data].
      * split; [done|]. split_and!; [done|exists []; by rewrite app_nil_r|by exists data].
  - rewrite Hall. destruct (fin c) eqn:Ef; [by rewrite ?Ef, (proj2 Hkernel) in Ek|].
    eapply outcome_impl; [by apply (keep_all data (count_write [] c))|].
    intros c' [? ?]. split; [done|]. by apply (grows_trans _ _ _ Hgw).
  - rewrite check_true by lia. cbn [mbind res_bind negb andb]. by apply outcome_Ok.
  - rewrite Hall. destruct (fin c) eqn:Ef; [by rewrite ?Ef, (proj2 Hkernel) in Ek|].
    eapply outcome_impl; [by apply (keep_all data (count_write [] c))|].
    intros c' [? ?]. split; [done|]. by apply (grows_trans _ _ _ Hgw).
Qed.

Lemma live_mono (c' : TcpConnection) c :
  live_inv c -> alive (state_ c') = true -> inv (inputBuffer_ c') ->
  outputBuffer_ c' = outputBuffer_ c -> wire c' = wire c -> accepted c' = accepted c ->
  (exists r r' w, events_ (channel_ c) = mask r w /\ events_ (channel_ c') = mask r' w) ->
  (fin c' = true -> content (outputBuffer_ c) = []) -> functors c' = functors c ->
  destroyed c' = destroyed c -> live_inv c'.
Proof.
  intros [] Ha Hi Ho Hw Hacc (r & r' & w & Hm & Hm') Hf Hfu Hd.
  split; rewrite ?Ho, ?Hw, ?Hacc, ?Hfu, ?Hd; try done.
  exists r', w. split; [done|]. destruct li_mask0 as (r0 & w0 & Hm0 & Hw0).
  replace w with w0; [done|]. apply mask_isWriting in Hm, Hm0. congruence.
Qed.

(** Calls with messages of sane length. *)
Definition api_ok (a : api) : Prop :=
  match a with ASend d => zlen d <= max_size | _ => True end.

Lemma shutdownInLoop_live c :
  live_inv c -> live_inv (shutdownInLoop c) /\ grows c (shutdownInLoop c).
Proof.
  intros Hc. unfold shutdownInLoop. destruct (li_mask _ Hc) as (r & w & Hm & Hw).
  rewrite (mask_isWriting _ _ _ Hm). destruct w; cbn [negb]; [split; [done|apply grows_refl]|].
  split; [|split_and!; [done|exists []; by rewrite app_nil_r..]].
  apply (live_mono _ c Hc); try apply Hc; try done; [by eauto|]. intros _.
  destruct (content (outputBuffer_ c)); [done|]. by discriminate (proj2 Hw ltac:(done)).
Qed.

Lemma live_disconnecting c :
  live_inv c -> live_inv (setState kDisconnecting c) /\ grows c (setState kDisconnecting c).
Proof.
  intros Hc. split; [|split_and!; [done|exists []; by rewrite app_nil_r..]].
  destruct (li_mask _ Hc) as (r & w & Hm & _).
  apply (live_mono _ c Hc); try done; [apply Hc|eauto|apply (li_fin _ Hc)].
Qed.

Lemma live_reading b r' c :
  live_inv c -> (exists r w, events_ (channel_ c) = mask r w /\ events_ r' = mask b w) ->
  live_inv (set_reading b (set_channel r' c)) /\ grows c (set_reading b (set_channel r' c)).
Proof.
  intros Hc (r & w & Hm & Hm'). split; [|split_and!; [done|exists []; by rewrite app_nil_r..]].
  apply (live_mono _ c Hc); try done; [apply Hc|apply Hc|eauto|apply (li_fin _ Hc)].
Qed.

Lemma live_input b c :
  live_inv c -> inv b -> live_inv (set_input b c) /\ grows c (set_input b c).
Proof.
  intros Hc Hb. split; [|split_and!; [done|exists []; by rewrite app_nil_r..]].
  destruct (li_mask _ Hc) as (r & w & Hm & _).
  apply (live_mono _ c Hc); try done; [apply Hc|eauto|apply (li_fin _ Hc)].
Qed.

Lemma retrieve_upto n b :
  inv b -> exists b', retrieve (Z.max 0 (Z.min n (readableBytes b))) b = Ok b' /\ inv b'.
Proof.
  intros Hi. destruct (retrieve_spec (Z.max 0 (Z.min n (readableBytes b))) b Hi)
    as (b' & ? & ? & _); [|by exists b'].
  rewrite readableBytes_content by done. pose proof (zlen_nonneg (content b)). lia.
Qed.

Lemma startReadInLoop_live c : live_inv c -> live_inv (startReadInLoop c) /\ grows c (startReadInLoop c).
Proof.
  intros Hc. unfold startReadInLoop. case_match; [|split; [done|apply grows_refl]].
  unfold chan_enableReading, chan_events. apply live_reading; [done|].
  destruct (li_mask _ Hc) as (r & w & Hm & _). exists r, w. cbn. by rewrite Hm, mask_enableReading.
Qed.

Lemma stopReadInLoop_live c : live_inv c -> live_inv (stopReadInLoop c) /\ grows c (stopReadInLoop c).
Proof.
  intros Hc. unfold stopReadInLoop. case_match; [|split; [done|apply grows_refl]].
  unfold chan_disableReading, chan_events. apply live_reading; [done|].
  destruct (li_mask _ Hc) as (r & w & Hm & _). exists r, w. cbn. by rewrite Hm, mask_disableReading.
Qed.

Lemma run_api_live a c :
  live_inv c -> api_ok a ->
  outcome LengthError (run_api kernel a c) (fun c' => live_inv c' /\ grows c c').
Proof using Hkernel.
  intros Hc Ha. pose proof (conj Hc (grows_refl c)) as Hsame.
  destruct (live_disconnecting c Hc) as [Hd Hgd].
  destruct a as [d| | | | | | |n]; cbn [run_api api_ok] in *.
  - unfold send. case_bool_decide; [by apply sendInLoop_live|by apply outcome_Ok].
  - unfold send_input. case_bool_decide; [|by apply outcome_Ok].
    pose proof (li_in _ Hc) as Hi. rewrite read_content by done. cbn [mbind res_bind].
    eapply outcome_bind; [apply sendInLoop_live; [done|]|].
    { rewrite zlen_content by done. buffer_unfold. lia. }
    intros c1 [H1 G1]. apply outcome_Ok.
    destruct (live_input (retrieveAll (inputBuffer_ c1)) c1 H1) as [? G2].
    { by apply retrieveAll_spec, H1. }
    split; [done|]. by apply (grows_trans _ _ _ G1).
  - apply outcome_Ok. unfold shutdown. case_bool_decide; [|done].
    destruct (shutdownInLoop_live _ Hd) as [? G]. split; [done|]. by apply (grows_trans _ _ _ Hgd).
  - apply outcome_Ok. unfold forceClose. case_match; [|done]. split; [by apply live_queue|].
    apply (grows_trans _ _ _ Hgd), grows_queue.
  - apply outcome_Ok. unfold forceCloseWithDelay. case_match; [|done].
    split; [|apply Hgd]. destruct Hd. by split.
  - apply outcome_Ok. by apply startReadInLoop_live.
  - apply outcome_Ok. by apply stopReadInLoop_live.
  - destruct (retrieve_upto n _ (li_in _ Hc)) as (b & -> & Hb). cbn [mbind res_bind].
    apply outcome_Ok. by apply live_input.
Qed.

Lemma run_apis_live l c :
  live_inv c -> Forall api_ok l ->
  outcome LengthError (run_apis kernel l c) (fun c' => live_inv c' /\ grows c c').
Proof using Hkernel.
  intros Hc Hl. revert c Hc. induction Hl as [|a l Ha _ IH]; intros c Hc; cbn [run_apis].
  { apply outcome_Ok. split; [done|apply grows_refl]. }
  eapply outcome_bind; [by apply run_api_live|]. intros c1 [H1 G1].
  eapply outcome_impl; [by apply IH|]. intros c2 [H2 G2]. split; [done|]. by eapply grows_trans.
Qed.

(** ** A connection that is over *)

(** User code on a disconnected connection may only consume input and stop reading. *)
Record quiet (c c' : TcpConnection) : Prop := mkQuiet {
  qu_state : state_ c' = state_ c;
  qu_in : inv (inputBuffer_ c');
  qu_out : outputBuffer_ c' = outputBuffer_ c;
  qu_events : events_ (channel_ c') = 0;
  qu_functors : functors c' = functors c;
  qu_destroyed : destroyed c' = destroyed c;
  qu_wire : wire c' = wire c;
  qu_accepted : accepted c' = accepted c;
  qu_trace : trace c' = trace c
}.

Lemma run_apis_quiet l c :
  state_ c = kDisconnected -> events_ (channel_ c) = 0 -> inv (inputBuffer_ c) ->
  AStartRead ∉ l -> exists c', run_apis kernel l c = Ok c' /\ quiet c c'.
Proof.
  revert c. induction l as [|a l IH]; intros c Hs He Hi Hl; cbn [run_apis].
  { exists c. by split. }
  apply not_elem_of_cons in Hl as [Ha Hl].
  assert (Hstep : exists c1, run_api kernel a c = Ok c1 /\ quiet c c1).
  { destruct a as [d| | | | | | |n]; cbn [run_api];
      unfold send, send_input, shutdown, forceClose, forceCloseWithDelay; rewrite ?Hs;
      try (exists c; by split).
    - unfold stopRead, stopReadInLoop. case_match; eexists; (split; [done|]); [|by split].
      split; cbn; try done. by rewrite He.
    - destruct (retrieve_upto n _ Hi) as (b & -> & Hb). cbn [mbind res_bind].
      eexists. split; [done|]. by split. }
  destruct Hstep as (c1 & -> & [Q1 Q2 Q3 Q4 Q5 Q6 Q7 Q8 Q9]). cbn [mbind res_bind].
  destruct (IH c1) as (c' & -> & [R1 R2 R3 R4 R5 R6 R7 R8 R9]); [congruence|done..|].
  exists c'. split; [done|]. split; congruence.
Qed.
End Live.

(** ** The invariant of the whole life *)

Record fresh_inv (c : TcpConnection) : Prop := mkFresh {
  fi_state : state_ c = kConnecting;
  fi_in : inv (inputBuffer_ c);
  fi_out : inv (outputBuffer_ c);
  fi_empty : content (outputBuffer_ c) = [] /\ wire c = [] /\ accepted c = [];
  fi_events : events_ (channel_ c) = 0;
  fi_trace : trace c = [];
  fi_functors : functors c = [];
  fi_fin : fin c = false;
  fi_destroyed : destroyed c = false
}.

(** After the end: connectDestroyed is queued, behind everything else, or done. *)
Record over_inv (c : TcpConnection) : Prop := mkOver {
  oi_state : state_ c = kDisconnected;
  oi_in : inv (inputBuffer_ c);
  oi_out : inv (outputBuffer_ c);
  oi_stream : wire c ++ content (outputBuffer_ c) = accepted c;
  oi_events : events_ (channel_ c) = 0;
  oi_msgs : forall d, TSendInLoop d ∈ functors c -> zlen d <= max_size;
  oi_end :
    life c = [EvUp; EvDown; EvClosed] /\ destroyed c = false /\
      (exists l, functors c = l ++ [TConnectDestroyed] /\ TConnectDestroyed ∉ l) \/
    destroyed c = true /\ TConnectDestroyed ∉ functors c /\
      (life c = [EvUp; EvDown; EvClosed] \/ life c = [EvUp; EvDown])
}.

Definition conn_inv (c : TcpConnection) : Prop :=
  fresh_inv c \/ live_inv c /\ life c = [EvUp] \/ over_inv c.

(** The same, once connectEstablished was called. *)
Definition begun (c : TcpConnection) : Prop := live_inv c /\ life c = [EvUp] \/ over_inv c.

Lemma begun_inv c : begun c -> conn_inv c.
Proof. intros [?|?]; [by right; left|by right; right]. Qed.

Lemma life_emit e c : life (emit e c) = life c ++ (if is_life e then [e] else []).
Proof. unfold life. cbn [trace emit]. rewrite filter_app. by destruct e. Qed.

Lemma live_emit e c : live_inv c -> live_inv (emit e c).
Proof. by intros []; split. Qed.

(** What the invariant says of the callbacks invoked, the queue and the state. *)
Lemma inv_lifecycle c :
  conn_inv c ->
  (life c = [] \/ life c = [EvUp] \/ life c = [EvUp; EvDown] \/ life c = [EvUp; EvDown; EvClosed]) /\
  (EvDown ∈ trace c -> state_ c = kDisconnected /\ events_ (channel_ c) = 0) /\
  (TConnectDestroyed ∈ functors c -> exists l, functors c = l ++ [TConnectDestroyed] /\ TConnectDestroyed ∉ l) /\
  (destroyed c = true -> state_ c = kDisconnected /\ events_ (channel_ c) = 0 /\ TConnectDestroyed ∉ functors c).
Proof.
  intros Hi.
  assert (Hdown : EvDown ∈ trace c -> EvDown ∈ life c)
    by (intros Hin; by apply list_elem_of_filter).
  destruct Hi as [Hc|[[Hc Hl]|Hc]].
  - assert (Hl : life c = []) by (unfold life; by rewrite (fi_trace _ Hc)).
    rewrite Hl in *. split_and!; [auto| | |].
    + intros Hin%Hdown. by apply elem_of_nil in Hin.
    + rewrite (fi_functors _ Hc). intros Hin. by apply elem_of_nil in Hin.
    + by rewrite (fi_destroyed _ Hc).
  - rewrite Hl in *. split_and!; [auto| | |].
    + intros Hin%Hdown. by apply list_elem_of_singleton in Hin.
    + intros Hin. by apply (li_tasks _ Hc) in Hin.
    + by rewrite (li_destroyed _ Hc).
  - pose proof (oi_state _ Hc). pose proof (oi_events _ Hc).
    destruct (oi_end _ Hc) as [(Hl & Hd & l & Hf & Hn)|(Hd & Hn & Hl)].
    + rewrite Hl. split_and!; [auto|done|by eauto|by rewrite Hd].
    + split_and!; [tauto|done|by intros ?|done].
Qed.

Section Actions.
Context (kernel : nat -> bool -> list char -> written) (Hkernel : kernel_ok kernel).
Context (network : nat -> kernel_readv) (Hnetwork : forall i, readv_contract (network i)).
Context (user : event -> TcpConnection -> list api).

(** User callbacks send messages of sane length and do not restart reading on a
    connection that is down. *)
Definition user_ok : Prop := forall ev c a, a ∈ user ev c ->
  api_ok a /\ (a = AStartRead -> state_ c <> kDisconnected).

Context (Huser : user_ok).

Lemma invoke_live e c :
  live_inv c -> outcome LengthError (invoke kernel user e c)
    (fun c' => live_inv c' /\ trace c' = trace c ++ [e]).
Proof using Hkernel Huser.
  intros Hc. unfold invoke.
  eapply outcome_impl; [apply (run_apis_live kernel Hkernel); [by apply live_emit|]|].
  - apply Forall_forall. intros a Ha. by apply (Huser e (emit e c)).
  - by intros c' [? (-> & _)].
Qed.

Lemma invoke_quiet e c :
  state_ c = kDisconnected -> events_ (channel_ c) = 0 -> inv (inputBuffer_ c) ->
  exists c', invoke kernel user e c = Ok c' /\ quiet (emit e c) c'.
Proof using Huser.
  intros Hs He Hi. apply run_apis_quiet; [done..|].
  intros Hin. by destruct (Huser e (emit e c) AStartRead Hin) as [_ []].
Qed.

(** From a live connection to one that is down, before connectDestroyed. *)
Lemma go_down c :
  live_inv c ->
  exists c1, invoke kernel user EvDown (chan_disableAll (setState kDisconnected c)) = Ok c1 /\
    state_ c1 = kDisconnected /\ inv (inputBuffer_ c1) /\ inv (outputBuffer_ c1) /\
    wire c1 ++ content (outputBuffer_ c1) = accepted c1 /\ events_ (channel_ c1) = 0 /\
    functors c1 = functors c /\ destroyed c1 = false /\ life c1 = life c ++ [EvDown].
Proof using Huser.
  intros [Ha Hi Ho Hst _ _ _ _ Hd].
  destruct (invoke_quiet EvDown (chan_disableAll (setState kDisconnected c)))
    as (c1 & -> & [Q1 Q2 Q3 Q4 Q5 Q6 Q7 Q8 Q9]); [done..|].
  exists c1. rewrite Q1, Q3, Q5, Q6, Q7, Q8. split_and!; try done.
  transitivity (life (emit EvDown c)); [unfold life; by rewrite Q9|apply life_emit].
Qed.

Lemma handleClose_ok c :
  live_inv c -> life c = [EvUp] ->
  outcome LengthError (handleClose kernel user c) over_inv.
Proof using Huser.
  intros Hc Hl. unfold handleClose. rewrite (li_alive _ Hc). cbn [check mbind res_bind].
  destruct (go_down c Hc) as (c1 & -> & ? & ? & ? & ? & ? & Hf & ? & Hl1).
  cbn [mbind res_bind]. apply outcome_Ok. split; cbn; try done.
  - intros d. rewrite Hf, elem_of_app, list_elem_of_singleton. intros [?|?]; [by apply Hc|done].
  - left. split_and!; [|done|exists (functors c); rewrite Hf; split; [done|apply Hc]].
    transitivity (life (emit EvClosed c1)); [done|]. by rewrite life_emit, Hl1, Hl.
Qed.

Lemma forceCloseInLoop_ok c :
  begun c -> outcome LengthError (forceCloseInLoop kernel user c) begun.
Proof using Huser.
  unfold forceCloseInLoop. intros [[Hc Hl]|Hc].
  - rewrite (li_alive _ Hc). eapply outcome_impl; [by apply handleClose_ok|]. by right.
  - rewrite (oi_state _ Hc). cbn. apply outcome_Ok. by right.
Qed.

Lemma connectEstablished_ok c :
  fresh_inv c -> outcome LengthError (connectEstablished kernel user c) begun.
Proof using Hkernel Huser.
  intros [Hs Hi Ho (He & Hw & Ha) Hev Ht Hf Hfi Hd]. unfold connectEstablished. rewrite Hs.
  cbn [check mbind res_bind].
  eapply outcome_impl; [apply invoke_live|].
  - split; cbn; try done; rewrite ?Hf; try (intros; by apply not_elem_of_nil).
    + by rewrite He, Hw, Ha.
    + exists true, false. rewrite Hev. split; [done|]. rewrite He. done.
    + intros d Hin. by apply elem_of_nil in Hin.
  - intros c' [Hc' Ht']. left. split; [done|]. cbn in Ht'. unfold life. by rewrite Ht', Ht.
Qed.

(** connectDestroyed runs as the last functor, or from the server's destructor. *)
Lemma connectDestroyed_over c :
  state_ c = kDisconnected -> inv (inputBuffer_ c) -> inv (outputBuffer_ c) ->
  wire c ++ content (outputBuffer_ c) = accepted c -> events_ (channel_ c) = 0 ->
  functors c = [] -> life c = [EvUp; EvDown; EvClosed] ->
  outcome LengthError (connectDestroyed kernel user c) begun.
Proof.
  intros Hs Hi Ho Hst He Hf Hl. unfold connectDestroyed. rewrite Hs. cbn [bool_decide mbind res_bind].
  rewrite bool_decide_false by done. cbn [mbind res_bind].
  unfold chan_remove, isNoneEvent. rewrite He. cbn [Z.eqb kNoneEvent check mbind res_bind].
  apply outcome_Ok. right. split; cbn; try done; rewrite Hf.
  - intros d Hin. by apply elem_of_nil in Hin.
  - right. split_and!; [done|apply not_elem_of_nil|by left].
Qed.

Lemma connectDestroyed_live c :
  live_inv c -> life c = [EvUp] -> state_ c = kConnected ->
  outcome LengthError (connectDestroyed kernel user c) begun.
Proof using Huser.
  intros Hc Hl Hs. unfold connectDestroyed. rewrite bool_decide_true by done.
  destruct (go_down c Hc) as (c1 & -> & ? & ? & ? & ? & He & Hf & ? & Hl1).
  cbn [mbind res_bind]. unfold chan_remove, isNoneEvent. rewrite He.
  cbn [Z.eqb kNoneEvent check mbind res_bind]. apply outcome_Ok. right.
  split; cbn; try done; rewrite Hf; [apply Hc|].
  right. split_and!; [done|apply Hc|right]. transitivity (life c1); [done|]. by rewrite Hl1, Hl.
Qed.

Lemma live_count_read c : live_inv c -> live_inv (count_read c).
Proof. by intros []; split. Qed.

Lemma handleRead_ok c :
  live_inv c -> life c = [EvUp] ->
  outcome LengthError (handleRead kernel network user c) begun.
Proof using Hkernel Hnetwork Huser.
  intros Hc Hl. unfold handleRead.
  assert (Hkeep : forall b, inv b -> live_inv (set_input b (count_read c)))
    by (intros b Hb; by apply live_input; [apply live_count_read|]).
  destruct (readFd_outcome (network (nreads c)) _ (Hnetwork _) (li_in _ Hc))
    as [(errno & ->)|[(bytes & b & -> & Hb & _)|[-> _]]]; cbn [mbind res_bind]; [| |by right].
  - apply outcome_Ok. left. split; [apply Hkeep, Hc|done].
  - pose proof (zlen_nonneg bytes). destruct (0 <? zlen bytes) eqn:E1.
    + eapply outcome_impl; [by apply invoke_live, Hkeep|]. intros c' [? Ht]. left.
      split; [done|]. rewrite <- Hl. cbn in Ht. unfold life. rewrite Ht, filter_app.
      cbn. by rewrite app_nil_r.
    + replace (zlen bytes =? 0) with true by lia.
      eapply outcome_impl; [apply handleClose_ok; [by apply Hkeep|done]|]. by right.
Qed.

Lemma over_not_writing c : over_inv c -> handleWrite kernel c = Ok c.
Proof. intros Hc. unfold handleWrite, isWriting. by rewrite (oi_events _ Hc). Qed.

Lemma life_same c c' : trace c' = trace c -> life c' = life c.
Proof. unfold life. by intros ->. Qed.

(** After write(2) took [n] bytes of the output buffer. *)
Lemma live_drained n out c :
  live_inv c -> 0 < n <= zlen (content (outputBuffer_ c)) -> inv out ->
  content out = drop (Z.to_nat n) (content (outputBuffer_ c)) ->
  let c2 := set_output out (count_write (take (Z.to_nat n) (content (outputBuffer_ c))) c) in
  (content out <> [] -> live_inv c2) /\ (content out = [] -> live_inv (chan_disableWriting c2)).
Proof.
  intros [Ha Hin Hout Hst (r & w & Hm & Hw) Hfin Htd Hmsg Hd] Hn Hio Hco c2.
  assert (Hw1 : w = true).
  { apply Hw. intros E. rewrite E in Hn. unfold zlen in Hn. cbn in Hn. lia. }
  assert (Hff : fin c = false).
  { destruct (fin c); [|done]. by destruct (proj1 Hw Hw1); apply Hfin. }
  assert (Hst2 : wire c2 ++ content (outputBuffer_ c2) = accepted c2).
  { cbn. rewrite Hco, <- Hst, <- (assoc_L app). f_equal. apply take_drop. }
  split; intros Hc; split; try done; cbn.
  - exists r, w. rewrite Hm. split; [done|]. rewrite Hw1. done.
  - by rewrite Hff.
  - exists r, false. rewrite Hm, mask_disableWriting. split; [done|]. rewrite Hc. done.
Qed.

Lemma handleWrite_ok c :
  live_inv c -> exists c', handleWrite kernel c = Ok c' /\ live_inv c' /\ life c' = life c.
Proof using Hkernel.
  intros Hc. pose proof Hc as [Ha Hin Hout Hst (r & w & Hm & Hw) Hfin Htd Hmsg Hd].
  unfold handleWrite. rewrite (mask_isWriting _ _ _ Hm). destruct w; [|by exists c].
  rewrite read_content by done. cbn [mbind res_bind].
  destruct (live_count_write c Hc) as [Hcw _].
  destruct (kernel (nwrites c) (fin c) (content (outputBuffer_ c))) as [n| | |] eqn:Ek;
    try (eexists; by split_and!).
  destruct (proj1 Hkernel _ _ _ _ Ek) as [Hn0 Hn]. destruct (0 <? n) eqn:E.
  2: { replace n with 0 by lia. cbn [Z.to_nat]. rewrite take_0. eexists. by split_and!. }
  cbn [outputBuffer_ count_write].
  destruct (retrieve_spec n _ Hout) as (out & -> & Hio & Hco & _); [lia|]. cbn [mbind res_bind].
  destruct (live_drained n out c Hc) as [Hmore Hdone]; [lia|done|done|].
  cbn [set_output outputBuffer_]. rewrite content_readable by done.
  case_bool_decide as En; [|eexists; split_and!; [done|by apply Hmore|done]].
  specialize (Hdone En). set (c3 := chan_disableWriting _) in *.
  set (c4 := if writeCompleteCallback_ c3 then _ else _).
  assert (H4 : live_inv c4 /\ life c4 = life c).
  { unfold c4. destruct (writeCompleteCallback_ c3); [|done]. split; [by apply live_queue|done]. }
  destruct H4 as [H4 Hl4]. eexists. split; [done|]. case_bool_decide; [|done].
  destruct (shutdownInLoop_live c4 H4) as [? (Ht & _)]. split; [done|].
  rewrite <- Hl4. by apply life_same.
Qed.

(** *** Dispatching events *)

(** Close and read callbacks never come together. *)
Lemma no_close_and_read revents ch r w :
  events_ ch = mask r w -> reportable revents ch = true -> bare_urgent revents = false ->
  has_bits revents POLLHUP && negb (has_bits revents POLLIN) = true ->
  has_bits revents (Z.lor (Z.lor POLLIN POLLPRI) POLLRDHUP) = false.
Proof.
  unfold reportable, bare_urgent. intros Hm Hrep Hu [Hhup Hin]%andb_true_iff.
  rewrite Hhup, Hin in Hu. cbn in Hu. rewrite andb_true_r in Hu.
  apply negb_true_iff in Hin. unfold has_bits in *.
  apply negb_false_iff in Hu, Hin. apply Z.eqb_eq in Hu, Hin, Hrep. rewrite Hm in Hrep.
  apply negb_false_iff, Z.eqb_eq. rewrite !Z.land_lor_distr_r, Hin, Hu, !Z.lor_0_l.
  apply Z.bits_inj'. intros i Hi. rewrite Z.bits_0, Z.land_spec.
  destruct (Z.testbit POLLRDHUP i) eqn:Eb; [|by rewrite andb_false_r].
  apply (f_equal (fun x => Z.testbit x i)) in Hrep. rewrite Z.bits_0, Z.land_spec, Z.lnot_spec in Hrep by done.
  assert (i = 13) as ->.
  { change POLLRDHUP with (2 ^ 13) in Eb. rewrite Z.pow2_bits_eqb in Eb by lia. lia. }
  rewrite andb_true_r. destruct (Z.testbit revents 13); [|done]. by destruct r, w.
Qed.

Lemma write_part_ok l c :
  l = [] \/ l = [WriteCb] -> begun c ->
  outcome LengthError (run_callbacks kernel network user l c) begun.
Proof using Hkernel.
  intros [->| ->] Hb; cbn [run_callbacks run_callback]; [by apply outcome_Ok|].
  destruct Hb as [[Hc Hl]|Hc].
  - destruct (handleWrite_ok c Hc) as (c' & -> & ? & ?). apply outcome_Ok. left. split; [done|congruence].
  - rewrite over_not_writing by done. apply outcome_Ok. by right.
Qed.

Lemma dispatch_ok revents c :
  live_inv c -> life c = [EvUp] -> reportable revents (channel_ c) = true ->
  bare_urgent revents = false ->
  outcome LengthError (dispatch kernel network user revents c) begun.
Proof using Hkernel Hnetwork Huser.
  intros Hc Hl Hrep Hu. unfold dispatch. set (ch := set_revents revents (channel_ c)).
  destruct (li_mask _ Hc) as (r & w & Hm & Hw).
  assert (Hc0 : live_inv (set_channel ch c)) by (destruct Hc; by split).
  assert (Hcl : has_bits revents POLLHUP && negb (has_bits revents POLLIN) = true ->
            has_bits revents (Z.lor (Z.lor POLLIN POLLPRI) POLLRDHUP) = false)
    by (by eapply no_close_and_read).
  assert (Hhe : handleEvent true ch = handleEventWithGuard ch) by (unfold handleEvent; by destruct (tied_ ch)).
  rewrite Hhe. unfold handleEventWithGuard. change (revents_ ch) with revents.
  set (wr := if has_bits revents POLLOUT then _ else _).
  assert (Hwr : wr = [] \/ wr = [WriteCb]) by (unfold wr; repeat case_match; auto).
  set (er := if has_bits revents (Z.lor POLLERR POLLNVAL) then _ else _).
  assert (Her : forall l d, run_callbacks kernel network user (er ++ l) d = run_callbacks kernel network user l d)
    by (unfold er; repeat case_match; done).
  destruct (has_bits revents POLLHUP && negb (has_bits revents POLLIN)) eqn:Eh.
  - rewrite Hcl by done. destruct (hasCloseCallback ch); cbn [app].
    + cbn [run_callbacks run_callback]. eapply outcome_bind; [by apply handleClose_ok|].
      intros c1 Hc1. rewrite Her. apply write_part_ok; [done|by right].
    + rewrite Her. apply write_part_ok; [done|by left].
  - cbn [app]. rewrite Her.
    destruct (has_bits revents (Z.lor (Z.lor POLLIN POLLPRI) POLLRDHUP) && hasReadCallback ch) eqn:Er.
    + apply andb_true_iff in Er as [-> ->]. cbn [app run_callbacks run_callback].
      eapply outcome_bind; [by apply handleRead_ok|]. intros c1 Hc1. by apply write_part_ok.
    + replace (if has_bits revents (Z.lor (Z.lor POLLIN POLLPRI) POLLRDHUP)
               then if hasReadCallback ch then [ReadCb] else [] else []) with (@nil callback).
      * apply write_part_ok; [done|by left].
      * destruct (has_bits revents (Z.lor (Z.lor POLLIN POLLPRI) POLLRDHUP)), (hasReadCallback ch); done.
Qed.

(** *** Functors *)

Lemma run_task_live t c :
  live_inv c -> life c = [EvUp] -> t <> TConnectDestroyed ->
  (forall d, t = TSendInLoop d -> zlen d <= max_size) ->
  outcome LengthError (run_task kernel user t c) begun.
Proof using Hkernel Huser.
  intros Hc Hl Ht Hm.
  assert (Hinv : forall e, is_life e = false ->
            outcome LengthError (invoke kernel user e c) begun).
  { intros e He. eapply outcome_impl; [by apply invoke_live|]. intros c' [? Hc']. left.
    split; [done|]. rewrite <- Hl. transitivity (life (emit e c)); [by apply life_same|].
    by rewrite life_emit, He, app_nil_r. }
  destruct t as [d| | | |n| | |]; cbn [run_task]; [| | |by apply Hinv|by apply Hinv| | |done].
  - eapply outcome_impl; [by apply sendInLoop_live; [..|apply Hm]|]. intros c' [? (? & _)]. left.
    split; [done|]. rewrite <- Hl. by apply life_same.
  - apply outcome_Ok. left. destruct (shutdownInLoop_live c Hc) as [? (? & _)].
    split; [done|]. rewrite <- Hl. by apply life_same.
  - apply forceCloseInLoop_ok. by left.
  - apply outcome_Ok. left. destruct (startReadInLoop_live c Hc) as [? (? & _)].
    split; [done|]. rewrite <- Hl. by apply life_same.
  - apply outcome_Ok. left. destruct (stopReadInLoop_live c Hc) as [? (? & _)].
    split; [done|]. rewrite <- Hl. by apply life_same.
Qed.

(** Functors that run after the end do nothing to the stream or the queue. *)
Lemma run_task_over t c :
  over_inv c -> t <> TConnectDestroyed -> in_time t c = true -> outcome LengthError (run_task kernel user t c) over_inv.
Proof using Huser.
  intros Hc Ht Hit. pose proof Hc as [Hs Hi Ho Hst He Hm Hend].
  assert (Hinv : forall e, is_life e = false ->
            outcome LengthError (invoke kernel user e c) over_inv).
  { intros e Hev. destruct (invoke_quiet e c Hs He Hi) as (c' & -> & [Q1 Q2 Q3 Q4 Q5 Q6 Q7 Q8 Q9]).
    apply outcome_Ok. assert (Hl : life c' = life c).
    { transitivity (life (emit e c)); [by apply life_same|]. by rewrite life_emit, Hev, app_nil_r. }
    cbn in *. split; rewrite ?Q1, ?Q3, ?Q5, ?Q6, ?Q7, ?Q8, ?Hl; done. }
  destruct t as [d| | | |n| | |]; cbn [run_task]; [| | |by apply Hinv|by apply Hinv| | |done].
  - unfold sendInLoop. rewrite bool_decide_true by done. by apply outcome_Ok.
  - apply outcome_Ok. unfold shutdownInLoop. by case_match.
  - unfold forceCloseInLoop. rewrite Hs. by apply outcome_Ok.
  - cbn in Hit. by rewrite Hs in Hit.
  - apply outcome_Ok. unfold stopReadInLoop. case_match; [|done]. split; cbn; try done. by rewrite He.
Qed.

Lemma run_functor_ok t l c :
  functors c = t :: l -> in_time t c = true -> begun c -> outcome LengthError (run_task kernel user t (set_functors l c)) begun.
Proof using Hkernel Huser.
  intros Hf Hit [[Hc Hl]|Hc].
  - pose proof Hc as [Ha Hi Ho Hst Hm Hfin Htd Hmsg Hd]. rewrite Hf in Htd, Hmsg.
    apply not_elem_of_cons in Htd as [Hne Htd].
    apply run_task_live; [|done|done|].
    + split; try done. intros d Hin. apply Hmsg. by right.
    + intros d ->. apply Hmsg. left.
  - pose proof Hc as [Hs Hi Ho Hst He Hm Hend]. rewrite Hf in Hm, Hend.
    destruct Hend as [(Hl & Hd & l0 & El & Hn)|(Hd & Hn & Hl)].
    + destruct l0 as [|t0 l0]; injection El as -> ->.
      { by apply connectDestroyed_over. }
      apply not_elem_of_cons in Hn as [Hne Hn].
      eapply outcome_impl; [apply run_task_over; [|done|exact Hit]|by right]. split; cbn; try done.
      * intros d Hin. apply Hm. by right.
      * left. split_and!; [done..|]. by exists l0.
    + apply not_elem_of_cons in Hn as [Hne Hn].
      eapply outcome_impl; [apply run_task_over; [|done|exact Hit]|by right]. split; cbn; try done.
      * intros d Hin. apply Hm. by right.
      * by right.
Qed.

(** *** Calls from other threads *)

Lemma alive_live c : conn_inv c -> alive (state_ c) = true -> live_inv c /\ life c = [EvUp].
Proof.
  intros [Hc|[Hc|Hc]] Ha; [rewrite (fi_state _ Hc) in Ha|done|rewrite (oi_state _ Hc) in Ha]; done.
Qed.

Lemma forceClose_inv c : conn_inv c -> conn_inv (forceClose c).
Proof.
  intros Hc. unfold forceClose. destruct (alive (state_ c)) eqn:Ea; [|done].
  destruct (alive_live c Hc Ea) as [Hl Hlf]. right. left.
  split; [|done]. apply live_queue; [by apply live_disconnecting|done..].
Qed.

Lemma perform_ok a c :
  conn_inv c -> enabled a c = true ->
  outcome LengthError (perform kernel network user a c) conn_inv.
Proof using Hkernel Hnetwork Huser.
  intros Hc Hen. destruct a as [|revents| |data| | | | | |]; cbn [enabled perform] in *.
  - apply bool_decide_eq_true in Hen.
    destruct Hc as [Hc|[[Hc _]|Hc]]; [|pose proof (li_alive _ Hc); by rewrite Hen in *
                                     |pose proof (oi_state _ Hc); congruence].
    eapply outcome_impl; [by apply connectEstablished_ok|apply begun_inv].
  - apply andb_true_iff in Hen as [[Hne Hrep]%andb_true_iff Hu].
    unfold isNoneEvent in Hne. apply negb_true_iff in Hu.
    destruct Hc as [Hc|[[Hc Hl]|Hc]]; [by rewrite (fi_events _ Hc) in Hne| |by rewrite (oi_events _ Hc) in Hne].
    eapply outcome_impl; [by apply dispatch_ok|apply begun_inv].
  - destruct (functors c) as [|t l] eqn:Ef; [done|].
    eapply outcome_impl; [apply run_functor_ok; [done|done|]|apply begun_inv].
    destruct Hc as [Hc|Hc]; [|done]. by rewrite (fi_functors _ Hc) in Ef.
  - unfold send. case_bool_decide as Es; apply outcome_Ok; [|done].
    destruct (alive_live c Hc) as [Hl Hlf]; [by rewrite Es|]. right. left. split; [|done].
    apply live_queue; [done|done|]. intros d [= <-]. lia.
  - apply outcome_Ok. unfold shutdown. case_bool_decide as Es; [|done].
    destruct (alive_live c Hc) as [Hl Hlf]; [by rewrite Es|]. right. left. split; [|done].
    apply live_queue; [by apply live_disconnecting|done..].
  - apply outcome_Ok. by apply forceClose_inv.
  - apply outcome_Ok. destruct (alive_live c Hc Hen) as [Hl Hlf]. right. left. split; [|done]. by apply live_queue.
  - apply outcome_Ok. destruct (alive_live c Hc Hen) as [Hl Hlf]. right. left. split; [|done]. by apply live_queue.
  - apply outcome_Ok. apply forceClose_inv.
    destruct Hc as [[]|[[[] ?]|[]]]; [|right; left; split; [by split|done]|right; right; by split].
    by left.
  - apply bool_decide_eq_true in Hen. destruct (alive_live c Hc) as [Hl Hlf]; [by rewrite Hen|].
    eapply outcome_impl; [by apply connectDestroyed_live|apply begun_inv].
Qed.

Lemma fresh_new loop fd b wc hw :
  newBuffer kInitialSize = Ok b -> fresh_inv (newTcpConnection loop fd b b wc hw).
Proof.
  intros Hb. destruct (newBuffer_spec kInitialSize) as (b' & E & Hi & Hc & _); [by vm_compute..|].
  rewrite Hb in E. injection E as <-. by split.
Qed.

Lemma connection_inv loop fd b wc hw c :
  newBuffer kInitialSize = Ok b ->
  reachable kernel network user (newTcpConnection loop fd b b wc hw) c -> conn_inv c.
Proof using Hkernel Hnetwork Huser.
  intros Hb. induction 1 as [|a c c' _ IH Hen Hp]; [left; by apply fresh_new|].
  destruct (perform_ok a c IH Hen) as [(c2 & E & ?)|E]; congruence.
Qed.


(** [C1] Stream integrity: at every moment the bytes put on the wire followed by the
    bytes in the output buffer are exactly the messages sendInLoop took over, whole and
    in order.  While the connection is alive the channel asks for write events exactly
    when the output buffer is not empty, and once the write side is shut down nothing
    is left unsent. *)
Theorem stream_integrity loop fd b wc hw c :
  newBuffer kInitialSize = Ok b ->
  reachable kernel network user (newTcpConnection loop fd b b wc hw) c ->
  wire c ++ content (outputBuffer_ c) = accepted c /\
  (alive (state_ c) = true ->
     (isWriting (channel_ c) = true <-> content (outputBuffer_ c) <> []) /\
     (fin c = true -> wire c = accepted c)).
Proof using Hkernel Hnetwork Huser.
  intros Hb Hr. destruct (connection_inv _ _ _ _ _ _ Hb Hr) as [Hc|[[Hc _]|Hc]].
  - destruct (fi_empty _ Hc) as (-> & -> & ->). by rewrite (fi_state _ Hc).
  - split; [apply Hc|]. intros _. destruct (li_mask _ Hc) as (r & w & Hm & Hw). split.
    + by rewrite (mask_isWriting _ _ _ Hm).
    + intros Hf. rewrite <- (li_stream _ Hc), (li_fin _ Hc Hf). by rewrite app_nil_r.
  - split; [apply Hc|]. by rewrite (oi_state _ Hc).
Qed.

End Actions.

Lemma no_calls_ok : user_ok no_calls.
Proof. intros e c a Ha. by apply elem_of_nil in Ha. Qed.

(** ** Where the code's assumptions fail *)

Section Faults.
Context (kernel : nat -> bool -> list char -> written).
Context (user : event -> TcpConnection -> list api).

(** A connection on which shutdown() or forceClose() was called, still watching
    its socket, cannot be destroyed: connectDestroyed disables the channel only in
    state kConnected, so the assertion in Channel::remove fails.  TcpServer's
    destructor calls connectDestroyed on every connection it still has. *)
Theorem destroy_while_disconnecting_fails c :
  state_ c = kDisconnecting -> events_ (channel_ c) <> 0 ->
  connectDestroyed kernel user c = Fault AssertFailure.
Proof.
  intros Hs He. unfold connectDestroyed. rewrite Hs. cbn [mbind res_bind].
  rewrite bool_decide_false by done. cbn [mbind res_bind].
  unfold chan_remove, isNoneEvent, kNoneEvent. by replace (events_ (channel_ c) =? 0) with false by lia.
Qed.

(** startRead() on a connection that is already down makes its channel watch the
    socket again, so that connectDestroyed, already queued, fails an assertion. *)
Theorem startRead_after_down_fails c :
  state_ c = kDisconnected ->
  connectDestroyed kernel user (startReadInLoop c) = Fault AssertFailure.
Proof.
  intros Hs. unfold connectDestroyed.
  assert (Hst : state_ (startReadInLoop c) = kDisconnected) by (unfold startReadInLoop; by case_match).
  rewrite Hst, bool_decide_false by done. cbn [mbind res_bind].
  unfold chan_remove, isNoneEvent, kNoneEvent.
  assert (He : events_ (channel_ (startReadInLoop c)) <> 0).
  { unfold startReadInLoop. destruct (reading_ c); cbn [negb orb].
    - destruct (isReading (channel_ c)) eqn:E; cbn.
      + unfold isReading, has_bits in E. intros E0. by rewrite E0 in E.
      + intros E0. apply Z.lor_eq_0_iff in E0 as [_ ?]. done.
    - cbn. intros E0. apply Z.lor_eq_0_iff in E0 as [_ ?]. done. }
  by replace (events_ (channel_ (startReadInLoop c)) =? 0) with false by lia.
Qed.

(** End of file: [readFd] returns 0. *)
Lemma readFd_eof readv b :
  inv b -> (forall iov, readv iov = inr []) -> exists b', readFd readv b = Ok (0, None, b').
Proof.
  intros Hi He. unfold readFd. rewrite He, writableBytes_eq by done.
  rewrite take_nil, (@zlen_nil ascii). destruct (scatter_first b [] Hi) as (l & -> & _).
  { rewrite (@zlen_nil ascii). buffer_unfold. lia. }
  cbn [mbind res_bind]. unwrap.
  replace (0 <=? vsize b - writerIndex_ b) with true by (buffer_unfold; lia). by eexists.
Qed.

(** A poll result of POLLHUP and POLLPRI without POLLIN makes handleEventWithGuard
    call the close callback and then the read callback; the read finds the end of file
    and closes the connection a second time, which fails the assertion in
    handleClose. *)
Theorem urgent_hangup_closes_twice network c :
  live_inv c -> user_ok user ->
  hasCloseCallback (channel_ c) = true -> hasReadCallback (channel_ c) = true ->
  (forall i iov, network i iov = inr []) ->
  dispatch kernel network user (Z.lor POLLHUP POLLPRI) c = Fault AssertFailure.
Proof.
  intros Hc Hu Hcb Hrb Heof. unfold dispatch.
  set (ch := set_revents _ (channel_ c)).
  assert (Hl : handleEvent true ch = [CloseCb; ReadCb]).
  { unfold handleEvent, handleEventWithGuard, ch. cbn -[has_bits Z.lor].
    rewrite Hcb, Hrb. by destruct (tied_ (channel_ c)). }
  rewrite Hl. cbn [run_callbacks run_callback].
  assert (Hc0 : live_inv (set_channel ch c)) by (destruct Hc; by split).
  unfold handleClose at 1. rewrite (li_alive _ Hc0). cbn [check mbind res_bind].
  destruct (go_down kernel user Hu (set_channel ch c) Hc0) as (c1 & -> & Hs & Hi & _).
  cbn [mbind res_bind]. unfold handleRead. cbn [nreads inputBuffer_ queueInLoop emit].
  destruct (readFd_eof (network (nreads c1)) _ Hi (Heof _)) as (b' & ->). cbn [mbind res_bind].
  unfold handleClose. cbn. by rewrite Hs.
Qed.
End Faults.

(** ** A concrete connection *)

(** A kernel that takes at most three bytes per write, until the write side is shut. *)
Definition sample_kernel (i : nat) (f : bool) (d : list char) : written :=
  if f then PeerGone else Wrote (Z.min 3 (zlen d)).

Lemma sample_kernel_ok : kernel_ok sample_kernel.
Proof.
  split; [|done]. intros i f d n. unfold sample_kernel. destruct f; [done|]. intros [= <-].
  pose proof (zlen_nonneg d). lia.
Qed.

(** The peer sends ten bytes, then closes. *)
Definition sample_network (i : nat) : kernel_readv := fun iov =>
  match i with O => sample_readv iov | _ => inr [] end.

Lemma sample_network_ok i : readv_contract (sample_network i).
Proof.
  destruct i; [exact sample_readv_ok|]. intros iov bytes Hf [= <-]. rewrite zlen_nil.
  induction Hf; cbn; lia.
Qed.

(** The user echoes every message, then shuts down. *)
Definition sample_user (e : event) (c : TcpConnection) : list api :=
  match e with EvMessage => [ASendInput; AShutdown] | _ => [] end.

Lemma sample_user_ok : user_ok sample_user.
Proof.
  intros e c a. destruct e; cbn; rewrite ?elem_of_cons, ?elem_of_nil; try tauto.
  intros [->|[->|[]]]; done.
Qed.

Definition small_buffer : Buffer := mkBuffer (replicate 1032 (chr 0)) 8 8.

Definition sample_conn : TcpConnection := newTcpConnection 9 5 small_buffer small_buffer true false.

(** Established, then the message is read and three bytes are echoed at once. *)
Definition sample_echo : res TcpConnection :=
  c1 ← perform sample_kernel sample_network sample_user Establish sample_conn;
  perform sample_kernel sample_network sample_user (Poll POLLIN) c1.

Definition get_conn (m : res TcpConnection) : TcpConnection :=
  match m with Ok c => c | Fault _ => sample_conn end.

Lemma sample_echo_reachable :
  reachable sample_kernel sample_network sample_user sample_conn (get_conn sample_echo).
Proof.
  eapply (ReachStep _ _ _ _ (Poll POLLIN)
    (get_conn (perform sample_kernel sample_network sample_user Establish sample_conn)));
    [|vm_compute; reflexivity|vm_compute; reflexivity].
  eapply (ReachStep _ _ _ _ Establish sample_conn); [constructor|vm_compute; reflexivity..].
Qed.

Example sample_echo_state :
  let c := get_conn sample_echo in
  (state_ c, wire c, content (outputBuffer_ c), fin c) = (kDisconnecting, lit "012", lit "3456789", false).
Proof. vm_compute. reflexivity. Qed.


Lemma stream_integrity_witness :
  accepted (get_conn sample_echo) = lit "0123456789" /\
  wire (get_conn sample_echo) ++ content (outputBuffer_ (get_conn sample_echo)) = lit "0123456789".
Proof.
  split; [vm_compute; reflexivity|].
  exact (proj1 (stream_integrity sample_kernel sample_kernel_ok sample_network sample_network_ok
           sample_user sample_user_ok 9 5 small_buffer true false (get_conn sample_echo)
           ltac:(vm_compute; reflexivity) sample_echo_reachable)).
Defined.

Lemma destroy_while_disconnecting_fails_witness :
  connectDestroyed sample_kernel sample_user (get_conn sample_echo) = Fault AssertFailure.
Proof.
  apply (destroy_while_disconnecting_fails sample_kernel sample_user (get_conn sample_echo));
    vm_compute; [reflexivity|discriminate].
Defined.

Lemma startRead_after_down_fails_witness :
  connectDestroyed sample_kernel sample_user (startReadInLoop (setState kDisconnected sample_conn))
  = Fault AssertFailure.
Proof. apply (startRead_after_down_fails sample_kernel sample_user (setState kDisconnected sample_conn)). reflexivity. Defined.

Lemma urgent_hangup_closes_twice_witness :
  dispatch sample_kernel (fun _ _ => inr []) sample_user (Z.lor POLLHUP POLLPRI)
    (get_conn (perform sample_kernel sample_network sample_user Establish sample_conn)) = Fault AssertFailure.
Proof.
  apply (urgent_hangup_closes_twice sample_kernel sample_user (fun _ _ => inr []));
    [|exact sample_user_ok|vm_compute; reflexivity|vm_compute; reflexivity|reflexivity].
  destruct (connection_inv sample_kernel sample_kernel_ok sample_network sample_network_ok
    sample_user sample_user_ok 9 5 small_buffer true false
    (get_conn (perform sample_kernel sample_network sample_user Establish sample_conn)))
    as [Hf|[[Hl _]|Ho]]; [vm_compute; reflexivity| |by discriminate (fi_state _ Hf)|done
                         |by discriminate (oi_state _ Ho)].
  eapply (ReachStep _ _ _ _ Establish sample_conn); [constructor|vm_compute; reflexivity..].
Defined.
