(* ===== verification/Decimal.v ===== *)
(** * Decimal numbers as the sources print and read them

    [dec] is what printf's integer conversions produce, [value] reads digits back. *)

From S2P Require Import Prelude.

Definition digit (d : Z) : char := chr (48 + d).

Definition isdigit (c : char) : bool := (48 <=? ord c) && (ord c <=? 57).

(** [isspace] in the C locale *)
Definition isspace (c : char) : bool :=
  (ord c =? 32) || ((9 <=? ord c) && (ord c <=? 13)).

Fixpoint digits (fuel : nat) (n : Z) : list char :=
  match fuel with
  | O => []
  | S fuel => (if n <? 10 then [] else digits fuel (n / 10)) ++ [digit (n mod 10)]
  end.

(** [%d] and the like; 20 digits hold every 64-bit number. *)
Definition dec (z : Z) : list char :=
  if z <? 0 then chr 45 :: digits 20 (- z) else digits 20 z.

Definition value (s : list char) : Z := foldl (fun acc c => acc * 10 + (ord c - 48)) 0 s.

Lemma ord_digit d : 0 <= d < 10 -> ord (digit d) = 48 + d.
Proof. intros. unfold digit. apply ord_chr. lia. Qed.

Lemma value_snoc s c : value (s ++ [c]) = value s * 10 + (ord c - 48).
Proof. unfold value. by rewrite foldl_app. Qed.

Lemma pow10_succ n : 10 ^ Z.of_nat (S n) = 10 * 10 ^ Z.of_nat n.
Proof. rewrite Nat2Z.inj_succ, Z.pow_succ_r by lia. lia. Qed.

Lemma div10_bound n k : 0 <= n < 10 ^ Z.of_nat (S k) -> 0 <= n / 10 < 10 ^ Z.of_nat k.
Proof.
  rewrite pow10_succ. intros. split; [apply Z.div_pos; lia|apply Z.div_lt_upper_bound; lia].
Qed.

Lemma digits_value fuel n : 0 <= n < 10 ^ Z.of_nat fuel -> value (digits fuel n) = n.
Proof.
  revert n. induction fuel as [|fuel IH]; intros n Hn; [cbn in *; lia|]. cbn [digits].
  pose proof (Z.mod_pos_bound n 10). rewrite value_snoc, ord_digit by lia.
  destruct (n <? 10) eqn:E.
  - rewrite Z.mod_small by lia. cbn. lia.
  - rewrite IH by (by apply div10_bound). pose proof (Z.div_mod n 10). lia.
Qed.

Lemma digits_digit fuel n : 0 <= n -> Forall (fun c => isdigit c = true) (digits fuel n).
Proof.
  revert n. induction fuel as [|fuel IH]; intros n Hn; cbn [digits]; [constructor|].
  apply Forall_app. split.
  - destruct (n <? 10); [constructor|]. apply IH, Z.div_pos; lia.
  - repeat constructor. pose proof (Z.mod_pos_bound n 10). unfold isdigit. rewrite ord_digit; lia.
Qed.

(** At most [k] digits below [10 ^ k]. *)
Lemma digits_length fuel n (k : nat) :
  (0 < k)%nat -> 0 <= n < 10 ^ Z.of_nat k -> (length (digits fuel n) <= k)%nat.
Proof.
  revert n k. induction fuel as [|fuel IH]; intros n k Hk Hn; cbn [digits]; [cbn; lia|].
  rewrite length_app. cbn [length]. destruct (n <? 10) eqn:E; [cbn; lia|].
  destruct k as [|[|k]]; [lia|cbn in Hn; lia|].
  specialize (IH (n / 10) (S k) ltac:(lia) (div10_bound _ _ Hn)). lia.
Qed.

Lemma digits_nonempty fuel n : (0 < fuel)%nat -> digits fuel n <> [].
Proof. destruct fuel; [lia|]. intros _ E. by apply app_eq_nil in E as [_ ?]. Qed.

Lemma dec_nonneg z : 0 <= z -> dec z = digits 20 z.
Proof. intros. unfold dec. by replace (z <? 0) with false by lia. Qed.

Lemma zlen_dec z (k : nat) : (0 < k)%nat -> 0 <= z < 10 ^ Z.of_nat k -> zlen (dec z) <= Z.of_nat k.
Proof. intros. rewrite dec_nonneg by lia. unfold zlen. apply inj_le, digits_length; done. Qed.

Lemma dec_value z : 0 <= z < 2 ^ 64 -> value (dec z) = z.
Proof. intros. rewrite dec_nonneg by lia. apply digits_value. lia. Qed.

Lemma dec_inj x y : 0 <= x < 2 ^ 64 -> 0 <= y < 2 ^ 64 -> dec x = dec y -> x = y.
Proof. intros Hx Hy E. rewrite <- (dec_value x Hx), <- (dec_value y Hy). by rewrite E. Qed.

(** [%02d] and the like for numbers that are not negative: at least [n] characters. *)
Definition padded (c : char) (n : nat) (z : Z) : list char := replicate (n - length (dec z)) c ++ dec z.

Lemma value_zeros n s : value (replicate n (digit 0) ++ s) = value s.
Proof.
  unfold value. rewrite foldl_app. f_equal. induction n as [|n IH]; [done|].
  rewrite replicate_S_end, foldl_app, IH. done.
Qed.

Lemma padded_length c n z : (0 < n)%nat -> 0 <= z < 10 ^ Z.of_nat n -> length (padded c n z) = n.
Proof.
  intros Hn Hz. unfold padded. rewrite length_app, length_replicate. pose proof (zlen_dec z n Hn Hz). unfold zlen in *. lia.
Qed.

Lemma padded_value n z : 0 <= z < 2 ^ 64 -> value (padded (digit 0) n z) = z.
Proof. intros Hz. unfold padded. by rewrite value_zeros, dec_value. Qed.

(** Four digits need no padding. *)
Lemma padded_year c z : 1000 <= z < 10000 -> padded c 4 z = dec z /\ length (dec z) = 4%nat.
Proof.
  intros Hz. assert (Hl : length (dec z) = 4%nat).
  { pose proof (zlen_dec z 4 ltac:(lia) ltac:(cbn; lia)) as Hle. unfold zlen in Hle.
    destruct (decide (length (dec z) <= 3)%nat) as [H3|]; [|lia]. exfalso.
    assert (Hv : value (dec z) < 1000); [|rewrite dec_value in Hv; lia].
    pose proof (digits_digit 20 z ltac:(lia)) as Hd. rewrite <- dec_nonneg in Hd by lia.
    destruct (dec z) as [|a [|b [|c' [|]]]]; cbn in H3; try lia; unfold value; cbn [foldl];
      repeat match goal with H : Forall _ (_ :: _) |- _ => apply Forall_cons in H as [? H] end; unfold isdigit in *; lia. }
  split; [|done]. unfold padded. by rewrite Hl.
Qed.
