(* ===== verification/Http.v ===== *)
(** * HTTP requests, responses and the server's message handler
      (src/http/HttpRequest.h, HttpContext.h, HttpContext.cc, HttpResponse.h,
       HttpResponse.cc, HttpServer.cc)

    Strings are lists of characters; [std::map<string, string>] is the sorted
    association list of StdSet.v.  The parser works on the [Buffer] of Buffer.v.  Its
    [while (hasMore)] loop is a fuelled recursion; HttpTheory.v shows how much fuel is
    enough. *)

From S2P Require Import Prelude Decimal StdSet Timestamp Buffer TcpConnection.

Abbreviation str := (list char) (only parsing).

(** ** HttpRequest *)

Inductive Method := kInvalid | kGet | kPost | kHead | kPut | kDelete.
Inductive Version := kUnknownVersion | kHttp10 | kHttp11.

#[global] Instance Method_eq_dec : EqDecision Method.
Proof. solve_decision. Defined.
#[global] Instance Version_eq_dec : EqDecision Version.
Proof. solve_decision. Defined.

Record HttpRequest := mkRequest {
  method_ : Method;
  version_ : Version;
  path_ : str;
  query_ : str;
  receiveTime_ : Timestamp;
  headers_ : list (str * str);
  body_ : str
}.

Definition newRequest : HttpRequest := mkRequest kInvalid kUnknownVersion [] [] 0 [] [].

Definition setVersion (v : Version) (r : HttpRequest) : HttpRequest :=
  mkRequest (method_ r) v (path_ r) (query_ r) (receiveTime_ r) (headers_ r) (body_ r).
Definition setPath (p : str) (r : HttpRequest) : HttpRequest :=
  mkRequest (method_ r) (version_ r) p (query_ r) (receiveTime_ r) (headers_ r) (body_ r).
Definition setQuery (q : str) (r : HttpRequest) : HttpRequest :=
  mkRequest (method_ r) (version_ r) (path_ r) q (receiveTime_ r) (headers_ r) (body_ r).
Definition setReceiveTime (t : Timestamp) (r : HttpRequest) : HttpRequest :=
  mkRequest (method_ r) (version_ r) (path_ r) (query_ r) t (headers_ r) (body_ r).
Definition setRequestBody (b : str) (r : HttpRequest) : HttpRequest :=
  mkRequest (method_ r) (version_ r) (path_ r) (query_ r) (receiveTime_ r) (headers_ r) b.

Definition method_of (m : str) : Method :=
  if bool_decide (m = lit "GET") then kGet
  else if bool_decide (m = lit "POST") then kPost
  else if bool_decide (m = lit "HEAD") then kHead
  else if bool_decide (m = lit "PUT") then kPut
  else if bool_decide (m = lit "DELETE") then kDelete
  else kInvalid.

(** [HttpRequest::setMethod]: whether the method is known, and the request. *)
Definition setMethod (m : str) (r : HttpRequest) : res (bool * HttpRequest) :=
  _ ← check (bool_decide (method_ r = kInvalid));
  let m' := method_of m in
  Ok (negb (bool_decide (m' = kInvalid)),
      mkRequest m' (version_ r) (path_ r) (query_ r) (receiveTime_ r) (headers_ r) (body_ r)).

Definition methodString (m : Method) : str :=
  lit match m with
      | kGet => "GET" | kPost => "POST" | kHead => "HEAD" | kPut => "PUT" | kDelete => "DELETE"
      | kInvalid => "UNKNOWN"
      end.

(** The two trimming loops of [addHeader]. *)
Fixpoint skip_spaces (s : str) : str :=
  match s with
  | [] => []
  | c :: s' => if isspace c then skip_spaces s' else s
  end.

Definition trim_end (s : str) : str := rev (skip_spaces (rev s)).

(** [HttpRequest::addHeader(start, colon, end)]: [field] is before the colon, [rest]
    after it. *)
Definition addHeader (field rest : str) (r : HttpRequest) : HttpRequest :=
  mkRequest (method_ r) (version_ r) (path_ r) (query_ r) (receiveTime_ r)
    (map_set field (trim_end (skip_spaces rest)) (headers_ r)) (body_ r).

Definition getHeader (field : str) (r : HttpRequest) : str :=
  default [] (map_find field (headers_ r)).

(** [HttpRequest::swap]: every member but [body_]. *)
Definition swap_request (a b : HttpRequest) : HttpRequest * HttpRequest :=
  (mkRequest (method_ b) (version_ b) (path_ b) (query_ b) (receiveTime_ b) (headers_ b) (body_ a),
   mkRequest (method_ a) (version_ a) (path_ a) (query_ a) (receiveTime_ a) (headers_ a) (body_ b)).

(** ** HttpContext *)

Inductive HttpRequestParseState := kExpectRequestLine | kExpectHeaders | kExpectBody | kGotAll.

#[global] Instance ParseState_eq_dec : EqDecision HttpRequestParseState.
Proof. solve_decision. Defined.

Record HttpContext := mkContext { pstate_ : HttpRequestParseState; request_ : HttpRequest }.

Definition newContext : HttpContext := mkContext kExpectRequestLine newRequest.

Definition gotAll (c : HttpContext) : bool := bool_decide (pstate_ c = kGotAll).

(** [HttpContext::reset] *)
Definition reset_context (c : HttpContext) : HttpContext :=
  mkContext kExpectRequestLine (swap_request (request_ c) newRequest).1.

Definition sp : char := chr 32.

(** [HttpContext::processRequestLine], on the characters of the line. *)
Definition processRequestLine (line : str) (r : HttpRequest) : res (bool * HttpRequest) :=
  match find_char sp line with
  | None => Ok (false, r)
  | Some space =>
      '(known, r1) ← setMethod (take (Z.to_nat space) line) r;
      if (known : bool) then
        let start := drop (Z.to_nat (space + 1)) line in
        match find_char sp start with
        | None => Ok (false, r1)
        | Some space2 =>
            let target := take (Z.to_nat space2) start in
            let r2 := match find_char (chr 63) target with
                      | Some question =>
                          setQuery (drop (Z.to_nat question) target)
                            (setPath (take (Z.to_nat question) target) r1)
                      | None => setPath target r1
                      end in
            let version := drop (Z.to_nat (space2 + 1)) start in
            if (zlen version =? 8) && bool_decide (take 7 version = lit "HTTP/1.")
            then match version !! 7%nat with
                 | Some c =>
                     if bool_decide (c = chr 49) then Ok (true, setVersion kHttp11 r2)
                     else if bool_decide (c = chr 48) then Ok (true, setVersion kHttp10 r2)
                     else Ok (false, r2)
                 | None => Ok (false, r2)
                 end
            else Ok (false, r2)
        end
      else Ok (false, r1)
  end.

(** One round of the loop of [HttpContext::parseRequest]: [hasMore], [ok], the buffer
    and the context afterwards. *)
Definition parse_round (receiveTime : Timestamp) (ok : bool) (b : Buffer) (c : HttpContext)
  : res (bool * bool * Buffer * HttpContext) :=
  match pstate_ c with
  | kExpectRequestLine =>
      crlf ← findCRLF b;
      match crlf with
      | Some p =>
          line ← read_range (buffer_ b) (peek b) p;
          '(ok', r) ← processRequestLine line (request_ c);
          if (ok' : bool) then
            b' ← retrieveUntil (p + 2) b;
            Ok (true, true, b', mkContext kExpectHeaders (setReceiveTime receiveTime r))
          else Ok (false, false, b, mkContext kExpectRequestLine r)
      | None => Ok (false, ok, b, c)
      end
  | kExpectHeaders =>
      crlf ← findCRLF b;
      match crlf with
      | Some p =>
          line ← read_range (buffer_ b) (peek b) p;
          let c' := match find_char (chr 58) line with
                    | Some colon =>
                        mkContext kExpectHeaders
                          (addHeader (take (Z.to_nat colon) line)
                             (drop (Z.to_nat (colon + 1)) line) (request_ c))
                    | None => mkContext kExpectBody (request_ c)
                    end in
          b' ← retrieveUntil (p + 2) b;
          Ok (true, ok, b', c')
      | None => Ok (false, ok, b, c)
      end
  | kExpectBody =>
      r ← (if 0 <? readableBytes b
           then body ← read_range (buffer_ b) (peek b) (beginWrite b);
                Ok (setRequestBody body (request_ c))
           else Ok (request_ c));
      Ok (false, ok, b, mkContext kGotAll r)
  | kGotAll => Ok (true, ok, b, c)
  end.

(** [HttpContext::parseRequest]; [None] when the fuel runs out. *)
Fixpoint parse_loop (fuel : nat) (receiveTime : Timestamp) (ok : bool) (b : Buffer)
    (c : HttpContext) : option (res (bool * Buffer * HttpContext)) :=
  match fuel with
  | O => None
  | S fuel =>
      match parse_round receiveTime ok b c with
      | Fault f => Some (Fault f)
      | Ok (hasMore, ok', b', c') =>
          if hasMore then parse_loop fuel receiveTime ok' b' c' else Some (Ok (ok', b', c'))
      end
  end.

Definition parseRequest (fuel : nat) (receiveTime : Timestamp) (b : Buffer) (c : HttpContext) :=
  parse_loop fuel receiveTime true b c.

(** ** HttpResponse *)

Record HttpResponse := mkResponse {
  resp_headers_ : list (str * str);
  statusCode_ : Z;
  statusMessage_ : str;
  closeConnection_ : bool;
  resp_body_ : str
}.

Definition newResponse (close : bool) : HttpResponse := mkResponse [] 0 [] close [].

Definition setStatusCode (code : Z) (r : HttpResponse) : HttpResponse :=
  mkResponse (resp_headers_ r) code (statusMessage_ r) (closeConnection_ r) (resp_body_ r).
Definition setStatusMessage (m : str) (r : HttpResponse) : HttpResponse :=
  mkResponse (resp_headers_ r) (statusCode_ r) m (closeConnection_ r) (resp_body_ r).
Definition setCloseConnection (on : bool) (r : HttpResponse) : HttpResponse :=
  mkResponse (resp_headers_ r) (statusCode_ r) (statusMessage_ r) on (resp_body_ r).
Definition addResponseHeader (key value : str) (r : HttpResponse) : HttpResponse :=
  mkResponse (map_set key value (resp_headers_ r)) (statusCode_ r) (statusMessage_ r)
    (closeConnection_ r) (resp_body_ r).
Definition setContentType (contentType : str) : HttpResponse -> HttpResponse :=
  addResponseHeader (lit "Content-Type") contentType.
Definition setResponseBody (b : str) (r : HttpResponse) : HttpResponse :=
  mkResponse (resp_headers_ r) (statusCode_ r) (statusMessage_ r) (closeConnection_ r) b.

(** [snprintf(buf, sizeof buf, ...)] with a 32-byte buffer truncates. *)
Definition snprintf32 (s : str) : str := take 31 s.

Fixpoint append_all (l : list str) (b : Buffer) : res Buffer :=
  match l with
  | [] => Ok b
  | s :: l => b' ← append s b; append_all l b'
  end.

(** [HttpResponse::appendToBuffer] *)
Definition appendToBuffer (r : HttpResponse) (output : Buffer) : res Buffer :=
  b1 ← append_all [snprintf32 (lit "HTTP/1.1 " ++ dec (statusCode_ r) ++ lit " ");
                   statusMessage_ r; kCRLF] output;
  b2 ← (if closeConnection_ r
        then append_all [lit "Connection: close" ++ kCRLF] b1
        else append_all [snprintf32 (lit "Content-Length: " ++ dec (zlen (resp_body_ r)) ++ kCRLF);
                         lit "Connection: Keep-Alive" ++ kCRLF] b1);
  b3 ← append_all (concat ((fun h => [h.1; lit ": "; h.2; kCRLF]) <$> resp_headers_ r)) b2;
  append_all [kCRLF; resp_body_ r] b3.

(** ** HttpServer *)

(** [detail::defaultHttpCallback] *)
Definition defaultHttpCallback (_ : HttpRequest) (resp : HttpResponse) : HttpResponse :=
  setCloseConnection true (setStatusMessage (lit "Not Found") (setStatusCode 404 resp)).

Section Server.
Context (httpCallback_ : HttpRequest -> HttpResponse -> HttpResponse).

(** The decision of [onRequest] whether the connection is closed after the response. *)
Definition wants_close (req : HttpRequest) : bool :=
  let connection := getHeader (lit "Connection") req in
  bool_decide (connection = lit "close")
  || (bool_decide (version_ req = kHttp10) && negb (bool_decide (connection = lit "Keep-Alive"))).

(** [HttpServer::onRequest]: the calls on the connection. *)
Definition onRequest (req : HttpRequest) : res (list api) :=
  let response := httpCallback_ req (newResponse (wants_close req)) in
  buf ← newBuffer kInitialSize;
  buf ← appendToBuffer response buf;
  data ← read_range (buffer_ buf) (peek buf) (beginWrite buf);
  Ok (ASend data :: if closeConnection_ response then [AShutdown] else []).

Definition bad_request : str := lit "HTTP/1.1 400 Bad Request" ++ kCRLF ++ kCRLF.

(** [HttpServer::onMessage]: the calls on the connection, the buffer, the context. *)
Definition onMessage (fuel : nat) (receiveTime : Timestamp) (b : Buffer) (c : HttpContext)
  : option (res (list api * Buffer * HttpContext)) :=
  match parseRequest fuel receiveTime b c with
  | None => None
  | Some (Fault f) => Some (Fault f)
  | Some (Ok (ok, b1, c1)) =>
      let calls := if (ok : bool) then [] else [ASend bad_request; AShutdown] in
      Some (if gotAll c1
            then more ← onRequest (request_ c1); Ok (calls ++ more, b1, reset_context c1)
            else Ok (calls, b1, c1))
  end.
End Server.
