(* ===== verification/HttpTheory.v ===== *)
(** * Theorems about the HTTP parser, responses and message handler

    The buffer-based parser is shown to compute a function of the buffer's content
    ([spec_loop]); termination, independence of how the input is cut into pieces, and
    the round trip with a request printer are proved of that function and carried
    over. *)

From S2P Require Import Prelude Decimal StdSet Timestamp Buffer BufferTheory TcpConnection Http.

(** ** The parser as a function of the content *)

Definition spec_round (rt : Timestamp) (ok : bool) (s : str) (c : HttpContext)
  : res (bool * bool * str * HttpContext) :=
  match pstate_ c with
  | kExpectRequestLine =>
      match split_line s with
      | Some (line, rest) =>
          '(ok', r) ← processRequestLine line (request_ c);
          if (ok' : bool) then Ok (true, true, rest, mkContext kExpectHeaders (setReceiveTime rt r))
          else Ok (false, false, s, mkContext kExpectRequestLine r)
      | None => Ok (false, ok, s, c)
      end
  | kExpectHeaders =>
      match split_line s with
      | Some (line, rest) =>
          Ok (true, ok, rest,
              match find_char (chr 58) line with
              | Some colon => mkContext kExpectHeaders (addHeader (take (Z.to_nat colon) line)
                                (drop (Z.to_nat (colon + 1)) line) (request_ c))
              | None => mkContext kExpectBody (request_ c)
              end)
      | None => Ok (false, ok, s, c)
      end
  | kExpectBody =>
      Ok (false, ok, s, mkContext kGotAll (match s with [] => request_ c | _ => setRequestBody s (request_ c) end))
  | kGotAll => Ok (true, ok, s, c)
  end.

Fixpoint spec_loop (fuel : nat) (rt : Timestamp) (ok : bool) (s : str) (c : HttpContext)
  : option (res (bool * str * HttpContext)) :=
  match fuel with
  | O => None
  | S fuel =>
      match spec_round rt ok s c with
      | Fault f => Some (Fault f)
      | Ok (hasMore, ok', s', c') =>
          if hasMore then spec_loop fuel rt ok' s' c' else Some (Ok (ok', s', c'))
      end
  end.

Lemma round_refines rt ok b c :
  inv b ->
  match spec_round rt ok (content b) c with
  | Ok (m, ok', s', c') =>
      exists b', parse_round rt ok b c = Ok (m, ok', b', c') /\ inv b' /\ content b' = s'
  | Fault f => parse_round rt ok b c = Fault f
  end.
Proof.
  intros Hi. pose proof (line_of_buffer b Hi) as Hl. unfold spec_round, parse_round.
  destruct (pstate_ c).
  - destruct (split_line (content b)) as [[line rest]|].
    + destruct Hl as (p & b' & -> & Hrd & Hru & Hi' & Hc'). cbn [mbind res_bind]. rewrite Hrd.
      cbn [mbind res_bind].
      destruct (processRequestLine line (request_ c)) as [[[] r]|f]; cbn [mbind res_bind]; [| |done].
      * rewrite Hru. cbn [mbind res_bind]. by exists b'.
      * by exists b.
    + rewrite Hl. by exists b.
  - destruct (split_line (content b)) as [[line rest]|].
    + destruct Hl as (p & b' & -> & Hrd & Hru & Hi' & Hc'). cbn [mbind res_bind]. rewrite Hrd.
      cbn [mbind res_bind]. rewrite Hru. cbn [mbind res_bind]. by exists b'.
    + rewrite Hl. by exists b.
  - exists b. rewrite readableBytes_content by done. split; [|done].
    destruct (content b) as [|x s] eqn:E; [done|].
    replace (0 <? zlen (x :: s)) with true by (rewrite zlen_cons; pose proof (zlen_nonneg s); lia).
    rewrite read_range_ok by (buffer_unfold; lia). cbn [mbind res_bind].
    change (slice (peek b) (beginWrite b) (buffer_ b)) with (content b). by rewrite E.
  - by exists b.
Qed.

Lemma loop_refines n rt ok b c :
  inv b ->
  match spec_loop n rt ok (content b) c with
  | Some (Ok (ok', s', c')) =>
      exists b', parse_loop n rt ok b c = Some (Ok (ok', b', c')) /\ inv b' /\ content b' = s'
  | Some (Fault f) => parse_loop n rt ok b c = Some (Fault f)
  | None => parse_loop n rt ok b c = None
  end.
Proof.
  revert ok b c. induction n as [|n IH]; intros ok b c Hi; [done|]. cbn [spec_loop parse_loop].
  pose proof (round_refines rt ok b c Hi) as Hr.
  destruct (spec_round rt ok (content b) c) as [[[[m ok'] s'] c']|f]; [|by rewrite Hr].
  destruct Hr as (b' & -> & Hi' & Hc'). destruct m; [|by exists b'].
  specialize (IH ok' b' c' Hi'). by rewrite Hc' in IH.
Qed.

(** ** Termination *)

Definition rank (s : HttpRequestParseState) : nat :=
  match s with kExpectRequestLine => 3 | kExpectHeaders => 2 | kExpectBody => 1 | kGotAll => 0 end.

Lemma spec_round_decreases rt ok s c ok' s' c' :
  pstate_ c <> kGotAll -> spec_round rt ok s c = Ok (true, ok', s', c') ->
  pstate_ c' <> kGotAll /\ (length s' + rank (pstate_ c') < length s + rank (pstate_ c))%nat.
Proof.
  unfold spec_round. intros Hne. destruct (pstate_ c) eqn:Ep; [| |done|done].
  - destruct (split_line s) as [[line rest]|] eqn:El; [|done]. apply split_line_Some in El as ->.
    destruct (processRequestLine line (request_ c)) as [[[] r]|f]; [|done..]. intros [= <- <- <-].
    cbn. rewrite length_app. cbn. split; [done|lia].
  - destruct (split_line s) as [[line rest]|] eqn:El; [|done]. apply split_line_Some in El as ->.
    intros [= <- <- <-]. rewrite length_app. destruct (find_char (chr 58) line); cbn; (split; [done|lia]).
Qed.

Lemma spec_loop_total n rt ok s c :
  pstate_ c <> kGotAll -> (length s + rank (pstate_ c) <= n)%nat -> spec_loop n rt ok s c <> None.
Proof.
  revert ok s c. induction n as [|n IH]; intros ok s c Hne Hn.
  { destruct (pstate_ c); cbn in Hn; try lia. done. }
  cbn [spec_loop]. destruct (spec_round rt ok s c) as [[[[m ok'] s'] c']|f] eqn:E; [|done].
  destruct m; [|done]. destruct (spec_round_decreases _ _ _ _ _ _ _ Hne E). apply IH; [done|lia].
Qed.

(** parseRequest terminates on every buffer and in every parse state but kGotAll
    (fuel for each readable byte and three more rounds is enough); called again in
    state kGotAll, without reset(), its loop never ends. *)
Theorem parseRequest_terminates rt b c :
  inv b ->
  (pstate_ c <> kGotAll ->
     exists r, parseRequest (length (content b) + 3) rt b c = Some r) /\
  (pstate_ c = kGotAll -> forall fuel, parseRequest fuel rt b c = None).
Proof.
  intros Hi. unfold parseRequest. split.
  - intros Hne. pose proof (loop_refines (length (content b) + 3) rt true b c Hi) as Hr.
    assert (Ht : spec_loop (length (content b) + 3) rt true (content b) c <> None).
    { apply spec_loop_total; [done|]. destruct (pstate_ c); cbn; lia. }
    destruct (spec_loop (length (content b) + 3) rt true (content b) c) as [[[[ok s] c']|f]|]; [|by eauto|done].
    destruct Hr as (b' & -> & _). by eexists.
  - intros Hg fuel. generalize true. induction fuel as [|fuel IH]; intros ok; [done|].
    cbn [parse_loop]. unfold parse_round. rewrite Hg. apply IH.
Qed.

(** ** Input in pieces *)

Lemma spec_loop_mono n k rt ok s c r :
  spec_loop n rt ok s c = Some r -> spec_loop (n + k) rt ok s c = Some r.
Proof.
  revert ok s c. induction n as [|n IH]; intros ok s c; [done|]. cbn [spec_loop plus].
  destruct (spec_round rt ok s c) as [[[[m ok'] s'] c']|f]; [|done]. destruct m; [apply IH|done].
Qed.

(** A round that finds its line does the same when more input follows. *)
Lemma spec_round_app rt ok s y c ok' s' c' :
  pstate_ c <> kGotAll -> spec_round rt ok s c = Ok (true, ok', s', c') ->
  spec_round rt ok (s ++ y) c = Ok (true, ok', s' ++ y, c').
Proof.
  unfold spec_round. intros Hne. destruct (pstate_ c); [| |done|done].
  - destruct (split_line s) as [[line rest]|] eqn:El; [|done]. rewrite (split_line_app _ y _ _ El).
    destruct (processRequestLine line (request_ c)) as [[[] r]|f]; [|done..]. by intros [= <- <- <-].
  - destruct (split_line s) as [[line rest]|] eqn:El; [|done]. rewrite (split_line_app _ y _ _ El).
    by intros [= <- <- <-].
Qed.

Lemma spec_round_stop rt s c s' c' :
  pstate_ c <> kGotAll -> spec_round rt true s c = Ok (false, true, s', c') ->
  pstate_ c' <> kGotAll -> s' = s /\ c' = c.
Proof.
  unfold spec_round. intros Hne. destruct (pstate_ c) eqn:Ep; [| |by intros [= <- <-]|done].
  - destruct (split_line s) as [[line rest]|]; [|by intros [= <- <-]].
    destruct (processRequestLine line (request_ c)) as [[[] r]|f]; done.
  - destruct (split_line s) as [[line rest]|]; [done|]. by intros [= <- <-].
Qed.

Lemma spec_loop_split n m rt s y c s1 c1 r :
  pstate_ c <> kGotAll -> spec_loop n rt true s c = Some (Ok (true, s1, c1)) ->
  pstate_ c1 <> kGotAll -> spec_loop m rt true (s1 ++ y) c1 = Some r ->
  spec_loop (n + m) rt true (s ++ y) c = Some r.
Proof.
  revert s c. induction n as [|n IH]; intros s c Hne Hs Hne1 Hr; [done|].
  cbn [spec_loop plus] in *. destruct (spec_round rt true s c) as [[[[hm ok'] s'] c']|f] eqn:E; [|done].
  destruct hm.
  - assert (ok' = true) as ->.
    { revert E. unfold spec_round. destruct (pstate_ c); [| |done|done].
      - destruct (split_line s) as [[? ?]|]; [|done].
        destruct (processRequestLine _ _) as [[[] ?]|]; [by intros [= <- _ _]|done..].
      - destruct (split_line s) as [[? ?]|]; [by intros [= <- _ _]|done]. }
    rewrite (spec_round_app _ _ _ y _ _ _ _ Hne E).
    destruct (spec_round_decreases _ _ _ _ _ _ _ Hne E). by apply IH.
  - injection Hs as -> -> ->. destruct (spec_round_stop _ _ _ _ _ Hne E Hne1) as [-> ->].
    change (spec_loop (S (n + m)) rt true (s ++ y) c = Some r).
    replace (S (n + m)) with (m + S n)%nat by lia. by apply spec_loop_mono.
Qed.

(** [C33] Parsing in pieces.  When parsing a first piece succeeds without completing the request,
    parsing what it left together with further bytes gives the same verdict, context and remaining
    content as parsing everything at once. Both parses are given the same receive time. A first
    piece that holds the end of the headers is outside this: the parser completes the request with
    whatever part of the body has arrived. *)
Theorem parse_incremental n m rt b1 b1' c c1 more b2 b ok b2' c2 :
  inv b1 -> inv b2 -> inv b -> pstate_ c <> kGotAll ->
  parseRequest n rt b1 c = Some (Ok (true, b1', c1)) -> pstate_ c1 <> kGotAll ->
  content b2 = content b1' ++ more -> content b = content b1 ++ more ->
  parseRequest m rt b2 c1 = Some (Ok (ok, b2', c2)) ->
  exists b', parseRequest (n + m) rt b c = Some (Ok (ok, b', c2)) /\ content b' = content b2'.
Proof.
  intros Hi1 Hi2 Hi Hc H1 Hc1 E2 E H2. unfold parseRequest in *.
  pose proof (loop_refines n rt true b1 c Hi1) as R1. rewrite H1 in R1.
  destruct (spec_loop n rt true (content b1) c) as [[[[ok1 s1] c1']|f]|] eqn:S1; [|done..].
  destruct R1 as (bx & [= <- <- <-] & Hix & Hcx).
  pose proof (loop_refines m rt true b2 c1 Hi2) as R2. rewrite H2 in R2.
  destruct (spec_loop m rt true (content b2) c1) as [[[[ok2 s2] c2']|f]|] eqn:S2; [|done..].
  destruct R2 as (by_ & [= <- <- <-] & Hiy & Hcy).
  rewrite E2, Hcx in S2.
  pose proof (spec_loop_split n m rt _ _ _ _ _ _ Hc S1 Hc1 S2) as S3. rewrite <- E in S3.
  pose proof (loop_refines (n + m) rt true b c Hi) as R3. rewrite S3 in R3.
  destruct R3 as (bz & -> & _ & Hcz). exists bz. split; [done|congruence].
Qed.

(** ** Round trip *)

Definition cr : char := chr 13.
Definition colon : char := chr 58.
Definition question : char := chr 63.

(** A request as a client prints it; the query starts with its question mark. *)
Definition request_line (m : Method) (path query : str) (v : Version) : str :=
  methodString m ++ [sp] ++ path ++ query ++ [sp] ++
  lit match v with kHttp10 => "HTTP/1.0" | _ => "HTTP/1.1" end.

Definition header_line (h : str * str) : str := h.1 ++ [colon; sp] ++ h.2.

Definition request_text (m : Method) (path query : str) (v : Version) (hs : list (str * str)) : str :=
  request_line m path query v ++ kCRLF ++
  concat ((fun h => header_line h ++ kCRLF) <$> hs) ++ kCRLF.

(** A value without surrounding white space. *)
Definition trimmed (v : str) : Prop := skip_spaces v = v /\ trim_end v = v.

Record printable (m : Method) (path query : str) (v : Version) (hs : list (str * str)) : Prop := {
  pr_method : m <> kInvalid;
  pr_version : v <> kUnknownVersion;
  pr_path : sp ∉ path /\ question ∉ path /\ cr ∉ path;
  pr_query : sp ∉ query /\ cr ∉ query /\ (query = [] \/ exists q, query = question :: q);
  pr_headers : Forall (fun h => colon ∉ h.1 /\ cr ∉ h.1 /\ cr ∉ h.2 /\ trimmed h.2) hs
}.

Lemma method_roundtrip m : m <> kInvalid -> method_of (methodString m) = m.
Proof. by destruct m. Qed.

Lemma process_roundtrip m path query v hs :
  printable m path query v hs ->
  processRequestLine (request_line m path query v) newRequest =
    Ok (true, mkRequest m v path query 0 [] []).
Proof.
  intros [Hm Hv (Hp1 & Hp2 & _) (Hq1 & _ & Hq) _]. unfold processRequestLine, request_line.
  assert (Hsp : sp ∉ methodString m) by (by destruct m; apply (bool_decide_unpack _); vm_compute).
  cbn [app]. rewrite find_char_app by done.
  rewrite take_zlen. unfold setMethod. rewrite method_roundtrip by done.
  cbn [method_ newRequest].
  rewrite (bool_decide_true (kInvalid = kInvalid)) by done. cbn [check mbind res_bind].
  rewrite (bool_decide_false (m = kInvalid)) by done.
  cbn [negb]. rewrite drop_zlen. rewrite (assoc_L app path query).
  rewrite find_char_app by (rewrite elem_of_app; tauto). rewrite take_zlen, drop_zlen.
  set (r2 := match find_char (chr 63) (path ++ query) with Some _ => _ | None => _ end).
  assert (Hr2 : r2 = mkRequest m kUnknownVersion path query 0 [] []).
  { unfold r2. destruct Hq as [->|[q ->]].
    - rewrite app_nil_r, (proj2 (find_char_None _ _)) by done. done.
    - rewrite find_char_app by done. unfold zlen. rewrite Nat2Z.id, take_app_length, drop_app_length.
      done. }
  rewrite Hr2. by destruct v.
Qed.

Lemma skip_one_space v : skip_spaces (sp :: v) = skip_spaces v.
Proof. done. Qed.

(** The header section, from any request. *)
Lemma headers_roundtrip hs r rest rt :
  Forall (fun h => colon ∉ h.1 /\ cr ∉ h.1 /\ cr ∉ h.2 /\ trimmed h.2) hs ->
  spec_loop (length hs + 2) rt true
    (concat ((fun h => header_line h ++ kCRLF) <$> hs) ++ kCRLF ++ rest) (mkContext kExpectHeaders r) =
  Some (Ok (true, rest, mkContext kGotAll
    (let r' := foldl (fun r h => addHeader h.1 (sp :: h.2) r) r hs in
     match rest with [] => r' | _ => setRequestBody rest r' end))).
Proof.
  intros Hhs. revert r. induction Hhs as [|[f v] hs (Hf1 & Hf2 & Hv & Ht) _ IH]; intros r.
  - cbn [fmap list_fmap concat app]. cbn [length plus spec_loop]. unfold spec_round at 1. cbn [pstate_].
    pose proof (split_line_text [] rest (not_elem_of_nil _)) as Es. cbn [app] in Es.
    rewrite Es. by destruct rest.
  - cbn [fmap list_fmap concat length plus spec_loop fst snd] in *.
    rewrite <- !(assoc_L app). unfold spec_round at 1. cbn [pstate_].
    rewrite split_line_text.
    2: { unfold header_line. cbn [app fst snd]. rewrite elem_of_app, !elem_of_cons.
         intros [H|[H|[H|H]]]; [done|by vm_compute in H|by vm_compute in H|done]. }
    unfold header_line. cbn [fst snd app]. fold colon. rewrite find_char_app by done.
    rewrite take_zlen, drop_zlen. cbn [request_]. rewrite (assoc_L app _ kCRLF rest).
    rewrite <- (assoc_L app). rewrite IH. done.
Qed.

(** The headers a parse ends up with: later fields replace earlier ones of the same name. *)
Definition header_map (hs : list (str * str)) : list (str * str) :=
  foldl (fun m h => map_set h.1 h.2 m) [] hs.

Lemma addHeaders_fold hs r :
  Forall (fun h => trimmed h.2) hs ->
  foldl (fun r h => addHeader h.1 (sp :: h.2) r) r hs =
  mkRequest (method_ r) (version_ r) (path_ r) (query_ r) (receiveTime_ r)
    (foldl (fun m h => map_set h.1 h.2 m) (headers_ r) hs) (body_ r).
Proof.
  intros Hhs. revert r. induction Hhs as [|[f v] hs [H1 H2] _ IH]; intros r; cbn [foldl].
  - by destruct r.
  - cbn [fst snd] in *. rewrite IH. unfold addHeader. rewrite skip_one_space, H1, H2. done.
Qed.

(** The value of the last header line of a field. *)
Definition last_value (field : str) (hs : list (str * str)) : option str :=
  foldl (fun (r : option str) h => if bool_decide (h.1 = field) then Some h.2 else r) None hs.

Lemma header_fold_find field hs m :
  increasing str_lt m.*1 ->
  map_find field (foldl (fun m h => map_set h.1 h.2 m) m hs) =
  foldl (fun (r : option str) h => if bool_decide (h.1 = field) then Some h.2 else r) (map_find field m) hs.
Proof.
  revert m. induction hs as [|[k v] hs IH]; intros m Hm; [done|]. cbn [foldl fst snd].
  rewrite IH by by apply map_set_increasing. f_equal. rewrite map_find_set by done.
  destruct (decide (field = k)), (bool_decide_reflect (k = field)); congruence.
Qed.

Lemma header_map_find field hs : map_find field (header_map hs) = last_value field hs.
Proof. apply header_fold_find. constructor. Qed.

Lemma request_parsed m path query v hs body rt b :
  printable m path query v hs -> inv b -> content b = request_text m path query v hs ++ body ->
  exists b', parseRequest (length hs + 3) rt b newContext =
      Some (Ok (true, b', mkContext kGotAll (mkRequest m v path query rt (header_map hs) body))) /\
    inv b' /\ content b' = body.
Proof.
  intros Hp Hi Hc. pose proof (loop_refines (length hs + 3) rt true b newContext Hi) as Hr.
  replace (length hs + 3)%nat with (S (length hs + 2)) in * by lia. cbn [spec_loop] in Hr.
  unfold spec_round in Hr. cbn [pstate_ newContext request_] in Hr.
  rewrite Hc in Hr. unfold request_text in Hr. rewrite <- !(assoc_L app) in Hr.
  rewrite split_line_text in Hr.
  2: { destruct Hp as [Hm _ (_ & _ & H1) (_ & H2 & _) _]. unfold request_line.
       rewrite !elem_of_app, !list_elem_of_singleton.
       intros [H|[H|[H|[H|[H|H]]]]]; try done; revert H; [destruct m|destruct v];
         by apply (bool_decide_unpack (_ ∉ _)); vm_compute. }
  rewrite (process_roundtrip _ _ _ _ _ Hp) in Hr. cbn [mbind res_bind] in Hr.
  rewrite (headers_roundtrip hs _ body rt (pr_headers _ _ _ _ _ Hp)) in Hr.
  destruct Hr as (b' & E & Hib & Hcb). exists b'. split; [|done]. unfold parseRequest. rewrite E.
  rewrite addHeaders_fold.
  - cbn. by destruct body.
  - eapply Forall_impl; [apply (pr_headers _ _ _ _ _ Hp)|]. by intros h (_ & _ & _ & ?).
Qed.

(** [C22] Round trip: a printed request, followed by any body, is parsed back into the
    same method, path, query, version and body, in one call on a fresh context, and
    getHeader finds for every field the value of its last occurrence. *)
Theorem request_roundtrip m path query v hs body rt b :
  printable m path query v hs -> inv b -> content b = request_text m path query v hs ++ body ->
  exists b' r, parseRequest (length hs + 3) rt b newContext = Some (Ok (true, b', mkContext kGotAll r)) /\
    method_ r = m /\ version_ r = v /\ path_ r = path /\ query_ r = query /\ body_ r = body /\
    receiveTime_ r = rt /\
    forall field, getHeader field r = default [] (last_value field hs).
Proof.
  intros Hp Hi Hc. destruct (request_parsed _ _ _ _ _ _ rt b Hp Hi Hc) as (b' & E & _).
  do 2 eexists. split; [exact E|]. split_and!; [done..|]. intros field. unfold getHeader. cbn [headers_].
  by rewrite header_map_find.
Qed.

(** ** Responses *)

(** The text of a response. *)
Definition response_text (r : HttpResponse) : str :=
  lit "HTTP/1.1 " ++ dec (statusCode_ r) ++ [sp] ++ statusMessage_ r ++ kCRLF ++
  (if closeConnection_ r then lit "Connection: close" ++ kCRLF
   else lit "Content-Length: " ++ dec (zlen (resp_body_ r)) ++ kCRLF ++
        lit "Connection: Keep-Alive" ++ kCRLF) ++
  concat ((fun h => h.1 ++ lit ": " ++ h.2 ++ kCRLF) <$> resp_headers_ r) ++
  kCRLF ++ resp_body_ r.

Lemma append_all_ok l b :
  inv b -> writerIndex_ b + zlen (concat l) <= max_size ->
  exists b', append_all l b = Ok b' /\ inv b' /\ content b' = content b ++ concat l /\
    writerIndex_ b' <= writerIndex_ b + zlen (concat l).
Proof.
  revert b. induction l as [|s l IH]; intros b Hi Hr.
  { exists b. cbn. rewrite app_nil_r. unfold zlen. cbn. split_and!; [done..|lia]. }
  cbn [concat append_all] in *. rewrite zlen_app in *. pose proof (zlen_nonneg (concat l)).
  destruct (append_spec s b Hi) as (b1 & -> & Hi1 & Hc1 & _ & Hw1); [left; lia|].
  cbn [mbind res_bind]. destruct (IH b1 Hi1) as (b2 & -> & Hi2 & Hc2 & Hw2); [lia|].
  exists b2. split_and!; [done|done|by rewrite Hc2, Hc1, <- (assoc_L app)|lia].
Qed.

Lemma concat_headers (hs : list (str * str)) :
  concat (concat ((fun h => [h.1; lit ": "; h.2; kCRLF]) <$> hs)) =
  concat ((fun h => h.1 ++ lit ": " ++ h.2 ++ kCRLF) <$> hs).
Proof.
  induction hs as [|h hs IH]; [done|]. cbn [fmap list_fmap concat app].
  rewrite IH. cbn [concat app]. by rewrite <- !(assoc_L app).
Qed.

Lemma snprintf32_fits s : zlen s <= 31 -> snprintf32 s = s.
Proof. intros. unfold snprintf32. apply take_ge. unfold zlen in *. lia. Qed.

(** appendToBuffer writes exactly the response: status line, Connection and, for a
    kept-alive connection, the Content-Length of the body, the headers in key order, an
    empty line and the body; the 32-byte snprintf buffer never truncates for status
    codes up to 999 and bodies below ten terabytes. *)
Lemma appendToBuffer_ok r b :
  inv b -> 0 <= statusCode_ r < 10 ^ 3 -> zlen (resp_body_ r) < 10 ^ 13 ->
  writerIndex_ b + zlen (response_text r) <= max_size ->
  exists b', appendToBuffer r b = Ok b' /\ inv b' /\ content b' = content b ++ response_text r.
Proof.
  intros Hi Hs Hb Hr. unfold appendToBuffer.
  pose proof (zlen_dec (statusCode_ r) 3 ltac:(lia) ltac:(lia)).
  pose proof (zlen_dec (zlen (resp_body_ r)) 13 ltac:(lia) ltac:(pose proof (zlen_nonneg (resp_body_ r)); lia)).
  rewrite (snprintf32_fits (lit "HTTP/1.1 " ++ _))
    by (rewrite !zlen_app; change (zlen (lit "HTTP/1.1 ")) with 9; change (zlen (lit " ")) with 1; lia).
  rewrite (snprintf32_fits (lit "Content-Length: " ++ _))
    by (rewrite !zlen_app; change (zlen (lit "Content-Length: ")) with 16; change (zlen kCRLF) with 2; lia).
  set (l1 := [_; statusMessage_ r; kCRLF]).
  set (l2 := if closeConnection_ r then [lit "Connection: close" ++ kCRLF]
             else [lit "Content-Length: " ++ dec (zlen (resp_body_ r)) ++ kCRLF;
                   lit "Connection: Keep-Alive" ++ kCRLF]).
  set (l3 := concat ((fun h => [h.1; lit ": "; h.2; kCRLF]) <$> resp_headers_ r)).
  assert (Htext : response_text r = concat l1 ++ concat l2 ++ concat l3 ++ concat [kCRLF; resp_body_ r]).
  { unfold response_text, l1, l2, l3. rewrite concat_headers. change [sp] with (lit " ").
    destruct (closeConnection_ r); cbn [concat]; rewrite ?app_nil_r, <- ?(assoc_L app); done. }
  rewrite Htext, !zlen_app in Hr. pose proof (zlen_nonneg (concat l1)). pose proof (zlen_nonneg (concat l2)).
  pose proof (zlen_nonneg (concat l3)). pose proof (zlen_nonneg (concat [kCRLF; resp_body_ r])).
  destruct (append_all_ok l1 b Hi) as (b1 & -> & Hi1 & Hc1 & Hw1); [lia|]. cbn [mbind res_bind].
  destruct (append_all_ok l2 b1 Hi1) as (b2 & E2 & Hi2 & Hc2 & Hw2); [lia|].
  assert (E2' : (if closeConnection_ r then append_all [lit "Connection: close" ++ kCRLF] b1
     else append_all [lit "Content-Length: " ++ dec (zlen (resp_body_ r)) ++ kCRLF;
                      lit "Connection: Keep-Alive" ++ kCRLF] b1) = Ok b2)
    by (rewrite <- E2; unfold l2; by destruct (closeConnection_ r)).
  rewrite E2'. cbn [mbind res_bind].
  destruct (append_all_ok l3 b2 Hi2) as (b3 & -> & Hi3 & Hc3 & Hw3); [lia|]. cbn [mbind res_bind].
  destruct (append_all_ok [kCRLF; resp_body_ r] b3 Hi3) as (b4 & -> & Hi4 & Hc4 & _); [lia|].
  exists b4. split_and!; [done..|]. rewrite Hc4, Hc3, Hc2, Hc1, Htext. by rewrite <- !(assoc_L app).
Qed.

(** ** The message handler *)

(** [C34] HttpServer::onMessage on a complete request: the callback sees exactly the
    request that was sent, its response is sent as one message, and the connection is
    shut down when the response asks for it.  The body, though handed to the callback,
    stays in the input buffer (the next parse takes it for a request line), and the
    reset context still holds it as the body of the next request. *)
Theorem onMessage_serves cb m path query v hs body rt b :
  let req := mkRequest m v path query rt (header_map hs) body in
  let resp := cb req (newResponse (wants_close req)) in
  printable m path query v hs -> inv b -> content b = request_text m path query v hs ++ body ->
  0 <= statusCode_ resp < 10 ^ 3 -> zlen (resp_body_ resp) < 10 ^ 13 ->
  kCheapPrepend + zlen (response_text resp) <= max_size ->
  exists b', onMessage cb (length hs + 3) rt b newContext =
      Some (Ok (ASend (response_text resp) :: (if closeConnection_ resp then [AShutdown] else []),
                b', mkContext kExpectRequestLine (setRequestBody body newRequest))) /\
    content b' = body.
Proof.
  intros req resp Hp Hi Hc Hs Hb Hr.
  destruct (request_parsed _ _ _ _ _ _ rt b Hp Hi Hc) as (b' & E & _ & Hcb).
  exists b'. split; [|done]. unfold onMessage. rewrite E. cbn [gotAll pstate_].
  assert (Ho : onRequest cb req = Ok (ASend (response_text resp) :: (if closeConnection_ resp then [AShutdown] else []))).
  { unfold onRequest. fold resp.
    destruct (newBuffer_spec kInitialSize) as (b0 & -> & Hi0 & Hc0 & _ & Hw0 & _); [by vm_compute..|].
    cbn [mbind res_bind].
    destruct (appendToBuffer_ok resp b0 Hi0 Hs Hb) as (b1 & -> & Hi1 & Hc1); [by rewrite Hw0|].
    cbn [mbind res_bind]. rewrite read_range_ok by (buffer_unfold; lia). cbn [mbind res_bind].
    change (slice (peek b1) (beginWrite b1) (buffer_ b1)) with (content b1). by rewrite Hc1, Hc0. }
  unfold gotAll. cbn [pstate_ bool_decide decide]. cbn. fold req. by rewrite Ho.
Qed.

(** ** After a rejected request line *)

Lemma spec_loop_ok_past n rt s c ok s' c' :
  pstate_ c <> kExpectRequestLine -> spec_loop n rt true s c = Some (Ok (ok, s', c')) -> ok = true.
Proof.
  revert s c. induction n as [|n IH]; intros s c Hc; [done|]. cbn [spec_loop]. unfold spec_round.
  destruct (pstate_ c) eqn:Ep; [done| | |].
  - destruct (split_line s) as [[line rest]|]; [|by intros [= <- _ _]].
    apply IH. by destruct (find_char _ line).
  - by intros [= <- _ _].
  - apply IH. by rewrite Ep.
Qed.

(** A rejected first line stays in the buffer and the parser stays at the request line. *)
Lemma spec_loop_rejected n rt s s' c' :
  spec_loop n rt true s newContext = Some (Ok (false, s', c')) ->
  s' = s /\ pstate_ c' = kExpectRequestLine /\
  exists line rest, split_line s = Some (line, rest) /\
    processRequestLine line newRequest = Ok (false, request_ c').
Proof.
  destruct n as [|n]; [done|]. cbn [spec_loop]. unfold spec_round. cbn [pstate_ newContext request_].
  destruct (split_line s) as [[line rest]|] eqn:El; [|by intros [=]].
  destruct (processRequestLine line newRequest) as [[[] r]|f] eqn:Ep; cbn [mbind res_bind]; [| |done].
  - intros H. apply spec_loop_ok_past in H; done.
  - intros [= <- <-]. split_and!; [done..|]. by exists line, rest.
Qed.

Lemma process_method_set line r r' :
  method_ r = kInvalid -> processRequestLine line r = Ok (false, r') -> method_ r' <> kInvalid ->
  exists i, find_char sp line = Some i.
Proof.
  intros Hm. unfold processRequestLine. destruct (find_char sp line) as [i|]; [by eauto|].
  by intros [= <-] H.
Qed.

(** A request line with a known method that is rejected afterwards (for its target
    or version) is answered 400, but it stays in the buffer and its method in the
    context: when any further byte arrives before the peer closes, parsing the line
    again fails the assertion [method_ == kInvalid] in HttpRequest::setMethod and aborts
    the server. *)
Theorem rejected_request_aborts cb n k rt rt' b calls b' c' more b2 :
  inv b -> inv b2 -> onMessage cb n rt b newContext = Some (Ok (calls, b', c')) ->
  method_ (request_ c') <> kInvalid -> calls = [ASend bad_request; AShutdown] ->
  content b2 = content b' ++ more ->
  onMessage cb (S k) rt' b2 c' = Some (Fault AssertFailure).
Proof.
  intros Hi Hi2 H Hm -> Hb2. unfold onMessage in H. unfold parseRequest in H.
  pose proof (loop_refines n rt true b newContext Hi) as R.
  destruct (spec_loop n rt true (content b) newContext) as [[[[ok s] c1]|f]|] eqn:S1.
  2: { rewrite R in H. done. }
  2: { rewrite R in H. done. }
  destruct R as (b1 & E & Hi1 & Hc1). rewrite E in H. destruct ok.
  { (* accepted: nothing was sent, or the context was reset *)
    exfalso. unfold gotAll in H. case_bool_decide; cbn in H; [|congruence].
    destruct (onRequest cb (request_ c1)); cbn in H; [|done]. by injection H as _ _ <-. }
  destruct (spec_loop_rejected _ _ _ _ _ S1) as (-> & Hp & line & rest & Hl & Hpr).
  unfold gotAll in H. rewrite bool_decide_false in H by congruence. injection H as <- <-.
  destruct (process_method_set line newRequest _ eq_refl Hpr Hm) as [i Hf].
  unfold onMessage, parseRequest. pose proof (loop_refines (S k) rt' true b2 c1 Hi2) as R2.
  cbn [spec_loop] in R2. unfold spec_round in R2. rewrite Hp, Hb2, Hc1 in R2.
  rewrite (split_line_app _ _ _ _ Hl) in R2. unfold processRequestLine, setMethod in R2.
  rewrite Hf, (bool_decide_false (method_ (request_ c1) = kInvalid) Hm) in R2. cbn [mbind res_bind check] in R2. by rewrite R2.
Qed.

(** ** Witnesses *)

(** A buffer holding [s] and nothing else. *)
Definition buffer_of (s : str) : Buffer :=
  mkBuffer (replicate 8 (chr 0) ++ s) 8 (8 + zlen s).

Definition sample_line : str := lit "GET /a?b=1 HTTP/1.1" ++ kCRLF.
Definition sample_headers : list (str * str) := [(lit "Host", lit "h"); (lit "Connection", lit "close")].
Definition sample_request : str := request_text kGet (lit "/a") (lit "?b=1") kHttp11 sample_headers.

Lemma sample_printable : printable kGet (lit "/a") (lit "?b=1") kHttp11 sample_headers.
Proof.
  split; [done|done| | |].
  - split_and!; by apply (bool_decide_unpack (_ ∉ _)); vm_compute.
  - split_and!; [by apply (bool_decide_unpack (_ ∉ _)); vm_compute..|]. right. by exists (lit "b=1").
  - repeat constructor; by apply (bool_decide_unpack (_ ∉ _)); vm_compute.
Qed.

Lemma parseRequest_terminates_witness :
  (exists r, parseRequest (length sample_line + 3) 5 (buffer_of sample_line) newContext = Some r) /\
  parseRequest 100 5 (buffer_of []) (mkContext kGotAll newRequest) = None.
Proof.
  split.
  - apply (parseRequest_terminates 5 (buffer_of sample_line) newContext); [|done].
    unfold inv. repeat split; vm_compute; congruence.
  - apply (parseRequest_terminates 5 (buffer_of []) (mkContext kGotAll newRequest)); [|done].
    unfold inv. repeat split; vm_compute; congruence.
Defined.

Lemma parse_incremental_witness :
  exists b', parseRequest (10 + 10) 5 (buffer_of (sample_request ++ lit "xy")) newContext =
    Some (Ok (true, b', mkContext kGotAll (mkRequest kGet kHttp11 (lit "/a") (lit "?b=1") 5
                                             (header_map sample_headers) (lit "xy")))) /\
    content b' = lit "xy".
Proof.
  change (lit "xy") with (content (mkBuffer (replicate 8 (chr 0) ++ drop (length sample_line) sample_request ++ lit "xy") 38 40)) at 3.
  eapply (parse_incremental 10 10 5 (buffer_of (take 25 sample_request)) _ newContext _
            (drop 25 sample_request ++ lit "xy")
            (buffer_of (drop (length sample_line) sample_request ++ lit "xy"))
            (buffer_of (sample_request ++ lit "xy")) true
            (mkBuffer (replicate 8 (chr 0) ++ drop (length sample_line) sample_request ++ lit "xy") 38 40)).
  - unfold inv. repeat split; vm_compute; congruence.
  - unfold inv. repeat split; vm_compute; congruence.
  - unfold inv. repeat split; vm_compute; congruence.
  - done.
  - vm_compute. reflexivity.
  - done.
  - vm_compute. reflexivity.
  - vm_compute. reflexivity.
  - vm_compute. reflexivity.
Defined.

Lemma request_roundtrip_witness :
  exists b' r, parseRequest (length sample_headers + 3) 5 (buffer_of (sample_request ++ lit "xy")) newContext =
      Some (Ok (true, b', mkContext kGotAll r)) /\
    path_ r = lit "/a" /\ getHeader (lit "Connection") r = lit "close" /\ body_ r = lit "xy".
Proof.
  destruct (request_roundtrip kGet (lit "/a") (lit "?b=1") kHttp11 sample_headers (lit "xy") 5
              (buffer_of (sample_request ++ lit "xy"))) as (b' & r & E & Hm & Hv & Hp & Hq & Hb & Ht & Hh).
  - exact sample_printable.
  - unfold inv. repeat split; vm_compute; congruence.
  - vm_compute. reflexivity.
  - exists b', r. split; [exact E|]. split; [exact Hp|]. split; [rewrite Hh; reflexivity|exact Hb].
Defined.

Lemma onMessage_serves_witness :
  exists b', onMessage defaultHttpCallback (length sample_headers + 3) 5
      (buffer_of (sample_request ++ lit "xy")) newContext =
    Some (Ok ([ASend (lit "HTTP/1.1 404 Not Found" ++ kCRLF ++ lit "Connection: close" ++ kCRLF ++ kCRLF);
               AShutdown], b', mkContext kExpectRequestLine (setRequestBody (lit "xy") newRequest))) /\
    content b' = lit "xy".
Proof.
  apply (onMessage_serves defaultHttpCallback kGet (lit "/a") (lit "?b=1") kHttp11 sample_headers (lit "xy") 5
           (buffer_of (sample_request ++ lit "xy"))).
  - exact sample_printable.
  - unfold inv. repeat split; vm_compute; congruence.
  - vm_compute. reflexivity.
  - vm_compute. split; congruence.
  - vm_compute. reflexivity.
  - vm_compute. congruence.
Defined.

Lemma rejected_request_aborts_witness :
  onMessage defaultHttpCallback 5 6 (buffer_of (lit "GET / HTTP/2.0" ++ kCRLF ++ lit "H"))
    (mkContext kExpectRequestLine (mkRequest kGet kUnknownVersion (lit "/") [] 0 [] [])) =
  Some (Fault AssertFailure).
Proof.
  eapply (rejected_request_aborts defaultHttpCallback 5 4 5 6 (buffer_of (lit "GET / HTTP/2.0" ++ kCRLF))
            _ _ _ (lit "H")).
  - unfold inv. repeat split; vm_compute; congruence.
  - unfold inv. repeat split; vm_compute; congruence.
  - vm_compute. reflexivity.
  - done.
  - reflexivity.
  - vm_compute. reflexivity.
Defined.
