(* ===== verification/Connector.v ===== *)
(** * Outgoing connections (src/muduo/net/Connector.h, Connector.cc)

    The methods run in the loop thread.  The answers of the kernel during one call are a
    record [env]: each call creates at most one socket and asks SO_ERROR at most once.
    [newConnectionCallback_] is the last thing handleWrite does, so what it does in turn
    is a later action.  As for TcpConnection, the [Channel] record changes as the
    channel methods change it.

    Ghost fields: [owned], the sockets the connector opened and has neither closed nor
    handed over; [bad_close], whether it closed a socket it did not own; [handed], the
    sockets given to the callback; [attempts], the calls of connect(2); [scheduled], the
    retry delays since construction or the last restart(). *)

From S2P Require Import Prelude Channel.

Inductive States := kDisconnected | kConnecting | kConnected.

#[global] Instance States_eq_dec : EqDecision States.
Proof. solve_decision. Defined.

(** Functors queued in the loop for this connector. *)
Inductive task := KStartInLoop | KStopInLoop | KResetChannel.

#[global] Instance ctask_eq_dec : EqDecision task.
Proof. solve_decision. Defined.

Definition kMaxRetryDelayMs : Z := 30 * 1000.
Definition kInitRetryDelayMs : Z := 500.

Record Connector := mkConnector {
  connect_ : bool;
  state_ : States;
  channel_ : option Channel;
  retryDelayMs_ : Z;
  (** functors in the loop's queue, and pending retry timers with their delays in ms *)
  pending : list task;
  timers : list Z;
  owned : gset Z;
  bad_close : bool;
  handed : list Z;
  attempts : nat;
  scheduled : list Z
}.

(** [Connector::Connector] *)
Definition newConnector : Connector :=
  mkConnector false kDisconnected None kInitRetryDelayMs [] [] ∅ false [] 0 [].

Definition set_connect (b : bool) (c : Connector) : Connector :=
  mkConnector b (state_ c) (channel_ c) (retryDelayMs_ c) (pending c) (timers c) (owned c)
    (bad_close c) (handed c) (attempts c) (scheduled c).
Definition setState (s : States) (c : Connector) : Connector :=
  mkConnector (connect_ c) s (channel_ c) (retryDelayMs_ c) (pending c) (timers c) (owned c)
    (bad_close c) (handed c) (attempts c) (scheduled c).
Definition set_channel (ch : option Channel) (c : Connector) : Connector :=
  mkConnector (connect_ c) (state_ c) ch (retryDelayMs_ c) (pending c) (timers c) (owned c)
    (bad_close c) (handed c) (attempts c) (scheduled c).
Definition set_pending (l : list task) (c : Connector) : Connector :=
  mkConnector (connect_ c) (state_ c) (channel_ c) (retryDelayMs_ c) l (timers c) (owned c)
    (bad_close c) (handed c) (attempts c) (scheduled c).
Definition set_timers (l : list Z) (c : Connector) : Connector :=
  mkConnector (connect_ c) (state_ c) (channel_ c) (retryDelayMs_ c) (pending c) l (owned c)
    (bad_close c) (handed c) (attempts c) (scheduled c).
(** [loop_->queueInLoop] *)
Definition queueInLoop (t : task) (c : Connector) : Connector := set_pending (pending c ++ [t]) c.

(** [sockets::createNonblockingOrDie] and [sockets::connect] *)
Definition open_socket (fd : Z) (c : Connector) : Connector :=
  mkConnector (connect_ c) (state_ c) (channel_ c) (retryDelayMs_ c) (pending c) (timers c)
    ({[fd]} ∪ owned c) (bad_close c) (handed c) (S (attempts c)) (scheduled c).
(** [sockets::close] *)
Definition close_socket (fd : Z) (c : Connector) : Connector :=
  mkConnector (connect_ c) (state_ c) (channel_ c) (retryDelayMs_ c) (pending c) (timers c)
    (owned c ∖ {[fd]}) (bad_close c || negb (bool_decide (fd ∈ owned c))) (handed c)
    (attempts c) (scheduled c).
(** [newConnectionCallback_(sockfd)] *)
Definition hand_over (fd : Z) (c : Connector) : Connector :=
  mkConnector (connect_ c) (state_ c) (channel_ c) (retryDelayMs_ c) (pending c) (timers c)
    (owned c ∖ {[fd]}) (bad_close c || negb (bool_decide (fd ∈ owned c))) (handed c ++ [fd])
    (attempts c) (scheduled c).
(** [loop_->runAfter(retryDelayMs_/1000.0, startInLoop)] and the doubling of the delay *)
Definition schedule_retry (c : Connector) : Connector :=
  mkConnector (connect_ c) (state_ c) (channel_ c)
    (Z.min (retryDelayMs_ c * 2) kMaxRetryDelayMs) (pending c) (timers c ++ [retryDelayMs_ c])
    (owned c) (bad_close c) (handed c) (attempts c) (scheduled c ++ [retryDelayMs_ c]).
Definition reset_delay (c : Connector) : Connector :=
  mkConnector (connect_ c) (state_ c) (channel_ c) kInitRetryDelayMs (pending c) (timers c)
    (owned c) (bad_close c) (handed c) (attempts c) [].

(** Answers of the kernel: the descriptor of a new socket, the errno of connect(2) (0 for
    success), SO_ERROR, and whether the socket is connected to itself. *)
Record env := mkEnv { e_sockfd : Z; e_errno : Z; e_soerror : Z; e_self : bool }.

(** errno values *)
Definition EPERM : Z := 1.
Definition EINTR : Z := 4.
Definition EBADF : Z := 9.
Definition EAGAIN : Z := 11.
Definition EACCES : Z := 13.
Definition EFAULT : Z := 14.
Definition ENOTSOCK : Z := 88.
Definition EAFNOSUPPORT : Z := 97.
Definition EADDRINUSE : Z := 98.
Definition EADDRNOTAVAIL : Z := 99.
Definition ENETUNREACH : Z := 101.
Definition EISCONN : Z := 106.
Definition ECONNREFUSED : Z := 111.
Definition EALREADY : Z := 114.
Definition EINPROGRESS : Z := 115.

Definition retry (sockfd : Z) (c : Connector) : Connector :=
  let c := setState kDisconnected (close_socket sockfd c) in
  if connect_ c then schedule_retry c else c.

(** The channel [connecting] creates: write and error callbacks, watching for writes. *)
Definition connecting_channel (loop : ptr) (sockfd : Z) : Channel :=
  with_added true (with_events (Z.lor 0 kWriteEvent)
    (mkChannel loop sockfd 0 0 (-1) true false false false false true false true)).

Section Loop.
Context (loop : ptr).

Definition connecting (sockfd : Z) (c : Connector) : res Connector :=
  let c := setState kConnecting c in
  _ ← check (negb (bool_decide (is_Some (channel_ c))));
  Ok (set_channel (Some (connecting_channel loop sockfd)) c).

Definition connect (e : env) (c : Connector) : res Connector :=
  let sockfd := e_sockfd e in
  let c := open_socket sockfd c in
  let savedErrno := e_errno e in
  if bool_decide (savedErrno ∈ [0; EINPROGRESS; EINTR; EISCONN]) then connecting sockfd c
  else if bool_decide (savedErrno ∈ [EAGAIN; EADDRINUSE; EADDRNOTAVAIL; ECONNREFUSED; ENETUNREACH])
  then Ok (retry sockfd c)
  else Ok (close_socket sockfd c).

Definition startInLoop (e : env) (c : Connector) : res Connector :=
  _ ← check (bool_decide (state_ c = kDisconnected));
  if connect_ c then connect e c else Ok c.

(** [loop_->runInLoop(startInLoop)] runs at once in the loop thread, else queues. *)
Definition start (inLoopThread : bool) (e : env) (c : Connector) : res Connector :=
  let c := set_connect true c in
  if inLoopThread then startInLoop e c else Ok (queueInLoop KStartInLoop c).

Definition stop (c : Connector) : Connector := queueInLoop KStopInLoop (set_connect false c).

Definition restart (e : env) (c : Connector) : res Connector :=
  startInLoop e (set_connect true (reset_delay (setState kDisconnected c))).

(** disableAll(), remove(), and the queued reset; dereferences [channel_] *)
Definition removeAndResetChannel (c : Connector) : res (Z * Connector) :=
  ch ← get (channel_ c);
  let ch := with_added true (with_events kNoneEvent ch) in
  _ ← check (isNoneEvent ch);
  let ch := with_added false ch in
  Ok (fd_ ch, queueInLoop KResetChannel (set_channel (Some ch) c)).

Definition resetChannel (c : Connector) : Connector := set_channel None c.

Definition stopInLoop (c : Connector) : res Connector :=
  if bool_decide (state_ c = kConnecting) then
    '(sockfd, c) ← removeAndResetChannel (setState kDisconnected c);
    Ok (retry sockfd c)
  else Ok c.

Definition handleWrite (e : env) (c : Connector) : res Connector :=
  if bool_decide (state_ c = kConnecting) then
    '(sockfd, c) ← removeAndResetChannel c;
    if negb (e_soerror e =? 0) then Ok (retry sockfd c)
    else if e_self e then Ok (retry sockfd c)
    else
      let c := setState kConnected c in
      if connect_ c then Ok (hand_over sockfd c) else Ok (close_socket sockfd c)
  else
    _ ← check (bool_decide (state_ c = kDisconnected));
    Ok c.

Definition handleError (c : Connector) : res Connector :=
  if bool_decide (state_ c = kConnecting) then
    '(sockfd, c) ← removeAndResetChannel c;
    Ok (retry sockfd c)
  else Ok c.

(** ** What can happen to a connector *)

Definition run_callback (e : env) (cb : callback) (c : Connector) : res Connector :=
  match cb with
  | WriteCb => handleWrite e c
  | ErrorCb => handleError c
  | _ => Ok c
  end.

Fixpoint run_callbacks (e : env) (cbs : list callback) (c : Connector) : res Connector :=
  match cbs with
  | [] => Ok c
  | cb :: cbs => c ← run_callback e cb c; run_callbacks e cbs c
  end.

Definition run_task (e : env) (t : task) (c : Connector) : res Connector :=
  match t with
  | KStartInLoop => startInLoop e c
  | KStopInLoop => stopInLoop c
  | KResetChannel => Ok (resetChannel c)
  end.

Inductive action :=
| AStart (inLoopThread : bool)
| AStop
| ARestart
(** the loop runs the oldest functor; a retry timer expires; poll reports [revents] *)
| AFunctor
| ATimer (i : nat)
| APoll (revents : Z).

#[global] Instance action_eq_dec : EqDecision action.
Proof. solve_decision. Defined.

Definition perform (a : action) (e : env) (c : Connector) : res Connector :=
  match a with
  | AStart b => start b e c
  | AStop => Ok (stop c)
  | ARestart => restart e c
  | AFunctor => match pending c with
                | t :: rest => run_task e t (set_pending rest c)
                | [] => Ok c
                end
  | ATimer i => startInLoop e (set_timers (take i (timers c) ++ drop (S i) (timers c)) c)
  | APoll revents =>
      ch ← get (channel_ c);
      run_callbacks e (handleEvent true (set_revents revents ch)) c
  end.

(** When the environment may do it.  start() and restart() are the caller's choice:
    start() is for an idle connector, one that is disconnected with no attempt under
    way, no retry timer and no start queued, and restart() for one whose connection was
    handed over.  The loop empties its functor queue between two polls and a retry timer
    takes half a second, so a timer or a poll finds no channel waiting to be reset.
    Only a watched channel is reported. *)
Definition idle (c : Connector) : bool :=
  bool_decide (state_ c = kDisconnected) && bool_decide (timers c = [])
  && bool_decide (KStartInLoop ∉ pending c).

Definition enabled (a : action) (c : Connector) : bool :=
  match a with
  | AStart b => idle c && (negb b || bool_decide (KResetChannel ∉ pending c))
  | AStop => true
  | ARestart => bool_decide (state_ c = kConnected) && bool_decide (KResetChannel ∉ pending c)
  | AFunctor => bool_decide (pending c <> [])
  | ATimer i => bool_decide (i < length (timers c))%nat && bool_decide (KResetChannel ∉ pending c)
  | APoll _ => match channel_ c with Some ch => negb (isNoneEvent ch) | None => false end
  end.

Inductive reachable : Connector -> Prop :=
| ReachInit : reachable newConnector
| ReachStep a e c c' :
    reachable c -> enabled a c = true -> perform a e c = Ok c' -> reachable c'.
End Loop.
