(* ===== verification/ConnectorTheory.v ===== *)
(** * Theorems about outgoing connections

    The invariant of [Connector] over everything that can happen to it: at most one
    attempt under way, every socket accounted for, no failed assertion, exponential
    back-off; what stop() guarantees; and the misuse the assertions catch. *)

From S2P Require Import Prelude Channel Connector.

(** ** Counting functors *)

Definition count (t : task) (l : list task) : nat := length (filter (t =.) l).
Arguments count : simpl never.

Lemma count_app t l1 l2 : count t (l1 ++ l2) = (count t l1 + count t l2)%nat.
Proof. unfold count. by rewrite filter_app, length_app. Qed.

Lemma count_cons t x l : count t (x :: l) = ((if decide (t = x) then 1 else 0) + count t l)%nat.
Proof. unfold count. rewrite filter_cons. by destruct (decide (t = x)). Qed.

Lemma count_cons_eq t l : count t (t :: l) = S (count t l).
Proof. rewrite count_cons. by destruct (decide (t = t)). Qed.

Lemma count_cons_ne t x l : t <> x -> count t (x :: l) = count t l.
Proof. intros H. rewrite count_cons. by destruct (decide (t = x)). Qed.

Ltac counts H :=
  rewrite ?count_cons_eq in H; rewrite ?(count_cons_ne KStartInLoop) in H by done;
  rewrite ?(count_cons_ne KResetChannel) in H by done.

Lemma count_nil t : count t [] = 0%nat.
Proof. done. Qed.

Lemma count_zero t l : t ∉ l <-> count t l = 0%nat.
Proof.
  induction l as [|x l IH]; [split; [done|intros _; apply not_elem_of_nil]|].
  rewrite count_cons, not_elem_of_cons, IH. destruct (decide (t = x)); naive_solver lia.
Qed.

(** No start is queued ahead of a reset of the channel. *)
Fixpoint ordered (l : list task) : bool :=
  match l with
  | [] => true
  | KStartInLoop :: l => Nat.eqb (count KResetChannel l) 0
  | _ :: l => ordered l
  end.

Lemma ordered_no_reset l : count KResetChannel l = 0%nat -> ordered l = true.
Proof.
  induction l as [|[] l IH]; [done|..]; rewrite count_cons; cbn; intros H.
  - by apply Nat.eqb_eq.
  - by apply IH.
  - done.
Qed.

Lemma ordered_snoc t l :
  ordered l = true -> (t = KResetChannel -> count KStartInLoop l = 0%nat) -> ordered (l ++ [t]) = true.
Proof.
  induction l as [|x l IH]; [by destruct t|]. cbn [app ordered]. rewrite count_cons.
  intros Hl Ht. destruct x; [|apply IH; [done|intros E; by specialize (Ht E)]..].
  apply Nat.eqb_eq in Hl. apply Nat.eqb_eq. rewrite count_app, Hl.
  destruct t; [done..|]. by specialize (Ht eq_refl).
Qed.

(** ** Back-off *)

(** The delay before the [k]-th retry, counted from 0. *)
Definition backoff (k : nat) : Z := Z.min (kInitRetryDelayMs * 2 ^ Z.of_nat k) kMaxRetryDelayMs.

Lemma backoff_next k : Z.min (backoff k * 2) kMaxRetryDelayMs = backoff (S k).
Proof.
  unfold backoff, kInitRetryDelayMs, kMaxRetryDelayMs. rewrite Nat2Z.inj_succ, Z.pow_succ_r by lia.
  pose proof (Z.pow_pos_nonneg 2 (Z.of_nat k)). lia.
Qed.

Definition backoff_inv (c : Connector) : Prop :=
  retryDelayMs_ c = backoff (length (scheduled c)) /\
  scheduled c = backoff <$> seq 0 (length (scheduled c)).

Lemma backoff_schedule c : backoff_inv c -> backoff_inv (schedule_retry c).
Proof.
  intros [Hd Hs]. unfold backoff_inv. cbn [scheduled retryDelayMs_ schedule_retry].
  rewrite length_app. cbn [length]. rewrite Nat.add_1_r. split; [by rewrite Hd, backoff_next|].
  rewrite seq_S, fmap_app, <- Hs. cbn. by rewrite Hd.
Qed.

(** ** The invariant *)

Section Invariant.
Context (loop : ptr).
Implicit Types c : Connector.

(** An attempt under way: its socket is the only one owned, and nothing else will start. *)
Record trying (c : Connector) : Prop := {
  t_state : state_ c = kConnecting;
  t_timers : timers c = [];
  t_start : count KStartInLoop (pending c) = 0%nat;
  t_reset : count KResetChannel (pending c) = 0%nat;
  t_channel : exists fd, channel_ c = Some (connecting_channel loop fd) /\ owned c = {[fd]}
}.

(** A connection that was made leaves no room for another attempt. *)
Definition taken (s : States) : nat := match s with kConnected => 1 | _ => 0 end.

(** No attempt under way: no socket is owned, at most one attempt is to come, and a
    channel left over is unwatched and about to be reset. *)
Record resting (c : Connector) : Prop := {
  r_state : state_ c <> kConnecting;
  r_owned : owned c = ∅;
  r_tokens : (length (timers c) + count KStartInLoop (pending c)
              + taken (state_ c) <= 1)%nat;
  r_channel : channel_ c = None /\ count KResetChannel (pending c) = 0%nat \/
              (exists ch, channel_ c = Some ch /\ events_ ch = 0) /\
              count KResetChannel (pending c) = 1%nat;
  r_ordered : ordered (pending c) = true
}.

Definition conn_inv (c : Connector) : Prop :=
  (trying c \/ resting c) /\ bad_close c = false /\ backoff_inv c.

Lemma newConnector_inv : conn_inv newConnector.
Proof. split_and!; [right; split; try done; [vm_compute; lia|by left]|done|by split]. Qed.

(** An attempt is over but its socket is still open. *)
Record leaving (fd : Z) (c : Connector) : Prop := {
  l_owned : owned c = {[fd]};
  l_timers : timers c = [];
  l_start : count KStartInLoop (pending c) = 0%nat;
  l_channel : channel_ c = None /\ count KResetChannel (pending c) = 0%nat \/
              (exists ch, channel_ c = Some ch /\ events_ ch = 0) /\
              count KResetChannel (pending c) = 1%nat;
  l_ordered : ordered (pending c) = true;
  l_close : bad_close c = false;
  l_backoff : backoff_inv c
}.

Lemma leaving_no_bad_close fd c :
  leaving fd c -> bad_close c || negb (bool_decide (fd ∈ owned c)) = false.
Proof. intros [Ho _ _ _ _ Hb _]. rewrite Hb, Ho, bool_decide_true; [done|set_solver]. Qed.

(** Closing the socket or handing it over leaves the connector at rest. *)
Lemma close_inv s fd c :
  s <> kConnecting -> leaving fd c -> conn_inv (close_socket fd (setState s c)).
Proof.
  intros Hs Hl. pose proof (leaving_no_bad_close _ _ Hl). destruct Hl as [Ho Ht Hst Hc Hord Hb Hbo].
  split_and!; [right; split|done|done]; cbn; [done| | |done|done].
  - rewrite Ho. set_solver.
  - rewrite Ht, Hst. cbn. destruct s; cbn; lia.
Qed.

Lemma hand_over_inv fd c : leaving fd c -> conn_inv (hand_over fd (setState kConnected c)).
Proof.
  intros Hl. destruct (close_inv kConnected fd c ltac:(done) Hl) as ([[Hs]|[]] & ? & ?); [done|].
  split_and!; [right; by split|done..].
Qed.

Lemma retry_inv fd c : leaving fd c -> conn_inv (retry fd c).
Proof.
  intros Hl. pose proof (close_inv kDisconnected fd c ltac:(done) Hl) as ([[Hs]|[]] & Hb & Hbo); [done|].
  unfold retry. cbn [connect_ setState close_socket]. destruct (connect_ c); [|split_and!; [right; by split|done..]].
  split_and!; [right; split; try done|done|by apply backoff_schedule].
  cbn. rewrite (l_timers _ _ Hl), (l_start _ _ Hl). cbn. lia.
Qed.

Lemma remove_trying s c :
  conn_inv c -> trying c ->
  exists fd c', removeAndResetChannel (setState s c) = Ok (fd, c') /\ leaving fd c' /\
    connect_ c' = connect_ c /\ state_ c' = s.
Proof.
  intros (_ & Hb & Hbo) [Hs Ht Hst Hr (fd & Hc & Ho)]. unfold removeAndResetChannel.
  cbn [channel_ setState]. rewrite Hc. cbn [get mbind res_bind]. eexists fd, _.
  split; [reflexivity|]. split_and!; [|done..].
  split; cbn; [done|done| | | |done|done].
  - by rewrite count_app, Hst.
  - right. split; [by eexists|]. by rewrite count_app, Hr.
  - apply ordered_snoc; [by apply ordered_no_reset|done].
Qed.

(** Nothing under way and nothing to come. *)
Record ready (c : Connector) : Prop := {
  y_state : state_ c = kDisconnected;
  y_owned : owned c = ∅;
  y_timers : timers c = [];
  y_start : count KStartInLoop (pending c) = 0%nat;
  y_reset : count KResetChannel (pending c) = 0%nat;
  y_channel : channel_ c = None;
  y_ordered : ordered (pending c) = true;
  y_close : bad_close c = false;
  y_backoff : backoff_inv c
}.

Lemma ready_inv c : ready c -> conn_inv c.
Proof.
  intros [Hs Ho Ht Hst Hr Hc Hord Hb Hbo]. split_and!; [right; split|done|done]; [congruence|done| |by left|done].
  rewrite Ht, Hst, Hs. cbn. lia.
Qed.

Lemma startInLoop_inv e c : ready c -> exists c', startInLoop loop e c = Ok c' /\ conn_inv c'.
Proof.
  intros Hy. pose proof (ready_inv _ Hy) as Hi. destruct Hy as [Hs Ho Ht Hst Hr Hc Hord Hb Hbo].
  unfold startInLoop. rewrite bool_decide_true by done. cbn [check mbind res_bind].
  destruct (connect_ c); [|by exists c]. unfold connect.
  assert (Hl : leaving (e_sockfd e) (open_socket (e_sockfd e) c)).
  { split; cbn; [rewrite Ho; set_solver|done|done|by left|done..]. }
  destruct (bool_decide (e_errno e ∈ [0; EINPROGRESS; EINTR; EISCONN])).
  - unfold connecting. cbn. rewrite Hc. cbn. eexists. split; [reflexivity|].
    split_and!; [left; split|done|done]; cbn; [done..|]. exists (e_sockfd e).
    split; [done|rewrite Ho; set_solver].
  - destruct (bool_decide _); (eexists; split; [reflexivity|]); [by apply retry_inv|].
    replace (open_socket (e_sockfd e) c) with (setState kDisconnected (open_socket (e_sockfd e) c))
      by (destruct c; cbn in *; by subst).
    by apply close_inv.
Qed.

Lemma stopInLoop_inv c : conn_inv c -> exists c', stopInLoop c = Ok c' /\ conn_inv c'.
Proof.
  intros Hi. unfold stopInLoop. case_bool_decide as Hs; [|by exists c].
  destruct Hi as [[Ht|Hr] Hi]; [|by destruct (r_state _ Hr)].
  destruct (remove_trying kDisconnected c (conj (or_introl Ht) Hi) Ht) as (fd & c' & -> & Hl & _).
  eexists. split; [reflexivity|]. by apply retry_inv.
Qed.

Lemma trying_setState c : trying c -> setState kConnecting c = c.
Proof. intros Ht. pose proof (t_state _ Ht). destruct c; cbn in *; by subst. Qed.

Lemma remove_now c :
  conn_inv c -> trying c -> exists fd c', removeAndResetChannel c = Ok (fd, c') /\ leaving fd c'.
Proof.
  intros Hi Ht. destruct (remove_trying kConnecting c Hi Ht) as (fd & c' & E & Hl & _).
  rewrite trying_setState in E by done. eauto.
Qed.

Lemma handleError_inv c :
  conn_inv c -> trying c -> exists c', handleError c = Ok c' /\ conn_inv c' /\ state_ c' = kDisconnected.
Proof.
  intros Hi Ht. unfold handleError. rewrite bool_decide_true by apply Ht.
  destruct (remove_now c Hi Ht) as (fd & c' & -> & Hl). eexists. split; [reflexivity|].
  split; [by apply retry_inv|]. unfold retry. by case_match.
Qed.

Lemma handleWrite_inv e c :
  conn_inv c -> trying c -> exists c', handleWrite e c = Ok c' /\ conn_inv c'.
Proof.
  intros Hi Ht. unfold handleWrite. rewrite bool_decide_true by apply Ht.
  destruct (remove_now c Hi Ht) as (fd & c' & -> & Hl). cbn [mbind res_bind].
  repeat case_match; (eexists; split; [reflexivity|]);
    auto using retry_inv, hand_over_inv. by apply close_inv.
Qed.

(** The callbacks a poll result runs on the connecting channel. *)
Lemma connecting_callbacks fd revents :
  handleEvent true (set_revents revents (connecting_channel loop fd)) ∈
    [[]; [ErrorCb]; [WriteCb]; [ErrorCb; WriteCb]].
Proof.
  unfold handleEvent, handleEventWithGuard. cbn -[has_bits].
  destruct (has_bits revents POLLHUP && negb (has_bits revents POLLIN)),
    (has_bits revents (Z.lor POLLERR POLLNVAL)),
    (has_bits revents (Z.lor (Z.lor POLLIN POLLPRI) POLLRDHUP)), (has_bits revents POLLOUT);
    cbn; by apply (bool_decide_unpack _).
Qed.

Lemma poll_inv e revents c :
  conn_inv c -> trying c -> exists c', perform loop (APoll revents) e c = Ok c' /\ conn_inv c'.
Proof.
  intros Hi Ht. cbn [perform]. destruct (t_channel _ Ht) as (fd & -> & _). cbn [get mbind res_bind].
  pose proof (connecting_callbacks fd revents) as Hcb.
  rewrite !elem_of_cons, elem_of_nil in Hcb. destruct Hcb as [->|[->|[->|[->|[]]]]]; cbn [run_callbacks run_callback].
  - by exists c.
  - destruct (handleError_inv c Hi Ht) as (c' & -> & ? & _). by exists c'.
  - destruct (handleWrite_inv e c Hi Ht) as (c' & -> & ?). by exists c'.
  - destruct (handleError_inv c Hi Ht) as (c' & -> & ? & Hs). cbn [mbind res_bind]. exists c'.
    unfold handleWrite. by rewrite Hs.
Qed.

Lemma functor_inv e c :
  conn_inv c -> exists c', perform loop AFunctor e c = Ok c' /\ conn_inv c'.
Proof.
  intros ([Ht|Hr] & Hb & Hbo); cbn [perform].
  - destruct (pending c) as [|t rest] eqn:Ep; [exists c; split; [done|]; split; [by left|done]|].
    destruct Ht as [Hs Htm Hst Hre Hch]. rewrite Ep in Hst, Hre. rewrite count_cons in Hst, Hre.
    destruct t; [done| |done]. apply stopInLoop_inv. split_and!; [left|done|done]. by split.
  - destruct (pending c) as [|t rest] eqn:Ep; [exists c; split; [done|]; split; [by right|done]|].
    destruct Hr as [Hs Ho Htok Hch Hord]. rewrite Ep in Htok, Hch, Hord.
    destruct t; counts Htok; counts Hch; cbn [run_task].
    + apply startInLoop_inv. cbn in Hord. apply Nat.eqb_eq in Hord.
      destruct Hch as [[Hch _]|[_ Hch]]; [|lia].
      split; cbn; [destruct (state_ c); [done|done|cbn in *; lia]|done| | |done|done| |done|done].
      * destruct (timers c); [done|cbn in *; lia].
      * lia.
      * by apply ordered_no_reset.
    + apply stopInLoop_inv. split_and!; [right; by split|done..].
    + eexists. split; [reflexivity|]. split_and!; [right; split|done|done]; cbn; [done|done|done| |done].
      left. split; [done|]. destruct Hch as [[_ Hch]|[_ Hch]]; lia.
Qed.
Lemma resting_no_channel c :
  resting c -> KResetChannel ∉ pending c -> channel_ c = None /\ count KResetChannel (pending c) = 0%nat.
Proof. intros Hr Hn%count_zero. destruct (r_channel _ Hr) as [?|[_ ?]]; [done|lia]. Qed.

(** Every enabled action succeeds and keeps the invariant. *)
Lemma perform_inv a e c :
  conn_inv c -> enabled a c = true -> exists c', perform loop a e c = Ok c' /\ conn_inv c'.
Proof.
  intros Hi Hen. pose proof Hi as ([Ht|Hr] & Hb & Hbo); destruct a as [b| | | |i|revents];
    try (by apply functor_inv); cbn [perform enabled] in *.
  - unfold idle in Hen. by rewrite (t_state _ Ht) in Hen.
  - eexists. split; [reflexivity|]. split_and!; [left|done|done]. destruct Ht as [H1 H2 H3 H4 H5].
    split; cbn; rewrite ?count_app, ?H3, ?H4; done.
  - by rewrite (t_state _ Ht) in Hen.
  - rewrite (t_timers _ Ht) in Hen. rewrite andb_true_iff, bool_decide_eq_true in Hen. cbn in Hen. lia.
  - by apply poll_inv.
  - apply andb_true_iff in Hen as [Hidle Hre]. unfold idle in Hidle.
    rewrite !andb_true_iff, !bool_decide_eq_true in Hidle. destruct Hidle as [[Hs Htm] Hst%count_zero].
    destruct b; cbn [start negb orb] in *.
    + apply bool_decide_eq_true in Hre. destruct (resting_no_channel _ Hr Hre).
      apply startInLoop_inv. split; cbn; auto using r_owned, r_ordered.
    + eexists. split; [reflexivity|]. split_and!; [right|done|done]. destruct Hr as [H1 H2 H3 H4 H5].
      split; cbn; [done|done| | |by apply ordered_snoc].
      * rewrite Htm, count_app, Hst, Hs. cbn. done.
      * rewrite count_app. change (count KResetChannel [KStartInLoop]) with 0%nat. by rewrite Nat.add_0_r.
  - eexists. split; [reflexivity|]. split_and!; [right|done|done]. destruct Hr as [H1 H2 H3 H4 H5].
    split; cbn; [done|done| | |by apply ordered_snoc]; rewrite count_app.
    + change (count KStartInLoop [KStopInLoop]) with 0%nat. by rewrite Nat.add_0_r.
    + change (count KResetChannel [KStopInLoop]) with 0%nat. by rewrite Nat.add_0_r.
  - rewrite andb_true_iff, !bool_decide_eq_true in Hen. destruct Hen as [Hs Hre].
    destruct (resting_no_channel _ Hr Hre). destruct Hr as [H1 H2 H3 H4 H5]. rewrite Hs in H3. cbn in H3.
    apply startInLoop_inv. split; cbn; [done|done| |lia|done..|by split].
    destruct (timers c); [done|cbn in H3; lia].
  - rewrite andb_true_iff, !bool_decide_eq_true in Hen. destruct Hen as [Hlen Hre].
    destruct (resting_no_channel _ Hr Hre). destruct Hr as [H1 H2 H3 H4 H5].
    assert (Hone : length (timers c) = 1%nat /\ i = 0%nat) by lia. destruct Hone as [Hone ->].
    destruct (timers c) as [|d [|]] eqn:Ed; try done. cbn in H3.
    apply startInLoop_inv. split; cbn; [destruct (state_ c); [done|done|cbn in H3; lia]|done|done|lia|done..].
  - destruct (channel_ c) as [ch|] eqn:Ec; [|done]. exfalso.
    destruct (r_channel _ Hr) as [[? _]|[(ch' & Hc & He) _]]; [congruence|].
    unfold isNoneEvent, kNoneEvent in Hen. rewrite Ec in Hc. injection Hc as <-. by rewrite He in Hen.
Qed.

Lemma connector_reachable_inv c : reachable loop c -> conn_inv c.
Proof.
  induction 1 as [|a e c c' _ IH Hen Hp]; [apply newConnector_inv|].
  destruct (perform_inv a e c IH Hen) as (c2 & E & Hi). congruence.
Qed.

(** [C23] No run of a connector, whatever the kernel answers, fails an assertion or uses
    a channel that is gone, as long as start() is called on an idle connector and
    restart() after a connection was handed over.  Every socket it opens is closed or
    handed over exactly once: while an attempt is under way it owns that attempt's
    socket alone, whose channel watches for writability; otherwise it owns none. *)
Theorem connector_safe c :
  reachable loop c ->
  bad_close c = false /\
  (state_ c = kConnecting -> exists ch, channel_ c = Some ch /\ isWriting ch = true /\ owned c = {[fd_ ch]}) /\
  (state_ c <> kConnecting -> owned c = ∅) /\
  (length (timers c) <= 1)%nat /\
  forall a e, enabled a c = true -> exists c', perform loop a e c = Ok c' /\ reachable loop c'.
Proof.
  intros Hr. pose proof (connector_reachable_inv c Hr) as Hi. split_and!.
  - apply Hi.
  - intros Hs. destruct Hi as ([Ht|Hre] & _); [|by destruct (r_state _ Hre)].
    destruct (t_channel _ Ht) as (fd & Hc & Ho). exists (connecting_channel loop fd). by split_and!.
  - intros Hs. destruct Hi as ([Ht|Hre] & _); [by destruct Ht|apply Hre].
  - destruct Hi as ([Ht|Hre] & _); [rewrite (t_timers _ Ht); cbn; lia|]. pose proof (r_tokens _ Hre). lia.
  - intros a e Hen. destruct (perform_inv a e c Hi Hen) as (c' & Hp & _). exists c'. split; [done|].
    by eapply ReachStep.
Qed.

(** Exponential back-off: since construction or the last restart(), the k-th retry
    (from 0) was scheduled min(500 * 2^k, 30000) milliseconds ahead. *)
Theorem backoff_doubles c k d :
  reachable loop c -> scheduled c !! k = Some d ->
  d = Z.min (kInitRetryDelayMs * 2 ^ Z.of_nat k) kMaxRetryDelayMs.
Proof.
  intros (_ & _ & _ & Hs)%connector_reachable_inv Hk. rewrite Hs in Hk.
  apply list_lookup_fmap_Some in Hk as (x & -> & Hx). apply lookup_seq in Hx as [-> _]. done.
Qed.
End Invariant.

(** ** stop() *)

Section Stop.
Context (loop : ptr).

Definition starts (a : action) : bool := match a with AStart _ | ARestart => true | _ => false end.

(** Runs in which nobody calls start() or restart(). *)
Inductive quiet_run : Connector -> Connector -> Prop :=
| QuietNil c : quiet_run c c
| QuietStep a e c1 c2 c3 :
    starts a = false -> perform loop a e c1 = Ok c2 -> quiet_run c2 c3 -> quiet_run c1 c3.

(** No connection attempt, no retry and no connection handed over. *)
Definition calm (c c' : Connector) : Prop :=
  connect_ c' = false /\ handed c' = handed c /\ attempts c' = attempts c /\ scheduled c' = scheduled c.

Lemma retry_calm fd c : connect_ c = false -> calm c (retry fd c).
Proof. intros H. unfold retry. cbn [connect_ setState close_socket]. by rewrite H. Qed.

Lemma remove_calm c fd c' : connect_ c = false -> removeAndResetChannel c = Ok (fd, c') -> calm c c'.
Proof. intros H. unfold removeAndResetChannel. destruct (channel_ c); cbn; [|done]. by intros [= <- <-]. Qed.

Lemma startInLoop_calm e c c' : connect_ c = false -> startInLoop loop e c = Ok c' -> c' = c.
Proof. intros H. unfold startInLoop. case_bool_decide; cbn; [|done]. rewrite H. by intros [= <-]. Qed.

Ltac calm_cases :=
  repeat match goal with
  | |- context [removeAndResetChannel ?c] =>
      let E := fresh "E" in destruct (removeAndResetChannel c) as [[fd c1]|] eqn:E; cbn [mbind res_bind];
      [apply remove_calm in E; [destruct E as (? & ? & ? & ?)|done]|done]
  end.

Lemma handleError_calm c c' : connect_ c = false -> handleError c = Ok c' -> calm c c'.
Proof.
  intros H. unfold handleError. case_bool_decide; [|by intros [= <-]]. calm_cases.
  intros [= <-]. destruct (retry_calm fd c1) as (? & ? & ? & ?); [done|]. split_and!; congruence.
Qed.

Lemma handleWrite_calm e c c' : connect_ c = false -> handleWrite e c = Ok c' -> calm c c'.
Proof.
  intros H. unfold handleWrite. case_bool_decide.
  - calm_cases. cbn [connect_ setState].
    repeat case_match; try congruence; intros [= <-];
      try (destruct (retry_calm fd c1) as (? & ? & ? & ?); [done|]; split_and!; congruence); by split_and!.
  - case_bool_decide; cbn; [by intros [= <-]|done].
Qed.

Lemma stopInLoop_calm c c' : connect_ c = false -> stopInLoop c = Ok c' -> calm c c'.
Proof.
  intros H. unfold stopInLoop. case_bool_decide; [|by intros [= <-]]. calm_cases.
  intros [= <-]. destruct (retry_calm fd c1) as (? & ? & ? & ?); [done|]. split_and!; cbn in *; congruence.
Qed.

Lemma callbacks_calm e cbs c c' : connect_ c = false -> run_callbacks e cbs c = Ok c' -> calm c c'.
Proof.
  revert c. induction cbs as [|cb cbs IH]; intros c H; cbn [run_callbacks]; [by intros [= <-]|].
  destruct (run_callback e cb c) as [c1|] eqn:E; cbn [mbind res_bind]; [|done]. intros E2.
  assert (H1 : calm c c1).
  { destruct cb; cbn in E; [by injection E as <-|by eapply handleWrite_calm|by injection E as <-
                           |by apply handleError_calm]. }
  destruct H1 as (? & ? & ? & ?), (IH c1) as (? & ? & ? & ?); [done..|]. split_and!; congruence.
Qed.

Lemma perform_calm a e c c' :
  starts a = false -> connect_ c = false -> perform loop a e c = Ok c' -> calm c c'.
Proof.
  intros Ha H. destruct a as [b| | | |i|revents]; try done; cbn [perform].
  - by intros [= <-].
  - destruct (pending c) as [|t rest]; [by intros [= <-]|]. destruct t; cbn [run_task]; intros E.
    + apply startInLoop_calm in E; [by subst|done].
    + by apply stopInLoop_calm in E.
    + by injection E as <-.
  - intros E%startInLoop_calm; [by subst|done].
  - destruct (channel_ c); cbn [get mbind res_bind]; [by apply callbacks_calm|done].
Qed.

Lemma quiet_run_calm c c' : quiet_run c c' -> connect_ c = false -> calm c c'.
Proof.
  induction 1 as [c|a e c1 c2 c3 Ha Hp _ IH]; intros H; [by split_and!|].
  destruct (perform_calm a e c1 c2 Ha H Hp) as (? & ? & ? & ?), IH as (? & ? & ? & ?); [done|].
  split_and!; congruence.
Qed.

(** The loop runs the functors queued for the connector. *)
Fixpoint drain (n : nat) (e : env) (c : Connector) : res Connector :=
  match n, pending c with
  | S n, _ :: _ => c ← perform loop AFunctor e c; drain n e c
  | _, _ => Ok c
  end.
Lemma retry_stopped fd c : connect_ c = false -> pending (retry fd c) = pending c /\ state_ (retry fd c) = kDisconnected.
Proof. intros H. unfold retry. cbn [connect_ setState close_socket]. by rewrite H. Qed.

(** stopInLoop gives up the attempt under way. *)
Lemma stop_trying c :
  trying loop c -> connect_ c = false ->
  exists c', stopInLoop c = Ok c' /\ pending c' = pending c ++ [KResetChannel] /\ state_ c' = kDisconnected.
Proof.
  intros Ht Hc. destruct (t_channel _ _ Ht) as (fd & Hch & _). unfold stopInLoop, removeAndResetChannel.
  rewrite bool_decide_true by apply Ht. cbn [channel_ setState]. rewrite Hch. cbn -[retry].
  eexists. split; [reflexivity|]. edestruct retry_stopped as [-> ->]; [|done]. done.
Qed.

(** Functors of a stopped connector at rest do nothing but reset the channel. *)
Lemma rest_functor e c t rest c' :
  resting c -> connect_ c = false -> run_task loop e t (set_pending rest c) = Ok c' ->
  pending c' = rest /\ state_ c' = state_ c.
Proof.
  intros Hr Hc. destruct t; cbn [run_task].
  - intros E. apply startInLoop_calm in E; [by subst|done].
  - unfold stopInLoop. rewrite bool_decide_false by apply Hr. by intros [= <-].
  - by intros [= <-].
Qed.

Definition busy (c : Connector) : nat := if decide (state_ c = kConnecting) then 1 else 0.

(** One functor of a stopped connector: progress. *)
Lemma functor_stopped e c t rest :
  conn_inv loop c -> connect_ c = false -> pending c = t :: rest ->
  exists c', perform loop AFunctor e c = Ok c' /\ conn_inv loop c' /\ connect_ c' = false /\
    busy c' = 0%nat /\ (length (pending c') <= length rest + busy c)%nat.
Proof.
  intros Hi Hc Hp. destruct (functor_inv loop e c Hi) as (c' & E & Hi'). exists c'.
  destruct (perform_calm AFunctor e c c' eq_refl Hc E) as (Hc' & _). split; [done|]. split; [done|].
  split; [done|]. cbn [perform] in E. rewrite Hp in E. destruct Hi as ([Ht|Hr] & Hb & Hbo).
  - assert (Hst : t = KStopInLoop).
    { pose proof (t_start _ _ Ht) as H1. pose proof (t_reset _ _ Ht) as H2. rewrite Hp in H1, H2.
      destruct t; [by rewrite count_cons_eq in H1|done|by rewrite count_cons_eq in H2]. }
    subst t. destruct (stop_trying (set_pending rest c)) as (c2 & E2 & Hp2 & Hs2); [|done|].
    { destruct Ht as [H1 H2 H3 H4 H5]. rewrite Hp in H3, H4. counts H3. counts H4. by split. }
    cbn [run_task] in E. rewrite E in E2. injection E2 as <-. unfold busy.
    rewrite Hs2, Hp2, (t_state _ _ Ht). cbn [pending set_pending]. rewrite length_app.
    split; [done|]. destruct (decide (kConnecting = kConnecting)); [cbn; lia|done].
  - destruct (rest_functor _ _ _ _ _ Hr Hc E) as [-> Hs]. unfold busy. rewrite Hs.
    destruct (decide (state_ c = kConnecting)); [by destruct (r_state _ Hr)|]. lia.
Qed.

Lemma drain_stopped n e c :
  conn_inv loop c -> connect_ c = false -> (pending c = [] -> busy c = 0%nat) ->
  (length (pending c) + busy c <= n)%nat ->
  exists c', drain n e c = Ok c' /\ conn_inv loop c' /\ pending c' = [] /\ busy c' = 0%nat.
Proof.
  revert c. induction n as [|n IH]; intros c Hi Hc Hb Hn.
  { exists c. destruct (pending c) eqn:E; cbn in Hn; [|lia]. cbn. split_and!; auto. }
  cbn [drain]. destruct (pending c) as [|t rest] eqn:Hp; [exists c; split_and!; auto|].
  destruct (functor_stopped e c t rest Hi Hc Hp) as (c1 & -> & Hi1 & Hc1 & Hb1 & Hl1).
  cbn [mbind res_bind]. apply IH; [done..|]. cbn in Hn. lia.
Qed.

(** Once the loop has run the functors queued for a stopped connector, it is at rest. *)
Lemma stopped_drains e c :
  conn_inv loop c ->
  exists c', drain (length (pending c) + 2) e (stop c) = Ok c' /\ pending c' = [] /\
     state_ c' <> kConnecting /\ channel_ c' = None /\ owned c' = ∅.
Proof.
  intros Hi. destruct (perform_inv loop AStop e c Hi eq_refl) as (c1 & [= <-] & Hi1).
  destruct (drain_stopped (length (pending c) + 2) e (stop c) Hi1) as (c' & E & Hi' & Hp' & Hb').
  - done.
  - cbn. intros H. by apply app_nil in H as [_ ?].
  - cbn. rewrite length_app. unfold busy. cbn. destruct (decide _); lia.
  - exists c'. unfold busy in Hb'. destruct (decide (state_ c' = kConnecting)) as [|Hs]; [done|].
    destruct Hi' as ([Ht|Hre] & _); [by destruct Ht|]. split_and!; [done..| |by apply Hre].
    destruct (r_channel _ Hre) as [[? _]|[_ Hn]]; [done|]. by rewrite Hp' in Hn.
Qed.

(** stop() stops: from the moment it is called until somebody calls start() or
    restart(), no connection is attempted, retried or handed over, whatever the kernel
    and the timers do; and once the loop has run the functors queued for the connector,
    it has closed its socket and released its channel (which its destructor asserts). *)
Theorem stop_stops c :
  reachable loop c ->
  (forall c', quiet_run (stop c) c' ->
     handed c' = handed c /\ attempts c' = attempts c /\ scheduled c' = scheduled c) /\
  (forall e, exists c', drain (length (pending c) + 2) e (stop c) = Ok c' /\ pending c' = [] /\
     state_ c' <> kConnecting /\ channel_ c' = None /\ owned c' = ∅).
Proof.
  intros Hr. split.
  - intros c' H. by destruct (quiet_run_calm _ _ H eq_refl) as (_ & ? & ? & ?).
  - intros e. apply stopped_drains. by apply connector_reachable_inv.
Qed.
End Stop.

(** ** Misuse *)

(** start() on a connector that is not idle aborts.  (1) After a connection was
    made, state_ stays kConnected until restart(), even when the connection is gone: a
    second start() fails the assertion in startInLoop.  (2) stop() does not cancel the
    retry timer: when start() is called before it expires and the new attempt is in
    progress, the old timer's startInLoop fails the same assertion. *)
Theorem start_not_idle_aborts loop e c :
  reachable loop c ->
  (state_ c = kConnected -> start loop true e c = Fault AssertFailure) /\
  (forall fd, timers c <> [] -> channel_ c = None -> e = mkEnv fd EINPROGRESS 0 false ->
     exists c', start loop true e (stop c) = Ok c' /\
       perform loop (ATimer 0) e c' = Fault AssertFailure).
Proof.
  intros (Hi & _)%connector_reachable_inv. split.
  - intros Hs. unfold start, startInLoop. cbn [state_ set_connect]. by rewrite Hs.
  - intros fd Ht Hc ->. destruct Hi as [Htr|Hr]; [by rewrite (t_timers _ _ Htr) in Ht|].
    assert (Hs : state_ c = kDisconnected).
    { pose proof (r_tokens _ Hr) as Hk. pose proof (r_state _ Hr).
      destruct (timers c); [done|]. destruct (state_ c); [done|done|cbn in Hk; lia]. }
    unfold start, startInLoop. cbn [state_ set_connect stop queueInLoop set_pending]. rewrite Hs.
    rewrite (bool_decide_true (kDisconnected = kDisconnected)) by done.
    cbn [check mbind res_bind connect_ set_connect]. unfold connect. cbn [e_errno e_sockfd].
    change (bool_decide (EINPROGRESS ∈ [0; EINPROGRESS; EINTR; EISCONN])) with true. cbn [connecting].
    unfold connecting. cbn [channel_ setState open_socket set_connect set_pending stop queueInLoop]. rewrite Hc.
    eexists. split; reflexivity.
Qed.

(** ** Witnesses *)

Definition env_with (err : Z) : env := mkEnv 7 err 0 false.

(** An attempt in progress, and one that was refused. *)
Definition sample_trying : Connector :=
  mkConnector true kConnecting (Some (connecting_channel 1 7)) 500 [] [] {[7]} false [] 1 [].
Definition sample_refused : Connector :=
  mkConnector true kDisconnected None 1000 [] [500] ∅ false [] 1 [500].

Lemma sample_trying_reachable : reachable 1 sample_trying.
Proof.
  eapply (ReachStep 1 (AStart true) (env_with EINPROGRESS) newConnector); [constructor|reflexivity|].
  vm_compute. reflexivity.
Qed.

Lemma sample_refused_reachable : reachable 1 sample_refused.
Proof.
  eapply (ReachStep 1 (AStart true) (env_with ECONNREFUSED) newConnector); [constructor|reflexivity|].
  vm_compute. reflexivity.
Qed.

Lemma connector_safe_witness :
  bad_close sample_trying = false /\
  exists c', perform 1 (APoll POLLOUT) (env_with 0) sample_trying = Ok c' /\ reachable 1 c'.
Proof.
  destruct (connector_safe 1 sample_trying sample_trying_reachable) as (Hb & _ & _ & _ & Hp).
  split; [exact Hb|]. apply Hp. reflexivity.
Defined.

Lemma backoff_doubles_witness : 500 = Z.min (kInitRetryDelayMs * 2 ^ Z.of_nat 0) kMaxRetryDelayMs.
Proof. apply (backoff_doubles 1 sample_refused 0 500 sample_refused_reachable). reflexivity. Defined.

Lemma stop_stops_witness :
  exists c', drain 1 (length (pending sample_trying) + 2) (env_with 0) (stop sample_trying) = Ok c' /\
    pending c' = [] /\ state_ c' <> kConnecting /\ channel_ c' = None /\ owned c' = ∅.
Proof. exact (proj2 (stop_stops 1 sample_trying sample_trying_reachable) (env_with 0)). Defined.

Lemma start_not_idle_aborts_witness :
  exists c', start 1 true (env_with EINPROGRESS) (stop sample_refused) = Ok c' /\
    perform 1 (ATimer 0) (env_with EINPROGRESS) c' = Fault AssertFailure.
Proof.
  exact (proj2 (start_not_idle_aborts 1 (env_with EINPROGRESS) sample_refused sample_refused_reachable)
           7 ltac:(discriminate) eq_refl eq_refl).
Defined.
