(* ===== verification/TcpClient.v ===== *)
(** * Clients (src/muduo/net/TcpClient.h, TcpClient.cc)

    A client owns a [Connector] and at most one connection.  What a connection does is
    the subject of TcpConnection.v; here it is an object with a name, identified by the
    order of creation, of which only the calls between it and the client matter:
    [closeCallback_] (removeConnection) when it closes, and connectDestroyed, queued by
    the client.  [newConnection] is the connector's callback: it runs for the socket
    handleWrite hands over.

    Ghost fields: [created], the names of the connections created; [live], those that
    were established and have not closed. *)

From S2P Require Import Prelude Channel Decimal Connector ConnectorTheory.

Record TcpClient := mkClient {
  retry_ : bool;
  client_connect_ : bool;
  nextConnId_ : Z;
  connection_ : option nat;
  connector_ : Connector;
  (** functors queued for connections: connectDestroyed *)
  destroys : list nat;
  (** connections on which shutdown() was called *)
  shutdowns : list nat;
  created : list (list char);
  live : list nat
}.

Definition set_connector (k : Connector) (c : TcpClient) : TcpClient :=
  mkClient (retry_ c) (client_connect_ c) (nextConnId_ c) (connection_ c) k (destroys c)
    (shutdowns c) (created c) (live c).
Definition set_client_connect (b : bool) (c : TcpClient) : TcpClient :=
  mkClient (retry_ c) b (nextConnId_ c) (connection_ c) (connector_ c) (destroys c)
    (shutdowns c) (created c) (live c).

(** [TcpClient::TcpClient] *)
Definition newTcpClient : TcpClient := mkClient false true 1 None newConnector [] [] [] [].

Definition enableRetry (c : TcpClient) : TcpClient :=
  mkClient true (client_connect_ c) (nextConnId_ c) (connection_ c) (connector_ c) (destroys c)
    (shutdowns c) (created c) (live c).

(** [snprintf(buf, 32, ":%s#%d", ...)] *)
Definition conn_suffix (ipPort : list char) (id : Z) : list char :=
  take 31 (lit ":" ++ ipPort ++ lit "#" ++ dec id).

Section Client.
Context (loop : ptr) (name_ : list char) (peer : Z -> list char).

Definition connect (inLoopThread : bool) (e : env) (c : TcpClient) : res TcpClient :=
  let c := set_client_connect true c in
  k ← start loop inLoopThread e (connector_ c);
  Ok (set_connector k c).

Definition disconnect (c : TcpClient) : TcpClient :=
  let c := set_client_connect false c in
  mkClient (retry_ c) (client_connect_ c) (nextConnId_ c) (connection_ c) (connector_ c) (destroys c)
    (match connection_ c with Some i => shutdowns c ++ [i] | None => shutdowns c end)
    (created c) (live c).

Definition stop_client (c : TcpClient) : TcpClient :=
  let c := set_client_connect false c in set_connector (stop (connector_ c)) c.

(** [peer sockfd] is [sockets::getPeerAddr(sockfd).toIpPort()]; connectEstablished makes
    the connection live. *)
Definition newConnection (sockfd : Z) (c : TcpClient) : TcpClient :=
  let connName := name_ ++ conn_suffix (peer sockfd) (nextConnId_ c) in
  let conn := length (created c) in
  mkClient (retry_ c) (client_connect_ c) (nextConnId_ c + 1) (Some conn) (connector_ c) (destroys c)
    (shutdowns c) (created c ++ [connName]) (live c ++ [conn]).

(** [TcpClient::removeConnection], called by connection [conn] as it closes. *)
Definition removeConnection (conn : nat) (e : env) (c : TcpClient) : res TcpClient :=
  _ ← check (bool_decide (connection_ c = Some conn));
  let c := mkClient (retry_ c) (client_connect_ c) (nextConnId_ c) None (connector_ c)
             (destroys c ++ [conn]) (shutdowns c) (created c) (filter (fun i => i <> conn) (live c)) in
  if retry_ c && client_connect_ c then
    k ← restart loop e (connector_ c); Ok (set_connector k c)
  else Ok c.

(** What a client leaves behind: its connector while removeConnector's timer holds it, and its
    connection, closed by force or left to whoever else holds it.  The connection's close
    callback is then [orphan_removeConnection], which does not use the client. *)
Record Remains := mkRemains {
  r_connector : Connector;
  r_connection : option nat;
  r_forceClose : bool;
  r_destroys : list nat
}.

(** [TcpClient::~TcpClient]; [unique] is connection_.unique(). *)
Definition destroy_client (unique : bool) (c : TcpClient) : Remains :=
  match connection_ c with
  | Some conn => mkRemains (connector_ c) (Some conn) unique (destroys c)
  | None => mkRemains (stop (connector_ c)) None false (destroys c)
  end.

(** [detail::removeConnection] *)
Definition orphan_removeConnection (conn : nat) (r : Remains) : Remains :=
  mkRemains (r_connector r) None (r_forceClose r) (r_destroys r ++ [conn]).

(** Sockets the connector handed over in a step run newConnection. *)
Definition handed_over (k k' : Connector) : list Z := drop (length (handed k)) (handed k').

Definition connector_step (a : action) (e : env) (c : TcpClient) : res TcpClient :=
  k ← perform loop a e (connector_ c);
  Ok (foldl (fun c fd => newConnection fd c) (set_connector k c) (handed_over (connector_ c) k)).

Inductive client_action :=
| CConnect (inLoopThread : bool)
| CDisconnect
| CStop
| CEnableRetry
(** the loop serves the connector; the connection closes *)
| CServe (a : action)
| CClosed (conn : nat).

Definition client_perform (a : client_action) (e : env) (c : TcpClient) : res TcpClient :=
  match a with
  | CConnect b => connect b e c
  | CDisconnect => Ok (disconnect c)
  | CStop => Ok (stop_client c)
  | CEnableRetry => Ok (enableRetry c)
  | CServe a => connector_step a e c
  | CClosed conn => removeConnection conn e c
  end.

(** connect() is for a client that is not connected and whose connector is idle.  A
    connection closes once, in a poll after the functors queued with its creation. *)
Definition client_enabled (a : client_action) (c : TcpClient) : bool :=
  match a with
  | CConnect b => enabled (AStart b) (connector_ c)
  | CDisconnect | CStop | CEnableRetry => true
  | CServe a => negb (starts a) && negb (bool_decide (a = AStop)) && enabled a (connector_ c)
  | CClosed conn => bool_decide (conn ∈ live c) && bool_decide (KResetChannel ∉ pending (connector_ c))
  end.

(** The clients that can be reached, with the actions on the way. *)
Inductive client_reachable : list client_action -> TcpClient -> Prop :=
| ClientInit : client_reachable [] newTcpClient
| ClientStep tr a e c c' :
    client_reachable tr c -> client_enabled a c = true -> client_perform a e c = Ok c' -> client_reachable (tr ++ [a]) c'.
End Client.

(** ** Theorems *)

Section Theorems.
Context (loop : ptr) (name_ : list char) (peer : Z -> list char).

(** A connector whose connection was made stays so until restart(). *)
Lemma connected_stays a e k k' :
  conn_inv loop k -> state_ k = kConnected -> starts a = false -> enabled a k = true ->
  perform loop a e k = Ok k' -> state_ k' = kConnected /\ handed k' = handed k.
Proof.
  intros ([Ht|Hr] & _) Hs Ha Hen; [by rewrite (t_state _ _ Ht) in Hs|].
  destruct Hr as [H1 H2 H3 H4 H5]. rewrite Hs in H3. cbn [taken] in H3.
  destruct a as [b| | | |i|rev]; try done; cbn [perform].
  - by intros [= <-].
  - destruct (pending k) as [|t rest]; [by intros [= <-]|]. destruct t; cbn [run_task].
    + counts H3. lia.
    + unfold stopInLoop. cbn [state_ set_pending]. rewrite bool_decide_false by congruence. by intros [= <-].
    + by intros [= <-].
  - cbn [enabled] in Hen. rewrite andb_true_iff, bool_decide_eq_true in Hen. lia.
  - cbn [enabled] in Hen. destruct H4 as [[Hc _]|[(ch & Hc & He) _]]; rewrite Hc in Hen; [done|].
    unfold isNoneEvent in Hen. by rewrite He in Hen.
Qed.

Lemma retry_handed fd k : handed (retry fd k) = handed k.
Proof. unfold retry. by case_match. Qed.

Lemma remove_handed k fd k' : removeAndResetChannel k = Ok (fd, k') -> handed k' = handed k.
Proof. unfold removeAndResetChannel. destruct (channel_ k); cbn; [|done]. by intros [= <- <-]. Qed.

Lemma startInLoop_handed e k k' : startInLoop loop e k = Ok k' -> handed k' = handed k.
Proof.
  unfold startInLoop. case_bool_decide; cbn [check mbind res_bind]; [|done].
  destruct (connect_ k); [|by intros [= <-]]. unfold Connector.connect. case_bool_decide.
  - unfold connecting. destruct (negb _); cbn; [by intros [= <-]|done].
  - case_bool_decide; intros [= <-]; [by rewrite retry_handed|done].
Qed.

(** A step hands over nothing, or one socket, and then the connector is connected. *)
Definition hands (k k' : Connector) : Prop :=
  handed k' = handed k \/ exists fd, handed k' = handed k ++ [fd] /\ state_ k' = kConnected.

Lemma handleWrite_hands e k k' : handleWrite e k = Ok k' -> hands k k'.
Proof.
  unfold handleWrite. case_bool_decide.
  - destruct (removeAndResetChannel k) as [[fd k1]|] eqn:E; cbn [mbind res_bind]; [|done].
    apply remove_handed in E. repeat case_match; intros [= <-]; unfold hands; rewrite ?retry_handed; eauto.
    cbn. rewrite E. eauto.
  - case_bool_decide; cbn; [intros [= <-]; by left|done].
Qed.

Lemma handleError_handed k k' : handleError k = Ok k' -> handed k' = handed k.
Proof.
  unfold handleError. case_bool_decide; [|by intros [= <-]].
  destruct (removeAndResetChannel k) as [[fd k1]|] eqn:E; cbn [mbind res_bind]; [|done].
  intros [= <-]. rewrite retry_handed. by eapply remove_handed.
Qed.

Lemma perform_hands a e k k' :
  conn_inv loop k -> enabled a k = true -> starts a = false ->
  perform loop a e k = Ok k' -> hands k k'.
Proof.
  intros Hi Hen Ha. destruct a as [b| | | |i|rev]; try done; cbn [perform].
  - intros [= <-]. by left.
  - destruct (pending k) as [|t rest]; [intros [= <-]; by left|]. destruct t; cbn [run_task].
    + intros E%startInLoop_handed. by left.
    + unfold stopInLoop. case_bool_decide; [|intros [= <-]; by left].
      destruct (removeAndResetChannel _) as [[fd k1]|] eqn:E; cbn [mbind res_bind]; [|done].
      intros [= <-]. left. rewrite retry_handed. by apply remove_handed in E.
    + intros [= <-]. by left.
  - intros E%startInLoop_handed. by left.
  - cbn [enabled] in Hen. destruct (channel_ k) as [ch|] eqn:Ec; [|done].
    destruct Hi as ([Ht|Hr] & _).
    2: { destruct (r_channel _ Hr) as [[? _]|[(ch' & Hc & He) _]]; [congruence|].
         rewrite Ec in Hc. injection Hc as <-. unfold isNoneEvent in Hen. by rewrite He in Hen. }
    destruct (t_channel _ _ Ht) as (fd & Hc & _). rewrite Ec in Hc. injection Hc as ->.
    cbn [get mbind res_bind]. pose proof (connecting_callbacks loop fd rev) as Hcb.
    rewrite !elem_of_cons, elem_of_nil in Hcb.
    destruct Hcb as [->|[->|[->|[->|[]]]]]; cbn [run_callbacks run_callback].
    + intros [= <-]. by left.
    + destruct (handleError k) as [k1|] eqn:E; cbn [mbind res_bind]; [|done]. intros [= <-].
      left. by apply handleError_handed.
    + destruct (handleWrite e k) as [k1|] eqn:E; cbn [mbind res_bind]; [|done]. intros [= <-].
      by eapply handleWrite_hands.
    + destruct (handleError k) as [k1|] eqn:E; cbn [mbind res_bind]; [|done].
      destruct (handleWrite e k1) as [k2|] eqn:E2; cbn [mbind res_bind]; [|done]. intros [= <-].
      apply handleError_handed in E. apply handleWrite_hands in E2. unfold hands in *. by rewrite <- E.
Qed.
(** The connection the client holds is the live one, if there is one; while there is one
    the connector rests in kConnected. *)
Definition client_inv (c : TcpClient) : Prop :=
  conn_inv loop (connector_ c) /\
  (connection_ c = None /\ live c = [] \/
   exists i, connection_ c = Some i /\ live c = [i] /\ state_ (connector_ c) = kConnected).

Lemma serve_inv a e c :
  client_inv c -> starts a = false -> enabled a (connector_ c) = true ->
  exists c', connector_step loop name_ peer a e c = Ok c' /\ client_inv c'.
Proof.
  intros [Hi Hc] Ha Hen. destruct (perform_inv loop a e (connector_ c) Hi Hen) as (k & E & Hk).
  unfold connector_step. rewrite E. cbn [mbind res_bind]. eexists. split; [reflexivity|].
  unfold handed_over. destruct Hc as [[Hn Hl]|(i & Hn & Hl & Hs)].
  - destruct (perform_hands a e _ k Hi Hen Ha E) as [->|(fd & -> & Hs)].
    + rewrite drop_all. cbn. split; [done|by left].
    + rewrite drop_app_length. cbn. split; [done|]. right. exists (length (created c)). unfold newConnection. cbn. rewrite Hl. by split_and!.
  - destruct (connected_stays a e _ k Hi Hs Ha Hen E) as [Hs' ->]. rewrite drop_all. cbn.
    split; [done|]. right. by exists i.
Qed.

Lemma closed_inv conn e c :
  client_inv c -> conn ∈ live c -> KResetChannel ∉ pending (connector_ c) ->
  exists c', removeConnection loop conn e c = Ok c' /\ client_inv c'.
Proof.
  intros [Hi Hc] Hin Hre. destruct Hc as [[_ Hl]|(i & Hn & Hl & Hs)]; rewrite Hl in Hin.
  { by apply elem_of_nil in Hin. }
  apply list_elem_of_singleton in Hin as ->. unfold removeConnection.
  rewrite Hn, bool_decide_true by done. cbn [check mbind res_bind retry_ client_connect_ connector_].
  assert (Hf : filter (fun j => j <> i) (live c) = []).
  { rewrite Hl, filter_cons. by destruct (decide (i <> i)). }
  destruct (retry_ c && client_connect_ c).
  - destruct (perform_inv loop ARestart e (connector_ c) Hi) as (k & E & Hk).
    { cbn. by rewrite !bool_decide_true by done. }
    cbn [perform] in E. rewrite E. cbn. eexists. split; [reflexivity|]. split; [done|by left].
  - eexists. split; [reflexivity|]. split; [done|by left].
Qed.

Lemma client_perform_inv a e c :
  client_inv c -> client_enabled a c = true ->
  exists c', client_perform loop name_ peer a e c = Ok c' /\ client_inv c'.
Proof.
  intros Hi Hen. destruct a as [b| | | |a|conn]; cbn [client_perform client_enabled] in *.
  - destruct Hi as [Hk Hc]. destruct (perform_inv loop (AStart b) e (connector_ c) Hk Hen) as (k & E & Hk').
    unfold connect. cbn [perform] in E. cbn [connector_ set_client_connect]. rewrite E. cbn [mbind res_bind].
    eexists. split; [reflexivity|]. split; [done|]. destruct Hc as [?|(i & _ & _ & Hs)]; [by left|].
    cbn [enabled] in Hen. unfold idle in Hen. by rewrite Hs in Hen.
  - eexists. split; [reflexivity|]. by destruct Hi.
  - eexists. split; [reflexivity|]. destruct Hi as [Hk Hc].
    destruct (perform_inv loop AStop e (connector_ c) Hk eq_refl) as (k & [= <-] & Hk'). by split.
  - eexists. split; [reflexivity|]. by destruct Hi.
  - rewrite !andb_true_iff, !negb_true_iff in Hen. destruct Hen as [[Ha _] Hen]. by apply serve_inv.
  - rewrite andb_true_iff, !bool_decide_eq_true in Hen. destruct Hen. by apply closed_inv.
Qed.

Lemma client_reachable_inv tr c : client_reachable loop name_ peer tr c -> client_inv c.
Proof.
  induction 1 as [|tr a e c c' _ IH Hen Hp]; [split; [apply newConnector_inv|by left]|].
  destruct (client_perform_inv a e c IH Hen) as (c2 & E & ?). congruence.
Qed.

(** *** When a client reconnects *)

(** The user asked for it, and has called connect() since every disconnect() and stop(). *)
Definition reconnects (tr : list client_action) : Prop :=
  CEnableRetry ∈ tr /\
  forall tr1 a tr2, tr = tr1 ++ a :: tr2 -> a = CDisconnect \/ a = CStop -> exists b, CConnect b ∈ tr2.

Lemma flags_step a e c c' :
  client_perform loop name_ peer a e c = Ok c' ->
  retry_ c' = (match a with CEnableRetry => true | _ => retry_ c end) /\
  client_connect_ c' = (match a with CConnect _ => true | CDisconnect | CStop => false | _ => client_connect_ c end).
Proof.
  destruct a as [b| | | |a|conn]; cbn [client_perform].
  - unfold connect. intros H. inv_res H. by subst.
  - by intros [= <-].
  - by intros [= <-].
  - by intros [= <-].
  - unfold connector_step. intros H. inv_res H. subst c'. generalize (handed_over (connector_ c) a0). intros fds.
    assert (Hf : forall fds c1, retry_ (foldl (fun c fd => newConnection name_ peer fd c) c1 fds) = retry_ c1 /\
      client_connect_ (foldl (fun c fd => newConnection name_ peer fd c) c1 fds) = client_connect_ c1).
    { clear. intros fds. induction fds as [|fd fds IH]; intros c1; [done|]. cbn. by destruct (IH (newConnection name_ peer fd c1)) as [-> ->]. }
    by destruct (Hf fds (set_connector a0 c)) as [-> ->].
  - unfold removeConnection. intros H. inv_res H. cbn in H. destruct (retry_ c && client_connect_ c); inv_res H; by subst.
Qed.

Lemma asked_snoc tr a : CEnableRetry ∈ tr ++ [a] <-> CEnableRetry ∈ tr \/ a = CEnableRetry.
Proof. rewrite elem_of_app, list_elem_of_singleton. intuition congruence. Qed.

Definition not_told_to_stop (tr : list client_action) : Prop :=
  forall tr1 a tr2, tr = tr1 ++ a :: tr2 -> a = CDisconnect \/ a = CStop -> exists b, CConnect b ∈ tr2.

Lemma not_told_snoc tr a :
  not_told_to_stop (tr ++ [a]) <->
  match a with CConnect _ => True | CDisconnect | CStop => False | _ => not_told_to_stop tr end.
Proof.
  assert (Hkeep : (a <> CDisconnect /\ a <> CStop) -> not_told_to_stop tr -> not_told_to_stop (tr ++ [a])).
  { intros Ha Ht tr1 x tr2 E Hx. destruct tr2 as [|y tr2 _] using rev_ind.
    - apply app_inj_tail in E as [_ <-]. destruct Hx; tauto.
    - rewrite app_comm_cons, (assoc_L app) in E. apply app_inj_tail in E as [-> _]. destruct (Ht tr1 x tr2 eq_refl Hx) as [b Hb]. exists b. set_solver. }
  assert (Hback : (forall b, a <> CConnect b) -> not_told_to_stop (tr ++ [a]) -> not_told_to_stop tr).
  { intros Ha Ht tr1 x tr2 -> Hx. destruct (Ht tr1 x (tr2 ++ [a])) as [b Hb]; [by rewrite <- (assoc_L app)|done|].
    exists b. apply elem_of_app in Hb as [Hb|Hb]; [done|]. apply list_elem_of_singleton in Hb. by destruct (Ha b). }
  destruct a; (split; [|try done]); try (by apply Hback); try (by apply Hkeep); intros H; try done.
  - intros tr1 x tr2 E Hx. destruct tr2 as [|y tr2 _] using rev_ind.
    + apply app_inj_tail in E as [_ <-]. by destruct Hx.
    + rewrite app_comm_cons, (assoc_L app) in E. apply app_inj_tail in E as [-> <-]. exists inLoopThread. set_solver.
  - destruct (H tr CDisconnect [] eq_refl (or_introl eq_refl)) as [b Hb]. by apply elem_of_nil in Hb.
  - destruct (H tr CStop [] eq_refl (or_intror eq_refl)) as [b Hb]. by apply elem_of_nil in Hb.
Qed.

Lemma client_flags tr c :
  client_reachable loop name_ peer tr c -> (retry_ c = true <-> CEnableRetry ∈ tr) /\ (client_connect_ c = true <-> not_told_to_stop tr).
Proof.
  induction 1 as [|tr a e c c' _ [IH1 IH2] Hen Hp].
  - split; [split; [done|intros H; by apply elem_of_nil in H]|]. split; [|done]. intros _ tr1 x tr2 E. by destruct tr1.
  - destruct (flags_step a e c c' Hp) as [-> ->]. rewrite asked_snoc, not_told_snoc, <- IH1. split; destruct a; try done; naive_solver.
Qed.

Lemma client_reconnects tr c : client_reachable loop name_ peer tr c -> (retry_ c && client_connect_ c = true <-> reconnects tr).
Proof. intros Hr. destruct (client_flags tr c Hr) as [H1 H2]. rewrite andb_true_iff, H1, H2. done. Qed.

(** restart() tries to connect once. *)
Lemma restart_attempts e k k' : restart loop e k = Ok k' -> attempts k' = S (attempts k).
Proof.
  unfold restart, startInLoop. cbn [state_ set_connect reset_delay setState]. rewrite bool_decide_true by done. cbn [check mbind res_bind connect_].
  unfold Connector.connect. case_bool_decide.
  - unfold connecting. destruct (negb _); cbn; [|done]. by intros [= <-].
  - case_bool_decide; intros [= <-]; [|done]. unfold retry. by case_match.
Qed.

Lemma closed_reconnects tr c conn e c' :
  client_reachable loop name_ peer tr c -> client_perform loop name_ peer (CClosed conn) e c = Ok c' ->
  connection_ c' = None /\ destroys c' = destroys c ++ [conn] /\
  (reconnects tr -> attempts (connector_ c') = S (attempts (connector_ c))) /\ (~ reconnects tr -> connector_ c' = connector_ c).
Proof.
  intros Hr. rewrite <- (client_reconnects tr c Hr). cbn [client_perform]. unfold removeConnection. intros H. inv_res H. cbn in H.
  destruct (retry_ c && client_connect_ c).
  - inv_res H. subst c'. cbn. split_and!; [done|done| |done]. intros _. by apply restart_attempts in Ha0.
  - inv_res H. subst c'. by cbn.
Qed.

(** [C32] A client and its connection.  For runs in which connect() is called only while the
    connector is idle (the FIXME in connect() does not check it): a client has at most one live
    connection and connection_ is it, so the assertion in removeConnection holds for the connection
    that closes; nothing the client or its connector does fails an assertion; and when the
    connection closes the connector tries to connect once more if enableRetry was called and every
    disconnect() and stop() was followed by a connect(), and otherwise is left as it is. *)
Theorem client_safe tr c :
  client_reachable loop name_ peer tr c ->
  live c = option_list (connection_ c) /\
  (forall a e, client_enabled a c = true ->
    exists c', client_perform loop name_ peer a e c = Ok c' /\ client_reachable loop name_ peer (tr ++ [a]) c') /\
  (forall conn e c', client_enabled (CClosed conn) c = true -> client_perform loop name_ peer (CClosed conn) e c = Ok c' ->
    connection_ c' = None /\ destroys c' = destroys c ++ [conn] /\
    (reconnects tr -> attempts (connector_ c') = S (attempts (connector_ c))) /\ (~ reconnects tr -> connector_ c' = connector_ c)).
Proof.
  intros Hr. pose proof (client_reachable_inv tr c Hr) as Hi. split_and!.
  - destruct Hi as [_ [[-> ->]|(i & -> & -> & _)]]; done.
  - intros a e Hen. destruct (client_perform_inv a e c Hi Hen) as (c' & E & _). exists c'.
    split; [done|]. by eapply ClientStep.
  - intros conn e c' _. by apply closed_reconnects.
Qed.

(** The destructor of a client whose connection is up leaves just that connection, which queues
    its own connectDestroyed when it closes.  The destructor of one that is not connected stops
    the connector: it hands nothing to the client any more, whatever the kernel and the timers
    do, and when the loop has run its functors it has closed its socket and its channel is gone. *)
Theorem client_destructor_correct tr c unique :
  client_reachable loop name_ peer tr c ->
  let r := destroy_client unique c in
  match connection_ c with
  | Some conn => live c = [conn] /\ r_connection r = Some conn /\ r_forceClose r = unique /\
      r_destroys (orphan_removeConnection conn r) = destroys c ++ [conn]
  | None => live c = [] /\
      (forall k, quiet_run loop (r_connector r) k -> handed k = handed (connector_ c) /\ attempts k = attempts (connector_ c)) /\
      (forall e, exists k, drain loop (length (pending (connector_ c)) + 2) e (r_connector r) = Ok k /\
         pending k = [] /\ channel_ k = None /\ owned k = ∅)
  end.
Proof.
  intros Hr r. destruct (client_reachable_inv tr c Hr) as [Hi [[Hn Hl]|(i & Hn & Hl & _)]]; unfold r, destroy_client; rewrite Hn; [|done].
  split; [done|]. cbn [r_connector]. split.
  - intros k Hq. by destruct (quiet_run_calm loop _ _ Hq eq_refl) as (_ & ? & ? & _).
  - intros e. destruct (stopped_drains loop e (connector_ c) Hi) as (k & ? & ? & _ & ? & ?). by exists k.
Qed.

(** Runs a list of actions, as long as they are enabled and succeed. *)
Fixpoint client_run (l : list (client_action * env)) (c : TcpClient) : option TcpClient :=
  match l with
  | [] => Some c
  | (a, e) :: l =>
      if client_enabled a c then
        match client_perform loop name_ peer a e c with
        | Ok c' => client_run l c'
        | Fault _ => None
        end
      else None
  end.

Lemma client_run_reachable l tr c c' :
  client_reachable loop name_ peer tr c -> client_run l c = Some c' -> client_reachable loop name_ peer (tr ++ l.*1) c'.
Proof.
  revert tr c. induction l as [|[a e] l IH]; intros tr c Hr; cbn [client_run]; [rewrite app_nil_r; by intros [= <-]|].
  destruct (client_enabled a c) eqn:Hen; [|done].
  destruct (client_perform loop name_ peer a e c) as [c1|] eqn:E; [|done].
  cbn. rewrite (cons_middle a), (assoc_L app). apply IH. by eapply ClientStep.
Qed.
End Theorems.

Definition sample_client : TcpClient :=
  mkClient true true 2 (Some 0%nat)
    (mkConnector true kConnected None 500 [] [] ∅ false [7] 1 []) [] []
    [lit "c:1.2.3.4:80#1"] [0%nat].

Definition sample_actions : list (client_action * env) :=
  [(CEnableRetry, env_with 0); (CConnect true, env_with EINPROGRESS); (CServe (APoll POLLOUT), env_with 0); (CServe AFunctor, env_with 0)].

Lemma sample_client_reachable : client_reachable 1 (lit "c") (fun _ => lit "1.2.3.4:80") sample_actions.*1 sample_client.
Proof.
  apply (client_run_reachable 1 (lit "c") (fun _ => lit "1.2.3.4:80") sample_actions [] newTcpClient);
    [constructor|vm_compute; reflexivity].
Qed.

Lemma sample_reconnects : reconnects sample_actions.*1.
Proof.
  split; [by left|]. intros tr1 a tr2 E Ha. exfalso. assert (Hin : a ∈ sample_actions.*1) by (rewrite E; set_solver).
  cbn in Hin. repeat (apply elem_of_cons in Hin as [->|Hin]; [by destruct Ha|]). by apply elem_of_nil in Hin.
Qed.

(** The connection closes and the client, which was asked to, tries to connect again. *)
Lemma client_safe_witness :
  exists c', client_perform 1 (lit "c") (fun _ => lit "1.2.3.4:80") (CClosed 0) (env_with ECONNREFUSED) sample_client = Ok c' /\
    client_reachable 1 (lit "c") (fun _ => lit "1.2.3.4:80") (sample_actions.*1 ++ [CClosed 0]) c' /\
    connection_ c' = None /\ attempts (connector_ c') = 2%nat.
Proof.
  destruct (client_safe 1 (lit "c") (fun _ => lit "1.2.3.4:80") _ sample_client sample_client_reachable) as (_ & H1 & H2).
  destruct (H1 (CClosed 0) (env_with ECONNREFUSED) eq_refl) as (c' & E & Hr). exists c'.
  destruct (H2 0%nat (env_with ECONNREFUSED) c' eq_refl E) as (Hc & _ & Ha & _). split_and!; [exact E|exact Hr|exact Hc|].
  exact (Ha sample_reconnects).
Defined.
