(* ===== verification/Memcached.v ===== *)
(** * The memcached server (src/memcached/server)

    Items, the sharded item store, and the sessions' text protocol.

    [hash] is boost::hash_range, a parameter.  The unordered_set of a shard, whose
    equality is equality of keys, is a finite map from keys.  Items are immutable once
    stored, so the store holds values.  [malloc]'s content is indeterminate; the model
    fills it with NULs, and the code reads only what was received.  The session's
    [outputBuf_], used through append and send alone, is its content; the input buffer
    is the [Buffer] of Buffer.v.  [sent_] records the calls on the connection and the
    server's event loop. *)

From S2P Require Import Prelude Decimal Buffer.

(** ** Item (Item.h, Item.cc) *)

Inductive UpdatePolicy := kInvalid | kSet | kAdd | kReplace | kAppend | kPrepend | kCas.

#[global] Instance UpdatePolicy_eq_dec : EqDecision UpdatePolicy.
Proof. solve_decision. Defined.

Record Item := mkItem {
  keylen_ : Z;
  flags_ : Z;
  rel_exptime_ : Z;
  valuelen_ : Z;
  receivedBytes_ : Z;
  cas_ : Z;
  hash_ : Z;
  data_ : list char
}.

Definition totalLen (it : Item) : Z := keylen_ it + valuelen_ it.
Definition neededBytes (it : Item) : Z := size_t (totalLen it - receivedBytes_ it).

Definition item_append (data : list char) (it : Item) : res Item :=
  _ ← check (zlen data <=? neededBytes it);
  l ← write_at (data_ it) (receivedBytes_ it) data;
  let it := mkItem (keylen_ it) (flags_ it) (rel_exptime_ it) (valuelen_ it)
              (receivedBytes_ it + zlen data) (cas_ it) (hash_ it) l in
  _ ← check (receivedBytes_ it <=? totalLen it);
  Ok it.

Definition item_key (it : Item) : res (list char) := read_range (data_ it) 0 (keylen_ it).
Definition item_value (it : Item) (len : Z) : res (list char) :=
  read_range (data_ it) (keylen_ it) (keylen_ it + len).

Definition setCas (cas : Z) (it : Item) : Item :=
  mkItem (keylen_ it) (flags_ it) (rel_exptime_ it) (valuelen_ it) (receivedBytes_ it) cas
    (hash_ it) (data_ it).

Definition endsWithCRLF (it : Item) : res bool :=
  if receivedBytes_ it =? totalLen it then
    c1 ← get (data_ it !! Z.to_nat (totalLen it - 2));
    if bool_decide (c1 = chr 13) then
      c2 ← get (data_ it !! Z.to_nat (totalLen it - 1));
      Ok (bool_decide (c2 = chr 10))
    else Ok false
  else Ok false.

(** [Item::output]: what it appends. *)
Definition output (needCas : bool) (it : Item) : res (list char) :=
  key ← item_key it;
  value ← item_value it (valuelen_ it);
  Ok (lit "VALUE " ++ key ++ lit " " ++ dec (flags_ it) ++ lit " " ++ dec (valuelen_ it - 2)
      ++ (if needCas then lit " " ++ dec (cas_ it) else []) ++ kCRLF ++ value).

Section Server.
Context (hash : list char -> Z).

Definition makeItem (key : list char) (flags exptime valuelen cas : Z) : res Item :=
  let it := mkItem (zlen key) flags exptime valuelen 0 cas (hash key)
              (replicate (Z.to_nat (zlen key + valuelen)) (chr 0)) in
  _ ← check (2 <=? valuelen_ it);
  _ ← check (receivedBytes_ it <? totalLen it);
  item_append key it.

Definition resetKey (k : list char) (it : Item) : res Item :=
  _ ← check (zlen k <=? 250);
  it ← item_append k (mkItem (zlen k) (flags_ it) (rel_exptime_ it) (valuelen_ it) 0 (cas_ it)
                        (hash_ it) (data_ it));
  Ok (mkItem (keylen_ it) (flags_ it) (rel_exptime_ it) (valuelen_ it) (receivedBytes_ it) (cas_ it)
        (hash k) (data_ it)).

(** ** MemcacheServer (MemcacheServer.h, MemcacheServer.cc) *)

Definition kShards : Z := 4096.

Abbreviation ItemMap := (gmap (list char) Item).

Record MemcacheServer := mkServer {
  startTime_ : Z;
  shards_ : gmap Z ItemMap;
  g_cas : Z
}.

Definition shard (h : Z) (s : MemcacheServer) : ItemMap := default ∅ (shards_ s !! (h mod kShards)).
Definition set_shard (h : Z) (m : ItemMap) (s : MemcacheServer) : MemcacheServer :=
  mkServer (startTime_ s) (<[h mod kShards := m]> (shards_ s)) (g_cas s).

(** [g_cas.incrementAndGet()] *)
Definition next_cas (s : MemcacheServer) : Z := uint 64 (g_cas s + 1).
Definition count_cas (s : MemcacheServer) : MemcacheServer :=
  mkServer (startTime_ s) (shards_ s) (next_cas s).

(** [items.erase(it); items.insert(item)] or the insertion alone, with a new cas. *)
Definition put (item : Item) (s : MemcacheServer) : res MemcacheServer :=
  key ← item_key item;
  Ok (set_shard (hash_ item) (<[key := item]> (shard (hash_ item) s)) s).

Definition put_fresh (item : Item) (s : MemcacheServer) : res MemcacheServer :=
  put (setCas (next_cas s) item) (count_cas s).

(** The concatenation of an append or prepend. *)
Definition join (policy : UpdatePolicy) (item oldItem : Item) (cas : Z) : res Item :=
  let newLen := sint 32 (size_t (valuelen_ item + valuelen_ oldItem - 2)) in
  key ← item_key item;
  newItem ← makeItem key (flags_ oldItem) (rel_exptime_ oldItem) newLen cas;
  newItem ← (if bool_decide (policy = kAppend) then
               v1 ← item_value oldItem (valuelen_ oldItem - 2);
               newItem ← item_append v1 newItem;
               v2 ← item_value item (valuelen_ item);
               item_append v2 newItem
             else
               v1 ← item_value item (valuelen_ item - 2);
               newItem ← item_append v1 newItem;
               v2 ← item_value oldItem (valuelen_ oldItem);
               item_append v2 newItem);
  _ ← check (neededBytes newItem =? 0);
  crlf ← endsWithCRLF newItem;
  _ ← check crlf;
  Ok newItem.

(** [storeItem]: its result, [*exists], and the server. *)
Definition storeItem (item : Item) (policy : UpdatePolicy) (s : MemcacheServer)
  : res (bool * bool * MemcacheServer) :=
  _ ← check (neededBytes item =? 0);
  key ← item_key item;
  let it := shard (hash_ item) s !! key in
  let exists_ := bool_decide (is_Some it) in
  match policy, it with
  | kSet, _ => s ← put_fresh item s; Ok (true, exists_, s)
  | kAdd, Some _ => Ok (false, exists_, s)
  | kAdd, None => s ← put_fresh item s; Ok (true, exists_, s)
  | kReplace, Some _ => s ← put_fresh item s; Ok (true, exists_, s)
  | kReplace, None => Ok (false, exists_, s)
  | (kAppend | kPrepend), Some oldItem =>
      newItem ← join policy item oldItem (next_cas s);
      s ← put newItem (count_cas s);
      Ok (true, exists_, s)
  | (kAppend | kPrepend), None => Ok (false, exists_, s)
  | kCas, Some oldItem =>
      if cas_ oldItem =? cas_ item then s ← put_fresh item s; Ok (true, exists_, s)
      else Ok (false, exists_, s)
  | kCas, None => Ok (false, exists_, s)
  | kInvalid, _ => Fault AssertFailure
  end.

Definition getItem (key : Item) (s : MemcacheServer) : res (option Item) :=
  k ← item_key key;
  Ok (shard (hash_ key) s !! k).

Definition deleteItem (key : Item) (s : MemcacheServer) : res (bool * MemcacheServer) :=
  k ← item_key key;
  let items := shard (hash_ key) s in
  Ok (bool_decide (is_Some (items !! k)), set_shard (hash_ key) (delete k items) s).

(** ** Session (Session.h, Session.cc) *)

Inductive State := kNewCommand | kReceiveValue | kDiscardValue.
Inductive Protocol := kAscii | kBinary | kAuto.

#[global] Instance Protocol_eq_dec : EqDecision Protocol.
Proof. solve_decision. Defined.

(** Calls on the connection: send, shutdown, shrink of its output buffer; and the quit
    timer of MemcacheServer::stop. *)
Inductive out := OSend (data : list char) | OShutdown | OShrink (reserve : Z) | OStop.

Record Session := mkSession {
  state_ : State;
  protocol_ : Protocol;
  command_ : list char;
  noreply_ : bool;
  policy_ : UpdatePolicy;
  currItem_ : option Item;
  bytesToDiscard_ : Z;
  needle_ : Item;
  outputBuf_ : list char;
  bytesRead_ : Z;
  requestsProcessed_ : Z;
  sent_ : list out
}.

Definition set_state (x : State) (s : Session) : Session :=
  mkSession x (protocol_ s) (command_ s) (noreply_ s) (policy_ s) (currItem_ s) (bytesToDiscard_ s)
    (needle_ s) (outputBuf_ s) (bytesRead_ s) (requestsProcessed_ s) (sent_ s).
Definition set_protocol (x : Protocol) (s : Session) : Session :=
  mkSession (state_ s) x (command_ s) (noreply_ s) (policy_ s) (currItem_ s) (bytesToDiscard_ s)
    (needle_ s) (outputBuf_ s) (bytesRead_ s) (requestsProcessed_ s) (sent_ s).
Definition set_command (x : list char) (s : Session) : Session :=
  mkSession (state_ s) (protocol_ s) x (noreply_ s) (policy_ s) (currItem_ s) (bytesToDiscard_ s)
    (needle_ s) (outputBuf_ s) (bytesRead_ s) (requestsProcessed_ s) (sent_ s).
Definition set_noreply (x : bool) (s : Session) : Session :=
  mkSession (state_ s) (protocol_ s) (command_ s) x (policy_ s) (currItem_ s) (bytesToDiscard_ s)
    (needle_ s) (outputBuf_ s) (bytesRead_ s) (requestsProcessed_ s) (sent_ s).
Definition set_policy (x : UpdatePolicy) (s : Session) : Session :=
  mkSession (state_ s) (protocol_ s) (command_ s) (noreply_ s) x (currItem_ s) (bytesToDiscard_ s)
    (needle_ s) (outputBuf_ s) (bytesRead_ s) (requestsProcessed_ s) (sent_ s).
Definition set_currItem (x : option Item) (s : Session) : Session :=
  mkSession (state_ s) (protocol_ s) (command_ s) (noreply_ s) (policy_ s) x (bytesToDiscard_ s)
    (needle_ s) (outputBuf_ s) (bytesRead_ s) (requestsProcessed_ s) (sent_ s).
Definition set_discard (x : Z) (s : Session) : Session :=
  mkSession (state_ s) (protocol_ s) (command_ s) (noreply_ s) (policy_ s) (currItem_ s) x
    (needle_ s) (outputBuf_ s) (bytesRead_ s) (requestsProcessed_ s) (sent_ s).
Definition set_needle (x : Item) (s : Session) : Session :=
  mkSession (state_ s) (protocol_ s) (command_ s) (noreply_ s) (policy_ s) (currItem_ s) (bytesToDiscard_ s)
    x (outputBuf_ s) (bytesRead_ s) (requestsProcessed_ s) (sent_ s).
Definition set_outputBuf (x : list char) (s : Session) : Session :=
  mkSession (state_ s) (protocol_ s) (command_ s) (noreply_ s) (policy_ s) (currItem_ s) (bytesToDiscard_ s)
    (needle_ s) x (bytesRead_ s) (requestsProcessed_ s) (sent_ s).
Definition add_bytesRead (n : Z) (s : Session) : Session :=
  mkSession (state_ s) (protocol_ s) (command_ s) (noreply_ s) (policy_ s) (currItem_ s) (bytesToDiscard_ s)
    (needle_ s) (outputBuf_ s) (size_t (bytesRead_ s + n)) (requestsProcessed_ s) (sent_ s).
Definition count_request (s : Session) : Session :=
  mkSession (state_ s) (protocol_ s) (command_ s) (noreply_ s) (policy_ s) (currItem_ s) (bytesToDiscard_ s)
    (needle_ s) (outputBuf_ s) (bytesRead_ s) (size_t (requestsProcessed_ s + 1)) (sent_ s).
Definition emit (o : out) (s : Session) : Session :=
  mkSession (state_ s) (protocol_ s) (command_ s) (noreply_ s) (policy_ s) (currItem_ s) (bytesToDiscard_ s)
    (needle_ s) (outputBuf_ s) (bytesRead_ s) (requestsProcessed_ s) (sent_ s ++ [o]).

Definition kLongestKeySize : Z := 250.
Definition kLongestKey : list char := replicate 250 (chr 120).

(** [Session::Session] *)
Definition newSession : res Session :=
  needle ← makeItem kLongestKey 0 0 2 0;
  Ok (mkSession kNewCommand kAscii [] false kInvalid None 0 needle [] 0 0 []).

Definition isBinaryProtocol (firstByte : char) : bool := ord firstByte =? 128.

Definition resetRequest (s : Session) : Session :=
  set_discard 0 (set_currItem None (set_policy kInvalid (set_noreply false (set_command [] s)))).

Definition reply (msg : list char) (s : Session) : Session :=
  if noreply_ s then s else emit (OSend msg) s.

(** [SpaceSeparator::operator()]: the next token and where the scan goes on. *)
Fixpoint skip_blanks (l : list char) : list char :=
  match l with
  | c :: l' => if bool_decide (c = chr 32) then skip_blanks l' else l
  | [] => []
  end.

Definition separator (next : list char) : option (list char * list char) :=
  let start := skip_blanks next in
  match start with
  | [] => None
  | _ =>
      match find_char (chr 32) start with
      | Some sp => Some (take (Z.to_nat sp) start, drop (Z.to_nat sp) start)
      | None => Some (start, [])
      end
  end.

(** The tokens boost::tokenizer finds with it. *)
Fixpoint tokens (fuel : nat) (l : list char) : list (list char) :=
  match fuel with
  | O => []
  | S fuel => match separator l with
              | Some (tok, rest) => tok :: tokens fuel rest
              | None => []
              end
  end.

(** [strtoull(token, &end, 10)] that stops exactly at the token's end: white space, a
    sign, digits; too large a number saturates. *)
Fixpoint skip_isspace (l : list char) : list char :=
  match l with
  | c :: l' => if isspace c then skip_isspace l' else l
  | [] => []
  end.

Definition strtoull (tok : list char) : option Z :=
  let s := skip_isspace tok in
  let '(neg, digits) := match s with
                        | c :: s' => if bool_decide (c = chr 45) then (true, s')
                                     else if bool_decide (c = chr 43) then (false, s') else (false, s)
                        | [] => (false, [])
                        end in
  match digits with
  | [] => None
  | _ => if forallb isdigit digits then
           let v := value digits in
           Some (if 2 ^ 64 <=? v then 2 ^ 64 - 1 else if neg : bool then uint 64 (- v) else v)
         else None
  end.

(** [Reader::read]: the number and the tokens left. *)
Definition read (toks : list (list char)) : option (Z * list (list char)) :=
  match toks with
  | [] => None
  | tok :: toks => match strtoull tok with Some x => Some (x, toks) | None => None end
  end.

Definition policy_of (command : list char) : UpdatePolicy :=
  if bool_decide (command = lit "set") then kSet
  else if bool_decide (command = lit "add") then kAdd
  else if bool_decide (command = lit "replace") then kReplace
  else if bool_decide (command = lit "append") then kAppend
  else if bool_decide (command = lit "prepend") then kPrepend
  else if bool_decide (command = lit "cas") then kCas
  else kInvalid.

Definition bad_format : list char := lit "CLIENT_ERROR bad command line format" ++ kCRLF.

(** The numbers of an update command: flags, exptime, bytes and, for cas, the cas value. *)
Definition read_update (policy : UpdatePolicy) (toks : list (list char)) : option (Z * Z * Z * Z) :=
  '(flags, toks) ← read toks;
  '(exptime, toks) ← read toks;
  '(bytes, toks) ← read toks;
  '(cas, _) ← (if bool_decide (policy = kCas) then read toks else Some (0, toks));
  Some (uint 32 flags, sint 64 exptime, sint 32 bytes, cas).

(** The relative expiration time: past 30 days the argument is absolute. *)
Definition relative_exptime (startTime exptime : Z) : Z :=
  if 60 * 60 * 24 * 30 <? exptime then
    let rel := sint 32 (exptime - startTime) in
    if rel <? 1 then 1 else rel
  else sint 32 exptime.

(** [doUpdate]: whether the request is finished. *)
Definition doUpdate (toks : list (list char)) (s : Session) (m : MemcacheServer)
  : res (bool * Session * MemcacheServer) :=
  _ ← check (negb (bool_decide (policy_of (command_ s) = kInvalid)));
  let s := set_policy (policy_of (command_ s)) s in
  key ← get (head toks);
  let nums := if zlen key <=? kLongestKeySize then read_update (policy_ s) (tail toks) else None in
  match nums with
  | None => Ok (true, reply bad_format s, m)
  | Some (flags, exptime, bytes, cas) =>
      let rel_exptime := relative_exptime (startTime_ m) exptime in
      if 1024 * 1024 <? bytes then
        let s := reply (lit "SERVER_ERROR object too large for cache" ++ kCRLF) s in
        needle ← resetKey key (needle_ s);
        '(_, m) ← deleteItem needle m;
        total ← add_int bytes 2;
        Ok (false, set_state kDiscardValue (set_discard (size_t total) (set_needle needle s)), m)
      else
        total ← add_int bytes 2;
        item ← makeItem key flags rel_exptime total cas;
        Ok (false, set_state kReceiveValue (set_currItem (Some item) s), m)
  end.

Definition doDelete (toks : list (list char)) (s : Session) (m : MemcacheServer)
  : res (Session * MemcacheServer) :=
  _ ← check (bool_decide (command_ s = lit "delete"));
  key ← get (head toks);
  if negb (zlen key <=? kLongestKeySize) then Ok (reply bad_format s, m)
  else if match tail toks with t :: _ => negb (bool_decide (t = lit "0")) | [] => false end
  then Ok (reply (lit "CLIENT_ERROR bad command line format.  Usage: delete <key> [noreply]" ++ kCRLF) s, m)
  else
    needle ← resetKey key (needle_ s);
    let s := set_needle needle s in
    '(deleted, m) ← deleteItem needle m;
    Ok (reply (if deleted : bool then lit "DELETED" ++ kCRLF else lit "NOT_FOUND" ++ kCRLF) s, m).

(** The loop of get and gets over the keys: whether every key was accepted. *)
Fixpoint get_keys (cas : bool) (keys : list (list char)) (s : Session) (m : MemcacheServer)
  : res (bool * Session) :=
  match keys with
  | [] => Ok (true, s)
  | key :: keys =>
      if negb (zlen key <=? kLongestKeySize) then Ok (false, reply bad_format s)
      else
        needle ← resetKey key (needle_ s);
        item ← getItem needle m;
        text ← (match item with Some it => output cas it | None => Ok [] end);
        get_keys cas keys (set_outputBuf (outputBuf_ s ++ text) (set_needle needle s)) m
  end.

(** [writable]: the writable bytes of the connection's output buffer, given the calls on
    the connection so far. *)
Context (writable : list out -> Z).

Definition doGet (cas : bool) (keys : list (list char)) (s : Session) (m : MemcacheServer) : res Session :=
  '(good, s) ← get_keys cas keys s m;
  if good : bool then
    let s := set_outputBuf (outputBuf_ s ++ lit "END" ++ kCRLF) s in
    let reserve := 65536 + zlen (outputBuf_ s) in
    let s := if reserve <? writable (sent_ s) then emit (OShrink reserve) s else s in
    Ok (set_outputBuf [] (emit (OSend (outputBuf_ s)) s))
  else Ok s.

(** A request line without its noreply suffix, and whether it had one. *)
Definition strip_noreply (request : list char) : bool * list char :=
  let n := (length request - 8)%nat in
  if (8 <=? zlen request) && bool_decide (drop n request = lit " noreply") then (true, take n request)
  else (false, request).

(** The switch of [processRequest] over the commands: whether the request is finished. *)
Definition dispatch (command : list char) (toks : list (list char)) (s : Session) (m : MemcacheServer)
  : res (bool * Session * MemcacheServer) :=
  if negb (bool_decide (policy_of command = kInvalid)) then doUpdate toks s m
  else if bool_decide (command = lit "get") || bool_decide (command = lit "gets") then
    s ← doGet (bool_decide (command = lit "gets")) toks s m; Ok (true, s, m)
  else if bool_decide (command = lit "delete") then
    '(s, m) ← doDelete toks s m; Ok (true, s, m)
  else if bool_decide (command = lit "version") then
    Ok (true, reply (lit "VERSION 0.01 muduo" ++ kCRLF) s, m)
  else if bool_decide (command = lit "quit") then Ok (true, emit OShutdown s, m)
  else if bool_decide (command = lit "shutdown") then Ok (true, emit OStop (emit OShutdown s), m)
  else Ok (true, reply (lit "ERROR" ++ kCRLF) s, m).

(** [processRequest] *)
Definition processRequest (request : list char) (s : Session) (m : MemcacheServer)
  : res (bool * Session * MemcacheServer) :=
  _ ← check (bool_decide (command_ s = []));
  _ ← check (negb (noreply_ s));
  _ ← check (bool_decide (policy_ s = kInvalid));
  _ ← check (negb (bool_decide (is_Some (currItem_ s))));
  _ ← check (bytesToDiscard_ s =? 0);
  let s := count_request s in
  let '(noreply, request) := strip_noreply request in
  let s := if noreply : bool then set_noreply true s else s in
  match tokens (S (length request)) request with
  | [] => Ok (true, reply (lit "ERROR" ++ kCRLF) s, m)
  | command :: toks => dispatch command toks (set_command command s) m
  end.

(** The reply to a value that was stored, or not. *)
Definition store_reply (stored : bool) (policy : UpdatePolicy) (exists_ : bool) : list char :=
  if stored then lit "STORED" ++ kCRLF
  else if bool_decide (policy = kCas)
  then (if exists_ then lit "EXISTS" ++ kCRLF else lit "NOT_FOUND" ++ kCRLF)
  else lit "NOT_STORED" ++ kCRLF.

Definition receiveValue (b : Buffer) (s : Session) (m : MemcacheServer)
  : res (Buffer * Session * MemcacheServer) :=
  item ← (match currItem_ s with Some it => Ok it | None => Fault AssertFailure end);
  let avail := Z.min (readableBytes b) (neededBytes item) in
  chunk ← read_range (buffer_ b) (peek b) (peek b + avail);
  item ← item_append chunk item;
  b ← retrieve avail b;
  let s := set_currItem (Some item) s in
  if neededBytes item =? 0 then
    crlf ← endsWithCRLF item;
    '(s, m) ← (if crlf : bool then
                 '(stored, exists_, m) ← storeItem item (policy_ s) m;
                 Ok (reply (store_reply stored (policy_ s) exists_) s, m)
               else Ok (reply (lit "CLIENT_ERROR bad data chunk" ++ kCRLF) s, m));
    Ok (b, set_state kNewCommand (resetRequest s), m)
  else Ok (b, s, m).

Definition discardValue (b : Buffer) (s : Session) : res (Buffer * Session) :=
  _ ← check (negb (bool_decide (is_Some (currItem_ s))));
  if readableBytes b <? bytesToDiscard_ s then
    Ok (retrieveAll b, set_discard (size_t (bytesToDiscard_ s - readableBytes b)) s)
  else
    b ← retrieve (bytesToDiscard_ s) b;
    Ok (b, set_state kNewCommand (resetRequest (set_discard 0 s))).

(** One round of the loop of [onMessage]: whether it goes on. *)
Definition message_round (b : Buffer) (s : Session) (m : MemcacheServer)
  : res (bool * Buffer * Session * MemcacheServer) :=
  match state_ s with
  | kNewCommand =>
      s ← (if bool_decide (protocol_ s = kAuto) then
             _ ← check (bytesRead_ s =? 0);
             first ← read_range (buffer_ b) (peek b) (peek b + 1);
             c ← get (head first);
             Ok (set_protocol (if isBinaryProtocol c then kBinary else kAscii) s)
           else Ok s);
      if bool_decide (protocol_ s = kBinary) then Ok (true, b, s, m)
      else
        crlf ← findCRLF b;
        match crlf with
        | Some p =>
            request ← read_range (buffer_ b) (peek b) p;
            '(finished, s, m) ← processRequest request s m;
            let s := if finished : bool then resetRequest s else s in
            b ← retrieveUntil (p + 2) b;
            Ok (true, b, s, m)
        | None =>
            Ok (false, b, (if 1024 <? readableBytes b then emit OShutdown s else s), m)
        end
  | kReceiveValue => '(b, s, m) ← receiveValue b s m; Ok (true, b, s, m)
  | kDiscardValue => '(b, s) ← discardValue b s; Ok (true, b, s, m)
  end.

(** [while (buf->readableBytes() > 0)]; [None] when the fuel runs out. *)
Fixpoint message_loop (fuel : nat) (b : Buffer) (s : Session) (m : MemcacheServer)
  : option (res (Buffer * Session * MemcacheServer)) :=
  if 0 <? readableBytes b then
    match fuel with
    | O => None
    | S fuel =>
        match message_round b s m with
        | Fault f => Some (Fault f)
        | Ok (more, b, s, m) => if more : bool then message_loop fuel b s m else Some (Ok (b, s, m))
        end
    end
  else Some (Ok (b, s, m)).

Definition onMessage (fuel : nat) (b : Buffer) (s : Session) (m : MemcacheServer)
  : option (res (Buffer * Session * MemcacheServer)) :=
  let initialReadable := readableBytes b in
  match message_loop fuel b s m with
  | Some (Ok (b, s, m)) => Some (Ok (b, add_bytesRead (initialReadable - readableBytes b) s, m))
  | r => r
  end.
End Server.
