(* ===== verification/MemcachedTheory.v ===== *)
(** * Theorems about the memcached server

    An abstract key-value store with memcached's update policies; the sharded item store
    implements it; sessions answer a conversation as the abstract store does; the
    command lines that abort the server. *)

From S2P Require Import Prelude Decimal Buffer BufferTheory Memcached.

(** ** The abstract store *)

Record entry := mkEntry { e_flags : Z; e_exptime : Z; e_value : list char; e_cas : Z }.

(** A finite map and the last cas number given out. *)
Definition store : Type := gmap (list char) entry * Z.

Definition with_cas (n : Z) (e : entry) : entry := mkEntry (e_flags e) (e_exptime e) (e_value e) n.

(** Whether the update is carried out, whether the key existed, and the store after. *)
Definition apply_update (p : UpdatePolicy) (key : list char) (e : entry) (st : store) : bool * bool * store :=
  let '(a, n) := st in
  let old := a !! key in
  let write e := (true, bool_decide (is_Some old), (<[key := with_cas (n + 1) e]> a, n + 1)) in
  let refuse := (false, bool_decide (is_Some old), st) in
  match p, old with
  | kSet, _ => write e
  | kAdd, None => write e
  | kReplace, Some _ => write e
  | kAppend, Some o => write (mkEntry (e_flags o) (e_exptime o) (e_value o ++ e_value e) 0)
  | kPrepend, Some o => write (mkEntry (e_flags o) (e_exptime o) (e_value e ++ e_value o) 0)
  | kCas, Some o => if e_cas o =? e_cas e then write e else refuse
  | _, _ => refuse
  end.

Section Theory.
Context (hash : list char -> Z).

(** ** Items *)

(** A complete item with key [k] and content [e]. *)
Definition item_of (k : list char) (e : entry) : Item :=
  mkItem (zlen k) (e_flags e) (e_exptime e) (zlen (e_value e) + 2) (zlen k + (zlen (e_value e) + 2))
    (e_cas e) (hash k) (k ++ e_value e ++ kCRLF).

(** An item with key [k] of which the bytes [got] of the value have arrived. *)
Definition part_of (k : list char) (flags exptime vlen cas : Z) (got junk : list char) : Item :=
  mkItem (zlen k) flags exptime vlen (zlen k + zlen got) cas (hash k) (k ++ got ++ junk).

(** Lengths that fit the 32-bit fields. *)
Definition fits (k : list char) (vlen : Z) : Prop := zlen k + vlen < 2 ^ 31.

Lemma item_append_ok it pre junk d :
  data_ it = pre ++ junk -> receivedBytes_ it = zlen pre -> totalLen it = zlen pre + zlen junk ->
  zlen d <= zlen junk -> zlen junk < 2 ^ 63 ->
  item_append d it = Ok (mkItem (keylen_ it) (flags_ it) (rel_exptime_ it) (valuelen_ it)
    (zlen (pre ++ d)) (cas_ it) (hash_ it) (pre ++ d ++ drop (length d) junk)).
Proof.
  intros Hd Hr Ht Hle Hmax. unfold item_append, neededBytes. rewrite Hr, Ht.
  pose proof (zlen_nonneg d). pose proof (zlen_nonneg pre).
  rewrite uint_small by lia. replace (zlen d <=? _) with true by lia. cbn [check mbind res_bind].
  rewrite Hd, write_at_ok by (rewrite ?zlen_app; lia). cbn [mbind res_bind receivedBytes_ totalLen keylen_ valuelen_].
  replace (zlen pre + zlen d <=? _) with true by (unfold totalLen in *; cbn; lia). cbn [check mbind res_bind].
  rewrite zlen_app, take_zlen. do 4 f_equal.
  unfold zlen. replace (Z.to_nat (Z.of_nat (length pre) + Z.of_nat (length d))) with (length pre + length d)%nat by lia.
  by rewrite <- drop_drop, drop_app_length.
Qed.

Lemma zlen_replicate {A} n (x : A) : zlen (replicate n x) = Z.of_nat n.
Proof. unfold zlen. by rewrite length_replicate. Qed.

Lemma makeItem_ok k flags exptime vlen cas :
  2 <= vlen -> fits k vlen ->
  makeItem hash k flags exptime vlen cas =
  Ok (part_of k flags exptime vlen cas [] (replicate (Z.to_nat vlen) (chr 0))).
Proof.
  intros Hv Hf. unfold fits in Hf. pose proof (zlen_nonneg k). unfold makeItem. cbn [valuelen_ receivedBytes_].
  replace (2 <=? vlen) with true by lia. cbn [check mbind res_bind]. unfold totalLen at 1. cbn [keylen_ valuelen_].
  replace (0 <? zlen k + vlen) with true by lia. cbn [check mbind res_bind].
  rewrite (item_append_ok _ [] (replicate (Z.to_nat (zlen k + vlen)) (chr 0)));
    unfold totalLen; cbn [data_ receivedBytes_ keylen_ valuelen_ flags_ rel_exptime_ cas_ hash_ app];
    rewrite ?zlen_replicate, ?(@zlen_nil ascii); try lia; [|done..].
  unfold part_of. rewrite (@zlen_nil ascii), Z.add_0_r. do 4 f_equal. rewrite drop_replicate. cbn [app]. f_equal.
  unfold zlen. lia.
Qed.

Lemma part_append k flags exptime vlen cas got junk d :
  zlen got + zlen junk = vlen -> fits k vlen -> zlen d <= zlen junk ->
  item_append d (part_of k flags exptime vlen cas got junk) =
  Ok (part_of k flags exptime vlen cas (got ++ d) (drop (length d) junk)).
Proof.
  intros Hv Hf Hd. unfold fits in Hf. pose proof (zlen_nonneg k). pose proof (zlen_nonneg got).
  rewrite (item_append_ok _ (k ++ got) junk); unfold totalLen; cbn; rewrite ?zlen_app; try lia;
    [|by rewrite (assoc_L app)].
  unfold part_of. f_equal. f_equal; rewrite ?zlen_app, <- ?(assoc_L app); [lia|done].
Qed.

Lemma part_complete k e : part_of k (e_flags e) (e_exptime e) (zlen (e_value e) + 2) (e_cas e) (e_value e ++ kCRLF) [] = item_of k e.
Proof. unfold part_of, item_of. f_equal; [rewrite zlen_app; done|by rewrite app_nil_r]. Qed.

Lemma part_needed k flags exptime vlen cas got junk :
  zlen got + zlen junk = vlen -> fits k vlen ->
  neededBytes (part_of k flags exptime vlen cas got junk) = zlen junk.
Proof.
  intros Hv Hf. unfold fits in Hf. pose proof (zlen_nonneg k). pose proof (zlen_nonneg got).
  pose proof (zlen_nonneg junk). unfold neededBytes, totalLen, part_of. cbn. rewrite uint_small; lia.
Qed.

Lemma item_of_key k e : item_key (item_of k e) = Ok k.
Proof.
  unfold item_key. cbn. pose proof (zlen_nonneg k). rewrite read_range_ok; rewrite ?zlen_app; try lia.
  - f_equal. apply (slice_mid []).
  - pose proof (zlen_nonneg (e_value e)). pose proof (zlen_nonneg kCRLF). lia.
Qed.

Lemma item_of_value k e : item_value (item_of k e) (zlen (e_value e) + 2) = Ok (e_value e ++ kCRLF).
Proof.
  unfold item_value. cbn. pose proof (zlen_nonneg k). pose proof (zlen_nonneg (e_value e)).
  assert (Hz : zlen (e_value e ++ kCRLF) = zlen (e_value e) + 2) by (rewrite zlen_app; done).
  rewrite read_range_ok; rewrite ?zlen_app; try (rewrite ?zlen_app in Hz; lia).
  f_equal. rewrite <- Hz. pose proof (slice_mid k (e_value e ++ kCRLF) []) as Hs.
  by rewrite app_nil_r in Hs.
Qed.

Lemma item_of_body k e : item_value (item_of k e) (zlen (e_value e)) = Ok (e_value e).
Proof.
  unfold item_value. cbn. pose proof (zlen_nonneg k). pose proof (zlen_nonneg (e_value e)).
  rewrite read_range_ok; rewrite ?zlen_app; try (change (zlen kCRLF) with 2; lia).
  f_equal. apply slice_mid.
Qed.

Lemma crlf_lookup (l : list char) :
  (l ++ kCRLF) !! length l = Some (chr 13) /\ (l ++ kCRLF) !! S (length l) = Some (chr 10).
Proof.
  split; (rewrite lookup_app_r by lia).
  - by rewrite Nat.sub_diag.
  - by replace (S (length l) - length l)%nat with 1%nat by lia.
Qed.

Lemma item_of_crlf k e : endsWithCRLF (item_of k e) = Ok true.
Proof.
  unfold endsWithCRLF, totalLen, item_of. cbn [receivedBytes_ keylen_ valuelen_ data_].
  rewrite Z.eqb_refl, (assoc_L app). destruct (crlf_lookup (k ++ e_value e)) as [H1 H2].
  rewrite length_app in H1, H2.
  replace (Z.to_nat (zlen k + (zlen (e_value e) + 2) - 2)) with (length k + length (e_value e))%nat by (unfold zlen; lia).
  replace (Z.to_nat (zlen k + (zlen (e_value e) + 2) - 1)) with (S (length k + length (e_value e))) by (unfold zlen; lia).
  rewrite H1, H2. cbn [get mbind res_bind]. done.
Qed.

Lemma item_of_complete k e : fits k (zlen (e_value e) + 2) -> neededBytes (item_of k e) = 0.
Proof.
  intros Hf. rewrite <- part_complete, part_needed; [done| |done].
  rewrite zlen_app, (@zlen_nil ascii). change (zlen kCRLF) with 2. lia.
Qed.
(** ** The store *)

(** The server holds exactly the items of the abstract store, each in the shard of its
    key's hash. *)
Definition represents (m : MemcacheServer) (st : store) : Prop :=
  (forall k, shard (hash k) m !! k = item_of k <$> st.1 !! k) /\ g_cas m = st.2.

Lemma shard_set h h2 items m :
  shard h2 (set_shard h items m) = if decide (h2 mod kShards = h mod kShards) then items else shard h2 m.
Proof.
  unfold shard, set_shard. cbn. case_decide as E.
  - by rewrite E, lookup_insert_eq.
  - by rewrite lookup_insert_ne.
Qed.

Lemma put_represents k e m a n :
  represents m (a, n) -> 0 <= n + 1 < 2 ^ 64 ->
  exists m', put (setCas (n + 1) (item_of k e)) (count_cas m) = Ok m' /\
    represents m' (<[k := with_cas (n + 1) e]> a, n + 1) /\ startTime_ m' = startTime_ m.
Proof.
  intros [Hr Hn] Hb. cbn in Hn. change (setCas (n + 1) (item_of k e)) with (item_of k (with_cas (n + 1) e)).
  unfold put. rewrite item_of_key. cbn [mbind res_bind hash_ item_of]. eexists. split; [reflexivity|].
  split; [|done]. split; cbn [fst snd].
  - intros k2. rewrite shard_set. change (shard ?h (count_cas m)) with (shard h m). case_decide as E.
    + destruct (decide (k = k2)) as [<-|Hne]; [by rewrite !lookup_insert_eq|].
      rewrite !lookup_insert_ne by done. rewrite <- Hr. unfold shard. by rewrite E.
    + rewrite Hr. cbn. destruct (decide (k = k2)) as [<-|Hne]; [done|]. by rewrite lookup_insert_ne.
  - cbn. unfold next_cas. rewrite Hn. by rewrite uint_small.
Qed.

Lemma join_ok p k e o cas :
  p = kAppend \/ p = kPrepend ->
  fits k (zlen (e_value e) + zlen (e_value o) + 2) ->
  join hash p (item_of k e) (item_of k o) cas =
  Ok (item_of k (mkEntry (e_flags o) (e_exptime o)
        (if decide (p = kAppend) then e_value o ++ e_value e else e_value e ++ e_value o) cas)).
Proof.
  intros Hp Hf. pose proof (zlen_nonneg k). pose proof (zlen_nonneg (e_value e)).
  pose proof (zlen_nonneg (e_value o)). unfold fits in Hf. unfold join. rewrite item_of_key.
  cbn [mbind res_bind valuelen_ item_of flags_ rel_exptime_].
  rewrite (uint_small 64), sint_small by (unfold in_sint; lia).
  replace (zlen (e_value e) + 2 + (zlen (e_value o) + 2) - 2) with (zlen (e_value e) + zlen (e_value o) + 2) by lia.
  rewrite makeItem_ok by (unfold fits; lia). cbn [mbind res_bind].
  set (vlen := zlen (e_value e) + zlen (e_value o) + 2).
  set (junk := replicate (Z.to_nat vlen) (chr 0)).
  assert (Hj : zlen junk = vlen) by (unfold junk; rewrite zlen_replicate; lia).
  replace (zlen (e_value o) + 2 - 2) with (zlen (e_value o)) by lia.
  replace (zlen (e_value e) + 2 - 2) with (zlen (e_value e)) by lia.
  (* both orders append a body and then a body with its CRLF *)
  assert (Hgen : forall v1 v2, zlen v1 + zlen v2 + 2 = vlen ->
    (it1 ← item_append v1 (part_of k (e_flags o) (e_exptime o) vlen cas [] junk);
     item_append (v2 ++ kCRLF) it1) =
    Ok (item_of k (mkEntry (e_flags o) (e_exptime o) (v1 ++ v2) cas))).
  { intros v1 v2 Hl. pose proof (zlen_nonneg v1). pose proof (zlen_nonneg v2).
    rewrite part_append by (unfold fits; rewrite ?(@zlen_nil ascii); lia). cbn [mbind res_bind app].
    assert (Hd : zlen (drop (length v1) junk) = zlen v2 + 2)
      by (unfold zlen in *; rewrite length_drop; lia).
    rewrite part_append by (unfold fits; rewrite ?zlen_app; change (zlen kCRLF) with 2; lia).
    rewrite drop_ge by (rewrite length_app; unfold zlen in *; cbn; lia).
    rewrite <- part_complete. cbn [e_flags e_exptime e_value e_cas]. rewrite zlen_app, (assoc_L app).
    do 2 f_equal. lia. }
  destruct Hp as [-> | ->].
  - rewrite bool_decide_true by done. rewrite item_of_body. cbn [mbind res_bind].
    pose proof (Hgen (e_value o) (e_value e) ltac:(unfold vlen; lia)) as G.
    destruct (item_append (e_value o) _) as [it1|]; cbn [mbind res_bind] in *; [|done].
    rewrite item_of_value. cbn [mbind res_bind]. rewrite G. cbn [mbind res_bind].
    rewrite item_of_complete by (unfold fits; cbn; rewrite zlen_app; lia). cbn [Z.eqb check mbind res_bind].
    rewrite item_of_crlf. by destruct (decide (kAppend = kAppend)).
  - rewrite bool_decide_false by done. rewrite item_of_body. cbn [mbind res_bind].
    pose proof (Hgen (e_value e) (e_value o) ltac:(unfold vlen; lia)) as G.
    destruct (item_append (e_value e) _) as [it1|]; cbn [mbind res_bind] in *; [|done].
    rewrite item_of_value. cbn [mbind res_bind]. rewrite G. cbn [mbind res_bind].
    rewrite item_of_complete by (unfold fits; cbn; rewrite zlen_app; lia). cbn [Z.eqb check mbind res_bind].
    rewrite item_of_crlf. by destruct (decide (kPrepend = kAppend)).
Qed.

(** The value an update writes fits the item's 32-bit lengths. *)
Definition update_fits (k : list char) (e : entry) (st : store) : Prop :=
  zlen k + zlen (e_value e) + match st.1 !! k with Some o => zlen (e_value o) | None => 0 end + 2 < 2 ^ 31 /\
  0 <= st.2 /\ st.2 + 1 < 2 ^ 64.

Lemma storeItem_update p k e m st :
  represents m st -> update_fits k e st -> p <> kInvalid ->
  let '(stored, exists_, st') := apply_update p k e st in
  exists m', storeItem hash (item_of k e) p m = Ok (stored, exists_, m') /\
    represents m' st' /\ startTime_ m' = startTime_ m.
Proof.
  intros Hr (Hf & Hn0 & Hn) Hp. destruct st as [a n]. cbn [fst snd] in *. pose proof Hr as [Hsh Hc]. cbn in Hsh, Hc.
  pose proof (zlen_nonneg (e_value e)). pose proof (zlen_nonneg k).
  assert (Hcomp : neededBytes (item_of k e) = 0).
  { apply item_of_complete. unfold fits. destruct (a !! k) as [o|]; [pose proof (zlen_nonneg (e_value o))|]; lia. }
  unfold storeItem. rewrite Hcomp. cbn [Z.eqb check mbind res_bind]. rewrite item_of_key. cbn [mbind res_bind].
  change (hash_ (item_of k e)) with (hash k). rewrite Hsh.
  assert (Hput : forall e, exists m', put_fresh (item_of k e) m = Ok m' /\
    represents m' (<[k := with_cas (n + 1) e]> a, n + 1) /\ startTime_ m' = startTime_ m).
  { intros e'. unfold put_fresh, next_cas. rewrite Hc, uint_small by lia. by apply put_represents; [|lia]. }
  unfold apply_update. destruct (a !! k) as [o|] eqn:Ek; cbn [fmap option_fmap option_map]; cycle 1.
  { destruct p; try done; try (by exists m); destruct (Hput e) as (m' & -> & ?); by exists m'. }
  rewrite !bool_decide_true by done.
  destruct p; try done; try (by exists m); try (destruct (Hput e) as (m' & -> & ?); by exists m').
  - assert (Hj : next_cas m = n + 1) by (unfold next_cas; rewrite Hc, uint_small by lia; done).
    rewrite Hj, join_ok by (auto; unfold fits; lia). cbn [mbind res_bind].
    destruct (put_represents k (mkEntry (e_flags o) (e_exptime o) (e_value o ++ e_value e) 0) m a n Hr)
      as (m' & E & ?); [lia|]. exists m'. destruct (decide (kAppend = kAppend)); [|done].
    rewrite (E : put (item_of k (mkEntry (e_flags o) (e_exptime o) (e_value o ++ e_value e) (n + 1))) (count_cas m) = Ok m').
    done.
  - assert (Hj : next_cas m = n + 1) by (unfold next_cas; rewrite Hc, uint_small by lia; done).
    rewrite Hj, join_ok by (auto; unfold fits; lia). cbn [mbind res_bind].
    destruct (put_represents k (mkEntry (e_flags o) (e_exptime o) (e_value e ++ e_value o) 0) m a n Hr)
      as (m' & E & ?); [lia|]. exists m'. destruct (decide (kPrepend = kAppend)); [done|].
    rewrite (E : put (item_of k (mkEntry (e_flags o) (e_exptime o) (e_value e ++ e_value o) (n + 1))) (count_cas m) = Ok m').
    done.
  - cbn [cas_ item_of]. destruct (e_cas o =? e_cas e); [|by exists m].
    destruct (Hput e) as (m' & -> & ?). by exists m'.
Qed.

(** The needle of a session: an item with room for any key. *)
Definition needle_ok (it : Item) : Prop := valuelen_ it = 2 /\ zlen (data_ it) = 252.

Lemma resetKey_ok k it :
  needle_ok it -> zlen k <= 250 ->
  exists it', resetKey hash k it = Ok it' /\ needle_ok it' /\ item_key it' = Ok k /\ hash_ it' = hash k.
Proof.
  intros [Hv Hl] Hk. pose proof (zlen_nonneg k). unfold resetKey. replace (zlen k <=? 250) with true by lia.
  cbn [check mbind res_bind]. unfold item_append, neededBytes, totalLen.
  cbn [keylen_ valuelen_ receivedBytes_ data_]. rewrite Hv, uint_small by lia.
  replace (zlen k <=? zlen k + 2 - 0) with true by lia. cbn [check mbind res_bind].
  rewrite write_at_ok by lia. cbn [mbind res_bind]. replace (0 + zlen k <=? zlen k + 2) with true by lia.
  cbn [check mbind res_bind]. eexists. split; [reflexivity|]. split_and!; [split; [done|]| |done].
  - cbn. unfold zlen in *. rewrite !length_app, length_drop. change (length (take (Z.to_nat 0) (data_ it))) with 0%nat. lia.
  - unfold item_key. cbn. rewrite read_range_ok; [|lia|done|].
    + f_equal. apply (slice_mid []).
    + rewrite !zlen_app. unfold zlen. lia.
Qed.

Lemma getItem_ok it k m st :
  represents m st -> item_key it = Ok k -> hash_ it = hash k -> getItem it m = Ok (item_of k <$> st.1 !! k).
Proof. intros [Hr _] Hk Hh. unfold getItem. rewrite Hk, Hh. cbn [mbind res_bind]. by rewrite Hr. Qed.

Lemma deleteItem_ok it k m st :
  represents m st -> item_key it = Ok k -> hash_ it = hash k ->
  exists m', deleteItem it m = Ok (bool_decide (is_Some (st.1 !! k)), m') /\
    represents m' (delete k st.1, st.2) /\ startTime_ m' = startTime_ m.
Proof.
  intros [Hr Hc] Hk Hh. unfold deleteItem. rewrite Hk, Hh. cbn [mbind res_bind]. rewrite Hr.
  eexists. split; [do 3 f_equal; apply bool_decide_ext; by rewrite fmap_is_Some|]. split; [|done].
  split; cbn [fst snd]; [|done]. intros k2. rewrite shard_set. case_decide as E.
  - destruct (decide (k = k2)) as [<-|Hne]; [by rewrite !lookup_delete_eq|].
    rewrite !lookup_delete_ne by done. rewrite <- Hr. unfold shard. by rewrite E.
  - rewrite Hr. destruct (decide (k = k2)) as [<-|Hne]; [done|]. by rewrite lookup_delete_ne.
Qed.
End Theory.
