(* ===== verification/MemcachedProtocol.v ===== *)
(** * Conversations with the memcached server

    Requests as clients print them, what the abstract store answers, and the proof that
    a session answers the same; and the command lines that abort the server. *)

From S2P Require Import Prelude Decimal Buffer BufferTheory Memcached MemcachedTheory.

(** ** Words *)

Abbreviation blank := (chr 32) (only parsing).
Abbreviation cr := (chr 13) (only parsing).

(** A word of a command line. *)
Definition word (w : list char) : Prop := w <> [] /\ blank ∉ w /\ cr ∉ w.

#[global] Instance word_dec w : Decision (word w).
Proof. unfold word. apply _. Defined.

(** Words after the first, each preceded by a blank. *)
Definition args (ws : list (list char)) : list char := concat ((fun w => blank :: w) <$> ws).

Lemma skip_blanks_word w l : word w -> skip_blanks (w ++ l) = w ++ l.
Proof.
  intros (Hn & Hb & _). destruct w as [|c w]; [done|]. cbn. rewrite bool_decide_false; [done|].
  intros ->. apply Hb. by left.
Qed.

Lemma separator_args w ws : word w -> separator (blank :: w ++ args ws) = Some (w, args ws).
Proof.
  intros Hw. unfold separator. cbn [skip_blanks]. rewrite bool_decide_true by done.
  rewrite skip_blanks_word by done. destruct Hw as (Hn & Hb & _).
  destruct (w ++ args ws) as [|c l] eqn:E; [by apply app_eq_nil in E as [? _]|]. rewrite <- E. clear c l E.
  destruct ws as [|w2 ws]; cbn [args fmap list_fmap concat].
  - rewrite app_nil_r. assert (find_char blank w = None) as -> by by apply find_char_None. done.
  - cbn [app]. rewrite find_char_app by done. rewrite take_zlen. do 2 f_equal.
    unfold zlen. by rewrite Nat2Z.id, drop_app_length.
Qed.

Lemma tokens_args ws fuel : Forall word ws -> (length ws < fuel)%nat -> tokens fuel (args ws) = ws.
Proof.
  revert fuel. induction ws as [|w ws IH]; intros fuel Hws Hf; (destruct fuel as [|fuel]; [cbn in Hf; lia|]).
  { done. }
  apply Forall_cons in Hws as [Hw Hws]. cbn [tokens]. unfold args. cbn [fmap list_fmap concat].
  fold (args ws). cbn [app]. rewrite separator_args by done. f_equal. apply IH; [done|cbn in Hf; lia].
Qed.

Lemma length_args ws : Forall word ws -> (length ws <= length (args ws))%nat.
Proof.
  induction 1 as [|w ws _ _ IH]; [done|]. unfold args in *. cbn [fmap list_fmap concat length app].
  rewrite length_app. lia.
Qed.

(** A command line: the command and its arguments. *)
Lemma tokens_line w ws : Forall word (w :: ws) -> tokens (S (length (w ++ args ws))) (w ++ args ws) = w :: ws.
Proof.
  intros Hws. pose proof Hws as [Hw Hws']%Forall_cons. pose proof (length_args ws Hws') as Hl.
  cbn [tokens]. assert (Hsep : separator (w ++ args ws) = Some (w, args ws)).
  { pose proof (separator_args w ws Hw) as H. unfold separator in *. cbn [skip_blanks] in H.
    rewrite bool_decide_true in H by done. done. }
  rewrite Hsep. f_equal. apply tokens_args; [done|]. rewrite length_app.
  destruct Hw as (Hn & _). destruct w; [done|cbn; lia].
Qed.

(** The last blank splits a line in one way. *)
Lemma last_blank_unique l1 l2 (w1 w2 : list char) :
  blank ∉ w1 -> blank ∉ w2 -> l1 ++ blank :: w1 = l2 ++ blank :: w2 -> w1 = w2.
Proof.
  revert l2. induction l1 as [|c l1 IH]; intros [|d l2] H1 H2 E; cbn in E.
  - by injection E.
  - injection E as _ E. destruct H1. rewrite E. apply elem_of_app. right. by left.
  - injection E as _ E. destruct H2. rewrite <- E. apply elem_of_app. right. by left.
  - injection E as _ E. by eapply IH.
Qed.

Definition noreply_word : list char := lit "noreply".

Lemma strip_noreply_yes l : strip_noreply (l ++ lit " noreply") = (true, l).
Proof.
  unfold strip_noreply. rewrite length_app. change (length (lit " noreply")) with 8%nat.
  rewrite Nat.add_sub, zlen_app. change (zlen (lit " noreply")) with 8. pose proof (zlen_nonneg l).
  replace (8 <=? zlen l + 8) with true by lia. rewrite drop_app_length, take_app_length.
  by rewrite bool_decide_true.
Qed.

Lemma strip_noreply_no w ws :
  blank ∉ w -> Forall word ws -> default [] (last ws) <> noreply_word -> strip_noreply (w ++ args ws) = (false, w ++ args ws).
Proof.
  intros Hw Hws Hl. unfold strip_noreply. destruct (8 <=? _) eqn:E8; cbn [andb]; [|done].
  rewrite bool_decide_false; [done|]. intros E. set (l := w ++ args ws) in *.
  assert (Hl2 : l = take (length l - 8) l ++ blank :: noreply_word).
  { rewrite <- (take_drop (length l - 8) l) at 1. by rewrite E. }
  destruct ws as [|x ws'] using rev_ind.
  - unfold l, args in Hl2. cbn in Hl2. rewrite app_nil_r in Hl2. apply Hw. rewrite Hl2. apply elem_of_app. right. by left.
  - clear IHws'. rewrite last_snoc in Hl. apply Forall_app in Hws as [_ [Hx _]%Forall_cons].
    apply Hl. cbn. symmetry. apply (last_blank_unique (take (length l - 8) l) (w ++ args ws')).
    + by apply (bool_decide_unpack (blank ∉ noreply_word)).
    + apply Hx.
    + etransitivity; [symmetry; exact Hl2|]. unfold l, args. rewrite fmap_app, concat_app. cbn. by rewrite app_nil_r, <- (assoc_L app).
Qed.

(** ** Numbers *)

Lemma dec_word z : 0 <= z -> word (dec z).
Proof.
  intros Hz. rewrite dec_nonneg by done. pose proof (digits_digit 20 z Hz) as Hd.
  split; [by apply digits_nonempty; lia|].
  split; intros Hin; pose proof (proj1 (Forall_forall _ _) Hd _ Hin) as H; by vm_compute in H.
Qed.

Lemma strtoull_dec z : 0 <= z < 2 ^ 64 -> strtoull (dec z) = Some z.
Proof.
  intros Hz. pose proof (dec_value z Hz) as Hv. rewrite dec_nonneg in * by lia.
  pose proof (digits_digit 20 z ltac:(lia)) as Hd. pose proof (digits_nonempty 20 z ltac:(lia)) as Hn.
  assert (Hall : forallb isdigit (digits 20 z) = true) by (apply forallb_forall; intros x Hx; apply (proj1 (Forall_forall _ _) Hd), list_elem_of_In, Hx).
  unfold strtoull. destruct (digits 20 z) as [|c l] eqn:E; [done|]. clear E.
  apply Forall_cons in Hd as [Hc _]. unfold isdigit in Hc.
  cbn [skip_isspace]. assert (isspace c = false) as -> by (unfold isspace; lia).
  rewrite !bool_decide_false; [|intros ->; by vm_compute in Hc..].
  rewrite Hall, Hv. by replace (2 ^ 64 <=? z) with false by lia.
Qed.

(** ** Requests *)

Inductive request :=
| RUpdate (p : UpdatePolicy) (key : list char) (flags exptime cas : Z) (value : list char) (noreply : bool)
| RGet (cas : bool) (keys : list (list char))
| RDelete (key : list char) (noreply : bool)
| RVersion (noreply : bool).

Definition command_of (p : UpdatePolicy) : list char :=
  lit match p with
      | kSet => "set" | kAdd => "add" | kReplace => "replace" | kAppend => "append"
      | kPrepend => "prepend" | kCas => "cas" | kInvalid => ""
      end.

Definition update_args (p : UpdatePolicy) (key : list char) (flags exptime cas : Z) (value : list char) :=
  [key; dec flags; dec exptime; dec (zlen value)] ++ (if bool_decide (p = kCas) then [dec cas] else []).

(** The command line: command, arguments, noreply. *)
Definition line_of (r : request) : list char * list (list char) * bool :=
  match r with
  | RUpdate p key flags exptime cas value noreply =>
      (command_of p, update_args p key flags exptime cas value, noreply)
  | RGet cas keys => (if cas then lit "gets" else lit "get", keys, false)
  | RDelete key noreply => (lit "delete", [key], noreply)
  | RVersion noreply => (lit "version", [], noreply)
  end.

Definition payload (r : request) : list char :=
  match r with RUpdate _ _ _ _ _ value _ => value ++ kCRLF | _ => [] end.

(** A request as a client sends it. *)
Definition print (r : request) : list char :=
  let '(command, ws, noreply) := line_of r in
  command ++ args ws ++ (if noreply then lit " noreply" else []) ++ kCRLF ++ payload r.

Definition key_ok (k : list char) : Prop := word k /\ zlen k <= 250.

(** Requests the protocol allows; the key noreply is taken for the option where it is
    the last word of a line. *)
Definition request_ok (r : request) : Prop :=
  match r with
  | RUpdate p key flags exptime cas value _ =>
      p <> kInvalid /\ key_ok key /\ 0 <= flags < 2 ^ 32 /\ 0 <= exptime < 2 ^ 63 /\
      0 <= cas < 2 ^ 64 /\ zlen value <= 1024 * 1024
  | RGet _ keys => Forall key_ok keys /\ default [] (last keys) <> noreply_word
  | RDelete key _ => key_ok key /\ key <> noreply_word
  | RVersion _ => True
  end.

(** ** What the abstract store answers *)

Definition entry_text (cas : bool) (k : list char) (e : entry) : list char :=
  lit "VALUE " ++ k ++ lit " " ++ dec (e_flags e) ++ lit " " ++ dec (zlen (e_value e))
  ++ (if cas then lit " " ++ dec (e_cas e) else []) ++ kCRLF ++ e_value e ++ kCRLF.

Definition get_text (cas : bool) (st : store) (k : list char) : list char :=
  match st.1 !! k with Some e => entry_text cas k e | None => [] end.

Definition unless (noreply : bool) (msg : list char) : list (list char) := if noreply then [] else [msg].

(** When an entry expires, in seconds after the server's start: more than thirty days is a time of
    day, and one that is past is the first second. *)
Definition expiry (startTime exptime : Z) : Z := if exptime <=? 2592000 then exptime else Z.max 1 (int32 (exptime - startTime)).

Lemma relative_exptime_expiry startTime exptime : 0 <= exptime -> relative_exptime startTime exptime = expiry startTime exptime.
Proof.
  intros Hx. unfold relative_exptime, expiry. change (60 * 60 * 24 * 30) with 2592000.
  destruct (2592000 <? exptime) eqn:E; [replace (exptime <=? 2592000) with false by lia|replace (exptime <=? 2592000) with true by lia].
  - case_match; lia.
  - apply sint_small; [lia|]. unfold in_sint. lia.
Qed.

(** What the protocol answers to an update of a key that has the entry [old]: it is carried out,
    or not because the key exists (add) or does not (replace, append, prepend), or because the
    entry was changed since the client got its cas number, or is gone. *)
Definition update_text (p : UpdatePolicy) (cas : Z) (old : option entry) : list char :=
  match p, old with
  | kSet, _ | kAdd, None | kReplace, Some _ | kAppend, Some _ | kPrepend, Some _ => lit "STORED"
  | kCas, Some o => if e_cas o =? cas then lit "STORED" else lit "EXISTS"
  | kCas, None => lit "NOT_FOUND"
  | _, _ => lit "NOT_STORED"
  end ++ kCRLF.

(** The messages sent in reply, and the store afterwards. *)
Definition answer (startTime : Z) (r : request) (st : store) : list (list char) * store :=
  match r with
  | RUpdate p key flags exptime cas value noreply =>
      let e := mkEntry flags (expiry startTime exptime) value
                 (if bool_decide (p = kCas) then cas else 0) in
      (unless noreply (update_text p cas (st.1 !! key)), (apply_update p key e st).2)
  | RGet cas keys => ([concat (get_text cas st <$> keys) ++ lit "END" ++ kCRLF], st)
  | RDelete key noreply =>
      (unless noreply (if bool_decide (is_Some (st.1 !! key)) then lit "DELETED" ++ kCRLF
                       else lit "NOT_FOUND" ++ kCRLF), (delete key st.1, st.2))
  | RVersion noreply => (unless noreply (lit "VERSION 0.01 muduo" ++ kCRLF), st)
  end.

Fixpoint answers (startTime : Z) (rs : list request) (st : store) : list (list char) * store :=
  match rs with
  | [] => ([], st)
  | r :: rs =>
      let '(ms, st1) := answer startTime r st in
      let '(ms', st2) := answers startTime rs st1 in
      (ms ++ ms', st2)
  end.

(** The messages among the calls on a connection. *)
Definition messages (l : list out) : list (list char) :=
  omap (fun o => match o with OSend d => Some d | _ => None end) l.

(** ** Sessions *)

Section Sessions.
Context (hash : list char -> Z) (writable : list out -> Z).

(** A session between two requests, with [o] in its output buffer. *)
Record holding (o : list char) (s : Session) : Prop := {
  s_state : state_ s = kNewCommand;
  s_protocol : protocol_ s = kAscii;
  s_command : command_ s = [];
  s_noreply : noreply_ s = false;
  s_policy : policy_ s = kInvalid;
  s_item : currItem_ s = None;
  s_discard : bytesToDiscard_ s = 0;
  s_needle : needle_ok (needle_ s);
  s_output : outputBuf_ s = o
}.

Abbreviation idle := (holding []).

Lemma resetRequest_idle o s :
  state_ s = kNewCommand -> protocol_ s = kAscii -> needle_ok (needle_ s) -> outputBuf_ s = o ->
  holding o (resetRequest s).
Proof. intros. by split. Qed.

Lemma newSession_idle : exists s, newSession hash = Ok s /\ idle s /\ sent_ s = [].
Proof.
  unfold newSession. rewrite makeItem_ok by (vm_compute; done). cbn [mbind res_bind]. eexists.
  split; [reflexivity|]. split; [|done]. split; done.
Qed.

(** The session as [dispatch] finds it. *)
Definition prepared (command : list char) (noreply : bool) (s : Session) : Session :=
  set_command command (if noreply then set_noreply true (count_request s) else count_request s).

Lemma processRequest_line o command ws (noreply : bool) s m :
  holding o s -> Forall word (command :: ws) ->
  (noreply = false -> default [] (last ws) <> noreply_word) ->
  processRequest hash writable (command ++ args ws ++ (if noreply then lit " noreply" else [])) s m =
  dispatch hash writable command ws (prepared command noreply s) m.
Proof.
  intros [Hst Hpr Hcm Hnr Hpo Hit Hdi Hne Hou] Hws Hlast. unfold processRequest.
  rewrite Hcm, Hnr, Hpo, Hit, Hdi. cbn [check mbind res_bind bool_decide negb].
  rewrite (bool_decide_false (is_Some (@None Item))) by (by intros [? ?]).
  rewrite !bool_decide_true by done.
  cbn [check mbind res_bind negb Z.eqb].
  assert (Hs : strip_noreply (command ++ args ws ++ (if noreply then lit " noreply" else [])) =
               (noreply, command ++ args ws)).
  { pose proof Hws as [Hw Hws']%Forall_cons. destruct noreply.
    - rewrite (assoc_L app). apply strip_noreply_yes.
    - rewrite app_nil_r. apply strip_noreply_no; [apply Hw|done|by apply Hlast]. }
  rewrite Hs, tokens_line by done. unfold prepared. by destruct noreply.
Qed.

Lemma args_no_cr ws : Forall word ws -> cr ∉ args ws.
Proof.
  induction 1 as [|w ws (_ & _ & Hw) _ IH]; [apply not_elem_of_nil|]. unfold args in *. cbn [fmap list_fmap concat].
  rewrite elem_of_app, elem_of_cons. intros [[E|?]|?]; [by vm_compute in E|done|done].
Qed.

Lemma line_round o command ws (noreply : bool) rest b s m fin s1 m1 :
  inv b -> holding o s -> Forall word (command :: ws) ->
  content b = command ++ args ws ++ (if noreply then lit " noreply" else []) ++ kCRLF ++ rest ->
  (noreply = false -> default [] (last ws) <> noreply_word) ->
  dispatch hash writable command ws (prepared command noreply s) m = Ok (fin, s1, m1) ->
  exists b', message_round hash writable b s m = Ok (true, b', (if fin : bool then resetRequest s1 else s1), m1) /\
    inv b' /\ content b' = rest.
Proof.
  intros Hi Hs Hws Hc Hl Hd. pose proof (line_of_buffer b Hi) as Hb.
  rewrite Hc, !(assoc_L app), <- (assoc_L app _ kCRLF) in Hb. rewrite split_line_text in Hb.
  2: { apply Forall_cons in Hws as [(_ & _ & Hw) Hws]. rewrite !elem_of_app. intros [[?|?]|Hin]; [done| |].
       - by apply (args_no_cr ws).
       - revert Hin. destruct noreply; [|apply not_elem_of_nil]. by apply (bool_decide_unpack (_ ∉ _)). }
  destruct Hb as (p & b' & Hf & Hrd & Hru & Hi' & Hc'). exists b'. split; [|done].
  unfold message_round. rewrite (s_state _ _ Hs), (s_protocol _ _ Hs), !bool_decide_false by done.
  cbn [mbind res_bind]. rewrite (s_protocol _ _ Hs), bool_decide_false by done.
  rewrite Hf. cbn [mbind res_bind]. rewrite Hrd. cbn [mbind res_bind].
  rewrite <- (assoc_L app), (processRequest_line o) by done. rewrite Hd. cbn [mbind res_bind]. by rewrite Hru.
Qed.

Lemma message_loop_step fuel b s m b' s' m' :
  inv b -> content b <> [] -> message_round hash writable b s m = Ok (true, b', s', m') ->
  message_loop hash writable (S fuel) b s m = message_loop hash writable fuel b' s' m'.
Proof.
  intros Hi Hc Hr. cbn [message_loop]. rewrite readableBytes_content by done.
  destruct (content b) as [|c l]; [done|]. rewrite zlen_cons. pose proof (zlen_nonneg l).
  replace (0 <? 1 + zlen l) with true by lia. by rewrite Hr.
Qed.

Lemma message_loop_done fuel b s m :
  inv b -> content b = [] -> message_loop hash writable fuel b s m = Some (Ok (b, s, m)).
Proof.
  intros Hi Hc. destruct fuel; cbn [message_loop]; rewrite readableBytes_content, Hc by done; done.
Qed.
(** *** Updates *)

(** The session's reply is the protocol's. *)
Lemma store_reply_text p key e st :
  p <> kInvalid -> store_reply (apply_update p key e st).1.1 p (apply_update p key e st).1.2 = update_text p (e_cas e) (st.1 !! key).
Proof.
  intros Hp. destruct st as [a n]. unfold update_text. cbn. destruct p, (a !! key) as [o|]; try done; cbn; try done.
  by destruct (e_cas o =? e_cas e).
Qed.

Lemma policy_of_command p : p <> kInvalid -> policy_of (command_of p) = p.
Proof. by destruct p. Qed.

Lemma read_update_args p key flags exptime cas value :
  0 <= flags < 2 ^ 32 -> 0 <= exptime < 2 ^ 63 -> 0 <= cas < 2 ^ 64 -> zlen value <= 1024 * 1024 ->
  read_update p (tail (update_args p key flags exptime cas value)) =
  Some (flags, exptime, zlen value, if bool_decide (p = kCas) then cas else 0).
Proof.
  intros Hf He Hc Hv. pose proof (zlen_nonneg value). unfold update_args, read_update. cbn [tail app].
  cbn [read]. rewrite strtoull_dec by lia. cbn [mbind option_bind].
  cbn [read]. rewrite strtoull_dec by lia. cbn [mbind option_bind].
  cbn [read]. rewrite strtoull_dec by lia. cbn [mbind option_bind].
  rewrite uint_small, !sint_small by (unfold in_sint; lia).
  case_bool_decide; [|done]. cbn [read]. by rewrite strtoull_dec by lia.
Qed.

Definition receiving (p : UpdatePolicy) (it : Item) (s : Session) : Session :=
  set_state kReceiveValue (set_currItem (Some it) (set_policy p s)).

Lemma dispatch_update p key flags exptime cas value s m :
  request_ok (RUpdate p key flags exptime cas value false) -> command_ s = command_of p ->
  dispatch hash writable (command_of p) (update_args p key flags exptime cas value) s m =
  Ok (false, receiving p
        (part_of hash key flags (expiry (startTime_ m) exptime) (zlen value + 2)
           (if bool_decide (p = kCas) then cas else 0) [] (replicate (Z.to_nat (zlen value + 2)) (chr 0))) s, m).
Proof.
  intros (Hp & (Hw & Hk) & Hf & He & Hc & Hv) Hcmd. pose proof (zlen_nonneg value).
  unfold dispatch. rewrite policy_of_command, bool_decide_false by done. cbn [negb].
  unfold doUpdate. rewrite Hcmd, policy_of_command, bool_decide_false by done.
  cbn [negb check mbind res_bind head update_args app get policy_ set_policy].
  unfold kLongestKeySize. replace (zlen key <=? 250) with true by lia.
  pose proof (read_update_args p key flags exptime cas value Hf He Hc Hv) as Hr. unfold update_args in Hr.
  cbn [app] in Hr. rewrite Hr. replace (1024 * 1024 <? zlen value) with false by lia.
  rewrite add_int_ok by (unfold in_sint; lia). cbn [mbind res_bind]. rewrite relative_exptime_expiry by lia.
  rewrite makeItem_ok by (unfold fits; lia). done.
Qed.

(** The round that receives a value that is there in full. *)
Lemma value_round p key e rest (noreply : bool) b s0 m st :
  inv b -> content b = e_value e ++ kCRLF ++ rest -> represents hash m st -> update_fits key e st -> p <> kInvalid ->
  state_ s0 = kNewCommand -> protocol_ s0 = kAscii -> needle_ok (needle_ s0) -> outputBuf_ s0 = [] ->
  noreply_ s0 = noreply ->
  let s := receiving p (part_of hash key (e_flags e) (e_exptime e) (zlen (e_value e) + 2) (e_cas e) []
             (replicate (Z.to_nat (zlen (e_value e) + 2)) (chr 0))) s0 in
  let '(stored, exists_, st') := apply_update p key e st in
  exists b' s' m', message_round hash writable b s m = Ok (true, b', s', m') /\ inv b' /\ content b' = rest /\
    idle s' /\ represents hash m' st' /\ startTime_ m' = startTime_ m /\
    messages (sent_ s') = messages (sent_ s0) ++ unless noreply (store_reply stored p exists_).
Proof.
  intros Hi Hc Hr Hfit Hp Hst Hpr Hne Hou Hno s. pose proof (zlen_nonneg (e_value e)). pose proof (zlen_nonneg rest).
  pose proof (storeItem_update hash p key e m st Hr Hfit Hp) as Hup.
  destruct (apply_update p key e st) as [[stored exists_] st']. destruct Hup as (m' & Hs & Hr' & Hm').
  set (junk := replicate (Z.to_nat (zlen (e_value e) + 2)) (chr 0)) in *.
  assert (Hj : zlen junk = zlen (e_value e) + 2) by (unfold junk; rewrite zlen_replicate; lia).
  assert (Hf : fits key (zlen (e_value e) + 2)).
  { destruct Hfit as [Hf _]. unfold fits. destruct (st.1 !! key) as [o|]; [pose proof (zlen_nonneg (e_value o))|]; lia. }
  assert (Hlen : zlen (content b) = zlen (e_value e) + 2 + zlen rest).
  { rewrite Hc, !zlen_app. change (zlen kCRLF) with 2. lia. }
  unfold message_round, receiveValue. subst s. cbn [state_ receiving set_state currItem_ set_currItem mbind res_bind].
  rewrite part_needed by (rewrite ?(@zlen_nil ascii); done || lia).
  rewrite readableBytes_content, Hlen, Hj by done. rewrite Z.min_r by lia.
  destruct (retrieve_spec (zlen (e_value e) + 2) b Hi) as (b' & Hret & Hi' & Hc' & _); [lia|].
  pose proof (zlen_content b Hi) as Hcb.
  rewrite read_range_ok by (buffer_unfold; lia). cbn [mbind res_bind].
  assert (Hchunk : slice (peek b) (peek b + (zlen (e_value e) + 2)) (buffer_ b) = e_value e ++ kCRLF).
  { transitivity (take (Z.to_nat (zlen (e_value e) + 2)) (content b)).
    - unfold content. symmetry. apply take_slice; buffer_unfold; lia.
    - rewrite Hc, (assoc_L app). replace (Z.to_nat _) with (length (e_value e ++ kCRLF)) by (rewrite length_app; unfold zlen; cbn; lia).
      apply take_app_length. }
  rewrite Hchunk, part_append by (rewrite ?zlen_app, ?(@zlen_nil ascii); change (zlen kCRLF) with 2; done || lia).
  cbn [mbind res_bind app]. rewrite Hret. cbn [mbind res_bind].
  rewrite drop_ge by (rewrite length_app; unfold zlen in Hj; unfold zlen in *; cbn; lia).
  rewrite part_complete, item_of_complete by done. cbn [Z.eqb]. rewrite item_of_crlf. cbn [mbind res_bind].
  cbn [policy_ set_currItem receiving set_state set_policy]. rewrite Hs. cbn [mbind res_bind].
  do 3 eexists. split; [reflexivity|]. split_and!; [done| | |done|done|].
  - rewrite Hc', Hc, (assoc_L app). replace (Z.to_nat _) with (length (e_value e ++ kCRLF)) by (rewrite length_app; unfold zlen; cbn; lia).
    apply drop_app_length.
  - unfold reply. case_match; split; done.
  - unfold reply. cbn [noreply_ set_currItem receiving set_state set_policy]. rewrite Hno.
    destruct noreply; cbn [unless]; [by rewrite app_nil_r|]. cbn. unfold messages. by rewrite omap_app.
Qed.
(** *** Retrieval *)

Lemma output_item cas k e : output cas (item_of hash k e) = Ok (entry_text cas k e).
Proof.
  unfold output. rewrite item_of_key. cbn [mbind res_bind valuelen_ item_of]. fold (item_of hash k e).
  rewrite item_of_value. cbn [mbind res_bind flags_ cas_ item_of]. unfold entry_text.
  by replace (zlen (e_value e) + 2 - 2) with (zlen (e_value e)) by lia.
Qed.

Lemma lookup_text cas k st :
  (match item_of hash k <$> st.1 !! k with Some it => output cas it | None => Ok [] end) = Ok (get_text cas st k).
Proof. unfold get_text. destruct (st.1 !! k) as [e|]; cbn; [by rewrite output_item|done]. Qed.

Lemma get_keys_ok cas keys s m st :
  represents hash m st -> needle_ok (needle_ s) -> Forall key_ok keys ->
  exists needle, needle_ok needle /\
    get_keys hash cas keys s m =
    Ok (true, set_outputBuf (outputBuf_ s ++ concat (get_text cas st <$> keys)) (set_needle needle s)).
Proof.
  intros Hr Hn Hk. revert s Hn. induction Hk as [|k keys [_ Hk] _ IH]; intros s Hn.
  { exists (needle_ s). split; [done|]. cbn. rewrite app_nil_r. by destruct s. }
  cbn [get_keys]. unfold kLongestKeySize. replace (zlen k <=? 250) with true by lia. cbn [negb].
  destruct (resetKey_ok hash k (needle_ s) Hn Hk) as (it & -> & Hit & Hik & Hih). cbn [mbind res_bind].
  rewrite (getItem_ok hash it k m st Hr Hik Hih). cbn [mbind res_bind].
  rewrite lookup_text. cbn [mbind res_bind].
  destruct (IH (set_outputBuf (outputBuf_ s ++ get_text cas st k) (set_needle it s)) Hit) as (it2 & Hit2 & ->).
  exists it2. split; [done|]. cbn. by rewrite <- (assoc_L app).
Qed.

Lemma dispatch_get cas keys s m st :
  represents hash m st -> needle_ok (needle_ s) -> Forall key_ok keys ->
  exists s', dispatch hash writable (if cas : bool then lit "gets" else lit "get") keys s m = Ok (true, s', m) /\
    messages (sent_ s') = messages (sent_ s) ++
      [outputBuf_ s ++ concat (get_text cas st <$> keys) ++ lit "END" ++ kCRLF] /\
    state_ s' = state_ s /\ protocol_ s' = protocol_ s /\ needle_ok (needle_ s') /\ outputBuf_ s' = [].
Proof.
  intros Hr Hn Hk. unfold dispatch.
  assert (Hc : forall x, (if cas then lit "gets" else lit "get") = x -> policy_of x = kInvalid /\
     (bool_decide (x = lit "get") || bool_decide (x = lit "gets")) = true /\ bool_decide (x = lit "gets") = cas).
  { intros x <-. by destruct cas. }
  destruct (Hc _ eq_refl) as (-> & -> & ->). rewrite bool_decide_true by done. cbn [negb].
  destruct (get_keys_ok cas keys s m st Hr Hn Hk) as (it & Hit & E). unfold doGet. rewrite E. cbn [mbind res_bind].
  eexists. split; [reflexivity|]. cbn [app outputBuf_ set_outputBuf].
  match goal with |- context [if ?x <? ?y then _ else _] => destruct (x <? y) end;
    cbn; unfold messages; rewrite !omap_app; cbn; rewrite ?app_nil_r, <- ?(assoc_L app); by split_and!.
Qed.

Lemma messages_reply msg s : messages (sent_ (reply msg s)) = messages (sent_ s) ++ unless (noreply_ s) msg.
Proof.
  unfold reply. destruct (noreply_ s); cbn; [by rewrite app_nil_r|]. unfold messages. by rewrite omap_app.
Qed.

Lemma reply_keeps msg s :
  state_ (reply msg s) = state_ s /\ protocol_ (reply msg s) = protocol_ s /\
  needle_ (reply msg s) = needle_ s /\ outputBuf_ (reply msg s) = outputBuf_ s.
Proof. unfold reply. by case_match. Qed.

Lemma dispatch_delete k s m st :
  represents hash m st -> needle_ok (needle_ s) -> key_ok k -> command_ s = lit "delete" ->
  exists s' m', dispatch hash writable (lit "delete") [k] s m = Ok (true, s', m') /\
    messages (sent_ s') = messages (sent_ s) ++
      unless (noreply_ s) (if bool_decide (is_Some (st.1 !! k)) then lit "DELETED" ++ kCRLF else lit "NOT_FOUND" ++ kCRLF) /\
    state_ s' = state_ s /\ protocol_ s' = protocol_ s /\ needle_ok (needle_ s') /\ outputBuf_ s' = outputBuf_ s /\
    represents hash m' (delete k st.1, st.2) /\ startTime_ m' = startTime_ m.
Proof.
  intros Hr Hn [_ Hk] Hc. unfold dispatch. change (policy_of (lit "delete")) with kInvalid.
  rewrite bool_decide_true by done. cbn [negb].
  change (bool_decide (lit "delete" = lit "get") || bool_decide (lit "delete" = lit "gets")) with false. cbn [orb].
  rewrite bool_decide_true by done. unfold doDelete. rewrite Hc, bool_decide_true by done.
  cbn [check mbind res_bind head get tail]. unfold kLongestKeySize. replace (zlen k <=? 250) with true by lia. cbn [negb].
  destruct (resetKey_ok hash k (needle_ s) Hn Hk) as (it & -> & Hit & Hik & Hih). cbn [mbind res_bind].
  destruct (deleteItem_ok hash it k m st Hr Hik Hih) as (m' & -> & Hr' & Hm'). cbn [mbind res_bind].
  do 2 eexists. split; [reflexivity|]. rewrite messages_reply.
  destruct (reply_keeps (if bool_decide (is_Some (st.1 !! k)) then lit "DELETED" ++ kCRLF else lit "NOT_FOUND" ++ kCRLF)
              (set_needle it s)) as (-> & -> & -> & ->). by split_and!.
Qed.

(** *** Conversations *)

Definition rounds (r : request) : nat := match r with RUpdate _ _ _ _ _ _ _ => 2 | _ => 1 end.

(** The values written fit the items' length fields. *)
Definition room (startTime : Z) (r : request) (st : store) : Prop :=
  match r with
  | RUpdate p key flags exptime cas value _ =>
      update_fits key (mkEntry flags (expiry startTime exptime) value
                         (if bool_decide (p = kCas) then cas else 0)) st
  | _ => True
  end.

Lemma line_words r : request_ok r -> Forall word ((line_of r).1.1 :: (line_of r).1.2).
Proof.
  assert (Hlit : forall w, bool_decide (word w) = true -> word w) by (intros w; by apply bool_decide_eq_true).
  destruct r as [p key flags exptime cas value noreply|cas keys|key noreply|noreply]; cbn [request_ok line_of fst snd].
  - intros (Hp & (Hw & _) & Hf & He & Hc & Hv). pose proof (zlen_nonneg value). apply Forall_cons. split.
    + apply Hlit. destruct p; done.
    + unfold update_args. apply Forall_app. split.
      * repeat (apply Forall_cons; split); [done|apply dec_word; lia..|constructor].
      * case_bool_decide; [|constructor]. apply Forall_cons. split; [apply dec_word; lia|constructor].
  - intros [Hk _]. apply Forall_cons. split; [apply Hlit; by destruct cas|].
    eapply Forall_impl; [exact Hk|]. by intros k [? _].
  - intros [[Hw _] _]. apply Forall_cons. split; [by apply Hlit|]. by apply Forall_singleton.
  - intros _. apply Forall_cons. split; [by apply Hlit|constructor].
Qed.
Lemma no_noreply r :
  request_ok r -> (line_of r).2 = false -> default [] (last (line_of r).1.2) <> noreply_word.
Proof.
  assert (Hd : forall z, 0 <= z -> dec z <> noreply_word).
  { intros z Hz E. pose proof (digits_digit 20 z Hz) as H. rewrite <- dec_nonneg, E in H by done.
    apply Forall_cons in H as [H _]. by vm_compute in H. }
  destruct r as [p key flags exptime cas value noreply|cas keys|key noreply|noreply]; cbn [request_ok line_of fst snd].
  - intros (Hp & _ & _ & _ & Hc & _) _. unfold update_args. case_bool_decide; cbn; [apply Hd; lia|].
    apply Hd, zlen_nonneg.
  - by intros [_ ?] _.
  - by intros [_ ?] _.
  - done.
Qed.

(** A request is answered in its rounds of the loop. *)
Lemma request_step r rest b s m st fuel :
  inv b -> idle s -> represents hash m st -> request_ok r -> room (startTime_ m) r st ->
  content b = print r ++ rest ->
  let '(ms, st') := answer (startTime_ m) r st in
  exists b' s' m', message_loop hash writable (rounds r + fuel) b s m = message_loop hash writable fuel b' s' m' /\
    inv b' /\ content b' = rest /\ idle s' /\ represents hash m' st' /\ startTime_ m' = startTime_ m /\
    messages (sent_ s') = messages (sent_ s) ++ ms.
Proof.
  intros Hi Hs Hr Hok Hroom Hc. pose proof (line_words r Hok) as Hw. pose proof (no_noreply r Hok) as Hnr.
  assert (Hne : content b <> []).
  { rewrite Hc. unfold print. destruct (line_of r) as [[command ws] no] eqn:E. cbn [fst snd] in Hw.
    apply Forall_cons in Hw as [[Hn _] _]. by destruct command. }
  unfold print in Hc. destruct (line_of r) as [[command ws] no] eqn:El. cbn [fst snd] in Hw, Hnr.
  rewrite <- !(assoc_L app) in Hc.
  destruct r as [p key flags exptime cas value noreply|cas keys|key noreply|noreply]; cbn [answer payload rounds Nat.add] in *;
    injection El as <- <- <-.
  - set (e := mkEntry flags (expiry (startTime_ m) exptime) value (if bool_decide (p = kCas) then cas else 0)).
    rewrite <- (assoc_L app value) in Hc.
    destruct (line_round _ _ _ _ _ b s m _ _ _ Hi Hs Hw Hc Hnr
                (dispatch_update p key flags exptime cas value (prepared (command_of p) noreply s) m Hok eq_refl))
      as (b1 & E1 & Hi1 & Hc1).
    rewrite (message_loop_step _ _ _ _ _ _ _ Hi Hne E1).
    pose proof (value_round p key e rest noreply b1 (prepared (command_of p) noreply s) m st Hi1 Hc1 Hr Hroom) as Hv.
    pose proof (store_reply_text p key e st ltac:(apply Hok)) as Htext.
    assert (Hcas : update_text p (e_cas e) (st.1 !! key) = update_text p cas (st.1 !! key))
      by (subst e; cbn; destruct p; done).
    rewrite Hcas in Htext. fold e. destruct (apply_update p key e st) as [[stored exists_] st']. cbn [fst snd] in *. rewrite Htext in Hv.
    destruct Hv as (b2 & s2 & m2 & E2 & Hi2 & Hc2 & Hs2 & Hr2 & Hm2 & Hms); try (by destruct Hs; destruct noreply).
    { apply Hok. }
    exists b2, s2, m2. split_and!; [|done..|].
    + apply (message_loop_step fuel b1 _ m b2 s2 m2 Hi1); [rewrite Hc1; by destruct value|exact E2].
    + rewrite Hms. by destruct noreply.
  - destruct (dispatch_get cas keys (prepared (if cas then lit "gets" else lit "get") false s) m st)
      as (s1 & E & Hms & Hst & Hpr & Hn & Ho); [done|by destruct Hs|apply Hok|].
    destruct (line_round _ _ _ false _ b s m _ _ _ Hi Hs Hw Hc Hnr E) as (b1 & E1 & Hi1 & Hc1).
    exists b1, (resetRequest s1), m. split_and!; [by erewrite message_loop_step|done|done| |done|done|].
    + apply resetRequest_idle; [rewrite Hst|rewrite Hpr|..]; by destruct Hs.
    + change (sent_ (resetRequest s1)) with (sent_ s1). rewrite Hms.
      change (outputBuf_ (prepared _ false s)) with (outputBuf_ s). by rewrite (s_output _ _ Hs).
  - destruct (dispatch_delete key (prepared (lit "delete") noreply s) m st)
      as (s1 & m1 & E & Hms & Hst & Hpr & Hn & Ho & Hr1 & Hm1);
      [done|by destruct Hs; destruct noreply|apply Hok|done|].
    destruct (line_round _ _ _ _ _ b s m _ _ _ Hi Hs Hw Hc Hnr E) as (b1 & E1 & Hi1 & Hc1).
    exists b1, (resetRequest s1), m1. split_and!; [by erewrite message_loop_step|done..| |done|done|].
    + destruct Hs. apply resetRequest_idle; rewrite ?Hst, ?Hpr, ?Ho; by destruct noreply.
    + change (sent_ (resetRequest s1)) with (sent_ s1). rewrite Hms. unfold prepared. destruct noreply; cbn; [done|]. by rewrite (s_noreply _ _ Hs).
  - set (s1 := reply (lit "VERSION 0.01 muduo" ++ kCRLF) (prepared (lit "version") noreply s)).
    assert (Ed : dispatch hash writable (lit "version") [] (prepared (lit "version") noreply s) m = Ok (true, s1, m)) by done.
    destruct (line_round _ _ _ _ _ b s m true s1 m Hi Hs Hw Hc Hnr Ed) as (b1 & E1 & Hi1 & Hc1).
    exists b1, (resetRequest s1), m. split_and!; [by erewrite message_loop_step|done..| |done|done|].
    + destruct (reply_keeps (lit "VERSION 0.01 muduo" ++ kCRLF) (prepared (lit "version") noreply s)) as (H1 & H2 & H3 & H4).
      destruct Hs. apply resetRequest_idle; unfold s1; rewrite ?H1, ?H2, ?H3, ?H4; by destruct noreply.
    + change (sent_ (resetRequest s1)) with (sent_ s1). unfold s1. rewrite messages_reply.
      destruct noreply; cbn; [done|]. by rewrite (s_noreply _ _ Hs).
Qed.

Fixpoint conversation_ok (startTime : Z) (rs : list request) (st : store) : Prop :=
  match rs with
  | [] => True
  | r :: rs => request_ok r /\ room startTime r st /\ conversation_ok startTime rs (answer startTime r st).2
  end.

Definition total_rounds (rs : list request) : nat := foldr (fun r n => (rounds r + n)%nat) 0%nat rs.

Lemma conversation_loop rs b s m st fuel :
  inv b -> idle s -> represents hash m st -> conversation_ok (startTime_ m) rs st ->
  content b = concat (print <$> rs) ->
  exists b' s' m', message_loop hash writable (total_rounds rs + fuel) b s m = Some (Ok (b', s', m')) /\
    inv b' /\ content b' = [] /\ idle s' /\ represents hash m' (answers (startTime_ m) rs st).2 /\
    messages (sent_ s') = messages (sent_ s) ++ (answers (startTime_ m) rs st).1.
Proof.
  revert b s m st. induction rs as [|r rs IH]; intros b s m st Hi Hs Hr Hok Hc.
  { exists b, s, m. rewrite message_loop_done by done. cbn. rewrite app_nil_r. by split_and!. }
  destruct Hok as (Hrq & Hroom & Hok). cbn [fmap list_fmap concat] in Hc.
  pose proof (request_step r _ b s m st (total_rounds rs + fuel) Hi Hs Hr Hrq Hroom Hc) as Hstep.
  cbn [answers]. destruct (answer (startTime_ m) r st) as [ms st1]. cbn [snd] in Hok.
  destruct Hstep as (b1 & s1 & m1 & E & Hi1 & Hc1 & Hs1 & Hr1 & Hm1 & Hms1).
  rewrite <- Hm1 in Hok. destruct (IH b1 s1 m1 st1 Hi1 Hs1 Hr1 Hok Hc1) as (b2 & s2 & m2 & E2 & Hi2 & Hc2 & Hs2 & Hr2 & Hms2).
  rewrite Hm1 in Hr2, Hms2. destruct (answers (startTime_ m) rs st1) as [ms' st2]. cbn [fst snd] in *.
  exists b2, s2, m2. split_and!; [|done..|by rewrite Hms2, Hms1, (assoc_L app)].
  change (total_rounds (r :: rs)) with (rounds r + total_rounds rs)%nat. by rewrite <- Nat.add_assoc, E.
Qed.

(** [C6] A session answers a conversation as memcached's abstract store does.  Fed any sequence of
    well-formed requests (set, add, replace, append, prepend, cas, get, gets, delete, version, with
    or without noreply, values with arbitrary bytes), onMessage consumes them all, sends exactly the
    replies of the abstract key-value store, in order (for an update STORED, NOT_STORED, EXISTS or
    NOT_FOUND as the protocol has it for the key's entry), leaves the session ready for the next
    request, and the sharded item store holds exactly the abstract store's entries. *)
Theorem conversation_correct rs b s m st fuel :
  inv b -> idle s -> represents hash m st -> conversation_ok (startTime_ m) rs st ->
  content b = concat (print <$> rs) ->
  exists b' s' m', onMessage hash writable (total_rounds rs + fuel) b s m = Some (Ok (b', s', m')) /\
    content b' = [] /\ idle s' /\ represents hash m' (answers (startTime_ m) rs st).2 /\
    messages (sent_ s') = messages (sent_ s) ++ (answers (startTime_ m) rs st).1.
Proof.
  intros Hi Hs Hr Hok Hc.
  destruct (conversation_loop rs b s m st fuel Hi Hs Hr Hok Hc) as (b' & s' & m' & E & Hi' & Hc' & Hs' & Hr' & Hm').
  unfold onMessage. rewrite E. do 3 eexists. split; [reflexivity|]. split_and!; [done|by destruct Hs'|done|done].
Qed.

(** ** Command lines that abort the server *)

Lemma line_fault command ws rest b s m f fuel :
  inv b -> idle s -> Forall word (command :: ws) -> content b = command ++ args ws ++ kCRLF ++ rest ->
  default [] (last ws) <> noreply_word ->
  dispatch hash writable command ws (prepared command false s) m = Fault f ->
  onMessage hash writable (S fuel) b s m = Some (Fault f).
Proof.
  intros Hi Hs Hws Hc Hl Hd. pose proof (line_of_buffer b Hi) as Hb.
  rewrite Hc, (assoc_L app) in Hb. rewrite split_line_text in Hb.
  2: { apply Forall_cons in Hws as [(_ & _ & Hw) Hws]. rewrite !elem_of_app. intros [?|?]; [done|].
       by apply (args_no_cr ws). }
  destruct Hb as (p & b' & Hf & Hrd & _). unfold onMessage. cbn [message_loop].
  assert (Hpos : (0 <? readableBytes b) = true).
  { rewrite readableBytes_content, Hc, !zlen_app by done. change (zlen kCRLF) with 2.
    pose proof (zlen_nonneg command). pose proof (zlen_nonneg (args ws)). pose proof (zlen_nonneg rest). lia. }
  rewrite Hpos. unfold message_round. rewrite (s_state _ _ Hs), (s_protocol _ _ Hs), !bool_decide_false by done.
  cbn [mbind res_bind]. rewrite (s_protocol _ _ Hs), bool_decide_false by done.
  rewrite Hf. cbn [mbind res_bind]. rewrite Hrd. cbn [mbind res_bind].
  pose proof (processRequest_line [] command ws false s m Hs Hws (fun _ => Hl)) as Hp.
  rewrite app_nil_r in Hp. by rewrite Hp, Hd.
Qed.

(** One command line can abort the server.  (1) An update or delete command without
    a key: doUpdate and doDelete dereference the end iterator of the tokens.  (2) An
    update whose byte count is between 2^31 and 2^32 - 1: it becomes a negative int, and
    the assertion valuelen_ >= 2 in Item's constructor fails. *)
Theorem malformed_line_aborts b s m rest fuel :
  inv b -> idle s ->
  (forall command, policy_of command <> kInvalid \/ command = lit "delete" ->
     word command -> content b = command ++ kCRLF ++ rest ->
     onMessage hash writable (S fuel) b s m = Some (Fault OutOfBounds)) /\
  (forall p key n, p <> kInvalid -> p <> kCas -> key_ok key -> 2 ^ 31 <= n < 2 ^ 32 ->
     content b = command_of p ++ args [key; dec 0; dec 0; dec n] ++ kCRLF ++ rest ->
     onMessage hash writable (S fuel) b s m = Some (Fault AssertFailure)).
Proof.
  intros Hi Hs. split.
  - intros command Hcmd Hw Hc. apply (line_fault command [] rest); [done..| |done|done|].
    { apply Forall_cons. split; [done|constructor]. }
    unfold dispatch. destruct Hcmd as [Hp | ->]; [|done].
    rewrite bool_decide_false by done. cbn [negb]. unfold doUpdate. cbn [command_ prepared set_command].
    rewrite bool_decide_false by done. done.
  - intros p key n Hp Hcas [Hw Hk] Hn Hc.
    assert (Hws : Forall word (command_of p :: [key; dec 0; dec 0; dec n])).
    { repeat (apply Forall_cons; split); [|done|apply dec_word; lia..|constructor].
      apply (bool_decide_eq_true (word _)). by destruct p. }
    apply (line_fault (command_of p) _ rest _ _ _ _ _ Hi Hs Hws Hc).
    { cbn. intros E. pose proof (digits_digit 20 n ltac:(lia)) as H. rewrite <- dec_nonneg, E in H by lia.
      apply Forall_cons in H as [H _]. by vm_compute in H. }
    unfold dispatch. rewrite policy_of_command, bool_decide_false by done. cbn [negb].
    unfold doUpdate. cbn [command_ prepared set_command]. rewrite policy_of_command, bool_decide_false by done.
    cbn [negb check mbind res_bind head get policy_ set_policy tail]. unfold kLongestKeySize.
    replace (zlen key <=? 250) with true by lia. unfold read_update. cbn [read].
    rewrite strtoull_dec by lia. cbn [mbind option_bind read]. rewrite strtoull_dec by lia.
    cbn [mbind option_bind read]. rewrite strtoull_dec by lia. cbn [mbind option_bind].
    rewrite bool_decide_false by done. cbn [mbind option_bind].
    assert (Hneg : sint 32 n = n - 2 ^ 32).
    { unfold sint. replace (n + 2 ^ (32 - 1)) with (n - 2 ^ 31 + 1 * 2 ^ 32) by lia.
      rewrite Z.mod_add by lia. rewrite Z.mod_small by lia. lia. }
    rewrite Hneg. replace (1024 * 1024 <? n - 2 ^ 32) with false by lia.
    rewrite add_int_ok by (unfold in_sint; lia). cbn [mbind res_bind].
    unfold makeItem. cbn [valuelen_]. by replace (2 <=? n - 2 ^ 32 + 2) with false by lia.
Qed.

(** An update with a byte count of 2^31 - 2 or 2^31 - 1 is answered with SERVER_ERROR and its key is
    deleted, but then bytes + 2 overflows. *)
Theorem byte_count_overflows p key n rest b s m st fuel :
  inv b -> idle s -> represents hash m st -> p <> kInvalid -> p <> kCas -> key_ok key -> 2 ^ 31 - 2 <= n < 2 ^ 31 ->
  content b = command_of p ++ args [key; dec 0; dec 0; dec n] ++ kCRLF ++ rest ->
  onMessage hash writable (S fuel) b s m = Some (Fault Undefined).
Proof.
  intros Hi Hs Hr Hp Hcas [Hw Hk] Hn Hc.
  assert (Hws : Forall word (command_of p :: [key; dec 0; dec 0; dec n])).
  { repeat (apply Forall_cons; split); [|done|apply dec_word; lia..|constructor].
    apply (bool_decide_eq_true (word _)). by destruct p. }
  apply (line_fault (command_of p) _ rest _ _ _ _ _ Hi Hs Hws Hc).
  { cbn. intros E. pose proof (digits_digit 20 n ltac:(lia)) as H. rewrite <- dec_nonneg, E in H by lia.
    apply Forall_cons in H as [H _]. by vm_compute in H. }
  unfold dispatch. rewrite policy_of_command, bool_decide_false by done. cbn [negb].
  unfold doUpdate. cbn [command_ prepared set_command]. rewrite policy_of_command, bool_decide_false by done.
  cbn [negb check mbind res_bind head get policy_ set_policy tail]. unfold kLongestKeySize.
  replace (zlen key <=? 250) with true by lia. unfold read_update. cbn [read].
  rewrite strtoull_dec by lia. cbn [mbind option_bind read]. rewrite strtoull_dec by lia.
  cbn [mbind option_bind read]. rewrite strtoull_dec by lia. cbn [mbind option_bind].
  rewrite bool_decide_false by done. cbn [mbind option_bind].
  rewrite (sint_small 32 n) by (unfold in_sint; lia). replace (1024 * 1024 <? n) with true by lia.
  set (s2 := reply _ _). assert (Hne : needle_ok (needle_ s2)) by (unfold s2, reply; case_match; apply (s_needle _ _ Hs)).
  destruct (resetKey_ok hash key (needle_ s2) Hne Hk) as (it & -> & Hit & Hik & Hih). cbn [mbind res_bind].
  destruct (deleteItem_ok hash it key m st Hr Hik Hih) as (m' & -> & _). cbn [mbind res_bind].
  unfold add_int. rewrite bool_decide_false by (unfold in_sint; lia). done.
Qed.

Lemma get_keys_bad cas keys long s m st :
  represents hash m st -> needle_ok (needle_ s) -> Forall key_ok keys -> 250 < zlen long ->
  exists needle, needle_ok needle /\
    get_keys hash cas (keys ++ [long]) s m =
    Ok (false, reply bad_format (set_outputBuf (outputBuf_ s ++ concat (get_text cas st <$> keys)) (set_needle needle s))).
Proof.
  intros Hr Hn Hk Hl. revert s Hn. induction Hk as [|k keys [_ Hk] _ IH]; intros s Hn; cbn [app get_keys].
  { unfold kLongestKeySize. replace (zlen long <=? 250) with false by lia. cbn [negb].
    exists (needle_ s). split; [done|]. cbn. rewrite app_nil_r. by destruct s. }
  unfold kLongestKeySize. replace (zlen k <=? 250) with true by lia. cbn [negb].
  destruct (resetKey_ok hash k (needle_ s) Hn Hk) as (it & -> & Hit & Hik & Hih). cbn [mbind res_bind].
  rewrite (getItem_ok hash it k m st Hr Hik Hih). cbn [mbind res_bind].
  rewrite lookup_text. cbn [mbind res_bind].
  destruct (IH (set_outputBuf (outputBuf_ s ++ get_text cas st k) (set_needle it s)) Hit) as (it2 & Hit2 & ->).
  exists it2. split; [done|]. cbn. by rewrite <- (assoc_L app).
Qed.

(** A get with an over-long key is answered with an error, but the values of the
    keys before it stay in outputBuf_: the reply to the next get starts with them. *)
Theorem rejected_get_leaks keys long keys2 b s m st fuel :
  inv b -> idle s -> represents hash m st -> Forall key_ok keys -> Forall key_ok keys2 ->
  word long -> 250 < zlen long -> default [] (last keys2) <> noreply_word ->
  content b = lit "get" ++ args (keys ++ [long]) ++ kCRLF ++ lit "get" ++ args keys2 ++ kCRLF ->
  exists b' s', onMessage hash writable (2 + fuel) b s m = Some (Ok (b', s', m)) /\
    messages (sent_ s') = messages (sent_ s) ++
      [bad_format; concat (get_text false st <$> keys) ++ concat (get_text false st <$> keys2) ++ lit "END" ++ kCRLF].
Proof.
  intros Hi Hs Hr Hk Hk2 Hw Hlong Hlast Hc.
  assert (Hws : forall l, Forall key_ok l -> Forall word l) by (intros l Hl; eapply Forall_impl; [exact Hl|]; by intros ? [? _]).
  assert (Hget : word (lit "get")) by by apply (bool_decide_eq_true (word _)).
  set (s0 := prepared (lit "get") false s).
  destruct (get_keys_bad false keys long s0 m st Hr (s_needle _ _ Hs) Hk Hlong) as (it & Hit & Eg).
  change (outputBuf_ s0) with (outputBuf_ s) in Eg. rewrite (s_output _ _ Hs) in Eg. cbn [app] in Eg.
  set (s1' := set_outputBuf _ _) in Eg. set (s1 := reply bad_format s1') in Eg.
  assert (Ed : dispatch hash writable (lit "get") (keys ++ [long]) s0 m = Ok (true, s1, m)).
  { unfold dispatch. cbn [negb]. change (policy_of (lit "get")) with kInvalid. rewrite !bool_decide_true by done.
    cbn [negb orb]. unfold doGet. change (bool_decide (lit "get" = lit "gets")) with false. by rewrite Eg. }
  destruct (line_round [] (lit "get") (keys ++ [long]) false (lit "get" ++ args keys2 ++ kCRLF) b s m true s1 m Hi Hs)
    as (b1 & E1 & Hi1 & Hc1); [|exact Hc| |exact Ed|].
  { apply Forall_cons. split; [done|]. apply Forall_app. split; [by apply Hws|]. apply Forall_cons. split; [done|constructor]. }
  { intros _. rewrite last_snoc. cbn. intros ->. by vm_compute in Hlong. }
  destruct (reply_keeps bad_format s1') as (H1 & H2 & H3 & H4).
  assert (Hs1 : holding (concat (get_text false st <$> keys)) (resetRequest s1)).
  { destruct Hs. apply resetRequest_idle; unfold s1; rewrite ?H1, ?H2, ?H3, ?H4; done. }
  destruct (dispatch_get false keys2 (prepared (lit "get") false (resetRequest s1)) m st Hr (s_needle _ _ Hs1) Hk2)
    as (s2 & E2 & Hms & _).
  destruct (line_round _ (lit "get") keys2 false [] b1 (resetRequest s1) m true s2 m Hi1 Hs1)
    as (b2 & E3 & Hi2 & Hc2); [|by rewrite Hc1, app_nil_r|done|exact E2|].
  { apply Forall_cons. split; [done|by apply Hws]. }
  unfold onMessage. cbn [Nat.add].
  rewrite (message_loop_step _ _ _ _ _ _ _ Hi ltac:(by rewrite Hc) E1).
  rewrite (message_loop_step _ _ _ _ _ _ _ Hi1 ltac:(by rewrite Hc1) E3), message_loop_done by done.
  do 2 eexists. split; [reflexivity|]. change (sent_ (add_bytesRead _ (resetRequest s2))) with (sent_ s2).
  rewrite Hms. change (sent_ (prepared _ false (resetRequest s1))) with (sent_ s1).
  change (outputBuf_ (prepared _ false (resetRequest s1))) with (outputBuf_ (resetRequest s1)).
  rewrite (s_output _ _ Hs1). unfold s1. rewrite messages_reply, <- (assoc_L app).
  change (noreply_ s1') with (noreply_ s). by rewrite (s_noreply _ _ Hs).
Qed.

(** ** Termination *)

(** Rounds still possible: two per byte, and one to leave a value. *)
Definition budget (b : Buffer) (s : Session) : nat :=
  2 * length (content b) + match state_ s with kNewCommand => 0 | _ => 1 end.

(** What every step of a session preserves. *)
Definition keeps (s s' : Session) : Prop :=
  protocol_ s' = protocol_ s /\ (0 <= bytesToDiscard_ s -> 0 <= bytesToDiscard_ s').

Lemma keeps_refl s : keeps s s.
Proof. done. Qed.

Lemma keeps_trans s1 s2 s3 : keeps s1 s2 -> keeps s2 s3 -> keeps s1 s3.
Proof. intros [H1 H2] [H3 H4]. split; [congruence|auto]. Qed.

Lemma keeps_reply msg s : keeps s (reply msg s).
Proof. unfold reply. by case_match. Qed.

Lemma keeps_get cas keys s m good s' : get_keys hash cas keys s m = Ok (good, s') -> keeps s s'.
Proof.
  revert s. induction keys as [|k keys IH]; intros s; cbn [get_keys]; [by intros [= _ <-]|].
  destruct (negb _); [intros [= _ <-]; apply keeps_reply|]. intros H. inv_res H. by apply IH in H.
Qed.

Lemma keeps_update toks s m fin s' m' : doUpdate hash toks s m = Ok (fin, s', m') -> keeps s s'.
Proof.
  unfold doUpdate. intros H. inv_res H.
  match type of H with match ?x with _ => _ end = _ => destruct x as [[[[flags exptime] bytes] cas]|] end.
  - destruct (1024 * 1024 <? bytes); inv_res H; [|subst; done].
    destruct a2 as [? ?]. inv_res H. subst. split; cbn; [apply (keeps_reply _ (set_policy _ s))|].
    intros _. apply uint_range. lia.
  - inv_res H. subst. apply (keeps_reply _ (set_policy _ s)).
Qed.

Lemma keeps_delete toks s m s' m' : doDelete hash toks s m = Ok (s', m') -> keeps s s'.
Proof.
  unfold doDelete. intros H. inv_res H. destruct (negb _); [inv_res H; subst; apply keeps_reply|].
  match type of H with (if ?x then _ else _) = _ => destruct x end; [inv_res H; subst; apply keeps_reply|].
  inv_res H. destruct a2. inv_res H. subst. apply (keeps_reply _ (set_needle _ s)).
Qed.

Lemma keeps_doGet cas keys s m s' : doGet hash writable cas keys s m = Ok s' -> keeps s s'.
Proof.
  unfold doGet. intros H. inv_res H. destruct a as [good s1]. apply keeps_get in Ha.
  destruct good; inv_res H; subst; [|done]. eapply keeps_trans; [exact Ha|]. cbn. by case_match.
Qed.

Lemma keeps_process line s m fin s' m' : processRequest hash writable line s m = Ok (fin, s', m') -> keeps s s'.
Proof.
  unfold processRequest. intros H. inv_res H. destruct (strip_noreply line) as [noreply line'].
  set (s0 := if noreply then _ else _) in H. assert (Hs0 : keeps s s0) by (unfold s0; by destruct noreply).
  eapply keeps_trans; [exact Hs0|]. clear Hs0.
  destruct (tokens _ _) as [|command toks]; [inv_res H; subst; apply keeps_reply|].
  eapply (keeps_trans _ (set_command command s0)); [done|].
  revert H. generalize (set_command command s0). clear. intros s H. unfold dispatch in H.
  repeat match type of H with (if ?x then _ else _) = _ => destruct x end;
    [by eapply keeps_update|..]; inv_res H; subst; try done; try apply keeps_reply.
  - by eapply keeps_doGet.
  - destruct a. inv_res H. subst. by eapply keeps_delete.
Qed.

Lemma receiveValue_budget b s m b' s' m' :
  inv b -> content b <> [] -> state_ s = kReceiveValue -> receiveValue hash b s m = Ok (b', s', m') ->
  inv b' /\ keeps s s' /\ (budget b' s' < budget b s)%nat.
Proof.
  intros Hi Hc Hst. unfold receiveValue. intros H. inv_res H.
  set (avail := Z.min (readableBytes b) (neededBytes a)) in *.
  assert (Hav : 0 <= avail <= zlen (content b)).
  { unfold avail. rewrite readableBytes_content by done. unfold neededBytes.
    pose proof (uint_range 64 (totalLen a - receivedBytes_ a)). pose proof (zlen_nonneg (content b)). lia. }
  destruct (retrieve_spec avail b Hi Hav) as (b2 & Hr & Hi2 & Hc2 & _).
  assert (Hb2 : b2 = a2) by congruence. subst a2.
  assert (Hlen : (length (content b2) + Z.to_nat avail = length (content b))%nat).
  { rewrite Hc2, length_drop. unfold zlen in Hav. lia. }
  unfold budget. rewrite Hst. destruct (neededBytes a1 =? 0) eqn:En; inv_res H.
  - destruct a3 as [s2 m2]. inv_res H. subst. split; [done|].
    assert (Hp : keeps s s2).
    { destruct a2; inv_res Ha4; [destruct a2 as [[? ?] ?]; inv_res Ha4|]; subst;
        apply (keeps_reply _ (set_currItem _ s)). }
    split; [split; [apply Hp|done]|]. cbn. lia.
  - subst. split; [done|]. split; [done|]. cbn. rewrite Hst.
    enough (avail <> 0) by lia. intros E0. (* nothing available means nothing needed *)
    assert (Hn : neededBytes a = 0).
    { unfold avail in E0. rewrite readableBytes_content in E0 by done. destruct (content b) as [|x l]; [done|].
      rewrite zlen_cons in E0. pose proof (zlen_nonneg l). lia. }
    assert (Hchunk : zlen a0 = 0).
    { unfold read_range in Ha0. destruct (_ && _); [|done]. injection Ha0 as <-.
      by rewrite E0, Z.add_0_r, slice_empty. }
    unfold item_append in Ha1. inv_res Ha1. subst. unfold neededBytes, totalLen in *. cbn in En.
    rewrite Hchunk, Z.add_0_r in En. lia.
Qed.

Lemma discardValue_budget b s b' s' :
  inv b -> content b <> [] -> state_ s = kDiscardValue -> 0 <= bytesToDiscard_ s ->
  discardValue b s = Ok (b', s') -> inv b' /\ keeps s s' /\ (budget b' s' < budget b s)%nat.
Proof.
  intros Hi Hc Hst H0 H. unfold discardValue in H. inv_res H.
  destruct (readableBytes b <? bytesToDiscard_ s) eqn:Ed; inv_res H; subst.
  - destruct (retrieveAll_spec b Hi) as [Hi1 Hc1]. split; [done|].
    split; [split; [done|intros _; apply uint_range; lia]|].
    unfold budget. rewrite Hc1. destruct (content b); [done|]. cbn. destruct (state_ s); lia.
  - destruct (retrieve_spec (bytesToDiscard_ s) b Hi) as (b2 & Hr & Hi2 & Hc2 & _).
    { rewrite readableBytes_content in Ed by done. lia. }
    assert (b2 = b') as -> by congruence. split; [done|]. split; [done|]. unfold budget.
    rewrite Hst, Hc2, length_drop. cbn. lia.
Qed.

Lemma round_budget b s m more b' s' m' :
  inv b -> content b <> [] -> protocol_ s = kAscii -> 0 <= bytesToDiscard_ s ->
  message_round hash writable b s m = Ok (more, b', s', m') ->
  inv b' /\ keeps s s' /\ (more = true -> (budget b' s' < budget b s)%nat).
Proof.
  intros Hi Hc Hp H0 H. unfold message_round in H. destruct (state_ s) eqn:Hst.
  - rewrite Hp, bool_decide_false in H by done. cbn [mbind res_bind] in H. rewrite Hp, bool_decide_false in H by done.
    pose proof (line_of_buffer b Hi) as Hl. destruct (split_line (content b)) as [[line rest]|] eqn:El.
    + destruct Hl as (p & b1 & Hf & Hrd & Hru & Hi1 & Hc1). rewrite Hf in H. cbn [mbind res_bind] in H.
      rewrite Hrd in H. cbn [mbind res_bind] in H. inv_res H. destruct a as [[fin s1] m1].
      rewrite Hru in H. cbn [mbind res_bind] in H. inv_res H. subst. apply keeps_process in Ha.
      split; [done|]. split; [destruct fin; [split; [apply Ha|done]|done]|]. intros _. unfold budget. rewrite Hst.
      apply split_line_Some in El. rewrite El, !length_app. change (length kCRLF) with 2%nat. destruct (state_ (if fin then resetRequest s1 else s1)); lia.
    + rewrite Hl in H. cbn [mbind res_bind] in H. inv_res H. subst. split; [done|]. split; [|done]. by case_match.
  - inv_res H. destruct a as [[b1 s1] m1]. inv_res H. subst.
    by destruct (receiveValue_budget b s m b' s' m' Hi Hc Hst Ha) as (? & ? & ?).
  - inv_res H. destruct a as [b1 s1]. inv_res H. subst.
    by destruct (discardValue_budget b s b' s' Hi Hc Hst H0 Ha) as (? & ? & ?).
Qed.

Lemma message_loop_total fuel b s m :
  inv b -> protocol_ s = kAscii -> 0 <= bytesToDiscard_ s -> (budget b s <= fuel)%nat ->
  exists r, message_loop hash writable fuel b s m = Some r.
Proof.
  revert b s m. induction fuel as [|fuel IH]; intros b s m Hi Hp H0 Hf.
  - destruct (content b) as [|c l] eqn:E; [rewrite message_loop_done by done; by eexists|].
    unfold budget in Hf. rewrite E in Hf. cbn in Hf. lia.
  - destruct (content b) as [|c l] eqn:E; [rewrite message_loop_done by done; by eexists|].
    cbn [message_loop]. case_match; [|by eexists].
    destruct (message_round hash writable b s m) as [[[[more b1] s1] m1]|f] eqn:Er; [|by eexists].
    destruct (round_budget b s m more b1 s1 m1) as (Hi1 & [Hp1 Hd1] & Hb1); [done|by rewrite E|done..|].
    destruct more; [|by eexists]. apply IH; [done|congruence|auto|]. specialize (Hb1 eq_refl). lia.
Qed.

(** [C40] The loop of onMessage terminates on every buffer and in every state of a session
    of the text protocol: two rounds per byte and one more are enough.  (A session of the
    binary protocol, which the constructor never selects, would not consume anything and
    loop forever.) *)
Theorem session_terminates b s m :
  inv b -> 0 <= bytesToDiscard_ s ->
  (protocol_ s = kAscii -> exists r, onMessage hash writable (2 * length (content b) + 1) b s m = Some r) /\
  (protocol_ s = kBinary -> state_ s = kNewCommand -> content b <> [] ->
     forall fuel, onMessage hash writable fuel b s m = None).
Proof.
  intros Hi H0. split.
  - intros Hp. unfold onMessage.
    destruct (message_loop_total (2 * length (content b) + 1) b s m Hi Hp H0) as (r & ->).
    { unfold budget. destruct (state_ s); lia. }
    destruct r as [[[b1 s1] m1]|f]; by eexists.
  - intros Hp Hs Hc fuel. unfold onMessage.
    assert (Hl : message_loop hash writable fuel b s m = None); [|by rewrite Hl].
    assert (Hpos : (0 <? readableBytes b) = true).
    { rewrite readableBytes_content by done. destruct (content b) as [|c l]; [done|].
      rewrite zlen_cons. pose proof (zlen_nonneg l). lia. }
    induction fuel as [|fuel IH]; cbn [message_loop]; rewrite Hpos; [done|].
    unfold message_round. rewrite Hs, Hp, bool_decide_false by done. cbn [mbind res_bind].
    rewrite Hp, bool_decide_true by done. done.
Qed.
End Sessions.

(** ** Witnesses *)

Definition sample_hash (l : list char) : Z := foldl (fun h c => uint 64 (h * 31 + ord c)) 7 l.
Definition sample_writable (_ : list out) : Z := 1024.

Definition text_buffer (s : list char) : Buffer := mkBuffer (replicate 8 (chr 0) ++ s) 8 (8 + zlen s).

Definition sample_server : MemcacheServer := mkServer 1000 ∅ 0.

Lemma sample_represents : represents sample_hash sample_server (∅, 0).
Proof. split; [|done]. intros k. unfold shard. cbn. by rewrite !lookup_empty. Qed.

Definition sample_session : Session :=
  mkSession kNewCommand kAscii [] false kInvalid None 0
    (part_of sample_hash kLongestKey 0 0 2 0 [] (replicate 2 (chr 0))) [] 0 0 [].

Lemma sample_idle : holding [] sample_session.
Proof. split; done. Qed.

Definition sample_requests : list request :=
  [RUpdate kSet (lit "foo") 5 0 0 (lit "b" ++ kCRLF) false; RGet true [lit "foo"]].

Lemma sample_conversation_ok : conversation_ok 1000 sample_requests (∅, 0).
Proof.
  assert (Hk : key_ok (lit "foo")) by (split; [by apply (bool_decide_eq_true (word _))|vm_compute; congruence]).
  unfold sample_requests. cbn [conversation_ok]. split; [|split; [|split; [|split; exact I]]].
  - split; [done|]. split; [exact Hk|]. split_and!; vm_compute; congruence.
  - unfold room, update_fits. cbn [fst snd]. rewrite lookup_empty. split_and!; vm_compute; congruence.
  - split; [by apply Forall_singleton|]. vm_compute. congruence.
Qed.

Lemma conversation_correct_witness :
  exists b' s' m', onMessage sample_hash sample_writable (total_rounds sample_requests + 0)
      (text_buffer (concat (print <$> sample_requests))) sample_session sample_server = Some (Ok (b', s', m')) /\
    messages (sent_ s') = [lit "STORED" ++ kCRLF;
      lit "VALUE foo 5 3 1" ++ kCRLF ++ lit "b" ++ kCRLF ++ kCRLF ++ lit "END" ++ kCRLF].
Proof.
  destruct (conversation_correct sample_hash sample_writable sample_requests
              (text_buffer (concat (print <$> sample_requests))) sample_session sample_server (∅, 0) 0)
    as (b' & s' & m' & E & _ & _ & _ & Hm).
  - unfold inv. repeat split; vm_compute; congruence.
  - exact sample_idle.
  - exact sample_represents.
  - exact sample_conversation_ok.
  - vm_compute. reflexivity.
  - exists b', s', m'. split; [exact E|]. rewrite Hm. vm_compute. reflexivity.
Defined.

Lemma malformed_line_aborts_witness :
  onMessage sample_hash sample_writable 1 (text_buffer (lit "set" ++ kCRLF)) sample_session sample_server
    = Some (Fault OutOfBounds) /\
  onMessage sample_hash sample_writable 1
    (text_buffer (command_of kSet ++ args [lit "k"; dec 0; dec 0; dec 4294967295] ++ kCRLF)) sample_session sample_server
    = Some (Fault AssertFailure).
Proof.
  split.
  - apply (proj1 (malformed_line_aborts sample_hash sample_writable (text_buffer (lit "set" ++ kCRLF))
             sample_session sample_server [] 0 ltac:(unfold inv; repeat split; vm_compute; congruence) sample_idle) (lit "set")).
    + left. vm_compute. congruence.
    + by apply (bool_decide_eq_true (word _)).
    + vm_compute. reflexivity.
  - apply (proj2 (malformed_line_aborts sample_hash sample_writable
             (text_buffer (command_of kSet ++ args [lit "k"; dec 0; dec 0; dec 4294967295] ++ kCRLF))
             sample_session sample_server [] 0 ltac:(unfold inv; repeat split; vm_compute; congruence) sample_idle)
             kSet (lit "k") 4294967295).
    + congruence.
    + congruence.
    + split; [by apply (bool_decide_eq_true (word _))|vm_compute; congruence].
    + lia.
    + vm_compute. reflexivity.
Defined.

Lemma rejected_get_leaks_witness :
  exists b' s', onMessage sample_hash sample_writable (2 + 0)
      (text_buffer (lit "get" ++ args ([lit "a"] ++ [replicate 251 (chr 120)]) ++ kCRLF ++ lit "get" ++ args [lit "b"] ++ kCRLF))
      sample_session sample_server = Some (Ok (b', s', sample_server)) /\
    messages (sent_ s') = messages (sent_ sample_session) ++
      [bad_format; concat (get_text false (∅, 0) <$> [lit "a"]) ++ concat (get_text false (∅, 0) <$> [lit "b"]) ++ lit "END" ++ kCRLF].
Proof.
  assert (Hk : forall c, c ∈ [lit "a"; lit "b"] -> key_ok c).
  { intros c Hc. rewrite !elem_of_cons, elem_of_nil in Hc. destruct Hc as [->|[->|[]]];
      (split; [by apply (bool_decide_eq_true (word _))|vm_compute; congruence]). }
  apply (rejected_get_leaks sample_hash sample_writable [lit "a"] (replicate 251 (chr 120)) [lit "b"]).
  - unfold inv. repeat split; vm_compute; congruence.
  - exact sample_idle.
  - exact sample_represents.
  - apply Forall_singleton, Hk. by left.
  - apply Forall_singleton, Hk. right. by left.
  - by apply (bool_decide_eq_true (word _)).
  - vm_compute. reflexivity.
  - vm_compute. congruence.
  - vm_compute. reflexivity.
Defined.

Lemma session_terminates_witness :
  exists r, onMessage sample_hash sample_writable (2 * length (content (text_buffer (lit "get a"))) + 1)
    (text_buffer (lit "get a")) sample_session sample_server = Some r.
Proof.
  apply (session_terminates sample_hash sample_writable (text_buffer (lit "get a")) sample_session sample_server).
  - unfold inv. repeat split; vm_compute; congruence.
  - vm_compute. congruence.
  - reflexivity.
Defined.
