(* ===== verification/TcpServer.v ===== *)
(** * Servers (src/muduo/net/TcpServer.h, TcpServer.cc, EventLoopThreadPool.h,
      EventLoopThreadPool.cc)

    A server accepts connections in its base loop and hands each to one of the pool's
    loops.  Functors wait in the queues of the loops; [queue] holds them all, in the order
    they were queued, each with its loop.  Connection objects are numbered in the order of
    creation; what a connection does in between is the subject of TcpConnection.v.

    [fresh_loop i] is the loop EventLoopThread::startLoop returns for the [i]-th thread.
    Ghost fields: [conns], every connection created, with a [phase]; [trace], the
    executions of connectEstablished and connectDestroyed, each with the loop that ran
    it. *)

From S2P Require Import Prelude Decimal.

(** Addresses of event loops. *)
Abbreviation ptr := positive (only parsing).

(** ** EventLoopThreadPool *)

Record EventLoopThreadPool := mkPool {
  baseLoop_ : ptr;
  started_ : bool;
  numThreads_ : Z;
  next_ : Z;
  loops_ : list ptr
}.

Definition newPool (base : ptr) : EventLoopThreadPool := mkPool base false 0 0 [].

(** [EventLoopThreadPool::setThreadNum] *)
Definition pool_setThreadNum (n : Z) (p : EventLoopThreadPool) : EventLoopThreadPool :=
  mkPool (baseLoop_ p) (started_ p) n (next_ p) (loops_ p).

Section Pool.
Context (fresh_loop : nat -> ptr).

(** [EventLoopThreadPool::start]; the loops on which the init callback runs are not
    recorded. *)
Definition pool_start (p : EventLoopThreadPool) : res EventLoopThreadPool :=
  _ ← check (negb (started_ p));
  Ok (mkPool (baseLoop_ p) true (numThreads_ p) (next_ p)
        (loops_ p ++ (fresh_loop <$> seq 0 (Z.to_nat (numThreads_ p))))).
End Pool.

Definition getNextLoop (p : EventLoopThreadPool) : res (ptr * EventLoopThreadPool) :=
  _ ← check (started_ p);
  match loops_ p with
  | [] => Ok (baseLoop_ p, p)
  | _ =>
      loop ← get (loops_ p !! Z.to_nat (next_ p));
      let next := next_ p + 1 in
      Ok (loop, mkPool (baseLoop_ p) (started_ p) (numThreads_ p)
                  (if zlen (loops_ p) <=? size_t next then 0 else next) (loops_ p))
  end.

Definition getLoopForHash (hashCode : Z) (p : EventLoopThreadPool) : res ptr :=
  match loops_ p with
  | [] => Ok (baseLoop_ p)
  | _ => get (loops_ p !! Z.to_nat (hashCode mod zlen (loops_ p)))
  end.

Definition getAllLoops (p : EventLoopThreadPool) : res (list ptr) :=
  _ ← check (started_ p);
  Ok (match loops_ p with [] => [baseLoop_ p] | l => l end).

(** ** TcpServer *)

Inductive task := TListen | TEstablish (i : nat) | TRemove (i : nat) | TDestroy (i : nat).

#[global] Instance stask_eq_dec : EqDecision task.
Proof. solve_decision. Defined.

Inductive phase := PQueued | PUp | PClosing | PRemoved | PGone.
Inductive cevent := Established | Destroyed.

#[global] Instance phase_eq_dec : EqDecision phase.
Proof. solve_decision. Defined.

Record conn := mkConn { c_name : list char; c_loop : ptr; c_phase : phase }.

Record TcpServer := mkTcpServer {
  threadPool_ : EventLoopThreadPool;
  server_started_ : Z;
  nextConnId_ : Z;
  connections_ : gmap (list char) nat;
  listening_ : bool;
  queue : list (ptr * task);
  conns : list conn;
  trace : list (nat * ptr * cevent)
}.

Definition newTcpServer (base : ptr) : TcpServer :=
  mkTcpServer (newPool base) 0 1 ∅ false [] [] [].

Definition set_pool (p : EventLoopThreadPool) (s : TcpServer) : TcpServer :=
  mkTcpServer p (server_started_ s) (nextConnId_ s) (connections_ s) (listening_ s) (queue s) (conns s) (trace s).
Definition set_started (n : Z) (s : TcpServer) : TcpServer :=
  mkTcpServer (threadPool_ s) n (nextConnId_ s) (connections_ s) (listening_ s) (queue s) (conns s) (trace s).
Definition set_connections (m : gmap (list char) nat) (s : TcpServer) : TcpServer :=
  mkTcpServer (threadPool_ s) (server_started_ s) (nextConnId_ s) m (listening_ s) (queue s) (conns s) (trace s).
Definition set_listening (s : TcpServer) : TcpServer :=
  mkTcpServer (threadPool_ s) (server_started_ s) (nextConnId_ s) (connections_ s) true (queue s) (conns s) (trace s).
Definition set_queue (q : list (ptr * task)) (s : TcpServer) : TcpServer :=
  mkTcpServer (threadPool_ s) (server_started_ s) (nextConnId_ s) (connections_ s) (listening_ s) q (conns s) (trace s).
Definition set_phase (i : nat) (ph : phase) (s : TcpServer) : TcpServer :=
  mkTcpServer (threadPool_ s) (server_started_ s) (nextConnId_ s) (connections_ s) (listening_ s) (queue s)
    (alter (fun c => mkConn (c_name c) (c_loop c) ph) i (conns s)) (trace s).
Definition log (i : nat) (l : ptr) (ev : cevent) (s : TcpServer) : TcpServer :=
  mkTcpServer (threadPool_ s) (server_started_ s) (nextConnId_ s) (connections_ s) (listening_ s) (queue s)
    (conns s) (trace s ++ [(i, l, ev)]).
(** A new connection object and the next identifier. *)
Definition add_conn (c : conn) (s : TcpServer) : TcpServer :=
  mkTcpServer (threadPool_ s) (server_started_ s) (nextConnId_ s + 1) (connections_ s) (listening_ s) (queue s)
    (conns s ++ [c]) (trace s).

Definition base (s : TcpServer) : ptr := baseLoop_ (threadPool_ s).

(** [EventLoop::queueInLoop] *)
Definition queueInLoop (l : ptr) (t : task) (s : TcpServer) : TcpServer := set_queue (queue s ++ [(l, t)]) s.

(** [TcpServer::setThreadNum] *)
Definition setThreadNum (n : Z) (s : TcpServer) : res TcpServer :=
  _ ← check (0 <=? n);
  Ok (set_pool (pool_setThreadNum n (threadPool_ s)) s).

(** [snprintf(buf, 64, "-%s#%d", ...)] *)
Definition conn_name (name ipPort : list char) (id : Z) : list char :=
  name ++ take 63 (lit "-" ++ ipPort ++ lit "#" ++ dec id).

Definition removeConnectionInLoop (i : nat) (s : TcpServer) : res TcpServer :=
  c ← get (conns s !! i);
  let n := if bool_decide (is_Some (connections_ s !! c_name c)) then 1 else 0 in
  let s := set_connections (delete (c_name c) (connections_ s)) s in
  _ ← check (n =? 1);
  Ok (set_phase i PRemoved (queueInLoop (c_loop c) (TDestroy i) s)).

(** Running a functor in loop [l]. *)
Definition exec (l : ptr) (t : task) (s : TcpServer) : res TcpServer :=
  match t with
  | TListen => Ok (set_listening s)
  | TEstablish i => Ok (set_phase i PUp (log i l Established s))
  | TRemove i => removeConnectionInLoop i s
  | TDestroy i => Ok (set_phase i PGone (log i l Destroyed s))
  end.

(** [EventLoop::runInLoop] called from the thread of loop [cur] *)
Definition runInLoop (cur l : ptr) (t : task) (s : TcpServer) : res TcpServer :=
  if bool_decide (cur = l) then exec l t s else Ok (queueInLoop l t s).

Section Server.
Context (fresh_loop : nat -> ptr) (name_ ipPort_ : list char).

(** [TcpServer::start] called from the thread of loop [cur] *)
Definition start (cur : ptr) (s : TcpServer) : res TcpServer :=
  let old := server_started_ s in
  let s := set_started 1 s in
  if old =? 0 then
    p ← pool_start fresh_loop (threadPool_ s);
    let s := set_pool p s in
    _ ← check (negb (listening_ s));
    runInLoop cur (base s) TListen s
  else Ok s.

Definition newConnection (s : TcpServer) : res TcpServer :=
  '(ioLoop, p) ← getNextLoop (threadPool_ s);
  let s := set_pool p s in
  let connName := conn_name name_ ipPort_ (nextConnId_ s) in
  let i := length (conns s) in
  let s := add_conn (mkConn connName ioLoop PQueued) s in
  let s := set_connections (<[connName := i]> (connections_ s)) s in
  runInLoop (base s) ioLoop (TEstablish i) s.

(** [TcpServer::removeConnection], the close callback, called in the connection's loop *)
Definition removeConnection (i : nat) (s : TcpServer) : res TcpServer :=
  c ← get (conns s !! i);
  runInLoop (c_loop c) (base s) (TRemove i) (set_phase i PClosing s).

(** [TcpServer::~TcpServer], in the base loop's thread: connectDestroyed for every connection
    the map holds, each in its loop. *)
Definition destroy_connection (i : nat) (s : TcpServer) : res TcpServer :=
  c ← get (conns s !! i); runInLoop (base s) (c_loop c) (TDestroy i) s.

Fixpoint destroy_connections (l : list nat) (s : TcpServer) : res TcpServer :=
  match l with [] => Ok s | i :: l => s ← destroy_connection i s; destroy_connections l s end.

Definition destroy_server (s : TcpServer) : res TcpServer :=
  s ← destroy_connections ((map_to_list (connections_ s)).*2) s; Ok (set_connections ∅ s).

(** ** What can happen to a server *)

Inductive action :=
| SSetThreadNum (n : Z)
| SStart
| SAccept
(** the [k]-th waiting functor runs; connection [i] closes *)
| SRun (k : nat)
| SClose (i : nat).

Definition perform (a : action) (s : TcpServer) : res TcpServer :=
  match a with
  | SSetThreadNum n => setThreadNum n s
  | SStart => start (base s) s
  | SAccept => newConnection s
  | SRun k => match queue s !! k with
              | Some (l, t) => exec l t (set_queue (take k (queue s) ++ drop (S k) (queue s)) s)
              | None => Ok s
              end
  | SClose i => removeConnection i s
  end.

(** The number of threads is set before start() (and is not negative); connections arrive
    once the server listens; a loop runs its functors in order; a connection closes once,
    after it was established (connection_lifecycle); at most 2^31 - 2 connections are
    made. *)
Definition enabled (a : action) (s : TcpServer) : bool :=
  match a with
  | SSetThreadNum n => (0 <=? n) && (n <? 2 ^ 31) && (server_started_ s =? 0)
  | SStart => true
  | SAccept => listening_ s && (nextConnId_ s <? 2 ^ 31 - 1)
  | SRun k => match queue s !! k with
              | Some (l, _) => bool_decide (l ∉ (take k (queue s)).*1)
              | None => false
              end
  | SClose i => match conns s !! i with Some c => bool_decide (c_phase c = PUp) | None => false end
  end.

Inductive reachable (base_loop : ptr) : TcpServer -> Prop :=
| ReachInit : reachable base_loop (newTcpServer base_loop)
| ReachStep a s s' :
    reachable base_loop s -> enabled a s = true -> perform a s = Ok s' -> reachable base_loop s'.
End Server.

(** ** Names *)

Section Names.
Context (name ipPort : list char) (Hip : zlen ipPort <= 47).

(** The buffer of newConnection never truncates: the longest address is 47 characters. *)
Lemma conn_name_full id :
  0 <= id < 2 ^ 31 -> conn_name name ipPort id = name ++ lit "-" ++ ipPort ++ lit "#" ++ dec id.
Proof using Hip.
  intros Hid. unfold conn_name. f_equal. apply take_ge.
  pose proof (zlen_dec id 10 ltac:(lia) ltac:(lia)) as Hd. rewrite !length_app. unfold zlen in *. cbn. lia.
Qed.

Lemma conn_name_inj x y :
  0 <= x < 2 ^ 31 -> 0 <= y < 2 ^ 31 -> conn_name name ipPort x = conn_name name ipPort y -> x = y.
Proof using Hip.
  intros Hx Hy E. rewrite !conn_name_full in E by done.
  apply (inj (app name)), (inj (app (lit "-"))), (inj (app ipPort)), (inj (app (lit "#"))) in E.
  apply dec_inj; lia || done.
Qed.
End Names.

(** ** The invariant *)

Definition task_conn (t : task) : option nat :=
  match t with TListen => None | TEstablish i | TRemove i | TDestroy i => Some i end.

(** The functors waiting for a connection, and its history. *)
Definition waiting (i : nat) (q : list (ptr * task)) : list (ptr * task) :=
  filter (fun x => task_conn x.2 = Some i) q.
Definition history (i : nat) (tr : list (nat * ptr * cevent)) : list (ptr * cevent) :=
  (fun e => (e.1.2, e.2)) <$> filter (fun e => e.1.1 = i) tr.

Arguments waiting : simpl never.
Arguments history : simpl never.

(** The loop of the [i]-th connection: round robin. *)
Definition loop_for (p : EventLoopThreadPool) (i : nat) : ptr :=
  match loops_ p with
  | [] => baseLoop_ p
  | l => default (baseLoop_ p) (l !! (i mod length l)%nat)
  end.

Section Invariant.
Context (name_ ipPort_ : list char) (Hip : zlen ipPort_ <= 47).
Context (base_loop : ptr).
Implicit Types s : TcpServer.

(** What the phase of connection [i] means. *)
Definition phase_ok (i : nat) (c : conn) (s : TcpServer) : Prop :=
  match c_phase c with
  | PQueued => waiting i (queue s) = [(c_loop c, TEstablish i)] /\ history i (trace s) = []
  | PUp => waiting i (queue s) = [] /\ history i (trace s) = [(c_loop c, Established)]
  | PClosing => waiting i (queue s) = [(base_loop, TRemove i)] /\ history i (trace s) = [(c_loop c, Established)]
  | PRemoved => waiting i (queue s) = [(c_loop c, TDestroy i)] /\ history i (trace s) = [(c_loop c, Established)]
  | PGone => waiting i (queue s) = [] /\ history i (trace s) = [(c_loop c, Established); (c_loop c, Destroyed)]
  end.

(** Whether the server still holds a connection of this phase. *)
Definition held (ph : phase) : bool := match ph with PQueued | PUp | PClosing => true | _ => false end.

Record server_inv (s : TcpServer) : Prop := {
  v_base : base s = base_loop;
  v_next : nextConnId_ s = 1 + zlen (conns s);
  v_bound : nextConnId_ s < 2 ^ 31;
  v_pool : 0 <= next_ (threadPool_ s) /\
           (loops_ (threadPool_ s) <> [] ->
            Z.to_nat (next_ (threadPool_ s)) = (length (conns s) mod length (loops_ (threadPool_ s)))%nat);
  v_size : zlen (loops_ (threadPool_ s)) < 2 ^ 31 /\ 0 <= numThreads_ (threadPool_ s) < 2 ^ 31;
  v_fresh : server_started_ s = 0 -> started_ (threadPool_ s) = false /\ loops_ (threadPool_ s) = [] /\
            conns s = [] /\ listening_ s = false /\ next_ (threadPool_ s) = 0;
  v_listen : listening_ s = true -> started_ (threadPool_ s) = true;
  v_conn : forall i c, conns s !! i = Some c ->
    c_name c = conn_name name_ ipPort_ (1 + Z.of_nat i) /\ c_loop c = loop_for (threadPool_ s) i /\ phase_ok i c s;
  v_map : forall nm i, connections_ s !! nm = Some i <->
    exists c, conns s !! i = Some c /\ c_name c = nm /\ held (c_phase c) = true;
  v_tasks : forall l t, (l, t) ∈ queue s -> exists i, task_conn t = Some i /\ (i < length (conns s))%nat;
  v_trace : forall i l e, (i, l, e) ∈ trace s -> (i < length (conns s))%nat
}.
Lemma waiting_app i q1 q2 : waiting i (q1 ++ q2) = waiting i q1 ++ waiting i q2.
Proof. apply filter_app. Qed.

Lemma waiting_cons i l t q :
  waiting i ((l, t) :: q) = if decide (task_conn t = Some i) then (l, t) :: waiting i q else waiting i q.
Proof. unfold waiting. by rewrite filter_cons. Qed.

Lemma waiting_one_ne i j l t : task_conn t = Some i -> j <> i -> waiting j [(l, t)] = [].
Proof. intros Ht Hj. rewrite waiting_cons. case_decide; [congruence|done]. Qed.

Lemma waiting_one i l t : task_conn t = Some i -> waiting i [(l, t)] = [(l, t)].
Proof. intros Ht. rewrite waiting_cons. by case_decide. Qed.

Lemma history_app i t1 t2 : history i (t1 ++ t2) = history i t1 ++ history i t2.
Proof. unfold history. by rewrite filter_app, fmap_app. Qed.

Lemma history_one i l e : history i [(i, l, e)] = [(l, e)].
Proof. unfold history. rewrite filter_cons. cbn. by destruct (decide (i = i)). Qed.

Lemma history_one_ne i j l e : j <> i -> history j [(i, l, e)] = [].
Proof. intros H. unfold history. rewrite filter_cons. cbn. destruct (decide (i = j)); [congruence|done]. Qed.

(** Taking a functor out of the queue. *)
Lemma waiting_take k q l t i :
  q !! k = Some (l, t) -> task_conn t = Some i ->
  (forall j, j <> i -> waiting j (take k q ++ drop (S k) q) = waiting j q) /\
  (l, t) ∈ waiting i q /\
  forall x, waiting i q = [x] -> x = (l, t) /\ waiting i (take k q ++ drop (S k) q) = [].
Proof.
  intros Hk Ht. pose proof (take_drop_middle q k (l, t) Hk) as Hq.
  assert (Hw : waiting i q = waiting i (take k q) ++ (l, t) :: waiting i (drop (S k) q)).
  { rewrite <- Hq at 1. rewrite waiting_app, waiting_cons. by case_decide. }
  split_and!.
  - intros j Hj. rewrite <- Hq at 3. rewrite !waiting_app, waiting_cons. case_decide; [congruence|done].
  - rewrite Hw. apply elem_of_app. right. by left.
  - intros x Hx. rewrite Hx in Hw. rewrite waiting_app. destruct (waiting i (take k q)) as [|y w]; cbn in Hw |- *.
    + by injection Hw as <- <-.
    + injection Hw as _ Hw. by destruct w.
Qed.

(** A step that moves connection [i] to phase [ph] and touches nothing else. *)
Record conn_step (i : nat) (c : conn) (ph : phase) (s s' : TcpServer) : Prop := {
  cs_pool : threadPool_ s' = threadPool_ s;
  cs_ids : nextConnId_ s' = nextConnId_ s /\ server_started_ s' = server_started_ s /\ listening_ s' = listening_ s;
  cs_conns : conns s' = <[i := mkConn (c_name c) (c_loop c) ph]> (conns s);
  cs_phase : phase_ok i (mkConn (c_name c) (c_loop c) ph) s';
  cs_others : forall j, j <> i -> waiting j (queue s') = waiting j (queue s) /\ history j (trace s') = history j (trace s);
  cs_map : connections_ s' = if held ph then connections_ s else delete (c_name c) (connections_ s);
  cs_held : held ph = true -> held (c_phase c) = true;
  cs_tasks : forall l t, (l, t) ∈ queue s' -> (l, t) ∈ queue s \/ task_conn t = Some i;
  cs_trace : forall j l e, (j, l, e) ∈ trace s' -> (j, l, e) ∈ trace s \/ j = i
}.

Lemma phase_ok_other j d s s' :
  phase_ok j d s -> waiting j (queue s') = waiting j (queue s) -> history j (trace s') = history j (trace s) ->
  phase_ok j d s'.
Proof. unfold phase_ok. intros H -> ->. done. Qed.

Lemma names_differ s i j c d :
  server_inv s -> conns s !! i = Some c -> conns s !! j = Some d -> c_name c = c_name d -> i = j.
Proof using Hip.
  intros Hv Hi Hj E. destruct (v_conn _ Hv i c Hi) as (Hn1 & _), (v_conn _ Hv j d Hj) as (Hn2 & _).
  rewrite Hn1, Hn2 in E. pose proof (v_next _ Hv) as Hx. pose proof (v_bound _ Hv). unfold zlen in Hx.
  apply lookup_lt_Some in Hi, Hj. apply (conn_name_inj name_ ipPort_ Hip) in E; lia.
Qed.

Lemma conn_step_inv i c ph s s' :
  server_inv s -> conns s !! i = Some c -> conn_step i c ph s s' -> server_inv s'.
Proof using Hip.
  intros Hv Hi [Hpool (Hid & Hst & Hls) Hcs Hph Hoth Hmap Hheld Htasks Htrace].
  assert (Hlen : length (conns s') = length (conns s)) by (rewrite Hcs; apply length_insert).
  assert (Hlt : (i < length (conns s))%nat) by by eapply lookup_lt_Some.
  assert (Hnz : server_started_ s <> 0).
  { intros Hz. destruct (v_fresh _ Hv Hz) as (_ & _ & Hc & _). by rewrite Hc in Hi. }
  split; unfold base, zlen; rewrite ?Hpool, ?Hlen, ?Hid, ?Hst, ?Hls; try apply Hv.
  - done.
  - intros j d Hj. rewrite Hcs in Hj. destruct (decide (j = i)) as [->|Hne].
    + rewrite list_lookup_insert_eq in Hj by done. injection Hj as <-.
      destruct (v_conn _ Hv i c Hi) as (H1 & H2 & _). by split_and!.
    + rewrite list_lookup_insert_ne in Hj by done. destruct (v_conn _ Hv j d Hj) as (H1 & H2 & H3).
      destruct (Hoth j Hne). split_and!; [done..|]. by eapply phase_ok_other.
  - intros nm j. rewrite Hmap, Hcs. destruct (held ph) eqn:Eh.
    + rewrite (v_map _ Hv). split.
      * intros (d & Hj & Hn & Hh). destruct (decide (j = i)) as [->|Hne].
        -- rewrite list_lookup_insert_eq by done. eexists. split; [done|]. split; [cbn; congruence|done].
        -- rewrite list_lookup_insert_ne by done. eauto.
      * intros (d & Hj & Hn & Hh). destruct (decide (j = i)) as [->|Hne].
        -- rewrite list_lookup_insert_eq in Hj by done. injection Hj as <-. eauto.
        -- rewrite list_lookup_insert_ne in Hj by done. eauto.
    + rewrite lookup_delete_Some, (v_map _ Hv). split.
      * intros (Hnm & d & Hj & Hn & Hh). exists d. split; [|done]. rewrite list_lookup_insert_ne; [done|].
        intros <-. rewrite Hi in Hj. injection Hj as <-. done.
      * intros (d & Hj & Hn & Hh). destruct (decide (j = i)) as [->|Hne].
        -- rewrite list_lookup_insert_eq in Hj by done. injection Hj as <-. cbn in Hh. by rewrite Eh in Hh.
        -- rewrite list_lookup_insert_ne in Hj by done. split; [|eauto]. intros Hnm. apply Hne.
           eapply names_differ; [done|exact Hj|exact Hi|congruence].
  - intros l t Hin. destruct (Htasks l t Hin) as [Hq|Ht]; [by apply (v_tasks _ Hv) in Hq|by exists i].
  - intros j l e Hin. destruct (Htrace j l e Hin) as [Hq| ->]; [by apply (v_trace _ Hv) in Hq|done].
Qed.
Lemma alter_as_insert {A} (f : A -> A) i (l : list A) x : l !! i = Some x -> alter f i l = <[i := f x]> l.
Proof. revert i. induction l as [|y l IH]; intros [|i] H; cbn in *; [done|done|by injection H as ->|]. f_equal. by apply IH. Qed.

(** The phase a waiting functor of connection [i] implies. *)
Lemma waiting_phase s k l t i :
  server_inv s -> queue s !! k = Some (l, t) -> task_conn t = Some i ->
  exists c, conns s !! i = Some c /\ phase_ok i c s /\
    waiting i (take k (queue s) ++ drop (S k) (queue s)) = [] /\
    match t with
    | TEstablish _ => c_phase c = PQueued /\ l = c_loop c
    | TRemove _ => c_phase c = PClosing /\ l = base_loop
    | TDestroy _ => c_phase c = PRemoved /\ l = c_loop c
    | TListen => False
    end.
Proof.
  intros Hv Hk Ht. destruct (v_tasks _ Hv l t) as (i' & Hi' & Hlt); [by eapply list_elem_of_lookup_2|].
  assert (i' = i) as -> by congruence. destruct (lookup_lt_is_Some_2 _ _ Hlt) as [c Hc].
  exists c. destruct (v_conn _ Hv i c Hc) as (_ & _ & Hph). split; [done|]. split; [done|].
  destruct (waiting_take k (queue s) l t i Hk Ht) as (_ & Hin & Hone).
  unfold phase_ok in Hph. destruct (c_phase c); destruct Hph as [Hw _].
  all: try (rewrite Hw in Hin; by apply elem_of_nil in Hin).
  all: destruct (Hone _ Hw) as [[= <- <-] Hnil]; by split.
Qed.

Lemma run_inv s k l t :
  server_inv s -> queue s !! k = Some (l, t) ->
  exists s', exec l t (set_queue (take k (queue s) ++ drop (S k) (queue s)) s) = Ok s' /\ server_inv s'.
Proof using Hip.
  intros Hv Hk. destruct (v_tasks _ Hv l t) as (i & Hi & _); [by eapply list_elem_of_lookup_2|].
  destruct (waiting_phase s k l t i Hv Hk Hi) as (c & Hc & Hph & Hnil & Ht).
  destruct (waiting_take k (queue s) l t i Hk Hi) as (Hoth & _ & _).
  assert (Hsub : forall l' t', (l', t') ∈ take k (queue s) ++ drop (S k) (queue s) -> (l', t') ∈ queue s).
  { intros l' t'. rewrite <- (take_drop_middle (queue s) k _ Hk) at 3. rewrite !elem_of_app, elem_of_cons. tauto. }
  destruct t as [|j|j|j]; cbn in Hi; [done|injection Hi as ->..]; destruct Ht as [Hp ->]; cbn [exec].
  - eexists. split; [reflexivity|]. apply (conn_step_inv i c PUp s); [done..|].
    unfold phase_ok in Hph. rewrite Hp in Hph. destruct Hph as [Hw Hh].
    split; cbn; [done|done|exact (alter_as_insert _ _ _ _ Hc)| |intros j Hj|done|by rewrite Hp| |].
    + unfold phase_ok. cbn. by rewrite history_app, Hh, history_one.
    + by rewrite Hoth, history_app, history_one_ne, app_nil_r by done.
    + intros l' t' Hin. left. by apply Hsub.
    + intros j l' e. rewrite elem_of_app, list_elem_of_singleton. intros [?|[= -> _ _]]; auto.
  - unfold removeConnectionInLoop. cbn [conns set_queue]. rewrite Hc. cbn [get mbind res_bind connections_ set_queue].
    assert (Hm : connections_ s !! c_name c = Some i).
    { apply (v_map _ Hv). exists c. by rewrite Hp. }
    rewrite Hm, bool_decide_true by done. cbn [Z.eqb check mbind res_bind].
    eexists. split; [reflexivity|]. apply (conn_step_inv i c PRemoved s); [done..|].
    unfold phase_ok in Hph. rewrite Hp in Hph. destruct Hph as [Hw Hh].
    split; cbn; [done|done|exact (alter_as_insert _ _ _ _ Hc)| |intros j Hj|done|done| |auto].
    + unfold phase_ok. cbn. by rewrite waiting_app, Hnil, waiting_one.
    + by rewrite waiting_app, (waiting_one_ne i), app_nil_r, Hoth.
    + intros l' t'. rewrite elem_of_app, list_elem_of_singleton. intros [?|[= -> ->]]; [left; by apply Hsub|by right].
  - eexists. split; [reflexivity|]. apply (conn_step_inv i c PGone s); [done..|].
    unfold phase_ok in Hph. rewrite Hp in Hph. destruct Hph as [Hw Hh].
    split; cbn; [done|done|exact (alter_as_insert _ _ _ _ Hc)| |intros j Hj| |done| |].
    + unfold phase_ok. cbn. by rewrite history_app, Hh, history_one.
    + by rewrite Hoth, history_app, history_one_ne, app_nil_r by done.
    + symmetry. apply delete_id. destruct (connections_ s !! c_name c) as [j|] eqn:E; [|done]. exfalso.
      apply (v_map _ Hv) in E as (d & Hj & Hn & Hd). assert (j = i) as -> by (eapply names_differ; eauto; congruence).
      rewrite Hc in Hj. injection Hj as <-. by rewrite Hp in Hd.
    + intros l' t' Hin. left. by apply Hsub.
    + intros j l' e. rewrite elem_of_app, list_elem_of_singleton. intros [?|[= -> _ _]]; auto.
Qed.
Lemma server_close_inv s i c :
  server_inv s -> conns s !! i = Some c -> c_phase c = PUp ->
  exists s', removeConnection i s = Ok s' /\ server_inv s'.
Proof using Hip.
  intros Hv Hc Hp. destruct (v_conn _ Hv i c Hc) as (_ & _ & Hph). unfold phase_ok in Hph. rewrite Hp in Hph.
  destruct Hph as [Hw Hh]. unfold removeConnection, runInLoop. rewrite Hc. cbn [get mbind res_bind].
  change (base (set_phase i PClosing s)) with (base s). rewrite (v_base _ Hv).
  case_bool_decide as Hb.
  - cbn [exec]. unfold removeConnectionInLoop. cbn [conns set_phase]. rewrite (alter_as_insert _ _ _ _ Hc).
    rewrite list_lookup_insert_eq by (by eapply lookup_lt_Some). cbn [get mbind res_bind connections_ set_phase c_name c_loop].
    assert (Hm : connections_ s !! c_name c = Some i) by (apply (v_map _ Hv); exists c; by rewrite Hp).
    rewrite Hm, bool_decide_true by done. cbn [Z.eqb check mbind res_bind].
    eexists. split; [reflexivity|]. apply (conn_step_inv i c PRemoved s); [done..|].
    split; cbn; [done|done| | |intros j Hj|done|done| |auto].
    + rewrite (alter_as_insert _ _ _ _ Hc). rewrite (alter_as_insert _ _ _ (mkConn (c_name c) (c_loop c) PClosing)).
      * cbn. by rewrite list_insert_insert_eq.
      * by rewrite list_lookup_insert_eq by (by eapply lookup_lt_Some).
    + unfold phase_ok. cbn. by rewrite waiting_app, Hw, waiting_one.
    + by rewrite waiting_app, (waiting_one_ne i), app_nil_r.
    + intros l' t'. rewrite elem_of_app, list_elem_of_singleton. intros [?|[= -> ->]]; auto.
  - eexists. split; [reflexivity|]. apply (conn_step_inv i c PClosing s); [done..|].
    split; cbn; [done|done|exact (alter_as_insert _ _ _ _ Hc)| |intros j Hj|done|by rewrite Hp| |auto].
    + unfold phase_ok. cbn. by rewrite waiting_app, Hw, waiting_one.
    + by rewrite waiting_app, (waiting_one_ne i), app_nil_r.
    + intros l' t'. rewrite elem_of_app, list_elem_of_singleton. intros [?|[= -> ->]]; auto.
Qed.

(** Round robin: the next loop, and the position after it. *)
Lemma getNextLoop_ok s :
  server_inv s -> started_ (threadPool_ s) = true ->
  exists p, getNextLoop (threadPool_ s) = Ok (loop_for (threadPool_ s) (length (conns s)), p) /\
    baseLoop_ p = baseLoop_ (threadPool_ s) /\ started_ p = true /\ numThreads_ p = numThreads_ (threadPool_ s) /\
    loops_ p = loops_ (threadPool_ s) /\ 0 <= next_ p /\
    (loops_ p <> [] -> Z.to_nat (next_ p) = (S (length (conns s)) mod length (loops_ p))%nat).
Proof.
  intros Hv Hst. destruct (v_pool _ Hv) as [H0 Hn]. destruct (v_size _ Hv) as [Hz _].
  unfold getNextLoop, loop_for. rewrite Hst. cbn [check mbind res_bind].
  destruct (loops_ (threadPool_ s)) as [|l ls] eqn:El; [eexists; split; [reflexivity|]; by rewrite El|].
  rewrite <- El in *. assert (Hne : loops_ (threadPool_ s) <> []) by by rewrite El.
  specialize (Hn Hne). set (n := length (conns s)) in *. set (ln := length (loops_ (threadPool_ s))) in *.
  assert (Hln : (0 < ln)%nat) by (unfold ln; rewrite El; cbn; lia).
  assert (Hlt : (n mod ln < ln)%nat) by (apply Nat.mod_upper_bound; lia).
  destruct (lookup_lt_is_Some_2 (loops_ (threadPool_ s)) (n mod ln)) as [lp Hlp]; [done|].
  rewrite Hn, Hlp. cbn [get mbind res_bind default]. eexists. split; [reflexivity|]. cbn.
  split_and!; [done..| |].
  - case_match; lia.
  - intros _. unfold zlen in *. fold ln in Hz |- *. rewrite uint_small by lia.
    assert (Hmod : (S n mod ln)%nat = if Nat.eqb (S (n mod ln)) ln then 0%nat else S (n mod ln)).
    { replace (S n) with (1 + n)%nat by lia.
      pose proof (Nat.div_mod_eq n ln) as Hdm. destruct (Nat.eqb_spec (S (n mod ln)) ln) as [E|E].
      - replace (1 + n)%nat with ((n / ln + 1) * ln)%nat by nia. apply Nat.Div0.mod_mul.
      - symmetry. apply (Nat.mod_unique _ _ (n / ln)); lia. }
    rewrite Hmod. destruct (Nat.eqb_spec (S (n mod ln)) ln) as [E|E]; case_match; lia.
Qed.
Lemma loop_for_eq p p' i : loops_ p' = loops_ p -> baseLoop_ p' = baseLoop_ p -> loop_for p' i = loop_for p i.
Proof. unfold loop_for. by intros -> ->. Qed.

(** A step that adds a connection. *)
Lemma add_inv s p ph s' :
  let nm := conn_name name_ ipPort_ (nextConnId_ s) in
  let i := length (conns s) in
  server_inv s -> server_started_ s <> 0 -> started_ (threadPool_ s) = true -> nextConnId_ s < 2 ^ 31 - 1 ->
  baseLoop_ p = baseLoop_ (threadPool_ s) -> started_ p = true -> numThreads_ p = numThreads_ (threadPool_ s) ->
  loops_ p = loops_ (threadPool_ s) -> 0 <= next_ p ->
  (loops_ p <> [] -> Z.to_nat (next_ p) = (S (length (conns s)) mod length (loops_ p))%nat) ->
  held ph = true -> threadPool_ s' = p -> nextConnId_ s' = nextConnId_ s + 1 ->
  server_started_ s' = server_started_ s -> listening_ s' = listening_ s ->
  connections_ s' = <[nm := i]> (connections_ s) ->
  conns s' = conns s ++ [mkConn nm (loop_for (threadPool_ s) i) ph] ->
  phase_ok i (mkConn nm (loop_for (threadPool_ s) i) ph) s' ->
  (forall j, j <> i -> waiting j (queue s') = waiting j (queue s) /\ history j (trace s') = history j (trace s)) ->
  (forall l t, (l, t) ∈ queue s' -> (l, t) ∈ queue s \/ task_conn t = Some i) ->
  (forall j l e, (j, l, e) ∈ trace s' -> (j, l, e) ∈ trace s \/ j = i) ->
  server_inv s'.
Proof using Hip.
  intros nm i Hv Hnz Hst Hb Hpb Hps Hpn Hpl Hp0 Hpm Hh Hp' Hid' Hst' Hls' Hmap Hcs Hph Hoth Htasks Htrace.
  pose proof (v_next _ Hv) as Hnx. assert (Hlen : length (conns s') = S i) by (rewrite Hcs, length_app; cbn; lia).
  pose proof (v_base _ Hv) as Hbase. unfold base in Hbase.
  assert (Hnew : forall j d, conns s !! j = Some d -> c_name d <> nm).
  { intros j d Hj E. destruct (v_conn _ Hv j d Hj) as (Hn & _). apply lookup_lt_Some in Hj.
    rewrite Hn in E. unfold zlen in Hnx. apply (conn_name_inj name_ ipPort_ Hip) in E; lia. }
  split; unfold base, zlen; rewrite ?Hp', ?Hid', ?Hst', ?Hls', ?Hlen; try lia.
  - unfold zlen in Hnx. lia.
  - done.
  - rewrite Hpl, Hpn. apply Hv.
  - intros _. done.
  - intros j d. rewrite Hcs, lookup_app_Some. intros [Hj|[Hge Hj]].
    + destruct (v_conn _ Hv j d Hj) as (H1 & H2 & H3). apply lookup_lt_Some in Hj.
      destruct (Hoth j) as [Hw Hhi]; [unfold i; lia|]. split_and!; [done| |by eapply phase_ok_other].
      rewrite H2. symmetry. by apply loop_for_eq.
    + destruct (j - length (conns s))%nat eqn:Ej; [|done]. injection Hj as <-. assert (j = i) as -> by (unfold i; lia).
      cbn. split_and!; [unfold nm; f_equal; rewrite Hnx; unfold zlen, i; done| |done]. symmetry. by apply loop_for_eq.
  - intros x j. rewrite Hmap, lookup_insert_Some, (v_map _ Hv), Hcs. split.
    + intros [[<- <-]|[Hne (d & Hj & Hn & Hd)]].
      * exists (mkConn nm (loop_for (threadPool_ s) i) ph). by rewrite lookup_app_r, Nat.sub_diag by done.
      * exists d. by rewrite lookup_app_l by (by eapply lookup_lt_Some).
    + intros (d & Hj & Hn & Hd). apply lookup_app_Some in Hj as [Hj|[Hge Hj]].
      * right. split; [|eauto]. intros <-. by eapply Hnew.
      * destruct (j - length (conns s))%nat eqn:Ej; [|done]. injection Hj as <-. left. split; [done|unfold i; lia].
  - intros l t Hin. destruct (Htasks l t Hin) as [Hq|Ht]; [|exists i; split; [done|lia]].
    apply (v_tasks _ Hv) in Hq as (j & ? & ?). exists j. split; [done|unfold i; lia].
  - intros j l e Hin. destruct (Htrace j l e Hin) as [Hq| ->]; [|lia].
    apply (v_trace _ Hv) in Hq. unfold i. lia.
Qed.

(** A connection that does not exist yet has no functors and no history. *)
Lemma unborn s j :
  server_inv s -> (length (conns s) <= j)%nat -> waiting j (queue s) = [] /\ history j (trace s) = [].
Proof.
  intros Hv Hj. split.
  - apply filter_none. intros [l t] Hin Ht. destruct (v_tasks _ Hv l t Hin) as (i & Hi & Hlt). cbn in Ht.
    assert (i = j) by congruence. lia.
  - unfold history. rewrite filter_none; [done|]. intros [[i l] e] Hin. cbn. intros ->.
    apply (v_trace _ Hv) in Hin. lia.
Qed.

Lemma accept_inv s :
  server_inv s -> listening_ s = true -> nextConnId_ s < 2 ^ 31 - 1 ->
  exists s', newConnection name_ ipPort_ s = Ok s' /\ server_inv s'.
Proof using Hip.
  intros Hv Hl Hb. pose proof (v_listen _ Hv Hl) as Hst.
  assert (Hnz : server_started_ s <> 0).
  { intros Hz. destruct (v_fresh _ Hv Hz) as (_ & _ & _ & E & _). congruence. }
  destruct (getNextLoop_ok s Hv Hst) as (p & E & Hpb & Hps & Hpn & Hpl & Hp0 & Hpm).
  unfold newConnection. rewrite E. cbn [mbind res_bind nextConnId_ set_pool conns].
  set (i := length (conns s)) in *.
  destruct (unborn s i Hv ltac:(done)) as [Hw Hh].
  unfold runInLoop. case_bool_decide as Hbl; cbn [exec].
  - eexists. split; [reflexivity|]. eapply (add_inv s p PUp); try done; cbn.
    + rewrite (alter_as_insert _ _ _ (mkConn (conn_name name_ ipPort_ (nextConnId_ s)) (loop_for (threadPool_ s) i) PQueued)).
      * cbn. unfold i. rewrite insert_app_r_alt, Nat.sub_diag by done. done.
      * unfold i. by rewrite lookup_app_r, Nat.sub_diag by done.
    + unfold phase_ok. cbn. fold i. by rewrite Hw, history_app, Hh, history_one.
    + intros j Hj. split; [done|]. by rewrite history_app, history_one_ne, app_nil_r.
    + auto.
    + intros j l e. rewrite elem_of_app, list_elem_of_singleton. intros [?|[= -> _ _]]; auto.
  - eexists. split; [reflexivity|]. eapply (add_inv s p PQueued); try done; cbn.
    + unfold phase_ok. cbn. fold i. by rewrite waiting_app, Hw, waiting_one, Hh.
    + intros j Hj. split; [|done]. by rewrite waiting_app, (waiting_one_ne i), app_nil_r.
    + intros l t. rewrite elem_of_app, list_elem_of_singleton. intros [?|[= -> ->]]; auto.
    + auto.
Qed.
Lemma newTcpServer_inv : server_inv (newTcpServer base_loop).
Proof.
  split; try done; cbn.
  - intros nm i. rewrite lookup_empty. split; [done|]. intros (c & Hc & _). by rewrite lookup_nil in Hc.
  - intros l t Hin. by apply elem_of_nil in Hin.
  - intros i l e Hin. by apply elem_of_nil in Hin.
Qed.

Lemma setThreadNum_inv n s :
  server_inv s -> 0 <= n < 2 ^ 31 -> server_started_ s = 0 -> exists s', setThreadNum n s = Ok s' /\ server_inv s'.
Proof.
  intros Hv Hn Hz. unfold setThreadNum. replace (0 <=? n) with true by lia. cbn [check mbind res_bind].
  eexists. split; [reflexivity|]. destruct Hv as [H1 H2 H3 H4 H5 H6 H7 H8 H9 H10 H11].
  destruct (H6 Hz) as (Hs & Hl & Hc & Hli & Hnx). split; cbn; try done.
  - split; [apply H5|done].
Qed.

Lemma start_inv fresh_loop s : server_inv s -> exists s', start fresh_loop (base s) s = Ok s' /\ server_inv s'.
Proof.
  intros Hv. unfold start. destruct (server_started_ s =? 0) eqn:Hz; cycle 1.
  { eexists. split; [reflexivity|]. destruct Hv. split; cbn; try done. }
  apply Z.eqb_eq in Hz. destruct Hv as [H1 H2 H3 H4 H5 H6 H7 H8 H9 H10 H11].
  destruct (H6 Hz) as (Hs & Hl & Hc & Hli & Hnx). unfold pool_start. cbn [threadPool_ set_started].
  rewrite Hs. cbn [negb check mbind res_bind listening_ set_pool set_started]. rewrite Hli. cbn [negb check mbind res_bind].
  unfold runInLoop. change (base (set_pool _ (set_started 1 s))) with (base s). rewrite bool_decide_true by done.
  cbn [exec]. eexists. split; [reflexivity|]. split; cbn; try done.
  - rewrite Hnx, Hc. split; [done|]. intros _. by rewrite Nat.Div0.mod_0_l.
  - rewrite Hl. cbn [app]. unfold zlen. rewrite length_fmap, length_seq. lia.
  - intros i c Hi. by rewrite Hc, lookup_nil in Hi.
Qed.

Section Runs.
Context (fresh_loop : nat -> ptr).

Lemma server_perform_ok a s :
  server_inv s -> enabled a s = true ->
  exists s', perform fresh_loop name_ ipPort_ a s = Ok s' /\ server_inv s'.
Proof using Hip.
  intros Hv Hen. destruct a as [n| | |k|i]; cbn [perform enabled] in *.
  - apply setThreadNum_inv; [done|lia..].
  - by apply start_inv.
  - apply andb_true_iff in Hen as [Hl Hn]. apply accept_inv; [done..|lia].
  - destruct (queue s !! k) as [[l t]|] eqn:Ek; [|done]. by apply run_inv.
  - destruct (conns s !! i) as [c|] eqn:Ec; [|done]. apply bool_decide_eq_true in Hen. by eapply server_close_inv.
Qed.

Lemma server_reachable_inv s : reachable fresh_loop name_ ipPort_ base_loop s -> server_inv s.
Proof using Hip.
  induction 1 as [|a s s' _ IH Hen Hp]; [apply newTcpServer_inv|].
  destruct (server_perform_ok a s IH Hen) as (s2 & E & ?). congruence.
Qed.

(** [C21] No run of a server fails an assertion, in whatever order the loops run their
    functors: names of connections are distinct, so connections_ never loses one, and the
    assertion in removeConnectionInLoop that exactly one is erased holds.  connections_
    holds exactly the connections made and not yet removed. *)
Theorem server_safe s :
  reachable fresh_loop name_ ipPort_ base_loop s ->
  (forall i j c d, conns s !! i = Some c -> conns s !! j = Some d -> c_name c = c_name d -> i = j) /\
  (forall nm i, connections_ s !! nm = Some i <->
     exists c, conns s !! i = Some c /\ c_name c = nm /\ c_phase c ∈ [PQueued; PUp; PClosing]) /\
  (forall a, enabled a s = true -> exists s', perform fresh_loop name_ ipPort_ a s = Ok s' /\
     reachable fresh_loop name_ ipPort_ base_loop s').
Proof using Hip.
  intros Hr. pose proof (server_reachable_inv s Hr) as Hv. split_and!.
  - intros i j c d. by apply names_differ.
  - intros nm i. rewrite (v_map _ Hv). split; intros (c & Hc & Hn & Hh); exists c; split_and!; try done.
    + destruct (c_phase c); [by apply (bool_decide_unpack _)..|done|done].
    + revert Hh. rewrite !elem_of_cons, elem_of_nil. by intros [->|[->|[->|[]]]].
  - intros a Hen. destruct (server_perform_ok a s Hv Hen) as (s' & E & _). exists s'. split; [done|]. by eapply ReachStep.
Qed.

(** [C25] Every connection belongs to one loop, chosen round robin among the pool's loops
    (the base loop when there are none): connectEstablished runs exactly once and before
    connectDestroyed, which runs at most once, and both run in that loop. *)
Theorem connection_in_one_loop s i c :
  reachable fresh_loop name_ ipPort_ base_loop s -> conns s !! i = Some c ->
  c_loop c = (match loops_ (threadPool_ s) with
              | [] => base_loop
              | l => default base_loop (l !! (i mod length l)%nat)
              end) /\
  (history i (trace s) = [] \/ history i (trace s) = [(c_loop c, Established)] \/
   history i (trace s) = [(c_loop c, Established); (c_loop c, Destroyed)]).
Proof using Hip.
  intros Hr Hc. pose proof (server_reachable_inv s Hr) as Hv. destruct (v_conn _ Hv i c Hc) as (_ & Hl & Hph).
  pose proof (v_base _ Hv) as Hb. unfold base in Hb. split.
  - rewrite Hl. unfold loop_for. by rewrite Hb.
  - unfold phase_ok in Hph. destruct (c_phase c); destruct Hph as [_ ->]; auto.
Qed.

(** ** The destructor *)

(** What has happened and what waits to happen to connection [i], in order. *)
Definition to_come (x : ptr * task) : ptr * cevent := (x.1, match x.2 with TEstablish _ => Established | _ => Destroyed end).
Definition course (i : nat) (s : TcpServer) : list (ptr * cevent) := history i (trace s) ++ (to_come <$> waiting i (queue s)).

(** A connection waits for its establishment only in another loop than the base loop. *)
Definition queued_elsewhere (s : TcpServer) : Prop :=
  forall i c, conns s !! i = Some c -> c_phase c = PQueued -> c_loop c <> base s.

Lemma set_phase_elsewhere i ph s : queued_elsewhere s -> ph <> PQueued -> queued_elsewhere (set_phase i ph s).
Proof.
  intros Hq Hph j c. cbn. intros Hj Hc. destruct (decide (j = i)) as [->|Hne].
  - rewrite list_lookup_alter_eq in Hj. destruct (conns s !! i); [|done]. injection Hj as <-. by cbn in Hc.
  - rewrite list_lookup_alter_ne in Hj by done. by apply (Hq j c).
Qed.

Lemma exec_elsewhere l t s s' : queued_elsewhere s -> exec l t s = Ok s' -> queued_elsewhere s'.
Proof.
  intros Hq. destruct t as [|i|i|i]; cbn [exec].
  - by intros [= <-].
  - intros [= <-]. by apply set_phase_elsewhere.
  - unfold removeConnectionInLoop. destruct (conns s !! i) as [c|]; [|done]. cbn [get mbind res_bind].
    destruct (check _); [|done]. cbn [mbind res_bind]. intros [= <-]. by apply set_phase_elsewhere.
  - intros [= <-]. by apply set_phase_elsewhere.
Qed.

Lemma runInLoop_elsewhere cur l t s s' : queued_elsewhere s -> runInLoop cur l t s = Ok s' -> queued_elsewhere s'.
Proof. intros Hq. unfold runInLoop. case_bool_decide; [by apply exec_elsewhere|by intros [= <-]]. Qed.

Lemma accept_elsewhere s s' : queued_elsewhere s -> newConnection name_ ipPort_ s = Ok s' -> queued_elsewhere s'.
Proof.
  intros Hq. unfold newConnection. destruct (getNextLoop (threadPool_ s)) as [[l p]|] eqn:E; [|done]. cbn [mbind res_bind].
  assert (Hb : baseLoop_ p = base s).
  { unfold getNextLoop in E. destruct (check _); [|done]. cbn [mbind res_bind] in E. destruct (loops_ _); [by injection E as _ <-|].
    destruct (get _); [|done]. cbn [mbind res_bind] in E. by injection E as _ <-. }
  intros E'. intros j c Hj Hp. revert E' Hj. unfold runInLoop. case_bool_decide as Hl; intros [= <-]; cbn [exec conns set_phase log queueInLoop set_queue set_connections add_conn set_pool].
  - destruct (decide (j = length (conns s))) as [->|Hne].
    + rewrite list_lookup_alter_eq, lookup_app_r, Nat.sub_diag by done. intros [= <-]. by cbn in Hp.
    + rewrite list_lookup_alter_ne by done. intros [Hj|[Hge Hj]]%lookup_app_Some.
      * unfold base. cbn. rewrite Hb. by apply (Hq j c).
      * apply list_lookup_singleton_Some in Hj as [? _]. lia.
  - intros [Hj|[Hge Hj]]%lookup_app_Some.
    + unfold base. cbn. rewrite Hb. by apply (Hq j c).
    + apply list_lookup_singleton_Some in Hj as [_ <-]. unfold base in *. cbn in *. congruence.
Qed.

Lemma reachable_elsewhere s : reachable fresh_loop name_ ipPort_ base_loop s -> queued_elsewhere s.
Proof.
  induction 1 as [|a s s' _ IH _ Hp]; [by intros i c Hi; cbn in Hi; rewrite lookup_nil in Hi|].
  destruct a as [n| | |k|i]; cbn [perform] in Hp.
  - unfold setThreadNum in Hp. destruct (check _); [|done]. cbn [mbind res_bind] in Hp. by injection Hp as <-.
  - unfold start in Hp. destruct (server_started_ s =? 0); [|by injection Hp as <-].
    unfold pool_start in Hp. destruct (negb (started_ _)); cbn [check mbind res_bind] in Hp; [|done].
    destruct (negb (listening_ _)); cbn [check mbind res_bind] in Hp; [|done]. by eapply runInLoop_elsewhere; [|exact Hp].
  - by eapply accept_elsewhere.
  - destruct (queue s !! k) as [[l t]|]; [|by injection Hp as <-]. by eapply exec_elsewhere; [|exact Hp].
  - unfold removeConnection in Hp. destruct (conns s !! i) as [c|]; [|done]. cbn [get mbind res_bind] in Hp.
    eapply runInLoop_elsewhere; [|exact Hp]. by apply set_phase_elsewhere.
Qed.

Lemma destroy_connection_ok i c s :
  conns s !! i = Some c -> (c_loop c = base s -> waiting i (queue s) = []) ->
  exists s', destroy_connection i s = Ok s' /\ base s' = base s /\
    course i s' = course i s ++ [(c_loop c, Destroyed)] /\
    (forall j, j <> i -> waiting j (queue s') = waiting j (queue s) /\ history j (trace s') = history j (trace s)) /\
    (forall j d, conns s !! j = Some d -> exists d', conns s' !! j = Some d' /\ c_loop d' = c_loop d) /\
    (forall l t, (l, t) ∈ queue s' -> (l, t) ∈ queue s \/ exists j, t = TDestroy j).
Proof.
  intros Hc Hw. unfold destroy_connection, runInLoop. rewrite Hc. cbn [get mbind res_bind]. case_bool_decide as Hl; cbn [exec].
  - eexists. split; [done|]. unfold course. cbn. split_and!; [done| | | |auto].
    + rewrite (Hw (eq_sym Hl)), history_app, history_one. cbn. by rewrite !app_nil_r, <- Hl.
    + intros j Hj. by rewrite history_app, history_one_ne, app_nil_r.
    + intros j d Hj. destruct (decide (j = i)) as [->|]; [|rewrite list_lookup_alter_ne by done; eauto].
      rewrite list_lookup_alter_eq, Hj. eauto.
  - eexists. split; [done|]. unfold course. cbn. split_and!; [done| | |eauto|].
    + by rewrite waiting_app, waiting_one, fmap_app, (assoc_L app).
    + intros j Hj. by rewrite waiting_app, (waiting_one_ne i), app_nil_r.
    + intros l t [?|[= _ ->]%list_elem_of_singleton]%elem_of_app; eauto.
Qed.

Lemma destroy_connections_ok l s :
  NoDup l -> (forall i, i ∈ l -> exists c, conns s !! i = Some c /\ (c_loop c = base s -> waiting i (queue s) = [])) ->
  exists s', destroy_connections l s = Ok s' /\
    (forall j c, conns s !! j = Some c -> course j s' = course j s ++ (if decide (j ∈ l) then [(c_loop c, Destroyed)] else [])) /\
    (forall lp t, (lp, t) ∈ queue s' -> (lp, t) ∈ queue s \/ exists j, t = TDestroy j).
Proof.
  revert s. induction l as [|i l IH]; intros s Hnd Hl; cbn [destroy_connections].
  { exists s. split_and!; [done| |auto]. intros j c _. rewrite decide_False by apply not_elem_of_nil. by rewrite app_nil_r. }
  apply NoDup_cons in Hnd as [Hni Hnd]. destruct (Hl i) as (c & Hc & Hw); [left|].
  destruct (destroy_connection_ok i c s Hc Hw) as (s1 & -> & Hb & Hci & Hoth & Hcs & Hq). cbn [mbind res_bind].
  destruct (IH s1 Hnd) as (s2 & -> & Hcourse & Hq2).
  { intros j Hj. destruct (Hl j) as (d & Hd & Hwd); [by right|]. destruct (Hcs j d Hd) as (d' & Hd' & Hld). exists d'. split; [done|].
    destruct (Hoth j) as [-> _]; [by intros ->|]. rewrite Hld, Hb. done. }
  exists s2. split_and!; [done| |].
  - intros j d Hd. destruct (Hcs j d Hd) as (d' & Hd' & Hld). rewrite (Hcourse j d' Hd'), Hld.
    destruct (decide (j = i)) as [->|Hne].
    + rewrite Hci, decide_False, decide_True, app_nil_r by (done || by left). congruence.
    + unfold course. destruct (Hoth j Hne) as [-> ->]. f_equal. apply decide_ext. rewrite elem_of_cons. naive_solver.
  - intros lp t Hin. destruct (Hq2 lp t Hin) as [?%Hq|?]; auto.
Qed.

(** The destructor, when no connection has closed that the server has yet to forget:
    connectDestroyed is run or queued for exactly the connections it holds, after their
    connectEstablished, so that each connection ever made is established and destroyed once,
    in its own loop; and no functor is left that would use the server. *)
Theorem destructor_correct s :
  reachable fresh_loop name_ ipPort_ base_loop s -> (forall i c, conns s !! i = Some c -> c_phase c <> PClosing) ->
  exists s', destroy_server s = Ok s' /\
    (forall i c, conns s !! i = Some c -> course i s' = [(c_loop c, Established); (c_loop c, Destroyed)]) /\
    (forall l t i, (l, t) ∈ queue s' -> t <> TRemove i).
Proof using Hip.
  intros Hr Hnc. pose proof (server_reachable_inv s Hr) as Hv. pose proof (reachable_elsewhere s Hr) as Hq. unfold destroy_server.
  assert (Hheld : forall i, i ∈ (map_to_list (connections_ s)).*2 <-> exists c, conns s !! i = Some c /\ held (c_phase c) = true).
  { intros i. rewrite list_elem_of_fmap. split.
    - intros ([nm j] & -> & Hin%elem_of_map_to_list). apply (v_map _ Hv) in Hin as (c & ? & _ & ?). eauto.
    - intros (c & Hc & Hh). exists (c_name c, i). split; [done|]. apply elem_of_map_to_list, (v_map _ Hv). eauto. }
  destruct (destroy_connections_ok (map_to_list (connections_ s)).*2 s) as (s' & -> & Hcourse & Hqs).
  - apply NoDup_fmap_2_strong; [|apply NoDup_map_to_list].
    intros [n1 i] [n2 j] H1%elem_of_map_to_list H2%elem_of_map_to_list E. cbn in E. subst j. f_equal.
    apply (v_map _ Hv) in H1 as (c & Hc & <- & _), H2 as (d & Hd & <- & _). congruence.
  - intros i (c & Hc & Hh)%Hheld. exists c. split; [done|]. intros Hl. destruct (v_conn _ Hv i c Hc) as (_ & _ & Hph).
    unfold phase_ok in Hph. pose proof (Hnc i c Hc). destruct (c_phase c) eqn:Ep; try done; [|by destruct Hph].
    by destruct (Hq i c Hc Ep).
  - cbn [mbind res_bind]. eexists. split; [done|]. cbn [queue set_connections trace]. split.
    + intros i c Hc. change (course i s' = [(c_loop c, Established); (c_loop c, Destroyed)]). rewrite (Hcourse i c Hc).
      destruct (v_conn _ Hv i c Hc) as (_ & _ & Hph). pose proof (Hnc i c Hc) as Hn. unfold phase_ok in Hph. unfold course.
      destruct (decide _) as [Hin%Hheld|Hin]; [destruct Hin as (d & Hd & Hh); assert (d = c) as -> by congruence|];
        destruct (c_phase c) eqn:Ep; try done; destruct Hph as [-> ->]; try done;
        (destruct Hin; apply Hheld; exists c; by rewrite Ep).
    + intros l t i Hin ->. destruct (Hqs _ _ Hin) as [Hold|(j & [=])]. apply list_elem_of_lookup in Hold as (k & Hk).
      destruct (waiting_phase s k l (TRemove i) i Hv Hk eq_refl) as (c & Hc & _ & _ & Hp & _). by apply (Hnc i c).
Qed.
End Runs.
End Invariant.

(** ** A concrete server *)

Fixpoint server_run (fresh_loop : nat -> ptr) (name ipPort : list char) (l : list action) (s : TcpServer) : option TcpServer :=
  match l with
  | [] => Some s
  | a :: l => if enabled a s then match perform fresh_loop name ipPort a s with
                                  | Ok s' => server_run fresh_loop name ipPort l s'
                                  | Fault _ => None
                                  end
              else None
  end.

Lemma server_run_reachable fresh_loop name ipPort b l s s' :
  reachable fresh_loop name ipPort b s -> server_run fresh_loop name ipPort l s = Some s' ->
  reachable fresh_loop name ipPort b s'.
Proof.
  revert s. induction l as [|a l IH]; intros s Hr; cbn [server_run]; [by intros [= <-]|].
  destruct (enabled a s) eqn:Hen; [|done]. destruct (perform fresh_loop name ipPort a s) as [s1|] eqn:E; [|done].
  apply IH. by eapply ReachStep.
Qed.

(** Two threads, three connections; the first is established and closes. *)
Definition sample_actions : list action :=
  [SSetThreadNum 2; SStart; SAccept; SAccept; SAccept; SRun 0; SClose 0; SRun 2; SRun 1; SRun 1].
Definition sample_loops (i : nat) : ptr := Pos.of_succ_nat (S i).
Definition sample_server : TcpServer :=
  default (newTcpServer 1) (server_run sample_loops (lit "s") (lit "0.0.0.0:80") sample_actions (newTcpServer 1)).

Lemma sample_server_reachable : reachable sample_loops (lit "s") (lit "0.0.0.0:80") 1 sample_server.
Proof.
  apply (server_run_reachable _ _ _ _ sample_actions (newTcpServer 1)); [constructor|].
  vm_compute. reflexivity.
Qed.

Lemma server_safe_witness :
  exists s', perform sample_loops (lit "s") (lit "0.0.0.0:80") SAccept sample_server = Ok s' /\
    reachable sample_loops (lit "s") (lit "0.0.0.0:80") 1 s'.
Proof.
  apply (server_safe (lit "s") (lit "0.0.0.0:80") ltac:(vm_compute; congruence) 1 sample_loops sample_server
           sample_server_reachable).
  vm_compute. reflexivity.
Defined.

Lemma connection_in_one_loop_witness :
  history 0 (trace sample_server) = [] \/ history 0 (trace sample_server) = [(2%positive, Established)] \/
  history 0 (trace sample_server) = [(2%positive, Established); (2%positive, Destroyed)].
Proof.
  apply (connection_in_one_loop (lit "s") (lit "0.0.0.0:80") ltac:(vm_compute; congruence) 1 sample_loops sample_server 0
           (mkConn (lit "s-0.0.0.0:80#1") 2 PGone) sample_server_reachable).
  vm_compute. reflexivity.
Defined.

(** A server with two connections up is destroyed. *)
Definition idle_actions : list action := [SSetThreadNum 2; SStart; SAccept; SAccept; SRun 0; SRun 0].

Example destroyed_server :
  exists s s', server_run sample_loops (lit "s") (lit "0.0.0.0:80") idle_actions (newTcpServer 1) = Some s /\
    destroy_server s = Ok s' /\ course 1 s' = [(3%positive, Established); (3%positive, Destroyed)].
Proof. do 2 eexists. split; [vm_compute; reflexivity|]. split; vm_compute; reflexivity. Qed.

(** When a connection has closed in its loop and the base loop has not run the functor yet, the
    functor outlives the server whose method it is to call. *)
Example closing_outlives_server :
  exists s s', server_run sample_loops (lit "s") (lit "0.0.0.0:80") [SSetThreadNum 1; SStart; SAccept; SRun 0; SClose 0] (newTcpServer 1) = Some s /\
    destroy_server s = Ok s' /\ queue s' = [(1%positive, TRemove 0); (2%positive, TDestroy 0)].
Proof. do 2 eexists. split; [vm_compute; reflexivity|]. split; vm_compute; reflexivity. Qed.
