(* ===== verification/Date.v ===== *)
(** * Dates (src/muduo/base/Date.h, Date.cc)

    Julian day numbers of the Gregorian calendar.  C's integer division truncates towards
    zero ([Z.quot]); [in_int] bounds show that nothing overflows in the range of years
    considered. *)

From S2P Require Import Prelude.

Record YearMonthDay := mkYMD { year : Z; month : Z; day : Z }.

(** [detail::getJulianDayNumber] *)
Definition getJulianDayNumber (year month day : Z) : Z :=
  let a := Z.quot (14 - month) 12 in
  let y := year + 4800 - a in
  let m := month + 12 * a - 3 in
  day + Z.quot (153 * m + 2) 5 + y * 365 + Z.quot y 4 - Z.quot y 100 + Z.quot y 400 - 32045.

(** [detail::getYearMonthDay] *)
Definition getYearMonthDay (julianDayNumber : Z) : YearMonthDay :=
  let a := julianDayNumber + 32044 in
  let b := Z.quot (4 * a + 3) 146097 in
  let c := a - Z.quot (b * 146097) 4 in
  let d := Z.quot (4 * c + 3) 1461 in
  let e := c - Z.quot (1461 * d) 4 in
  let m := Z.quot (5 * e + 2) 153 in
  mkYMD (b * 100 + d - 4800 + Z.quot m 10) (m + 3 - 12 * Z.quot m 10)
    (e - Z.quot (153 * m + 2) 5 + 1).

Definition kJulianDayOf1970_01_01 : Z := getJulianDayNumber 1970 1 1.
Definition kDaysPerWeek : Z := 7.

Definition weekDay (julianDayNumber : Z) : Z := Z.rem (julianDayNumber + 1) kDaysPerWeek.
Definition valid (julianDayNumber : Z) : bool := 0 <? julianDayNumber.

(** ** The Gregorian calendar *)

Definition leap (y : Z) : bool := (y mod 4 =? 0) && (negb (y mod 100 =? 0) || (y mod 400 =? 0)).

Definition days_in_month (y m : Z) : Z :=
  if m =? 2 then (if leap y then 29 else 28)
  else if (m =? 4) || (m =? 6) || (m =? 9) || (m =? 11) then 30 else 31.

Definition next_day (x : YearMonthDay) : YearMonthDay :=
  if day x <? days_in_month (year x) (month x) then mkYMD (year x) (month x) (day x + 1)
  else if month x <? 12 then mkYMD (year x) (month x + 1) 1
  else mkYMD (year x + 1) 1 1.

(** A date of the calendar, in the years the int arithmetic can hold. *)
Definition date_ok (x : YearMonthDay) : Prop :=
  -4799 <= year x <= 1000000 /\ 1 <= month x <= 12 /\ 1 <= day x <= days_in_month (year x) (month x).

Definition jdn (x : YearMonthDay) : Z := getJulianDayNumber (year x) (month x) (day x).

(** ** Proofs *)

Lemma quot_div a b : 0 <= a -> 0 < b -> Z.quot a b = a / b.
Proof. intros. apply Z.quot_div_nonneg; lia. Qed.

(** The months from March on: their number, and the days before each. *)
Definition march_month (m : Z) : Z := if m <? 3 then m + 9 else m - 3.
Definition march_year (y m : Z) : Z := if m <? 3 then y + 4799 else y + 4800.

Lemma jdn_march y m d :
  -4799 <= y -> 1 <= m <= 12 ->
  getJulianDayNumber y m d =
  d + (153 * march_month m + 2) / 5 + 365 * march_year y m + march_year y m / 4 - march_year y m / 100
  + march_year y m / 400 - 32045.
Proof.
  intros Hy Hm. unfold getJulianDayNumber, march_month, march_year. rewrite (quot_div (14 - m)) by lia.
  assert (Ha : (14 - m) / 12 = if m <? 3 then 1 else 0) by (destruct (m <? 3) eqn:E; Z.to_euclidean_division_equations; lia).
  rewrite Ha. destruct (m <? 3) eqn:E; rewrite !quot_div by lia.
  - replace (m + 12 * 1 - 3) with (m + 9) by lia. replace (y + 4800 - 1) with (y + 4799) by lia. lia.
  - replace (m + 12 * 0 - 3) with (m - 3) by lia. replace (y + 4800 - 0) with (y + 4800) by lia. lia.
Qed.

(** The day of the March-based year; the last one exists in leap years only. *)
Lemma leap_mod y : leap y = true <-> (y mod 4 = 0 /\ (y mod 100 <> 0 \/ y mod 400 = 0)).
Proof. unfold leap. rewrite andb_true_iff, orb_true_iff, negb_true_iff. lia. Qed.

Lemma leap_false y : leap y = false <-> (y mod 4 <> 0 \/ (y mod 100 = 0 /\ y mod 400 <> 0)).
Proof. rewrite <- not_true_iff_false, leap_mod. lia. Qed.

(** The twelve months, one by one. *)
Ltac months m :=
  let H := fresh in
  assert (H : m = 1 \/ m = 2 \/ m = 3 \/ m = 4 \/ m = 5 \/ m = 6 \/ m = 7 \/ m = 8 \/ m = 9 \/ m = 10 \/ m = 11 \/ m = 12) by lia;
  repeat (destruct H as [H|H]; [subst m|]); [..|subst m].

(** Evaluates the functions of a month at a constant. *)
Ltac eval_month :=
  repeat match goal with
  | |- context [march_month ?c] =>
      let v := eval vm_compute in (march_month c) in change (march_month c) with v
  | |- context [(153 * ?c + 2) / 5] =>
      let v := eval vm_compute in ((153 * c + 2) / 5) in change ((153 * c + 2) / 5) with v
  | |- context [march_year ?y ?c] =>
      let b := eval vm_compute in (c <? 3) in
      match b with
      | true => change (march_year y c) with (y + 4799)
      | false => change (march_year y c) with (y + 4800)
      end
  | |- context [days_in_month ?y 2] => change (days_in_month y 2) with (if leap y then 29 else 28)
  | |- context [days_in_month ?y ?c] =>
      let v := eval vm_compute in (days_in_month 0 c) in change (days_in_month y c) with v
  | |- context [march_month (?c + 1)] => let v := eval vm_compute in (c + 1) in change (c + 1) with v
  end.

Lemma jdn_next x : date_ok x -> jdn (next_day x) = jdn x + 1.
Proof.
  destruct x as [y m d]. unfold date_ok, jdn, next_day. cbn [year month day]. intros (Hy & Hm & Hd).
  destruct (d <? days_in_month y m) eqn:Ed; cbn [year month day].
  { rewrite !jdn_march by lia. lia. }
  assert (d = days_in_month y m) as -> by lia. clear Ed Hd.
  destruct (m <? 12) eqn:Em; cbn [year month day]; rewrite !jdn_march by lia.
  - assert (Hm' : 1 <= m <= 11) by lia. clear Hm Em. months m; try lia.
    2: { (* the end of February *)
         eval_month. destruct (leap y) eqn:El; [apply leap_mod in El|apply leap_false in El];
           Z.to_euclidean_division_equations; lia. }
    all: eval_month; lia.
  - assert (m = 12) as -> by lia. eval_month. replace (y + 1 + 4799) with (y + 4800) by lia. lia.
Qed.

(** A March-based year [Y] and a day [e] of it: recovering the year. *)
Lemma century Y e :
  0 <= Y -> 0 <= e <= 365 -> (e = 365 -> (Y + 1) mod 4 = 0 /\ ((Y + 1) mod 100 <> 0 \/ (Y + 1) mod 400 = 0)) ->
  let a := e + 365 * Y + Y / 4 - Y / 100 + Y / 400 in
  (4 * a + 3) / 146097 = Y / 100.
Proof. intros HY He Hl. cbv zeta. Z.to_euclidean_division_equations. lia. Qed.

Lemma year_of_century Y e :
  0 <= Y -> 0 <= e <= 365 -> (e = 365 -> (Y + 1) mod 4 = 0 /\ ((Y + 1) mod 100 <> 0 \/ (Y + 1) mod 400 = 0)) ->
  let a := e + 365 * Y + Y / 4 - Y / 100 + Y / 400 in
  let c := a - (Y / 100 * 146097) / 4 in
  (4 * c + 3) / 1461 = Y mod 100 /\ c - (1461 * (Y mod 100)) / 4 = e.
Proof. intros HY He Hl. cbv zeta. Z.to_euclidean_division_equations. lia. Qed.

(** The day of the March-based year of a date. *)
Definition march_day (x : YearMonthDay) : Z := day x - 1 + (153 * march_month (month x) + 2) / 5.

Lemma march_day_ok x :
  date_ok x ->
  let Y := march_year (year x) (month x) in
  0 <= march_day x <= 365 /\
  (march_day x = 365 -> (Y + 1) mod 4 = 0 /\ ((Y + 1) mod 100 <> 0 \/ (Y + 1) mod 400 = 0)) /\
  (5 * march_day x + 2) / 153 = march_month (month x).
Proof.
  destruct x as [y m d]. unfold date_ok, march_day. cbn [year month day]. cbv zeta. intros (Hy & Hm & Hd).
  revert Hd. months m; eval_month; intros Hd; try (split_and!; Z.to_euclidean_division_equations; lia).
  destruct (leap y) eqn:El; [apply leap_mod in El|clear El]; split_and!; Z.to_euclidean_division_equations; lia.
Qed.

Lemma jdn_spec x :
  date_ok x ->
  jdn (next_day x) = jdn x + 1 /\ getYearMonthDay (jdn x) = x /\
  0 < 4 * (jdn x + 32044) + 3 < 2 ^ 31.
Proof.
  intros Hx. split; [by apply jdn_next|]. destruct (march_day_ok x Hx) as (He & Hl & Hm).
  destruct Hx as (Hy & Hmo & Hd). set (Y := march_year (year x) (month x)) in *. set (e := march_day x) in *.
  assert (HY : 0 <= Y <= 1004800) by (unfold Y, march_year; case_match; lia).
  assert (Ha : jdn x + 32044 = e + 365 * Y + Y / 4 - Y / 100 + Y / 400).
  { unfold jdn. rewrite jdn_march by lia. unfold e, march_day. fold Y. lia. }
  assert (Hpos : 0 <= jdn x + 32044 /\ 4 * (jdn x + 32044) + 3 < 2 ^ 31).
  { rewrite Ha. Z.to_euclidean_division_equations. lia. }
  split; [|lia]. pose proof (century Y e ltac:(lia) He Hl) as Hb. cbv zeta in Hb.
  destruct (year_of_century Y e ltac:(lia) He Hl) as [Hd1 He1]. cbv zeta in Hd1, He1.
  assert (Hc0 : 0 <= Y / 100 * 146097) by (Z.to_euclidean_division_equations; lia).
  assert (Hmod : 0 <= Y mod 100 < 100) by (apply Z.mod_pos_bound; lia).
  assert (Hq : 0 <= (1461 * (Y mod 100)) / 4) by (apply Z.div_pos; lia).
  unfold getYearMonthDay. rewrite Ha in Hpos |- *. rewrite (quot_div (4 * _ + 3) 146097), Hb by lia.
  rewrite (quot_div (Y / 100 * 146097)) by lia.
  rewrite (quot_div (4 * _ + 3) 1461), Hd1 by lia.
  rewrite (quot_div (1461 * _)), He1 by lia. rewrite (quot_div (5 * e + 2)), Hm by lia.
  assert (Hmm : 0 <= march_month (month x) <= 11) by (unfold march_month; case_match; lia).
  rewrite !quot_div by lia. destruct x as [y m d]. cbn [year month day] in *. f_equal.
  - pose proof (Z.div_mod Y 100 ltac:(lia)) as Hdm.
    assert (Hq10 : march_month m / 10 = Y - 4800 - y + 2 * (y + 4800 - Y))
      by (unfold Y, march_year, march_month; case_match; Z.to_euclidean_division_equations; lia).
    lia.
  - unfold march_month. case_match; Z.to_euclidean_division_equations; lia.
  - unfold e, march_day. cbn [day month]. lia.
Qed.

(** Julian day numbers count the days of the Gregorian calendar: the day after a date
    has the next number, and getYearMonthDay recovers the date; for years -4799 to
    1000000 the largest intermediate value fits an int. *)
Theorem julian_day_correct x :
  date_ok x ->
  jdn (next_day x) = jdn x + 1 /\ getYearMonthDay (jdn x) = x /\
  0 < 4 * (jdn x + 32044) + 3 < 2 ^ 31.
Proof. apply jdn_spec. Qed.

(** 2000-02-29. *)
Lemma julian_day_correct_witness :
  jdn (mkYMD 2000 3 1) = jdn (mkYMD 2000 2 29) + 1 /\ getYearMonthDay (jdn (mkYMD 2000 2 29)) = mkYMD 2000 2 29.
Proof.
  destruct (julian_day_correct (mkYMD 2000 2 29)) as (H1 & H2 & _).
  - unfold date_ok. cbn [year month day]. split; [lia|]. split; [lia|]. vm_compute. split; congruence.
  - split; [exact H1|exact H2].
Defined.

Example epoch : kJulianDayOf1970_01_01 = 2440588 /\ weekDay kJulianDayOf1970_01_01 = 4.
Proof. vm_compute. done. Qed.
