(* ===== verification/LogStream.v ===== *)
(** * Log streams (src/muduo/base/LogStream.h, LogStream.cc)

    The fixed buffer of a stream, integer conversion into it, and the stream's output
    operators.  C's [/] and [%] truncate ([Z.quot], [Z.rem]), so the digits of a negative
    number are found with negative indices into the table [digits]. *)

From S2P Require Import Prelude Decimal.

(** ** Conversion *)

Definition digits_table : list char := lit "9876543210123456789".
Definition zero : Z := 9.
Definition digitsHex : list char := lit "0123456789ABCDEF".

(** The [do ... while (i != 0)] loop of [convert]: least significant digit first; [None]
    when the fuel runs out. *)
Fixpoint lsd_loop (fuel : nat) (i : Z) : option (res (list char)) :=
  match fuel with
  | O => None
  | S fuel =>
      let lsd := Z.rem i 10 in
      let i := Z.quot i 10 in
      match get (digits_table !! Z.to_nat (zero + lsd)) with
      | Fault f => Some (Fault f)
      | Ok c =>
          if i =? 0 then Some (Ok [c])
          else match lsd_loop fuel i with
               | Some (Ok l) => Some (Ok (c :: l))
               | r => r
               end
      end
  end.

(** [convert]: the characters before the terminating NUL. *)
Definition convert (fuel : nat) (value : Z) : option (res (list char)) :=
  match lsd_loop fuel value with
  | Some (Ok l) => Some (Ok (rev (l ++ if value <? 0 then [chr 45] else [])))
  | r => r
  end.

Fixpoint hex_loop (fuel : nat) (i : Z) : option (res (list char)) :=
  match fuel with
  | O => None
  | S fuel =>
      match get (digitsHex !! Z.to_nat (Z.rem i 16)) with
      | Fault f => Some (Fault f)
      | Ok c =>
          let i := Z.quot i 16 in
          if i =? 0 then Some (Ok [c])
          else match hex_loop fuel i with
               | Some (Ok l) => Some (Ok (c :: l))
               | r => r
               end
      end
  end.

Definition convertHex (fuel : nat) (value : Z) : option (res (list char)) :=
  match hex_loop fuel value with
  | Some (Ok l) => Some (Ok (rev l))
  | r => r
  end.

(** ** FixedBuffer *)

Record FixedBuffer := mkFixed { fdata_ : list char; cur_ : Z }.

Definition kSmallBuffer : Z := 4000.

(** [FixedBuffer<SIZE>::FixedBuffer]; the content of [data_] is indeterminate *)
Definition newFixedBuffer (size : Z) : FixedBuffer := mkFixed (replicate (Z.to_nat size) (chr 0)) 0.

Definition avail (b : FixedBuffer) : Z := zlen (fdata_ b) - cur_ b.
Definition flength (b : FixedBuffer) : Z := cur_ b.
Definition fadd (len : Z) (b : FixedBuffer) : FixedBuffer := mkFixed (fdata_ b) (cur_ b + len).
Definition freset (b : FixedBuffer) : FixedBuffer := mkFixed (fdata_ b) 0.
(** [toString] *)
Definition ftoString (b : FixedBuffer) : list char := take (Z.to_nat (cur_ b)) (fdata_ b).

Definition fappend (s : list char) (b : FixedBuffer) : res FixedBuffer :=
  if zlen s <? size_t (avail b) then
    l ← write_at (fdata_ b) (cur_ b) s;
    Ok (mkFixed l (cur_ b + zlen s))
  else Ok b.

(** ** LogStream *)

Definition kMaxNumericSize : Z := 32.

(** Enough for 64-bit numbers. *)
Definition fuel : nat := 20.

(** [formatInteger]: the text and its NUL are written at [current()]. *)
Definition formatInteger (v : Z) (b : FixedBuffer) : option (res FixedBuffer) :=
  if kMaxNumericSize <=? avail b then
    match convert fuel v with
    | None => None
    | Some (Fault f) => Some (Fault f)
    | Some (Ok s) => Some (l ← write_at (fdata_ b) (cur_ b) (s ++ [chr 0]); Ok (fadd (zlen s) (mkFixed l (cur_ b))))
    end
  else Some (Ok b).

(** [operator<<(const void* )] *)
Definition formatPointer (v : Z) (b : FixedBuffer) : option (res FixedBuffer) :=
  if kMaxNumericSize <=? avail b then
    match convertHex fuel v with
    | None => None
    | Some (Fault f) => Some (Fault f)
    | Some (Ok s) => Some (l ← write_at (fdata_ b) (cur_ b) (lit "0x" ++ s ++ [chr 0]);
                           Ok (fadd (zlen s + 2) (mkFixed l (cur_ b))))
    end
  else Some (Ok b).

(** What is put into a stream: a bool, a character, a C string or NULL, a string, an
    integer of any width, a pointer. *)
Inductive item :=
| IBool (v : bool)
| IChar (c : char)
| ICString (s : option (list char))
| IString (s : list char)
| IInt (v : Z)
| IPointer (v : Z).

(** The output operators. *)
Definition stream_put (x : item) (b : FixedBuffer) : option (res FixedBuffer) :=
  match x with
  | IBool v => Some (fappend (if v then lit "1" else lit "0") b)
  | IChar c => Some (fappend [c] b)
  | ICString (Some s) | IString s => Some (fappend s b)
  | ICString None => Some (fappend (lit "(null)") b)
  | IInt v => formatInteger v b
  | IPointer v => formatPointer v b
  end.

Fixpoint stream_put_all (l : list item) (b : FixedBuffer) : option (res FixedBuffer) :=
  match l with
  | [] => Some (Ok b)
  | x :: l => match stream_put x b with
              | Some (Ok b') => stream_put_all l b'
              | r => r
              end
  end.

(** ** Specification *)

(** Hexadecimal digits. *)
Fixpoint hexdigits (n : nat) (v : Z) : list char :=
  match n with
  | O => []
  | S n => (if v <? 16 then [] else hexdigits n (v / 16)) ++ [default (chr 0) (digitsHex !! Z.to_nat (v mod 16))]
  end.

(** The text of an item, and the room the stream asks for before it writes it. *)
Definition text (x : item) : list char :=
  match x with
  | IBool v => if v then lit "1" else lit "0"
  | IChar c => [c]
  | ICString (Some s) | IString s => s
  | ICString None => lit "(null)"
  | IInt v => dec v
  | IPointer v => lit "0x" ++ hexdigits 20 v
  end.

Definition room (x : item) : Z :=
  match x with IInt _ | IPointer _ => kMaxNumericSize | _ => zlen (text x) + 1 end.

(** Whole items, as long as there is room for them. *)
Definition spec_put (size : Z) (acc : list char) (x : item) : list char :=
  if room x <=? size - zlen acc then acc ++ text x else acc.

Definition item_ok (x : item) : Prop :=
  match x with
  | IInt v => - 2 ^ 63 <= v < 2 ^ 64
  | IPointer v => 0 <= v < 2 ^ 64
  | _ => True
  end.

(** ** Proofs *)

Lemma table_lookup d : -9 <= d <= 9 -> digits_table !! Z.to_nat (zero + d) = Some (digit (Z.abs d)).
Proof.
  intros Hd.
  assert (H : d = -9 \/ d = -8 \/ d = -7 \/ d = -6 \/ d = -5 \/ d = -4 \/ d = -3 \/ d = -2 \/ d = -1 \/ d = 0 \/
              d = 1 \/ d = 2 \/ d = 3 \/ d = 4 \/ d = 5 \/ d = 6 \/ d = 7 \/ d = 8 \/ d = 9) by lia.
  repeat (destruct H as [->|H]; [done|]). by subst.
Qed.

Lemma quot_abs i : Z.abs (Z.quot i 10) = Z.abs i / 10.
Proof. Z.to_euclidean_division_equations. lia. Qed.

Lemma rem_abs i : Z.abs (Z.rem i 10) = Z.abs i mod 10.
Proof. Z.to_euclidean_division_equations. lia. Qed.

Lemma lsd_loop_ok n i :
  (0 < n)%nat -> Z.abs i < 10 ^ Z.of_nat n ->
  exists l, lsd_loop n i = Some (Ok l) /\ rev l = digits n (Z.abs i).
Proof.
  revert i. induction n as [|n IH]; intros i Hn Hi; [lia|]. cbn [lsd_loop digits].
  assert (Hrem : -9 <= Z.rem i 10 <= 9) by (Z.to_euclidean_division_equations; lia).
  rewrite table_lookup by done. cbn [get]. rewrite rem_abs.
  destruct (Z.quot i 10 =? 0) eqn:E.
  - exists [digit (Z.abs i mod 10)]. split; [done|].
    replace (Z.abs i <? 10) with true; [done|]. pose proof (quot_abs i). Z.to_euclidean_division_equations. lia.
  - assert (Hge : 10 <= Z.abs i) by (pose proof (quot_abs i); Z.to_euclidean_division_equations; lia).
    rewrite pow10_succ in Hi. assert (Hq : Z.abs (Z.quot i 10) < 10 ^ Z.of_nat n)
      by (rewrite quot_abs; apply Z.div_lt_upper_bound; lia).
    destruct n as [|n]; [cbn in Hi; lia|]. destruct (IH (Z.quot i 10) ltac:(lia) Hq) as (l & -> & Hl).
    exists (digit (Z.abs i mod 10) :: l). split; [done|]. replace (Z.abs i <? 10) with false by lia.
    cbn [rev]. by rewrite Hl, quot_abs.
Qed.

Lemma convert_ok v : - 2 ^ 63 <= v < 2 ^ 64 -> convert fuel v = Some (Ok (dec v)).
Proof.
  intros Hv. unfold convert, fuel. destruct (lsd_loop_ok 20 v ltac:(lia)) as (l & -> & Hl); [change (10 ^ Z.of_nat 20) with (10 ^ 20); lia|].
  unfold dec. destruct (v <? 0) eqn:E; rewrite rev_app_distr, Hl.
  - by rewrite Z.abs_neq by lia.
  - by rewrite Z.abs_eq by lia.
Qed.

Lemma pow16_succ n : 16 ^ Z.of_nat (S n) = 16 * 16 ^ Z.of_nat n.
Proof. rewrite Nat2Z.inj_succ, Z.pow_succ_r by lia. lia. Qed.

Lemma hex_loop_ok n i :
  (0 < n)%nat -> 0 <= i < 16 ^ Z.of_nat n -> exists l, hex_loop n i = Some (Ok l) /\ rev l = hexdigits n i.
Proof.
  revert i. induction n as [|n IH]; intros i Hn Hi; [lia|]. cbn [hex_loop hexdigits].
  rewrite Z.rem_mod_nonneg, Z.quot_div_nonneg by lia. pose proof (Z.mod_pos_bound i 16 ltac:(lia)) as Hm.
  destruct (lookup_lt_is_Some_2 digitsHex (Z.to_nat (i mod 16))) as [c Hc]; [cbn; lia|]. rewrite Hc. cbn [get default].
  destruct (i / 16 =? 0) eqn:E.
  - exists [c]. split; [done|]. replace (i <? 16) with true; [done|]. Z.to_euclidean_division_equations. lia.
  - assert (Hge : 16 <= i) by (Z.to_euclidean_division_equations; lia). rewrite pow16_succ in Hi.
    assert (Hq : 0 <= i / 16 < 16 ^ Z.of_nat n) by (split; [apply Z.div_pos; lia|apply Z.div_lt_upper_bound; lia]).
    destruct n as [|n]; [cbn in Hi; lia|]. destruct (IH (i / 16) ltac:(lia) Hq) as (l & -> & Hl).
    exists (c :: l). split; [done|]. replace (i <? 16) with false by lia. cbn [rev]. by rewrite Hl.
Qed.

Lemma convertHex_ok v : 0 <= v < 2 ^ 64 -> convertHex fuel v = Some (Ok (hexdigits 20 v)).
Proof.
  intros Hv. unfold convertHex, fuel.
  destruct (hex_loop_ok 20 v ltac:(lia)) as (l & -> & Hl); [change (16 ^ Z.of_nat 20) with (16 ^ 20); lia|]. by rewrite Hl.
Qed.

Lemma hexdigits_length n v (k : nat) :
  (0 < k)%nat -> 0 <= v < 16 ^ Z.of_nat k -> (length (hexdigits n v) <= k)%nat.
Proof.
  revert v k. induction n as [|n IH]; intros v k Hk Hv; cbn [hexdigits]; [cbn; lia|].
  rewrite length_app. cbn [length]. destruct (v <? 16) eqn:E; [cbn; lia|].
  destruct k as [|[|k]]; [lia|cbn in Hv; lia|]. rewrite pow16_succ in Hv.
  specialize (IH (v / 16) (S k) ltac:(lia)). rewrite Nat.add_1_r. apply le_n_S, IH.
  split; [apply Z.div_pos; lia|apply Z.div_lt_upper_bound; lia].
Qed.

(** A number and its NUL fit in kMaxNumericSize bytes. *)
Lemma dec_fits v : - 2 ^ 63 <= v < 2 ^ 64 -> zlen (dec v) <= 20.
Proof.
  intros Hv. unfold dec. destruct (v <? 0) eqn:E.
  - rewrite zlen_cons. pose proof (digits_length 20 (- v) 19 ltac:(lia)) as H.
    unfold zlen. change (10 ^ Z.of_nat 19) with (10 ^ 19) in H. lia.
  - unfold zlen. pose proof (digits_length 20 v 20 ltac:(lia)) as H. change (10 ^ Z.of_nat 20) with (10 ^ 20) in H. lia.
Qed.

Lemma hex_fits v : 0 <= v < 2 ^ 64 -> zlen (hexdigits 20 v) <= 16.
Proof.
  intros Hv. unfold zlen. pose proof (hexdigits_length 20 v 16 ltac:(lia)) as H.
  change (16 ^ Z.of_nat 16) with (16 ^ 16) in H. lia.
Qed.

(** The representation invariant of a buffer of [size] bytes. *)
Definition fixed_inv (size : Z) (b : FixedBuffer) : Prop :=
  zlen (fdata_ b) = size /\ 0 <= cur_ b <= size /\ size < 2 ^ 31.

(** Writing [s], of which the first [n] bytes count. *)
Lemma write_text size b s n :
  fixed_inv size b -> 0 <= n <= zlen s -> zlen s <= avail b ->
  exists l, write_at (fdata_ b) (cur_ b) s = Ok l /\ fixed_inv size (mkFixed l (cur_ b + n)) /\
    ftoString (mkFixed l (cur_ b + n)) = ftoString b ++ take (Z.to_nat n) s.
Proof.
  intros (Hz & Hc & Hs) Hn Ha. unfold avail in Ha. rewrite write_at_ok by lia. eexists. split; [reflexivity|].
  assert (Hlt : zlen (take (Z.to_nat (cur_ b)) (fdata_ b)) = cur_ b) by (apply zlen_take; lia).
  split.
  - unfold fixed_inv. cbn. rewrite !zlen_app, Hlt. pose proof (zlen_drop (cur_ b + zlen s) (fdata_ b)). lia.
  - unfold ftoString. cbn. rewrite take_app_ge by (unfold zlen in Hlt; lia). f_equal. unfold zlen in *.
    replace (Z.to_nat (cur_ b + n) - length (take (Z.to_nat (cur_ b)) (fdata_ b)))%nat with (Z.to_nat n) by lia.
    apply take_app_le. lia.
Qed.

Lemma zlen_ftoString size b : fixed_inv size b -> zlen (ftoString b) = cur_ b.
Proof. intros (Hz & Hc & _). apply zlen_take. lia. Qed.

Lemma stream_put_ok size x b :
  fixed_inv size b -> item_ok x ->
  exists b', stream_put x b = Some (Ok b') /\ fixed_inv size b' /\ ftoString b' = spec_put size (ftoString b) x.
Proof.
  intros Hi Hx. pose proof (zlen_ftoString size b Hi) as Hl. pose proof Hi as (Hz & Hc & Hs).
  assert (Hav : avail b = size - zlen (ftoString b)) by (unfold avail; lia).
  assert (Happ : forall s, exists b', fappend s b = Ok b' /\ fixed_inv size b' /\
    ftoString b' = if zlen s + 1 <=? size - zlen (ftoString b) then ftoString b ++ s else ftoString b).
  { intros s. unfold fappend. rewrite uint_small by lia. rewrite Hav. destruct (zlen s <? _) eqn:E.
    - pose proof (zlen_nonneg s). destruct (write_text size b s (zlen s) Hi) as (l & -> & Hi' & Ht); [lia..|].
      eexists. split; [reflexivity|]. split; [done|]. rewrite Ht.
      replace (zlen s + 1 <=? _) with true by lia. unfold zlen. by rewrite Nat2Z.id, firstn_all.
    - exists b. by replace (zlen s + 1 <=? _) with false by lia. }
  unfold spec_put, room. destruct x as [v|c|[s|]|s|v|v]; cbn [stream_put text];
    try (match goal with |- context [fappend ?s _] => destruct (Happ s) as (b' & -> & ? & ?) end; exists b'; by split_and!).
  - unfold formatInteger. rewrite Hav. destruct (kMaxNumericSize <=? _) eqn:E; [|by exists b].
    cbn in Hx. rewrite convert_ok by done. pose proof (dec_fits v Hx). pose proof (zlen_nonneg (dec v)).
    unfold kMaxNumericSize in E. change (zlen [chr 0]) with 1 in *.
    destruct (write_text size b (dec v ++ [chr 0]) (zlen (dec v)) Hi) as (l & -> & Hi' & Ht);
      [rewrite zlen_app; change (zlen [chr 0]) with 1; lia..|].
    eexists. split; [reflexivity|]. split; [exact Hi'|]. etransitivity; [exact Ht|].
    unfold zlen. by rewrite Nat2Z.id, take_app_length.
  - unfold formatPointer. rewrite Hav. destruct (kMaxNumericSize <=? _) eqn:E; [|by exists b].
    cbn in Hx. rewrite convertHex_ok by done. pose proof (hex_fits v Hx). pose proof (zlen_nonneg (hexdigits 20 v)).
    unfold kMaxNumericSize in E.
    destruct (write_text size b (lit "0x" ++ hexdigits 20 v ++ [chr 0]) (zlen (hexdigits 20 v) + 2) Hi) as (l & -> & Hi' & Ht);
      [rewrite !zlen_app; change (zlen [chr 0]) with 1; change (zlen (lit "0x")) with 2; lia..|].
    eexists. split; [reflexivity|]. split; [exact Hi'|]. etransitivity; [exact Ht|]. f_equal.
    rewrite (assoc_L app). replace (Z.to_nat _) with (length (lit "0x" ++ hexdigits 20 v)).
    + apply take_app_length.
    + rewrite length_app. unfold zlen. cbn. lia.
Qed.

(** A stream holds whole items: whatever is put into it, nothing is written outside
    its buffer, every number appears as its decimal (a pointer as its hexadecimal) text,
    for all 64-bit integers including the most negative one, and an item is left out
    entirely when the room for it (a string and one byte more, 32 bytes for a number) is
    not there. *)
Theorem stream_correct size l b :
  fixed_inv size b -> Forall item_ok l ->
  exists b', stream_put_all l b = Some (Ok b') /\ fixed_inv size b' /\
    ftoString b' = foldl (spec_put size) (ftoString b) l.
Proof.
  intros Hi Hl. revert b Hi. induction Hl as [|x l Hx _ IH]; intros b Hi; [by exists b|].
  cbn [stream_put_all foldl]. destruct (stream_put_ok size x b Hi Hx) as (b1 & -> & Hi1 & <-). by apply IH.
Qed.

(** With enough room everything is written. *)
Lemma put_all_fits size l b :
  fixed_inv size b -> Forall item_ok l -> zlen (ftoString b) + zlen (concat (text <$> l)) + 32 <= size ->
  exists b', stream_put_all l b = Some (Ok b') /\ ftoString b' = ftoString b ++ concat (text <$> l).
Proof.
  intros Hi Hl. revert b Hi. induction Hl as [|x l Hx _ IH]; intros b Hi Hz; cbn [stream_put_all fmap list_fmap concat].
  { exists b. by rewrite app_nil_r. }
  cbn [fmap list_fmap concat] in Hz. rewrite zlen_app in Hz. pose proof (zlen_nonneg (text x)). pose proof (zlen_nonneg (concat (text <$> l))).
  destruct (stream_put_ok size x b Hi Hx) as (b1 & -> & Hi1 & Ht1). unfold spec_put in Ht1.
  assert (Hroom : room x <= size - zlen (ftoString b)) by (unfold room, kMaxNumericSize; destruct x; lia).
  replace (room x <=? _) with true in Ht1 by lia. destruct (IH b1 Hi1) as (b' & -> & Ht'); [rewrite Ht1, zlen_app; lia|].
  exists b'. split; [done|]. by rewrite Ht', Ht1, (assoc_L app).
Qed.

Lemma stream_correct_witness :
  exists b', stream_put_all [IString (lit "v="); IInt (- 2 ^ 63); IChar (chr 32); IPointer 48879] (newFixedBuffer 4000)
      = Some (Ok b') /\ ftoString b' = lit "v=-9223372036854775808 0xBEEF".
Proof.
  destruct (stream_correct 4000 [IString (lit "v="); IInt (- 2 ^ 63); IChar (chr 32); IPointer 48879] (newFixedBuffer 4000))
    as (b' & E & _ & Ht).
  - unfold fixed_inv. split_and!; vm_compute; congruence.
  - repeat (apply Forall_cons; split); [exact I|cbn; lia|exact I|cbn; lia|constructor].
  - exists b'. split; [exact E|]. rewrite Ht. vm_compute. reflexivity.
Defined.
