(* ===== verification/TimeZone.v ===== *)
(** * Time zones (src/muduo/base/TimeZone.h, TimeZone.cc)

    Broken-down UTC times from seconds since the epoch and back, the lookup of the local
    time type in force, and the reader of zone files.  A function that can throw
    [std::logic_error] while filling a [Data] returns both the data as far as it got and
    the outcome. *)

From stdpp Require Import sorting.
From S2P Require Import Prelude Endian Date.

(** ** [struct tm] *)

Record tm := mkTm {
  tm_sec : Z; tm_min : Z; tm_hour : Z;
  tm_mday : Z; tm_mon : Z; tm_year : Z;
  tm_wday : Z; tm_yday : Z; tm_isdst : Z;
  tm_gmtoff : Z; tm_zone : list char
}.

Definition kSecondsPerDay : Z := 24 * 60 * 60.

(** [detail::fillHMS]: seconds, minutes and hours *)
Definition fillHMS (seconds : Z) : Z * Z * Z :=
  let minutes := seconds / 60 in
  (seconds mod 60, minutes mod 60, minutes / 60).

(** [TimeZone::toUtcTime] *)
Definition toUtcTime (secondsSinceEpoch : Z) (yday : bool) : tm :=
  let seconds := int32 (Z.rem secondsSinceEpoch kSecondsPerDay) in
  let days := int32 (Z.quot secondsSinceEpoch kSecondsPerDay) in
  let '(seconds, days) := if seconds <? 0 then (seconds + kSecondsPerDay, days - 1) else (seconds, days) in
  let '(sec, min, hour) := fillHMS (uint 32 seconds) in
  let date := days + kJulianDayOf1970_01_01 in
  let ymd := getYearMonthDay date in
  mkTm sec min hour (day ymd) (month ymd - 1) (year ymd - 1900) (weekDay date)
    (if yday then date - getJulianDayNumber (year ymd) 1 1 else 0) 0 0 (lit "GMT").

(** [TimeZone::fromUtcTime] of six numbers and of a [struct tm] *)
Definition fromUtc (year month day hour minute seconds : Z) : Z :=
  let secondsInDay := hour * 3600 + minute * 60 + seconds in
  let days := getJulianDayNumber year month day - kJulianDayOf1970_01_01 in
  days * kSecondsPerDay + secondsInDay.

Definition fromUtcTime (utc : tm) : Z :=
  fromUtc (tm_year utc + 1900) (tm_mon utc + 1) (tm_mday utc) (tm_hour utc) (tm_min utc) (tm_sec utc).

(** ** The calendar

    [calendar n x]: [x] is the date [n] days after 1970-01-01 (before it, for negative
    [n]), counted day by day. *)

Definition epoch_date : YearMonthDay := mkYMD 1970 1 1.

Definition calendar (n : Z) (x : YearMonthDay) : Prop :=
  date_ok x /\
  if 0 <=? n then Nat.iter (Z.to_nat n) next_day epoch_date = x
  else Nat.iter (Z.to_nat (- n)) next_day x = epoch_date.

(** What gmtime(3) promises: the date of the day, the time of the day, the day of the week
    (1970-01-01 was a Thursday) and the days since January 1. *)
Record utc_spec (s : Z) (t : tm) : Prop := {
  us_date : calendar (s / 86400) (mkYMD (tm_year t + 1900) (tm_mon t + 1) (tm_mday t));
  us_time : s mod 86400 = tm_hour t * 3600 + tm_min t * 60 + tm_sec t;
  us_hour : 0 <= tm_hour t < 24;
  us_min : 0 <= tm_min t < 60;
  us_sec : 0 <= tm_sec t < 60;
  us_wday : tm_wday t = (4 + s / 86400) mod 7
}.

(** The seconds whose dates are in the years -4713 to 1000000. *)
Definition utc_range (s : Z) : Prop := - kJulianDayOf1970_01_01 <= s / 86400 <= 364523337.

(** ** Proofs on dates *)

Definition jdn_min : Z := -31738.
Definition jdn_max : Z := 366963925.

Lemma days_in_month_bounds y m : 28 <= days_in_month y m <= 31.
Proof. unfold days_in_month. repeat case_match; lia. Qed.

Lemma jdn_inj x y : date_ok x -> date_ok y -> jdn x = jdn y -> x = y.
Proof.
  intros Hx Hy E. destruct (jdn_spec x Hx) as (_ & <- & _). destruct (jdn_spec y Hy) as (_ & <- & _). by rewrite E.
Qed.

Lemma next_day_ok x : date_ok x -> jdn x < jdn_max -> date_ok (next_day x).
Proof.
  intros Hx Hj. pose proof Hx as (Hy & Hm & Hd). unfold next_day. pose proof (days_in_month_bounds (year x) (month x)).
  case_match eqn:E1; [|case_match eqn:E2]; unfold date_ok; cbn [year month day].
  - lia.
  - pose proof (days_in_month_bounds (year x) (month x + 1)). lia.
  - pose proof (days_in_month_bounds (year x + 1) 1).
    destruct (decide (year x = 1000000)) as [Ey|]; [|lia]. exfalso.
    destruct x as [y m d]. cbn [year month day] in *. subst y. assert (m = 12) as -> by lia.
    change (days_in_month 1000000 12) with 31 in *. assert (d = 31) as -> by lia. vm_compute in Hj. done.
Qed.

(** Every day number of the range is the number of a date. *)
Lemma jdn_surj n : jdn_min <= n <= jdn_max -> exists x, date_ok x /\ jdn x = n.
Proof.
  intros [H1 H2]. replace n with (jdn_min + Z.of_nat (Z.to_nat (n - jdn_min))) in * by lia.
  set (k := Z.to_nat (n - jdn_min)) in *. clearbody k. clear H1. induction k as [|k IH].
  - exists (mkYMD (-4799) 1 1). split; [|done]. unfold date_ok; cbn [year month day]. vm_compute. split_and!; congruence.
  - destruct IH as (x & Hx & E); [lia|]. exists (next_day x). split; [apply next_day_ok; [done|lia]|].
    rewrite jdn_next by done. lia.
Qed.

Lemma iter_next_day x (k : nat) :
  date_ok x -> jdn x + Z.of_nat k <= jdn_max ->
  date_ok (Nat.iter k next_day x) /\ jdn (Nat.iter k next_day x) = jdn x + Z.of_nat k.
Proof.
  intros Hx. induction k as [|k IH]; intros Hk; [by split; [done|rewrite Z.add_0_r]|]. rewrite Nat.iter_succ.
  destruct IH as [Hok E]; [lia|]. split; [apply next_day_ok; [done|lia]|]. rewrite jdn_next by done. lia.
Qed.

Lemma calendar_jdn n x :
  n + kJulianDayOf1970_01_01 <= jdn_max -> date_ok x -> jdn x = n + kJulianDayOf1970_01_01 -> calendar n x.
Proof.
  intros Hn Hx Hj. split; [done|]. assert (He : date_ok epoch_date) by (unfold date_ok; vm_compute; split_and!; congruence).
  assert (Hje : jdn epoch_date = kJulianDayOf1970_01_01) by done.
  destruct (0 <=? n) eqn:E.
  - destruct (iter_next_day epoch_date (Z.to_nat n) He) as [Hok Hi]; [lia|]. apply jdn_inj; [done..|]. lia.
  - change kJulianDayOf1970_01_01 with 2440588 in *. destruct (iter_next_day x (Z.to_nat (- n)) Hx) as [Hok Hi]; [unfold jdn_max; lia|].
    apply jdn_inj; [done..|]. lia.
Qed.

(** The date of a day number as the code computes it. *)
Lemma date_of_day n :
  jdn_min <= n <= jdn_max -> date_ok (getYearMonthDay n) /\ jdn (getYearMonthDay n) = n.
Proof. intros Hn. destruct (jdn_surj n Hn) as (x & Hx & <-). by destruct (jdn_spec x Hx) as (_ & -> & _). Qed.

(** ** UTC *)

(** The day and the second of the day, by truncating division and a correction. *)
Lemma split_seconds s :
  let seconds := Z.rem s 86400 in
  let days := Z.quot s 86400 in
  (if seconds <? 0 then (seconds + 86400, days - 1) else (seconds, days)) = (s mod 86400, s / 86400).
Proof. cbv zeta. case_match eqn:E; f_equal; Z.to_euclidean_division_equations; lia. Qed.

Lemma toUtcTime_eq s yday :
  utc_range s ->
  toUtcTime s yday =
  let date := s / 86400 + kJulianDayOf1970_01_01 in
  let ymd := getYearMonthDay date in
  mkTm (s mod 86400 mod 60) (s mod 86400 / 60 mod 60) (s mod 86400 / 60 / 60) (day ymd) (month ymd - 1) (year ymd - 1900)
    (weekDay date) (if yday then date - getJulianDayNumber (year ymd) 1 1 else 0) 0 0 (lit "GMT").
Proof.
  unfold utc_range. intros Hs. unfold toUtcTime. change kSecondsPerDay with 86400 in *. change kJulianDayOf1970_01_01 with 2440588 in *.
  rewrite !sint_small by (unfold in_sint; Z.to_euclidean_division_equations; lia). rewrite split_seconds.
  pose proof (Z.mod_pos_bound s 86400). by rewrite uint_small by lia.
Qed.

Lemma toUtcTime_spec s yday : utc_range s -> utc_spec s (toUtcTime s yday).
Proof.
  intros Hs. rewrite toUtcTime_eq by done. unfold utc_range in Hs. cbv zeta.
  destruct (date_of_day (s / 86400 + kJulianDayOf1970_01_01)) as [Hok Hj].
  { unfold jdn_min, jdn_max. change kJulianDayOf1970_01_01 with 2440588 in *. lia. }
  split; cbn [tm_year tm_mon tm_mday tm_hour tm_min tm_sec tm_wday]; try (Z.to_euclidean_division_equations; lia).
  - rewrite !Z.sub_add. destruct (getYearMonthDay _) as [y m d]. apply calendar_jdn; [|done..].
    unfold jdn_max. change kJulianDayOf1970_01_01 with 2440588. lia.
  - unfold weekDay, kDaysPerWeek. change kJulianDayOf1970_01_01 with 2440588 in *. Z.to_euclidean_division_equations; lia.
Qed.

(** A broken-down time of the calendar. *)
Record tm_ok (t : tm) : Prop := {
  to_date : date_ok (mkYMD (tm_year t + 1900) (tm_mon t + 1) (tm_mday t));
  to_hour : 0 <= tm_hour t < 24;
  to_min : 0 <= tm_min t < 60;
  to_sec : 0 <= tm_sec t < 60
}.

Lemma fromUtcTime_jdn t :
  fromUtcTime t = (jdn (mkYMD (tm_year t + 1900) (tm_mon t + 1) (tm_mday t)) - kJulianDayOf1970_01_01) * 86400
                  + (tm_hour t * 3600 + tm_min t * 60 + tm_sec t).
Proof. done. Qed.

Lemma fromUtcTime_toUtcTime s yday : utc_range s -> fromUtcTime (toUtcTime s yday) = s.
Proof.
  intros Hs. rewrite toUtcTime_eq by done. unfold utc_range in Hs. rewrite fromUtcTime_jdn. cbn [tm_year tm_mon tm_mday tm_hour tm_min tm_sec].
  rewrite !Z.sub_add. destruct (date_of_day (s / 86400 + kJulianDayOf1970_01_01)) as [Hok Hj].
  { unfold jdn_min, jdn_max. change kJulianDayOf1970_01_01 with 2440588 in *. lia. }
  destruct (getYearMonthDay _) as [y m d]. cbn [year month day]. rewrite Hj. Z.to_euclidean_division_equations. lia.
Qed.

Lemma toUtcTime_fromUtcTime t yday :
  tm_ok t -> utc_range (fromUtcTime t) ->
  let u := toUtcTime (fromUtcTime t) yday in
  (tm_year u, tm_mon u, tm_mday u, tm_hour u, tm_min u, tm_sec u) =
  (tm_year t, tm_mon t, tm_mday t, tm_hour t, tm_min t, tm_sec t).
Proof.
  intros [Hd Hh Hm Hs] Hr. cbv zeta. rewrite toUtcTime_eq by done. rewrite fromUtcTime_jdn.
  set (x := mkYMD _ _ _) in *. set (j := jdn x - kJulianDayOf1970_01_01). set (r := tm_hour t * 3600 + tm_min t * 60 + tm_sec t).
  assert (Hr' : 0 <= r < 86400) by lia.
  replace ((j * 86400 + r) / 86400) with j by (Z.to_euclidean_division_equations; lia).
  replace ((j * 86400 + r) mod 86400) with r by (Z.to_euclidean_division_equations; lia).
  unfold j. rewrite Z.sub_add. destruct (jdn_spec x Hd) as (_ & -> & _).
  cbn [x tm_year tm_mon tm_mday tm_hour tm_min tm_sec year month day]. unfold r.
  repeat (apply pair_eq; split); Z.to_euclidean_division_equations; lia.
Qed.

Lemma toUtcTime_yday s :
  utc_range s -> let t := toUtcTime s true in calendar (s / 86400 - tm_yday t) (mkYMD (tm_year t + 1900) 1 1).
Proof.
  intros Hs. cbv zeta. rewrite toUtcTime_eq by done. unfold utc_range in Hs. cbn [tm_year tm_yday].
  destruct (date_of_day (s / 86400 + kJulianDayOf1970_01_01)) as [(Hy & Hm & Hd) Hj].
  { unfold jdn_min, jdn_max. change kJulianDayOf1970_01_01 with 2440588 in *. lia. }
  destruct (getYearMonthDay _) as [y m d]. cbn [year month day] in *. rewrite Z.sub_add.
  assert (Hx : date_ok (mkYMD y 1 1)) by (unfold date_ok; cbn [year month day]; pose proof (days_in_month_bounds y 1); lia).
  apply calendar_jdn; [|done|unfold jdn; cbn [year month day]; lia].
  pose proof (jdn_spec _ Hx) as (_ & _ & Hb). unfold jdn in Hb. cbn [year month day] in Hb.
  unfold jdn_max. change kJulianDayOf1970_01_01 with 2440588 in *.
  assert (jdn (mkYMD y 1 1) <= jdn (mkYMD 1000000 1 1)) as Hle.
  { unfold jdn. cbn [year month day]. rewrite !jdn_march by lia. unfold march_month, march_year. cbn [Z.ltb Z.compare Pos.compare Pos.compare_cont].
    Z.to_euclidean_division_equations; lia. }
  change (jdn (mkYMD 1000000 1 1)) with 366963560 in Hle. unfold jdn in Hle. cbn [year month day] in Hle. lia.
Qed.

(** For every time whose date is in the years -4713 to 1000000, toUtcTime gives what
    gmtime(3) promises: the date that many days after (or before) 1970-01-01 counted in the
    Gregorian calendar, the time of the day, the day of the week and, on request, the days
    since January 1; fromUtcTime takes it back to the same second, and it inverts every
    broken-down time of the calendar. *)
Theorem utc_correct s t yday :
  utc_range s -> tm_ok t -> utc_range (fromUtcTime t) ->
  utc_spec s (toUtcTime s yday) /\ fromUtcTime (toUtcTime s yday) = s /\
  calendar (s / 86400 - tm_yday (toUtcTime s true)) (mkYMD (tm_year (toUtcTime s true) + 1900) 1 1) /\
  (let u := toUtcTime (fromUtcTime t) yday in
   (tm_year u, tm_mon u, tm_mday u, tm_hour u, tm_min u, tm_sec u) =
   (tm_year t, tm_mon t, tm_mday t, tm_hour t, tm_min t, tm_sec t)).
Proof.
  intros Hs Ht Hr. split_and!; [by apply toUtcTime_spec|by apply fromUtcTime_toUtcTime|by apply toUtcTime_yday|].
  by apply toUtcTime_fromUtcTime.
Qed.

(** One second before the epoch, and 2000-02-29 23:59:59. *)
Lemma utc_correct_witness :
  fromUtcTime (toUtcTime (-1) true) = -1 /\ tm_hour (toUtcTime (-1) true) = 23 /\ tm_yday (toUtcTime (-1) true) = 364 /\
  tm_mday (toUtcTime (fromUtcTime (mkTm 59 59 23 29 1 100 0 0 0 0 [])) false) = 29.
Proof.
  destruct (utc_correct (-1) (mkTm 59 59 23 29 1 100 0 0 0 0 []) true) as (_ & H & _ & _).
  - unfold utc_range. vm_compute. split; congruence.
  - split; cbn [tm_hour tm_min tm_sec]; [|lia..]. unfold date_ok. vm_compute. split_and!; congruence.
  - unfold utc_range. vm_compute. split; congruence.
  - split; [exact H|]. split_and!; vm_compute; reflexivity.
Defined.

(** ** Zones *)

Record Transition := mkTrans { gmttime : Z; localtime : Z; localtimeIdx : Z }.
Record Localtime := mkLocal { gmtOffset : Z; isDst : bool; arrbIdx : Z }.

(** [TimeZone::Data]; its [names] is never used. *)
Record Data := mkData { transitions : list Transition; localtimes : list Localtime; abbreviation : list char }.

Definition emptyData : Data := mkData [] [] [].

(** [Comp]: by UTC or by local time *)
Definition key (compareGmt : bool) (t : Transition) : Z := if compareGmt then gmttime t else localtime t.
Definition comp (compareGmt : bool) (lhs rhs : Transition) : bool := key compareGmt lhs <? key compareGmt rhs.
Definition comp_equal (compareGmt : bool) (lhs rhs : Transition) : bool := key compareGmt lhs =? key compareGmt rhs.

(** [std::lower_bound]: the first element not less than [v]; undefined unless the smaller
    elements come first. *)
Fixpoint count_less (gmt : bool) (v : Transition) (l : list Transition) : nat :=
  match l with
  | [] => 0%nat
  | t :: l => if comp gmt t v then S (count_less gmt v l) else 0%nat
  end.

Definition lower_bound (gmt : bool) (l : list Transition) (v : Transition) : res nat :=
  let n := count_less gmt v l in
  if forallb (fun t => negb (comp gmt t v)) (drop n l) then Ok n else Fault OutOfBounds.

Definition local_type (data : Data) (t : Transition) : res Localtime :=
  get (localtimes data !! Z.to_nat (localtimeIdx t)).

(** [detail::findLocaltime] *)
Definition findLocaltime (data : Data) (sentry : Transition) (gmt : bool) : res Localtime :=
  match transitions data with
  | [] => get (head (localtimes data))
  | front :: _ =>
      if comp gmt sentry front then get (head (localtimes data))
      else
        transI ← lower_bound gmt (transitions data) sentry;
        match transitions data !! transI with
        | Some t =>
            if negb (comp_equal gmt sentry t) then
              _ ← check (negb (transI =? 0)%nat);
              t' ← get (transitions data !! (transI - 1)%nat);
              local_type data t'
            else local_type data t
        | None => back ← get (last (transitions data)); local_type data back
        end
  end.

(** gmtime_r(3) on times of [utc_range], and timegm(3). *)
Definition gmtime (s : Z) : tm :=
  let date := s / 86400 + kJulianDayOf1970_01_01 in
  let ymd := getYearMonthDay date in
  let r := s mod 86400 in
  mkTm (r mod 60) (r / 60 mod 60) (r / 60 / 60) (day ymd) (month ymd - 1) (year ymd - 1900) (weekDay date)
    (date - getJulianDayNumber (year ymd) 1 1) 0 0 (lit "GMT").

Definition timegm (t : tm) : Z :=
  fromUtc (tm_year t + 1900 + tm_mon t / 12) (tm_mon t mod 12 + 1) (tm_mday t) (tm_hour t) (tm_min t) (tm_sec t).

(** The C string at [&s[i]]. *)
Fixpoint until_nul (s : list char) : list char :=
  match s with [] => [] | c :: s => if ord c =? 0 then [] else c :: until_nul s end.

Definition cstring_at (s : list char) (i : Z) : res (list char) :=
  if (0 <=? i) && (i <=? zlen s) then Ok (until_nul (drop (Z.to_nat i) s)) else Fault OutOfBounds.

(** [TimeZone::toLocalTime] *)
Definition toLocalTime (data_ : option Data) (seconds : Z) : res tm :=
  match data_ with
  | None => Fault AssertFailure
  | Some data =>
      local ← findLocaltime data (mkTrans seconds 0 0) true;
      let localSeconds := seconds + gmtOffset local in
      let t := gmtime localSeconds in
      zone ← cstring_at (abbreviation data) (arrbIdx local);
      Ok (mkTm (tm_sec t) (tm_min t) (tm_hour t) (tm_mday t) (tm_mon t) (tm_year t) (tm_wday t) (tm_yday t)
            (Z.b2z (isDst local)) (gmtOffset local) zone)
  end.

(** [TimeZone::fromLocalTime] *)
Definition fromLocalTime (data_ : option Data) (localTm : tm) : res Z :=
  match data_ with
  | None => Fault AssertFailure
  | Some data =>
      let seconds := timegm localTm in
      local ← findLocaltime data (mkTrans 0 seconds 0) false;
      seconds ← (if negb (tm_isdst localTm =? 0) then
                   tryTm ← toLocalTime data_ (seconds - gmtOffset local);
                   Ok (if (tm_isdst tryTm =? 0) && (tm_hour tryTm =? tm_hour localTm) && (tm_min tryTm =? tm_min localTm)
                       then seconds - 3600 else seconds)
                 else Ok seconds);
      Ok (seconds - gmtOffset local)
  end.

(** [TimeZone::TimeZone(int, const char* )] *)
Definition fixedZone (eastOfUtc : Z) (name : list char) : option Data :=
  Some (mkData [] [mkLocal eastOfUtc false 0] name).

(** ** Zone files

    Reading consumes the file and fills the data; an exception ends it. *)

Definition reading (A : Type) : Type := list char * Data -> (list char * Data) * res A.

#[global] Instance reading_ret : MRet reading := fun A a s => (s, Ok a).
#[global] Instance reading_bind : MBind reading := fun A B k m s =>
  match m s with
  | (s', Ok a) => k a s'
  | (s', Fault f) => (s', Fault f)
  end.

Definition throw {A} (msg : string) : reading A := fun s => (s, Fault (Thrown msg)).

(** Modifies the data. *)
Definition modify_data (f : Data -> Data) : reading unit := fun s => ((s.1, f s.2), Ok tt).

(** [File::readBytes]; an array of negative size is undefined *)
Definition readBytes (n : Z) : reading (list char) := fun s =>
  if n <? 0 then (s, Fault OutOfBounds)
  else if zlen s.1 <? n then (s, Fault (Thrown "no enough data"))
  else ((drop (Z.to_nat n) s.1, s.2), Ok (take (Z.to_nat n) s.1)).

Definition readInt32 : reading Z := fun s =>
  if zlen s.1 <? 4 then (s, Fault (Thrown "bad int32_t data"))
  else ((drop 4 s.1, s.2), Ok (int32 (of_be_bytes (take 4 s.1)))).

Definition readUInt8 : reading Z := fun s =>
  match s.1 with
  | [] => (s, Fault (Thrown "bad uint8_t data"))
  | c :: l => ((l, s.2), Ok (ord c))
  end.

(** [for (int i = 0; i < n; ++i)] with one result per round. *)
Fixpoint rounds {A} (n : nat) (m : reading A) : reading (list A) :=
  match n with
  | O => mret []
  | S n => x ← m; l ← rounds n m; mret (x :: l)
  end.

Fixpoint push_transitions (l : list (Z * Z)) : reading unit :=
  match l with
  | [] => mret tt
  | (trans, localIdx) :: l => fun s =>
      match localtimes s.2 !! Z.to_nat localIdx with
      | None => (s, Fault OutOfBounds)
      | Some lt =>
          push_transitions l
            (s.1, mkData (transitions s.2 ++ [mkTrans trans (trans + gmtOffset lt) localIdx]) (localtimes s.2) (abbreviation s.2))
      end
  end.

Definition read_local_type : reading unit :=
  gmtoff ← readInt32;
  isdst ← readUInt8;
  abbrind ← readUInt8;
  modify_data (fun d => mkData (transitions d) (localtimes d ++ [mkLocal gmtoff (negb (isdst =? 0)) abbrind]) (abbreviation d)).

(** The body of the [try] block; [vector::reserve] of a negative count throws
    [std::length_error], a [std::logic_error]. *)
Definition read_zone : reading unit :=
  head ← readBytes 4;
  if negb (bool_decide (head = lit "TZif")) then throw "bad head" else
  _ ← readBytes 1;
  _ ← readBytes 15;
  _ ← readInt32;
  _ ← readInt32;
  _ ← readInt32;
  timecnt ← readInt32;
  typecnt ← readInt32;
  charcnt ← readInt32;
  if timecnt <? 0 then throw "vector::reserve" else
  trans ← rounds (Z.to_nat timecnt) readInt32;
  idx ← rounds (Z.to_nat timecnt) readUInt8;
  _ ← rounds (Z.to_nat typecnt) read_local_type;
  _ ← push_transitions (zip trans idx);
  abbr ← readBytes charcnt;
  modify_data (fun d => mkData (transitions d) (localtimes d) abbr).

(** [detail::readTimeZoneFile]: [None] is a file that cannot be opened. *)
Definition readTimeZoneFile (zonefile : option (list char)) (data : Data) : res (bool * Data) :=
  match zonefile with
  | None => Ok (true, data)
  | Some content =>
      match read_zone (content, data) with
      | ((_, data'), Ok _) | ((_, data'), Fault (Thrown _)) => Ok (true, data')
      | (_, Fault f) => Fault f
      end
  end.

(** [TimeZone::TimeZone(const char* )] *)
Definition openZone (zonefile : option (list char)) : res (option Data) :=
  match readTimeZoneFile zonefile emptyData with
  | Ok (true, data) => Ok (Some data)
  | Ok (false, _) => Ok None
  | Fault f => Fault f
  end.

(** ** What the lookup finds *)

(** The last transition not after [v], starting from [cur]. *)
Fixpoint in_force (gmt : bool) (v : Z) (cur : Transition) (l : list Transition) : Transition :=
  match l with
  | [] => cur
  | t :: l => if key gmt t <=? v then in_force gmt v t l else cur
  end.

(** The local time type in force at [v]: that of the last transition not after it, [p]
    before the first one. *)
Fixpoint type_in_force (data : Data) (gmt : bool) (v : Z) (p : Localtime) (l : list Transition) : Localtime :=
  match l with
  | [] => p
  | t :: l =>
      if key gmt t <=? v then type_in_force data gmt v (default p (localtimes data !! Z.to_nat (localtimeIdx t))) l else p
  end.

Definition key_lt (gmt : bool) (a b : Transition) : Prop := key gmt a < key gmt b.

Lemma count_less_sorted gmt v l :
  StronglySorted (key_lt gmt) l -> forallb (fun t => negb (comp gmt t v)) (drop (count_less gmt v l) l) = true.
Proof.
  induction 1 as [|t l Hs IH Hf]; [done|]. cbn [count_less]. destruct (comp gmt t v) eqn:E; [done|].
  cbn [drop forallb]. rewrite E. cbn. apply forallb_forall. intros u Hu%list_elem_of_In. rewrite Forall_forall in Hf.
  specialize (Hf u Hu). unfold comp, key_lt in *. apply negb_true_iff. lia.
Qed.

Lemma pick_transition gmt v t0 l :
  StronglySorted (key_lt gmt) (t0 :: l) -> key gmt t0 <= key gmt v ->
  (match (t0 :: l) !! count_less gmt v (t0 :: l) with
   | Some t =>
       if negb (comp_equal gmt v t) then
         _ ← check (negb (count_less gmt v (t0 :: l) =? 0)%nat);
         get ((t0 :: l) !! (count_less gmt v (t0 :: l) - 1)%nat)
       else Ok t
   | None => get (last (t0 :: l))
   end) = Ok (in_force gmt (key gmt v) t0 l).
Proof.
  revert t0. induction l as [|t1 l IH]; intros t0 Hs Hv.
  - cbn [count_less in_force]. unfold comp, comp_equal. destruct (key gmt t0 <? key gmt v) eqn:E; cbn; [done|].
    by replace (key gmt v =? key gmt t0) with true by lia.
  - apply StronglySorted_inv in Hs as [Hs Hf]. inversion Hf as [|? ? Ht1 _]. subst. unfold key_lt in Ht1.
    cbn [in_force]. destruct (key gmt t0 <? key gmt v) eqn:E.
    + assert (Hc : count_less gmt v (t0 :: t1 :: l) = S (count_less gmt v (t1 :: l))) by (cbn [count_less]; unfold comp at 1; by rewrite E).
      rewrite Hc. cbn [lookup list_lookup]. destruct (key gmt t1 <=? key gmt v) eqn:E1.
      * rewrite <- (IH t1 Hs) by lia. change (last (t0 :: t1 :: l)) with (last (t1 :: l)).
        destruct ((t1 :: l) !! count_less gmt v (t1 :: l)) as [t|] eqn:El; [|done].
        destruct (comp_equal gmt v t) eqn:Ee; [done|]. cbn [negb].
        destruct (count_less gmt v (t1 :: l)) as [|n] eqn:En; [|by cbn; rewrite Nat.sub_0_r].
        cbn in El. injection El as <-. cbn [count_less] in En. unfold comp, comp_equal in *. destruct (key gmt t1 <? key gmt v) eqn:E2; [done|lia].
      * assert (Hc1 : count_less gmt v (t1 :: l) = 0%nat) by (cbn [count_less]; unfold comp; by replace (key gmt t1 <? key gmt v) with false by lia).
        rewrite Hc1. cbn. unfold comp_equal. by replace (key gmt v =? key gmt t1) with false by lia.
    + assert (Hc : count_less gmt v (t0 :: t1 :: l) = 0%nat) by (cbn [count_less]; unfold comp; by rewrite E).
      rewrite Hc. cbn. unfold comp_equal. replace (key gmt v =? key gmt t0) with true by lia. cbn.
      by replace (key gmt t1 <=? key gmt v) with false by lia.
Qed.

(** Every type a transition names exists. *)
Definition types_ok (data : Data) : Prop :=
  Forall (fun t => is_Some (localtimes data !! Z.to_nat (localtimeIdx t))) (transitions data).

Lemma type_of_in_force data gmt v p t0 l :
  Forall (fun t => is_Some (localtimes data !! Z.to_nat (localtimeIdx t))) (t0 :: l) ->
  localtimes data !! Z.to_nat (localtimeIdx (in_force gmt v t0 l)) =
  Some (type_in_force data gmt v (default p (localtimes data !! Z.to_nat (localtimeIdx t0))) l).
Proof.
  revert p t0. induction l as [|t1 l IH]; intros p t0 [[q Hq] Hf]%Forall_cons; cbn [in_force type_in_force]; [by rewrite Hq|].
  destruct (key gmt t1 <=? v); [|by rewrite Hq]. by apply IH.
Qed.

Lemma findLocaltime_ok data gmt v p rest :
  StronglySorted (key_lt gmt) (transitions data) -> types_ok data -> localtimes data = p :: rest ->
  findLocaltime data v gmt = Ok (type_in_force data gmt (key gmt v) p (transitions data)).
Proof.
  intros Hs Ht Hl. unfold findLocaltime, types_ok in *. destruct (transitions data) as [|t0 l] eqn:El; [by rewrite Hl|].
  unfold comp at 1. destruct (key gmt v <? key gmt t0) eqn:E.
  - rewrite Hl. cbn [type_in_force]. by replace (key gmt t0 <=? key gmt v) with false by lia.
  - unfold lower_bound. rewrite count_less_sorted by done. cbn [mbind res_bind].
    pose proof (pick_transition gmt v t0 l Hs ltac:(lia)) as Hp.
    assert (Hlt : local_type data (in_force gmt (key gmt v) t0 l) = Ok (type_in_force data gmt (key gmt v) p (t0 :: l))).
    { unfold local_type. rewrite (type_of_in_force data gmt _ p) by done. cbn [type_in_force]. by replace (key gmt t0 <=? key gmt v) with true by lia. }
    rewrite <- Hlt. destruct ((t0 :: l) !! count_less gmt v (t0 :: l)) as [t|].
    + destruct (negb (comp_equal gmt v t)); [|by injection Hp as ->].
      destruct (check _) as [[]|]; [|done]. cbn [mbind res_bind] in *. by rewrite Hp.
    + by rewrite Hp.
Qed.

(** ** Local time and back *)

(** The clock goes forward, or back by the hour that ends daylight saving time. *)
Definition step_ok (p q : Localtime) : Prop :=
  gmtOffset p <= gmtOffset q \/ (gmtOffset p = gmtOffset q + 3600 /\ isDst p = true /\ isDst q = false).

(** Transitions at least a day apart, each such a step from the type before it. *)
Fixpoint steps_ok (data : Data) (p : Localtime) (l : list Transition) : Prop :=
  match l with
  | [] => True
  | t :: l =>
      exists q, localtimes data !! Z.to_nat (localtimeIdx t) = Some q /\ localtime t = gmttime t + gmtOffset q /\ step_ok p q /\
        match l with [] => True | t' :: _ => gmttime t + 86400 <= gmttime t' end /\ steps_ok data q l
  end.

Record zone_ok (data : Data) : Prop := {
  zo_types : exists p rest, localtimes data = p :: rest /\ steps_ok data p (transitions data);
  zo_each : Forall (fun q => -86400 <= gmtOffset q <= 86400 /\ 0 <= arrbIdx q <= zlen (abbreviation data)) (localtimes data)
}.

Lemma steps_types data p l : steps_ok data p l -> Forall (fun t => is_Some (localtimes data !! Z.to_nat (localtimeIdx t))) l.
Proof.
  revert p. induction l as [|t l IH]; intros p; cbn [steps_ok]; [constructor|].
  intros (q & Hq & _ & _ & _ & Hl). constructor; [by exists q|by eapply IH].
Qed.

Lemma steps_sorted data p l gmt : steps_ok data p l -> StronglySorted (key_lt gmt) l.
Proof.
  intros H. apply Sorted_StronglySorted; [intros a b c; unfold key_lt; lia|]. revert p H.
  induction l as [|t l IH]; intros p; cbn [steps_ok]; [constructor|]. intros (q & Hq & Hlt & _ & Hg & Hl).
  constructor; [by eapply IH|]. destruct l as [|t' l]; constructor. cbn [steps_ok] in Hl.
  destruct Hl as (q' & _ & Hlt' & Hst & _). unfold key_lt, key. destruct gmt; [lia|]. destruct Hst as [|[? _]]; lia.
Qed.

(** From [b] on, local time stays after [b]'s. *)
Lemma local_after data p l s b :
  steps_ok data p l -> match l with [] => True | t :: _ => b + 86400 <= gmttime t end -> b <= s ->
  b + gmtOffset p <= s + gmtOffset (type_in_force data true s p l).
Proof.
  revert p b. induction l as [|t l IH]; intros p b; cbn [steps_ok type_in_force]; [lia|].
  intros (q & Hq & Hlt & Hst & Hg & Hl) Hb Hbs. rewrite Hq. cbn [key default from_option id]. destruct (gmttime t <=? s) eqn:E; [|lia].
  specialize (IH q (gmttime t) Hl Hg ltac:(lia)). destruct Hst as [|[? _]]; lia.
Qed.

(** Looking up the local time finds the type in force, or, in the hour repeated when
    daylight saving time ends, the type after it. *)
Lemma lookup_local data p l s :
  steps_ok data p l ->
  let q := type_in_force data true s p l in
  let r := type_in_force data false (s + gmtOffset q) p l in
  r = q \/ (gmtOffset q = gmtOffset r + 3600 /\ isDst q = true /\ isDst r = false /\ type_in_force data true (s + 3600) p l = r).
Proof.
  cbv zeta. revert p. induction l as [|t l IH]; intros p; cbn [steps_ok]; [by left|].
  intros (q & Hq & Hlt & Hst & Hg & Hl). cbn [type_in_force key]. rewrite Hq. cbn [default from_option id].
  destruct (gmttime t <=? s) eqn:E.
  - pose proof (local_after data q l s (gmttime t) Hl Hg ltac:(lia)) as Ha. rewrite Hlt.
    replace (gmttime t + gmtOffset q <=? _) with true by lia. replace (gmttime t <=? s + 3600) with true by lia. by apply IH.
  - rewrite Hlt. destruct (gmttime t + gmtOffset q <=? s + gmtOffset p) eqn:El; [|by left]. right.
    destruct Hst as [?|(Ho & Hp & Hn)]; [lia|].
    assert (Hr : type_in_force data false (s + gmtOffset p) q l = q /\ type_in_force data true (s + 3600) q l = q).
    { destruct l as [|t' l]; [done|]. cbn [steps_ok] in Hl. destruct Hl as (q' & _ & Hlt' & Hst' & _).
      cbn [type_in_force key]. rewrite Hlt'. replace (gmttime t' <=? s + 3600) with false by lia.
      replace (gmttime t' + gmtOffset q' <=? s + gmtOffset p) with false; [done|]. symmetry. apply Z.leb_gt. destruct Hst' as [|[? _]]; lia. }
    replace (gmttime t <=? s + 3600) with true by lia. by destruct Hr as [-> ->].
Qed.

Lemma type_in_force_elem data gmt v p rest l :
  localtimes data = p :: rest -> type_in_force data gmt v p l ∈ localtimes data.
Proof.
  intros Hl. assert (Hp : p ∈ localtimes data) by (rewrite Hl; apply list_elem_of_here). clear Hl. revert p Hp.
  induction l as [|t l IH]; intros p Hp; cbn [type_in_force]; [done|]. case_match; [|done]. apply IH.
  destruct (localtimes data !! _) as [q|] eqn:E; [|done]. by eapply list_elem_of_lookup_2.
Qed.

Lemma gmtime_eq s : utc_range s -> gmtime s = toUtcTime s true.
Proof. intros Hs. by rewrite toUtcTime_eq. Qed.

Lemma timegm_gmtime s : utc_range s -> timegm (gmtime s) = s.
Proof.
  intros Hs. pose proof (toUtcTime_spec s true Hs) as [((_ & Hm & _) & _) _ _ _ _ _]. cbn [month] in Hm.
  transitivity (fromUtcTime (toUtcTime s true)); [|by apply fromUtcTime_toUtcTime]. rewrite gmtime_eq by done.
  unfold timegm, fromUtcTime. rewrite Z.div_small, Z.mod_small by lia. by rewrite Z.add_0_r.
Qed.

Lemma timegm_fields t d o z :
  timegm (mkTm (tm_sec t) (tm_min t) (tm_hour t) (tm_mday t) (tm_mon t) (tm_year t) (tm_wday t) (tm_yday t) d o z) = timegm t.
Proof. done. Qed.

Definition local_tm (data : Data) (s : Z) (q : Localtime) : tm :=
  let t := gmtime (s + gmtOffset q) in
  mkTm (tm_sec t) (tm_min t) (tm_hour t) (tm_mday t) (tm_mon t) (tm_year t) (tm_wday t) (tm_yday t)
    (Z.b2z (isDst q)) (gmtOffset q) (until_nul (drop (Z.to_nat (arrbIdx q)) (abbreviation data))).

Lemma toLocalTime_ok data s p rest :
  localtimes data = p :: rest -> zone_ok data ->
  toLocalTime (Some data) s = Ok (local_tm data s (type_in_force data true s p (transitions data))).
Proof.
  intros Hl [(p' & rest' & Hl' & Hst) Hz]. rewrite Hl in Hl'. injection Hl' as <- <-. unfold toLocalTime.
  rewrite (findLocaltime_ok data true (mkTrans s 0 0) p rest); [|by eapply steps_sorted|by eapply steps_types|done].
  cbn [mbind res_bind key gmttime]. set (q := type_in_force _ _ _ _ _). rewrite Forall_forall in Hz.
  destruct (Hz q (type_in_force_elem _ _ _ _ _ _ Hl)) as [_ Ha]. unfold cstring_at.
  by replace ((0 <=? arrbIdx q) && (arrbIdx q <=? zlen (abbreviation data))) with true by lia.
Qed.

(** In a zone whose clock goes forward, or back by one hour at the end of daylight
    saving time, with transitions at least a day apart: toLocalTime gives the broken-down
    time of the type in force, and fromLocalTime takes it back to the same second, also in
    the hour that occurs twice. *)
Theorem local_time_correct data s :
  zone_ok data -> -10 ^ 11 <= s <= 10 ^ 13 ->
  exists p t, head (localtimes data) = Some p /\
    let q := type_in_force data true s p (transitions data) in
    toLocalTime (Some data) s = Ok t /\ utc_spec (s + gmtOffset q) t /\
    tm_gmtoff t = gmtOffset q /\ tm_isdst t = Z.b2z (isDst q) /\
    fromLocalTime (Some data) t = Ok s.
Proof.
  intros Hok Hs. pose proof Hok as [(p & rest & Hl & Hst) Hz]. exists p, (local_tm data s (type_in_force data true s p (transitions data))).
  split; [by rewrite Hl|]. cbv zeta. set (q := type_in_force data true s p (transitions data)).
  assert (Hoff : -86400 <= gmtOffset q <= 86400) by (rewrite Forall_forall in Hz; eapply Hz, type_in_force_elem, Hl).
  assert (Hr : utc_range (s + gmtOffset q)) by (unfold utc_range; change kJulianDayOf1970_01_01 with 2440588; Z.to_euclidean_division_equations; lia).
  split; [by eapply toLocalTime_ok|]. split; [|split_and!; [done..|]].
  { pose proof (toUtcTime_spec _ true Hr) as H. unfold local_tm. rewrite gmtime_eq by done. by destruct H. }
  unfold fromLocalTime. assert (Htg : timegm (local_tm data s q) = s + gmtOffset q) by (unfold local_tm; cbv zeta; by rewrite timegm_fields, timegm_gmtime).
  rewrite Htg, (findLocaltime_ok data false _ p rest) by first [done|by eapply steps_sorted|by eapply steps_types].
  cbn [mbind res_bind key localtime tm_isdst local_tm].
  pose proof (lookup_local data p (transitions data) s Hst) as Hlook. cbv zeta in Hlook. fold q in Hlook.
  set (r := type_in_force data false (s + gmtOffset q) p (transitions data)) in *.
  destruct Hlook as [-> | (Ho & Hq & Hr' & Hf)].
  - destruct (isDst q) eqn:Eq; cbn [Z.b2z negb Z.eqb]; [|cbn; f_equal; lia].
    rewrite Z.add_simpl_r, (toLocalTime_ok data s p rest) by done. fold q. cbn [mbind res_bind tm_isdst local_tm]. rewrite Eq. cbn. f_equal. lia.
  - rewrite Hq. cbn [Z.b2z negb Z.eqb]. replace (s + gmtOffset q - gmtOffset r) with (s + 3600) by lia.
    rewrite (toLocalTime_ok data (s + 3600) p rest), Hf by done. cbn [mbind res_bind tm_isdst local_tm tm_hour tm_min].
    rewrite Hr'. replace (s + 3600 + gmtOffset r) with (s + gmtOffset q) by lia. rewrite !Z.eqb_refl. cbn. f_equal. lia.
Qed.

(** New York in 2021, half an hour before daylight saving time ended. *)
Definition new_york : Data :=
  mkData [mkTrans 1615705200 (1615705200 - 14400) 1; mkTrans 1636264800 (1636264800 - 18000) 0]
    [mkLocal (-18000) false 0; mkLocal (-14400) true 4] (lit "EST" ++ [chr 0] ++ lit "EDT" ++ [chr 0]).

Lemma new_york_ok : zone_ok new_york.
Proof.
  split.
  - exists (mkLocal (-18000) false 0), [mkLocal (-14400) true 4]. split; [reflexivity|]. cbn [transitions new_york steps_ok].
    exists (mkLocal (-14400) true 4). split_and!; [done|done|left; cbn; lia|cbn; lia|].
    exists (mkLocal (-18000) false 0). split_and!; [done|done|by right|done|done].
  - repeat (constructor; [vm_compute; split_and!; congruence|]). constructor.
Qed.

Lemma local_time_correct_witness :
  exists t, toLocalTime (Some new_york) (1636264800 - 1800) = Ok t /\ tm_hour t = 1 /\ tm_min t = 30 /\ tm_isdst t = 1 /\
    tm_zone t = lit "EDT" /\ fromLocalTime (Some new_york) t = Ok (1636264800 - 1800).
Proof.
  destruct (local_time_correct new_york (1636264800 - 1800) new_york_ok) as (p & t & _ & Ht & _ & _ & _ & Hf); [lia|].
  exists t. split; [exact Ht|]. vm_compute in Ht. injection Ht as <-. split_and!; [reflexivity..|exact Hf].
Defined.

(** ** Zone files and back *)

Definition put32 (z : Z) : list char := be_bytes 4 z.

(** A version 1 zone file: [l] are the transitions (time and type), [types] the local time
    types. *)
Definition print_type (q : Localtime) : list char :=
  put32 (gmtOffset q) ++ [chr (Z.b2z (isDst q)); chr (arrbIdx q)].

Definition zone_header (version : char) (reserved : list char) (isgmtcnt isstdcnt leapcnt timecnt typecnt charcnt : Z) : list char :=
  lit "TZif" ++ [version] ++ reserved ++ put32 isgmtcnt ++ put32 isstdcnt ++ put32 leapcnt ++
  put32 timecnt ++ put32 typecnt ++ put32 charcnt.

Definition print_zone (version : char) (reserved : list char) (isgmtcnt isstdcnt leapcnt : Z)
  (l : list (Z * Z)) (types : list Localtime) (abbr : list char) : list char :=
  zone_header version reserved isgmtcnt isstdcnt leapcnt (zlen l) (zlen types) (zlen abbr) ++
  concat ((fun x => put32 x.1) <$> l) ++ ((fun x => chr x.2) <$> l) ++ concat (print_type <$> types) ++ abbr.

(** The data such a file stands for. *)
Definition transition_of (types : list Localtime) (x : Z * Z) : Transition :=
  mkTrans x.1 (x.1 + gmtOffset (default (mkLocal 0 false 0) (types !! Z.to_nat x.2))) x.2.

Definition zone_data (l : list (Z * Z)) (types : list Localtime) (abbr : list char) : Data :=
  mkData (transition_of types <$> l) types abbr.

(** Numbers that fit the file's fields. *)
Record printable (reserved : list char) (l : list (Z * Z)) (types : list Localtime) (abbr : list char) : Prop := {
  pr_reserved : zlen reserved = 15;
  pr_times : Forall (fun x => in_sint 32 x.1 /\ 0 <= x.2 < 256 /\ x.2 < zlen types) l;
  pr_types : Forall (fun q => in_sint 32 (gmtOffset q) /\ 0 <= arrbIdx q < 256) types;
  pr_counts : zlen l < 2 ^ 31 /\ zlen types < 2 ^ 31 /\ zlen abbr < 2 ^ 31
}.

(** [reads m s x s']: [m] takes [s] to [s'] and returns [x]. *)
Definition reads {A} (m : reading A) (s : list char * Data) (x : A) (s' : list char * Data) : Prop := m s = (s', Ok x).

Lemma reads_bind {A B} (m : reading A) (k : A -> reading B) s x s' y s'' :
  reads m s x s' -> reads (k x) s' y s'' -> reads (m ≫= k) s y s''.
Proof. unfold reads, mbind, reading_bind. by intros -> ->. Qed.

Lemma reads_bytes w rest d n : zlen w = n -> reads (readBytes n) (w ++ rest, d) w (rest, d).
Proof.
  intros <-. unfold reads, readBytes. cbn [fst snd]. pose proof (zlen_nonneg w). pose proof (zlen_nonneg rest).
  rewrite zlen_app. replace (zlen w <? 0) with false by lia. replace (zlen w + zlen rest <? zlen w) with false by lia.
  unfold zlen. by rewrite Nat2Z.id, drop_app_length, take_app_length.
Qed.

Lemma reads_int32 z rest d : in_sint 32 z -> reads readInt32 (put32 z ++ rest, d) z (rest, d).
Proof.
  intros Hz. unfold reads, readInt32, put32. cbn [fst snd]. pose proof (zlen_nonneg rest).
  assert (Hl : length (be_bytes 4 z) = 4%nat) by apply length_be_bytes.
  assert (Hz4 : zlen (be_bytes 4 z) = 4) by (unfold zlen; by rewrite Hl).
  rewrite zlen_app, Hz4. replace (4 + zlen rest <? 4) with false by lia.
  rewrite take_app_length', drop_app_length' by done. rewrite of_be_be_bytes. by rewrite sint_uint, sint_small.
Qed.

Lemma reads_uint8 z rest d : 0 <= z < 256 -> reads readUInt8 (chr z :: rest, d) z (rest, d).
Proof. intros Hz. unfold reads, readUInt8. cbn. by rewrite ord_chr. Qed.

(** A loop that reads one printed item per round. *)
Lemma reads_rounds {A B} (m : reading A) (f : B -> list char) (g : B -> A) (h : B -> Data -> Data) (l : list B) rest d :
  (forall x rest d, x ∈ l -> reads m (f x ++ rest, d) (g x) (rest, h x d)) ->
  reads (rounds (length l) m) (concat (f <$> l) ++ rest, d) (g <$> l) (rest, foldl (fun d x => h x d) d l).
Proof.
  revert d. induction l as [|x l IH]; intros d H; [done|]. cbn [rounds length fmap list_fmap concat foldl].
  rewrite <- (assoc_L app). eapply reads_bind; [apply H, list_elem_of_here|].
  eapply reads_bind; [apply IH; intros; apply H; by apply list_elem_of_further|]. done.
Qed.

Lemma reads_local_types types rest d :
  Forall (fun q => in_sint 32 (gmtOffset q) /\ 0 <= arrbIdx q < 256) types ->
  exists us, reads (rounds (length types) read_local_type) (concat (print_type <$> types) ++ rest, d) us
    (rest, mkData (transitions d) (localtimes d ++ types) (abbreviation d)).
Proof.
  intros Ht. eexists. unfold reads.
  rewrite (reads_rounds read_local_type print_type (fun _ => tt)
    (fun q d => mkData (transitions d) (localtimes d ++ [q]) (abbreviation d))).
  - f_equal. f_equal. clear Ht. revert d. induction types as [|q types IH]; intros [tr lt ab]; cbn [foldl]; [cbn; by rewrite app_nil_r|].
    rewrite IH. cbn. by rewrite <- (assoc_L app).
  - rewrite Forall_forall in Ht. intros q r d' Hq. destruct (Ht q Hq) as [Hg Ha]. unfold read_local_type, print_type.
    rewrite <- (assoc_L app). eapply reads_bind; [by apply reads_int32|]. cbn [app].
    eapply reads_bind; [apply reads_uint8; destruct (isDst q); cbn; lia|].
    eapply reads_bind; [by apply reads_uint8|]. unfold reads, modify_data. cbn. do 5 f_equal. by destruct q as [? [] ?].
Qed.

Lemma reads_transitions types l rest d :
  localtimes d = types -> Forall (fun x => 0 <= x.2 /\ x.2 < zlen types) l ->
  reads (push_transitions l) (rest, d) tt
    (rest, mkData (transitions d ++ (transition_of types <$> l)) types (abbreviation d)).
Proof.
  intros Hd Hl. revert d Hd. induction Hl as [|[t i] l [Hi1 Hi2] _ IH]; intros d Hd; cbn [push_transitions fmap list_fmap].
  - unfold reads. cbn. rewrite app_nil_r. by destruct d; subst.
  - unfold reads. cbn [fst snd] in *. destruct (lookup_lt_is_Some_2 types (Z.to_nat i)) as [q Hq]; [unfold zlen in *; lia|].
    rewrite Hd, Hq. etransitivity; [by apply IH|]. cbn. rewrite <- (assoc_L app). unfold transition_of at 2. cbn [fst snd]. by rewrite Hq.
Qed.

Lemma zip_fst_snd {A B} (l : list (A * B)) : zip (fst <$> l) (snd <$> l) = l.
Proof. induction l as [|[a b] l IH]; cbn; [done|by rewrite IH]. Qed.

Lemma concat_singletons {A B} (f : A -> B) (l : list A) : concat ((fun x => [f x]) <$> l) = f <$> l.
Proof. induction l as [|x l IH]; cbn; [done|by rewrite IH]. Qed.

Lemma to_nat_zlen {A} (l : list A) : Z.to_nat (zlen l) = length l.
Proof. unfold zlen. apply Nat2Z.id. Qed.

Lemma reads_zone version reserved isgmtcnt isstdcnt leapcnt l types abbr rest :
  printable reserved l types abbr -> in_sint 32 isgmtcnt -> in_sint 32 isstdcnt -> in_sint 32 leapcnt ->
  reads read_zone (print_zone version reserved isgmtcnt isstdcnt leapcnt l types abbr ++ rest, emptyData) tt
    (rest, zone_data l types abbr).
Proof.
  intros [Hres Htimes Htypes (Hl & Hty & Hab)] H1 H2 H3. unfold print_zone, zone_header, read_zone. rewrite <- !(assoc_L app).
  pose proof (zlen_nonneg l). pose proof (zlen_nonneg types). pose proof (zlen_nonneg abbr).
  eapply reads_bind; [by apply reads_bytes|]. rewrite bool_decide_true by done. cbn [negb].
  eapply reads_bind; [by apply (reads_bytes [version])|]. eapply reads_bind; [by apply reads_bytes|].
  do 3 (eapply reads_bind; [by apply reads_int32|]).
  do 3 (eapply reads_bind; [by apply reads_int32; unfold in_sint; cbn; lia|]).
  replace (zlen l <? 0) with false by lia. rewrite !to_nat_zlen.
  eapply reads_bind; [apply (reads_rounds readInt32 (fun x => put32 x.1) fst (fun _ d => d))|].
  { intros x r d Hx. apply reads_int32. rewrite Forall_forall in Htimes. by apply Htimes. }
  rewrite <- (concat_singletons (fun x : Z * Z => chr x.2)).
  eapply reads_bind; [apply (reads_rounds readUInt8 (fun x => [chr x.2]) snd (fun _ d => d))|].
  { intros x r d Hx. apply reads_uint8. rewrite Forall_forall in Htimes. by apply Htimes. }
  assert (Hid : forall d : Data, foldl (fun d (_ : Z * Z) => d) d l = d) by (intros d; clear; induction l; cbn; done).
  rewrite !Hid. destruct (reads_local_types types (abbr ++ rest) emptyData Htypes) as [us Hus].
  eapply reads_bind; [exact Hus|]. rewrite zip_fst_snd.
  eapply reads_bind; [apply (reads_transitions types); [done|]|].
  { eapply Forall_impl; [exact Htimes|]. cbn. lia. }
  eapply reads_bind; [by apply reads_bytes|]. done.
Qed.

(** A file that is missing or does not start with TZif. *)
Definition no_zone (f : option (list char)) : Prop :=
  match f with None => True | Some c => take 4 c <> lit "TZif" end.

Lemma no_zone_data f : no_zone f -> openZone f = Ok (Some emptyData).
Proof.
  destruct f as [c|]; [|done]. cbn [no_zone]. intros Hc. unfold openZone, readTimeZoneFile.
  assert (H : exists l msg, read_zone (c, emptyData) = ((l, emptyData), Fault (Thrown msg))); [|by destruct H as (l & msg & ->)].
  unfold read_zone. unfold mbind at 1, reading_bind at 1. unfold readBytes at 1. cbn [fst snd Z.ltb Z.compare].
  change (Z.to_nat 4) with 4%nat. destruct (zlen c <? 4); [by eexists _, _|].
  rewrite bool_decide_false by done. by eexists _, _.
Qed.

(** Reading a zone file gives exactly the transitions, types and abbreviations it was
    written from, whatever follows them (leap seconds, the second part of a newer file);
    without a zone file the constructor still yields a zone that says it is valid, and
    converting a time in it reads the front of an empty vector. *)
Theorem zone_file_correct version reserved isgmtcnt isstdcnt leapcnt l types abbr rest f s :
  printable reserved l types abbr -> in_sint 32 isgmtcnt -> in_sint 32 isstdcnt -> in_sint 32 leapcnt -> no_zone f ->
  openZone (Some (print_zone version reserved isgmtcnt isstdcnt leapcnt l types abbr ++ rest)) = Ok (Some (zone_data l types abbr)) /\
  openZone f = Ok (Some emptyData) /\ toLocalTime (Some emptyData) s = Fault OutOfBounds.
Proof.
  intros Hp H1 H2 H3 Hf. split_and!; [|by apply no_zone_data|done]. unfold openZone, readTimeZoneFile.
  by rewrite (reads_zone version reserved isgmtcnt isstdcnt leapcnt l types abbr rest).
Qed.

Lemma zone_file_correct_witness :
  openZone (Some (print_zone (chr 50) (replicate 15 (chr 0)) 0 0 0 [(1615705200, 1); (1636264800, 0)]
    (localtimes new_york) (abbreviation new_york) ++ lit "TZif2")) = Ok (Some new_york) /\
  openZone (Some (lit "EST5EDT")) = Ok (Some emptyData).
Proof.
  destruct (zone_file_correct (chr 50) (replicate 15 (chr 0)) 0 0 0 [(1615705200, 1); (1636264800, 0)]
    (localtimes new_york) (abbreviation new_york) (lit "TZif2") (Some (lit "EST5EDT")) 0) as (H1 & H2 & _).
  - split; [done|repeat constructor; vm_compute; congruence..|vm_compute; done].
  - unfold in_sint. lia.
  - unfold in_sint. lia.
  - unfold in_sint. lia.
  - cbn [no_zone]. vm_compute. congruence.
  - split; [exact H1|exact H2].
Defined.
