(* ===== verification/TimeFormat.v ===== *)
(** * Dates and times as text
      (Timestamp::toString and toFormattedString, src/muduo/base/Timestamp.cc;
       Date::toIsoString, src/muduo/base/Date.cc; LogFile::getLogFileName,
       src/muduo/base/LogFile.cc)

    [snprintf] writes at most the size of its buffer less one character. *)

From S2P Require Import Prelude Decimal Date TimeZone Timestamp.

Definition snprintf (size : Z) (s : list char) : list char := take (Z.to_nat (size - 1)) s.

(** [%02d], [%06d], [%4d] *)
Definition pad2 (z : Z) : list char := padded (digit 0) 2 z.
Definition pad6 (z : Z) : list char := padded (digit 0) 6 z.
Definition pad_year (z : Z) : list char := padded (chr 32) 4 z.

(** [Timestamp::toString] *)
Definition toString (microSecondsSinceEpoch : Z) : list char :=
  let seconds := Z.quot microSecondsSinceEpoch kMicroSecondsPerSecond in
  let microseconds := Z.rem microSecondsSinceEpoch kMicroSecondsPerSecond in
  snprintf 32 (dec seconds ++ lit "." ++ pad6 microseconds).

(** [%4d%02d%02d %02d:%02d:%02d] of a broken-down time *)
Definition tm_text (t : tm) : list char :=
  pad_year (tm_year t + 1900) ++ pad2 (tm_mon t + 1) ++ pad2 (tm_mday t) ++ lit " " ++
  pad2 (tm_hour t) ++ lit ":" ++ pad2 (tm_min t) ++ lit ":" ++ pad2 (tm_sec t).

(** [Timestamp::toFormattedString] *)
Definition toFormattedString (microSecondsSinceEpoch : Z) (showMicroseconds : bool) : list char :=
  let t := gmtime (Z.quot microSecondsSinceEpoch kMicroSecondsPerSecond) in
  if showMicroseconds then
    snprintf 64 (tm_text t ++ lit "." ++ pad6 (int32 (Z.rem microSecondsSinceEpoch kMicroSecondsPerSecond)))
  else snprintf 64 (tm_text t).

(** [Date::toIsoString] *)
Definition toIsoString (julianDayNumber : Z) : list char :=
  let ymd := getYearMonthDay julianDayNumber in
  snprintf 32 (pad_year (year ymd) ++ lit "-" ++ pad2 (month ymd) ++ lit "-" ++ pad2 (day ymd)).

(** [strftime(timebuf, ".%Y%m%d-%H%M%S.", &tm)], and [LogFile::getLogFileName] of the time
    [now], on the host [hostname] in the process [pid] *)
Definition timebuf (t : tm) : list char :=
  lit "." ++ dec (tm_year t + 1900) ++ pad2 (tm_mon t + 1) ++ pad2 (tm_mday t) ++ lit "-" ++
  pad2 (tm_hour t) ++ pad2 (tm_min t) ++ pad2 (tm_sec t) ++ lit ".".

Definition getLogFileName (basename hostname : list char) (pid now : Z) : list char :=
  basename ++ timebuf (gmtime now) ++ hostname ++ snprintf 32 (lit "." ++ dec pid) ++ lit ".log".

(** ** Proofs *)

(** Times in the years 1000 to 9999. *)
Definition four_digit_year (s : Z) : Prop := -30610224000 <= s < 253402300800.

Lemma pad_length n z : (0 < n)%nat -> 0 <= z < 10 ^ Z.of_nat n -> length (padded (digit 0) n z) = n.
Proof. apply padded_length. Qed.

Lemma padded_inj n x y :
  0 <= x < 2 ^ 64 -> 0 <= y < 2 ^ 64 -> padded (digit 0) n x = padded (digit 0) n y -> x = y.
Proof. intros Hx Hy E. rewrite <- (padded_value n x Hx), <- (padded_value n y Hy). by rewrite E. Qed.

(** The fields of a broken-down time are in the ranges their formats are made for. *)
Record fields_ok (t : tm) : Prop := {
  fo_year : 1000 <= tm_year t + 1900 < 10000;
  fo_mon : 1 <= tm_mon t + 1 <= 12;
  fo_mday : 1 <= tm_mday t <= 31;
  fo_hour : 0 <= tm_hour t < 24;
  fo_min : 0 <= tm_min t < 60;
  fo_sec : 0 <= tm_sec t < 60
}.

Lemma four_digit_range s : four_digit_year s -> utc_range s.
Proof. unfold four_digit_year, utc_range. change kJulianDayOf1970_01_01 with 2440588. intros. Z.to_euclidean_division_equations. lia. Qed.

(** Years grow with the day number. *)
Lemma jdn_year x : date_ok x -> getJulianDayNumber (year x) 1 1 <= jdn x < getJulianDayNumber (year x + 1) 1 1.
Proof.
  destruct x as [y m d]. unfold date_ok, jdn. cbn [year month day]. intros (Hy & Hm & Hd).
  rewrite !jdn_march by lia. revert Hd. months m; eval_month; intros Hd; try (Z.to_euclidean_division_equations; lia).
  destruct (leap y) eqn:El; [apply leap_mod in El|]; Z.to_euclidean_division_equations; lia.
Qed.

Lemma jan1_mono y z : -4799 <= y -> y <= z -> getJulianDayNumber y 1 1 <= getJulianDayNumber z 1 1.
Proof.
  intros Hy Hz. rewrite !jdn_march by lia. unfold march_month, march_year. cbn [Z.ltb Z.compare Pos.compare Pos.compare_cont].
  Z.to_euclidean_division_equations; lia.
Qed.

Lemma gmtime_fields s : four_digit_year s -> fields_ok (gmtime s).
Proof.
  intros Hs. pose proof (four_digit_range s Hs) as Hr. pose proof (toUtcTime_spec s true Hr) as [[Hx _] _ Hh Hm Hsec _].
  pose proof Hx as (Hy & Hmo & Hd). rewrite <- gmtime_eq in * by done. cbn [year month day] in *.
  pose proof (days_in_month_bounds (tm_year (gmtime s) + 1900) (tm_mon (gmtime s) + 1)) as Hdm.
  split; [|lia..]. pose proof (jdn_year _ Hx) as Hjy. cbn [year] in Hjy.
  assert (Hj : jdn (mkYMD (tm_year (gmtime s) + 1900) (tm_mon (gmtime s) + 1) (tm_mday (gmtime s))) = s / 86400 + 2440588).
  { pose proof (fromUtcTime_toUtcTime s true Hr) as Hf. rewrite <- gmtime_eq, fromUtcTime_jdn in Hf by done.
    change kJulianDayOf1970_01_01 with 2440588 in Hf. Z.to_euclidean_division_equations; lia. }
  unfold four_digit_year in Hs. set (y := tm_year (gmtime s) + 1900) in *.
  destruct (decide (y < 1000)) as [Hlo|]; [|destruct (decide (10000 <= y)) as [Hhi|]; [|lia]]; exfalso.
  - pose proof (jan1_mono (y + 1) 1000 ltac:(lia) ltac:(lia)) as H. change (getJulianDayNumber 1000 1 1) with 2086303 in H.
    Z.to_euclidean_division_equations; lia.
  - pose proof (jan1_mono 10000 y ltac:(lia) ltac:(lia)) as H. change (getJulianDayNumber 10000 1 1) with 5373485 in H.
    Z.to_euclidean_division_equations; lia.
Qed.

Lemma fromUtcTime_fields a b :
  (tm_year a, tm_mon a, tm_mday a, tm_hour a, tm_min a, tm_sec a) = (tm_year b, tm_mon b, tm_mday b, tm_hour b, tm_min b, tm_sec b) ->
  fromUtcTime a = fromUtcTime b.
Proof. intros E. unfold fromUtcTime. by injection E as -> -> -> -> -> ->. Qed.

Lemma fromUtcTime_gmtime s : utc_range s -> fromUtcTime (gmtime s) = s.
Proof. intros Hs. rewrite gmtime_eq by done. by apply fromUtcTime_toUtcTime. Qed.

Lemma fields_time s u :
  four_digit_year s -> four_digit_year u ->
  (tm_year (gmtime s), tm_mon (gmtime s), tm_mday (gmtime s), tm_hour (gmtime s), tm_min (gmtime s), tm_sec (gmtime s)) =
  (tm_year (gmtime u), tm_mon (gmtime u), tm_mday (gmtime u), tm_hour (gmtime u), tm_min (gmtime u), tm_sec (gmtime u)) ->
  s = u.
Proof.
  intros Hs%four_digit_range Hu%four_digit_range E. rewrite <- (fromUtcTime_gmtime s Hs), <- (fromUtcTime_gmtime u Hu). by apply fromUtcTime_fields.
Qed.

(** A text made of pieces of fixed lengths determines the pieces. *)
Ltac peel H :=
  let E := fresh "E" in
  apply app_inj_1 in H as [E H]; [|by rewrite ?padded_length by (cbn; lia)].

Lemma timebuf_inj a b :
  fields_ok a -> fields_ok b -> timebuf a = timebuf b ->
  (tm_year a, tm_mon a, tm_mday a, tm_hour a, tm_min a, tm_sec a) = (tm_year b, tm_mon b, tm_mday b, tm_hour b, tm_min b, tm_sec b).
Proof.
  intros [] [] H. unfold timebuf, pad2 in H.
  destruct (padded_year (chr 32) (tm_year a + 1900) ltac:(lia)) as [_ Ha]. destruct (padded_year (chr 32) (tm_year b + 1900) ltac:(lia)) as [_ Hb].
  apply app_inj_1 in H as [_ H]; [|done]. apply app_inj_1 in H as [E1 H]; [|by rewrite Ha, Hb].
  peel H. peel H. apply app_inj_1 in H as [_ H]; [|done]. peel H. peel H. peel H.
  apply dec_inj in E1; [|lia..]. apply padded_inj in E, E0, E2, E3, E4; [|lia..].
  repeat (apply pair_eq; split); lia.
Qed.

Lemma timebuf_length t : fields_ok t -> length (timebuf t) = 17%nat.
Proof.
  intros []. unfold timebuf, pad2. destruct (padded_year (chr 32) (tm_year t + 1900) ltac:(lia)) as [_ Ha].
  rewrite !length_app, Ha, !padded_length by (cbn; lia). done.
Qed.

(** Log files of different seconds have different names. *)
Lemma getLogFileName_inj basename hostname pid s u :
  four_digit_year s -> four_digit_year u ->
  getLogFileName basename hostname pid s = getLogFileName basename hostname pid u -> s = u.
Proof.
  intros Hs Hu E. unfold getLogFileName in E. apply app_inv_head in E.
  pose proof (gmtime_fields s Hs) as Fs. pose proof (gmtime_fields u Hu) as Fu.
  apply app_inj_1 in E as [E _]; [|by rewrite !timebuf_length]. apply fields_time; [done..|]. by apply timebuf_inj.
Qed.

(** Reading a formatted time stamp: its digits are at fixed positions. *)
Definition read_tm (s : list char) : Z :=
  fromUtc (value (slice 0 4 s)) (value (slice 4 6 s)) (value (slice 6 8 s))
    (value (slice 9 11 s)) (value (slice 12 14 s)) (value (slice 15 17 s)).

Lemma pieces (a b c d e f : list char) :
  length a = 4%nat -> length b = 2%nat -> length c = 2%nat -> length d = 2%nat -> length e = 2%nat -> length f = 2%nat ->
  forall r, let s := (a ++ b ++ c ++ lit " " ++ d ++ lit ":" ++ e ++ lit ":" ++ f) ++ r in
  slice 0 4 s = a /\ slice 4 6 s = b /\ slice 6 8 s = c /\ slice 9 11 s = d /\ slice 12 14 s = e /\ slice 15 17 s = f.
Proof.
  intros Ha Hb Hc Hd He Hf r. cbv zeta.
  destruct a as [|? [|? [|? [|? [|]]]]]; try discriminate Ha. destruct b as [|? [|? [|]]]; try discriminate Hb.
  destruct c as [|? [|? [|]]]; try discriminate Hc. destruct d as [|? [|? [|]]]; try discriminate Hd.
  destruct e as [|? [|? [|]]]; try discriminate He. destruct f as [|? [|? [|]]]; try discriminate Hf. done.
Qed.

Lemma tm_text_length t : fields_ok t -> length (tm_text t) = 17%nat.
Proof.
  intros []. unfold tm_text, pad2, pad_year. rewrite !length_app, !padded_length by (cbn; lia). done.
Qed.

Lemma read_tm_text t r :
  fields_ok t -> read_tm (tm_text t ++ r) = fromUtcTime t.
Proof.
  intros []. unfold read_tm, tm_text, pad2, pad_year. destruct (padded_year (chr 32) (tm_year t + 1900) ltac:(lia)) as [-> Ha].
  destruct (pieces (dec (tm_year t + 1900)) (padded (digit 0) 2 (tm_mon t + 1)) (padded (digit 0) 2 (tm_mday t))
    (padded (digit 0) 2 (tm_hour t)) (padded (digit 0) 2 (tm_min t)) (padded (digit 0) 2 (tm_sec t))) with (r := r)
    as (-> & -> & -> & -> & -> & ->); [done|by rewrite padded_length by (cbn; lia)..|].
  rewrite dec_value, !padded_value by lia. done.
Qed.

(** A formatted time stamp is 24 characters, from which the microseconds can be read
    back: it determines the time. *)
Theorem formatted_roundtrip us :
  four_digit_year (us / 1000000) -> 0 <= us ->
  zlen (toFormattedString us true) = 24 /\
  read_tm (toFormattedString us true) * 1000000 + value (slice 18 24 (toFormattedString us true)) = us /\
  toFormattedString us false = slice 0 17 (toFormattedString us true).
Proof.
  intros Hy Hus. unfold toFormattedString, kMicroSecondsPerSecond. change (1000 * 1000) with 1000000.
  rewrite Z.quot_div_nonneg, Z.rem_mod_nonneg by lia. pose proof (Z.mod_pos_bound us 1000000 ltac:(lia)) as Hm.
  rewrite sint_small by (unfold in_sint; lia). pose proof (gmtime_fields _ Hy) as Hf. pose proof (tm_text_length _ Hf) as Hl.
  assert (H6 : length (pad6 (us mod 1000000)) = 6%nat) by (apply padded_length; cbn; lia).
  unfold snprintf. rewrite !take_ge by (rewrite ?length_app, ?Hl, ?H6; cbn; lia). split_and!.
  - rewrite !zlen_app. unfold zlen. rewrite Hl, H6. done.
  - rewrite read_tm_text by done. rewrite fromUtcTime_gmtime by (by apply four_digit_range).
    assert (H18 : zlen (tm_text (gmtime (us / 1000000)) ++ lit ".") = 18) by (rewrite zlen_app; unfold zlen; by rewrite Hl).
    rewrite (assoc_L app). rewrite slice_app_r by (rewrite ?H18; lia). rewrite H18.
    replace (24 - 18) with (zlen (pad6 (us mod 1000000))) by (unfold zlen; rewrite H6; done). rewrite Z.sub_diag, slice_full.
    unfold pad6. rewrite padded_value by lia. Z.to_euclidean_division_equations; lia.
  - rewrite slice_app_l by (unfold zlen; rewrite ?Hl; lia). rewrite <- (slice_full (tm_text _)) at 1. f_equal. unfold zlen. by rewrite Hl.
Qed.

Example formatted_example :
  toFormattedString 1234567890123456 true = lit "20090213 23:31:30.123456" /\ toIsoString 2440588 = lit "1970-01-01" /\
  getLogFileName (lit "app") (lit "host") 42 1234567890 = lit "app.20090213-233130.host.42.log" /\ toString 1500000 = lit "1.500000".
Proof. vm_compute. done. Qed.
