(* ===== verification/LogFile.v ===== *)
(** * Log files (src/muduo/base/LogFile.h, LogFile.cc; AppendFile of src/muduo/base/FileUtil.h,
      FileUtil.cc)

    A log file writes through a stdio stream and rolls over to a new file when the current
    one is too long or a new day has begun.  The environment answers: [time n] is the
    [n]-th reading of time(2), [fwrite n l] what the [n]-th fwrite_unlocked of [l] accepts
    and whether the stream is in error afterwards, [fopen] whether a file can be opened.
    [closed] keeps the files closed by rolling, oldest first. *)

From stdpp Require Import sorting.
From S2P Require Import Prelude Decimal TimeZone TimeFormat.

(** ** The interface to its users

    What a logger's back end expects of the object it writes to: what has been appended
    is kept in order, and after [flush] it has been handed to the operating system. *)
Class LogSink (O : Type) := {
  sink_append : list char -> O -> res O;
  sink_flush : O -> res O;
  sink_ok : O -> Prop;
  sink_content : O -> list char;
  sink_durable : O -> list char
}.

Class LogSinkLaws (O : Type) `{LogSink O} : Prop := {
  sink_append_law l o : sink_ok o ->
    exists o', sink_append l o = Ok o' /\ sink_ok o' /\ sink_content o' = sink_content o ++ l;
  sink_flush_law o : sink_ok o ->
    exists o', sink_flush o = Ok o' /\ sink_ok o' /\ sink_content o' = sink_content o /\ sink_durable o' = sink_content o
}.

(** ** AppendFile

    [stream] are the bytes the stream has accepted, [flushed] how many of them fflush has
    passed on. *)
Record AppendFile := mkFile { fname : list char; stream : list char; flushed : Z; writtenBytes_ : Z }.

Definition newAppendFile (filename : list char) : AppendFile := mkFile filename [] 0 0.

Definition file_flush (f : AppendFile) : AppendFile := mkFile (fname f) (stream f) (zlen (stream f)) (writtenBytes_ f).

Section LogFile.
Context (basename_ hostname : list char) (pid rollSize_ flushInterval_ checkEveryN_ : Z).
Context (time : nat -> Z) (fwrite : nat -> list char -> Z * bool) (fopen : list char -> bool).

(** The loop of [AppendFile::append] from [written] on; [n] counts the calls of fwrite.
    The result is the final [written]. *)
Fixpoint append_loop (fuel : nat) (logline : list char) (written : Z) (f : AppendFile) (n : nat) : res (Z * AppendFile * nat) :=
  match fuel with
  | O => Fault OutOfFuel
  | S fuel =>
      if written =? zlen logline then Ok (written, f, n)
      else
        let rest := drop (Z.to_nat written) logline in
        let remain := zlen logline - written in
        let (k, err) := fwrite n rest in
        let f := mkFile (fname f) (stream f ++ take (Z.to_nat k) rest) (flushed f) (writtenBytes_ f) in
        if negb (k =? remain) && err then Ok (written, f, S n)
        else append_loop fuel logline (written + k) f (S n)
  end.

Definition file_append (logline : list char) (f : AppendFile) (n : nat) : res (AppendFile * nat) :=
  match append_loop (S (length logline)) logline 0 f n with
  | Ok (written, f', n') => Ok (mkFile (fname f') (stream f') (flushed f') (writtenBytes_ f' + written), n')
  | Fault e => Fault e
  end.

(** ** LogFile *)

Definition kRollPerSeconds_ : Z := 60 * 60 * 24.

Record LogFile := mkLogFile {
  count_ : Z;
  startOfPeriod_ : Z;
  lastRoll_ : Z;
  lastFlush_ : Z;
  file_ : option AppendFile;
  closed : list AppendFile;
  clock : nat;     (* readings of time(2) so far *)
  writes : nat     (* calls of fwrite so far *)
}.

Definition period (now : Z) : Z := Z.quot now kRollPerSeconds_ * kRollPerSeconds_.

(** [rollFile]; file_.reset closes, and so flushes, the old file. *)
Definition rollFile (st : LogFile) : res (bool * LogFile) :=
  let now := time (clock st) in
  let filename := getLogFileName basename_ hostname pid now in
  let start := period now in
  if lastRoll_ st <? now then
    _ ← check (fopen filename);
    Ok (true, mkLogFile (count_ st) start now now (Some (newAppendFile filename))
                (closed st ++ match file_ st with Some f => [file_flush f] | None => [] end) (S (clock st)) (writes st))
  else Ok (false, mkLogFile (count_ st) (startOfPeriod_ st) (lastRoll_ st) (lastFlush_ st) (file_ st) (closed st) (S (clock st)) (writes st)).

Definition snd_res {A B} (r : res (A * B)) : res B := match r with Ok (_, b) => Ok b | Fault e => Fault e end.

Definition newLogFile : res LogFile :=
  _ ← check (negb (existsb (fun c => ord c =? 47) basename_));
  snd_res (rollFile (mkLogFile 0 0 0 0 None [] 0 0)).

(** [flush]: fflush on the current file *)
Definition flush (st : LogFile) : res LogFile :=
  match file_ st with
  | None => Fault OutOfBounds
  | Some f => Ok (mkLogFile (count_ st) (startOfPeriod_ st) (lastRoll_ st) (lastFlush_ st) (Some (file_flush f)) (closed st) (clock st) (writes st))
  end.

(** [append_unlocked] *)
Definition append_unlocked (logline : list char) (st : LogFile) : res LogFile :=
  match file_ st with
  | None => Fault OutOfBounds
  | Some f =>
      match file_append logline f (writes st) with
      | Fault e => Fault e
      | Ok (f, n) =>
          if rollSize_ <? writtenBytes_ f then
            snd_res (rollFile (mkLogFile (count_ st) (startOfPeriod_ st) (lastRoll_ st) (lastFlush_ st) (Some f) (closed st) (clock st) n))
          else if checkEveryN_ <=? count_ st + 1 then
            let now := time (clock st) in
            let st' := mkLogFile 0 (startOfPeriod_ st) (lastRoll_ st) (lastFlush_ st) (Some f) (closed st) (S (clock st)) n in
            if negb (period now =? startOfPeriod_ st) then snd_res (rollFile st')
            else if flushInterval_ <? now - lastFlush_ st then
              Ok (mkLogFile 0 (startOfPeriod_ st) (lastRoll_ st) now (Some (file_flush f)) (closed st) (S (clock st)) n)
            else Ok st'
          else Ok (mkLogFile (count_ st + 1) (startOfPeriod_ st) (lastRoll_ st) (lastFlush_ st) (Some f) (closed st) (clock st) n)
      end
  end.

(** Operations on a log file. *)
Inductive log_op := OpAppend (logline : list char) | OpFlush | OpRoll.

Definition log_do (op : log_op) (st : LogFile) : res LogFile :=
  match op with
  | OpAppend l => append_unlocked l st
  | OpFlush => flush st
  | OpRoll => snd_res (rollFile st)
  end.

Fixpoint log_run (ops : list log_op) (st : LogFile) : res LogFile :=
  match ops with
  | [] => Ok st
  | op :: ops => st' ← log_do op st; log_run ops st'
  end.

(** ** What the files hold *)

Definition files (st : LogFile) : list AppendFile := closed st ++ match file_ st with Some f => [f] | None => [] end.

Definition lines_of (ops : list log_op) : list (list char) :=
  omap (fun op => match op with OpAppend l => Some l | _ => None end) ops.

(** The environment: clocks that do not run backwards, in the years 1000 to 9999; files
    that can be opened; streams that accept what is written, if not at once. *)
Record world_ok : Prop := {
  wo_start : 0 < time 0;
  wo_mono i j : (i <= j)%nat -> time i <= time j;
  wo_year i : four_digit_year (time i);
  wo_open n : fopen n = true;
  wo_base : existsb (fun c => ord c =? 47) basename_ = false;
  wo_write n l : l <> [] -> let (k, err) := fwrite n l in 0 < k <= zlen l /\ err = false;
  wo_check : 1 <= checkEveryN_;
  wo_interval : 0 <= flushInterval_
}.

(** The last reading of the clock. *)
Definition last_time (st : LogFile) : Z := time (pred (clock st)).

Record log_base (lines : list (list char)) (st : LogFile) : Prop := {
  lb_clock : (0 < clock st)%nat;
  lb_file : is_Some (file_ st);
  lb_groups : exists groups : list (list (list char)),
    concat groups = lines /\ stream <$> files st = (fun g : list (list char) => concat g) <$> groups;
  lb_written : Forall (fun f => writtenBytes_ f = zlen (stream f)) (files st);
  lb_closed : Forall (fun f => flushed f = zlen (stream f)) (closed st);
  lb_names : exists times, fname <$> files st = getLogFileName basename_ hostname pid <$> times /\
    StronglySorted Z.lt times /\ last times = Some (lastRoll_ st) /\ Forall four_digit_year times;
  lb_roll : 0 < lastRoll_ st <= last_time st /\ startOfPeriod_ st = period (lastRoll_ st) /\ lastRoll_ st <= lastFlush_ st;
  lb_count : 0 <= count_ st < checkEveryN_
}.

Record log_inv (lines : list (list char)) (st : LogFile) : Prop := {
  li_base : log_base lines st;
  li_size : Forall (fun f => writtenBytes_ f <= rollSize_) (option_list (file_ st)) \/ last_time st = lastRoll_ st;
  li_check : count_ st = 0 -> period (last_time st) = startOfPeriod_ st /\ last_time st - lastFlush_ st <= flushInterval_
}.

(** ** Proofs *)

Context (Hw : world_ok).

Lemma append_loop_ok fuel logline written f n :
  0 <= written <= zlen logline -> (Z.to_nat (zlen logline - written) < fuel)%nat ->
  exists n', append_loop fuel logline written f n =
    Ok (zlen logline, mkFile (fname f) (stream f ++ drop (Z.to_nat written) logline) (flushed f) (writtenBytes_ f), n').
Proof.
  revert written f n. induction fuel as [|fuel IH]; intros written f n H0 Hf; [lia|]. cbn [append_loop].
  destruct (written =? zlen logline) eqn:E.
  - assert (written = zlen logline) as -> by lia. exists n. unfold zlen. rewrite Nat2Z.id, drop_ge, app_nil_r by lia. by destruct f.
  - assert (Hne : drop (Z.to_nat written) logline <> []).
    { intros Hn. apply (f_equal zlen) in Hn. rewrite zlen_drop in Hn by lia. rewrite zlen_nil in Hn. lia. }
    pose proof (wo_write Hw n _ Hne) as Hk. destruct (fwrite n _) as [k err]. rewrite zlen_drop in Hk by lia. destruct Hk as [Hk ->].
    rewrite andb_false_r. destruct (IH (written + k) (mkFile (fname f) (stream f ++ take (Z.to_nat k) (drop (Z.to_nat written) logline))
      (flushed f) (writtenBytes_ f)) (S n)) as [n' Hn']; [lia..|]. exists n'. rewrite Hn'. cbn [fname stream flushed writtenBytes_].
    do 4 f_equal. rewrite <- (assoc_L app). f_equal. rewrite Z2Nat.inj_add by lia. by rewrite <- drop_drop, take_drop.
Qed.

Lemma file_append_ok logline f n :
  exists n', file_append logline f n =
    Ok (mkFile (fname f) (stream f ++ logline) (flushed f) (writtenBytes_ f + zlen logline), n').
Proof.
  unfold file_append. pose proof (zlen_nonneg logline).
  destruct (append_loop_ok (S (length logline)) logline 0 f n) as [n' ->]; [lia|unfold zlen; lia|]. by exists n'.
Qed.

(** A line goes to the current file. *)
Lemma base_append lines logline st f c k n :
  log_base lines st -> file_ st = Some f -> 0 <= c < checkEveryN_ -> (clock st <= k)%nat ->
  log_base (lines ++ [logline])
    (mkLogFile c (startOfPeriod_ st) (lastRoll_ st) (lastFlush_ st)
       (Some (mkFile (fname f) (stream f ++ logline) (flushed f) (writtenBytes_ f + zlen logline))) (closed st) k n).
Proof.
  intros [Hc _ (gs & Hg & Hs) Hwr Hcl Hn (Hr & Hp & Hfl) _] Hf Hcnt Hk. unfold files in *. rewrite Hf in *.
  pose proof (wo_mono Hw (pred (clock st)) (pred k) ltac:(lia)) as Hm. unfold last_time in Hr.
  split; unfold files, last_time; cbn [count_ startOfPeriod_ lastRoll_ lastFlush_ file_ closed clock writes]; try done.
  - lia.
  - rewrite fmap_app in Hs. cbn in Hs. destruct gs as [|g gs _] using rev_ind.
    { exfalso. by destruct (stream <$> closed st). }
    rewrite fmap_app in Hs. cbn in Hs. apply app_inj_tail in Hs as [Hs1 Hs2].
    exists (gs ++ [g ++ [logline]]). split; [|rewrite !fmap_app; cbn; rewrite Hs1, Hs2, concat_app; cbn; by rewrite app_nil_r].
    rewrite concat_app in *. cbn in *. rewrite app_nil_r in *. by rewrite <- Hg, (assoc_L app).
  - apply Forall_app in Hwr as [H1 H2]. apply Forall_app. split; [done|]. rewrite Forall_singleton in H2. apply Forall_singleton.
    cbn. rewrite zlen_app. lia.
  - destruct Hn as (ts & Hn & Hrest). exists ts. split; [|done]. rewrite <- Hn, !fmap_app. done.
  - split_and!; [lia|lia|done|done].
Qed.

Lemma sorted_snoc (l : list Z) x y : StronglySorted Z.lt l -> last l = Some x -> x < y -> StronglySorted Z.lt (l ++ [y]).
Proof.
  induction 1 as [|z l Hs IH Hf]; [done|]. intros Hl Hxy. cbn [app]. constructor.
  - destruct l as [|z' l]; [repeat constructor|]. by apply IH.
  - apply Forall_app. split; [done|]. apply Forall_singleton. destruct l as [|z' l]; [by injection Hl as ->|].
    rewrite Forall_forall in Hf. specialize (Hf x). assert (x ∈ z' :: l) as Hx by (by apply last_Some_elem_of). specialize (Hf Hx). lia.
Qed.

(** Rolling over, or not when the last roll was in the same second. *)
Lemma roll_inv lines st :
  log_base lines st -> exists b st', rollFile st = Ok (b, st') /\ log_inv lines st' /\ (lastRoll_ st < time (clock st) -> b = true).
Proof.
  intros [Hc [f Hf] (gs & Hg & Hs) Hwr Hcl (ts & Hn & Hts & Hlast & Hyear) (Hr & Hp & Hfl) Hcnt].
  pose proof (wo_mono Hw (pred (clock st)) (clock st) ltac:(lia)) as Hm. unfold last_time in Hr.
  unfold rollFile. destruct (lastRoll_ st <? time (clock st)) eqn:E.
  - rewrite (wo_open Hw). cbn [check mbind res_bind]. eexists _, _. split; [reflexivity|]. split; [|done].
    unfold files in *. rewrite Hf in *. split; [split|..]; unfold files, last_time; cbn [count_ startOfPeriod_ lastRoll_ lastFlush_ file_ closed clock writes pred]; try done.
    + lia.
    + exists (gs ++ [[]]). split; [rewrite concat_app; cbn; by rewrite !app_nil_r|]. rewrite !fmap_app in *. cbn in *. by rewrite <- Hs.
    + apply Forall_app in Hwr as [H1 H2]. rewrite Forall_singleton in H2. repeat (apply Forall_app; split); [done|by apply Forall_singleton..].
    + apply Forall_app. split; [done|]. by apply Forall_singleton.
    + exists (ts ++ [time (clock st)]). split_and!.
      * rewrite !fmap_app in *. cbn in *. by rewrite Hn.
      * eapply sorted_snoc; [done..|lia].
      * by rewrite last_snoc.
      * apply Forall_app. split; [done|]. apply Forall_singleton, (wo_year Hw).
    + split_and!; [lia|lia|done|lia].
    + by right.
    + intros _. split; [done|]. pose proof (wo_interval Hw). lia.
  - eexists _, _. split; [reflexivity|]. split; [|lia]. assert (Heq : time (clock st) = lastRoll_ st) by lia.
    split; [split|..]; unfold files, last_time in *; cbn [count_ startOfPeriod_ lastRoll_ lastFlush_ file_ closed clock writes pred]; rewrite ?Heq; try done.
    + lia.
    + by eexists.
    + by exists ts.
    + split_and!; [lia|lia|done|done].
    + by right.
    + intros _. split; [done|]. pose proof (wo_interval Hw). lia.
Qed.

Lemma append_inv lines logline st :
  log_inv lines st -> exists st', append_unlocked logline st = Ok st' /\ log_inv (lines ++ [logline]) st'.
Proof.
  intros [Hb _ _]. destruct (lb_file _ _ Hb) as [f Hf]. unfold append_unlocked. rewrite Hf.
  destruct (file_append_ok logline f (writes st)) as [n ->]. pose proof (base_append lines logline st f) as Happ.
  pose proof (lb_count _ _ Hb) as Hcnt. pose proof (wo_check Hw) as Hck.
  set (f' := mkFile _ _ _ _) in *. destruct (rollSize_ <? writtenBytes_ f') eqn:E1.
  { destruct (roll_inv _ _ (Happ (count_ st) (clock st) n Hb Hf Hcnt ltac:(lia))) as (b & st' & -> & Hi & _). by exists st'. }
  destruct (checkEveryN_ <=? count_ st + 1) eqn:E2.
  - destruct (Happ 0 (S (clock st)) n Hb Hf ltac:(lia) ltac:(lia)) as [Hc Hfile Hg Hwr Hcl Hn (Hr & Hp & Hfl) Hc0].
    destruct (negb (period (time (clock st)) =? startOfPeriod_ st)) eqn:E3.
    + destruct (roll_inv _ _ (Happ 0 (S (clock st)) n Hb Hf ltac:(lia) ltac:(lia))) as (b & st' & -> & Hi & _). by exists st'.
    + apply negb_false_iff in E3. unfold last_time in Hr. cbn [clock pred lastRoll_ lastFlush_ startOfPeriod_] in *.
      destruct (flushInterval_ <? time (clock st) - lastFlush_ st) eqn:E4; eexists; (split; [reflexivity|]).
      * unfold files in *. cbn [file_ closed] in *. split; [split|..]; unfold files, last_time;
          cbn [count_ startOfPeriod_ lastRoll_ lastFlush_ file_ closed clock writes pred]; try done.
        -- destruct Hg as (gs & ? & Hg). exists gs. split; [done|]. rewrite <- Hg, !fmap_app. done.
        -- apply Forall_app in Hwr as [H1 H2]. apply Forall_app. split; [done|]. rewrite Forall_singleton in *. done.
        -- destruct Hn as (ts & Hn & ?). exists ts. split; [|done]. rewrite <- Hn, !fmap_app. done.
        -- split_and!; [lia|lia|done|lia].
        -- left. cbn. apply Forall_singleton. cbn. unfold f' in E1. cbn in E1. lia.
        -- intros _. split; [lia|]. pose proof (wo_interval Hw). lia.
      * split; [by split|..]; unfold last_time; cbn [count_ startOfPeriod_ lastRoll_ lastFlush_ file_ closed clock writes pred].
        -- left. cbn. apply Forall_singleton. lia.
        -- intros _. lia.
  - eexists. split; [reflexivity|]. split; [by apply Happ; [..|lia|lia]| |].
    + left. cbn. apply Forall_singleton. lia.
    + cbn. lia.
Qed.

Lemma flush_inv lines st :
  log_inv lines st -> exists st', flush st = Ok st' /\ log_inv lines st' /\ Forall (fun f => flushed f = zlen (stream f)) (files st').
Proof.
  intros [[Hc [f Hf] Hg Hwr Hcl Hn Hr Hc0] Hs Hch]. unfold flush. rewrite Hf. eexists. split; [reflexivity|].
  unfold files in *. rewrite Hf in *. split; [split; [split|..]; unfold files, last_time in *;
    cbn [count_ startOfPeriod_ lastRoll_ lastFlush_ file_ closed clock writes]; try done|].
  - destruct Hg as (gs & ? & Hg). exists gs. split; [done|]. rewrite <- Hg, !fmap_app. done.
  - apply Forall_app in Hwr as [H1 H2]. apply Forall_app. split; [done|]. rewrite Forall_singleton in *. done.
  - destruct Hn as (ts & Hn & ?). exists ts. split; [|done]. rewrite <- Hn, !fmap_app. done.
  - destruct Hs as [Hs|Hs]; [left|by right]. cbn in *. rewrite Forall_singleton in *. done.
  - cbn. apply Forall_app. split; [done|]. by apply Forall_singleton.
Qed.

Lemma new_inv : exists st, newLogFile = Ok st /\ log_inv [] st.
Proof.
  unfold newLogFile. rewrite (wo_base Hw). cbn [negb check mbind res_bind]. unfold rollFile. cbn [clock lastRoll_].
  pose proof (wo_start Hw). pose proof (wo_check Hw). pose proof (wo_interval Hw). replace (0 <? time 0) with true by lia.
  rewrite (wo_open Hw). cbn. eexists. split; [reflexivity|].
  split; [split|..]; unfold files, last_time; cbn; try done; try lia.
  - by exists [[]].
  - by apply Forall_singleton.
  - exists [time 0]. split_and!; [done|repeat constructor|done|]. apply Forall_singleton, (wo_year Hw).
Qed.

Lemma log_run_inv ops lines st :
  log_inv lines st -> exists st', log_run ops st = Ok st' /\ log_inv (lines ++ lines_of ops) st'.
Proof.
  revert lines st. induction ops as [|op ops IH]; intros lines st Hi; cbn [log_run lines_of omap list_omap].
  { exists st. by rewrite app_nil_r. }
  destruct op as [l| |]; cbn [log_do].
  - destruct (append_inv lines l st Hi) as (st1 & -> & Hi1). cbn [mbind res_bind].
    destruct (IH _ _ Hi1) as (st2 & -> & Hi2). exists st2. split; [done|]. by rewrite <- (assoc_L app) in Hi2.
  - destruct (flush_inv lines st Hi) as (st1 & -> & Hi1 & _). cbn [mbind res_bind]. by apply IH.
  - destruct (roll_inv lines st (li_base _ _ Hi)) as (b & st1 & -> & Hi1 & _). cbn [mbind res_bind snd_res]. by apply IH.
Qed.

(** Different files. *)
Lemma names_nodup ts :
  StronglySorted Z.lt ts -> Forall four_digit_year ts -> NoDup (getLogFileName basename_ hostname pid <$> ts).
Proof.
  induction 1 as [|t ts Hs IH Hf]; intros Hy; [constructor|]. apply Forall_cons in Hy as [Ht Hts]. cbn. constructor; [|by apply IH].
  intros (u & Hu & Hin)%list_elem_of_fmap. rewrite Forall_forall in Hf, Hts. specialize (Hf u Hin).
  apply getLogFileName_inj in Hu; [lia|done|by apply Hts].
Qed.

(** A log file, in any sequence of appends, flushes and rolls: nothing fails; the
    lines appended are exactly the contents of the files in the order they were opened,
    each line in one file, and no two files have the same name; the current file is no
    longer than the roll size unless it was opened in the current second; and every
    [checkEveryN_] lines the file is of the current day and was flushed within the flush
    interval. *)
Theorem log_file_correct ops :
  exists st, (st0 ← newLogFile; log_run ops st0) = Ok st /\
    (exists groups : list (list (list char)),
       concat groups = lines_of ops /\ stream <$> files st = (fun g : list (list char) => concat g) <$> groups) /\
    NoDup (fname <$> files st) /\ Forall (fun f => flushed f = zlen (stream f)) (closed st) /\
    (exists f, file_ st = Some f /\ (zlen (stream f) <= rollSize_ \/ last_time st = lastRoll_ st)) /\
    0 <= count_ st < checkEveryN_ /\
    (count_ st = 0 -> period (last_time st) = startOfPeriod_ st /\ last_time st - lastFlush_ st <= flushInterval_).
Proof.
  destruct new_inv as (st0 & -> & H0). cbn [mbind res_bind]. destruct (log_run_inv ops [] st0 H0) as (st & -> & [[] Hs Hch]).
  exists st. split_and!; try done.
  - destruct lb_names0 as (ts & -> & ? & _ & ?). by apply names_nodup.
  - destruct lb_file0 as [f Hf]. exists f. split; [done|]. destruct Hs as [Hs|Hs]; [left|by right].
    rewrite Hf in Hs. cbn in Hs. rewrite Forall_singleton in Hs. unfold files in lb_written0. rewrite Hf in lb_written0.
    apply Forall_app in lb_written0 as [_ Hwf]. rewrite Forall_singleton in Hwf. lia.
  - lia.
  - lia.
Qed.
(** ** A log file is a log sink *)

#[local] Instance log_file_sink : LogSink LogFile := {
  sink_append := append_unlocked;
  sink_flush := flush;
  sink_ok st := exists lines, log_inv lines st;
  sink_content st := concat (stream <$> files st);
  sink_durable st := concat ((fun f => take (Z.to_nat (flushed f)) (stream f)) <$> files st)
}.

Lemma groups_content (fs : list AppendFile) (gs : list (list (list char))) :
  stream <$> fs = (fun g : list (list char) => concat g) <$> gs -> concat (stream <$> fs) = concat (concat gs).
Proof. intros ->. clear fs. induction gs as [|g gs IH]; cbn; [done|]. by rewrite IH, concat_app. Qed.

Lemma inv_content lines st : log_inv lines st -> concat (stream <$> files st) = concat lines.
Proof. intros [[_ _ (gs & <- & Hs) _ _ _ _ _] _ _]. by apply groups_content. Qed.

Lemma log_file_sink_laws : LogSinkLaws LogFile.
Proof.
  split.
  - intros l o [lines Hi]. destruct (append_inv lines l o Hi) as (o' & E & Hi'). exists o'. split; [exact E|]. split; [by exists (lines ++ [l])|].
    cbn. rewrite (inv_content _ _ Hi'), (inv_content _ _ Hi), concat_app. cbn. by rewrite app_nil_r.
  - intros o [lines Hi]. destruct (flush_inv lines o Hi) as (o' & E & Hi' & Hf). exists o'. split; [exact E|]. split; [by exists lines|].
    cbn. rewrite (inv_content _ _ Hi'), (inv_content _ _ Hi). split; [done|]. rewrite <- (inv_content _ _ Hi').
    f_equal. clear -Hf. induction Hf as [|f fs Hf _ IH]; cbn; [done|]. rewrite IH. f_equal. rewrite Hf. apply take_ge. unfold zlen. lia.
Qed.
End LogFile.

(** One second per reading; a stream that takes at most two bytes at a time. *)
Definition sample_time (n : nat) : Z := 1234567890 + Z.min (Z.of_nat n) 1000.
Definition sample_write (n : nat) (l : list char) : Z * bool := (Z.min 2 (zlen l), false).

Lemma sample_world : world_ok (lit "app") 3 2 sample_time sample_write (fun _ => true).
Proof.
  split; try done; unfold sample_time; try lia.
  - intros i. unfold four_digit_year. lia.
  - intros n l Hl. unfold sample_write. split; [|done]. destruct l; [done|]. rewrite zlen_cons. pose proof (zlen_nonneg l). lia.
Qed.

Lemma log_file_correct_witness :
  exists st, (st0 ← newLogFile (lit "app") (lit "host") 42 sample_time (fun _ => true);
              log_run (lit "app") (lit "host") 42 5 3 2 sample_time sample_write (fun _ => true)
                [OpAppend (lit "hello"); OpAppend (lit "world"); OpFlush] st0) = Ok st /\
    stream <$> files st = [lit "helloworld"; []].
Proof.
  destruct (log_file_correct (lit "app") (lit "host") 42 5 3 2 sample_time sample_write (fun _ => true) sample_world
    [OpAppend (lit "hello"); OpAppend (lit "world"); OpFlush]) as (st & E & _). exists st. split; [exact E|].
  vm_compute in E. injection E as <-. reflexivity.
Defined.
