(* ===== verification/Monitor.v ===== *)
(** * Mutexes and condition variables (src/muduo/base/Mutex.h, Condition.h)

    The classes of src/muduo/base that threads share protect their state with one mutex
    and wait on condition variables.  A thread's code is cut into segments: what it does
    from acquiring the mutex to releasing it or waiting.  The mutex makes segments atomic,
    so a run is a sequence of segments.  [segment] gives, for a program point, the
    segment's effect on the shared state, the notifications it sends and where the thread
    goes on; the label of type [A] is the environment's choice (which method an idle thread
    calls next).  Waiters of a condition variable are woken by [notify], one of them, by
    [notifyAll], or spuriously, and test their condition again after reacquiring the mutex. *)

From S2P Require Import Prelude.

(** ** Counting *)

Fixpoint countb {T} (f : T -> bool) (l : list T) : nat :=
  match l with [] => 0%nat | x :: l => (Nat.b2n (f x) + countb f l)%nat end.

Lemma countb_insert {T} (f : T -> bool) (l : list T) i x y :
  l !! i = Some x ->
  (countb f (<[i := y]> l) + Nat.b2n (f x) = countb f l + Nat.b2n (f y))%nat.
Proof.
  revert i. induction l as [|z l IH]; intros [|i] Hi; simplify_eq/=; [lia|]. specialize (IH i Hi). lia.
Qed.

Lemma countb_zero {T} (f : T -> bool) (l : list T) :
  countb f l = 0%nat <-> forall i x, l !! i = Some x -> f x = false.
Proof.
  induction l as [|z l IH]; cbn [countb]; [by split; [intros _ i x Hi|]|]. split.
  - intros H. assert (countb f l = 0%nat) as H0 by lia. assert (f z = false) by (destruct (f z); [cbn in H; lia|done]).
    intros [|i] x Hx; simplify_eq/=; [done|]. by eapply IH.
  - intros H. rewrite (H 0%nat z) by done. cbn. apply IH. intros i x Hi. by apply (H (S i)).
Qed.

Lemma countb_pos {T} (f : T -> bool) (l : list T) i x :
  l !! i = Some x -> f x = true -> (0 < countb f l)%nat.
Proof.
  intros Hi Hf. destruct (countb f l) eqn:E; [|lia].
  rewrite countb_zero in E. specialize (E i x Hi). congruence.
Qed.

Lemma countb_ex {T} (f : T -> bool) (l : list T) :
  (0 < countb f l)%nat -> exists i x, l !! i = Some x /\ f x = true.
Proof.
  induction l as [|z l IH]; cbn [countb]; [lia|]. intros H. destruct (f z) eqn:E; [by exists 0%nat, z|].
  destruct IH as (i & x & Hi & Hf); [cbn in H; lia|]. by exists (S i), x.
Qed.

Lemma sum_insert {T} (f : T -> nat) (l : list T) i x y :
  l !! i = Some x -> (sum_list_with f (<[i := y]> l) + f x = sum_list_with f l + f y)%nat.
Proof.
  revert i. induction l as [|z l IH]; intros [|i] Hi; simplify_eq/=; [lia|]. specialize (IH i Hi). lia.
Qed.

Lemma sum_mono {T} (f g : T -> nat) (l : list T) :
  (forall x, x ∈ l -> (f x <= g x)%nat) -> (sum_list_with f l <= sum_list_with g l)%nat.
Proof.
  induction l as [|z l IH]; intros H; cbn; [lia|].
  pose proof (H z (list_elem_of_here _ _)). specialize (IH (fun x Hx => H x (list_elem_of_further _ _ _ Hx))). lia.
Qed.

(** ** Threads and steps *)

Section Monitor.
Context {S C P A : Type} {HC : EqDecision C}.

Inductive tstate := Ready (p : P) | Waiting (c : C) (p : P).

(** [notify], [notifyAll] *)
Inductive signal := One (c : C) | All (c : C).

(** The end of a segment. *)
Record result := mkResult { r_shared : S; r_signals : list signal; r_next : tstate }.

Context (segment : A -> P -> S -> option (res result)).

Record sys := mkSys { shared : S; threads : list tstate }.

Definition wake (c : C) (x : tstate) : tstate :=
  match x with Waiting d p => if decide (c = d) then Ready p else x | _ => x end.

(** [notify] wakes a thread if there is one waiting; which one is not determined. *)
Inductive deliver : list signal -> list tstate -> list tstate -> Prop :=
| DeliverNil ts : deliver [] ts ts
| DeliverOne c l ts t p ts' :
    ts !! t = Some (Waiting c p) -> deliver l (<[t := Ready p]> ts) ts' -> deliver (One c :: l) ts ts'
| DeliverNone c l ts ts' :
    (forall t p, ts !! t <> Some (Waiting c p)) -> deliver l ts ts' -> deliver (One c :: l) ts ts'
| DeliverAll c l ts ts' :
    deliver l (wake c <$> ts) ts' -> deliver (All c :: l) ts ts'.

(** Thread [t] runs a segment. *)
Inductive run_thread (t : nat) : sys -> sys -> Prop :=
| RunThread a p s ts r ts' :
    ts !! t = Some (Ready p) -> segment a p s = Some (Ok r) -> deliver (r_signals r) ts ts' ->
    run_thread t (mkSys s ts) (mkSys (r_shared r) (<[t := r_next r]> ts')).

Inductive step : sys -> sys -> Prop :=
| StepRun t x y : run_thread t x y -> step x y
| StepSpurious s ts t c p :
    ts !! t = Some (Waiting c p) -> step (mkSys s ts) (mkSys s (<[t := Ready p]> ts)).

Inductive reachable (x0 : sys) : sys -> Prop :=
| ReachInit : reachable x0 x0
| ReachStep x y : reachable x0 x -> step x y -> reachable x0 y.

Lemma reachable_ind_inv (I : sys -> Prop) x0 x :
  I x0 -> (forall x y, I x -> step x y -> I y) -> reachable x0 x -> I x.
Proof. intros H0 Hs. induction 1; eauto. Qed.

(** ** A scheduler

    The steps of a given schedule, each [notify] waking the first waiter. *)
Fixpoint wake_first (c : C) (ts : list tstate) : list tstate :=
  match ts with
  | [] => []
  | Waiting d p :: ts => if decide (c = d) then Ready p :: ts else Waiting d p :: wake_first c ts
  | x :: ts => x :: wake_first c ts
  end.

Fixpoint deliver_first (l : list signal) (ts : list tstate) : list tstate :=
  match l with
  | [] => ts
  | One c :: l => deliver_first l (wake_first c ts)
  | All c :: l => deliver_first l (wake c <$> ts)
  end.

Definition exec_thread (t : nat) (a : A) (x : sys) : option sys :=
  match threads x !! t with
  | Some (Ready p) =>
      match segment a p (shared x) with
      | Some (Ok r) => Some (mkSys (r_shared r) (<[t := r_next r]> (deliver_first (r_signals r) (threads x))))
      | _ => None
      end
  | _ => None
  end.

Fixpoint exec (sched : list (nat * A)) (x : sys) : option sys :=
  match sched with
  | [] => Some x
  | (t, a) :: sched => match exec_thread t a x with Some y => exec sched y | None => None end
  end.

Lemma wake_first_deliver c l ts ts' : deliver l (wake_first c ts) ts' -> deliver (One c :: l) ts ts'.
Proof.
  intros Hd. assert (H : (exists t p, ts !! t = Some (Waiting c p) /\ wake_first c ts = <[t := Ready p]> ts) \/
    ((forall t p, ts !! t <> Some (Waiting c p)) /\ wake_first c ts = ts)).
  { clear Hd. induction ts as [|[p|d p] ts IH]; cbn [wake_first]; [by right| |].
    - destruct IH as [(t & q & Ht & ->)|[Hn ->]]; [left; by exists (Datatypes.S t), q|right].
      split; [|done]. intros [|t] q; [done|apply Hn].
    - destruct (decide (c = d)) as [->|Hne]; [left; by exists 0%nat, p|].
      destruct IH as [(t & q & Ht & ->)|[Hn ->]]; [left; by exists (Datatypes.S t), q|right].
      split; [|done]. intros [|t] q; [cbn; congruence|apply Hn]. }
  destruct H as [(t & p & Ht & E)|[Hn E]]; rewrite E in Hd; [by eapply DeliverOne|by apply DeliverNone].
Qed.

Lemma deliver_first_deliver l ts : deliver l ts (deliver_first l ts).
Proof.
  revert ts. induction l as [|[c|c] l IH]; intros ts; cbn [deliver_first]; [constructor| |by constructor].
  by apply wake_first_deliver.
Qed.

Lemma exec_reachable x0 sched x y : reachable x0 x -> exec sched x = Some y -> reachable x0 y.
Proof.
  revert x. induction sched as [|[t a] sched IH]; intros x Hr; cbn [exec]; [by intros [= <-]|].
  destruct (exec_thread t a x) as [z|] eqn:E; [|done]. intros Hy. apply (IH z); [|done].
  eapply ReachStep; [done|]. apply (StepRun t). destruct x as [s ts]. unfold exec_thread in E. cbn [threads shared] in E.
  destruct (ts !! t) as [[p|c p]|] eqn:Ht; [|done..]. destruct (segment a p s) as [[r|f]|] eqn:Hs; [|done..].
  injection E as <-. by apply (RunThread t a p s ts r); [..|apply deliver_first_deliver].
Qed.

(** ** Who is woken *)

(** Threads waiting for [c], threads ready at a point of class [k]. *)
Definition waits (c : C) (x : tstate) : bool :=
  match x with Waiting d _ => bool_decide (c = d) | _ => false end.
Definition ready (k : P -> bool) (x : tstate) : bool :=
  match x with Ready p => k p | _ => false end.

(** Threads that wait for [c] go on at points of class [k]. *)
Definition waits_at (c : C) (k : P -> bool) (ts : list tstate) : Prop :=
  forall t p, ts !! t = Some (Waiting c p) -> k p = true.

Lemma waits_at_insert c k ts t x :
  waits_at c k ts -> (forall p, x = Waiting c p -> k p = true) -> waits_at c k (<[t := x]> ts).
Proof.
  intros H Hx t' p Ht. apply list_lookup_insert_Some in Ht as [(-> & -> & _)|[_ Ht]]; [by apply Hx|by eapply H].
Qed.

Lemma waits_at_deliver c k l ts ts' : deliver l ts ts' -> waits_at c k ts -> waits_at c k ts'.
Proof.
  induction 1 as [|d l ts t p ts' Ht Hd IH|d l ts ts' Hn Hd IH|d l ts ts' Hd IH]; intros H; [done| |by apply IH|]; apply IH.
  - by apply waits_at_insert.
  - intros t p Ht. rewrite list_lookup_fmap in Ht. destruct (ts !! t) as [[q|e q]|] eqn:E; [done| |done].
    cbn in Ht. destruct (decide (d = e)); simplify_eq. by eapply H.
Qed.

(** A thread that ran a segment was ready and stays where it is while others are woken. *)
Lemma deliver_ready l ts ts' t p : deliver l ts ts' -> ts !! t = Some (Ready p) -> ts' !! t = Some (Ready p).
Proof.
  induction 1 as [|d l ts u q ts' Hu Hd IH|d l ts ts' Hn Hd IH|d l ts ts' Hd IH]; intros Ht; [done| |by apply IH|]; apply IH.
  - rewrite list_lookup_insert_ne; [done|]. intros ->. congruence.
  - by rewrite list_lookup_fmap, Ht.
Qed.

Lemma deliver_length l ts ts' : deliver l ts ts' -> length ts' = length ts.
Proof. induction 1; rewrite ?length_insert, ?length_fmap in *; lia. Qed.

Lemma run_thread_length t x y : run_thread t x y -> length (threads y) = length (threads x).
Proof. intros [a p s ts r ts' _ _ Hd]. cbn. by rewrite length_insert, (deliver_length _ _ _ Hd). Qed.

Lemma reachable_length x0 x : reachable x0 x -> length (threads x) = length (threads x0).
Proof.
  induction 1 as [|x y _ <- Hs]; [done|]. destruct Hs as [t x y Hr|s ts t c p Hw]; [by eapply run_thread_length|].
  cbn. apply length_insert.
Qed.

Lemma deliver_nobody l ts ts' :
  deliver l ts ts' -> (forall t c p, ts !! t <> Some (Waiting c p)) -> ts' = ts.
Proof.
  induction 1 as [|d l ts u q ts' Hu Hd IH|d l ts ts' Hn Hd IH|d l ts ts' Hd IH]; intros Ht; [done| |by apply IH|].
  - by apply Ht in Hu.
  - assert (E : wake d <$> ts = ts).
    { clear -Ht. induction ts as [|[p|c p] ts IH]; cbn; [done| |by destruct (Ht 0%nat c p)].
      f_equal. apply IH. intros t. apply (Ht (Datatypes.S t)). }
    rewrite E in *. by apply IH.
Qed.

(** A thread is woken or left alone. *)
Lemma deliver_lookup l ts ts' t x :
  deliver l ts ts' -> ts !! t = Some x ->
  ts' !! t = Some x \/ exists c p, x = Waiting c p /\ ts' !! t = Some (Ready p).
Proof.
  intros Hd. revert x. induction Hd as [|d l ts u q ts' Hu Hd IH|d l ts ts' Hn Hd IH|d l ts ts' Hd IH]; intros x Ht; [by left| |by apply IH|].
  - destruct (decide (u = t)) as [->|Hne].
    + simplify_eq. right. exists d, q. split; [done|]. eapply deliver_ready; [done|].
      by rewrite list_lookup_insert_eq by (by eapply lookup_lt_Some).
    + apply IH. by rewrite list_lookup_insert_ne.
  - destruct (IH (wake d x)) as [H|(c & p & Hx & H)].
    + by rewrite list_lookup_fmap, Ht.
    + destruct x as [p|e p]; cbn in H; [by left|]. destruct (decide (d = e)); [|by left].
      right. by exists e, p.
    + destruct x as [q|e q]; cbn in Hx; [done|]. destruct (decide (d = e)); [done|]. simplify_eq. right. by exists c, p.
Qed.

(** ** No lost wakeups

    [n] units of what waiters of [c] wait for are available (items to take, room to fill):
    then nobody waits, or [n] threads are about to claim them. *)
Definition served (c : C) (k : P -> bool) (n : nat) (ts : list tstate) : Prop :=
  countb (waits c) ts = 0%nat \/ (n <= countb (ready k) ts)%nat.

Lemma served_le c k m n ts : served c k n ts -> (m <= n)%nat -> served c k m ts.
Proof. intros [?|?] ?; [by left|right; lia]. Qed.

Lemma served_zero c k ts : served c k 0 ts.
Proof. right. lia. Qed.

(** Waking a thread, for whatever reason. *)
Lemma served_wake c d k n ts t p :
  served c k n ts -> ts !! t = Some (Waiting d p) -> served c k n (<[t := Ready p]> ts).
Proof.
  intros H Ht. pose proof (countb_insert (waits c) ts t _ (Ready p) Ht) as Hw.
  pose proof (countb_insert (ready k) ts t _ (Ready p) Ht) as Hr. cbn in Hw, Hr. unfold served in *. lia.
Qed.

Lemma served_wake_all c d k n ts : served c k n ts -> served c k n (wake d <$> ts).
Proof.
  assert (Hw : (countb (waits c) (wake d <$> ts) <= countb (waits c) ts)%nat).
  { induction ts as [|[p|e p] ts IH]; cbn; [lia|lia|]. destruct (decide (d = e)); cbn; lia. }
  assert (Hr : (countb (ready k) ts <= countb (ready k) (wake d <$> ts))%nat).
  { clear Hw. induction ts as [|[p|e p] ts IH]; cbn; lia. }
  intros [?|?]; [left|right]; lia.
Qed.

Lemma served_deliver c k n l ts ts' : deliver l ts ts' -> served c k n ts -> served c k n ts'.
Proof.
  induction 1 as [|d l ts t p ts' Ht Hd IH|d l ts ts' Hn Hd IH|d l ts ts' Hd IH]; intros H; [done| |by apply IH|]; apply IH.
  - by eapply served_wake.
  - by apply served_wake_all.
Qed.

(** [notify] after adding a unit. *)
Lemma served_notify c k n l ts ts' :
  deliver (One c :: l) ts ts' -> waits_at c k ts -> served c k n ts -> served c k (1 + n) ts'.
Proof.
  intros Hd Hk H. inversion Hd as [|? ? ? t p ? Ht Hd'|? ? ? ? Hn Hd'|]; subst; eapply served_deliver; try exact Hd'.
  - pose proof (countb_insert (ready k) ts t _ (Ready p) Ht) as Hr. cbn in Hr. rewrite (Hk t p Ht) in Hr. cbn in Hr.
    destruct H as [H|H]; [|right; lia]. rewrite countb_zero in H. specialize (H t _ Ht). cbn in H.
    by rewrite bool_decide_true in H.
  - left. apply countb_zero. intros t [p|d p] Ht; [done|]. cbn. apply bool_decide_false. intros <-. by eapply Hn.
Qed.

(** [notifyAll] leaves nobody waiting. *)
Lemma waits_notifyAll c l ts ts' :
  deliver l ts ts' -> All c ∈ l -> countb (waits c) ts' = 0%nat.
Proof.
  assert (Hz : forall l ts ts', deliver l ts ts' -> countb (waits c) ts = 0%nat -> countb (waits c) ts' = 0%nat).
  { intros l0 ts0 ts0' Hd. rewrite !countb_zero. intros H t x Hx. destruct (ts0 !! t) as [y|] eqn:E.
    - destruct (deliver_lookup _ _ _ _ _ Hd E) as [Hy|(d & p & -> & Hy)]; simplify_eq; [by eapply H|done].
    - apply lookup_ge_None in E. apply lookup_lt_Some in Hx. pose proof (deliver_length _ _ _ Hd). lia. }
  induction 1 as [|d l ts t p ts' Ht Hd IH|d l ts ts' Hn Hd IH|d l ts ts' Hd IH]; intros Hin.
  - by apply elem_of_nil in Hin.
  - apply elem_of_cons in Hin as [?|?]; [done|by apply IH].
  - apply elem_of_cons in Hin as [?|?]; [done|by apply IH].
  - apply elem_of_cons in Hin as [[= <-]|?]; [|by apply IH]. eapply Hz; [done|].
    clear. induction ts as [|[p|e p] ts IH]; cbn; [done|done|]. destruct (decide (c = e)) as [->|Hne]; cbn; [done|].
    by rewrite bool_decide_false.
Qed.

(** The thread that ran the segment goes on, giving up its claim if it had one. *)
Lemma served_go c k m n ts t p x :
  served c k n ts -> ts !! t = Some (Ready p) -> waits c x = false ->
  (m + Nat.b2n (k p) <= n + Nat.b2n (ready k x))%nat -> served c k m (<[t := x]> ts).
Proof.
  intros H Ht Hx Hm. pose proof (countb_insert (waits c) ts t _ x Ht) as Hw.
  pose proof (countb_insert (ready k) ts t _ x Ht) as Hr. cbn in Hw, Hr. rewrite Hx in Hw. cbn in Hw.
  unfold served in *. lia.
Qed.

(** With no thread ready at a point of class [k], somebody waiting means nothing is there. *)
Lemma served_quiet c k n ts t p :
  served c k n ts -> countb (ready k) ts = 0%nat -> ts !! t = Some (Waiting c p) -> n = 0%nat.
Proof.
  intros [H|H] Hk Ht; [|lia]. rewrite countb_zero in H. specialize (H _ _ Ht). cbn in H.
  by rewrite bool_decide_true in H.
Qed.
End Monitor.

Arguments tstate : clear implicits.
Arguments signal : clear implicits.
Arguments result : clear implicits.
Arguments sys : clear implicits.
