(* ===== verification/Mutex.v ===== *)
(** * Mutexes, step by step (src/muduo/base/Mutex.h, Condition.h, Condition.cc)

    Monitor.v takes critical sections as atomic.  Here a thread goes through lock, unlock and wait
    one statement at a time: the call of pthread_mutex_lock, the assignment of holder_, the
    statements of the section, and back.  pthread_mutex_lock waits until nobody has the mutex;
    pthread_cond_wait and pthread_cond_timedwait release it and wait in one step, may return at
    any time, and have the mutex again when they do.  [assertLocked] may be called at any point of a section, and holder_ is
    read by threads that do not have the mutex.

    Ghost field [seen]: the shared data as the thread that has the mutex last saw them. *)
From S2P Require Import Prelude.

(** ** Deadlines (waitForSeconds) *)

Definition kNanoSecondsPerSecond : Z := 1000000000.

(** abstime, [nanoseconds] after the time [tv_sec], [tv_nsec]. *)
Definition deadline (tv_sec tv_nsec nanoseconds : Z) : Z * Z :=
  let sum := sint 64 (tv_nsec + nanoseconds) in
  (sint 64 (tv_sec + Z.quot sum kNanoSecondsPerSecond), Z.rem sum kNanoSecondsPerSecond).

Lemma deadline_correct tv_sec tv_nsec nanoseconds :
  0 <= tv_nsec < kNanoSecondsPerSecond -> 0 <= tv_sec < 2 ^ 62 -> 0 <= nanoseconds < 2 ^ 62 ->
  let '(s, n) := deadline tv_sec tv_nsec nanoseconds in
  s * kNanoSecondsPerSecond + n = tv_sec * kNanoSecondsPerSecond + tv_nsec + nanoseconds /\ 0 <= n < kNanoSecondsPerSecond.
Proof.
  unfold deadline, kNanoSecondsPerSecond. intros Hn Hs Hd.
  assert (Hq : 0 <= Z.quot (tv_nsec + nanoseconds) 1000000000 <= 2 ^ 62) by (Z.to_euclidean_division_equations; lia).
  rewrite (sint_small 64 (tv_nsec + nanoseconds)) by (done || unfold in_sint; lia). rewrite sint_small by (done || unfold in_sint; lia).
  Z.to_euclidean_division_equations; lia.
Qed.

(** ** Threads and a mutex *)

(** Where a thread is: not in a section; between pthread_mutex_lock and the assignment of holder_;
    in the section; past the reset of holder_ in unlock or in wait; waiting; past the return of
    pthread_cond_wait. *)
Inductive point := Outside | Locked | Inside | Unlocking | Suspending | Waiting | Resumed.

#[global] Instance point_eq_dec : EqDecision point.
Proof. solve_decision. Defined.

Section Mutex.
Context {D : Type}.

Record MutexLock := mkMutex { mutex_ : option Z; holder_ : Z }.

Record System := mkSystem { lock_ : MutexLock; threads : gmap Z point; data : D; seen : D }.

Definition isLockedByThisThread (tid : Z) (m : MutexLock) : bool := holder_ m =? tid.
Definition assertLocked (tid : Z) (m : MutexLock) : res unit := check (isLockedByThisThread tid m).
Definition assignHolder (tid : Z) (m : MutexLock) : MutexLock := mkMutex (mutex_ m) tid.
Definition unassignHolder (m : MutexLock) : MutexLock := mkMutex (mutex_ m) 0.

(** ~MutexLock *)
Definition destroy_lock (m : MutexLock) : res unit := check (holder_ m =? 0).

Definition goto (tid : Z) (p : point) (m : MutexLock) (s : System) : System :=
  mkSystem m (<[tid := p]> (threads s)) (data s) (seen s).

(** pthread_mutex_lock returns, or pthread_cond_wait does: the thread sees the data again. *)
Definition acquire (tid : Z) (p : point) (s : System) : System :=
  mkSystem (mkMutex (Some tid) (holder_ (lock_ s))) (<[tid := p]> (threads s)) (data s) (data s).
Definition release_lock (tid : Z) (p : point) (s : System) : System := goto tid p (mkMutex None (holder_ (lock_ s))) s.

Inductive statement :=
| PthreadLock | Assign            (* lock *)
| Body (f : D -> D) | Assert      (* in the section *)
| Unassign | PthreadUnlock        (* unlock *)
| UnassignGuard | CondWait | CondReturn | Reassign.   (* wait *)

Definition enabled (tid : Z) (a : statement) (s : System) : bool :=
  match threads s !! tid, a with
  | Some Outside, PthreadLock | Some Waiting, CondReturn => bool_decide (mutex_ (lock_ s) = None)
  | Some Locked, Assign | Some Inside, (Body _ | Assert | Unassign | UnassignGuard)
  | Some Unlocking, PthreadUnlock | Some Suspending, CondWait | Some Resumed, Reassign => true
  | _, _ => false
  end.

Definition perform (tid : Z) (a : statement) (s : System) : res System :=
  match a with
  | PthreadLock => Ok (acquire tid Locked s)
  | CondReturn => Ok (acquire tid Resumed s)
  | Assign | Reassign => Ok (goto tid Inside (assignHolder tid (lock_ s)) s)
  | Body f => Ok (mkSystem (lock_ s) (threads s) (f (data s)) (f (data s)))
  | Assert => _ ← assertLocked tid (lock_ s); Ok s
  | Unassign => Ok (goto tid Unlocking (unassignHolder (lock_ s)) s)
  | UnassignGuard => Ok (goto tid Suspending (unassignHolder (lock_ s)) s)
  | PthreadUnlock => Ok (release_lock tid Outside s)
  | CondWait => Ok (release_lock tid Waiting s)
  end.

Inductive reachable (tids : gset Z) (d : D) : System -> Prop :=
| Init : reachable tids d (mkSystem (mkMutex None 0) (gset_to_gmap Outside tids) d d)
| Step tid a s s' : reachable tids d s -> enabled tid a s = true -> perform tid a s = Ok s' -> reachable tids d s'.

(** A point at which the thread has the mutex. *)
Definition owns (p : point) : bool := match p with Outside | Waiting => false | _ => true end.

Record mutex_inv (s : System) : Prop := {
  mi_owner : forall t p, threads s !! t = Some p -> (owns p = true <-> mutex_ (lock_ s) = Some t);
  mi_holder : forall t, threads s !! t = Some Inside -> holder_ (lock_ s) = t;
  mi_free : holder_ (lock_ s) <> 0 -> threads s !! holder_ (lock_ s) = Some Inside;
  mi_seen : is_Some (mutex_ (lock_ s)) -> data s = seen s;
  mi_tids : forall t, is_Some (threads s !! t) -> 0 < t
}.

Ltac at_thread t' t := destruct (decide (t' = t)) as [->|?]; [rewrite ?lookup_insert_eq in *|rewrite ?lookup_insert_ne in * by congruence].

(** A thread that has the mutex goes on with it, to a place where holder_ is as it should be. *)
Lemma own_step t p q h s :
  mutex_inv s -> threads s !! t = Some p -> owns p = true -> owns q = true ->
  h = (if bool_decide (q = Inside) then t else 0) -> mutex_inv (goto t q (mkMutex (mutex_ (lock_ s)) h) s).
Proof.
  intros [I1 I2 I3 I4 I5] Ht Hp Hq ->. pose proof (proj1 (I1 t p Ht) Hp) as Hm. split; cbn; [| | |done|].
  - intros t' p'. at_thread t' t; [intros [= <-]; split; auto|apply I1].
  - intros t'. at_thread t' t; [by intros [= ->]|]. intros Ht'. pose proof (proj1 (I1 _ _ Ht') eq_refl). congruence.
  - case_bool_decide; [|done]. intros _. subst q. apply lookup_insert_eq.
  - intros t'. at_thread t' t; [intros _; apply I5; by eexists|apply I5].
Qed.

Lemma release_step t p q s :
  mutex_inv s -> threads s !! t = Some p -> owns p = true -> p <> Inside -> owns q = false -> mutex_inv (release_lock t q s).
Proof.
  intros [I1 I2 I3 I4 I5] Ht Hp Hni Hq. pose proof (proj1 (I1 t p Ht) Hp) as Hm. split; cbn; [| | |by intros []|].
  - intros t' p'. at_thread t' t; [intros [= <-]; by rewrite Hq|]. intros Ht'. split; [|done]. intros Ho. apply (I1 _ _ Ht') in Ho. congruence.
  - intros t'. at_thread t' t; [intros [= ->]; done|apply I2].
  - intros Hh. specialize (I3 Hh). rewrite lookup_insert_ne; [done|]. intros E. rewrite <- E in I3. congruence.
  - intros t'. at_thread t' t; [intros _; apply I5; by eexists|apply I5].
Qed.

Lemma acquire_step t p q s :
  mutex_inv s -> threads s !! t = Some p -> mutex_ (lock_ s) = None -> owns p = false -> owns q = true -> q <> Inside -> mutex_inv (acquire t q s).
Proof.
  intros [I1 I2 I3 I4 I5] Ht Hm Hp Hq Hni. split; cbn; [| | |done|].
  - intros t' p'. at_thread t' t; [intros [= <-]; by rewrite Hq|]. intros Ht'. split; [|by intros [= ->]]. intros Ho. apply (I1 _ _ Ht') in Ho. congruence.
  - intros t'. at_thread t' t; [by intros [= ->]|apply I2].
  - intros Hh. specialize (I3 Hh). pose proof (proj1 (I1 _ _ I3) eq_refl). congruence.
  - intros t'. at_thread t' t; [intros _; apply I5; by eexists|apply I5].
Qed.

Lemma mutex_perform_inv t a s : mutex_inv s -> enabled t a s = true -> exists s', perform t a s = Ok s' /\ mutex_inv s'.
Proof.
  intros Hi He. unfold enabled in He. destruct (threads s !! t) as [p|] eqn:Ht; [|done].
  destruct p, a; try done; cbn [perform].
  - apply bool_decide_eq_true in He. eexists. split; [done|]. by eapply acquire_step.
  - eexists. split; [done|]. by eapply (own_step t Locked Inside).
  - eexists. split; [done|]. by destruct Hi as [I1 I2 I3 I4 I5]; split.
  - unfold assertLocked, isLockedByThisThread. rewrite (mi_holder _ Hi t Ht), Z.eqb_refl. by eexists.
  - eexists. split; [done|]. by eapply (own_step t Inside Unlocking).
  - eexists. split; [done|]. by eapply (own_step t Inside Suspending).
  - eexists. split; [done|]. by eapply (release_step t Unlocking).
  - eexists. split; [done|]. by eapply (release_step t Suspending).
  - apply bool_decide_eq_true in He. eexists. split; [done|]. by eapply acquire_step.
  - eexists. split; [done|]. by eapply (own_step t Resumed Inside).
Qed.

Lemma mutex_reachable_inv tids d s : (forall t, t ∈ tids -> 0 < t) -> reachable tids d s -> mutex_inv s.
Proof.
  intros Ht. induction 1 as [|t a s s' _ IH He E]; [|destruct (mutex_perform_inv t a s IH He) as (s1 & E1 & ?); congruence].
  assert (Hout : forall t p, gset_to_gmap Outside tids !! t = Some p -> p = Outside /\ t ∈ tids) by (by intros t p [? <-]%lookup_gset_to_gmap_Some).
  split; cbn; try done.
  - intros t p [-> _]%Hout. done.
  - by intros t [? _]%Hout.
  - intros t [p [_ Hin]%Hout]. by apply Ht.
Qed.

(** Whatever the threads do: two are never in the section at once, and what one has seen of the data is
    not changed under it; [isLockedByThisThread] tells every thread exactly whether it is in the
    section, so that no [assertLocked] of a section fails; and when no thread is in the section the
    mutex may be destroyed. *)
Theorem mutex_correct tids d s :
  (forall t, t ∈ tids -> 0 < t) -> reachable tids d s ->
  (forall t a, enabled t a s = true -> exists s', perform t a s = Ok s' /\ reachable tids d s') /\
  (forall t u p q, threads s !! t = Some p -> threads s !! u = Some q -> owns p = true -> owns q = true -> t = u) /\
  (forall t p, threads s !! t = Some p -> isLockedByThisThread t (lock_ s) = bool_decide (p = Inside)) /\
  (forall t p, threads s !! t = Some p -> owns p = true -> data s = seen s) /\
  ((forall t, threads s !! t <> Some Inside) -> destroy_lock (lock_ s) = Ok tt).
Proof.
  intros Ht Hr. pose proof (mutex_reachable_inv tids d s Ht Hr) as Hi. split_and!.
  - intros t a He. destruct (mutex_perform_inv t a s Hi He) as (s' & E & _). exists s'. split; [done|]. by eapply Step.
  - intros t u p q Hp Hq Op Oq. apply (mi_owner _ Hi _ _ Hp) in Op. apply (mi_owner _ Hi _ _ Hq) in Oq. congruence.
  - intros t p Hp. unfold isLockedByThisThread. case_bool_decide as E.
    + subst p. rewrite (mi_holder _ Hi t Hp). apply Z.eqb_refl.
    + apply Z.eqb_neq. intros <-. assert (Hne : holder_ (lock_ s) <> 0) by (pose proof (mi_tids _ Hi (holder_ (lock_ s)) ltac:(by eexists)); lia).
      pose proof (mi_free _ Hi Hne). congruence.
  - intros t p Hp Op. apply (mi_seen _ Hi). apply (mi_owner _ Hi _ _ Hp) in Op. by eexists.
  - intros Hno. unfold destroy_lock. apply check_true, Z.eqb_eq. destruct (decide (holder_ (lock_ s) = 0)) as [|Hne]; [done|]. destruct (Hno _ (mi_free _ Hi Hne)).
Qed.
End Mutex.
