(* ===== verification/BlockingQueue.v ===== *)
(** * Queues between threads (src/muduo/base/BlockingQueue.h, BoundedBlockingQueue.h)

    Any number of threads put items and take them.  boost::circular_buffer, which holds the
    items of a BoundedBlockingQueue, is the class [CircularBuffer], with the documented
    behaviour of the members used as laws; [list_buffer] is an instance.  std::deque is a
    list.  Ghost fields: [puts] and [takes], the items put and taken, in order. *)

From S2P Require Import Prelude Monitor.

Section Queues.
Context {T : Type}.

(** Where a thread is: outside, at the test of the while loop of [put], or of [take]. *)
Inductive point := Idle | Put (x : T) | Take.

(** An idle thread calls a method; a thread in a method goes on. *)
Inductive label := CallPut (x : T) | CallTake | Go.

Inductive condition := NotEmpty | NotFull.
#[global] Instance condition_eq_dec : EqDecision condition.
Proof. solve_decision. Defined.

Definition at_take (p : point) : bool := match p with Take => true | _ => false end.
Definition at_put (p : point) : bool := match p with Put _ => true | _ => false end.

(** ** boost::circular_buffer *)

Class CircularBuffer (Q : Type) := {
  new_buffer : Z -> Q;
  full : Q -> bool;
  empty : Q -> bool;
  push_back : T -> Q -> Q;
  front : Q -> res T;
  pop_front : Q -> res Q;
  items : Q -> list T;
  capacity : Q -> Z
}.

Class CircularBufferLaws (Q : Type) `{CircularBuffer Q} : Prop := {
  new_buffer_law n : 0 <= n -> items (new_buffer n) = [] /\ capacity (new_buffer n) = n;
  full_law q : full q = (zlen (items q) =? capacity q);
  empty_law q : empty q = (zlen (items q) =? 0);
  push_back_law x q : full q = false -> items (push_back x q) = items q ++ [x] /\ capacity (push_back x q) = capacity q;
  front_law q x l : items q = x :: l -> front q = Ok x;
  pop_front_law q x l : items q = x :: l ->
    exists q', pop_front q = Ok q' /\ items q' = l /\ capacity q' = capacity q
}.

(** A list with a bound; when it is full, push_back overwrites the first item. *)
Record list_buffer := mkListBuffer { lb_items : list T; lb_capacity : Z }.

#[global] Instance list_buffer_ops : CircularBuffer list_buffer := {
  new_buffer n := mkListBuffer [] n;
  full q := zlen (lb_items q) =? lb_capacity q;
  empty q := zlen (lb_items q) =? 0;
  push_back x q := mkListBuffer
    (if zlen (lb_items q) =? lb_capacity q then drop 1 (lb_items q) ++ [x] else lb_items q ++ [x]) (lb_capacity q);
  front q := get (head (lb_items q));
  pop_front q := match lb_items q with [] => Fault OutOfBounds | _ :: l => Ok (mkListBuffer l (lb_capacity q)) end;
  items := lb_items;
  capacity := lb_capacity
}.

#[global] Instance list_buffer_laws : CircularBufferLaws list_buffer.
Proof.
  split; cbn; try done.
  - intros x q ->. done.
  - by intros q x l ->.
  - intros q x l ->. by eexists.
Qed.

(** ** BoundedBlockingQueue *)

Section Bounded.
Context {Q : Type} `{HL : CircularBufferLaws Q}.

Record BoundedBlockingQueue := mkBounded { bqueue_ : Q; bputs : list T; btakes : list T }.

Definition newBoundedBlockingQueue (maxSize : Z) : BoundedBlockingQueue := mkBounded (new_buffer maxSize) [] [].

Abbreviation bresult := (res (result BoundedBlockingQueue condition point)).

Definition bounded_put (x : T) (s : BoundedBlockingQueue) : bresult :=
  if full (bqueue_ s) then Ok (mkResult s [] (Waiting NotFull (Put x)))
  else
    _ ← check (negb (full (bqueue_ s)));
    Ok (mkResult (mkBounded (push_back x (bqueue_ s)) (bputs s ++ [x]) (btakes s)) [One NotEmpty] (Ready Idle)).

Definition bounded_take (s : BoundedBlockingQueue) : bresult :=
  if empty (bqueue_ s) then Ok (mkResult s [] (Waiting NotEmpty Take))
  else
    _ ← check (negb (empty (bqueue_ s)));
    x ← front (bqueue_ s);
    q ← pop_front (bqueue_ s);
    Ok (mkResult (mkBounded q (bputs s) (btakes s ++ [x])) [One NotFull] (Ready Idle)).

Definition bounded_segment (a : label) (p : point) (s : BoundedBlockingQueue) : option bresult :=
  match a, p with
  | CallPut x, Idle => Some (Ok (mkResult s [] (Ready (Put x))))
  | CallTake, Idle => Some (Ok (mkResult s [] (Ready Take)))
  | Go, Put x => Some (bounded_put x s)
  | Go, Take => Some (bounded_take s)
  | _, _ => None
  end.

(** [n] threads share a new queue. *)
Definition bounded_init (maxSize : Z) (n : nat) : sys BoundedBlockingQueue condition point :=
  mkSys (newBoundedBlockingQueue maxSize) (replicate n (Ready Idle)).

Record bounded_inv (maxSize : Z) (x : sys BoundedBlockingQueue condition point) : Prop := {
  bi_cap : capacity (bqueue_ (shared x)) = maxSize;
  bi_len : 0 <= zlen (items (bqueue_ (shared x))) <= maxSize;
  bi_fifo : btakes (shared x) ++ items (bqueue_ (shared x)) = bputs (shared x);
  bi_take : waits_at NotEmpty at_take (threads x);
  bi_put : waits_at NotFull at_put (threads x);
  bi_items : served NotEmpty at_take (length (items (bqueue_ (shared x)))) (threads x);
  bi_room : served NotFull at_put (Z.to_nat maxSize - length (items (bqueue_ (shared x)))) (threads x)
}.

(** Neither loop ends with its condition false. *)
Lemma bounded_put_ok maxSize x s :
  capacity (bqueue_ s) = maxSize -> zlen (items (bqueue_ s)) <= maxSize ->
  (zlen (items (bqueue_ s)) = maxSize /\ bounded_put x s = Ok (mkResult s [] (Waiting NotFull (Put x)))) \/
  (zlen (items (bqueue_ s)) < maxSize /\ exists q, items q = items (bqueue_ s) ++ [x] /\ capacity q = maxSize /\
     bounded_put x s = Ok (mkResult (mkBounded q (bputs s ++ [x]) (btakes s)) [One NotEmpty] (Ready Idle))).
Proof using HL.
  intros Hc Hl. unfold bounded_put. destruct (full (bqueue_ s)) eqn:E; pose proof E as E'; rewrite full_law in E.
  - left. split; [lia|done].
  - right. split; [lia|]. destruct (push_back_law x _ E') as [Hi Hc']. eexists. split_and!; [done|by rewrite Hc'|done].
Qed.

Lemma bounded_take_ok s :
  (items (bqueue_ s) = [] /\ bounded_take s = Ok (mkResult s [] (Waiting NotEmpty Take))) \/
  exists q x l, items (bqueue_ s) = x :: l /\ items q = l /\ capacity q = capacity (bqueue_ s) /\
    bounded_take s = Ok (mkResult (mkBounded q (bputs s) (btakes s ++ [x])) [One NotFull] (Ready Idle)).
Proof using HL.
  unfold bounded_take. rewrite empty_law. destruct (items (bqueue_ s)) as [|x l] eqn:E; [by left|right].
  rewrite zlen_cons. pose proof (zlen_nonneg l). replace (1 + zlen l =? 0) with false by lia. cbn.
  rewrite (front_law _ x l E). cbn. destruct (pop_front_law _ x l E) as (q & -> & Hi & Hc). by exists q, x, l.
Qed.

Lemma bounded_step maxSize x y : bounded_inv maxSize x -> step bounded_segment x y -> bounded_inv maxSize y.
Proof using HL.
  intros [Hc Hl Hf Ht Hp Hi Hr] Hs. destruct Hs as [t x y [a p s ts r ts' Hrdy Hseg Hd]|s ts t c p Hw]; cbn [shared threads] in *.
  2: { split; cbn [shared threads]; try done; [by apply waits_at_insert..|by eapply served_wake|by eapply served_wake]. }
  pose proof (deliver_ready _ _ _ _ _ Hd Hrdy) as Hrdy'.
  pose proof (waits_at_deliver _ _ _ _ _ Hd Ht) as Ht'. pose proof (waits_at_deliver _ _ _ _ _ Hd Hp) as Hp'.
  destruct a as [v| |], p as [|v'|]; try discriminate Hseg; cbn [bounded_segment] in Hseg.
  - injection Hseg as <-. cbn [r_shared r_signals r_next] in *. inversion Hd; subst.
    split; cbn [shared threads]; try done; [by apply waits_at_insert..|eapply served_go|eapply served_go]; try done; cbn; lia.
  - injection Hseg as <-. cbn [r_shared r_signals r_next] in *. inversion Hd; subst.
    split; cbn [shared threads]; try done; [by apply waits_at_insert..|eapply served_go|eapply served_go]; try done; cbn; lia.
  - destruct (bounded_put_ok maxSize v' s Hc ltac:(lia)) as [[Hfull E]|(Hroom & q & Hq & Hcq & E)];
      rewrite E in Hseg; injection Hseg as <-; cbn [r_shared r_signals r_next] in *.
    + inversion Hd; subst. split; cbn [shared threads]; try done.
      * by apply waits_at_insert.
      * apply waits_at_insert; [done|]. by intros ? [= <-].
      * eapply served_go; [done|done|done|cbn; lia].
      * unfold zlen in Hfull. replace (_ - _)%nat with 0%nat by lia. apply served_zero.
    + split; cbn [shared threads bqueue_ bputs btakes]; rewrite ?Hq; try done.
      * rewrite zlen_app. change (zlen [v']) with 1. lia.
      * by rewrite (assoc_L app), Hf.
      * by apply waits_at_insert.
      * by apply waits_at_insert.
      * rewrite length_app, Nat.add_comm. eapply served_go; [by eapply served_notify|done|done|cbn; lia].
      * rewrite length_app. eapply served_go; [by eapply served_deliver|done|done|]. unfold zlen in Hroom. cbn. lia.
  - destruct (bounded_take_ok s) as [[Hnil E]|(q & v & l & Hv & Hq & Hcq & E)];
      rewrite E in Hseg; injection Hseg as <-; cbn [r_shared r_signals r_next] in *.
    + inversion Hd; subst. split; cbn [shared threads]; try done.
      * apply waits_at_insert; [done|]. by intros ? [= <-].
      * by apply waits_at_insert.
      * rewrite Hnil. apply served_zero.
      * eapply served_go; [done|done|done|cbn; lia].
    + rewrite Hv in *. rewrite zlen_cons in Hl. split; cbn [shared threads bqueue_ bputs btakes]; rewrite ?Hq; try done.
      * congruence.
      * pose proof (zlen_nonneg l). lia.
      * by rewrite <- (assoc_L app).
      * by apply waits_at_insert.
      * by apply waits_at_insert.
      * eapply served_go; [by eapply served_deliver|done|done|cbn; lia].
      * eapply served_go; [by eapply served_notify|done|done|]. unfold zlen in Hl. cbn. lia.
Qed.

Lemma waits_at_ready c k n (p : point) : waits_at (C := condition) c k (replicate n (Ready p)).
Proof. intros t q Hq. by apply lookup_replicate in Hq as [? _]. Qed.

Lemma served_ready c k m n (p : point) : served (C := condition) c k m (replicate n (Ready p)).
Proof. left. apply countb_zero. intros t x Hx. by apply lookup_replicate in Hx as [-> _]. Qed.

Lemma bounded_reachable maxSize n x :
  0 <= maxSize -> reachable bounded_segment (bounded_init maxSize n) x -> bounded_inv maxSize x.
Proof using HL.
  intros Hm. apply reachable_ind_inv; [|by intros; eapply bounded_step].
  destruct (new_buffer_law maxSize Hm) as [Hi Hc].
  split; cbn; rewrite ?Hi; try done; auto using waits_at_ready, served_ready.
Qed.

(** No thread is inside a method and able to go on. *)
Definition stuck (ts : list (tstate condition point)) : Prop :=
  countb (ready at_take) ts = 0%nat /\ countb (ready at_put) ts = 0%nat.

(** A bounded queue shared by any number of threads, in every interleaving and with
    spurious wakeups: items come out in the order they went in, none lost or duplicated;
    there are never more than maxSize; no assertion fails; while threads wait for items
    (or for room), at least as many others as there are items (free places) are already
    on their way to claim them; so threads block for good only when all of them wait for
    items of an empty queue or all of them for room in a full one. *)
Theorem bounded_queue_correct maxSize n x :
  0 < maxSize -> reachable bounded_segment (bounded_init maxSize n) x ->
  btakes (shared x) ++ items (bqueue_ (shared x)) = bputs (shared x) /\
  zlen (items (bqueue_ (shared x))) <= maxSize /\
  served NotEmpty at_take (length (items (bqueue_ (shared x)))) (threads x) /\
  served NotFull at_put (Z.to_nat maxSize - length (items (bqueue_ (shared x)))) (threads x) /\
  (forall a p r, bounded_segment a p (shared x) = Some r -> exists res, r = Ok res) /\
  (stuck (threads x) -> forall t c p, threads x !! t = Some (Waiting c p) ->
     if decide (c = NotEmpty) then items (bqueue_ (shared x)) = []
     else zlen (items (bqueue_ (shared x))) = maxSize).
Proof using HL.
  intros Hm Hr. destruct (bounded_reachable maxSize n x ltac:(lia) Hr) as [Hc Hl Hf Ht Hp Hi Hro]. split_and!; try done; [lia|..].
  - intros [v| |] [|v'|] r; try done; cbn; intros [= <-]; eauto.
    + destruct (bounded_put_ok maxSize v' _ Hc ltac:(lia)) as [[_ ->]|(_ & q & _ & _ & ->)]; eauto.
    + destruct (bounded_take_ok (shared x)) as [[_ ->]|(q & v & l & _ & _ & _ & ->)]; eauto.
  - intros [H1 H2] t c p Hw. destruct (decide (c = NotEmpty)) as [->|Hne].
    + apply nil_length_inv. by eapply served_quiet.
    + destruct c; [done|]. pose proof (served_quiet _ _ _ _ _ _ Hro H2 Hw). unfold zlen in *. lia.
Qed.
End Bounded.

(** ** BlockingQueue *)

Record BlockingQueue := mkBlocking { queue_ : list T; puts : list T; takes : list T }.

Definition newBlockingQueue : BlockingQueue := mkBlocking [] [] [].

Abbreviation qresult := (res (result BlockingQueue condition point)).

Definition blocking_put (x : T) (s : BlockingQueue) : qresult :=
  Ok (mkResult (mkBlocking (queue_ s ++ [x]) (puts s ++ [x]) (takes s)) [One NotEmpty] (Ready Idle)).

Definition blocking_take (s : BlockingQueue) : qresult :=
  match queue_ s with
  | [] => Ok (mkResult s [] (Waiting NotEmpty Take))
  | x :: q =>
      _ ← check (negb (zlen (x :: q) =? 0));
      Ok (mkResult (mkBlocking q (puts s) (takes s ++ [x])) [] (Ready Idle))
  end.

Definition blocking_segment (a : label) (p : point) (s : BlockingQueue) : option qresult :=
  match a, p with
  | CallPut x, Idle => Some (Ok (mkResult s [] (Ready (Put x))))
  | CallTake, Idle => Some (Ok (mkResult s [] (Ready Take)))
  | Go, Put x => Some (blocking_put x s)
  | Go, Take => Some (blocking_take s)
  | _, _ => None
  end.

Definition blocking_init (n : nat) : sys BlockingQueue condition point :=
  mkSys newBlockingQueue (replicate n (Ready Idle)).

Record blocking_inv (x : sys BlockingQueue condition point) : Prop := {
  qi_fifo : takes (shared x) ++ queue_ (shared x) = puts (shared x);
  qi_take : waits_at NotEmpty at_take (threads x);
  qi_items : served NotEmpty at_take (length (queue_ (shared x))) (threads x)
}.

Lemma blocking_take_cons s x q :
  queue_ s = x :: q ->
  blocking_take s = Ok (mkResult (mkBlocking q (puts s) (takes s ++ [x])) [] (Ready Idle)).
Proof.
  intros Hq. unfold blocking_take. rewrite Hq. rewrite check_true; [done|].
  rewrite zlen_cons. pose proof (zlen_nonneg q). lia.
Qed.

Lemma blocking_step x y : blocking_inv x -> step blocking_segment x y -> blocking_inv y.
Proof.
  intros [Hf Ht Hi] Hs. destruct Hs as [t x y [a p s ts r ts' Hrdy Hseg Hd]|s ts t c p Hw]; cbn [shared threads] in *.
  2: { split; cbn [shared threads]; [done|by apply waits_at_insert|by eapply served_wake]. }
  pose proof (deliver_ready _ _ _ _ _ Hd Hrdy) as Hrdy'. pose proof (waits_at_deliver _ _ _ _ _ Hd Ht) as Ht'.
  destruct a as [v| |], p as [|v'|]; try discriminate Hseg; cbn [blocking_segment] in Hseg.
  - injection Hseg as <-. cbn [r_shared r_signals r_next] in *. inversion Hd; subst.
    split; cbn [shared threads]; [done|by apply waits_at_insert|eapply served_go; try done; cbn; lia].
  - injection Hseg as <-. cbn [r_shared r_signals r_next] in *. inversion Hd; subst.
    split; cbn [shared threads]; [done|by apply waits_at_insert|eapply served_go; try done; cbn; lia].
  - injection Hseg as <-. cbn [r_shared r_signals r_next] in *. split; cbn [shared threads queue_ puts takes].
    + by rewrite (assoc_L app), Hf.
    + by apply waits_at_insert.
    + rewrite length_app, Nat.add_comm. eapply served_go; [by eapply served_notify|done|done|cbn; lia].
  - destruct (queue_ s) as [|v q] eqn:Hq.
    + unfold blocking_take in Hseg. rewrite Hq in Hseg. injection Hseg as <-. cbn [r_shared r_signals r_next] in *.
      inversion Hd; subst. split; cbn [shared threads]; [by rewrite Hq| |rewrite Hq; apply served_zero].
      apply waits_at_insert; [done|]. by intros ? [= <-].
    + rewrite (blocking_take_cons s v q Hq) in Hseg. injection Hseg as <-. cbn [r_shared r_signals r_next] in *.
      inversion Hd; subst. split; cbn [shared threads queue_ puts takes]; [by rewrite <- (assoc_L app)|by apply waits_at_insert|].
      eapply served_go; [done|done|done|cbn; lia].
Qed.

(** The unbounded queue: first in, first out, and while threads wait for items at least as
    many others as there are items are on their way to take them; so threads block for good
    only on an empty queue. *)
Theorem blocking_queue_correct n x :
  reachable blocking_segment (blocking_init n) x ->
  takes (shared x) ++ queue_ (shared x) = puts (shared x) /\
  served NotEmpty at_take (length (queue_ (shared x))) (threads x) /\
  (countb (ready at_take) (threads x) = 0%nat ->
   forall t c p, threads x !! t = Some (Waiting c p) -> c = NotEmpty -> queue_ (shared x) = []).
Proof.
  intros Hr. assert (Hv : blocking_inv x).
  { revert Hr. apply reachable_ind_inv; [|by intros; eapply blocking_step].
    split; cbn; auto using waits_at_ready, served_ready. }
  destruct Hv as [Hf Ht Hi]. split_and!; [done..|]. intros H t c p Hw ->. apply nil_length_inv. by eapply served_quiet.
Qed.
End Queues.

(** A consumer waits, a producer puts 7: the consumer is woken to take it. *)
Definition bounded_sched : list (nat * label) := [(0, CallTake); (0, Go); (1, CallPut 7); (1, Go)]%nat.

Lemma bounded_queue_correct_witness :
  exists x, exec bounded_segment bounded_sched (bounded_init (Q := list_buffer) 1 2) = Some x /\
    served NotEmpty at_take 1 (threads x).
Proof.
  destruct (exec bounded_segment bounded_sched (bounded_init (Q := list_buffer) 1 2)) as [x|] eqn:E; [|discriminate E].
  exists x. split; [done|].
  destruct (bounded_queue_correct (Q := list_buffer) 1 2 x ltac:(lia)) as (_ & _ & H & _).
  - eapply exec_reachable; [apply ReachInit|exact E].
  - vm_compute in E. injection E as <-. exact H.
Defined.
