(* ===== verification/ThreadPool.v ===== *)
(** * Thread pools (src/muduo/base/ThreadPool.h, ThreadPool.cc)

    Worker threads take tasks from a queue, bounded when [maxQueueSize_] is positive; other
    threads ("callers") call [run] and [stop].  A task is an identifier; [body] gives the
    calls of [run] on the same pool it makes.  The unguarded read of [running_] in
    [runInThread] is a step of its own.  [stop] then joins the workers: [pool_stops] shows
    that they exit.

    Ghost fields: [accepted], the tasks queued, and [started], the tasks a worker started,
    in order; [direct], the tasks run by their caller, in a pool without threads. *)

From S2P Require Import Prelude Monitor.

Section ThreadPool.
Context {Task : Type} (body : Task -> list Task).

Record ThreadPool := mkPool {
  queue_ : list Task;
  maxQueueSize_ : Z;
  running_ : bool;
  numThreads_ : nat;             (* threads_.size() *)
  accepted : list Task;
  started : list Task;
  direct : list Task
}.

(** The constructor, [setMaxQueueSize] (an int stored in a [size_t]), [start]. *)
Definition newThreadPool : ThreadPool := mkPool [] 0 false 0 [] [] [].

Definition setMaxQueueSize (maxSize : Z) (s : ThreadPool) : ThreadPool :=
  mkPool (queue_ s) (size_t maxSize) (running_ s) (numThreads_ s) (accepted s) (started s) (direct s).

(** [threads_.reserve] throws for a negative argument *)
Definition start (numThreads : Z) (s : ThreadPool) : res ThreadPool :=
  _ ← check (numThreads_ s =? 0)%nat;
  if numThreads <? 0 then Fault LengthError
  else Ok (mkPool (queue_ s) (maxQueueSize_ s) true (Z.to_nat numThreads) (accepted s) (started s) (direct s)).

Definition isFull (s : ThreadPool) : bool :=
  (0 <? maxQueueSize_ s) && (maxQueueSize_ s <=? zlen (queue_ s)).

Inductive condition := NotEmpty | NotFull.
#[global] Instance pool_condition_eq_dec : EqDecision condition.
Proof. solve_decision. Defined.

(** Whose code: a worker's (running a task) or a caller's. *)
Inductive owner := Worker | Caller.

(** Program points; [rest] are the calls of [run] still to be made. *)
Inductive point :=
| WCheck                                             (* while (running_) *)
| WTake                                              (* take(), at the test of its loop *)
| WExited
| Call (x : Task) (w : owner) (rest : list Task)     (* run(x), before testing threads_.empty() *)
| Run (x : Task) (w : owner) (rest : list Task)      (* run(x), at the test of its loop *)
| CIdle
| CStop                                              (* stop(), before locking *)
| CJoin.                                             (* stop(), joining the workers *)

Inductive label := CallRun (x : Task) | CallStop | Go.

Definition after (w : owner) (rest : list Task) : point :=
  match rest with
  | x :: rest => Call x w rest
  | [] => match w with Worker => WCheck | Caller => CIdle end
  end.

Abbreviation presult := (res (result ThreadPool condition point)).

(** [run], with threads, from the test of its loop on *)
Definition run (x : Task) (w : owner) (rest : list Task) (s : ThreadPool) : presult :=
  if isFull s && running_ s then Ok (mkResult s [] (Waiting NotFull (Run x w rest)))
  else if negb (running_ s) then Ok (mkResult s [] (Ready (after w rest)))
  else
    _ ← check (negb (isFull s));
    Ok (mkResult (mkPool (queue_ s ++ [x]) (maxQueueSize_ s) (running_ s) (numThreads_ s)
                    (accepted s ++ [x]) (started s) (direct s)) [One NotEmpty] (Ready (after w rest))).

(** [take], and the task it returns run by the worker; an empty Task is not run *)
Definition take (s : ThreadPool) : presult :=
  match queue_ s with
  | [] => Ok (mkResult s [] (if running_ s then Waiting NotEmpty WTake else Ready WCheck))
  | x :: q =>
      Ok (mkResult (mkPool q (maxQueueSize_ s) (running_ s) (numThreads_ s) (accepted s) (started s ++ [x]) (direct s))
            (if 0 <? maxQueueSize_ s then [One NotFull] else []) (Ready (after Worker (body x))))
  end.

(** [stop], its critical section *)
Definition stop (s : ThreadPool) : presult :=
  Ok (mkResult (mkPool (queue_ s) (maxQueueSize_ s) false (numThreads_ s) (accepted s) (started s) (direct s))
        [All NotEmpty; All NotFull] (Ready CJoin)).

(** A task run by its caller. *)
Definition run_direct (x : Task) (w : owner) (rest : list Task) (s : ThreadPool) : presult :=
  Ok (mkResult (mkPool (queue_ s) (maxQueueSize_ s) (running_ s) (numThreads_ s) (accepted s) (started s)
                  (direct s ++ [x])) [] (Ready (after w (body x ++ rest)))).

Definition segment (a : label) (p : point) (s : ThreadPool) : option presult :=
  match a, p with
  | CallRun x, CIdle => Some (Ok (mkResult s [] (Ready (Call x Caller []))))
  | CallStop, CIdle => Some (Ok (mkResult s [] (Ready CStop)))
  | Go, Call x w rest =>
      Some (if (numThreads_ s =? 0)%nat then run_direct x w rest s else Ok (mkResult s [] (Ready (Run x w rest))))
  | Go, Run x w rest => Some (run x w rest s)
  | Go, WCheck => Some (Ok (mkResult s [] (Ready (if running_ s then WTake else WExited))))
  | Go, WTake => Some (take s)
  | Go, CStop => Some (stop s)
  | _, _ => None
  end.

(** A pool with [n] workers and [m] callers after [start]. *)
Definition pool_init (maxSize : Z) (n m : nat) : res (sys ThreadPool condition point) :=
  s ← start (Z.of_nat n) (setMaxQueueSize maxSize newThreadPool);
  Ok (mkSys s (replicate n (Ready WCheck) ++ replicate m (Ready CIdle))).

(** ** Invariant *)

Definition at_take (p : point) : bool := match p with WTake => true | _ => false end.
Definition at_run (p : point) : bool := match p with Run _ _ _ => true | _ => false end.

(** Free places of a bounded queue. *)
Definition free (s : ThreadPool) : nat := Z.to_nat (maxQueueSize_ s) - length (queue_ s).

Definition worker_point (p : point) : bool :=
  match p with WCheck | WTake | WExited | Call _ Worker _ | Run _ Worker _ => true | _ => false end.
Definition point_of (x : tstate condition point) : point := match x with Ready p | Waiting _ p => p end.

Record pool_inv (n : nat) (x : sys ThreadPool condition point) : Prop := {
  pi_threads : numThreads_ (shared x) = n;
  pi_max : 0 <= maxQueueSize_ (shared x);
  pi_bound : 0 < maxQueueSize_ (shared x) -> zlen (queue_ (shared x)) <= maxQueueSize_ (shared x);
  pi_fifo : started (shared x) ++ queue_ (shared x) = accepted (shared x);
  pi_take : waits_at NotEmpty at_take (threads x);
  pi_run : waits_at NotFull at_run (threads x);
  pi_items : served NotEmpty at_take (length (queue_ (shared x))) (threads x);
  pi_room : served NotFull at_run (free (shared x)) (threads x);
  pi_stopped : running_ (shared x) = false -> forall t c p, threads x !! t <> Some (Waiting c p);
  pi_unbounded : maxQueueSize_ (shared x) = 0 -> forall t p, threads x !! t <> Some (Waiting NotFull p);
  pi_who : forall t y, threads x !! t = Some y -> worker_point (point_of y) = bool_decide (t < n)%nat
}.

Lemma nobody_served c k m (ts : list (tstate condition point)) :
  (forall t p, ts !! t <> Some (Waiting c p)) -> served c k m ts.
Proof.
  intros H. left. apply countb_zero. intros t [p|d p] Ht; [done|]. cbn. apply bool_decide_false. intros <-. by eapply H.
Qed.

Lemma nobody_insert (P : condition -> Prop) (ts : list (tstate condition point)) t q :
  (forall u c p, P c -> ts !! u <> Some (Waiting c p)) ->
  forall u c p, P c -> <[t := Ready q]> ts !! u <> Some (Waiting c p).
Proof. intros H u c p Hc Hu. apply list_lookup_insert_Some in Hu as [(_ & ? & _)|[_ Hu]]; [done|by eapply H]. Qed.

Lemma nobody_deliver (P : condition -> Prop) l (ts ts' : list (tstate condition point)) :
  deliver l ts ts' -> (forall u c p, P c -> ts !! u <> Some (Waiting c p)) ->
  forall u c p, P c -> ts' !! u <> Some (Waiting c p).
Proof.
  intros Hd H u c p Hc Hu. destruct (ts !! u) as [y|] eqn:E.
  - destruct (deliver_lookup _ _ _ _ _ Hd E) as [Hy|(d & q & -> & Hy)]; simplify_eq. by eapply H.
  - apply lookup_ge_None in E. apply lookup_lt_Some in Hu. pose proof (deliver_length _ _ _ Hd). lia.
Qed.

Lemma who_deliver n l (ts ts' : list (tstate condition point)) :
  deliver l ts ts' -> (forall t y, ts !! t = Some y -> worker_point (point_of y) = bool_decide (t < n)%nat) ->
  forall t y, ts' !! t = Some y -> worker_point (point_of y) = bool_decide (t < n)%nat.
Proof.
  intros Hd H t y Hy. destruct (ts !! t) as [z|] eqn:E.
  - rewrite <- (H t z E). destruct (deliver_lookup _ _ _ _ _ Hd E) as [Hz|(c & p & -> & Hz)]; by simplify_eq.
  - apply lookup_ge_None in E. apply lookup_lt_Some in Hy. pose proof (deliver_length _ _ _ Hd). lia.
Qed.

Definition notifies (c : condition) (l : list (signal condition)) : bool :=
  match l with [One d] => bool_decide (c = d) | _ => false end.

(** What a segment has to establish about the state it leaves, for the invariant to hold
    after it: the counts of tasks and of free places go up only with a notification, and
    a claim is given up only when it was honoured. *)
Record segment_ok (s : ThreadPool) (p : point) (r : result ThreadPool condition point) : Prop := {
  so_const : numThreads_ (r_shared r) = numThreads_ s /\ maxQueueSize_ (r_shared r) = maxQueueSize_ s;
  so_bound : 0 < maxQueueSize_ s -> zlen (queue_ (r_shared r)) <= maxQueueSize_ s;
  so_fifo : started (r_shared r) ++ queue_ (r_shared r) = accepted (r_shared r);
  so_wait : forall c q, r_next r = Waiting c q ->
    q = p /\ running_ s = true /\ r_shared r = s /\ r_signals r = [] /\
    ((c = NotEmpty /\ at_take p = true /\ queue_ s = []) \/
     (c = NotFull /\ at_run p = true /\ free s = 0%nat /\ 0 < maxQueueSize_ s));
  so_items : forall q, r_next r = Ready q ->
    (length (queue_ (r_shared r)) + Nat.b2n (at_take p) <=
     length (queue_ s) + Nat.b2n (at_take q) + Nat.b2n (notifies NotEmpty (r_signals r)))%nat \/
    queue_ (r_shared r) = [] \/ running_ (r_shared r) = false;
  so_room : forall q, r_next r = Ready q ->
    (free (r_shared r) + Nat.b2n (at_run p) <=
     free s + Nat.b2n (at_run q) + Nat.b2n (notifies NotFull (r_signals r)))%nat \/
    maxQueueSize_ s = 0 \/ running_ (r_shared r) = false;
  so_running : running_ (r_shared r) = running_ s \/ r_signals r = [All NotEmpty; All NotFull];
  so_who : worker_point (point_of (r_next r)) = worker_point p
}.

Lemma served_signals c k n l (ts ts' : list (tstate condition point)) :
  deliver l ts ts' -> waits_at c k ts -> served c k n ts -> served c k (Nat.b2n (notifies c l) + n) ts'.
Proof.
  intros Hd Hk Hs. destruct (notifies c l) eqn:E; [|by eapply served_deliver].
  destruct l as [|[d|d] [|]]; try discriminate E. cbn in E. apply bool_decide_eq_true in E as <-. by eapply served_notify.
Qed.

Lemma segment_preserves n s ts ts' t p r :
  pool_inv n (mkSys s ts) -> ts !! t = Some (Ready p) -> deliver (r_signals r) ts ts' -> segment_ok s p r ->
  pool_inv n (mkSys (r_shared r) (<[t := r_next r]> ts')).
Proof.
  intros [Hn Hm Hb Hf Ht Hr Hi Hro Hst Hun Hw] Hp Hd [[Hc1 Hc2] Ob Of Owt Oi Oro Orun Owho]; cbn [shared threads] in *.
  pose proof (deliver_ready _ _ _ _ _ Hd Hp) as Hp'.
  pose proof (waits_at_deliver _ _ _ _ _ Hd Ht) as Ht'. pose proof (waits_at_deliver _ _ _ _ _ Hd Hr) as Hr'.
  assert (Hst' : running_ (r_shared r) = false -> forall u c q, ts' !! u <> Some (Waiting c q)).
  { intros H u c q Hu. destruct Orun as [Orun|Esig].
    - by apply (nobody_deliver (fun _ => True) _ _ _ Hd) in Hu; [|rewrite Orun in H; intros ? ? ? _; by apply Hst|].
    - rewrite Esig in Hd. pose proof (waits_notifyAll c _ _ _ Hd) as Hz. rewrite countb_zero in Hz.
      specialize (Hz ltac:(destruct c; set_solver) u _ Hu). cbn in Hz. by rewrite bool_decide_true in Hz. }
  assert (Hun' : maxQueueSize_ s = 0 -> forall u q, ts' !! u <> Some (Waiting NotFull q)).
  { intros H u q. apply (nobody_deliver (fun c => c = NotFull) _ _ _ Hd); [|done]. intros ? ? ? ->. by apply Hun. }
  split; cbn [shared threads]; [congruence|lia|rewrite Hc2; done|done|..].
  - apply waits_at_insert; [done|]. intros q Hq. destruct (Owt _ _ Hq) as (-> & _ & _ & _ & [(_ & ? & _)|(? & _)]); done.
  - apply waits_at_insert; [done|]. intros q Hq. destruct (Owt _ _ Hq) as (-> & _ & _ & _ & [(? & _)|(_ & ? & _)]); done.
  - destruct (r_next r) as [q|c q] eqn:En.
    + destruct (Oi q eq_refl) as [Hle|[->|Hrun]]; [|apply served_zero|].
      * eapply served_go; [by eapply served_signals|done|done|cbn; lia].
      * eapply (served_go _ _ _ (length (queue_ (r_shared r)) + 1)); [apply nobody_served; intros; by apply Hst'|done|done|].
        destruct (at_take p); cbn; lia.
    + destruct (Owt c q eq_refl) as (-> & _ & -> & Esig & [(-> & Hat & ->)|(-> & Hat & _)]); [apply served_zero|].
      eapply served_go; [by eapply served_deliver|done|done|]. cbn. destruct p; try discriminate Hat. cbn. lia.
  - destruct (r_next r) as [q|c q] eqn:En.
    + destruct (Oro q eq_refl) as [Hle|[Hz|Hrun]].
      * eapply served_go; [by eapply served_signals|done|done|cbn; lia].
      * apply nobody_served. intros u q' Hu. apply list_lookup_insert_Some in Hu as [(_ & ? & _)|[_ Hu]]; [done|by eapply Hun'].
      * apply nobody_served. intros u q' Hu. apply list_lookup_insert_Some in Hu as [(_ & ? & _)|[_ Hu]]; [done|by eapply Hst'].
    + destruct (Owt c q eq_refl) as (-> & _ & -> & Esig & [(-> & Hat & _)|(-> & Hat & -> & _)]); [|apply served_zero].
      eapply served_go; [by eapply served_deliver|done|done|]. cbn. destruct p; try discriminate Hat. cbn. lia.
  - intros H u c q Hu. apply list_lookup_insert_Some in Hu as [(_ & Hx & _)|[_ Hu]]; [|by eapply Hst'].
    destruct (Owt _ _ Hx) as (_ & Hrun & Hs & _). congruence.
  - rewrite Hc2. intros H u q Hu. apply list_lookup_insert_Some in Hu as [(_ & Hx & _)|[_ Hu]]; [|by eapply Hun'].
    destruct (Owt _ _ Hx) as (_ & _ & _ & _ & [(? & _)|(_ & _ & _ & ?)]); [done|lia].
  - intros u y Hu. apply list_lookup_insert_Some in Hu as [(-> & <- & _)|[_ Hu]]; [|by eapply who_deliver].
    rewrite Owho. by apply (Hw u (Ready p)).
Qed.

Lemma after_who w rest : worker_point (after w rest) = match w with Worker => true | Caller => false end.
Proof. by destruct rest, w. Qed.
Lemma after_plain w rest : at_take (after w rest) = false /\ at_run (after w rest) = false.
Proof. by destruct rest, w. Qed.

(** Segments that touch nothing. *)
Lemma goto_ok n x p q :
  pool_inv n x -> worker_point q = worker_point p ->
  (at_take p = true -> at_take q = false -> queue_ (shared x) = [] \/ running_ (shared x) = false) ->
  (at_run p = true -> at_run q = false -> running_ (shared x) = false) ->
  segment_ok (shared x) p (mkResult (shared x) [] (Ready q)).
Proof.
  intros Hi Hw Ht Hr. split; cbn [r_shared r_signals r_next]; try done.
  - apply Hi.
  - apply Hi.
  - intros q' [= <-]. cbn. destruct (at_take p), (at_take q); cbn; try (left; lia). right. destruct Ht; auto.
  - intros q' [= <-]. cbn. destruct (at_run p), (at_run q); cbn; try (left; lia). right. right. auto.
  - by left.
Qed.

Lemma run_ok n x t p w rest y :
  pool_inv n y -> p = Run t w rest -> run t w rest (shared y) = Ok x -> segment_ok (shared y) p x.
Proof.
  intros Hi -> E. unfold run in E. destruct (after_plain w rest) as [H1 H2]. pose proof (pi_max _ _ Hi) as Hm.
  pose proof (pi_bound _ _ Hi) as Hb. unfold isFull in E. destruct (running_ (shared y)) eqn:Er; cbn [negb] in E.
  2: { rewrite andb_false_r in E. injection E as <-. apply (goto_ok n); try done. by rewrite after_who. }
  rewrite andb_true_r in E. destruct (_ && _) eqn:Ef.
  - injection E as <-. split; cbn [r_shared r_signals r_next]; try done; [apply Hi| |by left].
    intros c q [= <- <-]. split_and!; try done. right. split_and!; [done|done| |lia]. unfold free, zlen in *. lia.
  - cbn in E. injection E as <-. split; cbn [r_shared r_signals r_next queue_ maxQueueSize_ numThreads_ started accepted running_];
      try done.
    + intros Hp. rewrite zlen_app. change (zlen [t]) with 1. specialize (Hb Hp). lia.
    + by rewrite (assoc_L app), (pi_fifo _ _ Hi).
    + intros q [= <-]. left. change (notifies NotEmpty [One NotEmpty]) with true. rewrite length_app, H1. cbn. lia.
    + intros q [= <-]. destruct (decide (maxQueueSize_ (shared y) = 0)) as [?|]; [by right; left|left].
      change (notifies NotFull [One NotEmpty]) with false. rewrite H2. unfold free, zlen in *.
      cbn [queue_ maxQueueSize_]. rewrite length_app. cbn. lia.
    + by left.
    + apply after_who.
Qed.

Lemma take_ok n x y : pool_inv n y -> take (shared y) = Ok x -> segment_ok (shared y) WTake x.
Proof.
  intros Hi E. unfold take in E. pose proof (pi_max _ _ Hi) as Hm. pose proof (pi_bound _ _ Hi) as Hb.
  destruct (queue_ (shared y)) as [|t q] eqn:Eq.
  - injection E as <-. destruct (running_ (shared y)) eqn:Er.
    + split; cbn [r_shared r_signals r_next]; rewrite ?Eq; try done; [by rewrite <- (pi_fifo _ _ Hi), Eq| |by left].
      intros c p [= <- <-]. split_and!; try done. by left.
    + apply (goto_ok n); try done. intros _ _. by right.
  - injection E as <-. destruct (after_plain Worker (body t)) as [H1 H2]. rewrite zlen_cons in Hb.
    split; cbn [r_shared r_signals r_next queue_ maxQueueSize_ numThreads_ started accepted running_]; try done.
    + intros Hp. specialize (Hb Hp). lia.
    + by rewrite <- (assoc_L app), <- (pi_fifo _ _ Hi), Eq.
    + intros p [= <-]. left. rewrite H1, Eq. cbn. lia.
    + intros p [= <-]. destruct (0 <? maxQueueSize_ (shared y)) eqn:E0; [left|right; left; lia].
      change (notifies NotFull [One NotFull]) with true. unfold free. rewrite H2, Eq. cbn. lia.
    + by left.
    + apply after_who.
Qed.

Lemma segment_all_ok n a p x r :
  pool_inv n x -> segment a p (shared x) = Some (Ok r) -> segment_ok (shared x) p r.
Proof.
  intros Hi. destruct a as [t| |], p as [| | |t' w rest|t' w rest| | |]; try done; cbn [segment]; intros E.
  - injection E as <-. by apply (goto_ok n).
  - injection E as <-. by apply (goto_ok n).
  - injection E as <-. apply (goto_ok n); try done. by destruct (running_ _).
  - injection E as E. by apply (take_ok n).
  - destruct (numThreads_ (shared x) =? 0)%nat; injection E as <-; [|by apply (goto_ok n)].
    destruct (after_plain w (body t' ++ rest)) as [H1 H2].
    split; cbn [r_shared r_signals r_next queue_ maxQueueSize_ numThreads_ started accepted running_]; try done; [apply Hi..| | | |].
    + intros q [= <-]. left. rewrite H1. cbn. lia.
    + intros q [= <-]. left. rewrite H2. unfold free. cbn. lia.
    + by left.
    + apply after_who.
  - injection E as E. by apply (run_ok n _ t' _ w rest).
  - injection E as <-. split; cbn [r_shared r_signals r_next queue_ maxQueueSize_ numThreads_ started accepted running_]; try done;
      [apply Hi..| | |by right]; intros; right; by right.
Qed.

Lemma pool_step n x y : pool_inv n x -> step segment x y -> pool_inv n y.
Proof.
  intros Hi Hs. destruct Hs as [t x y [a p s ts r ts' Hrdy Hseg Hd]|s ts t c p Hw].
  - eapply segment_preserves; [done..|]. by apply (segment_all_ok n a p (mkSys s ts)).
  - destruct Hi as [Hn Hm Hb Hf Ht Hr Hi Hro Hst Hun Hwho]. split; cbn [shared threads] in *; try done.
    + by apply waits_at_insert.
    + by apply waits_at_insert.
    + by eapply served_wake.
    + by eapply served_wake.
    + intros H u d q. apply (nobody_insert (fun _ => True)); [|done]. intros ? ? ? _. by apply Hst.
    + intros H u q. apply (nobody_insert (fun d => d = NotFull)); [|done]. intros ? ? ? ->. by apply Hun.
    + intros u z Hu. apply list_lookup_insert_Some in Hu as [(-> & <- & _)|[_ Hu]]; [|by apply Hwho].
      by apply (Hwho u (Waiting c p)).
Qed.

Lemma pool_init_inv maxSize n m x : pool_init maxSize n m = Ok x -> pool_inv n x /\ running_ (shared x) = true.
Proof.
  unfold pool_init, start. assert (Hz : (Z.of_nat n <? 0) = false) by (apply Z.ltb_ge; lia). rewrite Hz. cbn -[uint]. intros [= <-].
  rewrite Nat2Z.id. pose proof (uint_range 64 maxSize ltac:(lia)) as Hu. split; [|done].
  assert (Hno : forall t (c : condition) p, (replicate n (Ready WCheck) ++ replicate m (Ready CIdle)) !! t <> Some (Waiting c p)).
  { intros t c p Ht. apply lookup_app_Some in Ht as [Ht|[_ Ht]]; by apply lookup_replicate in Ht as [? _]. }
  split; cbn [shared threads queue_ maxQueueSize_ numThreads_ started accepted running_]; try done.
  - lia.
  - intros _. change (zlen []) with 0. lia.
  - by intros t p Ht%Hno.
  - by intros t p Ht%Hno.
  - apply nobody_served. intros t p. apply Hno.
  - apply nobody_served. intros t p. apply Hno.
  - intros t y Hy. apply lookup_app_Some in Hy as [Hy|[Hl Hy]].
    + apply lookup_replicate in Hy as [-> Hy]. cbn. by rewrite bool_decide_true.
    + rewrite length_replicate in Hl. apply lookup_replicate in Hy as [-> _]. symmetry. apply bool_decide_false. lia.
Qed.

Lemma pool_reachable maxSize n m x0 x :
  pool_init maxSize n m = Ok x0 -> reachable segment x0 x -> pool_inv n x.
Proof.
  intros H0. apply reachable_ind_inv; [by eapply pool_init_inv|]. intros. by eapply pool_step.
Qed.

(** [C29] A thread pool, in every interleaving of its workers and callers, whatever the tasks
    themselves submit: workers start exactly the accepted tasks, each once, in the order
    they were accepted; a bounded queue never exceeds its bound; the assertion in run()
    holds; while workers wait, at least as many others as there are queued tasks are on
    their way to take them, and while run() waits for room, at least as many other calls
    as there are free places are about to fill them; after stop() nobody waits. *)
Theorem pool_correct maxSize n m x0 x :
  pool_init maxSize n m = Ok x0 -> reachable segment x0 x ->
  started (shared x) ++ queue_ (shared x) = accepted (shared x) /\
  (0 < maxQueueSize_ (shared x) -> zlen (queue_ (shared x)) <= maxQueueSize_ (shared x)) /\
  (forall a p r, segment a p (shared x) = Some r -> exists r', r = Ok r') /\
  served NotEmpty at_take (length (queue_ (shared x))) (threads x) /\
  served NotFull at_run (free (shared x)) (threads x) /\
  (running_ (shared x) = false -> forall t c p, threads x !! t <> Some (Waiting c p)).
Proof.
  intros H0 Hr. pose proof (pool_reachable _ _ _ _ _ H0 Hr) as Hi. split_and!; try apply Hi.
  intros a p r E. destruct a as [t| |], p as [| | |t' w rest|t' w rest| | |]; try done; cbn [segment] in E; injection E as <-;
    unfold take, run, stop, run_direct; repeat case_match; eauto.
  all: destruct (isFull (shared x)), (running_ (shared x)); try done; cbn; eauto.
Qed.

(** ** Stopping *)

(** Runs, with the number of steps made by the first [n] threads. *)
Inductive runs (n : nat) : nat -> sys ThreadPool condition point -> sys ThreadPool condition point -> Prop :=
| RunsNil x : runs n 0 x x
| RunsWorker k x y z t : (t < n)%nat -> run_thread segment t x y -> runs n k y z -> runs n (S k) x z
| RunsCaller k x y z t : (n <= t)%nat -> run_thread segment t x y -> runs n k y z -> runs n k x z
| RunsSpurious k s ts t c p z :
    ts !! t = Some (Waiting c p) -> runs n k (mkSys s (<[t := Ready p]> ts)) z -> runs n k (mkSys s ts) z.

(** How many steps a thread can still make as a worker once the pool is stopped. *)
Definition cost (q : list Task) (x : tstate condition point) : nat :=
  (match point_of x with
  | WCheck => 1
  | WTake => 2 + max_list_with (fun t => 2 * length (body t))%nat q
  | Call _ Worker rest => 3 + 2 * length rest
  | Run _ Worker rest => 2 + 2 * length rest
  | _ => 0
  end)%nat.

Definition budget (x : sys ThreadPool condition point) : nat :=
  sum_list_with (cost (queue_ (shared x))) (threads x).

Lemma cost_after q rest : cost q (Ready (after Worker rest)) = (2 * length rest + 1)%nat.
Proof. destruct rest; cbn; lia. Qed.
Lemma cost_caller q rest : cost q (Ready (after Caller rest)) = 0%nat.
Proof. by destruct rest. Qed.

Lemma stopped_segment n a p x r :
  pool_inv n x -> (0 < n)%nat -> running_ (shared x) = false -> segment a p (shared x) = Some (Ok r) ->
  running_ (r_shared r) = false /\
  (forall y, (cost (queue_ (r_shared r)) y <= cost (queue_ (shared x)) y)%nat) /\
  (cost (queue_ (r_shared r)) (r_next r) + Nat.b2n (worker_point p) <= cost (queue_ (shared x)) (Ready p))%nat.
Proof.
  intros Hi Hn Hr. pose proof (pi_threads _ _ Hi) as Hnum.
  destruct a as [t| |], p as [| | |t' w rest|t' w rest| | |]; try done; cbn [segment]; rewrite ?Hr; intros E;
    try (injection E as <-; cbn; split_and!; try done; lia).
  - unfold take in E. destruct (queue_ (shared x)) as [|t q] eqn:Eq; rewrite ?Hr in E; injection E as <-;
      cbn [r_shared r_next queue_ running_]; rewrite ?Eq; [cbn; split_and!; try done; lia|]. split; [done|].
    rewrite cost_after. split; [|cbn; lia]. intros y. unfold cost. destruct (point_of y); cbn; lia.
  - replace (numThreads_ (shared x) =? 0)%nat with false in E by (symmetry; apply Nat.eqb_neq; lia). injection E as <-.
    cbn. split_and!; try done. destruct w; cbn; lia.
  - unfold run in E. rewrite Hr, andb_false_r in E. injection E as <-. cbn [r_shared r_next]. split_and!; try done.
    destruct w; [rewrite cost_after|rewrite cost_caller]; cbn; lia.
Qed.

Lemma stopped_step n t x y :
  pool_inv n x -> (0 < n)%nat -> running_ (shared x) = false -> run_thread segment t x y ->
  running_ (shared y) = false /\ (budget y + Nat.b2n (bool_decide (t < n)%nat) <= budget x)%nat.
Proof.
  intros Hi Hn Hr Hx. revert Hi Hr. destruct Hx as [a p s ts r ts' Hp Hseg Hd]. intros Hi Hr.
  destruct (stopped_segment n a p (mkSys s ts) r Hi Hn Hr Hseg) as (Hr' & Hmono & Hc). split; [done|].
  rewrite (deliver_nobody _ _ _ Hd (pi_stopped _ _ Hi Hr)). unfold budget. cbn [shared threads] in *.
  pose proof (pi_who _ _ Hi t _ Hp) as Hw. cbn in Hw. rewrite Hw in Hc.
  pose proof (sum_insert (cost (queue_ (r_shared r))) ts t _ (r_next r) Hp) as Hs.
  pose proof (sum_insert (cost (queue_ (r_shared r))) ts t _ (Ready WExited) Hp) as H1.
  pose proof (sum_insert (cost (queue_ s)) ts t _ (Ready WExited) Hp) as H2.
  pose proof (sum_mono (cost (queue_ (r_shared r))) (cost (queue_ s)) (<[t := Ready WExited]> ts) (fun y _ => Hmono y)).
  cbn in H1, H2. lia.
Qed.

Lemma worker_can_step n t x :
  pool_inv n x -> running_ (shared x) = false -> (t < n)%nat -> (n <= length (threads x))%nat ->
  threads x !! t = Some (Ready WExited) \/ exists y, run_thread segment t x y.
Proof.
  intros Hi Hr Ht Hlen. destruct (lookup_lt_is_Some_2 (threads x) t) as [y Hy]; [lia|].
  pose proof (pi_who _ _ Hi t y Hy) as Hw. rewrite bool_decide_true in Hw by done.
  destruct y as [p|c p]; [|by apply (pi_stopped _ _ Hi Hr) in Hy].
  assert (Hs : p = WExited \/ exists r, segment Go p (shared x) = Some (Ok r)).
  { destruct p as [| | |t' w rest|t' w rest| | |]; try discriminate Hw; [| |by left|..]; right; cbn [segment]; unfold take, run, run_direct;
      rewrite ?Hr, ?andb_false_r; cbn [negb]; repeat case_match; cbn; eauto. }
  destruct Hs as [->|[r Hs]]; [by left|right]. destruct x as [s ts]. eexists.
  eapply (RunThread _ t Go p s ts r); [done|done|apply deliver_first_deliver].
Qed.

(** stop() stops the pool: once it has cleared running_, and whatever tasks are still
    queued and whatever they submit, the workers together make at most [budget] more steps
    in any interleaving, and a worker that has not exited can always make one; so under
    every fair schedule all workers exit and the joins in stop() return. *)
Theorem pool_stops maxSize n m x0 x k y :
  pool_init maxSize n m = Ok x0 -> reachable segment x0 x -> (0 < n)%nat ->
  running_ (shared x) = false -> runs n k x y ->
  (k + budget y <= budget x)%nat /\ running_ (shared y) = false /\
  forall t, (t < n)%nat -> threads y !! t = Some (Ready WExited) \/ exists z, run_thread segment t y z.
Proof.
  intros H0 Hr Hn Hst Hruns.
  assert (Hlen : (n <= length (threads x))%nat).
  { rewrite (reachable_length _ _ _ Hr). unfold pool_init, start in H0.
    assert (Hz : (Z.of_nat n <? 0) = false) by (apply Z.ltb_ge; lia). rewrite Hz in H0.
    cbn -[uint] in H0. injection H0 as <-. cbn [threads]. rewrite length_app, length_replicate. lia. }
  pose proof (pool_reachable _ _ _ _ _ H0 Hr) as Hi. clear H0 Hr.
  induction Hruns as [x|k x u z t Ht Hrt _ IH|k x u z t Ht Hrt _ IH|k s ts t c p z Hw _ _].
  - split_and!; [lia|done|]. intros t Ht. by apply (worker_can_step n).
  - destruct (stopped_step n t x u Hi Hn Hst Hrt) as [Hst' Hb]. rewrite bool_decide_true in Hb by done. cbn in Hb.
    destruct IH as (H1 & H2 & H3); [done|by rewrite (run_thread_length _ _ _ _ Hrt)|by eapply pool_step, StepRun|].
    split_and!; [lia|done|done].
  - destruct (stopped_step n t x u Hi Hn Hst Hrt) as [Hst' Hb].
    destruct IH as (H1 & H2 & H3); [done|by rewrite (run_thread_length _ _ _ _ Hrt)|by eapply pool_step, StepRun|].
    split_and!; [lia|done|done].
  - by apply (pi_stopped _ _ Hi Hst) in Hw.
Qed.
End ThreadPool.

(** Task 0 submits task 1; one worker, a queue of one. *)
Definition demo_body (t : nat) : list nat := match t with O => [1%nat] | _ => [] end.
Definition demo_sched : list (nat * @label nat) :=
  [(0, Go); (0, Go); (1, CallRun 0); (1, Go); (1, Go); (0, Go); (0, Go); (2, CallStop); (2, Go)]%nat.

Definition demo_x0 : sys ThreadPool condition (@point nat) :=
  match pool_init 1 1 2 with Ok x => x | Fault _ => mkSys newThreadPool [] end.
Definition demo_x : sys ThreadPool condition (@point nat) := default demo_x0 (exec (segment demo_body) demo_sched demo_x0).

Lemma demo_reachable : pool_init 1 1 2 = Ok demo_x0 /\ reachable (segment demo_body) demo_x0 demo_x.
Proof.
  split; [vm_compute; reflexivity|]. apply (exec_reachable _ _ demo_sched demo_x0); [apply ReachInit|]. vm_compute. reflexivity.
Qed.

Lemma pool_correct_witness : started (shared demo_x) ++ queue_ (shared demo_x) = [0%nat].
Proof.
  destruct demo_reachable as [E0 Hr]. destruct (pool_correct demo_body 1 1 2 demo_x0 demo_x E0 Hr) as [H _].
  rewrite H. vm_compute. reflexivity.
Defined.

(** The worker is then about to submit task 1. *)
Lemma pool_stops_witness :
  (budget demo_body demo_x = 2)%nat /\
  (threads demo_x !! 0%nat = Some (Ready WExited) \/ exists z, run_thread (segment demo_body) 0 demo_x z).
Proof.
  destruct demo_reachable as [E0 Hr]. split; [vm_compute; reflexivity|].
  apply (pool_stops demo_body 1 1 2 demo_x0 demo_x 0 demo_x E0 Hr); [lia|vm_compute; reflexivity|constructor|lia].
Defined.
