(* ===== verification/Latch.v ===== *)
(** * Starting threads: CountDownLatch and EventLoopThread
      (src/muduo/base/CountDownLatch.h, CountDownLatch.cc, src/muduo/net/EventLoopThread.h,
       EventLoopThread.cc)

    Both wait on one condition variable until another thread has got somewhere.  Ghost
    fields of the latch: [downs], the calls of countDown, and [returned], the calls of wait
    that returned, each with the count it saw. *)

From S2P Require Import Prelude Monitor.

Inductive cond := Cond.
#[global] Instance cond_eq_dec : EqDecision cond.
Proof. solve_decision. Defined.

(** ** CountDownLatch *)

Record CountDownLatch := mkLatch { count_ : Z; downs : nat; returned : list Z }.

Definition newCountDownLatch (count : Z) : CountDownLatch := mkLatch count 0 [].

Inductive lpoint := LIdle | LWait | LDown.
Inductive llabel := CallWait | CallCountDown | LGo.

Definition latch_wait (s : CountDownLatch) : res (result CountDownLatch cond lpoint) :=
  if 0 <? count_ s then Ok (mkResult s [] (Waiting Cond LWait))
  else Ok (mkResult (mkLatch (count_ s) (downs s) (returned s ++ [count_ s])) [] (Ready LIdle)).

Definition countDown (s : CountDownLatch) : res (result CountDownLatch cond lpoint) :=
  let count := int32 (count_ s - 1) in
  Ok (mkResult (mkLatch count (S (downs s)) (returned s)) (if count =? 0 then [All Cond] else []) (Ready LIdle)).

Definition latch_segment (a : llabel) (p : lpoint) (s : CountDownLatch)
  : option (res (result CountDownLatch cond lpoint)) :=
  match a, p with
  | CallWait, LIdle => Some (Ok (mkResult s [] (Ready LWait)))
  | CallCountDown, LIdle => Some (Ok (mkResult s [] (Ready LDown)))
  | LGo, LWait => Some (latch_wait s)
  | LGo, LDown => Some (countDown s)
  | _, _ => None
  end.

Definition latch_init (count : Z) (n : nat) : sys CountDownLatch cond lpoint :=
  mkSys (newCountDownLatch count) (replicate n (Ready LIdle)).

Record latch_inv (count : Z) (x : sys CountDownLatch cond lpoint) : Prop := {
  ci_count : count_ (shared x) = int32 (count - Z.of_nat (downs (shared x)));
  ci_wait : count_ (shared x) <= 0 -> forall t c p, threads x !! t <> Some (Waiting c p);
  ci_returned : Forall (fun c => c <= 0) (returned (shared x))
}.

Lemma int32_pred z : int32 (int32 z - 1) = int32 (z - 1).
Proof.
  unfold sint. replace ((z + 2 ^ (32 - 1)) mod 2 ^ 32 - 2 ^ (32 - 1) - 1 + 2 ^ (32 - 1)) with
    ((z + 2 ^ (32 - 1)) mod 2 ^ 32 - 1) by lia. rewrite Zminus_mod_idemp_l. f_equal. f_equal. lia.
Qed.

Lemma nobody_waits {P} (l : list (signal cond)) (ts ts' : list (tstate cond P)) t x :
  deliver l ts ts' -> (forall u c p, ts !! u <> Some (Waiting c p)) -> (forall c p, x <> Waiting c p) ->
  forall u c p, <[t := x]> ts' !! u <> Some (Waiting c p).
Proof.
  intros Hd H Hx u c p Hu. rewrite (deliver_nobody _ _ _ Hd H) in Hu.
  apply list_lookup_insert_Some in Hu as [(_ & -> & _)|[_ Hu]]; [by eapply Hx|by eapply H].
Qed.

Lemma latch_step count x y : latch_inv count x -> step latch_segment x y -> latch_inv count y.
Proof.
  intros Hi Hs. revert Hi. destruct Hs as [t x y [a p s ts r ts' Hrdy Hseg Hd]|s ts t c p Hw]; intros [Hc Hw' Hret]; cbn [shared threads] in *.
  2: { split; cbn [shared threads]; [done| |done]. intros H. by apply Hw' with (t := t) (c := c) (p := p) in H. }
  destruct a, p; try discriminate Hseg; injection Hseg as Hseg.
  - subst r. cbn [r_shared r_signals r_next] in *. split; cbn [shared threads]; try done. intros H. eapply nobody_waits; [done|by apply Hw'|done].
  - subst r. cbn [r_shared r_signals r_next] in *. split; cbn [shared threads]; try done. intros H. eapply nobody_waits; [done|by apply Hw'|done].
  - unfold latch_wait in Hseg. destruct (0 <? count_ s) eqn:E; injection Hseg as <-; cbn [r_shared r_signals r_next] in *.
    + split; cbn [shared threads]; [done|intros; lia|done].
    + split; cbn [shared threads count_ downs returned]; [done| |].
      * intros H. eapply nobody_waits; [done|by apply Hw'|done].
      * apply Forall_app. split; [done|]. constructor; [lia|constructor].
  - subst r. cbn [r_shared r_signals r_next] in *.
    assert (Hcnt : int32 (count_ s - 1) = int32 (count - Z.of_nat (S (downs s)))).
    { rewrite Hc, int32_pred. f_equal. lia. }
    split; cbn [shared threads count_ downs returned]; [done| |done]. intros H.
    destruct (int32 (count_ s - 1) =? 0) eqn:E.
    + intros u c p Hu. apply list_lookup_insert_Some in Hu as [(_ & ? & _)|[_ Hu]]; [done|].
      pose proof (waits_notifyAll Cond _ _ _ Hd ltac:(set_solver)) as Hz. rewrite countb_zero in Hz. destruct c.
      specialize (Hz u _ Hu). cbn in Hz. by rewrite bool_decide_true in Hz.
    + eapply nobody_waits; [done| |done]. apply Hw'. destruct (decide (0 < count_ s)); [|lia].
      assert (Hr : in_sint 32 (count_ s)) by (rewrite Hc; by apply sint_range). unfold in_sint in Hr.
      rewrite sint_small in H, E by (unfold in_sint; lia). lia.
Qed.

(** A latch, in every interleaving: the count is the initial one less the calls of
    countDown; wait() returns only when it is not positive; and as soon as it is, no thread
    is left waiting. *)
Theorem latch_correct count n x :
  in_sint 32 count -> reachable latch_segment (latch_init count n) x ->
  count_ (shared x) = int32 (count - Z.of_nat (downs (shared x))) /\
  Forall (fun c => c <= 0) (returned (shared x)) /\
  (count_ (shared x) <= 0 -> forall t c p, threads x !! t <> Some (Waiting c p)).
Proof.
  intros Hin Hr. assert (Hi : latch_inv count x); [|by split_and!; apply Hi].
  revert Hr. apply reachable_ind_inv; [|by intros; eapply latch_step].
  split; cbn -[sint]; [|by intros _ t c p [? _]%lookup_replicate|done].
  by rewrite Z.sub_0_r, sint_small.
Qed.

Definition latch_sched : list (nat * llabel) := [(0, CallWait); (0, LGo); (1, CallCountDown); (1, LGo); (0, LGo)]%nat.
Definition latch_x : sys CountDownLatch cond lpoint :=
  default (latch_init 1 2) (exec latch_segment latch_sched (latch_init 1 2)).

Lemma latch_correct_witness : returned (shared latch_x) = [0] /\ Forall (fun c => c <= 0) (returned (shared latch_x)).
Proof.
  split; [vm_compute; reflexivity|]. apply (latch_correct 1 2); [unfold in_sint; lia|].
  apply (exec_reachable _ _ latch_sched (latch_init 1 2)); [apply ReachInit|]. vm_compute. reflexivity.
Defined.

(** ** EventLoopThread

    Thread 0 owns the object: it calls startLoop, uses the loop it got (it may tell it to
    quit) and destroys the object.  Thread 1 runs threadFunc; [loop] is the address of its
    EventLoop.  EventLoop::loop() returns after quit() (EventLoop.v).  [got] records the
    results of startLoop. *)

Section EventLoopThread.
Context (loop : nat).

Record EventLoopThread := mkLoopThread {
  loop_ : option nat;
  exiting_ : bool;
  started_ : bool;      (* thread_.started() *)
  quitting : bool;      (* quit() was called on the loop *)
  got : list nat
}.

Definition newEventLoopThread : EventLoopThread := mkLoopThread None false false false [].

Inductive epoint :=
| MIdle | MWait | MJoin | MGone                  (* the owner; MWait: the loop in startLoop *)
| TStart | TPublish | TLoop | TClear | TEnd.     (* threadFunc *)
Inductive elabel := CallStartLoop | CallQuit | Destroy | EGo.

Abbreviation eresult := (res (result EventLoopThread cond epoint)).

(** [startLoop]: thread_.start(), then the critical section. *)
Definition startLoop (s : EventLoopThread) : eresult :=
  _ ← check (negb (started_ s));
  Ok (mkResult (mkLoopThread (loop_ s) (exiting_ s) true (quitting s) (got s)) [] (Ready MWait)).

Definition startLoop_wait (s : EventLoopThread) : eresult :=
  match loop_ s with
  | None => Ok (mkResult s [] (Waiting Cond MWait))
  | Some l => Ok (mkResult (mkLoopThread (loop_ s) (exiting_ s) (started_ s) (quitting s) (got s ++ [l])) [] (Ready MIdle))
  end.

(** [~EventLoopThread]: loop_->quit() and join, when there is a loop. *)
Definition destroyEventLoopThread (s : EventLoopThread) : eresult :=
  match loop_ s with
  | Some _ => Ok (mkResult (mkLoopThread (loop_ s) true (started_ s) true (got s)) [] (Ready MJoin))
  | None => Ok (mkResult (mkLoopThread (loop_ s) true (started_ s) (quitting s) (got s)) [] (Ready MGone))
  end.

(** [threadFunc]: publish the loop and wake the owner; clear it after the loop has ended. *)
Definition threadFunc_publish (s : EventLoopThread) : eresult :=
  Ok (mkResult (mkLoopThread (Some loop) (exiting_ s) (started_ s) (quitting s) (got s)) [One Cond] (Ready TLoop)).
Definition threadFunc_clear (s : EventLoopThread) : eresult :=
  Ok (mkResult (mkLoopThread None (exiting_ s) (started_ s) (quitting s) (got s)) [] (Ready TEnd)).

Definition loop_thread_segment (a : elabel) (p : epoint) (s : EventLoopThread) : option eresult :=
  match a, p with
  | CallStartLoop, MIdle => Some (startLoop s)
  | CallQuit, MIdle =>
      match got s with
      | [] => None
      | _ => Some (Ok (mkResult (mkLoopThread (loop_ s) (exiting_ s) (started_ s) true (got s)) [] (Ready MIdle)))
      end
  | Destroy, MIdle => Some (destroyEventLoopThread s)
  | EGo, MWait => Some (startLoop_wait s)
  | EGo, TStart => if started_ s then Some (Ok (mkResult s [] (Ready TPublish))) else None
  | EGo, TPublish => Some (threadFunc_publish s)
  | EGo, TLoop => if quitting s then Some (Ok (mkResult s [] (Ready TClear))) else None
  | EGo, TClear => Some (threadFunc_clear s)
  | _, _ => None
  end.

Definition loop_thread_init : sys EventLoopThread cond epoint := mkSys newEventLoopThread [Ready MIdle; Ready TStart].

(** The two threads' positions and the shared state that goes with them. *)
Definition main_ok (s : EventLoopThread) (m : tstate cond epoint) (t : epoint) : Prop :=
  match m with
  | Waiting _ p => p = MWait /\ started_ s = true /\ got s = [] /\ quitting s = false /\ (t = TStart \/ t = TPublish)
  | Ready MWait => started_ s = true /\ got s = [] /\ quitting s = false
  | Ready MIdle => (started_ s = false /\ quitting s = false) \/ (started_ s = true /\ got s <> [])
  | Ready (MJoin | MGone) => True
  | _ => False
  end.

Definition child_ok (s : EventLoopThread) (t : epoint) : Prop :=
  match t with
  | TStart | TPublish => loop_ s = None /\ quitting s = false /\ got s = [] /\ (t = TPublish -> started_ s = true)
  | TLoop => loop_ s = Some loop /\ started_ s = true
  | TClear => loop_ s = Some loop /\ quitting s = true /\ started_ s = true
  | TEnd => loop_ s = None /\ quitting s = true /\ started_ s = true
  | _ => False
  end.

Definition loop_thread_inv (x : sys EventLoopThread cond epoint) : Prop :=
  exists m t, threads x = [m; Ready t] /\ main_ok (shared x) m t /\ child_ok (shared x) t /\
    Forall (eq loop) (got (shared x)).

Ltac settle := cbn in *; destruct_and?; try congruence; naive_solver congruence.

Lemma loop_thread_step x y : loop_thread_inv x -> step loop_thread_segment x y -> loop_thread_inv y.
Proof.
  intros (m & t & Hts & Hm & Ht & Hg) Hs. revert Hts Hm Ht Hg.
  destruct Hs as [u x y [a p s ts r ts' Hp Hseg Hd]|s ts u c p Hw]; cbn [shared threads]; intros -> Hm Ht Hg.
  2: { destruct u as [|[|u]]; simplify_eq/=. destruct Hm as (-> & H1 & H2 & H3 & _). by eexists _, t. }
  unfold loop_thread_inv. destruct u as [|[|u]]; simplify_eq/=.
  - destruct a, p; try discriminate Hseg; cbn in Hm; try done; cbn [loop_thread_segment] in Hseg.
    + injection Hseg as Hseg. unfold startLoop in Hseg. destruct (started_ s) eqn:E; [discriminate Hseg|]. injection Hseg as <-.
      inversion Hd; subst. exists (Ready MWait), t. destruct Hm as [[_ Hq]|[? _]]; [|congruence].
      destruct t; settle.
    + destruct (got s) eqn:E; [done|]. injection Hseg as <-. inversion Hd; subst. exists (Ready MIdle), t.
      destruct t; rewrite ?E in *; settle.
    + injection Hseg as Hseg. unfold destroyEventLoopThread in Hseg. destruct (loop_ s) eqn:E; injection Hseg as <-; inversion Hd; subst;
        eexists _, t; (split; [done|]); destruct t; settle.
    + injection Hseg as Hseg. unfold startLoop_wait in Hseg. destruct (loop_ s) eqn:E; injection Hseg as <-; inversion Hd; subst;
        eexists _, t; (split; [done|]).
      * assert (Hl : n = loop) by (destruct t; settle). subst n.
        assert (Hg' : Forall (eq loop) (got s ++ [loop])) by (apply Forall_app; split; [done|by constructor]).
        assert (Hne : got s ++ [loop] <> []) by (by destruct (got s)).
        destruct t; settle.
      * destruct t; settle.
  - destruct a, p; try discriminate Hseg; cbn [loop_thread_segment] in Hseg; cbn in Ht; try done.
    + destruct (started_ s) eqn:E; [|done]. injection Hseg as <-. inversion Hd; subst. exists m, TPublish.
      split; [done|]. destruct m as [[]|]; settle.
    + injection Hseg as <-. cbn [r_shared r_signals r_next] in *. inversion Hd as [|? ? ? v q ? Hv Hd'|? ? ? ? Hn Hd'|]; subst; inversion Hd'; subst.
      * destruct v as [|[|v]]; simplify_eq/=. exists (Ready q), TLoop. split; [done|]. settle.
      * exists m, TLoop. split; [done|]. destruct m as [q|[] q]; [destruct q; settle|by destruct c, (Hn 0%nat q)].
    + destruct (quitting s) eqn:E; [|done]. injection Hseg as <-. inversion Hd; subst. exists m, TClear.
      split; [done|]. destruct m as [[]|]; settle.
    + injection Hseg as <-. inversion Hd; subst. exists m, TEnd. split; [done|]. destruct m as [[]|]; settle.
Qed.

(** EventLoopThread, in every interleaving: startLoop returns the new thread's loop and
    nothing else; while it waits, the new thread has not published the loop yet and will
    wake it; once told to quit, the new thread can go on until it ends. *)
Theorem loop_thread_correct x :
  reachable loop_thread_segment loop_thread_init x ->
  Forall (eq loop) (got (shared x)) /\
  (forall c p, threads x !! 0%nat = Some (Waiting c p) ->
     loop_ (shared x) = None /\ exists y, run_thread loop_thread_segment 1 x y) /\
  (quitting (shared x) = true -> threads x !! 1%nat = Some (Ready TEnd) \/ exists y, run_thread loop_thread_segment 1 x y).
Proof.
  intros Hr. assert (Hi : loop_thread_inv x).
  { revert Hr. apply reachable_ind_inv; [|by intros; eapply loop_thread_step].
    exists (Ready MIdle), TStart. cbn. naive_solver. }
  destruct Hi as (m & t & Hts & Hm & Ht & Hg). destruct x as [s ts]. cbn [shared threads] in *. subst ts.
  assert (Hgo : forall r, loop_thread_segment EGo t s = Some (Ok r) ->
    exists y, run_thread loop_thread_segment 1 (mkSys s [m; Ready t]) y).
  { intros r E. eexists. eapply (RunThread _ 1 EGo t s [m; Ready t] r); [done|done|apply deliver_first_deliver]. }
  split_and!; [done|..].
  - intros c p [= ->]. destruct Hm as (-> & H1 & H2 & H3 & Ht'). split; [destruct Ht' as [->| ->]; apply Ht|].
    destruct Ht' as [->| ->]; [|by eapply Hgo]. eapply Hgo. cbn. by rewrite H1.
  - intros Hq. destruct t; cbn in Ht; try done; [destruct Ht as (_ & ? & _); congruence..| | |by left]; right; eapply Hgo; cbn; [by rewrite Hq|done].
Qed.
End EventLoopThread.
