(* ===== verification/AsyncLogging.v ===== *)
(** * Asynchronous logging (src/muduo/base/AsyncLogging.h, AsyncLogging.cc)

    Any number of threads append lines to the current buffer under a mutex; the thread of
    threadFunc swaps the filled buffers out and writes them to a log sink (LogFile.v).
    Thread 0 runs threadFunc, thread 1 owns the object (it calls start and stop), all others
    only append.  [size] is the size of a buffer (kLargeBuffer in the source); [now n] is
    Timestamp::now() in round [n].  The locals of threadFunc are fields here.  Ghost fields:
    [appended], the lines given to append; [rounds], the contents of the buffers swapped out,
    round by round.  waitForSeconds may return at any time, as after a timeout. *)

From S2P Require Import Prelude Decimal TimeFormat LogStream LogFile Monitor Latch.

Definition kLargeBuffer : Z := 4000 * 1000.

Section AsyncLogging.
Context {O : Type} `{HO : LogSink O} (Hlaws : LogSinkLaws O).
Context (size : Z) (Hsize : 0 < size < 2 ^ 31) (now : nat -> Z).
Context (new_output : O) (Hnew : sink_ok new_output /\ sink_content new_output = [] /\ sink_durable new_output = []).

Record AsyncLogging := mkAsync {
  running_ : bool;
  started : bool;                          (* thread_.started() *)
  latched : bool;                          (* latch_ has been counted down *)
  currentBuffer_ : option FixedBuffer;
  nextBuffer_ : option FixedBuffer;
  buffers_ : list FixedBuffer;
  newBuffer1 : option FixedBuffer;
  newBuffer2 : option FixedBuffer;
  buffersToWrite : list FixedBuffer;
  output : option O;
  finished : bool;                         (* threadFunc has returned *)
  appended : list (list char);
  rounds : list (list (list char))
}.

Definition freshBuffer : FixedBuffer := newFixedBuffer size.

Definition newAsyncLogging : AsyncLogging :=
  mkAsync false false false (Some freshBuffer) (Some freshBuffer) [] None None [] None false [] [].

Inductive apoint :=
| AIdle | AAppend (line : list char)              (* any thread but threadFunc's *)
| AStart | ANotify | AJoin | AStopped             (* the owner in start and stop *)
| BStart | BTop | BLock | BSwap | BWrite | BEnd.  (* threadFunc *)
#[global] Instance apoint_eq_dec : EqDecision apoint.
Proof. solve_decision. Defined.
Inductive alabel := CallAppend (line : list char) | CallStart | CallStop | AGo.

Abbreviation aresult := (res (result AsyncLogging cond apoint)).

(** [append] *)
Definition append (logline : list char) (s : AsyncLogging) : aresult :=
  match currentBuffer_ s with
  | None => Fault OutOfBounds
  | Some cur =>
      let s' c n b := mkAsync (running_ s) (started s) (latched s) (Some c) n b (newBuffer1 s) (newBuffer2 s) (buffersToWrite s)
                        (output s) (finished s) (appended s ++ [logline]) (rounds s) in
      if zlen logline <? avail cur then
        cur' ← fappend logline cur;
        Ok (mkResult (s' cur' (nextBuffer_ s) (buffers_ s)) [] (Ready AIdle))
      else
        cur' ← fappend logline (default freshBuffer (nextBuffer_ s));
        Ok (mkResult (s' cur' None (buffers_ s ++ [cur])) [One Cond] (Ready AIdle))
  end.

(** [start], up to latch_.wait(), and [stop], up to thread_.join() *)
Definition start (s : AsyncLogging) : aresult :=
  Ok (mkResult (mkAsync true true (latched s) (currentBuffer_ s) (nextBuffer_ s) (buffers_ s) (newBuffer1 s) (newBuffer2 s)
                  (buffersToWrite s) (output s) (finished s) (appended s) (rounds s)) [] (Ready AStart)).

Definition stop (s : AsyncLogging) : aresult :=
  Ok (mkResult (mkAsync false (started s) (latched s) (currentBuffer_ s) (nextBuffer_ s) (buffers_ s) (newBuffer1 s) (newBuffer2 s)
                  (buffersToWrite s) (output s) (finished s) (appended s) (rounds s)) [] (Ready ANotify)).

(** [threadFunc] before its loop *)
Definition thread_begin (s : AsyncLogging) : aresult :=
  _ ← check (running_ s);
  Ok (mkResult (mkAsync (running_ s) (started s) true (currentBuffer_ s) (nextBuffer_ s) (buffers_ s) (Some freshBuffer) (Some freshBuffer)
                  [] (Some new_output) (finished s) (appended s) (rounds s)) [] (Ready BTop)).

Definition empty_buffer (o : option FixedBuffer) : bool := match o with Some b => flength b =? 0 | None => false end.

(** The head of the loop; after it, the last flush. *)
Definition loop_top (s : AsyncLogging) : aresult :=
  if running_ s then
    _ ← check (empty_buffer (newBuffer1 s));
    _ ← check (empty_buffer (newBuffer2 s));
    _ ← check (match buffersToWrite s with [] => true | _ => false end);
    Ok (mkResult s [] (Ready BLock))
  else
    o ← get (output s);
    o' ← sink_flush o;
    Ok (mkResult (mkAsync (running_ s) (started s) (latched s) (currentBuffer_ s) (nextBuffer_ s) (buffers_ s) (newBuffer1 s) (newBuffer2 s)
                    (buffersToWrite s) (Some o') true (appended s) (rounds s)) [] (Ready BEnd)).

(** The critical section of the loop: after the wait, the swap. *)
Definition swap_buffers (s : AsyncLogging) : aresult :=
  cur ← get (currentBuffer_ s);
  let bs := buffers_ s ++ [cur] in
  let '(next, new2) := match nextBuffer_ s with Some b => (Some b, newBuffer2 s) | None => (newBuffer2 s, None) end in
  Ok (mkResult (mkAsync (running_ s) (started s) (latched s) (newBuffer1 s) next (buffersToWrite s) None new2 bs
                  (output s) (finished s) (appended s) (rounds s ++ [ftoString <$> bs])) [] (Ready BWrite)).

Definition lock_buffers (s : AsyncLogging) : aresult :=
  match buffers_ s with
  | [] => Ok (mkResult s [] (Waiting Cond BSwap))
  | _ => swap_buffers s
  end.

Definition dropped_message (round : nat) (n : Z) : list char :=
  snprintf 256 (lit "Dropped log messages at " ++ toFormattedString (now round) true ++ lit ", " ++ dec (n - 2) ++
                lit " larger buffers" ++ [chr 10]).

Fixpoint write_all (l : list FixedBuffer) (o : O) : res O :=
  match l with
  | [] => Ok o
  | b :: l => o' ← sink_append (ftoString b) o; write_all l o'
  end.

(** A used buffer becomes a new one. *)
Definition refill (new : option FixedBuffer) (l : list FixedBuffer) : res (option FixedBuffer * list FixedBuffer) :=
  match new with
  | Some b => Ok (Some b, l)
  | None => b ← match last l with Some b => Ok b | None => Fault AssertFailure end;
            Ok (Some (freset b), take (length l - 1) l)
  end.

(** The loop's body after the critical section. *)
Definition write_buffers (s : AsyncLogging) : aresult :=
  _ ← check (match buffersToWrite s with [] => false | _ => true end);
  o ← get (output s);
  let n := zlen (buffersToWrite s) in
  let many := 25 <? n in
  o ← (if many then sink_append (dropped_message (pred (length (rounds s))) n) o else Ok o);
  let l := if many then take 2 (buffersToWrite s) else buffersToWrite s in
  o ← write_all l o;
  let l := if 2 <? zlen l then take 2 l else l in
  r1 ← refill (newBuffer1 s) l;
  r2 ← refill (newBuffer2 s) (snd r1);
  o ← sink_flush o;
  Ok (mkResult (mkAsync (running_ s) (started s) (latched s) (currentBuffer_ s) (nextBuffer_ s) (buffers_ s) (fst r1) (fst r2)
                  [] (Some o) (finished s) (appended s) (rounds s)) [] (Ready BTop)).

Definition async_segment (a : alabel) (p : apoint) (s : AsyncLogging) : option aresult :=
  match a, p with
  | CallAppend line, AIdle => Some (Ok (mkResult s [] (Ready (AAppend line))))
  | CallStart, AIdle => if started s then None else Some (start s)
  | CallStop, AIdle => if latched s && running_ s then Some (stop s) else None
  | AGo, AAppend line => Some (append line s)
  | AGo, AStart => if latched s then Some (Ok (mkResult s [] (Ready AIdle))) else None
  | AGo, ANotify => Some (Ok (mkResult s [One Cond] (Ready AJoin)))
  | AGo, AJoin => if finished s then Some (Ok (mkResult s [] (Ready AStopped))) else None
  | AGo, BStart => if started s then Some (thread_begin s) else None
  | AGo, BTop => Some (loop_top s)
  | AGo, BLock => Some (lock_buffers s)
  | AGo, BSwap => Some (swap_buffers s)
  | AGo, BWrite => Some (write_buffers s)
  | _, _ => None
  end.

Definition async_init (n : nat) : sys AsyncLogging cond apoint :=
  mkSys newAsyncLogging (Ready BStart :: replicate n (Ready AIdle)).

(** ** What ends up in the log *)

(** A line of at least [size] characters fits no buffer. *)
Definition fits (line : list char) : bool := zlen line <? size.

(** Still in the buffers. *)
Definition pending (s : AsyncLogging) : list char :=
  concat (ftoString <$> buffers_ s) ++ match currentBuffer_ s with Some b => ftoString b | None => [] end.

(** What round [i] writes of the buffers [r]: all of them, or, when there are more than 25,
    a message and the first two. *)
Definition render (i : nat) (r : list (list char)) : list char :=
  if 25 <? zlen r then dropped_message i (zlen r) ++ concat (take 2 r) else concat r.

Definition rendered (l : list (list (list char))) : list char := concat (imap render l).

(** ** Invariant *)

Definition empty_ok (o : option FixedBuffer) : Prop := exists b, o = Some b /\ fixed_inv size b /\ cur_ b = 0.

Definition output_ok (s : AsyncLogging) (l : list (list (list char))) : Prop :=
  exists o, output s = Some o /\ sink_ok o /\ sink_content o = rendered l /\ sink_durable o = sink_content o.

Definition launched (s : AsyncLogging) : Prop := latched s = true /\ started s = true.

Definition backend_ok (s : AsyncLogging) (x : tstate cond apoint) : Prop :=
  match x with
  | Ready BStart => latched s = false /\ finished s = false /\ (started s = true -> running_ s = true) /\ rounds s = []
  | Ready (BTop | BLock | BSwap) | Waiting _ BSwap =>
      launched s /\ finished s = false /\ empty_ok (newBuffer1 s) /\ empty_ok (newBuffer2 s) /\ buffersToWrite s = [] /\
      output_ok s (rounds s) /\ match x with Waiting _ _ => buffers_ s = [] | _ => True end
  | Ready BWrite =>
      launched s /\ finished s = false /\ newBuffer1 s = None /\
      (empty_ok (newBuffer2 s) /\ buffersToWrite s <> [] \/ newBuffer2 s = None /\ 2 <= zlen (buffersToWrite s)) /\
      Forall (fixed_inv size) (buffersToWrite s) /\
      exists rs, rounds s = rs ++ [ftoString <$> buffersToWrite s] /\ output_ok s rs
  | Ready BEnd => launched s /\ finished s = true /\ running_ s = false /\ output_ok s (rounds s)
  | _ => False
  end.

Definition front (x : tstate cond apoint) : Prop :=
  match x with
  | Ready (AIdle | AAppend _ | AStart | ANotify | AJoin | AStopped) => True
  | _ => False
  end.

Record front_ok (s : AsyncLogging) : Prop := {
  fr_cur : exists b, currentBuffer_ s = Some b /\ fixed_inv size b;
  fr_next : empty_ok (nextBuffer_ s) \/ nextBuffer_ s = None /\ buffers_ s <> [];
  fr_buffers : Forall (fixed_inv size) (buffers_ s);
  fr_lines : concat (concat (rounds s)) ++ pending s = concat (filter (fun l => fits l = true) (appended s))
}.

Definition async_inv (x : sys AsyncLogging cond apoint) : Prop :=
  exists b rest, threads x = b :: rest /\ backend_ok (shared x) b /\ Forall front rest /\ front_ok (shared x).

(** ** Proofs *)

Lemma new_buffer_ok : fixed_inv size freshBuffer /\ cur_ freshBuffer = 0 /\ ftoString freshBuffer = [].
Proof. split_and!; [|done..]. unfold fixed_inv, freshBuffer, newFixedBuffer. cbn. unfold zlen. rewrite length_replicate. lia. Qed.

Lemma fappend_ok line b :
  fixed_inv size b ->
  exists b', fappend line b = Ok b' /\ fixed_inv size b' /\
    ftoString b' = if zlen line <? avail b then ftoString b ++ line else ftoString b.
Proof.
  intros Hi. pose proof Hi as (Hz & Hc & Hs). unfold fappend.
  assert (Hav : avail b = size - cur_ b) by (unfold avail; lia). rewrite uint_small by lia.
  destruct (zlen line <? avail b) eqn:E; [|by exists b]. pose proof (zlen_nonneg line).
  destruct (write_text size b line (zlen line) Hi) as (l & -> & Hi' & Ht); [lia..|].
  eexists. split; [reflexivity|]. split; [done|]. rewrite Ht. unfold zlen. by rewrite Nat2Z.id, firstn_all.
Qed.

(** Nobody but threadFunc waits. *)
Lemma deliver_one b rest ts' :
  Forall front rest -> deliver [One Cond] (b :: rest) ts' -> ts' = wake Cond b :: rest.
Proof.
  intros Hf Hd. rewrite Forall_lookup in Hf.
  inversion Hd as [|? ? ? t p ? Ht Hd'|? ? ? ? Hn Hd'|]; subst; inversion Hd'; subst.
  - destruct t as [|t]; cbn in Ht; [|by apply Hf in Ht]. injection Ht as ->. by destruct c.
  - destruct b as [p|[] p]; [done|]. destruct c. by destruct (Hn 0%nat p).
Qed.

(** threadFunc's part of the state. *)
Definition back (s : AsyncLogging) :=
  (latched s, newBuffer1 s, newBuffer2 s, buffersToWrite s, output s, finished s, rounds s).

Lemma backend_frame s s' x :
  back s' = back s -> (started s' = started s /\ running_ s' = running_ s) ->
  (match x with Waiting _ _ => buffers_ s' = [] | _ => True end) -> backend_ok s x -> backend_ok s' x.
Proof.
  unfold back. intros [= E1 E2 E3 E4 E5 E6 E7] [E8 E9] Hx H. unfold backend_ok, launched, output_ok in *.
  rewrite E1, E2, E3, E4, E5, E6, E7, ?E8, ?E9. destruct x as [[]|c []]; naive_solver.
Qed.

Lemma append_step line s :
  front_ok s ->
  exists s' sig, append line s = Ok (mkResult s' sig (Ready AIdle)) /\ front_ok s' /\ back s' = back s /\
    started s' = started s /\ running_ s' = running_ s /\ (sig = [] /\ buffers_ s' = buffers_ s \/ sig = [One Cond]).
Proof.
  intros [(cur & Hcur & Hi) Hnext Hb Hl]. unfold append. rewrite Hcur. unfold pending in Hl. rewrite Hcur in Hl.
  pose proof Hi as (Hz & Hc & Hs). pose proof (zlen_nonneg line) as Hline.
  assert (Hfit : forall l r, concat (filter (fun l => fits l = true) (l ++ [r])) =
    concat (filter (fun l => fits l = true) l) ++ if fits r then r else []).
  { intros l r. rewrite filter_app, concat_app. f_equal. rewrite filter_cons. case_decide; destruct (fits r); try done. cbn. by rewrite app_nil_r. }
  destruct (zlen line <? avail cur) eqn:E.
  - destruct (fappend_ok line cur Hi) as (cur' & -> & Hi' & Ht). rewrite E in Ht. cbn [mbind res_bind].
    eexists _, _. split; [reflexivity|]. split; [|by split_and!; [..|left]].
    split; unfold pending; cbn [currentBuffer_ nextBuffer_ buffers_ rounds appended]; [by eexists|done|done|].
    rewrite Hfit, <- Hl, Ht. assert (Hf : fits line = true) by (unfold fits, avail in *; lia). rewrite Hf. by rewrite !(assoc_L app).
  - assert (Hn : exists b, default freshBuffer (nextBuffer_ s) = b /\ fixed_inv size b /\ cur_ b = 0).
    { destruct Hnext as [(b & -> & Hb1 & Hb2)|[-> _]]; [by exists b|]. exists freshBuffer. split_and!; [done|apply new_buffer_ok|done]. }
    destruct Hn as (b & -> & Hib & H0). destruct (fappend_ok line b Hib) as (cur' & -> & Hi' & Ht). cbn [mbind res_bind].
    assert (Hav : avail b = size) by (destruct Hib as (? & ? & ?); unfold avail; lia). rewrite Hav in Ht.
    assert (Hb0 : ftoString b = []) by (unfold ftoString; by rewrite H0). rewrite Hb0 in Ht.
    eexists _, _. split; [reflexivity|]. split; [|by split_and!; [..|right]].
    split; unfold pending; cbn [currentBuffer_ nextBuffer_ buffers_ rounds appended].
    + by eexists.
    + right. split; [done|]. by destruct (buffers_ s).
    + apply Forall_app. split; [done|]. by apply Forall_singleton.
    + rewrite Hfit, <- Hl, Ht, fmap_app, concat_app. cbn. rewrite !(assoc_L app), app_nil_r. unfold fits. by destruct (zlen line <? size).
Qed.

Lemma imap_snoc {A B} (f : nat -> A -> B) l x : imap f (l ++ [x]) = imap f l ++ [f (length l) x].
Proof. rewrite imap_app. cbn. by rewrite Nat.add_0_r. Qed.

Lemma write_all_ok l o :
  sink_ok o -> exists o', write_all l o = Ok o' /\ sink_ok o' /\ sink_content o' = sink_content o ++ concat (ftoString <$> l).
Proof.
  revert o. induction l as [|b l IH]; intros o Ho; cbn [write_all fmap list_fmap concat]; [exists o; by rewrite app_nil_r|].
  destruct (sink_append_law (ftoString b) o Ho) as (o1 & -> & H1 & C1). cbn [mbind res_bind].
  destruct (IH o1 H1) as (o2 & -> & H2 & C2). exists o2. split_and!; [done..|]. by rewrite C2, C1, (assoc_L app).
Qed.

Lemma refill_ok l b :
  Forall (fixed_inv size) l -> last l = Some b -> exists c l', refill None l = Ok (Some c, l') /\ fixed_inv size c /\ cur_ c = 0 /\
    l' = take (length l - 1) l.
Proof.
  intros Hl Hb. unfold refill. rewrite Hb. cbn [mbind res_bind]. eexists _, _. split; [reflexivity|]. split_and!; [|done..].
  assert (Hin : fixed_inv size b) by (rewrite Forall_forall in Hl; apply Hl; by apply last_Some_elem_of).
  destruct Hin as (H1 & H2 & H3). unfold fixed_inv, freset. cbn. lia.
Qed.

(** A buffer to write becomes newBuffer1; one more newBuffer2, if that was used. *)
Lemma refill_both l new2 :
  Forall (fixed_inv size) l -> zlen l <= 2 -> (empty_ok new2 /\ l <> [] \/ new2 = None /\ 2 <= zlen l) ->
  exists r1 r2, refill None l = Ok r1 /\ refill new2 (snd r1) = Ok r2 /\ empty_ok (fst r1) /\ empty_ok (fst r2).
Proof.
  intros Hl Hz Hn. assert (Hne : l <> []) by (destruct Hn as [[_ ?]|[_ H]]; [done|]; intros ->; rewrite zlen_nil in H; lia).
  destruct (last l) as [b|] eqn:Hb; [|by apply last_None in Hb].
  destruct (refill_ok l b Hl Hb) as (c & l' & -> & Hc & Hc0 & ->). exists (Some c, take (length l - 1) l). cbn [fst snd].
  assert (H1 : empty_ok (Some c)) by (by exists c). destruct Hn as [[(d & -> & ? & ?) _]|[-> H2]].
  - eexists. split; [done|]. split; [reflexivity|]. split; [done|]. by exists d.
  - destruct l as [|a [|b' [|]]]; try (unfold zlen in *; cbn [length] in *; lia).
    assert (Ha : fixed_inv size a) by (by apply Forall_cons in Hl as [? _]).
    destruct (refill_ok [a] a) as (d & l' & E & Hd & Hd0 & _); [by apply Forall_singleton|done|].
    exists (Some d, l'). split; [done|]. split; [exact E|]. split; [done|]. by exists d.
Qed.

Lemma rendered_snoc l r : rendered (l ++ [r]) = rendered l ++ render (length l) r.
Proof. unfold rendered. rewrite imap_snoc, concat_app. cbn. by rewrite app_nil_r. Qed.

(** Writing a round. *)
Lemma write_step s :
  backend_ok s (Ready BWrite) ->
  exists s', write_buffers s = Ok (mkResult s' [] (Ready BTop)) /\ backend_ok s' (Ready BTop) /\
    currentBuffer_ s' = currentBuffer_ s /\ nextBuffer_ s' = nextBuffer_ s /\ buffers_ s' = buffers_ s /\
    rounds s' = rounds s /\ appended s' = appended s.
Proof.
  intros (Hla & Hfin & H1 & H2 & Hl & rs & Hrs & o & Ho & Hok & Hcont & _). unfold write_buffers. rewrite H1.
  set (l := buffersToWrite s) in *. assert (Hne : l <> []) by (destruct H2 as [[_ ?]|[_ H]]; [done|]; intros E; rewrite E, zlen_nil in H; lia).
  assert (Hchk : match l with [] => false | _ => true end = true) by (by destruct l). rewrite Hchk, Ho. cbn [check get mbind res_bind].
  assert (Hw : exists o', (o1 ← (if 25 <? zlen l then sink_append (dropped_message (pred (length (rounds s))) (zlen l)) o else Ok o);
     write_all (if 25 <? zlen l then take 2 l else l) o1) = Ok o' /\ sink_ok o' /\ sink_content o' = rendered (rounds s)).
  { rewrite Hrs, rendered_snoc, <- Hcont. unfold render. rewrite length_app. cbn [length]. rewrite Nat.add_1_r. cbn [pred].
    unfold zlen at 4. rewrite length_fmap. fold (zlen l). destruct (25 <? zlen l) eqn:E.
    - destruct (sink_append_law (dropped_message (length rs) (zlen l)) o Hok) as (o1 & -> & Hk1 & C1). cbn [mbind res_bind].
      destruct (write_all_ok (take 2 l) o1 Hk1) as (o2 & -> & Hk2 & C2). exists o2. split_and!; [done..|]. rewrite C2, C1, fmap_take, (assoc_L app).
      unfold zlen. by rewrite length_fmap.
    - cbn [mbind res_bind]. destruct (write_all_ok l o Hok) as (o2 & -> & Hk2 & C2). by exists o2. }
  destruct Hw as (o' & Hw & Hok' & Hcont'). apply bind_Ok in Hw as (o1 & -> & Hw). cbn [mbind res_bind]. rewrite Hw. cbn [mbind res_bind].
  set (l1 := if 25 <? zlen l then take 2 l else l). set (l2 := if 2 <? zlen l1 then take 2 l1 else l1).
  assert (Hl2 : Forall (fixed_inv size) l2 /\ zlen l2 <= 2 /\ (2 <= zlen l -> 2 <= zlen l2) /\ l2 <> []).
  { assert (H21 : l2 = take 2 l).
    { unfold l2, l1. destruct (25 <? zlen l) eqn:E25; [|destruct (2 <? zlen l) eqn:E2; [done|]].
      - destruct (2 <? zlen (take 2 l)); [by rewrite take_take|done].
      - rewrite take_ge; [done|]. unfold zlen in *. lia. }
    rewrite H21. split_and!; [by apply Forall_take|unfold zlen; rewrite length_take; lia|unfold zlen; rewrite length_take; lia|].
    by destruct l. }
  destruct Hl2 as (Hf2 & Hz2 & Hge & Hne2).
  destruct (refill_both l2 (newBuffer2 s) Hf2 Hz2) as (r1 & r2 & -> & E2 & He1 & He2); [naive_solver|].
  cbn [mbind res_bind]. rewrite E2. cbn [mbind res_bind].
  destruct (sink_flush_law o' Hok') as (o'' & -> & Hk'' & C'' & D''). cbn [mbind res_bind].
  eexists. split; [reflexivity|]. split; [|done]. cbn. split_and!; try done.
  exists o''. cbn. split_and!; [done|done|by rewrite C''|by rewrite C''].
Qed.

(** Taking the buffers. *)
Lemma swap_step s x :
  backend_ok s (Ready BSwap) -> front_ok s -> x = Ready BWrite ->
  exists s', swap_buffers s = Ok (mkResult s' [] x) /\ backend_ok s' x /\ front_ok s'.
Proof.
  intros (Hla & Hfin & (n1 & E1 & I1 & Z1) & He2 & Htw & Hout & _) [(cur & Hcur & Hi) Hnext Hb Hl] ->.
  unfold swap_buffers. rewrite Hcur, E1, Htw. cbn [get mbind res_bind].
  assert (Hall : Forall (fixed_inv size) (buffers_ s ++ [cur])) by (apply Forall_app; split; [done|by apply Forall_singleton]).
  assert (Hlines : concat (concat (rounds s ++ [ftoString <$> buffers_ s ++ [cur]])) ++ concat [] ++ ftoString n1 =
    concat (filter (fun l => fits l = true) (appended s))).
  { rewrite <- Hl. unfold pending. rewrite Hcur. assert (ftoString n1 = []) as -> by (unfold ftoString; by rewrite Z1).
    rewrite concat_app, concat_app, fmap_app. cbn. rewrite !app_nil_r, concat_app. cbn. by rewrite app_nil_r. }
  assert (Hnx2 : exists next new2, (match nextBuffer_ s with Some b => (Some b, newBuffer2 s) | None => (newBuffer2 s, None) end) = (next, new2) /\
    empty_ok next /\ (empty_ok new2 \/ new2 = None /\ buffers_ s <> [])).
  { destruct Hnext as [(b & -> & Hb1 & Hb2)|[-> Hbs]]; eexists _, _; (split; [reflexivity|]); split; [by exists b|by left|done|by right]. }
  destruct Hnx2 as (next & new2 & -> & Hnx & Hn2). eexists. split; [reflexivity|]. split.
  - cbn. split_and!; try done.
    + destruct Hn2 as [?|[-> Hbs]]; [left; split; [done|]; by destruct (buffers_ s)|right; split; [done|]].
      rewrite zlen_app. change (zlen [cur]) with 1. destruct (buffers_ s) as [|b0 bs]; [done|]. rewrite zlen_cons. pose proof (zlen_nonneg bs). lia.
    + by exists (rounds s).
  - split; cbn; [by exists n1|by left|done|]. done.
Qed.

(** A segment of threadFunc. *)
Lemma back_segment a p s r :
  backend_ok s (Ready p) -> front_ok s -> async_segment a p s = Some r ->
  exists s' x, r = Ok (mkResult s' [] x) /\ backend_ok s' x /\ front_ok s'.
Proof.
  intros Hb Hf Hr. destruct p; try done; destruct a; try discriminate Hr; cbn [async_segment] in Hr.
  - destruct (started s) eqn:Es; [|done]. injection Hr as <-. destruct Hb as (Hla & Hfin & Hrun & Hrs).
    unfold thread_begin. rewrite Hrun by done. cbn [check mbind res_bind]. eexists _, _. split; [reflexivity|]. split; [|by destruct Hf].
    unfold launched. cbn. destruct new_buffer_ok as (? & ? & _). destruct Hnew as (? & Hc & Hd). split_and!; try done; [by exists freshBuffer..|].
    exists new_output. cbn. rewrite Hrs, Hc, Hd. done.
  - injection Hr as <-. pose proof Hb as (Hla & Hfin & (b1 & E1 & _ & Z1) & (b2 & E2 & _ & Z2) & Htw & (o & Ho & Hok & Hc & Hd) & _).
    unfold loop_top. rewrite E1, E2, Htw, Ho. cbn [empty_buffer]. unfold flength. rewrite Z1, Z2. cbn [Z.eqb check mbind res_bind get].
    destruct (running_ s) eqn:Er; [by eexists _, _|].
    destruct (sink_flush_law o Hok) as (o' & -> & Hok' & C' & D'). cbn [mbind res_bind].
    eexists _, _. split; [reflexivity|]. split; [|by destruct Hf]. cbn. split_and!; try done. exists o'. cbn. rewrite C', D'. done.
  - injection Hr as <-. unfold lock_buffers. destruct (buffers_ s) as [|b bs] eqn:Eb.
    + eexists _, _. split; [reflexivity|]. split; [|done]. cbn in *. rewrite Eb. naive_solver.
    + destruct (swap_step s _ Hb Hf eq_refl) as (s' & -> & ? & ?). by eexists _, _.
  - injection Hr as <-. destruct (swap_step s _ Hb Hf eq_refl) as (s' & -> & ? & ?). by eexists _, _.
  - injection Hr as <-. destruct (write_step s Hb) as (s' & -> & Hb' & E1 & E2 & E3 & E4 & E5). eexists _, _. split; [reflexivity|]. split; [done|].
    destruct Hf as [F1 F2 F3 F4]. unfold pending in *. split; unfold pending; rewrite ?E1, ?E2, ?E3, ?E4, ?E5; done.
Qed.

(** A segment of another thread. *)
Lemma front_segment a p s r b :
  front (Ready p) -> backend_ok s b -> front_ok s -> async_segment a p s = Some r ->
  exists s' sig x, r = Ok (mkResult s' sig x) /\ front x /\ front_ok s' /\
    (sig = [] /\ backend_ok s' b \/ sig = [One Cond] /\ backend_ok s' (wake Cond b)).
Proof.
  intros Hp Hb Hf Hr. destruct p; try done; destruct a; try discriminate Hr; cbn [async_segment] in Hr.
  - injection Hr as <-. eexists _, _, _. split; [reflexivity|]. split_and!; [done|done|by left].
  - destruct (started s) eqn:Es; [done|]. injection Hr as <-. eexists _, _, _. split; [reflexivity|]. split; [done|]. split; [by destruct Hf|]. left.
    split; [done|]. destruct b as [[]|c []]; try (exfalso; exact Hb); try (exfalso; destruct Hb as [[_ Hb] _]; congruence).
    destruct Hb as (? & ? & _ & ?). by split_and!.
  - destruct (latched s && running_ s) eqn:Es; [|done]. apply andb_true_iff in Es as [Ela _]. injection Hr as <-. eexists _, _, _. split; [reflexivity|]. split; [done|]. split; [by destruct Hf|]. left.
    split; [done|]. destruct b as [[]|c []]; first [exact Hb|exfalso; exact Hb|idtac].
    + exfalso. destruct Hb as [Hb _]. congruence.
    + destruct Hb as (? & ? & _ & ?). by split_and!.
  - injection Hr as <-. destruct (append_step line s Hf) as (s' & sig & -> & Hf' & Hbk & Hst & Hru & Hsig).
    eexists _, _, _. split; [reflexivity|]. split; [done|]. split; [done|]. destruct Hsig as [[-> Hbs]| ->]; [left|right]; (split; [done|]).
    + eapply backend_frame; [done|done| |done]. destruct b as [|c []]; try done. rewrite Hbs. cbn in Hb. naive_solver.
    + assert (Hw : backend_ok s (wake Cond b)) by (destruct b as [|[] []]; cbn in *; naive_solver).
      eapply backend_frame; [done|done| |done]. destruct b as [|[] q]; done.
  - destruct (latched s); [|done]. injection Hr as <-. eexists _, _, _. split; [reflexivity|]. split_and!; [done|done|by left].
  - injection Hr as <-. eexists _, _, _. split; [reflexivity|]. split; [done|]. split; [done|]. right. split; [done|].
    destruct b as [|[] []]; cbn in *; naive_solver.
  - destruct (finished s); [|done]. injection Hr as <-. eexists _, _, _. split; [reflexivity|]. split_and!; [done|done|by left].
Qed.

Lemma segment_ok a p t s ts r :
  async_inv (mkSys s ts) -> ts !! t = Some (Ready p) -> async_segment a p s = Some r ->
  exists res, r = Ok res /\
    forall ts', deliver (r_signals res) ts ts' -> async_inv (mkSys (r_shared res) (<[t := r_next res]> ts')).
Proof.
  intros (b & rest & Hts & Hb & Hrest & Hf) Ht Hr. cbn [shared threads] in *. subst ts. destruct t as [|t]; cbn in Ht.
  - injection Ht as ->. destruct (back_segment a p s r Hb Hf Hr) as (s' & x & -> & Hb' & Hf'). eexists. split; [done|].
    intros ts' Hd. inversion Hd; subst. by exists x, rest.
  - assert (Hp : front (Ready p)) by (rewrite Forall_lookup in Hrest; by eapply Hrest).
    destruct (front_segment a p s r b Hp Hb Hf Hr) as (s' & sig & x & -> & Hx & Hf' & Hsig). eexists. split; [done|]. cbn [r_signals r_shared r_next].
    intros ts' Hd. destruct Hsig as [[-> Hb']|[-> Hb']].
    + inversion Hd; subst. exists b, (<[t := x]> rest). split_and!; [done|done| |done]. by apply Forall_insert.
    + apply deliver_one in Hd as ->; [|done]. exists (wake Cond b), (<[t := x]> rest). split_and!; [done|done| |done]. by apply Forall_insert.
Qed.

Lemma async_step x y : async_inv x -> step async_segment x y -> async_inv y.
Proof.
  intros Hi Hs. destruct Hs as [t x y [a p s ts r ts' Ht Hr Hd]|s ts t c p Hw].
  - destruct (segment_ok a p t s ts (Ok r) Hi Ht Hr) as (res & [= <-] & Hk). by apply Hk.
  - destruct Hi as (b & rest & Hts & Hb & Hrest & Hf). cbn [shared threads] in *. subst ts. destruct t as [|t]; cbn in Hw.
    + injection Hw as ->. exists (Ready p), rest. split; [done|]. split; [|done]. destruct p; cbn in *; naive_solver.
    + rewrite Forall_lookup in Hrest. by apply Hrest in Hw.
Qed.

Lemma async_reachable n x : reachable async_segment (async_init n) x -> async_inv x.
Proof.
  apply reachable_ind_inv; [|by intros; eapply async_step]. exists (Ready BStart), (replicate n (Ready AIdle)). split; [done|]. cbn.
  destruct new_buffer_ok as (Hi & H0 & He). split_and!; try done; [by apply Forall_replicate|].
  split; unfold pending; cbn; [by exists freshBuffer|left; by exists freshBuffer|done|done].
Qed.

(** [C30] Asynchronous logging.  In every interleaving of any number of appending threads with
    threadFunc, start and stop: no assertion fails and no null buffer is used; the appended lines
    that fit into an empty buffer are exactly, in order, those of the rounds threadFunc has taken
    followed by those still pending (longer lines are dropped silently); the log holds, flushed, of
    every finished round either all of it or, when more than 25 buffers had piled up, an
    announcement of the drop and the first two buffers; appending threads never wait; and threadFunc
    can always take its next step, except that it waits only while no buffer is full. What is
    pending when threadFunc stops never reaches the log (stop_loses_lines). *)
Theorem async_logging_correct n x :
  reachable async_segment (async_init n) x ->
  (forall t p a f, threads x !! t = Some (Ready p) -> async_segment a p (shared x) <> Some (Fault f)) /\
  concat (concat (rounds (shared x))) ++ pending (shared x) = concat (filter (fun l => fits l = true) (appended (shared x))) /\
  (forall o, output (shared x) = Some o -> latched (shared x) = true ->
     exists written, sink_content o = rendered written /\ sink_durable o = sink_content o /\
       (rounds (shared x) = written \/
        threads x !! 0%nat = Some (Ready BWrite) /\ exists r, rounds (shared x) = written ++ [r])) /\
  (forall t c p, threads x !! t = Some (Waiting c p) -> t = 0%nat /\ buffers_ (shared x) = []) /\
  (started (shared x) = true ->
     threads x !! 0%nat = Some (Ready BEnd) \/ (exists c p, threads x !! 0%nat = Some (Waiting c p)) \/
     exists y, run_thread async_segment 0 x y).
Proof.
  intros Hr. apply async_reachable in Hr. destruct x as [s ts]. pose proof Hr as (b & rest & Hts & Hb & Hrest & Hf).
  cbn [shared threads] in *. subst ts. split_and!.
  - intros t p a f Ht Hseg. destruct (segment_ok a p t s _ _ Hr Ht Hseg) as (res & ? & _). done.
  - by destruct Hf.
  - intros o Ho Hla. destruct b as [[]|c []]; cbn [backend_ok] in Hb; try (exfalso; exact Hb).
    { destruct Hb as [Hb _]. congruence. }
    4: { destruct Hb as (_ & _ & _ & _ & _ & rs & Hrs & (o' & Ho' & _ & ? & ?)). simplify_eq. exists rs. split_and!; [done..|]. right.
         split; [done|]. by eexists. }
    4: { destruct Hb as (_ & _ & _ & (o' & Ho' & _ & ? & ?)). simplify_eq. exists (rounds s). by split_and!; [..|left]. }
    all: destruct Hb as (_ & _ & _ & _ & _ & (o' & Ho' & _ & ? & ?) & _); simplify_eq; exists (rounds s); by split_and!; [..|left].
  - intros [|t] c p Ht; cbn in Ht; [|rewrite Forall_lookup in Hrest; by apply Hrest in Ht].
    injection Ht as ->. destruct p; try (exfalso; exact Hb). by destruct Hb as (_ & _ & _ & _ & _ & _ & ?).
  - intros Hst. destruct b as [p|c p]; [|by right; left; eexists _, _]. destruct (decide (p = BEnd)) as [->|Hne]; [by left|]. right. right.
    assert (Hseg : exists r, async_segment AGo p s = Some r) by (destruct p; try (exfalso; exact Hb); cbn; rewrite ?Hst; eauto; done).
    destruct Hseg as [r Hseg]. destruct (segment_ok AGo p 0 s _ r Hr eq_refl Hseg) as (res & -> & _).
    eexists. eapply RunThread; [done|exact Hseg|apply deliver_first_deliver].
Qed.

(** stop() does not wait for the lines appended last: threadFunc leaves its loop as
    soon as it sees running_ false, without a last swap, so a line appended before stop()
    was called may never reach the log. *)
Theorem stop_loses_lines line :
  fits line = true ->
  exists x o, reachable async_segment (async_init 1) x /\ threads x = [Ready BEnd; Ready AStopped] /\
    appended (shared x) = [line] /\ output (shared x) = Some o /\ sink_content o = [].
Proof.
  intros Hl. destruct (sink_flush_law new_output (proj1 Hnew)) as (o & Ho & _ & Hc & _).
  destruct new_buffer_ok as (Hi & H0 & _). destruct (fappend_ok line freshBuffer Hi) as (b & Hb & _).
  assert (Hav : zlen line <? avail freshBuffer = true).
  { destruct Hi as (Hz & _ & _). unfold fits, avail in *. rewrite H0, Hz. lia. }
  eexists _, o. split.
  - apply (exec_reachable async_segment _ [(1, CallStart); (0, AGo); (1, AGo); (1, CallAppend line); (1, AGo); (1, CallStop); (1, AGo); (0, AGo); (1, AGo)]%nat (async_init 1));
      [apply ReachInit|].
    unfold async_init, newAsyncLogging. cbn -[freshBuffer fappend avail sink_flush]. unfold append. cbn -[freshBuffer fappend avail sink_flush zlen Z.ltb].
    rewrite Hav, Hb. cbn -[freshBuffer fappend avail sink_flush]. unfold loop_top. cbn -[freshBuffer sink_flush]. rewrite Ho. cbn -[freshBuffer]. reflexivity.
  - cbn. split_and!; [done..|]. rewrite Hc. apply Hnew.
Qed.
End AsyncLogging.

(** ** On a log file *)

Definition sample_sink : LogSink LogFile.LogFile :=
  log_file_sink (lit "app") (lit "host") 42 1000 3 2 sample_time sample_write (fun _ => true).

Definition sample_output : LogFile.LogFile :=
  match newLogFile (lit "app") (lit "host") 42 sample_time (fun _ => true) with
  | Ok st => st
  | Fault _ => mkLogFile 0 0 0 0 None [] 0 0
  end.

Lemma sample_laws : @LogSinkLaws _ sample_sink.
Proof. apply log_file_sink_laws, sample_world. Qed.

Lemma sample_output_ok :
  @sink_ok _ sample_sink sample_output /\ @sink_content _ sample_sink sample_output = [] /\ @sink_durable _ sample_sink sample_output = [].
Proof.
  split; [|by vm_compute]. destruct (new_inv (lit "app") (lit "host") 42 1000 3 2 sample_time sample_write (fun _ => true) sample_world) as (st & E & Hi).
  exists []. unfold sample_output. by rewrite E.
Qed.

Definition sample_segment := async_segment (HO := sample_sink) 10 (fun _ => 0) sample_output.
Definition sample_sched : list (nat * alabel) :=
  [(1, CallStart); (0, AGo); (1, AGo); (1, CallAppend (lit "hello,")); (1, AGo); (2, CallAppend (lit " world")); (2, AGo);
   (0, AGo); (0, AGo); (0, AGo); (0, AGo)]%nat.

Definition sample_x := exec sample_segment sample_sched (async_init 10 2).

Lemma async_logging_correct_witness :
  exists x o, sample_x = Some x /\ output (shared x) = Some o /\ @sink_content _ sample_sink o = lit "hello, world" /\
    concat (concat (AsyncLogging.rounds (shared x))) ++ pending (shared x) = lit "hello, world".
Proof.
  assert (Hx : exists x, sample_x = Some x) by (vm_compute; eauto). destruct Hx as [x Hx].
  destruct (async_logging_correct (HO := sample_sink) sample_laws 10 ltac:(lia) (fun _ => 0) sample_output sample_output_ok 2 x) as (_ & Hl & _).
  - apply (exec_reachable _ _ sample_sched (async_init 10 2)); [apply ReachInit|exact Hx].
  - exists x. vm_compute in Hx. injection Hx as <-. eexists. split; [reflexivity|]. split; [reflexivity|]. split; [vm_compute; reflexivity|].
    rewrite Hl. vm_compute. reflexivity.
Defined.

Lemma stop_loses_lines_witness :
  exists x o, reachable sample_segment (async_init 10 1) x /\ appended (shared x) = [lit "bye"] /\ output (shared x) = Some o /\
    @sink_content _ sample_sink o = [].
Proof.
  destruct (stop_loses_lines (HO := sample_sink) sample_laws 10 ltac:(lia) (fun _ => 0) sample_output sample_output_ok (lit "bye"))
    as (x & o & H1 & _ & H2 & H3 & H4); [reflexivity|].
  exists x, o. split_and!; [exact H1|exact H2|exact H3|exact H4].
Defined.
