(* ===== verification/Codec.v ===== *)
(** * Length-prefixed codecs

    The sources have three codecs that cut a byte stream into frames, each a big-endian
    int32 length and a body: LengthHeaderCodec (src/asio/chat/codec.h, modelled here),
    ProtobufCodec and ProtobufCodecLite (ProtobufCodec.v).  [FrameCodec] is what their
    [onMessage] loops have in common, as an interface: the bounds of the length field, the
    decoding of a body, and the law that [onMessage] computes the pure function [frames] of
    the buffer's content.  Against it the stream theorem is proved: however the bytes are
    cut into reads, the messages come out, once and in order.

    Callbacks are recorded as events.  A codec's [onMessage] loops at most once per frame,
    so fuel above the number of buffered bytes is enough ([frames_total]). *)

From S2P Require Import Prelude Endian Buffer BufferTheory.

(** messageCallback_ and errorCallback_ *)
Inductive codec_event (M E : Type) : Type :=
| Delivered (m : M)
| Failed (e : E).
Arguments Delivered {M E} m.
Arguments Failed {M E} e.

Definition kHeaderLen : Z := 4.

(** The int32 at the start of [c]. *)
Definition header (c : list char) : Z := sint 32 (of_be_bytes (take 4 c)).

(** ** Frames *)

Section Frames.
Context {M E : Type}.

(** Bounds of the length, the error for a length outside them, and what a body means:
    an error, a message, or nothing (a frame dropped on purpose). *)
Record framing := mkFraming { lo : Z; hi : Z; invalid : E; decode : list char -> E + option M }.

Definition delivered (o : option M) : list (codec_event M E) :=
  match o with Some m => [Delivered m] | None => [] end.

(** The events of a content, what is left of it, and whether an error stopped the loop. *)
Fixpoint frames (f : framing) (fuel : nat) (c : list char) : option (list (codec_event M E) * list char * bool) :=
  match fuel with
  | O => None
  | S fuel =>
      if zlen c <? lo f + kHeaderLen then Some ([], c, false)
      else
        let len := header c in
        if (hi f <? len) || (len <? lo f) then Some ([Failed (invalid f)], c, true)
        else if len + kHeaderLen <=? zlen c then
          match decode f (slice kHeaderLen (kHeaderLen + len) c) with
          | inl e => Some ([Failed e], c, true)
          | inr o =>
              match frames f fuel (drop (Z.to_nat (kHeaderLen + len)) c) with
              | Some (es, r, stop) => Some (delivered o ++ es, r, stop)
              | None => None
              end
          end
        else Some ([], c, false)
  end.

Definition framing_ok (f : framing) : Prop := 0 <= lo f /\ lo f <= hi f < 2 ^ 31 - kHeaderLen.

Lemma frames_total f n c : framing_ok f -> (length c < n)%nat -> exists r, frames f n c = Some r.
Proof.
  intros [Hlo Hhi]. revert c. induction n as [|n IH]; intros c Hn; [lia|]. cbn [frames].
  repeat case_match; eauto. destruct (IH (drop (Z.to_nat (kHeaderLen + header c)) c)) as [r Hr]; [|congruence].
  rewrite length_drop. unfold kHeaderLen, zlen in *. lia.
Qed.

(** More fuel does not change the result. *)
Lemma frames_mono f n m c r : frames f n c = Some r -> (n <= m)%nat -> frames f m c = Some r.
Proof.
  revert m c r. induction n as [|n IH]; intros m c r; [done|]. destruct m as [|m]; [lia|]. cbn [frames]. intros H Hm.
  repeat case_match; try done; simplify_eq.
  - by erewrite IH in * by (done || lia); simplify_eq.
  - by erewrite IH in * by (done || lia).
Qed.

Lemma header_app c d : 4 <= zlen c -> header (c ++ d) = header c.
Proof. intros H. unfold header. rewrite take_app_le by (unfold zlen in H; lia). done. Qed.

(** Bytes that arrive later continue where the loop stopped. *)
Lemma frames_app f n c d es r es' r' s :
  framing_ok f -> frames f n c = Some (es, r, false) -> frames f n (r ++ d) = Some (es', r', s) ->
  exists m, (m <= n + n)%nat /\ frames f m (c ++ d) = Some (es ++ es', r', s).
Proof.
  intros [Hlo Hhi]. assert (Hgen : forall n c es r, frames f n c = Some (es, r, false) ->
    forall k, frames f k (r ++ d) = Some (es', r', s) -> frames f (n + k) (c ++ d) = Some (es ++ es', r', s)).
  { clear n c es r. intros n. induction n as [|n IH]; intros c es r; [done|]. cbn [frames]. intros H k Hk.
    assert (Hstop : r = c /\ es = [] -> frames f (S n + k) (c ++ d) = Some (es ++ es', r', s)).
    { intros [-> ->]. eapply frames_mono; [exact Hk|lia]. }
    destruct (zlen c <? lo f + kHeaderLen) eqn:E1; [apply Hstop; by simplify_eq|].
    destruct (_ || _) eqn:E2; [by simplify_eq|].
    destruct (header c + kHeaderLen <=? zlen c) eqn:E3; [|apply Hstop; by simplify_eq].
    destruct (decode f _) as [e|o] eqn:E4; [by simplify_eq|].
    destruct (frames f n _) as [[[es1 r1] s1]|] eqn:E5; [|done]. simplify_eq.
    specialize (IH _ _ _ E5 k Hk). pose proof (zlen_nonneg d). unfold kHeaderLen in *.
    cbn [frames Nat.add]. unfold kHeaderLen. rewrite zlen_app, header_app by lia.
    replace (zlen c + zlen d <? _) with false by lia. rewrite E2. replace (_ <=? _) with true by lia.
    rewrite slice_app_l by lia. rewrite E4. rewrite drop_app_le by (unfold zlen in *; lia). rewrite IH.
    by rewrite (assoc_L app). }
  intros H1 H2. exists (n + n)%nat. split; [lia|]. by apply Hgen with r.
Qed.

Lemma frames_rest f n c es r s : frames f n c = Some (es, r, s) -> (length r <= length c)%nat.
Proof.
  revert c es. induction n as [|n IH]; intros c es; [done|]. cbn [frames]. intros H. repeat case_match; simplify_eq; try done.
  match goal with E : frames f n _ = Some _ |- _ => apply IH in E end. rewrite length_drop in *. lia.
Qed.

(** What is left would be left again. *)
Lemma frames_idle f n c es r : frames f n c = Some (es, r, false) -> frames f n r = Some ([], r, false).
Proof.
  assert (Hgen : forall n c es, frames f n c = Some (es, r, false) -> frames f 1 r = Some ([], r, false)).
  { clear n c es. intros n. induction n as [|n IH]; intros c es H; [done|]. cbn [frames] in H.
    destruct (zlen c <? lo f + kHeaderLen) eqn:E1; [simplify_eq; cbn [frames]; by rewrite E1|].
    destruct (_ || _) eqn:E2; [done|].
    destruct (header c + kHeaderLen <=? zlen c) eqn:E3; [|simplify_eq; cbn [frames]; by rewrite E1, E2, E3].
    destruct (decode f _); [done|]. destruct (frames f n _) as [[[es1 r1] s1]|] eqn:E4; [|done]. simplify_eq. by eapply IH. }
  intros H. pose proof (Hgen _ _ _ H) as H1. destruct n; [done|]. eapply frames_mono; [exact H1|lia].
Qed.

(** An error in a prefix is an error of the whole. *)
Lemma frames_stop f n m c d es r s es' r' :
  framing_ok f -> frames f n c = Some (es, r, s) -> frames f m (c ++ d) = Some (es', r', false) -> s = false.
Proof.
  intros [Hlo Hhi]. revert m c es es'. induction n as [|n IH]; intros m c es es'; [done|].
  destruct m as [|m]; [done|]. cbn [frames]. unfold kHeaderLen in *. rewrite zlen_app. pose proof (zlen_nonneg d).
  destruct (zlen c <? lo f + 4) eqn:E1; [by intros [= _ _ <-]|]. rewrite header_app by lia.
  replace (zlen c + zlen d <? _) with false by lia. destruct (_ || _) eqn:E2; [done|].
  destruct (header c + 4 <=? zlen c) eqn:E3; [|by intros [= _ _ <-]]. replace (header c + 4 <=? _) with true by lia.
  rewrite slice_app_l by lia. destruct (decode f _) as [e|o]; [done|].
  rewrite drop_app_le by (unfold zlen in *; lia). intros H1 H2.
  destruct (frames f n _) as [[[es1 r1] s1]|] eqn:E4; [|done]. destruct (frames f m _) as [[[es2 r2] s2]|] eqn:E5; [|done].
  simplify_eq. by eapply IH.
Qed.

(** ** Whole frames *)

Definition frame_of (f : framing) (x : list char) (m : M) : Prop :=
  exists body, x = be_bytes 4 (zlen body) ++ body /\ lo f <= zlen body <= hi f /\ decode f body = inr (Some m).

(** The start of a frame that is not complete yet. *)
Definition incomplete (f : framing) (c : list char) : Prop :=
  zlen c < lo f + kHeaderLen \/ (lo f <= header c <= hi f /\ zlen c < header c + kHeaderLen).

Lemma zlen_be n x : zlen (be_bytes n x) = Z.of_nat n.
Proof. unfold zlen. by rewrite length_be_bytes. Qed.

Lemma zlen_be4 x : zlen (be_bytes 4 x) = 4.
Proof. apply zlen_be. Qed.

Lemma header_be len rest : in_sint 32 len -> header (be_bytes 4 len ++ rest) = len.
Proof.
  intros H. unfold header. rewrite take_app_length' by (by rewrite length_be_bytes). apply (sint_of_be W32 len H).
Qed.

Lemma frames_whole f xs ms tail n :
  framing_ok f -> Forall2 (frame_of f) xs ms -> incomplete f tail -> (length xs < n)%nat ->
  frames f n (concat xs ++ tail) = Some (Delivered <$> ms, tail, false).
Proof.
  intros [Hlo Hhi] Hxs Ht. unfold kHeaderLen in Hhi. revert n. induction Hxs as [|x m xs ms Hx _ IH]; intros n Hn.
  - destruct n as [|n]; [cbn in Hn; lia|]. cbn [concat app frames]. destruct Ht as [Ht|[Hh Ht]].
    + by replace (zlen tail <? _) with true by lia.
    + destruct (zlen tail <? _); [done|]. replace (_ || _) with false by lia. by replace (_ <=? _) with false by lia.
  - destruct n as [|n]; [cbn in Hn; lia|]. destruct Hx as (body & -> & Hb & Hd). cbn [concat frames]. rewrite <- !(assoc_L app).
    set (rest := concat xs ++ tail) in *. assert (Hz : zlen (be_bytes 4 (zlen body)) = 4) by (unfold zlen; by rewrite length_be_bytes).
    rewrite header_be by (unfold in_sint; lia). rewrite !zlen_app, Hz. pose proof (zlen_nonneg rest). unfold kHeaderLen.
    replace (_ <? lo f + 4) with false by lia. replace (_ || _) with false by lia. replace (_ <=? _) with true by lia.
    rewrite slice_app_r by lia. rewrite Hz. replace (4 - 4) with 0 by lia. replace (4 + zlen body - 4) with (zlen body) by lia.
    rewrite slice_app_l by (pose proof (zlen_nonneg body); lia). rewrite slice_full, Hd.
    rewrite (assoc_L app), drop_app_length'; [|rewrite length_app, length_be_bytes; unfold zlen; lia].
    rewrite IH by (cbn in Hn; lia). done.
Qed.
End Frames.
Arguments framing : clear implicits.

Lemma frames_agree {M E} (f : framing M E) n m c r r' :
  frames f n c = Some r -> frames f m c = Some r' -> r = r'.
Proof.
  intros H1 H2. apply (frames_mono _ _ (n + m)) in H1; [|lia]. apply (frames_mono _ _ (n + m)) in H2; [|lia]. congruence.
Qed.

(** ** The interface *)

Class FrameCodec (M E : Type) := {
  codec_framing : framing M E;
  codec_framing_ok : framing_ok codec_framing;
  (** [onMessage]: the events, and the buffer afterwards; [None] when the fuel runs out *)
  on_message : nat -> Buffer -> option (res (list (codec_event M E) * Buffer));
  on_message_frames n b es r s : inv b -> frames codec_framing n (content b) = Some (es, r, s) ->
    exists b', on_message n b = Some (Ok (es, b')) /\ inv b' /\ content b' = r
}.

Section Client.
Context {M E : Type} `{FC : FrameCodec M E}.

(** Reads arrive one after the other: each is appended and [onMessage] is called. *)
Fixpoint feed (fuel : nat) (chunks : list (list char)) (b : Buffer)
  : option (res (list (codec_event M E) * Buffer)) :=
  match chunks with
  | [] => Some (Ok ([], b))
  | d :: chunks =>
      match append d b with
      | Fault f => Some (Fault f)
      | Ok b1 =>
          match on_message fuel b1 with
          | Some (Ok (es, b2)) =>
              match feed fuel chunks b2 with
              | Some (Ok (es', b3)) => Some (Ok (es ++ es', b3))
              | r => r
              end
          | r => r
          end
      end
  end.

Lemma feed_frames fuel chunks b es r :
  inv b -> (length (content b) + length (concat chunks) < fuel)%nat ->
  Forall (fun d => zlen d <= max_size) chunks ->
  frames codec_framing fuel (content b) = Some ([], content b, false) ->
  frames codec_framing fuel (content b ++ concat chunks) = Some (es, r, false) ->
  feed fuel chunks b = Some (Fault LengthError) \/
  exists b', feed fuel chunks b = Some (Ok (es, b')) /\ inv b' /\ content b' = r.
Proof.
  revert b es. induction chunks as [|d chunks IH]; intros b es Hi Hf Hd Hidle Hfr; cbn [feed].
  - right. exists b. cbn [concat] in Hfr. rewrite app_nil_r, Hidle in Hfr. by simplify_eq.
  - apply Forall_cons in Hd as [Hd Hds]. cbn [concat] in Hf, Hfr. rewrite length_app in Hf.
    destruct (append_outcome d b Hi Hd) as [(b1 & -> & Hi1 & Hc1)|[-> _]]; [|by left].
    destruct (frames_total codec_framing fuel (content b1)) as [[[es1 r1] s1] E1];
      [apply codec_framing_ok|rewrite Hc1, length_app; lia|].
    destruct (on_message_frames fuel b1 es1 r1 s1 Hi1 E1) as (b2 & -> & Hi2 & Hc2).
    assert (Hlen : (length r1 <= length (content b1))%nat) by by eapply frames_rest.
    assert (s1 = false) as ->.
    { rewrite (assoc_L app), <- Hc1 in Hfr. eapply frames_stop; [apply codec_framing_ok|done..]. }
    destruct (frames_total codec_framing fuel (r1 ++ concat chunks)) as [[[es2 r2] s2] E2];
      [apply codec_framing_ok|rewrite length_app, Hc1, length_app in *; lia|].
    destruct (frames_app _ _ _ _ _ _ _ _ _ codec_framing_ok E1 E2) as (m & _ & E3).
    rewrite Hc1, <- (assoc_L app) in E3. pose proof (frames_agree _ _ _ _ _ _ Hfr E3) as [= -> -> <-].
    destruct (IH b2 es2) as [->|(b' & -> & Hi' & Hc')]; try done.
    + rewrite Hc2, Hc1, length_app in *. lia.
    + rewrite Hc2. by eapply frames_idle.
    + by rewrite Hc2.
    + by left.
    + right. exists b'. done.
Qed.
End Client.

(** ** Loops

    The three [onMessage] functions are loops whose rounds look at the first frame:
    whether to go on, the events, and the buffer. *)

Section Loop.
Context {M E : Type} (round : Buffer -> res (bool * list (codec_event M E) * Buffer)).

Fixpoint codec_loop (fuel : nat) (b : Buffer) : option (res (list (codec_event M E) * Buffer)) :=
  match fuel with
  | O => None
  | S fuel =>
      match round b with
      | Fault f => Some (Fault f)
      | Ok (more, es, b1) =>
          if more : bool then
            match codec_loop fuel b1 with
            | Some (Ok (es', b2)) => Some (Ok (es ++ es', b2))
            | r => r
            end
          else Some (Ok (es, b1))
      end
  end.

(** One round of [frames]. *)
Definition frame_round (f : framing M E) (c : list char) : bool * list (codec_event M E) * list char :=
  if zlen c <? lo f + kHeaderLen then (false, [], c)
  else if (hi f <? header c) || (header c <? lo f) then (false, [Failed (invalid f)], c)
  else if header c + kHeaderLen <=? zlen c then
    match decode f (slice kHeaderLen (kHeaderLen + header c) c) with
    | inl e => (false, [Failed e], c)
    | inr o => (true, delivered o, drop (Z.to_nat (kHeaderLen + header c)) c)
    end
  else (false, [], c).

Definition round_ok (f : framing M E) : Prop :=
  forall b, inv b -> exists b', round b = Ok ((frame_round f (content b)).1, b') /\ inv b' /\
    content b' = (frame_round f (content b)).2.

Lemma codec_loop_frames f n b es r s :
  round_ok f -> inv b -> frames f n (content b) = Some (es, r, s) ->
  exists b', codec_loop n b = Some (Ok (es, b')) /\ inv b' /\ content b' = r.
Proof.
  intros Hr. revert b es. induction n as [|n IH]; intros b es Hi; [done|]. cbn [frames codec_loop].
  destruct (Hr b Hi) as (b1 & -> & Hi1 & Hc1). unfold frame_round in *.
  destruct (zlen (content b) <? _); [intros [= <- <- <-]; by exists b1|]. destruct (_ || _); [intros [= <- <- <-]; by exists b1|].
  destruct (_ <=? _); [|intros [= <- <- <-]; by exists b1]. destruct (decode f _) as [e|o]; [intros [= <- <- <-]; by exists b1|].
  cbn [fst snd] in *. rewrite <- Hc1. destruct (frames f n (content b1)) as [[[es1 r1] s1]|] eqn:E1; [|done].
  intros [= <- <- <-]. destruct (IH b1 es1 Hi1 E1) as (b2 & -> & ? & ?). by exists b2.
Qed.
End Loop.

Lemma slice_drop {A} (n i j : Z) (l : list A) :
  0 <= n -> 0 <= i -> slice i j (drop (Z.to_nat n) l) = slice (n + i) (n + j) l.
Proof. intros. unfold slice. rewrite drop_drop. f_equal; [lia|]. f_equal. lia. Qed.

(** Reading part of a buffer's content. *)
Section LoadBe32.
Context `{Host}.

(** [networkToHost32] of the int32 stored in four bytes. *)
Definition load_be32 (m : list char) : Z := sint 32 (networkToHost32 (sint 32 (from_memory m))).

Lemma load_be32_eq m : length m = 4%nat -> load_be32 m = sint 32 (of_be_bytes m).
Proof.
  intros Hm. pose proof (loaded_be m ltac:(lia)) as Hl. unfold zlen in Hl. rewrite Hm in Hl.
  exact Hl.
Qed.

Lemma slice_0_4 (c : list char) : slice 0 4 c = take 4 c.
Proof. unfold slice. cbn. by rewrite drop_0. Qed.

Lemma load_header b :
  inv b -> 4 <= zlen (content b) ->
  exists m, read_range (buffer_ b) (peek b) (peek b + 4) = Ok m /\ load_be32 m = header (content b).
Proof.
  intros Hi Hz. exists (take 4 (content b)). split.
  - rewrite <- slice_0_4, <- (read_content_range b 0 4) by (done || lia). f_equal. lia.
  - rewrite load_be32_eq; [done|]. rewrite length_take. unfold zlen in Hz. lia.
Qed.
End LoadBe32.

(** ** LengthHeaderCodec (src/asio/chat/codec.h) *)

Inductive lhc_error := InvalidLength.

Section LengthHeader.
Context `{Host}.

Definition kMaxLen : Z := 65536.

(** One round of [onMessage]; an invalid length is logged and the connection shut down. *)
Definition lhc_round (b : Buffer) : res (bool * list (codec_event (list char) lhc_error) * Buffer) :=
  if kHeaderLen <=? readableBytes b then
    be32 ← read_range (buffer_ b) (peek b) (peek b + 4);
    let len := load_be32 be32 in
    if (kMaxLen <? len) || (len <? 0) then Ok (false, [Failed InvalidLength], b)
    else if size_t (len + kHeaderLen) <=? readableBytes b then
      b1 ← retrieve kHeaderLen b;
      message ← read_range (buffer_ b1) (peek b1) (peek b1 + len);
      b2 ← retrieve len b1;
      Ok (true, [Delivered message], b2)
    else Ok (false, [], b)
  else Ok (false, [], b).

(** [send]: the buffer handed to the connection *)
Definition lhc_send (message : list char) : res Buffer :=
  b ← newBuffer kInitialSize;
  b ← append message b;
  let len := sint 32 (zlen message) in
  let be32 := sint 32 (hostToNetwork32 len) in
  prepend (to_memory 4 be32) b.

Definition lhc_framing : framing (list char) lhc_error :=
  mkFraming 0 kMaxLen InvalidLength (fun body => inr (Some body)).

Lemma lhc_round_ok : round_ok lhc_round lhc_framing.
Proof.
  intros b Hi. unfold lhc_round, frame_round, lhc_framing, kHeaderLen, kMaxLen. cbn [lo hi invalid decode].
  rewrite readableBytes_content by done. change (0 + 4) with 4.
  destruct (zlen (content b) <? 4) eqn:E1; [replace (4 <=? _) with false by lia; by exists b|].
  replace (4 <=? _) with true by lia. destruct (load_header b Hi ltac:(lia)) as (m & -> & Hm). cbn [mbind res_bind]. rewrite Hm.
  destruct (_ || _) eqn:E2; [by exists b|]. rewrite uint_small by lia.
  destruct (header (content b) + 4 <=? zlen (content b)) eqn:E3; [|by exists b].
  destruct (retrieve_spec 4 b) as (b1 & -> & Hi1 & Hc1 & _); [done|lia|]. cbn [mbind res_bind].
  assert (Hz : zlen (content b1) = zlen (content b) - 4) by (rewrite Hc1; apply (zlen_drop 4); lia).
  pose proof (read_content_range b1 0 (header (content b)) Hi1 ltac:(lia) ltac:(lia) ltac:(lia)) as Hr. rewrite Z.add_0_r in Hr.
  rewrite Hr. cbn [mbind res_bind]. destruct (retrieve_spec (header (content b)) b1) as (b2 & -> & Hi2 & Hc2 & _); [done|lia|].
  exists b2. cbn [mbind res_bind fst snd delivered]. split_and!; [|done|].
  - rewrite Hc1, slice_drop by lia. done.
  - rewrite Hc2, Hc1, drop_drop. f_equal. lia.
Qed.

#[global] Instance length_header_codec : FrameCodec (list char) lhc_error := {
  codec_framing := lhc_framing;
  codec_framing_ok := ltac:(unfold framing_ok, kMaxLen, kHeaderLen; cbn; unfold kMaxLen; lia);
  on_message := codec_loop lhc_round;
  on_message_frames n b es r s := codec_loop_frames lhc_round lhc_framing n b es r s lhc_round_ok
}.
End LengthHeader.

Section Stream.
Context {M E : Type} `{FC : FrameCodec M E}.

Lemma frames_count (f : framing M E) xs ms : Forall2 (frame_of f) xs ms -> (length xs <= length (concat xs))%nat.
Proof.
  induction 1 as [|x m xs ms (body & -> & _) _ IH]; cbn [concat length]; [lia|]. rewrite !length_app, length_be_bytes. lia.
Qed.

(** The frames of [ms] and the start of another, cut in any way. *)
Lemma codec_stream fuel xs ms tail chunks b :
  Forall2 (frame_of codec_framing) xs ms -> incomplete codec_framing tail ->
  inv b -> content b = [] -> concat chunks = concat xs ++ tail ->
  (length (concat chunks) < fuel)%nat -> Forall (fun d => zlen d <= max_size) chunks ->
  feed fuel chunks b = Some (Fault LengthError) \/
  exists b', feed fuel chunks b = Some (Ok (Delivered <$> ms, b')) /\ inv b' /\ content b' = tail.
Proof.
  intros Hx Ht Hi Hc Hcat Hf Hd. pose proof codec_framing_ok as Hok. pose proof (frames_count _ _ _ Hx).
  apply (feed_frames fuel chunks b (Delivered <$> ms) tail); rewrite ?Hc; try done.
  - destruct fuel as [|fuel]; [lia|]. cbn [frames]. destruct Hok as [Hlo _]. unfold kHeaderLen.
    by replace (zlen [] <? _) with true by (change (zlen []) with 0; lia).
  - cbn [app]. rewrite Hcat in *. rewrite length_app in Hf. apply frames_whole; try done. lia.
Qed.
End Stream.

Lemma lhc_send_spec `{Host} m :
  zlen m <= kMaxLen -> exists b, lhc_send m = Ok b /\ inv b /\ content b = be_bytes 4 (zlen m) ++ m.
Proof.
  intros Hm. unfold kMaxLen in Hm. pose proof (zlen_nonneg m). unfold lhc_send.
  destruct (newBuffer_spec kInitialSize) as (b0 & -> & Hi0 & Hc0 & Hr0 & Hw0 & _);
    [unfold kInitialSize, kCheapPrepend, max_size; lia..|]. cbn [mbind res_bind].
  destruct (append_spec m b0) as (b1 & -> & Hi1 & Hc1 & Hr1 & Hw1);
    [done|left; unfold kCheapPrepend, max_size in *; lia|]. cbn [mbind res_bind].
  rewrite (sint_small 32 (zlen m)) by (unfold in_sint; lia).
  assert (Hst : to_memory 4 (sint 32 (hostToNetwork32 (zlen m))) = be_bytes 4 (zlen m)) by (apply (stored_be 4); lia).
  rewrite Hst. destruct (prepend_spec (be_bytes 4 (zlen m)) b1) as (b2 & -> & Hi2 & Hc2 & _); [done| |].
  { rewrite zlen_be. unfold reader_moved, kCheapPrepend in *. lia. }
  exists b2. rewrite Hc2, Hc1, Hc0. done.
Qed.

(** The length-header codec delivers a stream of messages: what a host of either byte
    order sends for messages of at most 65536 bytes, followed by the start of another
    frame, and however the network cuts it into reads, comes out of onMessage on a host of
    either byte order as exactly these messages, once each and in order, with the
    incomplete frame left in the buffer; only a buffer beyond the address space stops it. *)
Theorem length_codec_stream (h1 h2 : Host) ms tail chunks fuel b :
  Forall (fun m => zlen m <= kMaxLen) ms -> incomplete lhc_framing tail ->
  inv b -> content b = [] -> (length (concat chunks) < fuel)%nat -> Forall (fun d => zlen d <= max_size) chunks ->
  exists wires, Forall2 (fun m w => exists bs, lhc_send (H := h1) m = Ok bs /\ content bs = w) ms wires /\
    (concat chunks = concat wires ++ tail ->
     feed (FC := length_header_codec (H := h2)) fuel chunks b = Some (Fault LengthError) \/
     exists b', feed (FC := length_header_codec (H := h2)) fuel chunks b = Some (Ok (Delivered <$> ms, b')) /\
       content b' = tail).
Proof.
  intros Hms Ht Hi Hc Hf Hd. exists ((fun m => be_bytes 4 (zlen m) ++ m) <$> ms). split.
  - induction Hms as [|m ms Hm _ IH]; constructor; [|done].
    destruct (lhc_send_spec (H := h1) m Hm) as (bs & ? & _ & ?). by exists bs.
  - intros Hcat. destruct (codec_stream (FC := length_header_codec (H := h2)) fuel
      ((fun m => be_bytes 4 (zlen m) ++ m) <$> ms) ms tail chunks b) as [?|(b' & ? & _ & ?)]; try done; [|by left|right; by exists b'].
    clear -Hms. induction Hms as [|m ms Hm _ IH]; constructor; [|done]. exists m. split_and!; [done| |by cbn|done].
    cbn. apply zlen_nonneg.
Qed.

Definition empty_buffer : Buffer := mkBuffer (replicate 24 (chr 0)) kCheapPrepend kCheapPrepend.

Lemma empty_buffer_ok : inv empty_buffer /\ content empty_buffer = [].
Proof. split; [|vm_compute; reflexivity]. unfold inv. vm_compute. repeat split; discriminate. Qed.

(** Two messages and one byte of a third, from a little-endian to a big-endian host, cut
    inside the first header and inside the first body. *)
Definition lhc_chunks : list (list char) :=
  [[chr 0; chr 0]; [chr 0; chr 2; chr 104]; [chr 105; chr 0; chr 0; chr 0; chr 0; chr 0]].

Lemma length_codec_stream_witness :
  exists b', feed (FC := length_header_codec (H := BigEndian)) 12 lhc_chunks empty_buffer =
      Some (Ok ([Delivered (lit "hi"); Delivered []], b')) /\ content b' = [chr 0].
Proof.
  destruct (length_codec_stream LittleEndian BigEndian [lit "hi"; []] [chr 0] lhc_chunks 12 empty_buffer)
    as (ws & Hw & Hs); try apply empty_buffer_ok.
  - repeat constructor; vm_compute; congruence.
  - left. vm_compute. reflexivity.
  - vm_compute. lia.
  - repeat constructor; vm_compute; congruence.
  - destruct Hs as [Hs|Hs]; [|vm_compute in Hs; discriminate Hs|exact Hs].
    inversion Hw as [|m1 w1 ? ? (b1 & E1 & <-) Hw']; subst. inversion Hw' as [|m2 w2 ? ? (b2 & E2 & <-) Hw'']; subst.
    inversion Hw''; subst. vm_compute in E1, E2. injection E1 as <-. injection E2 as <-. vm_compute. reflexivity.
Defined.
