(* ===== verification/ProtobufCodec.v ===== *)
(** * The protobuf codecs (src/protobuf/codec/codec.h, codec.cc,
      src/protorpc/muduo_protobuf_codec/ProtobufCodecLite.h, ProtobufCodecLite.cc)

    [ProtobufCodec] sends any message with its type name, [ProtobufCodecLite] messages of
    one type with a fixed tag; both end a frame with an adler32 checksum.  The protobuf
    library and zlib's adler32 are parameters.  [rawCb_], when it is set, sees every frame
    first and may drop it. *)

From S2P Require Import Prelude Endian Buffer BufferTheory Codec.

Inductive ErrorCode :=
| kNoError | kInvalidLength | kCheckSumError | kInvalidNameLen | kUnknownMessageType | kParseError.

#[global] Instance ErrorCode_eq_dec : EqDecision ErrorCode.
Proof. solve_decision. Defined.

Definition errorCodeToString (e : ErrorCode) : list char :=
  match e with
  | kNoError => lit "NoError"
  | kInvalidLength => lit "InvalidLength"
  | kCheckSumError => lit "CheckSumError"
  | kInvalidNameLen => lit "InvalidNameLen"
  | kUnknownMessageType => lit "UnknownMessageType"
  | kParseError => lit "ParseError"
  end.

Definition kMaxMessageLen : Z := 64 * 1024 * 1024.
Definition kMinMessageLen : Z := 2 * kHeaderLen + 2.
Definition kChecksumLen : Z := 4.

(** What the codecs use of google::protobuf::Message. *)
Class Protobuf (M : Type) := {
  GetTypeName : M -> list char;
  IsInitialized : M -> bool;
  ByteSize : M -> Z;
  SerializeToArray : M -> list char;
  (** FindMessageTypeByName and GetPrototype: the prototype of a type name *)
  FindPrototype : list char -> option M;
  (** New(), then ParseFromArray *)
  ParseFromArray : M -> list char -> option M
}.

Section Codecs.
Context `{Host} {M : Type} `{Protobuf M}.
(** adler32(1, bytes), an unsigned 32-bit number *)
Context (adler32 : list char -> Z).

Definition checksum (bytes : list char) : Z := sint 32 (adler32 bytes).

Definition asInt32 (buf : list char) (pos : Z) : res Z :=
  m ← read_range buf pos (pos + 4); Ok (load_be32 m).

(** Serialising into the buffer's writable part, of which [extra] bytes more are made sure of. *)
Definition serializeToBuffer (extra : Z) (message : M) (b : Buffer) : res Buffer :=
  if negb (IsInitialized message) then Fault Fatal
  else
    let byte_size := ByteSize message in
    b ← ensureWritableBytes (byte_size + extra) b;
    l ← write_at (buffer_ b) (beginWrite b) (SerializeToArray message);
    if negb (zlen (SerializeToArray message) =? byte_size) then Fault Fatal
    else hasWritten byte_size (mkBuffer l (readerIndex_ b) (writerIndex_ b)).

(** The checksum of everything in the buffer is appended, its length prepended. *)
Definition seal (expected : Z) (b : Buffer) : res Buffer :=
  bytes ← read_range (buffer_ b) (peek b) (peek b + readableBytes b);
  b ← appendInt32 (checksum bytes) b;
  _ ← check (readableBytes b =? expected);
  prepend (to_memory 4 (sint 32 (hostToNetwork32 (sint 32 (readableBytes b))))) b.

(** ** ProtobufCodec *)

Definition fillEmptyBuffer (message : M) (b : Buffer) : res Buffer :=
  _ ← check (readableBytes b =? 0);
  let typeName := GetTypeName message in
  let nameLen := sint 32 (zlen typeName + 1) in
  b ← appendInt32 nameLen b;
  b ← append (take (Z.to_nat nameLen) (typeName ++ [chr 0])) b;
  b ← serializeToBuffer 0 message b;
  seal (4 + nameLen + ByteSize message + 4) b.

Definition createMessage (typeName : list char) : option M := FindPrototype typeName.

(** The message, if one was created, and the error. *)
Definition parse (buf : list char) (len : Z) : res (option M * ErrorCode) :=
  expectedCheckSum ← asInt32 buf (len - kHeaderLen);
  bytes ← read_range buf 0 (len - kHeaderLen);
  if checksum bytes =? expectedCheckSum then
    nameLen ← asInt32 buf 0;
    if (2 <=? nameLen) && (nameLen <=? len - 2 * kHeaderLen) then
      typeName ← read_range buf kHeaderLen (kHeaderLen + nameLen - 1);
      match createMessage typeName with
      | Some message =>
          data ← read_range buf (kHeaderLen + nameLen) (kHeaderLen + nameLen + (len - nameLen - 2 * kHeaderLen));
          match ParseFromArray message data with
          | Some message => Ok (Some message, kNoError)
          | None => Ok (Some message, kParseError)
          end
      | None => Ok (None, kUnknownMessageType)
      end
    else Ok (None, kInvalidNameLen)
  else Ok (None, kCheckSumError).

Abbreviation pround := (res (bool * list (codec_event M ErrorCode) * Buffer)).

(** One round of [ProtobufCodec::onMessage]. *)
Definition pb_round (b : Buffer) : pround :=
  if kMinMessageLen + kHeaderLen <=? readableBytes b then
    len ← peekInt32 b;
    if (kMaxMessageLen <? len) || (len <? kMinMessageLen) then Ok (false, [Failed kInvalidLength], b)
    else if size_t (len + kHeaderLen) <=? readableBytes b then
      buf ← read_range (buffer_ b) (peek b + kHeaderLen) (peek b + kHeaderLen + len);
      '(message, errorCode) ← parse buf len;
      match message, errorCode with
      | Some m, kNoError => b1 ← retrieve (kHeaderLen + len) b; Ok (true, [Delivered m], b1)
      | _, _ => Ok (false, [Failed errorCode], b)
      end
    else Ok (false, [], b)
  else Ok (false, [], b).

(** ** ProtobufCodecLite *)

Section Lite.
Context (tag_ : list char) (prototype_ : M) (rawCb_ : option (list char -> bool)).

Definition kMinLiteLen : Z := sint 32 (zlen tag_ + kChecksumLen).

Definition lite_fillEmptyBuffer (message : M) (b : Buffer) : res Buffer :=
  _ ← check (readableBytes b =? 0);
  b ← append tag_ b;
  b ← serializeToBuffer kChecksumLen message b;
  seal (zlen tag_ + ByteSize message + kChecksumLen) b.

Definition validateChecksum (buf : list char) (len : Z) : res bool :=
  expectedCheckSum ← asInt32 buf (len - kChecksumLen);
  bytes ← read_range buf 0 (len - kChecksumLen);
  Ok (checksum bytes =? expectedCheckSum).

Definition lite_parse (buf : list char) (len : Z) : res (ErrorCode + M) :=
  valid ← validateChecksum buf len;
  if valid : bool then
    tag ← read_range buf 0 (zlen tag_);
    if bool_decide (tag = tag_) then
      data ← read_range buf (zlen tag_) (zlen tag_ + (len - kChecksumLen - zlen tag_));
      match ParseFromArray prototype_ data with
      | Some message => Ok (inr message)
      | None => Ok (inl kParseError)
      end
    else Ok (inl kUnknownMessageType)
  else Ok (inl kCheckSumError).

(** One round of [ProtobufCodecLite::onMessage]. *)
Definition lite_round (b : Buffer) : pround :=
  if uint 32 (kMinLiteLen + kHeaderLen) <=? readableBytes b then
    len ← peekInt32 b;
    if (kMaxMessageLen <? len) || (len <? kMinLiteLen) then Ok (false, [Failed kInvalidLength], b)
    else if size_t (kHeaderLen + len) <=? readableBytes b then
      raw ← read_range (buffer_ b) (peek b) (peek b + (kHeaderLen + len));
      if match rawCb_ with Some cb => negb (cb raw) | None => false end then
        b1 ← retrieve (kHeaderLen + len) b; Ok (true, [], b1)
      else
        buf ← read_range (buffer_ b) (peek b + kHeaderLen) (peek b + kHeaderLen + len);
        r ← lite_parse buf len;
        match r with
        | inr m => b1 ← retrieve (kHeaderLen + len) b; Ok (true, [Delivered m], b1)
        | inl e => Ok (false, [Failed e], b)
        end
    else Ok (false, [], b)
  else Ok (false, [], b).
End Lite.

(** ** Decoding as a function of the frame's body *)

Definition pb_decode (body : list char) : ErrorCode + option M :=
  match parse body (zlen body) with
  | Ok (Some m, kNoError) => inr (Some m)
  | Ok (_, e) => inl e
  | Fault _ => inl kParseError
  end.

Definition pb_framing : framing M ErrorCode := mkFraming kMinMessageLen kMaxMessageLen kInvalidLength pb_decode.

Lemma asInt32_ok buf pos :
  0 <= pos -> pos + 4 <= zlen buf -> asInt32 buf pos = Ok (sint 32 (of_be_bytes (slice pos (pos + 4) buf))).
Proof.
  intros H1 H2. unfold asInt32. rewrite read_range_ok by lia. cbn [mbind res_bind]. f_equal. apply load_be32_eq.
  pose proof (zlen_slice pos (pos + 4) buf ltac:(lia) ltac:(lia) ltac:(lia)). unfold zlen in *. lia.
Qed.

(** [parse] reads inside the frame, whatever the frame holds. *)
Lemma parse_total buf : kMinMessageLen <= zlen buf -> exists r, parse buf (zlen buf) = Ok r.
Proof.
  unfold parse, kMinMessageLen, kHeaderLen. intros Hb. rewrite (asInt32_ok buf (zlen buf - 4)) by lia.
  rewrite (asInt32_ok buf 0), (read_range_ok buf 0) by lia. cbn [mbind res_bind]. destruct (checksum _ =? _); [|eauto].
  destruct (_ && _) eqn:E; [|eauto]. rewrite !read_range_ok by lia. cbn [mbind res_bind].
  destruct (createMessage _); [|eauto]. cbn [mbind res_bind]. destruct (ParseFromArray _ _); eauto.
Qed.

Lemma peek_header b : inv b -> 4 <= zlen (content b) -> peekInt32 b = Ok (header (content b)).
Proof.
  intros Hi Hz. rewrite <- (take_drop 4 (content b)) in Hz.
  apply (peek_int_eq W32 (take 4 (content b)) (drop 4 (content b)) b Hi); [by rewrite take_drop|].
  rewrite take_drop in Hz. rewrite length_take. change (bytes_of W32) with 4%nat. unfold zlen in Hz. lia.
Qed.

Lemma pb_round_ok : round_ok pb_round pb_framing.
Proof.
  intros b Hi. unfold pb_round, frame_round, pb_framing, kHeaderLen, kMaxMessageLen. cbn [lo hi invalid decode].
  rewrite readableBytes_content by done.
  destruct (zlen (content b) <? kMinMessageLen + 4) eqn:E1; [replace (_ <=? _) with false by lia; by exists b|].
  replace (kMinMessageLen + 4 <=? _) with true by lia. unfold kMinMessageLen, kHeaderLen in E1.
  rewrite peek_header by (done || lia). cbn [mbind res_bind].
  destruct (_ || _) eqn:E2; [by exists b|]. unfold kMinMessageLen, kHeaderLen in E2. rewrite uint_small by lia.
  destruct (header (content b) + 4 <=? zlen (content b)) eqn:E3; [|by exists b].
  rewrite <- Z.add_assoc, (read_content_range b 4 (4 + header (content b))) by (done || lia). cbn [mbind res_bind].
  set (body := slice 4 (4 + header (content b)) (content b)).
  assert (Hz : zlen body = header (content b)) by (unfold body; rewrite zlen_slice; lia). unfold pb_decode. rewrite <- Hz.
  destruct (parse_total body) as [[o e] ->]; [unfold kMinMessageLen, kHeaderLen; lia|]. cbn [mbind res_bind].
  destruct (retrieve_spec (4 + zlen body) b) as (b1 & Hr & Hi1 & Hc1 & _); [done|lia|].
  destruct o as [m|], e; try (by exists b). rewrite Hr. by exists b1.
Qed.

#[global] Instance protobuf_codec : FrameCodec M ErrorCode := {
  codec_framing := pb_framing;
  codec_framing_ok := ltac:(unfold framing_ok; cbn; unfold kMinMessageLen, kMaxMessageLen, kHeaderLen; lia);
  on_message := codec_loop pb_round;
  on_message_frames n b es r s := codec_loop_frames pb_round pb_framing n b es r s pb_round_ok
}.

(** ** Encoding *)

Lemma be_bytes_sint z : be_bytes 4 (sint 32 z) = be_bytes 4 z.
Proof. rewrite <- (be_bytes_uint 4 (sint 32 z)), <- (be_bytes_uint 4 z). f_equal. apply (uint_sint 32). lia. Qed.

Lemma appendInt32_eq x b : appendInt32 x b = append (be_bytes 4 x) b.
Proof. apply (append_int_eq W32). Qed.

(** Writing to the writable part and accounting for it. *)
Lemma write_spec d b :
  inv b -> zlen d <= writableBytes b ->
  exists b', (l ← write_at (buffer_ b) (beginWrite b) d; hasWritten (zlen d) (mkBuffer l (readerIndex_ b) (writerIndex_ b))) = Ok b' /\
    inv b' /\ content b' = content b ++ d /\ readerIndex_ b' = readerIndex_ b /\ writerIndex_ b' = writerIndex_ b + zlen d.
Proof.
  intros Hi Hw. pose proof (zlen_nonneg d). rewrite writableBytes_eq in Hw by done. unfold vsize in Hw.
  destruct (write_at (buffer_ b) (beginWrite b) d) as [l|] eqn:E.
  2: { rewrite write_at_ok in E by (unfold inv, beginWrite, vsize in *; lia). done. }
  pose proof (zlen_write_at _ _ _ _ E) as Hlen. cbn [mbind res_bind]. unfold hasWritten. buffer_unfold. unwrap. run_checks.
  eexists; split; [done|]. unwrap. cbn. split_and!; try lia. apply (write_at_extends _ _ _ _ _ E). lia.
Qed.

(** Messages that protobuf serialises as it announced. *)
Definition serialisable (m : M) : Prop := IsInitialized m = true /\ zlen (SerializeToArray m) = ByteSize m.

Lemma serialize_spec extra m b :
  serialisable m -> inv b -> 0 <= extra -> room (ByteSize m + extra) b ->
  exists b', serializeToBuffer extra m b = Ok b' /\ inv b' /\ content b' = content b ++ SerializeToArray m /\
    reader_moved b b' /\ writerIndex_ b' <= writerIndex_ b + ByteSize m.
Proof.
  intros [Hm Hz] Hi He Hr. pose proof (zlen_nonneg (SerializeToArray m)). unfold serializeToBuffer. rewrite Hm. cbn [negb].
  destruct (ensureWritableBytes_spec (ByteSize m + extra) b) as (b1 & -> & Hi1 & Hc1 & Hw1 & Hr1 & Hwr1); [done|lia|done|].
  cbn [mbind res_bind]. destruct (write_spec (SerializeToArray m) b1 Hi1) as (b2 & E & Hi2 & Hc2 & Hr2 & Hw2); [lia|].
  destruct (write_at _ _ _) as [l|]; [|done]. cbn [mbind res_bind] in *. rewrite Hz, Z.eqb_refl in *. cbn [negb].
  exists b2. split_and!; [done|done|by rewrite Hc2, Hc1| |lia]. unfold reader_moved in *. lia.
Qed.

Lemma seal_spec b :
  inv b -> 4 <= readerIndex_ b -> readerIndex_ b = kCheapPrepend -> writerIndex_ b < 2 ^ 30 ->
  exists b', seal (zlen (content b) + 4) b = Ok b' /\ inv b' /\
    content b' = be_bytes 4 (zlen (content b) + 4) ++ content b ++ be_bytes 4 (adler32 (content b)).
Proof.
  intros Hi H4 Hk Hw. pose proof (zlen_content b Hi) as Hz. pose proof (zlen_nonneg (content b)). unfold seal.
  rewrite readableBytes_content by done.
  pose proof (read_content_range b 0 (zlen (content b)) Hi ltac:(lia) ltac:(lia) ltac:(lia)) as Hr. rewrite Z.add_0_r, slice_full in Hr.
  rewrite Hr. cbn [mbind res_bind]. rewrite appendInt32_eq. unfold checksum. rewrite be_bytes_sint.
  destruct (append_spec (be_bytes 4 (adler32 (content b))) b) as (b1 & -> & Hi1 & Hc1 & Hr1 & Hw1);
    [done|left; rewrite zlen_be4; unfold max_size; lia|]. cbn [mbind res_bind].
  rewrite readableBytes_content, Hc1, zlen_app, zlen_be4 by done. rewrite check_true by lia. cbn [mbind res_bind].
  rewrite (sint_small 32 (zlen (content b) + 4)) by (unfold in_sint; lia).
  replace (to_memory 4 _) with (be_bytes 4 (zlen (content b) + 4)) by (symmetry; apply (stored_be 4); lia).
  destruct (prepend_spec (be_bytes 4 (zlen (content b) + 4)) b1) as (b2 & -> & Hi2 & Hc2 & _); [done| |].
  { rewrite zlen_be4. unfold reader_moved, kCheapPrepend in *. lia. }
  exists b2. by rewrite Hc2, Hc1.
Qed.

(** The body of a frame, without and with its checksum. *)
Definition pb_inner (m : M) : list char :=
  be_bytes 4 (zlen (GetTypeName m) + 1) ++ GetTypeName m ++ [chr 0] ++ SerializeToArray m.
Definition sealed (inner : list char) : list char := inner ++ be_bytes 4 (adler32 inner).

Lemma zlen_sealed inner : zlen (sealed inner) = zlen inner + 4.
Proof. unfold sealed. by rewrite zlen_app, zlen_be4. Qed.

Lemma zlen_pb_inner m : serialisable m -> zlen (pb_inner m) = 4 + (zlen (GetTypeName m) + 1) + ByteSize m.
Proof. intros [_ Hz]. unfold pb_inner. rewrite !zlen_app, zlen_be4, Hz. change (zlen [chr 0]) with 1. lia. Qed.

Lemma fillEmptyBuffer_spec m b :
  serialisable m -> zlen (sealed (pb_inner m)) <= kMaxMessageLen ->
  inv b -> content b = [] -> readerIndex_ b = kCheapPrepend -> writerIndex_ b = kCheapPrepend ->
  exists b', fillEmptyBuffer m b = Ok b' /\ inv b' /\
    content b' = be_bytes 4 (zlen (sealed (pb_inner m))) ++ sealed (pb_inner m).
Proof.
  intros Hm Hmax Hi Hc Hr Hw. rewrite zlen_sealed, zlen_pb_inner in Hmax by done. pose proof Hm as [_ Hz].
  pose proof (zlen_nonneg (GetTypeName m)). pose proof (zlen_nonneg (SerializeToArray m)). unfold kMaxMessageLen in Hmax.
  unfold fillEmptyBuffer. rewrite readableBytes_content, Hc by done. cbn [mbind res_bind check zlen length Z.of_nat Z.eqb].
  rewrite sint_small by (unfold in_sint; lia). rewrite appendInt32_eq.
  destruct (append_spec (be_bytes 4 (zlen (GetTypeName m) + 1)) b) as (b1 & -> & Hi1 & Hc1 & Hr1 & Hw1);
    [done|left; rewrite zlen_be4; unfold max_size, kCheapPrepend in *; lia|]. cbn [mbind res_bind]. rewrite zlen_be4 in Hw1.
  replace (take _ _) with (GetTypeName m ++ [chr 0])
    by (symmetry; apply take_ge; rewrite length_app; unfold zlen; cbn; lia).
  assert (Hn : zlen (GetTypeName m ++ [chr 0]) = zlen (GetTypeName m) + 1) by (by rewrite zlen_app).
  destruct (append_spec (GetTypeName m ++ [chr 0]) b1) as (b2 & -> & Hi2 & Hc2 & Hr2 & Hw2);
    [done|left; unfold max_size, kCheapPrepend in *; lia|]. cbn [mbind res_bind].
  destruct (serialize_spec 0 m b2 Hm Hi2 ltac:(lia)) as (b3 & -> & Hi3 & Hc3 & Hr3 & Hw3);
    [left; unfold max_size, kCheapPrepend in *; lia|]. cbn [mbind res_bind].
  assert (Hin : content b3 = pb_inner m) by (rewrite Hc3, Hc2, Hc1, Hc; unfold pb_inner; by rewrite <- !(assoc_L app)).
  assert (Hr8 : readerIndex_ b3 = kCheapPrepend) by (unfold reader_moved in *; lia).
  destruct (seal_spec b3 Hi3) as (b4 & E & Hi4 & Hc4); [unfold kCheapPrepend in *; lia|done|unfold kCheapPrepend in *; lia|].
  rewrite Hin, zlen_pb_inner in * by done. exists b4. rewrite E. split_and!; [done|done|]. by rewrite Hc4, zlen_sealed, zlen_pb_inner.
Qed.

(** ** Parsing *)

Lemma of_be_sint l : length l = 4%nat -> be_bytes 4 (sint 32 (of_be_bytes l)) = l.
Proof. intros Hl. rewrite be_bytes_sint. rewrite <- Hl at 1. apply be_bytes_of_be. Qed.

(** A frame body with a name, its terminator, data and the right checksum. *)
Definition valid_body (body : list char) (m : M) : Prop :=
  exists name z data p,
    body = sealed (be_bytes 4 (zlen name + 1) ++ name ++ [z] ++ data) /\ 1 <= zlen name /\
    FindPrototype name = Some p /\ ParseFromArray p data = Some m.

Lemma valid_body_parses body m : valid_body body m -> zlen body <= kMaxMessageLen -> parse body (zlen body) = Ok (Some m, kNoError).
Proof.
  intros (name & z & data & p & -> & Hn & Hp & Hd) Hmax. unfold parse, kHeaderLen, kMaxMessageLen in *.
  set (inner := be_bytes 4 (zlen name + 1) ++ name ++ [z] ++ data) in *.
  assert (Hin : zlen inner = 6 + (zlen name - 1) + zlen data)
    by (unfold inner; rewrite !zlen_app, zlen_be4; change (zlen [z]) with 1; lia).
  rewrite zlen_sealed in *. pose proof (zlen_nonneg data). replace (zlen inner + 4 - 4) with (zlen inner) by lia.
  rewrite (asInt32_ok _ (zlen inner)), (asInt32_ok _ 0), (read_range_ok _ 0 (zlen inner)) by (rewrite ?zlen_sealed; lia). cbn [mbind res_bind].
  unfold sealed. rewrite (slice_app_l 0) by lia. rewrite slice_full. rewrite slice_app_r by lia.
  replace (zlen inner - zlen inner) with 0 by lia. replace (zlen inner + 4 - zlen inner) with 4 by lia.
  rewrite slice_0_4, take_ge by (rewrite length_be_bytes; lia). rewrite of_be_be_bytes.
  change (8 * Z.of_nat 4) with 32. rewrite sint_uint by lia. fold (checksum (inner)). rewrite Z.eqb_refl.
  cbn [mbind res_bind]. fold (sealed inner). change (0 + 4) with 4.
  assert (Hsl : forall l1 l2 l3 i j, sealed inner = l1 ++ l2 ++ l3 -> i = zlen l1 -> j = zlen l1 + zlen l2 ->
    slice i j (sealed inner) = l2) by (intros l1 l2 l3 i j -> ? ?; by apply slice_mid_at).
  rewrite (Hsl [] (be_bytes 4 (zlen name + 1)) (name ++ [z] ++ data ++ be_bytes 4 (adler32 inner)))
    by (unfold sealed, inner; rewrite ?zlen_be4, <- ?(assoc_L app); done).
  rewrite of_be_be_bytes. change (8 * Z.of_nat 4) with 32. rewrite sint_uint, sint_small by (unfold in_sint; lia).
  replace (_ && _) with true by lia. rewrite !read_range_ok by (rewrite ?zlen_sealed; lia). cbn [mbind res_bind].
  rewrite (Hsl (be_bytes 4 (zlen name + 1)) name ([z] ++ data ++ be_bytes 4 (adler32 inner)) 4 (4 + (zlen name + 1) - 1))
    by (unfold sealed, inner; rewrite ?zlen_be4, <- ?(assoc_L app); done || lia).
  unfold createMessage. rewrite Hp.
  rewrite (Hsl (be_bytes 4 (zlen name + 1) ++ name ++ [z]) data (be_bytes 4 (adler32 inner))), Hd; [done|..].
  - unfold sealed, inner. by rewrite <- ?(assoc_L app).
  - rewrite !zlen_app, zlen_be4. change (zlen [z]) with 1. lia.
  - rewrite !zlen_app, zlen_be4. change (zlen [z]) with 1. lia.
Qed.

(** The checksum test, as a statement about the body. *)
Lemma sealed_iff body (Hb : 4 <= zlen body) :
  checksum (slice 0 (zlen body - 4) body) = sint 32 (of_be_bytes (slice (zlen body - 4) (zlen body - 4 + 4) body)) <->
  body = sealed (slice 0 (zlen body - 4) body).
Proof.
  set (inner := slice 0 (zlen body - 4) body). replace (zlen body - 4 + 4) with (zlen body) by lia.
  set (last := slice (zlen body - 4) (zlen body) body).
  assert (Hcat : body = inner ++ last) by (unfold inner, last; rewrite slice_app by lia; by rewrite slice_full).
  assert (Hl : length last = 4%nat) by (pose proof (zlen_slice (zlen body - 4) (zlen body) body); fold last in H1; unfold zlen in *; lia).
  unfold sealed. split.
  - intros E. rewrite Hcat at 1. f_equal. rewrite <- (of_be_sint last Hl), <- E. unfold checksum. apply be_bytes_sint.
  - intros E. rewrite Hcat in E at 1. apply app_inv_head in E. rewrite E, of_be_be_bytes.
    change (8 * Z.of_nat 4) with 32. by rewrite sint_uint.
Qed.

Lemma sealed_inner inner : slice 0 (zlen (sealed inner) - 4) (sealed inner) = inner.
Proof. rewrite zlen_sealed, Z.add_simpl_r. unfold sealed. rewrite slice_app_l by (pose proof (zlen_nonneg inner); lia). apply slice_full. Qed.

Lemma parsed_valid_body body m :
  kMinMessageLen <= zlen body -> parse body (zlen body) = Ok (Some m, kNoError) -> valid_body body m.
Proof.
  unfold kMinMessageLen, parse, kHeaderLen. intros Hb.
  rewrite (asInt32_ok _ (zlen body - 4)), (asInt32_ok _ 0), (read_range_ok _ 0 (zlen body - 4)) by lia. cbn [mbind res_bind].
  destruct (checksum _ =? _) eqn:Ec; [|done]. apply Z.eqb_eq, sealed_iff in Ec; [|lia].
  set (nameLen := sint 32 (of_be_bytes (slice 0 (0 + 4) body))). destruct (_ && _) eqn:En; [|done].
  rewrite !read_range_ok by lia. cbn [mbind res_bind]. unfold createMessage.
  set (name := slice 4 (4 + nameLen - 1) body).
  assert (Hname : zlen name = nameLen - 1) by (unfold name; rewrite zlen_slice; lia).
  destruct (FindPrototype name) as [p|] eqn:Hp; [|done]. cbn [mbind res_bind].
  replace (4 + nameLen + (zlen body - nameLen - 2 * 4)) with (zlen body - 4) by lia.
  set (data := slice (4 + nameLen) (zlen body - 4) body). destruct (ParseFromArray p data) eqn:Hd; [|done]. intros [= ->].
  destruct (slice (4 + nameLen - 1) (4 + nameLen) body) as [|z [|]] eqn:Ez.
  1,3: pose proof (zlen_slice (4 + nameLen - 1) (4 + nameLen) body ltac:(lia) ltac:(lia) ltac:(lia)) as Hz; rewrite Ez in Hz;
    unfold zlen in Hz; cbn [length] in Hz; lia.
  exists name, z, data, p. split_and!; [|lia|done|done]. rewrite Ec at 1. f_equal. rewrite Hname. replace (nameLen - 1 + 1) with nameLen by lia.
  assert (Hfour : slice 0 4 body = be_bytes 4 nameLen).
  { unfold nameLen. rewrite of_be_sint; [done|]. apply Nat2Z.inj. apply (zlen_slice 0 4 body); lia. }
  rewrite <- Hfour, <- Ez. unfold name, data. rewrite (slice_app (4 + nameLen - 1)) by lia.
  rewrite (slice_app 4) by lia. by rewrite slice_app by lia.
Qed.

(** parse reads only the frame it was given and classifies every frame: it delivers a
    message exactly when the body is a known type's name, its terminator and data that
    protobuf parses to that message, sealed with the right checksum; and it reports a
    checksum error exactly when no content has that checksum. *)
Theorem protobuf_parse_correct body :
  kMinMessageLen <= zlen body <= kMaxMessageLen ->
  exists o e, parse body (zlen body) = Ok (o, e) /\
    (forall m, (o = Some m /\ e = kNoError) <-> valid_body body m) /\
    (e = kCheckSumError <-> forall inner, body <> sealed inner).
Proof.
  intros [Hb Hmax]. destruct (parse_total body Hb) as [[o e] E]. exists o, e. split_and!; [done|..].
  - intros m. split.
    + intros [-> ->]. by apply parsed_valid_body.
    + intros Hv. apply valid_body_parses in Hv; [|done]. rewrite E in Hv. by simplify_eq.
  - unfold kMinMessageLen, kHeaderLen in Hb. pose proof (sealed_iff body ltac:(lia)) as Hs.
    unfold parse, kHeaderLen in E. rewrite (asInt32_ok _ (zlen body - 4)), (read_range_ok _ 0 (zlen body - 4)) in E by lia.
    cbn [mbind res_bind] in E. destruct (checksum _ =? _) eqn:Ec.
    + apply Z.eqb_eq, Hs in Ec. split; [|intros Hno; by destruct (Hno _ Ec)]. intros ->. exfalso.
      inv_res E. destruct (_ && _); [|done]. inv_res E. destruct (createMessage _); [|done]. inv_res E.
      by destruct (ParseFromArray _ _).
    + injection E as <- <-. split; [|done]. intros _ inner Hin. rewrite Hin, sealed_inner in Hs. rewrite Hin, sealed_inner in Ec.
      apply Z.eqb_neq in Ec. by apply Ec, Hs.
Qed.

(** Messages whose type is known to the receiver and that survive serialisation. *)
Definition sendable (m : M) : Prop :=
  serialisable m /\ 1 <= zlen (GetTypeName m) /\ zlen (sealed (pb_inner m)) <= kMaxMessageLen /\
  exists p, FindPrototype (GetTypeName m) = Some p /\ ParseFromArray p (SerializeToArray m) = Some m.

Lemma sendable_frame m : sendable m -> frame_of pb_framing (be_bytes 4 (zlen (sealed (pb_inner m))) ++ sealed (pb_inner m)) m.
Proof.
  intros (Hm & Hn & Hmax & p & Hp & Hd). exists (sealed (pb_inner m)). split; [done|]. cbn [lo hi decode pb_framing].
  pose proof (zlen_pb_inner m Hm) as Hz. destruct Hm as [_ Hs]. pose proof (zlen_nonneg (SerializeToArray m)). split.
  - rewrite zlen_sealed in *. unfold kMinMessageLen, kHeaderLen. lia.
  - unfold pb_decode. rewrite (valid_body_parses _ m); [done| |done]. by exists (GetTypeName m), (chr 0), (SerializeToArray m), p.
Qed.
End Codecs.

(** [C37] ProtobufCodec delivers a stream of messages: what fillEmptyBuffer writes on a host
    of either byte order for any sendable messages, followed by the start of another frame
    and cut into reads in any way, comes out of onMessage on a host of either byte order as
    the same messages, once each and in order, without an error. *)
Theorem protobuf_stream (h1 h2 : Host) {M} `{Protobuf M} (adler32 : list char -> Z) (ms : list M) tail chunks fuel b :
  Forall (sendable adler32) ms -> incomplete (pb_framing (H := h2) adler32) tail ->
  inv b -> content b = [] -> (length (concat chunks) < fuel)%nat -> Forall (fun d => zlen d <= max_size) chunks ->
  exists wires,
    Forall2 (fun m w => exists b0 bs, newBuffer kInitialSize = Ok b0 /\
      fillEmptyBuffer (H := h1) adler32 m b0 = Ok bs /\ content bs = w) ms wires /\
    (concat chunks = concat wires ++ tail ->
     feed (FC := protobuf_codec (H := h2) adler32) fuel chunks b = Some (Fault LengthError) \/
     exists b', feed (FC := protobuf_codec (H := h2) adler32) fuel chunks b = Some (Ok (Delivered <$> ms, b')) /\
       content b' = tail).
Proof.
  intros Hms Ht Hi Hc Hf Hd. set (wire := fun m : M => be_bytes 4 (zlen (sealed adler32 (pb_inner m))) ++ sealed adler32 (pb_inner m)).
  exists (wire <$> ms). split.
  - induction Hms as [|m ms (Hm & Hn & Hmax & _) _ IH]; constructor; [|done].
    destruct (newBuffer_spec kInitialSize) as (b0 & E0 & Hi0 & Hc0 & Hr0 & Hw0 & _);
      [unfold kInitialSize, kCheapPrepend, max_size; lia..|].
    destruct (fillEmptyBuffer_spec (H := h1) adler32 m b0) as (bs & ? & _ & ?); try done. by exists b0, bs.
  - intros Hcat. destruct (codec_stream (FC := protobuf_codec (H := h2) adler32) fuel (wire <$> ms) ms tail chunks b)
      as [?|(b' & ? & _ & ?)]; try done; [|by left|right; by exists b'].
    clear -Hms. induction Hms as [|m ms Hm _ IH]; constructor; [|done]. exact (sendable_frame (H := h2) adler32 m Hm).
Qed.

(** ** ProtobufCodecLite *)

Section LiteTheory.
Context `{Host} {M : Type} `{Protobuf M} (adler32 : list char -> Z).
Context (tag_ : list char) (prototype_ : M) (rawCb_ : option (list char -> bool)).
Context (Htag : zlen tag_ + kChecksumLen <= kMaxMessageLen).

Definition lite_decode (body : list char) : ErrorCode + option M :=
  if match rawCb_ with Some cb => negb (cb (be_bytes 4 (zlen body) ++ body)) | None => false end then inr None
  else match lite_parse adler32 tag_ prototype_ body (zlen body) with
       | Ok (inr m) => inr (Some m)
       | Ok (inl e) => inl e
       | Fault _ => inl kParseError
       end.

Definition lite_framing : framing M ErrorCode :=
  mkFraming (zlen tag_ + kChecksumLen) kMaxMessageLen kInvalidLength lite_decode.

Lemma kMinLiteLen_eq : kMinLiteLen tag_ = zlen tag_ + kChecksumLen.
Proof using Htag.
  unfold kMinLiteLen. pose proof (zlen_nonneg tag_). unfold kMaxMessageLen, kChecksumLen in *.
  rewrite sint_small; [done|lia|unfold in_sint; lia].
Qed.

Lemma lite_parse_total body :
  zlen tag_ + kChecksumLen <= zlen body -> exists r, lite_parse adler32 tag_ prototype_ body (zlen body) = Ok r.
Proof.
  unfold lite_parse, validateChecksum, kChecksumLen. intros Hb. pose proof (zlen_nonneg tag_).
  rewrite asInt32_ok, (read_range_ok _ 0 (zlen body - 4)) by lia. cbn [mbind res_bind].
  destruct (checksum _ _ =? _); [|eauto].
  rewrite !read_range_ok by lia. cbn [mbind res_bind]. case_match; [|eauto]. case_match; eauto.
Qed.

Lemma lite_round_ok : round_ok (lite_round adler32 tag_ prototype_ rawCb_) lite_framing.
Proof using Htag.
  intros b Hi. unfold lite_round, frame_round, lite_framing. cbn [lo hi invalid decode]. rewrite kMinLiteLen_eq.
  rewrite readableBytes_content by done. pose proof (zlen_nonneg tag_). unfold kHeaderLen, kMaxMessageLen, kChecksumLen in *.
  rewrite uint_small by lia.
  destruct (zlen (content b) <? zlen tag_ + 4 + 4) eqn:E1; [replace (_ <=? _) with false by lia; by exists b|].
  replace (zlen tag_ + 4 + 4 <=? _) with true by lia. rewrite peek_header by (done || lia). cbn [mbind res_bind].
  destruct (_ || _) eqn:E2; [by exists b|]. rewrite uint_small by lia. rewrite (Z.add_comm 4 (header (content b))).
  destruct (header (content b) + 4 <=? zlen (content b)) eqn:E3; [|by exists b]. rewrite (Z.add_comm _ 4).
  pose proof (read_content_range b 0 (4 + header (content b)) Hi ltac:(lia) ltac:(lia) ltac:(lia)) as Hraw. rewrite Z.add_0_r in Hraw.
  rewrite Hraw, <- Z.add_assoc, (read_content_range b 4 (4 + header (content b))) by (done || lia). cbn [mbind res_bind].
  set (body := slice 4 (4 + header (content b)) (content b)).
  assert (Hz : zlen body = header (content b)) by (unfold body; rewrite zlen_slice; lia).
  assert (Hr4 : slice 0 (4 + header (content b)) (content b) = be_bytes 4 (zlen body) ++ body).
  { rewrite Hz, <- (slice_app _ 4) by lia. f_equal. unfold header. rewrite slice_0_4. rewrite of_be_sint; [done|].
    rewrite length_take. unfold zlen in *. lia. }
  rewrite Hr4. unfold lite_decode. rewrite <- Hz.
  destruct (retrieve_spec (4 + zlen body) b) as (b1 & Hr & Hi1 & Hc1 & _); [done|lia|].
  destruct (match rawCb_ with Some cb => _ | None => _ end); [rewrite Hr; by exists b1|].
  destruct (lite_parse_total body) as [[e|m] ->]; [unfold kChecksumLen; lia|by exists b|].
  cbn [mbind res_bind]. rewrite Hr. by exists b1.
Qed.

Definition lite_codec : FrameCodec M ErrorCode := {|
  codec_framing := lite_framing;
  codec_framing_ok := ltac:(unfold framing_ok, kHeaderLen; cbn; pose proof (zlen_nonneg tag_);
                            unfold kMaxMessageLen, kChecksumLen in *; lia);
  on_message := codec_loop (lite_round adler32 tag_ prototype_ rawCb_);
  on_message_frames n b es r s := codec_loop_frames _ lite_framing n b es r s lite_round_ok
|}.

Definition lite_body (m : M) : list char := sealed adler32 (tag_ ++ SerializeToArray m).

(** Messages of the codec's type that survive serialisation; the raw callback wants them. *)
Definition lite_sendable (m : M) : Prop :=
  serialisable m /\ zlen (lite_body m) <= kMaxMessageLen /\ ParseFromArray prototype_ (SerializeToArray m) = Some m /\
  match rawCb_ with Some cb => cb (be_bytes 4 (zlen (lite_body m)) ++ lite_body m) = true | None => True end.

Lemma lite_parse_body m : lite_sendable m -> lite_parse adler32 tag_ prototype_ (lite_body m) (zlen (lite_body m)) = Ok (inr m).
Proof.
  intros (Hm & Hmax & Hp & _). unfold lite_parse, validateChecksum, kChecksumLen. pose proof (zlen_nonneg tag_).
  pose proof (zlen_nonneg (SerializeToArray m)).
  assert (Hz : zlen (lite_body m) = zlen tag_ + zlen (SerializeToArray m) + 4) by (unfold lite_body; rewrite zlen_sealed, zlen_app; lia).
  rewrite asInt32_ok, (read_range_ok _ 0 (zlen (lite_body m) - 4)) by lia. cbn [mbind res_bind].
  assert (Hs : checksum adler32 (slice 0 (zlen (lite_body m) - 4) (lite_body m)) =
    sint 32 (of_be_bytes (slice (zlen (lite_body m) - 4) (zlen (lite_body m) - 4 + 4) (lite_body m)))).
  { apply sealed_iff; [lia|]. unfold lite_body. by rewrite sealed_inner. }
  rewrite Hs, Z.eqb_refl. cbn [mbind res_bind]. rewrite (read_range_ok _ 0 (zlen tag_)), (read_range_ok _ (zlen tag_)) by lia.
  cbn [mbind res_bind].
  assert (Hb : lite_body m = tag_ ++ SerializeToArray m ++ be_bytes 4 (adler32 (tag_ ++ SerializeToArray m)))
    by (unfold lite_body, sealed; by rewrite <- (assoc_L app)).
  replace (slice 0 (zlen tag_) (lite_body m)) with tag_ by (rewrite Hb, slice_app_l by lia; by rewrite slice_full).
  rewrite bool_decide_true by done. rewrite Hz, Hb. rewrite slice_mid_at by (done || lia). by rewrite Hp.
Qed.

Lemma lite_frame m : lite_sendable m -> frame_of lite_framing (be_bytes 4 (zlen (lite_body m)) ++ lite_body m) m.
Proof.
  intros Hs. pose proof Hs as (Hm & Hmax & Hp & Hraw). exists (lite_body m). split; [done|]. cbn [lo hi decode lite_framing]. split.
  - pose proof (zlen_nonneg (SerializeToArray m)). split; [|done]. unfold lite_body. rewrite zlen_sealed, zlen_app.
    unfold kChecksumLen. lia.
  - unfold lite_decode. rewrite lite_parse_body by done. destruct rawCb_; [|done]. by rewrite Hraw.
Qed.

Lemma lite_fill_spec m b :
  serialisable m -> zlen (lite_body m) <= kMaxMessageLen ->
  inv b -> content b = [] -> readerIndex_ b = kCheapPrepend -> writerIndex_ b = kCheapPrepend ->
  exists b', lite_fillEmptyBuffer adler32 tag_ m b = Ok b' /\ inv b' /\ content b' = be_bytes 4 (zlen (lite_body m)) ++ lite_body m.
Proof.
  intros Hm Hmax Hi Hc Hr Hw. pose proof Hm as [_ Hz]. unfold lite_body in *. rewrite zlen_sealed, zlen_app, Hz in Hmax.
  pose proof (zlen_nonneg tag_). pose proof (zlen_nonneg (SerializeToArray m)). unfold kMaxMessageLen in Hmax.
  unfold lite_fillEmptyBuffer. rewrite readableBytes_content, Hc by done. cbn [mbind res_bind check zlen length Z.of_nat Z.eqb].
  destruct (append_spec tag_ b) as (b1 & -> & Hi1 & Hc1 & Hr1 & Hw1); [done|left; unfold max_size, kCheapPrepend in *; lia|].
  cbn [mbind res_bind]. destruct (serialize_spec kChecksumLen m b1 Hm Hi1) as (b2 & -> & Hi2 & Hc2 & Hr2 & Hw2);
    [unfold kChecksumLen; lia|left; unfold kChecksumLen, max_size, kCheapPrepend in *; lia|]. cbn [mbind res_bind].
  assert (Hin : content b2 = tag_ ++ SerializeToArray m) by (by rewrite Hc2, Hc1, Hc).
  assert (Hr8 : readerIndex_ b2 = kCheapPrepend) by (unfold reader_moved in *; lia).
  destruct (seal_spec adler32 b2 Hi2) as (b3 & E & Hi3 & Hc3); [unfold kCheapPrepend in *; lia|done|unfold kCheapPrepend in *; lia|].
  rewrite Hin, zlen_app, Hz in *. exists b3. unfold kChecksumLen. rewrite E. split_and!; [done|done|].
  by rewrite Hc3, zlen_sealed, zlen_app, Hz.
Qed.
End LiteTheory.

(** ProtobufCodecLite (RpcCodec with tag "RPC0") delivers a stream of messages: what
    lite fillEmptyBuffer writes for any sendable messages, followed by the start of another
    frame and cut into reads in any way, comes out of onMessage as the same messages, once
    each and in order, without an error. *)
Theorem lite_stream (h1 h2 : Host) {M} `{Protobuf M} (adler32 : list char -> Z) tag_ (prototype_ : M) rawCb_
    (Htag : zlen tag_ + kChecksumLen <= kMaxMessageLen) (ms : list M) tail chunks fuel b :
  Forall (lite_sendable adler32 tag_ prototype_ rawCb_) ms ->
  incomplete (lite_framing (H := h2) adler32 tag_ prototype_ rawCb_) tail ->
  inv b -> content b = [] -> (length (concat chunks) < fuel)%nat -> Forall (fun d => zlen d <= max_size) chunks ->
  exists wires,
    Forall2 (fun m w => exists b0 bs, newBuffer kInitialSize = Ok b0 /\
      lite_fillEmptyBuffer (H := h1) adler32 tag_ m b0 = Ok bs /\ content bs = w) ms wires /\
    (concat chunks = concat wires ++ tail ->
     feed (FC := lite_codec (H := h2) adler32 tag_ prototype_ rawCb_ Htag) fuel chunks b = Some (Fault LengthError) \/
     exists b', feed (FC := lite_codec (H := h2) adler32 tag_ prototype_ rawCb_ Htag) fuel chunks b
         = Some (Ok (Delivered <$> ms, b')) /\ content b' = tail).
Proof.
  intros Hms Ht Hi Hc Hf Hd.
  set (wire := fun m : M => be_bytes 4 (zlen (lite_body adler32 tag_ m)) ++ lite_body adler32 tag_ m). exists (wire <$> ms). split.
  - induction Hms as [|m ms (Hm & Hmax & _) _ IH]; constructor; [|done].
    destruct (newBuffer_spec kInitialSize) as (b0 & E0 & Hi0 & Hc0 & Hr0 & Hw0 & _);
      [unfold kInitialSize, kCheapPrepend, max_size; lia..|].
    destruct (lite_fill_spec (H := h1) adler32 tag_ m b0) as (bs & ? & _ & ?); try done. by exists b0, bs.
  - intros Hcat. destruct (codec_stream (FC := lite_codec (H := h2) adler32 tag_ prototype_ rawCb_ Htag) fuel (wire <$> ms) ms tail chunks b)
      as [?|(b' & ? & _ & ?)]; try done; [|by left|right; by exists b'].
    clear -Hms. induction Hms as [|m ms Hm _ IH]; constructor; [|done]. exact (lite_frame (H := h2) adler32 tag_ prototype_ rawCb_ m Hm).
Qed.

(** ** Instances of the parameters

    adler32 as RFC 1950 defines it, and messages of one type that are byte strings. *)
Definition adler32_rfc1950 (bytes : list char) : Z :=
  let '(a, b) := foldl (fun '(a, b) c => let a := (a + ord c) mod 65521 in (a, (b + a) mod 65521)) (1, 0) bytes in
  b * 65536 + a.

Definition bytes_protobuf : Protobuf (list char) := {|
  GetTypeName _ := lit "T";
  IsInitialized _ := true;
  ByteSize := zlen;
  SerializeToArray m := m;
  FindPrototype n := if bool_decide (n = lit "T") then Some [] else None;
  ParseFromArray _ d := Some d
|}.

Lemma bytes_sendable m : zlen m <= 1000 -> sendable (H0 := bytes_protobuf) adler32_rfc1950 m.
Proof.
  intros Hm. pose proof (zlen_nonneg m). assert (Hs : serialisable (H0 := bytes_protobuf) m) by done.
  split_and!; [done|vm_compute; congruence| |].
  - rewrite zlen_sealed, zlen_pb_inner by done. cbn [ByteSize GetTypeName bytes_protobuf]. unfold kMaxMessageLen. change (zlen (lit "T")) with 1. lia.
  - exists []. done.
Qed.

Lemma protobuf_parse_correct_witness :
  exists o e, parse (H := LittleEndian) (H0 := bytes_protobuf) adler32_rfc1950
      (sealed adler32_rfc1950 (pb_inner (H0 := bytes_protobuf) (lit "hi"))) 12 = Ok (o, e) /\ e <> kCheckSumError.
Proof.
  destruct (protobuf_parse_correct (H := LittleEndian) (H0 := bytes_protobuf) adler32_rfc1950
    (sealed adler32_rfc1950 (pb_inner (H0 := bytes_protobuf) (lit "hi")))) as (o & e & E & _ & H).
  - vm_compute. split; congruence.
  - exists o, e. split; [exact E|]. intros ->. by eapply H.
Defined.

(** One frame for "hi" from a little-endian to a big-endian host, cut in its header. *)
Definition pb_wire : list char :=
  be_bytes 4 12 ++ sealed adler32_rfc1950 (pb_inner (H0 := bytes_protobuf) (lit "hi")).

Lemma protobuf_stream_witness :
  exists b', feed (FC := protobuf_codec (H := BigEndian) (H0 := bytes_protobuf) adler32_rfc1950) 20
      [take 3 pb_wire; drop 3 pb_wire ++ [chr 0]] empty_buffer = Some (Ok ([Delivered (lit "hi")], b')) /\
    content b' = [chr 0].
Proof.
  destruct (protobuf_stream LittleEndian BigEndian (H := bytes_protobuf) adler32_rfc1950 [lit "hi"] [chr 0]
    [take 3 pb_wire; drop 3 pb_wire ++ [chr 0]] 20 empty_buffer) as (ws & Hw & Hs); try apply empty_buffer_ok.
  - constructor; [|constructor]. apply bytes_sendable. vm_compute. congruence.
  - left. vm_compute. reflexivity.
  - vm_compute. lia.
  - repeat constructor; vm_compute; congruence.
  - destruct Hs as [Hs|Hs]; [|vm_compute in Hs; discriminate Hs|exact Hs].
    inversion Hw as [|m1 w1 ? ? (b0 & b1 & E0 & E1 & <-) Hw']; subst. inversion Hw'; subst.
    vm_compute in E0. injection E0 as <-. vm_compute in E1. injection E1 as <-. vm_compute. reflexivity.
Defined.

Definition lite_wire : list char :=
  be_bytes 4 10 ++ lite_body (H0 := bytes_protobuf) adler32_rfc1950 (lit "RPC0") (lit "hi").

Lemma rpc_tag_short : zlen (lit "RPC0") + kChecksumLen <= kMaxMessageLen.
Proof. vm_compute. congruence. Qed.

Lemma lite_stream_witness :
  exists b', feed (FC := lite_codec (H := BigEndian) (H0 := bytes_protobuf) adler32_rfc1950 (lit "RPC0") [] None rpc_tag_short) 20
      [take 7 lite_wire; drop 7 lite_wire] empty_buffer = Some (Ok ([Delivered (lit "hi")], b')) /\ content b' = [].
Proof.
  destruct (lite_stream LittleEndian BigEndian (H := bytes_protobuf) adler32_rfc1950 (lit "RPC0") [] None rpc_tag_short [lit "hi"] []
    [take 7 lite_wire; drop 7 lite_wire] 20 empty_buffer) as (ws & Hw & Hs); try apply empty_buffer_ok.
  - constructor; [|constructor]. by split_and!.
  - left. vm_compute. reflexivity.
  - vm_compute. lia.
  - repeat constructor; vm_compute; congruence.
  - destruct Hs as [Hs|Hs]; [|vm_compute in Hs; discriminate Hs|exact Hs].
    inversion Hw as [|m1 w1 ? ? (b0 & b1 & E0 & E1 & <-) Hw']; subst. inversion Hw'; subst.
    vm_compute in E0. injection E0 as <-. vm_compute in E1. injection E1 as <-. vm_compute. reflexivity.
Defined.
