(* ===== verification/Rpc.v ===== *)
(** * Remote procedure calls (src/protorpc/RpcChannel.h, RpcChannel.cc, RpcServer.cc,
      rpc.proto)

    Both ends of a connection are an [RpcChannel].  [RpcMessage] is the message of rpc.proto;
    how it travels is the subject of ProtobufCodec.v ([lite_stream]), so here the two
    directions of the connection are queues of messages.  Services are user code: which
    methods a service has and which requests parse are parameters; a service may run the
    closure it was given at any later time, with any response.

    Ghost fields of a channel: [completed], the calls whose closure ran, with the response
    bytes if there were any; [serving], the calls handed to a service whose closure has not
    run yet; [replied], the responses services gave. *)

From S2P Require Import Prelude.

Abbreviation bytes := (list char).

Inductive MessageType := REQUEST | RESPONSE | ERROR.
Inductive RpcErrorCode := NO_ERROR | WRONG_PROTO | NO_SERVICE | NO_METHOD | INVALID_REQUEST | INVALID_RESPONSE | TIMEOUT.

#[global] Instance RpcErrorCode_eq_dec : EqDecision RpcErrorCode.
Proof. solve_decision. Defined.

Record RpcMessage := mkRpc {
  rtype : MessageType;
  rid : Z;                          (* fixed64 *)
  rservice : option bytes;
  rmethod : option bytes;
  rrequest : option bytes;
  rresponse : option bytes;
  rerror : option RpcErrorCode
}.

Section Rpc.
Context {Service Method Request : Type}.
Context (FindMethodByName : Service -> bytes -> option Method).
Context (ParseRequest : Method -> bytes -> option Request).

(** response and done of a call: whether the pointers are not NULL *)
Record OutstandingCall := mkOut { out_response : bool; out_done : bool }.

Record RpcChannel := mkChannel {
  id_ : Z;
  outstandings_ : gmap Z OutstandingCall;
  services_ : option (gmap bytes Service);
  completed : list (Z * option bytes);
  serving : list (Z * Method * Request);
  replied : list (Z * bytes)
}.

Definition newRpcChannel (services : option (gmap bytes Service)) : RpcChannel := mkChannel 0 ∅ services [] [] [].

(** [CallMethod]: the message handed to the codec. *)
Definition CallMethod (service method request : bytes) (response done : bool) (c : RpcChannel) : RpcMessage * RpcChannel :=
  let id := sint 64 (id_ c + 1) in
  (mkRpc REQUEST (uint 64 id) (Some service) (Some method) (Some request) None None,
   mkChannel id (<[id := mkOut response done]> (outstandings_ c)) (services_ c) (completed c) (serving c) (replied c)).

Definition error_reply (id : Z) (e : RpcErrorCode) : RpcMessage := mkRpc RESPONSE id None None None None (Some e).

(** An unset string field reads as the empty string. *)
Definition field (o : option bytes) : bytes := default [] o.

(** The branch for requests: an error, or the method and its request. *)
Definition find_request (message : RpcMessage) (c : RpcChannel) : RpcErrorCode + Method * Request :=
  match services_ c with
  | None => inl NO_SERVICE
  | Some services =>
      match services !! field (rservice message) with
      | None => inl NO_SERVICE
      | Some service =>
          match FindMethodByName service (field (rmethod message)) with
          | None => inl NO_METHOD
          | Some method =>
              match ParseRequest method (field (rrequest message)) with
              | None => inl INVALID_REQUEST
              | Some request => inr (method, request)
              end
          end
      end
  end.

(** [onRpcMessage]: what is sent, and the channel. *)
Definition onRpcMessage (message : RpcMessage) (c : RpcChannel) : res (list RpcMessage * RpcChannel) :=
  match rtype message with
  | RESPONSE =>
      let id := sint 64 (rid message) in
      _ ← check (bool_decide (is_Some (rresponse message)) || bool_decide (is_Some (rerror message)));
      match outstandings_ c !! id with
      | None => Ok ([], c)
      | Some out =>
          Ok ([], mkChannel (id_ c) (delete id (outstandings_ c)) (services_ c)
                    (if out_response out && out_done out then completed c ++ [(id, rresponse message)] else completed c)
                    (serving c) (replied c))
      end
  | REQUEST =>
      match find_request message c with
      | inl e => Ok ([error_reply (rid message) e], c)
      | inr (method, request) =>
          let id := sint 64 (rid message) in
          Ok ([], mkChannel (id_ c) (outstandings_ c) (services_ c) (completed c)
                    (serving c ++ [(id, method, request)]) (replied c))
      end
  | ERROR => Ok ([], c)
  end.

(** [doneCallback]: the service runs the closure of its [k]-th open call. *)
Definition doneCallback (k : nat) (response : bytes) (c : RpcChannel) : option (RpcMessage * RpcChannel) :=
  match serving c !! k with
  | None => None
  | Some (id, _, _) =>
      Some (mkRpc RESPONSE (uint 64 id) None None None (Some response) None,
            mkChannel (id_ c) (outstandings_ c) (services_ c) (completed c) (take k (serving c) ++ drop (S k) (serving c))
              (replied c ++ [(id, response)]))
  end.

(** ** A client and a server *)

(** A call as the client made it. *)
Record call := mkCall { c_service : bytes; c_method : bytes; c_request : bytes }.

Record net := mkNet {
  client : RpcChannel;
  server : RpcChannel;
  to_server : list RpcMessage;
  to_client : list RpcMessage;
  calls : list call                (* ghost: call number i+1 *)
}.

Inductive action :=
| Call (service method request : bytes)
| ServerReceives
| ServiceReplies (k : nat) (response : bytes)
| ClientReceives.

(** A step, [None] when it is not possible. *)
Definition perform (a : action) (n : net) : option (res net) :=
  match a with
  | Call service method request =>
      if id_ (client n) <? 2 ^ 63 - 1 then
        let '(m, c) := CallMethod service method request true true (client n) in
        Some (Ok (mkNet c (server n) (to_server n ++ [m]) (to_client n) (calls n ++ [mkCall service method request])))
      else None
  | ServerReceives =>
      match to_server n with
      | [] => None
      | m :: q => Some ('(out, s) ← onRpcMessage m (server n); Ok (mkNet (client n) s q (to_client n ++ out) (calls n)))
      end
  | ServiceReplies k response =>
      match doneCallback k response (server n) with
      | Some (m, s) => Some (Ok (mkNet (client n) s (to_server n) (to_client n ++ [m]) (calls n)))
      | None => None
      end
  | ClientReceives =>
      match to_client n with
      | [] => None
      | m :: q => Some ('(out, c) ← onRpcMessage m (client n); Ok (mkNet c (server n) (to_server n ++ out) q (calls n)))
      end
  end.

Definition net_init (services : option (gmap bytes Service)) : net :=
  mkNet (newRpcChannel None) (newRpcChannel services) [] [] [].

Inductive reachable (services : option (gmap bytes Service)) : net -> Prop :=
| ReachInit : reachable services (net_init services)
| ReachStep a n n' : reachable services n -> perform a n = Some (Ok n') -> reachable services n'.

(** ** Specification *)

(** What the server is to do with a call. *)
Definition resolve (services : option (gmap bytes Service)) (c : call) : RpcErrorCode + Method * Request :=
  let service := services ≫= (.!! c_service c) in
  let method := service ≫= fun s => FindMethodByName s (c_method c) in
  let request := method ≫= fun m => ParseRequest m (c_request c) in
  match service, method, request with
  | Some _, Some m, Some r => inr (m, r)
  | Some _, Some _, None => inl INVALID_REQUEST
  | Some _, None, _ => inl NO_METHOD
  | None, _, _ => inl NO_SERVICE
  end.

(** An answer to call [id]: a response the service gave for it, or an error for a call that
    resolves to none. *)
Definition answer_ok (services : option (gmap bytes Service)) (n : net) (id : Z) (o : option bytes) : Prop :=
  exists c, calls n !! Z.to_nat (id - 1) = Some c /\ 1 <= id /\
    match o with
    | Some r => (id, r) ∈ replied (server n) /\ exists mr, resolve services c = inr mr
    | None => exists e, resolve services c = inl e
    end.

Definition mid (m : RpcMessage) : Z := sint 64 (rid m).

(** Where the calls are. *)
Definition places (n : net) : list Z :=
  (mid <$> to_server n) ++ ((fun x => x.1.1) <$> serving (server n)) ++ (mid <$> to_client n) ++ (fst <$> completed (client n)).

Record rpc_inv (services : option (gmap bytes Service)) (n : net) : Prop := {
  ri_id : id_ (client n) = Z.of_nat (length (calls n)) /\ Z.of_nat (length (calls n)) < 2 ^ 63;
  ri_services : services_ (server n) = services;
  ri_places : places n ≡ₚ seqZ 1 (Z.of_nat (length (calls n)));
  ri_out : forall id, outstandings_ (client n) !! id =
    if bool_decide (1 <= id <= Z.of_nat (length (calls n)) /\ id ∉ (fst <$> completed (client n))) then Some (mkOut true true) else None;
  ri_requests : Forall (fun m => exists c, calls n !! Z.to_nat (mid m - 1) = Some c /\ 1 <= mid m /\ rid m = mid m /\
    rtype m = REQUEST /\ rservice m = Some (c_service c) /\ rmethod m = Some (c_method c) /\ rrequest m = Some (c_request c)) (to_server n);
  ri_serving : Forall (fun x => exists c, calls n !! Z.to_nat (x.1.1 - 1) = Some c /\ 1 <= x.1.1 /\
    resolve services c = inr (x.1.2, x.2)) (serving (server n));
  ri_responses : Forall (fun m => rtype m = RESPONSE /\ answer_ok services n (mid m) (rresponse m) /\
    (is_Some (rresponse m) \/ is_Some (rerror m))) (to_client n);
  ri_completed : Forall (fun x => answer_ok services n x.1 x.2) (completed (client n));
  ri_replied : NoDup (fst <$> replied (server n)) /\
    forall id, id ∈ (fst <$> replied (server n)) -> id ∈ (mid <$> to_client n) ++ (fst <$> completed (client n))
}.

Lemma find_request_resolve m ch services c :
  services_ ch = services -> rservice m = Some (c_service c) -> rmethod m = Some (c_method c) ->
  rrequest m = Some (c_request c) -> find_request m ch = resolve services c.
Proof.
  intros H1 H2 H3 H4. unfold resolve, find_request. rewrite H1, H2, H3, H4. destruct services as [m0|]; [|done].
  cbn. destruct (m0 !! c_service c) as [s|]; [|done]. cbn.
  destruct (FindMethodByName s (c_method c)) as [me|]; [|done]. cbn. by destruct (ParseRequest me _).
Qed.

Lemma id_wire id : 1 <= id < 2 ^ 63 -> uint 64 id = id /\ sint 64 id = id.
Proof. intros H. split; [apply uint_small; lia|apply sint_small; [lia|unfold in_sint; lia]]. Qed.

Lemma answer_ok_mono services n n' id o :
  answer_ok services n id o -> (exists l, calls n' = calls n ++ l) -> (exists l, replied (server n') = replied (server n) ++ l) ->
  answer_ok services n' id o.
Proof.
  intros (c & Hc & H1 & Ho) [l Hl] [l' Hl']. exists c. rewrite Hl, Hl'. split_and!; [by apply lookup_app_l_Some|done|].
  destruct o; [|done]. destruct Ho as [Hr ?]. split; [|done]. apply elem_of_app. by left.
Qed.

Lemma places_nodup services n : rpc_inv services n -> NoDup (places n).
Proof. intros Hi. rewrite (ri_places _ _ Hi). apply NoDup_seqZ. Qed.

Lemma places_range services n id : rpc_inv services n -> id ∈ places n -> 1 <= id <= Z.of_nat (length (calls n)).
Proof. intros Hi. rewrite (ri_places _ _ Hi), elem_of_seqZ. lia. Qed.

Lemma perm_snoc {A} (a b : list A) x : (a ++ [x]) ++ b ≡ₚ (a ++ b) ++ [x].
Proof. rewrite <- !(assoc_L app). by rewrite (comm app [x]). Qed.

Lemma perm_move {A} (a b c : list A) x : (x :: a) ++ b ++ c ≡ₚ a ++ (b ++ [x]) ++ c.
Proof. cbn. rewrite <- !(assoc_L app). cbn. by rewrite <- !Permutation_middle. Qed.

Lemma call_inv services s m r n n' :
  rpc_inv services n -> perform (Call s m r) n = Some (Ok n') -> rpc_inv services n'.
Proof.
  intros Hi. cbn [perform CallMethod]. destruct (id_ (client n) <? 2 ^ 63 - 1) eqn:E; [|done]. intros [= <-].
  destruct (ri_id _ _ Hi) as [Hid Hlt]. rewrite Hid in *. set (N := Z.of_nat (length (calls n))) in *.
  assert (HN : 0 <= N) by (unfold N; lia). destruct (id_wire (N + 1) ltac:(lia)) as [Hu Hs].
  assert (Hlen : Z.of_nat (length (calls n ++ [mkCall s m r])) = N + 1) by (rewrite length_app; cbn; lia).
  assert (Hmono : exists l, calls n ++ [mkCall s m r] = calls n ++ l) by eauto.
  assert (Hrep : exists l, replied (server n) = replied (server n) ++ l) by (exists []; by rewrite app_nil_r).
  split; cbn [client server to_server to_client calls id_ outstandings_ completed serving]; rewrite ?Hlen, ?Hs.
  - lia.
  - apply Hi.
  - pose proof (ri_places _ _ Hi) as Hp. unfold places in *. cbn [client server to_server to_client completed serving].
    rewrite fmap_app. cbn [fmap list_fmap]. rewrite perm_snoc, Hp. unfold mid. cbn [rid]. rewrite Hu, Hs.
    rewrite (seqZ_app 1 N 1) by lia. replace (seqZ (1 + N) 1) with [N + 1]; [done|].
    rewrite (Z.add_comm 1 N). by rewrite seqZ_cons by lia.
  - intros id. destruct (decide (id = N + 1)) as [->|Hne].
    + rewrite lookup_insert_eq, bool_decide_true; [done|]. split; [lia|]. intros Hin.
      assert (N + 1 ∈ places n) as Hpl%(places_range services n _ Hi) by (unfold places; rewrite !elem_of_app; auto). lia.
    + rewrite lookup_insert_ne, (ri_out _ _ Hi) by done. fold N.
      case_bool_decide as H1; case_bool_decide as H2; try done; exfalso; [apply H2|apply H1]; (split; [lia|]); by destruct_and!.
  - apply Forall_app. split.
    + eapply Forall_impl; [apply (ri_requests _ _ Hi)|]. intros x (c & Hc & ?). exists c. split; [by apply lookup_app_l_Some|done].
    + constructor; [|constructor]. exists (mkCall s m r). unfold mid. cbn [rid rtype rservice rmethod rrequest]. rewrite Hu, Hs.
      split_and!; try done; [|lia]. rewrite Z.add_simpl_r. unfold N. rewrite Nat2Z.id. by apply list_lookup_middle.
  - eapply Forall_impl; [apply (ri_serving _ _ Hi)|]. intros x (c & Hc & ?). exists c. split; [by apply lookup_app_l_Some|done].
  - eapply Forall_impl; [apply (ri_responses _ _ Hi)|]. intros x (H1 & H2 & H3). split_and!; [done| |done]. by eapply answer_ok_mono.
  - eapply Forall_impl; [apply (ri_completed _ _ Hi)|]. intros x H. eapply answer_ok_mono; [exact H|done|done].
  - apply (ri_replied _ _ Hi).
Qed.

Lemma forall_answers services n n' :
  calls n' = calls n -> (exists l, replied (server n') = replied (server n) ++ l) ->
  (forall l, Forall (fun x => answer_ok services n x.1 x.2) l -> Forall (fun x => answer_ok services n' x.1 x.2) l) /\
  (forall l, Forall (fun m => rtype m = RESPONSE /\ answer_ok services n (mid m) (rresponse m) /\
     (is_Some (rresponse m) \/ is_Some (rerror m))) l ->
   Forall (fun m => rtype m = RESPONSE /\ answer_ok services n' (mid m) (rresponse m) /\
     (is_Some (rresponse m) \/ is_Some (rerror m))) l).
Proof.
  intros Hc Hr. assert (Hc' : exists l, calls n' = calls n ++ l) by (exists []; by rewrite app_nil_r). split; intros l H.
  - eapply Forall_impl; [exact H|]. intros x Hx. eapply answer_ok_mono; [exact Hx|done|done].
  - eapply Forall_impl; [exact H|]. intros x (H1 & H2 & H3). split_and!; [done| |done]. by eapply answer_ok_mono.
Qed.

Lemma receive_request_inv services n n' :
  rpc_inv services n -> perform ServerReceives n = Some (Ok n') -> rpc_inv services n'.
Proof.
  intros Hi. cbn [perform]. pose proof (ri_requests _ _ Hi) as Hq. pose proof (ri_places _ _ Hi) as Hp.
  destruct (to_server n) as [|m q] eqn:Eq; [done|]. apply Forall_cons in Hq as [(c & Hc & H1 & Hrid & Ht & Hs & Hm & Hr) Hq].
  unfold onRpcMessage. rewrite Ht. rewrite (find_request_resolve m (server n) services c (ri_services _ _ Hi) Hs Hm Hr).
  assert (Hrep : exists l, replied (server n) = replied (server n) ++ l) by (exists []; by rewrite app_nil_r).
  destruct (resolve services c) as [e|[me rq]] eqn:Er; cbn [mbind res_bind]; intros [= <-]; rewrite ?app_nil_r.
  - assert (Hans : answer_ok services n (mid m) None) by (exists c; eauto).
    split; cbn [client server to_server to_client calls]; try apply Hi; try done.
    + unfold places in *. cbn [client server to_server to_client]. rewrite Eq in Hp. rewrite fmap_app. cbn [fmap list_fmap] in *.
      rewrite <- Hp. unfold mid at 3. cbn [error_reply rid]. fold (mid m). rewrite <- (assoc_L app). cbn [app].
      rewrite <- !Permutation_middle. done.
    + apply Forall_app. split; [apply (forall_answers services n _ eq_refl Hrep), Hi|]. constructor; [|constructor].
      cbn. split_and!; [done| |eauto]. by apply (answer_ok_mono services n); [|exists []; by rewrite app_nil_r|].
    + split; [apply (ri_replied _ _ Hi)|]. intros id Hid. destruct (ri_replied _ _ Hi) as [_ Hsub]. specialize (Hsub id Hid).
      rewrite fmap_app. set_solver.
  - split; cbn [client server to_server to_client calls services_ serving replied]; try apply Hi; try done.
    + unfold places in *. cbn [client server to_server to_client serving]. rewrite Eq in Hp. rewrite fmap_app. cbn [fmap list_fmap] in *.
      rewrite <- Hp. cbn [fst]. fold (mid m). symmetry. apply perm_move.
    + apply Forall_app. split; [apply Hi|]. constructor; [|constructor]. exists c. cbn. fold (mid m). by rewrite Er.
Qed.

Lemma replies_inv services k r n n' :
  rpc_inv services n -> perform (ServiceReplies k r) n = Some (Ok n') -> rpc_inv services n'.
Proof.
  intros Hi. cbn [perform doneCallback]. unfold doneCallback. destruct (serving (server n) !! k) as [[[id me] rq]|] eqn:Ek; [|done].
  intros [= <-]. pose proof (take_drop_middle _ _ _ Ek) as Hsplit.
  destruct (proj1 (Forall_lookup _ _) (ri_serving _ _ Hi) k _ Ek) as (c & Hc & H1 & Hres). cbn [fst snd] in *.
  pose proof (ri_places _ _ Hi) as Hp. pose proof (places_nodup _ _ Hi) as Hnd. destruct (ri_id _ _ Hi) as [_ Hlt].
  assert (Hin : id ∈ ((fun x => x.1.1) <$> serving (server n))).
  { apply list_elem_of_fmap. exists (id, me, rq). split; [done|]. by eapply list_elem_of_lookup_2. }
  assert (Hrange : 1 <= id <= Z.of_nat (length (calls n))).
  { apply (places_range services n _ Hi). unfold places. rewrite !elem_of_app. auto. }
  destruct (id_wire id ltac:(lia)) as [Hu Hs].
  assert (Hnew : id ∉ (fst <$> replied (server n))).
  { intros Hr%(proj2 (ri_replied _ _ Hi)). unfold places in Hnd. apply NoDup_app in Hnd as (_ & _ & Hnd).
    apply NoDup_app in Hnd as (_ & Hd & _). by apply (Hd id). }
  set (n' := mkNet _ _ _ _ _).
  assert (Hrep : exists l, replied (server n') = replied (server n) ++ l) by (by eexists).
  destruct (forall_answers services n n' eq_refl Hrep) as [Hf1 Hf2].
  split; unfold n'; cbn [client server to_server to_client calls services_ serving replied]; try apply Hi.
  - unfold places in *. cbn [client server to_server to_client serving completed]. rewrite <- Hsplit in Hp. rewrite <- Hp.
    rewrite !fmap_app. cbn [fmap list_fmap fst]. unfold mid at 3. cbn [rid]. rewrite Hu, Hs.
    rewrite <- !(assoc_L app). cbn [app]. by rewrite <- !Permutation_middle.
  - pose proof (ri_serving _ _ Hi) as Hse. rewrite <- Hsplit in Hse. apply Forall_app in Hse as [Hse1 Hse2].
    apply Forall_cons in Hse2 as [_ Hse2]. by apply Forall_app.
  - apply Forall_app. split; [apply Hf2, Hi|]. constructor; [|constructor]. cbn [rtype rresponse rerror]. unfold mid. cbn [rid].
    rewrite Hu, Hs. split_and!; [done| |eauto]. exists c. split_and!; [done|done| |eauto]. cbn. set_solver.
  - apply Hf1, Hi.
  - destruct (ri_replied _ _ Hi) as [Hn1 Hn2]. rewrite !fmap_app. cbn [fmap list_fmap fst]. split.
    + apply NoDup_app. split_and!; [done|set_solver|apply NoDup_singleton].
    + unfold mid at 2. cbn [rid]. rewrite Hu, Hs. intros x Hx. apply elem_of_app in Hx as [Hx|Hx]; [apply Hn2 in Hx; set_solver|set_solver].
Qed.

(** The client knows the call a response answers, and completes it. *)
Lemma client_receives services n m q :
  rpc_inv services n -> to_client n = m :: q ->
  mid m ∉ (fst <$> completed (client n)) /\ 1 <= mid m <= Z.of_nat (length (calls n)) /\
  perform ClientReceives n = Some (Ok (mkNet
    (mkChannel (id_ (client n)) (delete (mid m) (outstandings_ (client n))) (services_ (client n))
       (completed (client n) ++ [(mid m, rresponse m)]) (serving (client n)) (replied (client n)))
    (server n) (to_server n) q (calls n))).
Proof.
  intros Hi Eq. pose proof (ri_responses _ _ Hi) as Hq. rewrite Eq in Hq. apply Forall_cons in Hq as [(Ht & Ha & Hhas) Hq].
  pose proof (places_nodup _ _ Hi) as Hnd. unfold places in Hnd. rewrite Eq in Hnd. cbn [fmap list_fmap] in Hnd.
  apply NoDup_app in Hnd as (_ & _ & Hnd). apply NoDup_app in Hnd as (_ & _ & Hnd). apply NoDup_app in Hnd as (_ & Hd & _).
  assert (Hnc : mid m ∉ (fst <$> completed (client n))) by (apply Hd; by left).
  assert (Hr : 1 <= mid m <= Z.of_nat (length (calls n))).
  { apply (places_range services n _ Hi). unfold places. rewrite Eq. cbn [fmap list_fmap]. rewrite !elem_of_app. right; right; left. by left. }
  split_and!; [done|lia|lia|]. cbn [perform]. rewrite Eq. unfold onRpcMessage. rewrite Ht. fold (mid m).
  rewrite check_true by (destruct Hhas as [H|H]; [rewrite (bool_decide_true _ H)|rewrite (bool_decide_true _ H), orb_true_r]; done).
  cbn [mbind res_bind]. rewrite (ri_out _ _ Hi), bool_decide_true by done. cbn [out_response out_done andb mbind res_bind].
  by rewrite app_nil_r.
Qed.

Lemma receive_response_inv services n n' :
  rpc_inv services n -> perform ClientReceives n = Some (Ok n') -> rpc_inv services n'.
Proof.
  intros Hi H. destruct (to_client n) as [|m q] eqn:Eq; [cbn in H; by rewrite Eq in H|].
  destruct (client_receives services n m q Hi Eq) as (Hnc & Hr & E). rewrite E in H. injection H as <-. clear E.
  pose proof (ri_responses _ _ Hi) as Hq. rewrite Eq in Hq. apply Forall_cons in Hq as [(Ht & Ha & Hhas) Hq].
  pose proof (ri_places _ _ Hi) as Hp.
  split; cbn [client server to_server to_client calls id_ outstandings_ completed]; try apply Hi; try done.
  - unfold places in *. cbn [client server to_server to_client completed]. rewrite Eq in Hp. rewrite <- Hp, fmap_app.
    cbn [fmap list_fmap fst]. do 2 apply Permutation_app_head. rewrite (assoc_L app). by rewrite <- Permutation_cons_append.
  - intros id. rewrite fmap_app. cbn [fmap list_fmap fst]. destruct (decide (id = mid m)) as [->|Hne].
    + rewrite lookup_delete_eq, bool_decide_false; [done|]. intros [_ Hn]. apply Hn, elem_of_app. right. by left.
    + rewrite lookup_delete_ne, (ri_out _ _ Hi) by done.
      case_bool_decide as H1; case_bool_decide as H2; try done; exfalso; [apply H2|apply H1]; set_solver.
  - apply Forall_app. split; [apply Hi|]. by constructor.
  - destruct (ri_replied _ _ Hi) as [Hn1 Hn2]. split; [done|]. intros id Hid. specialize (Hn2 id Hid). rewrite Eq in Hn2.
    rewrite fmap_app. cbn [fmap list_fmap fst] in *. set_solver.
Qed.

Lemma rpc_step services a n n' : rpc_inv services n -> perform a n = Some (Ok n') -> rpc_inv services n'.
Proof.
  destruct a; [by apply call_inv|by apply receive_request_inv|by apply replies_inv|by apply receive_response_inv].
Qed.

Lemma rpc_reachable services n : reachable services n -> rpc_inv services n.
Proof.
  induction 1 as [|a n n' _ IH E]; [|by eapply rpc_step]. split; cbn; try done.
  - intros id. rewrite lookup_empty, bool_decide_false; [done|]. lia.
  - split; [constructor|]. intros id Hid. by apply elem_of_nil in Hid.
Qed.

(** [C36] Remote calls are answered once and with their own answer.  In every run of a client
    and a server over one connection, whatever the services answer and in whatever order:
    no assertion fails; no call is lost or answered twice (each is on the way to the
    server, in a service, on the way back, or completed); a call completes with a response
    its service gave for it when the server knows its service, method and request, with
    none when it does not; and when nothing is under way, every call has completed. *)
Theorem rpc_correct services n :
  reachable services n ->
  places n ≡ₚ seqZ 1 (Z.of_nat (length (calls n))) /\ NoDup (fst <$> completed (client n)) /\
  NoDup (fst <$> replied (server n)) /\
  (forall id o, (id, o) ∈ completed (client n) -> answer_ok services n id o) /\
  (forall a r, perform a n = Some r -> exists n', r = Ok n') /\
  (to_server n = [] -> serving (server n) = [] -> to_client n = [] ->
   length (completed (client n)) = length (calls n) /\ outstandings_ (client n) = ∅).
Proof.
  intros Hr. pose proof (rpc_reachable _ _ Hr) as Hi. pose proof (ri_places _ _ Hi) as Hp. split_and!.
  - done.
  - pose proof (places_nodup _ _ Hi) as Hnd. unfold places in Hnd. by apply NoDup_app in Hnd as (_ & _ & (_ & _ & (_ & _ & ?)%NoDup_app)%NoDup_app).
  - apply (ri_replied _ _ Hi).
  - intros id o Hin. apply (proj1 (Forall_forall _ _) (ri_completed _ _ Hi) _ Hin).
  - intros [s m rq| |k rsp|] r E.
    + cbn in E. destruct (_ <? _); [|done]. injection E as <-. eauto.
    + cbn in E. pose proof (ri_requests _ _ Hi) as Hq. destruct (to_server n) as [|m q]; [done|]. injection E as <-.
      apply Forall_cons in Hq as [(c & _ & _ & _ & Ht & _) _]. unfold onRpcMessage. rewrite Ht.
      destruct (find_request m (server n)) as [e|[me rq]]; cbn; eauto.
    + cbn in E. destruct (doneCallback k rsp (server n)) as [[m s]|]; [|done]. injection E as <-. eauto.
    + destruct (to_client n) as [|m q] eqn:Eq; [cbn in E; by rewrite Eq in E|].
      destruct (client_receives services n m q Hi Eq) as (_ & _ & E'). rewrite E' in E. injection E as <-. eauto.
  - unfold places in Hp. intros H1 H2 H3. rewrite H1, H2, H3 in Hp. cbn [fmap list_fmap app] in Hp. split.
    + pose proof (Permutation_length Hp) as Hl. rewrite length_fmap, length_seqZ in Hl. lia.
    + apply map_eq. intros id. rewrite lookup_empty, (ri_out _ _ Hi), bool_decide_false; [done|]. intros [Hr1 Hr2]. apply Hr2.
      rewrite Hp. apply elem_of_seqZ. lia.
Qed.

Fixpoint run (l : list action) (n : net) : option net :=
  match l with
  | [] => Some n
  | a :: l => match perform a n with Some (Ok n') => run l n' | _ => None end
  end.

Lemma run_reachable services l n n' : reachable services n -> run l n = Some n' -> reachable services n'.
Proof.
  revert n. induction l as [|a l IH]; intros n Hr; cbn [run]; [by intros [= <-]|].
  destruct (perform a n) as [[n1|]|] eqn:E; [|done..]. apply IH. by eapply ReachStep.
Qed.
End Rpc.

(** One service "S" with one method "m" that takes any request; a call of it and a call of an
    unknown method, answered in the other order. *)
Definition demo_find (_ : unit) (m : bytes) : option unit := if bool_decide (m = lit "m") then Some tt else None.
Definition demo_parse (_ : unit) (r : bytes) : option bytes := Some r.
Definition demo_services : option (gmap bytes unit) := Some {[ lit "S" := tt ]}.
Definition demo_run : option (@net unit unit bytes) :=
  run demo_find demo_parse
    [Call (lit "S") (lit "m") (lit "q"); Call (lit "S") (lit "x") []; ServerReceives; ServerReceives;
     ServiceReplies 0 (lit "ok"); ClientReceives; ClientReceives] (net_init demo_services).

Lemma rpc_correct_witness :
  exists n, demo_run = Some n /\ completed (client n) = [(2, None); (1, Some (lit "ok"))] /\
    outstandings_ (client n) = ∅.
Proof.
  destruct demo_run as [n|] eqn:E; [|vm_compute in E; discriminate E]. exists n. split; [done|].
  destruct (rpc_correct demo_find demo_parse demo_services n) as (_ & _ & _ & _ & _ & H).
  - eapply run_reachable; [apply ReachInit|exact E].
  - vm_compute in E. injection E as <-. split; [vm_compute; reflexivity|]. apply H; vm_compute; reflexivity.
Defined.
