(* ===== verification/EndToEnd.v ===== *)
(** * Messages from end to end

    A codec (Codec.v) on top of a connection (TcpConnection.v): one side sends whole frames
    through its TcpConnection, from its callbacks and from other threads; the network
    delivers some prefix of the bytes that went out, cut into reads in any way; the other
    side's codec takes them from its input buffer.  Everything the two components promise
    is used: whole messages in order on one side, framing independent of the cuts on the
    other. *)

From S2P Require Import Prelude Endian Buffer BufferTheory Channel TcpConnection TcpConnectionTheory Codec.

(** ** What a connection sends *)

Section Sender.
Context (P : list char -> Prop).
Context (kernel : nat -> bool -> list char -> written) (network : nat -> kernel_readv).
Context (user : event -> TcpConnection -> list api).

(** The user's callbacks send data of the kind [P] only, and do not echo the input. *)
Definition user_sends : Prop :=
  forall ev c a, a ∈ user ev c -> a <> ASendInput /\ forall d, a = ASend d -> P d.

(** So do the other threads. *)
Definition action_sends (a : action) : Prop := forall d, a = OtherSend d -> P d.

Inductive sending (c0 : TcpConnection) : TcpConnection -> Prop :=
| SendInit : sending c0 c0
| SendStep a c c' : sending c0 c -> enabled a c = true -> action_sends a -> perform kernel network user a c = Ok c' ->
    sending c0 c'.

Lemma sending_reachable c0 c : sending c0 c -> reachable kernel network user c0 c.
Proof. induction 1; [constructor|by eapply ReachStep]. Qed.

(** The bytes taken over are whole messages. *)
Definition whole (c : TcpConnection) : Prop :=
  (exists l, accepted c = concat l /\ Forall P l) /\ (forall d, TSendInLoop d ∈ functors c -> P d).

Lemma whole_same c c' :
  accepted c' = accepted c -> (forall d, TSendInLoop d ∈ functors c' -> TSendInLoop d ∈ functors c) -> whole c -> whole c'.
Proof. intros E H [Hl Hf]. split; [by rewrite E|naive_solver]. Qed.

Lemma whole_queue t c : (forall d, t = TSendInLoop d -> P d) -> whole c -> whole (queueInLoop t c).
Proof.
  intros Ht [Hl Hf]. split; [done|]. cbn. intros d [H|H%list_elem_of_singleton]%elem_of_app; [by apply Hf|by apply Ht].
Qed.

Lemma whole_accept d c : P d -> whole c -> whole (accept d c).
Proof.
  intros Hd [(l & Hl & Hp) Hf]. split; [|done]. exists (l ++ [d]). cbn. rewrite Hl, concat_app. cbn. rewrite app_nil_r.
  split; [done|]. apply Forall_app. split; [done|by apply Forall_singleton].
Qed.

(** The second half of sendInLoop: keep what was not written. *)
Definition keep_remaining (data : list char) (nwrote remaining : Z) (faultError : bool) (c1 : TcpConnection) : res TcpConnection :=
  _ ← check (remaining <=? zlen data);
  if negb faultError && (0 <? remaining) then
    let oldLen := readableBytes (outputBuffer_ c1) in
    let c2 := if (highWaterMark_ c1 <=? size_t (oldLen + remaining)) && (oldLen <? highWaterMark_ c1) && highWaterMarkCallback_ c1
              then queueInLoop (THighWaterMark (size_t (oldLen + remaining))) c1 else c1 in
    out ← append (take (Z.to_nat remaining) (drop (Z.to_nat nwrote) data)) (outputBuffer_ c2);
    let c3 := accept data (set_output out c2) in
    Ok (if negb (isWriting (channel_ c3)) then chan_enableWriting c3 else c3)
  else Ok (if faultError then c1 else accept data c1).

Lemma whole_keep data nwrote remaining faultError c1 c' :
  P data -> whole c1 -> keep_remaining data nwrote remaining faultError c1 = Ok c' -> whole c'.
Proof.
  intros Hd Hw H. unfold keep_remaining in H. inv_res H. destruct (negb faultError && _).
  - inv_res H. subst c'. match goal with |- whole (if _ then chan_enableWriting ?x else ?x) => assert (Hx : whole x) end.
    { apply whole_accept; [done|]. case_match; [|by apply whole_same with (c := c1)].
      eapply whole_same; [reflexivity| |apply whole_queue; [done|exact Hw]]. done. }
    destruct (negb (isWriting _)); [|exact Hx]. eapply whole_same; [reflexivity| |exact Hx]. done.
  - injection H as <-. destruct faultError; [done|]. by apply whole_accept.
Qed.

Lemma whole_sendInLoop data c c' : P data -> whole c -> sendInLoop kernel data c = Ok c' -> whole c'.
Proof.
  intros Hd Hw. unfold sendInLoop. case_match; [by intros [= <-]|].
  pose proof (fun n r f c1 => whole_keep data n r f c1 c' Hd) as Hk. unfold keep_remaining in Hk.
  destruct (negb _ && _); [|by apply Hk]. assert (Hc : forall d, whole (count_write d c)) by (intros d; by apply whole_same with (c := c)).
  destruct (kernel _ _ _); apply Hk; try done. case_match; [by apply whole_queue|done].
Qed.

Lemma whole_shutdownInLoop c : whole c -> whole (shutdownInLoop c).
Proof. intros. unfold shutdownInLoop. case_match; [|done]. by apply whole_same with (c := c). Qed.

Lemma whole_forceClose c : whole c -> whole (forceClose c).
Proof. intros. unfold forceClose. case_match; [|done]. apply whole_queue; [done|]. by apply whole_same with (c := c). Qed.

Lemma whole_startRead c : whole c -> whole (startReadInLoop c).
Proof. intros. unfold startReadInLoop. case_match; [|done]. by apply whole_same with (c := c). Qed.

Lemma whole_stopRead c : whole c -> whole (stopReadInLoop c).
Proof. intros. unfold stopReadInLoop. case_match; [|done]. by apply whole_same with (c := c). Qed.

Lemma whole_api a c c' :
  a <> ASendInput -> (forall d, a = ASend d -> P d) -> whole c -> run_api kernel a c = Ok c' -> whole c'.
Proof.
  intros Hn Hd Hw. destruct a as [d| | | | | | |n]; cbn [run_api]; try done.
  - unfold send. case_match; [|by intros [= <-]]. apply whole_sendInLoop; [by apply Hd|done].
  - intros [= <-]. unfold shutdown. case_match; [|done]. apply whole_shutdownInLoop. by apply whole_same with (c := c).
  - intros [= <-]. by apply whole_forceClose.
  - intros [= <-]. unfold forceCloseWithDelay. case_match; [|done]. by apply whole_same with (c := c).
  - intros [= <-]. by apply whole_startRead.
  - intros [= <-]. by apply whole_stopRead.
  - intros H. inv_res H. subst. by apply whole_same with (c := c).
Qed.

Context (Huser : user_sends).

Lemma whole_invoke e c c' : whole c -> invoke kernel user e c = Ok c' -> whole c'.
Proof using Huser.
  intros Hw. unfold invoke. assert (Hw1 : whole (emit e c)) by (by apply whole_same with (c := c)). pose proof (Huser e (emit e c)) as Hu.
  revert Hw1. set (l := user e (emit e c)) in *. clearbody l. generalize (emit e c) as c1. clear Hw c.
  induction l as [|a l IH]; intros c1 Hw1; cbn [run_apis]; [by intros [= <-]|]. intros H. inv_res H. destruct (Hu a (list_elem_of_here _ _)) as [Hn Hd].
  apply (IH (fun b Hb => Hu b (list_elem_of_further _ _ _ Hb)) a0); [|done]. by eapply whole_api.
Qed.

Lemma whole_down c c' : whole c -> invoke kernel user EvDown (chan_disableAll (setState kDisconnected c)) = Ok c' -> whole c'.
Proof using Huser. intros Hw. apply whole_invoke. by apply whole_same with (c := c). Qed.

Lemma whole_handleClose c c' : whole c -> handleClose kernel user c = Ok c' -> whole c'.
Proof using Huser.
  intros Hw H. unfold handleClose in H. inv_res H. subst c'. apply whole_queue; [done|].
  apply whole_same with (c := a0); [done..|]. by eapply whole_down.
Qed.

Lemma whole_connectDestroyed c c' : whole c -> connectDestroyed kernel user c = Ok c' -> whole c'.
Proof using Huser.
  intros Hw H. unfold connectDestroyed in H. inv_res H. subst c'. unfold chan_remove in Ha0. inv_res Ha0. subst a0.
  apply whole_same with (c := a); [done..|]. case_match; [by eapply whole_down|]. by injection Ha as <-.
Qed.

Lemma whole_callback cb c c' : whole c -> run_callback kernel network user cb c = Ok c' -> whole c'.
Proof using Huser.
  intros Hw. destruct cb; cbn [run_callback].
  - unfold handleRead. intros H. inv_res H. destruct a as [[n e] b]. assert (Hw1 : whole (set_input b (count_read c))) by (by apply whole_same with (c := c)).
    case_match; [by eapply whole_invoke|]. case_match; [by eapply whole_handleClose|]. by injection H as <-.
  - unfold handleWrite. destruct (isWriting _); [|by intros [= <-]]. intros H. inv_res H. destruct (kernel _ _ _) as [n| | |].
    2-4: injection H as <-; by apply whole_same with (c := c).
    assert (Hw1 : whole (count_write (take (Z.to_nat n) a) c)) by (by apply whole_same with (c := c)).
    case_match; [|by injection H as <-]. inv_res H. assert (Hw2 : whole (set_output a0 (count_write (take (Z.to_nat n) a) c))) by (by eapply whole_same; [| |exact Hw1]).
    case_match; [|by injection H as <-]. injection H as <-.
    match goal with |- whole (if _ then shutdownInLoop ?x else ?x) => assert (Hx : whole x); [|destruct (bool_decide _); [by apply whole_shutdownInLoop|exact Hx]] end.
    assert (Hw3 : whole (chan_disableWriting (set_output a0 (count_write (take (Z.to_nat n) a) c)))) by (by eapply whole_same; [| |exact Hw2]).
    destruct (writeCompleteCallback_ _); [by apply whole_queue|done].
  - by apply whole_handleClose.
  - by intros [= <-].
Qed.

Lemma whole_perform a c c' : action_sends a -> whole c -> perform kernel network user a c = Ok c' -> whole c'.
Proof using Huser.
  intros Ha Hw. destruct a as [|revents| |d| | | | | |]; cbn [perform].
  - unfold connectEstablished. intros H. inv_res H. eapply whole_invoke; [|done]. by apply whole_same with (c := c).
  - unfold dispatch. generalize (handleEvent true (set_revents revents (channel_ c))) as l.
    assert (Hw1 : whole (set_channel (set_revents revents (channel_ c)) c)) by (by apply whole_same with (c := c)).
    revert Hw1. generalize (set_channel (set_revents revents (channel_ c)) c) as c1. intros c1 Hw1 l. revert c1 Hw1.
    induction l as [|cb l IH]; intros c1 Hw1; cbn [run_callbacks]; [by intros [= <-]|]. intros H. inv_res H. eapply IH; [|done]. by eapply whole_callback.
  - destruct (functors c) as [|t l] eqn:El; [by intros [= <-]|].
    assert (Hw1 : whole (set_functors l c)) by (apply whole_same with (c := c); [done| |done]; cbn; rewrite El; intros; by apply list_elem_of_further).
    destruct t as [d| | | |n| | |]; cbn [run_task].
    + apply whole_sendInLoop; [|done]. apply Hw. rewrite El. apply list_elem_of_here.
    + intros [= <-]. by apply whole_shutdownInLoop.
    + unfold forceCloseInLoop. case_match; [by apply whole_handleClose|by intros [= <-]].
    + by apply whole_invoke.
    + by apply whole_invoke.
    + intros [= <-]. by apply whole_startRead.
    + intros [= <-]. by apply whole_stopRead.
    + by apply whole_connectDestroyed.
  - unfold send. case_match; [|by intros [= <-]]. intros [= <-]. apply whole_queue; [|done]. intros d' [= <-]. by apply Ha.
  - intros [= <-]. unfold shutdown. case_match; [|done]. apply whole_queue; [done|]. by apply whole_same with (c := c).
  - intros [= <-]. by apply whole_forceClose.
  - intros [= <-]. by apply whole_queue.
  - intros [= <-]. by apply whole_queue.
  - intros [= <-]. apply whole_forceClose. by apply whole_same with (c := c).
  - by apply whole_connectDestroyed.
Qed.

Lemma whole_sending loop fd b wc hw c : sending (newTcpConnection loop fd b b wc hw) c -> whole c.
Proof using Huser.
  induction 1 as [|a c c' _ IH _ Ha Hp]; [|by eapply whole_perform]. split; [exists []; by split|]. cbn. by intros d ?%elem_of_nil.
Qed.
End Sender.

Lemma conn_stream c : conn_inv c -> wire c ++ content (outputBuffer_ c) = accepted c.
Proof.
  intros [H|[[H _]|H]]; [|apply H..]. by destruct (fi_empty _ H) as (-> & -> & ->).
Qed.

(** ** What a prefix of the stream holds *)

Section Prefixes.
Context {M E : Type} (f : framing M E) (Hok : framing_ok f).

Lemma incomplete_prefix x m p : frame_of f x m -> p `prefix_of` x -> p <> x -> incomplete f p.
Proof using Hok.
  intros (body & -> & Hb & _) [r Hr] Hne. destruct Hok as [Hlo Hhi]. unfold incomplete, kHeaderLen in *.
  assert (Hz : zlen p < 4 + zlen body).
  { apply (f_equal zlen) in Hr as Hzr. rewrite !zlen_app, zlen_be4 in Hzr. pose proof (zlen_nonneg r).
    destruct (decide (zlen r = 0)) as [H0|]; [|lia]. apply zlen_zero_inv in H0. subst r. rewrite app_nil_r in Hr. done. }
  destruct (decide (zlen p < lo f + 4)) as [|H4]; [by left|right].
  assert (Hh : header p = zlen body).
  { rewrite <- (header_be (zlen body) body) by (unfold in_sint; lia). rewrite Hr, header_app; [done|lia]. }
  lia.
Qed.

Lemma prefix_frames xs ms p :
  Forall2 (frame_of f) xs ms -> p `prefix_of` concat xs ->
  exists ys ns tail, p = concat ys ++ tail /\ Forall2 (frame_of f) ys ns /\ ns `prefix_of` ms /\ incomplete f tail /\
    (p = concat xs -> ns = ms /\ tail = []).
Proof using Hok.
  assert (Hnil : incomplete f []) by (left; unfold kHeaderLen; rewrite zlen_nil; destruct Hok; lia).
  intros Hx. revert p. induction Hx as [|x m xs ms Hx Hxs IH]; intros p Hp.
  - apply prefix_nil_inv in Hp as ->. exists [], [], []. split_and!; try done.
  - cbn [concat] in Hp. destruct (decide (x `prefix_of` p)) as [[q ->]|Hno].
    + apply prefix_app_inv in Hp. destruct (IH q Hp) as (ys & ns & tail & -> & Hys & Hns & Ht & Hall).
      exists (x :: ys), (m :: ns), tail. split_and!; [cbn; by rewrite (assoc_L app)|by constructor|by apply prefix_cons|done|].
      cbn [concat]. intros Hq%app_inv_head. destruct (Hall Hq) as [-> ->]. done.
    + exists [], [], p. split_and!; [done|constructor|apply prefix_nil| |].
      * eapply incomplete_prefix; [exact Hx| |intros ->; by apply Hno].
        destruct (prefix_weak_total p x (x ++ concat xs)) as [?|?]; [done|by eexists|done|done].
      * intros ->. exfalso. apply Hno. by eexists.
Qed.
End Prefixes.

(** ** The length-header codec over a connection *)

(** What LengthHeaderCodec::send hands to the connection. *)
Definition chat_message (h : Host) (d : list char) : Prop :=
  exists m bs, zlen m <= kMaxLen /\ lhc_send (H := h) m = Ok bs /\ content bs = d.

Lemma chat_message_frame h d : chat_message h d -> exists m, frame_of lhc_framing d m.
Proof.
  intros (m & bs & Hm & Hs & Hc). destruct (lhc_send_spec (H := h) m Hm) as (bs' & Hs' & _ & Hc'). rewrite Hs in Hs'. injection Hs' as <-.
  exists m, m. split_and!; [congruence|apply zlen_nonneg|done|done].
Qed.

Lemma messages_frames h l : Forall (chat_message h) l -> exists ms, Forall2 (frame_of lhc_framing) l ms.
Proof.
  induction 1 as [|d l Hd _ [ms IH]]; [by exists []|]. destruct (chat_message_frame h d Hd) as [m Hm]. exists (m :: ms). by constructor.
Qed.

(** [C9] Messages from end to end: when one side sends nothing but messages of the
    length-header codec, from its callbacks and from other threads in any interleaving with
    the kernel and the network, then every prefix of the bytes that went out, cut into
    reads in any way, makes the other side's codec deliver a prefix of the messages the
    connection took over, each once, whole and in order, and all of them when all bytes
    have arrived. *)
Theorem chat_end_to_end (h1 h2 : Host) kernel network user loop fd b0 wc hw c :
  kernel_ok kernel -> (forall i, readv_contract (network i)) -> user_ok user ->
  newBuffer kInitialSize = Ok b0 -> user_sends (chat_message h1) user ->
  sending (chat_message h1) kernel network user (newTcpConnection loop fd b0 b0 wc hw) c ->
  exists ms, (exists l, accepted c = concat l /\ Forall2 (frame_of lhc_framing) l ms) /\
    forall chunks b fuel, concat chunks `prefix_of` wire c -> Forall (fun d => zlen d <= max_size) chunks ->
      (length (concat chunks) < fuel)%nat -> inv b -> content b = [] ->
      feed (FC := length_header_codec (H := h2)) fuel chunks b = Some (Fault LengthError) \/
      exists ms' b', feed (FC := length_header_codec (H := h2)) fuel chunks b = Some (Ok (Delivered <$> ms', b')) /\
        ms' `prefix_of` ms /\ (concat chunks = accepted c -> ms' = ms /\ content b' = []).
Proof.
  intros Hk Hn Hu Hb0 Hs Hr. destruct (whole_sending _ _ _ _ Hs _ _ _ _ _ _ Hr) as [(l & Hl & Hp) _].
  destruct (messages_frames h1 l Hp) as [ms Hms]. exists ms. split; [by exists l|]. intros chunks b fuel Hpre Hsz Hf Hi Hc.
  assert (Hacc : concat chunks `prefix_of` concat l).
  { rewrite <- Hl, <- (conn_stream c). - by apply prefix_app_r. - eapply connection_inv; [exact Hk|exact Hn|exact Hu|exact Hb0|by eapply sending_reachable]. }
  destruct (prefix_frames lhc_framing (codec_framing_ok (FrameCodec := length_header_codec (H := h2))) l ms (concat chunks) Hms Hacc)
    as (ys & ns & tail & Hcat & Hys & Hns & Ht & Hall).
  destruct (codec_stream (FC := length_header_codec (H := h2)) fuel ys ns tail chunks b) as [?|(b' & Hfd & _ & Hcb)]; try done; [by left|].
  right. exists ns, b'. split_and!; [done|done|]. intros Hcc. rewrite Hl in Hcc. destruct (Hall Hcc) as [-> ->]. done.
Qed.

(** One message, sent by another thread and written three bytes at a time. *)
Definition quiet_user (e : event) (c : TcpConnection) : list api := [].
Definition hi_frame : list char := be_bytes 4 2 ++ lit "hi".

Definition perform_quiet (a : action) (c : TcpConnection) : TcpConnection :=
  get_conn (perform sample_kernel sample_network quiet_user a c).

Definition hi_sent : TcpConnection :=
  foldl (fun c a => perform_quiet a c) sample_conn [Establish; OtherSend hi_frame; RunFunctor; Poll POLLOUT].

Lemma hi_message : chat_message LittleEndian hi_frame.
Proof. exists (lit "hi"). eexists. split; [vm_compute; congruence|]. split; [vm_compute; reflexivity|vm_compute; reflexivity]. Qed.

Lemma hi_sending : sending (chat_message LittleEndian) sample_kernel sample_network quiet_user sample_conn hi_sent.
Proof.
  assert (Hstep : forall a c, sending (chat_message LittleEndian) sample_kernel sample_network quiet_user sample_conn c ->
    enabled a c = true -> action_sends (chat_message LittleEndian) a ->
    perform sample_kernel sample_network quiet_user a c = Ok (perform_quiet a c) ->
    sending (chat_message LittleEndian) sample_kernel sample_network quiet_user sample_conn (perform_quiet a c))
    by (intros; by eapply SendStep).
  unfold hi_sent. cbn [foldl].
  apply Hstep; [|vm_compute; reflexivity|by intros d|vm_compute; reflexivity].
  apply Hstep; [|vm_compute; reflexivity|by intros d|vm_compute; reflexivity].
  apply Hstep; [|vm_compute; reflexivity|intros d [= <-]; apply hi_message|vm_compute; reflexivity].
  apply Hstep; [constructor|vm_compute; reflexivity|by intros d|vm_compute; reflexivity].
Qed.

Lemma chat_end_to_end_witness :
  wire hi_sent = hi_frame /\
  exists b', feed (FC := length_header_codec (H := BigEndian)) 10 [take 3 hi_frame; drop 3 hi_frame] empty_buffer =
    Some (Ok ([Delivered (lit "hi")], b')).
Proof.
  split; [vm_compute; reflexivity|].
  destruct (chat_end_to_end LittleEndian BigEndian sample_kernel sample_network quiet_user 9 5 small_buffer true false hi_sent)
    as (ms & _ & Hfeed).
  - apply sample_kernel_ok.
  - apply sample_network_ok.
  - intros ev c a Ha. by apply elem_of_nil in Ha.
  - vm_compute. reflexivity.
  - intros ev c a Ha. by apply elem_of_nil in Ha.
  - apply hi_sending.
  - destruct (Hfeed [take 3 hi_frame; drop 3 hi_frame] empty_buffer 10%nat) as [H|(ms' & b' & H & _ & _)].
    + exists []. vm_compute. reflexivity.
    + repeat constructor; vm_compute; congruence.
    + vm_compute. lia.
    + apply empty_buffer_ok.
    + apply empty_buffer_ok.
    + vm_compute in H. discriminate H.
    + exists b'. rewrite H. vm_compute in H. injection H as H <-. destruct ms' as [|x [|]]; try discriminate H. injection H as <-. reflexivity.
Defined.
