(* ===== verification/Acceptor.v ===== *)
(** * Accepting connections (src/muduo/net/Acceptor.h, Acceptor.cc; sockets::accept of
      src/muduo/net/SocketsOps.cc)

    The acceptor keeps a spare descriptor open on /dev/null: when the process has run out
    of descriptors it gives it up to accept and close the waiting connection, which would
    otherwise keep the listening socket readable for ever.  The state has the descriptors
    the acceptor is responsible for and those of connections handed to the callback
    ([live], until their owner closes them); the kernel's answers are arguments. *)

From S2P Require Import Prelude.

(** errno after accept4(2), by the cases of the switch. *)
Inductive accept_errno :=
| EAGAIN | ECONNABORTED | EINTR | EPROTO | EPERM | EMFILE
| EBADF | EFAULT | EINVAL | ENFILE | ENOBUFS | ENOMEM | ENOTSOCK | EOPNOTSUPP
| EUnknown.

Inductive accept_answer := Accepted (connfd : Z) | Refused (e : accept_errno).

(** [sockets::accept]: the unexpected errors are fatal. *)
Definition sockets_accept (a : accept_answer) : res (Z * option accept_errno) :=
  match a with
  | Accepted connfd => Ok (connfd, None)
  | Refused e =>
      match e with
      | EAGAIN | ECONNABORTED | EINTR | EPROTO | EPERM | EMFILE => Ok (-1, Some e)
      | _ => Fault Fatal
      end
  end.

Record Acceptor := mkAcceptor {
  acceptSocket_ : Z;
  listening_ : bool;
  reading : bool;          (* acceptChannel_ watches for reading *)
  newConnectionCallback_ : bool;
  idleFd_ : Z;
  open : gset Z;           (* open descriptors *)
  live : list Z;           (* connections handed over and not yet closed *)
  turned_away : nat        (* connections closed without being handed over *)
}.

(** close(2); closing -1 fails without effect. *)
Definition close_fd (fd : Z) (o : gset Z) : gset Z := o ∖ {[fd]}.

(** A new descriptor, or -1. *)
Definition add_fd (fd : Z) (o : gset Z) : gset Z := if 0 <=? fd then o ∪ {[fd]} else o.

(** The constructor: [sockfd] from socket(2), [nullfd] from open(2). *)
Definition newAcceptor (sockfd nullfd : Z) : res Acceptor :=
  _ ← (if sockfd <? 0 then Fault Fatal else Ok tt);
  _ ← check (0 <=? nullfd);
  Ok (mkAcceptor sockfd false false false nullfd {[sockfd; nullfd]} [] 0).

Definition setNewConnectionCallback (s : Acceptor) : Acceptor :=
  mkAcceptor (acceptSocket_ s) (listening_ s) (reading s) true (idleFd_ s) (open s) (live s) (turned_away s).

Definition listen (s : Acceptor) : Acceptor :=
  mkAcceptor (acceptSocket_ s) true true (newConnectionCallback_ s) (idleFd_ s) (open s) (live s) (turned_away s).

(** [handleRead]: [a1] answers the accept, [a2] and [nullfd] the second accept and the open
    after EMFILE. *)
Definition handleRead (a1 a2 : accept_answer) (nullfd : Z) (s : Acceptor) : res Acceptor :=
  match sockets_accept a1 with
  | Fault f => Fault f
  | Ok (connfd, e) =>
      if 0 <=? connfd then
        if newConnectionCallback_ s then
          Ok (mkAcceptor (acceptSocket_ s) (listening_ s) (reading s) true (idleFd_ s) (add_fd connfd (open s))
                (live s ++ [connfd]) (turned_away s))
        else
          Ok (mkAcceptor (acceptSocket_ s) (listening_ s) (reading s) false (idleFd_ s)
                (close_fd connfd (add_fd connfd (open s))) (live s) (S (turned_away s)))
      else
        match e with
        | Some EMFILE =>
            let o1 := close_fd (idleFd_ s) (open s) in
            let fd := match a2 with Accepted fd => fd | Refused _ => -1 end in
            let o2 := close_fd fd (add_fd fd o1) in
            Ok (mkAcceptor (acceptSocket_ s) (listening_ s) (reading s) (newConnectionCallback_ s) nullfd
                  (add_fd nullfd o2) (live s) (if 0 <=? fd then S (turned_away s) else turned_away s))
        | _ => Ok s
        end
  end.

(** [~Acceptor], with ~Socket of acceptSocket_ *)
Definition destroyAcceptor (s : Acceptor) : Acceptor :=
  mkAcceptor (acceptSocket_ s) (listening_ s) false (newConnectionCallback_ s) (idleFd_ s)
    (close_fd (acceptSocket_ s) (close_fd (idleFd_ s) (open s))) (live s) (turned_away s).

(** ** Runs *)

Inductive acceptor_action :=
| ASetCallback
| AListen
| AReadable (a1 a2 : accept_answer) (nullfd : Z)    (* the loop dispatches the channel *)
| AConnectionClosed (fd : Z).                        (* the owner of a connection closes it *)

(** The kernel hands out descriptors that are not open. *)
Definition fresh_answer (o : gset Z) (a : accept_answer) : Prop :=
  match a with Accepted fd => 0 <= fd /\ fd ∉ o | Refused _ => True end.

Definition null_answer (o : gset Z) (fd : Z) : Prop := fd = -1 \/ 0 <= fd /\ fd ∉ o.

Definition possible (s : Acceptor) (x : acceptor_action) : Prop :=
  match x with
  | ASetCallback | AListen => True
  | AReadable a1 a2 nullfd =>
      reading s = true /\ fresh_answer (open s) a1 /\ fresh_answer (close_fd (idleFd_ s) (open s)) a2 /\
      null_answer (close_fd (idleFd_ s) (open s)) nullfd
  | AConnectionClosed fd => fd ∈ live s
  end.

Definition acceptor_step (x : acceptor_action) (s : Acceptor) : res Acceptor :=
  match x with
  | ASetCallback => Ok (setNewConnectionCallback s)
  | AListen => Ok (listen s)
  | AReadable a1 a2 nullfd => handleRead a1 a2 nullfd s
  | AConnectionClosed fd =>
      Ok (mkAcceptor (acceptSocket_ s) (listening_ s) (reading s) (newConnectionCallback_ s) (idleFd_ s)
            (close_fd fd (open s)) (filter (fun x => x <> fd) (live s)) (turned_away s))
  end.

Inductive accepting (s0 : Acceptor) : Acceptor -> Prop :=
| AcceptInit : accepting s0 s0
| AcceptStep x s s' : accepting s0 s -> possible s x -> acceptor_step x s = Ok s' -> accepting s0 s'.

(** ** Proofs *)

Record acceptor_inv (s : Acceptor) : Prop := {
  ai_socket : 0 <= acceptSocket_ s;
  ai_idle : idleFd_ s = -1 \/ 0 <= idleFd_ s /\ idleFd_ s <> acceptSocket_ s /\ idleFd_ s ∉ live s;
  ai_live : NoDup (live s) /\ acceptSocket_ s ∉ live s /\ Forall (fun fd => 0 <= fd) (live s);
  ai_open : open s = {[acceptSocket_ s]} ∪ (if 0 <=? idleFd_ s then {[idleFd_ s]} else ∅) ∪ list_to_set (live s)
}.

Lemma add_close fd (o : gset Z) : 0 <= fd -> fd ∉ o -> close_fd fd (add_fd fd o) = o.
Proof. intros Hfd Ho. unfold close_fd, add_fd. replace (0 <=? fd) with true by lia. set_solver. Qed.

Lemma inv_new sockfd nullfd s :
  0 <= sockfd -> 0 <= nullfd -> sockfd <> nullfd -> newAcceptor sockfd nullfd = Ok s -> acceptor_inv s.
Proof.
  intros H1 H2 H3. unfold newAcceptor. replace (sockfd <? 0) with false by lia. replace (0 <=? nullfd) with true by lia.
  intros [= <-]. split; cbn; [done|right; split_and!; [done|done|apply not_elem_of_nil]|split_and!; [constructor|apply not_elem_of_nil|constructor]|].
  replace (0 <=? nullfd) with true by lia. set_solver.
Qed.

(** Without the idle descriptor: the set after it was closed. *)
Lemma close_idle s :
  acceptor_inv s -> close_fd (idleFd_ s) (open s) = {[acceptSocket_ s]} ∪ list_to_set (live s).
Proof.
  intros [Hs Hi (Hn & Hl & Hp) Ho]. unfold close_fd. rewrite Ho. rewrite Forall_forall in Hp. destruct Hi as [Hi|(Hi & Hne & Hni)].
  - rewrite Hi. replace (0 <=? -1) with false by lia.
    assert ((-1) ∉ ({[acceptSocket_ s]} ∪ ∅ ∪ list_to_set (live s) : gset Z)); [|set_solver].
    intros [[H%elem_of_singleton|H]%elem_of_union|H%elem_of_list_to_set%Hp]%elem_of_union; [lia|set_solver|lia].
  - replace (0 <=? idleFd_ s) with true by lia. apply set_eq. intros x. rewrite elem_of_difference, !elem_of_union, !elem_of_singleton, elem_of_list_to_set.
    split; [naive_solver|]. intros [->|Hx]; [naive_solver|]. split; [naive_solver|]. intros ->. done.
Qed.

Lemma inv_step x s :
  acceptor_inv s -> possible s x ->
  acceptor_step x s = Fault Fatal \/ exists s', acceptor_step x s = Ok s' /\ acceptor_inv s'.
Proof.
  intros Hinv Hp. pose proof Hinv as [Hs Hi (Hn & Hl & Hpos) Ho]. destruct x as [| |a1 a2 nullfd|fd]; cbn [acceptor_step].
  - right. eexists. split; [done|]. by split.
  - right. eexists. split; [done|]. by split.
  - destruct Hp as (_ & Hf1 & Hf2 & Hnull). unfold handleRead. destruct a1 as [connfd|e]; cbn [sockets_accept fresh_answer] in *.
    + right. destruct Hf1 as [Hc0 Hc1]. replace (0 <=? connfd) with true by lia. rewrite Ho in Hc1. destruct (newConnectionCallback_ s); eexists; (split; [done|]).
      * split; cbn; [done| | |].
        -- destruct Hi as [?|(? & ? & ?)]; [by left|right]. split_and!; [done|done|]. rewrite elem_of_app, list_elem_of_singleton. intros [?|Heq]; [done|].
           apply Hc1. rewrite <- Heq. replace (0 <=? idleFd_ s) with true by lia. set_solver.
        -- split_and!.
           ++ apply NoDup_app. split_and!; [done| |apply NoDup_singleton]. intros y Hy ->%list_elem_of_singleton. apply Hc1. set_solver.
           ++ rewrite elem_of_app, list_elem_of_singleton. intros [?|?]; [done|]. set_solver.
           ++ apply Forall_app. split; [done|]. by apply Forall_singleton.
        -- unfold add_fd. replace (0 <=? connfd) with true by lia. rewrite Ho, list_to_set_app_L. cbn. set_solver.
      * rewrite add_close by (done || by rewrite Ho). by split.
    + destruct e; try (by left); right; try (by exists s).
      cbn [Z.leb Z.compare]. rewrite (close_idle s Hinv) in *. set (rest := {[acceptSocket_ s]} ∪ list_to_set (live s)) in *.
      set (fd := match a2 with Accepted fd => fd | Refused _ => -1 end).
      assert (Ho2 : close_fd fd (add_fd fd rest) = rest).
      { destruct a2 as [fd2|e2]; [apply add_close; apply Hf2|]. unfold fd, add_fd, close_fd. cbn.
        assert (Hm : (-1) ∉ rest); [|set_solver]. unfold rest. rewrite Forall_forall in Hpos.
        intros [H%elem_of_singleton|H%elem_of_list_to_set%Hpos]%elem_of_union; lia. }
      eexists. split; [reflexivity|]. rewrite Ho2. split; cbn; [done| |done|].
      * destruct Hnull as [->|[H0 Hnu]]; [by left|right]. unfold rest in Hnu. set_solver.
      * unfold add_fd. destruct (0 <=? nullfd); unfold rest; set_solver.
  - right. eexists. split; [done|]. split; cbn; [done| | |].
    + destruct Hi as [?|(? & ? & ?)]; [by left|right]. split_and!; [done|done|]. rewrite list_elem_of_filter. naive_solver.
    + split_and!; [by apply NoDup_filter|rewrite list_elem_of_filter; naive_solver|apply Forall_forall; rewrite Forall_forall in Hpos; intros y [_ Hy]%list_elem_of_filter; by apply Hpos].
    + unfold close_fd. rewrite Ho. cbn in Hp. apply set_eq. intros y. rewrite elem_of_difference, !elem_of_union, !elem_of_list_to_set, list_elem_of_filter, !elem_of_singleton.
      assert (fd <> acceptSocket_ s) by (by intros ->). assert (Hfi : 0 <= idleFd_ s -> fd <> idleFd_ s) by (destruct Hi as [?|(? & ? & ?)]; [lia|by intros _ ->]).
      destruct (0 <=? idleFd_ s) eqn:E; [rewrite elem_of_singleton; assert (fd <> idleFd_ s) by (apply Hfi; lia)|]; naive_solver.
Qed.

Lemma accepting_inv s0 s : acceptor_inv s0 -> accepting s0 s -> acceptor_inv s.
Proof.
  intros H0. induction 1 as [|x s s' _ IH Hp Hs]; [done|].
  destruct (inv_step x s IH Hp) as [E|(s1 & E & Hi)]; congruence.
Qed.

(** [C31] An acceptor leaks no descriptor: whatever accept(2) and open(2) answer, the open
    descriptors are exactly the listening socket, the spare one (if it could be reopened)
    and the connections handed to the callback, each once, that their owners have not
    closed; a readable event hands over the connection accepted, closes it when there is no
    callback, and, when the process is out of descriptors, closes the waiting one; the
    process stops only on the errors of accept(2) that sockets::accept calls unexpected;
    and after the destructor only the connections' descriptors are left. *)
Theorem acceptor_correct sockfd nullfd s0 s a1 a2 newfd :
  0 <= sockfd -> 0 <= nullfd -> sockfd <> nullfd -> newAcceptor sockfd nullfd = Ok s0 -> accepting s0 s ->
  possible s (AReadable a1 a2 newfd) ->
  open s = {[acceptSocket_ s]} ∪ (if 0 <=? idleFd_ s then {[idleFd_ s]} else ∅) ∪ list_to_set (live s) /\
  open (destroyAcceptor s) = list_to_set (live s) /\
  match handleRead a1 a2 newfd s with
  | Ok s' =>
      match a1 with
      | Accepted fd => if newConnectionCallback_ s then live s' = live s ++ [fd] /\ fd ∈ open s'
                       else live s' = live s /\ open s' = open s
      | Refused EMFILE =>
          live s' = live s /\ idleFd_ s' = newfd /\
          turned_away s' = match a2 with Accepted _ => S (turned_away s) | Refused _ => turned_away s end
      | Refused _ => s' = s
      end
  | Fault f => f = Fatal /\ exists e, a1 = Refused e /\
                 e ∉ [EAGAIN; ECONNABORTED; EINTR; EPROTO; EPERM; EMFILE]
  end.
Proof.
  intros H1 H2 H3 Hnew Hr Hp. pose proof (accepting_inv s0 s (inv_new _ _ _ H1 H2 H3 Hnew) Hr) as Hinv.
  pose proof Hinv as [Hs Hi (Hn & Hl & Hpos) Ho]. split; [done|]. split.
  - cbn. rewrite (close_idle s Hinv). unfold close_fd. set_solver.
  - destruct Hp as (_ & Hf1 & Hf2 & _). unfold handleRead. destruct a1 as [fd|e]; cbn [sockets_accept fresh_answer] in *.
    + destruct Hf1 as [Hfd Hno]. replace (0 <=? fd) with true by lia. destruct (newConnectionCallback_ s); cbn [live open].
      * split; [done|]. unfold add_fd. replace (0 <=? fd) with true by lia. set_solver.
      * split; [done|]. by apply add_close.
    + destruct e; cbn [Z.leb Z.compare live idleFd_ turned_away]; try done; try (split; [done|]; eexists; split; [done|]; set_solver).
      split_and!; [done..|]. destruct a2 as [fd|]; [|done]. destruct Hf2 as [Hfd _]. by replace (0 <=? fd) with true by lia.
Qed.

(** Listening; one connection, then none left to accept one. *)
Definition accept_sample : Acceptor :=
  mkAcceptor 3 true true true 4 {[3; 4; 7]} [7] 0.

Lemma acceptor_correct_witness :
  exists s', handleRead (Refused EMFILE) (Accepted 4) 4 accept_sample = Ok s' /\ live s' = [7] /\ turned_away s' = 1%nat /\
    open (destroyAcceptor accept_sample) = {[7]}.
Proof.
  eexists. split; [reflexivity|].
  destruct (acceptor_correct 3 4 (mkAcceptor 3 false false false 4 {[3; 4]} [] 0) accept_sample (Refused EMFILE) (Accepted 4) 4)
    as (_ & Hd & Hl & _ & Ht); [lia|lia|lia|vm_compute; reflexivity| | |].
  - eapply (AcceptStep _ (AReadable (Accepted 7) (Refused EAGAIN) (-1)) (mkAcceptor 3 true true true 4 {[3; 4]} [] 0)).
    + eapply (AcceptStep _ AListen (mkAcceptor 3 false false true 4 {[3; 4]} [] 0)); [|exact I|reflexivity].
      eapply (AcceptStep _ ASetCallback); [apply AcceptInit|exact I|reflexivity].
    + cbn [possible reading open idleFd_ fresh_answer]. split_and!; [done|lia|set_solver|done|by left].
    + vm_compute. reflexivity.
  - cbn [possible reading open idleFd_ fresh_answer accept_sample]. unfold close_fd, null_answer.
    split_and!; [done|done|lia|set_solver|right; split; [lia|set_solver]].
  - split; [exact Hl|]. split; [exact Ht|]. rewrite Hd. vm_compute. reflexivity.
Defined.
