(* ===== verification/Logging.v ===== *)
(** * Log lines (src/muduo/base/Logging.h, Logging.cc)

    A [Logger] object writes the head of a line into its stream when it is made, the user
    writes the message, and its destructor ends the line and hands it to the output
    function.  The text of the current second is cached per thread ([t_time],
    [t_lastSecond]); [tz] is g_logTimeZone, [tid] the thread's number, [strerror] the texts
    of strerror_r(3), [now] the time of the line in microseconds. *)

From S2P Require Import Prelude Decimal TimeZone TimeFormat LogStream Timestamp.

Inductive LogLevel := TRACE | DEBUG | INFO | WARN | ERROR | FATAL.

Definition level_number (l : LogLevel) : Z :=
  match l with TRACE => 0 | DEBUG => 1 | INFO => 2 | WARN => 3 | ERROR => 4 | FATAL => 5 end.

(** [LogLevelName] *)
Definition level_name (l : LogLevel) : list char :=
  match l with
  | TRACE => lit "TRACE " | DEBUG => lit "DEBUG " | INFO => lit "INFO  "
  | WARN => lit "WARN  " | ERROR => lit "ERROR " | FATAL => lit "FATAL "
  end.

(** The macros LOG_TRACE, LOG_DEBUG and LOG_INFO test the level; the others do not. *)
Definition log_enabled (g_logLevel level : LogLevel) : bool :=
  match level with
  | TRACE | DEBUG | INFO => level_number g_logLevel <=? level_number level
  | _ => true
  end.

(** [SourceFile]: what follows the last slash *)
Fixpoint source_file (path : list char) : list char :=
  match path with
  | [] => []
  | c :: rest =>
      if existsb (fun d => ord d =? 47) rest then source_file rest
      else if ord c =? 47 then rest else c :: rest
  end.

(** The thread's cache. *)
Record thread_cache := mkCache { t_time : list char; t_lastSecond : Z }.

Section Logger.
Context (tz : option Data) (tid : Z) (strerror : Z -> list char).

(** [CurrentThread::tidString], as cacheTid makes it *)
Definition tidString : list char := snprintf 32 (padded (chr 32) 5 tid ++ lit " ").

(** [T(str, len)]: the assertion on the length *)
Definition known (s : list char) (len : Z) : res item :=
  _ ← check (zlen s =? len);
  Ok (IString s).

(** [Impl::formatTime]: the pieces of the time and the cache afterwards *)
Definition formatTime (now : Z) (st : thread_cache) : res (list item * thread_cache) :=
  let seconds := Z.quot now kMicroSecondsPerSecond in
  let microseconds := int32 (Z.rem now kMicroSecondsPerSecond) in
  st ← (if seconds =? t_lastSecond st then Ok st
        else
          tm_time ← match tz with Some _ => toLocalTime tz seconds | None => Ok (gmtime seconds) end;
          let text := tm_text tm_time in
          _ ← check (zlen text =? 17);
          Ok (mkCache (snprintf 64 text) seconds));
  let us := lit "." ++ pad6 microseconds ++ match tz with Some _ => lit " " | None => lit "Z " end in
  let len := match tz with Some _ => 8 | None => 9 end in
  _ ← check (zlen us =? len);
  x ← known (t_time st) 17;
  y ← known us len;
  Ok ([x; y], st).

(** A call of one of the macros: level, errno (0 for none), the function name for the
    constructor that takes one, the message put into the stream, file and line. *)
Record log_call := mkCall {
  lc_now : Z;
  lc_level : LogLevel;
  lc_errno : Z;
  lc_func : option (list char);
  lc_message : list item;
  lc_path : list char;
  lc_line : Z
}.

(** The head of the line: [Impl::Impl] and the constructors of [Logger] *)
Definition line_head (c : log_call) (st : thread_cache) : res (list item * thread_cache) :=
  match formatTime (lc_now c) st with
  | Fault f => Fault f
  | Ok (time, st) =>
      t ← known tidString (zlen tidString);
      l ← known (level_name (lc_level c)) 6;
      let errno := if lc_errno c =? 0 then []
                   else [ICString (Some (strerror (lc_errno c))); ICString (Some (lit " (errno=")); IInt (lc_errno c); ICString (Some (lit ") "))] in
      let func := match lc_func c with Some f => [ICString (Some f); IChar (chr 32)] | None => [] end in
      Ok (time ++ [t; l] ++ errno ++ func, st)
  end.

(** [Impl::finish] *)
Definition line_end (c : log_call) : list item :=
  [ICString (Some (lit " - ")); IString (source_file (lc_path c)); IChar (chr 58); IInt (lc_line c); IChar (chr 10)].

(** A line from the constructor to the destructor: what g_output gets, whether the process
    is aborted after it, and the cache. *)
Definition log_line (c : log_call) (st : thread_cache) : option (res (list char * bool * thread_cache)) :=
  match line_head c st with
  | Fault f => Some (Fault f)
  | Ok (head, st) =>
      match stream_put_all (head ++ lc_message c ++ line_end c) (newFixedBuffer kSmallBuffer) with
      | None => None
      | Some (Fault f) => Some (Fault f)
      | Some (Ok b) => Some (Ok (ftoString b, match lc_level c with FATAL => true | _ => false end, st))
      end
  end.

(** The lines of a thread, up to the one that aborts. *)
Fixpoint log_lines (l : list log_call) (st : thread_cache) : option (res (list (list char))) :=
  match l with
  | [] => Some (Ok [])
  | c :: l =>
      match log_line c st with
      | None => None
      | Some (Fault f) => Some (Fault f)
      | Some (Ok (s, aborts, st)) =>
          if aborts : bool then Some (Ok [s])
          else match log_lines l st with Some (Ok ss) => Some (Ok (s :: ss)) | r => r end
      end
  end.

(** ** Specification *)

Definition zone_tm (seconds : Z) : res tm :=
  match tz with Some _ => toLocalTime tz seconds | None => Ok (gmtime seconds) end.

Definition stamp (now : Z) : list char :=
  match zone_tm (now / 1000000) with
  | Ok t => tm_text t ++ lit "." ++ pad6 (now mod 1000000) ++ match tz with Some _ => lit " " | None => lit "Z " end
  | Fault _ => []
  end.

Definition errno_text (e : Z) : list char :=
  if e =? 0 then [] else strerror e ++ lit " (errno=" ++ dec e ++ lit ") ".

Definition line_text (c : log_call) : list char :=
  stamp (lc_now c) ++ tidString ++ level_name (lc_level c) ++ errno_text (lc_errno c) ++
  match lc_func c with Some f => f ++ lit " " | None => [] end ++
  concat (text <$> lc_message c) ++
  lit " - " ++ source_file (lc_path c) ++ lit ":" ++ dec (lc_line c) ++ [chr 10].

(** A call at a time the zone can show with a year of four digits, whose line fits. *)
Record call_ok (c : log_call) : Prop := {
  co_now : 1000000 <= lc_now c;
  co_zone : exists t, zone_tm (lc_now c / 1000000) = Ok t /\ fields_ok t;
  co_message : Forall item_ok (lc_message c);
  co_numbers : item_ok (IInt (lc_errno c)) /\ item_ok (IInt (lc_line c));
  co_fits : zlen (line_text c) + 32 <= kSmallBuffer
}.

(** The cache is empty or holds the text of its second. *)
Definition cache_ok (st : thread_cache) : Prop :=
  t_lastSecond st = 0 \/ exists t, zone_tm (t_lastSecond st) = Ok t /\ fields_ok t /\ t_time st = tm_text t.

(** ** Proofs *)

Lemma pad6_length z : 0 <= z < 1000000 -> zlen (pad6 z) = 6.
Proof. intros Hz. unfold zlen, pad6. rewrite padded_length by (cbn; lia). done. Qed.

Lemma formatTime_ok c st :
  call_ok c -> cache_ok st ->
  exists items st', formatTime (lc_now c) st = Ok (items, st') /\ cache_ok st' /\ Forall item_ok items /\
    concat (text <$> items) = stamp (lc_now c).
Proof.
  intros [Hn (t & Ht & Hf) _ _ _] Hc. unfold formatTime, stamp, kMicroSecondsPerSecond. change (1000 * 1000) with 1000000.
  rewrite Z.quot_div_nonneg, Z.rem_mod_nonneg by lia. pose proof (Z.mod_pos_bound (lc_now c) 1000000 ltac:(lia)) as Hm.
  rewrite sint_small by (unfold in_sint; lia). rewrite Ht. set (sec := lc_now c / 1000000) in *.
  assert (Hsec : 1 <= sec) by (unfold sec; Z.to_euclidean_division_equations; lia).
  pose proof (tm_text_length t Hf) as H17. assert (Hz17 : zlen (tm_text t) = 17) by (unfold zlen; by rewrite H17).
  assert (Hst : exists st', (if sec =? t_lastSecond st then Ok st
     else tm_time ← match tz with Some _ => toLocalTime tz sec | None => Ok (gmtime sec) end;
          _ ← check (zlen (tm_text tm_time) =? 17); Ok (mkCache (snprintf 64 (tm_text tm_time)) sec)) = Ok st' /\
     t_time st' = tm_text t /\ cache_ok st').
  { destruct (sec =? t_lastSecond st) eqn:E.
    - assert (Heq : t_lastSecond st = sec) by lia. exists st. split; [done|]. destruct Hc as [?|(t' & Ht' & Hf' & Htext)]; [lia|].
      rewrite Heq in Ht'. assert (t' = t) as -> by congruence. split; [done|]. right. exists t. by rewrite Heq.
    - fold (zone_tm sec). rewrite Ht. cbn [mbind res_bind]. rewrite Hz17. cbn [Z.eqb Pos.eqb check mbind res_bind].
      eexists. split; [reflexivity|]. assert (Hs : snprintf 64 (tm_text t) = tm_text t) by (unfold snprintf; apply take_ge; rewrite H17; lia).
      cbn [t_time]. rewrite Hs. split; [done|]. right. exists t. by split_and!. }
  destruct Hst as (st' & -> & Htext & Hc'). cbn [mbind res_bind]. unfold known. rewrite Htext, Hz17.
  assert (Hus : zlen (lit "." ++ pad6 (lc_now c mod 1000000) ++ match tz with Some _ => lit " " | None => lit "Z " end) =
    match tz with Some _ => 8 | None => 9 end) by (rewrite !zlen_app, pad6_length by lia; by destruct tz).
  rewrite Hus, !Z.eqb_refl. cbn [check mbind res_bind]. eexists _, _. split; [reflexivity|]. split; [done|]. split; [repeat constructor|].
  cbn. by rewrite app_nil_r.
Qed.

Lemma tidString_ok : known tidString (zlen tidString) = Ok (IString tidString).
Proof. unfold known. by rewrite Z.eqb_refl. Qed.

Lemma line_ok c st :
  call_ok c -> cache_ok st ->
  exists st', log_line c st = Some (Ok (line_text c, match lc_level c with FATAL => true | _ => false end, st')) /\ cache_ok st'.
Proof.
  intros Hok Hc. destruct (formatTime_ok c st Hok Hc) as (time & st' & Hf & Hc' & Hti & Htext).
  unfold log_line, line_head. rewrite Hf, tidString_ok. cbn [mbind res_bind].
  assert (Hl : known (level_name (lc_level c)) 6 = Ok (IString (level_name (lc_level c)))) by (by destruct (lc_level c)). rewrite Hl. cbn [mbind res_bind].
  set (errno := if lc_errno c =? 0 then [] else _). set (func := match lc_func c with Some f => _ | None => [] end).
  destruct Hok as [_ _ Hm [He Hn] Hfit].
  assert (Hall : concat (text <$> (time ++ [IString tidString; IString (level_name (lc_level c))] ++ errno ++ func) ++ lc_message c ++ line_end c) = line_text c).
  { rewrite !fmap_app, !concat_app, Htext. unfold line_text. rewrite <- !(assoc_L app). f_equal. cbn [fmap list_fmap text concat app].
    assert (E1 : concat (text <$> errno) = errno_text (lc_errno c)) by (unfold errno, errno_text; destruct (lc_errno c =? 0); [done|]; done).
    assert (E2 : concat (text <$> func) = match lc_func c with Some f => f ++ lit " " | None => [] end) by (unfold func; by destruct (lc_func c)).
    assert (E3 : concat (text <$> line_end c) = lit " - " ++ source_file (lc_path c) ++ lit ":" ++ dec (lc_line c) ++ [chr 10]) by done.
    rewrite app_nil_r, <- (assoc_L app). by rewrite E1, E2, E3. }
  destruct (put_all_fits kSmallBuffer ((time ++ [IString tidString; IString (level_name (lc_level c))] ++ errno ++ func) ++ lc_message c ++ line_end c)
    (newFixedBuffer kSmallBuffer)) as (b' & -> & Hb).
  - unfold fixed_inv, newFixedBuffer, kSmallBuffer. cbn [fdata_ cur_]. unfold zlen. rewrite length_replicate. lia.
  - repeat (apply Forall_app; split); try done; try (repeat constructor; done).
    + unfold errno. destruct (lc_errno c =? 0); repeat (constructor; [try exact I; try exact He|]); constructor.
    + unfold func. destruct (lc_func c); repeat constructor.
    + unfold line_end. repeat (constructor; [try exact I; try exact Hn|]). constructor.
  - rewrite Hall. change (zlen (ftoString (newFixedBuffer kSmallBuffer))) with 0. lia.
  - exists st'. split; [|done]. rewrite Hb, Hall. done.
Qed.

(** The lines of calls, up to the first fatal one. *)
Fixpoint upto_fatal (l : list log_call) : list log_call :=
  match l with
  | [] => []
  | c :: l => match lc_level c with FATAL => [c] | _ => c :: upto_fatal l end
  end.

(** The lines a thread logs: each goes to the output whole, with the time of the line
    in the time zone set (though the text of the second is cached), the thread, the level,
    the error, the message, and the name of the file without its directories; a FATAL line
    is the last; no assertion fails. *)
Theorem log_lines_correct l :
  Forall call_ok l -> log_lines l (mkCache [] 0) = Some (Ok (line_text <$> upto_fatal l)).
Proof.
  intros Hl. assert (Hgen : forall st, cache_ok st -> log_lines l st = Some (Ok (line_text <$> upto_fatal l))); [|by apply Hgen; left].
  induction Hl as [|c l Hc _ IH]; intros st Hst; cbn [log_lines upto_fatal]; [done|].
  destruct (line_ok c st Hc Hst) as (st' & -> & Hst'). destruct (lc_level c); [by rewrite IH..|done].
Qed.
End Logger.

(** Two lines in one second, the second one after a failed system call. *)
Definition sample_calls : list log_call :=
  [mkCall 1234567890000001 INFO 0 None [IString (lit "hello")] (lit "muduo/base/tests/x.cc") 7;
   mkCall 1234567890999999 ERROR 2 None [IString (lit "n="); IInt (-5)] (lit "y.cc") 8].

Definition sample_strerror (e : Z) : list char := lit "No such file or directory".

Lemma sample_calls_ok : Forall (call_ok None 42 sample_strerror) sample_calls.
Proof.
  assert (Hf : fields_ok (gmtime 1234567890)) by (apply gmtime_fields; unfold four_digit_year; lia).
  repeat constructor; cbn [lc_now lc_errno lc_line item_ok]; try lia; try (exists (gmtime 1234567890); by split); vm_compute; congruence.
Qed.

Lemma log_lines_correct_witness :
  log_lines None 42 sample_strerror sample_calls (mkCache [] 0) =
  Some (Ok [lit "20090213 23:31:30.000001Z    42 INFO  hello - x.cc:7" ++ [chr 10];
            lit "20090213 23:31:30.999999Z    42 ERROR No such file or directory (errno=2) n=-5 - y.cc:8" ++ [chr 10]]).
Proof.
  rewrite (log_lines_correct None 42 sample_strerror sample_calls); [vm_compute; reflexivity|].
  apply sample_calls_ok.
Defined.
