(* ===== verification/DancingLinks.v ===== *)
(** * The exact cover search of [SudokuSolver] (sudoku/sudoku.cc)

    Dancing links: a sparse matrix whose nodes are linked into circular lists, one
    list per row (left / right), one per column (up / down), and one of the column
    headers.  [cover] takes a column and the rows that meet it out of the lists,
    [uncover] puts them back, and [solve] searches for a set of rows that meets
    every column exactly once.

    The array [nodes_] is a finite map from indices to [Node]s, a pointer to a node is
    its index.  Reading or writing through a pointer to a node that was not made is
    [Fault OutOfBounds].  Loops over the circular lists and the recursion of [solve]
    take [fuel] rounds at most; [Fault OutOfFuel] is the answer of a loop that needs
    more. *)
From S2P Require Import Prelude.

(** ** The store of nodes *)

Abbreviation ptr := Z (only parsing).

Record Node := mkNode {
  left : ptr; right : ptr; up : ptr; down : ptr; col : ptr;
  name : Z; size : Z }.

Inductive node_field := Left | Right | Up | Down | Col | Name | Size.

#[global] Instance field_eq_dec : EqDecision node_field.
Proof. solve_decision. Defined.

Definition getf (f : node_field) (n : Node) : Z :=
  match f with
  | Left => left n | Right => right n | Up => up n | Down => down n
  | Col => col n | Name => name n | Size => size n
  end.

Definition setf (f : node_field) (v : Z) (n : Node) : Node :=
  let '(mkNode l r u d c k s) := n in
  match f with
  | Left => mkNode v r u d c k s
  | Right => mkNode l v u d c k s
  | Up => mkNode l r v d c k s
  | Down => mkNode l r u v c k s
  | Col => mkNode l r u d v k s
  | Name => mkNode l r u d c v s
  | Size => mkNode l r u d c k v
  end.

Abbreviation heap := (gmap Z Node).

(** [p->f] and [p->f = v]. *)
Definition rd (f : node_field) (h : heap) (p : ptr) : res Z :=
  n ← get (h !! p); Ok (getf f n).

Definition wr (f : node_field) (h : heap) (p : ptr) (v : Z) : res heap :=
  n ← get (h !! p); Ok (<[p := setf f v n]> h).

Record Solver := mkSolver {
  root_ : ptr;
  inout_ : list Z;
  columns_ : list (option ptr);
  stack_ : list ptr;
  nodes_ : heap;
  cur_node_ : Z }.

Definition set_nodes (s : Solver) (h : heap) : Solver :=
  mkSolver (root_ s) (inout_ s) (columns_ s) (stack_ s) h (cur_node_ s).
Definition set_stack (s : Solver) (st : list ptr) : Solver :=
  mkSolver (root_ s) (inout_ s) (columns_ s) st (nodes_ s) (cur_node_ s).
Definition set_inout (s : Solver) (b : list Z) : Solver :=
  mkSolver (root_ s) b (columns_ s) (stack_ s) (nodes_ s) (cur_node_ s).

(** [a[i] = v] *)
Definition store {A} (a : list A) (i : Z) (v : A) : res (list A) :=
  if (0 <=? i) && (i <? zlen a) then Ok (<[Z.to_nat i := v]> a) else Fault OutOfBounds.

(** ** Covering and uncovering *)

(** [for (; p != stop; p = p->f) body(p)] *)
Fixpoint walk (fuel : nat) (f : node_field) (stop p : ptr)
    (body : ptr -> heap -> res heap) (h : heap) : res heap :=
  match fuel with
  | O => Fault OutOfFuel
  | S fuel =>
      if p =? stop then Ok h else
      h ← body p h;
      p ← rd f h p;
      walk fuel f stop p body h
  end.

Definition unlink (j : ptr) (h : heap) : res heap :=
  d ← rd Down h j; u ← rd Up h j; h ← wr Up h d u;
  u ← rd Up h j; d ← rd Down h j; h ← wr Down h u d;
  c ← rd Col h j; n ← rd Size h c; wr Size h c (n - 1).

Definition relink (j : ptr) (h : heap) : res heap :=
  c ← rd Col h j; n ← rd Size h c; h ← wr Size h c (n + 1);
  d ← rd Down h j; h ← wr Up h d j;
  u ← rd Up h j; wr Down h u j.

Definition cover (fuel : nat) (c : ptr) (h : heap) : res heap :=
  r ← rd Right h c; l ← rd Left h c; h ← wr Left h r l;
  l ← rd Left h c; r ← rd Right h c; h ← wr Right h l r;
  first ← rd Down h c;
  walk fuel Down c first (fun row h =>
    j ← rd Right h row; walk fuel Right row j unlink h) h.

Definition uncover (fuel : nat) (c : ptr) (h : heap) : res heap :=
  first ← rd Up h c;
  h ← walk fuel Up c first (fun row h =>
        j ← rd Left h row; walk fuel Left row j relink h) h;
  r ← rd Right h c; h ← wr Left h r c;
  l ← rd Left h c; wr Right h l c.

(** ** The search *)

Fixpoint min_loop (fuel : nat) (h : heap) (root cc c : ptr) (min_size : Z) : res ptr :=
  match fuel with
  | O => Fault OutOfFuel
  | S fuel =>
      if cc =? root then Ok c else
      n ← rd Size h cc;
      if n <? min_size then
        if n <=? 1 then Ok cc else
        next ← rd Right h cc; min_loop fuel h root next cc n
      else next ← rd Right h cc; min_loop fuel h root next c min_size
  end.

Definition get_min_column (fuel : nat) (h : heap) (root : ptr) : res ptr :=
  c ← rd Right h root;
  min_size ← rd Size h c;
  if 1 <? min_size then cc ← rd Right h c; min_loop fuel h root cc c min_size
  else Ok c.

(** The cell and the value of the row through a node. *)
Fixpoint cell_val (fuel : nat) (h : heap) (n : ptr) (cell val : Z) : res (Z * Z) :=
  match fuel with
  | O => Fault OutOfFuel
  | S fuel =>
      if (cell =? -1) || (val =? -1) then
        k ← rd Name h n;
        next ← rd Right h n;
        if k <? 100 then cell_val fuel h next k val
        else cell_val fuel h next cell (Z.rem k 10)
      else Ok (cell, val)
  end.

Fixpoint fill (fuel : nat) (h : heap) (stack : list ptr) (board : list Z) : res (list Z) :=
  match stack with
  | [] => Ok board
  | n :: rest =>
      '(cell, val) ← cell_val fuel h n (-1) (-1);
      board ← store board cell val;
      fill fuel h rest board
  end.

(** [for (row = first; row != col; row = row->down) if (try(row)) return true] *)
Fixpoint try_rows (fuel : nat) (c row : ptr)
    (try : ptr -> Solver -> res (bool * Solver)) (s : Solver) : res (bool * Solver) :=
  match fuel with
  | O => Fault OutOfFuel
  | S fuel =>
      if row =? c then Ok (false, s) else
      '(found, s) ← try row s;
      if found : bool then Ok (true, s) else
      row ← rd Down (nodes_ s) row;
      try_rows fuel c row try s
  end.

(** One round of the loop over the rows of the chosen column; [rec] is the recursive call. *)
Definition try_row (loops : nat) (rec : Solver -> res (bool * Solver)) (row : ptr) (s : Solver)
    : res (bool * Solver) :=
  let s := set_stack s (stack_ s ++ [row]) in
  j ← rd Right (nodes_ s) row;
  h ← walk loops Right row j (fun j h => k ← rd Col h j; cover loops k h) (nodes_ s);
  '(found, s) ← rec (set_nodes s h);
  if found : bool then Ok (true, s) else
  let s := set_stack s (removelast (stack_ s)) in
  j ← rd Left (nodes_ s) row;
  h ← walk loops Left row j (fun j h => k ← rd Col h j; uncover loops k h) (nodes_ s);
  Ok (false, set_nodes s h).

Fixpoint solve (loops fuel : nat) (s : Solver) : res (bool * Solver) :=
  match fuel with
  | O => Fault OutOfFuel
  | S fuel =>
      l ← rd Left (nodes_ s) (root_ s);
      if l =? root_ s then
        board ← fill loops (nodes_ s) (stack_ s) (inout_ s);
        Ok (true, set_inout s board)
      else
        c ← get_min_column loops (nodes_ s) (root_ s);
        h ← cover loops c (nodes_ s);
        row ← rd Down h c;
        '(found, s) ← try_rows loops c row (try_row loops (solve loops fuel)) (set_nodes s h);
        if found : bool then Ok (true, s) else
        h ← uncover loops c (nodes_ s);
        Ok (false, set_nodes s h)
  end.

(** ** The store as a function of field and pointer *)

Definition F (f : node_field) (h : heap) (p : ptr) : option Z := getf f <$> h !! p.

Definition hset (f : node_field) (p : ptr) (v : Z) (h : heap) : heap := alter (setf f v) p h.

Lemma getf_setf f g v n : getf f (setf g v n) = if decide (f = g) then v else getf f n.
Proof. destruct n, f, g; done. Qed.

Lemma F_ext h h' : (forall f p, F f h p = F f h' p) -> h = h'.
Proof.
  intros E. apply map_eq. intros p.
  assert (Eall : forall f, getf f <$> h !! p = getf f <$> h' !! p) by (intros f; apply E).
  destruct (h !! p) as [[]|], (h' !! p) as [[]|];
    [|by discriminate (Eall Left)..|done].
  pose proof (Eall Left); pose proof (Eall Right); pose proof (Eall Up); pose proof (Eall Down);
    pose proof (Eall Col); pose proof (Eall Name); pose proof (Eall Size).
  cbn in *. congruence.
Qed.

Lemma F_is_Some f g h p : is_Some (F f h p) -> is_Some (F g h p).
Proof. unfold F. destruct (h !! p); [by eauto|]. cbn. by intros []. Qed.

Lemma F_hset f g p q v h :
  F f (hset g p v h) q = if decide (f = g /\ q = p) then (fun _ => v) <$> F f h q else F f h q.
Proof.
  unfold F, hset. destruct (decide (q = p)) as [->|].
  - rewrite lookup_alter_eq. destruct (h !! p) as [n|]; cbn; [|by case_decide].
    rewrite getf_setf. repeat case_decide; naive_solver.
  - rewrite lookup_alter_ne by done. case_decide; naive_solver.
Qed.

Lemma F_hset_eq f p v h : is_Some (F f h p) -> F f (hset f p v h) p = Some v.
Proof. intros [w E]. rewrite F_hset, decide_True, E; done. Qed.

Lemma F_hset_some f g p q v h : is_Some (F f h q) -> is_Some (F f (hset g p v h) q).
Proof. intros [w E]. rewrite F_hset, E. case_decide; cbn; eauto. Qed.

Lemma F_hset_fld f g p q v h : f <> g -> F f (hset g p v h) q = F f h q.
Proof. intros. rewrite F_hset, decide_False; naive_solver. Qed.

Lemma F_hset_ptr f g p q v h : q <> p -> F f (hset g p v h) q = F f h q.
Proof. intros. rewrite F_hset, decide_False; naive_solver. Qed.

Lemma rd_F f h p v : F f h p = Some v -> rd f h p = Ok v.
Proof. unfold F, rd. destruct (h !! p); cbn; congruence. Qed.

Lemma wr_F f h p v : is_Some (F f h p) -> wr f h p v = Ok (hset f p v h).
Proof.
  unfold F, wr, hset. destruct (h !! p) as [n|] eqn:E; [|by intros []]. intros _. cbn. f_equal.
  apply map_eq. intros q. destruct (decide (q = p)) as [->|].
  - by rewrite lookup_insert_eq, lookup_alter_eq, E.
  - by rewrite lookup_insert_ne, lookup_alter_ne by done.
Qed.

(** Read a field of a store that was written to. *)
Ltac alive := repeat apply F_hset_some; by eauto using F_is_Some.
Ltac fsimp :=
  repeat first
    [ rewrite F_hset_fld by done
    | rewrite F_hset_ptr by (done || congruence)
    | rewrite F_hset_eq by alive ].

(** ** Unlinking a node and linking it again *)

(** A node between its neighbours in the list of its column. *)
Record linked (h : heap) (j d u c n : Z) : Prop := {
  lk_down : F Down h j = Some d;
  lk_up : F Up h j = Some u;
  lk_down_up : F Up h d = Some j;
  lk_up_down : F Down h u = Some j;
  lk_col : F Col h j = Some c;
  lk_size : F Size h c = Some n;
  lk_d : d <> j;
  lk_u : u <> j }.

Definition unlinked (h : heap) (d u c n : Z) : heap :=
  hset Size c (n - 1) (hset Down u d (hset Up d u h)).

Lemma unlink_ok h j d u c n : linked h j d u c n -> unlink j h = Ok (unlinked h d u c n).
Proof.
  intros []. unfold unlink, unlinked.
  rewrite (rd_F Down h j d), (rd_F Up h j u) by done; cbn.
  rewrite wr_F by alive; cbn.
  rewrite (rd_F Up _ j u), (rd_F Down _ j d) by (fsimp; done); cbn.
  rewrite wr_F by alive; cbn.
  rewrite (rd_F Col _ j c) by (fsimp; done); cbn.
  rewrite (rd_F Size _ c n) by (fsimp; done); cbn.
  by rewrite wr_F by alive.
Qed.

Lemma relink_unlinked h j d u c n :
  linked h j d u c n -> relink j (unlinked h d u c n) = Ok h.
Proof.
  intros []. unfold relink, unlinked.
  rewrite (rd_F Col _ j c) by (fsimp; done); cbn.
  rewrite (rd_F Size _ c (n - 1)) by (fsimp; done); cbn.
  rewrite wr_F by alive; cbn.
  rewrite (rd_F Down _ j d) by (fsimp; done); cbn.
  rewrite wr_F by alive; cbn.
  rewrite (rd_F Up _ j u) by (fsimp; done); cbn.
  rewrite wr_F by alive.
  f_equal. apply F_ext. intros f p.
  rewrite !F_hset. repeat case_decide; destruct_and?; subst; try done;
    repeat match goal with H : F _ _ _ = Some _ |- _ => rewrite H end;
    cbn; f_equal; lia.
Qed.

(** ** Circular doubly linked lists

    [chain f g h a l b]: following [f] from [a] one meets the nodes of [l] and then
    [b], and [g] leads back. *)

Fixpoint chain (f g : node_field) (h : heap) (a : ptr) (l : list ptr) (b : ptr) : Prop :=
  match l with
  | [] => F f h a = Some b /\ F g h b = Some a
  | x :: l => F f h a = Some x /\ F g h x = Some a /\ chain f g h x l b
  end.

Definition ring (f g : node_field) (h : heap) (c : ptr) (l : list ptr) : Prop :=
  chain f g h c l c /\ NoDup (c :: l).

Lemma chain_app f g h a l1 x l2 b :
  chain f g h a (l1 ++ x :: l2) b <-> chain f g h a l1 x /\ chain f g h x l2 b.
Proof. revert a. induction l1 as [|y l1 IH]; intros a; cbn; [tauto|]. rewrite IH. tauto. Qed.

Lemma chain_rev f g h a l b : chain f g h a l b -> chain g f h b (reverse l) a.
Proof.
  revert a. induction l as [|x l IH]; intros a; cbn [chain]; [rewrite reverse_nil; cbn; tauto|].
  intros (? & ? & ?). rewrite reverse_cons. apply chain_app. split; [by apply IH|done].
Qed.

Lemma ring_rev f g h c l : ring f g h c l -> ring g f h c (reverse l).
Proof.
  intros [Hc Hnd]. split; [by apply chain_rev|].
  apply NoDup_cons in Hnd as [? ?]. apply NoDup_cons.
  by rewrite elem_of_reverse, reverse_Permutation.
Qed.

Lemma ring_rotate f g h a l1 n l2 :
  chain f g h a (l1 ++ n :: l2) a -> chain f g h n (l2 ++ a :: l1) n.
Proof. rewrite !chain_app. tauto. Qed.

Lemma chain_head f g h a l b : chain f g h a l b -> F f h a = Some (hd b l).
Proof. destruct l; cbn; tauto. Qed.

Lemma chain_last f g h a l b : chain f g h a l b -> F g h b = Some (hd a (reverse l)).
Proof. intros ?%chain_rev. by eapply chain_head. Qed.

(** A chain depends on the links of its nodes only. *)
Lemma chain_frame f g h h' a l b :
  (forall q, q ∈ a :: l -> F f h' q = F f h q) ->
  (forall q, q ∈ l ++ [b] -> F g h' q = F g h q) ->
  chain f g h a l b -> chain f g h' a l b.
Proof.
  revert a. induction l as [|x l IH]; intros a Hf Hg; cbn.
  - rewrite Hf, Hg by set_solver. done.
  - intros (? & ? & ?). rewrite Hf, Hg by set_solver. split; [done|]. split; [done|].
    apply IH; [set_solver..|done].
Qed.

Lemma ring_frame f g h h' c l :
  (forall q, q ∈ c :: l -> F f h' q = F f h q /\ F g h' q = F g h q) ->
  ring f g h c l -> ring f g h' c l.
Proof.
  intros E [Hc Hnd]. split; [|done]. eapply chain_frame; [..|done];
    intros q Hq; apply E; set_solver.
Qed.

(** The neighbours of a node of a ring. *)
Lemma ring_neighbours f g h c l1 j l2 :
  ring f g h c (l1 ++ j :: l2) ->
  exists d u, F f h j = Some d /\ F g h j = Some u /\ F g h d = Some j /\ F f h u = Some j /\
    d <> j /\ u <> j /\ d ∈ c :: l1 ++ j :: l2 /\ u ∈ c :: l1 ++ j :: l2.
Proof.
  intros [(H1 & H2)%chain_app Hnd].
  exists (hd c l2), (hd c (reverse l1)).
  pose proof (chain_head _ _ _ _ _ _ H2). pose proof (chain_last _ _ _ _ _ _ H1).
  apply chain_rev in H1.
  assert (Hd : hd c l2 ∈ c :: l2) by (destruct l2; cbn; set_solver).
  assert (Hu : hd c (reverse l1) ∈ c :: l1).
  { apply elem_of_cons. assert (Hr : forall x, x ∈ reverse l1 -> x ∈ l1)
      by (intros x; by rewrite elem_of_reverse).
    destruct (reverse l1); cbn; set_solver. }
  assert (Hj : j ∉ c :: l1 /\ j ∉ c :: l2).
  { apply NoDup_cons in Hnd as [Hc Hnd]. apply NoDup_app in Hnd as (? & Hdj & Hnd).
    apply NoDup_cons in Hnd as [? ?]. split; intros [->|?]%elem_of_cons; set_solver. }
  split_and!; [done|done| | | | |set_solver..].
  - destruct l2; cbn in *; tauto.
  - destruct (reverse l1); cbn in *; tauto.
  - intros E. rewrite E in Hd. tauto.
  - intros E. rewrite E in Hu. tauto.
Qed.

Lemma ring_remove f g h h' c l1 j l2 d u :
  ring f g h c (l1 ++ j :: l2) -> F f h j = Some d -> F g h j = Some u ->
  F f h' u = Some d -> F g h' d = Some u ->
  (forall q, q <> u -> F f h' q = F f h q) -> (forall q, q <> d -> F g h' q = F g h q) ->
  ring f g h' c (l1 ++ l2).
Proof.
  intros [(H1 & H2)%chain_app Hnd] Hd Hu Hd' Hu' Hf Hg.
  rewrite (chain_head _ _ _ _ _ _ H2) in Hd. rewrite (chain_last _ _ _ _ _ _ H1) in Hu.
  assert (Hnd' : NoDup (c :: l1 ++ l2)).
  { rewrite <- Permutation_middle in Hnd. apply NoDup_cons in Hnd as [? Hnd].
    apply NoDup_cons in Hnd as [? ?]. apply NoDup_cons. set_solver. }
  split; [|done]. injection Hd as Hd. injection Hu as Hu.
  apply NoDup_cons in Hnd' as [Hc Hnd']. apply NoDup_app in Hnd' as (Hn1 & Hn12 & Hn2).
  assert (H1' : forall x, x ∉ u :: l1 -> F g h' x = Some u -> F f h' u = Some x ->
            chain f g h' c l1 x).
  { intros x Hx Hgx Hfx. destruct l1 as [|y l1 _] using rev_ind.
    - cbn in Hu. subst u. done.
    - rewrite reverse_app in Hu. cbn in Hu. subst y. apply chain_app. split; [|done].
      apply chain_app in H1 as [H1 _].
      apply NoDup_app in Hn1 as (? & Hu1 & _).
      eapply chain_frame; [..|exact H1]; intros q Hq; [apply Hf|apply Hg].
      + intros ->. set_solver.
      + intros ->. destruct l2 as [|z l2]; cbn in Hd; subst d; [set_solver|].
        apply (Hn12 z); set_solver. }
  destruct l2 as [|z l2]; cbn in Hd; subst d.
  - rewrite app_nil_r. destruct l1 as [|y l1 _] using rev_ind; [by cbn in Hu; subst|].
    rewrite reverse_app in Hu. cbn in Hu. subst y.
    apply chain_app. split; [|done]. apply chain_app in H1 as [H1 _].
    apply NoDup_app in Hn1 as (? & Hu1 & _).
    eapply chain_frame; [..|exact H1]; intros q Hq; [apply Hf|apply Hg]; set_solver.
  - assert (Hzu : z <> u).
    { intros ->. destruct (reverse l1) as [|y l] eqn:E; cbn in Hu; subst u; [set_solver|].
      apply (Hn12 y); [|set_solver]. apply elem_of_reverse. rewrite E. set_solver. }
    apply NoDup_cons in Hn2 as [Hz Hn2].
    apply chain_app. split; [apply H1'; [set_solver|done..]|].
    apply chain_app with (l1 := []) in H2 as [_ H2].
    assert (Hul : u ∉ l2).
    { intros ?. destruct (reverse l1) as [|y l] eqn:E; cbn in Hu; subst u; [set_solver|].
      apply (Hn12 y); [|set_solver]. apply elem_of_reverse. rewrite E. set_solver. }
    eapply chain_frame; [..|exact H2]; intros q Hq; [apply Hf|apply Hg]; set_solver.
Qed.

(** Appending before the header, as [put_left] and [put_up] do. *)
Lemma ring_append f g h h' c l x u :
  ring f g h c l -> x ∉ c :: l -> F g h c = Some u ->
  F f h' u = Some x -> F g h' x = Some u -> F f h' x = Some c -> F g h' c = Some x ->
  (forall q, q <> u -> q <> x -> F f h' q = F f h q) ->
  (forall q, q <> c -> q <> x -> F g h' q = F g h q) ->
  ring f g h' c (l ++ [x]).
Proof.
  intros [H Hnd] Hx Hu Hfu Hgx Hfx Hgc Hf Hg.
  rewrite (chain_last _ _ _ _ _ _ H) in Hu. injection Hu as Hu.
  split; [|apply NoDup_cons in Hnd as [? ?]; apply NoDup_cons; split; [set_solver|];
           apply NoDup_app; set_solver by eauto using NoDup_singleton].
  apply chain_app. split; [|done].
  destruct l as [|y l _] using rev_ind; [by cbn in Hu; subst|].
  rewrite reverse_app in Hu. cbn in Hu. subst y.
  apply chain_app. split; [|done]. apply chain_app in H as [H _].
  apply NoDup_cons in Hnd as [Hc Hnd]. apply NoDup_app in Hnd as (? & Hul & _).
  eapply chain_frame; [..|exact H]; intros q Hq; [apply Hf|apply Hg]; set_solver.
Qed.

(** ** Loops over a ring, forwards and back

    [trace step l h h'] : the steps for the members of [l], in order, lead from [h] to
    [h'].  A loop over a ring makes such a trace, and a loop in the other direction
    whose body undoes one step returns to [h]. *)

Inductive trace (step : ptr -> heap -> heap -> Prop) : list ptr -> heap -> heap -> Prop :=
| trace_nil h : trace step [] h h
| trace_cons j js h h1 h2 : step j h h1 -> trace step js h1 h2 -> trace step (j :: js) h h2.

Lemma trace_snoc step js j h h1 h2 :
  trace step js h h1 -> step j h1 h2 -> trace step (js ++ [j]) h h2.
Proof. induction 1; cbn; eauto using trace. Qed.

Lemma trace_snoc_inv step js j h h2 :
  trace step (js ++ [j]) h h2 -> exists h1, trace step js h h1 /\ step j h1 h2.
Proof.
  revert h. induction js as [|i js IH]; intros h Ht; inversion Ht as [|???? ? Hs Ht']; subst.
  - inversion Ht'; subst. eauto using trace.
  - destruct (IH _ Ht') as (? & ? & ?). eauto using trace.
Qed.

Lemma trace_inv (I : heap -> Prop) step js h h' :
  (forall j a b, j ∈ js -> step j a b -> I a -> I b) -> trace step js h h' -> I h -> I h'.
Proof. intros HI Ht. induction Ht; set_solver. Qed.

Lemma walk_inv (Q : list ptr -> heap -> Prop) fuel f stop body l h :
  (forall p rest h, Q (p :: rest) h ->
     exists h', body p h = Ok h' /\ Q rest h' /\ F f h' p = Some (hd stop rest)) ->
  stop ∉ l -> (length l < fuel)%nat -> Q l h ->
  exists h', walk fuel f stop (hd stop l) body h = Ok h' /\ Q [] h'.
Proof.
  intros Hbody. revert l h. induction fuel as [|fuel IH]; intros l h Hl Hlen HQ; [lia|].
  destruct l as [|p l]; cbn.
  - rewrite Z.eqb_refl. eauto.
  - rewrite (proj2 (Z.eqb_neq p stop)) by set_solver.
    destruct (Hbody _ _ _ HQ) as (h' & -> & HQ' & HF). cbn.
    rewrite (rd_F _ _ _ _ HF). cbn. apply IH; [set_solver|cbn in Hlen; lia|done].
Qed.

Lemma ring_next f g h c l1 p l2 : chain f g h c (l1 ++ p :: l2) c -> F f h p = Some (hd c l2).
Proof. intros [_ H]%chain_app. by eapply chain_head. Qed.

Section Loops.
Context (fuel : nat) (f g : node_field) (c : ptr) (l : list ptr)
  (step : ptr -> heap -> heap -> Prop).
Hypothesis (Hc : c ∉ l) (Hfuel : (length l < fuel)%nat).

Lemma walk_do (Inv : list ptr -> heap -> Prop) body h :
  (forall pre h, Inv pre h -> chain f g h c l c) ->
  (forall pre j rest h, l = pre ++ j :: rest -> Inv pre h ->
     exists h', body j h = Ok h' /\ step j h h' /\ Inv (pre ++ [j]) h') ->
  Inv [] h ->
  exists h', walk fuel f c (hd c l) body h = Ok h' /\ trace step l h h' /\ Inv l h'.
Proof.
  intros Hch Hbody H0.
  destruct (walk_inv (fun rest h' => exists pre, l = pre ++ rest /\
              trace step pre h h' /\ Inv pre h') fuel f c body l h)
    as (h' & ? & pre & E & ? & ?); [|done|done|by exists []; eauto using trace|].
  - intros p rest h1 (pre & E & Ht & HI).
    destruct (Hbody _ _ _ _ E HI) as (h2 & ? & ? & HI2).
    exists h2. split; [done|]. split; [exists (pre ++ [p]); rewrite <- app_assoc; eauto using trace_snoc|].
    apply Hch in HI2. rewrite E in HI2. by eapply ring_next.
  - rewrite app_nil_r in E. subst pre. eauto.
Qed.

Lemma walk_undo (I : heap -> Prop) body h h' :
  (forall h, I h -> chain g f h c l c) ->
  (forall j a b, j ∈ l -> step j a b -> I b -> body j b = Ok a /\ I a) ->
  trace step l h h' -> I h' ->
  walk fuel f c (hd c (reverse l)) body h' = Ok h.
Proof.
  intros Hch Hbody Ht HI.
  destruct (walk_inv (fun rest h1 => (exists pre, reverse l = pre ++ rest) /\
      trace step (reverse rest) h h1 /\ I h1) fuel f c body (reverse l) h')
    as (h1 & -> & _ & H1 & _).
  - intros p rest h1 ([pre E] & Ht1 & HI1). rewrite reverse_cons in Ht1.
    apply trace_snoc_inv in Ht1 as (h2 & Ht2 & Hs).
    destruct (Hbody p h2 h1) as [? HI2]; [|done..|].
    { apply elem_of_reverse. rewrite E. set_solver. }
    exists h2. split; [done|]. split; [split; [|done]; exists (pre ++ [p]); by rewrite <- app_assoc|].
    apply Hch, chain_rev in HI2. rewrite E in HI2. by eapply ring_next.
  - by rewrite elem_of_reverse.
  - by rewrite length_reverse.
  - rewrite reverse_involutive. split; [by exists []|done].
  - inversion H1; subst. done.
Qed.
End Loops.

(** ** The matrix the store represents

    [K n] is the column of a node (a header is its own column) and [others n] the
    other nodes of the row of [n], in the order of [right].  These never change.
    What changes is which columns [cs] and which nodes [ns] are in the lists. *)

Section Matrix.
Context (K N : ptr -> Z) (others : ptr -> list ptr) (rows : list (list ptr)) (root : ptr).

Record matrix : Prop := {
  m_nodup : NoDup (concat rows);
  m_cols : forall r, r ∈ rows -> NoDup (K <$> r);
  m_others : forall r n, r ∈ rows -> n ∈ r -> n :: others n ≡ₚ r;
  m_root : root ∉ concat rows }.

Definition static (h : heap) : Prop :=
  forall n, n ∈ concat rows ->
    F Col h n = Some (K n) /\ F Name h n = Some (N n) /\ chain Right Left h n (others n) n.

Definition column (ns : list ptr) (c : ptr) : list ptr := filter (fun n => K n = c) ns.

Record rep (h : heap) (cs ns : list ptr) : Prop := {
  r_headers : ring Right Left h root cs;
  r_column : forall c, c ∈ cs ->
    ring Down Up h c (column ns c) /\ F Size h c = Some (zlen (column ns c));
  r_K : forall c, c ∈ cs -> K c = c /\ c ∉ concat rows;
  r_nodes : forall n, n ∈ ns -> n ∈ concat rows;
  r_static : static h }.

Definition fixed (f : node_field) : bool :=
  match f with Up | Down | Size => false | _ => true end.

(** A step that takes [j] out of the list of its column. *)
Definition unlink_step (j : ptr) (h h' : heap) : Prop :=
  exists d u n, linked h j d u (K j) n /\ h' = unlinked h d u (K j) n /\
    K d = K j /\ K u = K j /\ K (K j) = K j.

Lemma unlink_step_frame j h h' f q :
  unlink_step j h h' -> K q <> K j -> F f h' q = F f h q.
Proof.
  intros (d & u & n & _ & -> & ? & ? & ?) ?. unfold unlinked.
  rewrite !F_hset_ptr by congruence. done.
Qed.

Lemma unlink_step_fixed j h h' f q :
  unlink_step j h h' -> fixed f -> F f h' q = F f h q.
Proof.
  intros (d & u & n & _ & -> & _) ?. unfold unlinked.
  by rewrite !F_hset_fld by (by intros ->).
Qed.

Lemma static_frame h h' :
  (forall f q, fixed f -> q ∈ concat rows -> F f h' q = F f h q) ->
  (forall n j, n ∈ concat rows -> j ∈ others n -> j ∈ concat rows) ->
  static h -> static h'.
Proof.
  intros E Hin Hst n Hn. destruct (Hst n Hn) as (? & ? & ?).
  rewrite !E by done. split_and!; [done..|].
  eapply chain_frame; [..|done]; intros q Hq; apply E; try done; set_solver.
Qed.

Lemma others_in n j : matrix -> n ∈ concat rows -> j ∈ others n -> j ∈ concat rows.
Proof.
  intros Hm (r & Hr & Hn)%elem_of_concat Hj. apply elem_of_concat.
  exists r. split; [|done]. rewrite <- (m_others Hm r n) by done. set_solver.
Qed.

Lemma column_in ns c n : n ∈ column ns c <-> n ∈ ns /\ K n = c.
Proof. unfold column. rewrite list_elem_of_filter. apply and_comm. Qed.

Lemma column_without ns (X : list ptr) j c :
  column (filter (.∉ X ++ [j]) ns) c =
  filter (fun n => n <> j) (column (filter (.∉ X) ns) c).
Proof.
  unfold column. rewrite !list_filter_filter. apply list_filter_iff. set_solver.
Qed.

Hypothesis (Hm : matrix).

Lemma static_fixed h h' :
  (forall f q, fixed f -> q ∈ concat rows -> F f h' q = F f h q) -> static h -> static h'.
Proof. intros E. apply static_frame; [done|]. intros n j. by apply others_in. Qed.

Lemma unlink_step_static j h h' : unlink_step j h h' -> static h <-> static h'.
Proof.
  intros Hs. split; apply static_fixed; intros f q Hf _.
  - by apply (unlink_step_fixed j).
  - symmetry. by apply (unlink_step_fixed j).
Qed.

Lemma unlink_linked h cs ns j :
  rep h cs ns -> j ∈ ns -> K j ∈ cs ->
  exists d u, linked h j d u (K j) (zlen (column ns (K j))) /\ K d = K j /\ K u = K j.
Proof.
  intros Hr Hj Hc. destruct (r_column _ _ _ Hr _ Hc) as [Hring Hsize].
  assert (Hin : j ∈ column ns (K j)) by by apply column_in.
  apply list_elem_of_split in Hin as (l1 & l2 & E). rewrite E in Hring.
  destruct (ring_neighbours _ _ _ _ _ _ _ Hring) as (d & u & ? & ? & ? & ? & ? & ? & Hd & Hu).
  exists d, u. rewrite <- E in Hd, Hu.
  destruct (r_static _ _ _ Hr j) as (? & _); [by eapply r_nodes|].
  assert (HK : forall q, q ∈ K j :: column ns (K j) -> K q = K j).
  { intros q [->|[_ ?]%column_in]%elem_of_cons; [|done]. by eapply r_K. }
  split_and!; [by split|by apply HK..].
Qed.

Lemma unlink_rep h cs ns X j :
  rep h cs (filter (.∉ X) ns) -> j ∈ ns -> j ∉ X -> K j ∈ cs ->
  exists h', unlink j h = Ok h' /\ unlink_step j h h' /\ rep h' cs (filter (.∉ X ++ [j]) ns).
Proof.
  intros Hr Hj HX Hc.
  assert (Hj' : j ∈ filter (.∉ X) ns) by by apply list_elem_of_filter.
  destruct (unlink_linked _ _ _ _ Hr Hj' Hc) as (d & u & Hlk & Hd & Hu).
  destruct (r_K _ _ _ Hr _ Hc) as [HKc Hcr].
  eexists. split; [by eapply unlink_ok|].
  assert (Hs : unlink_step j h (unlinked h d u (K j) (zlen (column (filter (.∉ X) ns) (K j)))))
    by (unfold unlink_step; eauto 10).
  split; [done|]. set (h' := unlinked _ _ _ _ _) in *.
  assert (Hother : forall c, c ∈ cs -> c <> K j ->
            column (filter (.∉ X ++ [j]) ns) c = column (filter (.∉ X) ns) c).
  { intros c _ Hne. rewrite column_without. apply filter_id, Forall_forall.
    intros n [_ ?]%column_in ->. done. }
  split.
  - eapply ring_frame; [|by apply Hr]. intros q _. split; by apply (unlink_step_fixed j).
  - intros c Hcs. destruct (decide (c = K j)) as [->|Hne].
    + destruct (r_column _ _ _ Hr _ Hc) as [Hring Hsize].
      rewrite column_without. assert (Hin : j ∈ column (filter (.∉ X) ns) (K j)) by by apply column_in.
      apply list_elem_of_split in Hin as (l1 & l2 & E). unfold h'. rewrite E in Hring |- *.
      destruct Hlk as [????? Hs'].
      rewrite filter_ne_split by (destruct Hring as [_ [? ?]%NoDup_cons]; done).
      split.
      * eapply (ring_remove _ _ h); try done; unfold unlinked; intros; by fsimp.
      * unfold unlinked. fsimp. f_equal. rewrite !zlen_app, zlen_cons. lia.
    + rewrite Hother by done. destruct (r_column _ _ _ Hr _ Hcs) as [Hring Hsize].
      split; [|rewrite (unlink_step_frame j h); [done|done|by rewrite (proj1 (r_K _ _ _ Hr _ Hcs))]].
      eapply ring_frame; [|done]. intros q Hq.
      assert (K q <> K j).
      { apply elem_of_cons in Hq as [->|[_ ->]%column_in]; [|done].
        by rewrite (proj1 (r_K _ _ _ Hr _ Hcs)). }
      split; by apply (unlink_step_frame j).
  - apply Hr.
  - intros n [? ?]%list_elem_of_filter. eapply r_nodes; [done|].
    apply list_elem_of_filter. set_solver.
  - apply (unlink_step_static j h); [done|]. apply Hr.
Qed.

(** The rows [rs] are in the lists: all their columns are. *)
Record live (cs : list ptr) (rs : list (list ptr)) : Prop := {
  l_rows : forall r, r ∈ rs -> r ∈ rows;
  l_cols : forall r n, r ∈ rs -> n ∈ r -> K n ∈ cs }.

Lemma others_row r n j : r ∈ rows -> n ∈ r -> j ∈ others n -> j ∈ r /\ K j <> K n.
Proof.
  intros Hr Hn Hj. pose proof (m_others Hm _ _ Hr Hn) as Hp.
  split; [rewrite <- Hp; set_solver|]. intros E. pose proof (m_cols Hm _ Hr) as Hnd.
  rewrite <- Hp in Hnd. cbn in Hnd. apply NoDup_cons in Hnd as [Hnd _].
  apply Hnd. rewrite <- E. apply list_elem_of_fmap. eauto.
Qed.

Lemma others_nodup r n : r ∈ rows -> n ∈ r -> NoDup (n :: others n).
Proof.
  intros Hr Hn. rewrite (m_others Hm _ _ Hr Hn). apply (NoDup_fmap_1 K). by apply Hm.
Qed.

(** Two nodes of a column whose rows meet are the same. *)
Lemma others_disjoint n m j :
  n ∈ concat rows -> m ∈ concat rows -> K n = K m -> j ∈ others n -> j ∈ others m -> n = m.
Proof.
  intros (r & Hn & Hr)%elem_of_concat (r' & Hm' & Hr')%elem_of_concat E Hj Hj'.
  assert (r = r') as <-.
  { apply (concat_same rows r r' j); [apply Hm|done..| |]; by eapply others_row. }
  eapply NoDup_fmap_inj; [by apply Hm|done..].
Qed.

Section Cover.
Context (fuel : nat) (cs : list ptr) (rs : list (list ptr)) (c : ptr).
Hypothesis (Hlive : live cs rs) (Hc : c ∈ cs).
Hypothesis (Hfuel : (length (concat rows) < fuel)%nat).

Let ns := concat rs.
Let col_c := column ns c.

(** The loops of [cover] below the header, for one row and for all. *)
Definition row_step (n : ptr) : heap -> heap -> Prop := trace unlink_step (others n).

Lemma col_c_row n : n ∈ col_c -> exists r, r ∈ rs /\ r ∈ rows /\ n ∈ r /\ K n = c.
Proof.
  intros [(r & ? & ?)%elem_of_concat ?]%column_in. exists r. split_and!; try done.
  by eapply l_rows.
Qed.

Lemma row_length n : n ∈ concat rows -> (S (length (others n)) < fuel)%nat.
Proof.
  intros (r & Hn & Hr)%elem_of_concat.
  assert (Hlen : (length (n :: others n) <= length (concat rows))%nat).
  { apply submseteq_length, NoDup_submseteq; [by eapply others_nodup|].
    intros x Hx. apply elem_of_concat. exists r. split; [|done].
    by rewrite <- (m_others Hm r n). }
  cbn in Hlen. lia.
Qed.

Lemma others_length n : n ∈ concat rows -> (length (others n) < fuel)%nat.
Proof. intros ?%row_length. lia. Qed.

Lemma cover_row h cs' n pre :
  c ∉ cs' -> (forall k, k ∈ cs -> k <> c -> k ∈ cs') ->
  (forall m, m ∈ pre -> m ∈ col_c) -> n ∈ col_c -> n ∉ pre ->
  rep h cs' (filter (.∉ pre ≫= others) ns) ->
  exists h', (j ← rd Right h n; walk fuel Right n j unlink h) = Ok h' /\
    row_step n h h' /\ rep h' cs' (filter (.∉ (pre ++ [n]) ≫= others) ns).
Proof.
  intros Hcs' Hsub Hpre Hn Hnpre Hr.
  destruct (col_c_row _ Hn) as (r & Hrs & Hrows & Hnr & HKn).
  assert (Hnc : n ∈ concat rows) by (apply elem_of_concat; eauto).
  rewrite (rd_F Right h n (hd n (others n))); cbn.
  2: { eapply chain_head. apply (r_static _ _ _ Hr); done. }
  destruct (walk_do fuel Right Left n (others n) unlink_step
    (proj1 (proj1 (NoDup_cons _ _) (others_nodup _ _ Hrows Hnr))) (others_length _ Hnc)
    (fun d h => rep h cs' (filter (.∉ (pre ≫= others) ++ d) ns)) unlink h) as (h' & ? & ? & Hr').
  - intros d h' Hr'. by apply (r_static _ _ _ Hr').
  - intros d j rest h' E Hr'.
    assert (Hj : j ∈ others n) by (rewrite E; set_solver).
    destruct (others_row _ _ _ Hrows Hnr Hj) as [Hjr HKj].
    destruct (unlink_rep h' cs' ns ((pre ≫= others) ++ d) j Hr') as (h2 & ? & ? & ?).
    + apply elem_of_concat. eauto.
    + intros [(m & Hjm & Hmp)%list_elem_of_bind|Hjd]%elem_of_app.
      * destruct (col_c_row m (Hpre _ Hmp)) as (r' & ? & ? & ? & ?).
        assert (n = m) as ->; [|done].
        apply (others_disjoint n m j); [done|apply elem_of_concat; eauto|congruence|done..].
      * pose proof (others_nodup _ _ Hrows Hnr) as [_ Hnd]%NoDup_cons.
        rewrite E in Hnd. apply NoDup_app in Hnd as (_ & Hnd & _). by apply (Hnd j); [|set_solver].
    + apply Hsub; [by eapply l_cols|congruence].
    + rewrite <- app_assoc in *. eauto.
  - by rewrite app_nil_r.
  - exists h'. split_and!; [done..|]. by rewrite bind_app, bind_singleton.
Qed.

Lemma row_step_frame n h h' f q :
  n ∈ col_c -> K q = c -> row_step n h h' -> F f h' q = F f h q.
Proof.
  intros Hn Hq Ht. destruct (col_c_row _ Hn) as (r & ? & ? & ? & ?).
  revert Ht. unfold row_step.
  assert (Hj : forall j, j ∈ others n -> K q <> K j).
  { intros j Hj. destruct (others_row r n j) as [_ ?]; congruence. }
  induction 1 as [|j js a b d Hs _ IH]; [done|].
  rewrite IH by set_solver. apply (unlink_step_frame j); [done|]. apply Hj. set_solver.
Qed.

Lemma row_step_fixed n h h' f q : fixed f -> row_step n h h' -> F f h' q = F f h q.
Proof.
  unfold row_step. induction 2 as [|j js a b d Hs _ IH]; [done|].
  rewrite IH. by apply (unlink_step_fixed j).
Qed.

Lemma row_step_ring n h h' :
  K c = c -> n ∈ col_c -> row_step n h h' ->
  ring Down Up h c col_c <-> ring Down Up h' c col_c.
Proof.
  intros HK Hn Hs.
  assert (E : forall f q, q ∈ c :: col_c -> F f h' q = F f h q).
  { intros f q Hq. apply (row_step_frame n); [done| |done].
    by apply elem_of_cons in Hq as [->|[_ ?]%column_in]. }
  split; apply ring_frame; intros q Hq; rewrite !E by done; done.
Qed.

Lemma row_step_undo n h h' :
  n ∈ col_c -> static h' -> row_step n h h' ->
  (j ← rd Left h' n; walk fuel Left n j relink h') = Ok h /\ static h.
Proof.
  intros Hn Hst Hs. destruct (col_c_row _ Hn) as (r & ? & Hr & Hnr & ?).
  assert (Hnc : n ∈ concat rows) by (apply elem_of_concat; eauto).
  split.
  2: { revert Hst. apply static_fixed. intros. symmetry. by eapply row_step_fixed. }
  rewrite (rd_F Left h' n (hd n (reverse (others n)))); cbn.
  2: { eapply chain_last. by apply Hst. }
  eapply (walk_undo fuel Left Right n (others n) unlink_step); [| | |  |exact Hs|exact Hst].
  - by pose proof (others_nodup r n Hr Hnr) as [? _]%NoDup_cons.
  - by apply others_length.
  - intros h2 Hst2. by apply Hst2.
  - intros j a b _ Hst2 Hb. split; [|by apply (unlink_step_static j a b)].
    destruct Hst2 as (d & u & k & Hlk & -> & _). by apply relink_unlinked.
Qed.

Lemma col_c_length : c ∉ concat rows -> NoDup col_c -> c ∉ col_c /\ (length col_c < fuel)%nat.
Proof.
  intros Hcr Hnd.
  assert (Hin : forall n, n ∈ col_c -> n ∈ concat rows).
  { intros n (r & ? & ? & ? & ?)%col_c_row. apply elem_of_concat. eauto. }
  split; [by eauto|].
  pose proof (submseteq_length _ _ (NoDup_submseteq _ _ Hnd Hin)). lia.
Qed.

Lemma cover_rows h cs' :
  K c = c -> c ∉ concat rows -> c ∉ cs' -> (forall k, k ∈ cs -> k <> c -> k ∈ cs') ->
  ring Down Up h c col_c -> rep h cs' ns ->
  exists h', walk fuel Down c (hd c col_c)
      (fun row h => j ← rd Right h row; walk fuel Right row j unlink h) h = Ok h' /\
    trace row_step col_c h h' /\ ring Down Up h' c col_c /\
    rep h' cs' (filter (.∉ col_c ≫= others) ns).
Proof.
  intros HK Hcr Hcs' Hsub Hring Hr.
  assert (Hnd : NoDup col_c) by (by destruct Hring as [_ [_ ?]%NoDup_cons]).
  destruct (col_c_length Hcr Hnd) as [Hcc Hlen].
  destruct (walk_do fuel Down Up c col_c row_step Hcc Hlen (fun pre h => ring Down Up h c col_c /\
      rep h cs' (filter (.∉ pre ≫= others) ns))
    (fun row h => j ← rd Right h row; walk fuel Right row j unlink h) h)
    as (h' & ? & ? & ? & ?).
  - by intros pre h' [[? _] _].
  - intros pre n rest h' E [Hring' Hr'].
    rewrite E in Hnd. apply NoDup_app in Hnd as (_ & Hnd & _).
    assert (Hn : n ∈ col_c) by (rewrite E; set_solver).
    destruct (cover_row h' cs' n pre) as (h2 & ? & Hs & ?); [done..|rewrite E; set_solver|done| |done|].
    { intros ?. apply (Hnd n); set_solver. }
    exists h2. split_and!; [done..| |done]. by apply (row_step_ring n h' h2).
  - split; [done|]. cbn. rewrite filter_id; [done|]. apply Forall_forall. set_solver.
  - eauto 10.
Qed.

Lemma uncover_rows h h' :
  K c = c -> c ∉ concat rows -> ring Down Up h' c col_c -> static h' ->
  trace row_step col_c h h' ->
  walk fuel Up c (hd c (reverse col_c))
    (fun row h => j ← rd Left h row; walk fuel Left row j relink h) h' = Ok h.
Proof.
  intros HK Hcr Hring Hst Ht.
  destruct (col_c_length Hcr) as [Hcc Hlen]; [by destruct Hring as [_ [_ ?]%NoDup_cons]|].
  eapply (walk_undo fuel Up Down c col_c row_step Hcc Hlen
    (fun h => ring Down Up h c col_c /\ static h)); [|..|done|done].
  - by intros h2 [[? _] _].
  - intros n a b Hn Hs [Hring' Hst'].
    destruct (row_step_undo n a b) as [-> ?]; [done..|]. split_and!; [done| |done].
    by apply (row_step_ring n a b).
Qed.
End Cover.

(** The header of a column in the list of headers. *)
Record header (h : heap) (c l r : ptr) : Prop := {
  hd_left : F Left h c = Some l;
  hd_right : F Right h c = Some r;
  hd_left_right : F Right h l = Some c;
  hd_right_left : F Left h r = Some c;
  hd_l : l <> c;
  hd_r : r <> c }.

Definition header_out (h : heap) (l r : ptr) : heap := hset Right l r (hset Left r l h).

Lemma header_out_ok h c l r (k : heap -> res heap) :
  header h c l r ->
  (r ← rd Right h c; l ← rd Left h c; h ← wr Left h r l;
   l ← rd Left h c; r ← rd Right h c; h ← wr Right h l r; k h) = k (header_out h l r).
Proof.
  intros []. unfold header_out.
  rewrite (rd_F Right h c r), (rd_F Left h c l) by done; cbn.
  rewrite wr_F by alive; cbn.
  rewrite (rd_F Left _ c l), (rd_F Right _ c r) by (fsimp; done); cbn.
  by rewrite wr_F by alive.
Qed.

Lemma header_in_ok h c l r :
  header h c l r ->
  (r' ← rd Right (header_out h l r) c; h' ← wr Left (header_out h l r) r' c;
   l' ← rd Left h' c; wr Right h' l' c) = Ok h.
Proof.
  intros []. unfold header_out.
  rewrite (rd_F Right _ c r) by (fsimp; done); cbn.
  rewrite wr_F by alive; cbn.
  rewrite (rd_F Left _ c l) by (fsimp; done); cbn.
  rewrite wr_F by alive. f_equal. apply F_ext. intros f q.
  rewrite !F_hset. repeat case_decide; destruct_and?; subst; try done;
    repeat match goal with H : F _ _ _ = Some _ |- _ => rewrite H end; done.
Qed.

Lemma rep_header_out h cs ns c :
  rep h cs ns -> c ∈ cs ->
  exists l r, header h c l r /\ rep (header_out h l r) (filter (fun k => k <> c) cs) ns /\
    forall f q, f <> Left -> f <> Right -> F f (header_out h l r) q = F f h q.
Proof.
  intros Hr Hc. pose proof (r_headers _ _ _ Hr) as Hring.
  apply list_elem_of_split in Hc as (l1 & l2 & ->).
  destruct (ring_neighbours _ _ _ _ _ _ _ Hring) as (r & l & ? & ? & ? & ? & ? & ? & Hrin & Hlin).
  exists l, r. split; [by split|].
  assert (Hfr : forall f q, f <> Left -> f <> Right -> F f (header_out h l r) q = F f h q)
    by (intros; unfold header_out; by fsimp).
  assert (Hnot : forall q, q ∈ root :: l1 ++ c :: l2 -> q ∉ concat rows).
  { intros q [->|Hq]%elem_of_cons; [by apply Hm|]. by eapply r_K. }
  split; [|done].
  rewrite filter_ne_split by (by destruct Hring as [_ [_ ?]%NoDup_cons]).
  split.
  - eapply (ring_remove _ _ h); try done; unfold header_out; intros; by fsimp.
  - intros k Hk. destruct (r_column _ _ _ Hr k) as [? ?]; [set_solver|].
    rewrite Hfr by done. split; [|done].
    eapply ring_frame; [|done]. intros q _. by rewrite !Hfr.
  - intros k Hk. eapply r_K; [done|]. set_solver.
  - apply Hr.
  - eapply static_fixed; [|by apply Hr]. intros f q _ Hq. unfold header_out.
    rewrite !F_hset_ptr; [done|intros ->; by apply (Hnot r)|intros ->; by apply (Hnot l)].
Qed.

Lemma rep_columns h cs ns ns' :
  (forall c, c ∈ cs -> column ns' c = column ns c) ->
  (forall n, n ∈ ns' -> n ∈ concat rows) -> rep h cs ns -> rep h cs ns'.
Proof.
  intros E Hin []. split; [done| |done..]. intros c Hc. rewrite E by done. auto.
Qed.

(** The rows that do not meet a column. *)
Definition without (c : ptr) (rs : list (list ptr)) : list (list ptr) :=
  filter (fun r => c ∉ K <$> r) rs.

Lemma column_cover cs rs c k :
  live cs rs -> k <> c ->
  column (filter (.∉ column (concat rs) c ≫= others) (concat rs)) k =
  column (concat (without c rs)) k.
Proof.
  intros Hlive Hk. unfold column at 1. rewrite list_filter_filter.
  set (X := column (concat rs) c ≫= others).
  assert (HX : forall r n, r ∈ rs -> n ∈ r -> K n <> c -> n ∈ X <-> c ∈ K <$> r).
  { intros r n Hr Hn Hne. pose proof (l_rows _ _ Hlive _ Hr) as Hrow. unfold X.
    rewrite list_elem_of_bind. split.
    - intros (m & Hnm & [(r' & Hm' & Hr')%elem_of_concat HK]%column_in).
      assert (r' = r) as ->.
      { pose proof (l_rows _ _ Hlive _ Hr').
        apply (concat_same rows r' r n); [apply Hm|done..| |done]. by eapply others_row. }
      apply list_elem_of_fmap. eauto.
    - intros (m & HK & Hmr)%list_elem_of_fmap. exists m. split.
      + assert (Hn' : n ∈ m :: others m) by (by rewrite (m_others Hm r m)).
        by apply elem_of_cons in Hn' as [->|].
      + apply column_in. split; [|done]. apply elem_of_concat. eauto. }
  clearbody X. clear Hlive. induction rs as [|r rs IH]; [done|].
  cbn [concat]. unfold without. rewrite filter_app. rewrite IH by (intros; eapply HX; set_solver).
  destruct (decide (c ∈ K <$> r)) as [Hin|Hin].
  - rewrite (filter_cons_False _ r) by tauto. unfold column. rewrite <- app_nil_l. f_equal.
    apply filter_none. intros n Hn [HK HX']. apply HX'. apply (HX r); [set_solver..|congruence|done].
  - rewrite (filter_cons_True _ r) by done. cbn. unfold column. rewrite filter_app. f_equal.
    apply filter_in_iff. intros n Hn. split; [tauto|]. intros HK. split; [done|].
    rewrite (HX r n); [done|set_solver..|congruence].
Qed.

Lemma live_without cs rs c :
  live cs rs -> live (filter (fun k => k <> c) cs) (without c rs).
Proof.
  intros [H1 H2]. split.
  - intros r [_ ?]%list_elem_of_filter. auto.
  - intros r n [Hc Hr]%list_elem_of_filter Hn. apply list_elem_of_filter. split; [|by eauto].
    intros <-. apply Hc. apply list_elem_of_fmap. eauto.
Qed.

Lemma live_nodes cs rs n : live cs rs -> n ∈ concat rs -> n ∈ concat rows.
Proof. intros Hl (r & ? & ?)%elem_of_concat. apply elem_of_concat. eauto using l_rows. Qed.

(** [cover] takes the column and the rows that meet it out of the matrix, and
    [uncover] restores the store exactly. *)
Lemma cover_correct fuel h cs rs c :
  (length (concat rows) < fuel)%nat -> live cs rs -> rep h cs (concat rs) -> c ∈ cs ->
  exists h', cover fuel c h = Ok h' /\ uncover fuel c h' = Ok h /\
    F Down h' c = Some (hd c (column (concat rs) c)) /\
    chain Down Up h' c (column (concat rs) c) c /\
    rep h' (filter (fun k => k <> c) cs) (concat (without c rs)).
Proof.
  intros Hfuel Hlive Hr Hc.
  destruct (rep_header_out _ _ _ _ Hr Hc) as (l & r & Hhd & Hr1 & Hfr).
  destruct (r_K _ _ _ Hr _ Hc) as [HK Hcr].
  destruct (r_column _ _ _ Hr _ Hc) as [Hring _].
  set (h1 := header_out h l r) in *.
  assert (Hring1 : ring Down Up h1 c (column (concat rs) c)).
  { eapply ring_frame; [|done]. intros q _. by rewrite !Hfr. }
  destruct (cover_rows fuel cs rs c Hlive Hc Hfuel h1 (filter (fun k => k <> c) cs))
    as (h' & Hw & Ht & Hring' & Hr'); [done|done| | |done|done|].
  { rewrite list_elem_of_filter. tauto. }
  { intros k ??. by apply list_elem_of_filter. }
  exists h'. split_and!.
  - unfold cover. rewrite (header_out_ok h c l r) by done.
    change (header_out h l r) with h1. rewrite (rd_F Down h1 c _ (chain_head _ _ _ _ _ _ (proj1 Hring1))).
    exact Hw.
  - unfold uncover. rewrite (rd_F Up h' c _ (chain_last _ _ _ _ _ _ (proj1 Hring'))). cbn.
    rewrite (uncover_rows fuel cs rs c Hlive Hc Hfuel h1 h'); [|done..|by apply Hr'|done].
    cbn. by apply header_in_ok.
  - eapply chain_head. apply Hring'.
  - apply Hring'.
  - eapply rep_columns; [| |exact Hr'].
    + intros k Hk. symmetry. apply (column_cover cs); [done|].
      by apply list_elem_of_filter in Hk as [? _].
    + intros n Hn. eapply live_nodes; [by apply (live_without cs rs c)|done].
Qed.
End Matrix.
