(* ===== verification/ExactCover.v ===== *)
(** * The search of [SudokuSolver::solve] finds an exact cover when there is one

    Over the representation of DancingLinks.v: the choice of a column, the rows tried in
    turn, and the solution written to the board. *)
From S2P Require Import Prelude DancingLinks.

Section Search.
Context (K N : ptr -> Z) (others : ptr -> list ptr) (rows : list (list ptr)) (root : ptr).
Context (loops : nat).
Hypothesis (Hm : matrix K others rows root).
Hypothesis (Hloops : (length (concat rows) < loops)%nat).

Local Abbreviation rep := (rep K N others rows root).
Local Abbreviation live := (live K rows).
Local Abbreviation without := (without K).

(** ** Choosing a column *)

(** The column chosen is a shortest one, or has at most one row. *)
Definition shortest (cs ns : list ptr) (c : ptr) : Prop :=
  c ∈ cs /\ (zlen (column K ns c) <= 1 \/
             forall k, k ∈ cs -> zlen (column K ns c) <= zlen (column K ns k)).

Lemma min_loop_ok h cs ns fuel pre rest c :
  rep h cs ns -> cs = pre ++ rest -> (length rest < fuel)%nat -> c ∈ pre ->
  (forall k, k ∈ pre -> zlen (column K ns c) <= zlen (column K ns k)) ->
  exists c', min_loop fuel h root (hd root rest) c (zlen (column K ns c)) = Ok c' /\ shortest cs ns c'.
Proof.
  intros Hr. revert pre rest c.
  induction fuel as [|fuel IH]; intros pre rest c E Hlen Hc Hmin; [lia|].
  destruct rest as [|k rest]; cbn.
  - rewrite Z.eqb_refl. exists c. split; [done|]. rewrite app_nil_r in E. subst pre. split; auto.
  - pose proof (r_headers _ _ _ _ _ _ _ _ Hr) as [Hch [Hroot _]%NoDup_cons].
    rewrite E in Hch. assert (Hk : k ∈ cs) by set_solver.
    rewrite (proj2 (Z.eqb_neq k root)) by (by intros ->).
    destruct (r_column _ _ _ _ _ _ _ _ Hr k Hk) as [_ Hsz].
    rewrite (rd_F Size h k _ Hsz). cbn.
    rewrite (rd_F Right h k _ (ring_next _ _ _ _ _ _ _ Hch)). cbn.
    assert (E' : cs = (pre ++ [k]) ++ rest) by (by rewrite <- app_assoc).
    case_match eqn:Hlt; [case_match eqn:H1|].
    + exists k. split; [done|]. split; [done|]. left. lia.
    + apply (IH (pre ++ [k])); [done|cbn in Hlen; lia|set_solver|].
      intros k' [Hk'| ->%list_elem_of_singleton]%elem_of_app; [|lia].
      specialize (Hmin _ Hk'). lia.
    + apply (IH (pre ++ [k])); [done|cbn in Hlen; lia|set_solver|].
      intros k' [Hk'| ->%list_elem_of_singleton]%elem_of_app; [by apply Hmin|lia].
Qed.

Lemma get_min_column_ok h cs ns fuel :
  rep h cs ns -> cs <> [] -> (length cs <= fuel)%nat ->
  exists c, get_min_column fuel h root = Ok c /\ shortest cs ns c.
Proof.
  intros Hr Hne Hlen. destruct cs as [|c cs]; [done|].
  pose proof (r_headers _ _ _ _ _ _ _ _ Hr) as [Hch _]. unfold get_min_column.
  rewrite (rd_F Right h root c) by apply Hch. cbn.
  destruct (r_column _ _ _ _ _ _ _ _ Hr c) as [_ Hsz]; [set_solver|].
  rewrite (rd_F Size h c _ Hsz). cbn. case_match eqn:H1.
  - rewrite (rd_F Right h c _ (ring_next _ _ _ _ [] _ _ Hch)). cbn.
    apply (min_loop_ok h (c :: cs) ns fuel [c] cs c); [done|done|cbn in Hlen; lia|set_solver|].
    intros k ->%list_elem_of_singleton. lia.
  - exists c. split; [done|]. split; [set_solver|]. left. lia.
Qed.

(** ** Covering several columns *)

Definition cols_out (ks cs : list ptr) : list ptr :=
  foldl (fun cs k => filter (fun x => x <> k) cs) cs ks.
Definition rows_out (ks : list ptr) (rs : list (list ptr)) : list (list ptr) :=
  foldl (fun rs k => without k rs) rs ks.

Lemma cols_out_in ks cs x : x ∈ cols_out ks cs <-> x ∈ cs /\ x ∉ ks.
Proof.
  unfold cols_out. revert cs. induction ks as [|k ks IH]; intros cs; cbn [foldl]; [set_solver|].
  rewrite IH, list_elem_of_filter. set_solver.
Qed.

Lemma rows_out_in ks rs r : r ∈ rows_out ks rs <-> r ∈ rs /\ forall k, k ∈ ks -> k ∉ K <$> r.
Proof.
  unfold rows_out. revert rs. induction ks as [|k ks IH]; intros rs; cbn [foldl]; [set_solver|].
  rewrite IH. unfold DancingLinks.without. rewrite list_elem_of_filter. set_solver.
Qed.

Lemma live_out ks cs rs : live cs rs -> live (cols_out ks cs) (rows_out ks rs).
Proof.
  revert cs rs. induction ks as [|k ks IH]; intros cs rs Hl; [done|].
  by apply IH, live_without.
Qed.

Lemma perm_filter_ne k (cs : list ptr) :
  NoDup cs -> k ∈ cs -> cs ≡ₚ k :: filter (fun x => x <> k) cs.
Proof.
  intros Hnd (l1 & l2 & ->)%list_elem_of_split. rewrite filter_ne_split by done.
  by rewrite Permutation_middle.
Qed.

Lemma cols_out_perm ks cs :
  NoDup ks -> NoDup cs -> (forall k, k ∈ ks -> k ∈ cs) -> cs ≡ₚ ks ++ cols_out ks cs.
Proof.
  revert cs. induction ks as [|k ks IH]; intros cs Hks Hcs Hsub; [done|].
  apply NoDup_cons in Hks as [Hk Hks].
  change (cols_out (k :: ks) cs) with (cols_out ks (filter (fun x => x <> k) cs)). cbn.
  rewrite <- IH; [apply perm_filter_ne; set_solver|done|by apply NoDup_filter|].
  intros x Hx. apply list_elem_of_filter. split; [by intros ->|set_solver].
Qed.

(** One round of the loops over the columns of a row. *)
Definition cover_step (j : ptr) (h h' : heap) : Prop :=
  cover loops (K j) h = Ok h' /\ uncover loops (K j) h' = Ok h /\ static K N others rows h.

Definition cover_cols (row : ptr) (h : heap) : res heap :=
  j ← rd Right h row; walk loops Right row j (fun j h => k ← rd Col h j; cover loops k h) h.
Definition uncover_cols (row : ptr) (h : heap) : res heap :=
  j ← rd Left h row; walk loops Left row j (fun j h => k ← rd Col h j; uncover loops k h) h.

Lemma cover_cols_ok h cs rs r n :
  r ∈ rows -> n ∈ r -> live cs rs -> rep h cs (concat rs) ->
  (forall j, j ∈ others n -> K j ∈ cs) ->
  exists h', cover_cols n h = Ok h' /\ uncover_cols n h' = Ok h /\
    rep h' (cols_out (K <$> others n) cs) (concat (rows_out (K <$> others n) rs)).
Proof.
  intros Hrow Hn Hl Hr Hcs. unfold cover_cols, uncover_cols.
  assert (Hnc : n ∈ concat rows) by (apply elem_of_concat; eauto).
  pose proof (others_nodup _ _ _ _ Hm _ _ Hrow Hn) as [Hno Hnd]%NoDup_cons.
  pose proof (others_length _ _ _ _ Hm _ Hloops _ Hnc) as Hlen.
  assert (HnK : NoDup (K <$> others n)).
  { pose proof (m_cols _ _ _ _ Hm _ Hrow) as H. rewrite <- (m_others _ _ _ _ Hm _ _ Hrow Hn) in H.
    by apply NoDup_cons in H as [_ ?]. }
  rewrite (rd_F Right h n (hd n (others n))); cbn.
  2: { eapply chain_head. by apply (r_static _ _ _ _ _ _ _ _ Hr). }
  destruct (walk_do loops Right Left n (others n) cover_step Hno Hlen
    (fun d h => rep h (cols_out (K <$> d) cs) (concat (rows_out (K <$> d) rs)))
    (fun j h => k ← rd Col h j; cover loops k h) h) as (h' & Hw & Ht & Hr').
  - intros d h' Hr'. by apply (r_static _ _ _ _ _ _ _ _ Hr').
  - intros d j rest h' E Hr'. assert (Hj : j ∈ others n) by (rewrite E; set_solver).
    pose proof (r_static _ _ _ _ _ _ _ _ Hr') as Hst.
    destruct (Hst j) as (HC & _); [by eapply others_in|]. rewrite (rd_F _ _ _ _ HC). cbn.
    destruct (cover_correct K N others rows root Hm loops h' _ _ (K j) Hloops
      (live_out (K <$> d) _ _ Hl) Hr') as (h2 & Hc & Hu & _ & _ & Hr2).
    { apply cols_out_in. split; [by apply Hcs|].
      rewrite E, fmap_app in HnK. apply NoDup_app in HnK as (_ & HnK & _).
      intros Hin. apply (HnK _ Hin). cbn. set_solver. }
    exists h2. split; [done|]. split; [done|].
    rewrite fmap_app. unfold cols_out, rows_out. rewrite !foldl_app. exact Hr2.
  - done.
  - exists h'. split; [done|]. split; [|done].
    pose proof (r_static _ _ _ _ _ _ _ _ Hr') as Hst.
    rewrite (rd_F Left h' n (hd n (reverse (others n)))); cbn.
    2: { eapply chain_last. by apply Hst. }
    eapply (walk_undo loops Left Right n (others n) cover_step Hno Hlen (static K N others rows));
      [| |done|done].
    + intros h2 Hst2. by apply Hst2.
    + intros j a b Hj (_ & Hu & Hsa) Hsb. split; [|done].
      destruct (Hsb j) as (HC & _); [by eapply others_in|]. by rewrite (rd_F _ _ _ _ HC).
Qed.

(** ** Exact covers *)

(** The columns of the rows chosen are the columns, each once. *)
Definition exact_cover (cs : list ptr) (rs S : list (list ptr)) : Prop :=
  (forall r, r ∈ S -> r ∈ rs) /\ K <$> concat S ≡ₚ cs.

(** The problem that is left when the row through [n] is chosen. *)
Definition row_cols (n : ptr) : list ptr := K n :: (K <$> others n).

Lemma row_cols_perm r n : r ∈ rows -> n ∈ r -> row_cols n ≡ₚ K <$> r.
Proof. intros Hr Hn. rewrite <- (m_others _ _ _ _ Hm r n) by done. done. Qed.

Lemma exact_cover_choose cs rs S c :
  NoDup cs -> live cs rs -> exact_cover cs rs S -> c ∈ cs ->
  exists n r S', n ∈ column K (concat rs) c /\ r ∈ rs /\ n ∈ r /\
    exact_cover (cols_out (row_cols n) cs) (rows_out (row_cols n) rs) S'.
Proof.
  intros Hnd Hl [Hsub Hp] Hc.
  assert (Hin : c ∈ K <$> concat S) by by rewrite Hp.
  apply list_elem_of_fmap in Hin as (n & -> & (r & Hn & HrS)%elem_of_concat).
  apply list_elem_of_split in HrS as (S1 & S2 & ->).
  assert (Hr : r ∈ rs) by (apply Hsub; rewrite elem_of_app, elem_of_cons; auto).
  pose proof (row_cols_perm r n (l_rows _ _ _ _ Hl _ Hr) Hn) as Hrc.
  assert (Hp' : row_cols n ++ (K <$> concat (S1 ++ S2)) ≡ₚ cs).
  { rewrite <- Hp, Hrc, !concat_app. cbn. rewrite !fmap_app. apply Permutation_app_swap_app. }
  assert (Hnd' : NoDup (row_cols n ++ (K <$> concat (S1 ++ S2)))) by by rewrite Hp'.
  exists n, r, (S1 ++ S2). split_and!; [|done|done|].
  { apply column_in. split; [|done]. apply elem_of_concat. eauto. }
  split.
  - intros r' Hr'. apply rows_out_in. split; [apply Hsub; set_solver|].
    intros k Hk (m & -> & Hmr)%list_elem_of_fmap.
    apply NoDup_app in Hnd' as (_ & Hd & _). apply (Hd _ Hk).
    apply list_elem_of_fmap. exists m. split; [done|]. apply elem_of_concat. eauto.
  - apply (Permutation_app_inv_l (row_cols n)). rewrite Hp'. apply cols_out_perm; [|done|].
    + by apply NoDup_app in Hnd' as (? & _).
    + intros k Hk. rewrite <- Hp'. set_solver.
Qed.

Lemma exact_cover_add cs rs S r n :
  NoDup cs -> live cs rs -> r ∈ rs -> n ∈ r ->
  exact_cover (cols_out (row_cols n) cs) (rows_out (row_cols n) rs) S ->
  exact_cover cs rs (r :: S).
Proof.
  intros Hnd Hl Hr Hn [Hsub Hp]. pose proof (l_rows _ _ _ _ Hl _ Hr) as Hrow.
  pose proof (row_cols_perm r n Hrow Hn) as Hrc. split.
  - intros r' [->|Hr']%elem_of_cons; [done|]. apply Hsub, rows_out_in in Hr'. tauto.
  - cbn. rewrite fmap_app, Hp, <- Hrc. symmetry. apply cols_out_perm; [|done|].
    + rewrite Hrc. by apply (m_cols _ _ _ _ Hm).
    + intros k. rewrite Hrc. intros (m & -> & ?)%list_elem_of_fmap. by eapply l_cols.
Qed.

(** ** The solution on the board *)

Context (cell val : ptr -> Z) (cells : Z).
(** Of the names in a row, those below 100 are its cell and the others end in its value. *)
Hypothesis (Hnames : forall n, n ∈ concat rows ->
  (forall m, m ∈ n :: others n -> if N m <? 100 then N m = cell n else Z.rem (N m) 10 = val n) /\
  (exists m, m ∈ n :: others n /\ N m < 100) /\ (exists m, m ∈ n :: others n /\ 100 <= N m) /\
  0 <= cell n < cells /\ val n <> -1).

Definition place (b : list Z) (n : ptr) : list Z := <[Z.to_nat (cell n) := val n]> b.

Lemma cell_val_loop h n fuel p l x y :
  n ∈ concat rows -> static K N others rows h ->
  chain Right Left h p l n -> (forall m, m ∈ p :: l -> m ∈ n :: others n) ->
  (length l < fuel)%nat ->
  (x = -1 \/ x = cell n) -> (y = -1 \/ y = val n) ->
  (x = -1 -> exists m, m ∈ p :: l /\ N m < 100) -> (y = -1 -> exists m, m ∈ p :: l /\ 100 <= N m) ->
  cell_val (S fuel) h p x y = Ok (cell n, val n).
Proof.
  intros Hn Hst. destruct (Hnames n Hn) as (Hnm & _ & _ & Hcell & Hval).
  revert p l x y. induction fuel as [|fuel IH]; intros p l x y Hch Hin Hlen Hx Hy Hx' Hy'; [lia|].
  assert (Hp : p ∈ n :: others n) by (apply Hin; set_solver).
  assert (Hpc : p ∈ concat rows).
  { apply elem_of_cons in Hp as [->|]; [done|]. by eapply others_in. }
  destruct (decide (x = -1 \/ y = -1)) as [Hun|Hfound].
  2: { cbn. replace ((x =? -1) || (y =? -1)) with false by lia. repeat f_equal; lia. }
  remember (S fuel) as k eqn:Ek. cbn. replace ((x =? -1) || (y =? -1)) with true by lia.
  destruct (Hst p Hpc) as (_ & HN & _). rewrite (rd_F _ _ _ _ HN). cbn.
  rewrite (rd_F Right h p _ (chain_head _ _ _ _ _ _ Hch)). cbn. specialize (Hnm _ Hp).
  destruct l as [|q l].
  - assert (Hone : forall Q : ptr -> Prop, (exists m, m ∈ [p] /\ Q m) -> Q p).
    { intros Q (m & ->%list_elem_of_singleton & ?). done. }
    subst k. cbn [hd].
    destruct (N p <? 100) eqn:E.
    + assert (y <> -1) by (intros Ey; apply Hy', Hone in Ey; lia).
      cbn. replace ((N p =? -1) || (y =? -1)) with false by lia. repeat f_equal; lia.
    + assert (x <> -1) by (intros Ex; apply Hx', Hone in Ex; lia).
      cbn. replace ((x =? -1) || (Z.rem (N p) 10 =? -1)) with false by lia. repeat f_equal; lia.
  - destruct Hch as (_ & _ & Hch). cbn in Hlen. cbn [hd].
    assert (Hlater : forall Q : ptr -> Prop, ~ Q p -> (exists m, m ∈ p :: q :: l /\ Q m) ->
              exists m, m ∈ q :: l /\ Q m).
    { intros Q HQ (m & [->|?]%elem_of_cons & ?); [done|eauto]. }
    destruct (N p <? 100) eqn:E; subst k;
      (apply (IH q l); [done|set_solver|lia|auto..| |]).
    + lia.
    + intros Ey. apply (Hlater (fun m => 100 <= N m)); [lia|auto].
    + intros Ex. apply (Hlater (fun m => N m < 100)); [lia|auto].
    + lia.
Qed.

Lemma fill_ok h stack board :
  static K N others rows h -> (forall n, n ∈ stack -> n ∈ concat rows) -> zlen board = cells ->
  fill loops h stack board = Ok (foldl place board stack).
Proof.
  intros Hst. revert board. induction stack as [|n stack IH]; intros board Hin Hlen; [done|].
  assert (Hn : n ∈ concat rows) by (apply Hin; set_solver).
  destruct (Hnames n Hn) as (_ & Hc & Hv & Hcell & _).
  pose proof (row_length _ _ _ _ Hm _ Hloops _ Hn) as Hol.
  cbn [fill]. assert (E : loops = S (pred loops)) by lia. rewrite E at 1.
  rewrite (cell_val_loop h n _ n (others n)); [|done|done|by apply Hst|done|lia|auto..].
  cbn. unfold store. replace ((0 <=? cell n) && (cell n <? zlen board)) with true by lia. cbn.
  apply IH; [set_solver|]. unfold place, zlen. by rewrite length_insert.
Qed.

(** ** The search *)

Lemma try_rows_ok (P : ptr -> Solver -> Prop) fuel c l try s :
  chain Down Up (nodes_ s) c l c -> c ∉ l -> (length l < fuel)%nat ->
  (forall n, n ∈ l -> try n s = Ok (false, s) \/ exists s', try n s = Ok (true, s') /\ P n s') ->
  (exists n s', n ∈ l /\ P n s' /\ try_rows fuel c (hd c l) try s = Ok (true, s')) \/
  ((forall n, n ∈ l -> try n s = Ok (false, s)) /\ try_rows fuel c (hd c l) try s = Ok (false, s)).
Proof.
  intros Hch. assert (Hsuf : exists pre, l ++ [] = pre ++ l) by (exists []; by rewrite app_nil_r).
  rewrite app_nil_r in Hsuf. revert Hch Hsuf. generalize l at 1 2 as all. revert l.
  induction fuel as [|fuel IH]; intros l all Hch [pre E] Hc Hlen Htry; [lia|].
  destruct l as [|n l]; cbn.
  - right. rewrite Z.eqb_refl. split; [set_solver|done].
  - rewrite (proj2 (Z.eqb_neq n c)) by set_solver.
    destruct (Htry n) as [Hf|(s' & Ht & HP)]; [set_solver| |].
    + rewrite Hf. cbn. rewrite E in Hch. rewrite (rd_F Down _ n _ (ring_next _ _ _ _ _ _ _ Hch)). cbn.
      destruct (IH l (pre ++ n :: l)) as [(m & s' & ? & ? & ?)|[Hall ?]].
      * done.
      * exists (pre ++ [n]). by rewrite <- app_assoc.
      * set_solver.
      * cbn in Hlen. lia.
      * intros m Hm'. apply Htry. set_solver.
      * left. exists m, s'. split; [set_solver|done].
      * right. split; [|done]. intros m [->|?]%elem_of_cons; auto.
    + left. exists n, s'. rewrite Ht. split; [set_solver|done].
Qed.

(** What [solve] does to a state: it writes an exact cover of the matrix to the board,
    or leaves everything as it was when there is none. *)
Definition solved (cs : list ptr) (rs : list (list ptr)) (s : Solver) (out : res (bool * Solver)) : Prop :=
  (exists S ns s', exact_cover cs rs S /\ Forall2 (fun n r => n ∈ r) ns S /\
     out = Ok (true, s') /\ inout_ s' = foldl place (inout_ s) (stack_ s ++ ns)) \/
  ((forall S, ~ exact_cover cs rs S) /\ out = Ok (false, s)).

Lemma live_row cs rs c n :
  live cs rs -> n ∈ column K (concat rs) c -> exists r, r ∈ rs /\ r ∈ rows /\ n ∈ r /\ K n = c.
Proof.
  intros Hl [(r & ? & ?)%elem_of_concat ?]%column_in. exists r. split_and!; try done.
  by eapply l_rows.
Qed.

(** A row tried: the state on which the recursive call works, and what comes back. *)
Lemma try_row_ok rec s cs rs r n :
  r ∈ rows -> n ∈ r -> live cs rs -> rep (nodes_ s) cs (concat rs) ->
  (forall j, j ∈ others n -> K j ∈ cs) ->
  let cs' := cols_out (K <$> others n) cs in
  let rs' := rows_out (K <$> others n) rs in
  (forall h, rep h cs' (concat rs') ->
     solved cs' rs' (set_nodes (set_stack s (stack_ s ++ [n])) h)
       (rec (set_nodes (set_stack s (stack_ s ++ [n])) h))) ->
  (exists S ns s', exact_cover cs' rs' S /\ Forall2 (fun n r => n ∈ r) ns S /\
     try_row loops rec n s = Ok (true, s') /\ inout_ s' = foldl place (inout_ s) (stack_ s ++ n :: ns)) \/
  ((forall S, ~ exact_cover cs' rs' S) /\ try_row loops rec n s = Ok (false, s)).
Proof.
  intros Hrow Hn Hl Hr Hin cs' rs' Hrec.
  destruct (cover_cols_ok (nodes_ s) cs rs r n Hrow Hn Hl Hr Hin) as (h & Hc & Hu & Hr').
  assert (Heq : try_row loops rec n s =
    ('(found, s') ← rec (set_nodes (set_stack s (stack_ s ++ [n])) h);
     if found : bool then Ok (true, s') else
     let s' := set_stack s' (removelast (stack_ s')) in
     h ← uncover_cols n (nodes_ s'); Ok (false, set_nodes s' h))).
  { unfold try_row. unfold cover_cols in Hc. cbn in *. destruct (rd Right (nodes_ s) n); [|done].
    cbn in *. rewrite Hc. cbn. unfold uncover_cols.
    destruct (rec _) as [[[] s']|]; [done| |done]. cbn.
    destruct (rd Left _ n); done. }
  rewrite Heq. destruct (Hrec h Hr') as [(S & ns & s' & ? & ? & -> & E)|[Hno ->]].
  - left. exists S, ns, s'. cbn. split_and!; [done..|]. rewrite E. cbn. by rewrite <- app_assoc.
  - right. split; [done|]. cbn. rewrite removelast_last, Hu. cbn. by destruct s.
Qed.

Lemma cols_out_length ks cs : (length (cols_out ks cs) <= length cs)%nat.
Proof.
  unfold cols_out. revert cs. induction ks as [|k ks IH]; intros cs; cbn [foldl]; [lia|].
  etrans; [apply IH|]. apply length_filter.
Qed.

(** With columns left, the root's left neighbour is one of them. *)
Lemma last_not_root cs : root ∉ cs -> cs <> [] -> hd root (reverse cs) <> root.
Proof.
  intros Hnr Hne E. apply Hnr, elem_of_reverse. destruct (reverse cs) as [|x l] eqn:Ec; [|cbn in E; subst; left].
  apply (f_equal reverse) in Ec. by rewrite reverse_involutive in Ec.
Qed.

Lemma solve_ok fuel s cs rs :
  root_ s = root -> rep (nodes_ s) cs (concat rs) -> live cs rs ->
  (length cs < fuel)%nat -> (length cs <= loops)%nat ->
  (forall n, n ∈ stack_ s -> n ∈ concat rows) -> zlen (inout_ s) = cells ->
  solved cs rs s (solve loops fuel s).
Proof.
  revert s cs rs. induction fuel as [|fuel IH]; intros s cs rs Hroot Hr Hl Hfuel Hll Hst Hin; [lia|].
  pose proof (r_headers _ _ _ _ _ _ _ _ Hr) as Hring. pose proof Hring as [Hch [Hnr Hnd]%NoDup_cons].
  cbn [solve]. rewrite Hroot, (rd_F Left _ root _ (chain_last _ _ _ _ _ _ Hch)). cbn.
  destruct (decide (cs = [])) as [->|Hne].
  { left. cbn. rewrite Z.eqb_refl.
    rewrite (fill_ok (nodes_ s)) by (done || by apply (r_static _ _ _ _ _ _ _ _ Hr)). cbn.
    exists [], [], (set_inout s (foldl place (inout_ s) (stack_ s))).
    rewrite app_nil_r. split_and!; [|done..]. split; [set_solver|done]. }
  rewrite (proj2 (Z.eqb_neq _ root)) by by apply last_not_root.
  destruct (get_min_column_ok (nodes_ s) cs (concat rs) loops Hr Hne Hll) as (c & -> & Hc & _). cbn.
  destruct (cover_correct _ _ _ _ _ Hm loops _ _ _ c Hloops Hl Hr Hc)
    as (h & -> & Hunc & Hdown & Hcol & Hr1). cbn.
  rewrite (rd_F _ _ _ _ Hdown). cbn.
  destruct (r_K _ _ _ _ _ _ _ _ Hr _ Hc) as [HKc Hcr].
  destruct (r_column _ _ _ _ _ _ _ _ Hr _ Hc) as [[_ [Hcc Hcnd]%NoDup_cons] _].
  destruct (col_c_length K rows loops cs rs c Hl Hloops Hcr Hcnd) as [_ Hclen].
  pose proof (live_without K rows _ _ c Hl) as Hl1. set (s1 := set_nodes s h).
  assert (Hlen1 : (length (filter (fun k => k <> c) cs) < length cs)%nat).
  { rewrite (perm_filter_ne c cs Hnd Hc) at 2. cbn. lia. }
  set (P := fun n s' => exists S ns,
    exact_cover (cols_out (row_cols n) cs) (rows_out (row_cols n) rs) S /\
    Forall2 (fun n r => n ∈ r) ns S /\ inout_ s' = foldl place (inout_ s) (stack_ s ++ n :: ns)).
  assert (Htry : forall n, n ∈ column K (concat rs) c ->
    (exists s', try_row loops (solve loops fuel) n s1 = Ok (true, s') /\ P n s') \/
    (try_row loops (solve loops fuel) n s1 = Ok (false, s1) /\
     forall S, ~ exact_cover (cols_out (row_cols n) cs) (rows_out (row_cols n) rs) S)).
  { intros n Hn. destruct (live_row _ _ _ _ Hl Hn) as (r & Hrs & Hrow & Hnr' & HKn).
    unfold P, row_cols. rewrite HKn.
    destruct (try_row_ok (solve loops fuel) s1 _ _ r n Hrow Hnr' Hl1 Hr1) as [(S & ns & s' & ? & ? & ? & ?)|[? ?]];
      [| |left; eauto 10|right; eauto].
    - intros j Hj. assert (j ∈ r /\ K j <> K n) as [? ?] by (by eapply others_row).
      apply list_elem_of_filter. split; [congruence|]. by eapply l_cols.
    - intros h' Hr'.
      pose proof (cols_out_length (K <$> others n) (filter (fun k => k <> c) cs)) as Hlen2.
      apply IH; [done|done|by apply live_out|lia|lia| |done].
      intros m [Hm'|Hm']%elem_of_app; [by apply Hst|].
      apply list_elem_of_singleton in Hm' as ->. apply elem_of_concat. eauto. }
  destruct (try_rows_ok P loops c (column K (concat rs) c) (try_row loops (solve loops fuel)) s1)
    as [(n & s' & Hn & (S & ns & ? & ? & ?) & ->)|[Hall ->]]; [done|done|done| | |].
  - intros n Hn. destruct (Htry n Hn) as [?|[? _]]; auto.
  - left. destruct (live_row _ _ _ _ Hl Hn) as (r & Hrs & Hrow & Hnr' & HKn).
    exists (r :: S), (n :: ns), s'. split_and!; [by eapply exact_cover_add|by constructor|done..].
  - right. cbn. rewrite Hunc. cbn. split; [|by destruct s].
    intros S HS. destruct (exact_cover_choose _ _ _ _ Hnd Hl HS Hc) as (n & r & S' & Hn & _ & _ & HS').
    destruct (Htry n Hn) as [(s' & Ht & _)|[_ Hno]]; [|by apply (Hno S')].
    rewrite Hall in Ht by done. done.
Qed.
End Search.
