(* ===== verification/Sudoku.v ===== *)
(** * The Sudoku solver (sudoku/sudoku.cc)

    [SudokuSolver] builds the matrix of an exact cover problem from a board: a column for
    each empty cell and for each value a row, column or box of the board does not have
    yet, a matrix row for each value a cell may take.  [solve] is in DancingLinks.v and
    ExactCover.v.  [solveSudoku] answers a line of 81 digits.

    The indices and the arithmetic on them are small non-negative [int]s. *)
From S2P Require Import Prelude DancingLinks ExactCover.

Definition kCells : Z := 81.
Definition kMaxNodes : Z := 1 + 81 * 4 + 9 * 9 * 9 * 4.
Definition kRow : Z := 100.
Definition kCol : Z := 200.
Definition kBox : Z := 300.
Definition kNoSolution : list char := lit "NoSolution".

(** Each loop over a list of nodes visits a node once, and each recursive call of [solve]
    covers a column. *)
Definition solver_fuel : nat := Z.to_nat (kMaxNodes + 1).

(** [for (int i = a; i < b; ++i) body(i)] over the indices [l]. *)
Fixpoint for_each {I A} (l : list I) (body : I -> A -> res A) (a : A) : res A :=
  match l with
  | [] => Ok a
  | i :: l => a ← body i a; for_each l body a
  end.

(** [a[i]] *)
Definition at_ {A} (a : list A) (i : Z) : res A :=
  if 0 <=? i then get (a !! Z.to_nat i) else Fault OutOfBounds.

(** ** Nodes *)

Definition new_column (n : Z) (s : Solver) : res (ptr * Solver) :=
  _ ← check (cur_node_ s <? kMaxNodes);
  let c := cur_node_ s in
  Ok (c, mkSolver (root_ s) (inout_ s) (columns_ s) (stack_ s)
           (<[c := mkNode c c c c c n 0]> (nodes_ s)) (c + 1)).

Definition put_left (old nnew : ptr) (h : heap) : res heap :=
  l ← rd Left h old; h ← wr Left h nnew l;
  h ← wr Right h nnew old;
  l ← rd Left h old; h ← wr Right h l nnew;
  wr Left h old nnew.

Definition put_up (old nnew : ptr) (h : heap) : res heap :=
  u ← rd Up h old; h ← wr Up h nnew u;
  h ← wr Down h nnew old;
  u ← rd Up h old; h ← wr Down h u nnew;
  h ← wr Up h old nnew;
  n ← rd Size h old; h ← wr Size h old (n + 1);
  wr Col h nnew old.

Definition append_column (n : Z) (s : Solver) : res Solver :=
  o ← at_ (columns_ s) n;
  _ ← check (bool_decide (o = None));
  '(c, s) ← new_column n s;
  h ← put_left (root_ s) c (nodes_ s);
  cols ← store (columns_ s) n (Some c);
  Ok (mkSolver (root_ s) (inout_ s) cols (stack_ s) h (cur_node_ s)).

Definition new_row (n : Z) (s : Solver) : res (ptr * Solver) :=
  o ← at_ (columns_ s) n;
  match o with
  | None => Fault AssertFailure
  | Some c =>
      _ ← check (cur_node_ s <? kMaxNodes);
      let r := cur_node_ s in
      h ← put_up c r (<[r := mkNode r r r r c n 0]> (nodes_ s));
      Ok (r, mkSolver (root_ s) (inout_ s) (columns_ s) (stack_ s) h (r + 1))
  end.

Definition get_row_col (row val : Z) : Z := kRow + row * 10 + val.
Definition get_col_col (col val : Z) : Z := kCol + col * 10 + val.
Definition get_box_col (box val : Z) : Z := kBox + box * 10 + val.

Definition row_of (i : Z) : Z := i / 9.
Definition col_of (i : Z) : Z := i mod 9.
Definition box_of (i : Z) : Z := row_of i / 3 * 3 + col_of i / 3.

(** ** The constructor *)

(** [bool a[kCells][10]], by the entries that are true. *)
Abbreviation flags := (gset (Z * Z)).

Definition in_flags (u v : Z) : bool := (0 <=? u) && (u <? kCells) && (0 <=? v) && (v <? 10).
Definition set_flag (a : flags) (u v : Z) : res flags :=
  if in_flags u v then Ok ({[ (u, v) ]} ∪ a) else Fault OutOfBounds.
Definition get_flag (a : flags) (u v : Z) : res bool :=
  if in_flags u v then Ok (bool_decide ((u, v) ∈ a)) else Fault OutOfBounds.

Definition used_values (board : list Z) : res (flags * flags * flags) :=
  for_each (seqZ 0 kCells) (fun i '(rows, cols, boxes) =>
    val ← at_ board i;
    rows ← set_flag rows (row_of i) val;
    cols ← set_flag cols (col_of i) val;
    boxes ← set_flag boxes (box_of i) val;
    Ok (rows, cols, boxes)) (∅, ∅, ∅).

Definition cell_columns (board : list Z) (s : Solver) : res Solver :=
  for_each (seqZ 0 kCells) (fun i s =>
    val ← at_ board i;
    if val =? 0 then append_column i s else Ok s) s.

Definition value_columns (rows cols boxes : flags) (s : Solver) : res Solver :=
  for_each (seqZ 0 9) (fun i s =>
    for_each (seqZ 1 9) (fun v s =>
      r ← get_flag rows i v;
      s ← if r : bool then Ok s else append_column (get_row_col i v) s;
      c ← get_flag cols i v;
      s ← if c : bool then Ok s else append_column (get_col_col i v) s;
      b ← get_flag boxes i v;
      if b : bool then Ok s else append_column (get_box_col i v) s) s) s.

Definition add_row (i v : Z) (s : Solver) : res Solver :=
  '(n0, s) ← new_row i s;
  '(nr, s) ← new_row (get_row_col (row_of i) v) s;
  '(nc, s) ← new_row (get_col_col (col_of i) v) s;
  '(nb, s) ← new_row (get_box_col (box_of i) v) s;
  h ← put_left n0 nr (nodes_ s);
  h ← put_left n0 nc h;
  h ← put_left n0 nb h;
  Ok (set_nodes s h).

Definition matrix_rows (board : list Z) (rows cols boxes : flags) (s : Solver) : res Solver :=
  for_each (seqZ 0 kCells) (fun i s =>
    val ← at_ board i;
    if val =? 0 then
      for_each (seqZ 1 9) (fun v s =>
        r ← get_flag rows (row_of i) v;
        c ← get_flag cols (col_of i) v;
        b ← get_flag boxes (box_of i) v;
        if (r || c || b : bool) then Ok s else add_row i v s) s
    else Ok s) s.

Definition SudokuSolver (board : list Z) : res Solver :=
  '(root, s) ← new_column 0 (mkSolver 0 board (replicate 400 None) [] ∅ 0);
  h ← wr Right (nodes_ s) root root;
  h ← wr Left h root root;
  let s := mkSolver root (inout_ s) (columns_ s) (stack_ s) h (cur_node_ s) in
  '(rows, cols, boxes) ← used_values board;
  s ← cell_columns board s;
  s ← value_columns rows cols boxes s;
  matrix_rows board rows cols boxes s.

(** ** Answering a line *)

Definition solveSudoku (puzzle : list char) : res (list char) :=
  _ ← check (zlen puzzle =? kCells);
  let board := (fun ch => ord ch - ord "0"%char) <$> puzzle in
  if forallb (fun v => (0 <=? v) && (v <=? 9)) board then
    s ← SudokuSolver board;
    '(found, s) ← solve solver_fuel solver_fuel s;
    if found : bool then Ok ((fun v => chr (v + ord "0"%char)) <$> inout_ s)
    else Ok kNoSolution
  else Ok kNoSolution.
