(* ===== verification/SudokuMatrix.v ===== *)
(** * The matrix that the constructor of [SudokuSolver] builds

    The loops of the constructor make a column for each name of [names b] and a row for
    each move of [moves b], without failing an assertion, and the store they leave
    represents that matrix.  Exact covers of it are sets of moves that meet every name
    once. *)
From S2P Require Import Prelude DancingLinks ExactCover Sudoku.

(** ** Adding to a ring *)

Lemma F_insert f h p n q :
  F f (<[p := n]> h) q = if decide (q = p) then Some (getf f n) else F f h q.
Proof.
  unfold F. case_decide as E; [subst; by rewrite lookup_insert_eq|by rewrite lookup_insert_ne].
Qed.

Lemma ring_last f g h c l :
  ring f g h c l -> exists u, F g h c = Some u /\ u ∈ c :: l /\ is_Some (F f h u).
Proof.
  intros [Hch _]. pose proof (chain_last _ _ _ _ _ _ Hch) as Hu. apply chain_rev in Hch.
  assert (Hrev : forall y, y ∈ reverse l -> y ∈ l) by (intros y; by rewrite elem_of_reverse).
  exists (hd c (reverse l)). split; [done|]. destruct (reverse l); cbn in *; set_solver.
Qed.

Lemma put_left_ring h old l x :
  ring Right Left h old l -> x ∉ old :: l -> is_Some (F Left h x) ->
  exists h', put_left old x h = Ok h' /\ ring Right Left h' old (l ++ [x]) /\
    (forall f q, f <> Left -> f <> Right -> F f h' q = F f h q) /\
    (forall f q, q ∉ old :: x :: l -> F f h' q = F f h q).
Proof.
  intros Hr Hx Hal. destruct (ring_last _ _ _ _ _ Hr) as (u & Hu & Hul & Hau).
  assert (x <> old /\ x <> u) as [? ?] by set_solver.
  exists (hset Left old x (hset Right u x (hset Right x old (hset Left x u h)))).
  assert (is_Some (F Right h x)) by (by apply (F_is_Some Left)).
  assert (is_Some (F Left h old)) by eauto. split_and!.
  - unfold put_left. rewrite (rd_F Left h old u) by done; cbn.
    rewrite wr_F by alive; cbn. rewrite wr_F by alive; cbn.
    rewrite (rd_F Left _ old u) by (fsimp; done); cbn.
    rewrite wr_F by alive; cbn. by rewrite wr_F by alive.
  - eapply (ring_append Right Left h); [done|done|done|..]; intros; fsimp; done.
  - intros. by fsimp.
  - intros f q Hq. rewrite !not_elem_of_cons in Hq. destruct Hq as (? & ? & ?).
    assert (q <> u) by set_solver. by fsimp.
Qed.

Lemma put_up_ring h old l x :
  ring Down Up h old l -> x ∉ old :: l -> is_Some (F Left h x) -> F Size h old = Some (zlen l) ->
  exists h', put_up old x h = Ok h' /\ ring Down Up h' old (l ++ [x]) /\
    F Size h' old = Some (zlen (l ++ [x])) /\ F Col h' x = Some old /\
    (forall f q, f = Left \/ f = Right \/ f = Name -> F f h' q = F f h q) /\
    (forall f q, q ∉ old :: x :: l -> F f h' q = F f h q) /\
    (forall q, q <> x -> F Col h' q = F Col h q).
Proof.
  intros Hr Hx Hal Hsz. destruct (ring_last _ _ _ _ _ Hr) as (u & Hu & Hul & Hau).
  assert (x <> old /\ x <> u) as [? ?] by set_solver.
  exists (hset Col x old (hset Size old (zlen l + 1) (hset Up old x (hset Down u x (hset Down x old (hset Up x u h)))))).
  assert (is_Some (F Down h x) /\ is_Some (F Up h x) /\ is_Some (F Col h x)) as (? & ? & ?)
    by (split_and!; by apply (F_is_Some Left)).
  assert (is_Some (F Up h old)) by eauto. assert (is_Some (F Size h old)) by eauto. split_and!.
  - unfold put_up. rewrite (rd_F Up h old u) by done; cbn.
    rewrite wr_F by alive; cbn. rewrite wr_F by alive; cbn.
    rewrite (rd_F Up _ old u) by (fsimp; done); cbn.
    rewrite wr_F by alive; cbn. rewrite wr_F by alive; cbn.
    rewrite (rd_F Size _ old (zlen l)) by (fsimp; done); cbn.
    rewrite wr_F by alive; cbn. by rewrite wr_F by alive.
  - eapply (ring_append Down Up h); [done|done|done|..]; intros; fsimp; done.
  - fsimp. f_equal. rewrite zlen_app. done.
  - by fsimp.
  - intros f q [->|[->| ->]]; by fsimp.
  - intros f q Hq. rewrite !not_elem_of_cons in Hq. destruct Hq as (? & ? & ?).
    assert (q <> u) by set_solver. by fsimp.
  - intros q ?. by fsimp.
Qed.

(** ** Loops *)

Section ForEach.
Context {I A : Type}.

Lemma for_each_inv (Q : list I -> A -> Prop) l body a :
  (forall pre x post a, l = pre ++ x :: post -> Q pre a ->
     exists a', body x a = Ok a' /\ Q (pre ++ [x]) a') ->
  Q [] a -> exists a', for_each l body a = Ok a' /\ Q l a'.
Proof.
  intros Hb. assert (Hgen : forall post pre a, l = pre ++ post -> Q pre a ->
    exists a', for_each post body a = Ok a' /\ Q l a').
  { induction post as [|x post IH]; intros pre a' E HQ; cbn.
    - rewrite app_nil_r in E. subst. eauto.
    - destruct (Hb _ _ _ _ E HQ) as (a2 & -> & HQ2). cbn.
      apply (IH (pre ++ [x])); [by rewrite <- app_assoc|done]. }
  by apply Hgen.
Qed.

Lemma for_each_app l1 l2 (body : I -> A -> res A) a :
  for_each (l1 ++ l2) body a = (a ← for_each l1 body a; for_each l2 body a).
Proof.
  revert a. induction l1 as [|x l1 IH]; intros a; cbn; [done|].
  destruct (body x a); cbn; [apply IH|done].
Qed.

(** A loop whose body does something for some of the indices only. *)
Lemma for_each_filter (P : I -> bool) l (body act : I -> A -> res A) a :
  (forall i a, i ∈ l -> body i a = if P i then act i a else Ok a) ->
  for_each l body a = for_each (filter (fun i => P i) l) act a.
Proof.
  revert a. induction l as [|x l IH]; intros a Hb; [done|].
  assert (IH' : forall a, for_each l body a = for_each (filter (fun i => P i) l) act a)
    by (intros a'; apply IH; intros; apply Hb; set_solver).
  cbn [for_each]. rewrite Hb by set_solver. destruct (P x) eqn:E.
  - rewrite filter_cons_True by (by apply Is_true_true). cbn. destruct (act x a); cbn; [apply IH'|done].
  - rewrite filter_cons_False by (by apply Is_true_false). cbn. apply IH'.
Qed.
End ForEach.

(** Nested loops are one loop. *)
Lemma for_each_flat {I J A} (f : I -> list J) l (outer : I -> A -> res A) (body : J -> A -> res A) a :
  (forall i a, i ∈ l -> outer i a = for_each (f i) body a) ->
  for_each l outer a = for_each (flat_map f l) body a.
Proof.
  revert a. induction l as [|x l IH]; intros a Hb; [done|].
  cbn. rewrite for_each_app, Hb by set_solver.
  destruct (for_each (f x) body a); cbn; [|done]. apply IH. intros. apply Hb. set_solver.
Qed.

(** ** The columns and the rows of the matrix of a board *)

Lemma row_range i : 0 <= i < 81 -> 0 <= row_of i < 9.
Proof. unfold row_of. intros. Z.to_euclidean_division_equations. lia. Qed.
Lemma col_range i : 0 <= i < 81 -> 0 <= col_of i < 9.
Proof. unfold col_of. intros. Z.to_euclidean_division_equations. lia. Qed.
Lemma box_range i : 0 <= i < 81 -> 0 <= box_of i < 9.
Proof.
  intros. pose proof (row_range i). pose proof (col_range i). unfold box_of.
  Z.to_euclidean_division_equations. lia.
Qed.

Definition cell_at (b : list Z) (i : Z) : Z := b !!! Z.to_nat i.

(** The board has the value [v] in the row (column, box) [u]. *)
Definition used (b : list Z) (f : Z -> Z) (u v : Z) : bool :=
  existsb (fun i => (f i =? u) && (cell_at b i =? v)) (seqZ 0 81).

Definition all_names : list Z :=
  seqZ 0 81 ++ flat_map (fun i => flat_map (fun v =>
    [get_row_col i v; get_col_col i v; get_box_col i v]) (seqZ 1 9)) (seqZ 0 9).

Definition needed (b : list Z) (m : Z) : bool :=
  if m <? 100 then cell_at b m =? 0
  else if m <? 200 then negb (used b row_of ((m - 100) / 10) (m mod 10))
  else if m <? 300 then negb (used b col_of ((m - 200) / 10) (m mod 10))
  else negb (used b box_of ((m - 300) / 10) (m mod 10)).

Definition names (b : list Z) : list Z := filter (fun m => needed b m) all_names.

Definition all_moves : list (Z * Z) :=
  flat_map (fun i => (fun v => (i, v)) <$> seqZ 1 9) (seqZ 0 81).

Definition possible (b : list Z) (m : Z * Z) : bool :=
  (cell_at b m.1 =? 0) &&
  negb (used b row_of (row_of m.1) m.2 || used b col_of (col_of m.1) m.2 || used b box_of (box_of m.1) m.2).

Definition moves (b : list Z) : list (Z * Z) := filter (fun m => possible b m) all_moves.

(** The names of the four columns a matrix row meets. *)
Definition quad (m : Z * Z) : list Z :=
  [m.1; get_row_col (row_of m.1) m.2; get_col_col (col_of m.1) m.2; get_box_col (box_of m.1) m.2].

Lemma used_spec b f u v :
  used b f u v <-> exists i, 0 <= i < 81 /\ f i = u /\ cell_at b i = v.
Proof.
  unfold used. rewrite Is_true_true, existsb_exists. setoid_rewrite <- list_elem_of_In.
  setoid_rewrite elem_of_seqZ. split; intros (i & ? & ?); exists i; lia.
Qed.

Lemma needed_row b u v : 0 <= u < 9 -> 1 <= v <= 9 ->
  needed b (get_row_col u v) = negb (used b row_of u v).
Proof.
  intros. unfold needed, get_row_col, kRow. case_match; [lia|]. case_match; [|lia].
  replace ((100 + u * 10 + v - 100) / 10) with u by (Z.to_euclidean_division_equations; lia).
  by replace ((100 + u * 10 + v) mod 10) with v by (Z.to_euclidean_division_equations; lia).
Qed.
Lemma needed_col b u v : 0 <= u < 9 -> 1 <= v <= 9 ->
  needed b (get_col_col u v) = negb (used b col_of u v).
Proof.
  intros. unfold needed, get_col_col, kCol. do 2 (case_match; [lia|]). case_match; [|lia].
  replace ((200 + u * 10 + v - 200) / 10) with u by (Z.to_euclidean_division_equations; lia).
  by replace ((200 + u * 10 + v) mod 10) with v by (Z.to_euclidean_division_equations; lia).
Qed.
Lemma needed_box b u v : 0 <= u < 9 -> 1 <= v <= 9 ->
  needed b (get_box_col u v) = negb (used b box_of u v).
Proof.
  intros. unfold needed, get_box_col, kBox. do 3 (case_match; [lia|]).
  replace ((300 + u * 10 + v - 300) / 10) with u by (Z.to_euclidean_division_equations; lia).
  by replace ((300 + u * 10 + v) mod 10) with v by (Z.to_euclidean_division_equations; lia).
Qed.

Lemma all_names_nodup : NoDup all_names.
Proof. apply (bool_decide_unpack _). vm_compute. exact I. Qed.
Lemma all_moves_nodup : NoDup all_moves.
Proof. apply (bool_decide_unpack _). vm_compute. exact I. Qed.

Lemma all_names_range m : m ∈ all_names -> 0 <= m < 400.
Proof.
  intros Hm. assert (H : Forall (fun m => 0 <= m < 400) all_names)
    by (apply (bool_decide_unpack _); vm_compute; exact I).
  rewrite Forall_forall in H. auto.
Qed.

Lemma all_moves_in i v : (i, v) ∈ all_moves <-> 0 <= i < 81 /\ 1 <= v <= 9.
Proof.
  unfold all_moves. rewrite list_elem_of_In, in_flat_map. setoid_rewrite <- list_elem_of_In.
  setoid_rewrite elem_of_seqZ. split.
  - intros (j & ? & (v' & [= -> ->] & ?%elem_of_seqZ)%list_elem_of_fmap). lia.
  - intros. exists i. split; [lia|]. apply list_elem_of_fmap. exists v.
    rewrite elem_of_seqZ. split; [done|lia].
Qed.

Lemma all_names_cell i : 0 <= i < 81 -> i ∈ all_names.
Proof. intros. unfold all_names. rewrite elem_of_app, elem_of_seqZ. lia. Qed.

Lemma all_names_value u v m :
  0 <= u < 9 -> 1 <= v <= 9 -> m ∈ [get_row_col u v; get_col_col u v; get_box_col u v] ->
  m ∈ all_names.
Proof.
  intros. unfold all_names. apply elem_of_app. right. apply list_elem_of_In, in_flat_map.
  exists u. split; [apply list_elem_of_In, elem_of_seqZ; lia|]. apply in_flat_map.
  exists v. split; [apply list_elem_of_In, elem_of_seqZ; lia|]. by apply list_elem_of_In.
Qed.

Lemma all_names_inv m : m ∈ all_names ->
  0 <= m < 81 \/ exists u v, 0 <= u < 9 /\ 1 <= v <= 9 /\
    m ∈ [get_row_col u v; get_col_col u v; get_box_col u v].
Proof.
  unfold all_names. rewrite elem_of_app, elem_of_seqZ. intros [?|Hm]; [lia|]. right.
  apply list_elem_of_In, in_flat_map in Hm as (u & Hu & Hm).
  apply in_flat_map in Hm as (v & Hv & Hm).
  apply list_elem_of_In in Hu, Hv, Hm. apply elem_of_seqZ in Hu, Hv.
  exists u, v. split; [lia|]. split; [lia|]. exact Hm.
Qed.

(** ** The loops of the constructor *)

Definition board (b : list Z) : Prop := zlen b = 81 /\ Forall (fun v => 0 <= v <= 9) b.

Section Board.
Context (b : list Z).
Hypothesis (Hb : board b).

Lemma cell_at_range i : 0 <= i < 81 -> 0 <= cell_at b i <= 9.
Proof.
  intros Hi. destruct Hb as [Hlen Hall]. unfold cell_at, zlen in *.
  destruct (lookup_lt_is_Some_2 b (Z.to_nat i)) as [v Hv]; [lia|].
  rewrite (list_lookup_total_correct _ _ _ Hv). rewrite Forall_forall in Hall.
  apply Hall. by eapply list_elem_of_lookup_2.
Qed.

Lemma at_ok i : 0 <= i < 81 -> at_ b i = Ok (cell_at b i).
Proof.
  intros Hi. destruct Hb as [Hlen _]. unfold at_, cell_at, zlen in *.
  replace (0 <=? i) with true by lia.
  destruct (lookup_lt_is_Some_2 b (Z.to_nat i)) as [v Hv]; [lia|].
  by rewrite (list_lookup_total_correct _ _ _ Hv), Hv.
Qed.

Definition marks (f : Z -> Z) (l : list Z) (a : flags) : Prop :=
  forall u v, (u, v) ∈ a <-> exists i, i ∈ l /\ f i = u /\ cell_at b i = v.

Lemma set_flag_marks f l a i :
  0 <= i < 81 -> 0 <= f i < 9 -> marks f l a ->
  exists a', set_flag a (f i) (cell_at b i) = Ok a' /\ marks f (l ++ [i]) a'.
Proof.
  intros Hi Hf Ha. pose proof (cell_at_range i Hi). unfold set_flag, in_flags, kCells.
  replace (_ && _) with true by lia. eexists. split; [done|].
  intros u v. rewrite elem_of_union, elem_of_singleton, (Ha u v). split.
  - intros [[= -> ->]|(j & ? & ? & ?)]; [exists i|exists j]; set_solver.
  - intros (j & [?| ->%list_elem_of_singleton]%elem_of_app & <- & <-); eauto.
Qed.

Lemma marks_get f a u v :
  marks f (seqZ 0 81) a -> 0 <= u < 9 -> 1 <= v <= 9 -> get_flag a u v = Ok (used b f u v).
Proof.
  intros Ha Hu Hv. unfold get_flag, in_flags, kCells. replace (_ && _) with true by lia. f_equal.
  apply eq_bool_prop_intro. rewrite bool_decide_spec, used_spec, (Ha u v).
  setoid_rewrite elem_of_seqZ. split; intros (i & ? & ?); exists i; (split; [lia|done]).
Qed.

Lemma used_values_ok :
  exists rows cols boxes, used_values b = Ok (rows, cols, boxes) /\
    marks row_of (seqZ 0 81) rows /\ marks col_of (seqZ 0 81) cols /\ marks box_of (seqZ 0 81) boxes.
Proof.
  unfold used_values, kCells.
  edestruct (for_each_inv (fun l '(rows, cols, boxes) =>
    marks row_of l rows /\ marks col_of l cols /\ marks box_of l boxes) (seqZ 0 81))
    as ([[rows cols] boxes] & -> & ? & ? & ?); [| |by eauto 10].
  - intros pre i post [[rows cols] boxes] E (Hr & Hc & Hx).
    assert (Hi : 0 <= i < 81) by (cut (i ∈ seqZ 0 81); [rewrite elem_of_seqZ; lia|rewrite E; set_solver]).
    rewrite (at_ok i Hi). cbn.
    destruct (set_flag_marks row_of pre rows i) as (rows' & -> & ?); [done|by apply row_range|done|]. cbn.
    destruct (set_flag_marks col_of pre cols i) as (cols' & -> & ?); [done|by apply col_range|done|]. cbn.
    destruct (set_flag_marks box_of pre boxes i) as (boxes' & -> & ?); [done|by apply box_range|done|]. cbn.
    by exists (rows', cols', boxes').
  - split_and!; intros u v; set_solver.
Qed.

Lemma cell_columns_flat s :
  cell_columns b s = for_each (filter (fun m => needed b m) (seqZ 0 81)) append_column s.
Proof.
  unfold cell_columns, kCells. apply (for_each_filter (needed b)).
  intros i s' Hi%elem_of_seqZ. rewrite at_ok by lia. cbn. unfold needed.
  by replace (i <? 100) with true by lia.
Qed.

Section Flags.
Context (rows cols boxes : flags).
Hypothesis (Hrows : marks row_of (seqZ 0 81) rows) (Hcols : marks col_of (seqZ 0 81) cols)
  (Hboxes : marks box_of (seqZ 0 81) boxes).

Lemma value_columns_flat s :
  value_columns rows cols boxes s =
  for_each (filter (fun m => needed b m) (flat_map (fun i => flat_map (fun v =>
    [get_row_col i v; get_col_col i v; get_box_col i v]) (seqZ 1 9)) (seqZ 0 9))) append_column s.
Proof.
  symmetry.
  rewrite <- (for_each_filter (needed b) _ (fun m s => if needed b m then append_column m s else Ok s))
    by done.
  symmetry. unfold value_columns. apply for_each_flat. intros i s' Hi%elem_of_seqZ.
  apply for_each_flat. intros v s2 Hv%elem_of_seqZ.
  rewrite (marks_get row_of rows), (marks_get col_of cols), (marks_get box_of boxes) by (done || lia).
  cbn. rewrite needed_row, needed_col, needed_box by lia.
  destruct (used b row_of i v), (used b col_of i v), (used b box_of i v); cbn;
    repeat match goal with
      | |- context [append_column ?m ?st] => destruct (append_column m st); cbn
      end; done.
Qed.

Lemma matrix_rows_flat s :
  matrix_rows b rows cols boxes s = for_each (moves b) (fun m => add_row m.1 m.2) s.
Proof.
  symmetry. unfold moves.
  rewrite <- (for_each_filter (possible b) _ (fun m s => if possible b m then add_row m.1 m.2 s else Ok s))
    by done.
  symmetry. unfold matrix_rows, kCells. apply for_each_flat. intros i s' Hi%elem_of_seqZ.
  rewrite at_ok by lia. cbn [mbind res_bind].
  assert (Hr : 0 <= i < 81) by lia.
  pose proof (row_range i Hr). pose proof (col_range i Hr). pose proof (box_range i Hr).
  assert (Hgen : forall l s', (forall v, v ∈ l -> 1 <= v <= 9) ->
    (if cell_at b i =? 0 then
      for_each l (fun v s =>
        r ← get_flag rows (row_of i) v; c ← get_flag cols (col_of i) v;
        x ← get_flag boxes (box_of i) v;
        if (r || c || x : bool) then Ok s else add_row i v s) s'
     else Ok s') =
    for_each ((fun v => (i, v)) <$> l) (fun m s => if possible b m then add_row m.1 m.2 s else Ok s) s').
  { induction l as [|v l IH]; intros s2 Hl; [by case_match|].
    cbn [for_each fmap list_fmap]. cbn [fst snd].
    change (possible b (i, v)) with ((cell_at b i =? 0) && negb (used b row_of (row_of i) v ||
      used b col_of (col_of i) v || used b box_of (box_of i) v)).
    rewrite (marks_get row_of rows), (marks_get col_of cols), (marks_get box_of boxes) by (done || set_solver || (apply Hl; set_solver)).
    cbn [mbind res_bind]. specialize (fun s => IH s (fun v' Hv' => Hl v' ltac:(set_solver))).
    destruct (cell_at b i =? 0); cbn [andb].
    - destruct (_ || _); cbn; [apply IH|]. destruct (add_row i v s2); cbn; [apply IH|done].
    - cbn. apply IH. }
  apply Hgen. intros v ?%elem_of_seqZ. lia.
Qed.
End Flags.
End Board.

(** ** Where the constructor puts the nodes

    The root is node 0, the header of the [k]-th name of [nm] node [1 + k], and the
    [j]-th move of [mv] has the four nodes from [base j] on. *)

Lemma concat_snoc {A} (ls : list (list A)) l : concat (ls ++ [l]) = concat ls ++ l.
Proof. rewrite concat_app. cbn. by rewrite app_nil_r. Qed.

Section Layout.
Context (nm : list Z) (mv : list (Z * Z)).
Hypothesis (Hnm : NoDup nm) (Hrange : forall m, m ∈ nm -> 0 <= m < 400).
Hypothesis (Hquad : forall m, m ∈ mv -> forall x, x ∈ quad m -> x ∈ nm).
Hypothesis (Hroom : 1 + zlen nm + 4 * zlen mv <= kMaxNodes).

Definition base (j : Z) : ptr := zlen nm + 1 + 4 * j.

Definition cptr (m : Z) : ptr :=
  match list_find (m =.) nm with Some (k, _) => 1 + Z.of_nat k | None => 0 end.

Definition node_name (p : ptr) : Z :=
  quad (mv !!! Z.to_nat ((p - base 0) / 4)) !!! Z.to_nat ((p - base 0) mod 4).

Definition node_col (p : ptr) : ptr := if p <? base 0 then p else cptr (node_name p).

Definition node_others (p : ptr) : list ptr :=
  let o := (p - base 0) mod 4 in
  (fun k => p - o + (o + k) mod 4) <$> [1; 2; 3].

Definition row_at (j : Z) : list ptr := [base j; base j + 1; base j + 2; base j + 3].
Definition rows_upto (k : nat) : list (list ptr) := (fun j => row_at (Z.of_nat j)) <$> seq 0 k.
Definition headers : list ptr := seqZ 1 (zlen nm).

Lemma cptr_lookup k m : nm !! k = Some m -> cptr m = 1 + Z.of_nat k.
Proof.
  intros Hk. unfold cptr. destruct (list_find (m =.) nm) as [[k' m']|] eqn:E.
  - apply list_find_Some in E as (Hk' & <- & _).
    rewrite (NoDup_lookup _ _ _ _ Hnm Hk Hk'). done.
  - apply list_find_None in E. rewrite Forall_forall in E. exfalso.
    apply (E m); [by eapply list_elem_of_lookup_2|done].
Qed.

Lemma cptr_in m : m ∈ nm -> cptr m ∈ headers.
Proof.
  intros [k Hk]%list_elem_of_lookup. rewrite (cptr_lookup _ _ Hk).
  apply lookup_lt_Some in Hk. apply elem_of_seqZ. unfold zlen. lia.
Qed.

Lemma cptr_inj m m' : m ∈ nm -> m' ∈ nm -> cptr m = cptr m' -> m = m'.
Proof.
  intros [k Hk]%list_elem_of_lookup [k' Hk']%list_elem_of_lookup.
  rewrite (cptr_lookup _ _ Hk), (cptr_lookup _ _ Hk'). intros E.
  assert (k = k') as <- by lia. congruence.
Qed.

Lemma headers_range c : c ∈ headers <-> 1 <= c < base 0.
Proof. unfold headers, base. rewrite elem_of_seqZ. lia. Qed.

(** The names, columns and rows of the nodes of a move. *)
Lemma node_at j m o :
  mv !! j = Some m -> 0 <= o < 4 ->
  node_name (base (Z.of_nat j) + o) = quad m !!! Z.to_nat o /\
  node_col (base (Z.of_nat j) + o) = cptr (quad m !!! Z.to_nat o) /\
  quad m !!! Z.to_nat o ∈ nm.
Proof.
  intros Hj Ho.
  assert (Hn : node_name (base (Z.of_nat j) + o) = quad m !!! Z.to_nat o).
  { unfold node_name, base.
    replace ((_ - _) / 4) with (Z.of_nat j) by (Z.to_euclidean_division_equations; lia).
    replace ((_ - _) mod 4) with o by (Z.to_euclidean_division_equations; lia).
    by rewrite Nat2Z.id, (list_lookup_total_correct _ _ _ Hj). }
  split_and!; [done| |].
  - unfold node_col. rewrite Hn. unfold base. case_match; [lia|done].
  - apply (Hquad m); [by eapply list_elem_of_lookup_2|].
    assert (o = 0 \/ o = 1 \/ o = 2 \/ o = 3) as [->|[->|[->| ->]]] by lia; cbn; set_solver.
Qed.

Lemma rows_upto_S k : rows_upto (S k) = rows_upto k ++ [row_at (Z.of_nat k)].
Proof. unfold rows_upto. by rewrite seq_S, fmap_app. Qed.

Lemma rows_upto_concat k : concat (rows_upto k) = seqZ (base 0) (4 * Z.of_nat k).
Proof.
  induction k as [|k IH]; [done|].
  rewrite rows_upto_S, concat_snoc, IH.
  replace (4 * Z.of_nat (S k)) with (4 * Z.of_nat k + 4) by lia.
  rewrite seqZ_app by lia. f_equal. unfold row_at, base.
  do 4 rewrite seqZ_cons by lia. rewrite seqZ_nil by lia.
  do 4 (apply f_equal2; [lia|]). done.
Qed.

Lemma rows_upto_in k r : r ∈ rows_upto k <-> exists j, (j < k)%nat /\ r = row_at (Z.of_nat j).
Proof.
  unfold rows_upto. rewrite list_elem_of_fmap. setoid_rewrite elem_of_seq. naive_solver lia.
Qed.

(** The lists of the store while it is built. *)
Record built (h : heap) (cs ns : list ptr) (top : Z) : Prop := {
  b_headers : ring Right Left h 0 cs;
  b_column : forall c, c ∈ cs ->
    ring Down Up h c (column node_col ns c) /\ F Size h c = Some (zlen (column node_col ns c));
  b_cs : forall c, c ∈ cs -> 1 <= c < base 0 /\ c < top;
  b_ns : forall n, n ∈ ns -> base 0 <= n < top;
  b_top : 0 < top /\ forall p, top <= p -> F Left h p = None }.

Definition kept (f : node_field) : bool := match f with Left | Right | Name | Col => true | _ => false end.

Lemma column_snoc ns r c :
  column node_col (ns ++ [r]) c = column node_col ns c ++ if decide (node_col r = c) then [r] else [].
Proof. unfold column. by rewrite filter_app, filter_cons, filter_nil. Qed.

Lemma new_row_ok s m r ns :
  cur_node_ s = r -> base 0 <= r < kMaxNodes -> m ∈ nm -> node_col r = cptr m ->
  at_ (columns_ s) m = Ok (Some (cptr m)) -> built (nodes_ s) headers ns r ->
  exists h', new_row m s = Ok (r, mkSolver (root_ s) (inout_ s) (columns_ s) (stack_ s) h' (r + 1)) /\
    built h' headers (ns ++ [r]) (r + 1) /\
    (forall f q, kept f -> q <> r -> F f h' q = F f (nodes_ s) q) /\
    F Left h' r = Some r /\ F Right h' r = Some r /\ F Name h' r = Some m /\ F Col h' r = Some (cptr m).
Proof.
  intros Hcur Hr Hm HK Hat Hbt. pose proof (cptr_in m Hm) as Hc.
  pose proof (proj1 (headers_range _) Hc) as Hcr.
  set (c := cptr m) in *. set (l := column node_col ns c).
  set (h1 := <[r := mkNode r r r r c m 0]> (nodes_ s)).
  assert (H1 : forall f q, q <> r -> F f h1 q = F f (nodes_ s) q)
    by (intros; unfold h1; by rewrite F_insert, decide_False).
  assert (Hl : forall q, q ∈ l -> q < r).
  { intros q [Hq _]%column_in. apply (b_ns _ _ _ _ Hbt) in Hq. lia. }
  destruct (b_column _ _ _ _ Hbt c Hc) as [Hring Hsz].
  assert (Hrl : r ∉ c :: l) by (intros [?|?%Hl]%elem_of_cons; lia).
  destruct (put_up_ring h1 c l r) as (h' & Hput & Hring' & Hsz' & Hcol' & Hkeep & Hfr & Hcolk).
  { eapply ring_frame; [|exact Hring]. intros q Hq. rewrite !H1; [done|set_solver..]. }
  { done. }
  { unfold h1. rewrite F_insert, decide_True by done. eauto. }
  { rewrite H1 by lia. done. }
  assert (Hkept : forall f q, kept f -> q <> r -> F f h' q = F f (nodes_ s) q).
  { intros f q Hf Hq. destruct f; try done;
      [rewrite (Hkeep Left) by auto|rewrite (Hkeep Right) by auto|rewrite Hcolk by done|rewrite (Hkeep Name) by auto];
      by apply H1. }
  exists h'. split_and!.
  - unfold new_row. rewrite Hat. cbn. rewrite Hcur. fold c. rewrite check_true by lia. cbn.
    fold h1. by rewrite Hput.
  - split.
    + eapply ring_frame; [|by apply Hbt]. intros q Hq. rewrite !Hkept; try done;
        intros ->; apply elem_of_cons in Hq as [?|Hq%headers_range]; lia.
    + intros k Hk. rewrite column_snoc, HK. fold c. case_decide as E.
      { subst k. split; [exact Hring'|exact Hsz']. }
      rewrite app_nil_r. destruct (b_column _ _ _ _ Hbt k Hk) as [Hringk Hszk].
      apply headers_range in Hk. assert (Hq : forall f q, q ∈ k :: column node_col ns k -> F f h' q = F f (nodes_ s) q).
      { intros f q [->|[Hq HKq]%column_in]%elem_of_cons.
        - rewrite Hfr, H1; [done|lia|]. rewrite !not_elem_of_cons. split_and!; [lia|lia|].
          intros [Hkn%(b_ns _ _ _ _ Hbt) _]%column_in. lia.
        - pose proof (b_ns _ _ _ _ Hbt q Hq). rewrite Hfr, H1; [done|lia|].
          rewrite !not_elem_of_cons. split_and!; [lia|lia|]. intros [_ ?]%column_in. congruence. }
      rewrite Hq by set_solver. split; [|done].
      eapply ring_frame; [|exact Hringk]. intros q Hin. by rewrite !Hq.
    + intros k Hk. apply headers_range in Hk. lia.
    + intros n [Hn| ->%list_elem_of_singleton]%elem_of_app; [|lia].
      apply (b_ns _ _ _ _ Hbt) in Hn. lia.
    + split; [lia|]. intros p Hp. rewrite Hkept by (done || lia). apply Hbt. lia.
  - exact Hkept.
  - rewrite (Hkeep Left) by auto. unfold h1. by rewrite F_insert, decide_True.
  - rewrite (Hkeep Right) by auto. unfold h1. by rewrite F_insert, decide_True.
  - rewrite (Hkeep Name) by auto. unfold h1. by rewrite F_insert, decide_True.
  - exact Hcol'.
Qed.

(** The state when the first [k] moves are in the matrix. *)
Record with_rows (b : list Z) (k : nat) (s : Solver) : Prop := {
  w_root : root_ s = 0;
  w_inout : inout_ s = b;
  w_stack : stack_ s = [];
  w_cur : cur_node_ s = base (Z.of_nat k);
  w_columns : forall m, m ∈ nm -> at_ (columns_ s) m = Ok (Some (cptr m));
  w_built : built (nodes_ s) headers (concat (rows_upto k)) (base (Z.of_nat k));
  w_static : static node_col node_name node_others (rows_upto k) (nodes_ s) }.

(** The three calls of [put_left] that make the row. *)
Lemma put_left3 h r :
  (forall o, 0 <= o < 4 -> F Left h (r + o) = Some (r + o) /\ F Right h (r + o) = Some (r + o)) ->
  exists h', (h ← put_left r (r + 1) h; h ← put_left r (r + 2) h; put_left r (r + 3) h) = Ok h' /\
    chain Right Left h' r [r + 1; r + 2; r + 3] r /\
    (forall f q, f <> Left -> f <> Right -> F f h' q = F f h q) /\
    (forall f q, q < r -> F f h' q = F f h q).
Proof.
  intros Hself.
  assert (Hal : forall o, 0 <= o < 4 -> is_Some (F Left h (r + o))) by (intros o Ho; destruct (Hself o Ho); eauto).
  assert (R0 : ring Right Left h r []).
  { destruct (Hself 0) as [? ?]; [lia|]. rewrite Z.add_0_r in *. split; [done|]. apply NoDup_singleton. }
  destruct (put_left_ring h r [] (r + 1) R0) as (h1 & -> & R1 & K1 & Q1);
    [rewrite list_elem_of_singleton; lia|apply Hal; lia|]. cbn [mbind res_bind app] in *.
  destruct (put_left_ring h1 r [r + 1] (r + 2) R1) as (h2 & -> & R2 & K2 & Q2);
    [rewrite !not_elem_of_cons; set_solver by lia| |].
  { rewrite Q1 by (rewrite !not_elem_of_cons; set_solver by lia). apply Hal. lia. }
  cbn [mbind res_bind app] in *.
  destruct (put_left_ring h2 r [r + 1; r + 2] (r + 3) R2) as (h3 & -> & R3 & K3 & Q3);
    [rewrite !not_elem_of_cons; set_solver by lia| |].
  { rewrite Q2, Q1 by (rewrite !not_elem_of_cons; set_solver by lia). apply Hal. lia. }
  exists h3. split_and!; [done|apply R3| |].
  - intros f q ??. by rewrite K3, K2, K1.
  - intros f q ?. rewrite Q3, Q2, Q1; [done|rewrite !not_elem_of_cons; set_solver by lia..].
Qed.

(** The row ring from each of its nodes. *)
Lemma row_chain h j :
  chain Right Left h (base j) [base j + 1; base j + 2; base j + 3] (base j) ->
  forall o, 0 <= o < 4 -> chain Right Left h (base j + o) (node_others (base j + o)) (base j + o).
Proof.
  intros Hch o Ho. unfold node_others.
  replace ((base j + o - base 0) mod 4) with o
    by (unfold base; Z.to_euclidean_division_equations; lia).
  replace (base j + o - o) with (base j) by lia.
  assert (o = 0 \/ o = 1 \/ o = 2 \/ o = 3) as [->|[->|[->| ->]]] by lia; cbn in *;
    rewrite ?Z.add_0_r; tauto.
Qed.

Lemma row_at_in j p : p ∈ row_at j <-> exists o, 0 <= o < 4 /\ p = base j + o.
Proof.
  unfold row_at. rewrite !elem_of_cons, elem_of_nil. split.
  - intros [->|[->|[->|[->|[]]]]]; [exists 0|exists 1|exists 2|exists 3]; lia.
  - intros (o & ? & ->). lia.
Qed.

Lemma node_others_range k p q :
  base 0 <= p < base (Z.of_nat k) -> q ∈ node_others p -> base 0 <= q < base (Z.of_nat k).
Proof.
  unfold node_others. intros Hp (x & -> & Hx)%list_elem_of_fmap.
  rewrite !elem_of_cons, elem_of_nil in Hx. unfold base in *.
  Z.to_euclidean_division_equations. lia.
Qed.

Lemma rows_below k p : (k <= length mv)%nat -> p ∈ concat (rows_upto k) -> base 0 <= p < base (Z.of_nat k).
Proof. intros _. rewrite rows_upto_concat, elem_of_seqZ. unfold base. lia. Qed.

(** Four nodes in a row. *)
Lemma new_rows_ok b k m s :
  mv !! k = Some m -> with_rows b k s ->
  let r := base (Z.of_nat k) in
  exists h, ('(n0, s) ← new_row m.1 s;
     '(nr, s) ← new_row (get_row_col (row_of m.1) m.2) s;
     '(nc, s) ← new_row (get_col_col (col_of m.1) m.2) s;
     '(nb, s) ← new_row (get_box_col (box_of m.1) m.2) s; Ok (n0, nr, nc, nb, s)) =
    Ok (r, r + 1, r + 2, r + 3, mkSolver (root_ s) (inout_ s) (columns_ s) (stack_ s) h (r + 4)) /\
    built h headers (concat (rows_upto (S k))) (r + 4) /\
    (forall f q, kept f -> q < r -> F f h q = F f (nodes_ s) q) /\
    (forall o, 0 <= o < 4 -> F Left h (r + o) = Some (r + o) /\ F Right h (r + o) = Some (r + o) /\
       F Name h (r + o) = Some (node_name (r + o)) /\ F Col h (r + o) = Some (node_col (r + o))).
Proof.
  intros Hk [Hroot Hin Hst Hcur Hcols Hbt Hstat] r. fold r in Hcur, Hbt.
  pose proof (lookup_lt_Some _ _ _ Hk) as Hklen. unfold zlen in Hroom.
  assert (Hr : base 0 <= r /\ r + 3 < kMaxNodes) by (unfold r, base, zlen; lia).
  assert (Hnode : forall o, 0 <= o < 4 -> node_name (r + o) = quad m !!! Z.to_nat o /\
    node_col (r + o) = cptr (quad m !!! Z.to_nat o) /\ quad m !!! Z.to_nat o ∈ nm)
    by (intros o Ho; by apply node_at).
  destruct (Hnode 0) as (N0 & C0 & M0); [lia|]. destruct (Hnode 1) as (N1 & C1 & M1); [lia|].
  destruct (Hnode 2) as (N2 & C2 & M2); [lia|]. destruct (Hnode 3) as (N3 & C3 & M3); [lia|].
  rewrite Z.add_0_r in N0, C0.
  change (quad m !!! Z.to_nat 0) with m.1 in *.
  change (quad m !!! Z.to_nat 1) with (get_row_col (row_of m.1) m.2) in *.
  change (quad m !!! Z.to_nat 2) with (get_col_col (col_of m.1) m.2) in *.
  change (quad m !!! Z.to_nat 3) with (get_box_col (box_of m.1) m.2) in *.
  destruct (new_row_ok s _ r (concat (rows_upto k)) Hcur ltac:(lia) M0 C0 (Hcols _ M0) Hbt)
    as (h0 & E0 & B0 & K0 & L0 & R0 & NM0 & CL0). rewrite E0. clear E0. cbn [mbind res_bind].
  set (s0 := mkSolver _ _ _ _ h0 _).
  destruct (new_row_ok s0 _ (r + 1) _ eq_refl ltac:(lia) M1 C1 (Hcols _ M1) B0)
    as (h1 & E1 & B1 & K1 & L1 & R1 & NM1 & CL1). rewrite E1. clear E1. cbn [mbind res_bind].
  rewrite <- Z.add_assoc in B1 |- *. set (s1 := mkSolver _ _ _ _ h1 _).
  destruct (new_row_ok s1 _ (r + 2) _ eq_refl ltac:(lia) M2 C2 (Hcols _ M2) B1)
    as (h2 & E2 & B2 & K2 & L2 & R2 & NM2 & CL2). rewrite E2. clear E2. cbn [mbind res_bind].
  rewrite <- Z.add_assoc in B2 |- *. set (s2 := mkSolver _ _ _ _ h2 _).
  destruct (new_row_ok s2 _ (r + 3) _ eq_refl ltac:(lia) M3 C3 (Hcols _ M3) B2)
    as (h3 & E3 & B3 & K3 & L3 & R3 & NM3 & CL3). rewrite E3. clear E3. cbn [mbind res_bind].
  rewrite <- Z.add_assoc in B3 |- *. cbn in K0, K1, K2, K3.
  exists h3. split_and!; [done| | |].
  - rewrite rows_upto_S, concat_snoc. by rewrite <- !app_assoc in B3.
  - intros f q Hf Hq. by rewrite K3, K2, K1, K0 by (done || lia).
  - intros o Ho. assert (o = 0 \/ o = 1 \/ o = 2 \/ o = 3) as [->|[->|[->| ->]]] by lia;
      rewrite ?Z.add_0_r, ?N0, ?N1, ?N2, ?N3, ?C0, ?C1, ?C2, ?C3;
      split_and!; rewrite ?K3, ?K2, ?K1 by (done || lia); done.
Qed.

(** [add_row] allocates four nodes, then links them. *)
Lemma add_row_split cell v s :
  add_row cell v s =
    ('(n0, nr, nc, nb, s) ← ('(n0, s) ← new_row cell s;
     '(nr, s) ← new_row (get_row_col (row_of cell) v) s;
     '(nc, s) ← new_row (get_col_col (col_of cell) v) s;
     '(nb, s) ← new_row (get_box_col (box_of cell) v) s; Ok (n0, nr, nc, nb, s));
     h ← (h ← put_left n0 nr (nodes_ s); h ← put_left n0 nc h; put_left n0 nb h);
     Ok (set_nodes s h)).
Proof.
  unfold add_row.
  repeat match goal with
    | |- context [new_row ?x ?st] => destruct (new_row x st) as [[? ?]|]; cbn [mbind res_bind]; [|done]
    end.
  repeat match goal with
    | |- context [put_left ?x ?y ?st] => destruct (put_left x y st); cbn [mbind res_bind]; [|done]
    end. done.
Qed.

Lemma add_row_ok b k m s :
  mv !! k = Some m -> with_rows b k s ->
  exists s', add_row m.1 m.2 s = Ok s' /\ with_rows b (S k) s'.
Proof.
  intros Hk Hw. destruct (new_rows_ok b k m s Hk Hw) as (h & E & Hbt & Hold & Hnew).
  set (r := base (Z.of_nat k)) in *.
  assert (Hr4 : r + 4 = base (Z.of_nat (S k))) by (unfold r, base; lia). rewrite Hr4 in *.
  destruct (put_left3 h r) as (h' & Hput & Hch & Hf & Hq).
  { intros o Ho. by destruct (Hnew o Ho) as (? & ? & _). }
  pose proof (lookup_lt_Some _ _ _ Hk) as Hklen.
  exists (mkSolver (root_ s) (inout_ s) (columns_ s) (stack_ s) h' (base (Z.of_nat (S k)))).
  split.
  { rewrite add_row_split, E. cbn. cbn in Hput. rewrite Hput. done. }
  destruct Hw as [Hroot Hin Hst Hcur Hcols Hbt0 Hstat].
  assert (Hr0 : base 0 <= r /\ 0 < base 0) by (unfold r, base; pose proof (zlen_nonneg nm); lia).
  split; cbn [root_ inout_ stack_ cur_node_ columns_ nodes_]; try done.
  - destruct Hbt as [B1 B2 B3 B4 B5]. split; [| |done..|].
    + eapply ring_frame; [|exact B1]. intros q Hin'.
      assert (q < r) by (apply elem_of_cons in Hin' as [->|?%headers_range]; lia).
      by rewrite !Hq.
    + intros c Hc. destruct (B2 c Hc) as [? ?]. rewrite Hf by done. split; [|done].
      eapply ring_frame; [|done]. intros q _. by rewrite !Hf.
    + split; [apply B5|]. intros p Hp.
      destruct (F Left h' p) as [x|] eqn:Ex; [|done].
      destruct (F_is_Some Left Name h' p) as [y Ey]; [by eauto|]. rewrite Hf in Ey by done.
      destruct (F_is_Some Name Left h p) as [z Ez]; [by eauto|]. by rewrite (proj2 B5) in Ez.
  - intros n Hn. rewrite rows_upto_S, concat_snoc in Hn. apply elem_of_app in Hn as [Hn|Hn].
    + pose proof (rows_below k n ltac:(lia) Hn) as Hlt. fold r in Hlt.
      assert (Hkeep : forall f q, kept f -> q < r -> F f h' q = F f (nodes_ s) q)
        by (intros f q Hkf ?; by rewrite Hq, Hold).
      destruct (Hstat n Hn) as (? & ? & Hchn). rewrite !Hkeep by (done || lia).
      assert (Ho : forall q, q ∈ node_others n -> q < r)
        by (intros q ?%(node_others_range k n); [lia|exact Hlt]).
      split_and!; [done..|]. eapply chain_frame; [| |exact Hchn]; intros q Hin'; apply Hkeep; try done.
      * apply elem_of_cons in Hin' as [->|Hin']; [lia|by apply Ho].
      * apply elem_of_app in Hin' as [Hin'| ->%list_elem_of_singleton]; [by apply Ho|lia].
    + apply row_at_in in Hn as (o & Ho & ->). fold r. destruct (Hnew o Ho) as (_ & _ & ? & ?).
      rewrite !Hf by done. split_and!; [done..|]. by apply row_chain.
Qed.

(** The state when the first [k] columns are there. *)
Record with_columns (b : list Z) (k : nat) (s : Solver) : Prop := {
  c_root : root_ s = 0;
  c_inout : inout_ s = b;
  c_stack : stack_ s = [];
  c_cur : cur_node_ s = 1 + Z.of_nat k;
  c_length : zlen (columns_ s) = 400;
  c_some : forall k' m, (k' < k)%nat -> nm !! k' = Some m ->
    columns_ s !! Z.to_nat m = Some (Some (1 + Z.of_nat k'));
  c_none : forall k' m, (k <= k')%nat -> nm !! k' = Some m -> columns_ s !! Z.to_nat m = Some None;
  c_built : built (nodes_ s) (seqZ 1 (Z.of_nat k)) [] (1 + Z.of_nat k) }.

(** A new header at the end of the list of headers. *)
Lemma new_header_ok h k n :
  (k < length nm)%nat -> built h (seqZ 1 (Z.of_nat k)) [] (1 + Z.of_nat k) ->
  let c := 1 + Z.of_nat k in
  exists h', put_left 0 c (<[c := mkNode c c c c c n 0]> h) = Ok h' /\
    built h' (seqZ 1 (Z.of_nat (S k))) [] (1 + Z.of_nat (S k)).
Proof.
  intros Hk [B1 B2 B3 _ B5] c. set (h1 := <[c := _]> h).
  assert (H1 : forall f q, q <> c -> F f h1 q = F f h q)
    by (intros; unfold h1; by rewrite F_insert, decide_False).
  assert (Hc : c ∉ 0 :: seqZ 1 (Z.of_nat k))
    by (unfold c; intros [?|?%elem_of_seqZ]%elem_of_cons; lia).
  destruct (put_left_ring h1 0 (seqZ 1 (Z.of_nat k)) c) as (h' & Hput & Hring & Hf & Hq).
  { eapply ring_frame; [|exact B1]. intros q Hq. rewrite !H1; [done|set_solver..]. }
  { done. }
  { unfold h1. rewrite F_insert, decide_True by done. eauto. }
  exists h'. split; [done|].
  assert (Hseq : seqZ 1 (Z.of_nat (S k)) = seqZ 1 (Z.of_nat k) ++ [c]) by (rewrite seqZ_S; done).
  split.
  - by rewrite Hseq.
  - intros x Hx. rewrite Hseq in Hx. change (column node_col [] x) with (@nil ptr) in *.
    rewrite !Hf by done. apply elem_of_app in Hx as [Hx| ->%list_elem_of_singleton].
    + assert (x <> c) by set_solver. destruct (B2 x Hx) as [? ?]. rewrite H1 by done. split; [|done].
      eapply ring_frame; [|done]. intros q ->%list_elem_of_singleton. by rewrite !Hf, !H1 by done.
    + unfold h1. rewrite F_insert, decide_True by done. split; [|done].
      split; [|apply NoDup_singleton]. cbn. rewrite !Hf by done. unfold h1.
      by rewrite !F_insert, !decide_True by done.
  - intros x Hx%elem_of_seqZ. unfold base, zlen. lia.
  - set_solver.
  - split; [lia|]. intros p Hp.
    rewrite Hq; [rewrite H1; [apply B5; lia|unfold c; lia]|].
    rewrite !not_elem_of_cons, elem_of_seqZ. unfold c. lia.
Qed.

Lemma append_column_ok b k m s :
  nm !! k = Some m -> with_columns b k s ->
  exists s', append_column m s = Ok s' /\ with_columns b (S k) s'.
Proof.
  intros Hk [Hroot Hin Hst Hcur Hlen Hsome Hnone Hbt].
  pose proof (lookup_lt_Some _ _ _ Hk) as Hklen.
  assert (Hm : 0 <= m < 400) by (apply Hrange; by eapply list_elem_of_lookup_2).
  destruct (new_header_ok (nodes_ s) k m Hklen Hbt) as (h' & Hput & Hbt').
  unfold append_column, at_. replace (0 <=? m) with true by lia. rewrite (Hnone k m) by done. cbn.
  unfold new_column. rewrite Hcur, check_true by (unfold zlen in Hroom; lia). cbn.
  rewrite Hroot, Hput. cbn. unfold store. rewrite Hlen.
  replace (_ && _) with true by lia. cbn. eexists. split; [done|].
  split; cbn [root_ inout_ stack_ cur_node_ columns_ nodes_]; try done;
    [lia|unfold zlen in *; by rewrite length_insert|..].
  - intros k' m' Hk' Hm'. destruct (decide (k' = k)) as [->|Hne].
    + replace m' with m by congruence. by rewrite list_lookup_insert_eq by (unfold zlen in Hlen; lia).
    + rewrite list_lookup_insert_ne; [apply Hsome; [lia|done]|].
      pose proof (Hrange m' ltac:(by eapply list_elem_of_lookup_2)).
      intros E. assert (m' = m) as -> by lia. by rewrite (NoDup_lookup _ _ _ _ Hnm Hk Hm') in Hne.
  - intros k' m' Hk' Hm'. rewrite list_lookup_insert_ne; [apply (Hnone k'); [lia|done]|].
    pose proof (Hrange m' ltac:(by eapply list_elem_of_lookup_2)).
    intros E. assert (m' = m) as -> by lia.
    rewrite (NoDup_lookup _ _ _ _ Hnm Hk Hm') in Hk'. lia.
Qed.

Lemma columns_done b s : with_columns b (length nm) s -> with_rows b 0 s.
Proof.
  intros [Hroot Hin Hst Hcur Hlen Hsome Hnone Hbt]. split; try done.
  - rewrite Hcur. unfold base, zlen. lia.
  - intros m [k Hk]%list_elem_of_lookup. pose proof (lookup_lt_Some _ _ _ Hk).
    pose proof (Hrange m ltac:(by eapply list_elem_of_lookup_2)).
    unfold at_. replace (0 <=? m) with true by lia.
    by rewrite (Hsome k m), (cptr_lookup k m) by done.
  - replace (base (Z.of_nat 0)) with (1 + Z.of_nat (length nm)) by (unfold base, zlen; lia).
    exact Hbt.
  - intros n Hn. by apply not_elem_of_nil in Hn.
Qed.

(** Both phases of the constructor after the root is there. *)
Lemma build_ok b s :
  with_columns b 0 s ->
  exists s', (s ← for_each nm append_column s; for_each mv (fun m => add_row m.1 m.2) s) = Ok s' /\
    with_rows b (length mv) s'.
Proof.
  intros Hs.
  assert (Hpos : forall {A} (l : list A) pre x post, l = pre ++ x :: post -> l !! length pre = Some x)
    by (intros A l pre x post ->; by rewrite lookup_app_r, Nat.sub_diag by lia).
  destruct (for_each_inv (fun pre s => with_columns b (length pre) s) nm append_column s)
    as (s1 & -> & H1); [|done|].
  { intros pre x post s1 E%Hpos HQ. rewrite length_app, Nat.add_1_r. by apply append_column_ok. }
  cbn. apply columns_done in H1.
  apply (for_each_inv (fun pre s => with_rows b (length pre) s)); [|done].
  intros pre x post s2 E%Hpos HQ. rewrite length_app, Nat.add_1_r. by apply add_row_ok.
Qed.

(** ** The finished matrix *)

Hypothesis (Hmv : forall m, m ∈ mv -> 0 <= m.1 < 81 /\ 1 <= m.2 <= 9).

Definition all_rows : list (list ptr) := rows_upto (length mv).
Definition node_move (p : ptr) : Z * Z := mv !!! Z.to_nat ((p - base 0) / 4).

Lemma quad_nodup m : m ∈ mv -> NoDup (quad m).
Proof.
  intros [Hi Hv]%Hmv. pose proof (row_range m.1 Hi). pose proof (col_range m.1 Hi).
  pose proof (box_range m.1 Hi). unfold quad, get_row_col, get_col_col, get_box_col, kRow, kCol, kBox.
  repeat (apply NoDup_cons; split; [rewrite ?elem_of_cons, ?elem_of_nil; lia|]). apply NoDup_nil_2.
Qed.

Lemma all_rows_in r : r ∈ all_rows <-> exists j m, mv !! j = Some m /\ r = row_at (Z.of_nat j).
Proof.
  unfold all_rows. rewrite rows_upto_in. split.
  - intros (j & Hj & ->). destruct (lookup_lt_is_Some_2 mv j Hj) as [m Hm]. eauto.
  - intros (j & m & Hj%lookup_lt_Some & ->). eauto.
Qed.

Lemma row_cols_quad j m : mv !! j = Some m -> node_col <$> row_at (Z.of_nat j) = cptr <$> quad m.
Proof.
  intros Hj. pose proof (fun o => node_at j m o Hj) as Hat. unfold row_at. cbn [fmap list_fmap].
  pose proof (Hat 0 ltac:(lia)) as (_ & E0 & _). rewrite Z.add_0_r in E0. rewrite E0.
  by rewrite (proj1 (proj2 (Hat 1 ltac:(lia)))), (proj1 (proj2 (Hat 2 ltac:(lia)))),
    (proj1 (proj2 (Hat 3 ltac:(lia)))).
Qed.

Lemma node_move_row j m n : mv !! j = Some m -> n ∈ row_at (Z.of_nat j) -> node_move n = m.
Proof.
  intros Hj (o & Ho & ->)%row_at_in. unfold node_move.
  replace ((base (Z.of_nat j) + o - base 0) / 4) with (Z.of_nat j)
    by (unfold base; Z.to_euclidean_division_equations; lia).
  by rewrite Nat2Z.id, (list_lookup_total_correct _ _ _ Hj).
Qed.

Lemma node_others_perm j n : n ∈ row_at j -> n :: node_others n ≡ₚ row_at j.
Proof.
  intros (o & Ho & ->)%row_at_in. unfold node_others, row_at.
  replace ((base j + o - base 0) mod 4) with o
    by (unfold base; Z.to_euclidean_division_equations; lia).
  replace (base j + o - o) with (base j) by lia.
  assert (o = 0 \/ o = 1 \/ o = 2 \/ o = 3) as [->|[->|[->| ->]]] by lia; cbn;
    rewrite ?Z.add_0_r; solve_Permutation.
Qed.

Lemma all_rows_matrix : matrix node_col node_others all_rows 0.
Proof.
  split.
  - unfold all_rows. rewrite rows_upto_concat. apply NoDup_seqZ.
  - intros r (j & m & Hj & ->)%all_rows_in. rewrite (row_cols_quad j m Hj).
    assert (Hm : m ∈ mv) by (by eapply list_elem_of_lookup_2).
    apply NoDup_fmap_2_strong; [|by apply quad_nodup].
    intros x y Hx Hy. apply cptr_inj; by apply (Hquad m).
  - intros r n (j & m & Hj & ->)%all_rows_in. apply node_others_perm.
  - unfold all_rows. rewrite rows_upto_concat, elem_of_seqZ. unfold base.
    pose proof (zlen_nonneg nm). lia.
Qed.

Lemma all_rows_live : live node_col all_rows headers all_rows.
Proof.
  split; [done|]. intros r n (j & m & Hj & ->)%all_rows_in (o & Ho & ->)%row_at_in.
  destruct (node_at j m o Hj Ho) as (_ & -> & Hin). by apply cptr_in.
Qed.

Lemma with_rows_rep b s :
  with_rows b (length mv) s ->
  rep node_col node_name node_others all_rows 0 (nodes_ s) headers (concat all_rows).
Proof.
  intros [_ _ _ _ _ [B1 B2 B3 B4 B5] Hst]. split; try done.
  intros c Hc%headers_range. unfold node_col. replace (c <? base 0) with true by lia.
  split; [done|]. intros Hin%rows_below; lia.
Qed.

Lemma all_rows_names n : n ∈ concat all_rows ->
  (forall m, m ∈ n :: node_others n -> if node_name m <? 100 then node_name m = (node_move n).1
     else Z.rem (node_name m) 10 = (node_move n).2) /\
  (exists m, m ∈ n :: node_others n /\ node_name m < 100) /\
  (exists m, m ∈ n :: node_others n /\ 100 <= node_name m) /\
  0 <= (node_move n).1 < 81 /\ (node_move n).2 <> -1.
Proof.
  intros (r & Hn & (j & m & Hj & ->)%all_rows_in)%elem_of_concat.
  rewrite (node_move_row j m n Hj Hn). setoid_rewrite (node_others_perm _ n Hn).
  assert (Hm : m ∈ mv) by (by eapply list_elem_of_lookup_2).
  destruct (Hmv m Hm) as [Hi Hv].
  pose proof (row_range m.1 Hi). pose proof (col_range m.1 Hi). pose proof (box_range m.1 Hi).
  assert (Hrem : forall k u, (k = 100 \/ k = 200 \/ k = 300) -> 0 <= u < 9 ->
    Z.rem (k + u * 10 + m.2) 10 = m.2) by (intros; Z.to_euclidean_division_equations; lia).
  pose proof (fun o Ho => proj1 (node_at j m o Hj Ho)) as Hname.
  assert (N0 := Hname 0 ltac:(lia)). assert (N1 := Hname 1 ltac:(lia)).
  assert (N2 := Hname 2 ltac:(lia)). assert (N3 := Hname 3 ltac:(lia)).
  change (quad m !!! Z.to_nat 0) with m.1 in N0.
  change (quad m !!! Z.to_nat 1) with (kRow + row_of m.1 * 10 + m.2) in N1.
  change (quad m !!! Z.to_nat 2) with (kCol + col_of m.1 * 10 + m.2) in N2.
  change (quad m !!! Z.to_nat 3) with (kBox + box_of m.1 * 10 + m.2) in N3.
  unfold kRow, kCol, kBox in *. split_and!; [| | |lia..].
  - intros p (o & Ho & ->)%row_at_in.
    assert (o = 0 \/ o = 1 \/ o = 2 \/ o = 3) as [->|[->|[->| ->]]] by lia;
      rewrite ?N0, ?N1, ?N2, ?N3; case_match; try lia; apply Hrem; lia.
  - exists (base (Z.of_nat j) + 0). rewrite row_at_in. split; [exists 0; lia|lia].
  - exists (base (Z.of_nat j) + 1). rewrite row_at_in. split; [exists 1; lia|lia].
Qed.

(** ** Exact covers as sets of moves *)

Definition move_cover (M : list (Z * Z)) : Prop :=
  (forall m, m ∈ M -> m ∈ mv) /\ M ≫= quad ≡ₚ nm.

Definition put_move (b : list Z) (m : Z * Z) : list Z := <[Z.to_nat m.1 := m.2]> b.

Lemma headers_cptr : headers = cptr <$> nm.
Proof.
  apply list_eq. intros k. unfold headers. rewrite list_lookup_fmap.
  destruct (nm !! k) as [m|] eqn:E; cbn.
  - rewrite (cptr_lookup k m E). apply lookup_lt_Some in E. apply lookup_seqZ. unfold zlen. lia.
  - apply lookup_ge_None in E. apply lookup_seqZ_ge. unfold zlen. lia.
Qed.

Lemma cptr_perm X : (forall x, x ∈ X -> x ∈ nm) -> cptr <$> X ≡ₚ cptr <$> nm -> X ≡ₚ nm.
Proof.
  intros HX Hp. set (back := fun c => nm !!! Z.to_nat (c - 1)).
  assert (Hback : forall l : list Z, (forall x, x ∈ l -> x ∈ nm) -> back <$> (cptr <$> l) = l).
  { intros l Hl. rewrite <- list_fmap_compose. rewrite <- (list_fmap_id l) at 2.
    apply list_fmap_ext. intros i x Hx%list_elem_of_lookup_2.
    destruct (proj1 (list_elem_of_lookup _ _) (Hl x Hx)) as [k Hk].
    unfold back. cbn. rewrite (cptr_lookup k x Hk).
    replace (Z.to_nat _) with k by lia. by apply list_lookup_total_correct. }
  rewrite <- (Hback X HX), <- (Hback nm) by done. by rewrite Hp.
Qed.

Lemma cover_cols_moves S ns :
  (forall r, r ∈ S -> r ∈ all_rows) -> Forall2 (fun n r => n ∈ r) ns S ->
  (forall m, m ∈ node_move <$> ns -> m ∈ mv) /\
  node_col <$> concat S = cptr <$> ((node_move <$> ns) ≫= quad).
Proof.
  intros HS H2. induction H2 as [|n r ns S Hn H2 IH]; [split; [intros m Hm; by apply not_elem_of_nil in Hm|done]|].
  destruct IH as [IH1 IH2]; [set_solver|].
  destruct (proj1 (all_rows_in r)) as (j & m & Hj & ->); [set_solver|].
  cbn [fmap list_fmap]. rewrite (node_move_row j m n Hj Hn). split.
  - intros x [->|?]%elem_of_cons; [by eapply list_elem_of_lookup_2|auto].
  - cbn [concat]. rewrite bind_cons, !fmap_app, IH2. f_equal. by apply row_cols_quad.
Qed.

Lemma cover_to_moves S ns :
  exact_cover node_col headers all_rows S -> Forall2 (fun n r => n ∈ r) ns S ->
  move_cover (node_move <$> ns).
Proof.
  intros [HS Hp] H2. destruct (cover_cols_moves S ns HS H2) as [Hin E]. split; [done|].
  apply cptr_perm.
  - intros x (m & Hx & Hm)%list_elem_of_bind. apply (Hquad m); auto.
  - by rewrite <- E, <- headers_cptr.
Qed.

Lemma moves_to_cover M : move_cover M -> exists S, exact_cover node_col headers all_rows S.
Proof.
  intros [Hin Hp]. rewrite headers_cptr.
  assert (HS : exists S, (forall r, r ∈ S -> r ∈ all_rows) /\ node_col <$> concat S = cptr <$> (M ≫= quad)).
  { clear Hp. induction M as [|m M IH]; [exists []; split; [intros r Hr; by apply not_elem_of_nil in Hr|done]|].
    destruct IH as (S & HS & E); [set_solver|].
    destruct (proj1 (list_elem_of_lookup mv m)) as [j Hj]; [set_solver|].
    exists (row_at (Z.of_nat j) :: S). split.
    - intros r [->|?]%elem_of_cons; [apply all_rows_in; eauto|auto].
    - cbn [concat]. by rewrite bind_cons, !fmap_app, E, (row_cols_quad j m Hj). }
  destruct HS as (S & HS & E). exists S. split; [done|]. by rewrite E, Hp.
Qed.

Lemma foldl_put_move ns b :
  foldl (place (fun n => (node_move n).1) (fun n => (node_move n).2)) b ns = foldl put_move b (node_move <$> ns).
Proof. revert b. induction ns as [|n ns IH]; intros b; [done|]. apply IH. Qed.

Lemma solve_moves b s :
  zlen b = 81 -> with_rows b (length mv) s ->
  (exists M s', move_cover M /\ solve solver_fuel solver_fuel s = Ok (true, s') /\ inout_ s' = foldl put_move b M) \/
  ((forall M, ~ move_cover M) /\ solve solver_fuel solver_fuel s = Ok (false, s)).
Proof.
  intros Hb Hw.
  assert (Hlen : (length (concat all_rows) < solver_fuel)%nat /\ (length headers < solver_fuel)%nat).
  { unfold all_rows, headers. rewrite rows_upto_concat, !length_seqZ.
    unfold solver_fuel, zlen in *. lia. }
  destruct (solve_ok node_col node_name node_others all_rows 0 solver_fuel all_rows_matrix (proj1 Hlen)
    (fun n => (node_move n).1) (fun n => (node_move n).2) 81 all_rows_names
    solver_fuel s headers all_rows) as [(S & ns & s' & HS & H2 & E & Hio)|[Hno E]].
  - apply Hw.
  - by eapply with_rows_rep.
  - apply all_rows_live.
  - apply Hlen.
  - destruct Hlen. lia.
  - rewrite (w_stack _ _ _ Hw). intros n Hn. by apply not_elem_of_nil in Hn.
  - by rewrite (w_inout _ _ _ Hw).
  - left. exists (node_move <$> ns), s'. split_and!; [by eapply cover_to_moves|done|].
    by rewrite Hio, (w_stack _ _ _ Hw), (w_inout _ _ _ Hw), foldl_put_move.
  - right. split; [|done]. intros M (S & HS)%moves_to_cover. by apply (Hno S).
Qed.
End Layout.
