(* ===== verification/SudokuTheory.v ===== *)
(** * Correctness of the Sudoku solver

    Sets of moves that cover the matrix are the solutions of the board, so
    [solveSudoku] finds a solution when there is one and says so when there is none. *)
From S2P Require Import Prelude DancingLinks ExactCover Sudoku SudokuMatrix.

(** ** What a solution is *)

Definition unit_cells (f : Z -> Z) (u : Z) : list Z := filter (fun i => f i = u) (seqZ 0 81).

(** The cells of a row, of a column and of a box, the grid being numbered row by row. *)
Definition row_cells (r : Z) : list Z := (fun k => 9 * r + k) <$> seqZ 0 9.
Definition column_cells (c : Z) : list Z := (fun k => 9 * k + c) <$> seqZ 0 9.
Definition box_cells (r c : Z) : list Z := dr ← [0; 1; 2]; dc ← [0; 1; 2]; [9 * (3 * r + dr) + (3 * c + dc)].

(** Each row, column and box of a filled grid has the values 1 to 9, each once. *)
Definition solution (g : list Z) : Prop :=
  zlen g = 81 /\
  (forall r, 0 <= r < 9 -> cell_at g <$> row_cells r ≡ₚ seqZ 1 9) /\
  (forall c, 0 <= c < 9 -> cell_at g <$> column_cells c ≡ₚ seqZ 1 9) /\
  (forall r c, 0 <= r < 3 -> 0 <= c < 3 -> cell_at g <$> box_cells r c ≡ₚ seqZ 1 9).

(** The same by the numbers that the solver gives the units. *)
Definition units_filled (g : list Z) : Prop :=
  zlen g = 81 /\
  forall f, f ∈ [row_of; col_of; box_of] -> forall u, 0 <= u < 9 ->
    cell_at g <$> unit_cells f u ≡ₚ seqZ 1 9.

Lemma unit_row r : 0 <= r < 9 -> unit_cells row_of r = row_cells r.
Proof.
  intros Hr. assert (H : Forall (fun r => unit_cells row_of r = row_cells r) (seqZ 0 9)) by (repeat constructor).
  rewrite Forall_forall in H. apply H, elem_of_seqZ. lia.
Qed.

Lemma unit_column c : 0 <= c < 9 -> unit_cells col_of c = column_cells c.
Proof.
  intros Hc. assert (H : Forall (fun c => unit_cells col_of c = column_cells c) (seqZ 0 9)) by (repeat constructor).
  rewrite Forall_forall in H. apply H, elem_of_seqZ. lia.
Qed.

Lemma unit_box u : 0 <= u < 9 -> unit_cells box_of u = box_cells (u / 3) (u mod 3).
Proof.
  intros Hu. assert (H : Forall (fun u => unit_cells box_of u = box_cells (u / 3) (u mod 3)) (seqZ 0 9)) by (repeat constructor).
  rewrite Forall_forall in H. apply H, elem_of_seqZ. lia.
Qed.

Lemma solution_units g : solution g <-> units_filled g.
Proof.
  split.
  - intros (Hl & Hr & Hc & Hb). split; [done|]. intros f Hf u Hu.
    repeat (apply elem_of_cons in Hf as [->|Hf]); [rewrite unit_row by done; by apply Hr|rewrite unit_column by done; by apply Hc| |by apply elem_of_nil in Hf].
    rewrite unit_box by done. apply Hb; [split; [by apply Z.div_pos; lia|apply Z.div_lt_upper_bound; lia]|by apply Z.mod_pos_bound].
  - intros [Hl Hu]. split; [done|]. split_and!.
    + intros r Hr. rewrite <- unit_row by done. apply Hu; [set_solver|done].
    + intros c Hc. rewrite <- unit_column by done. apply Hu; [set_solver|done].
    + intros r c Hr Hc. pose proof (unit_box (3 * r + c) ltac:(lia)) as E.
      replace ((3 * r + c) / 3) with r in E by (apply Z.div_unique with c; lia).
      replace ((3 * r + c) mod 3) with c in E by (apply Z.mod_unique with r; lia).
      rewrite <- E. apply Hu; [set_solver|lia].
Qed.

Definition extends (b g : list Z) : Prop :=
  forall i, 0 <= i < 81 -> cell_at b i <> 0 -> cell_at g i = cell_at b i.

(** The three kinds of units with the names of their columns in the matrix. *)
Definition kinds : list ((Z -> Z) * (Z -> Z -> Z)) :=
  [(row_of, get_row_col); (col_of, get_col_col); (box_of, get_box_col)].

Ltac each_kind H :=
  unfold kinds in H; rewrite !elem_of_cons, elem_of_nil in H;
  destruct H as [[= -> ->]|[[= -> ->]|[[= -> ->]|[]]]].

Lemma kind_of f : f ∈ [row_of; col_of; box_of] -> exists g, (f, g) ∈ kinds.
Proof.
  rewrite !elem_of_cons, elem_of_nil. unfold kinds. intros [->|[->|[->|[]]]];
    [exists get_row_col|exists get_col_col|exists get_box_col]; set_solver.
Qed.

Lemma kind_unit f g : (f, g) ∈ kinds -> f ∈ [row_of; col_of; box_of].
Proof. intros H. each_kind H; set_solver. Qed.

Lemma kind_range f g i : (f, g) ∈ kinds -> 0 <= i < 81 -> 0 <= f i < 9.
Proof. intros H. each_kind H; auto using row_range, col_range, box_range. Qed.

Lemma kind_needed b f g u v :
  (f, g) ∈ kinds -> 0 <= u < 9 -> 1 <= v <= 9 -> needed b (g u v) = negb (used b f u v).
Proof. intros H. each_kind H; auto using needed_row, needed_col, needed_box. Qed.

Lemma kind_name f g u v : (f, g) ∈ kinds -> 0 <= u < 9 -> 1 <= v <= 9 -> g u v ∈ all_names.
Proof. intros H ??. apply (all_names_value u v); [done..|]. each_kind H; set_solver. Qed.

Lemma kind_quad f g m u v :
  (f, g) ∈ kinds -> m ∈ all_moves -> 0 <= u < 9 -> 1 <= v <= 9 ->
  g u v ∈ quad m <-> f m.1 = u /\ m.2 = v.
Proof.
  destruct m as [i w]. intros H [Hi Hw]%all_moves_in Hu Hv.
  pose proof (row_range i Hi). pose proof (col_range i Hi). pose proof (box_range i Hi).
  unfold quad. rewrite !elem_of_cons, elem_of_nil. cbn.
  each_kind H; unfold get_row_col, get_col_col, get_box_col, kRow, kCol, kBox; lia.
Qed.

Lemma cell_quad i m : m ∈ all_moves -> 0 <= i < 81 -> i ∈ quad m <-> m.1 = i.
Proof.
  destruct m as [j w]. intros [Hj Hw]%all_moves_in Hi.
  pose proof (row_range j Hj). pose proof (col_range j Hj). pose proof (box_range j Hj).
  unfold quad. rewrite !elem_of_cons, elem_of_nil. cbn.
  unfold get_row_col, get_col_col, get_box_col, kRow, kCol, kBox. lia.
Qed.

Lemma unit_length f g u : (f, g) ∈ kinds -> 0 <= u < 9 -> length (unit_cells f u) = 9%nat.
Proof.
  intros H Hu. assert (Hin : u ∈ seqZ 0 9) by (rewrite elem_of_seqZ; lia). revert u Hu Hin.
  cut (Forall (fun u => length (unit_cells f u) = 9%nat) (seqZ 0 9)).
  { rewrite Forall_forall. auto. }
  each_kind H; apply (bool_decide_unpack _); vm_compute; exact I.
Qed.

Lemma unit_in f u i : i ∈ unit_cells f u <-> 0 <= i < 81 /\ f i = u.
Proof. unfold unit_cells. rewrite list_elem_of_filter, elem_of_seqZ. lia. Qed.

Lemma solution_inj h f g i j :
  units_filled h -> (f, g) ∈ kinds -> 0 <= i < 81 -> 0 <= j < 81 -> f i = f j ->
  cell_at h i = cell_at h j -> i = j.
Proof.
  intros [_ Hs] Hk Hi Hj Ef Ec. apply (NoDup_fmap_inj (cell_at h) (unit_cells f (f i))); [|by apply unit_in..|done].
  rewrite (Hs f) by eauto using kind_unit, kind_range. apply NoDup_seqZ.
Qed.

Lemma solution_range h i : units_filled h -> 0 <= i < 81 -> 1 <= cell_at h i <= 9.
Proof.
  intros [_ Hs] Hi. cut (cell_at h i ∈ seqZ 1 9); [rewrite elem_of_seqZ; lia|].
  rewrite <- (Hs row_of) with (u := row_of i) by (set_solver || by apply row_range).
  apply list_elem_of_fmap. exists i. by rewrite unit_in.
Qed.

Lemma solution_has h f g u v :
  units_filled h -> (f, g) ∈ kinds -> 0 <= u < 9 -> 1 <= v <= 9 ->
  exists i, 0 <= i < 81 /\ f i = u /\ cell_at h i = v.
Proof.
  intros [_ Hs] Hk Hu Hv. assert (Hin : v ∈ cell_at h <$> unit_cells f u).
  { rewrite (Hs f) by eauto using kind_unit. rewrite elem_of_seqZ. lia. }
  apply list_elem_of_fmap in Hin as (i & -> & [? ?]%unit_in). eauto.
Qed.

(** ** Covers of the matrix are solutions *)

Section Board.
Context (b : list Z).
Hypothesis (Hb : board b).

Lemma moves_in m :
  m ∈ moves b <-> m ∈ all_moves /\ cell_at b m.1 = 0 /\
    forall f g, (f, g) ∈ kinds -> ~ used b f (f m.1) m.2.
Proof.
  unfold moves. rewrite list_elem_of_filter. unfold possible. split.
  - intros [Hp Hm]. apply andb_prop_elim in Hp as [Hz Hu]. apply Is_true_true, Z.eqb_eq in Hz.
    split_and!; [done..|]. intros f g Hk. apply negb_prop_elim in Hu. intros Hf. apply Hu.
    each_kind Hk; destruct (used b row_of _ _), (used b col_of _ _), (used b box_of _ _); done.
  - intros (Hm & Hz & Hu). split; [|done]. rewrite Hz. cbn.
    apply negb_prop_intro. intros Hor.
    assert (used b row_of (row_of m.1) m.2 \/ used b col_of (col_of m.1) m.2 \/ used b box_of (box_of m.1) m.2)
      as [?|[?|?]].
    { destruct (used b row_of _ _), (used b col_of _ _), (used b box_of _ _); cbn in *; tauto. }
    + apply (Hu row_of get_row_col); [unfold kinds; set_solver|done].
    + apply (Hu col_of get_col_col); [unfold kinds; set_solver|done].
    + apply (Hu box_of get_box_col); [unfold kinds; set_solver|done].
Qed.

Lemma names_in m : m ∈ names b <-> m ∈ all_names /\ needed b m.
Proof. unfold names. rewrite list_elem_of_filter. tauto. Qed.

Lemma names_cell i : 0 <= i < 81 -> i ∈ names b <-> cell_at b i = 0.
Proof.
  intros Hi. rewrite names_in. unfold needed. replace (i <? 100) with true by lia.
  rewrite Is_true_true, Z.eqb_eq. split; [tauto|]. by auto using all_names_cell.
Qed.

Lemma names_kind f g u v :
  (f, g) ∈ kinds -> 0 <= u < 9 -> 1 <= v <= 9 -> g u v ∈ names b <-> ~ used b f u v.
Proof.
  intros Hk Hu Hv. rewrite names_in, (kind_needed b f g) by done.
  pose proof (kind_name f g u v Hk Hu Hv). destruct (used b f u v); cbn; tauto.
Qed.

Lemma quad_inv m x :
  x ∈ quad m -> x = m.1 \/ exists f g, (f, g) ∈ kinds /\ x = g (f m.1) m.2.
Proof.
  unfold quad. rewrite !elem_of_cons, elem_of_nil. intros [->|[->|[->|[->|[]]]]]; [by left|right..].
  - exists row_of, get_row_col. unfold kinds. set_solver.
  - exists col_of, get_col_col. unfold kinds. set_solver.
  - exists box_of, get_box_col. unfold kinds. set_solver.
Qed.

Lemma names_inv x : x ∈ names b ->
  (0 <= x < 81 /\ cell_at b x = 0) \/
  exists f g u v, (f, g) ∈ kinds /\ 0 <= u < 9 /\ 1 <= v <= 9 /\ x = g u v /\ ~ used b f u v.
Proof.
  intros Hx. pose proof (proj1 (names_in x) Hx) as [Hall _].
  destruct (all_names_inv x Hall) as [Hr|(u & v & Hu & Hv & Hin)].
  - left. split; [done|]. by apply names_cell.
  - right. assert (Hk : exists f g, (f, g) ∈ kinds /\ x = g u v).
    { rewrite !elem_of_cons, elem_of_nil in Hin. destruct Hin as [->|[->|[->|[]]]];
        [exists row_of, get_row_col|exists col_of, get_col_col|exists box_of, get_box_col];
        unfold kinds; set_solver. }
    destruct Hk as (f & g & Hk & ->). exists f, g, u, v. split_and!; try done; [lia..|].
    by apply (names_kind f g).
Qed.

Lemma move_range m : m ∈ moves b -> 0 <= m.1 < 81 /\ 1 <= m.2 <= 9.
Proof. intros [Hm _]%moves_in. destruct m. by apply all_moves_in in Hm. Qed.

Lemma moves_quad m : m ∈ moves b -> forall x, x ∈ quad m -> x ∈ names b.
Proof.
  intros Hm x Hx. destruct (move_range m Hm) as [Hi Hv]. apply moves_in in Hm as (_ & Hz & Hu).
  destruct (quad_inv m x Hx) as [->|(f & g & Hk & ->)]; [by apply names_cell|].
  apply (names_kind f g); eauto using kind_range.
Qed.

Lemma matrix_names_nodup : NoDup (names b).
Proof. apply NoDup_filter, all_names_nodup. Qed.

Lemma names_range m : m ∈ names b -> 0 <= m < 400.
Proof. intros [? _]%names_in. by apply all_names_range. Qed.

Lemma room : 1 + zlen (names b) + 4 * zlen (moves b) <= kMaxNodes.
Proof.
  pose proof (length_filter (fun m => needed b m) all_names) as H1.
  pose proof (length_filter (fun m => possible b m) all_moves) as H2.
  assert (zlen all_names = 324 /\ zlen all_moves = 729) as [E1 E2] by (vm_compute; done).
  unfold names, moves, zlen, kMaxNodes in *. lia.
Qed.

Local Abbreviation move_cover := (move_cover (names b) (moves b)).

(** The board after the moves. *)
Lemma length_foldl_put M l : length (foldl put_move l M) = length l.
Proof. revert l. induction M as [|m M IH]; intros l; [done|]. cbn. rewrite IH. apply length_insert. Qed.

Lemma foldl_put_other M l i :
  0 <= i -> (forall m, m ∈ M -> 0 <= m.1 /\ m.1 <> i) -> cell_at (foldl put_move l M) i = cell_at l i.
Proof.
  intros Hi. revert l. induction M as [|m M IH]; intros l HM; [done|].
  cbn. rewrite IH by set_solver. unfold cell_at, put_move. apply list_lookup_total_insert_ne.
  destruct (HM m); [set_solver|lia].
Qed.

Lemma foldl_put_hit M l m :
  NoDup (fst <$> M) -> (forall m, m ∈ M -> 0 <= m.1 < zlen l) -> m ∈ M ->
  cell_at (foldl put_move l M) m.1 = m.2.
Proof.
  revert l. induction M as [|m' M IH]; intros l Hnd HM Hm; [by apply not_elem_of_nil in Hm|].
  cbn in Hnd. apply NoDup_cons in Hnd as [Hm' Hnd]. cbn.
  assert (Hlen : zlen (put_move l m') = zlen l) by (unfold zlen, put_move; by rewrite length_insert).
  apply elem_of_cons in Hm as [->|Hm].
  - rewrite foldl_put_other.
    + unfold cell_at, put_move. apply list_lookup_total_insert_eq. destruct (HM m'); [set_solver|].
      unfold zlen in *. lia.
    + apply HM. set_solver.
    + intros m Hm. split; [apply HM; set_solver|]. intros E. apply Hm'. rewrite <- E.
      apply list_elem_of_fmap. eauto.
  - apply IH; [done| |done]. rewrite Hlen. set_solver.
Qed.

Lemma cover_nodup M : move_cover M -> NoDup (fst <$> M) /\ NoDup (M ≫= quad).
Proof.
  intros [Hin Hp]. assert (Hnd : NoDup (M ≫= quad)) by (rewrite Hp; apply matrix_names_nodup).
  split; [|done]. clear Hp. induction M as [|m M IH]; [apply NoDup_nil_2|].
  rewrite bind_cons in Hnd. apply NoDup_app in Hnd as (_ & Hd & Hnd). cbn.
  apply NoDup_cons. split; [|apply IH; [set_solver|done]].
  intros (m' & E & Hm')%list_elem_of_fmap. apply (Hd m.1); [unfold quad; set_solver|].
  apply list_elem_of_bind. exists m'. rewrite E. split; [unfold quad; set_solver|done].
Qed.

Lemma cover_solution M : move_cover M -> solution (foldl put_move b M) /\ extends b (foldl put_move b M).
Proof.
  rewrite solution_units. intros HM. destruct (cover_nodup M HM) as [Hnd _]. destruct HM as [Hin Hp], Hb as [Hlen _].
  assert (Hrg : forall m, m ∈ M -> 0 <= m.1 < zlen b) by (intros m Hm%Hin%move_range; lia).
  assert (Hext : extends b (foldl put_move b M)).
  { intros i Hi Hne. apply foldl_put_other; [lia|]. intros m Hm. split; [apply Hrg in Hm; lia|].
    intros E. apply Hin, moves_in in Hm as (_ & Hz & _). congruence. }
  split; [|done]. split; [unfold zlen in *; by rewrite length_foldl_put|].
  intros f [g Hk]%kind_of u Hu. symmetry. apply submseteq_length_Permutation.
  2: { rewrite length_fmap, (unit_length f g) by done. by rewrite length_seqZ. }
  apply NoDup_submseteq; [apply NoDup_seqZ|]. intros v Hv%elem_of_seqZ.
  apply list_elem_of_fmap. setoid_rewrite unit_in.
  destruct (decide (used b f u v)) as [(i & Hi & Hf & Hc)%used_spec|Hno].
  - exists i. split; [|done]. rewrite Hext; [done|done|lia].
  - assert (Hx : g u v ∈ M ≫= quad) by (rewrite Hp; apply (names_kind f g); [done..|lia|done]).
    apply list_elem_of_bind in Hx as (m & Hx & Hm).
    apply (kind_quad f g) in Hx as [Hf Hv']; [|done|by apply Hin, moves_in in Hm as (? & _)|done|lia].
    exists m.1. rewrite (foldl_put_hit M b m) by done. split; [done|].
    split; [|done]. apply Hin, move_range in Hm. lia.
Qed.

Lemma solution_cover h : solution h -> extends b h -> exists M, move_cover M.
Proof.
  rewrite solution_units. intros Hs He. set (blank := filter (fun i => cell_at b i = 0) (seqZ 0 81)).
  assert (Hbl : forall i, i ∈ blank <-> 0 <= i < 81 /\ cell_at b i = 0)
    by (intros i; unfold blank; rewrite list_elem_of_filter, elem_of_seqZ; lia).
  set (M := (fun i => (i, cell_at h i)) <$> blank).
  assert (HM : forall m, m ∈ M <-> exists i, m = (i, cell_at h i) /\ 0 <= i < 81 /\ cell_at b i = 0)
    by (intros m; unfold M; rewrite list_elem_of_fmap; by setoid_rewrite Hbl).
  assert (Hmv : forall m, m ∈ M -> m ∈ moves b).
  { intros m (i & -> & Hi & Hz)%HM. apply moves_in. cbn. pose proof (solution_range h i Hs Hi).
    split_and!; [by apply all_moves_in|done|]. intros f g Hk (j & Hj & Hf & Hc)%used_spec.
    assert (cell_at h j = cell_at h i) as Ec by (rewrite He; [done|done|lia]).
    assert (j = i) by (by apply (solution_inj h f g)). subst j. lia. }
  exists M. split; [done|]. apply NoDup_Permutation; [|apply matrix_names_nodup|].
  - apply NoDup_bind.
    + intros m1 m2 x H1 H2 Hx1 Hx2. pose proof (Hmv _ H1) as V1. pose proof (Hmv _ H2) as V2.
      pose proof (proj1 (moves_in _) V1) as (A1 & _). pose proof (proj1 (moves_in _) V2) as (A2 & _).
      destruct (move_range _ V1) as [R1 W1].
      apply HM in H1 as (i & -> & Hi & _), H2 as (j & -> & Hj & _). cbn in *.
      destruct (quad_inv _ _ Hx1) as [->|(f & g & Hk & ->)]; cbn in *.
      * apply cell_quad in Hx2; [|done|done]. cbn in Hx2. by subst.
      * apply (kind_quad f g) in Hx2 as [Ef Ec]; [|done|done|by eapply kind_range|done]. cbn in *.
        by rewrite (solution_inj h f g j i).
    + intros m Hm%Hmv. eapply (quad_nodup (moves b)); [apply move_range|done].
    + unfold M. apply NoDup_fmap_2; [by intros ?? [= ->]|]. apply NoDup_filter, NoDup_seqZ.
  - intros x. rewrite list_elem_of_bind. split.
    + intros (m & Hx & Hm%Hmv). by apply (moves_quad m).
    + intros [[Hx Hz]|(f & g & u & v & Hk & Hu & Hv & -> & Hno)]%names_inv.
      * exists (x, cell_at h x). split; [unfold quad; set_solver|]. apply HM. eauto.
      * destruct (solution_has h f g u v Hs Hk Hu Hv) as (i & Hi & Hf & Hc).
        assert (Hz : cell_at b i = 0).
        { destruct (decide (cell_at b i = 0)) as [|Hne]; [done|]. exfalso. apply Hno, used_spec.
          exists i. rewrite <- (He i) by done. done. }
        exists (i, cell_at h i). rewrite HM. split; [|eauto].
        apply (kind_quad f g); [done| |done..]. apply all_moves_in. by rewrite Hc.
Qed.
End Board.

(** ** The constructor and the whole solver *)

Lemma SudokuSolver_ok b :
  board b -> exists s, SudokuSolver b = Ok s /\ with_rows (names b) (moves b) b (length (moves b)) s.
Proof.
  intros Hb. destruct (used_values_ok b Hb) as (rows & cols & boxes & Hu & H1 & H2 & H3).
  set (s0 := mkSolver 0 b (replicate 400 None) [] {[0 := mkNode 0 0 0 0 0 0 0]} 1).
  assert (E : SudokuSolver b =
    (s ← for_each (names b) append_column s0; for_each (moves b) (fun m => add_row m.1 m.2) s)).
  { unfold SudokuSolver, new_column. rewrite check_true by done.
    cbn [mbind res_bind cur_node_ root_ inout_ columns_ stack_ nodes_].
    change (wr Right (<[0:=mkNode 0 0 0 0 0 0 0]> ∅) 0 0) with (Ok (A := heap) {[0 := mkNode 0 0 0 0 0 0 0]}).
    cbn [mbind res_bind].
    change (wr Left {[0 := mkNode 0 0 0 0 0 0 0]} 0 0) with (Ok (A := heap) {[0 := mkNode 0 0 0 0 0 0 0]}).
    cbn [mbind res_bind]. rewrite Hu. cbn [mbind res_bind].
    change (mkSolver 0 b (replicate 400 None) [] {[0 := mkNode 0 0 0 0 0 0 0]} (0 + 1)) with s0.
    rewrite cell_columns_flat by done. unfold names, all_names. rewrite filter_app, for_each_app.
    destruct (for_each (filter _ (seqZ 0 81)) append_column s0) as [s1|]; [|done]. cbn [mbind res_bind].
    rewrite (value_columns_flat b rows cols boxes) by done.
    destruct (for_each _ append_column s1) as [s2|]; [|done]. cbn [mbind res_bind].
    by rewrite (matrix_rows_flat b Hb rows cols boxes). }
  rewrite E. apply build_ok; [apply matrix_names_nodup|apply names_range|apply moves_quad; done|apply room|].
  split; try done; [intros; lia| |].
  - intros k' m Hk' Hm. unfold s0. cbn [columns_].
    pose proof (names_range b m ltac:(by eapply list_elem_of_lookup_2)).
    apply lookup_replicate_2. lia.
  - split; try done.
    + split; [done|apply NoDup_singleton].
    + intros c Hc. by apply not_elem_of_nil in Hc.
    + intros c Hc. by apply not_elem_of_nil in Hc.
    + intros c Hc. by apply not_elem_of_nil in Hc.
    + split; [done|]. intros p Hp. unfold F, s0. cbn [nodes_]. by rewrite lookup_singleton_ne by lia.
Qed.

Lemma solver_correct b :
  board b ->
  (exists s s', SudokuSolver b = Ok s /\ solve solver_fuel solver_fuel s = Ok (true, s') /\
     solution (inout_ s') /\ extends b (inout_ s')) \/
  (exists s, SudokuSolver b = Ok s /\ solve solver_fuel solver_fuel s = Ok (false, s) /\
     forall g, solution g -> ~ extends b g).
Proof.
  intros Hb. destruct (SudokuSolver_ok b Hb) as (s & Hs & Hw).
  destruct (solve_moves (names b) (moves b) (matrix_names_nodup b) (names_range b) (moves_quad b Hb) (room b) (move_range b Hb) b s
    (proj1 Hb) Hw) as [(M & s' & HM & Hsol & E)|[Hno Hsol]].
  - left. exists s, s'. rewrite E. destruct (cover_solution b Hb M HM). done.
  - right. exists s. split_and!; [done..|]. intros g Hg He.
    destruct (solution_cover b Hb g Hg He) as [M HM]. by apply (Hno M).
Qed.

(** The board a line of characters stands for, and the text of a grid. *)
Definition digits (puzzle : list char) : list Z := (fun ch => ord ch - ord "0"%char) <$> puzzle.
Definition text (g : list Z) : list char := (fun v => chr (v + ord "0"%char)) <$> g.

Lemma digits_board puzzle :
  zlen puzzle = 81 ->
  if forallb (fun v => (0 <=? v) && (v <=? 9)) (digits puzzle) then board (digits puzzle)
  else ~ board (digits puzzle).
Proof.
  intros Hlen. destruct (forallb _ _) eqn:E.
  - split; [unfold zlen, digits in *; by rewrite length_fmap|].
    apply Forall_forall. intros v Hv. rewrite forallb_forall in E.
    specialize (E v (proj1 (list_elem_of_In _ _) Hv)). lia.
  - intros [_ Hall]. assert (forallb (fun v => (0 <=? v) && (v <=? 9)) (digits puzzle) = true); [|congruence].
    apply forallb_forall. intros v Hv%list_elem_of_In. rewrite Forall_forall in Hall.
    specialize (Hall v Hv). lia.
Qed.

Lemma solveSudoku_spec puzzle :
  zlen puzzle = 81 ->
  (board (digits puzzle) /\
   exists g, solveSudoku puzzle = Ok (text g) /\ solution g /\ extends (digits puzzle) g) \/
  (solveSudoku puzzle = Ok kNoSolution /\
   ~ (board (digits puzzle) /\ exists g, solution g /\ extends (digits puzzle) g)).
Proof.
  intros Hlen. pose proof (digits_board puzzle Hlen) as Hd.
  unfold solveSudoku. rewrite check_true by (unfold kCells; lia). cbn [mbind res_bind].
  fold (digits puzzle). destruct (forallb _ (digits puzzle)).
  - destruct (solver_correct (digits puzzle) Hd) as [(s & s' & -> & Hsol & Hg & He)|(s & -> & Hsol & Hno)];
      cbn [mbind res_bind]; rewrite Hsol; cbn [mbind res_bind].
    + left. split; [done|]. exists (inout_ s'). done.
    + right. split; [done|]. intros [_ (g & Hg & He)]. by apply (Hno g).
  - right. split; [done|]. intros [Hbd _]. done.
Qed.

(** [C7] [solveSudoku] always answers a line of 81 characters, without failing an
    assertion, leaving its node store or running out of rounds: with a grid that keeps the
    given digits and has each of 1 to 9 once in every row, column and box when there is one,
    and with [NoSolution] when there is none (also when the given digits contradict each
    other) or the line is not made of digits. *)
Theorem solveSudoku_correct puzzle :
  zlen puzzle = 81 ->
  (board (digits puzzle) /\
   exists g, solveSudoku puzzle = Ok (text g) /\ solution g /\ extends (digits puzzle) g) \/
  (solveSudoku puzzle = Ok kNoSolution /\
   ~ (board (digits puzzle) /\ exists g, solution g /\ extends (digits puzzle) g)).
Proof. apply solveSudoku_spec. Qed.

Definition puzzle1 : list char :=
  lit "000000010400000000020000000000050407008000300001090000300400200050100000000806000".

Lemma solveSudoku_correct_witness :
  zlen puzzle1 = 81 /\
  exists g, solveSudoku puzzle1 = Ok (text g) /\ solution g /\ extends (digits puzzle1) g.
Proof.
  split; [reflexivity|].
  destruct (solveSudoku_correct puzzle1 eq_refl) as [[_ Hg]|[Hno _]]; [exact Hg|].
  vm_compute in Hno. discriminate.
Defined.
