(* ===== verification/SudokuServer.v ===== *)
(** * The Sudoku server (sudoku/server_basic.cc)

    A connection carries request lines, [puzzle] or [id:puzzle], ended by CRLF; each is
    answered with a line.  [onMessage] is called with the input buffer after each read and
    loops over the lines in it.  What the handler does to the connection is the list of its
    calls of [send] and [shutdown].  Each round of the loop takes a line away, so fuel above
    the number of buffered bytes is enough. *)
From S2P Require Import Prelude Buffer BufferTheory Sudoku SudokuMatrix SudokuTheory.

Inductive answer := Send (d : list char) | Shutdown.

Definition colon : char := ":"%char.

Definition processRequest (request : list char) : res (list answer * bool) :=
  let '(id, puzzle) :=
    match find_char colon request with
    | Some k => (take (Z.to_nat k) request, drop (Z.to_nat (k + 1)) request)
    | None => ([], request)
    end in
  if zlen puzzle =? kCells then
    result ← solveSudoku puzzle;
    match id with
    | [] => Ok ([Send (result ++ kCRLF)], true)
    | _ => Ok ([Send (id ++ [colon] ++ result ++ kCRLF)], true)
    end
  else Ok ([], false).

Fixpoint onMessage_loop (fuel : nat) (len : Z) (b : Buffer) (out : list answer)
    : res (list answer * Buffer) :=
  match fuel with
  | O => Fault OutOfFuel
  | S fuel =>
      if kCells + 2 <=? len then
        crlf ← findCRLF b;
        match crlf with
        | Some p =>
            request ← read_range (buffer_ b) (peek b) p;
            b ← retrieveUntil (p + 2) b;
            let len := readableBytes b in
            '(sent, good) ← processRequest request;
            if good : bool then onMessage_loop fuel len b (out ++ sent)
            else Ok (out ++ sent ++ [Send (lit "Bad Request!" ++ kCRLF); Shutdown], b)
        | None =>
            if 100 <? len then Ok (out ++ [Send (lit "Id too long!" ++ kCRLF); Shutdown], b)
            else Ok (out, b)
        end
      else Ok (out, b)
  end.

Definition onMessage (fuel : nat) (b : Buffer) : res (list answer * Buffer) :=
  onMessage_loop fuel (readableBytes b) b [].

(** The reads of a connection, one after the other. *)
Fixpoint serve (fuel : nat) (chunks : list (list char)) (b : Buffer) : res (list answer * Buffer) :=
  match chunks with
  | [] => Ok ([], b)
  | d :: chunks =>
      b ← append d b;
      '(out, b) ← onMessage fuel b;
      '(out', b) ← serve fuel chunks b;
      Ok (out ++ out', b)
  end.

(** ** Requests and answers *)

Record request := mkRequest { rq_id : list char; rq_puzzle : list char }.

(** A request a client may send: 81 characters for the board, an identifier of at most 17
    characters, no separator in either. *)
Definition well_formed (r : request) : Prop :=
  zlen (rq_puzzle r) = 81 /\ zlen (rq_id r) <= 17 /\
  chr 13 ∉ rq_id r ++ rq_puzzle r /\ colon ∉ rq_id r ++ rq_puzzle r.

Definition tag (id body : list char) : list char :=
  match id with [] => body | _ => id ++ [colon] ++ body end.

Definition line (r : request) : list char := tag (rq_id r) (rq_puzzle r).
Definition wire (r : request) : list char := line r ++ kCRLF.

(** The answer carries the identifier, and a solution if there is one. *)
Definition answers (r : request) (a : answer) : Prop :=
  exists result, a = Send (tag (rq_id r) (result ++ kCRLF)) /\
    ((exists g, result = text g /\ solution g /\ extends (digits (rq_puzzle r)) g) \/
     (result = kNoSolution /\
      ~ (board (digits (rq_puzzle r)) /\ exists g, solution g /\ extends (digits (rq_puzzle r)) g))).

Lemma line_no_cr r : well_formed r -> chr 13 ∉ line r.
Proof.
  intros (_ & _ & Hcr & _). unfold line, tag.
  destruct (rq_id r) as [|x id]; [done|]. rewrite !elem_of_app, list_elem_of_singleton in *.
  intros [?|[E|?]]; [tauto| |tauto]. by vm_compute in E.
Qed.

Lemma line_length r : well_formed r -> 81 <= zlen (line r) <= 99.
Proof.
  intros (Hp & Hi & _). unfold line, tag. destruct (rq_id r) as [|x id]; [lia|].
  rewrite !zlen_app. change (zlen [colon]) with 1. pose proof (zlen_nonneg (x :: id)). lia.
Qed.

Lemma find_colon r :
  well_formed r ->
  match find_char colon (line r) with
  | Some k => (take (Z.to_nat k) (line r), drop (Z.to_nat (k + 1)) (line r))
  | None => ([], line r)
  end = (rq_id r, rq_puzzle r).
Proof.
  intros (_ & _ & _ & Hc). rewrite elem_of_app in Hc. unfold line, tag.
  destruct (rq_id r) as [|x id].
  - by rewrite (proj2 (find_char_None _ _)) by tauto.
  - change ([colon] ++ rq_puzzle r) with (colon :: rq_puzzle r).
    rewrite find_char_app by tauto. by rewrite take_zlen, drop_zlen.
Qed.

Lemma processRequest_ok r :
  well_formed r -> exists a, processRequest (line r) = Ok ([a], true) /\ answers r a.
Proof.
  intros Hw. unfold processRequest. rewrite (find_colon r Hw). destruct Hw as (Hp & _).
  replace (zlen (rq_puzzle r) =? kCells) with true by (unfold kCells; lia).
  unfold answers, tag.
  destruct (solveSudoku_spec (rq_puzzle r) Hp) as [[_ (g & -> & Hg & He)]|[-> Hno]];
    cbn [mbind res_bind]; destruct (rq_id r); eauto 10.
Qed.

(** ** The stream of a connection *)

(** What is left in the buffer between reads: the start of a line. *)
Definition partial (t : list char) : Prop := split_line t = None /\ zlen t <= 100.

Lemma partial_prefix x y : partial (x ++ y) -> partial x.
Proof.
  intros [Hs Hl]. rewrite zlen_app in Hl. pose proof (zlen_nonneg y). split; [|lia].
  destruct (split_line x) as [[l rest]|] eqn:E; [|done]. by rewrite (split_line_app _ y _ _ E) in Hs.
Qed.

Lemma partial_wire r x y : well_formed r -> x ++ y = wire r -> y <> [] -> partial x.
Proof.
  intros Hw E Hy. pose proof (line_length r Hw) as Hlen. pose proof (line_no_cr r Hw) as Hcr.
  assert (Hlx : zlen x + zlen y = zlen (line r) + 2) by (rewrite <- zlen_app, E; unfold wire; by rewrite zlen_app).
  assert (0 < zlen y) by (destruct y; [done|rewrite zlen_cons; pose proof (zlen_nonneg y); lia]).
  split; [|lia].
  destruct (split_line x) as [[l rest]|] eqn:Es; [|done]. exfalso.
  apply (split_line_app _ y) in Es. rewrite E in Es. unfold wire in Es.
  rewrite <- (app_nil_r (line r ++ kCRLF)), <- app_assoc, split_line_text in Es by done.
  injection Es as _ Hr. apply (f_equal zlen) in Hr. rewrite zlen_app, zlen_nil in Hr.
  pose proof (zlen_nonneg rest). lia.
Qed.

Lemma onMessage_requests rs t fuel b out :
  Forall well_formed rs -> partial t -> inv b -> content b = concat (wire <$> rs) ++ t ->
  (length rs < fuel)%nat ->
  exists as_ b', onMessage_loop fuel (readableBytes b) b out = Ok (out ++ as_, b') /\
    Forall2 answers rs as_ /\ inv b' /\ content b' = t.
Proof.
  revert b out fuel. induction rs as [|r rs IH]; intros b out fuel Hw [Hs Hl] Hi Hc Hf;
    (destruct fuel as [|fuel]; [cbn in Hf; lia|]); cbn [onMessage_loop];
    rewrite readableBytes_content by done; pose proof (line_of_buffer b Hi) as Hline.
  - exists [], b. cbn in Hc. rewrite Hc in *. rewrite app_nil_r. split; [|done].
    destruct (kCells + 2 <=? zlen t); [|done]. rewrite Hs in Hline. rewrite Hline. cbn [mbind res_bind].
    by replace (100 <? zlen t) with false by lia.
  - apply Forall_cons in Hw as [Hr Hw]. cbn in Hc, Hf. unfold wire at 1 in Hc.
    rewrite <- !app_assoc in Hc. rewrite Hc in *. rewrite split_line_text in Hline by (by apply line_no_cr).
    destruct Hline as (p & b1 & -> & Hrd & Hru & Hi1 & Hc1).
    pose proof (line_length r Hr). pose proof (zlen_nonneg (concat (wire <$> rs) ++ t)).
    rewrite !zlen_app. change (zlen kCRLF) with 2. rewrite <- zlen_app.
    replace (kCells + 2 <=? _) with true by (unfold kCells; lia).
    cbn [mbind res_bind]. rewrite Hrd. cbn [mbind res_bind]. rewrite Hru. cbn [mbind res_bind].
    destruct (processRequest_ok r Hr) as (a & -> & Ha). cbn [mbind res_bind].
    destruct (IH b1 (out ++ [a]) fuel Hw (conj Hs Hl) Hi1 Hc1 ltac:(lia)) as (as_ & b' & -> & H2 & Hi' & Hc').
    exists (a :: as_), b'. rewrite <- app_assoc. split_and!; [done|by constructor|done..].
Qed.

Lemma serve_requests chunks rs tail fuel b :
  Forall well_formed rs -> partial tail -> inv b -> partial (content b) ->
  content b ++ concat chunks = concat (wire <$> rs) ++ tail ->
  Forall (fun d => zlen d <= max_size) chunks -> (length rs < fuel)%nat ->
  serve fuel chunks b = Fault LengthError \/
  exists as_ b', serve fuel chunks b = Ok (as_, b') /\ Forall2 answers rs as_ /\ content b' = tail.
Proof.
  revert rs b. induction chunks as [|d chunks IH]; intros rs b Hw Ht Hi Hp E Hd Hf; cbn [serve].
  - right. cbn in E. rewrite app_nil_r in E.
    destruct rs as [|r rs]; [exists [], b; split_and!; [done|constructor|done]|].
    apply Forall_cons in Hw as [Hr _]. destruct Hp as [Hs _]. exfalso.
    rewrite E in Hs. cbn in Hs. unfold wire at 1 in Hs. rewrite <- !app_assoc in Hs.
    by rewrite split_line_text in Hs by (by apply line_no_cr).
  - apply Forall_cons in Hd as [Hd Hds]. cbn in E.
    destruct (append_outcome d b Hi Hd) as [(b1 & -> & Hi1 & Hc1)|[-> _]]; [|by left].
    cbn [mbind res_bind]. rewrite app_assoc, <- Hc1 in E.
    destruct (cut_stream wire well_formed partial partial_prefix partial_wire rs tail _ _ Hw Ht E) as (rs1 & rs2 & t & -> & Hx & Ht' & Hpt).
    apply Forall_app in Hw as [Hw1 Hw2]. rewrite length_app in Hf.
    destruct (onMessage_requests rs1 t fuel b1 [] Hw1 Hpt Hi1 Hx ltac:(lia)) as (as1 & b2 & Ho & Ha & Hi2 & Hc2).
    unfold onMessage. rewrite Ho. cbn [mbind res_bind].
    destruct (IH rs2 b2 Hw2 Ht Hi2) as [->|(as2 & b3 & -> & Ha2 & Hc3)]; [by rewrite Hc2|by rewrite Hc2|done|lia|by left|].
    right. exists (as1 ++ as2), b3. cbn. split_and!; [done|by apply Forall2_app|done].
Qed.

(** However the bytes of a connection are cut into reads, each request is answered
    exactly once, in order, with its identifier and a solution of its board, or NoSolution
    when the board has none; the start of a further line stays in the buffer.  The handler
    does not fail, close the connection or run out of rounds; only the memory of the input
    buffer can be exhausted. *)
Theorem sudoku_server_correct chunks rs tail fuel b :
  Forall well_formed rs -> partial tail -> inv b -> content b = [] ->
  concat chunks = concat (wire <$> rs) ++ tail ->
  Forall (fun d => zlen d <= max_size) chunks -> (length rs < fuel)%nat ->
  outcome LengthError (serve fuel chunks b) (fun '(out, b') => Forall2 answers rs out /\ content b' = tail).
Proof.
  intros Hw Ht Hi Hc E Hd Hf.
  destruct (serve_requests chunks rs tail fuel b) as [->|(as_ & b' & -> & ? & ?)]; try done.
  - by rewrite Hc.
  - by rewrite Hc.
  - by right.
  - left. by exists (as_, b').
Qed.

(** ** Examples *)

Definition sample_requests : list request :=
  [mkRequest (lit "a1") puzzle1; mkRequest [] (replicate 81 "1"%char)].
Definition sample_stream : list char := concat (wire <$> sample_requests) ++ lit "b2:00".
Definition server_buffer : Buffer := mkBuffer (replicate 1032 (chr 0)) kCheapPrepend kCheapPrepend.

Lemma sudoku_server_correct_witness :
  outcome LengthError
    (serve 3 [take 50 sample_stream; drop 50 sample_stream] server_buffer)
    (fun '(out, b') => Forall2 answers sample_requests out /\ content b' = lit "b2:00").
Proof.
  apply sudoku_server_correct.
  - apply Forall_forall. intros r [->|[->|[]%not_elem_of_nil]%elem_of_cons]%elem_of_cons;
      unfold well_formed; (split_and!; [vm_compute; done| |intros H; apply list_elem_of_In in H; vm_compute in H; intuition congruence..]);
      vm_compute; congruence.
  - split; [vm_compute; reflexivity|vm_compute; congruence].
  - unfold inv. vm_compute. repeat split; discriminate.
  - vm_compute. reflexivity.
  - vm_compute. reflexivity.
  - repeat constructor; vm_compute; congruence.
  - cbn. lia.
Defined.

(** An identifier of 18 characters is answered when its line arrives in one read and
    refused when the read ends before the line does. *)
Example long_id_one_read :
  let w := wire (mkRequest (replicate 18 "x"%char) puzzle1) in
  (exists s b, serve 2 [w] server_buffer = Ok ([Send s], b)) /\
  (exists s b, serve 2 [take 101 w; drop 101 w] server_buffer =
    Ok ([Send (lit "Id too long!" ++ kCRLF); Shutdown; Send s], b)).
Proof. split; vm_compute; eauto. Qed.
