(* ===== verification/SudokuStat.v ===== *)
(** * Statistics of the Sudoku server (sudoku/stat.h)

    Totals, and per-second counts of responses and latencies over the last 60 seconds.
    The per-second values are in two boost::circular_buffer objects, which are the class
    [CircularLog] with the documented behaviour of that library as laws; [list_log] is an
    instance.  Every method runs under the object's mutex, so a history of calls is a
    sequence.  Counters are mathematical integers: they would need to pass 2^63 to
    overflow. *)
From S2P Require Import Prelude Decimal LogStream Timestamp.

(** ** boost::circular_buffer<int64_t> *)

Class CircularLog (Q : Type) := {
  cb_new : Z -> Q;
  cb_size : Q -> Z;
  cb_push_back : Z -> Q -> Q;
  cb_clear : Q -> Q;
  cb_at : Q -> Z -> res Z;
  cb_set : Q -> Z -> Z -> res Q;
  cb_items : Q -> list Z;
  cb_capacity : Q -> Z
}.

(** A push into a full buffer overwrites the oldest element; indices count from the oldest. *)
Class CircularLogLaws (Q : Type) `{CircularLog Q} : Prop := {
  cb_new_law n : 0 <= n -> cb_items (cb_new n) = [] /\ cb_capacity (cb_new n) = n;
  cb_size_law q : cb_size q = zlen (cb_items q);
  cb_push_law x q : zlen (cb_items q) < cb_capacity q ->
    cb_items (cb_push_back x q) = cb_items q ++ [x] /\ cb_capacity (cb_push_back x q) = cb_capacity q;
  cb_push_full_law x y l q : cb_items q = y :: l -> zlen (cb_items q) = cb_capacity q ->
    cb_items (cb_push_back x q) = l ++ [x] /\ cb_capacity (cb_push_back x q) = cb_capacity q;
  cb_clear_law q : cb_items (cb_clear q) = [] /\ cb_capacity (cb_clear q) = cb_capacity q;
  cb_at_law q i x : 0 <= i -> cb_items q !! Z.to_nat i = Some x -> cb_at q i = Ok x;
  cb_set_law q i x : 0 <= i < zlen (cb_items q) ->
    exists q', cb_set q i x = Ok q' /\ cb_items q' = <[Z.to_nat i := x]> (cb_items q) /\
      cb_capacity q' = cb_capacity q
}.

(** A list and a capacity. *)
Definition list_log : Type := list Z * Z.

#[global] Instance list_log_ops : CircularLog list_log := {
  cb_new n := ([], n);
  cb_size q := zlen q.1;
  cb_push_back x q := if zlen q.1 <? q.2 then (q.1 ++ [x], q.2) else (tail q.1 ++ [x], q.2);
  cb_clear q := ([], q.2);
  cb_at q i := if 0 <=? i then get (q.1 !! Z.to_nat i) else Fault OutOfBounds;
  cb_set q i x := if (0 <=? i) && (i <? zlen q.1) then Ok (<[Z.to_nat i := x]> q.1, q.2) else Fault OutOfBounds;
  cb_items q := q.1;
  cb_capacity q := q.2 }.

#[global] Instance list_log_laws : CircularLogLaws list_log.
Proof.
  split; cbn; try done.
  - intros x q Hq. by replace (zlen q.1 <? q.2) with true by lia.
  - intros x y l q E Hq. replace (zlen q.1 <? q.2) with false by lia. by rewrite E.
  - intros q i x Hi E. replace (0 <=? i) with true by lia. by rewrite E.
  - intros q i x Hi. replace (_ && _) with true by lia. by eexists.
Qed.

(** ** SudokuStat *)

Definition kSeconds : Z := 60.

Section Stat.
Context {Q : Type} `{CL : CircularLog Q}.

Record SudokuStat := mkStat {
  lastSecond_ : Z;
  requests_ : Q;
  latencies_ : Q;
  totalRequests_ : Z; totalResponses_ : Z; totalSolved_ : Z; badRequests_ : Z;
  droppedRequests_ : Z; totalLatency_ : Z; badLatency_ : Z }.

Definition newStat : SudokuStat := mkStat 0 (cb_new kSeconds) (cb_new kSeconds) 0 0 0 0 0 0 0.

Definition set_window (s : SudokuStat) (last : Z) (rq la : Q) : SudokuStat :=
  mkStat last rq la (totalRequests_ s) (totalResponses_ s) (totalSolved_ s) (badRequests_ s)
    (droppedRequests_ s) (totalLatency_ s) (badLatency_ s).

(** [q[i] += d] and [q.back() += d] *)
Definition bump (q : Q) (i d : Z) : res Q := v ← cb_at q i; cb_set q i (v + d).
Definition bump_back (q : Q) (d : Z) : res Q := bump q (cb_size q - 1) d.

(** [while (lastSecond_ < second) { push_back(0); push_back(0); ++lastSecond_; }] *)
Fixpoint catch_up (fuel : nat) (last second : Z) (rq la : Q) : res (Z * Q * Q) :=
  match fuel with
  | O => Fault OutOfFuel
  | S fuel =>
      if last <? second then catch_up fuel (last + 1) second (cb_push_back 0 rq) (cb_push_back 0 la)
      else Ok (last, rq, la)
  end.

Definition recordResponse (now receive : Timestamp) (solved : bool) (s : SudokuStat) : res SudokuStat :=
  let second := secondsSinceEpoch now in
  let elapsed_us := now - receive in
  _ ← check (cb_size (requests_ s) =? cb_size (latencies_ s));
  let responses := totalResponses_ s + 1 in
  let nsolved := if solved then totalSolved_ s + 1 else totalSolved_ s in
  if elapsed_us <? 0 then
    Ok (mkStat (lastSecond_ s) (requests_ s) (latencies_ s) (totalRequests_ s) responses nsolved
          (badRequests_ s) (droppedRequests_ s) (totalLatency_ s) (badLatency_ s + 1))
  else
    let s := mkStat (lastSecond_ s) (requests_ s) (latencies_ s) (totalRequests_ s) responses nsolved
          (badRequests_ s) (droppedRequests_ s) (totalLatency_ s + elapsed_us) (badLatency_ s) in
    let firstSecond := lastSecond_ s - cb_size (requests_ s) + 1 in
    s ←
      if lastSecond_ s =? second then
        rq ← bump_back (requests_ s) 1;
        la ← bump_back (latencies_ s) elapsed_us;
        Ok (set_window s (lastSecond_ s) rq la)
      else if (lastSecond_ s + 1 =? second) || (lastSecond_ s =? 0) then
        rq ← bump_back (cb_push_back 0 (requests_ s)) 1;
        la ← bump_back (cb_push_back 0 (latencies_ s)) elapsed_us;
        Ok (set_window s second rq la)
      else if lastSecond_ s <? second then
        '(last, rq, la) ←
          if second <? lastSecond_ s + kSeconds then
            catch_up (Z.to_nat kSeconds) (lastSecond_ s) second (requests_ s) (latencies_ s)
          else Ok (second, cb_push_back 0 (cb_clear (requests_ s)), cb_push_back 0 (cb_clear (latencies_ s)));
        rq ← bump_back rq 1;
        la ← bump_back la elapsed_us;
        Ok (set_window s last rq la)
      else if firstSecond <=? second then
        let idx := second - firstSecond in
        _ ← check (idx <? cb_size (requests_ s));
        rq ← bump (requests_ s) idx 1;
        la ← bump (latencies_ s) idx elapsed_us;
        Ok (set_window s (lastSecond_ s) rq la)
      else
        _ ← check (second <? firstSecond);
        Ok s;
    _ ← check (cb_size (requests_ s) =? cb_size (latencies_ s));
    Ok s.

Definition recordRequest (s : SudokuStat) : SudokuStat :=
  mkStat (lastSecond_ s) (requests_ s) (latencies_ s) (totalRequests_ s + 1) (totalResponses_ s)
    (totalSolved_ s) (badRequests_ s) (droppedRequests_ s) (totalLatency_ s) (badLatency_ s).
Definition recordBadRequest (s : SudokuStat) : SudokuStat :=
  mkStat (lastSecond_ s) (requests_ s) (latencies_ s) (totalRequests_ s) (totalResponses_ s)
    (totalSolved_ s) (badRequests_ s + 1) (droppedRequests_ s) (totalLatency_ s) (badLatency_ s).
Definition recordDroppedRequest (s : SudokuStat) : SudokuStat :=
  mkStat (lastSecond_ s) (requests_ s) (latencies_ s) (totalRequests_ s) (totalResponses_ s)
    (totalSolved_ s) (badRequests_ s) (droppedRequests_ s + 1) (totalLatency_ s) (badLatency_ s).

Definition reset (s : SudokuStat) : SudokuStat :=
  mkStat 0 (cb_clear (requests_ s)) (cb_clear (latencies_ s)) 0 0 0 0 (droppedRequests_ s) 0 0.

(** [report]: what is put into the stream. *)
Definition sum (l : list Z) : Z := foldr Z.add 0 l.
Definition avg (total n : Z) : Z := if n =? 0 then 0 else Z.quot total n.

Definition row (label : string) (v : Z) : list item := [ICString (Some (lit label)); IInt v; IChar (chr 10)].
Definition series (label : string) (l : list Z) : list item :=
  ICString (Some (lit label)) :: flat_map (fun v => [IChar " "%char; IInt v]) l ++ [IChar (chr 10)].

Definition report_items (queueSize : Z) (s : SudokuStat) : list item :=
  let rq := cb_items (requests_ s) in
  let la := cb_items (latencies_ s) in
  row "task_queue_size " queueSize ++
  row "total_requests " (totalRequests_ s) ++ row "total_responses " (totalResponses_ s) ++
  row "total_solved " (totalSolved_ s) ++ row "bad_requests " (badRequests_ s) ++
  row "dropped_requests " (droppedRequests_ s) ++ row "latency_sum_us " (totalLatency_ s) ++
  (if 0 <? badLatency_ s then row "bad_latency" (badLatency_ s) else []) ++
  row "last_second " (lastSecond_ s) ++
  series "requests_per_second" rq ++ row "requests_60s " (sum rq) ++
  series "latency_sum_us_per_second" la ++ row "latency_sum_us_60s " (sum la) ++
  row "latency_us_60s " (avg (sum la) (sum rq)) ++
  row "latency_us_avg " (avg (totalLatency_ s) (totalResponses_ s)).

Definition report (queueSize : Z) (s : SudokuStat) : option (res (list char)) :=
  match stream_put_all (report_items queueSize s) (newFixedBuffer kSmallBuffer) with
  | Some (Ok b) => Some (Ok (ftoString b))
  | Some (Fault f) => Some (Fault f)
  | None => None
  end.
End Stat.
Arguments SudokuStat Q : clear implicits.

(** ** Windows of per-second values *)

Section Windows.
Context {Q : Type} `{CLL : CircularLogLaws Q}.

(** The buffer holds the values of [f] at the [n] seconds up to [last]. *)
Record window (f : Z -> Z) (last n : Z) (q : Q) : Prop := {
  w_items : cb_items q = f <$> seqZ (last - n + 1) n;
  w_capacity : cb_capacity q = kSeconds;
  w_size : 0 <= n <= kSeconds }.

Definition add_at (f : Z -> Z) (t d : Z) : Z -> Z := fun u => if u =? t then f u + d else f u.

Lemma window_size f last n q : window f last n q -> cb_size q = n.
Proof.
  intros [E _ Hn]. rewrite cb_size_law, E. unfold zlen. rewrite length_fmap, length_seqZ. lia.
Qed.

Lemma window_ext f g last n q :
  (forall t, last - n < t <= last -> f t = g t) -> window f last n q -> window g last n q.
Proof.
  intros Hfg [E Hc Hn]. split; [|done..]. rewrite E. apply list_fmap_ext.
  intros i t Ht%list_elem_of_lookup_2%elem_of_seqZ. apply Hfg. lia.
Qed.

Lemma window_empty f last q : cb_items q = [] -> cb_capacity q = kSeconds -> window f last 0 q.
Proof. intros E Hc. split; [by rewrite E|done|unfold kSeconds; lia]. Qed.

Lemma push_window f last n q :
  f (last + 1) = 0 -> window f last n q -> window f (last + 1) (Z.min kSeconds (n + 1)) (cb_push_back 0 q).
Proof.
  intros Hf [E Hc Hn].
  assert (Hlen : zlen (cb_items q) = n) by (rewrite E; unfold zlen; rewrite length_fmap, length_seqZ; lia).
  destruct (decide (n < kSeconds)) as [Hlt|Hge].
  - destruct (cb_push_law 0 q) as [E' Hc']; [lia|]. replace (Z.min kSeconds (n + 1)) with (n + 1) by lia.
    split; [|lia..]. rewrite E', E. rewrite (seqZ_app _ n 1) by lia. rewrite fmap_app. cbn.
    replace (last + 1 - (n + 1) + 1) with (last - n + 1) by lia. f_equal.
    rewrite seqZ_cons by lia. rewrite seqZ_nil by lia. cbn. f_equal.
    replace (last - n + 1 + n) with (last + 1) by lia. done.
  - assert (n = kSeconds) as -> by lia. replace (Z.min kSeconds (kSeconds + 1)) with kSeconds by lia.
    rewrite seqZ_cons in E by (unfold kSeconds; lia). cbn in E.
    destruct (cb_push_full_law 0 _ _ q E) as [E' Hc']; [lia|]. split; [|lia..].
    rewrite E'. replace (last + 1 - kSeconds + 1) with (Z.succ (last - kSeconds + 1)) by lia.
    replace kSeconds with (Z.pred kSeconds + 1) at 4 by lia.
    rewrite (seqZ_app _ (Z.pred kSeconds) 1) by (unfold kSeconds; lia). rewrite fmap_app. f_equal.
    rewrite seqZ_cons by lia. rewrite seqZ_nil by lia. cbn. f_equal.
    replace (_ + _) with (last + 1) by lia. done.
Qed.

Lemma bump_window f last n q t d :
  window f last n q -> last - n < t <= last ->
  exists q', bump q (t - (last - n + 1)) d = Ok q' /\ window (add_at f t d) last n q'.
Proof.
  intros [E Hc Hn] Ht. set (i := t - (last - n + 1)).
  assert (Hat : cb_items q !! Z.to_nat i = Some (f t)).
  { rewrite E, list_lookup_fmap, lookup_seqZ_lt by lia. cbn. do 2 f_equal. lia. }
  assert (Hlen : zlen (cb_items q) = n) by (rewrite E; unfold zlen; rewrite length_fmap, length_seqZ; lia).
  unfold bump. rewrite (cb_at_law q i (f t)) by (done || lia). cbn.
  destruct (cb_set_law q i (f t + d)) as (q' & -> & E' & Hc'); [lia|].
  exists q'. split; [done|]. split; [|congruence|done]. rewrite E', E. apply list_eq. intros k.
  rewrite list_lookup_fmap. destruct (decide (k = Z.to_nat i)) as [->|Hne].
  - rewrite list_lookup_insert_eq by (rewrite length_fmap, length_seqZ; lia).
    rewrite lookup_seqZ_lt by lia. cbn. f_equal. unfold add_at.
    replace (last - n + 1 + Z.of_nat (Z.to_nat i)) with t by lia. by rewrite Z.eqb_refl.
  - rewrite list_lookup_insert_ne by done. rewrite list_lookup_fmap.
    destruct (seqZ (last - n + 1) n !! k) as [u|] eqn:Eu; [|done]. cbn. f_equal. unfold add_at.
    apply lookup_seqZ in Eu. replace (u =? t) with false by lia. done.
Qed.

Lemma bump_back_window f last n q d :
  window f last n q -> 0 < n ->
  exists q', bump_back q d = Ok q' /\ window (add_at f last d) last n q'.
Proof.
  intros Hw Hn. unfold bump_back. rewrite (window_size _ _ _ _ Hw).
  replace (n - 1) with (last - (last - n + 1)) by lia. apply bump_window; [done|lia].
Qed.

Lemma catch_up_window f g last second n rq la fuel :
  (forall t, last < t -> f t = 0 /\ g t = 0) -> window f last n rq -> window g last n la ->
  0 < n -> 0 <= second - last < Z.of_nat fuel ->
  exists rq' la' n', catch_up fuel last second rq la = Ok (second, rq', la') /\
    window f second n' rq' /\ window g second n' la' /\ 0 < n'.
Proof.
  revert last n rq la. induction fuel as [|fuel IH]; intros last n rq la Hz Hf Hg Hn Hs; [lia|].
  cbn [catch_up]. destruct (last <? second) eqn:E.
  - apply (IH (last + 1) (Z.min kSeconds (n + 1))).
    + intros t Ht. apply Hz. lia.
    + apply push_window; [apply Hz; lia|done].
    + apply push_window; [apply Hz; lia|done].
    + unfold kSeconds. lia.
    + lia.
  - assert (last = second) as -> by lia. eauto 10.
Qed.
End Windows.

(** ** Histories *)

Inductive stat_op :=
| OpResponse (now receive : Timestamp) (solved : bool)
| OpRequest
| OpBadRequest
| OpDropped
| OpReset.

Section History.
Context {Q : Type} `{CLL : CircularLogLaws Q}.

Definition stat_step (op : stat_op) (s : SudokuStat Q) : res (SudokuStat Q) :=
  match op with
  | OpResponse now receive solved => recordResponse now receive solved s
  | OpRequest => Ok (recordRequest s)
  | OpBadRequest => Ok (recordBadRequest s)
  | OpDropped => Ok (recordDroppedRequest s)
  | OpReset => Ok (reset s)
  end.

Fixpoint stat_run (ops : list stat_op) (s : SudokuStat Q) : res (SudokuStat Q) :=
  match ops with
  | [] => Ok s
  | op :: ops => s ← stat_step op s; stat_run ops s
  end.

(** The calls since the last reset. *)
Definition since_reset (ops : list stat_op) : list stat_op :=
  foldl (fun acc op => match op with OpReset => [] | _ => acc ++ [op] end) [] ops.

(** The responses with a latency: the second they were sent in and the latency. *)
Definition timed (op : stat_op) : option (Z * Z) :=
  match op with
  | OpResponse now receive _ =>
      if now - receive <? 0 then None else Some (secondsSinceEpoch now, now - receive)
  | _ => None
  end.

Definition how_many (p : stat_op -> bool) (ops : list stat_op) : Z := zlen (filter (fun op => p op) ops).
Definition is_response (op : stat_op) : bool := match op with OpResponse _ _ _ => true | _ => false end.
Definition is_solved (op : stat_op) : bool := match op with OpResponse _ _ b => b | _ => false end.
Definition is_backwards (op : stat_op) : bool := match op with OpResponse now receive _ => now - receive <? 0 | _ => false end.
Definition is_request (op : stat_op) : bool := match op with OpRequest => true | _ => false end.
Definition is_bad (op : stat_op) : bool := match op with OpBadRequest => true | _ => false end.
Definition is_dropped (op : stat_op) : bool := match op with OpDropped => true | _ => false end.

(** The latencies of the responses of one second. *)
Definition latencies_in (t : Z) (g : list (Z * Z)) : list Z := snd <$> filter (fun p => p.1 = t) g.
Definition count_in (g : list (Z * Z)) (t : Z) : Z := zlen (latencies_in t g).
Definition latency_in (g : list (Z * Z)) (t : Z) : Z := sum (latencies_in t g).

(** The window after the timed responses [g], seconds being positive. *)
Definition window_ok (g : list (Z * Z)) (s : SudokuStat Q) : Prop :=
  exists n, window (count_in g) (lastSecond_ s) n (requests_ s) /\
    window (latency_in g) (lastSecond_ s) n (latencies_ s) /\
    ((lastSecond_ s = 0 /\ n = 0 /\ g = []) \/ (0 < lastSecond_ s /\ 0 < n)) /\
    forall p, p ∈ g -> p.1 <= lastSecond_ s.

Lemma sum_app l1 l2 : sum (l1 ++ l2) = sum l1 + sum l2.
Proof. unfold sum. induction l1 as [|x l1 IH]; cbn; [done|]. rewrite IH. lia. Qed.

Lemma latencies_snoc g t d u :
  latencies_in u (g ++ [(t, d)]) = latencies_in u g ++ if t =? u then [d] else [].
Proof.
  unfold latencies_in. rewrite filter_app, fmap_app, filter_cons, filter_nil. cbn. f_equal.
  destruct (t =? u) eqn:E; case_decide; try lia; done.
Qed.

Lemma count_snoc g t d u : count_in (g ++ [(t, d)]) u = add_at (count_in g) t 1 u.
Proof.
  unfold count_in, add_at. rewrite latencies_snoc, zlen_app.
  rewrite (Z.eqb_sym u t). destruct (t =? u); cbn; [done|]. rewrite zlen_nil. lia.
Qed.

Lemma latency_snoc g t d u : latency_in (g ++ [(t, d)]) u = add_at (latency_in g) t d u.
Proof.
  unfold latency_in, add_at. rewrite latencies_snoc, sum_app.
  rewrite (Z.eqb_sym u t). destruct (t =? u); unfold sum; cbn; lia.
Qed.

Lemma none_after g t : (forall p, p ∈ g -> p.1 < t) -> count_in g t = 0 /\ latency_in g t = 0.
Proof.
  intros Hg. unfold count_in, latency_in.
  assert (E : latencies_in t g = []); [|by rewrite E].
  unfold latencies_in. replace (filter _ g) with (@nil (Z * Z)); [done|]. symmetry.
  induction g as [|p g IH]; [done|]. rewrite filter_cons_False; [apply IH; set_solver|].
  pose proof (Hg p ltac:(set_solver)). lia.
Qed.

(** A response is counted in its second when that is in the window or after it. *)
Lemma window_record g t d last n rq la rq' la' :
  window (count_in g) last n rq -> window (latency_in g) last n la ->
  last - n < t <= last ->
  bump rq (t - (last - n + 1)) 1 = Ok rq' -> bump la (t - (last - n + 1)) d = Ok la' ->
  window (count_in (g ++ [(t, d)])) last n rq' /\ window (latency_in (g ++ [(t, d)])) last n la'.
Proof.
  intros Hr Hl Ht Er El.
  destruct (bump_window _ _ _ _ t 1 Hr Ht) as (q1 & E1 & W1). rewrite Er in E1. injection E1 as <-.
  destruct (bump_window _ _ _ _ t d Hl Ht) as (q2 & E2 & W2). rewrite El in E2. injection E2 as <-.
  split; (eapply window_ext; [|done]); intros u _; symmetry; [apply count_snoc|apply latency_snoc].
Qed.

Lemma bump_back_record g t d n rq la :
  window (count_in g) t n rq -> window (latency_in g) t n la -> 0 < n ->
  exists rq' la', bump_back rq 1 = Ok rq' /\ bump_back la d = Ok la' /\
    window (count_in (g ++ [(t, d)])) t n rq' /\ window (latency_in (g ++ [(t, d)])) t n la'.
Proof.
  intros Hr Hl Hn.
  destruct (bump_back_window _ _ _ _ 1 Hr Hn) as (q1 & -> & W1).
  destruct (bump_back_window _ _ _ _ d Hl Hn) as (q2 & -> & W2).
  exists q1, q2. split_and!; [done..| |]; (eapply window_ext; [|done]); intros u _; symmetry;
    [apply count_snoc|apply latency_snoc].
Qed.

(** A window that ends at the response's second takes it. *)
Lemma record_at_end g t d n rq la (s1 : SudokuStat Q) :
  (forall p, p ∈ g -> p.1 <= t) -> 0 < t -> 0 < n -> window (count_in g) t n rq -> window (latency_in g) t n la ->
  exists rq' la', bump_back rq 1 = Ok rq' /\ bump_back la d = Ok la' /\ window_ok (g ++ [(t, d)]) (set_window s1 t rq' la').
Proof.
  intros Hg Ht Hn Wr Wl. destruct (bump_back_record g t d n rq la Wr Wl Hn) as (rq' & la' & ? & ? & ? & ?).
  exists rq', la'. split_and!; [done..|]. exists n. cbn. split_and!; [done|done|right; lia|].
  intros p [Hp| ->%list_elem_of_singleton]%elem_of_app; [by apply Hg|done].
Qed.

(** A response older than the window leaves it. *)
Lemma record_too_old g t d last n rq la :
  t <= last - n -> window (count_in g) last n rq -> window (latency_in g) last n la ->
  window (count_in (g ++ [(t, d)])) last n rq /\ window (latency_in (g ++ [(t, d)])) last n la.
Proof.
  intros Ht Hr Hl. split; (eapply window_ext; [|done]); intros u Hu; [rewrite count_snoc|rewrite latency_snoc]; unfold add_at;
    by replace (u =? t) with false by lia.
Qed.

(** The window part of [recordResponse]. *)
Lemma record_window g s t d (s1 : SudokuStat Q) :
  0 < t -> window_ok g s -> lastSecond_ s1 = lastSecond_ s -> requests_ s1 = requests_ s ->
  latencies_ s1 = latencies_ s ->
  exists last rq la,
    (if lastSecond_ s1 =? t then
        rq ← bump_back (requests_ s1) 1;
        la ← bump_back (latencies_ s1) d;
        Ok (set_window s1 (lastSecond_ s1) rq la)
      else if (lastSecond_ s1 + 1 =? t) || (lastSecond_ s1 =? 0) then
        rq ← bump_back (cb_push_back 0 (requests_ s1)) 1;
        la ← bump_back (cb_push_back 0 (latencies_ s1)) d;
        Ok (set_window s1 t rq la)
      else if lastSecond_ s1 <? t then
        '(last, rq, la) ←
          if t <? lastSecond_ s1 + kSeconds then
            catch_up (Z.to_nat kSeconds) (lastSecond_ s1) t (requests_ s1) (latencies_ s1)
          else Ok (t, cb_push_back 0 (cb_clear (requests_ s1)), cb_push_back 0 (cb_clear (latencies_ s1)));
        rq ← bump_back rq 1;
        la ← bump_back la d;
        Ok (set_window s1 last rq la)
      else if lastSecond_ s1 - cb_size (requests_ s1) + 1 <=? t then
        _ ← check (t - (lastSecond_ s1 - cb_size (requests_ s1) + 1) <? cb_size (requests_ s1));
        rq ← bump (requests_ s1) (t - (lastSecond_ s1 - cb_size (requests_ s1) + 1)) 1;
        la ← bump (latencies_ s1) (t - (lastSecond_ s1 - cb_size (requests_ s1) + 1)) d;
        Ok (set_window s1 (lastSecond_ s1) rq la)
      else
        _ ← check (t <? lastSecond_ s1 - cb_size (requests_ s1) + 1);
        Ok s1) = Ok (set_window s1 last rq la) /\
    window_ok (g ++ [(t, d)]) (set_window s1 last rq la).
Proof.
  intros Ht (n & Hr & Hl & Hn & Hg) E1 E2 E3. rewrite E1, E2, E3.
  set (last := lastSecond_ s) in *.
  assert (Hzero : forall u, last < u -> count_in g u = 0 /\ latency_in g u = 0).
  { intros u Hu. apply none_after. intros p Hp%Hg. lia. }
  assert (Hle : forall last' p, last <= last' -> t <= last' -> p ∈ g ++ [(t, d)] -> p.1 <= last').
  { intros last' p Hl1 Hl2 [Hp%Hg| ->%list_elem_of_singleton]%elem_of_app; cbn; lia. }
  pose proof (fun n' rq la (Hlt : last <= t) => record_at_end g t d n' rq la s1
    (fun p Hp => Z.le_trans _ _ _ (Hg p Hp) Hlt) Ht) as Hend.
  destruct (last =? t) eqn:C1; [|destruct ((last + 1 =? t) || (last =? 0)) eqn:C2;
    [|destruct (last <? t) eqn:C3; [destruct (t <? last + kSeconds) eqn:C4|
      destruct (last - cb_size (requests_ s) + 1 <=? t) eqn:C5]]].
  - assert (last = t) as El by lia. rewrite El in *.
    destruct (Hend n (requests_ s) (latencies_ s)) as (rq & la & -> & -> & ?); [lia|lia|done|done|].
    cbn. eauto.
  - assert (Hprev : window (count_in g) (t - 1) n (requests_ s) /\ window (latency_in g) (t - 1) n (latencies_ s)).
    { destruct Hn as [(El & -> & _)|Hn]; [|replace (t - 1) with last by lia; done].
      split; apply window_empty; (apply Hr || apply Hl). }
    destruct Hprev as [Pr Pl].
    apply push_window in Pr; [|apply Hzero; lia]. apply push_window in Pl; [|apply Hzero; lia].
    replace (t - 1 + 1) with t in * by lia.
    destruct (fun A B => Hend _ _ _ A B Pr Pl) as (rq & la & -> & -> & ?);
      [lia|unfold kSeconds; lia|]. cbn. eauto.
  - destruct (catch_up_window (count_in g) (latency_in g) last t n (requests_ s) (latencies_ s) (Z.to_nat kSeconds))
      as (rq & la & n' & -> & Wr & Wl & Hn'); [done|done|done|lia|unfold kSeconds in *; lia|].
    cbn. destruct (Hend n' rq la) as (rq' & la' & -> & -> & ?); [lia|done..|]. cbn. eauto.
  - cbn. destruct (cb_clear_law (requests_ s)) as [I1 K1], (cb_clear_law (latencies_ s)) as [I2 K2].
    rewrite (w_capacity _ _ _ _ Hr) in K1. rewrite (w_capacity _ _ _ _ Hl) in K2.
    pose proof (push_window (count_in g) (t - 1) 0 _ ltac:(apply Hzero; lia) (window_empty _ _ _ I1 K1)) as Pr.
    pose proof (push_window (latency_in g) (t - 1) 0 _ ltac:(apply Hzero; lia) (window_empty _ _ _ I2 K2)) as Pl.
    replace (t - 1 + 1) with t in * by lia.
    destruct (fun A B => Hend _ _ _ A B Pr Pl) as (rq & la & -> & -> & ?);
      [lia|unfold kSeconds; lia|]. cbn. eauto.
  - rewrite (window_size _ _ _ _ Hr) in *. rewrite check_true by lia. cbn.
    destruct (bump_window _ _ _ _ t 1 Hr) as (rq & Er & _); [lia|].
    destruct (bump_window _ _ _ _ t d Hl) as (la & El & _); [lia|]. rewrite Er, El. cbn.
    destruct (window_record g t d last n _ _ rq la Hr Hl ltac:(lia) Er El) as [Wr Wl].
    exists last, rq, la. split; [done|]. exists n. cbn. split_and!; [done|done|right; lia|].
    intros p Hp. apply (Hle last); [lia|lia|done].
  - rewrite (window_size _ _ _ _ Hr) in *. rewrite check_true by lia. cbn.
    exists last, (requests_ s), (latencies_ s). split.
    { destruct s1; cbn in *. subst. done. }
    destruct (record_too_old g t d last n _ _ ltac:(lia) Hr Hl) as [Wr Wl]. exists n. cbn. split_and!; [done|done|right; lia|].
    intros p Hp. apply (Hle last); [lia|lia|done].
Qed.

(** What the object holds after the calls [ops]. *)
Record stat_ok (ops : list stat_op) (s : SudokuStat Q) : Prop := {
  so_window : window_ok (omap timed (since_reset ops)) s;
  so_requests : totalRequests_ s = how_many is_request (since_reset ops);
  so_responses : totalResponses_ s = how_many is_response (since_reset ops);
  so_solved : totalSolved_ s = how_many is_solved (since_reset ops);
  so_bad : badRequests_ s = how_many is_bad (since_reset ops);
  so_latency : totalLatency_ s = sum (snd <$> omap timed (since_reset ops));
  so_backwards : badLatency_ s = how_many is_backwards (since_reset ops);
  so_dropped : droppedRequests_ s = how_many is_dropped ops }.

Lemma how_many_snoc p ops op : how_many p (ops ++ [op]) = how_many p ops + if p op then 1 else 0.
Proof.
  unfold how_many. rewrite filter_app, zlen_app, filter_cons, filter_nil. f_equal.
  case_decide as E; destruct (p op); done.
Qed.

Lemma since_reset_snoc ops op :
  since_reset (ops ++ [op]) = match op with OpReset => [] | _ => since_reset ops ++ [op] end.
Proof. unfold since_reset. by rewrite foldl_app. Qed.

Lemma omap_timed_snoc ops op : omap timed (ops ++ [op]) = omap timed ops ++ option_list (timed op).
Proof. by rewrite omap_app. Qed.

Definition positive_time (op : stat_op) : Prop :=
  match op with OpResponse now _ _ => 0 < secondsSinceEpoch now | _ => True end.

Lemma recordResponse_ok ops now receive solved s :
  0 < secondsSinceEpoch now -> stat_ok ops s ->
  exists s', recordResponse now receive solved s = Ok s' /\
    stat_ok (ops ++ [OpResponse now receive solved]) s'.
Proof.
  intros Ht [Hw H1 H2 H3 H4 H5 H6 H7]. unfold recordResponse.
  pose proof Hw as (n & Hr & Hl & _).
  rewrite (window_size _ _ _ _ Hr), (window_size _ _ _ _ Hl), (check_true (n =? n)) by lia.
  cbn [mbind res_bind]. set (op := OpResponse now receive solved).
  assert (Hop : since_reset (ops ++ [op]) = since_reset ops ++ [op]) by apply since_reset_snoc.
  destruct (now - receive <? 0) eqn:E.
  - eexists. split; [done|].
    assert (Hgood : omap timed (since_reset (ops ++ [op])) = omap timed (since_reset ops)).
    { rewrite Hop, omap_timed_snoc. unfold op. cbn. rewrite E. cbn. by rewrite app_nil_r. }
    split; cbn [lastSecond_ requests_ latencies_ totalRequests_ totalResponses_ totalSolved_ badRequests_
      droppedRequests_ totalLatency_ badLatency_]; rewrite ?Hgood; try done;
      rewrite ?Hop, how_many_snoc; cbn; rewrite ?E; destruct solved; lia.
  - match goal with |- context [set_window ?s1 (lastSecond_ ?s1)] => set (s0 := s1) end.
    destruct (record_window (omap timed (since_reset ops)) s (secondsSinceEpoch now) (now - receive) s0
      Ht Hw eq_refl eq_refl eq_refl) as (last & rq & la & Hrec & Hw').
    rewrite Hrec. cbn [mbind res_bind].
    assert (Hgood : omap timed (since_reset (ops ++ [op])) =
      omap timed (since_reset ops) ++ [(secondsSinceEpoch now, now - receive)]).
    { rewrite Hop, omap_timed_snoc. unfold op. cbn. by rewrite E. }
    pose proof Hw' as (n' & Hr' & Hl' & _). cbn in Hr', Hl'.
    cbn [requests_ latencies_ set_window].
    rewrite (window_size _ _ _ _ Hr'), (window_size _ _ _ _ Hl'), check_true by lia. cbn [mbind res_bind].
    eexists. split; [done|]. split; rewrite ?Hgood; try done;
      cbn [set_window s0 totalRequests_ totalResponses_ totalSolved_ badRequests_
        droppedRequests_ totalLatency_ badLatency_];
      rewrite ?Hop, ?how_many_snoc, ?fmap_app, ?sum_app; cbn; rewrite ?E; try (destruct solved; lia).
Qed.

Lemma stat_step_ok ops op s :
  positive_time op -> stat_ok ops s -> exists s', stat_step op s = Ok s' /\ stat_ok (ops ++ [op]) s'.
Proof.
  intros Hp Hs. destruct op as [now receive solved| | | |]; cbn [stat_step].
  { by apply recordResponse_ok. }
  all: eexists; split; [done|]; destruct Hs as [Hw H1 H2 H3 H4 H5 H6 H7].
  1-3: split; rewrite ?since_reset_snoc, ?omap_timed_snoc; cbn; rewrite ?app_nil_r; try done;
    rewrite ?how_many_snoc; cbn; lia.
  destruct Hw as (n & Hr & Hl & _).
  destruct (cb_clear_law (requests_ s)) as [I1 K1], (cb_clear_law (latencies_ s)) as [I2 K2].
  rewrite (w_capacity _ _ _ _ Hr) in K1. rewrite (w_capacity _ _ _ _ Hl) in K2.
  split; rewrite ?since_reset_snoc; cbn; try done; [|rewrite how_many_snoc; cbn; lia].
  exists 0. cbn. split_and!; [by apply window_empty..|auto|]. intros p Hp'. by apply not_elem_of_nil in Hp'.
Qed.

Lemma newStat_ok : stat_ok [] newStat.
Proof.
  split; try done. exists 0. destruct (cb_new_law kSeconds ltac:(unfold kSeconds; lia)) as [I K].
  cbn. split_and!; [by apply window_empty..|auto|]. intros p Hp. by apply not_elem_of_nil in Hp.
Qed.

Lemma stat_run_ok pre ops s :
  Forall positive_time ops -> stat_ok pre s -> exists s', stat_run ops s = Ok s' /\ stat_ok (pre ++ ops) s'.
Proof.
  intros Hp. revert pre s. induction Hp as [|op ops Hop _ IH]; intros pre s Hs; cbn [stat_run].
  - rewrite app_nil_r. eauto.
  - destruct (stat_step_ok pre op s Hop Hs) as (s1 & -> & Hs1). cbn [mbind res_bind].
    destruct (IH _ _ Hs1) as (s' & -> & Hs'). exists s'. by rewrite <- app_assoc in Hs'.
Qed.
End History.

(** ** The report fits its buffer *)

Definition text_size (l : list item) : Z := zlen (concat (text <$> l)).

Lemma text_size_app l1 l2 : text_size (l1 ++ l2) = text_size l1 + text_size l2.
Proof. unfold text_size. by rewrite fmap_app, concat_app, zlen_app. Qed.

Lemma text_size_cons x l : text_size (x :: l) = zlen (text x) + text_size l.
Proof. unfold text_size. cbn. by rewrite zlen_app. Qed.

Lemma row_size label v : item_ok (IInt v) -> text_size (row label v) <= zlen (lit label) + 21.
Proof.
  intros Hv%dec_fits. unfold row. rewrite !text_size_cons. cbn [text].
  change (zlen [chr 10]) with 1. change (text_size []) with 0. lia.
Qed.

Lemma series_size label l :
  Forall item_ok (IInt <$> l) -> text_size (series label l) <= zlen (lit label) + 21 * zlen l + 1.
Proof.
  intros Hl. unfold series. rewrite text_size_cons, text_size_app. cbn [text].
  assert (Hn : text_size (flat_map (fun v => [IChar " "%char; IInt v]) l) <= 21 * zlen l).
  { induction l as [|v l IH]; [done|]. cbn [fmap list_fmap] in Hl. apply Forall_cons in Hl as [Hv%dec_fits Hl].
    cbn [flat_map]. rewrite text_size_app, zlen_cons, !text_size_cons. specialize (IH Hl).
    cbn [text]. change (zlen [" "%char]) with 1. change (text_size []) with 0. lia. }
  change (text_size [IChar (chr 10)]) with 1. lia.
Qed.

Section Report.
Context {Q : Type} `{CLL : CircularLogLaws Q}.

Lemma series_items label l : Forall item_ok (series label l) -> Forall item_ok (IInt <$> l).
Proof.
  unfold series. intros [_ [Hf _]%Forall_app]%Forall_cons. induction l as [|v l IH]; [constructor|].
  cbn in Hf. apply Forall_cons in Hf as [_ Hf]. apply Forall_cons in Hf as [Hv Hf].
  constructor; [done|by apply IH].
Qed.

Lemma row_item label v : Forall item_ok (row label v) -> item_ok (IInt v).
Proof. by intros [_ [? _]%Forall_cons]%Forall_cons. Qed.

Lemma report_size ops q (s : SudokuStat Q) :
  stat_ok ops s -> Forall item_ok (report_items q s) -> text_size (report_items q s) <= 3029.
Proof.
  intros [(n & Hr & Hl & _) _ _ _ _ _ _ _] Hok.
  pose proof (window_size _ _ _ _ Hr) as Nr. pose proof (window_size _ _ _ _ Hl) as Nl.
  pose proof (w_size _ _ _ _ Hr). rewrite cb_size_law in Nr, Nl.
  unfold report_items in *. unfold kSeconds in *.
  repeat match goal with H : Forall item_ok (_ ++ _) |- _ => apply Forall_app in H as [? H] end.
  rewrite !text_size_app.
  assert (Hbad : text_size (if 0 <? badLatency_ s then row "bad_latency" (badLatency_ s) else []) <= 32).
  { destruct (0 <? badLatency_ s); [|vm_compute; congruence].
    etrans; [apply row_size; by eapply row_item|]. vm_compute. congruence. }
  repeat match goal with
    | H : Forall item_ok (row ?l ?v) |- _ => apply row_item, (row_size l) in H
    | H : Forall item_ok (series ?l ?v) |- _ =>
        apply series_items, (series_size l) in H
    end.
  repeat match goal with
    | H : context [zlen (lit ?l)] |- _ =>
        let n := eval vm_compute in (zlen (lit l)) in change (zlen (lit l)) with n in H
    end.
  lia.
Qed.

Lemma report_complete ops q (s : SudokuStat Q) :
  stat_ok ops s -> Forall item_ok (report_items q s) ->
  report q s = Some (Ok (concat (text <$> report_items q s))).
Proof.
  intros Hs Hok. pose proof (report_size ops q s Hs Hok) as Hsize. unfold report.
  destruct (put_all_fits kSmallBuffer (report_items q s) (newFixedBuffer kSmallBuffer)) as (b & -> & ->);
    [by unfold fixed_inv; split_and!|done| |done].
  change (zlen (ftoString (newFixedBuffer kSmallBuffer))) with 0. fold (text_size (report_items q s)).
  unfold kSmallBuffer. lia.
Qed.

(** Whatever calls are made, in any order, clocks that jump forwards or back included
    (as long as the clock is past its epoch), no assertion of the statistics fails and
    nothing is read outside the buffers.  Since the last reset the totals are the numbers of
    the calls, both buffers hold one value for each of the same consecutive seconds up to
    [lastSecond_], and the value of a second is the number (the latency sum) of all
    responses sent in it.  [droppedRequests_] alone is not reset. *)
Theorem stat_correct ops :
  Forall positive_time ops -> exists s : SudokuStat Q, stat_run ops newStat = Ok s /\ stat_ok ops s.
Proof. intros Hops. apply (stat_run_ok [] ops newStat Hops newStat_ok). Qed.

(** The report always fits the 4000-byte buffer of the stream it is written to: every
    label and number of it is in the text, whatever the 64-bit counters hold and with all 60
    seconds in the window. *)
Theorem report_not_truncated ops q :
  Forall positive_time ops ->
  exists s : SudokuStat Q, stat_run ops newStat = Ok s /\
    (Forall item_ok (report_items q s) ->
     report q s = Some (Ok (concat (text <$> report_items q s)))).
Proof.
  intros Hops. destruct (stat_run_ok [] ops newStat Hops newStat_ok) as (s & Hs & Hok).
  exists s. split; [done|]. by apply (report_complete ops).
Qed.
End Report.

(** A jump ahead, a jump back into the window, one behind it, a reset. *)
Definition sample_ops : list stat_op :=
  let sec t := t * 1000000 in
  [OpRequest; OpResponse (sec 100 + 5) (sec 100) true; OpResponse (sec 130 + 7) (sec 130) false;
   OpResponse (sec 120 + 9) (sec 120) true; OpResponse (sec 50 + 9) (sec 50) true;
   OpResponse (sec 130) (sec 131) true; OpDropped; OpReset; OpResponse (sec 200 + 3) (sec 200) true].

Lemma stat_correct_witness :
  exists s : SudokuStat list_log, stat_run sample_ops newStat = Ok s /\ stat_ok sample_ops s.
Proof. apply stat_correct. repeat constructor; vm_compute; reflexivity. Defined.

Lemma report_not_truncated_witness :
  exists s : SudokuStat list_log, stat_run (take 7 sample_ops) newStat = Ok s /\
    report 3 s = Some (Ok (concat (text <$> report_items 3 s))).
Proof.
  destruct (report_not_truncated (Q := list_log) (take 7 sample_ops) 3) as (s & Hs & Hr).
  - repeat constructor; vm_compute; reflexivity.
  - exists s. split; [exact Hs|]. apply Hr. vm_compute in Hs. injection Hs as <-.
    repeat constructor; vm_compute; done.
Defined.
