(* ===== verification/Multiplexer.v ===== *)
(** * The connection multiplexer (examples/multiplexer)

    MultiplexServer (multiplexer_simple.cc) accepts clients and carries their bytes over one
    backend connection to DemuxServer (demux.cc), which opens one connection per client and
    undoes the multiplexing.  Packets have a header of three bytes: the length and the
    client's number, low byte first; number 0 is for commands.

    Connections are numbers.  A handler takes the state of its server and returns what it
    does to connections as a list of effects.  [TcpConnection::send(Buffer* )] takes all the
    readable bytes of its argument.  Loops over a buffer have fuel; each round takes bytes
    away. *)
From S2P Require Import Prelude Buffer BufferTheory Decimal.

Abbreviation conn := Z (only parsing).

Definition kMaxConns : Z := 10.
Definition kMaxPacketLen : Z := 255.
Definition kHeaderLen : Z := 3.

(** ** Packets *)

Definition packet_header (len id : Z) : list char :=
  [chr (uint 8 len); chr (uint 8 (Z.land id 255)); chr (uint 8 (Z.shiftr (Z.land id 65280) 8))].

(** sendBackendPacket and sendServerPacket: [up] says whether the connection exists. *)
Definition send_packet (up : bool) (id : Z) (b : Buffer) : res (list char * Buffer) :=
  let len := readableBytes b in
  _ ← check (len <=? kMaxPacketLen);
  b ← prepend (packet_header len id) b;
  if up then
    d ← read_range (buffer_ b) (peek b) (peek b + readableBytes b);
    Ok (d, retrieveAll b)
  else Ok ([], b).

(** sendBackendBuffer, and the loop of onSocksMessage. *)
Fixpoint send_buffer (fuel : nat) (up : bool) (id : Z) (b : Buffer) : res (list char * Buffer) :=
  match fuel with
  | O => Fault OutOfFuel
  | S fuel =>
      if kMaxPacketLen <? readableBytes b then
        packet ← newBuffer kInitialSize;
        d ← read_range (buffer_ b) (peek b) (peek b + kMaxPacketLen);
        packet ← append d packet;
        b ← retrieve kMaxPacketLen b;
        '(sent, _) ← send_packet up id packet;
        '(rest, b) ← send_buffer fuel up id b;
        Ok (sent ++ rest, b)
      else if 0 <? readableBytes b then send_packet up id b
      else Ok ([], b)
  end.

(** The loops of sendToClient and onServerMessage over the packets in a buffer. *)
Fixpoint packet_loop {S E} (fuel : nat) (handle : Z -> list char -> S -> res (S * list E))
    (b : Buffer) (s : S) : res (S * list E * Buffer) :=
  match fuel with
  | O => Fault OutOfFuel
  | Datatypes.S fuel =>
      if kHeaderLen <? readableBytes b then
        hdr ← read_range (buffer_ b) (peek b) (peek b + kHeaderLen);
        let len := ord (nth 0 hdr (chr 0)) in
        if readableBytes b <? len + kHeaderLen then Ok (s, [], b)
        else
          let id := Z.lor (ord (nth 1 hdr (chr 0))) (Z.shiftl (ord (nth 2 hdr (chr 0))) 8) in
          d ← read_range (buffer_ b) (peek b + kHeaderLen) (peek b + kHeaderLen + len);
          '(s, es) ← handle id d s;
          b ← retrieve (len + kHeaderLen) b;
          '(s, es', b) ← packet_loop fuel handle b s;
          Ok (s, es ++ es', b)
      else Ok (s, [], b)
  end.

(** [atoi]: blanks, a sign, digits; a string without digits is 0. *)
Fixpoint leading_digits (s : list char) : list char :=
  match s with c :: s => if isdigit c then c :: leading_digits s else [] | [] => [] end.
Fixpoint atoi_blanks (s : list char) : list char :=
  match s with c :: r => if isspace c then atoi_blanks r else s | [] => [] end.
Definition atoi (s : list char) : Z :=
  match atoi_blanks s with
  | "-"%char :: r => - value (leading_digits r)
  | "+"%char :: r => value (leading_digits r)
  | r => value (leading_digits r)
  end.

(** [snprintf(buf, 256, ...)] *)
Definition snprintf256 (s : list char) : list char := take 255 s.

(** ** MultiplexServer *)

Module Mux.

Record MultiplexServer := mkMux {
  backendConn_ : bool;
  clientConns_ : gmap Z conn;
  availIds_ : list Z;
  context : gmap conn Z }.

Inductive effect :=
| ToBackend (d : list char)
| ToClient (c : conn) (d : list char)
| ShutdownClient (c : conn).

Definition to_backend (d : list char) : list effect := match d with [] => [] | _ => [ToBackend d] end.

Definition conn_message (id : Z) (peer : list char) (what : string) : list char :=
  snprintf256 (lit "CONN " ++ dec id ++ lit " FROM " ++ peer ++ lit what ++ kCRLF).

Definition sendBackendString (m : MultiplexServer) (id : Z) (msg : list char) : res (list effect) :=
  _ ← check (zlen msg <=? kMaxPacketLen);
  b ← newBuffer kInitialSize;
  b ← append msg b;
  '(sent, _) ← send_packet (backendConn_ m) id b;
  Ok (to_backend sent).

(** onClientConnection for a connection that came up, [peer] being its address. *)
Definition onClientUp (c : conn) (peer : list char) (m : MultiplexServer) : res (MultiplexServer * list effect) :=
  let '(id, m) :=
    match availIds_ m with
    | [] => (-1, m)
    | id :: rest => (id, mkMux (backendConn_ m) (<[id := c]> (clientConns_ m)) rest (context m))
    end in
  if id <=? 0 then Ok (m, [ShutdownClient c])
  else
    let m := mkMux (backendConn_ m) (clientConns_ m) (availIds_ m) (<[c := id]> (context m)) in
    es ← sendBackendString m 0 (conn_message id peer " IS UP");
    Ok (m, es).

(** ... and for one that went down. *)
Definition onClientDown (c : conn) (peer : list char) (m : MultiplexServer) : res (MultiplexServer * list effect) :=
  match context m !! c with
  | None => Ok (m, [])
  | Some id =>
      _ ← check ((0 <? id) && (id <=? kMaxConns));
      es ← sendBackendString m 0 (conn_message id peer " IS DOWN");
      if backendConn_ m then
        Ok (mkMux true (delete id (clientConns_ m)) (availIds_ m ++ [id]) (context m), es)
      else
        _ ← check (bool_decide (availIds_ m = []));
        _ ← check (bool_decide (clientConns_ m = ∅));
        Ok (m, es)
  end.

Definition onClientMessage (fuel : nat) (c : conn) (b : Buffer) (m : MultiplexServer) : res (list effect * Buffer) :=
  match context m !! c with
  | Some id => '(sent, b) ← send_buffer fuel (backendConn_ m) id b; Ok (to_backend sent, b)
  | None => Ok ([], retrieveAll b)
  end.

Definition onBackendUp (m : MultiplexServer) : res MultiplexServer :=
  _ ← check (bool_decide (availIds_ m = []));
  Ok (mkMux true (clientConns_ m) (seqZ 1 kMaxConns) (context m)).

(** The clients are shut down in the order of their numbers, which nothing depends on. *)
Definition onBackendDown (m : MultiplexServer) : MultiplexServer * list effect :=
  (mkMux false ∅ [] (context m), (fun p => ShutdownClient p.2) <$> map_to_list (clientConns_ m)).

Definition kDisconnectCmd : list char := lit "DISCONNECT ".

Definition mux_doCommand (cmd : list char) (m : MultiplexServer) : list effect :=
  if (zlen kDisconnectCmd <? zlen cmd) && is_prefix kDisconnectCmd cmd then
    match clientConns_ m !! atoi (drop (length kDisconnectCmd) cmd) with
    | Some c => [ShutdownClient c]
    | None => []
    end
  else [].

Definition client_packet (id : Z) (d : list char) (m : MultiplexServer) : res (MultiplexServer * list effect) :=
  if negb (id =? 0) then
    match clientConns_ m !! id with
    | Some c => Ok (m, [ToClient c d])
    | None => Ok (m, [])
    end
  else Ok (m, mux_doCommand d m).

Definition sendToClient (fuel : nat) (b : Buffer) (m : MultiplexServer) : res (list effect * Buffer) :=
  '(_, es, b) ← packet_loop fuel client_packet b m; Ok (es, b).
End Mux.

(** ** DemuxServer *)

Module Demux.

Record Entry := mkEntry { connection : option conn; pending : Buffer }.

Record DemuxServer := mkDemux {
  serverConn_ : option conn;
  socksConns_ : gmap Z Entry }.

Inductive effect :=
| ToServer (d : list char)
| ShutdownServer (c : conn)
| ConnectSocks (id : Z)
| ToSocks (id : Z) (d : list char)
| ShutdownSocks (id : Z).

Definition onServerUp (c : conn) (s : DemuxServer) : DemuxServer * list effect :=
  match serverConn_ s with
  | Some _ => (s, [ShutdownServer c])
  | None => (mkDemux (Some c) (socksConns_ s), [])
  end.

Definition onServerDown (c : conn) (s : DemuxServer) : DemuxServer :=
  if bool_decide (serverConn_ s = Some c) then mkDemux None ∅ else s.

Definition demux_doCommand (cmd : list char) (s : DemuxServer) : res (DemuxServer * list effect) :=
  rest ← read_range cmd 5 (zlen cmd);
  let connId := atoi rest in
  let isUp := bool_decide (is_Some (std_search (lit " IS UP") cmd)) in
  if isUp then
    _ ← check (bool_decide (socksConns_ s !! connId = None));
    pending ← newBuffer kInitialSize;
    Ok (mkDemux (serverConn_ s) (<[connId := mkEntry None pending]> (socksConns_ s)), [ConnectSocks connId])
  else
    match socksConns_ s !! connId with
    | None => Fault AssertFailure
    | Some e =>
        match connection e with
        | Some _ => Ok (s, [ShutdownSocks connId])
        | None => Ok (mkDemux (serverConn_ s) (delete connId (socksConns_ s)), [])
        end
    end.

Definition server_packet (connId : Z) (d : list char) (s : DemuxServer) : res (DemuxServer * list effect) :=
  if negb (connId =? 0) then
    match socksConns_ s !! connId with
    | None => Fault AssertFailure
    | Some e =>
        match connection e with
        | Some _ =>
            _ ← check (readableBytes (pending e) =? 0);
            Ok (s, [ToSocks connId d])
        | None =>
            p ← append d (pending e);
            Ok (mkDemux (serverConn_ s) (<[connId := mkEntry None p]> (socksConns_ s)), [])
        end
    end
  else demux_doCommand d s.

Definition onServerMessage (fuel : nat) (b : Buffer) (s : DemuxServer) : res (DemuxServer * list effect * Buffer) :=
  packet_loop fuel server_packet b s.

Definition to_server (d : list char) : list effect := match d with [] => [] | _ => [ToServer d] end.

(** onSocksConnection *)
Definition onSocksUp (connId : Z) (c : conn) (s : DemuxServer) : res (DemuxServer * list effect) :=
  match socksConns_ s !! connId with
  | None => Fault AssertFailure
  | Some e =>
      if 0 <? readableBytes (pending e) then
        d ← read_range (buffer_ (pending e)) (peek (pending e)) (peek (pending e) + readableBytes (pending e));
        Ok (mkDemux (serverConn_ s) (<[connId := mkEntry (Some c) (retrieveAll (pending e))]> (socksConns_ s)),
            [ToSocks connId d])
      else Ok (mkDemux (serverConn_ s) (<[connId := mkEntry (Some c) (pending e)]> (socksConns_ s)), [])
  end.

Definition onSocksDown (connId : Z) (s : DemuxServer) : res (DemuxServer * list effect) :=
  match socksConns_ s !! connId with
  | None => Fault AssertFailure
  | Some _ =>
      match serverConn_ s with
      | Some _ =>
          b ← newBuffer kInitialSize;
          b ← append (snprintf256 (lit "DISCONNECT " ++ dec connId ++ kCRLF)) b;
          '(sent, _) ← send_packet true 0 b;
          Ok (s, to_server sent)
      | None => Ok (mkDemux None (delete connId (socksConns_ s)), [])
      end
  end.

Definition onSocksMessage (fuel : nat) (connId : Z) (b : Buffer) (s : DemuxServer) : res (list effect * Buffer) :=
  match socksConns_ s !! connId with
  | None => Fault AssertFailure
  | Some _ =>
      '(sent, b) ← send_buffer fuel (bool_decide (is_Some (serverConn_ s))) connId b;
      Ok (to_server sent, b)
  end.
End Demux.
