(* ===== verification/MultiplexerTheory.v ===== *)
(** * Bytes through the multiplexer

    Packets survive the trip through any cut of the backend connection, and the two servers
    together carry each client's bytes, in order and to no one else, to the connection that
    DemuxServer opened for it. *)
From S2P Require Import Prelude Buffer BufferTheory Decimal Multiplexer.

(** ** Packets on the wire *)

Definition packet_wire (p : Z * list char) : list char := packet_header (zlen p.2) p.1 ++ p.2.
Definition packet_ok (p : Z * list char) : Prop := 0 <= p.1 < 65536 /\ 1 <= zlen p.2 <= 255.

(** A buffer without a whole packet. *)
Definition no_packet (t : list char) : Prop :=
  zlen t <= kHeaderLen \/ zlen t < ord (nth 0 t (chr 0)) + kHeaderLen.

Lemma no_packet_prefix x y : no_packet (x ++ y) -> no_packet x.
Proof.
  unfold no_packet, kHeaderLen. rewrite zlen_app. pose proof (zlen_nonneg y).
  destruct x as [|c x]; [left; rewrite zlen_nil; lia|]. cbn. lia.
Qed.

Lemma header_fields len id :
  0 <= len < 256 -> 0 <= id < 65536 ->
  ord (nth 0 (packet_header len id) (chr 0)) = len /\
  Z.lor (ord (nth 1 (packet_header len id) (chr 0)))
    (Z.shiftl (ord (nth 2 (packet_header len id) (chr 0))) 8) = id.
Proof.
  intros Hl Hid. cbn [packet_header nth].
  assert (Hlow : Z.land id 255 = id mod 256) by (change 255 with (Z.ones 8); by rewrite Z.land_ones by lia).
  assert (Hhigh : Z.shiftr (Z.land id 65280) 8 = id / 256).
  { change 65280 with (Z.shiftl 255 8). rewrite Z.shiftr_land, Z.shiftr_shiftl_l by lia.
    change (Z.shiftl 255 (8 - 8)) with (Z.ones 8). rewrite Z.land_ones, Z.shiftr_div_pow2 by lia.
    apply Z.mod_small. Z.to_euclidean_division_equations. lia. }
  assert (0 <= id mod 256 < 256 /\ 0 <= id / 256 < 256) as [? ?]
    by (Z.to_euclidean_division_equations; lia).
  rewrite Hlow, Hhigh, !(uint_small 8) by (change (2 ^ 8) with 256; lia).
  rewrite !ord_chr by lia. split; [done|].
  rewrite Z.shiftl_mul_pow2 by lia. change (2 ^ 8) with 256.
  replace (Z.lor (id mod 256) (id / 256 * 256)) with (id mod 256 + id / 256 * 256).
  - Z.to_euclidean_division_equations. lia.
  - symmetry. rewrite <- Z.lxor_lor, <- Z.add_nocarry_lxor; try done.
    all: apply Z.bits_inj'; intros n Hn; rewrite Z.land_spec, Z.bits_0;
      change 256 with (2 ^ 8); destruct (decide (n < 8)) as [Hlt|Hge];
      [rewrite (Z.mul_pow2_bits_low _ 8) by lia; by rewrite andb_false_r
      |rewrite Z.mod_pow2_bits_high by lia; done].
Qed.

Lemma zlen_header len id : zlen (packet_header len id) = 3.
Proof. done. Qed.

Lemma no_packet_frame p x y : packet_ok p -> x ++ y = packet_wire p -> y <> [] -> no_packet x.
Proof.
  intros [Hid Hd] E Hy.
  assert (Hlen : zlen x + zlen y = 3 + zlen p.2)
    by (rewrite <- zlen_app, E; unfold packet_wire; by rewrite zlen_app).
  assert (0 < zlen y) by (destruct y; [done|rewrite zlen_cons; pose proof (zlen_nonneg y); lia]).
  unfold no_packet, kHeaderLen. destruct x as [|c x]; [left; rewrite zlen_nil; lia|right].
  rewrite ?zlen_cons in *. unfold packet_wire, packet_header in E. cbn in E. injection E as -> _. cbn [nth].
  rewrite (uint_small 8) by (change (2 ^ 8) with 256; lia). rewrite ord_chr by lia. lia.
Qed.

(** ** Sending *)

Lemma send_packet_ok id b d :
  inv b -> content b = d -> zlen d <= 255 -> 3 <= readerIndex_ b ->
  exists b', send_packet true id b = Ok (packet_wire (id, d), b') /\ inv b' /\ content b' = [] /\
    readerIndex_ b' = kCheapPrepend.
Proof.
  intros Hi Hc Hd Hr. unfold send_packet. rewrite readableBytes_content, Hc by done.
  unfold kMaxPacketLen. rewrite check_true by lia. cbn [mbind res_bind].
  destruct (prepend_spec (packet_header (zlen d) id) b Hi) as (b1 & -> & Hi1 & Hc1 & _);
    [rewrite zlen_header; lia|]. cbn [mbind res_bind].
  rewrite readableBytes_eq by done. unfold peek.
  rewrite read_range_ok by (buffer_unfold; lia). cbn [mbind res_bind].
  replace (readerIndex_ b1 + (writerIndex_ b1 - readerIndex_ b1)) with (writerIndex_ b1) by lia.
  fold (content b1). rewrite Hc1, Hc. destruct (retrieveAll_spec b1 Hi1). eexists. split_and!; done.
Qed.

(** A packet in a buffer of its own. *)
Lemma send_fresh id d :
  zlen d <= 255 ->
  exists b0 b1 b2, newBuffer kInitialSize = Ok b0 /\ append d b0 = Ok b1 /\
    send_packet true id b1 = Ok (packet_wire (id, d), b2).
Proof.
  intros Hd. destruct (newBuffer_spec kInitialSize) as (b0 & -> & Hi0 & Hc0 & Hr0 & Hw0 & _);
    [unfold kInitialSize; lia|unfold kCheapPrepend, kInitialSize, max_size; lia|].
  destruct (append_spec d b0 Hi0) as (b1 & E1 & Hi1 & Hc1 & Hm1 & _).
  { left. unfold kCheapPrepend, max_size in *. lia. }
  destruct (send_packet_ok id b1 d Hi1) as (b2 & E2 & _); [by rewrite Hc1, Hc0|done| |by exists b0, b1, b2].
  unfold reader_moved, kCheapPrepend in *. lia.
Qed.

(** The data cut into packets. *)
Definition chunks_of (d : list char) (ds : list (list char)) : Prop :=
  concat ds = d /\ Forall (fun x => 1 <= zlen x <= 255) ds.

Lemma send_buffer_ok fuel id b d :
  inv b -> content b = d -> kCheapPrepend <= readerIndex_ b -> (length d < fuel)%nat ->
  exists ds b', send_buffer fuel true id b = Ok (concat (packet_wire <$> ((fun x => (id, x)) <$> ds)), b') /\
    chunks_of d ds /\ inv b' /\ content b' = [] /\ kCheapPrepend <= readerIndex_ b'.
Proof.
  revert b d. induction fuel as [|fuel IH]; intros b d Hi Hc Hr Hf; [lia|]. cbn [send_buffer].
  unfold kMaxPacketLen. rewrite readableBytes_content, Hc by done.
  destruct (255 <? zlen d) eqn:E1; [|destruct (0 <? zlen d) eqn:E2].
  - assert (Hl : zlen (take 255 d) = 255) by (change 255%nat with (Z.to_nat 255); apply zlen_take; lia).
    destruct (send_fresh id (take 255 d)) as (p0 & p1 & p2 & -> & Hp1 & Hp2); [lia|]. cbn [mbind res_bind].
    pose proof (zlen_content b Hi) as Hz. rewrite Hc in Hz.
    unfold peek. rewrite read_range_ok by (buffer_unfold; lia). cbn [mbind res_bind].
    assert (Hs : slice (readerIndex_ b) (readerIndex_ b + 255) (buffer_ b) = take 255 d).
    { rewrite <- Hc. unfold content. change 255%nat with (Z.to_nat 255).
      rewrite take_slice by (buffer_unfold; lia). done. }
    rewrite Hs, Hp1. cbn [mbind res_bind].
    destruct (retrieve_spec 255 b Hi) as (b1 & -> & Hi1 & Hc1 & Hor); [rewrite Hc; lia|].
    cbn [mbind res_bind]. rewrite Hp2.
    cbn [mbind res_bind]. rewrite Hc in Hc1.
    destruct (IH b1 (drop 255 d) Hi1 Hc1) as (ds & b' & -> & [Hcc Hfa] & ? & ? & ?).
    { destruct Hor as [[_ ->]|(_ & -> & _)]; [done|lia]. }
    { rewrite length_drop. unfold zlen in *. lia. }
    cbn [mbind res_bind]. exists (take 255 d :: ds), b'. split_and!; try done.
    split; [cbn; by rewrite Hcc, take_drop|]. constructor; [lia|done].
  - destruct (send_packet_ok id b d Hi Hc) as (b' & -> & ? & ? & Hrb); [lia|unfold kCheapPrepend in *; lia|].
    exists [d], b'. cbn. rewrite app_nil_r. split_and!; try done; [|lia].
    split; [cbn; by rewrite app_nil_r|]. constructor; [lia|constructor].
  - exists [], b. split_and!; try done; [|rewrite Hc; apply zlen_zero_inv; pose proof (zlen_nonneg d); lia].
    split; [|constructor]. cbn. symmetry. apply zlen_zero_inv. pose proof (zlen_nonneg d). lia.
Qed.

(** ** Receiving *)

Section Receive.
Context {S E : Type} (handle : Z -> list char -> S -> res (S * list E)).

Fixpoint run_packets (ps : list (Z * list char)) (s : S) : res (S * list E) :=
  match ps with
  | [] => Ok (s, [])
  | p :: ps =>
      '(s, es) ← handle p.1 p.2 s;
      '(s, es') ← run_packets ps s;
      Ok (s, es ++ es')
  end.

Lemma packet_loop_ok fuel ps t b s :
  inv b -> content b = concat (packet_wire <$> ps) ++ t -> Forall packet_ok ps -> no_packet t ->
  (length ps < fuel)%nat ->
  match run_packets ps s with
  | Ok (s', es) => exists b', inv b' /\ content b' = t /\ packet_loop fuel handle b s = Ok (s', es, b')
  | Fault f => packet_loop fuel handle b s = Fault f
  end.
Proof.
  revert ps b s. induction fuel as [|fuel IH]; intros ps b s Hi Hc Hps Ht Hf; [lia|]. cbn [packet_loop].
  rewrite readableBytes_content by done. unfold kHeaderLen. pose proof (zlen_content b Hi) as Hz.
  destruct ps as [|[id d] ps].
  - cbn in Hc. cbn [run_packets]. exists b. split_and!; [done..|]. rewrite Hc in *. unfold no_packet, kHeaderLen in Ht.
    destruct (3 <? zlen t) eqn:E3; [|done].
    unfold peek. rewrite read_range_ok by (buffer_unfold; lia). cbn [mbind res_bind].
    assert (Hh : slice (readerIndex_ b) (readerIndex_ b + 3) (buffer_ b) = take 3 t).
    { rewrite <- Hc. unfold content. change 3%nat with (Z.to_nat 3). by rewrite take_slice by (buffer_unfold; lia). }
    rewrite Hh. assert (Hn : nth 0 (take 3 t) (chr 0) = nth 0 t (chr 0)) by (by destruct t).
    rewrite Hn. by replace (zlen t <? _) with true by lia.
  - apply Forall_cons in Hps as [[Hid Hd] Hps]. cbn [fst snd] in *. cbn [fmap list_fmap concat] in Hc.
    unfold packet_wire at 1 in Hc. cbn [fst snd] in Hc. rewrite <- !app_assoc in Hc.
    set (rest := concat (packet_wire <$> ps) ++ t) in *.
    assert (Hlen : zlen (content b) = 3 + zlen d + zlen rest) by (rewrite Hc, !zlen_app, zlen_header; lia).
    pose proof (zlen_nonneg rest). replace (3 <? zlen (content b)) with true by lia.
    unfold peek. rewrite read_range_ok by (buffer_unfold; lia). cbn [mbind res_bind].
    assert (Hh : slice (readerIndex_ b) (readerIndex_ b + 3) (buffer_ b) = packet_header (zlen d) id).
    { transitivity (take 3 (content b)); [|by rewrite Hc].
      unfold content. change 3%nat with (Z.to_nat 3). by rewrite take_slice by (buffer_unfold; lia). }
    rewrite Hh. destruct (header_fields (zlen d) id) as [-> ->]; [lia|lia|].
    replace (zlen (content b) <? zlen d + 3) with false by lia.
    rewrite read_range_ok by (buffer_unfold; lia). cbn [mbind res_bind].
    assert (Hdd : slice (readerIndex_ b + 3) (readerIndex_ b + 3 + zlen d) (buffer_ b) = d).
    { transitivity (slice 3 (3 + zlen d) (content b)).
      - unfold content. rewrite (slice_sub (readerIndex_ b) (writerIndex_ b)) by (buffer_unfold; lia).
        f_equal; lia.
      - rewrite Hc. apply slice_mid_at; rewrite zlen_header; lia. }
    rewrite Hdd. cbn [run_packets fst snd].
    destruct (handle id d s) as [[s1 es1]|f]; [|done]. cbn [mbind res_bind].
    destruct (retrieve_spec (zlen d + 3) b Hi) as (b1 & -> & Hi1 & Hc1 & _); [lia|]. cbn [mbind res_bind].
    assert (Hc1' : content b1 = rest).
    { rewrite Hc1, Hc. replace (Z.to_nat (zlen d + 3)) with (length (packet_header (zlen d) id ++ d))
        by (rewrite length_app; cbn; unfold zlen; lia). by rewrite app_assoc, drop_app_length. }
    specialize (IH ps b1 s1 Hi1 Hc1' Hps Ht ltac:(cbn in Hf; lia)).
    destruct (run_packets ps s1) as [[s2 es2]|f]; cbn [mbind res_bind]; [|by rewrite IH].
    destruct IH as (b' & Hi' & Hc' & ->). by exists b'.
Qed.
End Receive.

(** ** Commands *)

Lemma leading_digits_app s c r :
  Forall (fun c => isdigit c = true) s -> isdigit c = false -> leading_digits (s ++ c :: r) = s.
Proof.
  intros Hs Hc. induction s as [|x s IH]; cbn; [by rewrite Hc|].
  apply Forall_cons in Hs as [-> Hs]. by rewrite IH.
Qed.

Lemma atoi_digit c r : isdigit c = true -> atoi (c :: r) = value (leading_digits (c :: r)).
Proof. by destruct c as [[] [] [] [] [] [] [] []]. Qed.

Lemma atoi_dec z c r : 0 <= z < 2 ^ 64 -> isdigit c = false -> atoi (dec z ++ c :: r) = z.
Proof.
  intros Hz Hc. pose proof (digits_digit 20 z ltac:(lia)) as Hd.
  pose proof (digits_nonempty 20 z ltac:(lia)) as Hn. rewrite <- dec_nonneg in Hd, Hn by lia.
  destruct (dec z) as [|x s] eqn:E; [done|]. cbn [app].
  rewrite atoi_digit by (by apply Forall_cons in Hd as [? _]).
  change (x :: s ++ c :: r) with ((x :: s) ++ c :: r). rewrite leading_digits_app by done.
  rewrite <- E. by apply dec_value.
Qed.

(** A pattern is not found in a text without its first character. *)
Lemma std_search_skip c pat x y :
  c ∉ x -> std_search (c :: pat) y = None -> std_search (c :: pat) (x ++ y) = None.
Proof.
  intros Hx Hy. induction x as [|d x IH]; cbn; [done|].
  apply not_elem_of_cons in Hx as [Hd Hx]. rewrite bool_decide_false by done. cbn. by rewrite IH.
Qed.

Lemma std_search_step pat c l :
  is_prefix pat (c :: l) = false -> std_search pat l = None -> std_search pat (c :: l) = None.
Proof. intros E1 E2. cbn [std_search]. by rewrite E1, E2. Qed.

Lemma is_prefix_second p1 p2 pat c1 c2 l : c2 <> p2 -> is_prefix (p1 :: p2 :: pat) (c1 :: c2 :: l) = false.
Proof. intros Hn. cbn. rewrite (bool_decide_false (p2 = c2)) by congruence. apply andb_false_r. Qed.

(** An address as toIpPort writes it: it starts with a digit or a bracket. *)
Definition peer_ok (peer : list char) : Prop :=
  " "%char ∉ peer /\ head peer <> Some "I"%char /\ zlen peer <= 64.

Section Commands.
Context (id : Z) (peer : list char).
Hypothesis (Hid : 1 <= id <= kMaxConns) (Hpeer : peer_ok peer).

Lemma conn_message_eq what :
  (String.length what <= 10)%nat ->
  Mux.conn_message id peer what = lit "CONN " ++ dec id ++ lit " FROM " ++ peer ++ lit what ++ kCRLF /\
  5 <= zlen (Mux.conn_message id peer what) <= 255.
Proof.
  intros Hw. destruct Hpeer as (_ & _ & Hp). unfold kMaxConns in Hid.
  pose proof (zlen_dec id 2 ltac:(lia) ltac:(lia)) as Hd. unfold Mux.conn_message, snprintf256.
  assert (Hl : length (lit what) = String.length what) by (induction what; cbn in *; [done|f_equal; apply IHwhat; lia]).
  assert (Hz : zlen (lit "CONN " ++ dec id ++ lit " FROM " ++ peer ++ lit what ++ kCRLF) <= 255)
    by (rewrite !zlen_app; change (zlen (lit "CONN ")) with 5; change (zlen (lit " FROM ")) with 6;
        change (zlen kCRLF) with 2; unfold zlen in *; rewrite Hl; lia).
  rewrite take_ge by (unfold zlen in Hz; lia). split; [done|]. split; [|done].
  rewrite zlen_app. change (zlen (lit "CONN ")) with 5.
  pose proof (zlen_nonneg (dec id ++ lit " FROM " ++ peer ++ lit what ++ kCRLF)). lia.
Qed.

Lemma message_number what :
  (String.length what <= 10)%nat ->
  (rest ← read_range (Mux.conn_message id peer what) 5 (zlen (Mux.conn_message id peer what)); Ok (atoi rest)) = Ok id.
Proof.
  intros Hw. destruct (conn_message_eq what Hw) as [E Hz]. unfold kMaxConns in Hid.
  rewrite read_range_ok by lia. cbn [mbind res_bind]. f_equal.
  etransitivity; [|apply (atoi_dec id " "%char (lit "FROM " ++ peer ++ lit what ++ kCRLF)); [lia|done]].
  f_equal. rewrite E, slice_app_r by (rewrite <- ?E; change (zlen (lit "CONN ")) with 5; lia).
  rewrite zlen_app. change (zlen (lit "CONN ")) with 5. rewrite Z.add_simpl_l. apply slice_full.
Qed.

Lemma message_up : is_Some (std_search (lit " IS UP") (Mux.conn_message id peer " IS UP")).
Proof.
  destruct (conn_message_eq " IS UP") as [-> _]; [cbn; lia|].
  destruct (std_search _ _) eqn:E; [done|].
  apply (std_search_None _ _ (length (lit "CONN " ++ dec id ++ lit " FROM " ++ peer))) in E.
  rewrite !app_assoc, <- (app_assoc _ (lit " IS UP")) in E. rewrite drop_app_length in E. done.
Qed.

Lemma message_down : std_search (lit " IS UP") (Mux.conn_message id peer " IS DOWN") = None.
Proof.
  destruct (conn_message_eq " IS DOWN") as [-> _]; [cbn; lia|]. destruct Hpeer as (Hs & Hh & _).
  assert (Htail : std_search (lit " IS UP") (peer ++ lit " IS DOWN" ++ kCRLF) = None)
    by (apply std_search_skip; done).
  assert (Hmid : std_search (lit " IS UP") (lit " FROM " ++ peer ++ lit " IS DOWN" ++ kCRLF) = None).
  { do 5 (apply std_search_step; [done|]). apply std_search_step; [|done].
    destruct peer as [|c p]; [done|]. cbn in Hh. apply is_prefix_second. congruence. }
  assert (Hnum : " "%char ∉ dec id).
  { intros Hin. rewrite dec_nonneg in Hin by lia. pose proof (digits_digit 20 id ltac:(lia)) as Hd.
    rewrite Forall_forall in Hd. by specialize (Hd _ Hin). }
  apply (std_search_skip " "%char _ (dec id)) in Hmid; [|done].
  do 4 (apply std_search_step; [done|]). apply std_search_step; [|done].
  destruct (dec id) as [|c p] eqn:Ed; [done|]. apply is_prefix_second. intros ->. pose proof (digits_digit 20 id ltac:(lia)) as Hd. rewrite <- dec_nonneg, Ed in Hd by lia.
  by apply Forall_cons in Hd as [? _].
Qed.
End Commands.
