(* ===== verification/MultiplexerSystem.v ===== *)
(** * The two multiplexer servers together

    MultiplexServer and DemuxServer joined by the backend connection, whose bytes are
    delivered in pieces of any size: every client's bytes reach the connection opened for it,
    and back. *)
From S2P Require Import Prelude Buffer BufferTheory Decimal Multiplexer MultiplexerTheory.

(** ** The packets of MultiplexServer *)

Inductive pkt :=
| PUp (id : Z) (peer : list char)
| PDown (id : Z) (peer : list char)
| PData (id : Z) (d : list char).

Definition enc (p : pkt) : Z * list char :=
  match p with
  | PUp id peer => (0, Mux.conn_message id peer " IS UP")
  | PDown id peer => (0, Mux.conn_message id peer " IS DOWN")
  | PData id d => (id, d)
  end.

Definition pkt_ok (p : pkt) : Prop :=
  match p with
  | PUp id peer | PDown id peer => 1 <= id <= kMaxConns /\ peer_ok peer
  | PData id d => 1 <= id <= kMaxConns /\ 1 <= zlen d <= 255
  end.

Lemma enc_ok p : pkt_ok p -> packet_ok (enc p).
Proof.
  unfold packet_ok. destruct p as [id peer|id peer|id d]; cbn -[Mux.conn_message]; intros [Hid Hp].
  1, 2: edestruct (conn_message_eq id peer Hid Hp) as [_ Hz]; [|split; [lia|split; [|apply Hz]]]; [cbn; lia|]; lia.
  unfold kMaxConns in Hid. lia.
Qed.

(** The bytes a log records for a number. *)
Definition bytes (id : Z) (l : list (Z * list char)) : list char :=
  concat (snd <$> filter (fun p => p.1 = id) l).

Lemma bytes_app id l1 l2 : bytes id (l1 ++ l2) = bytes id l1 ++ bytes id l2.
Proof. unfold bytes. by rewrite filter_app, fmap_app, concat_app. Qed.

Lemma bytes_cons id p l : bytes id (p :: l) = bytes id [p] ++ bytes id l.
Proof. apply (bytes_app id [p]). Qed.

Lemma bytes_one id d : bytes id [(id, d)] = d.
Proof. unfold bytes. rewrite filter_cons_True by done. cbn. apply app_nil_r. Qed.

Lemma bytes_other id id' d : id' <> id -> bytes id [(id', d)] = [].
Proof. intros. unfold bytes. by rewrite filter_cons_False. Qed.

Lemma bytes_chunks id ds : bytes id ((fun x => (id, x)) <$> ds) = concat ds.
Proof.
  induction ds as [|d ds IH]; [done|]. cbn [fmap list_fmap].
  by rewrite bytes_cons, bytes_one, IH.
Qed.

Lemma bytes_chunks_other id id' ds : id' <> id -> bytes id ((fun x => (id', x)) <$> ds) = [].
Proof.
  intros Hn. induction ds as [|d ds IH]; [done|]. cbn [fmap list_fmap].
  by rewrite bytes_cons, bytes_other, IH.
Qed.

#[local] Arguments bytes : simpl never.

(** Which numbers are open (announced up and not down) and which were ever announced. *)
Abbreviation numbers := (gset Z * gset Z)%type (only parsing).

Definition announce (st : numbers) (p : pkt) : option numbers :=
  match p with
  | PUp id _ => if decide (id ∈ st.2) then None else Some ({[id]} ∪ st.1, {[id]} ∪ st.2)
  | PDown id _ => if decide (id ∈ st.1) then Some (st.1 ∖ {[id]}, st.2) else None
  | PData id _ => if decide (id ∈ st.1) then Some st else None
  end.

Fixpoint announces (st : numbers) (ps : list pkt) : option numbers :=
  match ps with [] => Some st | p :: ps => st ← announce st p; announces st ps end.

Lemma announces_app st ps1 ps2 : announces st (ps1 ++ ps2) = (st ← announces st ps1; announces st ps2).
Proof.
  revert st. induction ps1 as [|p ps1 IH]; intros st; [done|]. cbn.
  destruct (announce st p); [apply IH|done].
Qed.

Definition data_of (id : Z) (ps : list pkt) : list char := bytes id (enc <$> ps).

Lemma data_of_app id ps1 ps2 : data_of id (ps1 ++ ps2) = data_of id ps1 ++ data_of id ps2.
Proof. unfold data_of. by rewrite fmap_app, bytes_app. Qed.

Lemma data_of_command id p : id <> 0 -> (enc p).1 = 0 -> data_of id [p] = [].
Proof. intros Hid Hp. unfold data_of. cbn. destruct (enc p). cbn in Hp. subst. by apply bytes_other. Qed.

(** ** DemuxServer on these packets *)

Definition socks_log (es : list Demux.effect) : list (Z * list char) :=
  omap (fun e => match e with Demux.ToSocks id d => Some (id, d) | _ => None end) es.

Lemma socks_log_app es1 es2 : socks_log (es1 ++ es2) = socks_log es1 ++ socks_log es2.
Proof. apply omap_app. Qed.

Record demux_inv (st : numbers) (s : Demux.DemuxServer) : Prop := {
  demux_server : is_Some (Demux.serverConn_ s);
  demux_open id : id ∈ st.1 -> is_Some (Demux.socksConns_ s !! id);
  demux_entry id e : Demux.socksConns_ s !! id = Some e ->
    id <> 0 /\ id ∈ st.2 /\ inv (Demux.pending e) /\
    match Demux.connection e with Some _ => content (Demux.pending e) = [] | None => id ∈ st.1 end }.

(** What was sent for [id], what was handed on, and what is still to be handled. *)
Definition ledger (st : numbers) (s : Demux.DemuxServer) (sent got rest : list char) (id : Z) : Prop :=
  match Demux.socksConns_ s !! id with
  | Some e => sent = got ++ content (Demux.pending e) ++ rest /\ (Demux.connection e = None -> got = [])
  | None => got = [] /\ (id ∉ st.2 -> sent = rest)
  end.

Lemma demux_command s id peer what (up : bool) :
  1 <= id <= kMaxConns -> peer_ok peer -> (String.length what <= 10)%nat ->
  bool_decide (is_Some (std_search (lit " IS UP") (Mux.conn_message id peer what))) = up ->
  Demux.server_packet 0 (Mux.conn_message id peer what) s =
  if up then
    _ ← check (bool_decide (Demux.socksConns_ s !! id = None));
    pending ← newBuffer kInitialSize;
    Ok (Demux.mkDemux (Demux.serverConn_ s) (<[id := Demux.mkEntry None pending]> (Demux.socksConns_ s)),
        [Demux.ConnectSocks id])
  else
    match Demux.socksConns_ s !! id with
    | None => Fault AssertFailure
    | Some e =>
        match Demux.connection e with
        | Some _ => Ok (s, [Demux.ShutdownSocks id])
        | None => Ok (Demux.mkDemux (Demux.serverConn_ s) (delete id (Demux.socksConns_ s)), [])
        end
    end.
Proof.
  intros Hid Hp Hw Hup. pose proof (message_number id peer Hid Hp what Hw) as Hnum.
  unfold Demux.server_packet, Demux.demux_doCommand. change (negb (0 =? 0)) with false. cbn iota. rewrite Hup.
  destruct (read_range _ 5 _) as [r|]; [|done]. cbn [mbind res_bind] in Hnum |- *. by injection Hnum as ->.
Qed.

Lemma demux_up st s id peer sent got rest :
  demux_inv st s -> pkt_ok (PUp id peer) -> id ∉ st.2 ->
  (forall i, i <> 0 -> ledger st s (sent i) (got i) (data_of i [PUp id peer] ++ rest i) i) ->
  exists s', Demux.server_packet 0 (Mux.conn_message id peer " IS UP") s = Ok (s', [Demux.ConnectSocks id]) /\
    demux_inv ({[id]} ∪ st.1, {[id]} ∪ st.2) s' /\
    forall i, i <> 0 -> ledger ({[id]} ∪ st.1, {[id]} ∪ st.2) s' (sent i) (got i) (rest i) i.
Proof.
  intros [Hs Ho He] [Hid Hp] Hn Hl. unfold kMaxConns in Hid.
  assert (Hnone : Demux.socksConns_ s !! id = None).
  { destruct (_ !! id) as [e|] eqn:E; [|done]. by destruct (He _ _ E) as (_ & ? & _). }
  rewrite (demux_command s id peer " IS UP" true);
    [|done..|cbn; lia|apply bool_decide_true; by apply message_up].
  rewrite Hnone, check_true by done. cbn [mbind res_bind].
  destruct (newBuffer_spec kInitialSize) as (b & -> & Hi & Hc & _);
    [unfold kInitialSize; lia|unfold kCheapPrepend, kInitialSize, max_size; lia|]. cbn [mbind res_bind].
  eexists. split; [done|]. split.
  - split; cbn; [done| |].
    + intros i Hi'. destruct (decide (i = id)) as [->|Hne]; [by rewrite lookup_insert_eq|].
      rewrite lookup_insert_ne by done. apply Ho. set_solver.
    + intros i e Hie. destruct (decide (i = id)) as [->|Hne].
      * rewrite lookup_insert_eq in Hie. injection Hie as <-. cbn. split_and!; [lia|set_solver|done|set_solver].
      * rewrite lookup_insert_ne in Hie by done. destruct (He _ _ Hie) as (? & ? & ? & Hco).
        split_and!; [done|set_solver|done|]. destruct (Demux.connection e); [done|set_solver].
  - intros i Hi0. specialize (Hl i Hi0). unfold ledger in *. cbn.
    rewrite data_of_command in Hl by done. destruct (decide (i = id)) as [->|Hne].
    + rewrite lookup_insert_eq. rewrite Hnone in Hl. destruct Hl as [-> Hl]. cbn. rewrite Hc. split; [|done].
      by apply Hl.
    + rewrite lookup_insert_ne by done. destruct (_ !! i); [done|]. destruct Hl as [? Hl].
      split; [done|]. intros. apply Hl. set_solver.
Qed.

Lemma demux_down st s id peer sent got rest :
  demux_inv st s -> pkt_ok (PDown id peer) -> id ∈ st.1 ->
  (forall i, i <> 0 -> ledger st s (sent i) (got i) (data_of i [PDown id peer] ++ rest i) i) ->
  exists s' es, Demux.server_packet 0 (Mux.conn_message id peer " IS DOWN") s = Ok (s', es) /\ socks_log es = [] /\
    demux_inv (st.1 ∖ {[id]}, st.2) s' /\
    forall i, i <> 0 -> ledger (st.1 ∖ {[id]}, st.2) s' (sent i) (got i) (rest i) i.
Proof.
  intros [Hs Ho He] [Hid Hp] Hin Hl. rewrite (demux_command s id peer " IS DOWN" false);
    [|done..|cbn; lia|apply bool_decide_false; rewrite (message_down id peer Hid Hp); by intros [? ?]].
  destruct (Ho id Hin) as [e Ee]. rewrite Ee. destruct (He _ _ Ee) as (_ & Hu & Hi & Hco).
  destruct (Demux.connection e) as [c|] eqn:Ec; eexists _, _; (split; [done|]); (split; [done|]); split.
  - split; cbn; [done|intros; apply Ho; set_solver|]. intros i e' Hie. destruct (He _ _ Hie) as (? & ? & ? & Hc').
    split_and!; [done..|]. destruct (Demux.connection e') eqn:Ec'; [done|]. apply elem_of_difference.
    split; [done|]. intros ->%elem_of_singleton. congruence.
  - intros i Hi0. specialize (Hl i Hi0). unfold ledger in *. cbn. by rewrite data_of_command in Hl.
  - split; cbn; [done| |].
    + intros i Hi'. rewrite lookup_delete_ne by set_solver. apply Ho. set_solver.
    + intros i e' [Hne Hie]%lookup_delete_Some. destruct (He _ _ Hie) as (? & ? & ? & Hc').
      split_and!; [done..|]. destruct (Demux.connection e'); [done|set_solver].
  - intros i Hi0. specialize (Hl i Hi0). unfold ledger in *. cbn. rewrite data_of_command in Hl by done.
    destruct (decide (i = id)) as [->|Hne].
    + rewrite lookup_delete_eq. rewrite Ee in Hl. split; [by apply Hl|done].
    + by rewrite lookup_delete_ne by done.
Qed.

Lemma demux_data st s id d sent got rest :
  demux_inv st s -> pkt_ok (PData id d) -> id ∈ st.1 ->
  (forall i, i <> 0 -> ledger st s (sent i) (got i) (data_of i [PData id d] ++ rest i) i) ->
  outcome LengthError (Demux.server_packet id d s) (fun '(s', es) =>
    demux_inv st s' /\ forall i, i <> 0 -> ledger st s' (sent i) (got i ++ bytes i (socks_log es)) (rest i) i).
Proof.
  intros [Hs Ho He] [Hid Hd] Hin Hl. unfold Demux.server_packet. replace (id =? 0) with false by lia. cbn [negb].
  destruct (Ho id Hin) as [e Ee]. rewrite Ee. destruct (He _ _ Ee) as (_ & Hu & Hi & Hco).
  unfold ledger, data_of in Hl. cbn [fmap list_fmap enc] in Hl.
  destruct (Demux.connection e) as [c|] eqn:Ec.
  - rewrite readableBytes_content, Hco by done. rewrite check_true by done. apply outcome_Ok.
    split; [by split|]. intros i Hi0. specialize (Hl i Hi0). unfold ledger. cbn.
    destruct (decide (i = id)) as [->|Hne].
    + rewrite Ee in *. rewrite bytes_one in *. destruct Hl as [-> _]. rewrite Hco, Ec. split; [|done].
      cbn. by rewrite <- app_assoc.
    + rewrite bytes_other, app_nil_r in * by done. done.
  - destruct (append_outcome d (Demux.pending e) Hi) as [(b & -> & Hib & Hcb)|[-> _]];
      [unfold max_size; lia| |by right]. apply outcome_Ok. split.
    + split; cbn; [done| |].
      * intros i Hi'. destruct (decide (i = id)) as [->|]; [by rewrite lookup_insert_eq|].
        rewrite lookup_insert_ne by done. by apply Ho.
      * intros i e' Hie. destruct (decide (i = id)) as [->|]; [|rewrite lookup_insert_ne in Hie by done; by apply He].
        rewrite lookup_insert_eq in Hie. injection Hie as <-. cbn. split_and!; [lia|done..].
    + intros i Hi0. specialize (Hl i Hi0). unfold ledger. cbn. change (bytes i []) with (@nil char).
      rewrite app_nil_r. destruct (decide (i = id)) as [->|Hne].
      * rewrite lookup_insert_eq. rewrite Ee, bytes_one in Hl. cbn. rewrite Hcb, <- app_assoc.
        split; [apply Hl|]. intros _. by apply Hl.
      * rewrite lookup_insert_ne by done. rewrite bytes_other in Hl by done. done.
Qed.

Lemma demux_packet st st' p s sent got rest :
  demux_inv st s -> pkt_ok p -> announce st p = Some st' ->
  (forall i, i <> 0 -> ledger st s (sent i) (got i) (data_of i [p] ++ rest i) i) ->
  outcome LengthError (Demux.server_packet (enc p).1 (enc p).2 s) (fun '(s', es) =>
    demux_inv st' s' /\ forall i, i <> 0 -> ledger st' s' (sent i) (got i ++ bytes i (socks_log es)) (rest i) i).
Proof.
  intros Hinv Hok Ha Hl. destruct p as [id peer|id peer|id d]; cbn [announce enc fst snd] in Ha |- *;
    case_decide as Hin; simplify_eq.
  - edestruct (demux_up st s id peer sent got rest) as (s' & -> & Hi' & Hl'); [done..|]. apply outcome_Ok.
    split; [done|]. intros i Hi0. change (bytes i _) with (@nil char). rewrite app_nil_r. auto.
  - edestruct (demux_down st s id peer sent got rest) as (s' & es & -> & Hes & Hi' & Hl'); [done..|]. apply outcome_Ok.
    split; [done|]. intros i Hi0. rewrite Hes. change (bytes i _) with (@nil char). rewrite app_nil_r. auto.
  - by apply demux_data.
Qed.

Lemma demux_packets ps st st' s sent got rest :
  demux_inv st s -> Forall pkt_ok ps -> announces st ps = Some st' ->
  (forall i, i <> 0 -> ledger st s (sent i) (got i) (data_of i ps ++ rest i) i) ->
  outcome LengthError (run_packets Demux.server_packet (enc <$> ps) s) (fun '(s', es) =>
    demux_inv st' s' /\ forall i, i <> 0 -> ledger st' s' (sent i) (got i ++ bytes i (socks_log es)) (rest i) i).
Proof.
  revert st s got. induction ps as [|p ps IH]; intros st s got Hinv Hok Ha Hl; cbn [fmap list_fmap run_packets].
  - injection Ha as <-. apply outcome_Ok. split; [done|]. intros. change (bytes i _) with (@nil char).
    rewrite app_nil_r. by apply Hl.
  - apply Forall_cons in Hok as [Hp Hok]. cbn in Ha. destruct (announce st p) as [st1|] eqn:E1; [|done].
    eapply outcome_bind; [apply (demux_packet st st1 p s sent got (fun i => data_of i ps ++ rest i)); try done|].
    { intros i Hi0. rewrite app_assoc, <- data_of_app. by apply Hl. }
    intros [s1 es1] [Hi1 Hl1]. eapply outcome_bind; [by apply (IH st1 s1 _ Hi1 Hok Ha Hl1)|].
    intros [s2 es2] [Hi2 Hl2]. apply outcome_Ok. split; [done|]. intros i Hi0.
    rewrite socks_log_app, bytes_app, app_assoc. by apply Hl2.
Qed.

(** ** The system *)

Definition backend_bytes (es : list Mux.effect) : list char :=
  concat (omap (fun e => match e with Mux.ToBackend d => Some d | _ => None end) es).
Definition client_log (es : list Mux.effect) : list (Z * list char) :=
  omap (fun e => match e with Mux.ToClient c d => Some (c, d) | _ => None end) es.
Definition server_bytes (es : list Demux.effect) : list char :=
  concat (omap (fun e => match e with Demux.ToServer d => Some d | _ => None end) es).

Lemma backend_bytes_to d : backend_bytes (Mux.to_backend d) = d.
Proof. destruct d; [done|]. unfold backend_bytes. cbn. by rewrite app_nil_r. Qed.

Lemma server_bytes_to d : server_bytes (Demux.to_server d) = d.
Proof. destruct d; [done|]. unfold server_bytes. cbn. by rewrite app_nil_r. Qed.

(** [fwd] and [bwd] are the bytes on the way, [fbuf] and [bbuf] the input buffers at the two
    ends.  [live] holds the clients that are connected, [clients] and [served] the clients and
    the numbers seen so far.  The logs hold what the clients sent and what the connections of
    DemuxServer were given ([sent], [got]), and the converse ([rsent], [rgot]). *)
Record Sys := mkSys {
  mux : Mux.MultiplexServer; demux : Demux.DemuxServer;
  fwd : list char; fbuf : Buffer; bwd : list char; bbuf : Buffer;
  live : gset Z; clients : gset Z; served : gset Z;
  sent : list (Z * list char); got : list (Z * list char);
  rsent : list (Z * list char); rgot : list (Z * list char) }.

Inductive event :=
| ClientUp (c : Z) (peer : list char)
| ClientData (c : Z) (b : Buffer)
| ClientDown (c : Z) (peer : list char)
| Deliver (n : nat)
| SocksUp (id c : Z)
| SocksData (id : Z) (b : Buffer)
| SocksDown (id : Z)
| DeliverBack (n : nat).

Definition enough (b : Buffer) : nat := S (Z.to_nat (readableBytes b)).
Definition number_of (c : Z) (m : Mux.MultiplexServer) : gset Z :=
  match Mux.context m !! c with Some id => {[id]} | None => ∅ end.
Definition taken (c : Z) (b : Buffer) (m : Mux.MultiplexServer) : list (Z * list char) :=
  match Mux.context m !! c with Some id => [(id, content b)] | None => [] end.

Definition step (e : event) (s : Sys) : res Sys :=
  match e with
  | ClientUp c peer =>
      '(m, es) ← Mux.onClientUp c peer (mux s);
      Ok (mkSys m (demux s) (fwd s ++ backend_bytes es) (fbuf s) (bwd s) (bbuf s)
            ({[c]} ∪ live s) ({[c]} ∪ clients s) (number_of c m ∪ served s)
            (sent s) (got s) (rsent s) (rgot s))
  | ClientData c b =>
      '(es, _) ← Mux.onClientMessage (enough b) c b (mux s);
      Ok (mkSys (mux s) (demux s) (fwd s ++ backend_bytes es) (fbuf s) (bwd s) (bbuf s)
            (live s) (clients s) (served s) (sent s ++ taken c b (mux s)) (got s) (rsent s) (rgot s))
  | ClientDown c peer =>
      '(m, es) ← Mux.onClientDown c peer (mux s);
      Ok (mkSys m (demux s) (fwd s ++ backend_bytes es) (fbuf s) (bwd s) (bbuf s)
            (live s ∖ {[c]}) (clients s) (served s) (sent s) (got s) (rsent s) (rgot s))
  | Deliver n =>
      b ← append (take n (fwd s)) (fbuf s);
      '(d, es, b) ← Demux.onServerMessage (enough b) b (demux s);
      Ok (mkSys (mux s) d (drop n (fwd s)) b (bwd s ++ server_bytes es) (bbuf s)
            (live s) (clients s) (served s) (sent s) (got s ++ socks_log es) (rsent s) (rgot s))
  | SocksUp id c =>
      '(d, es) ← Demux.onSocksUp id c (demux s);
      Ok (mkSys (mux s) d (fwd s) (fbuf s) (bwd s ++ server_bytes es) (bbuf s)
            (live s) (clients s) (served s) (sent s) (got s ++ socks_log es) (rsent s) (rgot s))
  | SocksData id b =>
      '(es, _) ← Demux.onSocksMessage (enough b) id b (demux s);
      Ok (mkSys (mux s) (demux s) (fwd s) (fbuf s) (bwd s ++ server_bytes es) (bbuf s)
            (live s) (clients s) (served s) (sent s) (got s) (rsent s ++ [(id, content b)]) (rgot s))
  | SocksDown id =>
      '(d, es) ← Demux.onSocksDown id (demux s);
      Ok (mkSys (mux s) d (fwd s) (fbuf s) (bwd s ++ server_bytes es) (bbuf s)
            (live s) (clients s) (served s) (sent s) (got s) (rsent s) (rgot s))
  | DeliverBack n =>
      b ← append (take n (bwd s)) (bbuf s);
      '(es, b) ← Mux.sendToClient (enough b) b (mux s);
      Ok (mkSys (mux s) (demux s) (fwd s ++ backend_bytes es) (fbuf s) (drop n (bwd s)) b
            (live s) (clients s) (served s) (sent s) (got s) (rsent s) (rgot s ++ client_log es))
  end.

(** What can happen: connections are new when they come up, speak while they are up, and come
    down once; a number is not handed out twice. *)
Definition legal (e : event) (s : Sys) : Prop :=
  match e with
  | ClientUp c peer => c ∉ clients s /\ peer_ok peer /\
      match Mux.availIds_ (mux s) with id :: _ => id ∉ served s | [] => True end
  | ClientData c b => c ∈ live s /\ inv b /\ kCheapPrepend <= readerIndex_ b
  | ClientDown c peer => c ∈ live s /\ peer_ok peer
  | Deliver n | DeliverBack n => Z.of_nat n <= max_size
  | SocksUp id _ =>
      match Demux.socksConns_ (demux s) !! id with Some e => Demux.connection e = None | None => False end
  | SocksData id b =>
      match Demux.socksConns_ (demux s) !! id with
      | Some e => is_Some (Demux.connection e) /\ inv b /\ kCheapPrepend <= readerIndex_ b
      | None => False
      end
  | SocksDown id =>
      match Demux.socksConns_ (demux s) !! id with Some e => is_Some (Demux.connection e) | None => False end
  end.

Fixpoint run (es : list event) (s : Sys) : res Sys :=
  match es with [] => Ok s | e :: es => s ← step e s; run es s end.

Fixpoint legal_run (es : list event) (s : Sys) : Prop :=
  match es with
  | [] => True
  | e :: es => legal e s /\ match step e s with Ok s => legal_run es s | Fault _ => True end
  end.

#[export] Instance inv_dec (b : Buffer) : Decision (inv b).
Proof. unfold inv. apply _. Defined.

#[export] Instance peer_ok_dec peer : Decision (peer_ok peer).
Proof. unfold peer_ok. apply _. Defined.

#[export] Instance legal_dec e s : Decision (legal e s).
Proof. destruct e; cbn [legal]; repeat case_match; apply _. Defined.

#[export] Instance legal_run_dec es s : Decision (legal_run es s).
Proof.
  revert s. induction es as [|e es IH]; intros s; cbn [legal_run]; [apply _|].
  apply and_dec; [apply _|]. destruct (step e s) as [s'|]; [apply IH|apply _].
Defined.

(** Both servers running and connected, [b] their empty input buffers. *)
Definition started (b : Buffer) : res Sys :=
  m ← Mux.onBackendUp (Mux.mkMux false ∅ [] ∅);
  let '(d, _) := Demux.onServerUp 0 (Demux.mkDemux None ∅) in
  Ok (mkSys m d [] b [] b ∅ ∅ ∅ [] [] [] []).

(** ** Invariants *)

Record mux_inv (s : Sys) : Prop := {
  mux_backend : Mux.backendConn_ (mux s) = true;
  mux_avail : Forall (fun id => 1 <= id <= kMaxConns) (Mux.availIds_ (mux s));
  mux_context c id : Mux.context (mux s) !! c = Some id -> 1 <= id <= kMaxConns /\ c ∈ clients s /\ id ∈ served s;
  mux_context_inj c c' id : Mux.context (mux s) !! c = Some id -> Mux.context (mux s) !! c' = Some id -> c = c';
  mux_clients id c : Mux.clientConns_ (mux s) !! id = Some c <-> Mux.context (mux s) !! c = Some id /\ c ∈ live s;
  mux_live : live s ⊆ clients s;
  mux_served id : id ∈ served s -> 1 <= id <= kMaxConns }.

Definition wires (ps : list (Z * list char)) : list char := concat (packet_wire <$> ps).

Record forward_inv (s : Sys) (ps : list pkt) (st : numbers) : Prop := {
  forward_wire : content (fbuf s) ++ fwd s = wires (enc <$> ps);
  forward_ok : Forall pkt_ok ps;
  forward_buf : inv (fbuf s);
  forward_announces : announces st ps = Some (dom (Mux.clientConns_ (mux s)), served s);
  forward_demux : demux_inv st (demux s);
  forward_ledger i : i <> 0 -> ledger st (demux s) (bytes i (sent s)) (bytes i (got s)) (data_of i ps) i }.

Record backward_inv (s : Sys) (ps : list (Z * list char)) : Prop := {
  backward_wire : content (bbuf s) ++ bwd s = wires ps;
  backward_ok : Forall packet_ok ps;
  backward_buf : inv (bbuf s);
  backward_live c id : Mux.context (mux s) !! c = Some id -> c ∈ live s ->
    bytes id (rsent s) = bytes c (rgot s) ++ bytes id ps;
  backward_prefix c id : Mux.context (mux s) !! c = Some id -> bytes c (rgot s) `prefix_of` bytes id (rsent s);
  backward_none c : Mux.context (mux s) !! c = None -> bytes c (rgot s) = [];
  backward_fresh id : id <> 0 -> id ∉ served s -> bytes id (rsent s) = [] /\ bytes id ps = [] }.

Definition sys_inv (s : Sys) : Prop :=
  mux_inv s /\ (exists ps st, forward_inv s ps st) /\ (exists ps, backward_inv s ps).
