(* ===== verification/MultiplexerCorrect.v ===== *)
(** * Correctness of the multiplexer

    Every event keeps the invariants of the two servers and of the bytes between them. *)
From S2P Require Import Prelude Buffer BufferTheory Decimal Multiplexer MultiplexerTheory MultiplexerSystem.

#[local] Arguments bytes : simpl never.
#[local] Arguments data_of : simpl never.
#[local] Arguments wires : simpl never.
#[local] Arguments backend_bytes : simpl never.
#[local] Arguments server_bytes : simpl never.
#[local] Arguments client_log : simpl never.
#[local] Arguments socks_log : simpl never.
#[local] Arguments packet_wire : simpl never.
#[local] Arguments Mux.to_backend : simpl never.
#[local] Arguments Demux.to_server : simpl never.
#[local] Arguments Mux.conn_message : simpl never.

(** ** Bytes on the backend connection *)

Lemma wires_app ps1 ps2 : wires (ps1 ++ ps2) = wires ps1 ++ wires ps2.
Proof. unfold wires. by rewrite fmap_app, concat_app. Qed.

Lemma wires_one p : wires [p] = packet_wire p.
Proof. unfold wires. cbn [fmap list_fmap concat]. apply app_nil_r. Qed.

Lemma wires_length ps : (length ps <= length (wires ps))%nat.
Proof.
  induction ps as [|p ps IH]; [done|].
  change (p :: ps) with ([p] ++ ps). rewrite wires_app, wires_one, !length_app. unfold packet_wire. cbn. lia.
Qed.

Lemma wires_nil ps : wires ps = [] -> ps = [].
Proof. intros E. pose proof (wires_length ps) as Hl. rewrite E in Hl. destruct ps; [done|cbn in Hl; lia]. Qed.

(** A read from the stream: whole packets are handled, the rest waits in the buffer. *)
Lemma deliver_packets {S E} (handle : Z -> list char -> S -> res (S * list E)) ps n wire b s :
  inv b -> content b ++ wire = wires ps -> Forall packet_ok ps -> Z.of_nat n <= max_size ->
  append (take n wire) b = Fault LengthError \/
  exists b1 ps1 ps2, append (take n wire) b = Ok b1 /\ ps = ps1 ++ ps2 /\
    match run_packets handle ps1 s with
    | Ok (s', es) => exists b', packet_loop (enough b1) handle b1 s = Ok (s', es, b') /\
        inv b' /\ content b' ++ drop n wire = wires ps2
    | Fault f => packet_loop (enough b1) handle b1 s = Fault f
    end.
Proof.
  intros Hi Hw Hok Hn.
  assert (Hz : zlen (take n wire) <= max_size) by (unfold zlen; rewrite length_take; lia).
  destruct (append_outcome (take n wire) b Hi Hz) as [(b1 & -> & Hi1 & Hc1)|[-> _]]; [right|by left].
  assert (Hcut : content b1 ++ drop n wire = wires ps ++ [])
    by (rewrite Hc1, <- app_assoc, take_drop, app_nil_r; done).
  destruct (cut_stream packet_wire packet_ok no_packet no_packet_prefix no_packet_frame ps [] _ _ Hok
    ltac:(left; done) Hcut) as (ps1 & ps2 & t & -> & Hx & Ht & Hp).
  apply Forall_app in Hok as [Hok1 _]. exists b1, ps1, ps2. split_and!; [done..|].
  rewrite app_nil_r in Ht. fold (wires ps1) in Hx. fold (wires ps2) in Ht.
  assert (Hf : (length ps1 < enough b1)%nat).
  { unfold enough. rewrite readableBytes_content, Hx by done. pose proof (wires_length ps1).
    unfold zlen. rewrite Nat2Z.id, length_app. lia. }
  pose proof (packet_loop_ok handle (enough b1) ps1 t b1 s Hi1 Hx Hok1 Hp Hf) as Hloop.
  destruct (run_packets handle ps1 s) as [[s' es]|]; [|done].
  destruct Hloop as (b' & Hi' & Hc' & E'). exists b'. by rewrite Hc'.
Qed.

Lemma sendBackendString_ok m id msg :
  Mux.backendConn_ m = true -> zlen msg <= 255 ->
  Mux.sendBackendString m id msg = Ok (Mux.to_backend (packet_wire (id, msg))).
Proof.
  intros Hb Hz. unfold Mux.sendBackendString, kMaxPacketLen. rewrite check_true by lia. cbn [mbind res_bind].
  destruct (send_fresh id msg Hz) as (b0 & b1 & b2 & -> & E1 & E2). cbn [mbind res_bind].
  rewrite E1. cbn [mbind res_bind]. by rewrite Hb, E2.
Qed.

Lemma announce_up m id peer :
  Mux.backendConn_ m = true -> 1 <= id <= kMaxConns -> peer_ok peer ->
  Mux.sendBackendString m 0 (Mux.conn_message id peer " IS UP") = Ok (Mux.to_backend (packet_wire (enc (PUp id peer)))).
Proof.
  intros Hb Hid Hp. apply sendBackendString_ok; [done|].
  by destruct (conn_message_eq id peer Hid Hp " IS UP" ltac:(cbn; lia)) as [_ [_ ?]].
Qed.

Lemma announce_down m id peer :
  Mux.backendConn_ m = true -> 1 <= id <= kMaxConns -> peer_ok peer ->
  Mux.sendBackendString m 0 (Mux.conn_message id peer " IS DOWN") = Ok (Mux.to_backend (packet_wire (enc (PDown id peer)))).
Proof.
  intros Hb Hid Hp. apply sendBackendString_ok; [done|].
  by destruct (conn_message_eq id peer Hid Hp " IS DOWN" ltac:(cbn; lia)) as [_ [_ ?]].
Qed.

(** ** Clients *)

(** Packets appended to the stream, with what the clients sent. *)
Lemma forward_more s s' ps st ps' :
  forward_inv s ps st -> Forall pkt_ok ps' ->
  fbuf s' = fbuf s -> demux s' = demux s -> got s' = got s ->
  fwd s' = fwd s ++ wires (enc <$> ps') ->
  announces (dom (Mux.clientConns_ (mux s)), served s) ps' = Some (dom (Mux.clientConns_ (mux s')), served s') ->
  (forall i, i <> 0 -> bytes i (sent s') = bytes i (sent s) ++ data_of i ps') ->
  forward_inv s' (ps ++ ps') st.
Proof.
  intros [Hw Hok Hb Ha Hd Hl] Hok' Hfb Hde Hgo Hfw Han Hse. split.
  - by rewrite Hfb, Hfw, app_assoc, Hw, fmap_app, wires_app.
  - by apply Forall_app.
  - by rewrite Hfb.
  - rewrite announces_app, Ha. done.
  - by rewrite Hde.
  - intros i Hi0. specialize (Hl i Hi0). unfold ledger in *. rewrite Hde, Hgo, Hse, data_of_app by done.
    destruct (_ !! i); destruct Hl as [H1 H2]; split; try done; [rewrite H1|intros; rewrite H2 by done]; by rewrite ?app_assoc.
Qed.

Lemma data_of_commands i ps : i <> 0 -> Forall (fun p => (enc p).1 = 0) ps -> data_of i ps = [].
Proof.
  intros Hi. induction 1 as [|p ps Hp _ IH]; [done|].
  change (p :: ps) with ([p] ++ ps). by rewrite data_of_app, IH, data_of_command.
Qed.

(** Clients coming and going do not disturb the other direction. *)
Lemma backward_clients s s' ps :
  backward_inv s ps ->
  bbuf s' = bbuf s -> bwd s' = bwd s -> rsent s' = rsent s -> rgot s' = rgot s -> served s ⊆ served s' ->
  (forall c, Mux.context (mux s') !! c = None -> Mux.context (mux s) !! c = None) ->
  (forall c id, Mux.context (mux s') !! c = Some id ->
    Mux.context (mux s) !! c = Some id /\ (c ∈ live s' -> c ∈ live s) \/
    Mux.context (mux s) !! c = None /\ id ∉ served s /\ id <> 0) ->
  backward_inv s' ps.
Proof.
  intros [Hw Hok Hb Hl Hp Hn Hf] Eb Ew Es Eg Hse Hno Hso. split; rewrite ?Eb, ?Ew, ?Es, ?Eg; try done.
  - intros c id Hc Hli. destruct (Hso c id Hc) as [[Hc' Hli']|(Hc' & Hid & Hid0)]; [auto|].
    destruct (Hf id Hid0 Hid) as [-> ->]. by rewrite Hn.
  - intros c id Hc. destruct (Hso c id Hc) as [[Hc' _]|(Hc' & _)]; [auto|].
    rewrite Hn by done. apply prefix_nil.
  - auto.
  - intros id Hid0 Hid. apply Hf; [done|set_solver].
Qed.

Lemma client_up s c peer : sys_inv s -> legal (ClientUp c peer) s -> outcome LengthError (step (ClientUp c peer) s) sys_inv.
Proof.
  intros ([Hb Ha Hc Hj Hcl Hli Hsv] & (ps & st & Hf) & (rps & Hr)) (Hnew & Hp & Hhead).
  assert (Hno : Mux.context (mux s) !! c = None).
  { destruct (_ !! c) as [id|] eqn:E; [|done]. by apply Hc in E as (_ & ? & _). }
  cbn [step]. unfold Mux.onClientUp. destruct (Mux.availIds_ (mux s)) as [|id rest] eqn:Eav.
  - cbn. apply outcome_Ok. unfold number_of. rewrite Hno, union_empty_l_L. split; [|split].
    + split; cbn; rewrite ?Eav; try done; [|intros; rewrite Hcl|]. all: set_solver.
    + exists (ps ++ []), st. apply (forward_more s); cbn; try done. intros. by rewrite app_nil_r.
    + exists rps. apply (backward_clients s); cbn; try done. intros c' id' E. left. split; [done|].
      intros [->%elem_of_singleton|?]%elem_of_union; [congruence|done].
  - apply Forall_cons in Ha as [Hid Ha]. replace (id <=? 0) with false by lia.
    cbn [Mux.backendConn_ Mux.clientConns_ Mux.availIds_ Mux.context].
    rewrite announce_up by done. cbn [mbind res_bind]. apply outcome_Ok.
    unfold number_of. cbn [Mux.context]. rewrite lookup_insert_eq. split; [|split].
    + split; cbn; try done.
      * intros c' id'. destruct (decide (c' = c)) as [->|Hne].
        { rewrite lookup_insert_eq. intros [= <-]. split; [done|split; set_solver]. }
        rewrite lookup_insert_ne by done. intros (? & ? & ?)%Hc. split; [done|split; set_solver].
      * intros c1 c2 id'. destruct (decide (c1 = c)) as [->|H1], (decide (c2 = c)) as [->|H2]; [done| | |];
          rewrite ?lookup_insert_eq, ?lookup_insert_ne by done; intros E1 E2; [| |by apply (Hj _ _ id')].
        { injection E1 as ->. by apply Hc in E2 as (_ & _ & ?). }
        { injection E2 as ->. by apply Hc in E1 as (_ & _ & ?). }
      * intros id' c'. destruct (decide (id' = id)) as [->|Hne]; destruct (decide (c' = c)) as [->|Hce];
          rewrite ?lookup_insert_eq, ?lookup_insert_ne by done.
        { set_solver. }
        { split; [congruence|]. intros [(_ & _ & ?)%Hc _]. done. }
        { rewrite Hcl, Hno. split; [by intros [? _]|]. intros [? _]. congruence. }
        { rewrite Hcl. set_solver. }
      * set_solver.
      * intros id' [->%elem_of_singleton|?]%elem_of_union; [done|auto].
    + exists (ps ++ [PUp id peer]), st. apply (forward_more s); cbn; try done.
      * by apply Forall_singleton.
      * rewrite decide_False by done. by rewrite dom_insert_L.
      * intros i Hi0. rewrite data_of_command by done. by rewrite app_nil_r.
    + exists rps. apply (backward_clients s); cbn; try done; [set_solver| |].
      * intros c'. rewrite lookup_insert_None. tauto.
      * intros c' id' [[<- <-]|[? E]]%lookup_insert_Some; [right; split_and!; [done..|lia]|].
        left. split; [done|]. set_solver.
Qed.

Lemma client_down s c peer :
  sys_inv s -> legal (ClientDown c peer) s -> outcome LengthError (step (ClientDown c peer) s) sys_inv.
Proof.
  intros ([Hb Ha Hc Hj Hcl Hli Hsv] & (ps & st & Hf) & (rps & Hr)) (Hlive & Hp).
  cbn [step]. unfold Mux.onClientDown. destruct (Mux.context (mux s) !! c) as [id|] eqn:Ec.
  - destruct (Hc _ _ Ec) as (Hid & Hcc & Hse). rewrite (check_true ((0 <? id) && _)) by lia.
    cbn [mbind res_bind]. rewrite announce_down by done. cbn [mbind res_bind]. rewrite Hb. apply outcome_Ok.
    assert (Hidc : Mux.clientConns_ (mux s) !! id = Some c) by (by apply Hcl).
    split; [|split].
    + split; cbn; try done.
      * apply Forall_app. split; [done|by apply Forall_singleton].
      * intros id' c'. rewrite lookup_delete_Some, Hcl, elem_of_difference, elem_of_singleton.
        split; [intros (Hne & E & Hl); split_and!; [done..|intros ->; congruence]|].
        intros (E & Hl & Hne). split_and!; [|done..]. intros <-. apply Hne. by apply (Hj _ _ id).
      * set_solver.
    + exists (ps ++ [PDown id peer]), st. apply (forward_more s); cbn; try done.
      * by apply Forall_singleton.
      * rewrite decide_True by (apply elem_of_dom; eauto). cbn. by rewrite dom_delete_L.
      * intros i Hi0. rewrite data_of_command by done. by rewrite app_nil_r.
    + exists rps. apply (backward_clients s); cbn; try done. intros c' id' E. left. set_solver.
  - apply outcome_Ok. split; [|split].
    + split; cbn; try done; [|set_solver]. intros id' c'. rewrite Hcl, elem_of_difference, elem_of_singleton.
      split; [|tauto]. intros (E & Hl). split_and!; [done..|]. intros ->. congruence.
    + exists (ps ++ []), st. apply (forward_more s); cbn; try done. intros. by rewrite app_nil_r.
    + exists rps. apply (backward_clients s); cbn; try done. intros c' id' E. left. set_solver.
Qed.

Lemma announces_data st id ds :
  id ∈ st.1 -> announces st (PData id <$> ds) = Some st.
Proof. intros Hid. induction ds as [|d ds IH]; [done|]. cbn. rewrite decide_True by done. apply IH. Qed.

Lemma data_of_chunks i id ds : data_of i (PData id <$> ds) = bytes i [(id, concat ds)].
Proof.
  unfold data_of. rewrite <- list_fmap_compose. unfold compose. cbn.
  destruct (decide (id = i)) as [->|Hne]; [by rewrite bytes_chunks, bytes_one|].
  by rewrite bytes_chunks_other, bytes_other.
Qed.

Lemma chunks_ok id d ds : 1 <= id <= kMaxConns -> chunks_of d ds -> Forall pkt_ok (PData id <$> ds).
Proof. intros Hid [_ Hds]. apply Forall_fmap. eapply Forall_impl; [exact Hds|]. intros x Hx. by split. Qed.

Lemma client_data s c b :
  sys_inv s -> legal (ClientData c b) s -> outcome LengthError (step (ClientData c b) s) sys_inv.
Proof.
  intros (Hm & (ps & st & Hf) & (rps & Hr)) (Hlive & Hi & Hrd).
  destruct Hm as [Hb Ha Hc Hj Hcl Hli Hsv]. cbn [step]. unfold Mux.onClientMessage, taken.
  destruct (Mux.context (mux s) !! c) as [id|] eqn:Ec.
  - destruct (Hc _ _ Ec) as (Hid & Hcc & Hse). rewrite Hb.
    destruct (send_buffer_ok (enough b) id b (content b) Hi eq_refl Hrd) as (ds & b' & -> & Hch & _).
    { unfold enough. rewrite readableBytes_content by done. unfold zlen. lia. }
    cbn [mbind res_bind]. apply outcome_Ok. split; [|split].
    + by split.
    + exists (ps ++ (PData id <$> ds)), st. apply (forward_more s); cbn; try done.
      * by eapply chunks_ok.
      * rewrite backend_bytes_to. unfold wires. by rewrite <- (list_fmap_compose (PData id) enc).
      * apply announces_data. apply elem_of_dom. exists c. by apply Hcl.
      * intros i Hi0. destruct Hch as [<- _]. by rewrite bytes_app, data_of_chunks.
    + exists rps. apply (backward_clients s); cbn; try done. intros c' id' E. by left.
  - cbn [mbind res_bind]. apply outcome_Ok. split; [by split|]. split.
    + exists (ps ++ []), st. apply (forward_more s); cbn; try done. intros. by rewrite !app_nil_r.
    + exists rps. apply (backward_clients s); cbn; try done. intros c' id' E. by left.
Qed.

(** ** The connections of DemuxServer *)

Lemma demux_packet_quiet id d s s' es : Demux.server_packet id d s = Ok (s', es) -> server_bytes es = [].
Proof.
  unfold Demux.server_packet, Demux.demux_doCommand. intros E. repeat case_match; simplify_eq; try done; inv_res E; repeat case_match; inv_res E; by simplify_eq.
Qed.

Lemma server_bytes_app es1 es2 : server_bytes (es1 ++ es2) = server_bytes es1 ++ server_bytes es2.
Proof. unfold server_bytes. by rewrite omap_app, concat_app. Qed.

Lemma demux_packets_quiet ps s s' es : run_packets Demux.server_packet ps s = Ok (s', es) -> server_bytes es = [].
Proof.
  revert s s' es. induction ps as [|[id d] ps IH]; intros s s' es; cbn [run_packets]; [by intros [= _ <-]|].
  intros E. inv_res E. destruct a as [s1 es1]. inv_res E. destruct a as [s2 es2]. injection E as _ <-.
  rewrite server_bytes_app. by erewrite demux_packet_quiet, IH.
Qed.

(** The backward direction depends on neither DemuxServer nor the forward bytes. *)
Lemma backward_same s s' ps :
  backward_inv s ps -> mux s' = mux s -> bbuf s' = bbuf s -> bwd s' = bwd s -> rsent s' = rsent s ->
  rgot s' = rgot s -> served s' = served s -> live s' = live s -> backward_inv s' ps.
Proof.
  intros Hr Em Eb Ew Es Eg Ese El. apply (backward_clients s); try done; rewrite ?Em, ?El, ?Ese; try done.
  intros c id E. by left.
Qed.

Lemma mux_same s s' :
  mux_inv s -> mux s' = mux s -> live s' = live s -> clients s' = clients s -> served s' = served s -> mux_inv s'.
Proof. intros [] Em El Ec Es. split; rewrite ?Em, ?El, ?Ec, ?Es; done. Qed.

Lemma deliver s n : sys_inv s -> legal (Deliver n) s -> outcome LengthError (step (Deliver n) s) sys_inv.
Proof.
  intros (Hm & (ps & st & [Hw Hok Hb Ha Hd Hl]) & (rps & Hr)) Hn. cbn [step]. unfold Demux.onServerMessage.
  destruct (deliver_packets Demux.server_packet (enc <$> ps) n (fwd s) (fbuf s) (demux s))
    as [->|(b1 & l1 & l2 & -> & Es & Hloop)]; [done..|apply Forall_fmap; eapply Forall_impl; [done|apply enc_ok]|done|by right|].
  apply fmap_app_inv in Es as (ps1 & ps2 & -> & -> & ->). apply Forall_app in Hok as [Hok1 Hok2].
  rewrite announces_app in Ha. destruct (announces st ps1) as [st1|] eqn:E1; [|done]. cbn in Ha.
  assert (Hl' : forall i, i <> 0 -> ledger st (demux s) (bytes i (sent s)) (bytes i (got s)) (data_of i ps1 ++ data_of i ps2) i)
    by (intros; rewrite <- data_of_app; auto).
  destruct (demux_packets ps1 st st1 (demux s) _ _ _ Hd Hok1 E1 Hl') as [([d' es] & E & Hd' & Hl1)|E];
    rewrite E in Hloop; cbn [mbind res_bind]; [|rewrite Hloop; by right].
  destruct Hloop as (b' & -> & Hib & Hcb). cbn [mbind res_bind]. apply outcome_Ok.
  rewrite (demux_packets_quiet _ _ _ _ E), app_nil_r. split; [by apply (mux_same s)|]. split.
  - exists ps2, st1. split; cbn; try done. intros i Hi0. rewrite bytes_app. auto.
  - exists rps. by apply (backward_same s).
Qed.

(** A connection is up and has been given what was waiting for it. *)
Lemma socks_ready s id c e p log :
  sys_inv s -> Demux.socksConns_ (demux s) !! id = Some e -> Demux.connection e = None ->
  inv p -> content p = [] -> bytes id log = content (Demux.pending e) -> (forall i, i <> id -> bytes i log = []) ->
  sys_inv (mkSys (mux s) (Demux.mkDemux (Demux.serverConn_ (demux s))
      (<[id := Demux.mkEntry (Some c) p]> (Demux.socksConns_ (demux s)))) (fwd s) (fbuf s) (bwd s) (bbuf s)
    (live s) (clients s) (served s) (sent s) (got s ++ log) (rsent s) (rgot s)).
Proof.
  intros (Hm & (ps & st & [Hw Hok Hb Ha [Hs Ho He] Hl]) & (rps & Hr)) Ee Ec Hip Hcp Hlog Hother.
  split; [by apply (mux_same s)|]. split; [|exists rps; by apply (backward_same s)].
  destruct (He _ _ Ee) as (Hid0 & Hu & _). exists ps, st. split; cbn; try done.
  - split; cbn; [done| |].
    + intros i Hin. destruct (decide (i = id)) as [->|]; [by rewrite lookup_insert_eq|].
      rewrite lookup_insert_ne by done. by apply Ho.
    + intros i e' [[<- <-]|[? E]]%lookup_insert_Some; [done|by apply He].
  - intros i Hi0. specialize (Hl i Hi0). unfold ledger in *. cbn. rewrite bytes_app.
    destruct (decide (i = id)) as [->|Hne].
    + rewrite lookup_insert_eq, Hlog. rewrite Ee in Hl. destruct Hl as [-> Hgot]. cbn.
      by rewrite Hgot, Hcp.
    + rewrite lookup_insert_ne, Hother, app_nil_r by done. done.
Qed.

Lemma socks_up s id c : sys_inv s -> legal (SocksUp id c) s -> outcome LengthError (step (SocksUp id c) s) sys_inv.
Proof.
  intros Hinv Hleg. cbn [step legal] in *.
  unfold Demux.onSocksUp. destruct (Demux.socksConns_ (demux s) !! id) as [e|] eqn:Ee; [|done].
  assert (Hi : inv (Demux.pending e)).
  { destruct Hinv as (_ & (ps & st & [_ _ _ _ [_ _ He] _]) & _). by destruct (He _ _ Ee) as (_ & _ & ? & _). }
  pose proof (zlen_content _ Hi) as Hz. rewrite readableBytes_content by done.
  destruct (0 <? zlen _) eqn:E0.
  - unfold peek. rewrite read_range_ok by (buffer_unfold; lia).
    cbn [mbind res_bind]. apply outcome_Ok. rewrite app_nil_r. destruct (retrieveAll_spec _ Hi).
    apply (socks_ready s id c e); try done; [|intros; by apply bytes_other].
    etransitivity; [apply bytes_one|]. rewrite Hz. unfold content. f_equal. lia.
  - cbn [mbind res_bind]. apply outcome_Ok. rewrite app_nil_r.
    assert (Hz0 : content (Demux.pending e) = []) by (apply zlen_zero_inv; pose proof (zlen_nonneg (content (Demux.pending e))); lia).
    by apply (socks_ready s id c e).
Qed.

Lemma announces_mono st st' ps : announces st ps = Some st' -> st.2 ⊆ st'.2.
Proof.
  revert st. induction ps as [|p ps IH]; intros st E; cbn in E; [by injection E as ->|].
  destruct (announce st p) as [st1|] eqn:E1; [|done]. cbn in E. apply IH in E. etransitivity; [|exact E].
  destruct p; cbn in E1; case_decide; simplify_eq; set_solver.
Qed.

(** DemuxServer has entries only for numbers that MultiplexServer handed out. *)
Lemma entry_served s id e :
  sys_inv s -> Demux.socksConns_ (demux s) !! id = Some e -> id ∈ served s /\ 1 <= id <= kMaxConns.
Proof.
  intros (Hm & (ps & st & [_ _ _ Ha [_ _ He] _]) & _) Ee. destruct (He _ _ Ee) as (_ & Hu & _).
  apply announces_mono in Ha. cbn in Ha. assert (id ∈ served s) by set_solver. split; [done|]. by apply (mux_served s).
Qed.

(** Packets of DemuxServer appended to the stream. *)
Lemma backward_more s s' ps ps' :
  backward_inv s ps -> mux_inv s -> Forall packet_ok ps' ->
  mux s' = mux s -> bbuf s' = bbuf s -> rgot s' = rgot s -> served s' = served s -> live s' = live s ->
  bwd s' = bwd s ++ wires ps' ->
  (forall i, i <> 0 -> bytes i (rsent s') = bytes i (rsent s) ++ bytes i ps') ->
  (forall i, i <> 0 -> i ∉ served s -> bytes i ps' = []) ->
  backward_inv s' (ps ++ ps').
Proof.
  intros [Hw Hok Hb Hl Hp Hn Hf] Hm Hok' Em Ebb Eg Ese El Ebw Hrs Hfr.
  assert (Hnz : forall c id, Mux.context (mux s) !! c = Some id -> id <> 0)
    by (intros c id E; apply (mux_context s Hm) in E; lia).
  split; rewrite ?Em, ?Ebb, ?Eg, ?Ese, ?El, ?Ebw; try done.
  - by rewrite app_assoc, Hw, wires_app.
  - by apply Forall_app.
  - intros c id E Hli. rewrite Hrs, bytes_app, (Hl c id E Hli) by eauto. by rewrite app_assoc.
  - intros c id E. rewrite Hrs by eauto. by apply prefix_app_r, Hp.
  - intros id Hid0 Hid. rewrite Hrs, bytes_app by done. destruct (Hf id Hid0 Hid) as [-> ->]. by rewrite Hfr.
Qed.

Lemma forward_same s s' ps st :
  forward_inv s ps st -> mux s' = mux s -> demux s' = demux s -> fwd s' = fwd s -> fbuf s' = fbuf s ->
  served s' = served s -> sent s' = sent s -> got s' = got s -> forward_inv s' ps st.
Proof. intros [] Em Ed Ef Eb Es Et Eg. split; rewrite ?Em, ?Ed, ?Ef, ?Eb, ?Es, ?Et, ?Eg; done. Qed.

Lemma socks_data s id b : sys_inv s -> legal (SocksData id b) s -> outcome LengthError (step (SocksData id b) s) sys_inv.
Proof.
  intros Hinv Hleg. cbn [step legal] in *. unfold Demux.onSocksMessage.
  destruct (Demux.socksConns_ (demux s) !! id) as [e|] eqn:Ee; [|done]. destruct Hleg as (_ & Hi & Hrd).
  destruct (entry_served s id e Hinv Ee) as [Hse Hid]. destruct Hinv as (Hm & (ps & st & Hf) & (rps & Hr)).
  rewrite bool_decide_true by apply Hf.
  destruct (send_buffer_ok (enough b) id b (content b) Hi eq_refl Hrd) as (ds & b' & -> & [Hcc Hds] & _).
  { unfold enough. rewrite readableBytes_content by done. unfold zlen. lia. }
  cbn [mbind res_bind]. rewrite server_bytes_to. apply outcome_Ok.
  split; [by apply (mux_same s)|]. split; [exists ps, st; by apply (forward_same s)|].
  assert (Hby : forall i, bytes i ((fun x => (id, x)) <$> ds) = bytes i [(id, content b)]).
  { intros i. destruct (decide (id = i)) as [->|Hne]; [by rewrite bytes_chunks, bytes_one|].
    by rewrite bytes_chunks_other, bytes_other. }
  exists (rps ++ ((fun x => (id, x)) <$> ds)). apply (backward_more s); cbn; try done.
  - apply Forall_fmap. eapply Forall_impl; [exact Hds|]. intros x Hx. split; cbn; [|done]. unfold kMaxConns in Hid. lia.
  - intros i _. by rewrite bytes_app, Hby.
  - intros i _ Hi'. rewrite Hby. apply bytes_other. by intros ->.
Qed.

Lemma socks_down s id : sys_inv s -> legal (SocksDown id) s -> outcome LengthError (step (SocksDown id) s) sys_inv.
Proof.
  intros Hinv Hleg. cbn [step legal] in *. unfold Demux.onSocksDown.
  destruct (Demux.socksConns_ (demux s) !! id) as [e|] eqn:Ee; [|done].
  destruct (entry_served s id e Hinv Ee) as [Hse Hid]. destruct Hinv as (Hm & (ps & st & Hf) & (rps & Hr)).
  destruct (demux_server _ _ (forward_demux _ _ _ Hf)) as [sc ->].
  set (msg := snprintf256 _).
  assert (Hz : 1 <= zlen msg <= 255).
  { unfold kMaxConns in Hid. pose proof (zlen_dec id 2 ltac:(lia) ltac:(lia)). pose proof (zlen_nonneg (dec id)).
    unfold msg, snprintf256. rewrite take_ge.
    - rewrite !zlen_app. change (zlen (lit "DISCONNECT ")) with 11. change (zlen kCRLF) with 2. lia.
    - rewrite !length_app. unfold zlen in *. change (length (lit "DISCONNECT ")) with 11%nat.
      change (length kCRLF) with 2%nat. lia. }
  clearbody msg.
  destruct (send_fresh 0 msg ltac:(lia)) as (b0 & b1 & b2 & -> & E1 & E2). cbn [mbind res_bind].
  rewrite E1. cbn [mbind res_bind]. rewrite E2. cbn [mbind res_bind]. rewrite server_bytes_to. apply outcome_Ok.
  split; [by apply (mux_same s)|]. split; [exists ps, st; by apply (forward_same s)|].
  exists (rps ++ [(0, msg)]). apply (backward_more s); cbn; try done.
  - apply Forall_singleton. split; cbn [fst snd]; lia.
  - by rewrite wires_one.
  - intros i Hi0. by rewrite bytes_other, app_nil_r by congruence.
  - intros i Hi0 _. by apply bytes_other.
Qed.

(** ** Back to the clients *)

Lemma client_log_app es1 es2 : client_log (es1 ++ es2) = client_log es1 ++ client_log es2.
Proof. apply omap_app. Qed.

(** What a client gets of the packets [ps]. *)
Definition share (s : Sys) (ps : list (Z * list char)) (c : Z) : list char :=
  match Mux.context (mux s) !! c with
  | Some id => if decide (c ∈ live s) then bytes id ps else []
  | None => []
  end.

Lemma share_cons s p ps c : share s (p :: ps) c = share s [p] c ++ share s ps c.
Proof. unfold share. repeat case_match; try done. apply bytes_cons. Qed.

Lemma mux_packet id d s :
  mux_inv s -> exists es, Mux.client_packet id d (mux s) = Ok (mux s, es) /\ backend_bytes es = [] /\
    forall c, bytes c (client_log es) = share s [(id, d)] c.
Proof.
  intros Hm. unfold Mux.client_packet, Mux.mux_doCommand, share. destruct (id =? 0) eqn:E; cbn [negb].
  - assert (H0 : forall c, match Mux.context (mux s) !! c with
      | Some k => if decide (c ∈ live s) then bytes k [(id, d)] else [] | None => [] end = []).
    { intros c. repeat case_match; try done. apply bytes_other.
      match goal with H : Mux.context _ !! _ = Some _ |- _ => apply (mux_context s Hm) in H end. lia. }
    eexists. split; [done|]. split; [by repeat case_match|]. intros c. rewrite H0. by repeat case_match.
  - destruct (Mux.clientConns_ (mux s) !! id) as [c'|] eqn:Ec.
    + eexists. split; [done|]. split; [done|]. intros c. pose proof Ec as [Ec' Hl]%(mux_clients s Hm).
      destruct (decide (c = c')) as [->|Hne].
      * rewrite Ec', decide_True by done. by rewrite bytes_one; apply bytes_one.
      * etransitivity; [by apply bytes_other|]. repeat case_match; try done. symmetry. apply bytes_other. intros <-.
        apply Hne. by apply (mux_context_inj s Hm _ _ id).
    + eexists. split; [done|]. split; [done|]. intros c. repeat case_match; try done. symmetry. apply bytes_other.
      intros <-. assert (Mux.clientConns_ (mux s) !! id = Some c) by (by apply (mux_clients s Hm)). congruence.
Qed.

(** Each client is given exactly the data packets with its number. *)
Lemma mux_packets s ps :
  mux_inv s -> exists es, run_packets Mux.client_packet ps (mux s) = Ok (mux s, es) /\ backend_bytes es = [] /\
    forall c, bytes c (client_log es) = share s ps c.
Proof.
  intros Hm. induction ps as [|[id d] ps (es2 & E2 & Hb2 & Hc2)]; cbn [run_packets].
  - eexists. split; [done|]. split; [done|]. intros c. unfold share. by repeat case_match.
  - destruct (mux_packet id d s Hm) as (es1 & E1 & Hb1 & Hc1). cbn [fst snd]. rewrite E1. cbn [mbind res_bind].
    rewrite E2. cbn [mbind res_bind]. eexists. split; [done|]. split.
    { unfold backend_bytes in *. by rewrite omap_app, concat_app, Hb1, Hb2. }
    intros c. by rewrite client_log_app, bytes_app, Hc1, Hc2, (share_cons s (id, d) ps).
Qed.

Lemma deliver_back s n : sys_inv s -> legal (DeliverBack n) s -> outcome LengthError (step (DeliverBack n) s) sys_inv.
Proof.
  intros (Hm & (ps & st & Hf) & (rps & [Hw Hok Hb Hl Hp Hn Hfr])) Hle. cbn [step]. unfold Mux.sendToClient.
  destruct (deliver_packets Mux.client_packet rps n (bwd s) (bbuf s) (mux s))
    as [->|(b1 & ps1 & ps2 & -> & -> & Hloop)]; [done..|by right|].
  apply Forall_app in Hok as [Hok1 Hok2]. destruct (mux_packets s ps1 Hm) as (es & E & Hbb & Hcl). rewrite E in Hloop.
  cbn [mbind res_bind].
  destruct Hloop as (b' & -> & Hib & Hcb). cbn [mbind res_bind]. rewrite Hbb, app_nil_r. apply outcome_Ok.
  split; [by apply (mux_same s)|]. split; [exists ps, st; by apply (forward_same s)|].
  exists ps2. split; cbn; try done.
  - intros c id Ec Hli. rewrite bytes_app, Hcl, (Hl c id Ec Hli), bytes_app. unfold share.
    rewrite Ec, decide_True by done. by rewrite app_assoc.
  - intros c id Ec. rewrite bytes_app, Hcl. unfold share. rewrite Ec. case_decide; [|rewrite app_nil_r; by apply Hp].
    rewrite (Hl c id Ec), bytes_app, app_assoc by done. by apply prefix_app_r.
  - intros c Ec. rewrite bytes_app, Hcl, Hn by done. unfold share. by rewrite Ec.
  - intros id Hid0 Hid. destruct (Hfr id Hid0 Hid) as [Hrs Hby]. rewrite bytes_app in Hby.
    by apply app_nil in Hby as [_ ?].
Qed.

Lemma sys_step_inv e s : sys_inv s -> legal e s -> outcome LengthError (step e s) sys_inv.
Proof.
  destruct e; [apply client_up|apply client_data|apply client_down|apply deliver|apply socks_up
    |apply socks_data|apply socks_down|apply deliver_back].
Qed.

Lemma sys_run_inv es s : sys_inv s -> legal_run es s -> outcome LengthError (run es s) sys_inv.
Proof.
  revert s. induction es as [|e es IH]; intros s Hs Hl; cbn [run]; [by apply outcome_Ok|].
  destruct Hl as [Hl Hes]. destruct (sys_step_inv e s Hs Hl) as [(s' & E & Hs')|E]; rewrite E in *; [by apply IH|by right].
Qed.

Lemma started_inv b s : inv b -> content b = [] -> started b = Ok s -> sys_inv s.
Proof.
  intros Hi Hc E. unfold started, Mux.onBackendUp in E. rewrite check_true in E by done. cbn [mbind res_bind] in E.
  injection E as <-. split; [|split].
  - split; cbn; try set_solver. repeat (apply Forall_cons; split; [unfold kMaxConns; lia|]). constructor.
  - exists [], (∅, ∅). split; cbn; try done. by rewrite Hc.
  - exists []. split; cbn; try done. by rewrite Hc.
Qed.

Lemma delivered_forward s id e c :
  sys_inv s -> fwd s = [] -> content (fbuf s) = [] ->
  Demux.socksConns_ (demux s) !! id = Some e -> Demux.connection e = Some c -> bytes id (got s) = bytes id (sent s).
Proof.
  intros (_ & (ps & st & [Hw _ _ _ [_ _ He] Hl]) & _) Hf Hc Ee Ec. rewrite Hf, Hc in Hw.
  symmetry in Hw. apply wires_nil, fmap_nil_inv in Hw as ->. destruct (He _ _ Ee) as (Hid0 & _ & _ & Hco).
  rewrite Ec in Hco. specialize (Hl id Hid0). unfold ledger in Hl. rewrite Ee, Hco in Hl. destruct Hl as [-> _].
  cbn. by rewrite app_nil_r.
Qed.

Lemma forward_prefix s id : sys_inv s -> id <> 0 -> bytes id (got s) `prefix_of` bytes id (sent s).
Proof.
  intros (_ & (ps & st & [_ _ _ _ _ Hl]) & _) Hid. specialize (Hl id Hid). unfold ledger in Hl.
  destruct (_ !! id) as [e|]; [destruct Hl as [-> _]; by apply prefix_app_r|]. destruct Hl as [-> _]. apply prefix_nil.
Qed.

(** [C10] The multiplexer carries bytes faithfully in both directions.  For every sequence of
    clients coming, speaking and going, of deliveries that cut the backend connection's bytes
    anywhere, and of connections of DemuxServer coming up, speaking and going, as long as no
    client number is handed out twice: no assertion of either server fails; what the
    connection opened for a number is given is a prefix of what the client with that number
    sent, and all of it once nothing is on the way; what a client is given is a prefix of what
    the connection with its number sent, and all of it once nothing is on the way and the
    client is still there. *)
Theorem multiplexer_correct b s0 es :
  inv b -> content b = [] -> started b = Ok s0 -> legal_run es s0 ->
  outcome LengthError (run es s0) (fun s =>
    (forall id, id <> 0 -> bytes id (got s) `prefix_of` bytes id (sent s)) /\
    (forall id e c, fwd s = [] -> content (fbuf s) = [] -> Demux.socksConns_ (demux s) !! id = Some e ->
       Demux.connection e = Some c -> bytes id (got s) = bytes id (sent s)) /\
    (forall c id, Mux.context (mux s) !! c = Some id -> bytes c (rgot s) `prefix_of` bytes id (rsent s)) /\
    (forall c id, bwd s = [] -> content (bbuf s) = [] -> Mux.context (mux s) !! c = Some id -> c ∈ live s ->
       bytes c (rgot s) = bytes id (rsent s))).
Proof.
  intros Hi Hc Hs Hl. eapply outcome_impl; [by apply sys_run_inv, Hl; eapply started_inv|].
  intros s Hinv. split_and!.
  - intros id Hid. by apply forward_prefix.
  - intros id e c. by apply delivered_forward.
  - destruct Hinv as (_ & _ & (ps & Hr)). apply Hr.
  - intros c id Hb Hcb Hcx Hli. destruct Hinv as (_ & _ & (ps & [Hw _ _ Hlv _ _ _])). rewrite Hb, Hcb in Hw.
    symmetry in Hw. apply wires_nil in Hw as ->. rewrite (Hlv c id Hcx Hli). by rewrite app_nil_r.
Qed.

(** ** Examples *)

Definition empty_buffer : Buffer := mkBuffer (replicate 1032 (chr 0)) 8 8.
Definition text_buffer (s : string) : Buffer := mkBuffer (replicate 8 (chr 0) ++ lit s) 8 (8 + zlen (lit s)).
Definition peer1 : list char := lit "127.0.0.1:5000".

Definition talk : list event :=
  [ClientUp 100 peer1; ClientData 100 (text_buffer "hello"); Deliver 7; Deliver 1000; SocksUp 1 200;
   SocksData 1 (text_buffer "hi"); DeliverBack 4; DeliverBack 10; ClientDown 100 peer1].

Lemma multiplexer_correct_witness :
  exists s0 s, started empty_buffer = Ok s0 /\ run talk s0 = Ok s /\ bytes 1 (got s) = lit "hello" /\
    bytes 1 (got s) `prefix_of` bytes 1 (sent s).
Proof.
  eexists. pose proof (fun Hi Hc Hl => multiplexer_correct empty_buffer _ talk Hi Hc eq_refl Hl) as H.
  destruct H as [(s & E & Hp & _)|E].
  - apply (bool_decide_unpack _). vm_compute. exact I.
  - reflexivity.
  - apply (bool_decide_unpack _). vm_compute. exact I.
  - exists s. split; [reflexivity|]. split; [exact E|]. split; [|apply Hp; lia].
    vm_compute in E. injection E as <-. vm_compute. reflexivity.
  - vm_compute in E. discriminate.
Defined.

(** ** Where the servers go wrong *)

(** An entry of DemuxServer outlives its client: a second client with the number makes the
    assertion of doCommand fail. *)
Lemma number_reuse_asserts s id peer e :
  1 <= id <= kMaxConns -> peer_ok peer -> Demux.socksConns_ s !! id = Some e ->
  Demux.server_packet 0 (Mux.conn_message id peer " IS UP") s = Fault AssertFailure.
Proof.
  intros Hid Hp Ee. rewrite (demux_command s id peer " IS UP" true);
    [|done..|cbn; lia|apply bool_decide_true; by apply message_up]. by rewrite Ee.
Qed.

Definition visit (c : Z) : list event :=
  [ClientUp c peer1; Deliver 1000; SocksUp c (c + 100); ClientDown c peer1; Deliver 1000].

(** Eleven clients, one after the other, bring DemuxServer down. *)
Example eleven_visits :
  (s ← started empty_buffer; run (concat (visit <$> seqZ 1 10) ++ [ClientUp 11 peer1; Deliver 1000]) s) =
  Fault AssertFailure.
Proof. vm_compute. reflexivity. Qed.

(** A client that leaves before the connection for it is up loses what it said. *)
Example early_leaver :
  exists s, (s ← started empty_buffer;
    run [ClientUp 1 peer1; ClientData 1 (text_buffer "bye"); ClientDown 1 peer1; Deliver 1000] s) = Ok s /\
  bytes 1 (sent s) = lit "bye" /\ fwd s = [] /\ got s = [] /\ Demux.socksConns_ (demux s) !! 1 = None.
Proof. eexists. split; [vm_compute; reflexivity|]. vm_compute. done. Qed.

(** The input buffer of a client while the backend is down: each message is left in it with
    one more header in front, for which there is room twice. *)
Definition stale : Mux.MultiplexServer := Mux.mkMux false ∅ [] {[1 := 1]}.
Definition say (b : res Buffer) : res Buffer :=
  b ← b; b ← append (lit "x") b; '(_, b) ← Mux.onClientMessage 10 1 b stale; Ok b.

Example backend_down_third_message :
  (exists b, say (say (Ok empty_buffer)) = Ok b /\ zlen (content b) = 8) /\
  say (say (say (Ok empty_buffer))) = Fault AssertFailure.
Proof. split; [eexists; split; vm_compute; reflexivity|vm_compute; reflexivity]. Qed.

(** A client that was shut down with the old backend connection and closes only after the new
    one is up takes the entry of the client that has its number now. *)
Example late_close :
  (m ← Mux.onBackendUp (Mux.mkMux false ∅ [] ∅);
   '(m, _) ← Mux.onClientUp 1 peer1 m;
   let '(m, _) := Mux.onBackendDown m in
   m ← Mux.onBackendUp m;
   '(m, _) ← Mux.onClientUp 2 peer1 m;
   '(m, _) ← Mux.onClientDown 1 peer1 m;
   Ok (Mux.context m !! 2, Mux.clientConns_ m !! 1, Mux.availIds_ m)) =
  Ok (Some 1, None, seqZ 2 9 ++ [1]).
Proof. vm_compute. reflexivity. Qed.
