(* ===== verification/FastCgi.v ===== *)
(** * The FastCGI codec (src/fastcgi)

    FastCgiCodec (fastcgi.h, fastcgi.cc) cuts the bytes of a web server's connection into
    records, collects the parameters and the body of a request and calls the application;
    [respond] makes the records of an answer.

    The callback's call and the shutdown of the connection are effects.  Loops over a buffer
    have fuel; each round takes bytes away, so more than the bytes buffered is enough. *)
From S2P Require Import Prelude Endian Buffer BufferTheory.

Definition kRecordHeader : Z := 8.

Definition kFcgiBeginRequest : Z := 1.
Definition kFcgiEndRequest : Z := 3.
Definition kFcgiParams : Z := 4.
Definition kFcgiStdin : Z := 5.
Definition kFcgiStdout : Z := 6.
Definition kFcgiResponder : Z := 1.
Definition kFcgiKeepConn : Z := 1.

Record RecordHeader := mkHeader { version : Z; type : Z; id : Z; length_ : Z; padding : Z; unused : Z }.

Abbreviation ParamMap := (gmap (list char) (list char)).

Record FastCgiCodec := mkCodec {
  gotRequest_ : bool;
  keepConn_ : bool;
  stdin_ : Buffer;
  paramsStream_ : Buffer;
  params_ : ParamMap }.

Inductive effect :=
| Callback (params : ParamMap) (stdin : list char)
| Shutdown.

Section Codec.
Context `{Host}.

Definition newFastCgiCodec : res FastCgiCodec :=
  i ← newBuffer kInitialSize; p ← newBuffer kInitialSize; Ok (mkCodec false false i p ∅).

(** The header as it lies in memory, and back ([memcpy]). *)
Definition header_memory (h : RecordHeader) : list char :=
  to_memory 1 (version h) ++ to_memory 1 (type h) ++ to_memory 2 (id h) ++ to_memory 2 (length_ h) ++
  to_memory 1 (padding h) ++ to_memory 1 (unused h).

Definition memory_header (m : list char) : RecordHeader :=
  mkHeader (from_memory (slice 0 1 m)) (from_memory (slice 1 2 m)) (from_memory (slice 2 4 m))
    (from_memory (slice 4 6 m)) (from_memory (slice 6 7 m)) (from_memory (slice 7 8 m)).

(** The result -1 is [None]. *)
Definition readLen (p : Buffer) : res (option Z * Buffer) :=
  if 1 <=? readableBytes p then
    byte ← peekInt8 p;
    if negb (Z.land (uint 8 byte) 128 =? 0) then
      if 4 <=? readableBytes p then
        '(x, p) ← readInt32 p; Ok (Some (uint 32 (Z.land x 2147483647)), p)
      else Ok (None, p)
    else '(x, p) ← readInt8 p; Ok (Some (uint 32 x), p)
  else Ok (None, p).

Fixpoint parseAllParams (fuel : nat) (p : Buffer) (params : ParamMap) : res (bool * Buffer * ParamMap) :=
  match fuel with
  | O => Fault OutOfFuel
  | S fuel =>
      if 0 <? readableBytes p then
        '(nameLen, p) ← readLen p;
        match nameLen with
        | None => Ok (false, p, params)
        | Some nameLen =>
            '(valueLen, p) ← readLen p;
            match valueLen with
            | None => Ok (false, p, params)
            | Some valueLen =>
                if uint 32 (nameLen + valueLen) <=? readableBytes p then
                  '(name, p) ← retrieveAsString nameLen p;
                  '(value, p) ← retrieveAsString valueLen p;
                  parseAllParams fuel p (<[name := value]> params)
                else Ok (false, p, params)
            end
        end
      else Ok (true, p, params)
  end.

Definition onParams (content : list char) (c : FastCgiCodec) : res (bool * FastCgiCodec) :=
  if 0 <? zlen content then
    p ← append content (paramsStream_ c);
    Ok (true, mkCodec (gotRequest_ c) (keepConn_ c) (stdin_ c) p (params_ c))
  else
    '(ok, p, params) ← parseAllParams (S (Z.to_nat (readableBytes (paramsStream_ c)))) (paramsStream_ c) (params_ c);
    Ok (ok, mkCodec (gotRequest_ c) (keepConn_ c) (stdin_ c) p params).

Definition onStdin (content : list char) (c : FastCgiCodec) : res FastCgiCodec :=
  if 0 <? zlen content then
    i ← append content (stdin_ c);
    Ok (mkCodec (gotRequest_ c) (keepConn_ c) i (paramsStream_ c) (params_ c))
  else Ok (mkCodec true (keepConn_ c) (stdin_ c) (paramsStream_ c) (params_ c)).

Definition onBeginRequest (h : RecordHeader) (b : Buffer) (c : FastCgiCodec) : res (bool * FastCgiCodec) :=
  _ ← check (length_ h <=? readableBytes b);
  _ ← check (type h =? kFcgiBeginRequest);
  if kRecordHeader <=? length_ h then
    be16 ← read_range (buffer_ b) (peek b + kRecordHeader) (peek b + kRecordHeader + 2);
    let role := networkToHost16 (from_memory be16) in
    flags ← read_range (buffer_ b) (peek b + kRecordHeader + 2) (peek b + kRecordHeader + 2 + 1);
    if role =? kFcgiResponder then
      Ok (true, mkCodec (gotRequest_ c) (from_memory flags =? kFcgiKeepConn) (stdin_ c) (paramsStream_ c) (params_ c))
    else Ok (false, c)
  else Ok (false, c).

Fixpoint parseRequest (fuel : nat) (b : Buffer) (c : FastCgiCodec) : res (FastCgiCodec * Buffer) :=
  match fuel with
  | O => Fault OutOfFuel
  | S fuel =>
      if kRecordHeader <=? readableBytes b then
        m ← read_range (buffer_ b) (peek b) (peek b + kRecordHeader);
        let h := memory_header m in
        let h := mkHeader (version h) (type h) (networkToHost16 (id h)) (networkToHost16 (length_ h)) (padding h) (unused h) in
        let total := kRecordHeader + length_ h + padding h in
        if total <=? readableBytes b then
          content ← read_range (buffer_ b) (peek b + kRecordHeader) (peek b + kRecordHeader + length_ h);
          c ← (if type h =? kFcgiBeginRequest then '(_, c) ← onBeginRequest h b c; Ok c
               else if type h =? kFcgiParams then '(_, c) ← onParams content c; Ok c
               else if type h =? kFcgiStdin then onStdin content c
               else Ok c);
          b ← retrieve total b;
          parseRequest fuel b c
        else Ok (c, b)
      else Ok (c, b)
  end.

Definition onMessage (b : Buffer) (c : FastCgiCodec) : res (FastCgiCodec * Buffer * list effect) :=
  '(c, b) ← parseRequest (S (Z.to_nat (readableBytes b))) b c;
  if gotRequest_ c then
    stdin ← read_range (buffer_ (stdin_ c)) (peek (stdin_ c)) (peek (stdin_ c) + readableBytes (stdin_ c));
    Ok (mkCodec false (keepConn_ c) (retrieveAll (stdin_ c)) (retrieveAll (paramsStream_ c)) ∅, b,
        Callback (params_ c) stdin :: (if keepConn_ c then [] else [Shutdown]))
  else Ok (c, b, []).

(** ** Answers *)

Definition endStdout (b : Buffer) : res Buffer :=
  append (header_memory (mkHeader 1 kFcgiStdout (hostToNetwork16 1) 0 0 0)) b.

Definition endRequest (b : Buffer) : res Buffer :=
  b ← append (header_memory (mkHeader 1 kFcgiEndRequest (hostToNetwork16 1) (hostToNetwork16 kRecordHeader) 0 0)) b;
  b ← appendInt32 0 b;
  appendInt32 0 b.

Definition respond (b : Buffer) : res Buffer :=
  b ← (if (readableBytes b <? 65536) && (kRecordHeader <=? prependableBytes b) then
         let pad := uint 8 (Z.land (size_t (- readableBytes b)) 7) in
         let h := mkHeader 1 kFcgiStdout (hostToNetwork16 1) (hostToNetwork16 (uint 16 (readableBytes b))) pad 0 in
         b ← prepend (header_memory h) b;
         append (take (Z.to_nat pad) (replicate 8 (chr 0))) b
       else Ok b);
  b ← endStdout b;
  endRequest b.
End Codec.
