(* ===== verification/FastCgiTheory.v ===== *)
(** * Requests and answers of the FastCGI codec

    A request's records, cut into reads anywhere, make one call of the application with the
    parameters and the body of the request; arbitrary bytes fail no assertion; an answer is
    the records FastCGI asks for. *)
From S2P Require Import Prelude Endian Buffer BufferTheory FastCgi.

(** ** Records on the wire *)

Record rec := mkRec { rversion : Z; rtype : Z; rid : Z; rcontent : list char; rpad : list char; runused : Z }.

Definition rec_ok (r : rec) : Prop :=
  0 <= rversion r < 256 /\ 0 <= rtype r < 256 /\ 0 <= rid r < 65536 /\ zlen (rcontent r) < 65536 /\
  zlen (rpad r) < 256 /\ 0 <= runused r < 256.

Definition rec_head (r : rec) : list char :=
  [chr (rversion r); chr (rtype r)] ++ be_bytes 2 (rid r) ++ be_bytes 2 (zlen (rcontent r)) ++
  [chr (zlen (rpad r)); chr (runused r)].
Definition rec_wire (r : rec) : list char := rec_head r ++ rcontent r ++ rpad r.
Definition recs_wire (rs : list rec) : list char := concat (rec_wire <$> rs).

(** The length the header of [t] announces for its record. *)
Definition announced (t : list char) : Z :=
  8 + of_be_bytes (slice 4 6 t) + ord (nth 6 t (chr 0)).

(** Not a whole record. *)
Definition no_record (t : list char) : Prop := zlen t < 8 \/ zlen t < announced t.

Lemma be_bytes_2 z : be_bytes 2 z = [chr (z / 256 mod 256); chr (z mod 256)].
Proof. done. Qed.

Lemma zlen_rec_head r : zlen (rec_head r) = 8.
Proof. done. Qed.

Lemma announced_app x y : 8 <= zlen x -> announced (x ++ y) = announced x.
Proof.
  intros Hx. unfold announced. rewrite slice_app_l by lia. rewrite app_nth1 by (unfold zlen in Hx; lia). done.
Qed.

Lemma announced_rec r y : rec_ok r -> announced (rec_wire r ++ y) = zlen (rec_wire r).
Proof.
  intros (_ & _ & _ & Hc & Hp & _). unfold rec_wire. rewrite <- app_assoc, announced_app by (by rewrite zlen_rec_head).
  rewrite !zlen_app, zlen_rec_head. unfold announced.
  change (slice 4 6 (rec_head r)) with (be_bytes 2 (zlen (rcontent r))).
  rewrite of_be_be_bytes, uint_small by (pose proof (zlen_nonneg (rcontent r)); cbn; lia).
  change (nth 6 (rec_head r) (chr 0)) with (chr (zlen (rpad r))).
  rewrite ord_chr by (pose proof (zlen_nonneg (rpad r)); lia). lia.
Qed.

Lemma no_record_prefix x y : no_record (x ++ y) -> no_record x.
Proof.
  unfold no_record. rewrite zlen_app. pose proof (zlen_nonneg y).
  destruct (decide (zlen x < 8)); [tauto|]. rewrite announced_app by lia. lia.
Qed.

Lemma no_record_frame r x y : rec_ok r -> x ++ y = rec_wire r -> y <> [] -> no_record x.
Proof.
  intros Hr E Hy. unfold no_record. destruct (decide (zlen x < 8)); [tauto|right].
  rewrite <- (announced_app x y) by lia.
  assert (Ha : announced (x ++ y) = zlen (x ++ y)) by (rewrite E, <- (app_nil_r (rec_wire r)) at 1; rewrite announced_rec, E by done; done).
  rewrite Ha, zlen_app. destruct y; [done|]. rewrite zlen_cons. pose proof (zlen_nonneg y). lia.
Qed.

(** The record at the start of some bytes. *)
Lemma first_record c :
  8 <= zlen c -> announced c <= zlen c -> exists r rest, rec_ok r /\ c = rec_wire r ++ rest.
Proof.
  intros H8 Ha. do 8 (destruct c as [|? c]; [by rewrite ?zlen_cons, zlen_nil in H8|]).
  rename a into c0, a0 into c1, a1 into c2, a2 into c3, a3 into c4, a4 into c5, a5 into c6, a6 into c7.
  remember (of_be_bytes [c4; c5]) as L eqn:EL. remember (ord c6) as P eqn:EP.
  assert (HL : 0 <= L < 65536) by (rewrite EL; apply (of_be_bytes_range [c4; c5])).
  assert (HP : 0 <= P < 256) by (rewrite EP; apply ord_range).
  assert (Hid : 0 <= of_be_bytes [c2; c3] < 65536) by (pose proof (of_be_bytes_range [c2; c3]); done).
  assert (Hlen : L + P <= zlen c).
  { rewrite !zlen_cons in Ha. unfold announced in Ha. cbn [nth] in Ha.
    change (slice 4 6 (c0 :: c1 :: c2 :: c3 :: c4 :: c5 :: c6 :: c7 :: c)) with [c4; c5] in Ha. lia. }
  set (r := mkRec (ord c0) (ord c1) (of_be_bytes [c2; c3]) (take (Z.to_nat L) c) (take (Z.to_nat P) (drop (Z.to_nat L) c)) (ord c7)).
  assert (HrL : zlen (rcontent r) = L) by (cbn; apply zlen_take; lia).
  assert (HrP : zlen (rpad r) = P) by (cbn; rewrite zlen_take; [done|rewrite zlen_drop; lia]).
  exists r, (drop (Z.to_nat P) (drop (Z.to_nat L) c)). split.
  - unfold rec_ok. rewrite HrL, HrP. pose proof (ord_range c0). pose proof (ord_range c1). pose proof (ord_range c7).
    cbn [r rversion rtype rid runused]. lia.
  - unfold rec_wire, rec_head. rewrite HrL, HrP. unfold r. clear - EL EP. subst L P. cbn [rversion rtype rid rcontent rpad runused].
    rewrite (be_bytes_of_be [c2; c3] : be_bytes 2 _ = _), (be_bytes_of_be [c4; c5] : be_bytes 2 _ = _), !chr_ord. cbn [app].
    by rewrite <- !app_assoc, !take_drop.
Qed.

Lemma no_record_dec t : {no_record t} + {8 <= zlen t /\ announced t <= zlen t}.
Proof.
  unfold no_record. destruct (Z_lt_ge_dec (zlen t) 8); [left; tauto|].
  destruct (Z_lt_ge_dec (zlen t) (announced t)); [left; tauto|right; lia].
Qed.

(** Any bytes are whole records and a rest. *)
Lemma split_records c : exists rs t, c = recs_wire rs ++ t /\ Forall rec_ok rs /\ no_record t.
Proof.
  induction c as [c IH] using (well_founded_induction (well_founded_ltof _ (@length char))).
  destruct (no_record_dec c) as [Hn|[H8 Ha]]; [by exists [], c|].
  destruct (first_record c H8 Ha) as (r & rest & Hr & ->).
  destruct (IH rest) as (rs & t & -> & Hrs & Ht).
  { unfold ltof. rewrite length_app. cbn. lia. }
  exists (r :: rs), t. split_and!; [|by constructor|done]. unfold recs_wire. cbn [fmap list_fmap concat]. by rewrite app_assoc.
Qed.

Section WithHost.
Context `{Host}.

(** ** The loop over the records *)

Lemma from_memory_1 c : from_memory [c] = ord c.
Proof. unfold from_memory, of_be_bytes. case_match; cbn; lia. Qed.

Lemma networkToHost16_be l : length l = 2%nat -> networkToHost16 (from_memory l) = of_be_bytes l.
Proof.
  intros Hl. unfold networkToHost16. pose proof (from_memory_range l) as Hr. unfold zlen in Hr. rewrite Hl in Hr.
  rewrite uint_small by exact Hr. rewrite <- Hl. apply betoh_from_memory.
Qed.

Lemma of_be_bytes_2 z : 0 <= z < 65536 -> of_be_bytes (be_bytes 2 z) = z.
Proof. intros Hz. rewrite of_be_be_bytes. by apply uint_small. Qed.

(** What the loop does with one record. *)
Definition handle (r : rec) (c : FastCgiCodec) : res FastCgiCodec :=
  if rtype r =? kFcgiBeginRequest then
    Ok (if (8 <=? zlen (rcontent r)) && (of_be_bytes (take 2 (rcontent r)) =? kFcgiResponder)
        then mkCodec (gotRequest_ c) (ord (nth 2 (rcontent r) (chr 0)) =? kFcgiKeepConn) (stdin_ c) (paramsStream_ c) (params_ c)
        else c)
  else if rtype r =? kFcgiParams then '(_, c) ← onParams (rcontent r) c; Ok c
  else if rtype r =? kFcgiStdin then onStdin (rcontent r) c
  else Ok c.

Fixpoint handles (rs : list rec) (c : FastCgiCodec) : res FastCgiCodec :=
  match rs with [] => Ok c | r :: rs => c ← handle r c; handles rs c end.

Lemma handles_app rs1 rs2 c : handles (rs1 ++ rs2) c = (c ← handles rs1 c; handles rs2 c).
Proof.
  revert c. induction rs1 as [|r rs1 IH]; intros c; [done|]. cbn [app handles].
  destruct (handle r c); [apply IH|done].
Qed.

(** Reading the part of the content between two offsets. *)
Lemma read_part i j x y z b :
  inv b -> content b = x ++ y ++ z -> i = peek b + zlen x -> j = i + zlen y -> read_range (buffer_ b) i j = Ok y.
Proof.
  intros Hi Hc -> ->. pose proof (zlen_content b Hi) as Hz. rewrite Hc, !zlen_app in Hz.
  pose proof (zlen_nonneg x). pose proof (zlen_nonneg y). pose proof (zlen_nonneg z). unfold peek.
  rewrite read_range_ok by (buffer_unfold; lia). f_equal.
  rewrite (slice_sub (readerIndex_ b) (writerIndex_ b)) by (buffer_unfold; lia). fold (content b). rewrite Hc.
  apply slice_mid_at; lia.
Qed.

(** The header as the loop decodes it. *)
Lemma decoded_header r :
  rec_ok r -> let h := memory_header (rec_head r) in
  type h = rtype r /\ networkToHost16 (length_ h) = zlen (rcontent r) /\ padding h = zlen (rpad r).
Proof.
  intros (Hv & Ht & Hi & Hc & Hp & Hu). pose proof (zlen_nonneg (rcontent r)). pose proof (zlen_nonneg (rpad r)).
  cbn [memory_header type length_ padding].
  change (slice 1 2 (rec_head r)) with [chr (rtype r)].
  change (slice 4 6 (rec_head r)) with (be_bytes 2 (zlen (rcontent r))).
  change (slice 6 7 (rec_head r)) with [chr (zlen (rpad r))].
  rewrite !from_memory_1, !ord_chr by lia. rewrite networkToHost16_be by done. by rewrite of_be_bytes_2 by lia.
Qed.

Lemma begin_record r rest b c (h : RecordHeader) :
  rec_ok r -> inv b -> content b = rec_wire r ++ rest ->
  type h = rtype r -> length_ h = zlen (rcontent r) -> rtype r = kFcgiBeginRequest ->
  ('(_, c) ← onBeginRequest h b c; Ok c) = handle r c.
Proof.
  intros Hr Hi Hc Ht Hl Hb. unfold onBeginRequest, handle. rewrite Hb, Ht, Hl, Hb.
  rewrite readableBytes_content, Hc by done. unfold rec_wire, kRecordHeader. rewrite !zlen_app.
  pose proof (zlen_nonneg (rpad r)). pose proof (zlen_nonneg rest). rewrite zlen_rec_head. run_checks.
  rewrite Z.eqb_refl. destruct (8 <=? zlen (rcontent r)) eqn:E8; [|done]. cbn [andb].
  destruct (rcontent r) as [|x0 [|x1 [|x2 d]]] eqn:Ed; [by rewrite ?zlen_cons, zlen_nil in E8..|].
  assert (Hc1 : content b = rec_head r ++ [x0; x1] ++ (x2 :: d ++ rpad r ++ rest))
    by (rewrite Hc; unfold rec_wire; by rewrite Ed, <- !app_assoc).
  assert (Hc2 : content b = (rec_head r ++ [x0; x1]) ++ [x2] ++ (d ++ rpad r ++ rest))
    by (rewrite Hc1, <- !app_assoc; done).
  rewrite (read_part (peek b + 8) (peek b + 8 + 2) _ _ _ b Hi Hc1) by (rewrite ?zlen_rec_head; unfold zlen; cbn [length]; lia).
  cbn [mbind res_bind].
  rewrite (read_part _ _ _ _ _ b Hi Hc2) by (rewrite ?zlen_app, ?zlen_rec_head; unfold zlen; cbn [length]; lia).
  cbn [mbind res_bind]. rewrite networkToHost16_be, from_memory_1 by done.
  change (take 2 (x0 :: x1 :: x2 :: d)) with [x0; x1]. cbn [nth]. by destruct (of_be_bytes [x0; x1] =? kFcgiResponder).
Qed.

Lemma parse_records fuel rs t b c :
  inv b -> content b = recs_wire rs ++ t -> Forall rec_ok rs -> no_record t -> (length rs < fuel)%nat ->
  match handles rs c with
  | Ok c' => exists b', parseRequest fuel b c = Ok (c', b') /\ inv b' /\ content b' = t
  | Fault f => parseRequest fuel b c = Fault f
  end.
Proof.
  revert rs b c. induction fuel as [|fuel IH]; intros rs b c Hi Hc Hrs Ht Hf; [lia|]. cbn [parseRequest].
  rewrite readableBytes_content by done. unfold kRecordHeader.
  destruct rs as [|r rs].
  - cbn in Hc. cbn [handles]. exists b. rewrite Hc. split; [|done]. unfold no_record in Ht.
    destruct (8 <=? zlen t) eqn:E8; [|done]. 
    assert (Hs : content b = [] ++ take 8 t ++ drop 8 t) by (by rewrite Hc; cbn; rewrite take_drop).
    assert (Hl8 : zlen (take 8 t) = 8) by (apply (zlen_take 8); lia).
    rewrite (read_part _ _ _ _ _ b Hi Hs) by (rewrite ?zlen_nil, ?Hl8; lia). cbn [mbind res_bind].
    cbn [memory_header length_ padding version type id unused].
    rewrite networkToHost16_be.
    2: { pose proof (zlen_slice 4 6 (take 8 t)). unfold zlen in *. lia. }
    replace (_ <=? zlen t) with false; [done|]. symmetry. apply Z.leb_gt.
    destruct Ht as [?|Ht]; [lia|]. unfold announced in Ht.
    rewrite <- (take_drop 8 t), slice_app_l in Ht by lia.
    assert (Hn : from_memory (slice 6 7 (take 8 t)) = ord (nth 6 t (chr 0))).
    { clear - Hl8. do 7 (destruct t as [|? t]; [done|]). cbn [nth]. apply from_memory_1. }
    rewrite Hn. rewrite take_drop in Ht. lia.
  - apply Forall_cons in Hrs as [Hr Hrs]. unfold recs_wire in Hc. cbn [fmap list_fmap concat] in Hc.
    fold (recs_wire rs) in Hc. rewrite <- app_assoc in Hc. set (rest := recs_wire rs ++ t) in *.
    assert (Hlen : zlen (content b) = 8 + zlen (rcontent r) + zlen (rpad r) + zlen rest)
      by (rewrite Hc; unfold rec_wire; rewrite !zlen_app, zlen_rec_head; lia).
    pose proof (zlen_nonneg rest). pose proof (zlen_nonneg (rcontent r)). pose proof (zlen_nonneg (rpad r)).
    replace (8 <=? zlen (content b)) with true by lia.
    assert (Hd1 : content b = [] ++ rec_head r ++ ((rcontent r ++ rpad r) ++ rest))
      by (rewrite Hc; unfold rec_wire; by rewrite <- app_assoc).
    assert (Hd2 : content b = rec_head r ++ rcontent r ++ (rpad r ++ rest)) by (rewrite Hd1; by rewrite <- app_assoc).
    rewrite (read_part _ _ _ _ _ b Hi Hd1) by (rewrite ?zlen_nil, ?zlen_rec_head; lia). cbn [mbind res_bind].
    destruct (decoded_header r Hr) as (Et & El & Ep). cbn [version type id length_ padding unused].
    rewrite El, Ep, Et.
    replace (8 + zlen (rcontent r) + zlen (rpad r) <=? zlen (content b)) with true by lia.
    rewrite (read_part _ _ _ _ _ b Hi Hd2) by (rewrite ?zlen_rec_head; lia). cbn [mbind res_bind].
    match goal with |- context [?m ≫= fun c => _ ≫= fun b => parseRequest _ _ _] => assert (Hm : m = handle r c) end.
    { destruct (rtype r =? kFcgiBeginRequest) eqn:E1; [|unfold handle; by rewrite E1].
      eapply begin_record; eauto. lia. }
    rewrite Hm. cbn [handles]. destruct (handle r c) as [c1|f]; [|done]. cbn [mbind res_bind].
    destruct (retrieve_spec (8 + zlen (rcontent r) + zlen (rpad r)) b Hi) as (b1 & -> & Hi1 & Hc1 & _); [lia|].
    cbn [mbind res_bind]. apply IH; [done| |done..|cbn in Hf; lia].
    rewrite Hc1, Hc. apply drop_app_length'. unfold rec_wire. rewrite !length_app. cbn. unfold zlen. lia.
Qed.

(** ** Parameters *)

(** Lengths and name-value pairs as FastCGI writes them. *)
Definition enc_len (n : Z) : list char := if n <? 128 then [chr n] else be_bytes 4 (n + 2 ^ 31).
Definition enc_pair (p : list char * list char) : list char :=
  enc_len (zlen p.1) ++ enc_len (zlen p.2) ++ p.1 ++ p.2.
Definition pair_ok (p : list char * list char) : Prop := zlen p.1 < 2 ^ 31 /\ zlen p.2 < 2 ^ 31.

Lemma byte_high n : 0 <= n < 256 -> (Z.land n 128 =? 0) = (n <? 128).
Proof.
  intros Hn. assert (Hall : forallb (fun n => Bool.eqb (Z.land n 128 =? 0) (n <? 128)) (seqZ 0 256) = true) by (vm_compute; done).
  rewrite forallb_forall in Hall. apply Bool.eqb_prop, Hall, list_elem_of_In, elem_of_seqZ. lia.
Qed.

Lemma peek_byte p c rest : inv p -> content p = c :: rest -> peekInt8 p = Ok (sint 8 (ord c)).
Proof.
  intros Hi Hc. etransitivity; [apply (peek_int_eq W8 [c] rest p Hi Hc); done|].
  unfold bits_of. cbn [bytes_of]. do 2 f_equal. unfold of_be_bytes. cbn. lia.
Qed.

Lemma uint_sint_byte c : uint 8 (sint 8 (ord c)) = ord c.
Proof. rewrite uint_sint by lia. apply uint_small. pose proof (ord_range c). cbn. lia. Qed.

Lemma low_byte c : ord c < 128 -> uint 32 (sint (bits_of W8) (of_be_bytes [c])) = ord c.
Proof.
  intros Hc. pose proof (ord_range c). replace (of_be_bytes [c]) with (ord c) by (unfold of_be_bytes; cbn; lia).
  change (bits_of W8) with 8. rewrite sint_small by (unfold in_sint; lia). apply uint_small. lia.
Qed.

(** [readLen] on arbitrary bytes. *)
Lemma readLen_any p :
  inv p -> exists o p', readLen p = Ok (o, p') /\ inv p' /\
    (length (content p') <= length (content p))%nat /\
    (forall n, o = Some n -> 0 <= n < 2 ^ 31 /\ (length (content p') < length (content p))%nat).
Proof.
  intros Hi. unfold readLen. rewrite readableBytes_content by done.
  destruct (1 <=? zlen (content p)) eqn:E1; [|by eexists None, p].
  destruct (content p) as [|c rest] eqn:Hc; [done|]. rewrite (peek_byte p c rest Hi Hc). cbn [mbind res_bind].
  rewrite uint_sint_byte, byte_high by apply ord_range. pose proof (ord_range c) as Hr.
  destruct (ord c <? 128) eqn:E128; cbn [negb].
  - destruct (read_int_spec W8 [c] rest p Hi Hc eq_refl) as (p' & E & Hi' & Hc'). cbn [read_int] in E.
    rewrite E. cbn [mbind res_bind]. eexists _, p'. split; [done|]. rewrite Hc'. split_and!; [done|cbn; lia|].
    intros n [= <-]. split; [|cbn; lia]. rewrite low_byte; lia.
  - destruct (4 <=? zlen (c :: rest)) eqn:E4; [|eexists None, p; rewrite Hc; split_and!; [done..|lia|done]].
    assert (Hc4 : content p = take 4 (c :: rest) ++ drop 4 (c :: rest)) by (by rewrite take_drop).
    destruct (read_int_spec W32 _ _ p Hi Hc4) as (p' & E & Hi' & Hc').
    { rewrite length_take. unfold zlen in E4. cbn [bytes_of]. lia. }
    cbn [read_int] in E. rewrite E. cbn [mbind res_bind]. eexists _, p'. split; [done|]. rewrite Hc', length_drop.
    unfold zlen in E4. split_and!; [done|lia|]. intros n [= <-]. split; [|lia].
    change 2147483647 with (Z.ones 31). rewrite Z.land_ones by lia.
    match goal with |- context [?x mod 2 ^ 31] => pose proof (Z.mod_pos_bound x (2 ^ 31)) end.
    rewrite uint_small; lia.
Qed.

Lemma readLen_enc n rest p :
  inv p -> 0 <= n < 2 ^ 31 -> content p = enc_len n ++ rest ->
  exists p', readLen p = Ok (Some n, p') /\ inv p' /\ content p' = rest.
Proof.
  intros Hi Hn Hc. unfold readLen. rewrite readableBytes_content by done. unfold enc_len in Hc.
  destruct (n <? 128) eqn:E128.
  - cbn [app] in Hc. rewrite (peek_byte p _ _ Hi Hc), Hc. replace (1 <=? zlen _) with true
      by (rewrite zlen_cons; pose proof (zlen_nonneg rest); lia). cbn [mbind res_bind].
    rewrite uint_sint_byte, ord_chr, byte_high, E128 by lia. cbn [negb].
    destruct (read_int_spec W8 [chr n] rest p Hi Hc eq_refl) as (p' & E & Hi' & Hc'). cbn [read_int] in E.
    rewrite E. cbn [mbind res_bind]. exists p'. split_and!; [|done..]. do 3 f_equal.
    rewrite low_byte; rewrite ord_chr; lia.
  - set (m := be_bytes 4 (n + 2 ^ 31)) in *.
    assert (Hm : m = chr ((n + 2 ^ 31) / 256 / 256 / 256 mod 256) :: drop 1 m) by done.
    rewrite Hm in Hc. cbn [app] in Hc. rewrite (peek_byte p _ _ Hi Hc).
    rewrite app_comm_cons, <- Hm in Hc. rewrite Hc, zlen_app. change (zlen m) with 4.
    pose proof (zlen_nonneg rest). replace (1 <=? 4 + zlen rest) with true by lia. cbn [mbind res_bind].
    assert (Hb : 128 <= (n + 2 ^ 31) / 256 / 256 / 256 mod 256 < 256) by (Z.to_euclidean_division_equations; lia).
    rewrite uint_sint_byte, ord_chr, byte_high by lia. replace (_ <? 128) with false by lia. cbn [negb].
    replace (4 <=? 4 + zlen rest) with true by lia.
    destruct (read_int_spec W32 m rest p Hi Hc eq_refl) as (p' & E & Hi' & Hc'). cbn [read_int] in E.
    rewrite E. cbn [mbind res_bind]. exists p'. split_and!; [|done..]. do 3 f_equal.
    unfold m. rewrite of_be_be_bytes. unfold bits_of. cbn [bytes_of].
    change (8 * Z.of_nat 4) with 32. rewrite sint_uint by lia.
    change 2147483647 with (Z.ones 31). rewrite Z.land_ones by lia.
    unfold sint. replace (n + 2 ^ 31 + 2 ^ (32 - 1)) with (n + 1 * 2 ^ 32) by lia.
    rewrite Z.mod_add, (Z.mod_small n) by lia. replace (n - 2 ^ (32 - 1)) with (n + (-1) * 2 ^ 31) by lia.
    rewrite Z.mod_add, Z.mod_small by lia. apply uint_small. lia.
Qed.

Lemma parseAllParams_any fuel p params :
  inv p -> (length (content p) < fuel)%nat ->
  exists ok p' params', parseAllParams fuel p params = Ok (ok, p', params') /\ inv p'.
Proof.
  revert p params. induction fuel as [|fuel IH]; intros p params Hi Hf; [lia|]. cbn [parseAllParams].
  destruct (0 <? readableBytes p); [|by eexists _, _, _].
  destruct (readLen_any p Hi) as (o1 & p1 & -> & Hi1 & Hl1 & Ho1). cbn [mbind res_bind].
  destruct o1 as [n1|]; [|by eexists _, _, _]. destruct (Ho1 n1 eq_refl) as [Hn1 Hs1].
  destruct (readLen_any p1 Hi1) as (o2 & p2 & -> & Hi2 & Hl2 & Ho2). cbn [mbind res_bind].
  destruct o2 as [n2|]; [|by eexists _, _, _]. destruct (Ho2 n2 eq_refl) as [Hn2 Hs2].
  rewrite (uint_small 32) by lia. rewrite readableBytes_content by done.
  destruct (n1 + n2 <=? zlen (content p2)) eqn:E; [|by eexists _, _, _].
  destruct (retrieveAsString_spec n1 p2 Hi2) as (p3 & -> & Hi3 & Hc3); [lia|]. cbn [mbind res_bind].
  destruct (retrieveAsString_spec n2 p3 Hi3) as (p4 & -> & Hi4 & Hc4); [rewrite Hc3, zlen_drop; lia|].
  cbn [mbind res_bind]. apply IH; [done|]. rewrite Hc4, Hc3, !length_drop. lia.
Qed.

Definition add_param (params : ParamMap) (p : list char * list char) : ParamMap := <[p.1 := p.2]> params.

Lemma parseAllParams_enc fuel ps p params :
  inv p -> Forall pair_ok ps -> content p = concat (enc_pair <$> ps) -> (length ps < fuel)%nat ->
  exists p', parseAllParams fuel p params = Ok (true, p', foldl add_param params ps) /\ inv p' /\ content p' = [].
Proof.
  revert ps p params. induction fuel as [|fuel IH]; intros ps p params Hi Hps Hc Hf; [lia|]. cbn [parseAllParams].
  rewrite readableBytes_content by done. destruct ps as [|[n v] ps]; [rewrite Hc; by exists p|].
  apply Forall_cons in Hps as [[Hn Hv] Hps]. cbn [fst snd] in *. cbn [fmap list_fmap concat] in Hc.
  unfold enc_pair at 1 in Hc. cbn [fst snd] in Hc. rewrite <- !app_assoc in Hc.
  pose proof (zlen_nonneg n). pose proof (zlen_nonneg v).
  replace (0 <? zlen (content p)) with true.
  2: { symmetry. apply Z.ltb_lt. rewrite Hc, zlen_app. match goal with |- context [zlen ?x + zlen ?y] => pose proof (zlen_nonneg y) end.
       unfold enc_len. destruct (zlen n <? 128); unfold zlen; [cbn; lia|]. rewrite length_be_bytes. lia. }
  destruct (readLen_enc (zlen n) _ p Hi ltac:(lia) Hc) as (p1 & -> & Hi1 & Hc1). cbn [mbind res_bind].
  destruct (readLen_enc (zlen v) _ p1 Hi1 ltac:(lia) Hc1) as (p2 & -> & Hi2 & Hc2). cbn [mbind res_bind].
  rewrite (uint_small 32) by lia. rewrite readableBytes_content by done.
  set (rest := concat (enc_pair <$> ps)) in *. pose proof (zlen_nonneg rest).
  assert (Hz : zlen (content p2) = zlen n + zlen v + zlen rest) by (rewrite Hc2, !zlen_app; lia).
  replace (zlen n + zlen v <=? zlen (content p2)) with true by lia.
  destruct (retrieveAsString_spec (zlen n) p2 Hi2) as (p3 & -> & Hi3 & Hc3); [lia|]. cbn [mbind res_bind].
  rewrite Hc2 in Hc3 |- *. unfold zlen at 1. rewrite Nat2Z.id, take_app_length.
  unfold zlen in Hc3. rewrite Nat2Z.id, drop_app_length in Hc3.
  destruct (retrieveAsString_spec (zlen v) p3 Hi3) as (p4 & -> & Hi4 & Hc4); [rewrite Hc3, zlen_app; lia|].
  cbn [mbind res_bind]. rewrite Hc3 in Hc4 |- *. unfold zlen at 1. rewrite Nat2Z.id, take_app_length.
  unfold zlen in Hc4. rewrite Nat2Z.id, drop_app_length in Hc4.
  apply (IH ps p4); [done..|]. cbn in Hf. lia.
Qed.

(** ** Requests *)

Definition codec_inv (c : FastCgiCodec) : Prop := inv (stdin_ c) /\ inv (paramsStream_ c).

(** Between requests. *)
Definition clean (c : FastCgiCodec) : Prop :=
  codec_inv c /\ gotRequest_ c = false /\ content (stdin_ c) = [] /\ content (paramsStream_ c) = [] /\ params_ c = ∅.

(** The record that ends a request. *)
Definition final (r : rec) : Prop := rtype r = kFcgiStdin /\ rcontent r = [].

(** A record never fails an assertion. *)
Lemma handle_any r c :
  rec_ok r -> codec_inv c -> outcome LengthError (handle r c) (fun c' =>
    codec_inv c' /\ (~ final r -> gotRequest_ c' = gotRequest_ c)).
Proof.
  intros (_ & _ & _ & Hz & _) [Hs Hp]. unfold handle, onParams, onStdin.
  assert (Hmax : zlen (rcontent r) <= max_size) by (unfold max_size; lia).
  destruct (rtype r =? kFcgiBeginRequest) eqn:E1; [apply outcome_Ok; by case_match|].
  destruct (rtype r =? kFcgiParams) eqn:E2; [|destruct (rtype r =? kFcgiStdin) eqn:E3; [|by apply outcome_Ok]].
  - destruct (0 <? zlen (rcontent r)) eqn:E0.
    + destruct (append_outcome _ (paramsStream_ c) Hp Hmax) as [(p' & -> & Hi' & _)|[-> _]]; [|by right].
      cbn [mbind res_bind]. by apply outcome_Ok.
    + destruct (parseAllParams_any (S (Z.to_nat (readableBytes (paramsStream_ c)))) (paramsStream_ c) (params_ c) Hp)
        as (ok & p' & m & -> & Hi'); [rewrite readableBytes_content by done; unfold zlen; lia|].
      cbn [mbind res_bind]. by apply outcome_Ok.
  - destruct (0 <? zlen (rcontent r)) eqn:E0.
    + destruct (append_outcome _ (stdin_ c) Hs Hmax) as [(p' & -> & Hi' & _)|[-> _]]; [|by right].
      cbn [mbind res_bind]. by apply outcome_Ok.
    + apply outcome_Ok. split; [done|]. intros Hnf. exfalso. apply Hnf. split; [lia|].
      apply zlen_zero_inv. pose proof (zlen_nonneg (rcontent r)). lia.
Qed.

Lemma handles_any rs c :
  Forall rec_ok rs -> codec_inv c -> outcome LengthError (handles rs c) (fun c' =>
    codec_inv c' /\ (Forall (fun r => ~ final r) rs -> gotRequest_ c' = gotRequest_ c)).
Proof.
  intros Hrs. revert c. induction Hrs as [|r rs Hr _ IH]; intros c Hc; cbn [handles]; [by apply outcome_Ok|].
  eapply outcome_bind; [by apply handle_any|]. intros c1 [Hc1 Hg1].
  eapply outcome_impl; [by apply IH|]. intros c2 [Hc2 Hg2]. split; [done|].
  intros [Hf Hfs]%Forall_cons. rewrite Hg2, Hg1 by done. done.
Qed.

Record request := mkRequest { keep : bool; rparams : list (list char * list char); body : list char }.

(** Nonempty records of one stream, whose contents together are [d], and the empty one that
    ends it. *)
Definition stream (t : Z) (d : list char) (rs : list rec) : Prop :=
  exists ps e, rs = ps ++ [e] /\ Forall (fun r => rtype r = t /\ rcontent r <> []) ps /\
    concat (rcontent <$> ps) = d /\ rtype e = t /\ rcontent e = [].

(** The records of a request: its beginning, its parameters and its body. *)
Definition request_records (q : request) (rs : list rec) : Prop :=
  exists b ps ss, rs = b :: ps ++ ss /\ Forall rec_ok rs /\
    rtype b = kFcgiBeginRequest /\ 8 <= zlen (rcontent b) /\ of_be_bytes (take 2 (rcontent b)) = kFcgiResponder /\
    ord (nth 2 (rcontent b) (chr 0)) = (if keep q then kFcgiKeepConn else 0) /\
    stream kFcgiParams (concat (enc_pair <$> rparams q)) ps /\ stream kFcgiStdin (body q) ss /\
    Forall pair_ok (rparams q).

Lemma nonempty_zlen {A} (l : list A) : l <> [] -> (0 <? zlen l) = true.
Proof. destruct l; [done|]. rewrite zlen_cons. pose proof (zlen_nonneg l). lia. Qed.

Lemma params_records ps c :
  Forall (fun r => rtype r = kFcgiParams /\ rcontent r <> []) ps -> Forall rec_ok ps -> inv (paramsStream_ c) ->
  outcome LengthError (handles ps c) (fun c' => exists p,
    c' = mkCodec (gotRequest_ c) (keepConn_ c) (stdin_ c) p (params_ c) /\ inv p /\
    content p = content (paramsStream_ c) ++ concat (rcontent <$> ps)).
Proof.
  intros Hps. revert c. induction Hps as [|r ps [Ht Hne] _ IH]; intros c Hok Hi; cbn [handles].
  - apply outcome_Ok. exists (paramsStream_ c). cbn. rewrite app_nil_r. by destruct c.
  - apply Forall_cons in Hok as [(_ & _ & _ & Hz & _) Hok]. unfold handle. rewrite Ht. cbn -[onParams handles].
    unfold onParams. rewrite nonempty_zlen by done.
    destruct (append_outcome (rcontent r) _ Hi) as [(p & -> & Hp & Hcp)|[-> _]]; [unfold max_size; lia| |by right].
    cbn [mbind res_bind]. eapply outcome_impl; [by apply IH|]. cbn. intros c' (p' & -> & Hp' & Hcp'). exists p'.
    by rewrite Hcp', Hcp, <- app_assoc.
Qed.

Lemma stdin_records ss c :
  Forall (fun r => rtype r = kFcgiStdin /\ rcontent r <> []) ss -> Forall rec_ok ss -> inv (stdin_ c) ->
  outcome LengthError (handles ss c) (fun c' => exists i,
    c' = mkCodec (gotRequest_ c) (keepConn_ c) i (paramsStream_ c) (params_ c) /\ inv i /\
    content i = content (stdin_ c) ++ concat (rcontent <$> ss)).
Proof.
  intros Hss. revert c. induction Hss as [|r ss [Ht Hne] _ IH]; intros c Hok Hi; cbn [handles].
  - apply outcome_Ok. exists (stdin_ c). cbn. rewrite app_nil_r. by destruct c.
  - apply Forall_cons in Hok as [(_ & _ & _ & Hz & _) Hok]. unfold handle. rewrite Ht. cbn -[onStdin handles].
    unfold onStdin. rewrite nonempty_zlen by done.
    destruct (append_outcome (rcontent r) _ Hi) as [(p & -> & Hp & Hcp)|[-> _]]; [unfold max_size; lia| |by right].
    cbn [mbind res_bind]. eapply outcome_impl; [by apply IH|]. cbn. intros c' (p' & -> & Hp' & Hcp'). exists p'.
    by rewrite Hcp', Hcp, <- app_assoc.
Qed.

Lemma enc_len_pos n : (0 < length (enc_len n))%nat.
Proof. unfold enc_len. destruct (n <? 128); rewrite ?length_be_bytes; cbn; lia. Qed.

Lemma enc_pairs_length ps : (length ps <= length (concat (enc_pair <$> ps)))%nat.
Proof.
  induction ps as [|[n v] ps IH]; [done|]. cbn [fmap list_fmap concat length]. rewrite length_app.
  unfold enc_pair at 1. rewrite length_app. pose proof (enc_len_pos (zlen n)). cbn [fst snd]. lia.
Qed.

Lemma params_stream ps rs c :
  stream kFcgiParams (concat (enc_pair <$> ps)) rs -> Forall rec_ok rs -> Forall pair_ok ps ->
  inv (paramsStream_ c) -> content (paramsStream_ c) = [] ->
  outcome LengthError (handles rs c) (fun c' => exists p,
    c' = mkCodec (gotRequest_ c) (keepConn_ c) (stdin_ c) p (foldl add_param (params_ c) ps) /\ inv p).
Proof.
  intros (rs1 & e & -> & Hrs & Hcc & Ht & He) Hok Hps Hi Hc0. apply Forall_app in Hok as [Hok _].
  rewrite handles_app. eapply outcome_bind; [by apply params_records|]. intros c1 (p & -> & Hip & Hcp).
  rewrite Hc0, Hcc in Hcp. cbn [app handles] in *. unfold handle. rewrite Ht. change (kFcgiParams =? kFcgiBeginRequest) with false.
  rewrite Z.eqb_refl. unfold onParams. rewrite He. change (0 <? zlen []) with false. cbn [paramsStream_ params_].
  destruct (parseAllParams_enc (S (Z.to_nat (readableBytes p))) ps p (params_ c) Hip Hps Hcp) as (p' & E & Hip' & Hcp').
  { rewrite readableBytes_content, Hcp by done. pose proof (enc_pairs_length ps). unfold zlen. lia. }
  rewrite E. cbn [mbind res_bind]. apply outcome_Ok. by exists p'.
Qed.

Lemma stdin_stream d rs c :
  stream kFcgiStdin d rs -> Forall rec_ok rs -> inv (stdin_ c) -> content (stdin_ c) = [] ->
  outcome LengthError (handles rs c) (fun c' => exists i,
    c' = mkCodec true (keepConn_ c) i (paramsStream_ c) (params_ c) /\ inv i /\ content i = d).
Proof.
  intros (rs1 & e & -> & Hrs & Hcc & Ht & He) Hok Hi Hc0. apply Forall_app in Hok as [Hok _].
  rewrite handles_app. eapply outcome_bind; [by apply stdin_records|]. intros c1 (i & -> & Hii & Hci).
  rewrite Hc0, Hcc in Hci. cbn [app handles] in *. unfold handle. rewrite Ht.
  change (kFcgiStdin =? kFcgiBeginRequest) with false. change (kFcgiStdin =? kFcgiParams) with false.
  rewrite Z.eqb_refl. unfold onStdin. rewrite He. apply outcome_Ok. by exists i.
Qed.

(** What the records of a request leave in a clean codec. *)
Definition complete (q : request) (c : FastCgiCodec) : Prop :=
  codec_inv c /\ gotRequest_ c = true /\ keepConn_ c = keep q /\ content (stdin_ c) = body q /\
  params_ c = foldl add_param ∅ (rparams q).

Lemma request_handled q rs c :
  request_records q rs -> clean c -> outcome LengthError (handles rs c) (complete q).
Proof.
  intros (b & ps & ss & -> & Hok & Hbt & Hbl & Hbr & Hbf & Hps & Hss & Hpairs) ([Hi Hp] & Hg & Hs0 & Hp0 & Hm).
  apply Forall_cons in Hok as [_ Hok]. apply Forall_app in Hok as [Hok1 Hok2].
  cbn [handles]. unfold handle at 1. rewrite Hbt, Z.eqb_refl, Hbr, Hbf, Z.eqb_refl.
  replace (8 <=? zlen (rcontent b)) with true by lia. cbn [andb mbind res_bind]. rewrite handles_app.
  eapply outcome_bind; [by apply (params_stream (rparams q))|]. intros c1 (p & -> & Hip).
  eapply outcome_impl; [by apply (stdin_stream (body q))|]. intros c2 (i & -> & Hii & Hci). cbn in *.
  split_and!; [by split|done| |done|by rewrite Hm]. by destruct (keep q).
Qed.

(** Only the last record of a request is final. *)
Lemma request_final q rs rs1 rs2 :
  request_records q rs -> rs = rs1 ++ rs2 -> rs2 <> [] -> Forall (fun r => ~ final r) rs1.
Proof.
  intros (b & ps & ss & -> & _ & Hbt & _ & _ & _ & (ps1 & pe & -> & Hps & _ & Hpt & _) & (ss1 & se & -> & Hss & _) & _) E Hne.
  destruct rs2 as [|e rs2 _] using rev_ind; [done|].
  assert (E' : (b :: (ps1 ++ [pe]) ++ ss1) ++ [se] = (rs1 ++ rs2) ++ [e]) by (rewrite <- (app_assoc rs1), <- E; cbn; by rewrite <- !app_assoc).
  apply app_inj_tail in E' as [E' _].
  assert (Hall : Forall (fun r => ~ final r) (b :: (ps1 ++ [pe]) ++ ss1)).
  { constructor; [intros [Hf _]; rewrite Hbt in Hf; done|]. rewrite !Forall_app. split_and!.
    - eapply Forall_impl; [exact Hps|]. intros r [Ht _] [Hf _]. by rewrite Ht in Hf.
    - constructor; [|constructor]. intros [Hf _]. by rewrite Hpt in Hf.
    - eapply Forall_impl; [exact Hss|]. by intros r [_ Hc] [_ Hf]. }
  rewrite E' in Hall. by apply Forall_app in Hall as [? _].
Qed.

(** ** Reads *)

(** The reads of a connection, each appended to its input buffer. *)
Fixpoint feed (chunks : list (list char)) (b : Buffer) (c : FastCgiCodec) : res (FastCgiCodec * Buffer * list effect) :=
  match chunks with
  | [] => Ok (c, b, [])
  | d :: chunks =>
      b ← append d b;
      '(c, b, es) ← onMessage b c;
      '(c, b, es') ← feed chunks b c;
      Ok (c, b, es ++ es')
  end.

Lemma feed_app cs1 cs2 b c :
  feed (cs1 ++ cs2) b c = ('(c, b, es) ← feed cs1 b c; '(c, b, es') ← feed cs2 b c; Ok (c, b, es ++ es')).
Proof.
  revert b c. induction cs1 as [|d cs1 IH]; intros b c; cbn [app feed].
  - cbn [mbind res_bind]. by destruct (feed cs2 b c) as [[[??]?]|].
  - destruct (append d b) as [b1|]; [|done]. cbn [mbind res_bind].
    destruct (onMessage b1 c) as [[[c1 b2] es]|]; [|done]. cbn [mbind res_bind]. rewrite IH.
    destruct (feed cs1 b2 c1) as [[[c2 b3] es1]|]; [|done]. cbn [mbind res_bind].
    destruct (feed cs2 b3 c2) as [[[c3 b4] es2]|]; [|done]. cbn. by rewrite app_assoc.
Qed.

Definition calls (c : FastCgiCodec) : list effect :=
  Callback (params_ c) (content (stdin_ c)) :: (if keepConn_ c then [] else [Shutdown]).
Definition after_call (c : FastCgiCodec) : FastCgiCodec :=
  mkCodec false (keepConn_ c) (retrieveAll (stdin_ c)) (retrieveAll (paramsStream_ c)) ∅.

Lemma after_call_clean c : codec_inv c -> clean (after_call c).
Proof.
  intros [Hs Hp]. destruct (retrieveAll_spec _ Hs), (retrieveAll_spec _ Hp). split; [by split|]. by split_and!.
Qed.

Lemma recs_length rs : (length rs <= length (recs_wire rs))%nat.
Proof.
  induction rs as [|r rs IH]; [done|]. unfold recs_wire in *. cbn [fmap list_fmap concat length].
  rewrite length_app. unfold rec_wire at 1. rewrite length_app. change (length (rec_head r)) with 8%nat. lia.
Qed.

Lemma record_fuel rs t b :
  inv b -> content b = recs_wire rs ++ t -> (length rs < S (Z.to_nat (readableBytes b)))%nat.
Proof.
  intros Hi Hc. rewrite readableBytes_content, Hc by done. unfold zlen. rewrite Nat2Z.id, length_app.
  pose proof (recs_length rs). lia.
Qed.

Lemma onMessage_fault rs t b c f :
  inv b -> content b = recs_wire rs ++ t -> Forall rec_ok rs -> no_record t -> handles rs c = Fault f ->
  onMessage b c = Fault f.
Proof.
  intros Hi Hc Hok Ht E. unfold onMessage.
  pose proof (parse_records _ rs t b c Hi Hc Hok Ht (record_fuel rs t b Hi Hc)) as Hp. rewrite E in Hp. by rewrite Hp.
Qed.

Lemma onMessage_records rs t b c c1 :
  inv b -> content b = recs_wire rs ++ t -> Forall rec_ok rs -> no_record t ->
  handles rs c = Ok c1 -> codec_inv c1 ->
  exists b', inv b' /\ content b' = t /\
    onMessage b c = Ok (if gotRequest_ c1 then (after_call c1, b', calls c1) else (c1, b', [])).
Proof.
  intros Hi Hc Hok Ht E [Hs _]. unfold onMessage.
  pose proof (parse_records _ rs t b c Hi Hc Hok Ht (record_fuel rs t b Hi Hc)) as Hp. rewrite E in Hp.
  destruct Hp as (b' & -> & Hi' & Hc').
  cbn [mbind res_bind]. exists b'. split_and!; [done..|]. destruct (gotRequest_ c1); [|done].
  rewrite (read_part _ _ [] (content (stdin_ c1)) [] (stdin_ c1) Hs);
    [done|by rewrite app_nil_r|by rewrite zlen_nil, Z.add_0_r|by rewrite readableBytes_content].
Qed.

Definition small (d : list char) : Prop := zlen d <= max_size.

Lemma feed_idle chunks b c :
  concat chunks = [] -> inv b -> content b = [] -> clean c ->
  outcome LengthError (feed chunks b c) (fun '(c', b', es) => es = [] /\ clean c' /\ inv b' /\ content b' = []).
Proof.
  revert b c. induction chunks as [|d chunks IH]; intros b c Hcc Hi Hb Hc; cbn [feed]; [by apply outcome_Ok|].
  cbn in Hcc. apply app_nil in Hcc as [-> Hcc].
  destruct (append_outcome [] b Hi) as [(b1 & -> & Hi1 & Hc1)|[-> _]]; [done| |by right]. cbn [mbind res_bind].
  rewrite Hb in Hc1. destruct (onMessage_records [] [] b1 c c) as (b2 & Hi2 & Hc2 & ->); try done; [by left|by apply Hc|].
  destruct Hc as (Hci & Hg & Hrest). rewrite Hg. cbn [mbind res_bind].
  eapply outcome_bind; [by apply IH; [| | |split]|]. intros [[c' b'] es] (-> & ?). by apply outcome_Ok.
Qed.

Lemma feed_request q chunks rs b c :
  rs <> [] -> (forall rs1 rs2, rs = rs1 ++ rs2 -> rs2 <> [] -> Forall (fun r => ~ final r) rs1) -> Forall rec_ok rs ->
  codec_inv c -> gotRequest_ c = false -> outcome LengthError (handles rs c) (complete q) ->
  inv b -> no_record (content b) -> content b ++ concat chunks = recs_wire rs -> Forall small chunks ->
  outcome LengthError (feed chunks b c) (fun '(c', b', es) =>
    es = Callback (foldl add_param ∅ (rparams q)) (body q) :: (if keep q then [] else [Shutdown]) /\
    clean c' /\ inv b' /\ content b' = []).
Proof.
  revert rs b c. induction chunks as [|d chunks IH]; intros rs b c Hne Hfin Hok Hc Hg Hdone Hi Hno Hw Hsm; cbn [feed].
  - exfalso. cbn in Hw. rewrite app_nil_r in Hw. destruct rs as [|r rs]; [done|]. apply Forall_cons in Hok as [Hr _].
    rewrite Hw in Hno. unfold recs_wire in Hno. cbn [fmap list_fmap concat] in Hno. unfold no_record in Hno.
    rewrite announced_rec, zlen_app in Hno by done. pose proof (zlen_nonneg (concat (rec_wire <$> rs))).
    unfold rec_wire at 1 in Hno. rewrite !zlen_app, zlen_rec_head in Hno.
    pose proof (zlen_nonneg (rcontent r)). pose proof (zlen_nonneg (rpad r)). lia.
  - apply Forall_cons in Hsm as [Hd Hsm]. cbn in Hw. 
    destruct (append_outcome d b Hi Hd) as [(b1 & -> & Hi1 & Hc1)|[-> _]]; [|by right]. cbn [mbind res_bind].
    assert (Hcut : content b1 ++ concat chunks = concat (rec_wire <$> rs) ++ []) by (by rewrite Hc1, <- app_assoc, app_nil_r).
    destruct (cut_stream rec_wire rec_ok no_record no_record_prefix no_record_frame rs [] _ _ Hok ltac:(by left) Hcut)
      as (rs1 & rs2 & t & -> & Hx & Hy & Ht). rewrite app_nil_r in Hy.
    apply Forall_app in Hok as [Hok1 Hok2]. rewrite handles_app in Hdone.
    destruct (handles_any rs1 c Hok1 Hc) as [(c1 & E1 & Hci1 & Hg1)|E1]; rewrite E1 in Hdone; cbn [mbind res_bind] in Hdone.
    2: { right. by rewrite (onMessage_fault rs1 t b1 c LengthError). }
    destruct (onMessage_records rs1 t b1 c c1 Hi1 Hx Hok1 Ht E1 Hci1) as (b2 & Hi2 & Hc2 & ->).
    destruct (decide (rs2 = [])) as [->|Hne2].
    + destruct Hdone as [(c1' & [= <-] & _ & Hgt & Hk & Hbo & Hpa)|]; [|done]. rewrite Hgt. cbn [mbind res_bind].
      cbn in Hy. apply app_nil in Hy as [-> Hcc].
      eapply outcome_bind; [by apply (feed_idle chunks b2 (after_call c1)), after_call_clean|].
      intros [[c' b'] es] (-> & ?). apply outcome_Ok. split; [|done]. unfold calls. by rewrite Hpa, Hbo, Hk, app_nil_r.
    + rewrite Hg1, Hg by (by eapply Hfin). cbn [mbind res_bind].
      eapply outcome_bind; [apply (IH rs2 b2 c1); try done|].
      * intros rs1' rs2' -> Hne'. specialize (Hfin (rs1 ++ rs1') rs2' ltac:(by rewrite app_assoc) Hne').
        by apply Forall_app in Hfin as [_ ?].
      * rewrite Hg1, Hg by (by eapply Hfin). done.
      * by rewrite Hc2.
      * by rewrite Hc2.
      * intros [[c' b'] es] (-> & ?). by apply outcome_Ok.
Qed.

Lemma feed_requests l b c :
  Forall (fun '(q, chunks) => Forall small chunks /\ exists rs, request_records q rs /\ concat chunks = recs_wire rs) l ->
  clean c -> inv b -> content b = [] ->
  outcome LengthError (feed (concat (snd <$> l)) b c) (fun '(c', b', es) =>
    es = concat ((fun '(q, _) => Callback (foldl add_param ∅ (rparams q)) (body q) :: (if keep q then [] else [Shutdown])) <$> l) /\
    clean c' /\ inv b' /\ content b' = []).
Proof.
  intros Hl. revert b c. induction Hl as [|[q chunks] l (Hsm & rs & Hrs & Hw) _ IH]; intros b c Hc Hi Hb.
  { by apply outcome_Ok. }
  cbn [fmap list_fmap concat snd]. rewrite feed_app. pose proof Hc as (Hci & Hg & _).
  eapply outcome_bind; [apply (feed_request q chunks rs)|]; try done.
  - destruct Hrs as (? & ? & ? & -> & _). done.
  - intros rs1 rs2. by eapply request_final.
  - by destruct Hrs as (? & ? & ? & -> & ? & _).
  - by apply request_handled.
  - rewrite Hb. by left.
  - by rewrite Hb.
  - intros [[c1 b1] es1] (-> & Hc1 & Hi1 & Hb1). eapply outcome_bind; [by apply IH|].
    intros [[c2 b2] es2] (-> & ?). by apply outcome_Ok.
Qed.

(** Arbitrary bytes. *)
Lemma onMessage_any b c :
  inv b -> codec_inv c -> outcome LengthError (onMessage b c) (fun '(c', b', _) => codec_inv c' /\ inv b' /\ no_record (content b')).
Proof.
  intros Hi Hc. destruct (split_records (content b)) as (rs & t & Hw & Hok & Ht).
  destruct (handles_any rs c Hok Hc) as [(c1 & E & Hc1 & _)|E]; [|right; by eapply onMessage_fault].
  destruct (onMessage_records rs t b c c1 Hi Hw Hok Ht E Hc1) as (b' & Hi' & Hc' & ->). apply outcome_Ok.
  destruct (gotRequest_ c1); rewrite Hc'; split_and!; try done. by apply after_call_clean.
Qed.

Lemma feed_any chunks b c :
  inv b -> codec_inv c -> Forall small chunks ->
  outcome LengthError (feed chunks b c) (fun '(c', b', _) => codec_inv c' /\ inv b').
Proof.
  revert b c. induction chunks as [|d chunks IH]; intros b c Hi Hc Hsm; cbn [feed]; [by apply outcome_Ok|].
  apply Forall_cons in Hsm as [Hd Hsm].
  destruct (append_outcome d b Hi Hd) as [(b1 & -> & Hi1 & Hc1)|[-> _]]; [|by right]. cbn [mbind res_bind].
  eapply outcome_bind; [by apply onMessage_any|]. intros [[c2 b2] es] (Hc2 & Hi2 & _).
  eapply outcome_bind; [by apply IH|]. intros [[c3 b3] es3] [? ?]. by apply outcome_Ok.
Qed.

(** ** Answers *)

Lemma header_memory_be v t i l p :
  0 <= v < 256 -> 0 <= t < 256 -> 0 <= p < 256 ->
  header_memory (mkHeader v t (hostToNetwork16 i) (hostToNetwork16 l) p 0) =
  [chr v; chr t] ++ be_bytes 2 i ++ be_bytes 2 l ++ [chr p; chr 0].
Proof.
  intros Hv Ht Hp. unfold header_memory. cbn [version type id length_ padding unused].
  unfold hostToNetwork16. rewrite !to_memory_htobe, !(be_bytes_uint 2).
  assert (H1 : forall z, 0 <= z < 256 -> to_memory 1 z = [chr z]).
  { intros z Hz. rewrite to_memory_1. unfold be_bytes. cbn. by rewrite Z.mod_small. }
  by rewrite !H1 by lia.
Qed.

Lemma hton_0 : hostToNetwork16 0 = 0.
Proof. unfold hostToNetwork16, htobe. by case_match. Qed.

(** The records of an answer [d]. *)
Definition answer_records (d : list char) : list rec :=
  [mkRec 1 kFcgiStdout 1 d (replicate (Z.to_nat (- zlen d mod 8)) (chr 0)) 0;
   mkRec 1 kFcgiStdout 1 [] [] 0;
   mkRec 1 kFcgiEndRequest 1 (replicate 8 (chr 0)) [] 0].

Lemma padding_value n : 0 <= n < 65536 -> uint 8 (Z.land (size_t (- n)) 7) = - n mod 8.
Proof.
  intros Hn. change 7 with (Z.ones 3). rewrite Z.land_ones by lia. unfold uint.
  change (2 ^ 3) with 8. rewrite (Z.mod_mod_divide _ (2 ^ 64) 8) by (exists (2 ^ 61); lia).
  apply Z.mod_small. pose proof (Z.mod_pos_bound (- n) 8). lia.
Qed.

Lemma bind_Ok_r {A} (m : res A) : (m ≫= fun a => Ok a) = m.
Proof. by destruct m. Qed.

Lemma append_then {B} (k : Buffer -> res B) d b (P : B -> Prop) :
  inv b -> zlen d <= max_size ->
  (forall b', inv b' -> content b' = content b ++ d -> outcome LengthError (k b') P) ->
  outcome LengthError (append d b ≫= k) P.
Proof.
  intros Hi Hd Hk. destruct (append_outcome d b Hi Hd) as [(b' & -> & ? & ?)|[-> _]]; [by apply Hk|by right].
Qed.

Lemma appendInt32_0 b : appendInt32 0 b = append (replicate 4 (chr 0)) b.
Proof. by rewrite (append_int_eq W32 0 b : appendInt32 0 b = _). Qed.

Lemma endStdout_eq b : endStdout b = append (rec_wire (mkRec 1 kFcgiStdout 1 [] [] 0)) b.
Proof.
  unfold endStdout. pose proof (header_memory_be 1 kFcgiStdout 1 0 0) as E. rewrite hton_0 in E.
  by rewrite E by (unfold kFcgiStdout; lia).
Qed.

Lemma respond_records d b :
  inv b -> content b = d -> zlen d < 65536 -> 8 <= readerIndex_ b ->
  outcome LengthError (respond b) (fun b' => inv b' /\ content b' = recs_wire (answer_records d)).
Proof.
  intros Hi Hc Hd Hr. unfold respond. pose proof (zlen_nonneg d).
  rewrite readableBytes_content, Hc by done. unfold prependableBytes, kRecordHeader.
  replace ((zlen d <? 65536) && (8 <=? readerIndex_ b)) with true by lia.
  rewrite padding_value, (uint_small 16 (zlen d)) by lia. pose proof (Z.mod_pos_bound (- zlen d) 8 ltac:(lia)) as Hm.
  rewrite header_memory_be by (unfold kFcgiStdout; lia).
  match goal with |- context [prepend ?h b] => destruct (prepend_spec h b Hi) as (b1 & -> & Hi1 & Hc1 & _) end.
  { unfold zlen. cbn. lia. }
  cbn [mbind res_bind]. rewrite take_replicate, Nat.min_l by lia.
  apply append_then; [done|unfold max_size, zlen in *; rewrite length_replicate; lia|]. intros b2 Hi2 Hc2.
  rewrite endStdout_eq. apply append_then; [done|done|]. intros b3 Hi3 Hc3.
  unfold endRequest. rewrite header_memory_be by (unfold kFcgiEndRequest; lia).
  apply append_then; [done|done|]. intros b4 Hi4 Hc4. rewrite appendInt32_0.
  apply append_then; [done|done|]. intros b5 Hi5 Hc5. rewrite appendInt32_0.
  rewrite <- (bind_Ok_r (append _ b5)). apply append_then; [done|done|]. intros b6 Hi6 Hc6. apply outcome_Ok.
  split; [done|]. rewrite Hc6, Hc5, Hc4, Hc3, Hc2, Hc1, Hc.
  unfold answer_records, recs_wire. cbn [fmap list_fmap concat]. rewrite app_nil_r.
  unfold rec_wire, rec_head. cbn [rversion rtype rid rcontent rpad runused].
  replace (zlen (replicate (Z.to_nat (- zlen d mod 8)) (chr 0))) with (- zlen d mod 8)
    by (unfold zlen; rewrite length_replicate; unfold zlen in Hm; lia).
  rewrite <- !app_assoc. done.
Qed.

(** An answer of 64 KiB or more goes out without the header of its record. *)
Lemma respond_large d b :
  inv b -> content b = d -> 65536 <= zlen d ->
  outcome LengthError (respond b) (fun b' => content b' = d ++ recs_wire (drop 1 (answer_records d))).
Proof.
  intros Hi Hc Hd. unfold respond. rewrite readableBytes_content, Hc by done.
  replace (zlen d <? 65536) with false by lia. cbn [andb mbind res_bind].
  rewrite endStdout_eq. apply append_then; [done|done|]. intros b3 Hi3 Hc3.
  unfold endRequest. rewrite header_memory_be by (unfold kFcgiEndRequest, kRecordHeader; lia).
  apply append_then; [done|done|]. intros b4 Hi4 Hc4. rewrite appendInt32_0.
  apply append_then; [done|done|]. intros b5 Hi5 Hc5. rewrite appendInt32_0.
  rewrite <- (bind_Ok_r (append _ b5)). apply append_then; [done|done|]. intros b6 Hi6 Hc6. apply outcome_Ok.
  rewrite Hc6, Hc5, Hc4, Hc3, Hc, <- !app_assoc. done.
Qed.

Lemma newFastCgiCodec_clean : exists c, newFastCgiCodec = Ok c /\ clean c.
Proof.
  destruct (newBuffer_spec kInitialSize) as (i & E & Hi & Hc & _);
    [unfold kInitialSize; lia|unfold kCheapPrepend, kInitialSize, max_size; lia|].
  unfold newFastCgiCodec. rewrite E. cbn [mbind res_bind]. eexists. split; [done|]. split; [by split|]. by split_and!.
Qed.

(** [C39] The FastCGI codec.  Whatever bytes a connection reads, and however they are cut into
    reads, a new codec fails no assertion and runs off no buffer; only memory can be exhausted. When
    the reads are those of requests sent one after the other, each cut into reads of its own so that
    no read holds bytes of two requests, with parameters and body in records of any size and
    padding, the application is called once per request, in order, with the request's parameters and
    body, and the connection is shut down after exactly the requests that do not ask to keep it. Two
    requests in one read are merged into one call (pipelined_requests_merge). *)
Theorem fastcgi_correct b :
  inv b -> content b = [] ->
  (forall chunks, Forall small chunks ->
     outcome LengthError (c ← newFastCgiCodec; feed chunks b c) (fun '(c', b', _) => codec_inv c' /\ inv b')) /\
  (forall l, Forall (fun '(q, chunks) => Forall small chunks /\ exists rs, request_records q rs /\ concat chunks = recs_wire rs) l ->
     outcome LengthError (c ← newFastCgiCodec; feed (concat (snd <$> l)) b c) (fun '(_, b', es) =>
       content b' = [] /\
       es = concat ((fun '(q, _) => Callback (foldl add_param ∅ (rparams q)) (body q) :: (if keep q then [] else [Shutdown])) <$> l))).
Proof.
  intros Hi Hb. destruct newFastCgiCodec_clean as (c & -> & Hc). cbn [mbind res_bind]. split.
  - intros chunks Hsm. by apply feed_any; [|apply Hc|].
  - intros l Hl. eapply outcome_impl; [by apply feed_requests|]. intros [[c' b'] es] (? & _ & _ & ?). done.
Qed.

(** An answer of less than 64 KiB becomes the records FastCGI asks for: its bytes in one
    record padded to a multiple of eight, the end of the output and the end of the request. *)
Theorem respond_correct d b :
  inv b -> content b = d -> zlen d < 65536 -> kCheapPrepend <= readerIndex_ b ->
  outcome LengthError (respond b) (fun b' =>
    content b' = recs_wire (answer_records d) /\ zlen (content b') mod 8 = 0 /\ Forall rec_ok (answer_records d)).
Proof.
  intros Hi Hc Hd Hr. eapply outcome_impl; [by apply (respond_records d)|]. intros b' [_ Hc'].
  pose proof (zlen_nonneg d). pose proof (Z.mod_pos_bound (- zlen d) 8 ltac:(lia)).
  assert (Hp : zlen (replicate (Z.to_nat (- zlen d mod 8)) (chr 0)) = - zlen d mod 8)
    by (unfold zlen in *; rewrite length_replicate; lia).
  split_and!; [done| |].
  - rewrite Hc'. unfold answer_records, recs_wire. cbn [fmap list_fmap concat]. rewrite app_nil_r.
    unfold rec_wire. rewrite !zlen_app, !zlen_rec_head. cbn [rcontent rpad]. rewrite Hp.
    change (zlen (replicate 8 (chr 0))) with 8. change (zlen (@nil char)) with 0. Z.to_euclidean_division_equations. lia.
  - unfold answer_records, rec_ok, kFcgiStdout, kFcgiEndRequest.
    do 3 (constructor; cbn [rversion rtype rid rcontent rpad runused];
      [rewrite ?Hp; change (zlen (replicate 8 (chr 0))) with 8; change (zlen (@nil char)) with 0; lia|]). constructor.
Qed.
End WithHost.

(** ** Examples *)

Definition a_record (t : Z) (d : list char) (pad : nat) : rec := mkRec 1 t 1 d (replicate pad (chr 0)) 0.
Definition begin_record1 (k : bool) : rec :=
  a_record kFcgiBeginRequest ([chr 0; chr 1; chr (if k then 1 else 0)] ++ replicate 5 (chr 0)) 0.
Definition small_request (k : bool) (n v bd : string) : request := mkRequest k [(lit n, lit v)] (lit bd).
(** The parameters in two records, split after the first byte. *)
Definition small_records (k : bool) (n v bd : string) : list rec :=
  let e := enc_pair (lit n, lit v) in
  [begin_record1 k; a_record kFcgiParams (take 1 e) 7; a_record kFcgiParams (drop 1 e) 3; a_record kFcgiParams [] 0;
   a_record kFcgiStdin (lit bd) 2; a_record kFcgiStdin [] 0].
Definition example_buffer : Buffer := mkBuffer (replicate 1032 (chr 0)) 8 8.

Lemma small_request_ok : request_records (small_request true "A" "1" "body") (small_records true "A" "1" "body").
Proof.
  exists (begin_record1 true),
    [a_record kFcgiParams (take 1 (enc_pair (lit "A", lit "1"))) 7; a_record kFcgiParams (drop 1 (enc_pair (lit "A", lit "1"))) 3;
     a_record kFcgiParams [] 0], [a_record kFcgiStdin (lit "body") 2; a_record kFcgiStdin [] 0].
  split_and!; try done.
  - repeat (constructor; [repeat split; vm_compute; congruence|]). constructor.
  - eexists [_; _], _. split_and!; try done. by repeat constructor.
  - eexists [_], _. split_and!; try done. by repeat constructor.
  - by repeat constructor.
Qed.

Lemma fastcgi_correct_witness :
  exists c b', (c ← newFastCgiCodec; feed (H := LittleEndian)
    [take 5 (recs_wire (small_records true "A" "1" "body")); drop 5 (recs_wire (small_records true "A" "1" "body"))] example_buffer c) =
    Ok (c, b', [Callback {[lit "A" := lit "1"]} (lit "body")]).
Proof.
  destruct (fastcgi_correct (H := LittleEndian) example_buffer) as [_ Hr].
  - vm_compute. repeat split; congruence.
  - reflexivity.
  - destruct (Hr [(small_request true "A" "1" "body",
      [take 5 (recs_wire (small_records true "A" "1" "body")); drop 5 (recs_wire (small_records true "A" "1" "body"))])])
      as [([[c b'] es] & E & _ & ->)|E].
    + constructor; [|constructor]. split; [by repeat constructor; vm_compute|].
      eexists. split; [exact small_request_ok|]. reflexivity.
    + exists c, b'. exact E.
    + vm_compute in E. discriminate.
Defined.

Lemma respond_correct_witness :
  outcome LengthError (respond (H := BigEndian) (mkBuffer (replicate 8 (chr 0) ++ lit "hello") 8 13))
    (fun b' => content b' = recs_wire (answer_records (lit "hello"))).
Proof.
  eapply outcome_impl; [apply (respond_correct (H := BigEndian) (lit "hello"))|].
  - vm_compute. repeat split; congruence.
  - reflexivity.
  - vm_compute. reflexivity.
  - vm_compute. congruence.
  - intros b' [? _]. assumption.
Defined.

(** Two requests in one read are taken for one, with the parameters and bodies of both. *)
Example pipelined_requests_merge :
  exists c b', (c ← newFastCgiCodec; feed (H := LittleEndian)
    [recs_wire (small_records true "A" "1" "x" ++ small_records true "B" "2" "y")] example_buffer c) =
    Ok (c, b', [Callback {[lit "A" := lit "1"; lit "B" := lit "2"]} (lit "xy")]).
Proof. eexists _, _. vm_compute. reflexivity. Qed.
