(* ===== verification/Hub.v ===== *)
(** * The publish-subscribe hub (examples/hub)

    parseMessage (codec.cc), PubSubServer with its topics (hub.cc) and PubSubClient
    (pubsub.cc).  A connection is a number; its context, the topics it subscribes to, is kept
    in [contexts].  What the handlers do to connections is a list of effects; a set of
    connections is visited in the order of its elements, on which nothing depends.  The loops
    over a buffer have fuel: every round takes a line away. *)
From S2P Require Import Prelude Buffer BufferTheory Timestamp TimeFormat.

Abbreviation str := (list char) (only parsing).

Inductive ParseResult := kError | kSuccess | kContinue.

Definition space : char := " "%char.

Definition parseMessage (b : Buffer) : res (ParseResult * str * str * str * Buffer) :=
  crlf ← findCRLF b;
  match crlf with
  | None => Ok (kContinue, [], [], [], b)
  | Some crlf =>
      line ← read_range (buffer_ b) (peek b) crlf;
      match find_char space line with
      | None => Ok (kError, [], [], [], b)
      | Some i =>
          let cmd := take (Z.to_nat i) line in
          let topic := drop (Z.to_nat (i + 1)) line in
          if bool_decide (cmd = lit "pub") then
            let start := crlf + 2 in
            crlf ← findCRLF_from start b;
            match crlf with
            | None => Ok (kContinue, cmd, topic, [], b)
            | Some crlf =>
                content ← read_range (buffer_ b) start crlf;
                b ← retrieveUntil (crlf + 2) b;
                Ok (kSuccess, cmd, topic, content, b)
            end
          else
            b ← retrieveUntil (crlf + 2) b;
            Ok (kSuccess, cmd, topic, [], b)
      end
  end.

Inductive effect :=
| Send (c : Z) (message : str)
| ShutdownConn (c : Z).

(** ** Topics *)

Record Topic := mkTopic { topic_ : str; content_ : str; lastPubTime_ : Z; audiences_ : gset Z }.

Definition newTopic (topic : str) : Topic := mkTopic topic [] invalid ∅.

Definition makeMessage (t : Topic) : str :=
  lit "pub " ++ topic_ t ++ kCRLF ++ content_ t ++ kCRLF.

Definition Topic_add (conn : Z) (t : Topic) : Topic * list effect :=
  let t := mkTopic (topic_ t) (content_ t) (lastPubTime_ t) ({[conn]} ∪ audiences_ t) in
  (t, if valid (lastPubTime_ t) then [Send conn (makeMessage t)] else []).

Definition Topic_remove (conn : Z) (t : Topic) : Topic :=
  mkTopic (topic_ t) (content_ t) (lastPubTime_ t) (audiences_ t ∖ {[conn]}).

Definition publish (content : str) (time : Z) (t : Topic) : Topic * list effect :=
  let t := mkTopic (topic_ t) content time (audiences_ t) in
  (t, (fun c => Send c (makeMessage t)) <$> elements (audiences_ t)).

(** ** The server *)

Record PubSubServer := mkHub { topics_ : gmap str Topic; contexts : gmap Z (gset str) }.

Definition getTopic (topic : str) (s : PubSubServer) : Topic :=
  match topics_ s !! topic with Some t => t | None => newTopic topic end.
Definition setTopic (topic : str) (t : Topic) (s : PubSubServer) : PubSubServer :=
  mkHub (<[topic := t]> (topics_ s)) (contexts s).

(** The any_cast of the context of a connection that has none is a null pointer. *)
Definition connSub (conn : Z) (s : PubSubServer) : res (gset str) := get (contexts s !! conn).

Definition doSubscribe (conn : Z) (topic : str) (s : PubSubServer) : res (PubSubServer * list effect) :=
  sub ← connSub conn s;
  let s := mkHub (topics_ s) (<[conn := {[topic]} ∪ sub]> (contexts s)) in
  let '(t, es) := Topic_add conn (getTopic topic s) in
  Ok (setTopic topic t s, es).

Definition doUnsubscribe (conn : Z) (topic : str) (s : PubSubServer) : res PubSubServer :=
  let s := setTopic topic (Topic_remove conn (getTopic topic s)) s in
  sub ← connSub conn s;
  Ok (mkHub (topics_ s) (<[conn := sub ∖ {[topic]}]> (contexts s))).

Definition doPublish (topic content : str) (time : Z) (s : PubSubServer) : PubSubServer * list effect :=
  let '(t, es) := publish content time (getTopic topic s) in (setTopic topic t s, es).

Definition onConnectionUp (conn : Z) (s : PubSubServer) : PubSubServer :=
  mkHub (topics_ s) (<[conn := ∅]> (contexts s)).

Fixpoint unsubscribe_all (conn : Z) (l : list str) (s : PubSubServer) : res PubSubServer :=
  match l with [] => Ok s | t :: l => s ← doUnsubscribe conn t s; unsubscribe_all conn l s end.

Definition onConnectionDown (conn : Z) (s : PubSubServer) : res PubSubServer :=
  sub ← connSub conn s; unsubscribe_all conn (elements sub) s.

Fixpoint onMessage (fuel : nat) (conn : Z) (receiveTime : Z) (b : Buffer) (s : PubSubServer) :
    res (PubSubServer * list effect * Buffer) :=
  match fuel with
  | O => Fault OutOfFuel
  | S fuel =>
      '(result, cmd, topic, content, b) ← parseMessage b;
      match result with
      | kSuccess =>
          if bool_decide (cmd = lit "pub") then
            let '(s, es) := doPublish topic content receiveTime s in
            '(s, es', b) ← onMessage fuel conn receiveTime b s; Ok (s, es ++ es', b)
          else if bool_decide (cmd = lit "sub") then
            '(s, es) ← doSubscribe conn topic s;
            '(s, es', b) ← onMessage fuel conn receiveTime b s; Ok (s, es ++ es', b)
          else if bool_decide (cmd = lit "unsub") then
            s ← doUnsubscribe conn topic s; onMessage fuel conn receiveTime b s
          else Ok (s, [ShutdownConn conn], b)
      | kError => Ok (s, [ShutdownConn conn], b)
      | kContinue => Ok (s, [], b)
      end
  end.

Definition timePublish (now : Z) (s : PubSubServer) : PubSubServer * list effect :=
  doPublish (lit "utc_time") (toFormattedString now true) now s.

(** ** The client

    [conn_] is whether the client is connected; messages it sends and calls of its subscribe
    callback are effects. *)
Module Client.

Inductive effect := SendHub (message : str) | SubscribeCallback (topic content : str) (time : Z) | ShutdownHub.

Record PubSubClient := mkClient { conn_ : bool; subscribeCallback_ : bool }.

Definition send (message : str) (p : PubSubClient) : bool * list effect :=
  if conn_ p then (true, [SendHub message]) else (false, []).

Definition subscribe (topic : str) (p : PubSubClient) : PubSubClient * bool * list effect :=
  let message := lit "sub " ++ topic ++ kCRLF in
  let p := mkClient (conn_ p) true in
  let '(r, es) := send message p in (p, r, es).

Definition unsubscribe (topic : str) (p : PubSubClient) : list effect :=
  snd (send (lit "unsub " ++ topic ++ kCRLF) p).

Definition client_publish (topic content : str) (p : PubSubClient) : bool * list effect :=
  send (lit "pub " ++ topic ++ kCRLF ++ content ++ kCRLF) p.

Definition onConnection (connected : bool) (p : PubSubClient) : PubSubClient := mkClient connected (subscribeCallback_ p).

Fixpoint client_onMessage (fuel : nat) (receiveTime : Z) (b : Buffer) (p : PubSubClient) : res (list effect * Buffer) :=
  match fuel with
  | O => Fault OutOfFuel
  | S fuel =>
      '(result, cmd, topic, content, b) ← parseMessage b;
      match result with
      | kSuccess =>
          let es := if bool_decide (cmd = lit "pub") && subscribeCallback_ p
                    then [SubscribeCallback topic content receiveTime] else [] in
          '(es', b) ← client_onMessage fuel receiveTime b p; Ok (es ++ es', b)
      | kError => Ok ([ShutdownHub], b)
      | kContinue => Ok ([], b)
      end
  end.
End Client.
