(* ===== verification/HubTheory.v ===== *)
(** * The hub delivers what is published to who subscribes

    The hub's behaviour is a machine with the set of subscriptions and the last message of
    each topic; the model of the code refines it, for any number of connections whose bytes
    arrive in pieces of any size. *)
From S2P Require Import Prelude Buffer BufferTheory Timestamp TimeFormat Hub.

(** ** Messages *)

Inductive parsed := PContinue | PError | PMessage (cmd topic content rest : str).
#[export] Instance parsed_eq_dec : EqDecision parsed.
Proof. solve_decision. Defined.

(** What parseMessage does to a buffer's bytes. *)
Definition parse (c : str) : parsed :=
  match split_line c with
  | None => PContinue
  | Some (line, rest) =>
      match find_char space line with
      | None => PError
      | Some i =>
          let cmd := take (Z.to_nat i) line in
          let topic := drop (Z.to_nat (i + 1)) line in
          if bool_decide (cmd = lit "pub") then
            match split_line rest with
            | None => PContinue
            | Some (content, rest) => PMessage cmd topic content rest
            end
          else PMessage cmd topic [] rest
      end
  end.

(** A line that starts at a given place of the buffer. *)
Lemma line_from_buffer b x rest :
  inv b -> content b = x ++ rest ->
  match split_line rest with
  | Some (line, rest') => exists p b', findCRLF_from (peek b + zlen x) b = Ok (Some p) /\
      read_range (buffer_ b) (peek b + zlen x) p = Ok line /\
      p = peek b + zlen x + zlen line /\
      retrieveUntil (p + 2) b = Ok b' /\ inv b' /\ content b' = rest'
  | None => findCRLF_from (peek b + zlen x) b = Ok None
  end.
Proof.
  intros Hi Hc. pose proof (zlen_content b Hi) as Hz. rewrite Hc, zlen_app in Hz.
  pose proof (zlen_nonneg x). pose proof (zlen_nonneg rest). unfold findCRLF_from.
  rewrite !check_true by (buffer_unfold; lia). cbn [mbind res_bind].
  assert (Hrest : slice (peek b + zlen x) (beginWrite b) (buffer_ b) = rest).
  { unfold peek, beginWrite. rewrite (slice_sub (readerIndex_ b) (writerIndex_ b)) by (buffer_unfold; lia). fold (content b).
    rewrite Hc, slice_app_r by lia. replace (_ - _ - _) with 0 by lia.
    replace (writerIndex_ b - readerIndex_ b - zlen x) with (zlen rest) by lia. apply slice_full. }
  rewrite read_range_ok, Hrest by (buffer_unfold; lia). cbn [mbind res_bind].
  destruct (split_line rest) as [[line rest']|] eqn:E.
  - pose proof (split_line_Some _ _ _ E) as Hl. unfold split_line in E.
    destruct (std_search kCRLF rest) as [i|] eqn:Ei; [|done]. apply std_search_Some in Ei as (Hi0 & _ & _).
    assert (Hlen : zlen rest = zlen line + 2 + zlen rest') by (rewrite Hl at 1; rewrite !zlen_app; change (zlen kCRLF) with 2; lia).
    pose proof (zlen_nonneg line). pose proof (zlen_nonneg rest').
    assert (Hil : i = zlen line).
    { injection E as <- <-. unfold zlen in *. rewrite length_take, length_drop in *. lia. }
    subst i. replace (_ =? beginWrite b) with false by (buffer_unfold; lia).
    destruct (retrieveUntil_spec (peek b + zlen x + zlen line + 2) b Hi) as (b' & Hr & Hi' & Hc'); [buffer_unfold; lia|].
    exists (peek b + zlen x + zlen line), b'. split_and!; try done.
    + rewrite read_range_ok by (buffer_unfold; lia). f_equal.
      rewrite (slice_sub (peek b + zlen x) (beginWrite b)) by (buffer_unfold; lia). rewrite Hrest, Hl.
      rewrite Z.sub_diag, Z.add_simpl_l, slice_app_l by lia. apply slice_full.
    + rewrite Hc', Hc, Hl. rewrite (app_assoc x), (app_assoc (x ++ line)). apply drop_app_length'.
      rewrite !length_app. change (length kCRLF) with 2%nat. unfold zlen. lia.
  - unfold split_line in E. destruct (std_search kCRLF rest); [done|]. by rewrite Z.eqb_refl.
Qed.

Lemma read_range_length (l s : str) i j : read_range l i j = Ok s -> zlen s = j - i.
Proof.
  unfold read_range. destruct (_ && _) eqn:E; [|done]. intros [= <-]. apply zlen_slice; lia.
Qed.

Lemma parseMessage_eq b :
  inv b ->
  match parse (content b) with
  | PContinue => exists cmd topic, parseMessage b = Ok (kContinue, cmd, topic, [], b)
  | PError => parseMessage b = Ok (kError, [], [], [], b)
  | PMessage cmd topic text rest => exists b', parseMessage b = Ok (kSuccess, cmd, topic, text, b') /\ inv b' /\ content b' = rest
  end.
Proof.
  intros Hi. unfold parse, parseMessage. pose proof (line_of_buffer b Hi) as Hl.
  destruct (split_line (content b)) as [[line rest]|] eqn:E; [|rewrite Hl; by eexists _, _].
  destruct Hl as (p & b1 & -> & Hr & Hu & Hi1 & Hc1). cbn [mbind res_bind]. rewrite Hr. cbn [mbind res_bind].
  destruct (find_char space line) as [i|]; [|done]. case_bool_decide; [|rewrite Hu; by exists b1].
  apply split_line_Some in E.
  assert (Hp : p = peek b + zlen line).
  { apply read_range_length in Hr. lia. }
  pose proof (line_from_buffer b (line ++ kCRLF) rest Hi ltac:(by rewrite <- app_assoc)) as Hl2.
  rewrite zlen_app in Hl2. change (zlen kCRLF) with 2 in Hl2. replace (p + 2) with (peek b + (zlen line + 2)) by lia.
  destruct (split_line rest) as [[text rest']|]; [|rewrite Hl2; by eexists _, _].
  destruct Hl2 as (p2 & b2 & -> & Hr2 & _ & Hu2 & ? & ?). cbn [mbind res_bind]. rewrite Hr2. cbn [mbind res_bind].
  rewrite Hu2. by exists b2.
Qed.

Lemma parse_message_app x y cmd topic text rest :
  parse x = PMessage cmd topic text rest -> parse (x ++ y) = PMessage cmd topic text (rest ++ y).
Proof.
  unfold parse. destruct (split_line x) as [[line r]|] eqn:E; [|done]. rewrite (split_line_app _ y _ _ E).
  destruct (find_char space line); [|done]. case_bool_decide; [|by intros [= <- <- <- <-]].
  destruct (split_line r) as [[text' r']|] eqn:E2; [|done]. rewrite (split_line_app _ y _ _ E2). by intros [= <- <- <- <-].
Qed.

Lemma parse_error_app x y : parse x = PError -> parse (x ++ y) = PError.
Proof.
  unfold parse. destruct (split_line x) as [[line r]|] eqn:E; [|done]. rewrite (split_line_app _ y _ _ E).
  destruct (find_char space line); [|done]. case_bool_decide; [|done]. by destruct (split_line r) as [[? ?]|].
Qed.

(** ** Commands *)

Inductive command :=
| Pub (topic text : str)
| Sub (topic : str)
| Unsub (topic : str).

Definition wire (c : command) : str :=
  match c with
  | Pub topic text => lit "pub " ++ topic ++ kCRLF ++ text ++ kCRLF
  | Sub topic => lit "sub " ++ topic ++ kCRLF
  | Unsub topic => lit "unsub " ++ topic ++ kCRLF
  end.

Definition command_ok (c : command) : Prop :=
  match c with
  | Pub topic text => chr 13 ∉ topic /\ chr 13 ∉ text
  | Sub topic | Unsub topic => chr 13 ∉ topic
  end.

Definition parsed_as (c : command) (rest : str) : parsed :=
  match c with
  | Pub topic text => PMessage (lit "pub") topic text rest
  | Sub topic => PMessage (lit "sub") topic [] rest
  | Unsub topic => PMessage (lit "unsub") topic [] rest
  end.

(** The first word of a line. *)
Lemma parse_line name topic rest :
  chr 13 ∉ name -> space ∉ name -> chr 13 ∉ topic ->
  parse ((name ++ space :: topic) ++ kCRLF ++ rest) =
  if bool_decide (name = lit "pub") then
    match split_line rest with None => PContinue | Some (text, rest) => PMessage name topic text rest end
  else PMessage name topic [] rest.
Proof.
  intros Hn Hs Ht. unfold parse. rewrite split_line_text.
  2: { rewrite elem_of_app, elem_of_cons. intros [?|[E|?]]; [done|by vm_compute in E|done]. }
  rewrite find_char_app, take_zlen, drop_zlen by done. done.
Qed.

Lemma parse_wire c rest : command_ok c -> parse (wire c ++ rest) = parsed_as c rest.
Proof.
  destruct c as [topic text|topic|topic]; cbn [command_ok wire parsed_as].
  - intros [Ht Hx]. pose proof (parse_line (lit "pub") topic (text ++ kCRLF ++ rest)) as Hp.
    rewrite bool_decide_true, split_line_text in Hp by done. rewrite <- Hp by (done || (vm_compute; set_solver)).
    f_equal. rewrite <- !app_assoc. done.
  - intros Ht. pose proof (parse_line (lit "sub") topic rest) as Hp.
    rewrite bool_decide_false in Hp by done. rewrite <- Hp by (done || (vm_compute; set_solver)). by rewrite <- !app_assoc.
  - intros Ht. pose proof (parse_line (lit "unsub") topic rest) as Hp.
    rewrite bool_decide_false in Hp by done. rewrite <- Hp by (done || (vm_compute; set_solver)). by rewrite <- !app_assoc.
Qed.

Definition no_message (t : str) : Prop := parse t = PContinue.

Lemma no_message_prefix x y : no_message (x ++ y) -> no_message x.
Proof.
  unfold no_message. destruct (parse x) eqn:E; [done|by rewrite (parse_error_app x y E)|].
  by rewrite (parse_message_app x y _ _ _ _ E).
Qed.

Lemma no_message_frame c x y : command_ok c -> x ++ y = wire c -> y <> [] -> no_message x.
Proof.
  intros Hc E Hy. pose proof (parse_wire c [] Hc) as Hp. rewrite app_nil_r, <- E in Hp. unfold no_message.
  destruct (parse x) eqn:Ex; [done|rewrite (parse_error_app x y Ex) in Hp; by destruct c|].
  rewrite (parse_message_app x y _ _ _ _ Ex) in Hp. exfalso.
  destruct c; cbn in Hp; injection Hp; intros Hr _ _ _; by apply app_nil in Hr as [_ ?].
Qed.

(** ** Commands in a buffer *)

(** What the loop of onMessage does with a command. *)
Definition exec (conn time : Z) (c : command) (s : PubSubServer) : res (PubSubServer * list effect) :=
  match c with
  | Pub topic text => Ok (doPublish topic text time s)
  | Sub topic => doSubscribe conn topic s
  | Unsub topic => s ← doUnsubscribe conn topic s; Ok (s, [])
  end.

Fixpoint execs (conn time : Z) (cs : list command) (s : PubSubServer) : res (PubSubServer * list effect) :=
  match cs with
  | [] => Ok (s, [])
  | c :: cs => '(s, es) ← exec conn time c s; '(s, es') ← execs conn time cs s; Ok (s, es ++ es')
  end.

Definition wires (cs : list command) : str := concat (wire <$> cs).

Lemma onMessage_commands fuel conn time cs t b s :
  inv b -> content b = wires cs ++ t -> Forall command_ok cs -> no_message t -> (length cs < fuel)%nat ->
  match execs conn time cs s with
  | Ok (s', es) => exists b', onMessage fuel conn time b s = Ok (s', es, b') /\ inv b' /\ content b' = t
  | Fault f => onMessage fuel conn time b s = Fault f
  end.
Proof.
  revert cs b s. induction fuel as [|fuel IH]; intros cs b s Hi Hc Hok Ht Hf; [lia|]. cbn [onMessage].
  pose proof (parseMessage_eq b Hi) as Hp. rewrite Hc in Hp. destruct cs as [|c cs].
  - cbn in Hp, Hc. rewrite Ht in Hp. destruct Hp as (? & ? & ->). cbn. by exists b.
  - apply Forall_cons in Hok as [Hco Hok]. unfold wires in Hp. cbn [fmap list_fmap concat] in Hp.
    rewrite <- app_assoc, (parse_wire c _ Hco) in Hp. fold (wires cs) in Hp.
    assert (Hp' : exists name topic text b1, parseMessage b = Ok (kSuccess, name, topic, text, b1) /\
      inv b1 /\ content b1 = wires cs ++ t /\ parsed_as c (wires cs ++ t) = PMessage name topic text (wires cs ++ t)).
    { destruct c; destruct Hp as (b1 & ? & ? & ?); eexists _, _, _, b1; done. }
    destruct Hp' as (name & topic & text & b1 & -> & Hi1 & Hc1 & Hpa). cbn [mbind res_bind].
    cbn [length] in Hf. destruct c; cbn in Hpa; injection Hpa as <- <- <-; cbn [execs exec].
    + rewrite bool_decide_true by done. destruct (doPublish _ _ _ _) as [s1 es1]. cbn [mbind res_bind].
      specialize (IH cs b1 s1 Hi1 Hc1 Hok Ht ltac:(lia)). destruct (execs conn time cs s1) as [[s2 es2]|]; [|by rewrite IH].
      destruct IH as (b' & -> & ?). by exists b'.
    + rewrite bool_decide_false, bool_decide_true by done. destruct (doSubscribe _ _ _) as [[s1 es1]|]; [|done]. cbn [mbind res_bind].
      specialize (IH cs b1 s1 Hi1 Hc1 Hok Ht ltac:(lia)). destruct (execs conn time cs s1) as [[s2 es2]|]; [|by rewrite IH].
      destruct IH as (b' & -> & ?). by exists b'.
    + rewrite !bool_decide_false, bool_decide_true by done. destruct (doUnsubscribe _ _ _) as [s1|]; [|done]. cbn [mbind res_bind].
      specialize (IH cs b1 s1 Hi1 Hc1 Hok Ht ltac:(lia)). destruct (execs conn time cs s1) as [[s2 es2]|]; [|by rewrite IH].
      destruct IH as (b' & -> & ?). by exists b'.
Qed.

(** ** What a hub promises *)

(** Who subscribes to what, and the last message of each topic. *)
Record spec := mkSpec { subs : gset (Z * str); last : gmap str str }.

(** What each connection is sent. *)
Abbreviation output := (Z -> list str) (only parsing).

Definition silence : output := fun _ => [].
Definition message (topic text : str) : str := wire (Pub topic text).

Definition spec_pub (topic text : str) (sp : spec) : spec * output :=
  (mkSpec (subs sp) (<[topic := text]> (last sp)),
   fun c => if decide ((c, topic) ∈ subs sp) then [message topic text] else []).

Definition spec_exec (conn : Z) (c : command) (sp : spec) : spec * output :=
  match c with
  | Pub topic text => spec_pub topic text sp
  | Sub topic =>
      (mkSpec ({[(conn, topic)]} ∪ subs sp) (last sp),
       fun c => if decide (c = conn) then match last sp !! topic with Some text => [message topic text] | None => [] end else [])
  | Unsub topic => (mkSpec (subs sp ∖ {[(conn, topic)]}) (last sp), silence)
  end.

Fixpoint spec_execs (conn : Z) (cs : list command) (sp : spec) : spec * output :=
  match cs with
  | [] => (sp, silence)
  | c :: cs =>
      let '(sp, o1) := spec_exec conn c sp in
      let '(sp, o2) := spec_execs conn cs sp in (sp, fun c => o1 c ++ o2 c)
  end.

Definition spec_close (conn : Z) (sp : spec) : spec := mkSpec (filter (fun p => p.1 <> conn) (subs sp)) (last sp).

(** ** The code does it *)

Definition sends (c : Z) (es : list effect) : list str :=
  omap (fun e => match e with Send c' m => if decide (c' = c) then Some m else None | _ => None end) es.

Lemma sends_app c es1 es2 : sends c (es1 ++ es2) = sends c es1 ++ sends c es2.
Proof. apply omap_app. Qed.

Lemma sends_fan c m l : NoDup l -> sends c ((fun c => Send c m) <$> l) = if decide (c ∈ l) then [m] else [].
Proof.
  induction 1 as [|x l Hx _ IH]; [done|]. cbn [fmap list_fmap]. change (Send x m :: ?r) with ([Send x m] ++ r).
  rewrite sends_app, IH. cbn. destruct (decide (x = c)) as [->|Hne].
  - rewrite decide_False by done. rewrite decide_True by set_solver. done.
  - cbn. destruct (decide (c ∈ l)); [rewrite decide_True by set_solver|rewrite decide_False by set_solver]; done.
Qed.

Definition no_shutdown (es : list effect) : Prop := forall c, ShutdownConn c ∉ es.

Record refines (sp : spec) (s : PubSubServer) : Prop := {
  ref_name t : topic_ (getTopic t s) = t;
  ref_audience c t : (c, t) ∈ subs sp <-> c ∈ audiences_ (getTopic t s);
  ref_context c t : (c, t) ∈ subs sp <-> exists ts, contexts s !! c = Some ts /\ t ∈ ts;
  ref_last t : last sp !! t = if valid (lastPubTime_ (getTopic t s)) then Some (content_ (getTopic t s)) else None }.

Lemma getTopic_set t t' x s : getTopic t' (setTopic t x s) = if decide (t' = t) then x else getTopic t' s.
Proof.
  unfold getTopic, setTopic. cbn. destruct (decide (t' = t)) as [->|]; [by rewrite lookup_insert_eq|].
  by rewrite lookup_insert_ne.
Qed.

Lemma publish_refines sp s topic text time :
  refines sp s -> valid time = true ->
  let '(s', es) := doPublish topic text time s in let '(sp', out) := spec_pub topic text sp in
  refines sp' s' /\ contexts s' = contexts s /\ no_shutdown es /\ forall c, sends c es = out c.
Proof.
  intros [Hn Ha Hc Hl] Hv. unfold doPublish, publish, spec_pub. split_and!.
  - split; cbn; intros.
    + rewrite getTopic_set. case_decide; subst; [apply Hn|apply Hn].
    + rewrite getTopic_set, Ha. by case_decide; subst.
    + apply Hc.
    + rewrite getTopic_set. case_decide as E; [subst; cbn; by rewrite Hv, lookup_insert_eq|].
      rewrite lookup_insert_ne by done. apply Hl.
  - done.
  - intros c [x [E _]]%list_elem_of_fmap. done.
  - intros c. cbn. rewrite sends_fan by apply NoDup_elements. unfold makeMessage, message. cbn. rewrite Hn.
    destruct (decide ((c, topic) ∈ subs sp)) as [Hin|Hin].
    + rewrite decide_True; [done|]. apply elem_of_elements. by apply Ha.
    + rewrite decide_False; [done|]. rewrite elem_of_elements. by rewrite <- Ha.
Qed.

Lemma getTopic_contexts t s m : getTopic t (mkHub (topics_ s) m) = getTopic t s.
Proof. done. Qed.

Lemma subscribe_refines sp s conn topic :
  refines sp s -> is_Some (contexts s !! conn) ->
  exists s' es, doSubscribe conn topic s = Ok (s', es) /\ no_shutdown es /\
    refines (spec_exec conn (Sub topic) sp).1 s' /\ (forall c, sends c es = (spec_exec conn (Sub topic) sp).2 c) /\
    dom (contexts s') = dom (contexts s).
Proof.
  intros [Hn Ha Hc Hl] [ts Hts]. unfold doSubscribe, connSub. rewrite Hts. cbn [mbind res_bind get].
  unfold Topic_add. rewrite getTopic_contexts. cbn [lastPubTime_ spec_exec fst snd]. eexists _, _. split; [done|]. split_and!.
  - intros c. destruct (valid _); set_solver.
  - split; cbn [subs last]; intros.
    + rewrite getTopic_set, getTopic_contexts. case_decide; subst; apply Hn.
    + rewrite getTopic_set, getTopic_contexts. case_decide; subst; cbn; rewrite elem_of_union, elem_of_singleton, Ha; [set_solver|naive_solver].
    + cbn. rewrite elem_of_union, elem_of_singleton, Hc. destruct (decide (c = conn)) as [->|Hne].
      * rewrite lookup_insert_eq, Hts. split; [|naive_solver set_solver].
        intros [[= ->]|(x & [= <-] & ?)]; eexists; split; [done|set_solver|done|set_solver].
      * rewrite lookup_insert_ne by done. naive_solver.
    + rewrite getTopic_set, getTopic_contexts. case_decide; subst; apply Hl.
  - intros c. rewrite Hl. destruct (valid _); [|by case_decide]. cbn. unfold makeMessage, message. cbn. rewrite Hn.
    repeat case_decide; congruence || done.
  - cbn. rewrite dom_insert_L. apply elem_of_dom_2 in Hts. set_solver.
Qed.

Lemma unsubscribe_refines sp s conn topic :
  refines sp s -> is_Some (contexts s !! conn) ->
  exists s', doUnsubscribe conn topic s = Ok s' /\ refines (spec_exec conn (Unsub topic) sp).1 s' /\
    dom (contexts s') = dom (contexts s).
Proof.
  intros [Hn Ha Hc Hl] [ts Hts]. unfold doUnsubscribe, connSub. cbn [contexts setTopic]. rewrite Hts. cbn [mbind res_bind get spec_exec fst].
  eexists. split; [done|]. split.
  - split; cbn [subs last]; intros; rewrite ?getTopic_contexts.
    + rewrite getTopic_set. case_decide; subst; apply Hn.
    + rewrite elem_of_difference, elem_of_singleton, Ha, getTopic_set. case_decide; subst; cbn; [set_solver|naive_solver].
    + cbn. rewrite elem_of_difference, elem_of_singleton, Hc. destruct (decide (c = conn)) as [->|Hne].
      * rewrite lookup_insert_eq, Hts. split.
        -- intros [(x & [= <-] & Hx) Hne]. exists (ts ∖ {[topic]}). split; [done|]. apply elem_of_difference.
           split; [done|]. rewrite elem_of_singleton. congruence.
        -- intros (x & [= <-] & [Hx Hne]%elem_of_difference). split; [eauto|]. rewrite elem_of_singleton in Hne. congruence.
      * rewrite lookup_insert_ne by done. naive_solver.
    + rewrite getTopic_set. case_decide; subst; apply Hl.
  - cbn. rewrite dom_insert_L. apply elem_of_dom_2 in Hts. set_solver.
Qed.

Lemma exec_refines sp s conn time c :
  refines sp s -> is_Some (contexts s !! conn) -> valid time = true ->
  exists s' es, exec conn time c s = Ok (s', es) /\ no_shutdown es /\ refines (spec_exec conn c sp).1 s' /\
    (forall x, sends x es = (spec_exec conn c sp).2 x) /\ dom (contexts s') = dom (contexts s).
Proof.
  intros Hr Hcx Hv. destruct c as [topic text|topic|topic]; cbn [exec].
  - pose proof (publish_refines sp s topic text time Hr Hv) as Hp. destruct (doPublish topic text time s) as [s' es].
    eexists _, _. split; [done|]. cbn [spec_exec]. destruct (spec_pub topic text sp) as [sp' out]. destruct Hp as (? & -> & ? & ?). done.
  - by apply subscribe_refines.
  - destruct (unsubscribe_refines sp s conn topic Hr Hcx) as (s' & -> & ? & ?). eexists _, _. split; [done|].
    split_and!; [intros x; apply not_elem_of_nil|done..].
Qed.

Lemma execs_refines sp s conn time cs :
  refines sp s -> is_Some (contexts s !! conn) -> valid time = true ->
  exists s' es, execs conn time cs s = Ok (s', es) /\ no_shutdown es /\ refines (spec_execs conn cs sp).1 s' /\
    (forall x, sends x es = (spec_execs conn cs sp).2 x) /\ dom (contexts s') = dom (contexts s).
Proof.
  intros Hr Hcx Hv. revert sp s Hr Hcx. induction cs as [|c cs IH]; intros sp s Hr Hcx; cbn [execs spec_execs].
  { eexists _, _. split; [done|]. split_and!; [intros x; apply not_elem_of_nil|done..]. }
  destruct (exec_refines sp s conn time c Hr Hcx Hv) as (s1 & es1 & -> & Hs1 & Hr1 & Ho1 & Hd1). cbn [mbind res_bind].
  destruct (spec_exec conn c sp) as [sp1 o1]. cbn [fst snd] in *.
  destruct (IH sp1 s1 Hr1) as (s2 & es2 & -> & Hs2 & Hr2 & Ho2 & Hd2).
  { apply elem_of_dom. rewrite Hd1. by apply elem_of_dom. }
  cbn [mbind res_bind]. destruct (spec_execs conn cs sp1) as [sp2 o2]. cbn [fst snd] in *.
  eexists _, _. split; [done|]. split_and!; [|done| |by rewrite Hd2].
  - intros x [?|?]%elem_of_app; [by eapply Hs1|by eapply Hs2].
  - intros x. by rewrite sends_app, Ho1, Ho2.
Qed.

(** A connection that closes drops its subscriptions. *)
Lemma unsubscribe_all_refines sp s conn l :
  refines sp s -> is_Some (contexts s !! conn) ->
  exists s', unsubscribe_all conn l s = Ok s' /\
    refines (mkSpec (filter (fun p => ~ (p.1 = conn /\ p.2 ∈ l)) (subs sp)) (last sp)) s' /\
    dom (contexts s') = dom (contexts s).
Proof.
  revert sp s. induction l as [|t l IH]; intros sp s Hr Hcx; cbn [unsubscribe_all].
  - exists s. split_and!; [done| |done]. replace (filter _ (subs sp)) with (subs sp); [by destruct sp|].
    apply set_eq. intros p. rewrite elem_of_filter. set_solver.
  - destruct (unsubscribe_refines sp s conn t Hr Hcx) as (s1 & -> & Hr1 & Hd1). cbn [mbind res_bind].
    destruct (IH _ s1 Hr1) as (s2 & -> & Hr2 & Hd2).
    { apply elem_of_dom. rewrite Hd1. by apply elem_of_dom. }
    exists s2. split_and!; [done| |by rewrite Hd2]. cbn in Hr2.
    replace (filter _ (subs sp)) with (filter (fun p => ~ (p.1 = conn /\ p.2 ∈ l)) (subs sp ∖ {[(conn, t)]})); [done|].
    apply set_eq. intros [c u]. rewrite !elem_of_filter, elem_of_difference, elem_of_singleton. set_solver.
Qed.

Lemma close_refines sp s conn :
  refines sp s -> is_Some (contexts s !! conn) ->
  exists s', onConnectionDown conn s = Ok s' /\ refines (spec_close conn sp) s' /\ dom (contexts s') = dom (contexts s).
Proof.
  intros Hr [ts Hts]. unfold onConnectionDown, connSub. rewrite Hts. cbn [mbind res_bind get].
  destruct (unsubscribe_all_refines sp s conn (elements ts) Hr) as (s' & -> & Hr' & Hd); [done|].
  exists s'. split_and!; [done| |done]. unfold spec_close.
  replace (filter (fun p => p.1 <> conn) (subs sp)) with (filter (fun p => ~ (p.1 = conn /\ p.2 ∈ elements ts)) (subs sp)); [done|].
  apply set_eq. intros [c t]. rewrite !elem_of_filter, elem_of_elements. cbn. split; [|naive_solver].
  intros [Hn Hin]. split; [|done]. intros ->. apply Hn. split; [done|].
  apply (ref_context sp s Hr) in Hin as (ts' & E & ?). rewrite Hts in E. by injection E as <-.
Qed.

(** ** Connections *)

(** The hub and the input buffers of its connections. *)
Record Sys := mkSys { hub : PubSubServer; bufs : gmap Z Buffer }.

(** [Read c d time cs]: connection [c] receives the bytes [d], which complete [cs]. *)
Inductive event :=
| Up (c : Z)
| Down (c : Z)
| Read (c : Z) (d : str) (time : Z) (cs : list command)
| Tick (now : Z).

Definition step (e : event) (s : Sys) : res (Sys * list effect) :=
  match e with
  | Up c => b ← newBuffer kInitialSize; Ok (mkSys (onConnectionUp c (hub s)) (<[c := b]> (bufs s)), [])
  | Down c => h ← onConnectionDown c (hub s); Ok (mkSys h (delete c (bufs s)), [])
  | Read c d time _ =>
      b ← get (bufs s !! c);
      b ← append d b;
      '(h, es, b) ← onMessage (S (Z.to_nat (readableBytes b))) c time b (hub s);
      Ok (mkSys h (<[c := b]> (bufs s)), es)
  | Tick now => let '(h, es) := timePublish now (hub s) in Ok (mkSys h (bufs s), es)
  end.

Fixpoint run (evs : list event) (s : Sys) : res (Sys * list effect) :=
  match evs with
  | [] => Ok (s, [])
  | e :: evs => '(s, es) ← step e s; '(s, es') ← run evs s; Ok (s, es ++ es')
  end.

(** Connections are new when they come up; what they send are commands; the clock is set. *)
Definition legal (e : event) (s : Sys) : Prop :=
  match e with
  | Up c => contexts (hub s) !! c = None
  | Down c => is_Some (bufs s !! c)
  | Read c d time cs =>
      valid time = true /\ zlen d <= max_size /\ Forall command_ok cs /\
      match bufs s !! c with
      | Some b => let x := content b ++ d in
          take (length (wires cs)) x = wires cs /\ no_message (drop (length (wires cs)) x)
      | None => False
      end
  | Tick now => valid now = true
  end.

Fixpoint legal_run (evs : list event) (s : Sys) : Prop :=
  match evs with
  | [] => True
  | e :: evs => legal e s /\ match step e s with Ok (s, _) => legal_run evs s | Fault _ => True end
  end.

#[export] Instance command_ok_dec c : Decision (command_ok c).
Proof. destruct c; apply _. Defined.
#[export] Instance legal_dec e s : Decision (legal e s).
Proof. destruct e; cbn [legal]; unfold no_message; repeat case_match; apply _. Defined.
#[export] Instance legal_run_dec evs s : Decision (legal_run evs s).
Proof.
  revert s. induction evs as [|e evs IH]; intros s; cbn [legal_run]; [apply _|].
  apply and_dec; [apply _|]. destruct (step e s) as [[s' ?]|]; [apply IH|apply _].
Defined.

Definition spec_step (e : event) (sp : spec) : spec * output :=
  match e with
  | Up _ => (sp, silence)
  | Down c => (spec_close c sp, silence)
  | Read c _ _ cs => spec_execs c cs sp
  | Tick now => spec_pub (lit "utc_time") (toFormattedString now true) sp
  end.

Fixpoint spec_run (evs : list event) (sp : spec) : spec * output :=
  match evs with
  | [] => (sp, silence)
  | e :: evs =>
      let '(sp, o1) := spec_step e sp in
      let '(sp, o2) := spec_run evs sp in (sp, fun c => o1 c ++ o2 c)
  end.

Definition sys_refines (sp : spec) (s : Sys) : Prop :=
  refines sp (hub s) /\ dom (bufs s) ⊆ dom (contexts (hub s)) /\ forall c b, bufs s !! c = Some b -> inv b.

Lemma commands_length cs : (length cs <= length (wires cs))%nat.
Proof.
  induction cs as [|c cs IH]; [done|]. unfold wires in *. cbn [fmap list_fmap concat length]. rewrite length_app.
  destruct c; cbn [wire]; rewrite length_app; change (length (lit "pub ")) with 4%nat; change (length (lit "sub ")) with 4%nat;
    change (length (lit "unsub ")) with 6%nat; lia.
Qed.

Lemma step_refines e sp s :
  sys_refines sp s -> legal e s ->
  outcome LengthError (step e s) (fun '(s', es) => sys_refines (spec_step e sp).1 s' /\ no_shutdown es /\
    forall c, sends c es = (spec_step e sp).2 c).
Proof.
  intros (Hr & Hd & Hb) Hl. destruct e as [c|c|c d time cs|now]; cbn [step legal] in *.
  - destruct (newBuffer_spec kInitialSize) as (b & -> & Hi & _);
      [unfold kInitialSize; lia|unfold kCheapPrepend, kInitialSize, max_size; lia|]. cbn [mbind res_bind]. apply outcome_Ok.
    split; [|split; [intros x; apply not_elem_of_nil|done]]. split_and!.
    + destruct Hr as [Hn Ha Hc Hla]. split; cbn [hub spec_step fst]; try done. intros x t. rewrite Hc. unfold onConnectionUp. cbn.
      destruct (decide (x = c)) as [->|]; [|by rewrite lookup_insert_ne].
      rewrite Hl, lookup_insert_eq. split; [by intros (? & ? & _)|]. intros (ts & [= <-] & Hin). by apply not_elem_of_empty in Hin.
    + cbn. rewrite !dom_insert_L. set_solver.
    + cbn. intros x b' [[<- <-]|[_ E]]%lookup_insert_Some; [done|eauto].
  - destruct (close_refines sp (hub s) c Hr) as (h & -> & Hr' & Hd').
    { apply elem_of_dom. apply Hd. by apply elem_of_dom. }
    cbn [mbind res_bind]. apply outcome_Ok. split; [|split; [intros x; apply not_elem_of_nil|done]]. split_and!; cbn; [done| |].
    + rewrite dom_delete_L, Hd'. set_solver.
    + intros x b' [_ E]%lookup_delete_Some. eauto.
  - destruct Hl as (Hv & Hz & Hok & Hl). destruct (bufs s !! c) as [b|] eqn:Eb; [|done]. destruct Hl as [Hw Ht].
    set (t := drop _ _) in Ht. rewrite <- (take_drop (length (wires cs)) (content b ++ d)) in Hw.
    assert (Hx : content b ++ d = wires cs ++ t) by (rewrite <- Hw at 1; unfold t; by rewrite !take_drop).
    clear Hw. rename Hx into Hw. cbn [mbind res_bind get].
    destruct (append_outcome d b (Hb _ _ Eb) Hz) as [(b1 & -> & Hi1 & Hc1)|[-> _]]; [|by right]. cbn [mbind res_bind].
    destruct (execs_refines sp (hub s) c time cs Hr) as (h & es & E & Hsd & Hr' & Ho & Hd').
    { apply elem_of_dom, Hd, elem_of_dom. eauto. }
    { done. }
    pose proof (onMessage_commands (S (Z.to_nat (readableBytes b1))) c time cs t b1 (hub s) Hi1) as Hm. rewrite E in Hm.
    destruct Hm as (b2 & -> & Hi2 & Hc2); [by rewrite Hc1|done..| |].
    { rewrite readableBytes_content, Hc1, Hw by done. unfold zlen. rewrite Nat2Z.id, length_app. pose proof (commands_length cs). lia. }
    cbn [mbind res_bind]. apply outcome_Ok. split; [|done]. split_and!; cbn; [done| |].
    + rewrite dom_insert_L, Hd'. apply elem_of_dom_2 in Eb. set_solver.
    + intros x b' [[<- <-]|[_ E']]%lookup_insert_Some; [done|eauto].
  - unfold timePublish. cbn [spec_step].
    pose proof (publish_refines sp (hub s) (lit "utc_time") (toFormattedString now true) now Hr Hl) as Hp.
    destruct (doPublish _ _ now (hub s)) as [h es]. destruct (spec_pub _ _ sp) as [sp' out]. destruct Hp as (Hr' & Hcx & Hsd & Ho).
    apply outcome_Ok. cbn. split; [|done]. split_and!; cbn; [done|by rewrite Hcx|done].
Qed.

Lemma run_refines evs sp s :
  sys_refines sp s -> legal_run evs s ->
  outcome LengthError (run evs s) (fun '(s', es) => sys_refines (spec_run evs sp).1 s' /\ no_shutdown es /\
    forall c, sends c es = (spec_run evs sp).2 c).
Proof.
  revert sp s. induction evs as [|e evs IH]; intros sp s Hs Hl; cbn [run spec_run].
  { apply outcome_Ok. split; [done|]. split; [intros x; apply not_elem_of_nil|done]. }
  destruct Hl as [Hl Hls]. destruct (step_refines e sp s Hs Hl) as [([s1 es1] & E & Hs1 & Hn1 & Ho1)|E];
    rewrite E in *; [|by right]. cbn [mbind res_bind]. destruct (spec_step e sp) as [sp1 o1]. cbn [fst snd] in *.
  eapply outcome_bind; [by apply (IH sp1 s1)|]. intros [s2 es2] (Hs2 & Hn2 & Ho2). apply outcome_Ok.
  destruct (spec_run evs sp1) as [sp2 o2]. cbn [fst snd] in *. split; [done|]. split.
  - intros x [?|?]%elem_of_app; [by eapply Hn1|by eapply Hn2].
  - intros c. by rewrite sends_app, Ho1, Ho2.
Qed.

Definition start : Sys := mkSys (mkHub ∅ ∅) ∅.
Definition nobody : spec := mkSpec ∅ ∅.

(** [C11] The hub.  For any connections that come, send commands in reads cut anywhere and
    go, and any ticks of the clock: no assertion fails, no one is disconnected, and every
    connection is sent exactly what the specification says, in order: each message published on
    a topic while it subscribes to it, and on subscribing the last message of the topic.
    Afterwards the code's topics and contexts hold exactly the subscriptions there are. *)
Theorem hub_correct evs :
  legal_run evs start ->
  outcome LengthError (run evs start) (fun '(s, es) =>
    (forall c, sends c es = (spec_run evs nobody).2 c) /\ no_shutdown es /\
    (forall c t, (c, t) ∈ subs (spec_run evs nobody).1 <-> c ∈ audiences_ (getTopic t (hub s))) /\
    (forall c t, (c, t) ∈ subs (spec_run evs nobody).1 <-> exists ts, contexts (hub s) !! c = Some ts /\ t ∈ ts)).
Proof.
  intros Hl. eapply outcome_impl; [apply (run_refines evs nobody start); [|done]|].
  - split_and!; [|done|done]. split; try done; cbn; set_solver.
  - intros [s es] (([Hn Ha Hc _] & _) & Hsd & Ho). done.
Qed.

(** ** Subscribers *)

(** A client is called back once for every message the hub sends it, in order. *)
Lemma client_messages fuel time ms t b p :
  inv b -> content b = wires (uncurry Pub <$> ms) ++ t -> Forall (fun m => command_ok (uncurry Pub m)) ms -> no_message t ->
  Client.subscribeCallback_ p = true -> (length ms < fuel)%nat ->
  exists b', Client.client_onMessage fuel time b p = Ok ((fun m => Client.SubscribeCallback m.1 m.2 time) <$> ms, b') /\
    inv b' /\ content b' = t.
Proof.
  revert ms b. induction fuel as [|fuel IH]; intros ms b Hi Hc Hok Ht Hcb Hf; [lia|]. cbn [Client.client_onMessage].
  pose proof (parseMessage_eq b Hi) as Hp. rewrite Hc in Hp. destruct ms as [|[topic text] ms].
  - cbn in Hp, Hc. rewrite Ht in Hp. destruct Hp as (? & ? & ->). cbn. by exists b.
  - apply Forall_cons in Hok as [Hco Hok]. unfold wires in Hp. cbn [fmap list_fmap concat] in Hp.
    rewrite <- app_assoc, (parse_wire _ _ Hco) in Hp. fold (wires (uncurry Pub <$> ms)) in Hp. cbn [uncurry parsed_as] in Hp.
    destruct Hp as (b1 & -> & Hi1 & Hc1). cbn [mbind res_bind]. rewrite Hcb. cbn [length] in Hf.
    destruct (IH ms b1 Hi1 Hc1 Hok Ht Hcb ltac:(lia)) as (b' & -> & ?). by exists b'.
Qed.

(** What a connected client sends are commands. *)
Lemma client_commands topic text p :
  Client.conn_ p = true ->
  (Client.subscribe topic p).2 = [Client.SendHub (wire (Sub topic))] /\
  Client.unsubscribe topic p = [Client.SendHub (wire (Unsub topic))] /\
  (Client.client_publish topic text p).2 = [Client.SendHub (wire (Pub topic text))].
Proof. intros Hc. unfold Client.subscribe, Client.unsubscribe, Client.client_publish, Client.send. cbn. by rewrite Hc. Qed.

(** ** Examples *)

Definition pub_hi : str := wire (Pub (lit "a") (lit "hi")).

Definition chatter : list event :=
  [Up 1; Up 2; Read 1 (wire (Sub (lit "a"))) 5 [Sub (lit "a")]; Read 2 (take 3 pub_hi) 6 [];
   Read 2 (drop 3 pub_hi) 7 [Pub (lit "a") (lit "hi")]; Read 2 (wire (Sub (lit "a"))) 8 [Sub (lit "a")]; Down 1; Tick 9].

Lemma hub_correct_witness :
  exists s es, run chatter start = Ok (s, es) /\ sends 1 es = [pub_hi] /\ sends 2 es = [pub_hi] /\
    (forall c, sends c es = (spec_run chatter nobody).2 c).
Proof.
  destruct (hub_correct chatter) as [([s es] & E & Ho & _)|E].
  - apply (bool_decide_unpack _). vm_compute. exact I.
  - exists s, es. split; [exact E|]. split; [|split; [|exact Ho]]; rewrite Ho; vm_compute; reflexivity.
  - vm_compute in E. discriminate.
Defined.

(** A line with an unknown command ends the loop and is consumed; what follows it in the buffer
    is executed at the next read, although the connection was shut down. *)
Example unknown_command_then_more :
  exists s, (b ← newBuffer kInitialSize; b ← append (lit "foo x" ++ kCRLF ++ wire (Sub (lit "a"))) b;
    '(h, es1, b) ← onMessage 10 1 5 b (mkHub ∅ {[1 := ∅]});
    '(h, es2, b) ← onMessage 10 1 5 b h; Ok (es1, es2, contexts h)) = Ok ([ShutdownConn 1], [], s) /\
  s !! 1 = Some {[lit "a"]}.
Proof. eexists. split; [vm_compute; reflexivity|]. vm_compute. reflexivity. Qed.
