(* ===== verification/Idle.v ===== *)
(** * Closing idle connections (examples/idleconnection)

    Two echo servers that shut down connections which have been silent for some seconds: with
    a timing wheel of buckets of reference-counted entries (echo.h, echo.cc, Module [Wheel])
    and with a list kept in the order of the last messages (sortedlist.cc, Module
    [SortedList]).  Connections and entries are numbers; [alive] are the connections whose
    TcpConnection objects exist, so that a weak pointer to them can be locked. *)
From S2P Require Import Prelude Buffer BufferTheory Timestamp.

(** Calls on connections: send, which drops the message on a connection that is being shut down
    (TcpConnection.v), shutdown, and forceCloseWithDelay. *)
Inductive effect :=
| SendTo (c : Z) (msg : list char)
| Shutdown (c : Z)
| ForceCloseWithDelay (c : Z).

(** ** The timing wheel *)

(** boost::circular_buffer of buckets, of which the server uses a buffer made with a capacity
    and resized to it, its last element and push_back; [br_items] are the elements from the
    front to the back. *)
Class BucketRing (Q : Type) := {
  br_new : nat -> Q;
  br_back : Q -> option (gset Z);
  br_set_back : gset Z -> Q -> Q;
  br_push_back : gset Z -> Q -> Q;
  br_items : Q -> list (gset Z);
  br_capacity : Q -> nat
}.

(** A push into a full buffer overwrites the element at the front. *)
Class BucketRingLaws (Q : Type) `{BucketRing Q} : Prop := {
  br_new_law n : br_items (br_new n) = replicate n ∅ /\ br_capacity (br_new n) = n;
  br_back_law q : br_back q = last (br_items q);
  br_set_back_law q l B B' : br_items q = l ++ [B] ->
    br_items (br_set_back B' q) = l ++ [B'] /\ br_capacity (br_set_back B' q) = br_capacity q;
  br_push_full_law q B0 l B : br_items q = B0 :: l -> length (br_items q) = br_capacity q ->
    br_items (br_push_back B q) = l ++ [B] /\ br_capacity (br_push_back B q) = br_capacity q
}.

(** A list and a capacity. *)
Definition list_ring : Type := list (gset Z) * nat.

#[global] Instance list_ring_ops : BucketRing list_ring := {
  br_new n := (replicate n ∅, n);
  br_back q := last q.1;
  br_set_back B q := (removelast q.1 ++ [B], q.2);
  br_push_back B q := if (length q.1 <? q.2)%nat then (q.1 ++ [B], q.2) else (tail q.1 ++ [B], q.2);
  br_items q := q.1;
  br_capacity q := q.2 }.

#[global] Instance list_ring_laws : BucketRingLaws list_ring.
Proof.
  split; try done.
  - intros [it cap] l B B' E. cbn in *. by rewrite E, removelast_last.
  - intros [it cap] B0 l B E Hc. cbn [br_items br_capacity br_push_back list_ring_ops fst snd] in *. subst.
    by rewrite Nat.ltb_irrefl.
Qed.

Module Wheel.
Section Server.
Context {Q : Type} `{BR : BucketRing Q}.

(** [weakConn_] maps an entry to its connection, [context] a connection to its entry.  An
    entry exists while some bucket holds a reference to it. *)
Record WheelServer := mkEcho {
  connectionBuckets_ : Q;
  weakConn_ : gmap Z Z;
  context : gmap Z Z;
  nextEntry : Z }.

Definition newWheelServer (idleSeconds : nat) : WheelServer := mkEcho (br_new idleSeconds) ∅ ∅ 0.

(** connectionBuckets_.back().insert(entry) *)
Definition back_insert (e : Z) (q : Q) : res Q :=
  B ← get (br_back q); Ok (br_set_back ({[e]} ∪ B) q).

Definition referenced (e : Z) (l : list (gset Z)) : bool := existsb (fun B => bool_decide (e ∈ B)) l.

Definition wheel_onConnectionUp (c : Z) (s : WheelServer) : res WheelServer :=
  let e := nextEntry s in
  q ← back_insert e (connectionBuckets_ s);
  Ok (mkEcho q (<[e := c]> (weakConn_ s)) (<[c := e]> (context s)) (e + 1)).

Definition wheel_onConnectionDown (c : Z) (s : WheelServer) : res WheelServer :=
  _ ← check (bool_decide (is_Some (context s !! c)));
  Ok s.

Definition wheel_onMessage (c : Z) (b : Buffer) (s : WheelServer) : res (WheelServer * Buffer * list effect) :=
  '(msg, b) ← retrieveAllAsString b;
  _ ← check (bool_decide (is_Some (context s !! c)));
  e ← get (context s !! c);
  if referenced e (br_items (connectionBuckets_ s)) then
    q ← back_insert e (connectionBuckets_ s);
    Ok (mkEcho q (weakConn_ s) (context s) (nextEntry s), b, [SendTo c msg])
  else Ok (s, b, [SendTo c msg]).

(** ~Entry *)
Definition destroy (alive : gset Z) (s : WheelServer) (e : Z) : list effect :=
  match weakConn_ s !! e with
  | Some c => if decide (c ∈ alive) then [Shutdown c] else []
  | None => []
  end.

(** push_back on the full circular buffer drops the bucket at the front, and with it the
    entries that no other bucket refers to. *)
Definition wheel_onTimer (alive : gset Z) (s : WheelServer) : WheelServer * list effect :=
  let front := default ∅ (head (br_items (connectionBuckets_ s))) in
  let q := br_push_back ∅ (connectionBuckets_ s) in
  (mkEcho q (weakConn_ s) (context s) (nextEntry s),
   elements front ≫= fun e => if referenced e (br_items q) then [] else destroy alive s e).
End Server.
End Wheel.

(** ** The sorted list *)

Module SortedList.

(** [connectionList_] as connections in the order of the list; a connection occurs at most
    once, which is what its [position] is for.  [context] holds each connection's
    lastReceiveTime in microseconds, [connected] the connections in state kConnected, which
    [shutdown] leaves. *)
Record ListServer := mkList {
  idleSeconds_ : Z;
  connectionList_ : list Z;
  context : gmap Z Z;
  connected : gset Z }.

Definition list_onConnectionUp (now c : Z) (s : ListServer) : ListServer :=
  mkList (idleSeconds_ s) (connectionList_ s ++ [c]) (<[c := now]> (context s)) ({[c]} ∪ connected s).

Definition erase (c : Z) (l : list Z) : list Z := filter (fun x => x <> c) l.

(** The node's iterator points at the connection's place in the list. *)
Definition position (c : Z) (s : ListServer) : res unit :=
  if decide (c ∈ connectionList_ s) then Ok tt else Fault OutOfBounds.

Definition list_onConnectionDown (c : Z) (s : ListServer) : res ListServer :=
  _ ← check (bool_decide (is_Some (context s !! c)));
  _ ← position c s;
  Ok (mkList (idleSeconds_ s) (erase c (connectionList_ s)) (context s) (connected s ∖ {[c]})).

Definition list_onMessage (c time : Z) (b : Buffer) (s : ListServer) : res (ListServer * Buffer * list effect) :=
  '(msg, b) ← retrieveAllAsString b;
  _ ← check (bool_decide (is_Some (context s !! c)));
  _ ← position c s;
  let l := erase c (connectionList_ s) ++ [c] in
  _ ← check (bool_decide (last l = Some c));
  Ok (mkList (idleSeconds_ s) l (<[c := time]> (context s)) (connected s), b, [SendTo c msg]).

(** The loop of onTimer over the rest [l] of the list; [kept] is what it has passed.  [age] is
    compared in microseconds. *)
Fixpoint timer_loop (alive : gset Z) (now : Z) (kept l : list Z) (s : ListServer) : res (ListServer * list effect) :=
  match l with
  | [] => Ok (mkList (idleSeconds_ s) kept (context s) (connected s), [])
  | c :: l =>
      if decide (c ∈ alive) then
        t ← get (context s !! c);
        let age := now - t in
        if idleSeconds_ s * kMicroSecondsPerSecond <? age then
          if decide (c ∈ connected s) then
            '(s, es) ← timer_loop alive now (kept ++ [c]) l
              (mkList (idleSeconds_ s) (connectionList_ s) (context s) (connected s ∖ {[c]}));
            Ok (s, [Shutdown c; ForceCloseWithDelay c] ++ es)
          else timer_loop alive now (kept ++ [c]) l s
        else if age <? 0 then
          timer_loop alive now (kept ++ [c]) l
            (mkList (idleSeconds_ s) (connectionList_ s) (<[c := now]> (context s)) (connected s))
        else Ok (mkList (idleSeconds_ s) (kept ++ c :: l) (context s) (connected s), [])
      else timer_loop alive now kept l s
  end.

Definition list_onTimer (alive : gset Z) (now : Z) (s : ListServer) : res (ListServer * list effect) :=
  timer_loop alive now [] (connectionList_ s) s.
End SortedList.
