(* ===== verification/IdleTheory.v ===== *)
(** * Idle connections are closed, busy ones are not

    Both servers of Idle.v against a specification that counts, for every connection, the
    ticks or the microseconds since it last spoke. *)
From S2P Require Import Prelude Buffer BufferTheory Timestamp Idle.

(** ** What can be seen of a step *)

(** What is echoed, and the connections that are shut down. *)
Record visible := mkVisible { echoed : list (Z * list char); shut : gset Z }.
Definition nothing : visible := mkVisible [] ∅.

Definition sends (es : list effect) : list (Z * list char) :=
  omap (fun e => match e with SendTo c m => Some (c, m) | _ => None end) es.
Definition shuts (es : list effect) : list Z :=
  omap (fun e => match e with Shutdown c => Some c | _ => None end) es.

(** The effects show exactly this: every shutdown once. *)
Definition shows (es : list effect) (v : visible) : Prop :=
  sends es = echoed v /\ NoDup (shuts es) /\ forall c, c ∈ shuts es <-> c ∈ shut v.

Lemma shows_nothing : shows [] nothing.
Proof. split_and!; [done|constructor|]. intros c. cbn. set_solver. Qed.

Lemma shows_echo c m : shows [SendTo c m] (mkVisible [(c, m)] ∅).
Proof. split_and!; [done|constructor|]. intros x. cbn. set_solver. Qed.

Lemma retrieveAllAsString_spec b : inv b -> exists b', retrieveAllAsString b = Ok (content b, b') /\ inv b' /\ content b' = [].
Proof.
  intros Hi. unfold retrieveAllAsString. rewrite readableBytes_content by done.
  destruct (retrieveAsString_spec (zlen (content b)) b Hi) as (b' & -> & Hi' & Hc'); [pose proof (zlen_nonneg (content b)); lia|].
  exists b'. unfold zlen in *. rewrite Nat2Z.id in *. rewrite take_ge, drop_ge in * by lia. done.
Qed.

Module WheelTheory.
Import Wheel.

(** ** Ages *)

(** How many ticks ago the entry was put in the wheel for the last time. *)
Fixpoint age (e : Z) (l : list (gset Z)) : option nat :=
  match l with [] => None | B :: l => if decide (e ∈ B) then Some O else S <$> age e l end.

Lemma age_lt e l k : age e l = Some k -> (k < length l)%nat.
Proof.
  revert k. induction l as [|B l IH]; intros k; cbn; [done|]. case_decide; [intros [= <-]; lia|].
  destruct (age e l) as [j|]; [|done]. intros [= <-]. specialize (IH j eq_refl). lia.
Qed.

Lemma referenced_age e l : referenced e l = true <-> is_Some (age e l).
Proof.
  unfold referenced. induction l as [|B l IH]; cbn; [by split; [|intros [? ?]]|].
  case_decide as Hd; [rewrite bool_decide_true by done; by split; [eauto|]|].
  rewrite bool_decide_false by done. cbn. rewrite IH. destruct (age e l); cbn; split; intros [? ?]; eauto; done.
Qed.

Lemma age_removelast e l :
  age e (removelast l) = match age e l with Some k => if decide (S k < length l)%nat then Some k else None | None => None end.
Proof.
  induction l as [|B [|B' l] IH]; [done| |].
  - cbn. case_decide; cbn; [|done]. by rewrite decide_False by lia.
  - change (removelast (B :: B' :: l)) with (B :: removelast (B' :: l)). cbn [age].
    destruct (decide (e ∈ B)); [by rewrite decide_True by (cbn; lia)|]. rewrite IH.
    change (if decide (e ∈ B') then Some 0%nat else S <$> age e l) with (age e (B' :: l)).
    destruct (age e (B' :: l)) as [k|]; cbn; [|done]. repeat case_decide; (done || cbn in *; lia).
Qed.

Lemma age_front e l :
  l <> [] -> e ∈ default ∅ (last l) /\ age e (removelast l) = None <-> age e l = Some (length l - 1)%nat.
Proof.
  intros Hl. destruct l as [|B l _] using rev_ind; [done|]. rewrite last_snoc, removelast_last. cbn [default].
  clear Hl. induction l as [|B' l IH]; cbn.
  - case_decide; split; [by intros _|by intros _|by intros []|done].
  - case_decide as Hd; [rewrite length_app; cbn; split; [by intros []|intros [= E]; lia]|].
    rewrite length_app in *. cbn in *. rewrite fmap_None, IH. destruct (age e (l ++ [B])) as [k|]; cbn; [|done].
    split; intros [= E]; f_equal; lia.
Qed.

(** ** The specification *)

(** For every connection that was not shut down, the ticks since it last spoke. *)
Abbreviation ages := (gmap Z nat) (only parsing).

Inductive event := Up (c : Z) | Down (c : Z) | Msg (c : Z) (b : Buffer) | Tick.

Definition spec_step (n : nat) (e : event) (a : ages) : ages * visible :=
  match e with
  | Up c => (<[c := O]> a, nothing)
  | Down c => (delete c a, nothing)
  | Msg c b => (if decide (is_Some (a !! c)) then <[c := O]> a else a, mkVisible [(c, content b)] ∅)
  | Tick => (S <$> filter (fun p => S p.2 < n)%nat a, mkVisible [] (dom (filter (fun p => ~ (S p.2 < n)%nat) a)))
  end.

Fixpoint spec_run (n : nat) (es : list event) (a : ages) : list visible :=
  match es with [] => [] | e :: es => let '(a, v) := spec_step n e a in v :: spec_run n es a end.

(** ** The server *)

Section Server.
Context {Q : Type} `{BRL : BucketRingLaws Q}.
Abbreviation WheelServer := (@WheelServer Q) (only parsing).

(** The buckets from the back to the front. *)
Definition view (s : WheelServer) : list (gset Z) := reverse (br_items (connectionBuckets_ s)).

Record Sys := mkSys { srv : WheelServer; alive : gset Z }.

Definition step (e : event) (s : Sys) : res (Sys * list effect) :=
  match e with
  | Up c => h ← wheel_onConnectionUp c (srv s); Ok (mkSys h ({[c]} ∪ alive s), [])
  | Down c => h ← wheel_onConnectionDown c (srv s); Ok (mkSys h (alive s ∖ {[c]}), [])
  | Msg c b => '(h, _, es) ← wheel_onMessage c b (srv s); Ok (mkSys h (alive s), es)
  | Tick => let '(h, es) := wheel_onTimer (alive s) (srv s) in Ok (mkSys h (alive s), es)
  end.

Fixpoint run (es : list event) (s : Sys) : res (list (list effect)) :=
  match es with [] => Ok [] | e :: es => '(s, o) ← step e s; os ← run es s; Ok (o :: os) end.

Definition legal (e : event) (s : Sys) : Prop :=
  match e with
  | Up c => context (srv s) !! c = None
  | Down c => c ∈ alive s
  | Msg c b => c ∈ alive s /\ inv b
  | Tick => True
  end.

Fixpoint legal_run (es : list event) (s : Sys) : Prop :=
  match es with
  | [] => True
  | e :: es => legal e s /\ match step e s with Ok (s, _) => legal_run es s | Fault _ => True end
  end.

Record wheel_inv (n : nat) (a : ages) (s : Sys) : Prop := {
  wheel_length : length (view (srv s)) = n;
  wheel_capacity : br_capacity (connectionBuckets_ (srv s)) = n;
  wheel_entry c e : context (srv s) !! c = Some e <-> weakConn_ (srv s) !! e = Some c;
  wheel_alive c : c ∈ alive s -> is_Some (context (srv s) !! c);
  wheel_fresh e : nextEntry (srv s) <= e -> weakConn_ (srv s) !! e = None;
  wheel_buckets e : is_Some (age e (view (srv s))) -> is_Some (weakConn_ (srv s) !! e);
  wheel_ages c : a !! c = if decide (c ∈ alive s) then e ← context (srv s) !! c; age e (view (srv s)) else None }.

Lemma age_insert e e' B l : age e' (({[e]} ∪ B) :: l) = if decide (e' = e) then Some O else age e' (B :: l).
Proof. cbn. repeat case_decide; (done || set_solver). Qed.

Lemma tick_lookup n (a : ages) c :
  (spec_step n Tick a).1 !! c = match a !! c with Some k => if decide (S k < n)%nat then Some (S k) else None | None => None end.
Proof.
  cbn. rewrite lookup_fmap, map_lookup_filter. destruct (a !! c) as [k|]; [|done]. cbn [mbind option_bind].
  case_decide; [by rewrite option_guard_True|by rewrite option_guard_False].
Qed.

Lemma tick_shut n (a : ages) c :
  (forall k, a !! c = Some k -> (k < n)%nat) -> c ∈ shut (spec_step n Tick a).2 <-> a !! c = Some (n - 1)%nat.
Proof.
  intros Hlt. cbn. rewrite elem_of_dom, map_lookup_filter. destruct (a !! c) as [k|] eqn:E; cbn; [|by split; [intros [? ?]|]].
  specialize (Hlt k eq_refl). case_guard; split; [intros _; f_equal; lia|by eauto|by intros [? ?]|intros [= ->]; lia].
Qed.

Lemma back_insert_ok e q B l :
  reverse (br_items q) = B :: l ->
  exists q', back_insert e q = Ok q' /\ reverse (br_items q') = ({[e]} ∪ B) :: l /\ br_capacity q' = br_capacity q.
Proof.
  intros E. assert (E' : br_items q = reverse l ++ [B]) by (by rewrite <- (reverse_involutive (br_items q)), E, reverse_cons).
  unfold back_insert. rewrite br_back_law, E', last_snoc. cbn [get mbind res_bind]. eexists. split; [done|].
  destruct (br_set_back_law q (reverse l) B ({[e]} ∪ B) E') as [-> ->]. by rewrite reverse_app, reverse_involutive.
Qed.

Lemma referenced_reverse e l : referenced e (reverse l) = referenced e l.
Proof.
  unfold referenced. apply eq_iff_eq_true. rewrite !existsb_exists. setoid_rewrite <- list_elem_of_In. by setoid_rewrite elem_of_reverse.
Qed.

Lemma wheel_up_ok n a s c :
  (0 < n)%nat -> wheel_inv n a s -> legal (Up c) s ->
  exists s', step (Up c) s = Ok (s', []) /\ wheel_inv n (<[c := O]> a) s'.
Proof.
  intros Hn [Hl Hcap He Ha Hf Hb Hag] Hc. cbn [step legal] in *. unfold wheel_onConnectionUp.
  destruct (view (srv s)) as [|B l] eqn:El; [cbn in Hl; lia|].
  destruct (back_insert_ok (nextEntry (srv s)) _ _ _ El) as (q & -> & Hq & Hqc). cbn [mbind res_bind].
  eexists. split; [done|]. set (e := nextEntry (srv s)) in *. assert (He0 : weakConn_ (srv s) !! e = None) by (apply Hf; lia).
  assert (Hca : c ∉ alive s) by (intros [? E]%Ha; congruence).
  split; cbn [srv alive connectionBuckets_ weakConn_ context nextEntry]; unfold view; cbn [connectionBuckets_]; rewrite ?Hq.
  - done.
  - congruence.
  - intros c' e'. rewrite !lookup_insert_Some, He. split.
    + intros [[<- <-]|[Hne E]]; [by left|]. right. split; [|done]. intros <-. congruence.
    + intros [[<- <-]|[Hne E]]; [by left|]. right. split; [|done]. intros <-. apply He in E. congruence.
  - intros c' [->%elem_of_singleton|Hin]%elem_of_union; [by rewrite lookup_insert_eq|].
    destruct (decide (c' = c)) as [->|]; [by rewrite lookup_insert_eq|]. rewrite lookup_insert_ne by done. by apply Ha.
  - intros e' Hle. rewrite lookup_insert_ne by lia. apply Hf. lia.
  - intros e'. rewrite age_insert. case_decide as Hd; [subst; by rewrite lookup_insert_eq|]. rewrite lookup_insert_ne by done. apply Hb.
  - intros c'. destruct (decide (c' = c)) as [->|Hne].
    + rewrite !lookup_insert_eq, decide_True by set_solver. cbn [mbind option_bind]. by rewrite age_insert, decide_True.
    + rewrite !lookup_insert_ne, Hag by done. destruct (decide (c' ∈ alive s)) as [Hin|Hin].
      * rewrite decide_True by set_solver. destruct (context (srv s) !! c') as [e'|] eqn:Ec; [|done]. cbn [mbind option_bind].
        rewrite age_insert, decide_False; [done|]. intros ->. apply He in Ec. congruence.
      * by rewrite decide_False by set_solver.
Qed.

Lemma wheel_down_ok n a s c :
  wheel_inv n a s -> legal (Down c) s -> exists s', step (Down c) s = Ok (s', []) /\ wheel_inv n (delete c a) s'.
Proof.
  intros [Hl Hcap He Ha Hf Hb Hag] Hc. cbn [step legal] in *. unfold wheel_onConnectionDown.
  rewrite bool_decide_true by (by apply Ha). cbn. eexists. split; [done|]. split; cbn; try done.
  - intros c' ?. apply Ha. set_solver.
  - intros c'. destruct (decide (c' = c)) as [->|Hne]; [by rewrite lookup_delete_eq, decide_False by set_solver|].
    rewrite lookup_delete_ne, Hag by done. destruct (decide (c' ∈ alive s)); [rewrite decide_True by set_solver|rewrite decide_False by set_solver]; done.
Qed.

Lemma wheel_msg_ok n a s c b :
  wheel_inv n a s -> legal (Msg c b) s ->
  exists s', step (Msg c b) s = Ok (s', [SendTo c (content b)]) /\
    wheel_inv n (if decide (is_Some (a !! c)) then <[c := O]> a else a) s'.
Proof.
  intros [Hl Hcap He Ha Hf Hb Hag] [Hc Hi]. cbn [step]. unfold wheel_onMessage.
  destruct (retrieveAllAsString_spec b Hi) as (b' & -> & _). cbn [mbind res_bind].
  rewrite bool_decide_true by (by apply Ha). cbn [check mbind res_bind]. destruct (Ha c Hc) as [e Ee]. rewrite Ee. cbn [get mbind res_bind].
  assert (Hac : a !! c = age e (view (srv s))) by (by rewrite Hag, decide_True, Ee).
  rewrite <- referenced_reverse. fold (view (srv s)). destruct (referenced e (view (srv s))) eqn:Er.
  - pose proof Er as [k Hk]%referenced_age. destruct (view (srv s)) as [|B l] eqn:El; [done|].
    destruct (back_insert_ok e _ _ _ El) as (q & -> & Hq & Hqc). cbn [mbind res_bind]. eexists. split; [done|]. rewrite decide_True by (rewrite Hac, Hk; eauto).
    split; cbn [srv alive connectionBuckets_ weakConn_ context nextEntry]; unfold view; cbn [connectionBuckets_];
      rewrite ?Hq; try done; [congruence| |].
    + intros e'. rewrite age_insert. case_decide as Hd; [|apply Hb]. subst. intros _. apply Hb. rewrite Hk. eauto.
    + intros c'. destruct (decide (c' = c)) as [->|Hne].
      * rewrite lookup_insert_eq, decide_True, Ee by done. cbn [mbind option_bind]. by rewrite age_insert, decide_True.
      * rewrite lookup_insert_ne, Hag by done. case_decide; [|done]. destruct (context (srv s) !! c') as [e'|] eqn:Ec; [|done].
        cbn [mbind option_bind]. rewrite age_insert, decide_False; [done|]. intros ->. apply He in Ec, Ee. congruence.
  - eexists. split; [done|]. rewrite decide_False; [by destruct s; split|].
    rewrite Hac. intros Hs%referenced_age. congruence.
Qed.

Lemma shuts_bind (g : Z -> list effect) l : shuts (l ≫= g) = l ≫= fun e => shuts (g e).
Proof. induction l as [|x l IH]; [done|]. cbn. unfold shuts at 1. rewrite omap_app. by f_equal. Qed.

Lemma sends_bind (g : Z -> list effect) l : (forall e, sends (g e) = []) -> sends (l ≫= g) = [].
Proof.
  intros Hg. induction l as [|x l IH]; [done|]. cbn. unfold sends. rewrite omap_app.
  unfold sends in Hg, IH. rewrite Hg. apply IH.
Qed.

(** The connections whose entries a tick destroys. *)
Lemma dropped_spec n a s e c :
  (0 < n)%nat -> wheel_inv n a s ->
  let l := view (srv s) in
  e ∈ elements (default ∅ (last l)) /\
    c ∈ shuts (if referenced e (∅ :: removelast l) then [] else destroy (alive s) (srv s) e) <->
  weakConn_ (srv s) !! e = Some c /\ c ∈ alive s /\ age e l = Some (n - 1)%nat.
Proof.
  intros Hn [Hl Hcap He Ha Hf Hb Hag]. cbn zeta. set (l := view (srv s)) in *.
  assert (Hne : l <> []) by (intros E; rewrite E in Hl; cbn in Hl; lia).
  pose proof (age_front e l Hne) as Hfr. rewrite Hl in Hfr. rewrite <- Hfr, elem_of_elements.
  assert (Href : referenced e (∅ :: removelast l) = false <-> age e (removelast l) = None).
  { rewrite <- not_true_iff_false, referenced_age. cbn. rewrite decide_False by set_solver.
    destruct (age e (removelast l)); cbn; split; try done. intros Hx. exfalso. eauto. }
  unfold destroy. destruct (referenced e (∅ :: removelast l)) eqn:Er.
  - cbn. split; [intros [_ ?%not_elem_of_nil]; done|]. intros (_ & _ & _ & E). apply Href in E. done.
  - destruct (weakConn_ (srv s) !! e) as [c'|]; [|cbn; split; [intros [_ ?%not_elem_of_nil]; done|by intros [? _]]].
    destruct (decide (c' ∈ alive s)) as [Hin|Hin]; cbn.
    + rewrite list_elem_of_singleton. split; [intros [? ->]; split_and!; [done..|by apply Href]|]. by intros ([= ->] & ? & ? & ?).
    + split; [intros [_ ?%not_elem_of_nil]; done|]. intros ([= ->] & ? & _). done.
Qed.

(** The timer in terms of the view. *)
Lemma onTimer_view n a s :
  (0 < n)%nat -> wheel_inv n a s ->
  exists q es, reverse (br_items q) = ∅ :: removelast (view (srv s)) /\ br_capacity q = n /\
    wheel_onTimer (alive s) (srv s) = (mkEcho q (weakConn_ (srv s)) (context (srv s)) (nextEntry (srv s)), es) /\
    es = elements (default ∅ (last (view (srv s)))) ≫=
      fun e => if referenced e (∅ :: removelast (view (srv s))) then [] else destroy (alive s) (srv s) e.
Proof.
  intros Hn [Hl Hcap _ _ _ _ _]. unfold view in *. rewrite length_reverse in Hl. unfold wheel_onTimer.
  destruct (br_items (connectionBuckets_ (srv s))) as [|B0 l0] eqn:E; [cbn in Hl; lia|].
  destruct (br_push_full_law (connectionBuckets_ (srv s)) B0 l0 ∅ E) as [Hq Hqc]; [by rewrite E, Hcap|].
  rewrite reverse_cons. assert (Hrl : removelast (reverse l0 ++ [B0]) = reverse l0) by apply removelast_last.
  eexists _, _. split; [|split; [|split; [done|]]].
  - by rewrite Hrl, Hq, reverse_app.
  - by rewrite Hqc.
  - rewrite last_snoc. cbn [head default]. apply list_bind_ext; [|done].
    intros e. by rewrite Hrl, Hq, <- (referenced_reverse e (l0 ++ [∅])), reverse_app.
Qed.

Lemma wheel_tick_ok n a s :
  (0 < n)%nat -> wheel_inv n a s ->
  exists s' es, step Tick s = Ok (s', es) /\ wheel_inv n (spec_step n Tick a).1 s' /\ shows es (spec_step n Tick a).2.
Proof.
  intros Hn Hinv. pose proof Hinv as [Hl Hcap He Ha Hf Hb Hag]. cbn [step].
  destruct (onTimer_view n a s Hn Hinv) as (q & es & Hq & Hqc & -> & ->).
  pose proof (dropped_spec n a s) as Hdrop. set (l := view (srv s)) in *. set (r := ∅ :: removelast l) in *.
  assert (Hage : forall e, age e r = match age e l with Some k => if decide (S k < n)%nat then Some (S k) else None | None => None end).
  { intros e. unfold r. cbn [age]. rewrite decide_False by set_solver. rewrite age_removelast, Hl.
    destruct (age e l); [|done]. by case_decide. }
  eexists _, _. split; [done|]. split.
  - split; cbn [srv alive connectionBuckets_ weakConn_ context nextEntry]; unfold view; cbn [connectionBuckets_]; rewrite ?Hq; try done.
    + unfold r. cbn [length]. destruct l as [|B l' _] using rev_ind; [cbn in Hl; lia|].
      rewrite removelast_last. rewrite length_app in Hl. cbn in Hl. lia.
    + intros e. rewrite Hage. intros [k Hk]. apply Hb. destruct (age e l); [eauto|done].
    + intros c. rewrite tick_lookup, Hag. case_decide; [|done]. destruct (context (srv s) !! c) as [e|]; [|done].
      cbn [mbind option_bind]. by rewrite Hage.
  - split_and!.
    + apply sends_bind. intros e. unfold destroy. by repeat case_match.
    + rewrite shuts_bind. apply NoDup_bind; [| |apply NoDup_elements].
      * intros e1 e2 c H1 H2 H3 H4. destruct (proj1 (Hdrop e1 c Hn Hinv) (conj H1 H3)) as (E1 & _).
        destruct (proj1 (Hdrop e2 c Hn Hinv) (conj H2 H4)) as (E2 & _). apply He in E1, E2. congruence.
      * intros e _. unfold destroy. repeat case_match; cbn; repeat constructor; set_solver.
    + intros c. rewrite tick_shut.
      2: { intros k. rewrite Hag. case_decide; [|done]. destruct (context (srv s) !! c) as [e|]; [|done]. cbn. rewrite <- Hl. apply age_lt. }
      rewrite shuts_bind, list_elem_of_bind. split.
      * intros (e & Hc & Hin). destruct (proj1 (Hdrop e c Hn Hinv) (conj Hin Hc)) as (E & Hal & Hk).
        apply He in E. by rewrite Hag, decide_True, E.
      * rewrite Hag. case_decide as Hal; [|done]. destruct (context (srv s) !! c) as [e|] eqn:Ec; [|done]. cbn. intros Hk.
        apply He in Ec. destruct (proj2 (Hdrop e c Hn Hinv) (conj Ec (conj Hal Hk))). eauto.
Qed.

Lemma wheel_step_ok n a s e :
  (0 < n)%nat -> wheel_inv n a s -> legal e s ->
  exists s' es, step e s = Ok (s', es) /\ wheel_inv n (spec_step n e a).1 s' /\ shows es (spec_step n e a).2.
Proof.
  intros Hn Hi Hl. destruct e as [c|c|c b|].
  - destruct (wheel_up_ok n a s c Hn Hi Hl) as (s' & ? & ?). exists s', []. split_and!; [done..|apply shows_nothing].
  - destruct (wheel_down_ok n a s c Hi Hl) as (s' & ? & ?). exists s', []. split_and!; [done..|apply shows_nothing].
  - destruct (wheel_msg_ok n a s c b Hi Hl) as (s' & ? & ?). eexists s', _. split_and!; [done..|apply shows_echo].
  - by apply wheel_tick_ok.
Qed.

Lemma wheel_run_ok n a s es :
  (0 < n)%nat -> wheel_inv n a s -> legal_run es s ->
  exists os, run es s = Ok os /\ Forall2 shows os (spec_run n es a).
Proof.
  intros Hn. revert a s. induction es as [|e es IH]; intros a s Hi Hl; cbn [run spec_run]; [by exists []|].
  destruct Hl as [Hl Hls]. destruct (wheel_step_ok n a s e Hn Hi Hl) as (s' & o & E & Hi' & Ho). rewrite E in *. cbn [mbind res_bind].
  destruct (spec_step n e a) as [a' v]. destruct (IH a' s' Hi' Hls) as (os & -> & Hos). eexists. split; [done|]. by constructor.
Qed.

Definition start (n : nat) : Sys := mkSys (newWheelServer n) ∅.

Lemma age_empty e n : age e (replicate n ∅) = None.
Proof. induction n as [|n IH]; [done|]. cbn. rewrite decide_False by set_solver. by rewrite IH. Qed.

(** [C38] The timing wheel with [n] buckets.  Whatever connections come, speak and go between the
    ticks of the timer: no assertion fails; each tick shuts down exactly the connections that are
    still there and whose last message (or whose coming) was followed by exactly [n] ticks, each
    once and never again; a connection that speaks after it was shut down is not armed again; and
    every message is handed to TcpConnection::send to be echoed, which sends it unless the
    connection was shut down before. *)
Theorem wheel_correct n es :
  (0 < n)%nat -> legal_run es (start n) -> exists os, run es (start n) = Ok os /\ Forall2 shows os (spec_run n es ∅).
Proof.
  intros Hn Hl. apply wheel_run_ok; [done| |done]. destruct (br_new_law n) as [Hnew Hcap].
  assert (Hv : view (newWheelServer n) = replicate n ∅) by (unfold view; cbn; by rewrite Hnew, reverse_replicate).
  split; cbn; rewrite ?Hv; try done.
  - apply length_replicate.
  - intros e. rewrite age_empty. by intros [? ?].
Qed.

End Server.

#[export] Instance wheel_legal_dec (e : event) (s : Sys (Q := list_ring)) : Decision (legal e s).
Proof. destruct e; cbn [legal]; unfold inv; apply _. Defined.
#[export] Instance wheel_legal_run_dec es (s : Sys (Q := list_ring)) : Decision (legal_run es s).
Proof.
  revert s. induction es as [|e es IH]; intros s; cbn [legal_run]; [apply _|].
  apply and_dec; [apply _|]. destruct (step e s) as [[s' ?]|]; [apply IH|apply _].
Defined.

Definition hello : Buffer := mkBuffer (replicate 8 (chr 0) ++ lit "hi") 8 10.
Definition quiet_then_gone : list event := [Up 1; Tick; Msg 1 hello; Tick; Up 2; Tick; Msg 1 hello; Tick; Tick].

Lemma wheel_correct_witness :
  exists os, run quiet_then_gone (start (Q := list_ring) 2) = Ok os /\ Forall2 shows os (spec_run 2 quiet_then_gone ∅) /\
    os = [[]; []; [SendTo 1 (lit "hi")]; []; []; [Shutdown 1]; [SendTo 1 (lit "hi")]; [Shutdown 2]; []].
Proof.
  destruct (wheel_correct (Q := list_ring) 2 quiet_then_gone) as (os & E & Hos).
  - lia.
  - apply (bool_decide_unpack _). vm_compute. exact I.
  - exists os. split; [exact E|]. split; [exact Hos|]. vm_compute in E. injection E as <-. reflexivity.
Defined.
End WheelTheory.

Module SortedTheory.
Import SortedList.

(** ** Order *)

Section Order.
Context (t : Z -> Z).

Fixpoint sorted (l : list Z) : Prop :=
  match l with [] => True | c :: l => Forall (fun x => t c <= t x) l /\ sorted l end.

Lemma latest_snoc l c : sorted l -> Forall (fun x => t x <= t c) l -> sorted (l ++ [c]).
Proof.
  induction l as [|x l IH]; cbn; [by intros|]. intros [Hx Hl] [Hxc Hc]%Forall_cons. split; [|by apply IH].
  apply Forall_app. split; [done|by apply Forall_singleton].
Qed.

Lemma sorted_filter (P : Z -> Prop) `{!forall x, Decision (P x)} l : sorted l -> sorted (filter P l).
Proof.
  induction l as [|x l IH]; cbn; [done|]. intros [Hx Hl]. destruct (decide (P x)); [|by apply IH].
  split; [|by apply IH]. apply Forall_forall. intros y [_ Hy]%list_elem_of_filter. rewrite Forall_forall in Hx. by apply Hx.
Qed.
End Order.

Lemma sorted_ext t t' l : (forall x, x ∈ l -> t x = t' x) -> sorted t l -> sorted t' l.
Proof.
  induction l as [|x l IH]; cbn; [done|]. intros E [Hx Hl]. split; [|apply IH; [|done]; intros; apply E; by right].
  rewrite Forall_forall in *. intros y Hy. rewrite <- !E by (by left || by right). by apply Hx.
Qed.

(** ** The specification *)

(** When each connection last spoke, and the connections not shut down yet. *)
Record spec := mkSpec { spoke : gmap Z Z; conns : gset Z }.

Inductive event := Up (c now : Z) | Down (c : Z) | Msg (c time : Z) (b : Buffer) | Tick (now : Z).

Definition idle (idleSeconds now : Z) (m : gmap Z Z) (c : Z) : Prop :=
  exists t, m !! c = Some t /\ idleSeconds * kMicroSecondsPerSecond < now - t.
#[export] Instance idle_dec i now m c : Decision (idle i now m c).
Proof.
  unfold idle. destruct (m !! c) as [t|]; [|right; by intros (? & ? & _)].
  destruct (decide (i * kMicroSecondsPerSecond < now - t)); [left; eauto|right; by intros (? & [= <-] & ?)].
Defined.

Definition spec_step (i : Z) (e : event) (sp : spec) : spec * visible :=
  match e with
  | Up c now => (mkSpec (<[c := now]> (spoke sp)) ({[c]} ∪ conns sp), nothing)
  | Down c => (mkSpec (delete c (spoke sp)) (conns sp ∖ {[c]}), nothing)
  | Msg c time b => (mkSpec (<[c := time]> (spoke sp)) (conns sp), mkVisible [(c, content b)] ∅)
  | Tick now =>
      let late := filter (idle i now (spoke sp)) (conns sp) in
      (mkSpec (spoke sp) (conns sp ∖ late), mkVisible [] late)
  end.

Fixpoint spec_run (i : Z) (es : list event) (sp : spec) : list visible :=
  match es with [] => [] | e :: es => let '(sp, v) := spec_step i e sp in v :: spec_run i es sp end.

(** ** The server *)

(** [clock] is the time of the last event. *)
Record Sys := mkSys { srv : ListServer; alive : gset Z; clock : Z }.

Definition step (e : event) (s : Sys) : res (Sys * list effect) :=
  match e with
  | Up c now => Ok (mkSys (list_onConnectionUp now c (srv s)) ({[c]} ∪ alive s) now, [])
  | Down c => h ← list_onConnectionDown c (srv s); Ok (mkSys h (alive s ∖ {[c]}) (clock s), [])
  | Msg c time b => '(h, _, es) ← list_onMessage c time b (srv s); Ok (mkSys h (alive s) time, es)
  | Tick now => '(h, es) ← list_onTimer (alive s) now (srv s); Ok (mkSys h (alive s) now, es)
  end.

Fixpoint run (es : list event) (s : Sys) : res (list (list effect)) :=
  match es with [] => Ok [] | e :: es => '(s, o) ← step e s; os ← run es s; Ok (o :: os) end.

(** Times do not go back. *)
Definition legal (e : event) (s : Sys) : Prop :=
  match e with
  | Up c now => c ∉ alive s /\ clock s <= now
  | Down c => c ∈ alive s
  | Msg c time b => c ∈ alive s /\ inv b /\ clock s <= time
  | Tick now => clock s <= now
  end.

Fixpoint legal_run (es : list event) (s : Sys) : Prop :=
  match es with
  | [] => True
  | e :: es => legal e s /\ match step e s with Ok (s, _) => legal_run es s | Fault _ => True end
  end.

Definition time_in (m : gmap Z Z) (c : Z) : Z := default 0 (m !! c).

Record list_inv (i : Z) (sp : spec) (s : Sys) : Prop := {
  li_idle : idleSeconds_ (srv s) = i;
  li_alive c : c ∈ connectionList_ (srv s) <-> c ∈ alive s;
  li_nodup : NoDup (connectionList_ (srv s));
  li_spoke c : spoke sp !! c = if decide (c ∈ alive s) then context (srv s) !! c else None;
  li_context c : c ∈ alive s -> is_Some (context (srv s) !! c);
  li_conns : connected (srv s) = conns sp;
  li_conns_alive : conns sp ⊆ alive s;
  li_sorted : sorted (time_in (context (srv s))) (connectionList_ (srv s));
  li_clock c : c ∈ alive s -> time_in (context (srv s)) c <= clock s }.

Lemma erase_elem c x l : x ∈ erase c l <-> x ∈ l /\ x <> c.
Proof. unfold erase. rewrite list_elem_of_filter. tauto. Qed.

Lemma time_in_insert c v m x : time_in (<[c := v]> m) x = if decide (x = c) then v else time_in m x.
Proof. unfold time_in. case_decide as E; [subst; by rewrite lookup_insert_eq|by rewrite lookup_insert_ne]. Qed.

(** A connection put at the end with the newest time. *)
Lemma sorted_touch c v m l :
  c ∉ l -> sorted (time_in m) l -> Forall (fun x => time_in m x <= v) l -> sorted (time_in (<[c := v]> m)) (l ++ [c]).
Proof.
  intros Hc Hs Hv. apply latest_snoc.
  - apply (sorted_ext (time_in m)); [|done]. intros x Hx. rewrite time_in_insert, decide_False; [done|]. by intros ->.
  - rewrite Forall_forall in *. intros x Hx. rewrite !time_in_insert, decide_False, decide_True by (done || by intros ->). by apply Hv.
Qed.

Lemma list_up_ok i sp s c now :
  list_inv i sp s -> legal (Up c now) s -> exists s', step (Up c now) s = Ok (s', []) /\ list_inv i (spec_step i (Up c now) sp).1 s'.
Proof.
  intros [Hi Ha Hn Hs Hcx Hc Hca Hso Hcl] [Hnew Hnow]. eexists. split; [done|].
  split; cbn; try done.
  - intros x. rewrite elem_of_app, list_elem_of_singleton, Ha. set_solver.
  - apply NoDup_app. split_and!; [done| |apply NoDup_singleton]. intros x Hx%Ha. rewrite list_elem_of_singleton. by intros ->.
  - intros x. destruct (decide (x = c)) as [->|Hne]; [by rewrite !lookup_insert_eq, decide_True by set_solver|].
    rewrite !lookup_insert_ne, Hs by done. destruct (decide (x ∈ alive s)); [rewrite decide_True by set_solver|rewrite decide_False by set_solver]; done.
  - intros x Hx. destruct (decide (x = c)) as [->|]; [by rewrite lookup_insert_eq|]. rewrite lookup_insert_ne by done. apply Hcx. set_solver.
  - by rewrite Hc.
  - set_solver.
  - apply sorted_touch; [by rewrite Ha|done|]. apply Forall_forall. intros x Hx%Ha. specialize (Hcl x Hx). lia.
  - intros x Hx. rewrite time_in_insert. case_decide; [lia|]. specialize (Hcl x ltac:(set_solver)). lia.
Qed.

Lemma list_down_ok i sp s c :
  list_inv i sp s -> legal (Down c) s -> exists s', step (Down c) s = Ok (s', []) /\ list_inv i (spec_step i (Down c) sp).1 s'.
Proof.
  intros [Hi Ha Hn Hs Hcx Hc Hca Hso Hcl] Hc0. cbn [step legal] in *. unfold list_onConnectionDown, position.
  rewrite bool_decide_true by (by apply Hcx). cbn [check mbind res_bind]. rewrite decide_True by (by apply Ha). cbn [mbind res_bind].
  eexists. split; [done|]. split; cbn; try done.
  - intros x. rewrite erase_elem, Ha. set_solver.
  - by apply NoDup_filter.
  - intros x. destruct (decide (x = c)) as [->|Hne]; [by rewrite lookup_delete_eq, decide_False by set_solver|].
    rewrite lookup_delete_ne, Hs by done. destruct (decide (x ∈ alive s)); [rewrite decide_True by set_solver|rewrite decide_False by set_solver]; done.
  - intros x Hx. apply Hcx. set_solver.
  - by rewrite Hc.
  - set_solver.
  - by apply sorted_filter.
  - intros x Hx. apply Hcl. set_solver.
Qed.

Lemma list_msg_ok i sp s c time b :
  list_inv i sp s -> legal (Msg c time b) s ->
  exists s', step (Msg c time b) s = Ok (s', [SendTo c (content b)]) /\ list_inv i (spec_step i (Msg c time b) sp).1 s'.
Proof.
  intros [Hi Ha Hn Hs Hcx Hc Hca Hso Hcl] (Hal & Hib & Ht). cbn [step]. unfold list_onMessage, position.
  destruct (retrieveAllAsString_spec b Hib) as (b' & -> & _). cbn [mbind res_bind].
  rewrite (bool_decide_true (is_Some _)) by (by apply Hcx). cbn [check mbind res_bind]. rewrite decide_True by (by apply Ha). cbn [mbind res_bind].
  rewrite bool_decide_true by apply last_snoc. cbn [check mbind res_bind].
  eexists. split; [done|]. split; cbn; try done.
  - intros x. rewrite elem_of_app, list_elem_of_singleton, erase_elem, Ha. split; [naive_solver|].
    intros Hx. destruct (decide (x = c)); [by right|by left].
  - apply NoDup_app. split_and!; [by apply NoDup_filter| |apply NoDup_singleton].
    intros x [_ Hx]%erase_elem. by rewrite list_elem_of_singleton.
  - intros x. destruct (decide (x = c)) as [->|Hne]; [by rewrite !lookup_insert_eq, decide_True by done|]. by rewrite !lookup_insert_ne, Hs by done.
  - intros x Hx. destruct (decide (x = c)) as [->|]; [by rewrite lookup_insert_eq|]. rewrite lookup_insert_ne by done. by apply Hcx.
  - apply sorted_touch; [rewrite erase_elem; tauto|by apply sorted_filter|]. apply Forall_forall.
    intros x [Hx%Ha _]%erase_elem. specialize (Hcl x Hx). lia.
  - intros x Hx. rewrite time_in_insert. case_decide; [lia|]. specialize (Hcl x Hx). lia.
Qed.

(** The loop passes the idle connections at the front of the list, and stops at the first that
    is not: the ones behind it spoke later. *)
Lemma timer_loop_ok al now kept l s :
  Forall (fun c => c ∈ al /\ is_Some (context s !! c) /\ time_in (context s) c <= now) l ->
  NoDup l -> sorted (time_in (context s)) l -> 0 <= idleSeconds_ s ->
  let late := filter (idle (idleSeconds_ s) now (context s)) l in
  exists es, timer_loop al now kept l s =
    Ok (mkList (idleSeconds_ s) (kept ++ l) (context s) (connected s ∖ list_to_set late), es) /\
  sends es = [] /\ shuts es = filter (fun c => c ∈ connected s) late.
Proof.
  revert kept s. induction l as [|c l IH]; intros kept s Hl Hnd Hso Hid; cbn zeta.
  - exists []. cbn. rewrite app_nil_r, difference_empty_L. by destruct s.
  - apply Forall_cons in Hl as [(Hal & [t Ht] & Htn) Hl]. apply NoDup_cons in Hnd as [Hnc Hnd]. destruct Hso as [Hmin Hso].
    cbn [timer_loop]. rewrite decide_True, Ht by done. cbn [get mbind res_bind].
    assert (Etc : time_in (context s) c = t) by (unfold time_in; by rewrite Ht). rewrite Etc in Htn, Hmin.
    destruct (idleSeconds_ s * kMicroSecondsPerSecond <? now - t) eqn:Eage.
    + rewrite filter_cons_True by (exists t; split; [done|lia]). cbn zeta in IH.
      destruct (decide (c ∈ connected s)) as [Hcon|Hcon].
      * destruct (IH (kept ++ [c]) (mkList (idleSeconds_ s) (connectionList_ s) (context s) (connected s ∖ {[c]})))
          as (es & -> & Hse & Hsh); [done..|]. cbn [mbind res_bind idleSeconds_ context connected] in *. eexists. split.
        { rewrite <- app_assoc. cbn [app]. rewrite list_to_set_cons, difference_difference_l_L. done. }
        split; [exact Hse|]. transitivity (c :: shuts es); [done|].
        rewrite Hsh, filter_cons_True by done. f_equal. apply filter_in_iff. intros x [_ Hx]%list_elem_of_filter.
        rewrite elem_of_difference, elem_of_singleton. split; [tauto|]. intros ?. split; [done|]. by intros ->.
      * destruct (IH (kept ++ [c]) s) as (es & -> & Hse & Hsh); [done..|]. eexists. split.
        { rewrite <- app_assoc. cbn [app]. rewrite list_to_set_cons, <- difference_difference_l_L.
          by rewrite (difference_disjoint_L (connected s) {[c]}) by set_solver. }
        split; [done|]. by rewrite Hsh, filter_cons_False.
    + assert (Hnone : filter (idle (idleSeconds_ s) now (context s)) (c :: l) = []).
      { apply filter_none. intros x Hx (tx & Etx & Hx'). assert (t <= tx); [|lia].
        apply elem_of_cons in Hx as [->|Hx]; [rewrite Ht in Etx; injection Etx as ->; lia|].
        rewrite Forall_forall in Hmin. specialize (Hmin x Hx). unfold time_in in Hmin. by rewrite Etx in Hmin. }
      rewrite Hnone. replace (now - t <? 0) with false by lia. exists []. split; [|done].
      cbn. by rewrite difference_empty_L.
Qed.

Lemma list_tick_ok i sp s now :
  0 <= i -> list_inv i sp s -> legal (Tick now) s ->
  exists s' es, step (Tick now) s = Ok (s', es) /\ list_inv i (spec_step i (Tick now) sp).1 s' /\
    shows es (spec_step i (Tick now) sp).2.
Proof.
  intros Hi0 [Hi Ha Hn Hs Hcx Hc Hca Hso Hcl] Hnow. cbn [step legal] in *. unfold list_onTimer.
  destruct (timer_loop_ok (alive s) now [] (connectionList_ (srv s)) (srv s)) as (es & E & Hse & Hsh); [|done|done|by rewrite Hi|].
  { apply Forall_forall. intros c Hin%Ha. split_and!; [done|by apply Hcx|]. specialize (Hcl c Hin). lia. }
  rewrite E. cbn [mbind res_bind app]. rewrite Hi, Hc in *. eexists _, es. split; [done|].
  assert (Hlate : forall c, c ∈ filter (idle i now (context (srv s))) (connectionList_ (srv s)) /\ c ∈ conns sp <->
    c ∈ filter (idle i now (spoke sp)) (conns sp)).
  { intros c. rewrite list_elem_of_filter, elem_of_filter, Ha. unfold idle. rewrite Hs.
    split; [intros [[Hid Hin] Hcc]; by rewrite decide_True|]. intros [Hid Hcc]. pose proof (Hca c Hcc) as Hin.
    rewrite decide_True in Hid by done. done. }
  split.
  - split; cbn; try done.
    + apply set_eq. intros c. rewrite !elem_of_difference, elem_of_list_to_set, <- Hlate. tauto.
    + set_solver.
    + intros c Hin. specialize (Hcl c Hin). lia.
  - split_and!; [done|rewrite Hsh; by apply NoDup_filter, NoDup_filter|].
    intros c. rewrite Hsh, list_elem_of_filter. cbn. rewrite <- Hlate. tauto.
Qed.

Lemma list_step_ok i sp s e :
  0 <= i -> list_inv i sp s -> legal e s ->
  exists s' es, step e s = Ok (s', es) /\ list_inv i (spec_step i e sp).1 s' /\ shows es (spec_step i e sp).2.
Proof.
  intros Hi0 Hi Hl. destruct e as [c now|c|c time b|now].
  - destruct (list_up_ok i sp s c now Hi Hl) as (s' & ? & ?). exists s', []. split_and!; [done..|apply shows_nothing].
  - destruct (list_down_ok i sp s c Hi Hl) as (s' & ? & ?). exists s', []. split_and!; [done..|apply shows_nothing].
  - destruct (list_msg_ok i sp s c time b Hi Hl) as (s' & ? & ?). eexists s', _. split_and!; [done..|apply shows_echo].
  - by apply list_tick_ok.
Qed.

Lemma list_run_ok i sp s es :
  0 <= i -> list_inv i sp s -> legal_run es s -> exists os, run es s = Ok os /\ Forall2 shows os (spec_run i es sp).
Proof.
  intros Hi0. revert sp s. induction es as [|e es IH]; intros sp s Hi Hl; cbn [run spec_run]; [by exists []|].
  destruct Hl as [Hl Hls]. destruct (list_step_ok i sp s e Hi0 Hi Hl) as (s' & o & E & Hi' & Ho). rewrite E in *. cbn [mbind res_bind].
  destruct (spec_step i e sp) as [sp' v]. destruct (IH sp' s' Hi' Hls) as (os & -> & Hos). eexists. split; [done|]. by constructor.
Qed.

Definition start (i : Z) : Sys := mkSys (mkList i [] ∅ ∅) ∅ 0.

(** The sorted list.  While the clock does not go back, every message is echoed and each tick
    shuts down exactly the connections that have been silent for more than [i] seconds and
    were not shut down before. *)
Theorem sorted_list_correct i es :
  0 <= i -> legal_run es (start i) -> exists os, run es (start i) = Ok os /\ Forall2 shows os (spec_run i es (mkSpec ∅ ∅)).
Proof.
  intros Hi Hl. apply list_run_ok; [done| |done]. split; cbn; try set_solver. constructor.
Qed.

(** Without that, a connection behind one that spoke later is missed: here connection 2 has
    been silent for 11 seconds and connection 1 for 9. *)
Example missed_when_unordered :
  list_onTimer {[1; 2]} 20000000 (mkList 10 [1; 2] {[1 := 11000000; 2 := 9000000]} {[1; 2]}) =
  Ok (mkList 10 [1; 2] {[1 := 11000000; 2 := 9000000]} {[1; 2]}, []).
Proof. vm_compute. reflexivity. Qed.
End SortedTheory.
