(* ===== verification/Balancer.v ===== *)
(** * The RPC load balancer (src/protobuf/rpcbalancer/balancer_raw.cc)

    Each I/O thread of the balancer has connections of its own to every backend and hands the
    requests of its clients to them in turn, under ids that are unique on a backend
    connection; an answer goes back to the client that asked, under its original id.
    [Message] is what the templates [send], [onMessageT] and [sendTo] use of their MSG, with
    the code's two instances: [RawMessage], a frame whose id is read and replaced in place,
    and RpcMessage, which is parsed and serialised again (src/protobuf/rpcbalancer/balancer.cc
    uses nothing else).

    A client connection is a number; a weak_ptr to one can be locked while the number is in
    [alive].  The loop of ProtobufCodecLite is written with the effects of its callbacks;
    RawMessage changes bytes of the input buffer that the loop retrieves right after, so the
    model changes a copy.  protobuf and adler32 are parameters. *)
From S2P Require Import Prelude Endian Buffer Codec ProtobufCodec Rpc.

Class Message (M : Type) := {
  get_id : M -> Z;
  set_id : Z -> M -> M;
  (** the bytes sendTo hands to the connection *)
  sendTo : M -> res (list char)
}.

Section Balancer.
Context `{Host} `{Protobuf RpcMessage} (adler32 : list char -> Z) (tag_ : list char).

(** ** Raw messages *)

(** [loc_] is an offset into the message, [None] for NULL. *)
Record RawMessage := mkRaw { message_ : list char; raw_id : Z; loc_ : option Z }.

Definition newRawMessage (m : list char) : RawMessage := mkRaw m 0 None.

(** htole64 and le64toh *)
Definition htole64 (z : Z) : Z :=
  match host_order with LittleEndian => z | BigEndian => bswap 8 z end.
Definition le64toh (z : Z) : Z :=
  match host_order with LittleEndian => z | BigEndian => bswap 8 z end.

Definition raw_parse (raw : RawMessage) : res (bool * RawMessage) :=
  let body := drop (Z.to_nat kHeaderLen) (message_ raw) in
  let bodylen := zlen (message_ raw) - kHeaderLen in
  let taglen := zlen tag_ in
  valid ← validateChecksum adler32 body bodylen;
  if negb valid then Ok (false, raw) else
  tag ← read_range body 0 taglen;
  if bool_decide (tag = tag_) && (taglen + 3 + 8 <=? bodylen) then
    p ← read_range body taglen (taglen + 3 + 8);
    match p with
    | p0 :: p1 :: p2 :: x =>
        if (ord p0 =? 8) && ((ord p1 =? 1) || (ord p1 =? 2)) && (ord p2 =? 17) then
          Ok (true, mkRaw (message_ raw) (le64toh (from_memory x)) (Some (kHeaderLen + taglen + 3)))
        else Ok (false, raw)
    | _ => Fault OutOfBounds
    end
  else Ok (false, raw).

Definition updateId (raw : RawMessage) : res RawMessage :=
  let le64 := htole64 (raw_id raw) in
  loc ← get (loc_ raw);
  m ← write_at (message_ raw) loc (to_memory 8 le64);
  let bodylen := zlen m - kHeaderLen in
  bytes ← read_range m kHeaderLen (kHeaderLen + (bodylen - kChecksumLen));
  let be32 := hostToNetwork32 (checksum adler32 bytes) in
  m ← write_at m (kHeaderLen + bodylen - kChecksumLen) (to_memory 4 be32);
  Ok (mkRaw m (raw_id raw) (loc_ raw)).

#[export] Instance raw_message : Message RawMessage := {
  get_id := raw_id;
  set_id x raw := mkRaw (message_ raw) x (loc_ raw);
  sendTo raw := raw ← updateId raw; Ok (message_ raw)
}.

(** ProtobufCodecLite::send fills a new buffer, which the connection takes. *)
#[export] Instance rpc_message : Message RpcMessage := {
  get_id := rid;
  set_id x m := mkRpc (rtype m) x (rservice m) (rmethod m) (rrequest m) (rresponse m) (rerror m);
  sendTo m := b ← newBuffer kInitialSize; b ← lite_fillEmptyBuffer adler32 tag_ m b; Ok (content b)
}.

(** ** BackendSession *)

Record PendingRequest := mkRequest { origId : Z; clientConn : Z }.

(** [conn_]: whether the backend's connection is up. *)
Record BackendSession := mkBackend { conn_ : bool; nextId_ : Z; outstandings_ : gmap Z PendingRequest }.

Definition newBackendSession : BackendSession := mkBackend false 0 ∅.

Section Sends.
Context `{Message M}.

(** The bytes for the backend if the request was taken. *)
Definition send (msg : M) (client : Z) (s : BackendSession) : res (option (list char) * BackendSession) :=
  if conn_ s then
    let id := uint 64 (nextId_ s + 1) in
    let r := mkRequest (get_id msg) client in
    _ ← check (bool_decide (outstandings_ s !! id = None));
    let s := mkBackend (conn_ s) id (<[id := r]> (outstandings_ s)) in
    bytes ← sendTo (set_id id msg);
    Ok (Some bytes, s)
  else Ok (None, s).

(** The answer for a client, if it is for one. *)
Definition backend_onMessageT (alive : gset Z) (msg : M) (s : BackendSession) : res (option (Z * list char) * BackendSession) :=
  match outstandings_ s !! get_id msg with
  | Some r =>
      let s := mkBackend (conn_ s) (nextId_ s) (delete (get_id msg) (outstandings_ s)) in
      if decide (clientConn r ∈ alive) then
        bytes ← sendTo (set_id (origId r) msg); Ok (Some (clientConn r, bytes), s)
      else Ok (None, s)
  | None => Ok (None, s)
  end.
End Sends.

Definition backend_onConnection (connected : bool) (s : BackendSession) : BackendSession :=
  mkBackend connected (nextId_ s) (outstandings_ s).

(** ** Balancer: the state of one I/O thread *)

Record PerThread := mkPerThread { current : Z; backends : list BackendSession }.

(** [count] threads were initialised before this one. *)
Definition initPerThread (count : Z) (nbackends : nat) : PerThread :=
  mkPerThread (size_t count mod Z.of_nat nbackends) (replicate nbackends newBackendSession).

(** The loop over the backends; [i] rounds are left. *)
Fixpoint try_backends `{Message M} (i : nat) (msg : M) (client : Z) (t : PerThread) : res (option (Z * list char) * PerThread) :=
  match i with
  | O => Ok (None, t)
  | S i =>
      s ← get (backends t !! Z.to_nat (current t));
      '(r, s) ← send msg client s;
      let t' := mkPerThread (size_t (current t + 1) mod zlen (backends t))
                            (<[Z.to_nat (current t) := s]> (backends t)) in
      match r with
      | Some bytes => Ok (Some (current t, bytes), t')
      | None => try_backends i msg client t'
      end
  end.

Definition onMessageT `{Message M} (msg : M) (client : Z) (t : PerThread) : res (option (Z * list char) * PerThread) :=
  try_backends (length (backends t)) msg client t.

(** ** ProtobufCodecLite::onMessage with callbacks that have effects *)

Section Loop.
Context {S : Type} (prototype_ : RpcMessage).
Context (rawCb : list char -> S -> res (bool * S)) (messageCallback_ : RpcMessage -> S -> res S).
Context (errorCallback_ : ErrorCode -> S -> res S).

Fixpoint codec_onMessage (fuel : nat) (b : Buffer) (s : S) : res (S * Buffer) :=
  match fuel with
  | O => Fault OutOfFuel
  | Datatypes.S fuel =>
      if uint 32 (kMinLiteLen tag_ + kHeaderLen) <=? readableBytes b then
        len ← peekInt32 b;
        if (kMaxMessageLen <? len) || (len <? kMinLiteLen tag_) then
          s ← errorCallback_ kInvalidLength s; Ok (s, b)
        else if size_t (kHeaderLen + len) <=? readableBytes b then
          raw ← read_range (buffer_ b) (peek b) (peek b + (kHeaderLen + len));
          '(more, s) ← rawCb raw s;
          if negb more then
            b ← retrieve (kHeaderLen + len) b; codec_onMessage fuel b s
          else
            buf ← read_range (buffer_ b) (peek b + kHeaderLen) (peek b + kHeaderLen + len);
            r ← lite_parse adler32 tag_ prototype_ buf len;
            match r with
            | inr m => s ← messageCallback_ m s; b ← retrieve (kHeaderLen + len) b; codec_onMessage fuel b s
            | inl e => s ← errorCallback_ e s; Ok (s, b)
            end
        else Ok (s, b)
      else Ok (s, b)
  end.
End Loop.

(** ** The callbacks

    They run with the thread's state and what was sent so far. *)
Inductive sent :=
| ToBackend (i : Z) (bytes : list char)
| ToClient (c : Z) (bytes : list char)
| ShutdownBackend (i : Z)
| ShutdownClient (c : Z).

Abbreviation threadState := (PerThread * list sent)%type.

Section Callbacks.
Context `{Message M}.

Definition client_request (conn : Z) (msg : M) (s : threadState) : res threadState :=
  let '(t, out) := s in
  '(r, t) ← onMessageT msg conn t;
  Ok (t, out ++ match r with Some (i, bytes) => [ToBackend i bytes] | None => [] end).

Definition backend_answer (alive : gset Z) (i : Z) (msg : M) (s : threadState) : res threadState :=
  let '(t, out) := s in
  session ← get (backends t !! Z.to_nat i);
  '(r, session) ← backend_onMessageT alive msg session;
  Ok (mkPerThread (current t) (<[Z.to_nat i := session]> (backends t)),
      out ++ match r with Some (c, bytes) => [ToClient c bytes] | None => [] end).
End Callbacks.

(** The onRawMessage of both classes: [handler] is its onMessageT. *)
Definition onRawMessage (handler : RawMessage -> threadState -> res threadState) (message : list char) (s : threadState) :
    res (bool * threadState) :=
  '(parsed, raw) ← raw_parse (newRawMessage message);
  if parsed : bool then s ← handler raw s; Ok (false, s) else Ok (true, s).

(** Bytes from a client and from a backend.  defaultErrorCallback shuts the connection down. *)
Definition onClientBytes (prototype_ : RpcMessage) (fuel : nat) (c : Z) (b : Buffer) (s : threadState) : res (threadState * Buffer) :=
  codec_onMessage prototype_ (onRawMessage (client_request c)) (client_request c)
    (fun _ '(t, out) => Ok (t, out ++ [ShutdownClient c])) fuel b s.

Definition onBackendBytes (prototype_ : RpcMessage) (fuel : nat) (alive : gset Z) (i : Z) (b : Buffer) (s : threadState) :
    res (threadState * Buffer) :=
  codec_onMessage prototype_ (onRawMessage (backend_answer alive i)) (backend_answer alive i)
    (fun _ '(t, out) => Ok (t, out ++ [ShutdownBackend i])) fuel b s.

Definition onBackendConnection (i : Z) (connected : bool) (t : PerThread) : res PerThread :=
  session ← get (backends t !! Z.to_nat i);
  Ok (mkPerThread (current t) (<[Z.to_nat i := backend_onConnection connected session]> (backends t))).
End Balancer.
