(* ===== verification/BalancerTheory.v ===== *)
(** * Properties of the RPC load balancer

    [call] is an RPC message on the wire: [Short], one that RawMessage understands (the type
    and the id come first, in that order), or [Full], any other message.  [Represents] is what
    the balancer's templates need of a message class to treat it as a call; both classes
    have it. *)
From S2P Require Import Prelude Endian Buffer BufferTheory Codec ProtobufCodec Rpc Balancer.

(** ** Little-endian integers in memory *)

Section LittleEndianHost.
Context `{Host}.

Lemma to_memory_htole64 z : to_memory 8 (htole64 z) = le_bytes 8 z.
Proof.
  unfold to_memory, htole64. case_match; [done|].
  unfold be_bytes. by rewrite le_bytes_bswap, <- (rev_involutive (le_bytes 8 z)).
Qed.

Lemma le64toh_from_memory l : length l = 8%nat -> le64toh (from_memory l) = of_le_bytes l.
Proof.
  intros Hl. unfold le64toh, from_memory. case_match; [done|]. unfold bswap, of_be_bytes. rewrite <- Hl, <- length_rev.
  by rewrite le_bytes_of_le, rev_involutive.
Qed.
End LittleEndianHost.

(** ** Calls on the wire *)

Inductive call :=
| Short (type id : Z) (rest : list char)
| Full (m : RpcMessage).

Definition call_id (w : call) : Z := match w with Short _ id _ => id | Full m => rid m end.

Definition rpc_set_id (x : Z) (m : RpcMessage) : RpcMessage :=
  mkRpc (rtype m) x (rservice m) (rmethod m) (rrequest m) (rresponse m) (rerror m).

Definition with_id (x : Z) (w : call) : call :=
  match w with Short t _ rest => Short t x rest | Full m => Full (rpc_set_id x m) end.

(** ** Writing over a middle part *)

Lemma write_at_mid {A} (l1 l2 l2' l3 : list A) :
  length l2 = length l2' -> write_at (l1 ++ l2 ++ l3) (zlen l1) l2' = Ok (l1 ++ l2' ++ l3).
Proof.
  intros Hl. pose proof (zlen_nonneg l1). pose proof (zlen_nonneg l3).
  assert (Hz : zlen l2 = zlen l2') by (unfold zlen; lia).
  rewrite write_at_ok by (rewrite ?zlen_app; lia). f_equal. f_equal; [|f_equal].
  - apply take_app_length'. unfold zlen. lia.
  - rewrite (assoc_L app). apply drop_app_length'. rewrite length_app. unfold zlen in *. lia.
Qed.

Section Wire.
Context `{Host} `{Protobuf RpcMessage} (adler32 : list char -> Z) (tag_ : list char) (prototype_ : RpcMessage).
Context (Htag : zlen tag_ < 2 ^ 16).
(** The id is a required fixed64 field: setting it does not change what else is serialised. *)
Context (fixed64_id : forall m x, serialisable m -> in_uint 64 x ->
  serialisable (rpc_set_id x m) /\ ByteSize (rpc_set_id x m) = ByteSize m).

(** The fields type and id as protobuf writes them, and the rest of the message. *)
Definition short_data (t id : Z) (rest : list char) : list char :=
  [chr 8; chr t; chr 17] ++ le_bytes 8 id ++ rest.

Definition body (w : call) : list char :=
  match w with
  | Short t id rest => sealed adler32 (tag_ ++ short_data t id rest)
  | Full m => lite_body adler32 tag_ m
  end.

Definition framed (body : list char) : list char := be_bytes 4 (zlen body) ++ body.
Definition wire (w : call) : list char := framed (body w).

(** A call a peer may send: its frame is neither too long nor of the other kind. *)
Definition call_ok (w : call) : Prop :=
  in_uint 64 (call_id w) /\ zlen (body w) <= kMaxMessageLen /\
  match w with
  | Short t _ _ => t = 1 \/ t = 2
  | Full m => serialisable m /\ ParseFromArray prototype_ (SerializeToArray m) = Some m /\
      raw_parse adler32 tag_ (newRawMessage (wire w)) = Ok (false, newRawMessage (wire w))
  end.

Lemma zlen_short_data t id rest : zlen (short_data t id rest) = 11 + zlen rest.
Proof. unfold short_data. rewrite !zlen_app. unfold zlen. rewrite length_le_bytes. cbn. lia. Qed.

Lemma zlen_short_body t id rest : zlen (body (Short t id rest)) = zlen tag_ + 15 + zlen rest.
Proof. cbn [body]. rewrite zlen_sealed, zlen_app, zlen_short_data. lia. Qed.

Lemma drop_header l : drop (Z.to_nat kHeaderLen) (framed l) = l.
Proof. unfold framed. apply drop_app_length'. rewrite length_be_bytes. done. Qed.

Lemma zlen_framed l : zlen (framed l) - kHeaderLen = zlen l.
Proof. unfold framed. rewrite zlen_app, zlen_be4. unfold kHeaderLen. lia. Qed.

Lemma validate_sealed inner : validateChecksum adler32 (sealed adler32 inner) (zlen (sealed adler32 inner)) = Ok true.
Proof.
  unfold validateChecksum, kChecksumLen. pose proof (zlen_nonneg inner).
  assert (Hz : zlen (sealed adler32 inner) = zlen inner + 4) by apply zlen_sealed.
  rewrite asInt32_ok, read_range_ok by lia. cbn [mbind res_bind]. f_equal. apply Z.eqb_eq. apply sealed_iff; [lia|].
  by rewrite sealed_inner.
Qed.

(** RawMessage::parse of a short call. *)
Lemma raw_parse_short t id rest :
  t = 1 \/ t = 2 -> in_uint 64 id ->
  raw_parse adler32 tag_ (newRawMessage (wire (Short t id rest))) =
    Ok (true, mkRaw (wire (Short t id rest)) id (Some (7 + zlen tag_))).
Proof.
  intros Ht Hid. unfold raw_parse, wire. cbn [message_ newRawMessage]. rewrite drop_header, zlen_framed.
  pose proof (zlen_nonneg tag_). pose proof (zlen_nonneg rest). pose proof (zlen_short_body t id rest) as Hz.
  cbn [body] in *. rewrite validate_sealed. cbn [mbind res_bind negb]. rewrite (read_range_ok _ 0), (read_range_ok _ (zlen tag_)) by lia. cbn [mbind res_bind].
  assert (Hb : sealed adler32 (tag_ ++ short_data t id rest) =
    tag_ ++ ([chr 8; chr t; chr 17] ++ le_bytes 8 id) ++ rest ++ be_bytes 4 (adler32 (tag_ ++ short_data t id rest)))
    by (unfold sealed, short_data; by rewrite <- !(assoc_L app)).
  assert (Hs1 : slice 0 (zlen tag_) (sealed adler32 (tag_ ++ short_data t id rest)) = tag_)
    by (rewrite Hb, slice_app_l by lia; apply slice_full).
  assert (Hs2 : slice (zlen tag_) (zlen tag_ + 3 + 8) (sealed adler32 (tag_ ++ short_data t id rest)) =
    [chr 8; chr t; chr 17] ++ le_bytes 8 id)
    by (rewrite Hb; apply slice_mid_at; rewrite ?zlen_app; unfold zlen; rewrite ?length_le_bytes; cbn; lia).
  rewrite Hs1. rewrite bool_decide_true by done.
  replace (_ && _) with true by lia. rewrite Hs2. cbn [app]. rewrite !ord_chr by lia. replace (_ && _) with true by lia.
  rewrite le64toh_from_memory by apply length_le_bytes. rewrite of_le_le_bytes. change (8 * Z.of_nat 8) with 64.
  rewrite uint_small by exact Hid. do 4 f_equal. unfold kHeaderLen. lia.
Qed.
(** RawMessage::updateId writes the frame of the call with the new id. *)
Lemma updateId_short t id0 id rest :
  updateId adler32 (mkRaw (wire (Short t id0 rest)) id (Some (7 + zlen tag_))) =
    Ok (mkRaw (wire (Short t id rest)) id (Some (7 + zlen tag_))).
Proof.
  set (inner x := tag_ ++ short_data t x rest).
  assert (Hw : forall x, wire (Short t x rest) = be_bytes 4 (zlen tag_ + 15 + zlen rest) ++ inner x ++ be_bytes 4 (adler32 (inner x)))
    by (intros x; unfold wire, framed; by rewrite zlen_short_body).
  assert (Hi : forall x, inner x = (tag_ ++ [chr 8; chr t; chr 17]) ++ le_bytes 8 x ++ rest)
    by (intros x; unfold inner, short_data; by rewrite <- (assoc_L app)).
  assert (Hin : forall x, zlen (inner x) = zlen tag_ + 11 + zlen rest)
    by (intros x; unfold inner; rewrite zlen_app, zlen_short_data; lia).
  pose proof (zlen_nonneg tag_). pose proof (zlen_nonneg rest).
  unfold updateId. cbn [loc_ message_ raw_id get mbind res_bind]. rewrite to_memory_htole64, !Hw.
  set (hd := be_bytes 4 _). set (sum := be_bytes 4 (adler32 (inner id0))).
  assert (Hhd : zlen hd = 4) by apply zlen_be4.
  assert (Hsum : zlen sum = 4) by apply zlen_be4.
  replace (hd ++ inner id0 ++ sum) with ((hd ++ tag_ ++ [chr 8; chr t; chr 17]) ++ le_bytes 8 id0 ++ rest ++ sum)
    by (rewrite (Hi id0); by rewrite <- !(assoc_L app)).
  replace (7 + zlen tag_) with (zlen (hd ++ tag_ ++ [chr 8; chr t; chr 17]))
    by (rewrite !zlen_app, Hhd; change (zlen [chr 8; chr t; chr 17]) with 3; lia).
  rewrite (write_at_mid _ (le_bytes 8 id0) (le_bytes 8 id)) by (by rewrite !length_le_bytes). cbn [mbind res_bind].
  replace ((hd ++ tag_ ++ [chr 8; chr t; chr 17]) ++ le_bytes 8 id ++ rest ++ sum) with (hd ++ inner id ++ sum)
    by (rewrite (Hi id); by rewrite <- !(assoc_L app)).
  unfold kHeaderLen, kChecksumLen. rewrite !zlen_app, Hhd, Hin, Hsum. change (zlen [chr 8; chr t; chr 17]) with 3.
  rewrite read_range_ok by (rewrite ?zlen_app, ?Hin; lia). cbn [mbind res_bind].
  rewrite (slice_mid_at hd (inner id) sum) by (rewrite ?Hin; lia).
  unfold hostToNetwork32. rewrite to_memory_htobe. change 32 with (8 * Z.of_nat 4). rewrite be_bytes_uint.
  unfold checksum. rewrite be_bytes_sint.
  replace (4 + _ - 4) with (zlen (hd ++ inner id)) by (rewrite zlen_app, Hin; lia).
  pose proof (write_at_mid (hd ++ inner id) sum (be_bytes 4 (adler32 (inner id))) []) as Hwr. rewrite !app_nil_r, <- !(assoc_L app) in Hwr.
  rewrite Hwr by (unfold sum; by rewrite !length_be_bytes). done.
Qed.

(** ** Message classes *)

Class Represents (M : Type) `{MM : Message M} (rep : M -> call -> Prop) := {
  rep_id m w : rep m w -> get_id m = call_id w /\ in_uint 64 (call_id w);
  rep_set m w x : rep m w -> in_uint 64 x -> rep (set_id x m) (with_id x w);
  rep_send m w : rep m w -> sendTo m = Ok (wire w)
}.

Definition raw_rep (raw : RawMessage) (w : call) : Prop :=
  exists t id0 id rest, in_uint 64 id /\ w = Short t id rest /\
    raw = mkRaw (wire (Short t id0 rest)) id (Some (7 + zlen tag_)).

Definition rpc_rep (m : RpcMessage) (w : call) : Prop :=
  w = Full m /\ in_uint 64 (rid m) /\ serialisable m /\ zlen (body w) <= kMaxMessageLen.

#[export] Instance raw_represents : Represents RawMessage (MM := raw_message adler32) raw_rep.
Proof.
  split.
  - intros m w (t & id0 & id & rest & Hid & -> & ->). done.
  - intros m w x (t & id0 & id & rest & Hid & -> & ->) Hx. by exists t, id0, x, rest.
  - intros m w (t & id0 & id & rest & Hid & -> & ->). cbn [sendTo raw_message]. by rewrite updateId_short.
Qed.

#[export] Instance rpc_represents : Represents RpcMessage (MM := rpc_message adler32 tag_) rpc_rep.
Proof using fixed64_id.
  split.
  - by intros m w (-> & ? & _).
  - intros m w x (-> & Hid & Hs & Hz) Hx. destruct (fixed64_id m x Hs Hx) as [Hs' Hb]. split_and!; try done.
    cbn [body with_id] in *. destruct Hs as [_ Hs], Hs' as [_ Hs']. unfold lite_body in *. rewrite zlen_sealed, zlen_app in *.
    unfold set_id, rpc_message in *. fold (rpc_set_id x m) in *. lia.
  - intros m w (-> & _ & Hs & Hz). cbn [sendTo rpc_message].
    destruct (newBuffer_spec kInitialSize) as (b & -> & Hi & Hc & Hr & Hw & _);
      [unfold kInitialSize, kCheapPrepend, max_size; lia..|]. cbn [mbind res_bind].
    destruct (lite_fill_spec adler32 tag_ m b Hs Hz Hi Hc Hr Hw) as (b' & -> & _ & Hc'). cbn [mbind res_bind]. by rewrite Hc'.
Qed.
End Wire.

Arguments rep_id {_ _ _ _ _ _ _} m w.
Arguments rep_set {_ _ _ _ _ _ _} m w x.
Arguments rep_send {_ _ _ _ _ _ _} m w.

(** ** The balancer, abstractly

    A backend remembers every call it was given, as client and original id: the [k]-th call
    went out under the id [k], and [answered] holds the ids that were answered. *)
Record sbackend := mkSB { up : bool; calls : list (Z * Z); answered : gset Z }.
Record spec := mkSpec { cur : Z; backs : list sbackend }.

(** A client's call given to a backend, and a backend's answer given to the client that asked. *)
Inductive effect :=
| Forwarded (i k c : Z) (w : call)
| Answered (i k c o : Z) (w : call).

Definition ticket (sb : sbackend) (k : Z) : option (Z * Z) :=
  if 1 <=? k then calls sb !! Z.to_nat (k - 1) else None.

Definition record_call (c : Z) (o : Z) (sb : sbackend) : sbackend := mkSB (up sb) (calls sb ++ [(c, o)]) (answered sb).

Definition available (bs : list sbackend) (j : Z) : bool :=
  match bs !! Z.to_nat j with Some sb => up sb | None => false end.

(** The backends in the order they are tried. *)
Definition rotation (from n : Z) (rounds : nat) : list Z := (fun k => (from + Z.of_nat k) mod n) <$> seq 0 rounds.

(** The next backend that is up takes the call. *)
Definition spec_request (c : Z) (w : call) (sp : spec) : spec * list effect :=
  let n := zlen (backs sp) in
  match filter (fun j => available (backs sp) j = true) (rotation (cur sp) n (length (backs sp))) with
  | [] => (sp, [])
  | j :: _ =>
      match backs sp !! Z.to_nat j with
      | Some sb =>
          (mkSpec ((j + 1) mod n) (<[Z.to_nat j := record_call c (call_id w) sb]> (backs sp)),
           [Forwarded j (zlen (calls sb) + 1) c w])
      | None => (sp, [])
      end
  end.

(** The first answer to a call is its answer. *)
Definition spec_answer (alive : gset Z) (i : Z) (w : call) (sp : spec) : spec * list effect :=
  match backs sp !! Z.to_nat i with
  | Some sb =>
      let k := call_id w in
      if decide (k ∈ answered sb) then (sp, []) else
      match ticket sb k with
      | Some (c, o) =>
          (mkSpec (cur sp) (<[Z.to_nat i := mkSB (up sb) (calls sb) ({[k]} ∪ answered sb)]> (backs sp)),
           if decide (c ∈ alive) then [Answered i k c o w] else [])
      | None => (sp, [])
      end
  | None => (sp, [])
  end.

Lemma ticket_push c o sb k :
  ticket (record_call c o sb) k = if decide (k = zlen (calls sb) + 1) then Some (c, o) else ticket sb k.
Proof.
  unfold ticket, record_call. cbn [calls]. pose proof (zlen_nonneg (calls sb)). unfold zlen in *. destruct (decide _) as [->|Hn].
  - replace (1 <=? _) with true by lia. rewrite lookup_app_r by lia. by replace (_ - _)%nat with 0%nat by lia.
  - destruct (1 <=? k) eqn:E; [|done]. destruct (decide (Z.to_nat (k - 1) < length (calls sb))%nat).
    + by rewrite lookup_app_l by lia.
    + rewrite lookup_ge_None_2 by (rewrite length_app; cbn; lia). by rewrite lookup_ge_None_2 by lia.
Qed.

Lemma ticket_Some sb k x : ticket sb k = Some x -> 1 <= k <= zlen (calls sb).
Proof.
  unfold ticket. destruct (1 <=? k) eqn:E; [|done]. intros Hl%lookup_lt_Some. unfold zlen. lia.
Qed.

(** ** Sessions *)

Record session_refines (sb : sbackend) (s : BackendSession) : Prop := {
  sr_up : conn_ s = up sb;
  sr_next : nextId_ s = zlen (calls sb);
  sr_out k : outstandings_ s !! k =
    if decide (k ∈ answered sb) then None else (fun '(c, o) => mkRequest o c) <$> ticket sb k;
  sr_answered k : k ∈ answered sb -> k <= zlen (calls sb);
  sr_ids : Forall (fun p => in_uint 64 p.2) (calls sb)
}.

Definition room (sb : sbackend) : Prop := zlen (calls sb) + 1 < 2 ^ 64.

Section Refinement.
Context `{Host} (adler32 : list char -> Z) `{Protobuf RpcMessage} (tag_ : list char).
Context `{MM : Message M} (rep : M -> call -> Prop) {Hrep : Represents adler32 tag_ M rep}.

Abbreviation wire := (wire adler32 tag_).

Lemma send_refines m w c sb s :
  rep m w -> session_refines sb s -> room sb ->
  if up sb then exists s', send m c s = Ok (Some (wire (with_id (zlen (calls sb) + 1) w)), s') /\ session_refines (record_call c (call_id w) sb) s'
  else send m c s = Ok (None, s).
Proof using Hrep.
  intros Hm [Hup Hn Ho Ha Hids] Hr. unfold send, room in *. rewrite Hup. destruct (up sb) eqn:Eu; [|done].
  pose proof (zlen_nonneg (calls sb)). rewrite Hn, uint_small by lia. set (k := zlen (calls sb) + 1) in *.
  destruct (rep_id m w Hm) as [Hid Hin].
  assert (Hk : ticket sb k = None).
  { destruct (ticket sb k) eqn:E; [|done]. apply ticket_Some in E. lia. }
  assert (Hna : k ∉ answered sb) by (intros ?%Ha; lia).
  rewrite Ho, decide_False, Hk, bool_decide_true by done. cbn [check mbind res_bind option_fmap option_map fmap].
  rewrite (rep_send _ _ (rep_set m w k Hm ltac:(unfold in_uint; lia))). cbn [mbind res_bind]. eexists. split; [done|].
  split; cbn [conn_ nextId_ outstandings_ record_call up calls answered].
  - done.
  - rewrite zlen_app. done.
  - intros x. rewrite Hid. fold (record_call c (call_id w) sb). rewrite ticket_push. fold k.
    destruct (decide (x = k)) as [->|Hx].
    + by rewrite lookup_insert_eq, decide_False.
    + rewrite lookup_insert_ne by done. apply Ho.
  - intros x ?%Ha. rewrite zlen_app. change (zlen [(c, call_id w)]) with 1. lia.
  - apply Forall_app. split; [done|]. by apply Forall_singleton.
Qed.

Lemma answer_refines alive m w sb s :
  rep m w -> session_refines sb s ->
  exists s', backend_onMessageT alive m s = Ok (match ticket sb (call_id w) with
      | Some (c, o) => if decide (call_id w ∈ answered sb) then None else if decide (c ∈ alive) then Some (c, wire (with_id o w)) else None
      | None => None end, s') /\
    session_refines (if decide (call_id w ∈ answered sb) then sb else
      match ticket sb (call_id w) with Some _ => mkSB (up sb) (calls sb) ({[call_id w]} ∪ answered sb) | None => sb end) s'.
Proof using Hrep.
  intros Hm Hs. pose proof Hs as [Hup Hn Ho Ha Hids]. unfold backend_onMessageT. destruct (rep_id m w Hm) as [-> _]. rewrite Ho.
  destruct (decide (call_id w ∈ answered sb)) as [Hin|Hin].
  { destruct (ticket sb (call_id w)) as [[c o]|]; by exists s. }
  destruct (ticket sb (call_id w)) as [[c o]|] eqn:Et; cbn [fmap option_fmap option_map]; [|by exists s]. cbn [clientConn origId].
  assert (Hox : in_uint 64 o).
  { unfold ticket in Et. destruct (1 <=? _); [|done]. by apply (Forall_lookup_1 _ _ _ _ Hids Et). }
  set (s' := mkBackend _ _ _). assert (Hs' : session_refines (mkSB (up sb) (calls sb) ({[call_id w]} ∪ answered sb)) s').
  { unfold s'. split; cbn [conn_ nextId_ outstandings_ up calls answered]; [done..| | |done].
    - intros x. destruct (decide (x = call_id w)) as [->|Hx].
      + by rewrite lookup_delete_eq, decide_True by set_solver.
      + rewrite lookup_delete_ne, Ho by done. apply decide_ext. set_solver.
    - intros x [->%elem_of_singleton|?]%elem_of_union; [|by apply Ha]. apply ticket_Some in Et. lia. }
  destruct (decide (c ∈ alive)); [|by exists s']. rewrite (rep_send _ _ (rep_set m w o Hm Hox)). by exists s'.
Qed.

(** ** A thread *)

Record refines (sp : spec) (t : PerThread) : Prop := {
  rf_cur : current t = cur sp;
  rf_range : 0 <= cur sp < zlen (backs sp) /\ zlen (backs sp) < 2 ^ 32;
  rf_backs : Forall2 session_refines (backs sp) (backends t)
}.

Lemma refines_length sp t : refines sp t -> length (backends t) = length (backs sp).
Proof. intros [_ _ Hf]. symmetry. by eapply Forall2_length. Qed.

Lemma rotation_S from n k : 0 <= from < n -> rotation from n (S k) = from :: rotation ((from + 1) mod n) n k.
Proof.
  intros Hf. unfold rotation. cbn [seq fmap list_fmap]. rewrite Z.add_0_r, Z.mod_small by lia. f_equal.
  rewrite <- seq_shift, <- list_fmap_compose. apply list_fmap_ext. intros i x _. cbn.
  rewrite Z.add_mod_idemp_l by lia. f_equal. lia.
Qed.

Lemma try_backends_refines rounds m w c sp t :
  rep m w -> refines sp t -> Forall room (backs sp) ->
  match filter (fun j => available (backs sp) j = true) (rotation (cur sp) (zlen (backs sp)) rounds) with
  | [] => try_backends rounds m c t = Ok (None, mkPerThread ((cur sp + Z.of_nat rounds) mod zlen (backs sp)) (backends t))
  | j :: _ => exists sb t', backs sp !! Z.to_nat j = Some sb /\
      try_backends rounds m c t = Ok (Some (j, wire (with_id (zlen (calls sb) + 1) w)), t') /\
      refines (mkSpec ((j + 1) mod zlen (backs sp)) (<[Z.to_nat j := record_call c (call_id w) sb]> (backs sp))) t'
  end.
Proof using Hrep.
  revert sp t. induction rounds as [|rounds IH]; intros sp t Hm Hr Hroom.
  { cbn. destruct t as [cr bs], Hr as [Hcr Hrange _]. cbn in *. rewrite Z.add_0_r, Z.mod_small by lia. by rewrite Hcr. }
  pose proof Hr as [Hcr Hrange Hb]. rewrite rotation_S by lia. cbn [try_backends]. rewrite Hcr.
  destruct (lookup_lt_is_Some_2 (backs sp) (Z.to_nat (cur sp))) as [sb Esb]; [unfold zlen in *; lia|].
  destruct (Forall2_lookup_l _ _ _ _ _ Hb Esb) as (s & Es & Hs). rewrite Es. cbn [get mbind res_bind].
  pose proof (send_refines m w c sb s Hm Hs (Forall_lookup_1 _ _ _ _ Hroom Esb)) as Hsend.
  assert (Hz : zlen (backends t) = zlen (backs sp)) by (unfold zlen; by rewrite (refines_length sp t)).
  assert (Hav : available (backs sp) (cur sp) = up sb) by (unfold available; by rewrite Esb).
  rewrite filter_cons, Hz, uint_small by lia. destruct (up sb) eqn:Eu.
  - rewrite decide_True by done. destruct Hsend as (s' & -> & Hs'). cbn [mbind res_bind]. exists sb. eexists. split_and!; [done..|].
    split; cbn [current cur backs backends]; [done| |].
    + unfold zlen. rewrite length_insert. fold (zlen (backs sp)). pose proof (Z.mod_pos_bound (cur sp + 1) (zlen (backs sp))). lia.
    + by apply Forall2_insert.
  - rewrite decide_False by (rewrite Hav; done). rewrite Hsend. cbn [mbind res_bind]. rewrite list_insert_id by done.
    set (next := (cur sp + 1) mod zlen (backs sp)).
    assert (Hr' : refines (mkSpec next (backs sp)) (mkPerThread next (backends t))).
    { split; [done| |done]. cbn. pose proof (Z.mod_pos_bound (cur sp + 1) (zlen (backs sp))). unfold next. lia. }
    specialize (IH _ _ Hm Hr' Hroom). cbn [cur backs backends] in IH. destruct (filter _ _); [|done].
    rewrite IH. unfold next. rewrite Z.add_mod_idemp_l by lia. do 4 f_equal. lia.
Qed.

Definition out_of (e : effect) : sent :=
  match e with
  | Forwarded i k _ w => ToBackend i (wire (with_id k w))
  | Answered _ _ c o w => ToClient c (wire (with_id o w))
  end.

Lemma request_refines m w c sp t out :
  rep m w -> refines sp t -> Forall room (backs sp) ->
  exists t', client_request c m (t, out) = Ok (t', out ++ (out_of <$> (spec_request c w sp).2)) /\ refines (spec_request c w sp).1 t'.
Proof using Hrep.
  intros Hm Hr Hroom. unfold client_request, onMessageT, spec_request.
  pose proof (try_backends_refines (length (backends t)) m w c sp t Hm Hr Hroom) as Ht. rewrite (refines_length sp t Hr) in *.
  destruct (filter _ _) as [|j l].
  - rewrite Ht. cbn [mbind res_bind]. pose proof Hr as [Hcr Hrange Hb]. fold (zlen (backs sp)). eexists. split; [done|].
    split; cbn [current cur backends backs]; [|done..]. rewrite <- (Z.mul_1_l (zlen (backs sp))) at 1. rewrite Z.mod_add by lia.
    by rewrite Z.mod_small by lia.
  - destruct Ht as (sb & t' & -> & -> & Hr'). cbn [mbind res_bind]. by exists t'.
Qed.

Lemma backend_answer_refines alive i m w sp t out :
  rep m w -> refines sp t -> 0 <= i < zlen (backs sp) ->
  exists t', backend_answer alive i m (t, out) = Ok (t', out ++ (out_of <$> (spec_answer alive i w sp).2)) /\
    refines (spec_answer alive i w sp).1 t'.
Proof using Hrep.
  intros Hm [Hcr Hrange Hb] Hi. unfold backend_answer, spec_answer.
  destruct (lookup_lt_is_Some_2 (backs sp) (Z.to_nat i)) as [sb Esb]; [unfold zlen in *; lia|].
  destruct (Forall2_lookup_l _ _ _ _ _ Hb Esb) as (s & Es & Hs). rewrite Es, Esb. cbn [get mbind res_bind].
  destruct (answer_refines alive m w sb s Hm Hs) as (s' & -> & Hs'). cbn [mbind res_bind]. eexists. split.
  { do 3 f_equal. destruct (decide (call_id w ∈ answered sb)); [by destruct (ticket sb (call_id w)) as [[]|]|].
    destruct (ticket sb (call_id w)) as [[c o]|]; [|done]. by destruct (decide (c ∈ alive)). }
  assert (Hsame : session_refines sb s' -> refines sp (mkPerThread (current t) (<[Z.to_nat i := s']> (backends t)))).
  { intros Hsb. split; [done..|]. cbn. rewrite <- (list_insert_id _ _ _ Esb). by apply Forall2_insert. }
  destruct (decide (call_id w ∈ answered sb)); [by apply Hsame|]. destruct (ticket sb (call_id w)) as [[c o]|]; [|by apply Hsame].
  cbn [fst]. split; cbn [current cur backs backends]; [done|unfold zlen in *; by rewrite length_insert|by apply Forall2_insert].
Qed.
End Refinement.

(** ** The loop over the input *)

Fixpoint handle_all {S} (handle : call -> S -> res S) (ws : list call) (s : S) : res S :=
  match ws with [] => Ok s | w :: ws => s ← handle w s; handle_all handle ws s end.

Section CodecLoop.
Context `{Host} `{Protobuf RpcMessage} (adler32 : list char -> Z) (tag_ : list char) (prototype_ : RpcMessage).
Context (Htag : zlen tag_ < 2 ^ 16).

Abbreviation wire := (wire adler32 tag_).
Abbreviation body := (body adler32 tag_).
Abbreviation call_ok := (call_ok adler32 tag_ prototype_).

(** The start of a frame. *)
Definition partial (t : list char) : Prop :=
  zlen t < zlen tag_ + 8 \/ (zlen tag_ + 4 <= header t <= kMaxMessageLen /\ zlen t < header t + 4).

Lemma zlen_body_min w : zlen tag_ + 4 <= zlen (body w).
Proof.
  destruct w as [t id rest|m]; [rewrite zlen_short_body; pose proof (zlen_nonneg rest); lia|].
  cbn. unfold lite_body. rewrite zlen_sealed, zlen_app. pose proof (zlen_nonneg (SerializeToArray m)). lia.
Qed.

Context {S : Type} (rawCb : list char -> S -> res (bool * S)) (messageCb : RpcMessage -> S -> res S).
Context (errorCb : ErrorCode -> S -> res S) (handle : call -> S -> res S).
Hypothesis handles : forall w s, call_ok w ->
  match w with
  | Short _ _ _ => rawCb (wire w) s = (s ← handle w s; Ok (false, s))
  | Full m => rawCb (wire w) s = Ok (true, s) /\ messageCb m s = handle w s
  end.

Abbreviation onMessage := (codec_onMessage adler32 tag_ prototype_ rawCb messageCb errorCb).

Lemma lite_min : kMinLiteLen tag_ = zlen tag_ + 4.
Proof using Htag. apply kMinLiteLen_eq. unfold kChecksumLen, kMaxMessageLen. lia. Qed.

Lemma onMessage_partial n b s : inv b -> partial (content b) -> onMessage (Datatypes.S n) b s = Ok (s, b).
Proof using Htag.
  intros Hi Hp. cbn [codec_onMessage]. rewrite lite_min, readableBytes_content by done. unfold partial in Hp.
  pose proof (zlen_nonneg tag_). unfold kHeaderLen, kMaxMessageLen in *. rewrite uint_small by lia.
  destruct (zlen tag_ + 4 + 4 <=? zlen (content b)) eqn:E; [|done]. destruct Hp as [?|[Hh Hz]]; [lia|].
  rewrite peek_header by (done || lia). cbn [mbind res_bind]. replace (_ || _) with false by lia. rewrite uint_small by lia.
  by replace (4 + header (content b) <=? _) with false by lia.
Qed.

Lemma onMessage_call n b s w rest s' :
  inv b -> call_ok w -> content b = wire w ++ rest -> handle w s = Ok s' ->
  exists b', onMessage (Datatypes.S n) b s = onMessage n b' s' /\ inv b' /\ content b' = rest.
Proof using Htag handles.
  intros Hi Hok Hc Hh. pose proof (handles w s Hok) as Hw. rewrite Hh in Hw. pose proof Hok as (_ & Hmax & Hkind).
  pose proof (zlen_body_min w). pose proof (zlen_nonneg tag_). pose proof (zlen_nonneg rest).
  assert (Hh4 : header (content b) = zlen (body w)).
  { rewrite Hc. unfold wire, framed. rewrite <- (assoc_L app). apply header_be. unfold in_sint, kMaxMessageLen in *. lia. }
  assert (Hzw : zlen (wire w) = 4 + zlen (body w)) by (unfold wire, framed; by rewrite zlen_app, zlen_be4).
  assert (Hz : zlen (content b) = 4 + zlen (body w) + zlen rest) by (rewrite Hc, zlen_app; lia).
  cbn [codec_onMessage]. rewrite lite_min, readableBytes_content by done. unfold kHeaderLen, kMaxMessageLen in *.
  rewrite uint_small by lia. replace (_ <=? _) with true by lia. rewrite peek_header by (done || lia). cbn [mbind res_bind].
  rewrite Hh4. replace (_ || _) with false by lia. rewrite uint_small by lia. replace (_ <=? _) with true by lia.
  assert (Hraw : read_range (buffer_ b) (peek b) (peek b + (4 + zlen (body w))) = Ok (slice 0 (4 + zlen (body w)) (content b))).
  { rewrite <- (Z.add_0_r (peek b)) at 1. apply read_content_range; [done|lia..]. }
  rewrite Hraw, <- Z.add_assoc, (read_content_range b 4 (4 + zlen (body w))) by (done || lia). cbn [mbind res_bind].
  rewrite Hc, !slice_app_l by lia. rewrite <- Hzw, slice_full, Hzw.
  destruct (retrieve_spec (4 + zlen (body w)) b) as (b' & Hr & Hi' & Hc' & _); [done|lia|]. rewrite Hr.
  assert (Hrest : content b' = rest).
  { rewrite Hc', Hc. apply drop_app_length'. rewrite <- Hzw. unfold zlen. lia. }
  exists b'. destruct w as [t id rest'|m]; [rewrite Hw; cbn [mbind res_bind negb]; done|]. destruct Hw as [-> Hm].
  cbn [mbind res_bind negb]. destruct Hkind as (Hs & Hp & _).
  assert (Hs4 : slice 4 (4 + zlen (body (Full m))) (wire (Full m)) = body (Full m)).
  { rewrite <- (app_nil_r (wire (Full m))). unfold wire, framed. rewrite <- (assoc_L app). apply slice_mid_at; by rewrite zlen_be4. }
  rewrite Hs4.
  cbn [body] in *. rewrite (lite_parse_body adler32 tag_ prototype_ None) by done. cbn [mbind res_bind].
  rewrite Hm. cbn [mbind res_bind]. done.
Qed.

Lemma onMessage_calls ws t n b s s' :
  inv b -> Forall call_ok ws -> content b = concat (wire <$> ws) ++ t -> partial t -> handle_all handle ws s = Ok s' ->
  (length ws < n)%nat -> exists b', onMessage n b s = Ok (s', b') /\ inv b' /\ content b' = t.
Proof using Htag handles.
  revert n b s. induction ws as [|w ws IH]; intros n b s Hi Hok Hc Ht Hh Hn; (destruct n as [|n]; [cbn in Hn; lia|]).
  - injection Hh as ->. cbn in Hc. exists b. by rewrite onMessage_partial by (done || by rewrite Hc).
  - apply Forall_cons in Hok as [Hw Hok]. cbn in Hc, Hh. rewrite <- (assoc_L app) in Hc.
    apply bind_Ok in Hh as (s1 & Hs1 & Hh). destruct (onMessage_call n b s w _ s1 Hi Hw Hc Hs1) as (b1 & -> & Hi1 & Hc1).
    apply IH; try done. cbn in Hn. lia.
Qed.
End CodecLoop.

(** ** Calls of a client, answers of a backend *)

Fixpoint spec_all (f : call -> spec -> spec * list effect) (ws : list call) (sp : spec) : spec * list effect :=
  match ws with
  | [] => (sp, [])
  | w :: ws => let '(sp, es) := f w sp in let '(sp, es') := spec_all f ws sp in (sp, es ++ es')
  end.

(** Fewer than 2^64 ids are used up after [n] more calls. *)
Definition room_for (n : nat) (sp : spec) : Prop := Forall (fun sb => zlen (calls sb) + Z.of_nat n < 2 ^ 64) (backs sp).

Lemma spec_request_room n c w sp : room_for (S n) sp -> room_for n (spec_request c w sp).1.
Proof.
  unfold room_for, spec_request. intros Hf.
  assert (Hw : Forall (fun sb => zlen (calls sb) + Z.of_nat n < 2 ^ 64) (backs sp)) by (eapply Forall_impl; [exact Hf|cbn; lia]).
  destruct (filter _ _) as [|j l]; [done|]. destruct (backs sp !! Z.to_nat j) as [sb|] eqn:E; [|done]. cbn [fst backs].
  apply Forall_insert; [done|]. apply (Forall_lookup_1 _ _ _ _ Hf) in E. cbn [record_call calls]. rewrite zlen_app.
  change (zlen [(c, call_id w)]) with 1. cbn in E. lia.
Qed.

Abbreviation threadState := (PerThread * list sent)%type.

Section Handlers.
Context `{Host} `{Protobuf RpcMessage} (adler32 : list char -> Z) (tag_ : list char) (prototype_ : RpcMessage).
Context (fixed64_id : forall m x, serialisable m -> in_uint 64 x ->
  serialisable (rpc_set_id x m) /\ ByteSize (rpc_set_id x m) = ByteSize m).

Abbreviation wire := (wire adler32 tag_).
Abbreviation call_ok := (call_ok adler32 tag_ prototype_).
Abbreviation out_of := (out_of adler32 tag_).

(** What a frame's callbacks do with the message, whatever class it is read as. *)
Definition by_class (raw : RawMessage -> threadState -> res threadState) (rpc : RpcMessage -> threadState -> res threadState)
    (w : call) (s : threadState) : res threadState :=
  match w with
  | Short _ _ _ => '(_, m) ← raw_parse adler32 tag_ (newRawMessage (wire w)); raw m s
  | Full m => rpc m s
  end.

Lemma by_class_handles raw rpc w s :
  call_ok w ->
  match w with
  | Short _ _ _ => onRawMessage adler32 tag_ raw (wire w) s = (s ← by_class raw rpc w s; Ok (false, s))
  | Full m => onRawMessage adler32 tag_ raw (wire w) s = Ok (true, s) /\ rpc m s = by_class raw rpc w s
  end.
Proof.
  intros (Hid & Hmax & Hk). unfold onRawMessage. destruct w as [t id rest|m]; cbn [by_class].
  - by rewrite raw_parse_short.
  - destruct Hk as (_ & _ & ->). done.
Qed.

(** A property of both classes' handlers for messages that represent a call is one of the frame's. *)
Lemma by_class_ind raw rpc w s (P : res threadState -> Prop) :
  call_ok w ->
  (forall m, raw_rep adler32 tag_ m w -> P (raw m s)) -> (forall m, rpc_rep adler32 tag_ m w -> P (rpc m s)) ->
  P (by_class raw rpc w s).
Proof.
  intros (Hid & Hmax & Hk) Hraw Hrpc. destruct w as [t id rest|m]; cbn [by_class].
  - rewrite raw_parse_short by done. cbn [mbind res_bind]. apply Hraw. by exists t, id, id, rest.
  - apply Hrpc. split; [done|]. destruct Hk as (? & _ & _). done.
Qed.

Definition client_handle (c : Z) : call -> threadState -> res threadState :=
  by_class (client_request (H1 := raw_message adler32) c) (client_request (H1 := rpc_message adler32 tag_) c).
Definition backend_handle (alive : gset Z) (i : Z) : call -> threadState -> res threadState :=
  by_class (backend_answer (H1 := raw_message adler32) alive i) (backend_answer (H1 := rpc_message adler32 tag_) alive i).

(** [f] implements [spec_f] on the states allowed by [pre]. *)
Definition implements (f : threadState -> res threadState) (spec_f : spec -> spec * list effect) (pre : spec -> Prop) : Prop :=
  forall sp t out, refines sp t -> pre sp ->
    exists t', f (t, out) = Ok (t', out ++ (out_of <$> (spec_f sp).2)) /\ refines (spec_f sp).1 t'.

Lemma client_handle_refines c w : call_ok w -> implements (client_handle c w) (spec_request c w) (room_for 1).
Proof using fixed64_id.
  intros Hw sp t out Hr Hroom. unfold client_handle.
  apply (by_class_ind _ _ w _ (fun r => exists t', r = Ok (t', out ++ (out_of <$> (spec_request c w sp).2)) /\ refines (spec_request c w sp).1 t') Hw).
  - intros m Hm. by apply (request_refines adler32 tag_ (raw_rep adler32 tag_) (Hrep := raw_represents adler32 tag_)).
  - intros m Hm. by apply (request_refines adler32 tag_ (rpc_rep adler32 tag_) (Hrep := rpc_represents adler32 tag_ fixed64_id)).
Qed.

Lemma backend_handle_refines alive i w :
  call_ok w -> implements (backend_handle alive i w) (spec_answer alive i w) (fun sp => 0 <= i < zlen (backs sp)).
Proof using fixed64_id.
  intros Hw sp t out Hr Hi. unfold backend_handle.
  apply (by_class_ind _ _ w _ (fun r => exists t', r = Ok (t', out ++ (out_of <$> (spec_answer alive i w sp).2)) /\ refines (spec_answer alive i w sp).1 t') Hw).
  - intros m Hm. by apply (backend_answer_refines adler32 tag_ (raw_rep adler32 tag_) (Hrep := raw_represents adler32 tag_)).
  - intros m Hm. by apply (backend_answer_refines adler32 tag_ (rpc_rep adler32 tag_) (Hrep := rpc_represents adler32 tag_ fixed64_id)).
Qed.

(** A sequence of calls, when what [f] needs for [n] more calls is kept for one less. *)
Lemma handle_all_implements f spec_f (pre : nat -> spec -> Prop) ws :
  (forall w n, call_ok w -> implements (f w) (spec_f w) (pre (S n)) /\ forall sp, pre (S n) sp -> pre n (spec_f w sp).1) ->
  Forall call_ok ws -> implements (handle_all f ws) (spec_all spec_f ws) (pre (length ws)).
Proof.
  intros Hf. induction 1 as [|w ws Hw _ IH]; intros sp t out Hr Hp; cbn [handle_all spec_all length] in *.
  - exists t. cbn. by rewrite app_nil_r.
  - destruct (Hf w (length ws) Hw) as [Hfw Hpre]. destruct (Hfw sp t out Hr Hp) as (t1 & -> & Hr1). specialize (Hpre sp Hp).
    cbn [mbind res_bind]. destruct (spec_f w sp) as [sp1 es1]. cbn [fst snd] in *.
    destruct (IH sp1 t1 (out ++ (out_of <$> es1)) Hr1 Hpre) as (t2 & -> & Hr2).
    destruct (spec_all spec_f ws sp1) as [sp2 es2]. cbn [fst snd] in *. exists t2. by rewrite fmap_app, (assoc_L app).
Qed.

Lemma client_calls c ws : Forall call_ok ws -> implements (handle_all (client_handle c) ws) (spec_all (spec_request c) ws) (room_for (length ws)).
Proof using fixed64_id.
  apply (handle_all_implements (client_handle c) (spec_request c) room_for). intros w n Hw. split; [|by intros sp; apply spec_request_room].
  intros sp t out Hr Hp. apply client_handle_refines; [done..|]. eapply Forall_impl; [exact Hp|]. cbn. lia.
Qed.

Lemma backend_calls alive i ws :
  Forall call_ok ws -> implements (handle_all (backend_handle alive i) ws) (spec_all (spec_answer alive i) ws) (fun sp => 0 <= i < zlen (backs sp)).
Proof using fixed64_id.
  apply (handle_all_implements (backend_handle alive i) (spec_answer alive i) (fun _ sp => 0 <= i < zlen (backs sp))).
  intros w n Hw. split; [by apply backend_handle_refines|]. intros sp Hi. unfold spec_answer.
  repeat case_match; cbn [fst backs]; try done; unfold zlen in *; by rewrite length_insert.
Qed.
End Handlers.
