(* ===== verification/BalancerCorrect.v ===== *)
(** * The RPC load balancer as a whole

    A thread of the balancer with its clients and backends.  Connections come and go, and
    bytes arrive in reads cut anywhere.  What is sent is what the abstract balancer of
    BalancerTheory.v says, whose history is sound: ids are unique on a backend connection, and an
    answer goes to the client whose call it answers, under the id that client chose, once. *)
From S2P Require Import Prelude Endian Buffer BufferTheory Codec ProtobufCodec Rpc Balancer BalancerTheory.

(** ** Histories of the abstract balancer *)

Definition forwarded_ticket (e : effect) : option (Z * Z) := match e with Forwarded i k _ _ => Some (i, k) | _ => None end.
Definition answered_ticket (e : effect) : option (Z * Z) := match e with Answered i k _ _ _ => Some (i, k) | _ => None end.

(** The answer [e] follows the forwarding of the call it answers. *)
Definition answers_call (before : list effect) (e : effect) : Prop :=
  match e with
  | Answered i k c o w => call_id w = k /\ exists w', Forwarded i k c w' ∈ before /\ call_id w' = o
  | Forwarded _ _ _ _ => True
  end.

Record sound (es : list effect) : Prop := {
  unique_ids : NoDup (omap forwarded_ticket es);
  answered_once : NoDup (omap answered_ticket es);
  answers_calls before e after : es = before ++ e :: after -> answers_call before e
}.

(** The history and the state it led to. *)
Record history (es : list effect) (sp : spec) : Prop := {
  h_sound : sound es;
  h_forwarded i k c w : Forwarded i k c w ∈ es ->
    0 <= i /\ exists sb, backs sp !! Z.to_nat i = Some sb /\ ticket sb k = Some (c, call_id w);
  h_ticket i sb k c o : 0 <= i -> backs sp !! Z.to_nat i = Some sb -> ticket sb k = Some (c, o) ->
    exists w, Forwarded i k c w ∈ es /\ call_id w = o;
  h_answered i k c o w : Answered i k c o w ∈ es -> 0 <= i /\ exists sb, backs sp !! Z.to_nat i = Some sb /\ k ∈ answered sb
}.

Lemma sound_snoc es e :
  sound es -> (forall x, forwarded_ticket e = Some x -> x ∉ omap forwarded_ticket es) ->
  (forall x, answered_ticket e = Some x -> x ∉ omap answered_ticket es) -> answers_call es e -> sound (es ++ [e]).
Proof.
  intros [Hu Ha Hc] Hf Hans He. split.
  - rewrite omap_app. apply NoDup_app. split; [done|]. cbn. destruct (forwarded_ticket e) as [x|] eqn:E; [|by split; [intros ? ? ?%not_elem_of_nil|constructor]].
    split; [|apply NoDup_singleton]. intros y Hy ->%list_elem_of_singleton. by apply (Hf x).
  - rewrite omap_app. apply NoDup_app. split; [done|]. cbn. destruct (answered_ticket e) as [x|] eqn:E; [|by split; [intros ? ? ?%not_elem_of_nil|constructor]].
    split; [|apply NoDup_singleton]. intros y Hy ->%list_elem_of_singleton. by apply (Hans x).
  - intros before e' after Heq. destruct (exists_last (l := e' :: after)) as (l & x & El); [done|].
    rewrite El, (assoc_L app) in Heq. apply app_inj_tail in Heq as [-> ->].
    destruct l as [|y l]; cbn in El; injection El as -> ->; [by rewrite app_nil_r in He|]. by eapply Hc.
Qed.

Lemma elem_of_rotation j from n rounds : 0 < n -> j ∈ rotation from n rounds -> 0 <= j < n.
Proof. intros Hn (k & -> & _)%list_elem_of_fmap. by apply Z.mod_pos_bound. Qed.

Lemma elem_of_forwarded (es : list effect) i k : (i, k) ∈ omap forwarded_ticket es <-> exists c w, Forwarded i k c w ∈ es.
Proof.
  rewrite list_elem_of_omap. split.
  - intros ([? ? c w|] & Hin & [= <- <-]). eauto.
  - intros (c & w & Hin). by exists (Forwarded i k c w).
Qed.

Lemma elem_of_answered (es : list effect) i k : (i, k) ∈ omap answered_ticket es <-> exists c o w, Answered i k c o w ∈ es.
Proof.
  rewrite list_elem_of_omap. split.
  - intros ([|? ? c o w] & Hin & [= <- <-]). eauto.
  - intros (c & o & w & Hin). by exists (Answered i k c o w).
Qed.

(** Two backends with numbers at least 0 are the same if their places are. *)
Lemma same_place i j : 0 <= i -> 0 <= j -> Z.to_nat i = Z.to_nat j -> i = j.
Proof. lia. Qed.

(** Giving backend [j] another state that knows the same calls, and more answers. *)
Lemma history_answers es sp j sb sb' cr :
  history es sp -> backs sp !! j = Some sb -> calls sb' = calls sb -> answered sb ⊆ answered sb' ->
  history es (mkSpec cr (<[j := sb']> (backs sp))).
Proof.
  intros [Hs Hf Ht Ha] Hj Hc Hans. assert (Hlt := lookup_lt_Some _ _ _ Hj).
  assert (Htk : forall k, ticket sb' k = ticket sb k) by (intros k; unfold ticket; by rewrite Hc).
  split; cbn [backs]; [done| | |].
  - intros i k c w Hin. destruct (Hf i k c w Hin) as (Hi & sb0 & Hl & Htick). split; [done|].
    destruct (decide (j = Z.to_nat i)) as [->|Hne]; [|rewrite list_lookup_insert_ne by done; eauto].
    rewrite list_lookup_insert_eq by done. exists sb'. rewrite Htk. split; [done|]. congruence.
  - intros i sb0 k c o Hi Hl Htick. destruct (decide (j = Z.to_nat i)) as [->|Hne].
    + rewrite list_lookup_insert_eq in Hl by done. injection Hl as <-. rewrite Htk in Htick. by apply (Ht i sb).
    + rewrite list_lookup_insert_ne in Hl by done. by apply (Ht i sb0).
  - intros i k c o w Hin. destruct (Ha i k c o w Hin) as (Hi & sb0 & Hl & Hk). split; [done|].
    destruct (decide (j = Z.to_nat i)) as [->|Hne]; [|rewrite list_lookup_insert_ne by done; eauto].
    rewrite list_lookup_insert_eq by done. exists sb'. split; [done|]. rewrite Hj in Hl. injection Hl as <-. by apply Hans.
Qed.

Lemma request_history es sp c w : history es sp -> history (es ++ (spec_request c w sp).2) (spec_request c w sp).1.
Proof.
  intros Hh. pose proof Hh as [Hs Hf Ht Ha]. unfold spec_request.
  destruct (filter _ _) as [|j l] eqn:Efil; [by rewrite app_nil_r|].
  destruct (backs sp !! Z.to_nat j) as [sb|] eqn:Esb; [|by rewrite app_nil_r]. cbn [fst snd].
  assert (Hlt := lookup_lt_Some _ _ _ Esb).
  assert (Hj : 0 <= j < zlen (backs sp)).
  { apply (elem_of_rotation j (cur sp) _ (length (backs sp))); [unfold zlen; lia|].
    assert (Hin : j ∈ j :: l) by left. rewrite <- Efil in Hin. by apply list_elem_of_filter in Hin as [_ ?]. }
  set (k := zlen (calls sb) + 1). assert (Hk : ticket sb k = None).
  { destruct (ticket sb k) eqn:E; [|done]. apply ticket_Some in E. lia. }
  split; cbn [backs].
  - apply sound_snoc; [done| |done|done]. intros x [= <-]. rewrite elem_of_forwarded. intros (c' & w' & Hin).
    destruct (Hf _ _ _ _ Hin) as (_ & sb0 & Hl & Htick). congruence.
  - intros i k' c' w' [Hin|[= -> -> -> ->]%list_elem_of_singleton]%elem_of_app.
    + destruct (Hf _ _ _ _ Hin) as (Hi & sb0 & Hl & Htick). split; [done|].
      destruct (decide (Z.to_nat j = Z.to_nat i)) as [E|Hne]; [|rewrite list_lookup_insert_ne by done; eauto].
      rewrite <- E in *. rewrite list_lookup_insert_eq by done. eexists. split; [done|]. rewrite ticket_push.
      fold k. assert (sb0 = sb) as -> by congruence. rewrite decide_False; [done|]. intros ->. congruence.
    + split; [lia|]. rewrite list_lookup_insert_eq by done. eexists. split; [done|]. rewrite ticket_push. by rewrite decide_True.
  - intros i sb0 k' c' o Hi Hl Htick. destruct (decide (Z.to_nat j = Z.to_nat i)) as [E|Hne].
    + rewrite <- E, list_lookup_insert_eq in Hl by done. injection Hl as <-. rewrite ticket_push in Htick.
      apply same_place in E as <-; [|lia..]. fold k in Htick. destruct (decide (k' = k)) as [->|Hk'].
      * injection Htick as <- <-. exists w. split; [|done]. apply elem_of_app. right. by apply list_elem_of_singleton.
      * destruct (Ht _ _ _ _ _ Hi Esb Htick) as (w' & Hin & Hw'). exists w'. split; [|done]. apply elem_of_app. by left.
    + rewrite list_lookup_insert_ne in Hl by done. destruct (Ht _ _ _ _ _ Hi Hl Htick) as (w' & Hin & Hw').
      exists w'. split; [|done]. apply elem_of_app. by left.
  - intros i k' c' o w' [Hin|Heq]%elem_of_app; [|by apply list_elem_of_singleton in Heq].
    destruct (Ha _ _ _ _ _ Hin) as (Hi & sb0 & Hl & Hk'). split; [done|].
    destruct (decide (Z.to_nat j = Z.to_nat i)) as [E|Hne]; [|rewrite list_lookup_insert_ne by done; eauto].
    rewrite <- E in *. rewrite list_lookup_insert_eq by done. eexists. split; [done|]. cbn. congruence.
Qed.

Lemma answer_history es sp alive i w :
  0 <= i -> history es sp -> history (es ++ (spec_answer alive i w sp).2) (spec_answer alive i w sp).1.
Proof.
  intros Hi Hh. unfold spec_answer. destruct (backs sp !! Z.to_nat i) as [sb|] eqn:Esb; [|by rewrite app_nil_r].
  destruct (decide (call_id w ∈ answered sb)) as [|Hna]; [by rewrite app_nil_r|].
  destruct (ticket sb (call_id w)) as [[c o]|] eqn:Et; [|by rewrite app_nil_r]. cbn [fst snd].
  set (sb' := mkSB _ _ _). pose proof (history_answers es sp _ sb sb' (cur sp) Hh Esb eq_refl ltac:(cbn; set_solver)) as Hh'.
  destruct (decide (c ∈ alive)); [|by rewrite app_nil_r]. pose proof Hh as [Hs Hf Ht Ha]. destruct Hh' as [_ Hf' Ht' Ha'].
  assert (Hlt := lookup_lt_Some _ _ _ Esb). split.
  - apply sound_snoc; [done..| |].
    + intros x [= <-]. rewrite elem_of_answered. intros (c' & o' & w' & Hin).
      destruct (Ha _ _ _ _ _ Hin) as (_ & sb0 & Hl & Hk). congruence.
    + split; [done|]. by apply (Ht i sb).
  - intros j k c' w' [Hin|Heq]%elem_of_app; [by apply Hf'|by apply list_elem_of_singleton in Heq].
  - intros j sb0 k c' o' Hj Hl Htick. destruct (Ht' j sb0 k c' o' Hj Hl Htick) as (w' & Hin & Hw').
    exists w'. split; [|done]. apply elem_of_app. by left.
  - intros j k c' o' w' [Hin|[= -> -> -> -> ->]%list_elem_of_singleton]%elem_of_app; [by apply (Ha' _ _ c' o' w')|].
    split; [done|]. cbn. rewrite list_lookup_insert_eq by done. exists sb'. split; [done|]. cbn. set_solver.
Qed.

Lemma all_history es sp f ws :
  (forall es sp w, history es sp -> history (es ++ (f w sp).2) (f w sp).1) ->
  history es sp -> history (es ++ (spec_all f ws sp).2) (spec_all f ws sp).1.
Proof.
  intros Hf. revert es sp. induction ws as [|w ws IH]; intros es sp Hh; cbn [spec_all]; [by rewrite app_nil_r|].
  specialize (Hf es sp w Hh). destruct (f w sp) as [sp1 es1]. specialize (IH _ _ Hf). cbn [fst snd] in *.
  destruct (spec_all f ws sp1) as [sp2 es2]. cbn [fst snd] in *. by rewrite (assoc_L app).
Qed.

(** ** The system *)

(** One thread with the input buffers of its connections; [used]: numbers clients have had. *)
Record Sys := mkSys { thread : PerThread; clients : gmap Z Buffer; backendConns : gmap Z Buffer; used : gset Z }.

(** [ws]: the calls that the bytes read complete. *)
Inductive event :=
| ClientUp (c : Z)
| ClientDown (c : Z)
| ClientRead (c : Z) (d : list char) (ws : list call)
| BackendUp (i : Z)
| BackendDown (i : Z)
| BackendRead (i : Z) (d : list char) (ws : list call).

Record absSys := mkAbs { abs : spec; alive : gset Z }.

Definition set_up (i : Z) (u : bool) (sp : spec) : spec :=
  match backs sp !! Z.to_nat i with
  | Some sb => mkSpec (cur sp) (<[Z.to_nat i := mkSB u (calls sb) (answered sb)]> (backs sp))
  | None => sp
  end.

Definition spec_step (e : event) (a : absSys) : absSys * list effect :=
  match e with
  | ClientUp c => (mkAbs (abs a) ({[c]} ∪ alive a), [])
  | ClientDown c => (mkAbs (abs a) (alive a ∖ {[c]}), [])
  | ClientRead c _ ws => let '(sp, es) := spec_all (spec_request c) ws (abs a) in (mkAbs sp (alive a), es)
  | BackendUp i => (mkAbs (set_up i true (abs a)) (alive a), [])
  | BackendDown i => (mkAbs (set_up i false (abs a)) (alive a), [])
  | BackendRead i _ ws => let '(sp, es) := spec_all (spec_answer (alive a) i) ws (abs a) in (mkAbs sp (alive a), es)
  end.

Fixpoint spec_run (evs : list event) (a : absSys) : absSys * list effect :=
  match evs with
  | [] => (a, [])
  | e :: evs => let '(a, es) := spec_step e a in let '(a, es') := spec_run evs a in (a, es ++ es')
  end.

Section System.
Context `{Host} `{Protobuf RpcMessage} (adler32 : list char -> Z) (tag_ : list char) (prototype_ : RpcMessage).

Abbreviation call_ok := (call_ok adler32 tag_ prototype_).
Abbreviation wire := (wire adler32 tag_).

Definition fuel_of (b : Buffer) : nat := S (Z.to_nat (readableBytes b)).

Definition step (e : event) (s : Sys) : res (Sys * list sent) :=
  match e with
  | ClientUp c =>
      b ← newBuffer kInitialSize; Ok (mkSys (thread s) (<[c := b]> (clients s)) (backendConns s) ({[c]} ∪ used s), [])
  | ClientDown c => Ok (mkSys (thread s) (delete c (clients s)) (backendConns s) (used s), [])
  | ClientRead c d _ =>
      b ← get (clients s !! c);
      b ← append d b;
      '((t, out), b) ← onClientBytes adler32 tag_ prototype_ (fuel_of b) c b (thread s, []);
      Ok (mkSys t (<[c := b]> (clients s)) (backendConns s) (used s), out)
  | BackendUp i =>
      b ← newBuffer kInitialSize;
      t ← onBackendConnection i true (thread s);
      Ok (mkSys t (clients s) (<[i := b]> (backendConns s)) (used s), [])
  | BackendDown i =>
      t ← onBackendConnection i false (thread s);
      Ok (mkSys t (clients s) (delete i (backendConns s)) (used s), [])
  | BackendRead i d _ =>
      b ← get (backendConns s !! i);
      b ← append d b;
      '((t, out), b) ← onBackendBytes adler32 tag_ prototype_ (fuel_of b) (dom (clients s)) i b (thread s, []);
      Ok (mkSys t (clients s) (<[i := b]> (backendConns s)) (used s), out)
  end.

Fixpoint run (evs : list event) (s : Sys) : res (Sys * list sent) :=
  match evs with
  | [] => Ok (s, [])
  | e :: evs => '(s, out) ← step e s; '(s, out') ← run evs s; Ok (s, out ++ out')
  end.

(** The bytes buffered and read are the calls [ws] and the start of another. *)
Definition completes (o : option Buffer) (d : list char) (ws : list call) : Prop :=
  zlen d <= max_size /\ Forall call_ok ws /\
  match o with
  | Some b => let x := content b ++ d in let frames := concat (wire <$> ws) in
      take (length frames) x = frames /\ partial tag_ (drop (length frames) x)
  | None => False
  end.

(** Clients are new when they come up; there are [n] backends; ids do not run out. *)
Definition legal (n : Z) (e : event) (s : Sys) : Prop :=
  match e with
  | ClientUp c => c ∉ used s
  | ClientDown c => is_Some (clients s !! c)
  | ClientRead c d ws => completes (clients s !! c) d ws /\
      Forall (fun b => nextId_ b + Z.of_nat (length ws) < 2 ^ 64) (backends (thread s))
  | BackendUp i => 0 <= i < n /\ backendConns s !! i = None
  | BackendDown i => 0 <= i < n /\ is_Some (backendConns s !! i)
  | BackendRead i d ws => 0 <= i < n /\ completes (backendConns s !! i) d ws
  end.

Fixpoint legal_run (n : Z) (evs : list event) (s : Sys) : Prop :=
  match evs with
  | [] => True
  | e :: evs => legal n e s /\ match step e s with Ok (s, _) => legal_run n evs s | Fault _ => True end
  end.

Definition start (count : Z) (n : nat) : Sys := mkSys (initPerThread count n) ∅ ∅ ∅.
Definition abs_start (count : Z) (n : nat) : absSys :=
  mkAbs (mkSpec (count mod Z.of_nat n) (replicate n (mkSB false [] ∅))) ∅.

Record sys_refines (n : Z) (a : absSys) (s : Sys) : Prop := {
  sy_thread : refines (abs a) (thread s);
  sy_backs : zlen (backs (abs a)) = n;
  sy_alive : alive a = dom (clients s);
  sy_clients c b : clients s !! c = Some b -> inv b;
  sy_conns i b : backendConns s !! i = Some b -> inv b
}.

Context (Htag : zlen tag_ < 2 ^ 16).
Context (fixed64_id : forall m x, serialisable m -> in_uint 64 x ->
  serialisable (rpc_set_id x m) /\ ByteSize (rpc_set_id x m) = ByteSize m).

Lemma set_up_refines i u sp t :
  refines sp t -> 0 <= i < zlen (backs sp) -> exists t', onBackendConnection i u t = Ok t' /\ refines (set_up i u sp) t'.
Proof.
  intros [Hcr Hrange Hb] Hi. unfold onBackendConnection, set_up.
  destruct (lookup_lt_is_Some_2 (backs sp) (Z.to_nat i)) as [sb Esb]; [unfold zlen in *; lia|].
  destruct (Forall2_lookup_l _ _ _ _ _ Hb Esb) as (s & Es & [Hup Hn Ho Ha Hids]). rewrite Es, Esb. cbn [get mbind res_bind].
  eexists. split; [done|]. split; cbn; [done|unfold zlen in *; by rewrite length_insert|]. by apply Forall2_insert.
Qed.

Lemma set_up_length i u sp : zlen (backs (set_up i u sp)) = zlen (backs sp).
Proof. unfold set_up. case_match; [|done]. cbn. unfold zlen. by rewrite length_insert. Qed.

Lemma request_length c w sp : zlen (backs (spec_request c w sp).1) = zlen (backs sp).
Proof. unfold spec_request. repeat case_match; try done. cbn. unfold zlen. by rewrite length_insert. Qed.

Lemma answer_length al i w sp : zlen (backs (spec_answer al i w sp).1) = zlen (backs sp).
Proof. unfold spec_answer. repeat case_match; try done; cbn; unfold zlen; by rewrite length_insert. Qed.

Lemma all_length f ws sp :
  (forall w sp, zlen (backs (f w sp).1) = zlen (backs sp)) -> zlen (backs (spec_all f ws sp).1) = zlen (backs sp).
Proof.
  intros Hf. revert sp. induction ws as [|w ws IH]; intros sp; [done|]. cbn [spec_all]. specialize (Hf w sp).
  destruct (f w sp) as [sp1 es1]. specialize (IH sp1). destruct (spec_all f ws sp1). cbn [fst] in *. congruence.
Qed.

Abbreviation out_of := (out_of adler32 tag_).

(** The loop over a buffer, for callbacks that implement a specification. *)
Lemma read_implements raw rpc err spec_f pre b d b1 ws sp t :
  completes (Some b) d ws -> inv b1 -> content b1 = content b ++ d ->
  implements adler32 tag_ (handle_all (by_class adler32 tag_ raw rpc) ws) spec_f pre -> refines sp t -> pre sp ->
  exists t' b', codec_onMessage adler32 tag_ prototype_ (onRawMessage adler32 tag_ raw) rpc err (fuel_of b1) b1 (t, []) =
      Ok ((t', out_of <$> (spec_f sp).2), b') /\ inv b' /\ refines (spec_f sp).1 t'.
Proof using Htag.
  intros (Hz & Hok & Hw & Ht) Hi Hc Himp Hr Hp. destruct (Himp sp t [] Hr Hp) as (t' & Hh & Hr').
  set (tl := drop _ _) in Ht. set (fs := concat (wire <$> ws)) in *.
  assert (Hx : content b ++ d = fs ++ tl) by (rewrite <- Hw at 1; unfold tl; by rewrite take_drop).
  destruct (onMessage_calls adler32 tag_ prototype_ Htag (onRawMessage adler32 tag_ raw) rpc err (by_class adler32 tag_ raw rpc)
    (fun w s Hw => by_class_handles adler32 tag_ prototype_ raw rpc w s Hw) ws tl (fuel_of b1) b1 (t, []) _ Hi Hok
    ltac:(by rewrite Hc) Ht Hh) as (b' & E & Hi' & _); [|by exists t', b'].
  unfold fuel_of. rewrite readableBytes_content, Hc, Hx by done. unfold zlen. rewrite Nat2Z.id, length_app.
  assert (Hl : (length ws <= length fs)%nat); [|lia]. unfold fs. clear. induction ws as [|w ws IH]; [done|].
  cbn [fmap list_fmap concat length]. rewrite length_app. unfold wire, framed at 1. rewrite length_app, length_be_bytes. unfold wire in IH. lia.
Qed.

Lemma next_ids sp t k : refines sp t -> Forall (fun b => nextId_ b + k < 2 ^ 64) (backends t) -> Forall (fun sb => zlen (calls sb) + k < 2 ^ 64) (backs sp).
Proof.
  intros [_ _ Hb] Hf. induction Hb as [|sb b l l' Hsb _ IH]; [done|]. apply Forall_cons in Hf as [Hx Hf].
  constructor; [by rewrite <- (sr_next _ _ Hsb)|by apply IH].
Qed.

Lemma balancer_step_refines n e a s :
  sys_refines n a s -> legal n e s ->
  outcome LengthError (step e s) (fun '(s', out) =>
    sys_refines n (spec_step e a).1 s' /\ out = out_of <$> (spec_step e a).2).
Proof using Htag fixed64_id.
  intros [Ht Hn Ha Hcl Hco] Hl. destruct e as [c|c|c d ws|i|i|i d ws]; cbn [step legal spec_step] in *.
  - destruct (newBuffer_spec kInitialSize) as (b & -> & Hi & _);
      [unfold kInitialSize; lia|unfold kCheapPrepend, kInitialSize, max_size; lia|]. cbn [mbind res_bind]. apply outcome_Ok. split; [|done].
    split; cbn; [done..|by rewrite dom_insert_L, Ha| |done]. intros x b' [[<- <-]|[_ E]]%lookup_insert_Some; [done|eauto].
  - apply outcome_Ok. split; [|done]. split; cbn; [done..|by rewrite dom_delete_L, Ha| |done]. intros x b' [_ E]%lookup_delete_Some. eauto.
  - destruct Hl as [Hcomp Hids]. destruct (clients s !! c) as [b|] eqn:Eb; [|by destruct Hcomp as (_ & _ & [])]. cbn [get mbind res_bind].
    destruct (append_outcome d b (Hcl _ _ Eb) (proj1 Hcomp)) as [(b1 & -> & Hi1 & Hc1)|[-> _]]; [|by right]. cbn [mbind res_bind].
    pose proof (client_calls adler32 tag_ prototype_ fixed64_id c ws (proj1 (proj2 Hcomp))) as Himp.
    destruct (read_implements _ _ (fun _ '(t, out) => Ok (t, out ++ [ShutdownClient c])) _ _ b d b1 ws _ _ Hcomp Hi1 Hc1 Himp Ht (next_ids _ _ _ Ht Hids))
      as (t' & b' & Hrun & Hi' & Hr'). unfold onClientBytes. rewrite Hrun. cbn [mbind res_bind]. apply outcome_Ok.
    pose proof (all_length (spec_request c) ws (abs a) (request_length c)) as Hlen.
    destruct (spec_all (spec_request c) ws (abs a)) as [sp es]. cbn [fst snd abs alive] in *. split; [|done].
    split; cbn; [done|congruence| | |done].
    + rewrite dom_insert_L, Ha. apply elem_of_dom_2 in Eb. set_solver.
    + intros x b'' [[<- <-]|[_ E]]%lookup_insert_Some; [done|eauto].
  - destruct Hl as [Hi Hnone]. destruct (newBuffer_spec kInitialSize) as (b & -> & Hib & _);
      [unfold kInitialSize; lia|unfold kCheapPrepend, kInitialSize, max_size; lia|]. cbn [mbind res_bind].
    destruct (set_up_refines i true (abs a) (thread s) Ht) as (t' & -> & Hr'); [lia|]. cbn [mbind res_bind]. apply outcome_Ok. split; [|done].
    split; cbn; [done|by rewrite set_up_length|done..|]. intros x b' [[<- <-]|[_ E]]%lookup_insert_Some; [done|eauto].
  - destruct Hl as [Hi Hsome]. destruct (set_up_refines i false (abs a) (thread s) Ht) as (t' & -> & Hr'); [lia|].
    cbn [mbind res_bind]. apply outcome_Ok. split; [|done].
    split; cbn; [done|by rewrite set_up_length|done..|]. intros x b' [_ E]%lookup_delete_Some. eauto.
  - destruct Hl as [Hi Hcomp]. assert (Hib : 0 <= i < zlen (backs (abs a))) by lia. destruct (backendConns s !! i) as [b|] eqn:Eb; [|by destruct Hcomp as (_ & _ & [])]. cbn [get mbind res_bind].
    destruct (append_outcome d b (Hco _ _ Eb) (proj1 Hcomp)) as [(b1 & -> & Hi1 & Hc1)|[-> _]]; [|by right]. cbn [mbind res_bind].
    pose proof (backend_calls adler32 tag_ prototype_ fixed64_id (alive a) i ws (proj1 (proj2 Hcomp))) as Himp.
    destruct (read_implements _ _ (fun _ '(t, out) => Ok (t, out ++ [ShutdownBackend i])) _ _ b d b1 ws _ _ Hcomp Hi1 Hc1 Himp Ht Hib)
      as (t' & b' & Hrun & Hi' & Hr'). unfold onBackendBytes. rewrite <- Ha, Hrun. cbn [mbind res_bind]. apply outcome_Ok.
    pose proof (all_length (spec_answer (alive a) i) ws (abs a) (answer_length _ i)) as Hlen.
    destruct (spec_all (spec_answer (alive a) i) ws (abs a)) as [sp es]. cbn [fst snd abs alive] in *. split; [|done].
    split; cbn; [done|congruence|done|done|]. intros x b'' [[<- <-]|[_ E]]%lookup_insert_Some; [done|eauto].
Qed.

Lemma step_history n e a s es : legal n e s -> history es (abs a) -> history (es ++ (spec_step e a).2) (abs (spec_step e a).1).
Proof.
  assert (Hup : forall i u, history es (abs a) -> history es (set_up i u (abs a))).
  { intros i u Hh. unfold set_up. destruct (backs (abs a) !! Z.to_nat i) as [sb|] eqn:E; [|done]. by apply history_answers with sb. }
  intros Hl Hh. destruct e as [c|c|c d ws|i|i|i d ws]; cbn [spec_step fst snd abs]; rewrite ?app_nil_r; auto.
  - pose proof (all_history es (abs a) (spec_request c) ws (fun es sp w => request_history es sp c w) Hh) as Hx.
    by destruct (spec_all (spec_request c) ws (abs a)).
  - destruct Hl as [Hi _].
    pose proof (all_history es (abs a) (spec_answer (alive a) i) ws (fun es sp w => answer_history es sp (alive a) i w (proj1 Hi)) Hh) as Hx.
    by destruct (spec_all (spec_answer (alive a) i) ws (abs a)).
Qed.

Lemma balancer_run_refines n evs a s es :
  sys_refines n a s -> legal_run n evs s -> history es (abs a) ->
  outcome LengthError (run evs s) (fun '(s', out) => sys_refines n (spec_run evs a).1 s' /\ out = out_of <$> (spec_run evs a).2 /\
    history (es ++ (spec_run evs a).2) (abs (spec_run evs a).1)).
Proof using Htag fixed64_id.
  revert a s es. induction evs as [|e evs IH]; intros a s es Hs Hl Hh; cbn [run spec_run].
  { apply outcome_Ok. by rewrite app_nil_r. }
  destruct Hl as [Hl Hls]. pose proof (step_history n e a s es Hl Hh) as Hh1.
  destruct (balancer_step_refines n e a s Hs Hl) as [([s1 o1] & E & Hs1 & Ho1)|E]; rewrite E in *; [|by right]. cbn [mbind res_bind].
  destruct (spec_step e a) as [a1 es1]. cbn [fst snd] in *.
  eapply outcome_bind; [by apply (IH a1 s1 (es ++ es1))|]. intros [s2 o2] (Hs2 & Ho2 & Hh2). apply outcome_Ok.
  destruct (spec_run evs a1) as [a2 es2]. cbn [fst snd] in *. split_and!; [done|by rewrite fmap_app, Ho1, Ho2|by rewrite (assoc_L app)].
Qed.

Lemma start_refines count n :
  0 <= count < 2 ^ 31 -> 0 < Z.of_nat n < 2 ^ 32 -> sys_refines (Z.of_nat n) (abs_start count n) (start count n).
Proof.
  intros Hc Hn. split; cbn; [|unfold zlen; by rewrite length_replicate|done..].
  split; cbn; [by rewrite uint_small by lia| |].
  - unfold zlen. rewrite length_replicate. split; [apply Z.mod_pos_bound; lia|lia].
  - apply Forall2_replicate. split; cbn; [done..| |intros k ?%elem_of_empty; done|done].
    intros k. unfold ticket. cbn. destruct (1 <=? k); by rewrite lookup_empty.
Qed.

Lemma start_history count n : history [] (abs (abs_start count n)).
Proof.
  split; [split; [constructor..|by intros []]| | |].
  - intros i k c w Hin. by apply not_elem_of_nil in Hin.
  - intros i sb k c o _ Hl. cbn in Hl. apply lookup_replicate in Hl as [-> _]. unfold ticket. cbn. by case_match.
  - intros i k c o w Hin. by apply not_elem_of_nil in Hin.
Qed.
End System.

(** [C12] The balancer.  For any number of backends and any clients, with connections that come
    and go and bytes cut anywhere: no assertion fails, no connection is shut down, and what is
    sent is what the abstract balancer says, byte for byte, whether a message is rewritten in
    place or parsed: each call goes to the next backend in turn that is up.  In its history ids
    are unique on a backend, every answer goes to the client whose call it answers, under that
    client's own id, and no call is answered twice. *)
Theorem balancer_correct `{Host} `{Protobuf RpcMessage} (adler32 : list char -> Z) (tag_ : list char) (prototype_ : RpcMessage) count n evs :
  zlen tag_ < 2 ^ 16 ->
  (forall m x, serialisable m -> in_uint 64 x -> serialisable (rpc_set_id x m) /\ ByteSize (rpc_set_id x m) = ByteSize m) ->
  0 <= count < 2 ^ 31 -> 0 < Z.of_nat n < 2 ^ 32 ->
  legal_run adler32 tag_ prototype_ (Z.of_nat n) evs (start count n) ->
  outcome LengthError (run adler32 tag_ prototype_ evs (start count n)) (fun '(_, out) =>
    let history := (spec_run evs (abs_start count n)).2 in
    out = out_of adler32 tag_ <$> history /\ sound history).
Proof.
  intros Htag Hid Hc Hn Hl.
  eapply outcome_impl; [apply (balancer_run_refines adler32 tag_ prototype_ Htag Hid (Z.of_nat n) evs _ _ [] (start_refines count n Hc Hn) Hl (start_history count n))|].
  intros [s out] (_ & -> & Hh). split; [done|apply Hh].
Qed.

(** ** A run

    Messages with a type, an id and a request only, as the instance of protobuf. *)
Definition type_number (t : MessageType) : Z := match t with REQUEST => 1 | RESPONSE => 2 | ERROR => 3 end.
Definition number_type (n : Z) : MessageType := if n =? 1 then REQUEST else if n =? 2 then RESPONSE else ERROR.

#[local] Instance plain_protobuf : Protobuf RpcMessage := {|
  GetTypeName _ := lit "muduo.net.RpcMessage";
  IsInitialized _ := true;
  ByteSize m := 11 + zlen (default [] (rrequest m));
  SerializeToArray m := short_data (type_number (rtype m)) (rid m) (default [] (rrequest m));
  FindPrototype _ := None;
  ParseFromArray _ d :=
    match d with
    | _ :: t :: _ :: d => Some (mkRpc (number_type (ord t)) (of_le_bytes (take 8 d)) None None (Some (drop 8 d)) None None)
    | _ => None
    end
|}.

Lemma plain_fixed64_id m x :
  serialisable m -> in_uint 64 x -> serialisable (rpc_set_id x m) /\ ByteSize (rpc_set_id x m) = ByteSize m.
Proof. intros _ _. split; [split|]; [done| |done]. cbn. apply zlen_short_data. Qed.

Definition rpc_tag : list char := lit "RPC0".
Definition empty_rpc : RpcMessage := mkRpc REQUEST 0 None None None None None.
Abbreviation frame w := (BalancerTheory.wire adler32_rfc1950 rpc_tag w) (only parsing).

Definition ask : call := Short 1 42 (lit "hello").
Definition odd_ask : call := Full (mkRpc ERROR 43 None None (Some (lit "x")) None None).
Definition small_reply : call := Short 2 1 (lit "world").

Definition small_run : list event :=
  [BackendUp 0; BackendUp 1; ClientUp 7; ClientRead 7 (take 9 (frame ask)) [];
   ClientRead 7 (drop 9 (frame ask) ++ frame odd_ask) [ask; odd_ask]; BackendRead 1 (frame small_reply) [small_reply];
   BackendRead 1 (frame small_reply) [small_reply]].

#[local] Instance host : Host := LittleEndian.

#[local] Instance in_uint_dec w x : Decision (in_uint w x).
Proof. unfold in_uint. apply _. Defined.
#[local] Instance rpc_eq_dec : EqDecision RpcMessage.
Proof. assert (EqDecision MessageType) by solve_decision. solve_decision. Defined.
#[local] Instance raw_eq_dec : EqDecision RawMessage.
Proof. solve_decision. Defined.
#[local] Instance res_eq_dec {A} `{EqDecision A} : EqDecision (res A).
Proof. solve_decision. Defined.
#[local] Instance call_ok_dec w : Decision (call_ok adler32_rfc1950 rpc_tag empty_rpc w).
Proof. destruct w; unfold call_ok, serialisable; apply _. Defined.
#[local] Instance completes_dec o d ws : Decision (completes adler32_rfc1950 rpc_tag empty_rpc o d ws).
Proof. unfold completes, partial. destruct o; apply _. Defined.
#[local] Instance legal_dec n e s : Decision (legal adler32_rfc1950 rpc_tag empty_rpc n e s).
Proof. destruct e; cbn [legal]; apply _. Defined.
#[local] Instance legal_run_dec n evs s : Decision (legal_run adler32_rfc1950 rpc_tag empty_rpc n evs s).
Proof.
  revert s. induction evs as [|e evs IH]; intros s; cbn [legal_run]; [apply _|].
  apply and_dec; [apply _|]. destruct (step _ _ _ e s) as [[s' ?]|]; [apply IH|apply _].
Defined.

(** Two calls cut across reads go to the backends in turn; the answer comes back under the
    client's id, and only once. *)
Lemma balancer_correct_witness :
  exists s, run adler32_rfc1950 rpc_tag empty_rpc small_run (start 1 2) =
    Ok (s, [ToBackend 1 (frame (Short 1 1 (lit "hello"))); ToBackend 0 (frame (with_id 1 odd_ask)); ToClient 7 (frame (Short 2 42 (lit "world")))]).
Proof.
  destruct (balancer_correct adler32_rfc1950 rpc_tag empty_rpc 1 2 small_run) as [([s out] & E & Ho & _)|E].
  - vm_compute. reflexivity.
  - intros m x. apply plain_fixed64_id.
  - lia.
  - lia.
  - apply (bool_decide_unpack _). vm_compute. exact I.
  - exists s. rewrite E, Ho. do 2 f_equal.
  - vm_compute in E. discriminate.
Defined.

(** RawMessage::parse does not count the checksum: a message that ends in the middle of its
    id is taken for a call, with bytes of the checksum in the id, and passed on to the backend,
    truncated as it was, under a new id and with a good checksum. *)
Example truncated_id_forwarded :
  let truncated id := framed (sealed adler32_rfc1950 (rpc_tag ++ [chr 8; chr 1; chr 17] ++ le_bytes 4 id)) in
  exists s, run adler32_rfc1950 rpc_tag empty_rpc [BackendUp 0; ClientUp 7; ClientRead 7 (truncated 42) []] (start 0 1) =
    Ok (s, [ToBackend 0 (truncated 1)]).
Proof. eexists. vm_compute. reflexivity. Qed.
