(* ===== verification/ConnectionSteps.v ===== *)
(** * Steps of a connection whose callbacks make no calls

    What sendInLoop, a channel's event and a close do to the fields a connection's owner looks
    at, when the owner's callbacks run after the step: the bytes read, the output, the callbacks
    queued, the reading.  The relay and the word count are such owners. *)
From S2P Require Import Prelude Buffer BufferTheory Channel TcpConnection TcpConnectionTheory.

(** ** A connection, seen from the tunnel *)

Definition rd (c : TcpConnection) : bool := isReading (channel_ c).
Definition out (c : TcpConnection) : list char := content (outputBuffer_ c).
Definition inp (c : TcpConnection) : list char := content (inputBuffer_ c).

Lemma rd_enableWriting c : rd (chan_enableWriting c) = rd c.
Proof.
  unfold rd, isReading, has_bits. cbn. rewrite Z.land_lor_distr_l.
  change (Z.land kWriteEvent kReadEvent) with 0. by rewrite Z.lor_0_r.
Qed.

Lemma rd_disableWriting c : rd (chan_disableWriting c) = rd c.
Proof.
  unfold rd, isReading, has_bits. cbn. rewrite <- Z.land_assoc. by change (Z.land (Z.lnot kWriteEvent) kReadEvent) with kReadEvent.
Qed.

Lemma rd_startRead c : rd (startReadInLoop c) = true.
Proof.
  unfold startReadInLoop, rd. destruct (negb (reading_ c) || negb (isReading (channel_ c))) eqn:E.
  - unfold isReading, has_bits. cbn. rewrite Z.land_lor_distr_l. change (Z.land kReadEvent kReadEvent) with 3.
    apply negb_true_iff, Z.eqb_neq. intros H0. apply Z.lor_eq_0_iff in H0 as [_ H0]. done.
  - by destruct (isReading (channel_ c)), (reading_ c).
Qed.

Lemma rd_stopRead c : rd (stopReadInLoop c) = false.
Proof.
  unfold stopReadInLoop, rd. destruct (reading_ c || isReading (channel_ c)) eqn:E.
  - unfold isReading, has_bits. cbn. rewrite <- Z.land_assoc. change (Z.land (Z.lnot kReadEvent) kReadEvent) with 0. by rewrite Z.land_0_r.
  - by destruct (isReading (channel_ c)), (reading_ c).
Qed.

(** What both connections of a tunnel share before and after any operation but their own steps. *)
Record same (c c' : TcpConnection) : Prop := {
  sm_state : state_ c' = state_ c;
  sm_wc : writeCompleteCallback_ c' = writeCompleteCallback_ c;
  sm_fin : fin c' = fin c;
  sm_trace : trace c' = trace c;
  sm_input : inputBuffer_ c' = inputBuffer_ c
}.

Lemma startRead_same c : same c (startReadInLoop c) /\ functors (startReadInLoop c) = functors c /\
  out (startReadInLoop c) = out c /\ accepted (startReadInLoop c) = accepted c.
Proof. unfold startReadInLoop. case_match; by split. Qed.

Lemma stopRead_same c : same c (stopReadInLoop c) /\ functors (stopReadInLoop c) = functors c /\
  out (stopReadInLoop c) = out c /\ accepted (stopReadInLoop c) = accepted c.
Proof. unfold stopReadInLoop. case_match; by split. Qed.

Lemma content_small b : inv b -> zlen (content b) <= max_size.
Proof. intros Hi. rewrite zlen_content by done. buffer_unfold. lia. Qed.

Definition is_send (t : task) : Prop := exists d, t = TSendInLoop d.

(** The functors a connection queues for its owner's callbacks. *)
Definition flow_task (t : task) : Prop := t = TWriteComplete \/ exists n, t = THighWaterMark n.

(** What sendInLoop does to a connection with output [data] still to come. *)
Record sent (up : Prop) (data : list char) (c c' : TcpConnection) : Prop := {
  st_same : same c c';
  st_rd : rd c' = rd c;
  st_new : exists new, functors c' = functors c ++ new /\ Forall flow_task new /\ forall n, THighWaterMark n ∈ new -> out c' <> [];
  st_out : out c <> [] -> out c' <> [];
  st_len : zlen (out c') <= zlen (out c) + zlen data;
  st_accepted : up -> accepted c' = accepted c ++ data
}.

Lemma keep_rest_sent up data rest c c' :
  inv (outputBuffer_ c) -> rest <> [] -> zlen rest <= zlen data <= max_size -> keep_rest data rest c = Ok c' -> sent up data c c'.
Proof.
  intros Hi Hne Hz. unfold keep_rest. set (c2 := if _ : bool then _ else _).
  assert (Hc2 : exists l, c2 = set_functors (functors c ++ l) c /\ Forall flow_task l).
  { unfold c2. case_match.
    - eexists. split; [reflexivity|]. apply Forall_singleton. right. eauto.
    - exists []. rewrite app_nil_r. split; [by destruct c|constructor]. }
  destruct Hc2 as (l & -> & Hl). cbn [set_functors outputBuffer_].
  destruct (append_outcome rest (outputBuffer_ c) Hi ltac:(lia)) as [(o & -> & Hio & Hco)|[-> _]]; cbn [mbind res_bind]; [|done].
  set (c3 := accept _ _). intros [= <-].
  assert (Ho : out c3 <> []).
  { unfold out. cbn. rewrite Hco. intros [_ ?]%app_eq_nil. done. }
  assert (H3 : sent up data c c3) by (split; [by split|done|by exists l|done|unfold out; cbn; rewrite Hco, zlen_app; lia|done]).
  destruct (negb _); [|done].
  destruct H3 as [[H1 H2 H3 H4 H5] H6 H7 H8 H8' H9]. split; [by split|by rewrite rd_enableWriting|done..].
Qed.

Lemma sent_count up data d c c' : sent up data (count_write d c) c' -> sent up data c c'.
Proof. intros [[H1 H2 H3 H4 H5] H6 H7 H8 H8' H9]. by split; [split|..]. Qed.

(** A step that queues nothing. *)
Lemma no_news c c' : functors c' = functors c ->
  exists new, functors c' = functors c ++ new /\ Forall flow_task new /\ forall n, THighWaterMark n ∈ new -> out c' <> [].
Proof. intros ->. exists []. rewrite app_nil_r. split_and!; [done|constructor|]. intros n Hn. by apply elem_of_nil in Hn. Qed.

(** Nothing was written: all of [data] is kept. *)
Lemma keep_all_sent up data c c' :
  inv (outputBuffer_ c) -> zlen data <= max_size ->
  (_ ← check (zlen data <=? zlen data);
   if 0 <? zlen data then keep_rest data data c else Ok (accept data c)) = Ok c' -> sent up data c c'.
Proof.
  intros Hi Hz. rewrite check_true by lia. cbn [mbind res_bind]. destruct (0 <? zlen data) eqn:E.
  - apply keep_rest_sent; [done| |lia]. intros ->. done.
  - intros [= <-]. split; [by split|done|by apply no_news|done|change (zlen (out c) <= zlen (out c) + zlen data); pose proof (zlen_nonneg data); lia|done].
Qed.

Lemma sendInLoop_sent kernel data c c' :
  kernel_ok kernel -> live_inv c -> zlen data <= max_size -> sendInLoop kernel data c = Ok c' ->
  sent (fin c = false /\ forall i d, kernel i false d <> PeerGone) data c c'.
Proof.
  intros Hk Hc Hz. unfold sendInLoop. rewrite (alive_not_disconnected _ (li_alive _ Hc)).
  pose proof (zlen_nonneg data) as H0. pose proof (li_out _ Hc) as Hi. set (up := _ /\ _).
  assert (Hall : take (Z.to_nat (zlen data)) (drop (Z.to_nat 0) data) = data).
  { cbn [Z.to_nat]. rewrite drop_0. apply take_ge. unfold zlen. lia. }
  assert (Hlen : zlen (out c) <= zlen (out c) + zlen data) by lia.
  destruct (_ && _) eqn:E0; [|rewrite Hall; by apply keep_all_sent].
  destruct (kernel (nwrites c) (fin c) data) as [n| | |] eqn:Ek.
  - destruct (proj1 Hk _ _ _ _ Ek) as [Hn0 Hn]. rewrite uint_small by (unfold max_size in Hz; lia).
    rewrite check_true by lia. cbn [mbind res_bind negb andb]. destruct (0 <? zlen data - n) eqn:E.
    + replace (zlen data - n =? 0) with false by lia. cbn [andb].
      assert (Hzr : zlen (drop (Z.to_nat n) data) = zlen data - n) by (apply zlen_drop; lia).
      rewrite (take_ge (drop _ _)) by (unfold zlen in *; lia). rewrite <- Hzr. intros Hkeep.
      eapply sent_count, keep_rest_sent; [| | |exact Hkeep]; [done| |lia]. intros Hnil. rewrite Hnil, zlen_nil in Hzr. lia.
    + replace (zlen data - n =? 0) with true by lia. cbn [andb]. intros [= <-].
      assert (Hout : out c = []).
      { apply andb_true_iff in E0 as [_ E0]. rewrite content_readable in E0 by done. by apply bool_decide_eq_true in E0. }
      destruct (writeCompleteCallback_ c) eqn:Ew.
      * split; [by split|done| |by rewrite Hout|exact Hlen|done]. exists [TWriteComplete]. split_and!; [done|apply Forall_singleton; by left|].
        intros k Hk'. by apply list_elem_of_singleton in Hk'.
      * split; [by split|done|by apply no_news|by rewrite Hout|exact Hlen|done].
  - rewrite Hall. intros Hkeep. eapply sent_count, keep_all_sent; [| |exact Hkeep]; done.
  - rewrite check_true by lia. cbn [mbind res_bind negb andb]. intros [= <-].
    split; [by split|done|by apply no_news|done|exact Hlen|]. intros [Hf Hnp]. rewrite Hf in Ek. by apply Hnp in Ek.
  - rewrite Hall. intros Hkeep. eapply sent_count, keep_all_sent; [| |exact Hkeep]; done.
Qed.

(** What a send on a connection without output leads to: it is done, or there is output, or
    nothing was written. *)
Record answered (kernel : nat -> bool -> list char -> written) (data : list char) (c c' : TcpConnection) : Prop := {
  an_new : exists new, functors c' = functors c ++ new /\
    (new = [TWriteComplete] /\ out c' = [] \/ TWriteComplete ∉ new /\ Forall flow_task new /\
       (out c' <> [] \/ data = [] /\ (forall n, kernel (nwrites c) (fin c) [] <> Wrote n) \/ kernel (nwrites c) (fin c) data = PeerGone))
}.

Lemma keep_rest_answered kernel data rest c c' d n :
  inv (outputBuffer_ c) -> rest <> [] -> zlen rest <= max_size -> keep_rest d rest (count_write n c) = Ok c' -> answered kernel data c c'.
Proof.
  intros Hi Hne Hz. unfold keep_rest. set (c2 := if _ : bool then _ else _).
  assert (Hc2 : exists l, functors c2 = functors c ++ l /\ TWriteComplete ∉ l /\ Forall flow_task l /\ outputBuffer_ c2 = outputBuffer_ c).
  { unfold c2. case_match.
    - eexists. split; [reflexivity|]. split_and!; [by rewrite list_elem_of_singleton|apply Forall_singleton; right; eauto|done].
    - exists []. rewrite app_nil_r. split_and!; [done|apply not_elem_of_nil|done|done]. }
  destruct Hc2 as (l & Hf & Hn & Hfl & Ho). rewrite Ho.
  destruct (append_outcome rest (outputBuffer_ c) Hi Hz) as [(o & -> & Hio & Hco)|[-> _]]; cbn [mbind res_bind]; [|done].
  intros [= <-]. split. exists l. split; [by case_match|]. right. split_and!; [done|done|]. left.
  intros Hnil. assert (Hc : content o = []) by (revert Hnil; by case_match). rewrite Hco in Hc. by apply app_eq_nil in Hc as [_ ?].
Qed.

Lemma sendInLoop_answered kernel data c c' :
  kernel_ok kernel -> live_inv c -> out c = [] -> writeCompleteCallback_ c = true -> zlen data <= max_size ->
  sendInLoop kernel data c = Ok c' -> answered kernel data c c'.
Proof.
  intros Hk Hc Ho Hwc Hz. unfold sendInLoop. rewrite (alive_not_disconnected _ (li_alive _ Hc)).
  pose proof (zlen_nonneg data) as H0. pose proof (li_out _ Hc) as Hi. destruct (li_mask _ Hc) as (r & w & Hm & Hw).
  rewrite (mask_isWriting _ _ _ Hm). destruct w; [by destruct (proj1 Hw eq_refl)|]. rewrite content_readable, bool_decide_true by done. cbn [negb andb].
  assert (Hall : take (Z.to_nat (zlen data)) (drop (Z.to_nat 0) data) = data).
  { cbn [Z.to_nat]. rewrite drop_0. apply take_ge. unfold zlen. lia. }
  assert (Hblock : kernel (nwrites c) (fin c) data = WouldBlock \/ kernel (nwrites c) (fin c) data = OtherError ->
    (_ ← check (zlen data <=? zlen data);
     if 0 <? zlen data then keep_rest data data (count_write [] c) else Ok (accept data (count_write [] c))) = Ok c' -> answered kernel data c c').
  { intros Hb. rewrite check_true by lia. cbn [mbind res_bind]. destruct (0 <? zlen data) eqn:E.
    - apply keep_rest_answered; [done| |done]. intros ->. done.
    - intros [= <-]. split. exists []. rewrite app_nil_r. split; [done|]. right. split_and!; [apply not_elem_of_nil|done|]. right. left.
      assert (data = []) as -> by (apply zlen_zero_inv; lia). split; [done|]. intros n Hn. by destruct Hb; congruence. }
  destruct (kernel (nwrites c) (fin c) data) as [n| | |] eqn:Ek.
  - destruct (proj1 Hk _ _ _ _ Ek) as [Hn0 Hn]. rewrite uint_small by (unfold max_size in Hz; lia).
    rewrite check_true by lia. cbn [mbind res_bind negb andb]. destruct (0 <? zlen data - n) eqn:E.
    + replace (zlen data - n =? 0) with false by lia. cbn [andb].
      assert (Hzr : zlen (drop (Z.to_nat n) data) = zlen data - n) by (apply zlen_drop; lia).
      rewrite (take_ge (drop _ _)) by (unfold zlen in *; lia). rewrite <- Hzr.
      apply keep_rest_answered; [done| |lia]. intros Hnil. rewrite Hnil, zlen_nil in Hzr. lia.
    + replace (zlen data - n =? 0) with true by lia. rewrite Hwc. cbn [andb]. intros [= <-].
      split. exists [TWriteComplete]. split; [done|]. by left.
  - rewrite Hall. apply Hblock. by left.
  - rewrite check_true by lia. cbn [mbind res_bind negb andb]. intros [= <-]. split. exists []. rewrite app_nil_r.
    split; [done|]. right. split_and!; [apply not_elem_of_nil|done|]. by right; right.
  - rewrite Hall. apply Hblock. by right.
Qed.

(** A functor has been taken from the queue. *)
Lemma live_took t l c : live_inv c -> functors c = t :: l -> live_inv (set_functors l c).
Proof.
  intros [H1 H2 H3 H4 H5 H6 H7 H8 H9] E. rewrite E in H7, H8. split; try done.
  - intros Hin. apply H7. by right.
  - intros d Hin. apply H8. by right.
Qed.

Lemma life_took e l c : life c = [EvUp] -> is_life e = false -> life (emit e (set_functors l c)) = [EvUp].
Proof. intros Hl He. transitivity (life (emit e c)); [done|]. by rewrite life_emit, He, app_nil_r. Qed.

(** ** Steps of a connection *)

Section Steps.
Context (kernel : nat -> bool -> list char -> written) (Hkernel : kernel_ok kernel).
Context (network : nat -> kernel_readv) (Hnetwork : forall i, readv_contract (network i)).

Abbreviation dispatch := (dispatch kernel network no_calls).
Abbreviation handleRead := (handleRead kernel network no_calls).
Abbreviation handleClose := (handleClose kernel no_calls).

(** An event is a read or a close, or neither, then a write or not. *)
Lemma dispatch_shape revents c c' :
  live_inv c -> reportable revents (channel_ c) = true -> bare_urgent revents = false -> dispatch revents c = Ok c' ->
  let c0 := set_channel (set_revents revents (channel_ c)) c in
  exists c1, (c1 = c0 \/ handleRead c0 = Ok c1 \/ handleClose c0 = Ok c1) /\ (c' = c1 \/ handleWrite kernel c1 = Ok c').
Proof.
  intros Hc Hrep Hu. unfold TcpConnection.dispatch. set (ch := set_revents revents (channel_ c)).
  destruct (li_mask _ Hc) as (r & w & Hm & Hw).
  pose proof (fun Hcl => no_close_and_read revents (channel_ c) r w Hm Hrep Hu Hcl) as Hcl.
  assert (Hhe : handleEvent true ch = handleEventWithGuard ch) by (unfold handleEvent; by destruct (tied_ ch)).
  rewrite Hhe. unfold handleEventWithGuard. change (revents_ ch) with revents.
  set (wr := if has_bits revents POLLOUT then _ else _).
  assert (Hwr : forall d d', run_callbacks kernel network no_calls wr d = Ok d' -> d' = d \/ handleWrite kernel d = Ok d').
  { intros d d'. unfold wr. repeat case_match; cbn [run_callbacks run_callback]; [|intros [= <-]; by left..].
    destruct (handleWrite kernel d); cbn [mbind res_bind]; [|done]. intros [= <-]. by right. }
  set (er := if has_bits revents (Z.lor POLLERR POLLNVAL) then _ else _).
  assert (Her : forall l d, run_callbacks kernel network no_calls (er ++ l) d = run_callbacks kernel network no_calls l d)
    by (unfold er; repeat case_match; done).
  destruct (has_bits revents POLLHUP && negb (has_bits revents POLLIN)) eqn:Eh.
  - rewrite Hcl by done. destruct (hasCloseCallback ch); cbn [app].
    + cbn [run_callbacks run_callback]. destruct (handleClose _) as [c1|] eqn:E; cbn [mbind res_bind]; [|done].
      rewrite Her. intros Hd%Hwr. exists c1. auto.
    + rewrite Her. intros Hd%Hwr. eauto.
  - cbn [app]. rewrite Her. destruct (has_bits revents (Z.lor (Z.lor POLLIN POLLPRI) POLLRDHUP)), (hasReadCallback ch); cbn [app].
    + cbn [run_callbacks run_callback]. destruct (handleRead _) as [c1|] eqn:E; cbn [mbind res_bind]; [|done].
      intros Hd%Hwr. exists c1. auto.
    + intros Hd%Hwr. eauto.
    + intros Hd%Hwr. eauto.
    + intros Hd%Hwr. eauto.
Qed.

(** handleWrite on a live connection. *)
Record drained (c c' : TcpConnection) : Prop := {
  dr_state : state_ c' = state_ c;
  dr_wc : writeCompleteCallback_ c' = writeCompleteCallback_ c;
  dr_fin : state_ c = kConnected -> fin c' = fin c;
  dr_trace : trace c' = trace c;
  dr_input : inputBuffer_ c' = inputBuffer_ c;
  dr_rd : rd c' = rd c;
  dr_accepted : accepted c' = accepted c;
  dr_len : zlen (out c') <= zlen (out c);
  dr_new : functors c' = functors c \/ functors c' = functors c ++ [TWriteComplete] /\ writeCompleteCallback_ c = true;
  dr_done : out c <> [] -> out c' = [] -> writeCompleteCallback_ c = true -> functors c' = functors c ++ [TWriteComplete];
  dr_back : functors c' = functors c ++ [TWriteComplete] -> out c' = [] /\ out c <> []
}.

Lemma no_new_task (l : list task) t : l <> l ++ [t].
Proof. intros Hl%(f_equal length). rewrite length_app in Hl. cbn in Hl. lia. Qed.

Lemma drained_refl c : drained c c.
Proof. split; auto; try lia; [by intros ? ?|]. by intros ?%no_new_task. Qed.

Lemma handleWrite_drained c c' : live_inv c -> handleWrite kernel c = Ok c' -> drained c c'.
Proof using Hkernel.
  intros Hc. unfold handleWrite. destruct (isWriting (channel_ c)) eqn:Eiw; [|intros [= <-]; apply drained_refl].
  pose proof (li_out _ Hc) as Hi. rewrite read_content by done. cbn [mbind res_bind].
  assert (Hne : out c <> []).
  { destruct (li_mask _ Hc) as (r & w & Hm & Hw). apply Hw. by rewrite <- (mask_isWriting _ _ _ Hm). }
  assert (Hsame : forall d, drained c (count_write d c)).
  { intros d. split; auto; [done|by intros ? ?|by intros ?%no_new_task]. }
  destruct (kernel (nwrites c) (fin c) (content (outputBuffer_ c))) as [n| | |] eqn:Ek; try (intros [= <-]; apply Hsame).
  destruct (proj1 Hkernel _ _ _ _ Ek) as [Hn0 Hn]. destruct (0 <? n); [|intros [= <-]; apply Hsame]. cbn [outputBuffer_ count_write].
  assert (Hz : n <= readableBytes (outputBuffer_ c)) by (rewrite readableBytes_eq, <- zlen_content by done; lia).
  destruct (retrieve_spec n _ Hi) as (o & -> & Hio & Hco & _); [lia|]. cbn [mbind res_bind set_output outputBuffer_].
  assert (Hlen : zlen (content o) <= zlen (out c)) by (rewrite Hco; unfold out, zlen; rewrite length_drop; lia).
  rewrite content_readable by done. case_bool_decide as En.
  2: { intros [= <-]. split; auto; [intros _ Ho; unfold out in Ho; cbn in Ho; done|by intros ?%no_new_task]. }
  intros [= <-]. cbn [writeCompleteCallback_ chan_disableWriting chan_events set_channel set_output count_write].
  set (c2 := set_output o _). set (c4 := if writeCompleteCallback_ c then _ else _).
  assert (H4 : drained c c4).
  { unfold c4. destruct (writeCompleteCallback_ c) eqn:Ew; split; try done; try (etransitivity; [apply (rd_disableWriting c2)|done]); auto.
    congruence. }
  case_bool_decide as Es; [|done]. unfold shutdownInLoop. case_match; [|done].
  destruct H4 as [H1 H2 H3 H4 H5 H6 H7 H8 H9 H10]. split; try done. intros Hk. rewrite Hk in H1. congruence.
Qed.

(** A polled connection stays up and has read [bytes], or closes. *)
Record stays (bytes : list char) (c c' : TcpConnection) : Prop := {
  sy_live : live_inv c' /\ life c' = [EvUp];
  sy_state : state_ c' = state_ c;
  sy_wc : writeCompleteCallback_ c' = writeCompleteCallback_ c;
  sy_fin : state_ c = kConnected -> fin c' = fin c;
  sy_rd : rd c' = rd c;
  sy_accepted : accepted c' = accepted c;
  sy_len : zlen (out c') <= zlen (out c);
  sy_inp : inp c' = inp c ++ bytes;
  sy_trace : trace c' = trace c ++ (if decide (bytes = []) then [] else [EvMessage]);
  sy_new : functors c' = functors c \/ functors c' = functors c ++ [TWriteComplete] /\ writeCompleteCallback_ c = true;
  sy_done : out c <> [] -> out c' = [] -> writeCompleteCallback_ c = true -> functors c' = functors c ++ [TWriteComplete];
  sy_back : functors c' = functors c ++ [TWriteComplete] -> out c' = [] /\ out c <> []
}.

Record closes (c c' : TcpConnection) : Prop := {
  cl_over : over_inv c';
  cl_wc : writeCompleteCallback_ c' = writeCompleteCallback_ c;
  cl_accepted : accepted c' = accepted c;
  cl_inp : inp c' = inp c;
  cl_out : out c' = out c;
  cl_fin : fin c' = fin c;
  cl_trace : trace c' = trace c ++ [EvDown; EvClosed];
  cl_functors : functors c' = functors c ++ [TConnectDestroyed]
}.

(** What handleRead or handleClose leave for handleWrite. *)
Lemma stays_drained bytes d c1 c c' :
  live_inv c1 -> begun c' -> alive (state_ c) = true -> (c' = c1 \/ handleWrite kernel c1 = Ok c') ->
  state_ c1 = state_ c -> writeCompleteCallback_ c1 = writeCompleteCallback_ c -> fin c1 = fin c -> rd c1 = rd c ->
  accepted c1 = accepted c -> outputBuffer_ c1 = outputBuffer_ c -> functors c1 = functors c -> inp c1 = inp c ++ bytes ->
  trace c1 = trace c ++ d -> d = (if decide (bytes = []) then [] else [EvMessage]) -> stays bytes c c'.
Proof using Hkernel.
  intros Hl Hb Ha Hw E1 E2 E3 E4 E5 E6 E7 E8 E9 ->.
  assert (Hd : drained c1 c') by (destruct Hw as [->|Hw]; [apply drained_refl|by apply handleWrite_drained]).
  destruct Hd as [D1 D2 D3 D4 D5 D6 D7 DL D8 D9 D10]. unfold out, inp in *.
  assert (Hst : state_ c' = state_ c) by congruence.
  assert (Hlive : live_inv c' /\ life c' = [EvUp]).
  { destruct Hb as [Hb|Hb]; [done|]. pose proof (oi_state _ Hb) as Ho. rewrite <- Hst, Ho in Ha. done. }
  split; try congruence; try done.
  - intros Hk. rewrite <- E3. apply D3. congruence.
  - unfold out. rewrite <- E6. exact DL.
  - unfold inp in *. congruence.
  - unfold out. rewrite <- E6, <- E2, <- E7. exact D9.
  - unfold out. rewrite <- E6, <- E7. exact D10.
Qed.

Lemma handleClose_closes c c1 :
  live_inv c -> life c = [EvUp] -> handleClose c = Ok c1 -> closes c c1 /\ handleWrite kernel c1 = Ok c1.
Proof using Hkernel.
  intros Hc Hl Hcl. destruct (handleClose_ok kernel no_calls no_calls_ok c Hc Hl) as [(c2 & E & Ho)|E]; rewrite Hcl in E; [|done].
  injection E as <-. split; [|by apply over_not_writing]. revert Hcl. unfold TcpConnection.handleClose. rewrite (li_alive _ Hc).
  cbn [check mbind res_bind]. unfold invoke, no_calls. cbn [run_apis mbind res_bind]. intros [= <-]. split; try done.
  cbn. by rewrite <- (assoc_L app).
Qed.

Lemma poll_profile revents c c' :
  live_inv c -> life c = [EvUp] -> enabled (Poll revents) c = true -> dispatch revents c = Ok c' ->
  (exists bytes, stays bytes c c') \/ closes c c'.
Proof using Hkernel Hnetwork.
  intros Hc Hl [[_ Hrep]%andb_true_iff Hu%negb_true_iff]%andb_true_iff Hd.
  destruct (dispatch_ok kernel Hkernel network Hnetwork no_calls no_calls_ok revents c Hc Hl Hrep Hu) as [(c2 & E & Hb)|E];
    rewrite Hd in E; [|done]. injection E as <-. pose proof (li_alive _ Hc) as Ha.
  destruct (dispatch_shape revents c c' Hc Hrep Hu Hd) as (c1 & Hc1 & Hw). set (c0 := set_channel _ c) in *.
  assert (Hc0 : live_inv c0) by (destruct Hc; by split).
  destruct Hc1 as [->|[Hr|Hcl]].
  - left. exists []. eapply (stays_drained [] [] c0); try done; unfold inp; cbn; by rewrite app_nil_r.
  - revert Hr. unfold TcpConnection.handleRead. change (inputBuffer_ c0) with (inputBuffer_ c).
    destruct (readFd_outcome (network (nreads c0)) (inputBuffer_ c) (Hnetwork _) (li_in _ Hc))
      as [(errno & ->)|[(bytes & b & -> & Hib & Hcb)|[-> _]]]; cbn [mbind res_bind]; [| |done].
    + intros [= <-]. left. exists []. eapply (stays_drained [] [] (set_input (inputBuffer_ c) (count_read c0))); try done;
        [by apply live_input; [apply live_count_read|apply Hc]|unfold inp; cbn; by rewrite app_nil_r..].
    + assert (Hk : live_inv (set_input b (count_read c0))) by (apply live_input; [by apply live_count_read|done]).
      pose proof (zlen_nonneg bytes). destruct (0 <? zlen bytes) eqn:E1.
      * unfold invoke, no_calls. cbn [run_apis]. intros [= <-]. left. exists bytes.
        eapply (stays_drained bytes [EvMessage]); [by apply live_emit| | | |done..|]; try done.
        rewrite decide_False; [done|]. intros ->. done.
      * replace (zlen bytes =? 0) with true by lia. intros Hcl. right.
        destruct (handleClose_closes _ _ Hk Hl Hcl) as [[K1 K2 K3 K4 K4' KF K5 K6] Hno].
        assert (c' = c1) as -> by (destruct Hw; congruence). split; try done.
        unfold inp in *. rewrite K4. cbn. rewrite Hcb. destruct bytes; [by rewrite app_nil_r|]. rewrite zlen_cons in E1. pose proof (zlen_nonneg bytes). lia.
  - right. destruct (handleClose_closes _ _ Hc0 Hl Hcl) as [[K1 K2 K3 K4 K4' KF K5 K6] Hno].
    assert (c' = c1) as -> by (destruct Hw; congruence). by split.
Qed.

(** connectEstablished of a new connection. *)
Lemma established_up c :
  fresh_inv c ->
  exists c', connectEstablished kernel no_calls c = Ok c' /\ live_inv c' /\ life c' = [EvUp] /\ state_ c' = kConnected /\ fin c' = false /\
    rd c' = true /\ out c' = [] /\ functors c' = [] /\ inputBuffer_ c' = inputBuffer_ c /\ accepted c' = accepted c /\ trace c' = trace c ++ [EvUp].
Proof using Hkernel.
  intros Hf. pose proof (connectEstablished_ok kernel Hkernel no_calls no_calls_ok c Hf) as Hb.
  pose proof Hf as [Hs Hi Ho (He & Hw & Ha) Hev Ht Hfu Hfi Hd].
  assert (E : connectEstablished kernel no_calls c = Ok (emit EvUp (chan_enableReading (set_channel (tie (channel_ c)) (setState kConnected c))))).
  { unfold connectEstablished. by rewrite bool_decide_true by done. }
  rewrite E in *. destruct Hb as [(c1 & [= <-] & Hb)|]; [|done]. destruct Hb as [[Hl Hlf]|Hb]; [|by pose proof (oi_state _ Hb)].
  eexists. split_and!; try done. unfold rd, isReading. cbn. by rewrite Hev.
Qed.
(** A functor that runs after the end. *)
Lemma over_functor c t l :
  over_inv c -> functors c = t :: l -> ~ is_send t -> t <> TForceCloseInLoop -> in_time t c = true ->
  exists c' es, run_task kernel no_calls t (set_functors l c) = Ok c' /\ over_inv c' /\ out c' = out c /\ accepted c' = accepted c /\
    functors c' = l /\ (t <> TShutdownInLoop -> fin c' = fin c) /\ trace c' = trace c ++ es /\
    (es = [] \/ es = [EvWriteComplete] \/ exists n, es = [EvHighWaterMark n]).
Proof using Hkernel.
  intros Ho E Hs Hfc Hit. assert (Hst : state_ (set_functors l c) = kDisconnected) by apply Ho. pose proof (oi_events _ Ho) as He.
  assert (Hrun : exists c' es, run_task kernel no_calls t (set_functors l c) = Ok c' /\ state_ c' = kDisconnected /\ out c' = out c /\
    accepted c' = accepted c /\ functors c' = l /\ (t <> TShutdownInLoop -> fin c' = fin c) /\ trace c' = trace c ++ es /\
    (es = [] \/ es = [EvWriteComplete] \/ exists n, es = [EvHighWaterMark n])).
  { destruct t as [d| | | |n| | |]; cbn [run_task].
    - destruct Hs. by eexists.
    - exists (shutdownInLoop (set_functors l c)), []. rewrite app_nil_r. unfold shutdownInLoop. destruct (negb _); split_and!; auto; done.
    - done.
    - exists (emit EvWriteComplete (set_functors l c)), [EvWriteComplete]. split_and!; auto.
    - exists (emit (EvHighWaterMark n) (set_functors l c)), [EvHighWaterMark n]. split_and!; eauto.
    - cbn in Hit. by rewrite (oi_state _ Ho) in Hit.
    - exists (stopReadInLoop (set_functors l c)), []. rewrite app_nil_r. unfold stopReadInLoop. case_match; split_and!; auto.
    - unfold connectDestroyed. rewrite bool_decide_false by (by rewrite Hst). cbn [mbind res_bind]. unfold chan_remove, isNoneEvent.
      cbn [channel_ set_functors]. rewrite He. cbn [Z.eqb kNoneEvent check mbind res_bind]. eexists _, []. rewrite app_nil_r. split_and!; auto. }
  destruct Hrun as (c' & es & Er & Hst' & ?). exists c', es. split; [done|]. split; [|done].
  destruct (run_functor_ok kernel Hkernel no_calls no_calls_ok t l c E Hit (or_intror Ho)) as [(c2 & E2 & Hb)|E2]; rewrite Er in E2; [|done].
  injection E2 as <-. destruct Hb as [[Hl _]|Hb]; [|done]. pose proof (li_alive _ Hl) as Ha. by rewrite Hst' in Ha.
Qed.

End Steps.
