(* ===== verification/Tunnel.v ===== *)
(** * The TCP relay (src/socks4a/tunnel.h, tcprelay.cc)

    For every connection a client opens to the relay, a [Tunnel] opens one to the server
    behind it (its own [client_]) and passes the bytes on, both ways.  Both ends are
    connections of TcpConnection.v; their user callbacks here are the methods of [Tunnel] and
    the functions of tcprelay.cc.  A callback acts on the other connection and, as the last
    thing, on the buffers and the reading of its own, so it is run when the connection's step
    is done.

    [kServer] is the connection the relay accepted, [kClient] the one it made.  [client_conn]
    is the connection of [client_] once it is made, [clientConn_] whether the tunnel's pointer to
    it is set, [torn] whether teardown has reset the callbacks, [entry] whether g_tunnels has the
    tunnel.  Ghost fields: the bytes read from each connection, and those handed to the send of
    each. *)
From S2P Require Import Prelude Buffer Channel TcpConnection.

Inductive ServerClient := kServer | kClient.

#[global] Instance ServerClient_eq_dec : EqDecision ServerClient.
Proof. solve_decision. Defined.

Record Tunnel := mkTunnel {
  serverConn_ : TcpConnection;
  client_conn : option TcpConnection;
  clientConn_ : bool;
  context : bool;
  entry : bool;
  torn : bool;
  from_server : list char;
  from_client : list char;
  to_server : list char;
  to_client : list char
}.

Definition set_server (c : TcpConnection) (t : Tunnel) : Tunnel :=
  mkTunnel c (client_conn t) (clientConn_ t) (context t) (entry t) (torn t) (from_server t) (from_client t) (to_server t) (to_client t).
Definition set_client (c : TcpConnection) (t : Tunnel) : Tunnel :=
  mkTunnel (serverConn_ t) (Some c) (clientConn_ t) (context t) (entry t) (torn t) (from_server t) (from_client t) (to_server t) (to_client t).
Definition set_pointers (clientConn ctx : bool) (t : Tunnel) : Tunnel :=
  mkTunnel (serverConn_ t) (client_conn t) clientConn ctx (entry t) (torn t) (from_server t) (from_client t) (to_server t) (to_client t).
Definition set_entry (b : bool) (t : Tunnel) : Tunnel :=
  mkTunnel (serverConn_ t) (client_conn t) (clientConn_ t) (context t) b (torn t) (from_server t) (from_client t) (to_server t) (to_client t).
Definition set_torn (t : Tunnel) : Tunnel :=
  mkTunnel (serverConn_ t) (client_conn t) (clientConn_ t) (context t) (entry t) true (from_server t) (from_client t) (to_server t) (to_client t).
Definition forwarded (to : ServerClient) (d : list char) (t : Tunnel) : Tunnel :=
  match to with
  | kServer => mkTunnel (serverConn_ t) (client_conn t) (clientConn_ t) (context t) (entry t) (torn t) (from_server t) (from_client t) (to_server t ++ d) (to_client t)
  | kClient => mkTunnel (serverConn_ t) (client_conn t) (clientConn_ t) (context t) (entry t) (torn t) (from_server t) (from_client t) (to_server t) (to_client t ++ d)
  end.
Definition received (from : ServerClient) (d : list char) (t : Tunnel) : Tunnel :=
  match from with
  | kServer => mkTunnel (serverConn_ t) (client_conn t) (clientConn_ t) (context t) (entry t) (torn t) (from_server t ++ d) (from_client t) (to_server t) (to_client t)
  | kClient => mkTunnel (serverConn_ t) (client_conn t) (clientConn_ t) (context t) (entry t) (torn t) (from_server t) (from_client t ++ d) (to_server t) (to_client t)
  end.

(** Dereferencing clientConn_. *)
Definition clientPtr (t : Tunnel) : res TcpConnection := get (if clientConn_ t then client_conn t else None).

(** A weak_ptr to the tunnel can be locked: g_tunnels or the callbacks of the client hold it. *)
Definition held (t : Tunnel) : bool :=
  entry t || negb (torn t) || match client_conn t with Some c => negb (destroyed c) | None => false end.

(** The mark setup() and onClientConnection set; everything below is for any mark. *)
Definition kHighWater : Z := 1024 * 1024.

Section Callbacks.
Context (mark : Z) (kernel_s kernel_c : nat -> bool -> list char -> written).

(** send(Buffer* ) of the connection [to], given the other's input buffer. *)
Definition forward (to : ServerClient) (t : Tunnel) : res Tunnel :=
  c ← get (client_conn t);
  let s := serverConn_ t in
  let '(from_conn, to_conn) := match to with kServer => (c, s) | kClient => (s, c) end in
  if bool_decide (state_ to_conn = kConnected) then
    let buf := inputBuffer_ from_conn in
    data ← read_range (buffer_ buf) (peek buf) (peek buf + readableBytes buf);
    to_conn ← sendInLoop (match to with kServer => kernel_s | kClient => kernel_c end) data to_conn;
    let from_conn := set_input (retrieveAll buf) from_conn in
    Ok (forwarded to data match to with
                          | kServer => set_client from_conn (set_server to_conn t)
                          | kClient => set_server from_conn (set_client to_conn t)
                          end)
  else Ok t.

Definition teardown (t : Tunnel) : Tunnel :=
  let t := set_torn t in
  let t := set_server (shutdown true (serverConn_ t)) t in
  set_pointers false false t.

Definition onClientConnectionUp (t : Tunnel) : res Tunnel :=
  c ← get (client_conn t);
  let t := set_client (setHighWaterMarkCallback mark c) t in
  let t := set_server (startReadInLoop (serverConn_ t)) (set_pointers (clientConn_ t) true t) in
  let t := set_pointers true (context t) t in
  if 0 <? readableBytes (inputBuffer_ (serverConn_ t)) then forward kClient t else Ok t.

Definition onClientMessage (t : Tunnel) : res Tunnel := forward kServer t.

Definition onHighWaterMark (which : ServerClient) (t : Tunnel) : res Tunnel :=
  match which with
  | kServer =>
      if 0 <? readableBytes (outputBuffer_ (serverConn_ t)) then
        c ← clientPtr t;
        let t := set_client (stopReadInLoop c) t in
        Ok (set_server (setWriteCompleteCallback true (serverConn_ t)) t)
      else Ok t
  | kClient =>
      c ← clientPtr t;
      if 0 <? readableBytes (outputBuffer_ c) then
        let t := set_server (stopReadInLoop (serverConn_ t)) t in
        Ok (set_client (setWriteCompleteCallback true c) t)
      else Ok t
  end.

Definition onHighWaterMarkWeak (which : ServerClient) (t : Tunnel) : res Tunnel :=
  if held t then onHighWaterMark which t else Ok t.

Definition onWriteComplete (which : ServerClient) (t : Tunnel) : res Tunnel :=
  match which with
  | kServer =>
      c ← clientPtr t;
      let t := set_client (startReadInLoop c) t in
      Ok (set_server (setWriteCompleteCallback false (serverConn_ t)) t)
  | kClient =>
      let t := set_server (startReadInLoop (serverConn_ t)) t in
      c ← clientPtr t;
      Ok (set_client (setWriteCompleteCallback false c) t)
  end.

Definition onWriteCompleteWeak (which : ServerClient) (t : Tunnel) : res Tunnel :=
  if held t then onWriteComplete which t else Ok t.

(** tcprelay.cc: the new connection stops reading, and its tunnel is set up and connects. *)
Definition onServerConnectionUp (t : Tunnel) : Tunnel :=
  let t := set_server (stopReadInLoop (serverConn_ t)) t in
  let t := set_server (setHighWaterMarkCallback mark (serverConn_ t)) t in
  set_entry true t.

(** TcpClient::disconnect shuts the client's connection down, if it has one. *)
Definition onServerConnectionDown (t : Tunnel) : res Tunnel :=
  _ ← check (entry t);
  let t := match client_conn t with Some c => set_client (shutdown true c) t | None => t end in
  Ok (set_entry false t).

Definition onServerMessage (t : Tunnel) : res Tunnel := if context t then forward kClient t else Ok t.

Definition on_event (which : ServerClient) (e : event) (t : Tunnel) : res Tunnel :=
  match which, e with
  | kServer, EvUp => Ok (onServerConnectionUp t)
  | kServer, EvDown => onServerConnectionDown t
  | kServer, EvMessage => onServerMessage t
  | kClient, EvUp => onClientConnectionUp t
  | kClient, EvDown => Ok (teardown t)
  | kClient, EvMessage => onClientMessage t
  | _, EvWriteComplete => onWriteCompleteWeak which t
  | _, EvHighWaterMark _ => onHighWaterMarkWeak which t
  | _, EvClosed => Ok t
  end.

Fixpoint on_events (which : ServerClient) (es : list event) (t : Tunnel) : res Tunnel :=
  match es with [] => Ok t | e :: es => t ← on_event which e t; on_events which es t end.
End Callbacks.

(** ** The loop *)

(** [polled]: the connections dispatched in this iteration; [draining]: it runs functors. *)
Record Loop := mkLoop { tunnel : Tunnel; polled : list ServerClient; draining : bool }.

Inductive relay_action :=
| Accepted                                         (* TcpServer::newConnection *)
| Connected (input output : Buffer)                (* client_'s connector made the connection *)
| Dispatch (which : ServerClient) (revents : Z)    (* poll reported its channel *)
| Functor (which : ServerClient)                   (* the next functor of the connection *)
| Iterate.                                         (* the loop polls again *)

Definition conn_of (which : ServerClient) (t : Tunnel) : option TcpConnection :=
  match which with kServer => Some (serverConn_ t) | kClient => client_conn t end.
Definition set_conn (which : ServerClient) (c : TcpConnection) (t : Tunnel) : Tunnel :=
  match which with kServer => set_server c t | kClient => set_client c t end.

Section Relay.
Context (mark : Z) (kernel_s kernel_c : nat -> bool -> list char -> written) (network_s network_c : nat -> kernel_readv).

Definition conn_perform (which : ServerClient) : action -> TcpConnection -> res TcpConnection :=
  match which with
  | kServer => perform kernel_s network_s no_calls
  | kClient => perform kernel_c network_c no_calls
  end.

(** A step of one connection, then its callbacks. *)
Definition conn_step (which : ServerClient) (a : action) (t : Tunnel) : res Tunnel :=
  c ← get (conn_of which t);
  c' ← conn_perform which a c;
  let t := received which (drop (length (content (inputBuffer_ c))) (content (inputBuffer_ c'))) (set_conn which c' t) in
  on_events mark kernel_s kernel_c which (drop (length (trace c)) (trace c')) t.

Definition relay_perform (a : relay_action) (l : Loop) : res Loop :=
  match a with
  | Accepted => t ← conn_step kServer Establish (tunnel l); Ok (mkLoop t (polled l) (draining l))
  | Connected input output =>
      let c := newTcpConnection 1%positive 0 input output false false in
      t ← conn_step kClient Establish (set_client c (tunnel l)); Ok (mkLoop t (polled l) (draining l))
  | Dispatch which revents =>
      t ← conn_step which (Poll revents) (tunnel l); Ok (mkLoop t (which :: polled l) (draining l))
  | Functor which => t ← conn_step which RunFunctor (tunnel l); Ok (mkLoop t (polled l) true)
  | Iterate => Ok (mkLoop (tunnel l) [] false)
  end.

Definition functors_of (which : ServerClient) (t : Tunnel) : list task :=
  match conn_of which t with Some c => functors c | None => [] end.

Definition relay_enabled (a : relay_action) (l : Loop) : bool :=
  let t := tunnel l in
  match a with
  | Accepted => bool_decide (state_ (serverConn_ t) = kConnecting)
  | Connected _ _ => negb (draining l) && entry t && bool_decide (client_conn t = None)
  | Dispatch which revents =>
      negb (draining l) && bool_decide (which ∉ polled l) &&
      match conn_of which t with Some c => enabled (Poll revents) c | None => false end
  | Functor which => negb (bool_decide (functors_of which t = []))
  | Iterate => bool_decide (functors_of kServer t = []) && bool_decide (functors_of kClient t = [])
  end.
End Relay.
