(* ===== verification/TunnelCorrect.v ===== *)
(** * The TCP relay as a whole

    [linked] is the invariant of two connections joined by a tunnel; it is symmetric, so each
    step is shown once.  The relay goes through phases: waiting for a connection, dialing,
    relaying, one side gone, both gone. *)
From S2P Require Import Prelude Buffer BufferTheory Channel TcpConnection TcpConnectionTheory Tunnel ConnectionSteps.

(** ** Two connections joined *)

Record up_conn (c : TcpConnection) : Prop := {
  up_live : live_inv c;
  up_life : life c = [EvUp];
  up_state : state_ c = kConnected;
  up_fin : fin c = false;
  up_tasks : Forall flow_task (functors c)
}.

(** When [s] does not read, [c] has output and tells when it is drained. *)
Definition flow (s c : TcpConnection) : Prop :=
  rd s = false -> writeCompleteCallback_ c = true /\ (out c <> [] \/ TWriteComplete ∈ functors c).

Definition linked (s c : TcpConnection) : Prop := up_conn s /\ up_conn c /\ flow s c /\ flow c s.

Lemma linked_sym s c : linked s c -> linked c s.
Proof. intros (? & ? & ? & ?). by split_and!. Qed.

Lemma up_same c c' : up_conn c -> live_inv c' -> same c c' -> Forall flow_task (functors c') -> up_conn c'.
Proof.
  intros [_ Hl Hs Hf _] Hlive [E1 E2 E3 E4 E5] Ht. split; try congruence. rewrite <- Hl. by apply life_same.
Qed.

Lemma up_emptied c : up_conn c -> up_conn (set_input (retrieveAll (inputBuffer_ c)) c).
Proof.
  intros [Hl Hlf Hs Hf Ht]. split; try done. apply live_input; [done|]. apply retrieveAll_spec, Hl.
Qed.

Lemma linked_sent kernel s c :
  kernel_ok kernel -> linked s c ->
  outcome LengthError (sendInLoop kernel (inp s) c) (fun c' => linked (set_input (retrieveAll (inputBuffer_ s)) s) c' /\
    sent (forall i d, kernel i false d <> PeerGone) (inp s) c c').
Proof.
  intros Hk (Hs & Hc & Hsc & Hcs). pose proof (content_small _ (li_in _ (up_live _ Hs))) as Hz.
  destruct (sendInLoop_live kernel Hk (inp s) c (up_live _ Hc) Hz) as [(c' & E & Hl & _)|E]; [|by right]. left. exists c'. split; [done|].
  destruct (sendInLoop_sent kernel (inp s) c c' Hk (up_live _ Hc) Hz E) as [S1 S2 S3 S4 SL S5].
  assert (Hsent : sent (forall i d, kernel i false d <> PeerGone) (inp s) c c').
  { split; try done. intros Hup. apply S5. split; [by apply Hc|done]. }
  split; [|done]. destruct S3 as (new & Hf & Hnew & _). split_and!.
  - by apply up_emptied.
  - apply (up_same c); [exact Hc|exact Hl|exact S1|]. rewrite Hf. apply Forall_app. split; [apply Hc|done].
  - intros Hr. destruct (Hsc Hr) as [Hw Ho]. split; [by rewrite (sm_wc _ _ S1)|].
    destruct Ho as [Ho|Ho]; [left; by apply S4|right]. rewrite Hf. apply elem_of_app. by left.
  - intros Hr. rewrite S2 in Hr. by destruct (Hcs Hr).
Qed.

Lemma linked_stays bytes s s' c : linked s c -> stays bytes s s' -> linked s' c.
Proof.
  intros (Hs & Hc & Hsc & Hcs) [[L1 L2] E1 E2 E3 E4 E5 EL E6 E7 E8 E9 E10]. split_and!.
  - split; [done|done|by rewrite E1; apply Hs|by rewrite E3; apply Hs|].
    destruct E8 as [->|[-> _]]; [apply Hs|]. apply Forall_app. split; [apply Hs|]. apply Forall_singleton. by left.
  - done.
  - intros Hr. rewrite E4 in Hr. by apply Hsc.
  - intros Hr. destruct (Hcs Hr) as [Hw Ho]. split; [by rewrite E2|]. destruct Ho as [Ho|Ho].
    + destruct (decide (out s' = [])) as [Hn|Hn]; [right; rewrite E9 by done; apply elem_of_app; right; by apply list_elem_of_singleton|by left].
    + right. destruct E8 as [->|[-> _]]; [done|]. apply elem_of_app. by left.
Qed.

(** A functor taken from the queue of [s], whose event is recorded. *)
Definition took (l : list task) (e : event) (s : TcpConnection) : TcpConnection := emit e (set_functors l s).

Lemma took_up t l e s : up_conn s -> functors s = t :: l -> is_life e = false -> up_conn (took l e s).
Proof.
  intros [Hl Hlf Hst Hf Ht] E He. rewrite E in Ht. apply Forall_cons in Ht as [_ Ht]. split; try done.
  - by eapply live_emit, live_took.
  - by apply life_took.
Qed.

Lemma up_read c : up_conn c -> up_conn (startReadInLoop c) /\ up_conn (stopReadInLoop c).
Proof.
  intros Hc. pose proof (up_live _ Hc) as Hl. destruct (li_mask _ Hl) as (r & w & Hm & _). split.
  - destruct (startRead_same c) as (Hsame & Hf & _). eapply up_same; [done| |done|rewrite Hf; apply Hc].
    unfold startReadInLoop. case_match; [|done]. apply live_reading; [done|]. exists r, w. cbn. by rewrite Hm, mask_enableReading.
  - destruct (stopRead_same c) as (Hsame & Hf & _). eapply up_same; [done| |done|rewrite Hf; apply Hc].
    unfold stopReadInLoop. case_match; [|done]. apply live_reading; [done|]. exists r, w. cbn. by rewrite Hm, mask_disableReading.
Qed.

Lemma up_callback b c : up_conn c -> up_conn (setWriteCompleteCallback b c).
Proof. intros [Hl Hlf Hs Hf Ht]. split; try done. by destruct Hl; split. Qed.

Lemma linked_write_complete l s c :
  linked s c -> functors s = TWriteComplete :: l ->
  linked (setWriteCompleteCallback false (took l EvWriteComplete s)) (startReadInLoop c).
Proof.
  intros (Hs & Hc & Hsc & Hcs) E. pose proof (took_up _ _ EvWriteComplete _ Hs E eq_refl) as Hs'.
  destruct (startRead_same c) as (Hsame & Hf & Ho & _). split_and!.
  - by apply up_callback.
  - by apply up_read.
  - intros Hr. rewrite (sm_wc _ _ Hsame), Ho, Hf. by apply Hsc.
  - intros Hr. by rewrite rd_startRead in Hr.
Qed.

Lemma linked_high_water n l s c :
  linked s c -> functors s = THighWaterMark n :: l ->
  let s1 := took l (EvHighWaterMark n) s in
  linked s1 c /\ (out s <> [] -> linked (setWriteCompleteCallback true s1) (stopReadInLoop c)).
Proof.
  intros (Hs & Hc & Hsc & Hcs) E. pose proof (took_up _ _ (EvHighWaterMark n) _ Hs E eq_refl) as Hs'. split.
  - split_and!; [done|done|done|]. intros Hr. destruct (Hcs Hr) as [Hw Ho]. split; [done|].
    destruct Ho as [Ho|Ho]; [by left|right]. rewrite E in Ho. cbn. apply elem_of_cons in Ho as [?|?]; done.
  - intros Hne. destruct (stopRead_same c) as (Hsame & Hf & Ho & _). split_and!.
    + by apply up_callback.
    + by apply up_read.
    + intros Hr. rewrite (sm_wc _ _ Hsame), Ho, Hf. by apply Hsc.
    + intros _. split; [done|by left].
Qed.

(** ** A connection after its peer is gone *)

(** Shut down, and with no functor or callback that would reach the peer. *)
Record half_conn (c : TcpConnection) : Prop := {
  hf_live : live_inv c;
  hf_life : life c = [EvUp];
  hf_state : state_ c = kDisconnecting;
  hf_wc : writeCompleteCallback_ c = false;
  hf_functors : functors c = []
}.

Record ended (c : TcpConnection) : Prop := {
  en_over : over_inv c;
  en_functors : functors c = [TConnectDestroyed] \/ functors c = []
}.

Lemma half_stays bytes c c' : half_conn c -> stays bytes c c' -> half_conn c'.
Proof.
  intros [Hl Hlf Hs Hw Hf] [[L1 L2] E1 E2 E3 E4 E5 EL E6 E7 E8 E9 E10]. split; try congruence.
  destruct E8 as [?|[_ ?]]; congruence.
Qed.

Lemma shut_half c :
  up_conn c -> writeCompleteCallback_ c = false -> functors c = [] ->
  half_conn (shutdown true c) /\ inp (shutdown true c) = inp c /\ accepted (shutdown true c) = accepted c.
Proof.
  intros [Hl Hlf Hs Hf Ht] Hw Hn. unfold shutdown. rewrite bool_decide_true by done.
  destruct (live_disconnecting c Hl) as [Hd _]. destruct (shutdownInLoop_live _ Hd) as [Hd' _].
  unfold shutdownInLoop in *. case_match; split_and!; by try split.
Qed.

Lemma shut_ended c : ended c -> shutdown true c = c.
Proof. intros [Ho _]. unfold shutdown. by rewrite (oi_state _ Ho). Qed.

Lemma closes_ended c c' : functors c = [] -> closes c c' -> ended c'.
Proof. intros Hf [H1 _ _ _ _ _ _ H6]. split; [done|]. rewrite H6, Hf. by left. Qed.

Lemma ended_destroyed kernel t l c :
  ended c -> functors c = t :: l ->
  exists c', run_task kernel no_calls t (set_functors l c) = Ok c' /\ ended c' /\ inputBuffer_ c' = inputBuffer_ c /\
    trace c' = trace c /\ accepted c' = accepted c.
Proof.
  intros [Ho Hf] Ef. rewrite Ef in Hf. destruct Hf as [[= -> ->]|]; [|done]. cbn [run_task]. unfold connectDestroyed.
  pose proof Ho as [Hs Hi Hob Hst He Hm Hend]. cbn [set_functors state_]. rewrite bool_decide_false by congruence. cbn [mbind res_bind].
  unfold chan_remove, isNoneEvent. cbn [channel_ set_functors]. rewrite He. cbn [Z.eqb kNoneEvent check mbind res_bind].
  eexists. split; [reflexivity|]. split; [|done]. split; [|by right]. split; try done.
  - intros d Hd. by apply elem_of_nil in Hd.
  - right. split_and!; [done|apply not_elem_of_nil|]. destruct Hend as [(Hl & _ & _)|(_ & _ & Hl)]; [by left|done].
Qed.

Lemma ended_no_poll revents c : ended c -> enabled (Poll revents) c = false.
Proof. intros [Ho _]. cbn. unfold isNoneEvent. by rewrite (oi_events _ Ho). Qed.

(** ** The tunnel *)

(** write(2) on an open connection never answers EPIPE or ECONNRESET. *)
Definition reliable (kernel : nat -> bool -> list char -> written) : Prop := forall i d, kernel i false d <> PeerGone.

Section Tunnel.
Context (mark : Z).
Context (kernel_s kernel_c : nat -> bool -> list char -> written) (Hks : kernel_ok kernel_s) (Hkc : kernel_ok kernel_c).
Context (network_s network_c : nat -> kernel_readv).
Context (Hns : forall i, readv_contract (network_s i)) (Hnc : forall i, readv_contract (network_c i)).

(** What was read from a side was handed to the send of the other or is in the input buffer. *)
Record streams (t : Tunnel) : Prop := {
  ss_server : to_client t ++ inp (serverConn_ t) = from_server t;
  ss_taken : reliable kernel_s -> accepted (serverConn_ t) = to_server t;
  ss_client : match client_conn t with
              | None => to_client t = [] /\ to_server t = [] /\ from_client t = []
              | Some c => to_server t ++ inp c = from_client t /\ (reliable kernel_c -> accepted c = to_client t)
              end
}.

Record relaying (t : Tunnel) (c : TcpConnection) : Prop := {
  rl_client : client_conn t = Some c;
  rl_linked : linked (serverConn_ t) c;
  rl_pointer : clientConn_ t = true;
  rl_context : context t = true;
  rl_entry : entry t = true
}.

Inductive phase (t : Tunnel) : Prop :=
| Waiting : fresh_inv (serverConn_ t) -> client_conn t = None -> entry t = false -> phase t
| Dialing : up_conn (serverConn_ t) -> rd (serverConn_ t) = false -> out (serverConn_ t) = [] -> functors (serverConn_ t) = [] ->
    client_conn t = None -> entry t = true -> phase t
| Relaying c : relaying t c -> phase t
| ClientGone c : client_conn t = Some c -> ended c -> half_conn (serverConn_ t) -> context t = false -> entry t = true -> phase t
| ServerGone c : client_conn t = Some c -> ended (serverConn_ t) -> half_conn c -> phase t
| BothGone c : client_conn t = Some c -> ended (serverConn_ t) -> ended c -> phase t.

Definition good (t : Tunnel) : Prop := phase t /\ streams t.

Lemma emptied c : live_inv c -> inp (set_input (retrieveAll (inputBuffer_ c)) c) = [].
Proof. intros Hl. apply retrieveAll_spec, Hl. Qed.

Lemma forward_client t c :
  relaying t c -> streams t -> outcome LengthError (forward kernel_s kernel_c kClient t) good.
Proof using Hkc.
  intros [Hc Hlink Hp Hx He] [S1 S2 S3]. rewrite Hc in S3. destruct S3 as [S3 S4]. pose proof Hlink as (Hus & Huc & _).
  unfold forward. rewrite Hc. cbn [get mbind res_bind]. rewrite bool_decide_true by apply Huc.
  rewrite read_content by apply Hus. cbn [mbind res_bind]. fold (inp (serverConn_ t)).
  destruct (linked_sent kernel_c (serverConn_ t) c Hkc Hlink) as [(c' & -> & Hlink' & [T1 T2 T3 T4 TL T5])| ->]; [|by right].
  cbn [mbind res_bind]. apply outcome_Ok. split; [by apply (Relaying _ c'); split|]. split; cbn -[inp].
  - rewrite (emptied _ (up_live _ Hus)), app_nil_r. exact S1.
  - exact S2.
  - split; [unfold inp; by rewrite (sm_input _ _ T1)|]. intros Hr. rewrite T5, S4; done.
Qed.

Lemma forward_server t c :
  relaying t c -> streams t -> outcome LengthError (forward kernel_s kernel_c kServer t) good.
Proof using Hks.
  intros [Hc Hlink Hp Hx He] [S1 S2 S3]. rewrite Hc in S3. destruct S3 as [S3 S4]. pose proof Hlink as (Hus & Huc & _).
  unfold forward. rewrite Hc. cbn [get mbind res_bind]. rewrite bool_decide_true by apply Hus.
  rewrite read_content by apply Huc. cbn [mbind res_bind]. fold (inp c).
  destruct (linked_sent kernel_s c (serverConn_ t) Hks (linked_sym _ _ Hlink)) as [(s' & -> & Hlink' & [T1 T2 T3 T4 TL T5])| ->]; [|by right].
  cbn [mbind res_bind]. apply outcome_Ok. split; [by eapply Relaying; split; [|apply linked_sym|..]|]. split; cbn -[inp].
  - unfold inp. rewrite (sm_input _ _ T1). exact S1.
  - intros Hr. rewrite T5, S2; done.
  - split; [|exact S4]. rewrite (emptied _ (up_live _ Huc)), app_nil_r. exact S3.
Qed.

Abbreviation conn_step := (conn_step mark kernel_s kernel_c network_s network_c).
Abbreviation conn_perform := (conn_perform kernel_s kernel_c network_s network_c).
Abbreviation on_events := (on_events mark kernel_s kernel_c).

(** A step of one side: what it read, then its callbacks. *)
Lemma conn_step_eq which a t c c' bytes es :
  conn_of which t = Some c -> conn_perform which a c = Ok c' -> inp c' = inp c ++ bytes -> trace c' = trace c ++ es ->
  conn_step which a t = on_events which es (received which bytes (set_conn which c' t)).
Proof.
  intros Hc Hp Hi Ht. unfold Tunnel.conn_step. rewrite Hc. cbn [get mbind res_bind]. rewrite Hp. cbn [mbind res_bind].
  fold (inp c) (inp c'). by rewrite Hi, Ht, !drop_app_length.
Qed.

Lemma streams_step which t c c' bytes :
  streams t -> conn_of which t = Some c -> inp c' = inp c ++ bytes -> accepted c' = accepted c ->
  streams (received which bytes (set_conn which c' t)).
Proof.
  intros [S1 S2 S3] Hc Hi Ha. destruct which; cbn in Hc; split; cbn -[inp]; try done.
  - injection Hc as <-. by rewrite Hi, (assoc_L app), S1.
  - injection Hc as <-. by rewrite Ha.
  - rewrite Hc in S3. rewrite Hi, Ha. destruct S3 as [S3 S4]. split; [|done]. by rewrite (assoc_L app), S3.
Qed.

(** ** The side that stays when the other has gone *)

Lemma down_server t c c' :
  streams t -> client_conn t = Some c -> shutdown true c = c' -> inp c' = inp c -> accepted c' = accepted c ->
  entry t = true ->
  exists t', on_events kServer [EvDown; EvClosed] t = Ok t' /\ streams t' /\ serverConn_ t' = serverConn_ t /\ client_conn t' = Some c'.
Proof.
  intros [S1 S2 S3] Hc Hs Hi Ha He. cbn [Tunnel.on_events on_event]. unfold onServerConnectionDown. rewrite He, Hc, Hs. cbn [check mbind res_bind].
  eexists. split; [reflexivity|]. rewrite Hc in S3. split; [|done]. split; cbn -[inp]; [done..|]. by rewrite Hi, Ha.
Qed.

Lemma down_client t c s' :
  streams t -> client_conn t = Some c -> shutdown true (serverConn_ t) = s' ->
  inp s' = inp (serverConn_ t) -> accepted s' = accepted (serverConn_ t) ->
  exists t', on_events kClient [EvDown; EvClosed] t = Ok t' /\ streams t' /\ serverConn_ t' = s' /\ client_conn t' = Some c /\
    context t' = false /\ entry t' = entry t.
Proof.
  intros [S1 S2 S3] Hc Hs Hi Ha. cbn [Tunnel.on_events on_event mbind res_bind]. unfold teardown. cbn [set_torn serverConn_]. rewrite Hs.
  eexists. split; [reflexivity|]. split; [|done]. split; cbn -[inp]; [by rewrite Hi|by rewrite Ha|done].
Qed.

(** ** A channel's event *)

Lemma poll_conn which revents c :
  live_inv c -> life c = [EvUp] -> enabled (Poll revents) c = true ->
  outcome LengthError (conn_perform which (Poll revents) c) (fun c' => (exists bytes, stays bytes c c') \/ closes c c').
Proof using Hks Hkc Hns Hnc.
  intros Hl Hlf Hen. pose proof Hen as [[_ Hrep]%andb_true_iff Hu%negb_true_iff]%andb_true_iff.
  destruct which; cbn [Tunnel.conn_perform perform].
  - destruct (dispatch_ok kernel_s Hks network_s Hns no_calls no_calls_ok revents c Hl Hlf Hrep Hu) as [(c' & E & _)|E]; [|by right].
    left. exists c'. split; [done|]. by apply (poll_profile kernel_s Hks network_s Hns revents).
  - destruct (dispatch_ok kernel_c Hkc network_c Hnc no_calls no_calls_ok revents c Hl Hlf Hrep Hu) as [(c' & E & _)|E]; [|by right].
    left. exists c'. split; [done|]. by apply (poll_profile kernel_c Hkc network_c Hnc revents).
Qed.

Definition other (which : ServerClient) : ServerClient := match which with kServer => kClient | kClient => kServer end.

(** Nothing is queued, and the other side does not wait to be drained. *)
Definition settled (which : ServerClient) (t : Tunnel) : bool :=
  bool_decide (functors_of kServer t = []) && bool_decide (functors_of kClient t = []) &&
  match conn_of (other which) t with Some c => negb (writeCompleteCallback_ c) | None => true end.

(** A connection that closes does so when its tunnel is settled. *)
Definition orderly (a : relay_action) (t : Tunnel) : bool :=
  match a with
  | Dispatch which revents =>
      match conn_of which t with
      | Some c => match conn_perform which (Poll revents) c with
                  | Ok c' => negb (bool_decide (state_ c' = kDisconnected)) || settled which t
                  | Fault _ => true
                  end
      | None => true
      end
  | _ => true
  end.

Lemma orderly_closes which revents t c c' :
  orderly (Dispatch which revents) t = true -> conn_of which t = Some c -> conn_perform which (Poll revents) c = Ok c' ->
  closes c c' -> functors c = [] /\ (forall d, conn_of (other which) t = Some d -> functors d = [] /\ writeCompleteCallback_ d = false).
Proof.
  unfold orderly. intros Ho Hc Hp Hcl. rewrite Hc, Hp in Ho. rewrite bool_decide_true in Ho by apply Hcl. cbn [negb orb] in Ho.
  apply andb_true_iff in Ho as [[F1%bool_decide_eq_true F2%bool_decide_eq_true]%andb_true_iff Hw].
  assert (Hf : functors_of which t = [] /\ functors_of (other which) t = []) by (by destruct which).
  unfold functors_of in Hf. rewrite Hc in Hf. split; [apply Hf|]. intros d Hd. rewrite Hd in Hf, Hw. split; [apply Hf|by apply negb_true_iff].
Qed.

Lemma message_events (bytes : list char) (m : res Tunnel) t which :
  on_event mark kernel_s kernel_c which EvMessage t = m ->
  on_events which (if decide (bytes = []) then [] else [EvMessage]) t = if decide (bytes = []) then Ok t else m.
Proof. intros <-. case_decide; [done|]. cbn [Tunnel.on_events]. by destruct on_event. Qed.

Lemma relaying_stays which a t c d d' bytes :
  relaying t c -> streams t -> conn_of which t = Some d -> conn_perform which a d = Ok d' -> stays bytes d d' ->
  outcome LengthError (conn_step which a t) good.
Proof using Hks Hkc.
  intros Hrl Hst Hd E Hs. pose proof Hrl as [Hc Hlink Hp Hx He].
  rewrite (conn_step_eq _ _ _ _ _ _ _ Hd E (sy_inp _ _ _ Hs) (sy_trace _ _ _ Hs)).
  pose proof (streams_step which t d d' bytes Hst Hd (sy_inp _ _ _ Hs) (sy_accepted _ _ _ Hs)) as Hst'.
  erewrite message_events by reflexivity. destruct which; cbn in Hd.
  - injection Hd as <-. assert (Hrl' : relaying (received kServer bytes (set_conn kServer d' t)) c)
      by (split; try done; by eapply linked_stays).
    case_decide; [apply outcome_Ok; split; [by eapply Relaying|done]|]. cbn [on_event]. unfold onServerMessage.
    rewrite (rl_context _ _ Hrl'). by eapply forward_client.
  - assert (d = c) as -> by congruence. assert (Hrl' : relaying (received kClient bytes (set_conn kClient d' t)) d')
      by (split; try done; by apply linked_sym; eapply linked_stays; [apply linked_sym|]).
    case_decide; [apply outcome_Ok; split; [by eapply Relaying|done]|]. by eapply forward_server.
Qed.

(** A side that closes has its down callback run on the tunnel without it. *)
Lemma closes_step which a t d d' :
  streams t -> conn_of which t = Some d -> conn_perform which a d = Ok d' -> closes d d' ->
  let t1 := received which [] (set_conn which d' t) in
  conn_step which a t = on_events which [EvDown; EvClosed] t1 /\ streams t1.
Proof.
  intros Hst Hd E Hcl. split.
  - apply (conn_step_eq which a t d d'); [done|done|rewrite app_nil_r; apply Hcl|apply Hcl].
  - apply (streams_step which t d d'); [done|done|rewrite app_nil_r; apply Hcl|apply Hcl].
Qed.

Lemma relaying_closes which a t c d d' :
  relaying t c -> streams t -> conn_of which t = Some d -> conn_perform which a d = Ok d' -> closes d d' ->
  functors d = [] -> (forall e, conn_of (other which) t = Some e -> functors e = [] /\ writeCompleteCallback_ e = false) ->
  exists t', conn_step which a t = Ok t' /\ good t'.
Proof.
  intros Hrl Hst Hd E Hcl Hfd Ho. pose proof Hrl as [Hc (Hus & Huc & _) Hp Hx He].
  pose proof (closes_ended _ _ Hfd Hcl) as Hen'. destruct (closes_step _ _ _ _ _ Hst Hd E Hcl) as [-> Hst']. destruct which; cbn in Hd.
  - destruct (Ho c Hc) as [Hf Hw]. destruct (shut_half c Huc Hw Hf) as (Hh & Hi & Ha).
    destruct (down_server _ c _ Hst' Hc eq_refl Hi Ha He) as (t' & -> & Hst'' & E1 & E2).
    exists t'. split; [done|]. split; [|done]. apply (ServerGone _ (shutdown true c)); [done| |done]. by rewrite E1.
  - destruct (Ho _ eq_refl) as [Hf Hw]. destruct (shut_half _ Hus Hw Hf) as (Hh & Hi & Ha).
    destruct (down_client _ d' _ Hst' eq_refl eq_refl Hi Ha) as (t' & -> & Hst'' & E1 & E2 & E3 & E4).
    exists t'. split; [done|]. split; [|done]. apply (ClientGone _ d'); [done|done|by rewrite E1|done|by rewrite E4].
Qed.

(** The side that is left, polled. *)
Lemma client_gone_poll a t c s' :
  streams t -> client_conn t = Some c -> ended c -> half_conn (serverConn_ t) -> context t = false -> entry t = true ->
  conn_perform kServer a (serverConn_ t) = Ok s' -> (exists bytes, stays bytes (serverConn_ t) s') \/ closes (serverConn_ t) s' ->
  exists t', conn_step kServer a t = Ok t' /\ good t'.
Proof.
  intros Hst Hc Hen Hh Hx He E [(bytes & Hs)|Hcl].
  - rewrite (conn_step_eq kServer _ t _ _ _ _ eq_refl E (sy_inp _ _ _ Hs) (sy_trace _ _ _ Hs)).
    pose proof (streams_step kServer t _ s' bytes Hst eq_refl (sy_inp _ _ _ Hs) (sy_accepted _ _ _ Hs)) as Hst'.
    set (t1 := received _ _ _) in *. rewrite (message_events bytes (Ok t1)) by (cbn [on_event]; unfold onServerMessage; cbn; by rewrite Hx).
    exists t1. split; [by case_decide|]. split; [|done]. eapply (ClientGone _ c); try done. by eapply half_stays.
  - pose proof (closes_ended _ _ (hf_functors _ Hh) Hcl) as Hen'. destruct (closes_step kServer _ _ _ _ Hst eq_refl E Hcl) as [-> Hst'].
    destruct (down_server _ c _ Hst' Hc (shut_ended _ Hen) eq_refl eq_refl He) as (t' & -> & Hst'' & E1 & E2).
    exists t'. split; [done|]. split; [|done]. eapply (BothGone _ c); [done| |done]. by rewrite E1.
Qed.

Lemma server_gone_poll a t c c' :
  streams t -> client_conn t = Some c -> ended (serverConn_ t) -> half_conn c ->
  conn_perform kClient a c = Ok c' -> (exists bytes, stays bytes c c') \/ closes c c' ->
  exists t', conn_step kClient a t = Ok t' /\ good t'.
Proof.
  intros Hst Hc Hen Hh E [(bytes & Hs)|Hcl].
  - rewrite (conn_step_eq kClient _ t _ _ _ _ Hc E (sy_inp _ _ _ Hs) (sy_trace _ _ _ Hs)).
    pose proof (streams_step kClient t _ c' bytes Hst Hc (sy_inp _ _ _ Hs) (sy_accepted _ _ _ Hs)) as Hst'.
    set (t1 := received _ _ _) in *. rewrite (message_events bytes (Ok t1)).
    2: { cbn [on_event]. unfold onClientMessage, forward. cbn [t1 received set_conn client_conn serverConn_ set_client get mbind res_bind].
         by rewrite (oi_state _ (en_over _ Hen)). }
    exists t1. split; [by case_decide|]. split; [|done]. eapply (ServerGone _ c'); try done. by eapply half_stays.
  - pose proof (closes_ended _ _ (hf_functors _ Hh) Hcl) as Hen'. destruct (closes_step kClient _ _ _ _ Hst Hc E Hcl) as [-> Hst'].
    destruct (down_client _ c' _ Hst' eq_refl (shut_ended _ Hen) eq_refl eq_refl) as (t' & -> & Hst'' & E1 & E2 & _).
    exists t'. split; [done|]. split; [|done]. eapply (BothGone _ c'); [done| |done]. by rewrite E1.
Qed.

(** A connection that neither reads nor has output is not polled. *)
Lemma deaf_no_poll revents c : live_inv c -> rd c = false -> out c = [] -> enabled (Poll revents) c = false.
Proof.
  intros Hl Hr Ho. destruct (li_mask _ Hl) as (r & w & Hm & Hw). cbn. unfold isNoneEvent.
  destruct w; [by destruct (proj1 Hw eq_refl)|]. destruct r; [|by rewrite Hm].
  unfold rd, isReading in Hr. by rewrite Hm in Hr.
Qed.

Lemma poll_failed which a t d :
  conn_of which t = Some d -> conn_perform which a d = Fault LengthError -> conn_step which a t = Fault LengthError.
Proof. intros Hd E. unfold Tunnel.conn_step. rewrite Hd. cbn [get mbind res_bind]. by rewrite E. Qed.

Lemma poll_step which revents t d :
  good t -> conn_of which t = Some d -> enabled (Poll revents) d = true -> orderly (Dispatch which revents) t = true ->
  outcome LengthError (conn_step which (Poll revents) t) good.
Proof using Hks Hkc Hns Hnc.
  intros [Hph Hst] Hd Hen Hor.
  assert (Hlive : live_inv d /\ life d = [EvUp] ->
    ((exists d', conn_perform which (Poll revents) d = Ok d' /\ ((exists bytes, stays bytes d d') \/ closes d d')) \/
     conn_step which (Poll revents) t = Fault LengthError)).
  { intros [Hl Hlf]. destruct (poll_conn which revents d Hl Hlf Hen) as [?|E]; [by left|right]. by eapply poll_failed. }
  destruct Hph as [Hf Hn _|Hu Hr Ho Hf Hn He|c Hrl|c Hc Hec Hh Hx He|c Hc Hes Hh|c Hc Hes Hec].
  - destruct which; cbn in Hd; [injection Hd as <-|congruence]. cbn in Hen. unfold isNoneEvent in Hen. by rewrite (fi_events _ Hf) in Hen.
  - destruct which; cbn in Hd; [injection Hd as <-|congruence]. rewrite deaf_no_poll in Hen; [done|apply Hu|done|done].
  - assert (Hud : up_conn d) by (destruct Hrl as [? (? & ? & _)], which; cbn in Hd; congruence).
    destruct (Hlive (conj (up_live _ Hud) (up_life _ Hud))) as [(d' & E & [(bytes & Hs)|Hcl])|E]; [..|by right].
    + by eapply relaying_stays.
    + destruct (orderly_closes _ _ _ _ _ Hor Hd E Hcl) as [Hfd Ho]. left. by eapply relaying_closes.
  - destruct which; cbn in Hd; [injection Hd as <-|].
    + destruct (Hlive (conj (hf_live _ Hh) (hf_life _ Hh))) as [(d' & E & Hpr)|E]; [left|by right]. by eapply client_gone_poll.
    + assert (d = c) as -> by congruence. by rewrite ended_no_poll in Hen.
  - destruct which; cbn in Hd; [injection Hd as <-; by rewrite ended_no_poll in Hen|]. assert (d = c) as -> by congruence.
    destruct (Hlive (conj (hf_live _ Hh) (hf_life _ Hh))) as [(d' & E & Hpr)|E]; [left|by right]. by eapply server_gone_poll.
  - assert (ended d) by (destruct which; cbn in Hd; congruence). by rewrite ended_no_poll in Hen.
Qed.

(** ** A functor *)

Lemma took_step which t d l tk e :
  conn_of which t = Some d -> functors d = tk :: l -> (tk = TWriteComplete /\ e = EvWriteComplete \/ exists n, tk = THighWaterMark n /\ e = EvHighWaterMark n) ->
  conn_step which RunFunctor t = on_events which [e] (received which [] (set_conn which (took l e d) t)).
Proof.
  intros Hd Hf Htk. apply (conn_step_eq which _ t d (took l e d) [] [e]); [done| |by rewrite app_nil_r|done].
  destruct which; cbn [Tunnel.conn_perform perform]; rewrite Hf; by destruct Htk as [[-> ->]|(n & -> & ->)].
Qed.

Lemma streams_same t t1 c c1 :
  streams t -> client_conn t = Some c -> client_conn t1 = Some c1 ->
  from_server t1 = from_server t -> from_client t1 = from_client t -> to_server t1 = to_server t -> to_client t1 = to_client t ->
  inputBuffer_ (serverConn_ t1) = inputBuffer_ (serverConn_ t) -> accepted (serverConn_ t1) = accepted (serverConn_ t) ->
  inputBuffer_ c1 = inputBuffer_ c -> accepted c1 = accepted c -> streams t1.
Proof.
  intros [S1 S2 S3] Hc Hc1 E1 E2 E3 E4 E5 E6 E7 E8. rewrite Hc in S3.
  split; unfold inp in *; rewrite ?Hc1, ?E1, ?E2, ?E3, ?E4, ?E5, ?E6, ?E7, ?E8; done.
Qed.

Lemma relaying_write_complete which t c d l :
  relaying t c -> streams t -> conn_of which t = Some d -> functors d = TWriteComplete :: l ->
  exists t', conn_step which RunFunctor t = Ok t' /\ good t'.
Proof.
  intros [Hc Hlink Hp Hx He] Hst Hd Hf. rewrite (took_step which t d l _ EvWriteComplete Hd Hf) by auto.
  destruct which; cbn in Hd.
  - injection Hd as <-. cbn [Tunnel.on_events on_event]. unfold onWriteCompleteWeak, held, onWriteComplete, clientPtr. cbn. rewrite He, Hp, Hc. cbn.
    eexists. split; [reflexivity|]. destruct (startRead_same c) as (Hsame & _ & _ & Ha). split.
    + apply (Relaying _ (startReadInLoop c)). split; try done. by apply linked_write_complete.
    + eapply (streams_same t _ c); try done; [cbn; by rewrite app_nil_r|apply Hsame].
  - assert (d = c) as -> by congruence. cbn [Tunnel.on_events on_event]. unfold onWriteCompleteWeak, held, onWriteComplete, clientPtr. cbn. rewrite He, Hp. cbn.
    eexists. split; [reflexivity|]. destruct (startRead_same (serverConn_ t)) as (Hsame & _ & _ & Ha). split.
    + eapply Relaying. split; try done. apply linked_sym, linked_write_complete; [by apply linked_sym|done].
    + eapply (streams_same t _ c); try done; [cbn; by rewrite app_nil_r|apply Hsame].
Qed.

Lemma readable_pos b : inv b -> (0 <? readableBytes b) = negb (bool_decide (content b = [])).
Proof.
  intros Hi. rewrite <- content_readable by done. pose proof (zlen_content b Hi) as Hz. pose proof (zlen_nonneg (content b)).
  rewrite readableBytes_eq by done. lia.
Qed.

Lemma relaying_high_water which t c d n l :
  relaying t c -> streams t -> conn_of which t = Some d -> functors d = THighWaterMark n :: l ->
  exists t', conn_step which RunFunctor t = Ok t' /\ good t'.
Proof.
  intros [Hc Hlink Hp Hx He] Hst Hd Hf. rewrite (took_step which t d l _ (EvHighWaterMark n) Hd Hf) by eauto.
  pose proof Hlink as (Hus & Huc & _). destruct which; cbn in Hd.
  - injection Hd as <-. cbn [Tunnel.on_events on_event]. unfold onHighWaterMarkWeak, held, onHighWaterMark, clientPtr. cbn. rewrite He. cbn.
    rewrite readable_pos by apply Hus. destruct (linked_high_water n l _ c Hlink Hf) as [L1 L2].
    case_bool_decide as Eo; cbn; rewrite ?Hp, ?Hc; cbn; (eexists; split; [reflexivity|split]).
    + by apply (Relaying _ c).
    + eapply (streams_same t _ c); try done. cbn. by rewrite app_nil_r.
    + apply (Relaying _ (stopReadInLoop c)). split; try done. by apply L2.
    + destruct (stopRead_same c) as (Hsame & _ & _ & Ha). eapply (streams_same t _ c); try done; [cbn; by rewrite app_nil_r|apply Hsame].
  - assert (d = c) as -> by congruence. cbn [Tunnel.on_events on_event]. unfold onHighWaterMarkWeak, held, onHighWaterMark, clientPtr. cbn. rewrite He, Hp. cbn.
    rewrite readable_pos by apply Huc. destruct (linked_high_water n l c _ (linked_sym _ _ Hlink) Hf) as [L1 L2].
    case_bool_decide as Eo; cbn; (eexists; split; [reflexivity|split]).
    + eapply Relaying. split; try done. by apply linked_sym.
    + eapply (streams_same t _ c); try done. cbn. by rewrite app_nil_r.
    + eapply Relaying. split; try done. apply linked_sym. by apply L2.
    + destruct (stopRead_same (serverConn_ t)) as (Hsame & _ & _ & Ha). eapply (streams_same t _ c); try done; [cbn; by rewrite app_nil_r|apply Hsame].
Qed.

(** connectDestroyed of a side that is gone. *)
Lemma ended_step which t d :
  streams t -> conn_of which t = Some d -> ended d -> functors d <> [] ->
  exists t' d', conn_step which RunFunctor t = Ok t' /\ streams t' /\ ended d' /\ t' = received which [] (set_conn which d' t).
Proof.
  intros Hst Hd Hen Hne. destruct (functors d) as [|tk l] eqn:Ef; [done|].
  destruct (ended_destroyed (match which with kServer => kernel_s | kClient => kernel_c end) tk l d Hen Ef) as (d' & E & Hen' & Hi & Ht & Ha).
  exists (received which [] (set_conn which d' t)), d'. split_and!; [|apply (streams_step which t d d'); try done; by rewrite app_nil_r; unfold inp; f_equal|done|done].
  rewrite (conn_step_eq which _ t d d' [] []); [done|done| |by rewrite app_nil_r; unfold inp; f_equal|by rewrite app_nil_r].
  destruct which; cbn [Tunnel.conn_perform perform]; by rewrite Ef.
Qed.

Lemma functor_step which t : good t -> functors_of which t <> [] -> exists t', conn_step which RunFunctor t = Ok t' /\ good t'.
Proof.
  intros [Hph Hst] Hne. unfold functors_of in Hne. destruct (conn_of which t) as [d|] eqn:Hd; [|done].
  destruct Hph as [Hf Hn _|Hu Hr Ho Hf Hn He|c Hrl|c Hc Hec Hh Hx He|c Hc Hes Hh|c Hc Hes Hec].
  - destruct which; cbn in Hd; [injection Hd as <-|congruence]. by rewrite (fi_functors _ Hf) in Hne.
  - destruct which; cbn in Hd; [injection Hd as <-|congruence]. done.
  - assert (Hud : up_conn d) by (destruct Hrl as [? (? & ? & _)], which; cbn in Hd; congruence).
    pose proof (up_tasks _ Hud) as Htk. destruct (functors d) as [|tk l] eqn:Ef; [done|].
    apply Forall_cons in Htk as [[->|(n & ->)] _]; [by eapply relaying_write_complete|by eapply relaying_high_water].
  - destruct which; cbn in Hd; [injection Hd as <-; by rewrite (hf_functors _ Hh) in Hne|]. assert (d = c) as -> by congruence.
    destruct (ended_step kClient t c Hst Hc Hec Hne) as (t' & d' & E & Hst' & Hen' & ->). eexists. split; [exact E|]. split; [|done]. by eapply ClientGone.
  - destruct which; cbn in Hd; [injection Hd as <-|assert (d = c) as -> by congruence; by rewrite (hf_functors _ Hh) in Hne].
    destruct (ended_step kServer t _ Hst eq_refl Hes Hne) as (t' & d' & E & Hst' & Hen' & ->). eexists. split; [exact E|]. split; [|done]. by eapply ServerGone.
  - assert (Hed : ended d) by (destruct which; cbn in Hd; congruence).
    destruct (ended_step which t d Hst Hd Hed Hne) as (t' & d' & E & Hst' & Hen' & ->). eexists. split; [exact E|]. split; [|done].
    destruct which; by eapply BothGone.
Qed.

(** ** The connections come up *)

Lemma up_mark c : up_conn c -> up_conn (setHighWaterMarkCallback mark c).
Proof. intros [Hl Hlf Hs Hf Ht]. split; try done. by destruct Hl; split. Qed.

Lemma established which c :
  fresh_inv c ->
  exists c', conn_perform which Establish c = Ok c' /\ up_conn c' /\ rd c' = true /\ out c' = [] /\ functors c' = [] /\
    inp c' = inp c /\ accepted c' = accepted c /\ trace c' = trace c ++ [EvUp].
Proof using Hks Hkc.
  intros Hf. destruct which.
  - destruct (established_up kernel_s Hks c Hf) as (c' & E & Hl & Hlf & Hs & Hfi & Hr & Ho & Hfu & Hi & Ha & Ht).
    exists c'. split_and!; try done; [split; try done; by rewrite Hfu|unfold inp; by rewrite Hi].
  - destruct (established_up kernel_c Hkc c Hf) as (c' & E & Hl & Hlf & Hs & Hfi & Hr & Ho & Hfu & Hi & Ha & Ht).
    exists c'. split_and!; try done; [split; try done; by rewrite Hfu|unfold inp; by rewrite Hi].
Qed.

Lemma accept_step t :
  good t -> state_ (serverConn_ t) = kConnecting -> exists t', conn_step kServer Establish t = Ok t' /\ good t'.
Proof using Hks Hkc.
  intros [Hph Hst] Hs.
  assert (Hw : fresh_inv (serverConn_ t) /\ client_conn t = None).
  { destruct Hph as [?? _|Hu|c [_ (Hu & _)]|c _ _ [_ _ Hh]|c _ [Ho _]|c _ [Ho _]]; [done|exfalso..].
    - by rewrite (up_state _ Hu) in Hs.
    - by rewrite (up_state _ Hu) in Hs.
    - congruence.
    - by rewrite (oi_state _ Ho) in Hs.
    - by rewrite (oi_state _ Ho) in Hs. }
  destruct Hw as [Hf Hn]. destruct (established kServer _ Hf) as (s' & E & Hu & Hr & Ho & Hfu & Hi & Ha & Ht).
  rewrite (conn_step_eq kServer _ t _ s' [] [EvUp] eq_refl E); [|by rewrite app_nil_r|done].
  assert (Hst' : streams (received kServer [] (set_conn kServer s' t))) by (eapply streams_step; [done..| |done]; by rewrite app_nil_r).
  eexists. split; [reflexivity|]. destruct (stopRead_same s') as (Hsame & Hfs & Hos & Has). split.
  - eapply Dialing; try done; [apply up_mark, up_read, Hu|exact (rd_stopRead s')|exact (eq_trans Hos Ho)|exact (eq_trans Hfs Hfu)].
  - destruct Hst' as [S1 S2 S3]. split; [|intros R; exact (eq_trans Has (S2 R))|exact S3].
    cbn -[inp] in *. rewrite <- S1. unfold inp. cbn. by rewrite (sm_input _ _ Hsame).
Qed.

Lemma connect_step t c :
  good t -> entry t = true -> client_conn t = None -> fresh_inv c -> inp c = [] ->
  outcome LengthError (conn_step kClient Establish (set_client c t)) good.
Proof using Hks Hkc.
  intros [Hph [S1 S2 S3]] He Hn Hf Hin.
  assert (Hu : up_conn (serverConn_ t)).
  { destruct Hph as [_ _ Hw|Hu|c' [? _]|c' ?|c' ?|c' ?]; [congruence|done|congruence..]. }
  rewrite Hn in S3. destruct S3 as (S3 & S4 & S5).
  destruct (established kClient c Hf) as (c' & E & Huc & Hr & Ho & Hfu & Hi & Ha & Ht).
  rewrite (conn_step_eq kClient _ (set_client c t) c c' [] [EvUp] eq_refl E); [|by rewrite app_nil_r|done].
  cbn [Tunnel.on_events on_event]. unfold onClientConnectionUp. cbn [get mbind res_bind received set_conn set_client client_conn].
  set (t2 := set_pointers true _ _). destruct (startRead_same (serverConn_ t)) as (Hsame & _ & _ & Has).
  assert (Hrl : relaying t2 (setHighWaterMarkCallback mark c')).
  { split; try done. split_and!; [apply up_read, Hu|by apply up_mark|intros H0; change (rd (startReadInLoop (serverConn_ t)) = false) in H0; by rewrite rd_startRead in H0|].
    intros H0. change (rd c' = false) in H0. congruence. }
  assert (Hst : streams t2).
  { split; cbn -[inp].
    - rewrite <- S1. unfold inp. by rewrite (sm_input _ _ Hsame).
    - intros R. exact (eq_trans Has (S2 R)).
    - unfold inp in *. cbn. rewrite Hi, Hin, S4, S5, S3. split; [done|]. intros _. rewrite Ha. apply Hf. }
  case_match; cbn [mbind res_bind].
  - destruct (forward_client t2 _ Hrl Hst) as [(t3 & -> & Hg)| ->]; [by apply outcome_Ok|by right].
  - apply outcome_Ok. split; [by eapply Relaying|done].
Qed.

(** ** The relay *)

(** The client's connection starts with empty buffers. *)
Definition starts_empty (a : relay_action) : Prop :=
  match a with
  | Connected input output => inv input /\ content input = [] /\ inv output /\ content output = []
  | _ => True
  end.

Lemma relay_step a l :
  good (tunnel l) -> relay_enabled a l = true -> starts_empty a -> orderly a (tunnel l) = true ->
  outcome LengthError (relay_perform mark kernel_s kernel_c network_s network_c a l) (fun l' => good (tunnel l')).
Proof using Hks Hkc Hns Hnc.
  intros Hg Hen Hem Hor. destruct a as [|input output|which revents|which|]; cbn [relay_enabled relay_perform] in *.
  - apply bool_decide_eq_true in Hen. destruct (accept_step _ Hg Hen) as (t' & -> & Hg'). by apply outcome_Ok.
  - apply andb_true_iff in Hen as [[_ He]%andb_true_iff Hn%bool_decide_eq_true]. destruct Hem as (I1 & I2 & I3 & I4).
    eapply outcome_bind; [by apply connect_step|]. intros t' Hg'. by apply outcome_Ok.
  - apply andb_true_iff in Hen as [_ Hen]. destruct (conn_of which (tunnel l)) as [d|] eqn:Hd; [|done].
    eapply outcome_bind; [by eapply poll_step|]. intros t' Hg'. by apply outcome_Ok.
  - apply negb_true_iff, bool_decide_eq_false in Hen. destruct (functor_step _ _ Hg Hen) as (t' & -> & Hg'). by apply outcome_Ok.
  - by apply outcome_Ok.
Qed.

(** A connection TcpServer has made, before connectEstablished. *)
Definition fresh_loop (b : Buffer) : Loop :=
  mkLoop (mkTunnel (newTcpConnection 1 0 b b false false) None false false false false [] [] [] []) [] false.

Inductive relay_reachable (l0 : Loop) : Loop -> Prop :=
| RelayInit : relay_reachable l0 l0
| RelayStep a l l' : relay_reachable l0 l -> relay_enabled a l = true -> starts_empty a -> orderly a (tunnel l) = true ->
    relay_perform mark kernel_s kernel_c network_s network_c a l = Ok l' -> relay_reachable l0 l'.

Lemma relay_good b l : newBuffer kInitialSize = Ok b -> relay_reachable (fresh_loop b) l -> good (tunnel l).
Proof using Hks Hkc Hns Hnc.
  intros Hb. induction 1 as [|a l l' _ IH Hen Hem Hor E].
  - destruct (newBuffer_spec kInitialSize) as (b' & Eb & Hi & Hc & _); [by vm_compute..|]. rewrite Hb in Eb. injection Eb as <-.
    split; [apply Waiting; [by apply fresh_new|done..]|]. split; done.
  - destruct (relay_step a l IH Hen Hem Hor) as [(l2 & E2 & ?)|E2]; congruence.
Qed.

(** On each side, the bytes on the wire and in the output buffer are those sendInLoop took. *)
Lemma good_wires t c :
  good t -> client_conn t = Some c ->
  wire (serverConn_ t) ++ out (serverConn_ t) = accepted (serverConn_ t) /\ wire c ++ out c = accepted c.
Proof.
  intros [Hph _] Hc. destruct Hph as [_ Hn _|_ _ _ _ Hn _|d [Hd (Hs & Hu & _) _ _ _]|d Hd [Ho _] [Hl _ _ _ _] _ _|d Hd [Ho _] [Hl _ _ _ _]|d Hd [Ho _] [Ho' _]];
    [congruence..| | | |]; replace d with c in * by congruence; split;
    first [by apply oi_stream|by apply li_stream|by apply li_stream, up_live].
Qed.

Lemma good_flow t c :
  good t -> client_conn t = Some c -> state_ (serverConn_ t) = kConnected -> state_ c = kConnected -> linked (serverConn_ t) c.
Proof.
  intros [Hph _] Hc Ess Esc. destruct Hph as [_ Hn _|_ _ _ _ Hn _|d [Hd Hl _ _ _]|d Hd [Ho _] _ _ _|d Hd [Ho _] _|d Hd [Ho _] _];
    [congruence..| | | |]; [by replace c with d by congruence|pose proof (oi_state _ Ho); congruence..].
Qed.

(** When [s] does not read and [c] has nothing queued, [c] watches for the chance to write, and
    the callback that makes [s] read again is set. *)
Definition resumes (s c : TcpConnection) : Prop :=
  rd s = false -> isWriting (channel_ c) = true /\ writeCompleteCallback_ c = true.

Lemma linked_resumes s c : linked s c -> functors c = [] -> resumes s c.
Proof.
  intros (_ & Hc & Hf & _) Hn Hr. destruct (Hf Hr) as [Hw [Ho|Ho]]; [|rewrite Hn in Ho; by apply elem_of_nil in Ho].
  split; [|done]. destruct (li_mask _ (up_live _ Hc)) as (r & w & Hm & Hw'). rewrite (mask_isWriting _ _ _ Hm). by apply Hw'.
Qed.

(** [C13] The relay passes bytes on, both ways, and fails nowhere.  However the two peers, the
    kernels and the loop interleave, as long as a connection closes only when the other is not
    waiting to be drained and nothing is queued: every step can be taken (only a buffer beyond
    the address space stops it); the bytes read from one connection are exactly those written
    to the other, in its output buffer, or still in the input buffer, in this order; and a
    connection whose reading was stopped for back pressure is one whose peer still has output to
    write and the callback set that starts the reading again, so no direction stalls. *)
Theorem relay_correct b l :
  newBuffer kInitialSize = Ok b -> relay_reachable (fresh_loop b) l ->
  let t := tunnel l in
  let s := serverConn_ t in
  (forall a, relay_enabled a l = true -> starts_empty a -> orderly a t = true ->
     outcome LengthError (relay_perform mark kernel_s kernel_c network_s network_c a l) (relay_reachable (fresh_loop b))) /\
  (forall c, client_conn t = Some c ->
     (reliable kernel_c -> wire c ++ out c ++ inp s = from_server t) /\
     (reliable kernel_s -> wire s ++ out s ++ inp c = from_client t) /\
     (state_ s = kConnected -> state_ c = kConnected -> functors s = [] -> functors c = [] -> resumes s c /\ resumes c s)).
Proof using Hks Hkc Hns Hnc.
  intros Hb Hr t s. subst s t. pose proof (relay_good b l Hb Hr) as Hg. split.
  - intros a Hen Hem Hor. destruct (relay_step a l Hg Hen Hem Hor) as [(l' & E & _)|E]; [|by right].
    left. exists l'. split; [done|]. by eapply RelayStep.
  - intros c Hc. destruct (good_wires _ _ Hg Hc) as [W1 W2]. pose proof (proj2 Hg) as [S1 S2 S3].
    rewrite Hc in S3. destruct S3 as [S3 S4]. rewrite !(assoc_L app), W1, W2. split_and!.
    + intros R. by rewrite S4.
    + intros R. by rewrite S2.
    + intros Es Ec Fs Fc. pose proof (good_flow _ _ Hg Hc Es Ec) as Hl.
      split; apply linked_resumes; [done|done|by apply linked_sym|done].
Qed.
End Tunnel.
