(* ===== verification/TunnelRuns.v ===== *)
(** * Runs of the TCP relay

    Concrete peers, with a mark of four bytes: a run through back pressure in both directions,
    which the relay's theorem covers, and closes that are not orderly, which the tunnel's
    callbacks do not survive. *)
From S2P Require Import Prelude Buffer BufferTheory Channel TcpConnection TcpConnectionTheory Tunnel ConnectionSteps TunnelCorrect.

(** A kernel whose first [n] writes would block. *)
Definition slow (n i : nat) (f : bool) (d : list char) : written :=
  if f then PeerGone else if (i <? n)%nat then WouldBlock else Wrote (zlen d).

Lemma slow_ok n : kernel_ok (slow n).
Proof.
  split; [|done]. intros i f d m. unfold slow. destruct f, (i <? n)%nat; try done. intros [= <-]. pose proof (zlen_nonneg d). lia.
Qed.

Lemma slow_reliable n : reliable (slow n).
Proof. intros i d. unfold slow. by case_match. Qed.

(** A peer that sends the messages [ds], then closes. *)
Definition says (ds : list (list char)) (i : nat) : kernel_readv :=
  fun iov => inr (take (Z.to_nat (foldr Z.add 0 iov)) (nth i ds [])).

Lemma says_ok ds i : readv_contract (says ds i).
Proof.
  intros iov bytes Hf [= <-]. assert (0 <= foldr Z.add 0 iov) by (induction Hf; cbn; lia).
  unfold zlen. rewrite length_take. lia.
Qed.

Section Runs.
Context (mark : Z) (kernel_s kernel_c : nat -> bool -> list char -> written) (network_s network_c : nat -> kernel_readv).

Fixpoint relay_run (l : list relay_action) (s : Loop) : res Loop :=
  match l with
  | [] => Ok s
  | a :: l => if relay_enabled a s then s ← relay_perform mark kernel_s kernel_c network_s network_c a s; relay_run l s
              else Fault (Thrown "not enabled")
  end.

(** Every action is orderly where it is taken. *)
Fixpoint orderly_run (l : list relay_action) (s : Loop) : bool :=
  match l with
  | [] => true
  | a :: l => orderly kernel_s kernel_c network_s network_c a (tunnel s) &&
              match relay_perform mark kernel_s kernel_c network_s network_c a s with Ok s' => orderly_run l s' | Fault _ => true end
  end.

Lemma relay_run_reachable l0 l s s' :
  relay_reachable mark kernel_s kernel_c network_s network_c l0 s -> Forall starts_empty l -> orderly_run l s = true ->
  relay_run l s = Ok s' -> relay_reachable mark kernel_s kernel_c network_s network_c l0 s'.
Proof.
  revert s. induction l as [|a l IH]; intros s Hr Hem Hor; cbn; [by intros [= <-]|].
  apply Forall_cons in Hem as [Ha Hem]. cbn in Hor. apply andb_true_iff in Hor as [Ho Hor].
  destruct (relay_enabled a s) eqn:En; [|done]. destruct (relay_perform _ _ _ _ _ a s) as [s1|] eqn:E; cbn [mbind res_bind]; [|done].
  apply IH; [|done|done]. by eapply RelayStep.
Qed.
End Runs.

Definition empty_buffer : Buffer := small_buffer.

(** What is on each wire and in each output buffer, and which side reads. *)
Definition view (m : res Loop) : option (list char * list char * bool * list char * list char * bool) + fault :=
  match m with
  | Ok l => inl (match client_conn (tunnel l) with
                 | Some c => Some (wire (serverConn_ (tunnel l)), out (serverConn_ (tunnel l)), rd (serverConn_ (tunnel l)), wire c, out c, rd c)
                 | None => None
                 end)
  | Fault f => inr f
  end.

Definition start : Loop := fresh_loop empty_buffer.
Definition run2 := relay_run 4 (slow 1) (slow 1) (says [lit "abcdef"]) (says [lit "uvwxyz"]).

(** Both sides send more than the mark, and neither takes it. *)
Definition clogged : list relay_action :=
  [Accepted; Iterate; Connected empty_buffer empty_buffer; Iterate; Dispatch kServer POLLIN; Dispatch kClient POLLIN;
   Functor kClient; Functor kServer; Iterate].

Example clogged_view : view (run2 clogged start) = inl (Some ([], lit "uvwxyz", false, [], lit "abcdef", false)).
Proof. vm_compute. reflexivity. Qed.

(** Both are drained, both read again; the two peers close, one after the other. *)
Definition unclogged : list relay_action :=
  clogged ++ [Dispatch kServer POLLOUT; Dispatch kClient POLLOUT; Functor kServer; Functor kClient; Iterate].
Definition closed : list relay_action :=
  unclogged ++ [Dispatch kClient POLLIN; Functor kClient; Iterate; Dispatch kServer POLLIN; Functor kServer; Iterate].

Example unclogged_view : view (run2 unclogged start) = inl (Some (lit "uvwxyz", [], true, lit "abcdef", [], true)).
Proof. vm_compute. reflexivity. Qed.

Example closed_states :
  match run2 closed start with
  | Ok l => Some (destroyed (serverConn_ (tunnel l)), entry (tunnel l), match client_conn (tunnel l) with Some c => destroyed c | None => false end)
  | Fault _ => None
  end = Some (true, false, true).
Proof. vm_compute. reflexivity. Qed.

Definition loop_of (m : res Loop) : Loop := match m with Ok l => l | Fault _ => start end.

Lemma starts_empty_run l :
  Forall (fun a => match a with Connected i o => i = empty_buffer /\ o = empty_buffer | _ => True end) l -> Forall starts_empty l.
Proof.
  assert (Hb : inv empty_buffer /\ content empty_buffer = []).
  { destruct (newBuffer_spec kInitialSize) as (b & E & Hi & Hc & _); [by vm_compute..|].
    assert (Es : newBuffer kInitialSize = Ok empty_buffer) by (vm_compute; reflexivity). rewrite Es in E. by injection E as <-. }
  intros Hf. eapply Forall_impl; [exact Hf|]. intros [|i o| | |]; try done. cbn. intros [-> ->]. tauto.
Qed.

Lemma relay_correct_witness :
  let l := loop_of (run2 clogged start) in
  outcome LengthError (relay_perform 4 (slow 1) (slow 1) (says [lit "abcdef"]) (says [lit "uvwxyz"]) (Dispatch kServer POLLOUT) l)
    (relay_reachable 4 (slow 1) (slow 1) (says [lit "abcdef"]) (says [lit "uvwxyz"]) start) /\
  exists c, client_conn (tunnel l) = Some c /\ wire c ++ out c ++ inp (serverConn_ (tunnel l)) = from_server (tunnel l) /\
    resumes (serverConn_ (tunnel l)) c /\ rd (serverConn_ (tunnel l)) = false.
Proof.
  intros l.
  assert (Hr : relay_reachable 4 (slow 1) (slow 1) (says [lit "abcdef"]) (says [lit "uvwxyz"]) start l).
  { apply (relay_run_reachable 4 (slow 1) (slow 1) (says [lit "abcdef"]) (says [lit "uvwxyz"]) start clogged start);
      [constructor|apply starts_empty_run; by repeat constructor|vm_compute; reflexivity..]. }
  destruct (relay_correct 4 (slow 1) (slow 1) (slow_ok 1) (slow_ok 1) (says [lit "abcdef"]) (says [lit "uvwxyz"])
              (says_ok _) (says_ok _) empty_buffer l ltac:(vm_compute; reflexivity) Hr) as [H1 H2].
  split.
  - apply H1; [vm_compute; reflexivity|exact I|vm_compute; reflexivity].
  - eexists. split; [vm_compute; reflexivity|]. destruct (H2 _ ltac:(vm_compute; reflexivity)) as (W & _ & Hres).
    split; [apply W, slow_reliable|]. split; [apply Hres; vm_compute; reflexivity|vm_compute; reflexivity].
Defined.

(** ** Closes that are not orderly *)

(** Both directions are clogged when the server behind the relay resets its connection: teardown
    drops clientConn_, and the write-complete callback of the other side, still set,
    dereferences it. *)
Definition reset_client : list relay_action :=
  clogged ++ [Dispatch kClient (Z.lor POLLHUP POLLERR); Functor kClient; Iterate; Dispatch kServer POLLOUT; Functor kServer].

Example reset_client_crashes : run2 reset_client start = Fault OutOfBounds.
Proof. vm_compute. reflexivity. Qed.

(** The relay's client resets instead: when the other side is drained, reading is started on a
    connection that was destroyed, and whose channel is watched again. *)
Definition reset_server : list relay_action :=
  clogged ++ [Dispatch kServer (Z.lor POLLHUP POLLERR); Functor kServer; Iterate; Dispatch kClient POLLOUT; Functor kClient].

Example reset_server_revives :
  match run2 reset_server start with
  | Ok l => Some (destroyed (serverConn_ (tunnel l)), rd (serverConn_ (tunnel l)))
  | Fault _ => None
  end = Some (true, true).
Proof. vm_compute. reflexivity. Qed.

(** A download is aborted: the client resets while the relay has not read on from the server.
    The connection to the server is shut down but watches nothing, now and later. *)
Definition run_download := relay_run 4 (slow 1) (slow 0) (says []) (says [lit "uvwxyz"]).
Definition aborted : list relay_action :=
  [Accepted; Iterate; Connected empty_buffer empty_buffer; Iterate; Dispatch kClient POLLIN; Functor kServer; Iterate;
   Dispatch kServer (Z.lor POLLHUP POLLERR); Functor kServer; Iterate].

Example aborted_leaks :
  match run_download aborted start with
  | Ok l => match client_conn (tunnel l) with
            | Some c => Some (state_ c, events_ (channel_ c), functors c, destroyed (serverConn_ (tunnel l)), entry (tunnel l))
            | None => None
            end
  | Fault _ => None
  end = Some (kDisconnecting, 0, [], true, false).
Proof. vm_compute. reflexivity. Qed.

(** The high-water functor is queued and the connection closes in the same poll. *)
Definition run_upload := relay_run 4 (slow 0) (slow 1) (says [lit "abcdef"]) (says []).
Definition same_poll : list relay_action :=
  [Accepted; Iterate; Connected empty_buffer empty_buffer; Iterate; Dispatch kServer POLLIN; Dispatch kClient POLLIN; Functor kClient].

Example same_poll_crashes : run_upload same_poll start = Fault OutOfBounds.
Proof. vm_compute. reflexivity. Qed.
