(* ===== verification/WordCount.v ===== *)
(** * Distributed word count (src/wordcount: hash.h, hasher.cc, receiver.cc)

    A hasher counts the words of its files and sends the counts, as lines of text, to the
    receiver a hash of the word chooses; a receiver adds up what the hashers send and writes its
    shard of the counts when all of them have left.

    The thread that reads files and the loop thread share [SendThrottler]: the first waits in
    throttle() while the connection is congested, the second runs the connection's callbacks.
    Its state here is that of both, with the connection of TcpConnection.v and a program counter
    for the file thread.  A hasher has one [SendThrottler] per receiver and its file thread works
    for one at a time; each is stepped on its own here, which allows more.  std::hash and the order in which an unordered map is visited are
    parameters; the limit of a batch is [g_batchSize], that of a map [kMaxHashSize]. *)
From S2P Require Import Prelude Buffer BufferTheory Decimal Channel TcpConnection Multiplexer.

Abbreviation str := (list char) (only parsing).
Abbreviation int64 := (sint 64) (only parsing).

Abbreviation WordCountMap := (gmap str Z) (only parsing).

(** ** Reading files *)

Fixpoint take_word (s : str) : str :=
  match s with c :: s => if isspace c then [] else c :: take_word s | [] => [] end.

(** [in >> word], on what is left of the file. *)
Definition extract (s : str) : option (str * str) :=
  match atoi_blanks s with
  | [] => None
  | s => let word := take_word s in Some (word, drop (length word) s)
  end.

Definition kMaxHashSize : Z := 10 * 1000 * 1000.

Section Files.
Context (limit : Z) (order : WordCountMap -> list (str * Z)).

(** The inner loop of processFile: the counts, what is left, whether [in] is still good. *)
Fixpoint count_words (fuel : nat) (s : str) (wordcounts : WordCountMap) : res (WordCountMap * str * bool) :=
  match fuel with
  | O => Fault OutOfFuel
  | S fuel =>
      match extract s with
      | None => Ok (wordcounts, [], false)
      | Some (word, s) =>
          let wordcounts := <[word := int64 (default 0 (wordcounts !! word) + 1)]> wordcounts in
          if limit <? Z.of_nat (size wordcounts) then Ok (wordcounts, s, true) else count_words fuel s wordcounts
      end
  end.

(** processFile: the calls of send, in order. *)
Fixpoint processFile (fuel : nat) (s : str) : res (list (str * Z)) :=
  match fuel with
  | O => Fault OutOfFuel
  | S fuel =>
      '(wordcounts, s, good) ← count_words (S (length s)) s ∅;
      if (good : bool) then rs ← processFile fuel s; Ok (order wordcounts ++ rs) else Ok (order wordcounts)
  end.

Fixpoint processFiles (files : list str) : res (list (str * Z)) :=
  match files with
  | [] => Ok []
  | f :: files => r ← processFile (S (length f)) f; rs ← processFiles files; Ok (r ++ rs)
  end.
End Files.

(** hash(word) % buckets_.size(): the calls of send a bucket gets. *)
Definition bucket (hash : str -> Z) (n : Z) (i : Z) (rs : list (str * Z)) : res (list (str * Z)) :=
  if n =? 0 then Fault (Thrown "division by zero") else Ok (filter (fun r => hash r.1 mod n = i) rs).

(** ** The list of receivers *)

(** boost::char_separator with the delimiters comma and space, which drops empty tokens. *)
Definition is_sep (c : char) : bool := bool_decide (c = ","%char) || bool_decide (c = " "%char).
Fixpoint tokens (s cur : str) : list str :=
  let emit := match cur with [] => [] | _ => [cur] end in
  match s with
  | [] => emit
  | c :: s => if is_sep c then emit ++ tokens s [] else tokens s (cur ++ [c])
  end.

(** The addresses of WordCountSender's constructor. *)
Fixpoint parse_addresses (toks : list str) : res (list (str * Z)) :=
  match toks with
  | [] => Ok []
  | t :: toks =>
      match find_char ":"%char t with
      | Some i =>
          let port := uint 16 (atoi (drop (Z.to_nat (i + 1)) t)) in
          rest ← parse_addresses toks; Ok ((take (Z.to_nat i) t, port) :: rest)
      | None => Fault AssertFailure
      end
  end.
Definition receivers (s : str) : res (list (str * Z)) := parse_addresses (tokens s []).

(** ** SendThrottler *)

(** What send adds to the buffer for a word. *)
Definition count_text (count : Z) : str := take 63 (chr 9 :: dec count ++ kCRLF).

(** Where the file thread is: connect, send, throttle (testing, in cond_.wait, past it),
    disconnect (the rest of the buffer, shutdown, the latch). *)
Inductive place := Connecting | Next | Throttle | CondWait | Sending | Flush | Closing | LatchWait.

#[global] Instance place_eq_dec : EqDecision place.
Proof. solve_decision. Defined.

Record SendThrottler := mkThrottler {
  conn : TcpConnection;
  conn_ : bool;
  connectLatch_ : nat;
  disconnectLatch_ : nat;
  buffer_ : Buffer;
  congestion_ : bool;
  pc : place;
  todo : list (str * Z)
}.

Definition set_conn_ (c : TcpConnection) (s : SendThrottler) : SendThrottler :=
  mkThrottler c (conn_ s) (connectLatch_ s) (disconnectLatch_ s) (buffer_ s) (congestion_ s) (pc s) (todo s).
Definition set_pc (p : place) (s : SendThrottler) : SendThrottler :=
  mkThrottler (conn s) (conn_ s) (connectLatch_ s) (disconnectLatch_ s) (buffer_ s) (congestion_ s) p (todo s).
Definition set_buffer (b : Buffer) (s : SendThrottler) : SendThrottler :=
  mkThrottler (conn s) (conn_ s) (connectLatch_ s) (disconnectLatch_ s) b (congestion_ s) (pc s) (todo s).
Definition set_congestion (b : bool) (s : SendThrottler) : SendThrottler :=
  mkThrottler (conn s) (conn_ s) (connectLatch_ s) (disconnectLatch_ s) (buffer_ s) b (pc s) (todo s).
Definition set_todo (l : list (str * Z)) (s : SendThrottler) : SendThrottler :=
  mkThrottler (conn s) (conn_ s) (connectLatch_ s) (disconnectLatch_ s) (buffer_ s) (congestion_ s) (pc s) l.

(** Before connect(), with the connection the loop thread is about to make. *)
Definition newThrottler (b : Buffer) (c : TcpConnection) (rs : list (str * Z)) : SendThrottler :=
  mkThrottler c false 1 1 b false Connecting rs.

(** conn_->send(&buffer_) in a thread that is not the loop's. *)
Definition send_buffer (s : SendThrottler) : res SendThrottler :=
  c ← get (if conn_ s then Some (conn s) else None);
  if bool_decide (state_ c = kConnected) then
    data ← read_range (Buffer.buffer_ (buffer_ s)) (peek (buffer_ s)) (peek (buffer_ s) + readableBytes (buffer_ s));
    Ok (set_buffer (retrieveAll (buffer_ s)) (set_conn_ (queueInLoop (TSendInLoop data) c) s))
  else Ok s.

(** The part of send before the test of the batch size. *)
Definition append_record (word : str) (count : Z) (b : Buffer) : res Buffer :=
  b ← append word b; append (count_text count) b.

Section Throttler.
Context (g_batchSize mark : Z) (kernel : nat -> bool -> list char -> written) (network : nat -> kernel_readv).

(** The file thread's next step; it does not take one in cond_.wait or before a latch opens. *)
Definition file_step (s : SendThrottler) : res SendThrottler :=
  match pc s with
  | Connecting => Ok (set_pc Next s)
  | Next =>
      match todo s with
      | [] => Ok (set_pc Flush s)
      | (word, count) :: rest =>
          b ← append_record word count (buffer_ s);
          let s := set_todo rest (set_buffer b s) in
          Ok (if g_batchSize <=? readableBytes b then set_pc Throttle s else s)
      end
  | Throttle => Ok (set_pc (if congestion_ s then CondWait else Sending) s)
  | CondWait => Ok s
  | Sending => s ← send_buffer s; Ok (set_pc Next s)
  | Flush => s ← (if 0 <? readableBytes (buffer_ s) then send_buffer s else Ok s); Ok (set_pc Closing s)
  | Closing =>
      c ← get (if conn_ s then Some (conn s) else None);
      Ok (set_pc LatchWait (set_conn_ (shutdown false c) s))
  | LatchWait => Ok s
  end.

(** The callbacks, in the loop thread. *)
Definition onConnectionUp (s : SendThrottler) : SendThrottler :=
  let c := setWriteCompleteCallback true (setHighWaterMarkCallback mark (conn s)) in
  mkThrottler c true (connectLatch_ s - 1) (disconnectLatch_ s) (buffer_ s) (congestion_ s) (pc s) (todo s).
Definition onConnectionDown (s : SendThrottler) : SendThrottler :=
  mkThrottler (conn s) false (connectLatch_ s) (disconnectLatch_ s - 1) (buffer_ s) (congestion_ s) (pc s) (todo s).
Definition onHighWaterMark (s : SendThrottler) : SendThrottler := set_congestion true s.
Definition onWriteComplete (s : SendThrottler) : SendThrottler :=
  let oldCong := congestion_ s in
  let s := set_congestion false s in
  if oldCong && bool_decide (pc s = CondWait) then set_pc Throttle s else s.

(** client_ has the default message callback, which drops what arrives. *)
Definition on_event (e : event) (s : SendThrottler) : SendThrottler :=
  match e with
  | EvUp => onConnectionUp s
  | EvDown => onConnectionDown s
  | EvMessage => set_conn_ (set_input (retrieveAll (inputBuffer_ (conn s))) (conn s)) s
  | EvHighWaterMark _ => onHighWaterMark s
  | EvWriteComplete => onWriteComplete s
  | EvClosed => s
  end.

Definition loop_step (a : action) (s : SendThrottler) : res SendThrottler :=
  c ← perform kernel network no_calls a (conn s);
  Ok (foldl (fun s e => on_event e s) (set_conn_ c s) (drop (length (trace (conn s))) (trace c))).

Inductive hasher_action :=
| FileStep
| Wakeup              (* cond_.wait returns without a notify *)
| LoopStep (a : action).

Definition hasher_perform (a : hasher_action) (s : SendThrottler) : res SendThrottler :=
  match a with
  | FileStep => file_step s
  | Wakeup => Ok (set_pc Throttle s)
  | LoopStep a => loop_step a s
  end.

Definition hasher_enabled (a : hasher_action) (s : SendThrottler) : bool :=
  match a with
  | FileStep =>
      match pc s with
      | Connecting => bool_decide (connectLatch_ s = 0%nat)
      | CondWait | LatchWait => false
      | _ => true
      end
  | Wakeup => bool_decide (pc s = CondWait)
  | LoopStep a =>
      match a with Establish | Poll _ | RunFunctor => enabled a (conn s) | _ => false end
  end.
End Throttler.

(** ** The receiver *)

Definition find_tab (line : str) : option Z := find_char (chr 9) line.

(** atoll on the bytes of the buffer from the tab on; digits up to the end of the storage would
    be read beyond it. *)
Definition atoll (s : str) : res Z :=
  let r := match atoi_blanks s with "-"%char :: r => r | "+"%char :: r => r | r => r end in
  if bool_decide (leading_digits r = r) then Fault OutOfBounds
  else Ok (Z.max (- 2 ^ 63) (Z.min (2 ^ 63 - 1) (atoi s))).

Record WordCountReceiver := mkReceiver {
  senders_ : Z;
  wordcounts_ : WordCountMap;
  shard : option WordCountMap;
  quitted : bool
}.

Definition start_receiver (senders : Z) : WordCountReceiver := mkReceiver senders ∅ None false.

Definition add_count (word : str) (cnt : Z) (r : WordCountReceiver) : WordCountReceiver :=
  mkReceiver (senders_ r) (<[word := int64 (default 0 (wordcounts_ r !! word) + cnt)]> (wordcounts_ r)) (shard r) (quitted r).

(** onMessage; [true] in the answer when the connection was shut down. *)
Fixpoint onMessage (fuel : nat) (b : Buffer) (shut : bool) (r : WordCountReceiver) : res (WordCountReceiver * Buffer * bool) :=
  match fuel with
  | O => Fault OutOfFuel
  | S fuel =>
      crlf ← findCRLF b;
      match crlf with
      | None => Ok (r, b, shut)
      | Some crlf =>
          line ← read_range (Buffer.buffer_ b) (peek b) crlf;
          match find_tab line with
          | Some i =>
              rest ← read_range (Buffer.buffer_ b) (peek b + i) (zlen (Buffer.buffer_ b));
              cnt ← atoll rest;
              b ← retrieveUntil (crlf + 2) b;
              onMessage fuel b shut (add_count (take (Z.to_nat i) line) cnt r)
          | None => b ← retrieveUntil (crlf + 2) b; onMessage fuel b true r
          end
      end
  end.

(** A connection goes down; the last one makes the receiver write its shard and quit. *)
Definition onSenderDown (r : WordCountReceiver) : WordCountReceiver :=
  let senders := senders_ r - 1 in
  if senders =? 0 then mkReceiver senders (wordcounts_ r) (Some (wordcounts_ r)) true
  else mkReceiver senders (wordcounts_ r) (shard r) (quitted r).

(** output(): the text of the shard. *)
Definition output_text (order : WordCountMap -> list (str * Z)) (m : WordCountMap) : str :=
  concat ((fun r => r.1 ++ [chr 9] ++ dec r.2 ++ [chr 10]) <$> order m).
