(* ===== verification/WordCountTheory.v ===== *)
(** * Counting words: files, records and lines

    The records processFile sends add up to the words of the file; a receiver that is given
    their lines, cut anywhere and mixed with those of other hashers, adds them up again. *)
From S2P Require Import Prelude Buffer BufferTheory Decimal Multiplexer MultiplexerTheory WordCount.

(** ** The words of a file *)

Fixpoint words_from (cur s : str) : list str :=
  match s with
  | [] => match cur with [] => [] | _ => [cur] end
  | c :: s => if isspace c then match cur with [] => words_from [] s | _ => cur :: words_from [] s end else words_from (cur ++ [c]) s
  end.
Definition words : str -> list str := words_from [].

Definition count (w : str) (l : list str) : Z := zlen (filter (fun x => x = w) l).

Lemma occurs_app w l1 l2 : count w (l1 ++ l2) = count w l1 + count w l2.
Proof. unfold count. by rewrite filter_app, zlen_app. Qed.

Lemma occurs_cons w x l : count w (x :: l) = (if decide (x = w) then 1 else 0) + count w l.
Proof. unfold count. rewrite filter_cons. case_decide; [by rewrite zlen_cons|done]. Qed.

Lemma count_bound w l : 0 <= count w l <= zlen l.
Proof. unfold count, zlen. pose proof (length_filter (fun x => x = w) l). lia. Qed.

Lemma words_blanks s : words (atoi_blanks s) = words s.
Proof. induction s as [|c s IH]; cbn; [done|]. unfold words in *. cbn. destruct (isspace c) eqn:E; [done|]. cbn. by rewrite E. Qed.

Lemma words_take cur s :
  cur ++ take_word s <> [] -> words_from cur s = (cur ++ take_word s) :: words (drop (length (take_word s)) s).
Proof.
  revert cur. induction s as [|c s IH]; intros cur Hn; cbn in *.
  - rewrite app_nil_r in *. by destruct cur.
  - destruct (isspace c) eqn:E; cbn.
    + rewrite app_nil_r in *. unfold words. cbn. rewrite E. by destruct cur.
    + rewrite IH; rewrite <- (assoc_L app); [done|]. cbn. by intros [_ ?]%app_eq_nil.
Qed.

Lemma take_word_ok s : Forall (fun c => isspace c = false) (take_word s).
Proof. induction s as [|c s IH]; cbn; [done|]. destruct (isspace c) eqn:E; [done|]. by constructor. Qed.

Lemma take_word_length s : (length (take_word s) <= length s)%nat.
Proof. induction s as [|c s IH]; cbn; [done|]. destruct (isspace c); cbn; lia. Qed.

Lemma blanks_length s : (length (atoi_blanks s) <= length s)%nat.
Proof. induction s as [|c s IH]; cbn; [done|]. destruct (isspace c); cbn; lia. Qed.

Lemma blanks_head s c r : atoi_blanks s = c :: r -> isspace c = false.
Proof.
  induction s as [|d s IH]; cbn; [done|]. destruct (isspace d) eqn:E; [done|]. by intros [= <- <-].
Qed.

Definition word_ok (w : str) : Prop := w <> [] /\ Forall (fun c => isspace c = false) w /\ zlen w <= max_size.

Lemma extract_spec s :
  zlen s < 2 ^ 63 ->
  match extract s with
  | None => words s = []
  | Some (w, s') => words s = w :: words s' /\ word_ok w /\ (length s' < length s)%nat
  end.
Proof.
  intros Hz. unfold extract. rewrite <- (words_blanks s). pose proof (blanks_length s) as Hl. destruct (atoi_blanks s) as [|c r] eqn:E; [done|].
  apply blanks_head in E. assert (Hn : take_word (c :: r) <> []) by (cbn; by rewrite E). split_and!.
  - by apply (words_take []).
  - split_and!; [done|apply take_word_ok|]. pose proof (take_word_length (c :: r)). unfold zlen, max_size in *. lia.
  - rewrite length_drop. cbn [length] in *. destruct (take_word (c :: r)); [done|]. cbn [length]. lia.
Qed.

Lemma words_length s : zlen (words s) <= zlen s.
Proof.
  assert (H : forall cur, (length (words_from cur s) <= length s + match cur with [] => 0 | _ => 1 end)%nat).
  { induction s as [|c s IH]; intros cur; cbn; [by destruct cur|]. destruct (isspace c).
    - specialize (IH []). destruct cur; cbn in *; lia.
    - specialize (IH (cur ++ [c])). destruct cur; cbn in *; lia. }
  specialize (H []). cbn in H. unfold words, zlen. lia.
Qed.

(** ** Totals *)

Fixpoint total (w : str) (rs : list (str * Z)) : Z :=
  match rs with [] => 0 | r :: rs => (if decide (r.1 = w) then r.2 else 0) + total w rs end.

Lemma total_app w l1 l2 : total w (l1 ++ l2) = total w l1 + total w l2.
Proof. induction l1 as [|r l1 IH]; cbn; [done|]. rewrite IH. lia. Qed.

#[export] Instance total_proper w : Proper ((≡ₚ) ==> (=)) (total w).
Proof. induction 1; cbn; lia. Qed.

Lemma total_map (w : str) (m : WordCountMap) : total w (map_to_list m) = default 0 (m !! w).
Proof.
  induction m as [|k v m Hk IH] using map_ind; [by rewrite map_to_list_empty|].
  rewrite map_to_list_insert by done. cbn. rewrite IH. case_decide as E; [subst k|].
  - rewrite lookup_insert_eq, Hk. cbn. lia.
  - by rewrite lookup_insert_ne.
Qed.

Definition rec_ok (r : str * Z) : Prop := word_ok r.1 /\ 0 < r.2 < 2 ^ 63.

(** ** processFile *)

Definition map_ok (m : WordCountMap) : Prop := forall w v, m !! w = Some v -> word_ok w /\ 0 < v < 2 ^ 63.

Section Files.
Context (limit : Z) (order : WordCountMap -> list (str * Z)) (Horder : forall m, order m ≡ₚ map_to_list m).

Lemma add_word w m :
  map_ok m -> word_ok w -> default 0 (m !! w) + 1 < 2 ^ 63 ->
  let m' := <[w := sint 64 (default 0 (m !! w) + 1)]> m in
  map_ok m' /\ forall x, default 0 (m' !! x) = default 0 (m !! x) + (if decide (w = x) then 1 else 0).
Proof.
  intros Hm Hw Hb m'.
  assert (H0 : 0 <= default 0 (m !! w)) by (destruct (m !! w) eqn:E; cbn; [apply Hm in E; lia|lia]).
  unfold m'. rewrite sint_small by (done || (split; lia)). split.
  - intros x v. destruct (decide (w = x)) as [<-|Hne]; [|rewrite lookup_insert_ne by done; apply Hm].
    rewrite lookup_insert_eq. intros [= <-]. split; [done|lia].
  - intros x. case_decide as E; [subst x; by rewrite lookup_insert_eq|]. rewrite lookup_insert_ne by done. lia.
Qed.

Lemma count_words_ok fuel s m :
  (length s < fuel)%nat -> zlen s < 2 ^ 63 -> map_ok m -> (forall w, default 0 (m !! w) + count w (words s) < 2 ^ 63) ->
  exists m' s' good seen, count_words limit fuel s m = Ok (m', s', good) /\ words s = seen ++ words s' /\ map_ok m' /\
    (forall w, default 0 (m' !! w) = default 0 (m !! w) + count w seen) /\
    (if good : bool then (length s' < length s)%nat else words s' = []).
Proof.
  revert s m. induction fuel as [|fuel IH]; intros s m Hf Hz Hm Hb; [lia|]. cbn [count_words].
  pose proof (extract_spec s Hz) as He. destruct (extract s) as [[w s1]|].
  - destruct He as (Hw & Hok & Hl). rewrite Hw in Hb.
    destruct (add_word w m Hm Hok) as [Hm1 Ht1].
    { specialize (Hb w). rewrite occurs_cons, decide_True in Hb by done. pose proof (count_bound w (words s1)). lia. }
    set (m1 := <[w := _]> m) in *. case_match.
    + exists m1, s1, true, [w]. split_and!; [done|done|done| |done]. intros x. rewrite Ht1, occurs_cons. by case_decide.
    + destruct (IH s1 m1) as (m' & s' & good & seen & -> & Hs & Hm' & Ht & Hg); [lia|unfold zlen in *; lia|done| |].
      { intros x. rewrite Ht1. specialize (Hb x). rewrite occurs_cons in Hb. repeat case_decide; done || lia. }
      exists m', s', good, (w :: seen). split_and!; [done|by rewrite Hw, Hs|done| |destruct good; [lia|done]].
      intros x. rewrite Ht, Ht1, occurs_cons. repeat case_decide; done || lia.
  - exists m, [], false, []. split_and!; try done. intros w. change (count w []) with 0. lia.
Qed.

Lemma order_ok m : map_ok m -> Forall rec_ok (order m).
Proof using Horder.
  intros Hm. rewrite Horder. apply Forall_forall. intros [w v] Hin%elem_of_map_to_list. by apply Hm.
Qed.

Lemma processFile_ok fuel s :
  (length s < fuel)%nat -> zlen s < 2 ^ 63 ->
  exists rs, processFile limit order fuel s = Ok rs /\ Forall rec_ok rs /\ forall w, total w rs = count w (words s).
Proof using Horder.
  revert s. induction fuel as [|fuel IH]; intros s Hf Hz; [lia|]. cbn [processFile].
  destruct (count_words_ok (S (length s)) s ∅) as (m & s' & good & seen & -> & Hs & Hm & Ht & Hg); [lia|done|by intros w v|..].
  { intros w. rewrite lookup_empty. cbn [default]. pose proof (count_bound w (words s)). pose proof (words_length s). lia. }
  assert (Htot : forall w, total w (order m) = count w seen).
  { intros w. rewrite (Horder m), total_map, Ht, lookup_empty. done. }
  cbn [mbind res_bind]. destruct good.
  - destruct (IH s') as (rs & -> & Hok & Hrs); [lia|unfold zlen in *; lia|]. cbn [mbind res_bind].
    eexists. split; [done|]. split; [apply Forall_app; split; [by apply order_ok|done]|].
    intros w. rewrite total_app, Htot, Hrs, Hs, occurs_app. done.
  - eexists. split; [done|]. split; [by apply order_ok|]. intros w. by rewrite Htot, Hs, Hg, app_nil_r.
Qed.

(** What a hasher sends for its files adds up to the words in them. *)
Lemma processFiles_ok files :
  Forall (fun f => zlen f < 2 ^ 63) files ->
  exists rs, processFiles limit order files = Ok rs /\ Forall rec_ok rs /\ forall w, total w rs = count w (concat (words <$> files)).
Proof using Horder.
  induction 1 as [|f files Hf _ (rs & E & Hok & Ht)]; cbn [processFiles]; [by exists []|].
  destruct (processFile_ok (S (length f)) f) as (r & -> & Hok1 & Ht1); [lia|done|]. cbn [mbind res_bind]. rewrite E. cbn [mbind res_bind].
  eexists. split; [done|]. split; [by apply Forall_app|]. intros w. cbn. by rewrite total_app, occurs_app, Ht1, Ht.
Qed.
End Files.

(** A word's records go to one bucket. *)
Lemma total_bucket hash n i w rs :
  total w (filter (fun r => hash r.1 mod n = i) rs) = if decide (hash w mod n = i) then total w rs else 0.
Proof.
  induction rs as [|[x v] rs IH]; [by case_decide|]. rewrite filter_cons. cbn [fst total snd].
  destruct (decide (hash x mod n = i)) as [E|E]; cbn [total fst snd]; rewrite IH; repeat case_decide; subst; done || lia.
Qed.

(** ** Lines *)

Definition line (r : str * Z) : str := r.1 ++ count_text r.2.
Definition lines (rs : list (str * Z)) : str := concat (line <$> rs).

(** The part of a line before its end. *)
Definition stem (r : str * Z) : str := r.1 ++ chr 9 :: dec r.2.

Lemma line_eq r : rec_ok r -> line r = stem r ++ kCRLF.
Proof.
  intros [_ Hc]. unfold line, stem, count_text. rewrite <- (assoc_L app). f_equal. cbn [app]. apply take_ge.
  pose proof (zlen_dec r.2 20 ltac:(lia)) as Hz. unfold zlen in Hz. cbn [length]. rewrite length_app.
  change (length kCRLF) with 2%nat. lia.
Qed.

Lemma digit_not_space c : isdigit c = true -> isspace c = false /\ c <> chr 13.
Proof.
  intros Hd. split; [|by intros ->]. unfold isdigit, isspace in *. destruct (ord c =? 32) eqn:E; lia.
Qed.

Lemma dec_digits c : 0 <= c -> Forall (fun x => isdigit x = true) (dec c) /\ dec c <> [].
Proof. intros Hc. rewrite dec_nonneg by done. split; [by apply digits_digit|apply digits_nonempty; lia]. Qed.

Lemma no_spaces_in w c : Forall (fun c => isspace c = false) w -> isspace c = true -> c ∉ w.
Proof. intros Hw Hc Hin. rewrite Forall_forall in Hw. rewrite Hw in Hc by done. done. Qed.

Lemma stem_line r rest : rec_ok r -> split_line (line r ++ rest) = Some (stem r, rest).
Proof.
  intros Hr. rewrite line_eq by done. rewrite <- (assoc_L app). apply split_line_text. destruct Hr as [(_ & Hw & _) Hc].
  unfold stem. rewrite not_elem_of_app, not_elem_of_cons. split_and!; [by eapply no_spaces_in|done|].
  intros Hin. destruct (dec_digits r.2) as [Hd _]; [lia|]. rewrite Forall_forall in Hd.
  by destruct (digit_not_space _ (Hd _ Hin)).
Qed.

Definition partial (t : str) : Prop := split_line t = None.

Lemma partial_line_prefix x y : partial (x ++ y) -> partial x.
Proof. unfold partial. destruct (split_line x) as [[l r]|] eqn:E; [|done]. by rewrite (split_line_app x y l r E). Qed.

Lemma partial_line r x y : rec_ok r -> x ++ y = line r -> y <> [] -> partial x.
Proof.
  intros Hr E Hy. unfold partial. destruct (split_line x) as [[l r']|] eqn:Ex; [|done].
  pose proof (stem_line r [] Hr) as Hs. rewrite app_nil_r, <- E, (split_line_app x y l r' Ex) in Hs.
  injection Hs. intros Hn. by apply app_nil in Hn as [_ ?].
Qed.

Lemma partial_lines rs t : Forall rec_ok rs -> partial t -> t = lines rs -> rs = [].
Proof.
  intros Hok Hp ->. destruct rs as [|r rs]; [done|]. apply Forall_cons in Hok as [Hr _].
  unfold partial, lines in Hp. cbn in Hp. by rewrite stem_line in Hp.
Qed.

(** ** The receiver's loop *)

Lemma atoll_text c t : 0 <= c < 2 ^ 63 -> atoll (chr 9 :: dec c ++ chr 13 :: t) = Ok c.
Proof.
  intros Hc. destruct (dec_digits c) as [Hd Hn]; [lia|].
  assert (Hb : atoi_blanks (chr 9 :: dec c ++ chr 13 :: t) = dec c ++ chr 13 :: t).
  { cbn. destruct (dec c) as [|x s] eqn:E; [done|]. apply Forall_cons in Hd as [Hx _]. cbn. by rewrite (proj1 (digit_not_space x Hx)). }
  assert (Ha : atoi (chr 9 :: dec c ++ chr 13 :: t) = c).
  { transitivity (atoi (dec c ++ chr 13 :: t)); [|by apply atoi_dec; [lia|]]. unfold atoi at 1. rewrite Hb.
    unfold atoi. destruct (dec c) as [|x s]; [done|]. apply Forall_cons in Hd as [Hx _]. cbn [app atoi_blanks]. by rewrite (proj1 (digit_not_space x Hx)). }
  unfold atoll. rewrite Ha, Hb. cbv zeta.
  assert (Hr : (match dec c ++ chr 13 :: t with "-"%char :: r => r | "+"%char :: r => r | r => r end) = dec c ++ chr 13 :: t).
  { destruct (dec c) as [|x s]; [done|]. apply Forall_cons in Hd as [Hx _]. cbn [app]. by destruct x as [[] [] [] [] [] [] [] []]. }
  rewrite Hr, leading_digits_app by done. rewrite bool_decide_false.
  - f_equal. lia.
  - intros Hl%(f_equal length). rewrite length_app in Hl. cbn in Hl. lia.
Qed.

Fixpoint add_counts (rs : list (str * Z)) (r : WordCountReceiver) : WordCountReceiver :=
  match rs with [] => r | (w, c) :: rs => add_counts rs (add_count w c r) end.

(** What the storage of a buffer holds from a place in its content on. *)
Lemma storage_from b x y :
  inv b -> content b = x ++ y -> exists t, read_range (Buffer.buffer_ b) (peek b + zlen x) (zlen (Buffer.buffer_ b)) = Ok (y ++ t).
Proof.
  intros Hi Hc. pose proof (zlen_content b Hi) as Hz. rewrite Hc, zlen_app in Hz. pose proof (zlen_nonneg x). pose proof (zlen_nonneg y).
  rewrite read_range_ok by (buffer_unfold; lia). eexists (slice (writerIndex_ b) (zlen (Buffer.buffer_ b)) (Buffer.buffer_ b)). f_equal.
  rewrite <- (slice_app _ (writerIndex_ b)) by (buffer_unfold; lia). f_equal.
  rewrite (slice_sub (readerIndex_ b) (writerIndex_ b)) by (buffer_unfold; lia). fold (content b). rewrite Hc, slice_app_r by (buffer_unfold; lia).
  replace (_ - _ - _) with 0 by (buffer_unfold; lia). replace (writerIndex_ b - readerIndex_ b - zlen x) with (zlen y) by lia. apply slice_full.
Qed.

Lemma onMessage_lines fuel rs t b shut r :
  inv b -> content b = lines rs ++ t -> Forall rec_ok rs -> partial t -> (length rs < fuel)%nat ->
  exists b', onMessage fuel b shut r = Ok (add_counts rs r, b', shut) /\ inv b' /\ content b' = t.
Proof.
  revert rs b r. induction fuel as [|fuel IH]; intros rs b r Hi Hc Hok Ht Hf; [lia|]. cbn [onMessage].
  pose proof (line_of_buffer b Hi) as Hl. rewrite Hc in Hl. destruct rs as [|[w c] rs].
  - cbn in Hl, Hc. unfold partial in Ht. rewrite Ht in Hl. rewrite Hl. by exists b.
  - apply Forall_cons in Hok as [Hr Hok]. unfold lines in Hl, Hc. cbn [fmap list_fmap concat] in Hl, Hc. fold (lines rs) in Hl, Hc.
    rewrite <- (assoc_L app) in Hl, Hc. rewrite (stem_line _ _ Hr) in Hl. destruct Hl as (p & b1 & -> & Hrd & Hu & Hi1 & Hc1).
    cbn [mbind res_bind]. rewrite Hrd. cbn [mbind res_bind]. pose proof Hr as [(Hwn & Hw & _) Hcr]. cbn [fst snd] in *.
    unfold find_tab, stem. cbn [fst snd]. rewrite find_char_app by (by eapply no_spaces_in).
    rewrite line_eq in Hc by done. unfold stem in Hc. cbn [fst snd] in Hc. rewrite <- !(assoc_L app) in Hc.
    destruct (storage_from b w _ Hi Hc) as (junk & ->). cbn [mbind res_bind app]. change kCRLF with [chr 13; chr 10].
    rewrite <- (assoc_L app). cbn [app]. rewrite atoll_text by lia. cbn [mbind res_bind]. rewrite Hu. cbn [mbind res_bind].
    replace (take (Z.to_nat (zlen w)) (w ++ chr 9 :: dec c)) with w by (unfold zlen; by rewrite Nat2Z.id, take_app_length).
    cbn [length] in Hf. apply (IH rs b1); [done|done|done|done|lia].
Qed.
