(* ===== verification/WordCountReceive.v ===== *)
(** * The receivers of the word count

    A receiver and the connections of its hashers: each delivers its bytes in pieces of any
    size, in any order among the connections, and leaves when it has delivered all. *)
From S2P Require Import Prelude Buffer BufferTheory WordCount WordCountTheory.

Lemma lookup_total_perm {A} (m : gmap Z (list A)) k l :
  m !! k = Some l -> concat (map_to_list m).*2 ≡ₚ l ++ concat (map_to_list (delete k m)).*2.
Proof.
  intros Hk. rewrite <- (insert_delete_id m k l Hk) at 1.
  rewrite (map_to_list_insert (delete k m) k l) by apply lookup_delete_eq. done.
Qed.

Record Net := mkNet { rcv : WordCountReceiver; bufs : gmap Z Buffer; wires : gmap Z str }.

Inductive net_event := Deliver (k : Z) (n : nat) | Leave (k : Z).

Definition net_step (e : net_event) (s : Net) : res Net :=
  match e with
  | Deliver k n =>
      b ← get (bufs s !! k);
      w ← get (wires s !! k);
      b ← append (take n w) b;
      '(r, b, _) ← onMessage (S (Z.to_nat (readableBytes b))) b false (rcv s);
      Ok (mkNet r (<[k := b]> (bufs s)) (<[k := drop n w]> (wires s)))
  | Leave k => Ok (mkNet (onSenderDown (rcv s)) (delete k (bufs s)) (delete k (wires s)))
  end.

Fixpoint net_run (es : list net_event) (s : Net) : res Net :=
  match es with [] => Ok s | e :: es => s ← net_step e s; net_run es s end.

(** A connection delivers while it has bytes and leaves when it has none. *)
Definition net_legal (e : net_event) (s : Net) : bool :=
  match e with
  | Deliver k n => match wires s !! k with Some w => (0 <? n)%nat && (n <=? length w)%nat && (zlen w <=? max_size) | None => false end
  | Leave k => bool_decide (wires s !! k = Some [])
  end.

Fixpoint net_legal_run (es : list net_event) (s : Net) : bool :=
  match es with
  | [] => true
  | e :: es => net_legal e s && match net_step e s with Ok s => net_legal_run es s | Fault _ => true end
  end.

(** ** Conservation of counts *)

Definition counts_ok (acc : list (str * Z)) (m : WordCountMap) : Prop :=
  map_ok m /\ forall w, default 0 (m !! w) = total w acc.

Lemma total_nonneg w rs : Forall rec_ok rs -> 0 <= total w rs.
Proof. induction 1 as [|[y d] rs [_ Hd] _ IH]; cbn in *; [lia|]. case_decide; lia. Qed.

Lemma add_counts_ok rs acc r :
  Forall rec_ok rs -> (forall w, total w (acc ++ rs) < 2 ^ 63) -> counts_ok acc (wordcounts_ r) ->
  counts_ok (acc ++ rs) (wordcounts_ (add_counts rs r)) /\ senders_ (add_counts rs r) = senders_ r /\
  shard (add_counts rs r) = shard r /\ quitted (add_counts rs r) = quitted r.
Proof.
  revert acc r. induction rs as [|[w c] rs IH]; intros acc r Hok Hb [Hm Ht]; [by rewrite app_nil_r|].
  apply Forall_cons in Hok as [[Hw Hc] Hok]. cbn [add_counts fst snd] in *.
  pose proof (Hb w) as Hbw. rewrite total_app in Hbw. cbn in Hbw. rewrite decide_True in Hbw by done. pose proof (total_nonneg w rs Hok).
  assert (H0 : 0 <= default 0 (wordcounts_ r !! w)) by (destruct (wordcounts_ r !! w) eqn:E; cbn; [apply Hm in E; lia|lia]).
  rewrite <- Ht in Hbw. destruct (IH (acc ++ [(w, c)]) (add_count w c r) Hok) as (K1 & K2).
  - intros x. by rewrite <- (assoc_L app).
  - cbn [add_count wordcounts_]. rewrite sint_small by (done || (split; lia)). split.
    + intros x v. destruct (decide (w = x)) as [<-|Hne]; [|rewrite lookup_insert_ne by done; apply Hm].
      rewrite lookup_insert_eq. intros [= <-]. split; [done|lia].
    + intros x. rewrite total_app. cbn. destruct (decide (w = x)) as [<-|Hne].
      * rewrite lookup_insert_eq. cbn. rewrite Ht. lia.
      * rewrite lookup_insert_ne, Ht by done. lia.
  - rewrite <- (assoc_L app) in K1. done.
Qed.

(** [rest]: the records of each connection not counted yet; [acc]: those counted. *)
Record net_inv (all acc : list (str * Z)) (rest : gmap Z (list (str * Z))) (s : Net) : Prop := {
  ni_all : acc ++ concat (map_to_list rest).*2 ≡ₚ all;
  ni_counts : counts_ok acc (wordcounts_ (rcv s));
  ni_conns : forall k, match rest !! k, bufs s !! k, wires s !! k with
                       | Some l, Some b, Some w => inv b /\ partial (content b) /\ content b ++ w = lines l /\ Forall rec_ok l
                       | None, None, None => True
                       | _, _, _ => False
                       end;
  ni_senders : senders_ (rcv s) = Z.of_nat (size rest);
  ni_shard : if decide (size rest = 0%nat) then True else shard (rcv s) = None /\ quitted (rcv s) = false
}.

Lemma ni_lookup all acc rest s k w :
  net_inv all acc rest s -> wires s !! k = Some w ->
  exists l b, rest !! k = Some l /\ bufs s !! k = Some b /\ inv b /\ partial (content b) /\ content b ++ w = lines l /\ Forall rec_ok l.
Proof.
  intros Hn Hw. pose proof (ni_conns _ _ _ _ Hn k) as Hk. rewrite Hw in Hk.
  destruct (rest !! k) as [l|], (bufs s !! k) as [b|]; try done. by exists l, b.
Qed.

Lemma lines_length rs : Forall rec_ok rs -> (length rs <= length (lines rs))%nat.
Proof.
  induction 1 as [|r rs Hr _ IH]; [done|]. unfold lines in *. cbn. rewrite length_app, (line_eq r Hr), length_app.
  change (length kCRLF) with 2%nat. lia.
Qed.

Lemma deliver_ok all acc rest s k n :
  Forall rec_ok all -> (forall w, total w all < 2 ^ 63) -> net_inv all acc rest s -> net_legal (Deliver k n) s = true ->
  outcome LengthError (net_step (Deliver k n) s) (fun s' => exists acc' rest', net_inv all acc' rest' s').
Proof.
  intros Hokall Hall Hn Hle. cbn [net_legal net_step] in *. destruct (wires s !! k) as [w|] eqn:Hw; [|done].
  apply andb_true_iff in Hle as [[H1 H2]%andb_true_iff H3].
  destruct (ni_lookup _ _ _ _ _ _ Hn Hw) as (l & b & Hl & Hb & Hi & Hp & Hc & Hok). rewrite Hb. cbn [get mbind res_bind].
  destruct (append_outcome (take n w) b Hi) as [(b1 & -> & Hi1 & Hc1)|[-> _]]; [unfold zlen in *; rewrite length_take; lia| |by right].
  cbn [mbind res_bind].
  destruct (cut_stream line rec_ok partial partial_line_prefix partial_line l [] (content b ++ take n w) (drop n w)) as (l1 & l2 & t & -> & Hx & Ht & Hpt);
    [done|done|rewrite <- (assoc_L app), take_drop, Hc; by rewrite app_nil_r|].
  apply Forall_app in Hok as [Hok1 Hok2]. rewrite app_nil_r in Ht.
  destruct (onMessage_lines (S (Z.to_nat (readableBytes b1))) l1 t b1 false (rcv s)) as (b2 & -> & Hi2 & Hc2); [done|by rewrite Hc1|done|done| |].
  { rewrite readableBytes_eq, <- zlen_content by done. rewrite Hc1, Hx, zlen_app. pose proof (zlen_nonneg t).
    pose proof (lines_length l1 Hok1). fold (lines l1). unfold zlen in *. lia. }
  cbn [mbind res_bind]. apply outcome_Ok. destruct Hn as [N1 N2 N3 N4 N5].
  assert (Hperm : (acc ++ l1) ++ concat (map_to_list (<[k:=l2]> rest)).*2 ≡ₚ all).
  { rewrite (lookup_total_perm (<[k:=l2]> rest) k l2) by apply lookup_insert_eq. rewrite delete_insert_eq.
    rewrite <- N1, (lookup_total_perm rest k (l1 ++ l2) Hl). by rewrite <- !(assoc_L app). }
  destruct (add_counts_ok l1 acc (rcv s) Hok1) as (K1 & K2 & K3 & K4); [|done|].
  { intros x. specialize (Hall x). rewrite <- Hperm, total_app in Hall.
    pose proof Hokall as Hr. rewrite <- Hperm, Forall_app in Hr. pose proof (total_nonneg x _ (proj2 Hr)). lia. }
  exists (acc ++ l1), (<[k:=l2]> rest). split; [done|done| | |].
  - intros k'. cbn [bufs wires]. destruct (decide (k' = k)) as [->|Hne].
    + rewrite !lookup_insert_eq. rewrite Hc2. done.
    + rewrite !lookup_insert_ne by done. apply N3.
  - cbn [rcv]. rewrite K2, N4. by rewrite map_size_insert_Some by (by eexists).
  - cbn [rcv]. rewrite K3, K4, map_size_insert_Some by (by eexists). done.
Qed.

Lemma leave_ok all acc rest s k :
  net_inv all acc rest s -> net_legal (Leave k) s = true ->
  exists s' rest', net_step (Leave k) s = Ok s' /\ net_inv all acc rest' s' /\ size rest = S (size rest') /\
    (if decide (size rest' = 0%nat) then shard (rcv s') = Some (wordcounts_ (rcv s')) /\ quitted (rcv s') = true else True).
Proof.
  intros Hn Hle. cbn [net_legal net_step] in *. apply bool_decide_eq_true in Hle.
  destruct (ni_lookup _ _ _ _ _ _ Hn Hle) as (l & b & Hl & Hb & Hi & Hp & Hc & Hok). rewrite app_nil_r in Hc.
  pose proof (partial_lines l (content b) Hok Hp Hc) as ->. destruct Hn as [N1 N2 N3 N4 N5].
  assert (Hsz : size rest = S (size (delete k rest))).
  { pose proof (map_size_delete_Some k rest (ex_intro _ _ Hl)). assert (size rest <> 0%nat); [|lia].
    intros H0%map_size_empty_iff. by rewrite H0 in Hl. }
  eexists _, (delete k rest). split; [reflexivity|]. split_and!.
  - split.
    + rewrite <- N1, (lookup_total_perm rest k [] Hl). done.
    + cbn [rcv]. unfold onSenderDown. by destruct (_ =? 0).
    + intros k'. cbn [bufs wires]. destruct (decide (k' = k)) as [->|Hne]; [by rewrite !lookup_delete_eq|].
      rewrite !lookup_delete_ne by done. apply N3.
    + cbn [rcv]. unfold onSenderDown. destruct (_ =? 0); cbn [senders_]; lia.
    + destruct (decide (size (delete k rest) = 0%nat)); [done|]. rewrite decide_False in N5 by lia. unfold onSenderDown. cbn [rcv].
      replace (senders_ (rcv s) - 1 =? 0) with false by lia. done.
  - done.
  - destruct (decide (size (delete k rest) = 0%nat)); [|done]. unfold onSenderDown. cbn [rcv]. by replace (senders_ (rcv s) - 1 =? 0) with true by lia.
Qed.

(** What [done] says of the receiver once no connection is left. *)
Definition finished (all : list (str * Z)) (s : Net) : Prop :=
  wires s = ∅ -> quitted (rcv s) = true /\ shard (rcv s) = Some (wordcounts_ (rcv s)) /\
    forall w, wordcounts_ (rcv s) !! w = if decide (total w all = 0) then None else Some (total w all).

Lemma net_finished all acc rest s :
  net_inv all acc rest s -> (size rest = 0%nat -> shard (rcv s) = Some (wordcounts_ (rcv s)) /\ quitted (rcv s) = true) -> finished all s.
Proof.
  intros [N1 [Hm Ht] N3 N4 N5] Hd Hw.
  assert (Hr : rest = ∅).
  { apply map_empty. intros k. specialize (N3 k). rewrite Hw, lookup_empty in N3. by destruct (rest !! k), (bufs s !! k). }
  subst rest. destruct Hd as [Hs Hq]; [done|]. split; [done|]. split; [done|]. rewrite map_to_list_empty in N1. cbn in N1. rewrite app_nil_r in N1.
  intros w. assert (Htw : total w all = default 0 (wordcounts_ (rcv s) !! w)) by (by rewrite <- N1, Ht). rewrite Htw. destruct (wordcounts_ (rcv s) !! w) as [v|] eqn:E; cbn; [|done].
  apply Hm in E as [_ E]. rewrite decide_False by lia. done.
Qed.

Lemma net_run_ok all acc rest es s :
  Forall rec_ok all -> (forall w, total w all < 2 ^ 63) -> net_inv all acc rest s -> finished all s -> net_legal_run es s = true ->
  outcome LengthError (net_run es s) (finished all).
Proof.
  intros Hokall Hall. revert acc rest s. induction es as [|e es IH]; intros acc rest s Hn Hd Hle; cbn [net_run net_legal_run] in *;
    [by apply outcome_Ok|]. apply andb_true_iff in Hle as [Hl Hle]. destruct e as [k n|k].
  - destruct (deliver_ok all acc rest s k n Hokall Hall Hn Hl) as [(s' & E & acc' & rest' & Hn')|E]; rewrite E in *; [|by right].
    cbn [mbind res_bind]. apply (IH acc' rest'); [done| |done]. intros Hw. exfalso.
    cbn [net_step] in E. destruct (bufs s !! k), (wires s !! k); try done. cbn [get mbind res_bind] in E.
    destruct (append _ _); [|done]. cbn [mbind res_bind] in E. destruct (onMessage _ _ _ _) as [[[??]?]|]; [|done]. injection E as <-.
    cbn in Hw. by apply insert_non_empty in Hw.
  - destruct (leave_ok all acc rest s k Hn Hl) as (s' & rest' & E & Hn' & Hsz & Hlast). rewrite E in *. cbn [mbind res_bind].
    apply (IH acc rest'); [done| |done]. eapply net_finished; [done|]. intros H0. by rewrite decide_True in Hlast.
Qed.
