(* ===== verification/WordCountFlow.v ===== *)
(** * The hasher's connection

    The file thread and the loop thread of a [SendThrottler], step by step: what the file thread
    sends arrives on the wire in order, and a thread that waits in throttle() is woken. *)
From S2P Require Import Prelude Buffer BufferTheory Channel TcpConnection TcpConnectionTheory ConnectionSteps WordCount WordCountTheory.

(** ** Functors in the queue *)

(** The data of the sends that are queued. *)
Fixpoint sends (l : list task) : str :=
  match l with [] => [] | TSendInLoop d :: l => d ++ sends l | _ :: l => sends l end.

(** The congestion flag once the functors have run. *)
Fixpoint congested_after (b : bool) (l : list task) : bool :=
  match l with
  | [] => b
  | THighWaterMark _ :: l => congested_after true l
  | TWriteComplete :: l => congested_after false l
  | _ :: l => congested_after b l
  end.

(** No send is queued behind a shutdown. *)
Fixpoint ordered (l : list task) : Prop :=
  match l with [] => True | TShutdownInLoop :: l => Forall (fun t => ~ is_send t) l /\ ordered l | _ :: l => ordered l end.

Lemma queued_app l1 l2 : sends (l1 ++ l2) = sends l1 ++ sends l2.
Proof. induction l1 as [|[] l1 IH]; cbn; rewrite ?IH, ?(assoc_L app); done. Qed.

Lemma congested_after_app b l1 l2 : congested_after b (l1 ++ l2) = congested_after (congested_after b l1) l2.
Proof. revert b. induction l1 as [|[] l1 IH]; intros b; cbn; done. Qed.

Lemma sends_none l : Forall (fun t => ~ is_send t) l -> sends l = [].
Proof. induction 1 as [|[] l Ht _ IH]; cbn; try done. by destruct Ht; eexists. Qed.

Lemma flow_not_send l : Forall flow_task l -> Forall (fun t => ~ is_send t) l.
Proof. intros Hl. eapply Forall_impl; [exact Hl|]. intros t [->|(n & ->)] [d Hd]; done. Qed.

(** What may be queued for the connection of a hasher. *)
Definition hasher_task (t : task) : Prop := is_send t \/ flow_task t \/ t = TShutdownInLoop.

Lemma ordered_app l1 l2 : ordered l1 -> Forall (fun t => ~ is_send t) l2 -> ordered l2 -> ordered (l1 ++ l2).
Proof.
  intros H1 Hn H2. induction l1 as [|[] l1 IH]; cbn in *; try by auto.
  destruct H1 as [? ?]. split; [by apply Forall_app|by apply IH].
Qed.

Lemma ordered_flow l : Forall flow_task l -> ordered l.
Proof. induction 1 as [|t l [->|(n & ->)] _ IH]; done. Qed.

Lemma ordered_no_shutdown l : TShutdownInLoop ∉ l -> ordered l.
Proof.
  induction l as [|t l IH]; [done|]. rewrite not_elem_of_cons. intros [Hne Hn]. destruct t; cbn; try done; by apply IH.
Qed.

(** New flow functors whose high-water marks come with output. *)
Lemma congested_after_new b l new (o o' : Prop) :
  (congested_after b l = true -> o) -> (o -> o') -> Forall flow_task new -> (forall n, THighWaterMark n ∈ new -> o') ->
  congested_after b (l ++ new) = true -> o'.
Proof.
  intros Ho Hoo Hnew Hh. rewrite congested_after_app. generalize (congested_after b l) Ho. clear Ho. intros c Ho.
  revert c Ho. induction Hnew as [|t new [->|(n & ->)] _ IH]; intros c Ho; cbn; [by auto| |].
  - apply IH; [|done]. intros n Hn. apply (Hh n). by right.
  - intros _. apply (Hh n). left.
Qed.

(** ** The invariant *)

Section Flow.
Context (g_batchSize mark : Z).
Context (kernel : nat -> bool -> list char -> written) (Hkernel : kernel_ok kernel).
Context (network : nat -> kernel_readv) (Hnetwork : forall i, readv_contract (network i)).
Context (all : list (str * Z)) (Hall : Forall rec_ok all).

Definition reliable : Prop := forall i d, kernel i false d <> PeerGone.

Record up_inv (s : SendThrottler) : Prop := {
  ui_live : live_inv (conn s);
  ui_life : life (conn s) = [EvUp];
  ui_ptr : conn_ s = true;
  ui_latches : connectLatch_ s = 0%nat /\ disconnectLatch_ s = 1%nat;
  ui_wc : writeCompleteCallback_ (conn s) = true;
  ui_state : state_ (conn s) = if decide (pc s = LatchWait) then kDisconnecting else kConnected;
  ui_tasks : Forall hasher_task (functors (conn s)) /\ ordered (functors (conn s)) /\
    (pc s <> LatchWait -> TShutdownInLoop ∉ functors (conn s));
  ui_fin : fin (conn s) = true -> pc s = LatchWait /\ Forall (fun t => ~ is_send t) (functors (conn s));
  ui_congestion : congested_after (congestion_ s) (functors (conn s)) = true -> out (conn s) <> [];
  ui_wait : pc s = CondWait -> congestion_ s = true;
  ui_buffer : inv (buffer_ s);
  ui_stream : reliable -> accepted (conn s) ++ sends (functors (conn s)) ++ content (buffer_ s) ++ lines (todo s) = lines all;
  ui_todo : Forall rec_ok (todo s);
  ui_flush : (pc s = Flush \/ pc s = Closing \/ pc s = LatchWait -> todo s = []) /\ (pc s = Closing \/ pc s = LatchWait -> content (buffer_ s) = [])
}.

Record fresh_state (s : SendThrottler) : Prop := {
  fs_conn : fresh_inv (conn s);
  fs_latches : connectLatch_ s = 1%nat /\ disconnectLatch_ s = 1%nat;
  fs_pc : pc s = Connecting;
  fs_congestion : congestion_ s = false;
  fs_buffer : inv (buffer_ s) /\ content (buffer_ s) = [];
  fs_todo : todo s = all
}.

(** After the receiver closed: what is left of the queue only sets the flag. *)
Record over_state (s : SendThrottler) : Prop := {
  os_over : over_inv (conn s);
  os_pc : pc s = LatchWait;
  os_latches : disconnectLatch_ s = 0%nat;
  os_out : out (conn s) = [];
  os_stream : reliable -> accepted (conn s) = lines all;
  os_tasks : Forall (fun t => ~ is_send t /\ t <> TForceCloseInLoop) (functors (conn s))
}.

Definition hasher_inv (s : SendThrottler) : Prop := fresh_state s \/ up_inv s \/ over_state s.

(** ** The file thread *)

Lemma append_ok d b :
  inv b -> zlen d <= max_size -> outcome LengthError (append d b) (fun b' => inv b' /\ content b' = content b ++ d).
Proof. intros Hi Hz. destruct (append_outcome d b Hi Hz) as [(b' & E & H)|[E _]]; [left; by exists b'|by right]. Qed.

Lemma append_record_ok w c b :
  inv b -> zlen w <= max_size ->
  outcome LengthError (append_record w c b) (fun b' => inv b' /\ content b' = content b ++ line (w, c)).
Proof.
  intros Hi Hz. unfold append_record. eapply outcome_bind; [by apply append_ok|]. intros b1 [Hi1 Hc1].
  eapply outcome_impl; [apply append_ok; [done|]|].
  - unfold count_text, zlen, max_size. rewrite length_take. lia.
  - intros b2 [Hi2 Hc2]. split; [done|]. rewrite Hc2, Hc1. unfold line. cbn. by rewrite (assoc_L app).
Qed.

(** A place of the file thread from which nothing but the place changes. *)
Lemma up_move s p :
  up_inv s -> pc s <> LatchWait -> p <> LatchWait -> p <> Closing -> (p = CondWait -> congestion_ s = true) -> (p = Flush -> todo s = []) ->
  up_inv (set_pc p s).
Proof.
  intros [U1 U2 U3 U4 U5 U6 (U7 & U7' & U7'') U8 U9 U10 U11 U12 U13 [U14 U15]] Hp Hq Hcl Hw Hf. split; try done.
  - cbn. rewrite decide_False by done. by rewrite decide_False in U6.
  - cbn. split_and!; [done|done|]. intros _. by apply U7''.
  - cbn. intros F. by destruct (U8 F).
  - cbn. split; [|by intros [?|?]]. intros [?|[?|?]]; [by apply Hf|done|done].
Qed.

Lemma send_ok s :
  up_inv s -> pc s <> LatchWait ->
  exists s', send_buffer s = Ok s' /\ up_inv s' /\ content (buffer_ s') = [] /\ pc s' = pc s /\ todo s' = todo s.
Proof.
  intros [U1 U2 U3 U4 U5 U6 (U7 & U7' & U7'') U8 U9 U10 U11 U12 U13 [U14 U15]] Hp. rewrite decide_False in U6 by done.
  unfold send_buffer. rewrite U3. cbn [get mbind res_bind]. rewrite bool_decide_true by done. rewrite read_content by done. cbn [mbind res_bind].
  eexists. split; [reflexivity|]. destruct (retrieveAll_spec _ U11) as [Hi Hc]. split_and!; [|done..]. split; try done; cbn -[inv content retrieveAll].
  - apply live_queue; [done|done|]. intros d [= <-]. by apply content_small.
  - by rewrite decide_False.
  - specialize (U7'' Hp). split_and!.
    + apply Forall_app. split; [done|]. apply Forall_singleton. left. by eexists.
    + apply ordered_no_shutdown. rewrite not_elem_of_app, list_elem_of_singleton. by split.
    + intros _. rewrite not_elem_of_app, list_elem_of_singleton. by split.
  - intros F. by destruct (U8 F).
  - rewrite congested_after_app. exact U9.
  - intros R. rewrite Hc, queued_app. cbn. rewrite app_nil_r, <- (assoc_L app). by apply U12.
Qed.

Lemma up_closing s : up_inv s -> pc s <> LatchWait -> todo s = [] -> content (buffer_ s) = [] -> up_inv (set_pc Closing s).
Proof.
  intros [U1 U2 U3 U4 U5 U6 (U7 & U7' & U7'') U8 U9 U10 U11 U12 U13 [U14 U15]] Hp Ht Hb. split; try done.
  - cbn. by rewrite decide_False in U6.
  - cbn. split_and!; [done|done|]. intros _. by apply U7''.
  - cbn. intros F. by destruct (U8 F).
Qed.

(** conn_->shutdown() from the file thread. *)
Lemma up_shutdown s :
  up_inv s -> pc s = Closing -> up_inv (set_pc LatchWait (set_conn_ (shutdown false (conn s)) s)).
Proof.
  intros [U1 U2 U3 U4 U5 U6 (U7 & U7' & U7'') U8 U9 U10 U11 U12 U13 [U14 U15]] Hp. rewrite Hp in *. cbn in U6.
  unfold shutdown. rewrite bool_decide_true by done. split; try done; cbn -[inv content].
  - apply live_queue; [by apply live_disconnecting|done..].
  - split_and!; [|apply ordered_app; [done|apply Forall_singleton; by intros [d Hd]|by split]|done]. apply Forall_app. split; [done|]. apply Forall_singleton. by right; right.
  - intros F. by destruct (U8 F).
  - rewrite congested_after_app. exact U9.
  - intros R. rewrite queued_app. cbn. rewrite app_nil_r. by apply U12.
  - split; intros _; [apply U14|apply U15]; auto.
Qed.

Lemma file_step_ok s :
  up_inv s -> hasher_enabled FileStep s = true -> outcome LengthError (file_step g_batchSize s) up_inv.
Proof.
  intros Hu Hen. unfold file_step. cbn in Hen. destruct (pc s) eqn:Hp; try done.
  - apply outcome_Ok. apply up_move; [done|by rewrite Hp|done..].
  - destruct (todo s) as [|[w c] rest] eqn:Ht; [apply outcome_Ok, up_move; [done|by rewrite Hp|done..]|].
    destruct Hu as [U1 U2 U3 U4 U5 U6 (U7 & U7' & U7'') U8 U9 U10 U11 U12 U13 [U14 U15]].
    pose proof U13 as Hr. rewrite Ht in Hr. apply Forall_cons in Hr as [[(_ & _ & Hz) _] Hr]. cbn in Hz.
    eapply outcome_bind; [by apply (append_record_ok w c)|]. intros b [Hi Hc]. apply outcome_Ok.
    assert (Hu' : up_inv (set_todo rest (set_buffer b s))).
    { split; try done.
      - cbn -[content]. intros R. rewrite Hc, <- (U12 R), Ht. unfold lines. cbn. by rewrite <- !(assoc_L app).
      - cbn. rewrite Hp. split; intros H0; naive_solver. }
    destruct (_ <=? _); [|done]. apply up_move; [done|cbn; by rewrite Hp|done..].
  - apply outcome_Ok. apply up_move; [done|by rewrite Hp|by destruct (congestion_ s)..].
  - destruct (send_ok s Hu) as (s' & -> & Hu' & Hb & Hp' & Ht'); [by rewrite Hp|]. cbn [mbind res_bind]. apply outcome_Ok.
    apply up_move; [done|by rewrite Hp', Hp|done..].
  - pose proof (proj1 (ui_flush _ Hu) (or_introl Hp)) as Ht. destruct (0 <? _) eqn:Er.
    + destruct (send_ok s Hu) as (s' & -> & Hu' & Hb & Hp' & Ht'); [by rewrite Hp|]. cbn [mbind res_bind]. apply outcome_Ok.
      apply up_closing; [done|by rewrite Hp', Hp|by rewrite Ht'|done].
    + cbn [mbind res_bind]. apply outcome_Ok. apply up_closing; [done|by rewrite Hp|done|].
      apply zlen_zero_inv. rewrite zlen_content by apply Hu. rewrite readableBytes_eq in Er by apply Hu.
      pose proof (ui_buffer _ Hu). buffer_unfold. lia.
  - rewrite (ui_ptr _ Hu). cbn [get mbind res_bind]. apply outcome_Ok. by apply up_shutdown.
Qed.

(** ** The loop thread *)

Abbreviation loop_step := (loop_step mark kernel network).

Lemma loop_step_eq a s c es :
  perform kernel network no_calls a (conn s) = Ok c -> trace c = trace (conn s) ++ es ->
  loop_step a s = Ok (foldl (fun s e => on_event mark e s) (set_conn_ c s) es).
Proof. intros E Ht. unfold WordCount.loop_step. rewrite E. cbn [mbind res_bind]. by rewrite Ht, drop_app_length. Qed.

Lemma establish_ok s : fresh_state s -> exists s', loop_step Establish s = Ok s' /\ up_inv s'.
Proof using Hkernel Hall.
  intros [F1 [F2 F3] F4 F5 [F6 F7] F8].
  destruct (established_up kernel Hkernel _ F1) as (c' & E & Hl & Hlf & Hs & Hfi & Hr & Ho & Hfu & Hi & Ha & Ht).
  eexists. split; [by apply (loop_step_eq Establish s c' [EvUp])|]. cbn [foldl on_event]. unfold onConnectionUp. cbn [conn set_conn_].
  split; try done; cbn -[content inv].
  - destruct Hl as [H1 H2 H3 H4 H5 H6 H7 H8 H9]. by split.
  - rewrite F2. done.
  - by rewrite F4.
  - rewrite Hfu. split_and!; [done|done|]. intros _. apply not_elem_of_nil.
  - congruence.
  - rewrite Hfu, F5. done.
  - by rewrite F4.
  - intros _. rewrite Hfu, Ha, F7, F8. cbn. destruct F1 as [_ _ _ (_ & _ & ->)]. done.
  - by rewrite F8.
  - rewrite F4. split; intros H0; naive_solver.
Qed.

Lemma queue_tail t l s : up_inv s -> functors (conn s) = t :: l ->
  hasher_task t /\ Forall hasher_task l /\ ordered l /\ (pc s <> LatchWait -> TShutdownInLoop ∉ l) /\
  (fin (conn s) = true -> ~ is_send t /\ Forall (fun t => ~ is_send t) l) /\ (t = TShutdownInLoop -> pc s = LatchWait /\ Forall (fun t => ~ is_send t) l).
Proof.
  intros Hu E. destruct (ui_tasks _ Hu) as (U7 & U7' & U7''). pose proof (ui_fin _ Hu) as U8. rewrite E in *.
  apply Forall_cons in U7 as [Ht Hl]. split_and!; [done|done|by destruct t; cbn in U7'; naive_solver| | |].
  - intros Hp Hin. apply (U7'' Hp). by right.
  - intros F. destruct (U8 F) as [_ Hn]. by apply Forall_cons in Hn.
  - intros ->. split; [|apply U7']. destruct (decide (pc s = LatchWait)) as [|Hne]; [done|]. destruct (U7'' Hne). left.
Qed.

(** A queued send is run. *)
Lemma run_send d l s :
  up_inv s -> functors (conn s) = TSendInLoop d :: l -> outcome LengthError (loop_step RunFunctor s) up_inv.
Proof using Hkernel.
  intros Hu E. destruct (queue_tail _ _ _ Hu E) as (_ & Hl & Ho & Hns & Hf & _).
  assert (Hfin : fin (conn s) = false).
  { destruct (fin (conn s)) eqn:F; [|done]. destruct (Hf eq_refl) as [[] _]. by eexists. }
  destruct Hu as [U1 U2 U3 U4 U5 U6 U7 U8 U9 U10 U11 U12 U13 U14].
  pose proof (live_took _ _ _ U1 E) as Hlive. assert (Hz : zlen d <= max_size) by (apply (li_msgs _ U1); rewrite E; left).
  assert (Ep : perform kernel network no_calls RunFunctor (conn s) = sendInLoop kernel d (set_functors l (conn s))) by (cbn [perform]; by rewrite E).
  destruct (sendInLoop_live kernel Hkernel d _ Hlive Hz) as [(c' & E' & Hl' & _)|E'];
    [|right; unfold WordCount.loop_step; rewrite Ep, E'; done].
  destruct (sendInLoop_sent kernel d _ c' Hkernel Hlive Hz E') as [[S1 S2 S3 S4 S5] S6 (new & Hfn & Hnew & Hh) S8 SL S9].
  rewrite (loop_step_eq RunFunctor s c' []); [|by rewrite Ep|by rewrite app_nil_r]. apply outcome_Ok. cbn [foldl].
  cbn [set_functors functors state_ writeCompleteCallback_ fin trace inputBuffer_ accepted] in *. rewrite E in U9, U12.
  split; try done; cbn -[content inv lines]; rewrite ?S1, ?S2, ?S3, ?Hfn; try done.
  - rewrite <- U2. by apply life_same.
  - split_and!.
    + apply Forall_app. split; [done|]. eapply Forall_impl; [exact Hnew|]. intros t Ht. by right; left.
    + apply ordered_app; [done|by apply flow_not_send|by apply ordered_flow].
    + intros Hp. rewrite not_elem_of_app. split; [by apply Hns|]. intros Hin. rewrite Forall_forall in Hnew.
      destruct (Hnew _ Hin) as [?|(n & ?)]; done.
  - congruence.
  - eapply (congested_after_new _ _ _ (out (conn s) <> [])); [exact U9|exact S8|done|done].
  - intros R. rewrite S9 by (split; [done|exact R]). rewrite queued_app, (sends_none new) by (by apply flow_not_send).
    rewrite app_nil_r, <- (U12 R). cbn. by rewrite <- !(assoc_L app).
Qed.

(** The connection after a functor that neither sends nor changes its state. *)
Lemma up_took t l e s c' b p :
  up_inv s -> functors (conn s) = t :: l -> is_life e = false -> c' = emit e (set_functors l (conn s)) ->
  (congested_after b l = true -> out (conn s) <> []) -> sends [t] = [] -> (p = pc s \/ p = Throttle /\ pc s = CondWait) -> (p = CondWait -> b = true) ->
  up_inv (set_pc p (set_congestion b (set_conn_ c' s))).
Proof.
  intros Hu E He -> Hb Hs Hp Hw. destruct (queue_tail _ _ _ Hu E) as (_ & Hl & Ho & Hns & Hf & _).
  destruct Hu as [U1 U2 U3 U4 U5 U6 U7 U8 U9 U10 U11 U12 U13 [U14 U15]]. pose proof (live_took _ _ _ U1 E) as Hlive.
  assert (Hpl : p = LatchWait <-> pc s = LatchWait) by (destruct Hp as [->|[-> ->]]; done).
  rewrite E in U12. split; try done; cbn -[content inv lines].
  - by apply live_emit.
  - transitivity (life (emit e (conn s))); [done|]. by rewrite life_emit, He, app_nil_r.
  - rewrite U6. by rewrite (decide_ext _ _ _ _ Hpl).
  - split_and!; [done|done|]. intros Hne. apply Hns. by rewrite <- Hpl.
  - intros F. destruct (Hf F) as [_ ?]. split; [apply Hpl; by destruct (U8 F)|done].
  - intros R. specialize (U12 R). change (t :: l) with ([t] ++ l) in U12. by rewrite queued_app, Hs in U12.
  - destruct Hp as [->|[-> _]]; [done|]. split; intros H0; naive_solver.
Qed.

Lemma run_flow t l s :
  up_inv s -> functors (conn s) = t :: l -> flow_task t -> exists s', loop_step RunFunctor s = Ok s' /\ up_inv s'.
Proof.
  intros Hu E Ht. pose proof (ui_congestion _ Hu) as U9. rewrite E in U9. destruct Ht as [->|(n & ->)].
  - eexists. split; [apply (loop_step_eq RunFunctor s (emit EvWriteComplete (set_functors l (conn s))) [EvWriteComplete])|];
      [cbn [perform]; by rewrite E|done|]. cbn [foldl on_event]. unfold onWriteComplete. cbn [congestion_ set_conn_ set_congestion pc].
    destruct (congestion_ s && bool_decide (pc s = CondWait)) eqn:Ec.
    + apply andb_true_iff in Ec as [_ Ec%bool_decide_eq_true]. eapply (up_took _ _ EvWriteComplete); try done. right. done.
    + assert (Hne : pc s <> CondWait).
      { intros Hp. rewrite (ui_wait _ Hu Hp), bool_decide_true in Ec by done. done. }
      change (up_inv (set_pc (pc s) (set_congestion false (set_conn_ (emit EvWriteComplete (set_functors l (conn s))) s)))).
      eapply (up_took _ _ EvWriteComplete); try done. by left.
  - eexists. split; [apply (loop_step_eq RunFunctor s (emit (EvHighWaterMark n) (set_functors l (conn s))) [EvHighWaterMark n])|];
      [cbn [perform]; by rewrite E|done|]. cbn [foldl on_event]. unfold onHighWaterMark.
    change (up_inv (set_pc (pc s) (set_congestion true (set_conn_ (emit (EvHighWaterMark n) (set_functors l (conn s))) s)))).
    eapply (up_took _ _ (EvHighWaterMark n)); try done. by left.
Qed.

Lemma run_shutdown l s :
  up_inv s -> functors (conn s) = TShutdownInLoop :: l -> exists s', loop_step RunFunctor s = Ok s' /\ up_inv s'.
Proof.
  intros Hu E. destruct (queue_tail _ _ _ Hu E) as (_ & Hl & Ho & Hns & Hf & Hsd). destruct (Hsd eq_refl) as [Hp Hn].
  destruct Hu as [U1 U2 U3 U4 U5 U6 U7 U8 U9 U10 U11 U12 U13 U14]. pose proof (live_took _ _ _ U1 E) as Hlive.
  destruct (shutdownInLoop_live _ Hlive) as [Hl' _]. set (c' := shutdownInLoop (set_functors l (conn s))) in *.
  assert (Hc : state_ c' = state_ (conn s) /\ writeCompleteCallback_ c' = writeCompleteCallback_ (conn s) /\ functors c' = l /\
    trace c' = trace (conn s) /\ out c' = out (conn s) /\ accepted c' = accepted (conn s)).
  { unfold c', shutdownInLoop. by destruct (negb _). }
  destruct Hc as (C1 & C2 & C3 & C4 & C5 & C6). rewrite E in U9, U12.
  eexists. split; [apply (loop_step_eq RunFunctor s c' []); [cbn [perform]; by rewrite E|by rewrite app_nil_r]|]. cbn [foldl].
  split; try done; cbn -[content inv lines]; rewrite ?C1, ?C2, ?C3, ?C5, ?C6; try done. rewrite <- U2. by apply life_same.
Qed.

(** ** A channel's event *)

Lemma up_stays bytes s c' :
  up_inv s -> stays bytes (conn s) c' -> (pc s = LatchWait -> Forall (fun t => ~ is_send t) (functors (conn s))) ->
  up_inv (set_conn_ c' s).
Proof.
  intros [U1 U2 U3 U4 U5 U6 (U7 & U7' & U7'') U8 U9 U10 U11 U12 U13 U14] [[L1 L2] E1 E2 E3 E4 E5 EL E6 E7 E8 E9 E10] Hcalm.
  assert (Hnew : exists new, functors c' = functors (conn s) ++ new /\ Forall flow_task new /\ (forall n, THighWaterMark n ∈ new -> out c' <> []) /\
    (new = [] -> out (conn s) <> [] -> out c' <> [])).
  { destruct E8 as [E8|[E8 _]].
    - exists []. rewrite app_nil_r. split_and!; [done|constructor|intros n Hn; by apply elem_of_nil in Hn|].
      intros _ Ho Hn. specialize (E9 Ho Hn U5). rewrite E8 in E9. apply (f_equal length) in E9. rewrite length_app in E9. cbn in E9. lia.
    - exists [TWriteComplete]. split_and!; [done|apply Forall_singleton; by left|intros n Hn; by apply list_elem_of_singleton in Hn|done]. }
  destruct Hnew as (new & Hfn & Hfl & Hh & Hk). split; try done; cbn -[content inv lines]; rewrite ?E1, ?E2, ?E5, ?Hfn; try done.
  - split_and!.
    + apply Forall_app. split; [done|]. eapply Forall_impl; [exact Hfl|]. intros t Ht. by right; left.
    + apply ordered_app; [done|by apply flow_not_send|by apply ordered_flow].
    + intros Hp. rewrite not_elem_of_app. split; [by apply U7''|]. intros Hin. rewrite Forall_forall in Hfl. by destruct (Hfl _ Hin) as [?|(n & ?)].
  - intros F. destruct (decide (pc s = LatchWait)) as [Hp|Hp].
    + split; [done|]. apply Forall_app. split; [by apply Hcalm|by apply flow_not_send].
    + rewrite E3 in F by done. destruct (U8 F). done.
  - destruct new as [|t new]; [rewrite app_nil_r; intros Ha; apply Hk; [done|by apply U9]|].
    rewrite congested_after_app. apply Forall_cons in Hfl as [[->|(n & ->)] Hfl].
    + intros Ha. apply (congested_after_new (congested_after (congestion_ s) (functors (conn s))) [TWriteComplete] new False); [done|done|done| |exact Ha].
      intros n Hn. apply (Hh n). by right.
    + intros _. apply (Hh n). left.
  - intros R. rewrite queued_app, (sends_none new) by (by apply flow_not_send). rewrite app_nil_r. by apply U12.
Qed.

(** The default message callback. *)
Lemma up_discard s : up_inv s -> up_inv (set_conn_ (set_input (retrieveAll (inputBuffer_ (conn s))) (conn s)) s).
Proof. intros [U1 U2 U3 U4 U5 U6 U7 U8 U9 U10 U11 U12 U13 U14]. split; try done. apply live_input; [done|]. apply retrieveAll_spec, U1. Qed.

Lemma up_closes s c' :
  up_inv s -> closes (conn s) c' -> fin (conn s) = true -> over_state (onConnectionDown (set_conn_ c' s)).
Proof.
  intros [U1 U2 U3 U4 U5 U6 (U7 & U7' & U7'') U8 U9 U10 U11 U12 U13 [U14 U15]] [C1 C2 C3 C4 C4' CF C5 C6] F.
  destruct (U8 F) as [Hp Hn]. split; try done; cbn -[content inv lines].
  - destruct U4 as [_ ->]. done.
  - rewrite C4'. by apply (li_fin _ U1).
  - intros R. specialize (U12 R). rewrite sends_none, U14, U15 in U12 by (done || auto). cbn in U12. by rewrite C3, <- U12, app_nil_r.
  - rewrite C6. apply Forall_app. split; [|apply Forall_singleton; split; [by intros [? ?]|done]].
    apply Forall_forall. intros t Ht. rewrite Forall_forall in U7, Hn. split; [by apply Hn|]. intros ->. by destruct (U7 _ Ht) as [[? ?]|[[?|[? ?]]|?]].
Qed.

(** ** After the close *)

Lemma over_step s :
  over_state s -> enabled RunFunctor (conn s) = true -> exists s', loop_step RunFunctor s = Ok s' /\ over_state s'.
Proof using Hkernel.
  intros [O1 O2 O3 O4 O5 O6] Hen. cbn in Hen. destruct (functors (conn s)) as [|t l] eqn:E; [done|]. apply Forall_cons in O6 as [[Ht Hf] O6].
  destruct (over_functor kernel Hkernel _ t l O1 E Ht Hf Hen) as (c' & es & Er & Ho & Hout & Ha & Hfu & _ & Htr & Hes).
  eexists. split; [apply (loop_step_eq RunFunctor s c' es); [cbn [perform]; by rewrite E|done]|].
  assert (Hs : forall b, over_state (set_congestion b (set_conn_ c' s))).
  { intros b. split; try done; cbn -[lines]; [by rewrite Hout|by rewrite Ha|by rewrite Hfu]. }
  destruct Hes as [->|[->|(n & ->)]]; cbn [foldl on_event]; [apply (Hs (congestion_ s))| |apply Hs].
  unfold onWriteComplete. cbn [pc set_congestion set_conn_]. rewrite O2, andb_false_r. apply Hs.
Qed.

(** ** Steps *)

Definition no_sends (l : list task) : bool := forallb (fun t => match t with TSendInLoop _ => false | _ => true end) l.

Lemma no_sends_Forall l : no_sends l = true -> Forall (fun t => ~ is_send t) l.
Proof.
  intros Hn. apply Forall_forall. intros t Ht [d ->]. unfold no_sends in Hn. rewrite forallb_forall in Hn.
  by specialize (Hn _ (proj1 (list_elem_of_In _ _) Ht)).
Qed.

(** The receiver closes when it has seen the end of the stream; once the file thread has asked
    for the shutdown, queued sends run before the next event of the channel. *)
Definition calm (a : hasher_action) (s : SendThrottler) : bool :=
  match a with
  | LoopStep (Poll revents) =>
      (negb (bool_decide (pc s = LatchWait)) || no_sends (functors (conn s))) &&
      match perform kernel network no_calls (Poll revents) (conn s) with
      | Ok c => negb (bool_decide (state_ c = kDisconnected)) || fin (conn s)
      | Fault _ => true
      end
  | _ => true
  end.

Lemma poll_ok revents s :
  up_inv s -> enabled (Poll revents) (conn s) = true -> calm (LoopStep (Poll revents)) s = true ->
  outcome LengthError (loop_step (Poll revents) s) (fun s' => up_inv s' \/ over_state s').
Proof using Hkernel Hnetwork.
  intros Hu Hen [Hc1 Hc2]%andb_true_iff. pose proof Hen as [[_ Hrep]%andb_true_iff Hur%negb_true_iff]%andb_true_iff.
  pose proof (ui_live _ Hu) as Hl. pose proof (ui_life _ Hu) as Hlf.
  destruct (dispatch_ok kernel Hkernel network Hnetwork no_calls no_calls_ok revents _ Hl Hlf Hrep Hur) as [(c' & E & _)|E].
  2: { right. unfold WordCount.loop_step. cbn [perform]. by rewrite E. }
  destruct (poll_profile kernel Hkernel network Hnetwork revents _ c' Hl Hlf Hen E) as [(bytes & Hs)|Hcl].
  - rewrite (loop_step_eq (Poll revents) s c' _ E (sy_trace _ _ _ Hs)). apply outcome_Ok. left.
    assert (Hup : up_inv (set_conn_ c' s)).
    { eapply up_stays; [done|done|]. intros Hp. rewrite Hp, bool_decide_true in Hc1 by done. by apply no_sends_Forall. }
    destruct (decide (bytes = [])); [done|]. cbn [foldl on_event]. exact (up_discard _ Hup).
  - rewrite (loop_step_eq (Poll revents) s c' _ E (cl_trace _ _ Hcl)). apply outcome_Ok. right. cbn [foldl on_event].
    eapply up_closes; [done|done|]. cbn [perform] in Hc2. rewrite E in Hc2. by rewrite bool_decide_true in Hc2 by apply Hcl.
Qed.

Lemma hasher_step_ok a s :
  hasher_inv s -> hasher_enabled a s = true -> calm a s = true ->
  outcome LengthError (hasher_perform g_batchSize mark kernel network a s) hasher_inv.
Proof using Hkernel Hnetwork Hall.
  intros Hi Hen Hca. destruct a as [| |a]; cbn [hasher_perform].
  - destruct Hi as [Hf|[Hu|Ho]].
    + cbn in Hen. rewrite (fs_pc _ Hf) in Hen. apply bool_decide_eq_true in Hen. destruct (fs_latches _ Hf). congruence.
    + eapply outcome_impl; [by apply file_step_ok|]. by right; left.
    + cbn in Hen. by rewrite (os_pc _ Ho) in Hen.
  - cbn in Hen. apply bool_decide_eq_true in Hen. apply outcome_Ok. destruct Hi as [Hf|[Hu|Ho]].
    + rewrite (fs_pc _ Hf) in Hen. done.
    + right; left. apply up_move; [done|by rewrite Hen|done..].
    + rewrite (os_pc _ Ho) in Hen. done.
  - destruct a; try done; cbn [hasher_enabled] in Hen.
    + destruct Hi as [Hf|[Hu|Ho]].
      * destruct (establish_ok s Hf) as (s' & -> & ?). apply outcome_Ok. by right; left.
      * cbn in Hen. apply bool_decide_eq_true in Hen. pose proof (li_alive _ (ui_live _ Hu)) as Ha. by rewrite Hen in Ha.
      * cbn in Hen. apply bool_decide_eq_true in Hen. pose proof (oi_state _ (os_over _ Ho)). congruence.
    + destruct Hi as [Hf|[Hu|Ho]].
      * cbn in Hen. unfold isNoneEvent in Hen. by rewrite (fi_events _ (fs_conn _ Hf)) in Hen.
      * eapply outcome_impl; [by apply poll_ok|]. intros s' [?|?]; [by right; left|by right; right].
      * cbn in Hen. unfold isNoneEvent in Hen. by rewrite (oi_events _ (os_over _ Ho)) in Hen.
    + destruct Hi as [Hf|[Hu|Ho]]; [cbn in Hen..|].
      * by rewrite (fi_functors _ (fs_conn _ Hf)) in Hen.
      * destruct (functors (conn s)) as [|t l] eqn:E; [done|]. destruct (queue_tail _ _ _ Hu E) as ([(d & ->)|[Ht| ->]] & _).
        -- eapply outcome_impl; [by eapply run_send|]. by right; left.
        -- destruct (run_flow t l s Hu E Ht) as (s' & -> & ?). apply outcome_Ok. by right; left.
        -- destruct (run_shutdown l s Hu E) as (s' & -> & ?). apply outcome_Ok. by right; left.
      * destruct (over_step s Ho Hen) as (s' & -> & ?). apply outcome_Ok. by right; right.
Qed.
End Flow.
