(* ===== verification/WordCountCorrect.v ===== *)
(** * The word count as a whole

    Hashers, connections and a receiver together: when the hashers have finished and their bytes
    have been delivered, the shard the receiver writes has the number of occurrences of each word
    of its bucket in all files.  Then runs: a hasher with one small file and its receiver, which
    the theorems cover, and two they exclude, a shutdown that overtakes the last batch and a
    receiver that dies. *)
From S2P Require Import Prelude Buffer BufferTheory Channel TcpConnection TcpConnectionTheory ConnectionSteps Tunnel TunnelCorrect TunnelRuns.
From S2P Require Import WordCount WordCountTheory WordCountReceive WordCountFlow.

(** ** A hasher *)

Section Hasher.
Context (g_batchSize mark : Z).
Context (kernel : nat -> bool -> list char -> written) (Hkernel : kernel_ok kernel).
Context (network : nat -> kernel_readv) (Hnetwork : forall i, readv_contract (network i)).

Inductive hasher_reachable (s0 : SendThrottler) : SendThrottler -> Prop :=
| HasherInit : hasher_reachable s0 s0
| HasherStep a s s' : hasher_reachable s0 s -> hasher_enabled a s = true -> calm kernel network a s = true ->
    hasher_perform g_batchSize mark kernel network a s = Ok s' -> hasher_reachable s0 s'.

Definition new_hasher (b : Buffer) (rs : list (str * Z)) : SendThrottler :=
  newThrottler b (newTcpConnection 1 0 b b false false) rs.

Lemma hasher_inv_reachable b rs s :
  newBuffer kInitialSize = Ok b -> Forall rec_ok rs -> hasher_reachable (new_hasher b rs) s -> hasher_inv kernel rs s.
Proof using Hkernel Hnetwork.
  intros Hb Hok. induction 1 as [|a s s' _ IH Hen Hca E].
  - left. destruct (newBuffer_spec kInitialSize) as (b' & Eb & Hi & Hc & _); [by vm_compute..|]. rewrite Hb in Eb. injection Eb as <-.
    split; done || by apply fresh_new.
  - destruct (hasher_step_ok g_batchSize mark kernel Hkernel network Hnetwork rs Hok a s IH Hen Hca) as [(s2 & E2 & ?)|E2]; congruence.
Qed.

Lemma after_woken l : congested_after true l = false -> TWriteComplete ∈ l.
Proof. induction l as [|[] l IH]; cbn; intros H0; try done; first [by left|right; by apply IH]. Qed.

(** The file thread in cond_.wait: the connection can write, or the callback is on its way. *)
Lemma woken rs s :
  hasher_inv kernel rs s -> pc s = CondWait ->
  congestion_ s = true /\ (isWriting (channel_ (conn s)) = true \/ TWriteComplete ∈ functors (conn s)).
Proof.
  intros [Hf|[Hu|Ho]] Hp; [by rewrite (fs_pc _ _ Hf) in Hp| |by rewrite (os_pc _ _ _ Ho) in Hp].
  pose proof (ui_wait _ _ _ Hu Hp) as Hc. split; [done|]. pose proof (ui_congestion _ _ _ Hu) as Ha. rewrite Hc in Ha.
  destruct (congested_after true (functors (conn s))) eqn:E; [left|right; by apply after_woken].
  destruct (li_mask _ (ui_live _ _ _ Hu)) as (r & w & Hm & Hw). rewrite (mask_isWriting _ _ _ Hm). apply Hw. by apply Ha.
Qed.

Lemma wire_prefix rs s : reliable kernel -> hasher_inv kernel rs s -> wire (conn s) `prefix_of` lines rs.
Proof.
  intros R [Hf|[Hu|Ho]].
  - destruct (fs_conn _ _ Hf) as [_ _ _ (_ & -> & _)]. apply prefix_nil.
  - rewrite <- (ui_stream _ _ _ Hu R), <- (li_stream _ (ui_live _ _ _ Hu)), <- (assoc_L app). by apply prefix_app_r.
  - rewrite <- (os_stream _ _ _ Ho R), <- (oi_stream _ (os_over _ _ _ Ho)). by apply prefix_app_r.
Qed.

Lemma wire_complete rs s : reliable kernel -> hasher_inv kernel rs s -> disconnectLatch_ s = 0%nat -> wire (conn s) = lines rs.
Proof.
  intros R [Hf|[Hu|Ho]] Hd; [by destruct (fs_latches _ _ Hf) as [_ ?]; congruence|by destruct (ui_latches _ _ _ Hu) as [_ ?]; congruence|].
  rewrite <- (os_stream _ _ _ Ho R), <- (oi_stream _ (os_over _ _ _ Ho)). fold (out (conn s)). by rewrite (os_out _ _ _ Ho), app_nil_r.
Qed.

(** [C17] A hasher's connection: however the file thread and the loop thread interleave, as long as
    the receiver closes only at the end of the stream and sends queued before the shutdown run
    before the channel's next event, every step can be taken; the bytes on the wire are a prefix of
    the records' lines, and all of them once disconnect() returns; and a file thread that waits in
    throttle() is woken, because the connection has output to write or the write-complete callback
    is queued. *)
Theorem hasher_correct b rs s :
  newBuffer kInitialSize = Ok b -> Forall rec_ok rs -> hasher_reachable (new_hasher b rs) s ->
  (forall a, hasher_enabled a s = true -> calm kernel network a s = true ->
     outcome LengthError (hasher_perform g_batchSize mark kernel network a s) (hasher_reachable (new_hasher b rs))) /\
  (reliable kernel -> wire (conn s) `prefix_of` lines rs /\ (disconnectLatch_ s = 0%nat -> wire (conn s) = lines rs)) /\
  (pc s = CondWait -> congestion_ s = true /\ (isWriting (channel_ (conn s)) = true \/ TWriteComplete ∈ functors (conn s))).
Proof using Hkernel Hnetwork.
  intros Hb Hok Hr. pose proof (hasher_inv_reachable b rs s Hb Hok Hr) as Hi. split_and!.
  - intros a Hen Hca. destruct (hasher_step_ok g_batchSize mark kernel Hkernel network Hnetwork rs Hok a s Hi Hen Hca) as [(s' & E & _)|E]; [|by right].
    left. exists s'. split; [done|]. by eapply HasherStep.
  - intros R. split; [by apply wire_prefix|by apply wire_complete].
  - by apply (woken rs).
Qed.
End Hasher.

(** ** Hashers and a receiver *)

Section System.
Context (g_batchSize mark limit : Z) (order : WordCountMap -> list (str * Z)) (Horder : forall m, order m ≡ₚ map_to_list m).
Context (hash : str -> Z) (n i : Z) (Hn : 0 < n).
Context (kernel : Z -> nat -> bool -> list char -> written) (Hkernel : forall k, kernel_ok (kernel k) /\ reliable (kernel k)).
Context (network : Z -> nat -> kernel_readv) (Hnetwork : forall k j, readv_contract (network k j)).
Context (b : Buffer) (Hb : newBuffer kInitialSize = Ok b).

(** What a hasher sends to receiver [i] for its files. *)
Definition records (files : list str) : res (list (str * Z)) :=
  rs ← processFiles limit order files; bucket hash n i rs.

(** Hasher [k] with its files has finished in state [s]. *)
Definition hasher_done (k : Z) (files : list str) (s : SendThrottler) : Prop :=
  exists rs, records files = Ok rs /\ disconnectLatch_ s = 0%nat /\
    hasher_reachable g_batchSize mark (kernel k) (network k) (new_hasher b rs) s.

Lemma records_ok files :
  Forall (fun f => zlen f < 2 ^ 63) files ->
  exists rs, records files = Ok rs /\ Forall rec_ok rs /\
    forall w, total w rs = if decide (hash w mod n = i) then count w (concat (words <$> files)) else 0.
Proof using Horder Hn.
  intros Hf. destruct (processFiles_ok limit order Horder files Hf) as (rs & E & Hok & Ht). unfold records. rewrite E. cbn [mbind res_bind].
  unfold bucket. replace (n =? 0) with false by lia. eexists. split; [done|]. split; [apply Forall_forall; intros r [_ Hr]%list_elem_of_filter; rewrite Forall_forall in Hok; by apply Hok|].
  intros w. by rewrite total_bucket, Ht.
Qed.

Definition the_records (files : list str) : list (str * Z) := match records files with Ok rs => rs | Fault _ => [] end.

Lemma all_records_ok (fs : list (list str)) :
  Forall (Forall (fun f => zlen f < 2 ^ 63)) fs ->
  Forall rec_ok (concat (the_records <$> fs)) /\
  forall w, total w (concat (the_records <$> fs)) = if decide (hash w mod n = i) then count w (concat (words <$> concat fs)) else 0.
Proof using Horder Hn.
  induction 1 as [|files fs Hf _ [IH1 IH2]]; cbn; [split; [done|]; intros w; by case_decide|].
  destruct (records_ok files Hf) as (rs & E & Hok & Ht). unfold the_records at 1 3. rewrite E. split; [by apply Forall_app|].
  intros w. rewrite total_app, Ht, IH2, fmap_app, concat_app, occurs_app. case_decide; lia.
Qed.

(** The receiver and the connections of the hashers, before it has read anything. *)
Definition net_start (hashers : gmap Z (list str)) (finals : gmap Z SendThrottler) : Net :=
  mkNet (start_receiver (Z.of_nat (size hashers))) ((fun _ => b) <$> hashers) ((fun s => wire (conn s)) <$> finals).

Lemma net_start_inv hashers finals :
  (forall k, match hashers !! k, finals !! k with
             | Some files, Some s => hasher_done k files s /\ Forall (fun f => zlen f < 2 ^ 63) files
             | None, None => True
             | _, _ => False
             end) ->
  hashers <> ∅ ->
  net_inv (concat (map_to_list (the_records <$> hashers)).*2) [] (the_records <$> hashers) (net_start hashers finals).
Proof using Horder Hn Hkernel Hnetwork Hb.
  intros Hd Hne. destruct (newBuffer_spec kInitialSize) as (b' & Eb & Hi & Hc & _); [by vm_compute..|]. rewrite Hb in Eb. injection Eb as <-.
  split; try done.
  - intros k. cbn [net_start bufs wires]. rewrite !lookup_fmap. specialize (Hd k).
    destruct (hashers !! k) as [files|], (finals !! k) as [s|]; try done. cbn [fmap option_fmap option_map].
    destruct Hd as [(rs & E & Hl & Hr) Hf]. destruct (records_ok files Hf) as (rs' & E' & Hok & _). rewrite E in E'. injection E' as <-.
    unfold the_records. rewrite E. split_and!; [done|by rewrite Hc|rewrite Hc|done]. cbn [app].
    apply (wire_complete (kernel k)); [apply Hkernel| |done].
    by apply (hasher_inv_reachable g_batchSize mark (kernel k) (proj1 (Hkernel k)) (network k) (Hnetwork k) b).
  - cbn [net_start rcv start_receiver senders_]. by rewrite map_size_fmap.
  - case_decide; done.
Qed.

Lemma files_small (fs : list str) : zlen (concat fs) < 2 ^ 63 -> Forall (fun f => zlen f < 2 ^ 63) fs.
Proof.
  intros Hz. apply Forall_forall. intros f (l1 & l2 & ->)%list_elem_of_split. rewrite concat_app, zlen_app in Hz. cbn in Hz.
  rewrite zlen_app in Hz. pose proof (zlen_nonneg (concat l1)). pose proof (zlen_nonneg (concat l2)). lia.
Qed.

Lemma count_small w (fs : list str) : count w (concat (words <$> fs)) <= zlen (concat fs).
Proof.
  induction fs as [|f fs IH]; [done|]. cbn. rewrite occurs_app, zlen_app. pose proof (count_bound w (words f)). pose proof (words_length f). lia.
Qed.

(** [C16] The word count is right.  Given hashers that have finished after calm runs as in
    hasher_correct (the receiver closes only after the end of the stream, and no event of the
    channel comes between the request to shut down and the sends queued before it;
    shutdown_overtakes_send loses words without this), over connections whose writes never fail with
    EPIPE or ECONNRESET while open, and with files of less than 2^63 bytes together, the receiver of
    bucket [i] reads their bytes in pieces of any size and in any order among the connections:
    nothing fails but for want of memory, and once all connections have closed the receiver has
    written its shard and quits, and the shard has exactly the words of the bucket, each with the
    number of its occurrences in all files of all hashers, whatever std::hash is, whatever order the
    maps are visited in, and wherever the limit on the size of a map cuts a file. *)
Theorem wordcount_correct (hashers : gmap Z (list str)) (finals : gmap Z SendThrottler) es :
  let files := concat (map_to_list hashers).*2 in
  hashers <> ∅ -> zlen (concat files) < 2 ^ 63 ->
  (forall k, match hashers !! k, finals !! k with
             | Some fs, Some s => hasher_done k fs s
             | None, None => True
             | _, _ => False
             end) ->
  net_legal_run es (net_start hashers finals) = true ->
  outcome LengthError (net_run es (net_start hashers finals)) (fun s =>
    wires s = ∅ -> quitted (rcv s) = true /\
    exists m, shard (rcv s) = Some m /\ forall w,
      let occurrences := count w (concat (words <$> files)) in
      m !! w = if decide (hash w mod n = i /\ 0 < occurrences) then Some occurrences else None).
Proof using Horder Hn Hkernel Hnetwork Hb.
  intros files Hne Hz Hd Hle. pose proof (files_small _ Hz) as Hf.
  assert (Hff : Forall (Forall (fun f => zlen f < 2 ^ 63)) (map_to_list hashers).*2).
  { apply Forall_forall. intros fs Hfs. apply Forall_forall. intros f Hin. rewrite Forall_forall in Hf. apply Hf. apply elem_of_concat. eauto. }
  destruct (all_records_ok _ Hff) as [Hok Ht]. fold files in Ht.
  assert (Hrec : (map_to_list (the_records <$> hashers)).*2 = the_records <$> (map_to_list hashers).*2).
  { rewrite map_to_list_fmap, <- !list_fmap_compose. done. }
  set (all := concat (the_records <$> _)) in *.
  assert (Hinv : net_inv all [] (the_records <$> hashers) (net_start hashers finals)).
  { unfold all. rewrite <- Hrec. apply net_start_inv; [|done]. intros k. specialize (Hd k). destruct (hashers !! k) as [fs|] eqn:Ek, (finals !! k); try done.
    split; [done|]. rewrite Forall_forall in Hff. apply Hff. apply list_elem_of_fmap. exists (k, fs). split; [done|]. by apply elem_of_map_to_list. }
  eapply outcome_impl; [eapply net_run_ok; [exact Hok| |exact Hinv| |exact Hle]|].
  - intros w. rewrite Ht. pose proof (count_small w files). case_decide; [lia|done].
  - eapply net_finished; [exact Hinv|]. rewrite map_size_fmap. intros H0%map_size_empty_iff. done.
  - intros s Hfin Hw. destruct (Hfin Hw) as (Hq & Hs & Hm). split; [done|]. eexists. split; [done|]. intros w occ. rewrite Hm, Ht.
    pose proof (count_bound w (concat (words <$> files))). unfold occ. repeat case_decide; done || (try lia; f_equal; lia).
Qed.
End System.

(** ** Runs *)

Section Runs.
Context (batch mark : Z) (kernel : nat -> bool -> list char -> written) (network : nat -> kernel_readv).

Fixpoint hasher_run (l : list hasher_action) (s : SendThrottler) : res SendThrottler :=
  match l with
  | [] => Ok s
  | a :: l => if hasher_enabled a s then s ← hasher_perform batch mark kernel network a s; hasher_run l s
              else Fault (Thrown "not enabled")
  end.

Fixpoint calm_run (l : list hasher_action) (s : SendThrottler) : bool :=
  match l with
  | [] => true
  | a :: l => calm kernel network a s &&
              match hasher_perform batch mark kernel network a s with Ok s' => calm_run l s' | Fault _ => true end
  end.

Lemma hasher_run_reachable s0 l s s' :
  hasher_reachable batch mark kernel network s0 s -> calm_run l s = true -> hasher_run l s = Ok s' ->
  hasher_reachable batch mark kernel network s0 s'.
Proof.
  revert s. induction l as [|a l IH]; intros s Hr Hca; cbn; [by intros [= <-]|].
  cbn in Hca. apply andb_true_iff in Hca as [Hc Hca].
  destruct (hasher_enabled a s) eqn:En; [|done]. destruct (hasher_perform _ _ _ _ a s) as [s1|] eqn:E; cbn [mbind res_bind]; [|done].
  apply IH; [|done]. by eapply HasherStep.
Qed.
End Runs.

Abbreviation F := FileStep (only parsing).
Abbreviation R := (LoopStep RunFunctor) (only parsing).

Definition text : str := lit "to be or not to be".
Definition text_records : list (str * Z) := the_records kMaxHashSize map_to_list (fun _ => 7) 1 0 [text].


Example text_records_view : text_records = [(lit "not", 1); (lit "or", 1); (lit "to", 2); (lit "be", 2)].
Proof. vm_compute. reflexivity. Qed.

Definition run_text := hasher_run 4 4 (slow 1) (says []).
Definition hasher_start : SendThrottler := new_hasher small_buffer text_records.

(** Every record is a batch.  The first write would block and reaches the mark; the file thread
    waits with the second batch. *)
Definition to_wait : list hasher_action := [LoopStep Establish; F; F; F; F; R; R; F; F].

Example to_wait_view :
  match run_text to_wait hasher_start with
  | Ok s => Some (pc s, congestion_ s, content (buffer_ s), out (conn s))
  | Fault _ => None
  end = Some (CondWait, true, line (lit "or", 1), line (lit "not", 1)).
Proof. vm_compute. reflexivity. Qed.

(** The connection is drained and wakes it; the rest is sent, and the receiver closes. *)
Definition to_end : list hasher_action :=
  to_wait ++ [LoopStep (Poll POLLOUT); R; F; F; R; R; F; F; F; R; R; F; F; F; R; R; F; F; F; R; LoopStep (Poll POLLIN); R].

Definition hasher_of (m : res SendThrottler) : SendThrottler := match m with Ok s => s | Fault _ => hasher_start end.
Definition hasher_end : SendThrottler := hasher_of (run_text to_end hasher_start).

Lemma hasher_end_reachable : hasher_reachable 4 4 (slow 1) (says []) (new_hasher small_buffer text_records) hasher_end.
Proof.
  apply (hasher_run_reachable 4 4 (slow 1) (says []) _ to_end hasher_start); [constructor|vm_compute; reflexivity..].
Qed.

Definition hasher_waiting : SendThrottler := hasher_of (run_text to_wait hasher_start).

Lemma hasher_waiting_reachable : hasher_reachable 4 4 (slow 1) (says []) (new_hasher small_buffer text_records) hasher_waiting.
Proof.
  apply (hasher_run_reachable 4 4 (slow 1) (says []) _ to_wait hasher_start); [constructor|vm_compute; reflexivity..].
Qed.

Lemma slow_reliable_hasher k : WordCountFlow.reliable (slow k).
Proof. exact (slow_reliable k). Qed.

Lemma text_records_ok : Forall rec_ok text_records.
Proof.
  rewrite text_records_view. repeat constructor; cbn; try done; vm_compute; done.
Qed.

Lemma hasher_correct_witness :
  pc hasher_waiting = CondWait /\ isWriting (channel_ (conn hasher_waiting)) = true /\
  outcome LengthError (hasher_perform 4 4 (slow 1) (says []) (LoopStep (Poll POLLOUT)) hasher_waiting)
    (hasher_reachable 4 4 (slow 1) (says []) (new_hasher small_buffer text_records)).
Proof.
  destruct (hasher_correct 4 4 (slow 1) (slow_ok 1) (says []) (says_ok []) small_buffer text_records hasher_waiting
              ltac:(vm_compute; reflexivity) text_records_ok hasher_waiting_reachable) as (H1 & _ & H3).
  assert (Hp : pc hasher_waiting = CondWait) by (vm_compute; reflexivity). split; [done|]. split.
  - destruct (H3 Hp) as [_ [Hw|Hq]]; [done|]. exfalso. revert Hq. assert (functors (conn hasher_waiting) = []) as -> by (vm_compute; reflexivity).
    apply not_elem_of_nil.
  - apply H1; vm_compute; reflexivity.
Defined.

(** The receiver gets the hasher's lines in two pieces. *)
Definition one_hasher : gmap Z (list str) := {[ 5 := [text] ]}.
Definition one_final : gmap Z SendThrottler := {[ 5 := hasher_end ]}.
Definition delivery : list net_event := [Deliver 5 9; Deliver 5 16; Leave 5].

Lemma wordcount_correct_witness :
  outcome LengthError (net_run delivery (net_start small_buffer one_hasher one_final)) (fun s =>
    wires s = ∅ -> exists m, shard (rcv s) = Some m /\ m !! lit "to" = Some 2 /\ m !! lit "me" = None) /\
  match net_run delivery (net_start small_buffer one_hasher one_final) with
  | Ok s => bool_decide (wires s = ∅) | Fault _ => false end = true.
Proof.
  split; [|vm_compute; reflexivity].
  eapply outcome_impl; [apply (wordcount_correct 4 4 kMaxHashSize map_to_list (fun m => Permutation_refl _) (fun _ => 7) 1 0 ltac:(lia)
           (fun _ => slow 1) (fun _ => conj (slow_ok 1) (slow_reliable_hasher 1)) (fun _ => says []) (fun _ => says_ok []) small_buffer
           ltac:(vm_compute; reflexivity) one_hasher one_final delivery)|].
  - intros H0. by apply (f_equal (lookup 5)) in H0.
  - vm_compute. reflexivity.
  - intros k. unfold one_hasher, one_final. destruct (decide (k = 5)) as [->|Hne].
    + rewrite !lookup_singleton_eq. exists text_records. split_and!; [vm_compute; reflexivity|vm_compute; reflexivity|apply hasher_end_reachable].
    + by rewrite !lookup_singleton_ne.
  - vm_compute. reflexivity.
  - intros s Hs Hw. destruct (Hs Hw) as (_ & m & Em & Hm). exists m. split; [done|]. split.
    + rewrite Hm. by vm_compute.
    + rewrite Hm. by vm_compute.
Defined.

(** ** What the theorems exclude *)

(** The last batch is queued and shutdown() is called while the batch before it waits for the
    kernel.  shutdown() has set the connection's state at once, so the write event that drains the
    output shuts the write side down, before the queued batch runs: its write fails with EPIPE and
    the words are lost, though the receiver sees an orderly end. *)
Definition two_records : list (str * Z) := [(lit "a", 1); (lit "b", 1)].
Definition overtaken : list hasher_action :=
  [LoopStep Establish; F; F; F; F; R; F; F; F; F; F; F; LoopStep (Poll POLLOUT); R; R; R; LoopStep (Poll POLLIN); R].

Example shutdown_overtakes_send :
  match hasher_run 4 1000 (slow 1) (says []) overtaken (new_hasher small_buffer two_records) with
  | Ok s => Some (pc s, disconnectLatch_ s, wire (conn s), out (conn s), content (buffer_ s))
  | Fault _ => None
  end = Some (LatchWait, 0%nat, line (lit "a", 1), [], []).
Proof. vm_compute. reflexivity. Qed.

(** The receiver dies while the file thread waits for a congested connection: no callback will
    wake it. *)
Example dead_receiver_hangs :
  match run_text (to_wait ++ [LoopStep (Poll (Z.lor POLLHUP POLLERR)); R]) hasher_start with
  | Ok s => Some (pc s, congestion_ s, conn_ s, functors (conn s), events_ (channel_ (conn s)))
  | Fault _ => None
  end = Some (CondWait, true, false, [], 0).
Proof. vm_compute. reflexivity. Qed.

(** It dies earlier: the next batch is sent through a null pointer. *)
Example dead_receiver_crashes :
  run_text [LoopStep Establish; F; F; F; LoopStep (Poll (Z.lor POLLHUP POLLERR)); F] hasher_start = Fault OutOfBounds.
Proof. vm_compute. reflexivity. Qed.

(** A line without a number before its end takes the number of the next line. *)
Example number_of_next_line :
  match append (lit "x" ++ [chr 9] ++ kCRLF ++ lit "42" ++ [chr 9] ++ kCRLF) small_buffer with
  | Ok b => match onMessage 9 b false (start_receiver 1) with
            | Ok (r, _, _) => wordcounts_ r !! lit "x"
            | Fault _ => None
            end
  | Fault _ => None
  end = Some 42.
Proof. vm_compute. reflexivity. Qed.
