(* ===== verification/FileTransfer.v ===== *)
(** * File servers (src/examples/filetransfer: download2.cc, download3.cc)

    A client that connects is sent a file.  Both servers read a block, send it, and read the next
    when the write-complete callback says that the connection has taken it, so that no more than
    a block is ever held in memory; they differ in what they keep in the connection's context, a
    FILE pointer that is closed when the connection goes down (Module [Download2]) or a shared
    pointer that closes the file with the connection (Module [Download3]).

    The callbacks act on their own connection as the last thing of its step, and are run after
    it.  The block size is a parameter, [kBufSize] in the code.  Messages of the client go to the
    default callback, which drops them. *)
From S2P Require Import Prelude Buffer BufferTheory Channel TcpConnection TcpConnectionTheory ConnectionSteps.

Definition kBufSize : nat := 64 * 1024.

(** The actions of a connection's loop. *)
Definition loop_action (a : action) : bool := match a with Establish | Poll _ | RunFunctor => true | _ => false end.

Definition drop_input (c : TcpConnection) : TcpConnection := set_input (retrieveAll (inputBuffer_ c)) c.

Module Download2.
Section Server.
Context (size : nat) (file : option (list char)).
Context (kernel : nat -> bool -> list char -> written) (network : nat -> kernel_readv).

(** The context: empty, a null FILE pointer, an open file with what is left of it, or a pointer
    to a file that was closed. *)
Inductive ctx := NoContext | NullFile | OpenFile (rest : list char) | ClosedFile.

Record Server := mkServer { conn : TcpConnection; context : ctx }.

Definition onConnectionUp2 (s : Server) : res Server :=
  let c := setHighWaterMarkCallback (Z.of_nat size + 1) (conn s) in
  match file with
  | Some content => c ← send kernel true (take size content) c; Ok (mkServer c (OpenFile (drop size content)))
  | None => Ok (mkServer (shutdown true c) (context s))
  end.

Definition onConnectionDown2 (s : Server) : res Server :=
  match context s with
  | NoContext | NullFile => Ok s
  | OpenFile _ => Ok (mkServer (conn s) ClosedFile)
  | ClosedFile => Fault OutOfBounds
  end.

Definition onWriteComplete2 (s : Server) : res Server :=
  match context s with
  | NoContext => Fault (Thrown "bad_any_cast")
  | NullFile => Fault OutOfBounds
  | ClosedFile => Fault OutOfBounds
  | OpenFile rest =>
      match take size rest with
      | [] => Ok (mkServer (shutdown true (conn s)) NullFile)
      | block => c ← send kernel true block (conn s); Ok (mkServer c (OpenFile (drop size rest)))
      end
  end.

Definition on_event (e : event) (s : Server) : res Server :=
  match e with
  | EvUp => onConnectionUp2 s
  | EvDown => onConnectionDown2 s
  | EvMessage => Ok (mkServer (drop_input (conn s)) (context s))
  | EvWriteComplete => onWriteComplete2 s
  | EvHighWaterMark _ | EvClosed => Ok s
  end.

Fixpoint on_events (es : list event) (s : Server) : res Server :=
  match es with [] => Ok s | e :: es => s ← on_event e s; on_events es s end.

Definition step (a : action) (s : Server) : res Server :=
  c ← perform kernel network no_calls a (conn s);
  on_events (drop (length (trace (conn s))) (trace c)) (mkServer c (context s)).
End Server.
End Download2.

Module Download3.
Section Server.
Context (size : nat) (file : option (list char)).
Context (kernel : nat -> bool -> list char -> written) (network : nat -> kernel_readv).

(** The context: empty, or a shared pointer to the open file, with what is left of it. *)
Record Server := mkServer { conn : TcpConnection; context : option (list char) }.

Definition onConnectionUp (s : Server) : res Server :=
  let c := setHighWaterMarkCallback (Z.of_nat size + 1) (conn s) in
  match file with
  | Some content => c ← send kernel true (take size content) c; Ok (mkServer c (Some (drop size content)))
  | None => Ok (mkServer (shutdown true c) (context s))
  end.

Definition onWriteComplete (s : Server) : res Server :=
  match context s with
  | None => Fault (Thrown "bad_any_cast")
  | Some rest =>
      match take size rest with
      | [] => Ok (mkServer (shutdown true (conn s)) (Some []))
      | block => c ← send kernel true block (conn s); Ok (mkServer c (Some (drop size rest)))
      end
  end.

Definition on_event (e : event) (s : Server) : res Server :=
  match e with
  | EvUp => onConnectionUp s
  | EvMessage => Ok (mkServer (drop_input (conn s)) (context s))
  | EvWriteComplete => onWriteComplete s
  | EvDown | EvHighWaterMark _ | EvClosed => Ok s
  end.

Fixpoint on_events (es : list event) (s : Server) : res Server :=
  match es with [] => Ok s | e :: es => s ← on_event e s; on_events es s end.

Definition step (a : action) (s : Server) : res Server :=
  c ← perform kernel network no_calls a (conn s);
  on_events (drop (length (trace (conn s))) (trace c)) (mkServer c (context s)).
End Server.
End Download3.
