(* ===== verification/FileTransferTheory.v ===== *)
(** * The file server that keeps a shared pointer

    download3.cc sends the file, whole and in order, with at most a block in memory, whatever the
    client does; download2.cc reads from a file it has closed when the client leaves at the wrong
    moment. *)
From S2P Require Import Prelude Buffer BufferTheory Channel TcpConnection TcpConnectionTheory ConnectionSteps FileTransfer.
Import Download3.

(** Write-complete callbacks in the queue. *)
Definition pending (l : list task) : nat := length (filter (fun t => t = TWriteComplete) l).

Lemma pending_app l1 l2 : pending (l1 ++ l2) = (pending l1 + pending l2)%nat.
Proof. unfold pending. by rewrite filter_app, length_app. Qed.

Lemma pending_none l : TWriteComplete ∉ l -> pending l = 0%nat.
Proof.
  intros Hn. unfold pending. induction l as [|t l IH]; [done|]. rewrite not_elem_of_cons in Hn. destruct Hn as [Hne Hn].
  rewrite filter_cons_False by done. by apply IH.
Qed.

Section Server.
Context (size : nat) (Hsize : (0 < size)%nat /\ Z.of_nat size <= max_size).
Context (content : list char).
Context (kernel : nat -> bool -> list char -> written) (Hkernel : kernel_ok kernel).
Context (network : nat -> kernel_readv) (Hnetwork : forall i, readv_contract (network i)).

Abbreviation step := (step size (Some content) kernel network).
Abbreviation onWriteComplete := (onWriteComplete size kernel).

(** write(2) on an open connection fails for no other reason than a full buffer, and takes an
    empty block. *)
Definition steady : Prop := (forall i d, kernel i false d <> PeerGone) /\ (forall i, kernel i false [] = Wrote 0).

(** The connection is up, with [rest] of the file still to be read. *)
Record serving (c : TcpConnection) (rest : list char) : Prop := {
  sv_live : live_inv c;
  sv_life : life c = [EvUp];
  sv_wc : writeCompleteCallback_ c = true;
  sv_tasks : Forall flow_task (functors c);
  sv_pending : (pending (functors c) <= 1)%nat /\ (pending (functors c) = 1%nat -> out c = []);
  sv_len : zlen (out c) <= Z.of_nat size;
  sv_stream : steady -> accepted c ++ rest = content;
  sv_state : state_ c = kConnected /\ fin c = false /\ (steady -> pending (functors c) = 1%nat \/ out c <> []) \/
             state_ c = kDisconnecting /\ rest = [] /\ out c = [] /\ pending (functors c) = 0%nat
}.

(** The client has left. *)
Record left_conn (c : TcpConnection) : Prop := {
  lf_over : over_inv c;
  lf_tasks : Forall (fun t => flow_task t \/ t = TConnectDestroyed) (functors c);
  lf_len : zlen (out c) <= Z.of_nat size;
  lf_stream : steady -> accepted c `prefix_of` content /\ (fin c = true -> accepted c = content /\ out c = [])
}.

Inductive good (s : Server) : Prop :=
| Before : fresh_inv (conn s) -> writeCompleteCallback_ (conn s) = true -> good s
| Serving rest : context s = Some rest -> serving (conn s) rest -> good s
| Left rest : context s = Some rest -> left_conn (conn s) -> good s.

(** ** Sending a block *)

Lemma block_small (l : list char) : zlen (take size l) <= Z.of_nat size.
Proof. unfold zlen. rewrite length_take. lia. Qed.

(** A connection that is up, idle, and between two blocks. *)
Lemma send_block c rest :
  live_inv c -> life c = [EvUp] -> writeCompleteCallback_ c = true -> Forall flow_task (functors c) -> state_ c = kConnected -> fin c = false ->
  pending (functors c) = 0%nat -> out c = [] -> (steady -> accepted c ++ rest = content) ->
  outcome LengthError (send kernel true (take size rest) c) (fun c' => serving c' (drop size rest)).
Proof using Hkernel Hsize.
  intros Hl Hlf Hw Ht Hs Hf Hp Ho Hst. unfold send. rewrite bool_decide_true by done. pose proof (block_small rest) as Hb.
  assert (Hz : zlen (take size rest) <= max_size) by lia.
  destruct (sendInLoop_live kernel Hkernel _ c Hl Hz) as [(c' & E & Hl' & _)|E]; [|by right]. left. exists c'. split; [done|].
  destruct (sendInLoop_sent kernel _ c c' Hkernel Hl Hz E) as [[S1 S2 S3 S4 S5] _ (new & Hn & Hnf & _) _ SL S9].
  destruct (sendInLoop_answered kernel _ c c' Hkernel Hl Ho Hw Hz E) as [(new' & Hn' & Han)].
  assert (new' = new) as -> by (rewrite Hn in Hn'; by apply app_inv_head in Hn').
  assert (Hpn : pending (functors c') = pending new) by (by rewrite Hn, pending_app, Hp).
  split; try done.
  - rewrite <- Hlf. by apply life_same.
  - congruence.
  - rewrite Hn. by apply Forall_app.
  - rewrite Hpn. destruct Han as [[-> Hout]|(Hno & _)]; [by split|]. rewrite pending_none by done. split; [lia|done].
  - rewrite Ho, zlen_nil in SL. lia.
  - intros St. rewrite S9 by (split; [done|apply St]). rewrite <- (assoc_L app), take_drop. by apply Hst.
  - left. split_and!; [congruence|congruence|]. intros St. rewrite Hpn. destruct Han as [[-> _]|(_ & _ & [Hout|[[Hd Hzero]|Hgone]])]; [by left|by right| |].
    + exfalso. rewrite Hf in Hzero. by apply (Hzero 0), St.
    + rewrite Hf in Hgone. by destruct (proj1 St _ _ Hgone).
Qed.

(** The end of the file. *)
Lemma shut_serving c :
  live_inv c -> life c = [EvUp] -> writeCompleteCallback_ c = true -> Forall flow_task (functors c) -> state_ c = kConnected ->
  pending (functors c) = 0%nat -> out c = [] -> (steady -> accepted c = content) -> serving (shutdown true c) [].
Proof.
  intros Hl Hlf Hw Ht Hs Hp Ho Hst. unfold shutdown. rewrite bool_decide_true by done.
  destruct (live_disconnecting _ Hl) as [Hd _]. destruct (shutdownInLoop_live _ Hd) as [Hd' _].
  set (c' := shutdownInLoop (setState kDisconnecting c)) in *.
  assert (E : life c' = life c /\ writeCompleteCallback_ c' = writeCompleteCallback_ c /\ functors c' = functors c /\ out c' = out c /\
    accepted c' = accepted c /\ state_ c' = kDisconnecting) by (unfold c', shutdownInLoop; by destruct (negb _)).
  destruct E as (E1 & E2 & E3 & E4 & E5 & E6). split; rewrite ?E1, ?E2, ?E3, ?E4, ?E5; try done.
  - rewrite Hp. split; [lia|done].
  - rewrite Ho, zlen_nil. lia.
  - rewrite app_nil_r. done.
  - right. done.
Qed.

(** ** Steps *)

Lemma step_eq a s c es :
  perform kernel network no_calls a (conn s) = Ok c -> trace c = trace (conn s) ++ es ->
  step a s = on_events size (Some content) kernel es (mkServer c (context s)).
Proof. intros E Ht. unfold Download3.step. rewrite E. cbn [mbind res_bind]. by rewrite Ht, drop_app_length. Qed.

Lemma up_step s : fresh_inv (conn s) -> writeCompleteCallback_ (conn s) = true -> outcome LengthError (step Establish s) good.
Proof using Hkernel Hsize.
  intros Hf Hwc. destruct (established_up kernel Hkernel _ Hf) as (c' & E & Hl & Hlf & Hs & Hfi & Hr & Ho & Hfu & Hi & Ha & Ht).
  assert (Hwc' : writeCompleteCallback_ c' = true).
  { revert E. unfold connectEstablished. rewrite bool_decide_true by apply Hf. cbn. by intros [= <-]. }
  rewrite (step_eq Establish s c' [EvUp] E Ht). cbn [on_events on_event]. unfold onConnectionUp. cbn [conn].
  set (c2 := setHighWaterMarkCallback _ c'). assert (Hl2 : live_inv c2) by (destruct Hl; by split).
  destruct (send_block c2 content) as [(c3 & -> & Hsv)| ->]; try done; cbn; [by rewrite Hfu|by rewrite Hfu| | |by right].
  - intros _. rewrite Ha. by destruct Hf as [_ _ _ (_ & _ & ->)].
  - apply outcome_Ok. by eapply Serving.
Qed.

(** The write-complete functor. *)
Lemma write_complete_step s rest l :
  context s = Some rest -> serving (conn s) rest -> functors (conn s) = TWriteComplete :: l -> outcome LengthError (step RunFunctor s) good.
Proof using Hkernel Hsize.
  intros Hc [V1 V2 V3 V4 [V5 V6] V7 V8 V9] E. rewrite E in *. apply Forall_cons in V4 as [_ V4].
  assert (Hp : pending (TWriteComplete :: l) = S (pending l)) by done. rewrite Hp in *.
  destruct V9 as [(Hs & Hf & _)|(_ & _ & _ & H0)]; [|lia]. specialize (V6 ltac:(lia)).
  rewrite (step_eq RunFunctor s (emit EvWriteComplete (set_functors l (conn s))) [EvWriteComplete]); [|cbn [perform]; by rewrite E|done].
  cbn [on_events on_event]. unfold Download3.onWriteComplete. cbn [context conn]. rewrite Hc.
  assert (Hl : live_inv (emit EvWriteComplete (set_functors l (conn s)))).
  { by eapply live_emit, live_took. }
  assert (Hlf : life (emit EvWriteComplete (set_functors l (conn s))) = [EvUp]).
  { by apply life_took. }
  destruct (take size rest) as [|x block] eqn:Eb.
  - assert (rest = []) as -> by (destruct rest, size; try done; lia). cbn [mbind res_bind on_events]. apply outcome_Ok.
    eapply Serving; [done|]. cbn [conn]. apply shut_serving; try done; [change (pending l = 0%nat); lia|]. intros St. by rewrite <- (V8 St), app_nil_r.
  - rewrite <- Eb. destruct (send_block (emit EvWriteComplete (set_functors l (conn s))) rest) as [(c' & -> & Hsv)| ->]; try done; [change (pending l = 0%nat); lia| |by right].
    apply outcome_Ok. by eapply Serving.
Qed.

Lemma high_water_step s rest n l :
  context s = Some rest -> serving (conn s) rest -> functors (conn s) = THighWaterMark n :: l -> outcome LengthError (step RunFunctor s) good.
Proof.
  intros Hc [V1 V2 V3 V4 [V5 V6] V7 V8 V9] E. rewrite E in *. apply Forall_cons in V4 as [_ V4].
  rewrite (step_eq RunFunctor s (emit (EvHighWaterMark n) (set_functors l (conn s))) [EvHighWaterMark n]); [|cbn [perform]; by rewrite E|done].
  apply outcome_Ok. eapply Serving; [done|]. cbn [conn]. split; try done.
  - by eapply live_emit, live_took.
  - by apply life_took.
Qed.

Lemma serving_stays bytes c c' rest : serving c rest -> stays bytes c c' -> serving c' rest.
Proof.
  intros [V1 V2 V3 V4 [V5 V6] V7 V8 V9] [[L1 L2] E1 E2 E3 E4 E5 EL E6 E7 E8 E9 E10].
  assert (Hnil : out c = [] -> out c' = []).
  { intros Ho. rewrite Ho, zlen_nil in EL. apply zlen_zero_inv. pose proof (zlen_nonneg (out c')). lia. }
  assert (Hf : functors c' = functors c /\ (out c <> [] -> out c' <> []) \/
               functors c' = functors c ++ [TWriteComplete] /\ out c' = [] /\ pending (functors c) = 0%nat /\ out c <> []).
  { destruct E8 as [E8|[E8 _]]; [left|right].
    - split; [done|]. intros Ho Hn. specialize (E9 Ho Hn V3). rewrite E8 in E9. by apply no_new_task in E9.
    - destruct (E10 E8) as [Ho' Ho]. split_and!; try done. destruct (decide (pending (functors c) = 1%nat)) as [H1|]; [by destruct Ho; apply V6|lia]. }
  split; try done; try congruence; [destruct Hf as [[-> _]|(-> & _)]; [done|apply Forall_app; split; [done|apply Forall_singleton; by left]]| |lia|by rewrite E5|].
  - destruct Hf as [[-> Hk]|(-> & Ho & Hp & _)]; [split; [done|]; intros H1; by apply Hnil, V6|].
    rewrite pending_app, Hp. change (pending [TWriteComplete]) with 1%nat; split; [lia|done].
  - rewrite E1. destruct V9 as [(Hs & Hfi & Hlive)|(Hs & Hr & Ho & Hp)]; [left|right].
    + split_and!; [done|by rewrite E3|]. intros St. destruct Hf as [[-> Hk]|(-> & Ho & Hp & _)]; [|left; by rewrite pending_app, Hp].
      destruct (Hlive St); [by left|right; by apply Hk].
    + split_and!; [done|done|by apply Hnil|]. destruct Hf as [[-> _]|(_ & _ & _ & ?)]; [done|congruence].
Qed.

Lemma serving_closes c c' rest : serving c rest -> closes c c' -> left_conn c'.
Proof.
  intros [V1 V2 V3 V4 V5 V7 V8 V9] [C1 C2 C3 C4 C4' CF C5 C6]. split; [done| |by rewrite C4'|].
  - rewrite C6. apply Forall_app. split; [|apply Forall_singleton; by right]. eapply Forall_impl; [exact V4|]. by left.
  - intros St. rewrite C3, C4', CF. split; [rewrite <- (V8 St); by apply prefix_app_r|]. intros F.
    destruct V9 as [(_ & Hfi & _)|(_ & -> & Ho & _)]; [congruence|]. split; [by rewrite <- (V8 St), app_nil_r|done].
Qed.

Lemma serving_poll_step revents s rest :
  context s = Some rest -> serving (conn s) rest -> enabled (Poll revents) (conn s) = true -> outcome LengthError (step (Poll revents) s) good.
Proof using Hkernel Hnetwork Hsize.
  intros Hc Hv Hen. pose proof Hen as [[_ Hrep]%andb_true_iff Hur%negb_true_iff]%andb_true_iff.
  pose proof (sv_live _ _ Hv) as Hl. pose proof (sv_life _ _ Hv) as Hlf.
  destruct (dispatch_ok kernel Hkernel network Hnetwork no_calls no_calls_ok revents _ Hl Hlf Hrep Hur) as [(c' & E & _)|E].
  2: { right. unfold Download3.step. cbn [perform]. by rewrite E. }
  destruct (poll_profile kernel Hkernel network Hnetwork revents _ c' Hl Hlf Hen E) as [(bytes & Hs)|Hcl].
  - rewrite (step_eq (Poll revents) s c' _ E (sy_trace _ _ _ Hs)). pose proof (serving_stays _ _ _ _ Hv Hs) as Hv'.
    destruct (decide (bytes = [])); cbn [on_events on_event mbind res_bind]; apply outcome_Ok; (eapply Serving; [exact Hc|]); [done|].
    cbn [conn]. destruct Hv' as [V1 V2 V3 V4 V5 V7 V8 V9]. split; try done. apply live_input; [done|]. apply retrieveAll_spec, V1.
  - rewrite (step_eq (Poll revents) s c' _ E (cl_trace _ _ Hcl)). cbn [on_events on_event mbind res_bind]. apply outcome_Ok.
    eapply Left; [exact Hc|]. by eapply serving_closes.
Qed.

Lemma left_step s rest :
  context s = Some rest -> left_conn (conn s) -> enabled RunFunctor (conn s) = true -> exists s', step RunFunctor s = Ok s' /\ good s'.
Proof using Hkernel Hsize.
  intros Hc [O1 O2 O3 O4] Hen. cbn in Hen. destruct (functors (conn s)) as [|t l] eqn:E; [done|]. apply Forall_cons in O2 as [Ht O2].
  destruct (over_functor kernel Hkernel _ t l O1 E) as (c' & es & Er & Ho & Hout & Ha & Hfu & Hfin & Htr & Hes);
    [by intros [d ->]; destruct Ht as [[?|[??]]|?]|by intros ->; destruct Ht as [[?|[??]]|?]|done|].
  assert (Hl : left_conn c').
  { split; [done|by rewrite Hfu|by rewrite Hout|]. rewrite Ha, Hout, Hfin; [done|]. intros ->. by destruct Ht as [[?|[??]]|?]. }
  rewrite (step_eq RunFunctor s c' es); [|cbn [perform]; by rewrite E|done].
  destruct Hes as [->|[->|(n & ->)]]; cbn [on_events on_event mbind res_bind]; [eexists; split; [done|]; by eapply Left| |eexists; split; [done|]; by eapply Left].
  unfold Download3.onWriteComplete. cbn [context conn]. rewrite Hc.
  assert (Hs : forall d, send kernel true d c' = Ok c') by (intros d; unfold send; by rewrite (oi_state _ Ho)).
  assert (Hsh : shutdown true c' = c') by (unfold shutdown; by rewrite (oi_state _ Ho)).
  destruct (take size rest) as [|x block]; rewrite ?Hs, ?Hsh; cbn [mbind res_bind]; eexists; (split; [done|]); by eapply Left.
Qed.

Lemma server_step a s : good s -> loop_action a = true -> enabled a (conn s) = true -> outcome LengthError (step a s) good.
Proof using Hkernel Hnetwork Hsize.
  intros Hg Ha Hen. destruct Hg as [Hf Hw|rest Hc Hv|rest Hc Hl]; destruct a; try done.
  - by apply up_step.
  - cbn in Hen. unfold isNoneEvent in Hen. by rewrite (fi_events _ Hf) in Hen.
  - cbn in Hen. by rewrite (fi_functors _ Hf) in Hen.
  - cbn in Hen. apply bool_decide_eq_true in Hen. pose proof (li_alive _ (sv_live _ _ Hv)) as H0. by rewrite Hen in H0.
  - by eapply serving_poll_step.
  - cbn in Hen. destruct (functors (conn s)) as [|t l] eqn:E; [done|].
    pose proof (sv_tasks _ _ Hv) as Ht. rewrite E in Ht. apply Forall_cons in Ht as [[->|(n & ->)] _]; [by eapply write_complete_step|by eapply high_water_step].
  - cbn in Hen. apply bool_decide_eq_true in Hen. pose proof (oi_state _ (lf_over _ Hl)). congruence.
  - cbn in Hen. unfold isNoneEvent in Hen. by rewrite (oi_events _ (lf_over _ Hl)) in Hen.
  - destruct (left_step s rest Hc Hl Hen) as (s' & -> & ?). by apply outcome_Ok.
Qed.

(** ** The server *)

Inductive server_reachable (s0 : Server) : Server -> Prop :=
| ServerInit : server_reachable s0 s0
| ServerStep a s s' : server_reachable s0 s -> loop_action a = true -> enabled a (conn s) = true -> step a s = Ok s' -> server_reachable s0 s'.

(** A connection TcpServer has made; server.setWriteCompleteCallback gave it the callback. *)
Definition new_server (b : Buffer) : Server := mkServer (newTcpConnection 1 0 b b true false) None.

Lemma server_good b s : newBuffer kInitialSize = Ok b -> server_reachable (new_server b) s -> good s.
Proof using Hkernel Hnetwork Hsize.
  intros Hb. induction 1 as [|a s s' _ IH Ha Hen E].
  - apply Before; [|done]. by apply fresh_new.
  - destruct (server_step a s IH Ha Hen) as [(s2 & E2 & ?)|E2]; congruence.
Qed.

(** [C18] download3.cc sends its file.  Whatever the client does and however the kernel cuts the
    writes: no step fails; no more than a block waits in the output buffer, however long the file;
    on a healthy connection the bytes on the wire are a prefix of the file, and all of it once the
    write side is shut down, so a client that sees the end of the stream has the file; and while the
    connection is up, there is output that it watches to write or a callback queued that reads the
    next block, so the transfer does not stall. *)
Theorem download_correct b s :
  newBuffer kInitialSize = Ok b -> server_reachable (new_server b) s ->
  (forall a, loop_action a = true -> enabled a (conn s) = true -> outcome LengthError (step a s) (server_reachable (new_server b))) /\
  zlen (out (conn s)) <= Z.of_nat size /\
  (steady -> wire (conn s) `prefix_of` content /\ (fin (conn s) = true -> wire (conn s) = content) /\
     (state_ (conn s) = kConnected -> isWriting (channel_ (conn s)) = true \/ TWriteComplete ∈ functors (conn s))).
Proof using Hkernel Hnetwork Hsize.
  intros Hb Hr. pose proof (server_good b s Hb Hr) as Hg. split_and!.
  - intros a Ha Hen. destruct (server_step a s Hg Ha Hen) as [(s' & E & _)|E]; [|by right].
    left. exists s'. split; [done|]. by eapply ServerStep.
  - destruct Hg as [Hf _|rest _ Hv|rest _ Hl]; [|apply Hv|apply Hl]. destruct Hf as [_ _ _ (Ho & _)]. unfold out. rewrite Ho, zlen_nil. lia.
  - intros St. destruct Hg as [Hf _|rest _ Hv|rest _ Hl].
    + destruct Hf as [Hs _ _ (_ & Hw & _) _ _ _ Hfi]. rewrite Hw, Hfi, Hs. split_and!; [apply prefix_nil|done..].
    + pose proof (sv_live _ _ Hv) as Hli. pose proof (li_stream _ Hli) as Hw. split_and!.
      * rewrite <- (sv_stream _ _ Hv St), <- Hw, <- (assoc_L app). by apply prefix_app_r.
      * intros F. destruct (sv_state _ _ Hv) as [(_ & Hfi & _)|(_ & -> & Ho & _)]; [congruence|].
        rewrite <- (sv_stream _ _ Hv St), <- Hw. fold (out (conn s)). by rewrite Ho, !app_nil_r.
      * intros Hs. destruct (sv_state _ _ Hv) as [(_ & _ & Hp)|(Hd & _)]; [|congruence]. destruct (Hp St) as [Hp1|Ho].
        -- right. unfold pending in Hp1. destruct (filter _ _) as [|t l] eqn:E; [done|].
           assert (Hin : t ∈ t :: l) by left. rewrite <- E in Hin. by apply list_elem_of_filter in Hin as [-> ?].
        -- left. destruct (li_mask _ Hli) as (r & w & Hm & Hwr). rewrite (mask_isWriting _ _ _ Hm). by apply Hwr.
    + destruct (lf_stream _ Hl St) as [Hp Hf]. pose proof (oi_stream _ (lf_over _ Hl)) as Hw. split_and!.
      * etransitivity; [|exact Hp]. rewrite <- Hw. by apply prefix_app_r.
      * intros F. destruct (Hf F) as [<- Ho]. rewrite <- Hw. fold (out (conn s)). by rewrite Ho, app_nil_r.
      * intros Hs. pose proof (oi_state _ (lf_over _ Hl)). congruence.
Qed.
End Server.

(** ** Runs *)

(** A kernel that takes at most two bytes at a time. *)
Definition sips (i : nat) (f : bool) (d : list char) : written := if f then PeerGone else Wrote (Z.min 2 (zlen d)).

Lemma sips_ok : kernel_ok sips.
Proof. split; [|done]. intros i f d n. unfold sips. destruct f; [done|]. intros [= <-]. pose proof (zlen_nonneg d). lia. Qed.

Lemma sips_steady : steady sips.
Proof. done. Qed.

(** A client that sends nothing and closes when it is read from. *)
Definition silent (i : nat) : kernel_readv := fun _ => inr [].

Lemma silent_ok i : readv_contract (silent i).
Proof. intros iov bytes Hf [= <-]. rewrite zlen_nil. induction Hf; cbn; lia. Qed.

Definition novel : list char := lit "abcdefg".

Section Runs.
Context (kernel : nat -> bool -> list char -> written).

Fixpoint run3 (l : list action) (s : Server) : res Server :=
  match l with
  | [] => Ok s
  | a :: l => if loop_action a && enabled a (conn s) then s ← step 3 (Some novel) kernel silent a s; run3 l s else Fault (Thrown "not enabled")
  end.

Fixpoint run2 (l : list action) (s : Download2.Server) : res Download2.Server :=
  match l with
  | [] => Ok s
  | a :: l => if loop_action a && enabled a (Download2.conn s) then s ← Download2.step 3 (Some novel) kernel silent a s; run2 l s
              else Fault (Thrown "not enabled")
  end.

Lemma run3_reachable s0 l s s' :
  server_reachable 3 novel kernel silent s0 s -> run3 l s = Ok s' -> server_reachable 3 novel kernel silent s0 s'.
Proof.
  revert s. induction l as [|a l IH]; intros s Hr; cbn; [by intros [= <-]|].
  destruct (loop_action a && enabled a (conn s)) eqn:En; [|done]. apply andb_true_iff in En as [Ha En].
  destruct (step _ _ _ _ a s) as [s1|] eqn:E; cbn [mbind res_bind]; [|done]. apply IH. by eapply ServerStep.
Qed.
End Runs.

Definition server_of (m : res Server) : Server := match m with Ok s => s | Fault _ => new_server small_buffer end.

(** Blocks of three bytes, of which two go out at once and one with the next write event. *)
Definition half_way : list action := [Establish; Poll POLLOUT; RunFunctor].
Definition all_sent : list action := half_way ++ [Poll POLLOUT; RunFunctor; RunFunctor].

Example half_way_view :
  let s := server_of (run3 sips half_way (new_server small_buffer)) in
  (wire (conn s), out (conn s), context s) = (lit "abcde", lit "f", Some (lit "g")).
Proof. vm_compute. reflexivity. Qed.

Example all_sent_view :
  let s := server_of (run3 sips all_sent (new_server small_buffer)) in
  (wire (conn s), fin (conn s), state_ (conn s)) = (novel, true, kDisconnecting).
Proof. vm_compute. reflexivity. Qed.

Lemma download_correct_witness :
  let s := server_of (run3 sips all_sent (new_server small_buffer)) in
  zlen (out (conn s)) <= 3 /\ wire (conn s) = novel /\
  outcome LengthError (step 3 (Some novel) sips silent (Poll POLLIN) s) (server_reachable 3 novel sips silent (new_server small_buffer)).
Proof.
  intros s. assert (Hr : server_reachable 3 novel sips silent (new_server small_buffer) s).
  { apply (run3_reachable sips _ all_sent (new_server small_buffer)); [constructor|vm_compute; reflexivity]. }
  destruct (download_correct 3 ltac:(split; [lia|vm_compute; done]) novel sips sips_ok silent silent_ok small_buffer s ltac:(vm_compute; reflexivity) Hr)
    as (H1 & H2 & H3).
  split; [exact H2|]. split; [|by apply H1; vm_compute].
  apply (H3 sips_steady). vm_compute. reflexivity.
Defined.

(** download2.cc: a block goes out at once, so that the next write-complete callback is queued while
    the functors run, and waits for the next iteration; the client closes before it.  The connection
    callback has closed the file, and the write-complete callback reads from it. *)
Definition greedy (i : nat) (f : bool) (d : list char) : written := if f then PeerGone else Wrote (zlen d).

Definition leaves_early : list action := [Establish; RunFunctor; Poll POLLIN; RunFunctor].

Example download2_reads_closed_file :
  run2 greedy leaves_early (Download2.mkServer (newTcpConnection 1 0 small_buffer small_buffer true false) Download2.NoContext) = Fault OutOfBounds.
Proof. vm_compute. reflexivity. Qed.

Example download3_does_not :
  match run3 greedy leaves_early (new_server small_buffer) with Ok s => Some (wire (conn s)) | Fault _ => None end = Some (lit "abcdef").
Proof. vm_compute. reflexivity. Qed.
