(* ===== verification/Chat.v ===== *)
(** * Chat servers with several threads (src/asio/chat)

    server_threaded_efficient.cc (Module [Efficient]) keeps its connections in a set behind a
    shared pointer: who broadcasts takes the pointer under the mutex and walks the set without it,
    and who changes the set copies it first when anybody else holds it.  The sets live in a store
    here, and walking one reads the store at every step.

    server_threaded_highperformance.cc (Module [HighPerformance]) has no shared set: a message is
    queued in every loop, and each loop sends it to the connections it owns.

    A connection is a number, the rank of its pointer in the set.  What a thread does under the
    mutex is one step; what it does without is one step per connection.  What codec_.send does
    with a message is the subject of Codec.v and EndToEnd.v. *)
From S2P Require Import Prelude.

Abbreviation str := (list char) (only parsing).

Module Efficient.

(** A thread in onStringMessage: the set it holds and where it is in it. *)
Record Broadcast := mkBroadcast { message : str; held : positive; visited : option Z }.

Record ChatServer := mkServer { lists : gmap positive (gset Z); connections_ : positive; broadcasts : gmap Z Broadcast }.

Definition newServer : ChatServer := mkServer {[ 1%positive := ∅ ]} 1 ∅.

(** connections_.unique() *)
Definition unique (s : ChatServer) : bool := bool_decide (map_Forall (fun _ b => held b <> connections_ s) (broadcasts s)).

Definition update_connections (f : gset Z -> gset Z) (s : ChatServer) : res ChatServer :=
  l ← get (lists s !! connections_ s);
  Ok (mkServer (<[connections_ s := f l]> (lists s)) (connections_ s) (broadcasts s)).

(** connections_.reset(new ConnectionList( *connections_)); the old set is somebody else's now. *)
Definition copy (s : ChatServer) : res ChatServer :=
  l ← get (lists s !! connections_ s);
  let p := fresh (dom (lists s)) in
  Ok (mkServer (<[p := l]> (lists s)) p (broadcasts s)).

Definition onConnection (connected : bool) (conn : Z) (s : ChatServer) : res ChatServer :=
  s ← (if negb (unique s) then copy s else Ok s);
  _ ← check (unique s);
  update_connections (fun l => if connected then {[conn]} ∪ l else l ∖ {[conn]}) s.

(** The start of onStringMessage in thread [t]: getConnectionList. *)
Definition getConnectionList (t : Z) (msg : str) (s : ChatServer) : ChatServer :=
  mkServer (lists s) (connections_ s) (<[t := mkBroadcast msg (connections_ s) None]> (broadcasts s)).

(** The element an iterator goes to. *)
Definition later (v : option Z) (x : Z) : bool := match v with None => true | Some y => y <? x end.
Fixpoint least (l : list Z) : option Z :=
  match l with [] => None | x :: l => Some (match least l with None => x | Some y => Z.min x y end) end.
Definition next (v : option Z) (l : gset Z) : option Z := least (filter (fun x => later v x = true) (elements l)).

(** The last holder of a set that is no longer the server's frees it. *)
Definition release (p : positive) (s : ChatServer) : ChatServer :=
  if bool_decide (p = connections_ s) || bool_decide (~ map_Forall (fun _ b => held b <> p) (broadcasts s)) then s
  else mkServer (delete p (lists s)) (connections_ s) (broadcasts s).

(** A turn of the loop in onStringMessage, with the connection and the message codec_.send is
    called with, or the end of the loop. *)
Definition advance (t : Z) (s : ChatServer) : res (option (Z * str) * ChatServer) :=
  b ← get (broadcasts s !! t);
  l ← get (lists s !! held b);
  match next (visited b) l with
  | Some conn =>
      Ok (Some (conn, message b), mkServer (lists s) (connections_ s) (<[t := mkBroadcast (message b) (held b) (Some conn)]> (broadcasts s)))
  | None => Ok (None, release (held b) (mkServer (lists s) (connections_ s) (delete t (broadcasts s))))
  end.

Inductive action := Connection (connected : bool) (conn : Z) | Broadcasts (t : Z) (msg : str) | Advance (t : Z).

(** What is seen from outside: a connection callback with the connection's state, a message that
    comes in, a message that goes out, and the return of onStringMessage. *)
Inductive event := Is (conn : Z) (connected : bool) | Starts (t : Z) (msg : str) | Sends (t conn : Z) (msg : str) | Returns (t : Z).

Definition step (a : action) (s : ChatServer) : res (event * ChatServer) :=
  match a with
  | Connection connected conn => s ← onConnection connected conn s; Ok (Is conn connected, s)
  | Broadcasts t msg => Ok (Starts t msg, getConnectionList t msg s)
  | Advance t => r ← advance t s; Ok (match fst r with Some (conn, msg) => Sends t conn msg | None => Returns t end, snd r)
  end.

(** A thread broadcasts one message at a time. *)
Definition enabled (a : action) (s : ChatServer) : bool :=
  match a with
  | Connection _ _ => true
  | Broadcasts t _ => bool_decide (broadcasts s !! t = None)
  | Advance t => bool_decide (is_Some (broadcasts s !! t))
  end.
End Efficient.

Module HighPerformance.

(** A loop: its LocalConnections (none before threadInit) and the functors queued in it. *)
Record LocalLoop := mkLoop { localConnections : option (gset Z); queue : list str }.

(** [log] and [received] are ghosts: all messages in the order of the mutex, and what each
    connection was sent. *)
Record ChatServer := mkServer { all_loops : gmap Z LocalLoop; loops_ : gset Z; log : list str; received : gmap Z (list str) }.

Definition with_loop (l : Z) (e : LocalLoop) (s : ChatServer) : ChatServer :=
  mkServer (<[l := e]> (all_loops s)) (loops_ s) (log s) (received s).

Definition threadInit (l : Z) (s : ChatServer) : res ChatServer :=
  e ← get (all_loops s !! l);
  _ ← check (bool_decide (localConnections e = None));
  let s := with_loop l (mkLoop (Some ∅) (queue e)) s in
  Ok (mkServer (all_loops s) ({[l]} ∪ loops_ s) (log s) (received s)).

(** LocalConnections::instance() makes the set if there is none. *)
Definition instance (e : LocalLoop) : gset Z := default ∅ (localConnections e).

Definition onConnectionLocal (l : Z) (connected : bool) (conn : Z) (s : ChatServer) : res ChatServer :=
  e ← get (all_loops s !! l);
  let set := if connected then {[conn]} ∪ instance e else instance e ∖ {[conn]} in
  let s := with_loop l (mkLoop (Some set) (queue e)) s in
  Ok (if connected then mkServer (all_loops s) (loops_ s) (log s) (<[conn := []]> (received s)) else s).

Definition onStringMessage (msg : str) (s : ChatServer) : ChatServer :=
  mkServer (map_imap (fun l e => Some (if bool_decide (l ∈ loops_ s) then mkLoop (localConnections e) (queue e ++ [msg]) else e)) (all_loops s))
    (loops_ s) (log s ++ [msg]) (received s).

(** distributeMessage, the next functor of loop [l]. *)
Definition distributeMessage (l : Z) (s : ChatServer) : res ChatServer :=
  e ← get (all_loops s !! l);
  match queue e with
  | [] => Ok s
  | msg :: rest =>
      let s := with_loop l (mkLoop (localConnections e) rest) s in
      let set := instance e in
      Ok (mkServer (all_loops s) (loops_ s) (log s)
            (map_imap (fun c ms => Some (if bool_decide (c ∈ set) then ms ++ [msg] else ms)) (received s)))
  end.

Inductive action := ThreadInit (l : Z) | Connection (l : Z) (connected : bool) (conn : Z) | Message (msg : str) | Distribute (l : Z).

Definition step (a : action) (s : ChatServer) : res ChatServer :=
  match a with
  | ThreadInit l => threadInit l s
  | Connection l connected conn => onConnectionLocal l connected conn s
  | Message msg => Ok (onStringMessage msg s)
  | Distribute l => distributeMessage l s
  end.

Definition in_loop (l conn : Z) (s : ChatServer) : bool :=
  match all_loops s !! l with Some e => bool_decide (conn ∈ instance e) | None => false end.

(** TcpServer calls threadInit once in each loop before it gives it connections; a connection is
    new when it comes up, and goes down in its loop. *)
Definition enabled (a : action) (s : ChatServer) : bool :=
  match a with
  | ThreadInit l => match all_loops s !! l with Some e => bool_decide (localConnections e = None) | None => false end
  | Connection l true conn => bool_decide (l ∈ loops_ s) && bool_decide (received s !! conn = None)
  | Connection l false conn => in_loop l conn s
  | Message _ => true
  | Distribute l => match all_loops s !! l with Some e => negb (bool_decide (queue e = [])) | None => false end
  end.
End HighPerformance.
