(* ===== verification/ChatTheory.v ===== *)
(** * The chat servers' broadcasts

    The server that copies its set on write broadcasts to a snapshot; the server that queues
    messages in every loop gives all connections the messages in one order. *)
From Stdlib Require Import Sorted.
From S2P Require Import Prelude Chat.

Module EfficientTheory.
Import Efficient.

Lemma least_spec l : match least l with None => l = [] | Some x => x ∈ l /\ forall y, y ∈ l -> x <= y end.
Proof.
  induction l as [|x l IH]; cbn; [done|]. destruct (least l) as [z|].
  - destruct IH as [Hz Hle]. split.
    + apply elem_of_cons. destruct (Z.min_spec x z) as [[_ ->]|[_ ->]]; auto.
    + intros y [->|Hy]%elem_of_cons; [lia|]. specialize (Hle y Hy). lia.
  - subst l. split; [left|]. intros y [->|Hy]%elem_of_cons; [lia|]. by apply elem_of_nil in Hy.
Qed.

Lemma next_spec v l :
  match next v l with
  | Some x => x ∈ l /\ later v x = true /\ forall y, y ∈ l -> later v y = true -> x <= y
  | None => forall y, y ∈ l -> later v y = false
  end.
Proof.
  unfold next. pose proof (least_spec (filter (fun x => later v x = true) (elements l))) as Hl. destruct (least _) as [x|].
  - destruct Hl as [[Hx Hin]%list_elem_of_filter Hle]. split_and!; [by apply elem_of_elements|done|].
    intros y Hy Hv. apply Hle, list_elem_of_filter. split; [done|by apply elem_of_elements].
  - intros y Hy. destruct (later v y) eqn:E; [|done]. assert (Hin : y ∈ filter (fun x => later v x = true) (elements l)).
    { apply list_elem_of_filter. split; [done|by apply elem_of_elements]. }
    rewrite Hl in Hin. by apply elem_of_nil in Hin.
Qed.

(** A walk of the set [l] has given [sent] when it is at [v]. *)
Record walked (l : gset Z) (v : option Z) (sent : list Z) : Prop := {
  wk_sent : forall x, x ∈ sent <-> x ∈ l /\ later v x = false;
  wk_sorted : StronglySorted Z.lt sent
}.

Lemma lt_sorted_snoc l x : StronglySorted Z.lt l -> (forall y, y ∈ l -> y < x) -> StronglySorted Z.lt (l ++ [x]).
Proof.
  intros Hs Hx. induction Hs as [|y l _ IH Hy]; cbn; [by repeat constructor|]. constructor.
  - apply IH. intros z Hz. apply Hx. by right.
  - apply Forall_app. split; [done|]. apply Forall_singleton, Hx. left.
Qed.

Lemma walked_start l : walked l None [].
Proof. split; [|constructor]. intros x. split; [intros Hx; by apply elem_of_nil in Hx|by intros []]. Qed.

Lemma walked_step l v sent x : walked l v sent -> next v l = Some x -> walked l (Some x) (sent ++ [x]).
Proof.
  intros [W1 W2] Hn. pose proof (next_spec v l) as Hs. rewrite Hn in Hs. destruct Hs as (Hx & Hl & Hle).
  assert (Hlt : forall y, later v y = false -> y < x).
  { intros y Hy. unfold later in *. destruct v; [lia|done]. }
  split; cbn.
  - intros y. rewrite elem_of_app, list_elem_of_singleton, W1. split.
    + intros [[Hy Hv]| ->]; [split; [done|]; specialize (Hlt y Hv); lia|]. split; [done|lia].
    + intros [Hy Hv]. destruct (later v y) eqn:E; [right|by left]. specialize (Hle y Hy E). lia.
  - apply lt_sorted_snoc; [done|]. intros y [_ Hy]%W1. by apply Hlt.
Qed.

Lemma walked_end l v sent : walked l v sent -> next v l = None -> (forall x, x ∈ sent <-> x ∈ l) /\ StronglySorted Z.lt sent.
Proof.
  intros [W1 W2] Hn. pose proof (next_spec v l) as Hs. rewrite Hn in Hs.
  split; [|done]. intros x. rewrite W1. split; [by intros []|]. intros Hx. split; [done|by apply Hs].
Qed.

(** *** What the events say *)

(** [conn] is up after [tr]: its last connection callback found it connected. *)
Definition is_up (tr : list event) (conn : Z) : Prop :=
  exists tr1 tr2, tr = tr1 ++ Is conn true :: tr2 /\ forall b, Is conn b ∉ tr2.

(** What thread [t] sends in [tr]. *)
Definition sends (t : Z) (tr : list event) : list (Z * str) :=
  omap (fun e => match e with Sends t' conn msg => if t =? t' then Some (conn, msg) else None | _ => None end) tr.

(** Thread [t] neither gets a message nor returns. *)
Definition starts (t : Z) (e : event) : bool := match e with Starts t' _ => t =? t' | _ => false end.
Definition returns (t : Z) (e : event) : bool := match e with Returns t' => t =? t' | _ => false end.
Definition undisturbed (t : Z) (tr : list event) : Prop := Forall (fun e => starts t e || returns t e = false) tr.

(** The messages [msg] to each connection that is up after [tr], once, in the order of the set. *)
Definition broadcast_of (tr : list event) (msg : str) (out : list (Z * str)) : Prop :=
  exists conns, out = (fun conn => (conn, msg)) <$> conns /\ StronglySorted Z.lt conns /\ forall conn, conn ∈ conns <-> is_up tr conn.

Lemma is_up_snoc tr e conn : is_up (tr ++ [e]) conn <-> (e = Is conn true \/ (is_up tr conn /\ forall b, e <> Is conn b)).
Proof.
  split.
  - intros (tr1 & tr2 & E & Hn). destruct tr2 as [|e2 tr2 _] using rev_ind.
    + apply app_inj_tail in E as [_ ->]. by left.
    + rewrite app_comm_cons, (assoc_L app) in E. apply app_inj_tail in E as [-> ->]. right. split.
      * exists tr1, tr2. split; [done|]. intros b Hb. apply (Hn b). set_solver.
      * intros b ->. apply (Hn b). set_solver.
  - intros [->|[(tr1 & tr2 & -> & Hn) He]]; [exists tr, []; split; [done|set_solver]|].
    exists tr1, (tr2 ++ [e]). rewrite <- (assoc_L app). split; [done|]. intros b. rewrite elem_of_app, list_elem_of_singleton.
    intros [Hb|Hb]; [by apply (Hn b)|by apply (He b)].
Qed.

Lemma is_up_other tr e conn : (forall c b, e <> Is c b) -> is_up (tr ++ [e]) conn <-> is_up tr conn.
Proof. intros He. rewrite is_up_snoc. split; [intros [->|[? _]]; [by destruct (He conn true)|done]|by right]. Qed.

Lemma sends_snoc t tr e : sends t (tr ++ [e]) = sends t tr ++ sends t [e].
Proof. unfold sends. apply omap_app. Qed.

Lemma undisturbed_snoc t tr e : undisturbed t tr -> starts t e || returns t e = false -> undisturbed t (tr ++ [e]).
Proof. intros H1 H2. apply Forall_app. by split; [|apply Forall_singleton]. Qed.

(** The last start of a thread is at one place. *)
Lemma last_start t tr1 msg tr2 tr3 msg' tr4 :
  tr1 ++ Starts t msg :: tr2 = tr3 ++ Starts t msg' :: tr4 -> Forall (fun e => starts t e = false) tr2 -> Forall (fun e => starts t e = false) tr4 ->
  tr1 = tr3 /\ msg = msg' /\ tr2 = tr4.
Proof.
  intros E H2 H4. apply app_eq_inv in E as [(k & -> & E)|(k & -> & E)]; destruct k as [|e k]; cbn in E;
    try (simplify_eq; by rewrite ?app_nil_r); exfalso; simplify_eq.
  - apply Forall_app in H4 as [_ [Hx _]%Forall_cons]. cbn in Hx. lia.
  - apply Forall_app in H2 as [_ [Hx _]%Forall_cons]. cbn in Hx. lia.
Qed.

(** *** The invariant *)

(** The broadcast [b] of thread [t] is where the events say. *)
Definition underway (tr : list event) (t : Z) (b : Broadcast) (l : gset Z) : Prop :=
  exists tr1 tr2 conns, tr = tr1 ++ Starts t (message b) :: tr2 /\ undisturbed t tr2 /\ sends t tr2 = (fun conn => (conn, message b)) <$> conns /\
    walked l (visited b) conns /\ (forall conn, conn ∈ l <-> is_up tr1 conn).

Record inv (tr : list event) (s : ChatServer) : Prop := {
  iv_up : exists l, lists s !! connections_ s = Some l /\ forall conn, conn ∈ l <-> is_up tr conn;
  iv_held : forall t b, broadcasts s !! t = Some b -> exists l, lists s !! held b = Some l /\ underway tr t b l;
  iv_store : forall p, is_Some (lists s !! p) -> p = connections_ s \/ exists t b, broadcasts s !! t = Some b /\ held b = p
}.

Lemma unique_spec s : unique s = true <-> forall t b, broadcasts s !! t = Some b -> held b <> connections_ s.
Proof. unfold unique. rewrite bool_decide_eq_true. done. Qed.

(** An event of the connections or of another thread does not concern a broadcast. *)
Lemma underway_snoc tr e t b l : underway tr t b l -> starts t e || returns t e = false -> sends t [e] = [] -> underway (tr ++ [e]) t b l.
Proof.
  intros (tr1 & tr2 & conns & -> & H2 & H3 & H4 & H5) He Hs. exists tr1, (tr2 ++ [e]), conns. rewrite <- (assoc_L app).
  split_and!; [done|by apply undisturbed_snoc| |done|done]. by rewrite sends_snoc, Hs, app_nil_r.
Qed.

Lemma copy_ok tr s : inv tr s -> unique s = false -> exists s', copy s = Ok s' /\ inv tr s' /\ unique s' = true.
Proof.
  intros [(up & I1 & Hup) I2 I4] Hu. unfold copy. rewrite I1. cbn [get mbind res_bind]. set (p := fresh _).
  assert (Hp : lists s !! p = None) by (apply not_elem_of_dom, is_fresh).
  assert (Hne : forall t b, broadcasts s !! t = Some b -> held b <> p).
  { intros t b Hb ->%eq_sym. destruct (I2 t b Hb) as (l & Hl & _). congruence. }
  eexists. split; [reflexivity|]. split; [|apply unique_spec; exact Hne]. split; cbn.
  - exists up. by rewrite lookup_insert_eq.
  - intros t b Hb. rewrite lookup_insert_ne; [by apply I2|]. intros Hq. by apply (Hne t b Hb).
  - intros q Hq. destruct (decide (q = p)) as [->|Hqp]; [by left|]. right. rewrite lookup_insert_ne in Hq by done.
    destruct (I4 q Hq) as [->|Hh]; [|done].
    unfold unique in Hu. apply bool_decide_eq_false in Hu. rewrite map_not_Forall in Hu by apply _.
    destruct Hu as (t & b & Hb & Hn). exists t, b. split; [done|]. by apply dec_stable.
Qed.

Lemma update_connections_ok tr (connected : bool) conn s :
  inv tr s -> unique s = true ->
  exists s', update_connections (fun l => if connected then {[conn]} ∪ l else l ∖ {[conn]}) s = Ok s' /\ inv (tr ++ [Is conn connected]) s'.
Proof.
  intros [(up & I1 & Hup) I2 I4] Hu. unfold update_connections. rewrite I1. cbn [get mbind res_bind]. eexists. split; [reflexivity|]. rewrite unique_spec in Hu.
  split; cbn.
  - exists (if connected then {[conn]} ∪ up else up ∖ {[conn]}). rewrite lookup_insert_eq. split; [done|]. intros c. rewrite is_up_snoc, <- Hup. destruct connected.
    + rewrite elem_of_union, elem_of_singleton. destruct (decide (c = conn)) as [->|Hne]; [tauto|]. split; [intros [?|?]; [done|]|intros [[= ?]|[? _]]]; [|done|by right].
      right. split; [done|]. intros b [= ?]. done.
    + rewrite elem_of_difference, elem_of_singleton. split; [intros [H1 H2]; right; split; [done|]; intros b [= ?]; done|].
      intros [[=]|[H1 H2]]. split; [done|]. intros ->. by apply (H2 false).
  - intros t b Hb. destruct (I2 t b Hb) as (l & Hl & Hw). exists l. split; [|by apply underway_snoc]. rewrite lookup_insert_ne; [done|]. intros Hq. by apply (Hu t b Hb).
  - intros q Hq. apply I4. destruct (decide (q = connections_ s)) as [->|Hne]; [by rewrite I1; eexists|]. by rewrite lookup_insert_ne in Hq.
Qed.

Lemma onConnection_ok tr connected conn s : inv tr s -> exists s', onConnection connected conn s = Ok s' /\ inv (tr ++ [Is conn connected]) s'.
Proof.
  intros Hi. unfold onConnection. destruct (unique s) eqn:Hu; cbn [negb].
  - cbn [mbind res_bind]. rewrite Hu. by apply update_connections_ok.
  - destruct (copy_ok tr s Hi Hu) as (s1 & -> & Hi1 & Hu1). cbn [mbind res_bind]. rewrite Hu1. by apply update_connections_ok.
Qed.

Lemma begin_ok tr t msg s : inv tr s -> broadcasts s !! t = None -> inv (tr ++ [Starts t msg]) (getConnectionList t msg s).
Proof.
  intros [(up & I1 & Hup) I2 I4] Ht. split; cbn.
  - exists up. split; [done|]. intros c. by rewrite is_up_other.
  - intros t' b. destruct (decide (t = t')) as [<-|Hne]; [rewrite lookup_insert_eq|rewrite lookup_insert_ne by done].
    + intros [= <-]. exists up. split; [done|]. exists tr, [], []. split_and!; [done|constructor|done|apply walked_start|done].
    + intros Hb. destruct (I2 t' b Hb) as (l & Hl & Hw). exists l. split; [done|]. apply underway_snoc; [done|cbn; lia|done].
  - intros p Hp. destruct (I4 p Hp) as [->|(t' & b & Hb & Hh)]; [by left|]. right. exists t', b. split; [|done].
    rewrite lookup_insert_ne; [done|]. congruence.
Qed.

Definition event_of (t : Z) (out : option (Z * str)) : event := match out with Some (conn, msg) => Sends t conn msg | None => Returns t end.

Lemma release_ok tr s t b :
  inv tr s -> broadcasts s !! t = Some b ->
  inv (tr ++ [Returns t]) (release (held b) (mkServer (lists s) (connections_ s) (delete t (broadcasts s)))).
Proof.
  intros [(up & I1 & Hup) I2 I4] Hb. set (s1 := mkServer _ _ _).
  assert (Hup' : forall c, c ∈ up <-> is_up (tr ++ [Returns t]) c) by (intros c; by rewrite is_up_other).
  assert (H2 : forall t' b', broadcasts s1 !! t' = Some b' -> exists l, lists s !! held b' = Some l /\ underway (tr ++ [Returns t]) t' b' l).
  { intros t' b'. cbn. intros [Hne Hb']%lookup_delete_Some. destruct (I2 t' b' Hb') as (l & Hl & Hw). exists l. split; [done|]. apply underway_snoc; [done|cbn; lia|done]. }
  assert (H4 : forall p, is_Some (lists s !! p) -> p = held b \/ p = connections_ s \/ exists t' b', broadcasts s1 !! t' = Some b' /\ held b' = p).
  { intros p Hp. destruct (I4 p Hp) as [->|(t' & b' & Hb' & Hh)]; [by right; left|]. destruct (decide (t = t')) as [<-|Hne]; [left; congruence|].
    right; right. exists t', b'. split; [|done]. cbn. by rewrite lookup_delete_ne. }
  unfold release. destruct (bool_decide (held b = connections_ s1)) eqn:E1; cbn [orb].
  { apply bool_decide_eq_true in E1. split; cbn; [by exists up|done|]. intros p Hp. destruct (H4 p Hp) as [->|?]; [by left|done]. }
  apply bool_decide_eq_false in E1. case_bool_decide as E2.
  - rewrite map_not_Forall in E2 by apply _. destruct E2 as (t' & b' & Hb' & Hh). split; cbn; [by exists up|done|].
    intros p Hp. destruct (H4 p Hp) as [->|?]; [|done]. right. exists t', b'. split; [done|]. by apply dec_stable.
  - split; cbn.
    + exists up. by rewrite lookup_delete_ne.
    + intros t' b' Hb'. destruct (H2 t' b' Hb') as (l & Hl' & Hw'). exists l. split; [|done]. rewrite lookup_delete_ne; [done|]. intros Hq. by apply (E2 t' b' Hb').
    + intros p [l Hp]. apply lookup_delete_Some in Hp as [Hne Hp]. destruct (H4 p) as [->|?]; [by eexists|done|done].
Qed.

Lemma broadcast_send_ok tr s t b l conn :
  inv tr s -> broadcasts s !! t = Some b -> lists s !! held b = Some l -> next (visited b) l = Some conn ->
  inv (tr ++ [Sends t conn (message b)]) (mkServer (lists s) (connections_ s) (<[t := mkBroadcast (message b) (held b) (Some conn)]> (broadcasts s))).
Proof.
  intros [(up & I1 & Hup) I2 I4] Hb Hl Hn. split; cbn.
  - exists up. split; [done|]. intros c. by rewrite is_up_other.
  - intros t' b'. destruct (decide (t = t')) as [<-|Hne]; [rewrite lookup_insert_eq|rewrite lookup_insert_ne by done].
    + intros [= <-]. cbn. exists l. split; [done|]. destruct (I2 t b Hb) as (l' & Hl' & (tr1 & tr2 & conns & -> & H2 & H3 & H4 & H5)).
      rewrite Hl in Hl'. injection Hl' as <-. exists tr1, (tr2 ++ [Sends t conn (message b)]), (conns ++ [conn]). cbn. rewrite <- (assoc_L app).
      split_and!; [done|by apply undisturbed_snoc| |by eapply walked_step|done]. rewrite sends_snoc, H3, fmap_app. cbn. by rewrite Z.eqb_refl.
    + intros Hb'. destruct (I2 t' b' Hb') as (l' & Hl' & Hw). exists l'. split; [done|]. apply underway_snoc; [done|done|].
      cbn. by rewrite (proj2 (Z.eqb_neq t' t)).
  - intros p Hp. destruct (I4 p Hp) as [->|(t' & b' & Hb' & Hh)]; [by left|]. right. destruct (decide (t = t')) as [<-|Hne].
    + eexists t, _. split; [apply lookup_insert_eq|]. cbn. congruence.
    + exists t', b'. by rewrite lookup_insert_ne.
Qed.

Lemma advance_ok tr t s :
  inv tr s -> is_Some (broadcasts s !! t) -> exists out s', advance t s = Ok (out, s') /\ inv (tr ++ [event_of t out]) s'.
Proof.
  intros Hi [b Hb]. unfold advance. rewrite Hb. cbn [get mbind res_bind]. destruct (iv_held tr s Hi t b Hb) as (l & Hl & _). rewrite Hl. cbn [get mbind res_bind].
  destruct (next (visited b) l) as [x|] eqn:Hn; do 2 eexists; (split; [reflexivity|]); [by eapply broadcast_send_ok|by apply release_ok].
Qed.

(** The states that can be reached, with the events on the way. *)
Inductive reachable : list event -> ChatServer -> Prop :=
| Init : reachable [] newServer
| Step tr a e s s' : reachable tr s -> enabled a s = true -> step a s = Ok (e, s') -> reachable (tr ++ [e]) s'.

Lemma step_ok tr a s : inv tr s -> enabled a s = true -> exists e s', step a s = Ok (e, s') /\ inv (tr ++ [e]) s'.
Proof.
  intros Hi Hen. destruct a as [connected conn|t msg|t]; cbn [step enabled] in *.
  - destruct (onConnection_ok tr connected conn s Hi) as (s' & -> & ?). by do 2 eexists.
  - apply bool_decide_eq_true in Hen. do 2 eexists. split; [done|]. by apply begin_ok.
  - apply bool_decide_eq_true in Hen. destruct (advance_ok tr t s Hi Hen) as (out & s' & -> & ?). by do 2 eexists.
Qed.

Lemma inv_reachable tr s : reachable tr s -> inv tr s.
Proof.
  induction 1 as [|tr a e s s' _ IH Hen E]; [|destruct (step_ok tr a s IH Hen) as (e2 & s2 & E2 & ?); congruence]. split; cbn.
  - exists ∅. split; [done|]. intros c. split; [set_solver|]. intros (tr1 & tr2 & E & _). by destruct tr1.
  - done.
  - intros p [l Hp]. apply lookup_singleton_Some in Hp as [-> _]. by left.
Qed.

(** A thread that returns has walked its set to the end. *)
Lemma returned tr a s t s' :
  inv tr s -> enabled a s = true -> step a s = Ok (Returns t, s') ->
  exists tr1 msg tr2, tr = tr1 ++ Starts t msg :: tr2 /\ undisturbed t tr2 /\ broadcast_of tr1 msg (sends t tr2).
Proof.
  intros Hi Hen. destruct a as [connected conn|t' msg|t']; cbn [step enabled] in *.
  - destruct (onConnection connected conn s); cbn [mbind res_bind]; congruence.
  - congruence.
  - apply bool_decide_eq_true in Hen as [b Hb]. unfold advance. rewrite Hb. cbn [get mbind res_bind].
    destruct (iv_held tr s Hi t' b Hb) as (l & Hl & (tr1 & tr2 & conns & -> & H2 & H3 & H4 & H5)). rewrite Hl. cbn [get mbind res_bind].
    destruct (next (visited b) l) as [x|] eqn:Hn; cbn [mbind res_bind fst snd]; [done|]. intros [= -> _].
    destruct (walked_end _ _ _ H4 Hn) as [Hc Hs]. exists tr1, (message b), tr2. split_and!; [done|done|]. exists conns. split_and!; [done|done|].
    intros c. by rewrite Hc.
Qed.

Lemma broadcast_complete tr s :
  reachable tr s -> forall tr1 t msg tr2 tr3, tr = tr1 ++ Starts t msg :: tr2 ++ Returns t :: tr3 -> Forall (fun e => starts t e = false) tr2 ->
  broadcast_of tr1 msg (sends t tr2).
Proof.
  intros Hr. induction Hr as [|tr a e s s' Hr IH Hen E]; intros tr1 t msg tr2 tr3 Etr Hn; [by destruct tr1|].
  destruct tr3 as [|e3 tr3 _] using rev_ind.
  - rewrite app_comm_cons, (assoc_L app) in Etr. apply app_inj_tail in Etr as [-> ->].
    destruct (returned _ _ _ _ _ (inv_reachable _ _ Hr) Hen E) as (tr1' & msg' & tr2' & E' & Hu & Hb).
    apply last_start in E' as (-> & -> & ->); [done|done|]. eapply Forall_impl; [exact Hu|]. intros x [? _]%orb_false_iff. done.
  - apply (IH tr1 t msg tr2 tr3); [|done].
    assert (Es : tr1 ++ Starts t msg :: tr2 ++ Returns t :: tr3 ++ [e3] = (tr1 ++ Starts t msg :: tr2 ++ Returns t :: tr3) ++ [e3])
      by (rewrite <- (assoc_L app); cbn; by rewrite <- (assoc_L app)).
    rewrite Es in Etr. by apply app_inj_tail in Etr as [-> _].
Qed.

(** [C19] Copy on write.  However threads broadcast while connections come and go: no step fails (a
    set that is walked is never freed, and the assertion that the server's set is unshared holds);
    the server's set is the set of the connections whose last connection callback found them
    connected; from the moment a thread gets a message to the moment its onStringMessage returns,
    that thread sends the message, and nothing else, to exactly the connections that were up when it
    got it, once each and in the set's order; and a set that nobody holds any more is freed. *)
Theorem copy_on_write tr s :
  reachable tr s ->
  (forall a, enabled a s = true -> exists e s', step a s = Ok (e, s') /\ reachable (tr ++ [e]) s') /\
  (exists l, lists s !! connections_ s = Some l /\ forall conn, conn ∈ l <-> is_up tr conn) /\
  (forall tr1 t msg tr2 tr3, tr = tr1 ++ Starts t msg :: tr2 ++ Returns t :: tr3 -> Forall (fun e => starts t e = false) tr2 ->
    exists conns, sends t tr2 = (fun conn => (conn, msg)) <$> conns /\ NoDup conns /\ StronglySorted Z.lt conns /\
      forall conn, conn ∈ conns <-> is_up tr1 conn) /\
  (forall p, is_Some (lists s !! p) -> p = connections_ s \/ exists t b, broadcasts s !! t = Some b /\ held b = p).
Proof.
  intros Hr. pose proof (inv_reachable tr s Hr) as Hi. split_and!.
  - intros a Hen. destruct (step_ok tr a s Hi Hen) as (e & s' & E & _). exists e, s'. split; [done|]. by eapply Step.
  - apply Hi.
  - intros tr1 t msg tr2 tr3 Etr Hn. destruct (broadcast_complete tr s Hr tr1 t msg tr2 tr3 Etr Hn) as (conns & E & Hs & Hc).
    exists conns. split_and!; [done| |done|done].
    clear -Hs. induction Hs as [|x l _ IH Hx]; constructor; [|done]. intros Hin. rewrite Forall_forall in Hx. specialize (Hx x Hin). lia.
  - apply Hi.
Qed.
End EfficientTheory.

Module HighPerformanceTheory.
Import HighPerformance.

Record inv (s : ChatServer) : Prop := {
  iv_init : forall l e, all_loops s !! l = Some e -> (l ∈ loops_ s <-> is_Some (localConnections e));
  iv_loops : forall l, l ∈ loops_ s -> is_Some (all_loops s !! l);
  iv_queue : forall l e, all_loops s !! l = Some e -> (exists pre, log s = pre ++ queue e) /\ (l ∉ loops_ s -> queue e = []);
  iv_local : forall l e c, all_loops s !! l = Some e -> c ∈ instance e ->
    exists ms pre, received s !! c = Some ms /\ log s = pre ++ ms ++ queue e;
  iv_received : forall c ms, received s !! c = Some ms -> exists pre post, log s = pre ++ ms ++ post;
  iv_one : forall l1 e1 l2 e2 c, all_loops s !! l1 = Some e1 -> all_loops s !! l2 = Some e2 -> c ∈ instance e1 -> c ∈ instance e2 -> l1 = l2
}.

(** The loops of the server's threads, before threadInit. *)
Definition newServer (loops : gset Z) : ChatServer := mkServer (gset_to_gmap (mkLoop None []) loops) ∅ [] ∅.

Lemma loops_inv_new loops : inv (newServer loops).
Proof.
  split; cbn; try done.
  - intros l e [_ <-]%lookup_gset_to_gmap_Some. cbn. split; [set_solver|by intros []].
  - intros l e [_ <-]%lookup_gset_to_gmap_Some. split; [by exists []|done].
  - intros l e c [_ <-]%lookup_gset_to_gmap_Some. set_solver.
  - intros l1 e1 l2 e2 c [_ <-]%lookup_gset_to_gmap_Some. set_solver.
Qed.

Ltac loop_cases l' l :=
  destruct (decide (l' = l)) as [->|?];
  [rewrite ?lookup_insert_eq in *|rewrite ?lookup_insert_ne in * by done].

Lemma threadInit_ok l s : inv s -> enabled (ThreadInit l) s = true -> exists s', threadInit l s = Ok s' /\ inv s'.
Proof.
  intros [I1 I2 I3 I4 I5 I6]. cbn. destruct (all_loops s !! l) as [e|] eqn:El; [|done]. intros Hn%bool_decide_eq_true.
  unfold threadInit. rewrite El. cbn [get mbind res_bind]. rewrite check_true by (by apply bool_decide_eq_true). cbn [mbind res_bind].
  eexists. split; [reflexivity|]. split; cbn.
  - intros l' e'. loop_cases l' l; [intros [= <-]; cbn; split; [by eexists|set_solver]|]. intros He. rewrite <- (I1 l' e' He). set_solver.
  - intros l'. loop_cases l' l; [by eexists|]. intros Hl. apply I2. set_solver.
  - intros l' e'. loop_cases l' l; [intros [= <-]|intros He]; [destruct (I3 l e El) as [Hp Hq]|destruct (I3 l' e' He) as [Hp Hq]]; (split; [done|set_solver]).
  - intros l' e' c. loop_cases l' l; [intros [= <-]; cbn; set_solver|apply I4].
  - done.
  - intros l1 e1 l2 e2 c. loop_cases l1 l; [intros [= <-]; cbn; set_solver|]. intros H1. loop_cases l2 l; [intros [= <-]; cbn; set_solver|by apply I6].
Qed.

Lemma up_ok l conn s : inv s -> enabled (Connection l true conn) s = true -> exists s', onConnectionLocal l true conn s = Ok s' /\ inv s'.
Proof.
  intros [I1 I2 I3 I4 I5 I6] [Hl%bool_decide_eq_true Hc%bool_decide_eq_true]%andb_true_iff. destruct (I2 l Hl) as [e El].
  unfold onConnectionLocal. rewrite El. cbn [get mbind res_bind]. eexists. split; [reflexivity|].
  assert (Hout : forall l' e', all_loops s !! l' = Some e' -> conn ∉ instance e').
  { intros l' e' He' Hin. destruct (I4 l' e' conn He' Hin) as (ms & pre & Hr & _). congruence. }
  split; cbn.
  - intros l' e'. loop_cases l' l; [intros [= <-]; cbn; split; [by eexists|done]|apply I1].
  - intros l' Hl'. loop_cases l' l; [by eexists|by apply I2].
  - intros l' e'. loop_cases l' l; [intros [= <-]; by apply (I3 l e)|apply I3].
  - intros l' e' c He' Hin. destruct (decide (c = conn)) as [->|Hne].
    + rewrite lookup_insert_eq. destruct (decide (l' = l)) as [->|Hll].
      * rewrite lookup_insert_eq in He'. injection He' as <-. destruct (I3 l e El) as [[pre Hp] _]. by exists [], pre.
      * rewrite lookup_insert_ne in He' by done. by destruct (Hout l' e' He').
    + rewrite lookup_insert_ne by done. loop_cases l' l; [|by apply (I4 l' e' c)].
      injection He' as <-. cbn in *. apply (I4 l e c El). unfold instance at 1 in Hin. cbn in Hin. set_solver.
  - intros c ms. destruct (decide (c = conn)) as [->|Hne]; [rewrite lookup_insert_eq|rewrite lookup_insert_ne by done; apply I5].
    intros [= <-]. exists (log s), []. by rewrite app_nil_r.
  - assert (Hin : forall l' e' c, <[l:=mkLoop (Some ({[conn]} ∪ instance e)) (queue e)]> (all_loops s) !! l' = Some e' -> c ∈ instance e' ->
      (c = conn /\ l' = l) \/ exists e0, all_loops s !! l' = Some e0 /\ c ∈ instance e0).
    { intros l' e' c He' Hc'. loop_cases l' l; [|right; by exists e']. injection He' as <-. cbn in Hc'.
      apply elem_of_union in Hc' as [->%elem_of_singleton|Hc']; [by left|right; by exists e]. }
    intros l1 e1 l2 e2 c H1 H2 C1 C2. destruct (Hin _ _ _ H1 C1) as [[-> ->]|(e3 & H3 & C3)], (Hin _ _ _ H2 C2) as [[E ->]|(e4 & H4 & C4)]; try done.
    + by destruct (Hout _ _ H4).
    + subst c. by destruct (Hout _ _ H3).
    + by apply (I6 l1 e3 l2 e4 c).
Qed.

Lemma down_ok l conn s : inv s -> enabled (Connection l false conn) s = true -> exists s', onConnectionLocal l false conn s = Ok s' /\ inv s'.
Proof.
  intros [I1 I2 I3 I4 I5 I6] Hen. cbn in Hen. unfold in_loop in Hen. destruct (all_loops s !! l) as [e|] eqn:El; [|done].
  apply bool_decide_eq_true in Hen. unfold onConnectionLocal. rewrite El. cbn [get mbind res_bind]. eexists. split; [reflexivity|].
  assert (Hs : is_Some (localConnections e)) by (unfold instance in Hen; destruct (localConnections e); [by eexists|cbn in Hen; set_solver]).
  assert (Hin : forall l' e' c, <[l:=mkLoop (Some (instance e ∖ {[conn]})) (queue e)]> (all_loops s) !! l' = Some e' -> c ∈ instance e' ->
    exists e0, all_loops s !! l' = Some e0 /\ c ∈ instance e0 /\ queue e' = queue e0).
  { intros l' e' c He' Hc'. loop_cases l' l; [|by exists e']. injection He' as <-. exists e. split_and!; [done|cbn in Hc'; set_solver|done]. }
  split; cbn.
  - intros l' e'. loop_cases l' l; [intros [= <-]; cbn; rewrite (I1 l e El); by split|apply I1].
  - intros l' Hl'. loop_cases l' l; [by eexists|by apply I2].
  - intros l' e'. loop_cases l' l; [intros [= <-]; by apply (I3 l e)|apply I3].
  - intros l' e' c He' Hc'. destruct (Hin _ _ _ He' Hc') as (e0 & H0 & Hc0 & ->). by apply (I4 l' e0 c).
  - done.
  - intros l1 e1 l2 e2 c H1 H2 C1 C2. destruct (Hin _ _ _ H1 C1) as (e3 & ? & ? & _), (Hin _ _ _ H2 C2) as (e4 & ? & ? & _). by apply (I6 l1 e3 l2 e4 c).
Qed.

Lemma message_ok msg s : inv s -> inv (onStringMessage msg s).
Proof.
  intros [I1 I2 I3 I4 I5 I6].
  assert (Hlk : forall l e', all_loops (onStringMessage msg s) !! l = Some e' -> exists e, all_loops s !! l = Some e /\
    localConnections e' = localConnections e /\ (l ∈ loops_ s /\ queue e' = queue e ++ [msg] \/ l ∉ loops_ s /\ e' = e)).
  { intros l e'. cbn. rewrite map_lookup_imap. destruct (all_loops s !! l) as [e|]; cbn; [|done].
    case_bool_decide; intros [= <-]; exists e; split_and!; auto. }
  assert (Hlog : log (onStringMessage msg s) = log s ++ [msg]) by done.
  split.
  - intros l e' He'. destruct (Hlk l e' He') as (e & He & Hc & _). rewrite Hc. by apply I1.
  - intros l Hl. destruct (I2 l Hl) as [e He]. cbn. rewrite map_lookup_imap, He. by eexists.
  - intros l e' He'. destruct (Hlk l e' He') as (e & He & _ & Hq). destruct (I3 l e He) as [[pre Hp] Hi]. rewrite Hlog.
    destruct Hq as [[Hl ->]|[Hl ->]].
    + split; [exists pre; by rewrite Hp, <- (assoc_L app)|done].
    + rewrite (Hi Hl). split; [exists (log s ++ [msg]); by rewrite app_nil_r|done].
  - intros l e' c He' Hc. destruct (Hlk l e' He') as (e & He & Hc' & Hq).
    assert (Hce : c ∈ instance e) by (unfold instance in *; by rewrite <- Hc').
    destruct (I4 l e c He Hce) as (ms & pre & Hr & Hp). rewrite Hlog. exists ms, pre. split; [done|].
    destruct Hq as [[Hl ->]|[Hl ->]]; [by rewrite Hp, <- !(assoc_L app)|].
    exfalso. apply Hl, (I1 l e He). unfold instance in Hce. destruct (localConnections e); [by eexists|cbn in Hce; set_solver].
  - intros c ms Hr. destruct (I5 c ms Hr) as (pre & post & Hp). rewrite Hlog. exists pre, (post ++ [msg]). by rewrite Hp, <- !(assoc_L app).
  - intros l1 e1 l2 e2 c H1 H2 C1 C2. destruct (Hlk _ _ H1) as (e3 & H3 & E3 & _), (Hlk _ _ H2) as (e4 & H4 & E4 & _).
    apply (I6 l1 e3 l2 e4 c); [done|done|unfold instance in *; by rewrite <- E3|unfold instance in *; by rewrite <- E4].
Qed.

Lemma distribute_ok l s : inv s -> is_Some (all_loops s !! l) -> exists s', distributeMessage l s = Ok s' /\ inv s'.
Proof.
  intros Hi [e El]. pose proof Hi as [I1 I2 I3 I4 I5 I6]. unfold distributeMessage. rewrite El. cbn [get mbind res_bind].
  destruct (queue e) as [|msg rest] eqn:Eq; [by exists s|]. eexists. split; [reflexivity|].
  assert (Hlk : forall l' e', <[l:=mkLoop (localConnections e) rest]> (all_loops s) !! l' = Some e' ->
    exists e0, all_loops s !! l' = Some e0 /\ localConnections e' = localConnections e0 /\
      (l' = l /\ queue e' = rest /\ queue e0 = msg :: rest \/ l' <> l /\ queue e' = queue e0)).
  { intros l' e' He'. loop_cases l' l; [injection He' as <-; exists e; split_and!; auto|exists e'; split_and!; auto]. }
  split; cbn.
  - intros l' e' He'. destruct (Hlk _ _ He') as (e0 & H0 & -> & _). by apply I1.
  - intros l' Hl'. loop_cases l' l; [by eexists|by apply I2].
  - intros l' e' He'. destruct (Hlk _ _ He') as (e0 & H0 & _ & Hq). destruct (I3 _ _ H0) as [[pre Hp] Hidle].
    destruct Hq as [(-> & -> & Hq)|[_ ->]]; [|by split; [exists pre|]]. rewrite Hq in *. split.
    + exists (pre ++ [msg]). by rewrite Hp, <- (assoc_L app).
    + intros Hl. by specialize (Hidle Hl).
  - intros l' e' c He' Hc. destruct (Hlk _ _ He') as (e0 & H0 & Hc0 & Hq).
    assert (Hce : c ∈ instance e0) by (unfold instance in *; by rewrite <- Hc0).
    destruct (I4 _ _ _ H0 Hce) as (ms & pre & Hr & Hp). rewrite map_lookup_imap, Hr. cbn.
    destruct Hq as [(-> & -> & Hq)|[Hne ->]].
    + assert (e0 = e) as -> by congruence. rewrite bool_decide_true by done. exists (ms ++ [msg]), pre. split; [done|].
      by rewrite Hp, Hq, <- !(assoc_L app).
    + rewrite bool_decide_false; [by exists ms, pre|]. intros Hin. by destruct Hne; apply (I6 l' e0 l e c).
  - intros c ms'. rewrite map_lookup_imap. destruct (received s !! c) as [ms|] eqn:Er; cbn; [|done]. case_bool_decide as Hin; intros [= <-]; [|by apply (I5 c)].
    destruct (I4 l e c El Hin) as (ms2 & pre & Hr & Hp). rewrite Er in Hr. injection Hr as <-. rewrite Eq in Hp.
    exists pre, rest. by rewrite Hp, <- !(assoc_L app).
  - intros l1 e1 l2 e2 c H1 H2 C1 C2. destruct (Hlk _ _ H1) as (e3 & H3 & E3 & _), (Hlk _ _ H2) as (e4 & H4 & E4 & _).
    apply (I6 l1 e3 l2 e4 c); [done|done|unfold instance in *; by rewrite <- E3|unfold instance in *; by rewrite <- E4].
Qed.

Inductive reachable (loops : gset Z) : ChatServer -> Prop :=
| Init : reachable loops (newServer loops)
| Step a s s' : reachable loops s -> enabled a s = true -> step a s = Ok s' -> reachable loops s'.

Lemma local_step_ok a s : inv s -> enabled a s = true -> exists s', step a s = Ok s' /\ inv s'.
Proof.
  intros Hi Hen. destruct a as [l|l [] conn|msg|l]; cbn [step].
  - by apply threadInit_ok.
  - by apply up_ok.
  - by apply down_ok.
  - eexists. split; [done|]. by apply message_ok.
  - apply distribute_ok; [done|]. cbn in Hen. destruct (all_loops s !! l); [by eexists|done].
Qed.

(** [C20] One order for all.  However loops, connections and messages interleave: no step fails; what
    a connection has been sent is a contiguous part of the sequence of all messages, in the order in
    which they took the mutex, so that two clients never see two messages in different orders; and
    while it is up, what follows that part is exactly what is queued in its loop, so that nothing is
    lost or repeated. *)
Theorem one_order_for_all loops s :
  reachable loops s ->
  (forall a, enabled a s = true -> exists s', step a s = Ok s' /\ reachable loops s') /\
  (forall c ms, received s !! c = Some ms -> exists pre post, log s = pre ++ ms ++ post) /\
  (forall l e c, all_loops s !! l = Some e -> c ∈ instance e -> exists ms pre, received s !! c = Some ms /\ log s = pre ++ ms ++ queue e).
Proof.
  intros Hr. assert (Hi : inv s).
  { induction Hr as [|a s s' _ IH Hen E]; [apply loops_inv_new|]. destruct (local_step_ok a s IH Hen) as (s2 & E2 & ?). congruence. }
  split_and!; [|apply Hi|apply Hi]. intros a Hen. destruct (local_step_ok a s Hi Hen) as (s' & E & _). exists s'. split; [done|]. by eapply Step.
Qed.
End HighPerformanceTheory.

(** ** Runs *)

Module Runs.
Section Run.
Context {S A : Type} (step : A -> S -> res S) (enabled : A -> S -> bool).

Fixpoint run (l : list A) (s : S) : res S :=
  match l with
  | [] => Ok s
  | a :: l => if enabled a s then s ← step a s; run l s else Fault (Thrown "not enabled")
  end.

Lemma run_ind (P : S -> Prop) l s s' :
  (forall a s s', P s -> enabled a s = true -> step a s = Ok s' -> P s') -> P s -> run l s = Ok s' -> P s'.
Proof.
  intros Hstep. revert s. induction l as [|a l IH]; intros s Hs; cbn; [by intros [= <-]|].
  destruct (enabled a s) eqn:En; [|done]. destruct (step a s) as [s1|] eqn:E; cbn [mbind res_bind]; [|done]. apply IH. by eapply Hstep.
Qed.
End Run.

(** Two connections; a broadcast has reached the first when it leaves and another joins. *)
Definition crossing : list Efficient.action :=
  [Efficient.Connection true 1; Efficient.Connection true 2; Efficient.Broadcasts 7 (lit "hi"); Efficient.Advance 7;
   Efficient.Connection true 3; Efficient.Connection false 1; Efficient.Advance 7; Efficient.Advance 7].

(** The state after actions, with the events on the way. *)
Fixpoint watch (l : list Efficient.action) (tr : list Efficient.event) (s : Efficient.ChatServer) : res (list Efficient.event * Efficient.ChatServer) :=
  match l with
  | [] => Ok (tr, s)
  | a :: l => if Efficient.enabled a s then r ← Efficient.step a s; watch l (tr ++ [fst r]) (snd r) else Fault (Thrown "not enabled")
  end.

Lemma watch_reachable l tr s tr' s' : EfficientTheory.reachable tr s -> watch l tr s = Ok (tr', s') -> EfficientTheory.reachable tr' s'.
Proof.
  revert tr s. induction l as [|a l IH]; intros tr s Hr; cbn; [by intros [= <- <-]|].
  destruct (Efficient.enabled a s) eqn:En; [|done]. destruct (Efficient.step a s) as [[e s1]|] eqn:E; cbn [mbind res_bind]; [|done].
  apply IH. by eapply EfficientTheory.Step.
Qed.

Definition crossing_events : list Efficient.event :=
  [Efficient.Is 1 true; Efficient.Is 2 true; Efficient.Starts 7 (lit "hi"); Efficient.Sends 7 1 (lit "hi");
   Efficient.Is 3 true; Efficient.Is 1 false; Efficient.Sends 7 2 (lit "hi"); Efficient.Returns 7].

Definition server_after (l : list Efficient.action) : Efficient.ChatServer :=
  match watch l [] Efficient.newServer with Ok (_, s) => s | Fault _ => Efficient.newServer end.

Example crossing_view :
  watch crossing [] Efficient.newServer = Ok (crossing_events, server_after crossing) /\
  elements (Efficient.lists (server_after crossing) !!! Efficient.connections_ (server_after crossing)) = [3; 2] /\
  elements (dom (Efficient.lists (server_after crossing))) = [2%positive].
Proof. vm_compute. auto. Qed.

(** The broadcast went to the two connections that were up when it started; the next step is a
    connection that goes down. *)
Lemma copy_on_write_witness :
  (exists e s', Efficient.step (Efficient.Connection false 2) (server_after crossing) = Ok (e, s') /\ EfficientTheory.reachable (crossing_events ++ [e]) s') /\
  (exists conns, [(1, lit "hi"); (2, lit "hi")] = (fun conn => (conn, lit "hi")) <$> conns /\
    forall conn, conn ∈ conns <-> EfficientTheory.is_up [Efficient.Is 1 true; Efficient.Is 2 true] conn).
Proof.
  assert (Hr : EfficientTheory.reachable crossing_events (server_after crossing)).
  { apply (watch_reachable crossing [] Efficient.newServer); [constructor|vm_compute; reflexivity]. }
  destruct (EfficientTheory.copy_on_write _ _ Hr) as (H1 & _ & H3 & _). split.
  - apply H1. vm_compute. reflexivity.
  - destruct (H3 [Efficient.Is 1 true; Efficient.Is 2 true] 7 (lit "hi")
      [Efficient.Sends 7 1 (lit "hi"); Efficient.Is 3 true; Efficient.Is 1 false; Efficient.Sends 7 2 (lit "hi")] [] eq_refl
      ltac:(repeat constructor)) as (conns & E & _ & _ & Hc). exists conns. split; [exact E|exact Hc].
Defined.

(** Two loops; connection 20 joins between two messages. *)
Definition two_loops : gset Z := {[ 1; 2 ]}.
Definition joining : list HighPerformance.action :=
  [HighPerformance.ThreadInit 1; HighPerformance.ThreadInit 2; HighPerformance.Connection 1 true 10; HighPerformance.Message (lit "a");
   HighPerformance.Distribute 2; HighPerformance.Connection 2 true 20; HighPerformance.Message (lit "b"); HighPerformance.Distribute 2;
   HighPerformance.Distribute 1].

Definition loops_after (l : list HighPerformance.action) : HighPerformance.ChatServer :=
  match run HighPerformance.step HighPerformance.enabled l (HighPerformanceTheory.newServer two_loops) with
  | Ok s => s | Fault _ => HighPerformanceTheory.newServer two_loops
  end.

Lemma one_order_for_all_witness :
  exists ms1 ms2 pre1 pre2, HighPerformance.received (loops_after joining) !! 10 = Some ms1 /\ HighPerformance.received (loops_after joining) !! 20 = Some ms2 /\
    ms1 = [lit "a"] /\ ms2 = [lit "b"] /\ [lit "a"; lit "b"] = pre1 ++ ms1 ++ [lit "b"] /\ [lit "a"; lit "b"] = pre2 ++ ms2 ++ [].
Proof.
  assert (Hr : HighPerformanceTheory.reachable two_loops (loops_after joining)).
  { apply (run_ind HighPerformance.step HighPerformance.enabled (HighPerformanceTheory.reachable two_loops) joining (HighPerformanceTheory.newServer two_loops));
      [intros a s s' Hs Hen E; by eapply HighPerformanceTheory.Step|constructor|vm_compute; reflexivity]. }
  destruct (HighPerformanceTheory.one_order_for_all _ _ Hr) as (_ & _ & H3).
  destruct (H3 1 _ 10 ltac:(vm_compute; reflexivity) ltac:(apply (bool_decide_eq_true_1 _); vm_compute; reflexivity)) as (ms1 & pre1 & E1 & L1).
  destruct (H3 2 _ 20 ltac:(vm_compute; reflexivity) ltac:(apply (bool_decide_eq_true_1 _); vm_compute; reflexivity)) as (ms2 & pre2 & E2 & L2).
  exists ms1, ms2, pre1, pre2. split_and!; [exact E1|exact E2| | |exact L1|exact L2].
  - assert (E : HighPerformance.received (loops_after joining) !! 10 = Some [lit "a"]) by (vm_compute; reflexivity). congruence.
  - assert (E : HighPerformance.received (loops_after joining) !! 20 = Some [lit "b"]) by (vm_compute; reflexivity). congruence.
Defined.
End Runs.
