(* ===== verification/Socks4a.v ===== *)
(** * The SOCKS server (src/socks4a/socks4a.cc)

    One connection of the server: its input buffer, the entry g_tunnels has for it, the requests
    it makes of [InetAddress::resolve] (the argument [resolve], whose answer may depend on the
    number of the call), and the handlers of socks4a.cc and of the tunnel's connection
    (onClientConnection in tunnel.h) that touch it.  The socket addresses of the sources are kept as the bytes they
    hold in memory: two of the port, four of the address.

    [connected] says that the connection's state is kConnected, so that [send] takes what it is
    given.  While [context] is set the tunnel's connection takes what is sent to it; the relaying
    of the bytes, and back, over two connections of TcpConnection.v is the subject of Tunnel.v.
    Ghost fields: the tunnels made, the replies sent, the bytes passed to the tunnel. *)
From S2P Require Import Prelude Endian Buffer BufferTheory.

Inductive client := Dialing | Up | Down.

#[global] Instance client_eq_dec : EqDecision client.
Proof. solve_decision. Defined.

Record SocksSession := mkSession {
  input : Buffer;
  connected : bool;
  closed : bool;
  tunnel : option client;
  context : bool;
  resolved : nat;
  opened : list (list char * list char);
  replies : list (list char);
  to_tunnel : list char
}.

Definition newSocksSession (b : Buffer) : SocksSession := mkSession b true false None false 0 [] [] [].

Definition set_buf (b : Buffer) (s : SocksSession) : SocksSession :=
  mkSession b (connected s) (closed s) (tunnel s) (context s) (resolved s) (opened s) (replies s) (to_tunnel s).
Definition shut (s : SocksSession) : SocksSession :=
  mkSession (input s) false (closed s) (tunnel s) (context s) (resolved s) (opened s) (replies s) (to_tunnel s).
Definition send_reply (d : list char) (s : SocksSession) : SocksSession :=
  mkSession (input s) (connected s) (closed s) (tunnel s) (context s) (resolved s) (opened s)
    (if connected s then replies s ++ [d] else replies s) (to_tunnel s).
(** new Tunnel, setup, connect, and its entry in g_tunnels *)
Definition open_tunnel (port ip : list char) (s : SocksSession) : SocksSession :=
  mkSession (input s) (connected s) (closed s) (Some Dialing) (context s) (resolved s) (opened s ++ [(port, ip)]) (replies s) (to_tunnel s).
Definition set_client (c : client) (ctx : bool) (s : SocksSession) : SocksSession :=
  mkSession (input s) (connected s) (closed s) (Some c) ctx (resolved s) (opened s) (replies s) (to_tunnel s).

(** std::find over part of the buffer: the end when the character is not there. *)
Definition std_find (first last : Z) (c : char) (b : Buffer) : res Z :=
  l ← read_range (buffer_ b) first last;
  Ok (match find_char c l with Some k => first + k | None => last end).

Section Socks.
Context `{Host} (resolve : nat -> list char -> option (list char)).

Definition resolve_host (hostname : list char) (s : SocksSession) : option (list char) * SocksSession :=
  (resolve (resolved s) hostname,
   mkSession (input s) (connected s) (closed s) (tunnel s) (context s) (S (resolved s)) (opened s) (replies s) (to_tunnel s)).

(** send(Buffer* ) of the tunnel's connection. *)
Definition forward (s : SocksSession) : res SocksSession :=
  let b := input s in
  d ← read_range (buffer_ b) (peek b) (peek b + readableBytes b);
  Ok (mkSession (retrieveAll b) (connected s) (closed s) (tunnel s) (context s) (resolved s) (opened s) (replies s) (to_tunnel s ++ d)).

Definition kGranted : list char := [chr 0; chr 90].
Definition kRejected : list char := [chr 0; chr 91] ++ lit "UVWXYZ".

(** The end of onServerMessage, [where_] at the last byte of the request. *)
Definition conclude (ver cmd port ip : list char) (okay : bool) (where_ : Z) (s : SocksSession) : res SocksSession :=
  if bool_decide (ver = [chr 4]) && bool_decide (cmd = [chr 1]) && okay then
    let s := open_tunnel port ip s in
    b ← retrieveUntil (where_ + 1) (input s);
    Ok (send_reply (kGranted ++ port ++ ip) (set_buf b s))
  else Ok (shut (send_reply kRejected s)).

Definition onServerMessage (s : SocksSession) : res SocksSession :=
  let buf := input s in
  match tunnel s with
  | None =>
      if 128 <? readableBytes buf then Ok (shut s)
      else if 8 <? readableBytes buf then
        let begin_ := peek buf + 8 in
        let end_ := peek buf + readableBytes buf in
        where_ ← std_find begin_ end_ (chr 0) buf;
        if where_ =? end_ then Ok s
        else
          ver ← read_range (buffer_ buf) (peek buf) (peek buf + 1);
          cmd ← read_range (buffer_ buf) (peek buf + 1) (peek buf + 2);
          port ← read_range (buffer_ buf) (peek buf + 2) (peek buf + 4);
          ip ← read_range (buffer_ buf) (peek buf + 4) (peek buf + 8);
          let socks4a := networkToHost32 (from_memory ip) <? 256 in
          if socks4a then
            endOfHostName ← std_find (where_ + 1) end_ (chr 0) buf;
            if endOfHostName =? end_ then Ok s
            else
              hostname ← read_range (buffer_ buf) (where_ + 1) endOfHostName;
              let '(tmp, s) := resolve_host hostname s in
              match tmp with
              | Some tmp => conclude ver cmd port tmp true endOfHostName s
              | None => conclude ver cmd port ip false endOfHostName s
              end
          else conclude ver cmd port ip true where_ s
      else Ok s
  | Some _ => if context s then forward s else Ok s
  end.

Definition onServerConnectionDown (s : SocksSession) : SocksSession :=
  mkSession (input s) false true None (context s) (resolved s) (opened s) (replies s) (to_tunnel s).

Definition onClientConnectionUp (s : SocksSession) : res SocksSession :=
  let s := set_client Up true s in
  if 0 <? readableBytes (input s) then forward s else Ok s.

(** teardown *)
Definition onClientConnectionDown (s : SocksSession) : SocksSession := shut (set_client Down false s).

Inductive event := Read (d : list char) | TunnelUp | TunnelDown | Closed.

Definition enabled (e : event) (s : SocksSession) : bool :=
  match e with
  | Read _ | Closed => negb (closed s)
  | TunnelUp => bool_decide (tunnel s = Some Dialing)
  | TunnelDown => bool_decide (tunnel s = Some Up)
  end.

Definition on_event (e : event) (s : SocksSession) : res SocksSession :=
  match e with
  | Read d => b ← append d (input s); onServerMessage (set_buf b s)
  | TunnelUp => onClientConnectionUp s
  | TunnelDown => Ok (onClientConnectionDown s)
  | Closed => Ok (onServerConnectionDown s)
  end.

(** The events of a connection; one that cannot happen is passed over. *)
Fixpoint run (es : list event) (s : SocksSession) : res SocksSession :=
  match es with
  | [] => Ok s
  | e :: es => s ← (if enabled e s then on_event e s else Ok s); run es s
  end.
End Socks.
