(* ===== verification/Socks4aTheory.v ===== *)
(** * What the SOCKS server does with its clients' bytes

    Requests as the protocol has them, the handler against them, and two theorems: a request is
    granted however its bytes are cut, and nothing else opens a tunnel. *)
From S2P Require Import Prelude Endian Buffer BufferTheory Socks4a.

(** ** Requests *)

Record request := mkRequest {
  rq_ver : char;
  rq_cmd : char;
  rq_port : list char;
  rq_ip : list char;
  rq_user : list char;
  rq_host : option (list char)
}.

Definition nul : char := chr 0.
Definition host_text (h : option (list char)) : list char := match h with Some h => h ++ [nul] | None => [] end.
Definition wire (r : request) : list char := [rq_ver r; rq_cmd r] ++ rq_port r ++ rq_ip r ++ rq_user r ++ [nul] ++ host_text (rq_host r).

(** An address 0.0.0.x announces a host name. *)
Definition names_host (ip : list char) : bool := of_be_bytes ip <? 256.

Record shape (r : request) : Prop := {
  sh_port : length (rq_port r) = 2%nat;
  sh_ip : length (rq_ip r) = 4%nat;
  sh_user : nul ∉ rq_user r;
  sh_names : names_host (rq_ip r) = bool_decide (is_Some (rq_host r));
  sh_host : forall h, rq_host r = Some h -> nul ∉ h
}.

Lemma cut_nul (x y x' y' : list char) : nul ∉ x -> nul ∉ x' -> x ++ nul :: y = x' ++ nul :: y' -> x = x' /\ y = y'.
Proof.
  intros Hx Hx' E. assert (Hz : zlen x = zlen x').
  { pose proof (find_char_app nul x y Hx) as E1. rewrite E, find_char_app in E1 by done. by injection E1. }
  apply app_inj_1 in E as [-> [= ->]]; [done|unfold zlen in Hz; lia].
Qed.

(** A stream of bytes starts with one request at most. *)
Lemma wire_inj r d r' d' : shape r -> shape r' -> wire r ++ d = wire r' ++ d' -> r = r' /\ d = d'.
Proof.
  intros [P1 I1 U1 N1 H1] [P2 I2 U2 N2 H2] E. unfold wire in E. rewrite <- !app_assoc in E. cbn [app] in E.
  injection E as Ev Ec E. apply app_inj_1 in E as [Ep E]; [|congruence]. apply app_inj_1 in E as [Ei E]; [|congruence].
  apply cut_nul in E as [Eu E]; [|done..]. destruct r as [v c p i u h], r' as [v' c' p' i' u' h']; cbn in *. subst.
  rewrite N1 in N2. destruct h as [h|], h' as [h'|]; cbn in *.
  - rewrite <- !app_assoc in E. apply cut_nul in E as [-> ->]; [done|by apply H1|by apply H2].
  - done.
  - done.
  - done.
Qed.

Lemma wire_long r : shape r -> 9 <= zlen (wire r).
Proof.
  intros Hs. unfold wire. rewrite !zlen_app. pose proof (zlen_nonneg (rq_user r)). pose proof (zlen_nonneg (host_text (rq_host r))).
  unfold zlen at 2 3. rewrite (sh_port _ Hs), (sh_ip _ Hs). change (zlen [rq_ver r; rq_cmd r]) with 2. change (zlen [nul]) with 1. lia.
Qed.

(** ** The handler against requests *)

Section Handler.
Context `{Host} (resolve : nat -> list char -> option (list char)).

Definition destination (n : nat) (r : request) : option (list char) :=
  match rq_host r with None => Some (rq_ip r) | Some h => resolve n h end.

Definition asked (r : request) (s : SocksSession) : SocksSession :=
  match rq_host r with None => s | Some h => snd (resolve_host resolve h s) end.

(** The address a CONNECT request of version 4 is granted. *)
Definition granted (n : nat) (r : request) : option (list char) :=
  if bool_decide (rq_ver r = chr 4) && bool_decide (rq_cmd r = chr 1) then destination n r else None.

Definition verdict (r : request) (s : SocksSession) (b : Buffer) : SocksSession :=
  match granted (resolved s) r with
  | Some ip => send_reply (kGranted ++ rq_port r ++ ip) (set_buf b (open_tunnel (rq_port r) ip (asked r s)))
  | None => shut (send_reply kRejected (asked r s))
  end.

Lemma std_find_content b x y c :
  inv b -> content b = x ++ y ->
  std_find (peek b + zlen x) (peek b + readableBytes b) c b =
    Ok (match find_char c y with Some k => peek b + (zlen x + k) | None => peek b + readableBytes b end).
Proof.
  intros Hi E. unfold std_find. pose proof (zlen_nonneg x). pose proof (zlen_nonneg y).
  rewrite readableBytes_content, read_content_range by (done || rewrite ?E, ?zlen_app; lia).
  cbn [mbind res_bind]. do 2 f_equal. replace (slice _ _ _) with y; [destruct (find_char c y); lia|].
  pose proof (slice_mid_at x y [] _ _ eq_refl eq_refl) as Hs. rewrite app_nil_r in Hs. by rewrite E, zlen_app.
Qed.

Lemma read_piece b x y z i j :
  inv b -> content b = x ++ y ++ z -> i = zlen x -> j = zlen x + zlen y -> read_range (buffer_ b) (peek b + i) (peek b + j) = Ok y.
Proof.
  intros Hi E -> ->. pose proof (zlen_nonneg x). pose proof (zlen_nonneg y). pose proof (zlen_nonneg z).
  rewrite read_content_range by (done || rewrite ?E, ?zlen_app; lia). f_equal. rewrite E. apply slice_mid.
Qed.

Lemma conclude_eq b s ver cmd port ip okay k x y :
  inv b -> input s = b -> content b = x ++ y -> zlen x = k + 1 ->
  exists b', inv b' /\ content b' = y /\
    conclude [ver] [cmd] port ip okay (peek b + k) s =
      Ok (if bool_decide (ver = chr 4) && bool_decide (cmd = chr 1) && okay
          then send_reply (kGranted ++ port ++ ip) (set_buf b' (open_tunnel port ip s)) else shut (send_reply kRejected s)).
Proof.
  intros Hi <- E Hk. pose proof (zlen_content _ Hi) as Hz. rewrite E, zlen_app in Hz. pose proof (zlen_nonneg x). pose proof (zlen_nonneg y).
  destruct (retrieveUntil_spec (peek (input s) + k + 1) (input s) Hi) as (b' & Eb & Hi' & Hc).
  { unfold inv in Hi. unfold peek, beginWrite in *. lia. }
  exists b'. split_and!; [done| |].
  - rewrite Hc, E. replace (Z.to_nat _) with (length x) by (unfold zlen in *; lia). apply drop_app_length.
  - unfold conclude. cbn [open_tunnel input]. rewrite (bool_decide_ext ([ver] = [chr 4]) (ver = chr 4)) by (split; congruence).
    rewrite (bool_decide_ext ([cmd] = [chr 1]) (cmd = chr 1)) by (split; congruence).
    destruct (_ && _ && okay); [|done]. rewrite Eb. done.
Qed.

Lemma names_host_eq ip : length ip = 4%nat -> (networkToHost32 (from_memory ip) <? 256) = names_host ip.
Proof.
  intros Hl. unfold names_host, networkToHost32. pose proof (from_memory_range ip) as Hr. unfold zlen in Hr. rewrite Hl in Hr.
  rewrite uint_small by exact Hr. by rewrite <- Hl, betoh_from_memory.
Qed.

Lemma onServerMessage_long s : inv (input s) -> tunnel s = None -> 128 < zlen (content (input s)) -> onServerMessage resolve s = Ok (shut s).
Proof. intros Hi Ht Hl. unfold onServerMessage. rewrite Ht, readableBytes_content by done. by rewrite (proj2 (Z.ltb_lt _ _) Hl). Qed.

(** What the handler sees of a buffer with [ver], [cmd], [port], [ip], [user] and a zero byte in front. *)
Section Fields.
Context (s : SocksSession) (ver cmd : char) (port ip user rest : list char).
Context (Hi : inv (input s)) (Ht : tunnel s = None) (Hp : length port = 2%nat) (Hip : length ip = 4%nat) (Hu : nul ∉ user).
Context (Hc : content (input s) = [ver; cmd] ++ port ++ ip ++ user ++ nul :: rest) (Hl : zlen (content (input s)) <= 128).

Lemma fields_handler k :
  k = 8 + zlen user ->
  onServerMessage resolve s =
    if names_host ip then
      e ← std_find (peek (input s) + (k + 1)) (peek (input s) + readableBytes (input s)) (chr 0) (input s);
      if e =? peek (input s) + readableBytes (input s) then Ok s
      else
        hostname ← read_range (buffer_ (input s)) (peek (input s) + (k + 1)) e;
        let '(tmp, s) := resolve_host resolve hostname s in
        match tmp with
        | Some tmp => conclude [ver] [cmd] port tmp true e s
        | None => conclude [ver] [cmd] port ip false e s
        end
    else conclude [ver] [cmd] port ip true (peek (input s) + k) s.
Proof.
  intros Hk. assert (Hzp : zlen port = 2) by (unfold zlen; by rewrite Hp). assert (Hzi : zlen ip = 4) by (unfold zlen; by rewrite Hip).
  pose proof (zlen_nonneg user). pose proof (zlen_nonneg rest).
  assert (Hz : zlen (content (input s)) = k + 1 + zlen rest).
  { rewrite Hc, !zlen_app, (zlen_cons nul). change (zlen [ver; cmd]) with 2. lia. }
  unfold onServerMessage. rewrite Ht, !readableBytes_content by done.
  replace (128 <? _) with false by lia. replace (8 <? _) with true by lia.
  assert (E8 : content (input s) = ([ver; cmd] ++ port ++ ip) ++ user ++ nul :: rest) by (by rewrite Hc, <- !app_assoc).
  pose proof (std_find_content (input s) _ _ nul Hi E8) as Hf. rewrite find_char_app in Hf by done.
  replace (zlen ([ver; cmd] ++ port ++ ip)) with 8 in Hf by (rewrite !zlen_app; change (zlen [ver; cmd]) with 2; lia).
  rewrite readableBytes_content in Hf by done. unfold nul in Hf. rewrite Hf. cbn [mbind res_bind]. rewrite <- Hk.
  replace (peek (input s) + k =? _) with false by lia.
  pose proof (read_piece (input s) [] [ver] (cmd :: port ++ ip ++ user ++ nul :: rest) 0 1 Hi Hc eq_refl eq_refl) as R0. rewrite Z.add_0_r in R0.
  pose proof (read_piece (input s) [ver] [cmd] (port ++ ip ++ user ++ nul :: rest) 1 2 Hi Hc eq_refl eq_refl) as R1.
  pose proof (read_piece (input s) [ver; cmd] port (ip ++ user ++ nul :: rest) 2 4 Hi Hc eq_refl ltac:(by rewrite Hzp)) as R2.
  assert (E4 : content (input s) = ([ver; cmd] ++ port) ++ ip ++ user ++ nul :: rest) by (by rewrite Hc, <- !app_assoc).
  pose proof (read_piece (input s) _ ip (user ++ nul :: rest) 4 8 Hi E4 ltac:(by rewrite zlen_app, Hzp) ltac:(by rewrite zlen_app, Hzp, Hzi)) as R3.
  rewrite R0. cbn [mbind res_bind]. rewrite R1. cbn [mbind res_bind]. rewrite R2. cbn [mbind res_bind]. rewrite R3.
  cbn [mbind res_bind]. rewrite names_host_eq by done. rewrite <- Z.add_assoc. done.
Qed.
End Fields.

Lemma onServerMessage_request r data s :
  inv (input s) -> tunnel s = None -> shape r -> content (input s) = wire r ++ data -> zlen (content (input s)) <= 128 ->
  exists b, inv b /\ content b = data /\ onServerMessage resolve s = Ok (verdict r s b).
Proof.
  intros Hi Ht [P I U N Hh] Hc Hl. unfold wire in Hc. destruct r as [ver cmd port ip user host]; cbn in *.
  rewrite <- !app_assoc in Hc. cbn [app] in Hc.
  rewrite (fields_handler s ver cmd port ip user (host_text host ++ data) Hi Ht P I U Hc Hl (8 + zlen user) eq_refl), N.
  unfold verdict, granted, asked, destination. cbn [rq_ver rq_cmd rq_port rq_ip rq_user rq_host].
  set (x := [ver; cmd] ++ port ++ ip ++ user ++ [nul]).
  assert (Hx : zlen x = 8 + zlen user + 1).
  { unfold x, zlen. rewrite !length_app, P, I. cbn. lia. }
  assert (E0 : content (input s) = x ++ host_text host ++ data) by (rewrite Hc; unfold x; by rewrite <- !app_assoc).
  assert (Hz : zlen (content (input s)) = 8 + zlen user + 1 + zlen (host_text host) + zlen data) by (rewrite E0, !zlen_app; lia).
  pose proof (zlen_nonneg data). destruct host as [h|]; cbn [host_text] in *.
  - change (bool_decide (is_Some (Some h))) with true. cbv iota. specialize (Hh h eq_refl).
    pose proof (std_find_content (input s) _ _ nul Hi E0) as Hf. rewrite <- app_assoc in E0, Hf. change ([nul] ++ data) with (nul :: data) in Hf.
    rewrite find_char_app, Hx in Hf by done.
    rewrite zlen_app in Hz. change (zlen [nul]) with 1 in Hz. pose proof (zlen_nonneg h).
    unfold nul in Hf. rewrite Hf. cbn [mbind res_bind]. rewrite readableBytes_content by done.
    rewrite (proj2 (Z.eqb_neq _ _)) by lia.
    rewrite (read_piece (input s) x h ([nul] ++ data)) by (done || lia). cbn [mbind res_bind resolve_host]. fold nul.
    assert (E1 : content (input s) = (x ++ h ++ [nul]) ++ data) by (by rewrite <- !app_assoc).
    assert (Hk : zlen (x ++ h ++ [nul]) = 8 + zlen user + 1 + zlen h + 1) by (rewrite !zlen_app; change (zlen [nul]) with 1; lia).
    pose proof (fun p okay => conclude_eq (input s) (snd (resolve_host resolve h s)) ver cmd port p okay _ _ data Hi eq_refl E1 Hk) as Hend.
    cbn [resolve_host snd] in Hend |- *. destruct (resolve (resolved s) h) as [p|];
      [destruct (Hend p true) as (b & Hb & Hcb & E)|destruct (Hend ip false) as (b & Hb & Hcb & E)];
      (exists b; split_and!; [done..|]; rewrite E; by repeat case_bool_decide).
  - cbn. destruct (conclude_eq (input s) s ver cmd port ip true (8 + zlen user) x data Hi eq_refl E0 Hx) as (b & Hb & Hcb & E).
    exists b. split_and!; [done..|]. rewrite E. cbn. by repeat case_bool_decide.
Qed.

(** There is a whole request, or the handler waits. *)
Lemma onServerMessage_cases s :
  inv (input s) -> tunnel s = None -> zlen (content (input s)) <= 128 ->
  (exists r data, shape r /\ content (input s) = wire r ++ data) \/ onServerMessage resolve s = Ok s.
Proof.
  intros Hi Ht Hl. destruct (decide (8 < zlen (content (input s)))) as [H8|H8].
  2:{ right. unfold onServerMessage. rewrite Ht, !readableBytes_content by done. rewrite (proj2 (Z.ltb_ge 128 _)) by lia. by rewrite (proj2 (Z.ltb_ge 8 _)) by lia. }
  set (l := content (input s)) in *.
  assert (exists ver cmd port ip rest, l = [ver; cmd] ++ port ++ ip ++ rest /\ length port = 2%nat /\ length ip = 4%nat) as (ver & cmd & port & ip & rest & El & P & I).
  { clearbody l. do 8 (destruct l as [|? l]; [by vm_compute in H8|]). eexists _, _, [_; _], [_; _; _; _], l. done. }
  destruct (find_char nul rest) as [i|] eqn:Ef.
  - apply find_char_Some in Ef as (user & rest' & -> & Hu & _).
    rewrite (fields_handler s ver cmd port ip user rest' Hi Ht P I Hu El Hl (8 + zlen user) eq_refl).
    destruct (names_host ip) eqn:En.
    + destruct (decide (nul ∈ rest')) as [(h & x & -> & Hh)%list_elem_of_split_l|Hh].
      { left. exists (mkRequest ver cmd port ip user (Some h)), x. split.
        - split; try done. cbn. by intros ? [= <-].
        - rewrite El. unfold wire. cbn [rq_ver rq_cmd rq_port rq_ip rq_user rq_host host_text]. by rewrite <- !app_assoc. }
      right. assert (E0 : content (input s) = ([ver; cmd] ++ port ++ ip ++ user ++ [nul]) ++ rest') by (fold l; rewrite El, <- !app_assoc; done).
      pose proof (std_find_content (input s) _ _ nul Hi E0) as Hf. rewrite (proj2 (find_char_None _ _) Hh) in Hf.
      replace (zlen (_ ++ _)) with (8 + zlen user + 1) in Hf by (unfold zlen; rewrite !length_app, P, I; cbn; lia).
      unfold nul in Hf. rewrite Hf. cbn [mbind res_bind]. by rewrite Z.eqb_refl.
    + left. exists (mkRequest ver cmd port ip user None), rest'. split; [by split|]. rewrite El. unfold wire. cbn [rq_ver rq_cmd rq_port rq_ip rq_user rq_host host_text]. by rewrite <- !app_assoc.
  - right. unfold onServerMessage. rewrite Ht.
    assert (E0 : content (input s) = ([ver; cmd] ++ port ++ ip) ++ rest) by (fold l; rewrite El, <- !app_assoc; done).
    pose proof (std_find_content (input s) _ _ nul Hi E0) as Hf. rewrite Ef in Hf.
    replace (zlen ([ver; cmd] ++ port ++ ip)) with 8 in Hf by (unfold zlen; rewrite !length_app, P, I; done).
    unfold nul in Hf. rewrite Hf, !readableBytes_content by done. fold l. rewrite (proj2 (Z.ltb_ge 128 _)), (proj2 (Z.ltb_lt 8 _)) by done.
    cbn [mbind res_bind]. by rewrite Z.eqb_refl.
Qed.

Lemma onServerMessage_partial s :
  inv (input s) -> tunnel s = None -> zlen (content (input s)) <= 128 ->
  (forall r data, shape r -> content (input s) <> wire r ++ data) -> onServerMessage resolve s = Ok s.
Proof. intros Hi Ht Hl Hno. destruct (onServerMessage_cases s Hi Ht Hl) as [(r & data & Hr & E)|]; [by destruct (Hno r data)|done]. Qed.

Lemma forward_eq s : inv (input s) ->
  exists b, inv b /\ content b = [] /\
    forward s = Ok (mkSession b (connected s) (closed s) (tunnel s) (context s) (resolved s) (opened s) (replies s) (to_tunnel s ++ content (input s))).
Proof.
  intros Hi. destruct (retrieveAll_spec _ Hi) as [Hi' Hc]. exists (retrieveAll (input s)). split_and!; [done..|].
  unfold forward. rewrite readableBytes_content by done. pose proof (zlen_nonneg (content (input s))).
  pose proof (read_content_range (input s) 0 (zlen (content (input s))) Hi ltac:(lia) ltac:(lia) ltac:(lia)) as Hr.
  rewrite Z.add_0_r in Hr. rewrite Hr. cbn [mbind res_bind]. do 3 f_equal. unfold slice. rewrite Z.sub_0_r. apply take_ge. unfold zlen. lia.
Qed.

(** ** A request, however cut *)

Definition bytes (es : list event) : list char := concat ((fun e => match e with Read d => d | _ => [] end) <$> es).

(** Reads, and the tunnel's connection comes up. *)
Definition calm (e : event) : Prop := match e with Read d => zlen d <= max_size | TunnelUp => True | _ => False end.

(** The read that completes a request of [need] bytes leaves no more than 128 in the buffer. *)
Fixpoint fits (need have : Z) (es : list event) : Prop :=
  match es with
  | [] => True
  | Read d :: es => (have < need -> have + zlen d <= 128) /\ fits need (have + zlen d) es
  | _ :: es => fits need have es
  end.

Definition waiting (t : list char) (s : SocksSession) : Prop := exists b, s = newSocksSession b /\ inv b /\ content b = t.

Record relaying (r : request) (ip data : list char) (s : SocksSession) : Prop := {
  rl_inv : inv (input s);
  rl_up : connected s = true /\ closed s = false;
  rl_tunnel : tunnel s = Some Dialing /\ context s = false \/ tunnel s = Some Up /\ context s = true /\ content (input s) = [];
  rl_opened : opened s = [(rq_port r, ip)];
  rl_replies : replies s = [kGranted ++ rq_port r ++ ip];
  rl_data : to_tunnel s ++ content (input s) = data
}.

Definition progress (r : request) (ip t : list char) (s : SocksSession) : Prop :=
  (exists y, y <> [] /\ t ++ y = wire r /\ waiting t s) \/ (exists data, t = wire r ++ data /\ relaying r ip data s).

Lemma relaying_read r ip data d s :
  zlen d <= max_size -> relaying r ip data s -> outcome LengthError (on_event resolve (Read d) s) (relaying r ip (data ++ d)).
Proof.
  intros Hd [Hi [Hc Hcl] Ht Ho Hr Hdt]. cbn [on_event].
  destruct (append_outcome d (input s) Hi Hd) as [(b & -> & Hib & Hcb)|[-> _]]; [|by right]. left. cbn [mbind res_bind].
  unfold onServerMessage. cbn [set_buf tunnel context]. destruct Ht as [[T1 T2]|(T1 & T2 & Hn)]; rewrite T1, T2.
  - eexists. split; [done|]. split; cbn; try done; [by left|]. by rewrite Hcb, (assoc_L app), Hdt.
  - destruct (forward_eq (set_buf b s) Hib) as (b' & Hb' & Hcb' & Hf). eexists. split; [exact Hf|]. split; cbn; try done; [by right|].
    rewrite Hn, app_nil_r in Hdt. by rewrite Hcb, Hn, Hcb', app_nil_r, <- Hdt.
Qed.

Lemma relaying_up r ip data s : relaying r ip data s -> tunnel s = Some Dialing -> exists s', onClientConnectionUp s = Ok s' /\ relaying r ip data s'.
Proof.
  intros [Hi [Hc Hcl] Ht Ho Hr Hdt] Et. unfold onClientConnectionUp. cbn [set_client input].
  rewrite readableBytes_content by done. destruct (0 <? zlen (content (input s))) eqn:E.
  - destruct (forward_eq (set_client Up true s) Hi) as (b' & Hb' & Hcb' & Hf). eexists. split; [exact Hf|]. split; cbn; try done; [by right|].
    by rewrite Hcb', app_nil_r.
  - eexists. split; [done|]. split; cbn; try done. right. split_and!; [done..|]. apply zlen_zero_inv. pose proof (zlen_nonneg (content (input s))). lia.
Qed.

Lemma granted_relaying r ip b b' : granted 0 r = Some ip -> inv b' -> relaying r ip (content b') (verdict r (newSocksSession b) b').
Proof.
  intros Hg Hb. unfold verdict. cbn [newSocksSession resolved]. rewrite Hg. unfold asked. destruct (rq_host r); (split; cbn; try done; by left).
Qed.

(** Part of a request is not a request. *)
Lemma cut_wire r t y : shape r -> t ++ y = wire r -> y <> [] -> forall r' d, shape r' -> t <> wire r' ++ d.
Proof.
  intros Hr E Hy r' d Hr' ->. rewrite <- (app_nil_r (wire r)), <- (assoc_L app) in E.
  apply wire_inj in E as [_ [_ E]%app_eq_nil]; done.
Qed.

Lemma progress_read r ip t s d x y :
  shape r -> granted 0 r = Some ip -> zlen (wire r) <= 128 -> zlen d <= max_size -> (t ++ d) ++ x = wire r ++ y ->
  (zlen t < zlen (wire r) -> zlen t + zlen d <= 128) -> progress r ip t s -> outcome LengthError (on_event resolve (Read d) s) (progress r ip (t ++ d)).
Proof.
  intros Hr Hg Hw Hd E Hfit [(z & Hz & Ez & b & -> & Hi & Hc)|(data & -> & Hrl)].
  2:{ eapply outcome_impl; [by apply relaying_read|]. intros s' Hs'. right. exists (data ++ d). by rewrite (assoc_L app). }
  assert (Hlt : zlen t < zlen (wire r)).
  { rewrite <- Ez, zlen_app. destruct z; [done|]. rewrite zlen_cons. pose proof (zlen_nonneg z). lia. }
  specialize (Hfit Hlt). cbn [on_event newSocksSession input].
  destruct (append_outcome d b Hi Hd) as [(b1 & -> & Hi1 & Hc1)|[-> _]]; [|by right]. left. cbn [mbind res_bind].
  assert (Hsmall : zlen (content b1) <= 128) by (rewrite Hc1, Hc, zlen_app; lia). rewrite Hc in Hc1.
  change (set_buf b1 _) with (newSocksSession b1).
  destruct (decide (zlen (t ++ d) < zlen (wire r))) as [Hs|Hs].
  - apply app_eq_inv in E as [(k & E1 & E2)|(k & E1 & E2)]; [rewrite E1, (zlen_app (wire r)) in Hs; pose proof (zlen_nonneg k); lia|].
    assert (Hk : k <> []) by (intros ->; rewrite app_nil_r in E1; rewrite E1 in Hs; lia).
    exists (newSocksSession b1). split; [|left; exists k; split_and!; [done|done|by exists b1]].
    apply onServerMessage_partial; [done|done|done|]. cbn [newSocksSession input]. rewrite Hc1. by apply (cut_wire r _ k).
  - apply app_eq_inv in E as [(k & E1 & E2)|(k & E1 & E2)].
    2:{ assert (k = []) as -> by (apply zlen_zero_inv; rewrite E1, (zlen_app (t ++ d)) in Hs; pose proof (zlen_nonneg k); lia).
        rewrite app_nil_r in E1.
        destruct (onServerMessage_request r [] (newSocksSession b1) Hi1 eq_refl Hr) as (b' & Hb' & Hcb' & Em); [by rewrite app_nil_r, E1|done|].
        eexists. split; [exact Em|]. right. exists []. rewrite app_nil_r. split; [done|]. rewrite <- Hcb'. by apply granted_relaying. }
    destruct (onServerMessage_request r k (newSocksSession b1) Hi1 eq_refl Hr) as (b' & Hb' & Hcb' & Em); [by rewrite <- E1|done|].
    eexists. split; [exact Em|]. right. exists k. split; [done|]. rewrite <- Hcb'. by apply granted_relaying.
Qed.

Lemma read_bytes_cons e es : bytes (e :: es) = match e with Read d => d | _ => [] end ++ bytes es.
Proof. done. Qed.

Lemma run_progress r ip y es :
  shape r -> granted 0 r = Some ip -> zlen (wire r) <= 128 -> forall t s x,
  Forall calm es -> (t ++ bytes es) ++ x = wire r ++ y -> fits (zlen (wire r)) (zlen t) es -> progress r ip t s ->
  outcome LengthError (run resolve es s) (progress r ip (t ++ bytes es)).
Proof.
  intros Hr Hg Hw. induction es as [|e es IH]; intros t s x Hcalm E Hf Hp.
  - left. exists s. by rewrite app_nil_r.
  - apply Forall_cons in Hcalm as [He Hcalm]. rewrite read_bytes_cons in *. cbn [run]. destruct e as [d| | |]; try done.
    + rewrite (assoc_L app) in *. destruct Hf as [Hf Hfs]. assert (enabled (Read d) s = true) as ->.
      { destruct Hp as [(? & _ & _ & b & -> & _)|(? & _ & [_ [_ Hcl] _ _ _ _])]; cbn; [done|by rewrite Hcl]. }
      eapply outcome_bind; [apply (progress_read r ip t s d (bytes es ++ x) y); try done; by rewrite (assoc_L app)|].
      intros s' Hs'. eapply IH; try done. by rewrite zlen_app.
    + cbn [app] in *. destruct (enabled TunnelUp s) eqn:En; cbn [mbind res_bind]; [|by eapply IH].
      apply bool_decide_eq_true in En. destruct Hp as [(? & _ & _ & b & -> & _)|(data & Et & Hrl)]; [done|].
      destruct (relaying_up _ _ _ _ Hrl En) as (s' & Es & Hs'). cbn [on_event]. rewrite Es. cbn [mbind res_bind].
      eapply IH; try done. right. by exists data.
Qed.

(** [C14] A request is granted.  A SOCKS4 or 4a CONNECT request of at most 128 bytes whose name
    resolves, in reads such that the one that completes it leaves at most 128 bytes in the buffer,
    data sent along counted: until it is complete nothing is answered or opened; then one tunnel is
    opened to the address asked for, one granted answer is sent, and every byte after the request
    reaches the tunnel or waits in the buffer, in order, none waiting once the tunnel is up (while
    client and tunnel stay connected). A completing read that leaves more than 128 bytes is refused
    without an answer (eager_client_refused). *)
Theorem request_granted r ip es x y b :
  shape r -> granted 0 r = Some ip -> zlen (wire r) <= 128 -> inv b -> content b = [] ->
  Forall calm es -> bytes es ++ x = wire r ++ y -> fits (zlen (wire r)) 0 es ->
  outcome LengthError (run resolve es (newSocksSession b)) (fun s =>
    connected s = true /\
    (zlen (bytes es) < zlen (wire r) -> opened s = [] /\ replies s = [] /\ to_tunnel s = [] /\ content (input s) = bytes es) /\
    (forall data, bytes es = wire r ++ data ->
      opened s = [(rq_port r, ip)] /\ replies s = [kGranted ++ rq_port r ++ ip] /\
      to_tunnel s ++ content (input s) = data /\ (tunnel s = Some Up -> to_tunnel s = data))).
Proof.
  intros Hr Hg Hw Hi Hc Hcalm E Hf.
  assert (Hp : progress r ip [] (newSocksSession b)).
  { left. exists (wire r). split_and!; [|done|by exists b]. intros En. pose proof (wire_long r Hr). rewrite En in *. done. }
  eapply outcome_impl; [by apply (run_progress r ip y es Hr Hg Hw [] _ x)|]. cbn [app].
  intros s [(z & Hz & Ez & b' & -> & Hi' & Hc')|(data & Ed & [Hi' [Hup Hcl] Ht Ho Hrp Hdt])].
  - split_and!; [done|done|]. intros data Ed. exfalso. rewrite Ed, <- (assoc_L app) in Ez.
    pose proof (app_nil_r (wire r)) as En. rewrite <- En in Ez at 2. by apply app_inv_head, app_eq_nil in Ez as [_ ?].
  - split_and!; [done| |].
    + intros Hlt. rewrite Ed, zlen_app in Hlt. pose proof (zlen_nonneg data). lia.
    + intros data' Ed'. rewrite Ed in Ed'. apply app_inv_head in Ed' as <-. split_and!; [done..|].
      intros Hu. destruct Ht as [[Ht _]|(_ & _ & Hn)]; [congruence|]. by rewrite Hn, app_nil_r in Hdt.
Qed.

(** ** Nothing else opens a tunnel *)

Definition for_request (t : list char) (s : SocksSession) : Prop :=
  exists r n ip, shape r /\ granted n r = Some ip /\ opened s = [(rq_port r, ip)] /\
    t = wire r ++ to_tunnel s ++ content (input s) /\ (tunnel s = None -> closed s = true).

Record sound (t : list char) (s : SocksSession) : Prop := {
  sd_inv : inv (input s);
  sd_replies : (length (replies s) <= 1)%nat;
  sd_closed : closed s = true -> tunnel s = None;
  sd_opened : (tunnel s = None /\ opened s = [] /\ to_tunnel s = [] /\ content (input s) = t /\ (connected s = true -> replies s = [])) \/
    for_request t s
}.

Lemma sound_read t d s :
  zlen d <= max_size -> closed s = false -> sound t s -> outcome LengthError (on_event resolve (Read d) s) (sound (t ++ d)).
Proof.
  intros Hd Hcl [Hi Hr _ Hs]. cbn [on_event].
  destruct (append_outcome d (input s) Hi Hd) as [(b & -> & Hib & Hcb)|[-> _]]; [|by right]. left. cbn [mbind res_bind].
  destruct Hs as [(Ht & Ho & Htt & Hc & Hcon)|(r & n & ip & Hsh & Hg & Ho & Et & Hcl')].
  2:{ destruct (tunnel s) as [c|] eqn:Ht; [|rewrite Hcl in Hcl'; by discriminate Hcl'].
      unfold onServerMessage. cbn [set_buf tunnel context]. rewrite Ht. destruct (context s) eqn:Hcx.
      - destruct (forward_eq (set_buf b s) Hib) as (b' & Hb' & Hcb' & Hf). eexists. split; [exact Hf|]. split; [done|done|cbn; congruence|].
        right. exists r, n, ip. split_and!; try done.
        + cbn [input to_tunnel set_buf]. rewrite Hcb, Hcb', Et, app_nil_r. by rewrite <- !(assoc_L app).
        + cbn. congruence.
      - eexists. split; [done|]. split; [done|done|cbn; congruence|]. right. exists r, n, ip. split_and!; try done.
        + cbn [input to_tunnel set_buf]. rewrite Hcb, Et. by rewrite <- !(assoc_L app).
        + cbn. congruence. }
  rewrite Hc in Hcb. set (s1 := set_buf b s).
  assert (Hidle : forall s', inv (input s') -> content (input s') = t ++ d -> tunnel s' = None -> opened s' = [] -> to_tunnel s' = [] ->
    (length (replies s') <= 1)%nat -> (connected s' = true -> replies s' = []) -> sound (t ++ d) s').
  { intros s' ? ? ? ? ? ? ?. split; [done|done|done|]. left. by split_and!. }
  destruct (decide (128 < zlen (content b))) as [Hl|Hl].
  { rewrite (onServerMessage_long s1) by done. eexists. split; [done|]. by apply Hidle. }
  destruct (onServerMessage_cases s1 Hib Ht ltac:(cbn; lia)) as [(r & data & Hsh & Eb)| ->]; [|eexists; split; [done|]; by apply Hidle].
  destruct (onServerMessage_request r data s1 Hib Ht Hsh Eb ltac:(cbn; lia)) as (b' & Hb' & Hcb' & ->). eexists. split; [done|].
  assert (Hone : forall m, (length (if connected s then replies s ++ [m] else replies s) <= 1)%nat).
  { intros m. destruct (connected s); [by rewrite (Hcon eq_refl)|done]. }
  change (content b = wire r ++ data) in Eb. rewrite <- Hcb' in Eb. unfold verdict. cbn [s1 set_buf resolved]. destruct (granted (resolved s) r) as [ip|] eqn:Hg.
  - assert (Hreq : forall s', tunnel s' = Some Dialing -> opened s' = opened s ++ [(rq_port r, ip)] -> to_tunnel s' = to_tunnel s -> input s' = b' -> for_request (t ++ d) s').
    { intros s' H1 H2 H3 H4. exists r, (resolved s), ip. rewrite H1, H2, H3, H4, Ho, Htt. by rewrite Hcb in Eb. }
    unfold asked. destruct (rq_host r); (split; [done|apply Hone|cbn; congruence|]); right; by apply Hreq.
  - unfold asked. destruct (rq_host r); apply Hidle; try done; apply Hone.
Qed.

Lemma sound_event t e s :
  (forall d, e = Read d -> zlen d <= max_size) -> enabled e s = true -> sound t s ->
  outcome LengthError (on_event resolve e s) (sound (t ++ bytes [e])).
Proof.
  intros Hd En Hs. unfold bytes. cbn [fmap list_fmap concat]. rewrite app_nil_r. destruct e as [d| | |]; rewrite ?app_nil_r.
  - apply sound_read; [by apply Hd|by apply negb_true_iff|done].
  - apply bool_decide_eq_true in En. destruct Hs as [Hi Hr Hcd [(Ht & _)|(r & n & ip & Hsh & Hg & Ho & Et & Hcl)]]; [congruence|].
    cbn [on_event]. unfold onClientConnectionUp. cbn [set_client input]. case_match.
    + destruct (forward_eq (set_client Up true s) Hi) as (b' & Hb' & Hcb' & Hf). left. eexists. split; [exact Hf|]. split; [done|done|cbn; intros Hcz; by rewrite (Hcd Hcz) in En|].
      right. exists r, n, ip. split_and!; try done. cbn [to_tunnel input set_client]. by rewrite Hcb', app_nil_r.
    + left. eexists. split; [done|]. split; [done|done|cbn; intros Hcz; by rewrite (Hcd Hcz) in En|]. right. by exists r, n, ip.
  - apply bool_decide_eq_true in En. destruct Hs as [Hi Hr Hcd [(Ht & _)|(r & n & ip & Hsh & Hg & Ho & Et & Hcl)]]; [congruence|].
    left. eexists. split; [done|]. split; [done|done|cbn; intros Hcz; by rewrite (Hcd Hcz) in En|]. right. by exists r, n, ip.
  - destruct Hs as [Hi Hr _ Hs]. left. eexists. split; [done|]. split; [done|done|done|].
    destruct Hs as [(Ht & Ho & Htt & Hc & Hcon)|(r & n & ip & Hsh & Hg & Ho & Et & Hcl)]; [left; by split_and!|right; by exists r, n, ip].
Qed.

Lemma run_closed es s : closed s = true -> tunnel s = None -> run resolve es s = Ok s.
Proof.
  intros Hc Ht. induction es as [|e es IH]; [done|]. cbn [run]. assert (enabled e s = false) as ->; [|exact IH].
  destruct e; cbn; rewrite ?Hc, ?Ht; done.
Qed.

Lemma run_sound es t s :
  Forall (fun e => forall d, e = Read d -> zlen d <= max_size) es -> sound t s ->
  outcome LengthError (run resolve es s) (fun s' => exists t', sound t' s' /\ t' `prefix_of` t ++ bytes es).
Proof.
  revert t s. induction es as [|e es IH]; intros t s Hes Hs.
  { left. exists s. split; [done|]. exists t. split; [done|]. by rewrite app_nil_r. }
  destruct (closed s) eqn:Hc.
  { left. exists s. rewrite run_closed; [|done|by apply Hs]. split; [done|]. exists t. split; [done|]. by apply prefix_app_r. }
  apply Forall_cons in Hes as [He Hes]. cbn [run]. rewrite read_bytes_cons. destruct (enabled e s) eqn:En.
  - eapply outcome_bind; [by apply sound_event|]. intros s1 Hs1. eapply outcome_impl; [by apply IH|].
    intros s2 (t2 & Hs2 & Hp). exists t2. split; [done|]. unfold bytes in Hp at 1. cbn in Hp. rewrite app_nil_r in Hp. by rewrite (assoc_L app).
  - cbn [mbind res_bind]. destruct e as [d| | |]; [cbn in En; by rewrite Hc in En|by apply IH..].
Qed.

(** [C15] Whatever bytes a client sends, whatever the resolver answers and however connections come and
    go: the handlers fail no assertion and read nothing outside the buffer; at most one reply and one
    tunnel are made; and there is a tunnel only if the bytes start with a whole CONNECT request of
    version 4 for it, with nothing passed to it but what follows that request. *)
Theorem only_requests_open es b :
  inv b -> content b = [] -> Forall (fun e => forall d, e = Read d -> zlen d <= max_size) es ->
  outcome LengthError (run resolve es (newSocksSession b)) (fun s =>
    (length (replies s) <= 1)%nat /\
    (opened s = [] /\ to_tunnel s = [] \/
     exists r n ip, shape r /\ rq_ver r = chr 4 /\ rq_cmd r = chr 1 /\ destination n r = Some ip /\
       opened s = [(rq_port r, ip)] /\ (wire r ++ to_tunnel s) `prefix_of` bytes es)).
Proof.
  intros Hi Hc Hes.
  eapply outcome_impl; [apply (run_sound es [] (newSocksSession b) Hes); split; [done|cbn; lia|done|left; by split_and!]|].
  intros s (t' & [_ Hr _ Hs] & Hp). split; [done|]. destruct Hs as [(_ & ? & ? & _)|(r & n & ip & Hsh & Hg & Ho & Et & _)]; [by left|right].
  unfold granted in Hg. do 2 (case_bool_decide; [|done]). exists r, n, ip. split_and!; try done.
  etransitivity; [|exact Hp]. rewrite Et, (assoc_L app). by apply prefix_app_r.
Qed.
End Handler.

(** ** Runs *)

Module SocksRuns.
#[local] Instance sample_host : Host := LittleEndian.

Definition sample_request : request :=
  mkRequest (chr 4) (chr 1) [chr 0; chr 80] [chr 0; chr 0; chr 0; chr 1] (lit "user") (Some (lit "example.org")).
Definition sample_ip : list char := [chr 10; chr 0; chr 0; chr 7].
Definition sample_resolve (n : nat) (h : list char) : option (list char) := if bool_decide (h = lit "example.org") then Some sample_ip else None.
Definition empty_buffer : Buffer := mkBuffer (replicate 1032 (chr 0)) kCheapPrepend kCheapPrepend.

(** The request in three reads, the last with the first bytes for the tunnel; more while it dials, and after. *)
Definition sample_events : list event :=
  [Read (take 5 (wire sample_request)); Read (take 12 (drop 5 (wire sample_request)));
   Read (drop 17 (wire sample_request) ++ lit "GET"); Read (lit " /"); TunnelUp; Read (lit "index")].

Lemma sample_shape : shape sample_request.
Proof.
  split; [done|done|apply (bool_decide_eq_true_1 _); vm_compute; reflexivity|vm_compute; reflexivity|].
  intros h [= <-]. apply (bool_decide_eq_true_1 _). vm_compute. reflexivity.
Qed.

Lemma empty_buffer_inv : inv empty_buffer.
Proof. unfold inv. vm_compute. repeat split; discriminate. Qed.

Lemma request_granted_witness :
  outcome LengthError (run sample_resolve sample_events (newSocksSession empty_buffer)) (fun s =>
    opened s = [([chr 0; chr 80], sample_ip)] /\ replies s = [[chr 0; chr 90; chr 0; chr 80] ++ sample_ip] /\
    to_tunnel s ++ content (input s) = lit "GET /index").
Proof.
  eapply outcome_impl.
  - apply (request_granted sample_resolve sample_request sample_ip sample_events [] (lit "GET /index") empty_buffer sample_shape).
    + vm_compute. reflexivity.
    + vm_compute. discriminate.
    + exact empty_buffer_inv.
    + reflexivity.
    + repeat constructor; vm_compute; discriminate.
    + vm_compute. reflexivity.
    + cbn [fits sample_events]. repeat (split; [intros _; vm_compute; discriminate|]). exact I.
  - intros s (_ & _ & Hd). destruct (Hd (lit "GET /index")) as (Ho & Hr & Ht & _); [vm_compute; reflexivity|]. split_and!; [exact Ho|exact Hr|exact Ht].
Defined.

Lemma only_requests_open_witness :
  outcome LengthError (run sample_resolve [Read (lit "GET / HTTP/1.0"); TunnelUp; Read [chr 0]; Closed; Read (lit "x")] (newSocksSession empty_buffer))
    (fun s => (length (replies s) <= 1)%nat).
Proof.
  eapply outcome_impl; [apply (only_requests_open sample_resolve)|intros s [Hr _]; exact Hr].
  - exact empty_buffer_inv.
  - reflexivity.
  - repeat (apply Forall_cons; split; [intros d E; first [discriminate E|injection E as <-; vm_compute; discriminate]|]). by apply Forall_nil.
Defined.

Definition final (resolve : nat -> list char -> option (list char)) (es : list event) : option (list (list char * list char) * list (list char) * bool) :=
  match run resolve es (newSocksSession empty_buffer) with Ok s => Some (opened s, replies s, connected s) | Fault _ => None end.

Example sample_final : final sample_resolve sample_events = Some ([([chr 0; chr 80], sample_ip)], [[chr 0; chr 90; chr 0; chr 80] ++ sample_ip], true).
Proof. vm_compute. reflexivity. Qed.

(** A request with its first 128 bytes of data in the same read is refused without an answer. *)
Example eager_client_refused : final sample_resolve [Read (wire sample_request ++ replicate 128 (chr 65))] = Some ([], [], false).
Proof. vm_compute. reflexivity. Qed.

(** A refused request stays in the buffer: when the name resolves by the time the next bytes are read, a
    tunnel is made for the connection that was told otherwise and is being shut down. *)
Example refused_then_opened :
  final (fun n h => if bool_decide (n = O) then None else Some sample_ip) [Read (wire sample_request); Read (lit "x")] =
    Some ([([chr 0; chr 80], sample_ip)], [kRejected], false).
Proof. vm_compute. reflexivity. Qed.
End SocksRuns.
