(* ===== verification/Inspector.v ===== *)
(** * The inspector (src/inspect)

    Inspector.cc: the table of commands, the splitting of a path, and the handler of HTTP
    requests that the server of Http.v calls.  A [Callback] is an empty std::function or the
    function it holds; what the commands print of /proc is not modelled, so registerCommands of
    ProcessInspector.cc and SystemInspector.cc take their callbacks as arguments.  From
    ProcessInspector.cc, [uptime] and [getProcessName], which the overview pages use.

    Every operation runs under mutex_, a command's callback included. *)
From S2P Require Import Prelude Decimal StdSet Timestamp TimeFormat Buffer Http.

Definition Callback : Type := option (Method -> list (list char) -> list char).
Abbreviation CommandList := (list (list char * Callback)) (only parsing).
Abbreviation HelpList := (list (list char * list char)) (only parsing).

Record Inspector := mkInspector { modules_ : list (list char * CommandList); helps_ : list (list char * HelpList) }.

Definition newInspector : Inspector := mkInspector [] [].

(** ** split *)

Definition slash : char := "/"%char.

(** [str.find('/', start)] *)
Definition find_slash (str : list char) (start : Z) : option Z := (fun k => start + k) <$> find_char slash (drop (Z.to_nat start) str).

Fixpoint split_loop (fuel : nat) (str : list char) (start : Z) (pos : option Z) (result : list (list char)) : res (list (list char)) :=
  match pos, fuel with
  | Some pos, S fuel =>
      let result := if start <? pos then result ++ [slice start pos str] else result in
      let start := pos + 1 in
      split_loop fuel str start (find_slash str start) result
  | Some _, O => Fault OutOfFuel
  | None, _ => Ok (if start <? zlen str then result ++ [drop (Z.to_nat start) str] else result)
  end.

Definition split (str : list char) : res (list (list char)) := split_loop (length str) str 0 (find_slash str 0) [].

(** ** The table of commands *)

(** modules_[module][command] = cb, helps_[module][command] = help *)
Definition add (module command : list char) (cb : Callback) (help : list char) (s : Inspector) : Inspector :=
  mkInspector (map_set module (map_set command cb (default [] (map_find module (modules_ s)))) (modules_ s))
    (map_set module (map_set command help (default [] (map_find module (helps_ s)))) (helps_ s)).

Definition remove (module command : list char) (s : Inspector) : Inspector :=
  match map_find module (modules_ s) with
  | Some commands =>
      mkInspector (map_set module (map_erase command commands) (modules_ s))
        (map_set module (map_erase command (default [] (map_find module (helps_ s)))) (helps_ s))
  | None => s
  end.

(** ** Requests *)

Definition index_line (module : list char) (h : list char * list char) : list char :=
  let len := zlen module + zlen h.1 in
  lit "/" ++ module ++ lit "/" ++ h.1 ++ replicate (Z.to_nat (if 25 <=? len then 1 else 25 - len)) (chr 32) ++ h.2 ++ [chr 10].

Definition index_page (s : Inspector) : list char :=
  concat ((fun m => concat (index_line m.1 <$> m.2)) <$> helps_ s).

Definition not_found (resp : HttpResponse) : HttpResponse := setStatusMessage (lit "Not Found") (setStatusCode 404 resp).
Definition found (type body : list char) (resp : HttpResponse) : HttpResponse :=
  setResponseBody body (setContentType type (setStatusMessage (lit "OK") (setStatusCode 200 resp))).

(** char favicon[1743] *)
Definition favicon : str := chr <$> [
  137; 80; 78; 71; 13; 10; 26; 10; 0; 0; 0; 13; 73; 72; 68; 82; 0; 0; 0; 16; 0; 0; 0; 16;
  8; 6; 0; 0; 0; 31; 243; 255; 97; 0; 0; 0; 4; 115; 66; 73; 84; 8; 8; 8; 8; 124; 8; 100;
  136; 0; 0; 0; 9; 112; 72; 89; 115; 0; 0; 11; 18; 0; 0; 11; 18; 1; 210; 221; 126; 252; 0; 0;
  0; 28; 116; 69; 88; 116; 83; 111; 102; 116; 119; 97; 114; 101; 0; 65; 100; 111; 98; 101; 32; 70; 105; 114;
  101; 119; 111; 114; 107; 115; 32; 67; 83; 51; 152; 214; 70; 3; 0; 0; 0; 21; 116; 69; 88; 116; 67; 114;
  101; 97; 116; 105; 111; 110; 32; 84; 105; 109; 101; 0; 50; 47; 49; 55; 47; 48; 56; 32; 156; 170; 88; 0;
  0; 4; 17; 116; 69; 88; 116; 88; 77; 76; 58; 99; 111; 109; 46; 97; 100; 111; 98; 101; 46; 120; 109; 112;
  0; 60; 63; 120; 112; 97; 99; 107; 101; 116; 32; 98; 101; 103; 105; 110; 61; 34; 32; 32; 32; 34; 32; 105;
  100; 61; 34; 87; 53; 77; 48; 77; 112; 67; 101; 104; 105; 72; 122; 114; 101; 83; 122; 78; 84; 99; 122; 107;
  99; 57; 100; 34; 63; 62; 10; 60; 120; 58; 120; 109; 112; 109; 101; 116; 97; 32; 120; 109; 108; 110; 115; 58;
  120; 61; 34; 97; 100; 111; 98; 101; 58; 110; 115; 58; 109; 101; 116; 97; 47; 34; 32; 120; 58; 120; 109; 112;
  116; 107; 61; 34; 65; 100; 111; 98; 101; 32; 88; 77; 80; 32; 67; 111; 114; 101; 32; 52; 46; 49; 45; 99;
  48; 51; 52; 32; 52; 54; 46; 50; 55; 50; 57; 55; 54; 44; 32; 83; 97; 116; 32; 74; 97; 110; 32; 50;
  55; 32; 50; 48; 48; 55; 32; 50; 50; 58; 49; 49; 58; 52; 49; 32; 32; 32; 32; 32; 32; 32; 32; 34;
  62; 10; 32; 32; 32; 60; 114; 100; 102; 58; 82; 68; 70; 32; 120; 109; 108; 110; 115; 58; 114; 100; 102; 61;
  34; 104; 116; 116; 112; 58; 47; 47; 119; 119; 119; 46; 119; 51; 46; 111; 114; 103; 47; 49; 57; 57; 57; 47;
  48; 50; 47; 50; 50; 45; 114; 100; 102; 45; 115; 121; 110; 116; 97; 120; 45; 110; 115; 35; 34; 62; 10; 32;
  32; 32; 32; 32; 32; 60; 114; 100; 102; 58; 68; 101; 115; 99; 114; 105; 112; 116; 105; 111; 110; 32; 114; 100;
  102; 58; 97; 98; 111; 117; 116; 61; 34; 34; 10; 32; 32; 32; 32; 32; 32; 32; 32; 32; 32; 32; 32; 120;
  109; 108; 110; 115; 58; 120; 97; 112; 61; 34; 104; 116; 116; 112; 58; 47; 47; 110; 115; 46; 97; 100; 111; 98;
  101; 46; 99; 111; 109; 47; 120; 97; 112; 47; 49; 46; 48; 47; 34; 62; 10; 32; 32; 32; 32; 32; 32; 32;
  32; 32; 60; 120; 97; 112; 58; 67; 114; 101; 97; 116; 111; 114; 84; 111; 111; 108; 62; 65; 100; 111; 98; 101;
  32; 70; 105; 114; 101; 119; 111; 114; 107; 115; 32; 67; 83; 51; 60; 47; 120; 97; 112; 58; 67; 114; 101; 97;
  116; 111; 114; 84; 111; 111; 108; 62; 10; 32; 32; 32; 32; 32; 32; 32; 32; 32; 60; 120; 97; 112; 58; 67;
  114; 101; 97; 116; 101; 68; 97; 116; 101; 62; 50; 48; 48; 56; 45; 48; 50; 45; 49; 55; 84; 48; 50; 58;
  51; 54; 58; 52; 53; 90; 60; 47; 120; 97; 112; 58; 67; 114; 101; 97; 116; 101; 68; 97; 116; 101; 62; 10;
  32; 32; 32; 32; 32; 32; 32; 32; 32; 60; 120; 97; 112; 58; 77; 111; 100; 105; 102; 121; 68; 97; 116; 101;
  62; 50; 48; 48; 56; 45; 48; 51; 45; 50; 52; 84; 49; 57; 58; 48; 48; 58; 52; 50; 90; 60; 47; 120;
  97; 112; 58; 77; 111; 100; 105; 102; 121; 68; 97; 116; 101; 62; 10; 32; 32; 32; 32; 32; 32; 60; 47; 114;
  100; 102; 58; 68; 101; 115; 99; 114; 105; 112; 116; 105; 111; 110; 62; 10; 32; 32; 32; 32; 32; 32; 60; 114;
  100; 102; 58; 68; 101; 115; 99; 114; 105; 112; 116; 105; 111; 110; 32; 114; 100; 102; 58; 97; 98; 111; 117; 116;
  61; 34; 34; 10; 32; 32; 32; 32; 32; 32; 32; 32; 32; 32; 32; 32; 120; 109; 108; 110; 115; 58; 100; 99;
  61; 34; 104; 116; 116; 112; 58; 47; 47; 112; 117; 114; 108; 46; 111; 114; 103; 47; 100; 99; 47; 101; 108; 101;
  109; 101; 110; 116; 115; 47; 49; 46; 49; 47; 34; 62; 10; 32; 32; 32; 32; 32; 32; 32; 32; 32; 60; 100;
  99; 58; 102; 111; 114; 109; 97; 116; 62; 105; 109; 97; 103; 101; 47; 112; 110; 103; 60; 47; 100; 99; 58; 102;
  111; 114; 109; 97; 116; 62; 10; 32; 32; 32; 32; 32; 32; 60; 47; 114; 100; 102; 58; 68; 101; 115; 99; 114;
  105; 112; 116; 105; 111; 110; 62; 10; 32; 32; 32; 60; 47; 114; 100; 102; 58; 82; 68; 70; 62; 10; 60; 47;
  120; 58; 120; 109; 112; 109; 101; 116; 97; 62; 10; 32; 32; 32; 32; 32; 32; 32; 32; 32; 32; 32; 32; 32;
  32; 32; 32; 32; 32; 32; 32; 32; 32; 32; 32; 32; 32; 32; 32; 32; 32; 32; 32; 32; 32; 32; 32; 32;
  32; 32; 32; 32; 32; 32; 32; 32; 32; 32; 32; 32; 32; 32; 32; 32; 32; 32; 32; 32; 32; 32; 32; 32;
  32; 32; 32; 32; 32; 32; 32; 32; 32; 32; 32; 32; 32; 32; 32; 32; 32; 32; 32; 32; 32; 32; 32; 32;
  32; 32; 32; 32; 32; 32; 32; 32; 32; 32; 32; 32; 32; 32; 32; 10; 32; 32; 32; 32; 32; 32; 32; 32;
  32; 32; 32; 32; 32; 32; 32; 32; 32; 32; 32; 32; 32; 32; 32; 32; 32; 32; 32; 32; 32; 32; 32; 32;
  32; 32; 32; 32; 32; 32; 32; 32; 32; 32; 32; 32; 32; 32; 32; 32; 32; 32; 32; 32; 32; 32; 32; 32;
  32; 32; 32; 32; 32; 32; 32; 32; 32; 32; 32; 32; 32; 32; 32; 32; 32; 32; 32; 32; 32; 32; 32; 32;
  32; 32; 32; 32; 32; 32; 32; 32; 32; 32; 32; 32; 32; 32; 32; 32; 32; 32; 32; 32; 10; 32; 32; 32;
  32; 32; 32; 32; 32; 32; 32; 32; 32; 32; 32; 32; 32; 32; 32; 32; 32; 32; 32; 32; 32; 32; 32; 32;
  32; 32; 32; 32; 32; 32; 32; 32; 32; 32; 32; 32; 32; 32; 32; 32; 32; 32; 32; 32; 32; 32; 32; 32;
  32; 32; 32; 32; 32; 32; 32; 32; 32; 32; 32; 32; 32; 32; 32; 32; 32; 32; 32; 32; 32; 32; 32; 32;
  32; 32; 32; 32; 32; 32; 32; 32; 32; 32; 32; 32; 32; 32; 32; 32; 53; 29; 82; 100; 0; 0; 2; 11;
  73; 68; 65; 84; 56; 141; 165; 147; 65; 107; 26; 65; 24; 134; 159; 137; 6; 35; 46; 116; 245; 32; 74; 14;
  107; 32; 228; 226; 165; 120; 200; 161; 120; 137; 130; 23; 133; 130; 130; 61; 38; 98; 88; 114; 205; 79; 241; 24;
  75; 27; 47; 165; 50; 224; 181; 158; 53; 26; 88; 47; 233; 15; 232; 101; 109; 132; 162; 132; 44; 10; 107; 88;
  98; 167; 135; 104; 104; 19; 161; 165; 121; 225; 59; 12; 195; 251; 204; 55; 239; 124; 35; 148; 82; 188; 68; 126;
  0; 33; 4; 0; 173; 86; 203; 24; 143; 199; 13; 219; 182; 211; 142; 227; 248; 131; 193; 160; 138; 199; 227; 63;
  18; 137; 68; 185; 92; 46; 247; 86; 166; 223; 15; 21; 74; 41; 132; 16; 52; 155; 205; 119; 150; 101; 125; 54;
  12; 67; 228; 114; 57; 226; 241; 56; 183; 183; 183; 244; 251; 125; 6; 131; 1; 169; 84; 234; 67; 165; 82; 57;
  126; 10; 64; 41; 69; 171; 213; 50; 78; 79; 79; 127; 74; 41; 213; 221; 221; 221; 179; 234; 245; 122; 234; 228;
  228; 68; 73; 41; 211; 43; 207; 170; 54; 0; 198; 227; 113; 99; 103; 103; 71; 228; 243; 121; 0; 60; 207; 163;
  80; 40; 224; 186; 46; 158; 231; 145; 74; 165; 216; 219; 219; 99; 52; 26; 125; 124; 154; 193; 6; 128; 109; 219;
  233; 108; 54; 139; 207; 231; 195; 243; 60; 92; 215; 5; 96; 54; 155; 225; 186; 46; 139; 197; 130; 76; 38; 131;
  109; 219; 187; 107; 67; 116; 28; 199; 31; 139; 197; 0; 40; 22; 139; 143; 155; 213; 106; 21; 0; 41; 37; 154;
  166; 49; 159; 207; 197; 90; 192; 214; 214; 150; 154; 76; 38; 34; 20; 10; 33; 165; 100; 54; 155; 81; 173; 86;
  169; 213; 106; 104; 154; 6; 192; 245; 245; 53; 186; 174; 223; 175; 189; 130; 97; 24; 223; 44; 203; 122; 32; 250;
  253; 4; 2; 1; 0; 52; 77; 35; 16; 8; 176; 88; 44; 232; 118; 187; 36; 18; 137; 139; 181; 29; 108; 111;
  111; 31; 117; 58; 157; 126; 56; 28; 38; 151; 203; 33; 132; 64; 74; 9; 192; 230; 230; 38; 237; 118; 155; 201;
  100; 162; 166; 211; 233; 39; 120; 152; 155; 213; 83; 62; 206; 193; 249; 249; 249; 251; 193; 96; 112; 156; 76; 38;
  217; 223; 223; 39; 18; 137; 48; 28; 14; 185; 188; 188; 228; 230; 230; 70; 249; 124; 190; 47; 211; 233; 52; 15;
  52; 234; 245; 122; 229; 25; 96; 25; 214; 155; 209; 104; 212; 24; 14; 135; 187; 243; 249; 92; 232; 186; 126; 111;
  24; 198; 69; 52; 26; 61; 44; 149; 74; 223; 77; 211; 188; 2; 94; 3; 95; 129; 131; 179; 179; 51; 231; 15;
  192; 223; 100; 154; 166; 177; 52; 235; 128; 3; 28; 108; 252; 147; 115; 169; 122; 189; 110; 3; 71; 203; 165; 14;
  188; 226; 127; 126; 163; 105; 154; 135; 166; 105; 190; 85; 74; 61; 100; 240; 18; 253; 2; 13; 83; 6; 36; 136;
  63; 225; 105; 0; 0; 0; 0; 73; 69; 78; 68; 174; 66; 96; 130].

Definition onRequest (s : Inspector) (req : HttpRequest) (resp : HttpResponse) : res HttpResponse :=
  if bool_decide (path_ req = lit "/") then Ok (found (lit "text/plain") (index_page s) resp)
  else
    result ← split (path_ req);
    match result with
    | [] => Ok (not_found resp)
    | [module] => Ok (if bool_decide (module = lit "favicon.ico") then found (lit "image/png") favicon resp else not_found resp)
    | module :: command :: args =>
        match map_find module (modules_ s) with
        | Some commList =>
            match map_find command commList with
            | Some (Some cb) => Ok (found (lit "text/plain") (cb (method_ req) args) resp)
            | _ => Ok (not_found resp)
            end
        | None => Ok (not_found resp)
        end
    end.

(** ** The commands of a process *)

Section Commands.
Context (overview pid procStatus threads : Callback) (sys_overview loadavg version cpuinfo meminfo stat : Callback).

Definition registerProcessCommands (s : Inspector) : Inspector :=
  let s := add (lit "proc") (lit "overview") overview (lit "print basic overview") s in
  let s := add (lit "proc") (lit "pid") pid (lit "print pid") s in
  let s := add (lit "proc") (lit "status") procStatus (lit "print /proc/self/status") s in
  add (lit "proc") (lit "threads") threads (lit "list /proc/self/task") s.

Definition registerSystemCommands (s : Inspector) : Inspector :=
  let s := add (lit "sys") (lit "overview") sys_overview (lit "print system overview") s in
  let s := add (lit "sys") (lit "loadavg") loadavg (lit "print /proc/loadavg") s in
  let s := add (lit "sys") (lit "version") version (lit "print /proc/version") s in
  let s := add (lit "sys") (lit "cpuinfo") cpuinfo (lit "print /proc/cpuinfo") s in
  let s := add (lit "sys") (lit "meminfo") meminfo (lit "print /proc/meminfo") s in
  add (lit "sys") (lit "stat") stat (lit "print /proc/stat") s.
End Commands.

(** ** Pieces of the overview pages *)

Definition uptime (now start : Timestamp) (showMicroseconds : bool) : list char :=
  let age := sint 64 (now - start) in
  let seconds := int32 (Z.quot age kMicroSecondsPerSecond) in
  let days := Z.quot seconds 86400 in
  let hours := Z.quot (Z.rem seconds 86400) 3600 in
  let minutes := Z.quot (Z.rem seconds 3600) 60 in
  let text := dec days ++ lit " days " ++ pad2 hours ++ lit ":" ++ pad2 minutes ++ lit ":" ++ pad2 (Z.rem seconds 60) in
  if showMicroseconds then snprintf 256 (text ++ lit "." ++ pad6 (int32 (Z.rem age kMicroSecondsPerSecond))) else snprintf 256 text.

(** [procStatus[pos]]: the terminating zero at the end, and no further. *)
Definition char_at (s : list char) (i : Z) : res char :=
  if i =? zlen s then Ok (chr 0) else get (if i <? 0 then None else s !! Z.to_nat i).

Fixpoint skip_while (fuel : nat) (p : char -> bool) (s : list char) (i : Z) : res Z :=
  match fuel with
  | O => Fault OutOfFuel
  | S fuel => c ← char_at s i; if p c then skip_while fuel p s (i + 1) else Ok i
  end.

Definition getProcessName (procStatus : list char) : res (list char) :=
  match std_search (lit "Name:") procStatus with
  | Some pos =>
      let fuel := (length procStatus + 2)%nat in
      pos ← skip_while fuel (fun c => bool_decide (c = chr 9)) procStatus (pos + zlen (lit "Name:"));
      eol ← skip_while fuel (fun c => negb (bool_decide (c = chr 10))) procStatus pos;
      Ok (slice pos eol procStatus)
  | None => Ok []
  end.
