(* ===== verification/InspectorTheory.v ===== *)
(** * What the inspector answers

    A path is cut into its segments; a request reaches the command that was added last for its
    first two segments and not removed since, and the index page lists these commands. *)
From Stdlib Require Import Sorted.
From S2P Require Import Prelude Decimal StdSet Timestamp TimeFormat Buffer BufferTheory Http Inspector.

(** ** Paths *)

Fixpoint cut (s : list char) : list (list char) :=
  match s with
  | [] => [[]]
  | c :: s => if bool_decide (c = slash) then [] :: cut s else match cut s with x :: l => (c :: x) :: l | [] => [[c]] end
  end.

(** The parts between the slashes, empty ones left out. *)
Definition segments (s : list char) : list (list char) := filter (fun x => x <> []) (cut s).

Lemma cut_app x s : slash ∉ x -> cut (x ++ slash :: s) = x :: cut s.
Proof.
  induction x as [|c x IH]; intros Hx; cbn; [by rewrite bool_decide_true by done|].
  apply not_elem_of_cons in Hx as [Hc Hx]. rewrite bool_decide_false by done. by rewrite IH.
Qed.

Lemma cut_none x : slash ∉ x -> cut x = [x].
Proof.
  induction x as [|c x IH]; intros Hx; cbn; [done|].
  apply not_elem_of_cons in Hx as [Hc Hx]. rewrite bool_decide_false by done. by rewrite IH.
Qed.

Lemma filter_cons_path x l : filter (fun y : list char => y <> []) (x :: l) = (if bool_decide (x = []) then [] else [x]) ++ filter (fun y => y <> []) l.
Proof.
  rewrite filter_cons. case_bool_decide as E; [by rewrite decide_False by (by intros [])|by rewrite decide_True].
Qed.

Lemma split_loop_spec fuel str start result :
  0 <= start <= zlen str -> (length (drop (Z.to_nat start) str) <= fuel)%nat ->
  split_loop fuel str start (find_slash str start) result = Ok (result ++ segments (drop (Z.to_nat start) str)).
Proof.
  revert start result. induction fuel as [|fuel IH]; intros start result Hs Hf; unfold find_slash.
  - destruct (drop (Z.to_nat start) str) eqn:E; [|cbn in Hf; lia]. cbn.
    assert (zlen str <= start) by (apply (f_equal length) in E; rewrite length_drop in E; unfold zlen; cbn in E; lia).
    replace (start <? zlen str) with false by lia. by rewrite app_nil_r.
  - destruct (find_char slash (drop (Z.to_nat start) str)) as [k|] eqn:Ef; cbn [fmap option_fmap option_map split_loop].
    + apply find_char_Some in Ef as (x & rest & E & Hx & ->).
      pose proof (f_equal length E) as El. rewrite length_drop, length_app in El. cbn [length] in El.
      pose proof (zlen_nonneg x). unfold zlen in Hs |- *. 
      assert (Edrop : drop (Z.to_nat (start + zlen x + 1)) str = rest).
      { replace (Z.to_nat (start + zlen x + 1)) with (Z.to_nat start + (length x + 1))%nat by (unfold zlen; lia).
        rewrite <- drop_drop, E. rewrite drop_app_ge by lia. by replace (length x + 1 - length x)%nat with 1%nat by lia. }
      rewrite IH; fold (zlen x); [|unfold zlen; lia|rewrite Edrop; rewrite E, length_app in Hf; cbn in Hf; lia].
      rewrite Edrop, E. unfold segments. rewrite cut_app by done. rewrite filter_cons_path.
      assert (Esl : slice start (start + zlen x) str = x).
      { unfold slice. rewrite E. replace (Z.to_nat _) with (length x) by (unfold zlen; lia). apply take_app_length. }
      rewrite Esl. destruct x as [|c x].
      * rewrite zlen_nil, Z.add_0_r, Z.ltb_irrefl. done.
      * replace (start <? start + zlen (c :: x)) with true by (rewrite zlen_cons; pose proof (zlen_nonneg x); lia). cbn. by rewrite <- (assoc_L app).
    + apply find_char_None in Ef. unfold segments. rewrite cut_none by done. rewrite filter_cons_path.
      destruct (start <? zlen str) eqn:E.
      * rewrite bool_decide_false; [done|]. intros En. apply (f_equal length) in En. rewrite length_drop in En. unfold zlen in E. cbn in En. lia.
      * rewrite bool_decide_true; [by rewrite app_nil_r|]. apply drop_ge. unfold zlen in *. lia.
Qed.

Lemma split_segments str : split str = Ok (segments str).
Proof. unfold split. rewrite split_loop_spec; [done|split; [done|apply zlen_nonneg]|done]. Qed.

Definition path_of (l : list (list char)) : list char := concat ((fun x => slash :: x) <$> l).
Definition path_segment (x : list char) : Prop := x <> [] /\ slash ∉ x.

Lemma segments_path l : Forall path_segment l -> segments (path_of l) = l.
Proof.
  assert (Hcut : forall l, Forall path_segment l -> cut (path_of l) = [] :: l).
  { clear. induction l as [|x l IH]; intros Hl; [done|]. apply Forall_cons in Hl as [[_ Hx] Hl]. specialize (IH Hl).
    change (path_of (x :: l)) with ([] ++ slash :: x ++ path_of l). rewrite cut_app by apply not_elem_of_nil. f_equal.
    destruct l as [|y l]; [cbn; by rewrite app_nil_r, cut_none|].
    change (path_of (y :: l)) with ([] ++ slash :: y ++ path_of l) in IH |- *. rewrite cut_app in IH by apply not_elem_of_nil.
    cbn [app]. rewrite cut_app by done. congruence. }
  intros Hl. unfold segments. rewrite Hcut by done. rewrite filter_cons_path. cbn.
  induction Hl as [|x l [Hx _] Hl IH]; [done|]. rewrite filter_cons_path, IH. by rewrite bool_decide_false.
Qed.

(** ** Two-level tables *)

Section Table.
Context {V : Type}.
Implicit Types (M : list (list char * list (list char * V))) (m c : list char) (v : V).

Record table M : Prop := {
  tb_keys : increasing str_lt M.*1;
  tb_inner : forall m l, map_find m M = Some l -> increasing str_lt l.*1
}.

Definition nested m c M : option V := l ← map_find m M; map_find c l.

Lemma tb_default m M : table M -> increasing str_lt (default [] (map_find m M)).*1.
Proof. intros [_ Hi]. destruct (map_find m M) eqn:E; [by apply (Hi m)|constructor]. Qed.

Lemma tb_set m l M : table M -> increasing str_lt l.*1 -> table (map_set m l M).
Proof.
  intros [Hk Hi] Hl. split; [by apply map_set_increasing|]. intros m2 l2. rewrite map_find_set by done.
  case_decide; [by intros [= <-]|by apply Hi].
Qed.

Lemma nested_set m l m2 c2 M : table M -> nested m2 c2 (map_set m l M) = if decide (m2 = m) then map_find c2 l else nested m2 c2 M.
Proof. intros [Hk _]. unfold nested. rewrite map_find_set by done. by case_decide. Qed.

Lemma nested_default m c M : map_find c (default [] (map_find m M)) = nested m c M.
Proof. unfold nested. by destruct (map_find m M). Qed.

Definition entries M : list (list char * list char * V) := concat ((fun p : list char * list (list char * V) => (fun h : list char * V => (p.1, h.1, h.2)) <$> p.2) <$> M).

Definition before (a b : list char * list char * V) : Prop :=
  str_lt a.1.1 b.1.1 = true \/ a.1.1 = b.1.1 /\ str_lt a.1.2 b.1.2 = true.

Lemma entries_elem m c v M : table M -> (m, c, v) ∈ entries M <-> nested m c M = Some v.
Proof.
  intros [Hk Hi]. unfold entries, nested. rewrite list_elem_of_In, in_concat. split.
  - intros (x & Hx & Hin). apply list_elem_of_In, list_elem_of_fmap in Hx as ([m' l] & -> & Hm). apply list_elem_of_In, list_elem_of_fmap in Hin as ([c' v'] & [= -> -> ->] & Hc).
    apply map_find_elem in Hm; [|done]. cbn in Hm. rewrite Hm. cbn. apply map_find_elem; [by apply (Hi m')|done].
  - intros Hn. destruct (map_find m M) as [l|] eqn:E; [|done]. cbn in Hn. exists ((fun h : list char * V => (m, h.1, h.2)) <$> l).
    pose proof (Hi m l E) as Hl. apply map_find_elem in E; [|done]. apply map_find_elem in Hn; [|done]. split; apply list_elem_of_In.
    + apply list_elem_of_fmap. by exists (m, l).
    + apply list_elem_of_fmap. by exists (c, v).
Qed.

Lemma sorted_app {A} (R : A -> A -> Prop) l1 l2 :
  StronglySorted R l1 -> StronglySorted R l2 -> (forall x y, x ∈ l1 -> y ∈ l2 -> R x y) -> StronglySorted R (l1 ++ l2).
Proof.
  intros H1 H2 H. induction H1 as [|x l1 _ IH Hx]; [done|]. cbn. constructor.
  - apply IH. intros y z Hy. apply H. by right.
  - apply Forall_app. split; [done|]. apply Forall_forall. intros y. apply H. left.
Qed.

Lemma entries_sorted M : table M -> StronglySorted before (entries M).
Proof.
  intros [Hk Hi]. unfold entries. induction M as [|[m l] M IH]; [constructor|]. cbn. pose proof Hk as [Hk1 Hm]%StronglySorted_inv.
  rewrite Forall_forall in Hm. apply sorted_app.
  - assert (Hl : increasing str_lt l.*1) by (apply (Hi m); cbn; by rewrite (lt_irrefl str_lt)).
    clear -Hl. induction l as [|[c v] l IH]; [constructor|]. apply StronglySorted_inv in Hl as [Hl Hc]. cbn. constructor; [by apply IH|].
    apply Forall_forall. intros x (h & -> & Hh)%list_elem_of_fmap. right. split; [done|]. rewrite Forall_forall in Hc. apply Hc, list_elem_of_fmap. by exists h.
  - apply IH; [done|]. intros m2 l2 E. apply (Hi m2). cbn. apply map_find_elem in E; [|done].
    assert (str_lt m m2 = true) as Hlt by (apply Hm, list_elem_of_fmap; by exists (m2, l2)).
    rewrite (lt_asym str_lt _ _ Hlt), Hlt. by apply map_find_elem.
  - intros x y (h & -> & _)%list_elem_of_fmap Hy. apply list_elem_of_In, in_concat in Hy as (z & Hz & Hy).
    apply list_elem_of_In, list_elem_of_fmap in Hz as ([m2 l2] & -> & Hm2). apply list_elem_of_In, list_elem_of_fmap in Hy as (h2 & -> & _).
    left. cbn. apply Hm, list_elem_of_fmap. by exists (m2, l2).
Qed.
End Table.

(** ** The table of commands *)

Inductive op := Add (module command : list char) (cb : Callback) (help : list char) | Remove (module command : list char).

Definition apply_op (s : Inspector) (o : op) : Inspector :=
  match o with Add m c cb help => add m c cb help s | Remove m c => remove m c s end.

(** What is registered for a module and a command. *)
Definition registry : Type := list char -> list char -> option (Callback * list char).
Definition reg_op (reg : registry) (o : op) : registry := fun m c =>
  match o with
  | Add m' c' cb help => if decide ((m, c) = (m', c')) then Some (cb, help) else reg m c
  | Remove m' c' => if decide ((m, c) = (m', c')) then None else reg m c
  end.

Record agrees (reg : registry) (s : Inspector) : Prop := {
  ag_modules : table (modules_ s);
  ag_helps : table (helps_ s);
  ag_callback : forall m c, nested m c (modules_ s) = fst <$> reg m c;
  ag_help : forall m c, nested m c (helps_ s) = snd <$> reg m c
}.

Lemma agrees_op o reg s : agrees reg s -> agrees (reg_op reg o) (apply_op s o).
Proof.
  intros [Tm Th Hc Hh]. destruct o as [m c cb help|m c]; cbn [apply_op].
  - split; cbn [add modules_ helps_].
    + apply tb_set; [done|]. by apply map_set_increasing, tb_default.
    + apply tb_set; [done|]. by apply map_set_increasing, tb_default.
    + intros m2 c2. rewrite nested_set by done. unfold reg_op. case_decide as E; [subst m2|by rewrite decide_False by congruence].
      rewrite map_find_set, nested_default by (by apply tb_default). case_decide as E; [subst c2; by rewrite decide_True|rewrite decide_False by congruence; apply Hc].
    + intros m2 c2. rewrite nested_set by done. unfold reg_op. case_decide as E; [subst m2|by rewrite decide_False by congruence].
      rewrite map_find_set, nested_default by (by apply tb_default). case_decide as E; [subst c2; by rewrite decide_True|rewrite decide_False by congruence; apply Hh].
  - unfold remove. destruct (map_find m (modules_ s)) as [l|] eqn:E.
    + assert (Hl : l = default [] (map_find m (modules_ s))) by (by rewrite E). rewrite Hl. split; cbn [modules_ helps_].
      * apply tb_set; [done|]. by apply map_erase_increasing, tb_default.
      * apply tb_set; [done|]. by apply map_erase_increasing, tb_default.
      * intros m2 c2. rewrite nested_set by done. unfold reg_op. case_decide as E2; [subst m2|by rewrite decide_False by congruence].
        rewrite map_find_erase, nested_default by (by apply tb_default). case_decide as E2; [subst c2; by rewrite decide_True|rewrite decide_False by congruence; apply Hc].
      * intros m2 c2. rewrite nested_set by done. unfold reg_op. case_decide as E2; [subst m2|by rewrite decide_False by congruence].
        rewrite map_find_erase, nested_default by (by apply tb_default). case_decide as E2; [subst c2; by rewrite decide_True|rewrite decide_False by congruence; apply Hh].
    + assert (Hno : forall c2, reg m c2 = None).
      { intros c2. specialize (Hc m c2). unfold nested in Hc. rewrite E in Hc. cbn in Hc. by destruct (reg m c2). }
      split; try done; intros m2 c2; unfold reg_op; (case_decide as E2; [injection E2 as -> ->|done]); [rewrite Hc|rewrite Hh]; by rewrite Hno.
Qed.

Lemma agrees_ops os : agrees (foldl reg_op (fun _ _ => None) os) (foldl apply_op newInspector os).
Proof.
  assert (H : forall os reg s, agrees reg s -> agrees (foldl reg_op reg os) (foldl apply_op s os)).
  { clear. intros os. induction os as [|o os IH]; intros reg s Ha; [done|]. by apply IH, agrees_op. }
  apply H. split; [split; [constructor|done]|split; [constructor|done]|done|done].
Qed.

(** What a client gets: a page, or that there is none. *)
Definition page (type body : list char) (resp : HttpResponse) : HttpResponse :=
  mkResponse (map_set (lit "Content-Type") type (resp_headers_ resp)) 200 (lit "OK") (closeConnection_ resp) body.
Definition missing (resp : HttpResponse) : HttpResponse :=
  mkResponse (resp_headers_ resp) 404 (lit "Not Found") (closeConnection_ resp) (resp_body_ resp).

(** A line of the index: the command's path filled with blanks to 27 characters, or with one when the
    path is as long, and the help. *)
Definition listing (module command help : list char) : list char :=
  "/"%char :: module ++ "/"%char :: command ++
    replicate (Z.to_nat (Z.max 1 (25 - zlen (module ++ command)))) " "%char ++ help ++ [chr 10].

Lemma not_found_missing resp : not_found resp = missing resp.
Proof. done. Qed.

Lemma found_page type body resp : found type body resp = page type body resp.
Proof. done. Qed.

Lemma index_line_listing m h : index_line m h = listing m h.1 h.2.
Proof.
  unfold index_line, listing. cbn. do 2 f_equal. f_equal. f_equal. f_equal. rewrite zlen_app. f_equal. destruct (25 <=? _) eqn:E; f_equal; lia.
Qed.

(** The answer to a path with these segments. *)
Definition answer (reg : registry) (method : Method) (l : list (list char)) (resp : HttpResponse) : HttpResponse :=
  match l with
  | [] => missing resp
  | [x] => if bool_decide (x = lit "favicon.ico") then page (lit "image/png") favicon resp else missing resp
  | m :: c :: args =>
      match reg m c with
      | Some (Some cb, _) => page (lit "text/plain") (cb method args) resp
      | _ => missing resp
      end
  end.

Lemma onRequest_answer reg s req resp :
  agrees reg s -> path_ req <> lit "/" -> onRequest s req resp = Ok (answer reg (method_ req) (segments (path_ req)) resp).
Proof.
  intros [_ _ Hc _] Hp. unfold onRequest. rewrite bool_decide_false by done. rewrite split_segments. cbn [mbind res_bind].
  destruct (segments (path_ req)) as [|m [|c args]]; cbn [answer]; rewrite ?not_found_missing, ?found_page; try done.
  specialize (Hc m c). unfold nested in Hc.
  destruct (map_find m (modules_ s)) as [l|]; cbn in Hc; [rewrite Hc|]; destruct (reg m c) as [[[cb|] h]|]; done.
Qed.

Lemma index_entries s : index_page s = concat ((fun e => listing e.1.1 e.1.2 e.2) <$> entries (helps_ s)).
Proof.
  unfold index_page, entries. induction (helps_ s) as [|[m l] hs IH]; [done|]. cbn. rewrite IH, fmap_app, concat_app. f_equal.
  rewrite <- list_fmap_compose. f_equal. apply list_fmap_ext. intros _ h _. apply index_line_listing.
Qed.

(** [C35] What the inspector answers.  After any sequence of add and remove: the index page is
    answered 200 OK as text/plain and lists the commands that are registered, each once, in order, a
    line /module/command with the help it was added with behind blanks; a request whose path is not
    the root calls the command registered last for its first two segments, with the other segments
    as arguments, and is answered 200 OK with its text, or 404 Not Found when there is none or its
    function is empty; and a path made of segments is cut into these. *)
Theorem inspector_correct os req resp :
  let s := foldl apply_op newInspector os in
  let reg := foldl reg_op (fun _ _ => None) os in
  (exists es, StronglySorted before es /\ (forall m c h, (m, c, h) ∈ es <-> exists cb, reg m c = Some (cb, h)) /\
    (path_ req = lit "/" -> onRequest s req resp =
      Ok (page (lit "text/plain") (concat ((fun e => listing e.1.1 e.1.2 e.2) <$> es)) resp))) /\
  (path_ req <> lit "/" -> onRequest s req resp = Ok (answer reg (method_ req) (segments (path_ req)) resp)) /\
  (forall l, Forall path_segment l -> path_ req = path_of l -> onRequest s req resp = Ok (answer reg (method_ req) l resp)).
Proof.
  intros s reg. pose proof (agrees_ops os) as Ha. fold s reg in Ha. split_and!.
  - exists (entries (helps_ s)). split_and!; [by apply entries_sorted, Ha| |].
    + intros m c h. rewrite entries_elem by apply Ha. rewrite (ag_help _ _ Ha). split.
      * destruct (reg m c) as [[cb h']|]; [|done]. intros [= ->]. by exists cb.
      * by intros (cb & ->).
    + intros Hp. unfold onRequest. rewrite bool_decide_true by done. by rewrite index_entries, found_page.
  - by apply onRequest_answer.
  - intros l Hl Hp. assert (Hroot : path_of l <> lit "/").
    { destruct l as [|x l]; [done|]. apply Forall_cons in Hl as [[Hx _] _]. destruct x; [done|]. by intros [=]. }
    rewrite (onRequest_answer reg) by (done || by rewrite Hp). by rewrite Hp, segments_path.
Qed.

(** ** Pieces of the overview pages *)

(** Days, hours, minutes and seconds add up to the time the process has been up. *)
Lemma uptime_correct now start :
  0 <= now - start < 2 ^ 31 * kMicroSecondsPerSecond ->
  exists d h m s u, uptime now start false = dec d ++ lit " days " ++ pad2 h ++ lit ":" ++ pad2 m ++ lit ":" ++ pad2 s /\
    uptime now start true = dec d ++ lit " days " ++ pad2 h ++ lit ":" ++ pad2 m ++ lit ":" ++ pad2 s ++ lit "." ++ pad6 u /\
    now - start = (((d * 24 + h) * 60 + m) * 60 + s) * kMicroSecondsPerSecond + u /\
    0 <= d <= 24855 /\ 0 <= h < 24 /\ 0 <= m < 60 /\ 0 <= s < 60 /\ 0 <= u < kMicroSecondsPerSecond.
Proof.
  unfold kMicroSecondsPerSecond. intros Ha. set (age := now - start) in *.
  set (t := Z.quot age (1000 * 1000)). assert (Ht : 0 <= t < 2 ^ 31) by (unfold t; Z.to_euclidean_division_equations; lia).
  set (u := Z.rem age (1000 * 1000)). assert (Hu : 0 <= u < 1000 * 1000 /\ age = t * (1000 * 1000) + u) by (unfold t, u; Z.to_euclidean_division_equations; lia).
  exists (Z.quot t 86400), (Z.quot (Z.rem t 86400) 3600), (Z.quot (Z.rem t 3600) 60), (Z.rem t 60), u.
  assert (Hf : 0 <= Z.quot t 86400 <= 24855 /\ 0 <= Z.quot (Z.rem t 86400) 3600 < 24 /\ 0 <= Z.quot (Z.rem t 3600) 60 < 60 /\ 0 <= Z.rem t 60 < 60 /\
    t = ((Z.quot t 86400 * 24 + Z.quot (Z.rem t 86400) 3600) * 60 + Z.quot (Z.rem t 3600) 60) * 60 + Z.rem t 60)
    by (Z.to_euclidean_division_equations; lia).
  unfold uptime, kMicroSecondsPerSecond. fold age. rewrite (sint_small 64 age) by (done || unfold in_sint; lia). fold t u.
  rewrite (sint_small 32 t), (sint_small 32 u) by (done || unfold in_sint; lia).
  destruct Hf as (Hd & Hh & Hm & Hs & Et). pose proof (zlen_dec (Z.quot t 86400) 5 ltac:(lia) ltac:(lia)) as Hlen.
  assert (Hp : forall n z, (0 < n)%nat -> 0 <= z < 10 ^ Z.of_nat n -> length (padded (digit 0) n z) = n) by (intros; by apply padded_length).
  unfold snprintf, zlen in *. rewrite !take_ge by (unfold pad2, pad6; rewrite !length_app, !Hp by lia; cbn; lia).
  rewrite <- !(assoc_L app). split_and!; done || lia.
Qed.

Lemma char_at_app x c y : char_at (x ++ c :: y) (zlen x) = Ok c.
Proof.
  unfold char_at. rewrite zlen_app, zlen_cons. pose proof (zlen_nonneg x). pose proof (zlen_nonneg y).
  rewrite (proj2 (Z.eqb_neq _ _)) by lia. rewrite (proj2 (Z.ltb_ge _ _)) by lia.
  unfold zlen. by rewrite Nat2Z.id, list_lookup_middle.
Qed.

Lemma skip_while_ok fuel p x l c y :
  Forall (fun d => p d = true) l -> p c = false -> (length l < fuel)%nat ->
  skip_while fuel p (x ++ l ++ c :: y) (zlen x) = Ok (zlen (x ++ l)).
Proof.
  revert fuel x. induction l as [|d l IH]; intros [|fuel] x Hl Hc Hf; cbn in Hf; try lia; cbn [skip_while app].
  - rewrite char_at_app. cbn [mbind res_bind]. by rewrite Hc, app_nil_r.
  - apply Forall_cons in Hl as [Hd Hl]. rewrite char_at_app. cbn [mbind res_bind]. rewrite Hd.
    specialize (IH fuel (x ++ [d]) Hl Hc ltac:(lia)). rewrite <- !(assoc_L app), zlen_app in IH. exact IH.
Qed.

(** The name is what stands between the tabs after the first [Name:] and the end of its line. *)
Lemma getProcessName_correct pre tabs name rest :
  std_search (lit "Name:") (pre ++ lit "Name:") = Some (zlen pre) ->
  Forall (fun c => c = chr 9) tabs -> chr 10 ∉ name -> head name <> Some (chr 9) ->
  getProcessName (pre ++ lit "Name:" ++ tabs ++ name ++ chr 10 :: rest) = Ok name.
Proof.
  intros Hs Ht Hn Hh. unfold getProcessName.
  pose proof (std_search_app _ _ (tabs ++ name ++ chr 10 :: rest) _ Hs) as Hs'. rewrite <- (assoc_L app) in Hs'. rewrite Hs'.
  rewrite <- zlen_app. set (x := pre ++ lit "Name:"). set (str := pre ++ _).
  assert (E1 : exists c y, str = x ++ tabs ++ c :: y /\ c <> chr 9).
  { unfold str, x. destruct name as [|c name]; cbn in Hh.
    - exists (chr 10), rest. by rewrite <- !(assoc_L app).
    - exists c, (name ++ chr 10 :: rest). rewrite <- !(assoc_L app). split; [done|]. intros ->. by apply Hh. }
  destruct E1 as (c & y & E1 & Hc).
  assert (Hlen : (length tabs + length name + 1 <= length str)%nat) by (unfold str; rewrite !length_app; cbn [length]; lia).
  rewrite E1 at 2. rewrite skip_while_ok; [|eapply Forall_impl; [exact Ht|]; intros d ->; done|by apply bool_decide_eq_false|lia].
  assert (E2 : str = (x ++ tabs) ++ name ++ chr 10 :: rest) by (unfold str, x; by rewrite <- !(assoc_L app)).
  cbn [mbind res_bind]. rewrite E2 at 2. rewrite skip_while_ok; [|apply Forall_forall; intros d Hd; apply negb_true_iff, bool_decide_eq_false; by intros ->|done|lia].
  cbn [mbind res_bind]. f_equal. rewrite E2. apply slice_mid_at; [done|apply zlen_app].
Qed.

(** ** A run *)

Definition cmd (text : list char) : Callback := Some (fun _ args => text ++ concat args).

Definition process_ops : list op :=
  [Add (lit "proc") (lit "overview") (cmd (lit "o")) (lit "print basic overview"); Add (lit "proc") (lit "pid") (cmd (lit "42")) (lit "print pid");
   Add (lit "a") (lit "very-long-name-of-a-command") None (lit "nothing"); Remove (lit "proc") (lit "overview")].

Example process_index :
  index_page (foldl apply_op newInspector process_ops) =
    lit "/a/very-long-name-of-a-command nothing" ++ [chr 10] ++ lit "/proc/pid                  print pid" ++ [chr 10].
Proof. vm_compute. reflexivity. Qed.

Definition get_path (p : list char) : HttpRequest := setPath p (mkRequest kGet kHttp11 [] [] 0 [] []).

Lemma inspector_correct_witness :
  onRequest (foldl apply_op newInspector process_ops) (get_path (lit "/proc/pid/x/y")) (newResponse false) =
    Ok (mkResponse [(lit "Content-Type", lit "text/plain")] 200 (lit "OK") false (lit "42xy")).
Proof.
  destruct (inspector_correct process_ops (get_path (lit "/proc/pid/x/y")) (newResponse false)) as (_ & _ & H).
  rewrite (H [lit "proc"; lit "pid"; lit "x"; lit "y"]); [vm_compute; reflexivity| |vm_compute; reflexivity].
  repeat (apply Forall_cons; split; [split; [discriminate|apply (bool_decide_eq_true_1 _); vm_compute; reflexivity]|]). by apply Forall_nil.
Defined.

(** The commands every inspector starts with. *)
Example initial_index (f : Callback) :
  let s := registerSystemCommands f f f f f f (registerProcessCommands f f f f newInspector) in
  (fun e => (e.1.1, e.1.2)) <$> entries (helps_ s) =
    (fun p : string * string => (lit p.1, lit p.2)) <$> [("proc", "overview"); ("proc", "pid"); ("proc", "status"); ("proc", "threads");
      ("sys", "cpuinfo"); ("sys", "loadavg"); ("sys", "meminfo"); ("sys", "overview"); ("sys", "stat"); ("sys", "version")]%string.
Proof. vm_compute. reflexivity. Qed.
