(* ===== verification/SudokuProd.v ===== *)
(** * The Sudoku server with a thread pool (src/sudoku/server_prod.cc)

    Any number of connections and of worker threads, in small steps.  A connection's loop is at a
    place of onMessage, processRequest or highWaterMark ([handler]); what these functions do between
    two calls that other threads can see (the statistics, the pool's queue, the connection's state)
    is one step, so that workers take, solve and answer requests between any two lines and between
    the parts of the work on one line.  A worker sends an answer in one step and records it in the
    next.  With no thread in the pool, [ThreadPool::run] solves at once, in the loop's thread.

    A connection is read, closed and called back only while no handler of it runs; connections of one
    loop take turns, which is a special case of their handlers interleaving as they do here.  [now] is
    what Timestamp::now() gives.  A connection accepts what is sent while it is connected
    (TcpConnection.v); [context] is the bool it carries.

    A step has at most one event: bytes are read from a connection, a line is taken from its buffer,
    something is said to it (with whether it was accepted, what the statistics will record of it, and
    the line it is about), it is shut down or gone.  The line a request comes from is a ghost. *)
From S2P Require Import Prelude Buffer BufferTheory Timestamp Sudoku SudokuMatrix SudokuTheory SudokuStat SudokuServer.

Record Request := mkReq { req_id : list char; req_puzzle : list char; req_time : Timestamp; req_line : list char }.

(** What the statistics record of something said. *)
Inductive note := Response (receiveTime : Timestamp) (solved : bool) | Dropped | BadRequest.

(** Where a connection's loop is; [after]: at the head of onMessage's loop with this length, or at
    the end of the callback. *)
Inductive handler :=
| Idle
| Looking (t : Timestamp) (len : Z)
| Counting (t : Timestamp) (len : Z) (request : list char)
| Processing (t : Timestamp) (len : Z) (request : list char)
| Queueing (t : Timestamp) (len : Z) (req : Request)
| Telling (text : list char) (n : note) (line : option (list char)) (after : option (Timestamp * Z))
| Closing
| Recording (n : note) (after : option (Timestamp * Z)).

Definition resume (after : option (Timestamp * Z)) : handler :=
  match after with Some (t, len) => Looking t len | None => Idle end.

Inductive event :=
| Reads (conn : Z) (data : list char)
| Takes (conn : Z) (line : list char)
| Says (conn : Z) (text : list char) (accepted : bool) (n : note) (line : option (list char))
| Closes (conn : Z).

(** [id:text] when there is an id. *)
Definition labelled (id text : list char) : list char :=
  match id with [] => text ++ kCRLF | _ => id ++ lit ":" ++ text ++ kCRLF end.

Record Client := mkClient {
  input : Buffer;
  connected : bool;
  closed : bool;
  context : bool;
  highWaterMark_ : Z;
  writeCompleteCallback_ : bool;
  at_ : handler
}.

Definition set_input (b : Buffer) (c : Client) : Client :=
  mkClient b (connected c) (closed c) (context c) (highWaterMark_ c) (writeCompleteCallback_ c) (at_ c).
Definition set_at (h : handler) (c : Client) : Client :=
  mkClient (input c) (connected c) (closed c) (context c) (highWaterMark_ c) (writeCompleteCallback_ c) h.
Definition shut_down (c : Client) : Client :=
  mkClient (input c) false (closed c) (context c) (highWaterMark_ c) (writeCompleteCallback_ c) (at_ c).
Definition set_throttle (throttle : bool) (mark : Z) (c : Client) : Client :=
  mkClient (input c) (connected c) (closed c) throttle mark throttle (at_ c).

Definition kMiB : Z := 1024 * 1024.

(** A worker's task: a request to be solved, or an answer that was sent and is not recorded yet. *)
Inductive job := Solving (conn : Z) (req : Request) | Answered (conn : Z) (n : note).

Section Server.
Context {Q : Type} `{CL : CircularLog Q} (numThreads : Z).

Record Server := mkServer {
  clients : gmap Z Client;
  queue : list (Z * Request);
  running : gmap Z job;
  stat : SudokuStat Q
}.

Definition newServer : Server := mkServer ∅ [] ∅ newStat.

Definition set_client (conn : Z) (c : Client) (s : Server) : Server :=
  mkServer (<[conn := c]> (clients s)) (queue s) (running s) (stat s).
Definition set_stat (st : SudokuStat Q) (s : Server) : Server := mkServer (clients s) (queue s) (running s) st.

(** ** The statistics *)

Definition record (now : Timestamp) (n : note) (st : SudokuStat Q) : res (SudokuStat Q) :=
  match n with
  | Response receiveTime solved => recordResponse now receiveTime solved st
  | Dropped => Ok (recordDroppedRequest st)
  | BadRequest => Ok (recordBadRequest st)
  end.

(** ** Requests *)

(** The first half of processRequest: the request, if its line has the right form. *)
Definition parseRequest (receiveTime : Timestamp) (request : list char) : option Request :=
  let req :=
    match find_char colon request with
    | Some k => Some (mkReq (take (Z.to_nat k) request) (drop (Z.to_nat (k + 1)) request) receiveTime request)
    | None => if 1 <? numThreads then None else Some (mkReq [] request receiveTime request)
    end in
  match req with
  | Some req => if zlen (req_puzzle req) =? kCells then Some req else None
  | None => None
  end.

(** The second half up to the call of run or send. *)
Definition processRequest (t : Timestamp) (len : Z) (request : list char) (throttle : bool) (queueSize : Z) : handler :=
  match parseRequest t request with
  | Some req =>
      if (queueSize <? 1000 * 1000) && negb throttle then Queueing t len req
      else Telling (labelled (req_id req) (lit "ServerTooBusy")) Dropped (Some request) (Some (t, len))
  | None => Telling (lit "Bad Request!" ++ kCRLF) BadRequest (Some request) None
  end.

(** The first half of solve: what is sent, and what is recorded then. *)
Definition solve (req : Request) : res (list char * note) :=
  result ← solveSudoku (req_puzzle req);
  Ok (labelled (req_id req) result, Response (req_time req) (negb (bool_decide (result = kNoSolution)))).

(** ThreadPool::run *)
Definition run_task (conn : Z) (t : Timestamp) (len : Z) (req : Request) (s : Server) : res (handler * Server) :=
  if numThreads =? 0 then
    '(text, n) ← solve req;
    Ok (Telling text n (Some (req_line req)) (Some (t, len)), s)
  else Ok (Looking t len, mkServer (clients s) (queue s ++ [(conn, req)]) (running s) (stat s)).

(** ** The steps of a connection's loop *)

(** The head of the loop in onMessage, up to the taking of a line. *)
Definition onMessage_round (conn : Z) (t : Timestamp) (len : Z) (c : Client) : res (list event * Client) :=
  if kCells + 2 <=? len then
    let buf := input c in
    crlf ← findCRLF buf;
    match crlf with
    | Some crlf =>
        request ← read_range (buffer_ buf) (peek buf) crlf;
        buf ← retrieveUntil (crlf + 2) buf;
        Ok ([Takes conn request], set_at (Counting t (readableBytes buf) request) (set_input buf c))
    | None => Ok ([], set_at (if 100 <? len then Telling (lit "Id too long!" ++ kCRLF) BadRequest None None else Idle) c)
    end
  else Ok ([], set_at Idle c).

(** After send, a refused connection is shut down. *)
Definition told (n : note) (after : option (Timestamp * Z)) : handler :=
  match n with BadRequest => Closing | _ => Recording n after end.

Definition proceed (now : Timestamp) (conn : Z) (s : Server) : res (list event * Server) :=
  c ← get (clients s !! conn);
  match at_ c with
  | Idle => Ok ([], s)
  | Looking t len => '(es, c) ← onMessage_round conn t len c; Ok (es, set_client conn c s)
  | Counting t len request =>
      Ok ([], set_client conn (set_at (Processing t len request) c) (set_stat (recordRequest (stat s)) s))
  | Processing t len request =>
      Ok ([], set_client conn (set_at (processRequest t len request (context c) (zlen (queue s))) c) s)
  | Queueing t len req =>
      '(h, s) ← run_task conn t len req s;
      Ok ([], set_client conn (set_at h c) s)
  | Telling text n line after =>
      Ok ([Says conn text (connected c) n line], set_client conn (set_at (told n after) c) s)
  | Closing => Ok ([Closes conn], set_client conn (set_at (Recording BadRequest None) (shut_down c)) s)
  | Recording n after =>
      st ← record now n (stat s);
      Ok ([], set_client conn (set_at (resume after) c) (set_stat st s))
  end.

(** ** Callbacks *)

Definition onConnection (conn : Z) (b : Buffer) (s : Server) : Server :=
  set_client conn (mkClient b true false false (5 * kMiB) false Idle) s.

(** Bytes are read and onMessage is called. *)
Definition onMessage (conn : Z) (data : list char) (receiveTime : Timestamp) (s : Server) : res (list event * Server) :=
  c ← get (clients s !! conn);
  b ← append data (input c);
  Ok ([Reads conn data], set_client conn (set_at (Looking receiveTime (readableBytes b)) (set_input b c)) s).

Definition highWaterMark (conn tosend : Z) (s : Server) : res (list event * Server) :=
  c ← get (clients s !! conn);
  Ok ([], set_client conn (if tosend <? 10 * kMiB then set_throttle true (10 * kMiB) c
                           else set_at (Telling (lit "Bad Request!" ++ kCRLF) BadRequest None None) c) s).

Definition writeComplete (conn : Z) (s : Server) : res (list event * Server) :=
  c ← get (clients s !! conn);
  Ok ([], set_client conn (set_throttle false (5 * kMiB) c) s).

Definition disconnected (conn : Z) (s : Server) : res (list event * Server) :=
  c ← get (clients s !! conn);
  Ok ([Closes conn], set_client conn (mkClient (input c) false true (context c) (highWaterMark_ c) (writeCompleteCallback_ c) (at_ c)) s).

(** ** Workers *)

Definition take_task (w : Z) (s : Server) : res (list event * Server) :=
  match queue s with
  | [] => Ok ([], s)
  | t :: rest => Ok ([], mkServer (clients s) rest (<[w := Solving t.1 t.2]> (running s)) (stat s))
  end.

(** solve in a worker: the answer is sent, then recorded. *)
Definition work (now : Timestamp) (w : Z) (s : Server) : res (list event * Server) :=
  j ← get (running s !! w);
  match j with
  | Solving conn req =>
      '(text, n) ← solve req;
      c ← get (clients s !! conn);
      Ok ([Says conn text (connected c) n (Some (req_line req))], mkServer (clients s) (queue s) (<[w := Answered conn n]> (running s)) (stat s))
  | Answered conn n =>
      st ← record now n (stat s);
      Ok ([], mkServer (clients s) (queue s) (delete w (running s)) st)
  end.

(** ** Steps *)

Inductive step :=
| Connect (conn : Z) (b : Buffer)
| Receive (conn : Z) (data : list char) (t : Timestamp)
| HighWater (conn tosend : Z)
| WriteComplete (conn : Z)
| Disconnect (conn : Z)
| Proceed (conn : Z) (now : Timestamp)
| Take (w : Z)
| Work (w : Z) (now : Timestamp).

Definition is_idle (conn : Z) (s : Server) : bool :=
  match clients s !! conn with Some c => match at_ c with Idle => true | _ => false end | None => false end.
Definition is_busy (conn : Z) (s : Server) : bool :=
  match clients s !! conn with Some c => match at_ c with Idle => false | _ => true end | None => false end.
Definition is_open (conn : Z) (s : Server) : bool := match clients s !! conn with Some c => negb (closed c) | None => false end.

Definition enabled (a : step) (s : Server) : bool :=
  match a with
  | Connect conn _ => bool_decide (clients s !! conn = None)
  | Receive conn _ _ | Disconnect conn => is_idle conn s && is_open conn s
  | HighWater conn _ | WriteComplete conn => is_idle conn s
  | Proceed conn _ => is_busy conn s
  | Take w => (0 <=? w) && (w <? numThreads) && bool_decide (running s !! w = None) && negb (bool_decide (queue s = []))
  | Work w _ => bool_decide (is_Some (running s !! w))
  end.

Definition perform (a : step) (s : Server) : res (list event * Server) :=
  match a with
  | Connect conn b => Ok ([], onConnection conn b s)
  | Receive conn d t => onMessage conn d t s
  | HighWater conn tosend => highWaterMark conn tosend s
  | WriteComplete conn => writeComplete conn s
  | Disconnect conn => disconnected conn s
  | Proceed conn now => proceed now conn s
  | Take w => take_task w s
  | Work w now => work now w s
  end.
End Server.
