(* ===== verification/SudokuProdTheory.v ===== *)
(** * Every request is accounted for

    What the events of the server with a thread pool say, in terms of the wire alone: the lines of
    the bytes read, the request a line asks, the texts that answer it.  The invariant: each line
    taken is answered or still in somebody's hands, each text is right, and each thing said is
    recorded in the statistics or about to be. *)
From S2P Require Import Prelude Buffer BufferTheory Timestamp Sudoku SudokuMatrix SudokuTheory SudokuStat SudokuServer SudokuProd.

(** ** What the events say *)

Definition conn_of (e : event) : Z :=
  match e with Reads conn _ | Takes conn _ | Says conn _ _ _ _ | Closes conn => conn end.

(** The events of a connection. *)
Definition about (conn : Z) (tr : list event) : list event := filter (fun e => conn_of e = conn) tr.

Definition read_bytes (tr : list event) : list char := concat (omap (fun e => match e with Reads _ d => Some d | _ => None end) tr).
Definition taken (tr : list event) : list (Z * list char) := omap (fun e => match e with Takes conn l => Some (conn, l) | _ => None end) tr.
Definition answered (tr : list event) : list (Z * list char) := omap (fun e => match e with Says conn _ _ _ (Some l) => Some (conn, l) | _ => None end) tr.
Definition notes (tr : list event) : list note := omap (fun e => match e with Says _ _ _ n _ => Some n | _ => None end) tr.

Lemma about_app conn tr es : about conn (tr ++ es) = about conn tr ++ about conn es.
Proof. apply filter_app. Qed.
Lemma read_bytes_app tr es : read_bytes (tr ++ es) = read_bytes tr ++ read_bytes es.
Proof. unfold read_bytes. by rewrite omap_app, concat_app. Qed.
Lemma taken_app tr es : taken (tr ++ es) = taken tr ++ taken es.
Proof. apply omap_app. Qed.
Lemma answered_app tr es : answered (tr ++ es) = answered tr ++ answered es.
Proof. apply omap_app. Qed.
Lemma notes_app tr es : notes (tr ++ es) = notes tr ++ notes es.
Proof. apply omap_app. Qed.

Lemma about_own conn es : Forall (fun e => conn_of e = conn) es -> about conn es = es.
Proof. induction 1 as [|e es He _ IH]; [done|]. unfold about in *. by rewrite filter_cons_True, IH. Qed.

Lemma about_none conn es : Forall (fun e => conn_of e <> conn) es -> about conn es = [].
Proof. induction 1 as [|e es He _ IH]; [done|]. unfold about in *. by rewrite filter_cons_False. Qed.

(** A line up to its CRLF, which is the first. *)
Definition one_line (l : list char) : Prop := forall x y, l ++ [chr 13] <> x ++ [chr 13; chr 10] ++ y.
Definition with_crlf (l : list char) : list char := l ++ [chr 13; chr 10].

(** [text], with the identifier of the request in front when it has one. *)
Definition reply_line (id text : list char) : list char :=
  (if bool_decide (id = []) then text else id ++ ":"%char :: text) ++ [chr 13; chr 10].

Section Wire.
Context (numThreads : Z).

(** [line] asks to solve [puzzle]: [id:puzzle], and just [puzzle] unless there are several workers. *)
Definition asks (line id puzzle : list char) : Prop :=
  zlen puzzle = 81 /\
  ((":"%char ∉ id /\ line = id ++ ":"%char :: puzzle) \/ (numThreads <= 1 /\ ":"%char ∉ line /\ id = [] /\ line = puzzle)).

(** [text] answers [line], and is recorded as [n]. *)
Definition replies (line text : list char) (n : note) : Prop :=
  match n with
  | Response _ true => exists id puzzle g, asks line id puzzle /\ text = reply_line id (SudokuTheory.text g) /\ solution g /\ extends (digits puzzle) g
  | Response _ false => exists id puzzle, asks line id puzzle /\ text = reply_line id (lit "NoSolution") /\
      ~ (board (digits puzzle) /\ exists g, solution g /\ extends (digits puzzle) g)
  | Dropped => exists id puzzle, asks line id puzzle /\ text = reply_line id (lit "ServerTooBusy")
  | BadRequest => ~ (exists id puzzle, asks line id puzzle) /\ text = with_crlf (lit "Bad Request!")
  end.

(** What is said about no line refuses the connection: no line in more than 100 bytes, or a peer that
    does not read. *)
Definition says_ok (text : list char) (n : note) (line : option (list char)) : Prop :=
  match line with
  | Some l => replies l text n
  | None => n = BadRequest /\ (text = with_crlf (lit "Id too long!") \/ text = with_crlf (lit "Bad Request!"))
  end.

Definition event_ok (e : event) : Prop := match e with Says _ text _ n line => says_ok text n line | _ => True end.

Definition request_ok (req : Request) : Prop := asks (req_line req) (req_id req) (req_puzzle req).

Lemma labelled_reply id text : labelled id text = reply_line id text.
Proof. unfold labelled, reply_line. destruct id as [|x id]; [done|]. rewrite bool_decide_false by done. by rewrite <- (assoc_L app). Qed.

Lemma parseRequest_ok t line :
  match parseRequest numThreads t line with
  | Some req => request_ok req /\ req_line req = line /\ req_time req = t
  | None => ~ exists id puzzle, asks line id puzzle
  end.
Proof.
  unfold parseRequest. destruct (find_char colon line) as [k|] eqn:Ek.
  - apply find_char_Some in Ek as (l1 & l2 & -> & Hn & ->). rewrite take_zlen, drop_zlen. cbn [req_puzzle]. unfold kCells.
    destruct (zlen l2 =? 81) eqn:Ez.
    + split; [|done]. unfold request_ok, asks. cbn. split; [lia|]. by left.
    + intros (id & puzzle & Hz & [[Hid E]|(_ & Hc & _)]).
      * assert (Hl : Some (zlen l1) = Some (zlen id)).
        { rewrite <- (find_char_app colon l1 l2 Hn), E. by apply find_char_app. }
        injection Hl as Hl. assert (l1 = id /\ colon :: l2 = ":"%char :: puzzle) as [-> E2].
        { apply app_inj_1; [unfold zlen in Hl; lia|done]. }
        injection E2 as ->. lia.
      * destruct Hc. set_solver.
  - apply find_char_None in Ek. destruct (1 <? numThreads) eqn:E1.
    + intros (id & puzzle & _ & [[_ E]|(Hle & _)]); [|lia]. destruct Ek. rewrite E. set_solver.
    + cbn [req_puzzle]. unfold kCells. destruct (zlen line =? 81) eqn:Ez.
      * split; [|done]. unfold request_ok, asks. cbn. split; [lia|]. right. split_and!; [lia|done..].
      * intros (id & puzzle & Hz & [[_ E]|(_ & _ & _ & E)]); [destruct Ek; rewrite E; set_solver|]. subst. lia.
Qed.

(** A line asks one thing. *)
Lemma asks_unique line id puzzle id' puzzle' : asks line id puzzle -> asks line id' puzzle' -> id = id' /\ puzzle = puzzle'.
Proof.
  assert (H1 : forall l1 l2, ":"%char ∉ l1 ++ ":"%char :: l2 -> False) by set_solver.
  intros [_ [[Hi E]|(_ & Hn & -> & ->)]] [_ [[Hi' E']|(_ & Hn' & -> & E')]].
  - rewrite E in E'. assert (Hl : Some (zlen id) = Some (zlen id')).
    { rewrite <- (find_char_app ":"%char id puzzle Hi), E'. by apply find_char_app. }
    injection Hl as Hl. assert (id = id' /\ ":"%char :: puzzle = ":"%char :: puzzle') as [-> E2] by (apply app_inj_1; [unfold zlen in Hl; lia|done]).
    by injection E2 as ->.
  - rewrite E in Hn'. by apply H1 in Hn'.
  - rewrite E' in Hn. by apply H1 in Hn.
  - done.
Qed.

Lemma solve_right req : request_ok req -> exists text n, solve req = Ok (text, n) /\ replies (req_line req) text n /\ n <> BadRequest.
Proof.
  intros Hreq. pose proof Hreq as [Hz _]. unfold solve. destruct (solveSudoku_spec (req_puzzle req) Hz) as [[_ (g & -> & Hg & He)]|[-> Hno]]; cbn [mbind res_bind].
  - do 2 eexists. split; [done|]. split; [|done]. rewrite bool_decide_false.
    + cbn. exists (req_id req), (req_puzzle req), g. by rewrite labelled_reply.
    + intros E. apply (f_equal zlen) in E. destruct Hg as [Hg _]. unfold text, zlen in *. rewrite length_fmap in E. rewrite Hg in E. by vm_compute in E.
  - do 2 eexists. split; [done|]. split; [|done]. cbn. exists (req_id req), (req_puzzle req). by rewrite labelled_reply.
Qed.
End Wire.

(** ** What is spread over a map *)

Definition spread {A B} (f : Z -> A -> list B) (m : gmap Z A) : list B := map_to_list m ≫= (fun p => f p.1 p.2).

Lemma spread_new {A B} (f : Z -> A -> list B) m k a : m !! k = None -> spread f (<[k := a]> m) ≡ₚ f k a ++ spread f m.
Proof. intros Hk. unfold spread. by rewrite map_to_list_insert. Qed.

Lemma spread_delete {A B} (f : Z -> A -> list B) m k a : m !! k = Some a -> spread f m ≡ₚ f k a ++ spread f (delete k m).
Proof. intros Hk. unfold spread. by rewrite <- (map_to_list_delete m k a Hk). Qed.

(** An entry that changes takes its part with it. *)
Lemma spread_update {A B} (f : Z -> A -> list B) m k a a' :
  m !! k = Some a -> spread f (<[k := a']> m) ++ f k a ≡ₚ spread f m ++ f k a'.
Proof.
  intros Hk. rewrite (spread_delete f m k a Hk), <- insert_delete_eq, spread_new by apply lookup_delete_eq.
  rewrite (Permutation_app_comm (f k a ++ _)), <- (assoc_L app). apply Permutation_app_head, Permutation_app_comm.
Qed.

Lemma spread_same {A B} (f : Z -> A -> list B) m k a a' : m !! k = Some a -> f k a' = f k a -> spread f (<[k := a']> m) ≡ₚ spread f m.
Proof. intros Hk E. eapply Permutation_app_inv_r. rewrite (spread_update f m k a a' Hk), E. done. Qed.

(** Counting occurrences decides a permutation. *)
#[local] Instance note_eq_dec : EqDecision note.
Proof. solve_decision. Defined.

Lemma exchange {A} `{EqDecision A} (T D S S' L L' Q Q' R te ae : list A) :
  T ≡ₚ D ++ S ++ Q ++ R -> S' ++ L ≡ₚ S ++ L' -> te ++ L ++ Q ≡ₚ ae ++ L' ++ Q' -> T ++ te ≡ₚ (D ++ ae) ++ S' ++ Q' ++ R.
Proof.
  intros H1 H2 H3. apply (Permutation_count_occ (decide_rel (=))). intros x.
  pose proof (proj1 (Permutation_count_occ (decide_rel (=)) _ _) H1 x) as E1. pose proof (proj1 (Permutation_count_occ (decide_rel (=)) _ _) H2 x) as E2.
  pose proof (proj1 (Permutation_count_occ (decide_rel (=)) _ _) H3 x) as E3. rewrite !count_occ_app in *. lia.
Qed.

(** ** The invariant *)

Definition tally (p : note -> bool) (l : list note) : Z := zlen (filter (fun n => p n = true) l).
Definition a_response (n : note) : bool := match n with Response _ _ => true | _ => false end.
Definition a_solution (n : note) : bool := match n with Response _ solved => solved | _ => false end.
Definition a_drop (n : note) : bool := match n with Dropped => true | _ => false end.
Definition a_refusal (n : note) : bool := match n with BadRequest => true | _ => false end.

Lemma tally_snoc p l n : tally p (l ++ [n]) = tally p l + if p n then 1 else 0.
Proof. unfold tally. rewrite filter_app, zlen_app, filter_cons, filter_nil. f_equal. case_decide as E; destruct (p n); done. Qed.

Definition is_close (e : event) : bool := match e with Closes _ => true | _ => false end.

Section Theory.
Context {Q : Type} `{CL : CircularLog Q} `{!CircularLogLaws Q} (numThreads : Z).
Abbreviation Server := (@Server Q) (only parsing).
Implicit Type s : Server.

(** The lines and the notes in the hands of a connection's loop and of a worker. *)
Definition client_line (c : Client) : list (list char) :=
  match at_ c with
  | Counting _ _ l | Processing _ _ l | Telling _ _ (Some l) _ => [l]
  | Queueing _ _ req => [req_line req]
  | _ => []
  end.
Definition client_notes (c : Client) : list note := match at_ c with Closing => [BadRequest] | Recording n _ => [n] | _ => [] end.
Definition client_uncounted (c : Client) : list (list char) := match at_ c with Counting _ _ l => [l] | _ => [] end.
Definition job_line (j : job) : list (Z * list char) := match j with Solving conn req => [(conn, req_line req)] | Answered _ _ => [] end.
Definition job_notes (j : job) : list note := match j with Solving _ _ => [] | Answered _ n => [n] end.

Definition queued (q : list (Z * Request)) : list (Z * list char) := (fun t => (t.1, req_line t.2)) <$> q.

(** The lines taken and not answered yet; the notes of what was said and is not recorded yet; the
    lines taken and not counted yet. *)
Definition held s : list (Z * list char) :=
  spread (fun conn c => (fun l => (conn, l)) <$> client_line c) (clients s) ++ queued (queue s) ++ spread (fun _ => job_line) (running s).
Definition unrecorded s : list note := spread (fun _ => client_notes) (clients s) ++ spread (fun _ => job_notes) (running s).
Definition uncounted s : list (list char) := spread (fun _ => client_uncounted) (clients s).

Definition after_ok (after : option (Timestamp * Z)) (len : Z) : Prop := match after with Some (_, l) => l = len | None => True end.

Definition handler_ok (h : handler) (len : Z) : Prop :=
  match h with
  | Idle | Closing => True
  | Looking _ l | Counting _ l _ | Processing _ l _ => l = len
  | Queueing _ l req => l = len /\ request_ok numThreads req
  | Telling text n line after => says_ok numThreads text n line /\ (n = BadRequest <-> after = None) /\ after_ok after len
  | Recording n after => after_ok after len
  end.

(** A connection after its events [tr]. *)
Record client_ok (tr : list event) (c : Client) : Prop := {
  co_input : inv (input c);
  co_throttle : context c = writeCompleteCallback_ c /\ highWaterMark_ c = (if context c then 10 else 5) * kMiB;
  co_connected : connected c = negb (existsb is_close tr);
  co_bytes : read_bytes tr = concat (with_crlf <$> (taken tr).*2) ++ content (input c);
  co_lines : Forall one_line (taken tr).*2;
  co_handler : handler_ok (at_ c) (zlen (content (input c)))
}.

(** What is said is accepted if the connection was not shut down before. *)
Definition accepted_ok (tr : list event) : Prop :=
  forall tr1 conn text a n line tr2, tr = tr1 ++ Says conn text a n line :: tr2 -> a = negb (existsb is_close (about conn tr1)).

Definition totals (l : list note) (st : SudokuStat Q) : Prop :=
  totalResponses_ st = tally a_response l /\ totalSolved_ st = tally a_solution l /\
  droppedRequests_ st = tally a_drop l /\ badRequests_ st = tally a_refusal l.

Definition task_ok s (conn : Z) (req : Request) : Prop := request_ok numThreads req /\ is_Some (clients s !! conn).

Record sinv (tr : list event) s : Prop := {
  si_clients : forall conn c, clients s !! conn = Some c -> client_ok (about conn tr) c;
  si_new : forall conn, clients s !! conn = None -> about conn tr = [];
  si_events : Forall (event_ok numThreads) tr;
  si_accepted : accepted_ok tr;
  si_lines : taken tr ≡ₚ answered tr ++ held s;
  si_queue : Forall (fun t => task_ok s t.1 t.2) (queue s);
  si_running : forall w conn req, running s !! w = Some (Solving conn req) -> task_ok s conn req;
  si_stat : exists ops, stat_ok ops (stat s);
  si_recorded : exists recorded, notes tr ≡ₚ recorded ++ unrecorded s /\ totals recorded (stat s);
  si_requests : totalRequests_ (stat s) + zlen (uncounted s) = zlen (taken tr)
}.

Lemma accepted_snoc tr e :
  accepted_ok tr -> (forall conn text a n line, e = Says conn text a n line -> a = negb (existsb is_close (about conn tr))) -> accepted_ok (tr ++ [e]).
Proof.
  intros Ht He tr1 conn text a n line tr2 E. destruct tr2 as [|e2 tr2 _] using rev_ind.
  - apply app_inj_tail in E as [-> ->]. by eapply He.
  - rewrite app_comm_cons, (assoc_L app) in E. apply app_inj_tail in E as [-> ->]. by eapply Ht.
Qed.

Lemma record_ok now n (st : SudokuStat Q) :
  0 < secondsSinceEpoch now -> (exists ops, stat_ok ops st) ->
  exists st', record now n st = Ok st' /\ (exists ops, stat_ok ops st') /\ totalRequests_ st' = totalRequests_ st /\
    forall l, totals l st -> totals (l ++ [n]) st'.
Proof.
  intros Hnow (ops & Hs).
  assert (H : exists op st', record now n st = stat_step op st /\ stat_step op st = Ok st' /\ stat_ok (ops ++ [op]) st' /\
    is_request op = false /\ since_reset (ops ++ [op]) = since_reset ops ++ [op] /\ is_response op = a_response n /\ is_solved op = a_solution n /\ is_dropped op = a_drop n /\ is_bad op = a_refusal n).
  { assert (Hgo : forall op, positive_time op -> op <> OpReset -> record now n st = stat_step op st ->
      exists st', record now n st = stat_step op st /\ stat_step op st = Ok st' /\ stat_ok (ops ++ [op]) st' /\ since_reset (ops ++ [op]) = since_reset ops ++ [op]).
    { intros op Hp Hr E. destruct (stat_step_ok ops op st Hp Hs) as (st' & E' & Hs'). exists st'. split_and!; [done..|]. rewrite since_reset_snoc. by destruct op. }
    destruct n as [t solved| |].
    - destruct (Hgo (OpResponse now t solved)) as (st' & ? & ? & ? & ?); [done..|]. by exists (OpResponse now t solved), st'.
    - destruct (Hgo OpDropped) as (st' & ? & ? & ? & ?); [done..|]. by exists OpDropped, st'.
    - destruct (Hgo OpBadRequest) as (st' & ? & ? & ? & ?); [done..|]. by exists OpBadRequest, st'. }
  destruct H as (op & st' & -> & E & Hs' & H1 & H0 & H2 & H3 & H4 & H5). exists st'. split; [done|]. split; [by eexists|].
  destruct Hs as [_ R1 R2 R3 R4 _ _ R5], Hs' as [_ R1' R2' R3' R4' _ _ R5'].
  rewrite H0, how_many_snoc in *. rewrite <- R1 in R1'. rewrite <- R2 in R2'. rewrite <- R3 in R3'. rewrite <- R4 in R4'. rewrite <- R5 in R5'.
  split; [rewrite R1', H1; lia|]. intros l (T1 & T2 & T3 & T4). unfold totals. rewrite !tally_snoc, <- T1, <- T2, <- T3, <- T4, <- H2, <- H3, <- H4, <- H5. done.
Qed.

(** ** Steps of a connection's loop *)

(** An event of a connection: what it says is accepted if it is connected. *)
Definition event_now (conn : Z) (c : Client) (es : list event) : Prop :=
  match es with
  | [] => True
  | [e] => conn_of e = conn /\ event_ok numThreads e /\ match e with Says _ _ a _ _ => a = connected c | _ => True end
  | _ => False
  end.

Lemma event_now_conn conn c es : event_now conn c es -> Forall (fun e => conn_of e = conn) es.
Proof. destruct es as [|e [|]]; [constructor|intros [? _]; by repeat constructor|done]. Qed.

Lemma event_now_ok conn c es : event_now conn c es -> Forall (event_ok numThreads) es.
Proof. destruct es as [|e [|]]; [constructor|intros (_ & ? & _); by repeat constructor|done]. Qed.

Lemma event_now_accepted tr conn c es : accepted_ok tr -> client_ok (about conn tr) c -> event_now conn c es -> accepted_ok (tr ++ es).
Proof.
  intros Ht Hc. destruct es as [|e [|]]; [by rewrite app_nil_r| |done]. intros (He & _ & Ha). apply accepted_snoc; [done|].
  intros conn' text a n line ->. cbn in *. subst conn' a. apply Hc.
Qed.

Lemma is_Some_insert conn (c : Client) (m : gmap Z Client) k : is_Some (m !! k) -> is_Some (<[conn := c]> m !! k).
Proof. intros Hk. destruct (decide (k = conn)) as [->|?]; [rewrite lookup_insert_eq; by eexists|by rewrite lookup_insert_ne]. Qed.

(** The connections' part of the invariant when one of them makes a step. *)
Lemma clients_step tr es s conn c c' :
  sinv tr s -> clients s !! conn = Some c -> event_now conn c es -> client_ok (about conn tr ++ es) c' ->
  (forall k x, <[conn := c']> (clients s) !! k = Some x -> client_ok (about k (tr ++ es)) x) /\
  (forall k, <[conn := c']> (clients s) !! k = None -> about k (tr ++ es) = []).
Proof.
  intros Hs Hc He Hc'. apply event_now_conn in He. assert (Hother : forall k, k <> conn -> about k (tr ++ es) = about k tr).
  { intros k Hk. rewrite about_app, (about_none k es), app_nil_r; [done|]. eapply Forall_impl; [exact He|]. by intros e <-. }
  split; intros k.
  - intros x. destruct (decide (k = conn)) as [->|Hk].
    + rewrite lookup_insert_eq. intros [= <-]. by rewrite about_app, (about_own conn es).
    + rewrite lookup_insert_ne, Hother by done. apply Hs.
  - destruct (decide (k = conn)) as [->|Hk]; [by rewrite lookup_insert_eq|]. rewrite lookup_insert_ne, Hother by done. apply Hs.
Qed.

Lemma client_step tr es s conn c c' q' st' r :
  sinv tr s -> clients s !! conn = Some c -> event_now conn c es -> client_ok (about conn tr ++ es) c' ->
  taken es ++ ((fun l => (conn, l)) <$> client_line c) ++ queued (queue s) ≡ₚ answered es ++ ((fun l => (conn, l)) <$> client_line c') ++ queued q' ->
  notes es ++ client_notes c ++ [] ≡ₚ r ++ client_notes c' ++ [] ->
  Forall (fun t => task_ok s t.1 t.2) q' -> (exists ops, stat_ok ops st') ->
  (forall l, totals l (stat s) -> totals (l ++ r) st') ->
  totalRequests_ st' + zlen (client_uncounted c') = totalRequests_ (stat s) + zlen (client_uncounted c) + zlen (taken es) ->
  sinv (tr ++ es) (mkServer (<[conn := c']> (clients s)) q' (running s) st').
Proof.
  intros Hs Hc He Hc' Hl Hn Hq Hst Ht Hrq. destruct (clients_step _ _ _ _ _ _ Hs Hc He Hc') as [H1 H2].
  pose proof (si_clients _ _ Hs _ _ Hc) as Hok. split; cbn; [done|done| | | | | |done| |].
  - apply Forall_app. split; [apply Hs|by eapply event_now_ok].
  - eapply event_now_accepted; [apply Hs|done|done].
  - rewrite taken_app, answered_app. eapply exchange; [apply Hs| |exact Hl]. by apply (spread_update (fun conn c => (fun l => (conn, l)) <$> client_line c)).
  - eapply Forall_impl; [exact Hq|]. intros t [? ?]. split; [done|by apply is_Some_insert].
  - intros w k req Hw. destruct (si_running _ _ Hs w k req Hw). split; [done|by apply is_Some_insert].
  - destruct (si_recorded _ _ Hs) as (rec & Hrec & Htot). exists (rec ++ r). split; [|by apply Ht]. rewrite notes_app.
    eapply (exchange _ _ _ _ _ _ [] [] _ _ _ Hrec); [by apply (spread_update (fun _ => client_notes))|exact Hn].
  - pose proof (si_requests _ _ Hs) as Hr. rewrite taken_app, zlen_app.
    pose proof (Permutation_length (spread_update (fun _ => client_uncounted) (clients s) conn c c' Hc)) as Hu. rewrite !length_app in Hu.
    unfold uncounted in *. cbn. unfold zlen in *. lia.
Qed.

(** A step that says nothing, takes nothing and leaves the queue and the statistics alone. *)
Lemma quiet_step tr s conn c c' :
  sinv tr s -> clients s !! conn = Some c -> client_ok (about conn tr) c' ->
  client_line c' = client_line c -> client_notes c' = client_notes c -> client_uncounted c' = client_uncounted c ->
  sinv tr (set_client conn c' s).
Proof.
  intros Hs Hc Hc' El En Eu. rewrite <- (app_nil_r tr). destruct s as [cl q ru st]. apply (client_step tr [] (mkServer cl q ru st) conn c c' q st []); try done.
  - by rewrite app_nil_r.
  - by rewrite El.
  - by rewrite En.
  - apply Hs.
  - apply Hs.
  - intros l. by rewrite app_nil_r.
  - rewrite Eu. unfold zlen. cbn. lia.
Qed.

Lemma client_ok_at tr c h : client_ok tr c -> handler_ok h (zlen (content (input c))) -> client_ok tr (set_at h c).
Proof. intros [? ? ? ? ? ?] Hh. by split. Qed.

Lemma client_ok_says tr c conn text a n line : client_ok tr c -> client_ok (tr ++ [Says conn text a n line]) c.
Proof.
  intros [H1 H2 H3 H4 H5 H6]. split; [done|done| | | |done].
  - rewrite H3, existsb_app. cbn. by rewrite orb_false_r.
  - by rewrite read_bytes_app, taken_app, H4, !app_nil_r.
  - by rewrite taken_app, app_nil_r.
Qed.

Lemma client_ok_closes tr c conn : client_ok tr c -> client_ok (tr ++ [Closes conn]) (shut_down c).
Proof.
  intros [H1 H2 H3 H4 H5 H6]. split; [done|done| | | |done]; cbn.
  - rewrite existsb_app. cbn. by rewrite orb_true_r.
  - by rewrite read_bytes_app, taken_app, H4, !app_nil_r.
  - by rewrite taken_app, app_nil_r.
Qed.

Lemma split_one_line x line rest : split_line x = Some (line, rest) -> one_line line.
Proof.
  unfold split_line. destruct (std_search kCRLF x) as [i|] eqn:E; [|done]. intros [= <- _].
  apply std_search_Some in E as (H0 & [l2 Hl2] & Hfirst). intros u v Euv.
  assert (Hlen : (length u < Z.to_nat i)%nat).
  { apply (f_equal length) in Euv. rewrite !length_app, length_take in Euv. cbn in Euv. lia. }
  assert (Hp : is_prefix kCRLF (drop (length u) x) = true); [|by rewrite (Hfirst _ Hlen) in Hp].
  apply is_prefix_spec. exists (v ++ chr 10 :: l2).
  rewrite <- (take_drop (Z.to_nat i) x), Hl2. change (kCRLF ++ l2) with ([chr 13] ++ chr 10 :: l2).
  rewrite (assoc_L app), Euv, <- (assoc_L app), drop_app_length, <- (assoc_L app). done.
Qed.

Lemma proceed_head tr s conn c t len :
  sinv tr s -> clients s !! conn = Some c -> at_ c = Looking t len ->
  exists es c', onMessage_round conn t len c = Ok (es, c') /\ sinv (tr ++ es) (set_client conn c' s).
Proof.
  intros Hs Hc Hat. pose proof (si_clients _ _ Hs _ _ Hc) as Hok. pose proof (co_handler _ _ Hok) as Hh. rewrite Hat in Hh. cbn in Hh.
  pose proof (co_input _ _ Hok) as Hi. unfold onMessage_round.
  assert (Hquiet : forall h, handler_ok h (zlen (content (input c))) -> client_line (set_at h c) = [] -> client_notes (set_at h c) = [] ->
    client_uncounted (set_at h c) = [] -> sinv (tr ++ []) (set_client conn (set_at h c) s)).
  { intros h Hh' E1 E2 E3. rewrite app_nil_r. apply (quiet_step tr s conn c); [done|done|by apply client_ok_at|..];
      rewrite ?E1, ?E2, ?E3; unfold client_line, client_notes, client_uncounted; by rewrite Hat. }
  destruct (kCells + 2 <=? len); [|do 2 eexists; split; [done|]; by apply Hquiet].
  pose proof (line_of_buffer (input c) Hi) as Hl. destruct (split_line (content (input c))) as [[line rest]|] eqn:Esp.
  2:{ rewrite Hl. cbn [mbind res_bind]. do 2 eexists. split; [done|]. destruct (100 <? len); [|by apply Hquiet]. apply Hquiet; try done. cbn. split_and!; [done|by left|done|done]. }
  destruct Hl as (p & b & -> & Hr & Hb & Hib & Hcb). cbn [mbind res_bind]. rewrite Hr. cbn [mbind res_bind]. rewrite Hb. cbn [mbind res_bind].
  do 2 eexists. split; [done|]. pose proof (split_one_line _ _ _ Esp) as Hone. apply split_line_Some in Esp. destruct s as [cl q ru st].
  apply (client_step tr _ (mkServer cl q ru st) conn c _ q st []); try done.
  - destruct Hok as [G1 G2 G3 G4 G5 G6]. split; cbn; [done|done| | | |].
    + rewrite existsb_app. cbn. by rewrite orb_false_r.
    + rewrite read_bytes_app, taken_app, G4, fmap_app, fmap_app, concat_app, Hcb, Esp, <- !(assoc_L app). cbn.
      rewrite ?app_nil_r. unfold with_crlf.
      by rewrite <- !(assoc_L app).
    + rewrite taken_app, fmap_app. apply Forall_app. split; [done|]. by apply Forall_singleton.
    + by rewrite readableBytes_content.
  - unfold client_line. rewrite Hat. done.
  - unfold client_notes. by rewrite Hat.
  - apply Hs.
  - apply Hs.
  - intros l. by rewrite app_nil_r.
  - unfold client_uncounted. rewrite Hat. cbn. unfold zlen. cbn. lia.
Qed.

(** A step of a handler that is not at the loop's head: the input stays. *)
Ltac handler_step s c Hat :=
  unfold client_line, client_notes, client_uncounted; cbn; rewrite ?Hat; cbn; try done.

Lemma proceed_counting tr s conn c t len request :
  sinv tr s -> clients s !! conn = Some c -> at_ c = Counting t len request ->
  sinv tr (set_client conn (set_at (Processing t len request) c) (set_stat (recordRequest (stat s)) s)).
Proof.
  intros Hs Hc Hat. pose proof (si_clients _ _ Hs _ _ Hc) as Hok. pose proof (co_handler _ _ Hok) as Hh. rewrite Hat in Hh.
  rewrite <- (app_nil_r tr). destruct s as [cl q ru st]. apply (client_step tr [] (mkServer cl q ru st) conn c _ q _ []); try done.
  - rewrite app_nil_r. by apply client_ok_at.
  - handler_step s c Hat.
  - handler_step s c Hat.
  - apply Hs.
  - destruct (si_stat _ _ Hs) as (ops & Hst). destruct (stat_step_ok ops OpRequest st I Hst) as (st' & [= <-] & ?). by eexists.
  - intros l. by rewrite app_nil_r.
  - handler_step s c Hat; unfold zlen; cbn; lia.
Qed.

Lemma processRequest_quiet tr s conn c t len request h :
  sinv tr s -> clients s !! conn = Some c -> at_ c = Processing t len request ->
  handler_ok h (zlen (content (input c))) -> client_line (set_at h c) = [request] -> client_notes (set_at h c) = [] ->
  client_uncounted (set_at h c) = [] -> sinv tr (set_client conn (set_at h c) s).
Proof.
  intros Hs Hc Hat Hh E1 E2 E3. pose proof (si_clients _ _ Hs _ _ Hc) as Hok. apply (quiet_step tr s conn c); [done|done|by apply client_ok_at|..];
    rewrite ?E1, ?E2, ?E3; handler_step s c Hat.
Qed.

Lemma proceed_processing tr s conn c t len request :
  sinv tr s -> clients s !! conn = Some c -> at_ c = Processing t len request ->
  sinv tr (set_client conn (set_at (processRequest numThreads t len request (context c) (zlen (queue s))) c) s).
Proof.
  intros Hs Hc Hat. pose proof (co_handler _ _ (si_clients _ _ Hs _ _ Hc)) as Hh. rewrite Hat in Hh. cbn in Hh. unfold processRequest.
  pose proof (parseRequest_ok numThreads t request) as Hp. destruct (parseRequest numThreads t request) as [req|].
  - destruct Hp as (Hreq & El & _). destruct (_ && _); apply (processRequest_quiet tr s conn c t len request); try done.
    + unfold client_line. cbn. by rewrite El.
    + cbn. split; [|done]. exists (req_id req), (req_puzzle req). rewrite labelled_reply. split; [|done]. unfold request_ok in Hreq. by rewrite El in Hreq.
  - by apply (processRequest_quiet tr s conn c t len request).
Qed.

Lemma proceed_queueing tr s conn c t len req :
  sinv tr s -> clients s !! conn = Some c -> at_ c = Queueing t len req ->
  exists h s', run_task numThreads conn t len req s = Ok (h, s') /\ sinv tr (set_client conn (set_at h c) s').
Proof.
  intros Hs Hc Hat. pose proof (si_clients _ _ Hs _ _ Hc) as Hok. pose proof (co_handler _ _ Hok) as Hh. rewrite Hat in Hh. destruct Hh as [Hlen Hreq].
  unfold run_task. destruct (numThreads =? 0).
  - destruct (solve_right numThreads req Hreq) as (text & n & -> & Hr & Hn). cbn [mbind res_bind]. do 2 eexists. split; [done|].
    apply (quiet_step tr s conn c); [done|done| |handler_step s c Hat..]. by apply client_ok_at.
  - do 2 eexists. split; [done|]. rewrite <- (app_nil_r tr). destruct s as [cl q ru st]. apply (client_step tr [] (mkServer cl q ru st) conn c _ _ st []); try done.
    + rewrite app_nil_r. by apply client_ok_at.
    + handler_step s c Hat; unfold queued; rewrite fmap_app; cbn; apply Permutation_cons_append.
    + handler_step s c Hat.
    + apply Forall_app. split; [apply Hs|]. apply Forall_singleton. split; [done|]. cbn in *. rewrite Hc. by eexists.
    + apply Hs.
    + intros l. by rewrite app_nil_r.
    + handler_step s c Hat; unfold zlen; cbn; lia.
Qed.

Lemma proceed_telling tr s conn c text n line after :
  sinv tr s -> clients s !! conn = Some c -> at_ c = Telling text n line after ->
  sinv (tr ++ [Says conn text (connected c) n line]) (set_client conn (set_at (told n after) c) s).
Proof.
  intros Hs Hc Hat. pose proof (si_clients _ _ Hs _ _ Hc) as Hok. pose proof (co_handler _ _ Hok) as Hh. rewrite Hat in Hh. destruct Hh as (Ht & Hn & Ha).
  destruct s as [cl q ru st]. apply (client_step tr _ (mkServer cl q ru st) conn c _ q st []); try done.
  - apply (client_ok_at _ c); [by apply client_ok_says|]. unfold told. by destruct n.
  - handler_step s c Hat; destruct n, line; done.
  - handler_step s c Hat; destruct n; done.
  - apply Hs.
  - apply Hs.
  - intros l. by rewrite app_nil_r.
  - handler_step s c Hat; destruct n; cbn; unfold zlen; cbn; lia.
Qed.

Lemma proceed_closing tr s conn c :
  sinv tr s -> clients s !! conn = Some c -> at_ c = Closing ->
  sinv (tr ++ [Closes conn]) (set_client conn (set_at (Recording BadRequest None) (shut_down c)) s).
Proof.
  intros Hs Hc Hat. pose proof (si_clients _ _ Hs _ _ Hc) as Hok.
  destruct s as [cl q ru st]. apply (client_step tr _ (mkServer cl q ru st) conn c _ q st []); try done.
  - apply (client_ok_at _ (shut_down c)); [by apply client_ok_closes|done].
  - handler_step s c Hat.
  - handler_step s c Hat.
  - apply Hs.
  - apply Hs.
  - intros l. by rewrite app_nil_r.
  - handler_step s c Hat; unfold zlen; cbn; lia.
Qed.

Lemma proceed_recording tr s conn c n after now :
  sinv tr s -> clients s !! conn = Some c -> at_ c = Recording n after -> 0 < secondsSinceEpoch now ->
  exists st, record now n (stat s) = Ok st /\ sinv tr (set_client conn (set_at (resume after) c) (set_stat st s)).
Proof.
  intros Hs Hc Hat Hnow. pose proof (si_clients _ _ Hs _ _ Hc) as Hok. pose proof (co_handler _ _ Hok) as Hh. rewrite Hat in Hh. cbn in Hh.
  destruct (record_ok now n (stat s) Hnow (si_stat _ _ Hs)) as (st' & E & Hst & Hq & Ht). exists st'. split; [done|].
  rewrite <- (app_nil_r tr). destruct s as [cl q ru st]. apply (client_step tr [] (mkServer cl q ru st) conn c _ q st' [n]); try done.
  - rewrite app_nil_r. apply client_ok_at; [done|]. destruct after as [[t l]|]; done.
  - handler_step s c Hat; destruct after as [[t l]|]; done.
  - handler_step s c Hat; destruct after as [[t l]|]; done.
  - apply Hs.
  - rewrite Hq. handler_step s c Hat; destruct after as [[t l]|]; cbn; unfold zlen; cbn; lia.
Qed.

Lemma proceed_ok tr s conn now :
  sinv tr s -> is_busy conn s = true -> 0 < secondsSinceEpoch now -> exists es s', proceed numThreads now conn s = Ok (es, s') /\ sinv (tr ++ es) s'.
Proof.
  intros Hs Hb Hnow. unfold is_busy in Hb. destruct (clients s !! conn) as [c|] eqn:Hc; [|done]. unfold proceed. rewrite Hc. cbn [get mbind res_bind].
  destruct (at_ c) as [|t len|t len request|t len request|t len req|text n line after| |n after] eqn:Hat; [done|..].
  - destruct (proceed_head tr s conn c t len Hs Hc Hat) as (es & c' & -> & ?). cbn [mbind res_bind]. by do 2 eexists.
  - do 2 eexists. split; [done|]. rewrite app_nil_r. by apply (proceed_counting tr s conn c).
  - do 2 eexists. split; [done|]. rewrite app_nil_r. by apply (proceed_processing tr s conn c).
  - destruct (proceed_queueing tr s conn c t len req Hs Hc Hat) as (h & s' & -> & ?). cbn [mbind res_bind]. do 2 eexists. split; [done|]. by rewrite app_nil_r.
  - do 2 eexists. split; [done|]. by apply (proceed_telling tr s conn c text n line after).
  - do 2 eexists. split; [done|]. by apply (proceed_closing tr s conn c).
  - destruct (proceed_recording tr s conn c n after now Hs Hc Hat Hnow) as (st & -> & ?). cbn [mbind res_bind]. do 2 eexists. split; [done|]. by rewrite app_nil_r.
Qed.

(** ** Callbacks *)

Lemma connect_ok tr s conn b : sinv tr s -> inv b -> content b = [] -> clients s !! conn = None -> sinv tr (onConnection conn b s).
Proof.
  intros Hs Hb Hbn Hc. pose proof (si_new _ _ Hs _ Hc) as Hab. set (c0 := mkClient b true false false (5 * kMiB) false Idle).
  split; try apply Hs; cbn.
  - intros k x. destruct (decide (k = conn)) as [->|?]; [|rewrite lookup_insert_ne by done; apply Hs]. rewrite lookup_insert_eq, Hab. intros [= <-].
    split; cbn; first [done|by rewrite Hbn].
  - intros k. destruct (decide (k = conn)) as [->|?]; [by rewrite lookup_insert_eq|]. rewrite lookup_insert_ne by done. apply Hs.
  - rewrite (si_lines _ _ Hs). apply Permutation_app_head. unfold held. cbn. apply Permutation_app_tail. by rewrite spread_new.
  - eapply Forall_impl; [apply Hs|]. intros t [? ?]. split; [done|by apply is_Some_insert].
  - intros w k req Hw. destruct (si_running _ _ Hs w k req Hw). split; [done|by apply is_Some_insert].
  - destruct (si_recorded _ _ Hs) as (rec & Hrec & Htot). exists rec. split; [|done]. rewrite Hrec. apply Permutation_app_head.
    unfold unrecorded. cbn. apply Permutation_app_tail. by rewrite spread_new.
  - pose proof (si_requests _ _ Hs) as Hr. pose proof (Permutation_length (spread_new (fun _ => client_uncounted) _ conn c0 Hc)) as Hu. cbn in Hu.
    unfold uncounted, zlen in *. cbn. fold c0. unfold spread in *. rewrite Hu. done.
Qed.

Lemma is_idle_spec conn s : is_idle conn s = true -> exists c, clients s !! conn = Some c /\ at_ c = Idle.
Proof. unfold is_idle. destruct (clients s !! conn) as [c|]; [|done]. intros H. exists c. split; [done|]. by destruct (at_ c). Qed.

(** A callback of an idle connection that says nothing. *)
Lemma callback_ok tr s conn c c' es :
  sinv tr s -> clients s !! conn = Some c -> at_ c = Idle -> event_now conn c es -> taken es = [] -> answered es = [] -> notes es = [] ->
  client_ok (about conn tr ++ es) c' -> client_line c' = [] -> client_notes c' = [] -> client_uncounted c' = [] -> sinv (tr ++ es) (set_client conn c' s).
Proof.
  intros Hs Hc Hat He E1 E2 E3 Hok L1 L2 L3. destruct s as [cl q ru st]. apply (client_step tr es (mkServer cl q ru st) conn c c' q st []); try done.
  - rewrite E1, E2, L1. handler_step s c Hat.
  - rewrite E3, L2. handler_step s c Hat.
  - apply Hs.
  - apply Hs.
  - intros l. by rewrite app_nil_r.
  - rewrite E1, L3. handler_step s c Hat; unfold zlen; cbn; lia.
Qed.

Lemma onMessage_ok tr s conn d t :
  sinv tr s -> is_idle conn s = true -> zlen d <= max_size ->
  outcome LengthError (onMessage conn d t s) (fun r => sinv (tr ++ r.1) r.2).
Proof.
  intros Hs (c & Hc & Hat)%is_idle_spec Hd. unfold onMessage. rewrite Hc. cbn [get mbind res_bind]. pose proof (si_clients _ _ Hs _ _ Hc) as [G1 G2 G3 G4 G5 G6].
  destruct (append_outcome d (input c) G1 Hd) as [(b & -> & Hib & Hcb)|[-> _]]; [|by right]. left. cbn [mbind res_bind]. eexists. split; [done|]. cbn.
  apply (callback_ok tr s conn c); try done. split; cbn; [done|done| | | |].
  - rewrite existsb_app. cbn. by rewrite orb_false_r.
  - rewrite read_bytes_app, taken_app, G4, !app_nil_r, Hcb, <- (assoc_L app). change (read_bytes [Reads conn d]) with (d ++ []). by rewrite app_nil_r.
  - by rewrite taken_app, app_nil_r.
  - by rewrite readableBytes_content.
Qed.

Lemma highWaterMark_ok tr s conn tosend :
  sinv tr s -> is_idle conn s = true -> exists s', highWaterMark conn tosend s = Ok ([], s') /\ sinv tr s'.
Proof.
  intros Hs (c & Hc & Hat)%is_idle_spec. unfold highWaterMark. rewrite Hc. cbn [get mbind res_bind]. eexists. split; [done|].
  pose proof (si_clients _ _ Hs _ _ Hc) as Hok. apply (quiet_step tr s conn c); [done|done|..].
  - destruct (tosend <? 10 * kMiB); [destruct Hok; by split|]. apply client_ok_at; [done|]. cbn. split_and!; [done|by right|done|done].
  - destruct (tosend <? 10 * kMiB); handler_step s c Hat.
  - destruct (tosend <? 10 * kMiB); handler_step s c Hat.
  - destruct (tosend <? 10 * kMiB); handler_step s c Hat.
Qed.

Lemma writeComplete_ok tr s conn : sinv tr s -> is_idle conn s = true -> exists s', writeComplete conn s = Ok ([], s') /\ sinv tr s'.
Proof.
  intros Hs (c & Hc & Hat)%is_idle_spec. unfold writeComplete. rewrite Hc. cbn [get mbind res_bind]. eexists. split; [done|].
  pose proof (si_clients _ _ Hs _ _ Hc) as Hok. apply (quiet_step tr s conn c); [done|done|destruct Hok; by split|done..].
Qed.

Lemma disconnected_ok tr s conn : sinv tr s -> is_idle conn s = true -> exists s', disconnected conn s = Ok ([Closes conn], s') /\ sinv (tr ++ [Closes conn]) s'.
Proof.
  intros Hs (c & Hc & Hat)%is_idle_spec. unfold disconnected. rewrite Hc. cbn [get mbind res_bind]. eexists. split; [done|].
  pose proof (si_clients _ _ Hs _ _ Hc) as Hok. apply (callback_ok tr s conn c); try done; [|handler_step s c Hat..].
  destruct (client_ok_closes _ _ conn Hok). by split.
Qed.

(** ** Workers *)

(** Either nothing is said, or something to a connection that goes on. *)
Definition said_now tr es s : Prop :=
  es = [] \/ exists conn c, clients s !! conn = Some c /\ event_now conn c es /\ client_ok (about conn tr ++ es) c.

Lemma said_now_ok tr es s :
  sinv tr s -> said_now tr es s ->
  (forall k x, clients s !! k = Some x -> client_ok (about k (tr ++ es)) x) /\ (forall k, clients s !! k = None -> about k (tr ++ es) = []) /\
  Forall (event_ok numThreads) (tr ++ es) /\ accepted_ok (tr ++ es).
Proof.
  intros Hs [->|(conn & c & Hc & He & Hc')]; [rewrite app_nil_r; split_and!; apply Hs|].
  pose proof (si_clients _ _ Hs _ _ Hc) as Hok. destruct (clients_step tr es s conn c c Hs Hc He Hc') as [H1 H2]. rewrite insert_id in H1, H2 by done.
  split_and!; [done|done| |by eapply event_now_accepted; [apply Hs|..]]. apply Forall_app. split; [apply Hs|by eapply event_now_ok].
Qed.

Lemma worker_step tr es s q' m' st' r :
  sinv tr s -> said_now tr es s -> taken es = [] ->
  queued (queue s) ++ spread (fun _ => job_line) (running s) ≡ₚ answered es ++ queued q' ++ spread (fun _ => job_line) m' ->
  notes es ++ spread (fun _ => job_notes) (running s) ≡ₚ r ++ spread (fun _ => job_notes) m' ->
  Forall (fun t => task_ok s t.1 t.2) q' -> (forall w k req, m' !! w = Some (Solving k req) -> task_ok s k req) ->
  (exists ops, stat_ok ops st') -> (forall l, totals l (stat s) -> totals (l ++ r) st') -> totalRequests_ st' = totalRequests_ (stat s) ->
  sinv (tr ++ es) (mkServer (clients s) q' m' st').
Proof.
  intros Hs He Et Hl Hn Hq Hm Hst Ht Hrq. destruct (said_now_ok tr es s Hs He) as (H1 & H2 & H3 & H4).
  split; cbn; [exact H1|exact H2|exact H3|exact H4| |exact Hq|exact Hm|exact Hst| |].
  - rewrite taken_app, answered_app, Et, app_nil_r, (si_lines _ _ Hs), <- (assoc_L app). apply Permutation_app_head. unfold held. cbn.
    rewrite Hl, !(assoc_L app), (Permutation_app_comm (answered es)). done.
  - destruct (si_recorded _ _ Hs) as (rec & Hrec & Htot). exists (rec ++ r). split; [|by apply Ht]. rewrite notes_app, Hrec. unfold unrecorded. cbn.
    rewrite <- !(assoc_L app). apply Permutation_app_head. rewrite (Permutation_app_comm (spread _ (running s))), Hn, !(assoc_L app).
    apply Permutation_app_tail, Permutation_app_comm.
  - rewrite Hrq, taken_app, Et, app_nil_r. apply Hs.
Qed.

Lemma take_task_ok tr s w : sinv tr s -> running s !! w = None -> exists s', take_task w s = Ok ([], s') /\ sinv tr s'.
Proof.
  intros Hs Hw. unfold take_task. destruct (queue s) as [|t rest] eqn:Eq; [by eexists|]. eexists. split; [done|].
  pose proof (si_queue _ _ Hs) as Hq. rewrite Eq in Hq. apply Forall_cons in Hq as [Ht Hq].
  rewrite <- (app_nil_r tr). apply (worker_step tr [] s rest _ (stat s) []); try done.
  - by left.
  - rewrite Eq, spread_new by done. cbn. apply Permutation_middle.
  - cbn. by rewrite spread_new.
  - intros w' k req. destruct (decide (w' = w)) as [->|?]; [rewrite lookup_insert_eq; by intros [= <- <-]|]. rewrite lookup_insert_ne by done. apply Hs.
  - apply Hs.
  - intros l. by rewrite app_nil_r.
Qed.

Lemma work_ok tr s w now :
  sinv tr s -> is_Some (running s !! w) -> 0 < secondsSinceEpoch now -> exists es s', work now w s = Ok (es, s') /\ sinv (tr ++ es) s'.
Proof.
  intros Hs [j Hj] Hnow. unfold work. rewrite Hj. cbn [get mbind res_bind]. destruct j as [conn req|conn n].
  - destruct (si_running _ _ Hs w conn req Hj) as [Hreq [c Hc]]. destruct (solve_right numThreads req Hreq) as (text & n & -> & Hr & Hn).
    cbn [mbind res_bind]. rewrite Hc. cbn [get mbind res_bind]. do 2 eexists. split; [done|].
    apply (worker_step tr _ s (queue s) _ (stat s) []); try done.
    + right. exists conn, c. split_and!; [done|done|]. apply client_ok_says, Hs, Hc.
    + pose proof (spread_update (fun _ => job_line) (running s) w _ (Answered conn n) Hj) as Hu. cbn in Hu. rewrite app_nil_r in Hu. cbn.
      rewrite <- Hu, (assoc_L app). symmetry. apply Permutation_cons_append.
    + pose proof (spread_update (fun _ => job_notes) (running s) w _ (Answered conn n) Hj) as Hu. cbn in Hu. rewrite app_nil_r in Hu. cbn.
      rewrite Hu. apply Permutation_cons_append.
    + apply Hs.
    + intros w' k r. destruct (decide (w' = w)) as [->|?]; [by rewrite lookup_insert_eq|]. rewrite lookup_insert_ne by done. apply Hs.
    + apply Hs.
    + intros l. by rewrite app_nil_r.
  - destruct (record_ok now n (stat s) Hnow (si_stat _ _ Hs)) as (st' & -> & Hst & Hq & Ht). cbn [mbind res_bind]. do 2 eexists. split; [done|].
    apply (worker_step tr [] s (queue s) _ st' [n]); try done.
    + by left.
    + cbn. apply Permutation_app_head. by rewrite (spread_delete _ _ _ _ Hj).
    + cbn. by rewrite (spread_delete _ _ _ _ Hj).
    + apply Hs.
    + intros w' k r [_ Hw']%lookup_delete_Some. by apply (si_running _ _ Hs w').
Qed.

(** ** Runs *)

Definition good (a : step) : Prop :=
  match a with
  | Connect _ b => inv b /\ content b = []
  | Receive _ d _ => zlen d <= max_size
  | Proceed _ now | Work _ now => 0 < secondsSinceEpoch now
  | _ => True
  end.

Lemma step_sinv tr a s :
  good a -> enabled numThreads a s = true -> sinv tr s -> outcome LengthError (perform numThreads a s) (fun r => sinv (tr ++ r.1) r.2).
Proof.
  intros Ha He Hs. destruct a as [conn b|conn d t|conn tosend|conn|conn|conn now|w|w now]; cbn [perform good enabled] in *.
  - left. eexists. split; [done|]. cbn. rewrite app_nil_r. apply bool_decide_eq_true in He. destruct Ha. by apply connect_ok.
  - apply andb_true_iff in He as [He _]. by apply onMessage_ok.
  - left. destruct (highWaterMark_ok tr s conn tosend Hs He) as (s' & -> & ?). eexists. split; [done|]. cbn. by rewrite app_nil_r.
  - left. destruct (writeComplete_ok tr s conn Hs He) as (s' & -> & ?). eexists. split; [done|]. cbn. by rewrite app_nil_r.
  - left. apply andb_true_iff in He as [He _]. destruct (disconnected_ok tr s conn Hs He) as (s' & -> & ?). by eexists.
  - left. destruct (proceed_ok tr s conn now Hs He Ha) as (es & s' & -> & ?). by eexists.
  - left. rewrite !andb_true_iff in He. destruct He as [[_ Hw%bool_decide_eq_true] _]. destruct (take_task_ok tr s w Hs Hw) as (s' & -> & ?).
    eexists. split; [done|]. cbn. by rewrite app_nil_r.
  - left. apply bool_decide_eq_true in He. destruct (work_ok tr s w now Hs He Ha) as (es & s' & -> & ?). by eexists.
Qed.

(** The states that can be reached, with the events on the way. *)
Inductive reachable : list event -> Server -> Prop :=
| Init : reachable [] newServer
| Step tr a es s s' : reachable tr s -> good a -> enabled numThreads a s = true -> perform numThreads a s = Ok (es, s') -> reachable (tr ++ es) s'.

Lemma reachable_sinv tr s : reachable tr s -> sinv tr s.
Proof.
  induction 1 as [|tr a es s s' _ IH Ha He E].
  - split; try done; cbn.
    + intros tr1 conn text a n line tr2 E. by destruct tr1.
    + exists []. apply newStat_ok.
    + by exists [].
  - destruct (step_sinv tr a s Ha He IH) as [(r & E1 & Hr)|E1]; [|congruence]. rewrite E in E1. by injection E1 as <-.
Qed.

Lemma closed_before tr conn : negb (existsb is_close (about conn tr)) = true <-> Closes conn ∉ tr.
Proof.
  rewrite negb_true_iff, <- not_true_iff_false. apply not_iff_compat. rewrite existsb_exists. setoid_rewrite <- list_elem_of_In.
  split; [|intros H; exists (Closes conn); split; [by apply list_elem_of_filter|done]].
  intros (e & [He Hin]%list_elem_of_filter & Hc). by destruct e; cbn in *; subst.
Qed.

(** ** A handler returns *)

(** What a connection's loop has to do still: three places per byte that is there at most. *)
Definition budget (c : Client) : nat :=
  8 * length (content (input c)) +
  match at_ c with
  | Idle => 0
  | Recording _ None => 3 | Closing => 4 | Telling _ _ _ None => 5
  | Looking _ _ => 6
  | Recording _ (Some _) => 7 | Telling _ _ _ (Some _) => 8
  | Queueing _ _ _ => 9 | Processing _ _ _ => 10 | Counting _ _ _ => 11
  end.

Lemma proceed_budget tr s conn c now es s' :
  sinv tr s -> clients s !! conn = Some c -> at_ c <> Idle -> proceed numThreads now conn s = Ok (es, s') ->
  exists c', clients s' !! conn = Some c' /\ (budget c' < budget c)%nat.
Proof.
  intros Hs Hc Hidle. pose proof (si_clients _ _ Hs _ _ Hc) as Hok. pose proof (co_handler _ _ Hok) as Hh. unfold proceed. rewrite Hc. cbn [get mbind res_bind].
  unfold budget at 2. destruct (at_ c) as [|t len|t len request|t len request|t len req|text n line after| |n after] eqn:Hat; [done|..]; intros H; inv_res H.
  - destruct a as [es1 c1]. inv_res H. subst. exists c1. split; [cbn; apply lookup_insert_eq|]. revert Ha. unfold onMessage_round.
    destruct (kCells + 2 <=? len); [|intros [= _ <-]; unfold budget; cbn; lia].
    pose proof (line_of_buffer (input c) (co_input _ _ Hok)) as Hl. destruct (split_line (content (input c))) as [[line rest]|] eqn:Esp.
    + destruct Hl as (p & b & -> & Hr & Hb & Hib & Hcb). cbn [mbind res_bind]. rewrite Hr. cbn [mbind res_bind]. rewrite Hb. cbn [mbind res_bind].
      intros [= _ <-]. unfold budget. cbn. apply split_line_Some in Esp. rewrite Hcb, Esp, !length_app. cbn. lia.
    + rewrite Hl. cbn [mbind res_bind]. intros [= _ <-]. unfold budget. cbn. destruct (100 <? len); lia.
  - subst. eexists. split; [cbn; apply lookup_insert_eq|]. unfold budget. cbn. lia.
  - subst. eexists. split; [cbn; apply lookup_insert_eq|]. unfold budget. cbn. unfold processRequest. destruct (parseRequest _ _ _); [destruct (_ && _)|]; cbn; lia.
  - destruct a as [h s1]. inv_res H. subst. eexists. split; [cbn; apply lookup_insert_eq|]. revert Ha. unfold run_task.
    destruct (numThreads =? 0); intros Ha; inv_res Ha; [destruct a as [text n]; inv_res Ha|]; subst; unfold budget; cbn; lia.
  - subst. eexists. split; [cbn; apply lookup_insert_eq|]. unfold budget. cbn. destruct Hh as (_ & Hn & _). unfold told.
    destruct n, after; cbn; try lia; exfalso; naive_solver.
  - subst. eexists. split; [cbn; apply lookup_insert_eq|]. unfold budget. cbn. lia.
  - subst. eexists. split; [cbn; apply lookup_insert_eq|]. unfold budget. cbn. destruct after as [[t l]|]; cbn; lia.
Qed.

(** A line of the right form goes to the pool, unless the connection is throttled or a million
    requests wait. *)
Lemma busy_only_when tr s conn c t len line now id puzzle :
  sinv tr s -> clients s !! conn = Some c -> at_ c = Processing t len line -> asks numThreads line id puzzle ->
  exists s', proceed numThreads now conn s = Ok ([], s') /\
    at_ <$> clients s' !! conn = Some (if context c || (1000000 <=? zlen (queue s))
      then Telling (reply_line id (lit "ServerTooBusy")) Dropped (Some line) (Some (t, len)) else Queueing t len (mkReq id puzzle t line)).
Proof.
  intros Hs Hc Hat Ha. unfold proceed. rewrite Hc. cbn [get mbind res_bind]. rewrite Hat. eexists. split; [done|]. cbn. rewrite lookup_insert_eq. cbn.
  unfold processRequest. pose proof (parseRequest_ok numThreads t line) as Hp. destruct (parseRequest numThreads t line) as [[id' puzzle' t' line']|].
  - destruct Hp as (Hreq & El & Et). cbn in El, Et. unfold request_ok in Hreq. cbn in Hreq. subst line' t'.
    destruct (asks_unique _ _ _ _ _ _ Hreq Ha) as [-> ->]. cbn. rewrite labelled_reply.
    change (1000 * 1000) with 1000000. destruct (context c); [by rewrite andb_false_r|]. rewrite andb_true_r. cbn.
    destruct (1000000 <=? zlen (queue s)) eqn:E; [by replace (zlen (queue s) <? 1000000) with false by lia|by replace (zlen (queue s) <? 1000000) with true by lia].
  - destruct Hp. by exists id, puzzle.
Qed.

(** [C8] Every request is accounted for.  Whatever clients send and however the steps of the
    connections' loops and of the workers interleave (several lines of one read, and sending an
    answer and recording it, are separate steps): no step fails but for want of memory; the bytes
    read from a connection are the lines taken, cut at the first CRLF, and what is in its buffer;
    every line taken is answered once, on its connection, or is still in the hands of a loop, the
    queue or a worker; an answer is, under the line's identifier, a solution of the 81 characters
    after the colon, or NoSolution when they have none, or ServerTooBusy, and Bad Request! exactly
    for a line that is no request; ServerTooBusy is said exactly when the connection is throttled or
    a million requests wait; what is said is accepted unless the connection was shut down or gone
    before; each handler returns; and, the statistics not being reset, their totals count the lines
    and what was said, less what a loop or a worker is about to record. *)
Theorem every_request_accounted tr s :
  reachable tr s ->
  (forall a, good a -> enabled numThreads a s = true -> outcome LengthError (perform numThreads a s) (fun r => reachable (tr ++ r.1) r.2)) /\
  (forall conn c, clients s !! conn = Some c ->
    read_bytes (about conn tr) = concat (with_crlf <$> (taken (about conn tr)).*2) ++ content (input c) /\
    Forall one_line (taken (about conn tr)).*2 /\ context c = writeCompleteCallback_ c) /\
  taken tr ≡ₚ answered tr ++ held s /\
  (forall tr1 conn text a n line tr2, tr = tr1 ++ Says conn text a n line :: tr2 ->
    says_ok numThreads text n line /\ (a = true <-> Closes conn ∉ tr1)) /\
  (forall conn c t len line now id puzzle, clients s !! conn = Some c -> at_ c = Processing t len line -> asks numThreads line id puzzle ->
    exists s', perform numThreads (Proceed conn now) s = Ok ([], s') /\
      at_ <$> clients s' !! conn = Some (if context c || (1000000 <=? zlen (queue s))
        then Telling (reply_line id (lit "ServerTooBusy")) Dropped (Some line) (Some (t, len)) else Queueing t len (mkReq id puzzle t line))) /\
  (forall conn c now es s', clients s !! conn = Some c -> at_ c <> Idle -> perform numThreads (Proceed conn now) s = Ok (es, s') ->
    exists c', clients s' !! conn = Some c' /\ (budget c' < budget c)%nat) /\
  (exists recorded, notes tr ≡ₚ recorded ++ unrecorded s /\ totals recorded (stat s)) /\
  totalRequests_ (stat s) + zlen (uncounted s) = zlen (taken tr).
Proof.
  intros Hr. pose proof (reachable_sinv tr s Hr) as Hs. split_and!; try apply Hs.
  - intros a Ha He. destruct (step_sinv tr a s Ha He Hs) as [([es s'] & E & _)|E]; [left; eexists; split; [done|by eapply Step]|by right].
  - intros conn c Hc. pose proof (si_clients _ _ Hs _ _ Hc) as [_ [Ht _] _ Hb Hl _]. done.
  - intros tr1 conn text a n line tr2 E. split.
    + pose proof (si_events _ _ Hs) as He. rewrite E in He. apply Forall_app in He as [_ [He _]%Forall_cons]. done.
    + rewrite (si_accepted _ _ Hs _ _ _ _ _ _ _ E). by apply closed_before.
  - intros conn c t len line now id puzzle. by apply (busy_only_when tr).
  - intros conn c now es s'. by apply (proceed_budget tr).
Qed.
End Theory.

(** ** Runs *)

Module ProdRuns.
Fixpoint run (l : list step) (tr : list event) (s : @Server list_log) : res (list event * @Server list_log) :=
  match l with
  | [] => Ok (tr, s)
  | a :: l => if enabled 2 a s then r ← perform 2 a s; run l (tr ++ r.1) r.2 else Fault (Thrown "not enabled")
  end.

Lemma prod_run_reachable l tr s tr' s' :
  Forall good l -> reachable 2 tr s -> run l tr s = Ok (tr', s') -> reachable 2 tr' s'.
Proof.
  intros Hl. revert tr s. induction Hl as [|a l Ha _ IH]; intros tr s Hs; cbn [run]; [by intros [= <- <-]|].
  destruct (enabled 2 a s) eqn:En; [|done]. destruct (perform 2 a s) as [[es s1]|] eqn:E; cbn [mbind res_bind]; [|done].
  apply IH. by eapply Step.
Qed.

Definition outcome_of (l : list step) : list event * @Server list_log := match run l [] newServer with Ok r => r | Fault _ => ([], newServer) end.
Definition runs_ok (l : list step) : bool := match run l [] newServer with Ok _ => true | Fault _ => false end.

Lemma outcome_of_ok l : runs_ok l = true -> run l [] newServer = Ok ((outcome_of l).1, (outcome_of l).2).
Proof. unfold runs_ok, outcome_of. destruct (run l [] newServer) as [[]|]; done. Qed.

Definition now : Timestamp := 100000000.
Definition line (id : string) : list char := lit id ++ lit ":" ++ puzzle1.
Definition wire (id : string) : list char := with_crlf (line id).
Definition go (conn : Z) (n : nat) : list step := replicate n (Proceed conn now).

(** What was said: the connection, the first characters, whether it was accepted, the line it is about. *)
Definition summary (tr : list event) : list (Z * list char * bool * option (list char)) :=
  omap (fun e => match e with Says conn text a _ l => Some (conn, take 3 text, a, take 3 <$> l) | _ => None end) tr.

(** A worker takes the first request before the second line is looked at; the workers finish in the
    other order; the connection is throttled meanwhile and a third request refused; the second
    answer is sent and not recorded yet. *)
Definition busy_run : list step :=
  [Connect 1 server_buffer; Receive 1 (wire "a" ++ wire "b") 0] ++ go 1 4 ++ [Take 0] ++ go 1 5 ++ [Take 1; Work 1 now; Work 1 now;
   HighWater 1 (6 * kMiB); Receive 1 (wire "c") 0] ++ go 1 6 ++ [Work 0 now].

Example busy_history :
  summary (outcome_of busy_run).1 =
    [(1, lit "b:6", true, Some (lit "b:0")); (1, lit "c:S", true, Some (lit "c:0")); (1, lit "a:6", true, Some (lit "a:0"))] /\
  totalResponses_ (stat (outcome_of busy_run).2) = 1 /\ droppedRequests_ (stat (outcome_of busy_run).2) = 1.
Proof. vm_compute. auto. Qed.

(** A bad line shuts the connection down while an earlier request is being solved: its answer is lost. *)
Example bad_line_loses_answer :
  summary (outcome_of ([Connect 1 server_buffer; Receive 1 (wire "a" ++ with_crlf (replicate 90 "x"%char)) 0] ++ go 1 4 ++ [Take 0] ++ go 1 6 ++ [Work 0 now])).1 =
    [(1, lit "Bad", true, Some (lit "xxx")); (1, lit "a:6", false, Some (lit "a:0"))].
Proof. vm_compute. reflexivity. Qed.

(** Of the three lines two are answered and recorded; the answer to the first is about to be. *)
Lemma every_request_accounted_witness :
  [(1, line "a"); (1, line "b"); (1, line "c")] ≡ₚ [(1, line "b"); (1, line "c"); (1, line "a")] ++ held (outcome_of busy_run).2 /\
  totalRequests_ (stat (outcome_of busy_run).2) + 0 = 3 /\
  (exists recorded, notes (outcome_of busy_run).1 ≡ₚ recorded ++ [Response 0 true] /\ totalResponses_ (stat (outcome_of busy_run).2) = tally a_response recorded).
Proof.
  assert (Hr : reachable 2 (outcome_of busy_run).1 (outcome_of busy_run).2).
  { apply (prod_run_reachable busy_run [] newServer); [|constructor|apply outcome_of_ok; vm_compute; reflexivity].
    unfold busy_run, go. cbn [replicate app].
    repeat (apply Forall_cons; split; [cbn [good]; first [exact I|vm_compute; repeat split; discriminate|vm_compute; reflexivity]|]). by apply Forall_nil. }
  destruct (every_request_accounted 2 _ _ Hr) as (_ & _ & Hg & _ & _ & _ & Hn & Hq).
  assert (E1 : taken (outcome_of busy_run).1 = [(1, line "a"); (1, line "b"); (1, line "c")]) by (vm_compute; reflexivity).
  assert (E2 : answered (outcome_of busy_run).1 = [(1, line "b"); (1, line "c"); (1, line "a")]) by (vm_compute; reflexivity).
  assert (E3 : uncounted (outcome_of busy_run).2 = []) by (vm_compute; reflexivity).
  assert (E4 : unrecorded (outcome_of busy_run).2 = [Response 0 true]) by (vm_compute; reflexivity).
  rewrite E1, E2 in Hg. rewrite E3, E1 in Hq. rewrite E4 in Hn. split_and!; [exact Hg|exact Hq|].
  destruct Hn as (recorded & Hp & Ht & _). exists recorded. split; [exact Hp|exact Ht].
Defined.
End ProdRuns.
